(* ===== verification/_CoqProject ===== *)
-Q . S2P
Prelude.v
BigInt.v
Sha256.v
Hexutil.v
HexutilProofs.v
Zkp.v
ZkpProofs.v
ZkpClaims.v
Types.v
Api.v
Exchange.v
GoHeap.v
TxList.v
TxListProofs.v
Rlp.v
RlpProofs.v
RlpStream.v
CMdb.v
Gas.v
TxPool.v
TxPoolProofs.v
Transfer.v
ExchangeProofs.v
PoolClaims.v
StateDB.v
StateProofs.v
StateClaims.v
Trie.v
TrieProofs.v
TrieClaims.v
TrieHash.v
TrieHashProofs.v
MerkleProofs.v
MerkleClaims.v
TrieDb.v
TrieDbGc.v
TrieDbOps.v
TrieDbFlush.v
TrieDbClaims.v
TrieCommit.v
TrieCommitProofs.v
TrieCommitOps.v
TrieCommitClaims.v
Evm.v
EvmProofs.v
Transition.v
EvmClaims.v
Word.v
WordProofs.v
Instructions.v
Machine.v
MachineProofs.v
WordClaims.v
RefundProofs.v
SafeInstructions.v
SafeTables.v
MachineClaims.v
SafeClaims.v
Clique.v
CliqueProofs.v
CliqueClaims.v
Chain.v
ChainProofs.v
ChainClaims.v
ChainInsert.v
ChainInsertProofs.v
ChainInsertClaims.v
ChainHead.v
ChainHeadClaims.v
PoolOps.v
PoolOpsClaims.v
Regulator.v
RegulatorClaims.v
Pow.v
PowTables.v
PowClaims.v
Ethash.v
EthashClaims.v
