(* ===== verification/Prelude.v ===== *)
(** * Verification of the Maskash node

    The program is a go-ethereum 1.9 node ([src/go-ethereum-release-1.9]) with
    a private currency: a coin is a commitment to a value, a transfer spends
    one coin and creates two, with zero-knowledge proofs that the values
    balance and that a regulator can decrypt them; an exchange server
    ([src/exchange]) issues coins. Paths below are relative to the node.

    ** How the parts work together

    A wallet asks the node over RPC to assemble a private transaction
    (internal/ethapi); the arguments are hexadecimal text (common/hexutil).
    The RPC generates commitments, ciphertexts and proofs (crypto/zkp), the
    transaction pool verifies them, looks the coins up in the commitment
    database (core/rawdb, through rlp) and locks the input (core/tx_pool.go,
    with the lists of core/tx_list.go and the heap of the Go library). The
    exchange encrypts and signs a purchase that takes the same way. A signer
    whose turn it is makes a block (consensus/clique); applying its messages
    (core/state_transition.go) runs calls (core/vm) on the journaled accounts
    (core/state), whose tries (trie) hold accounts and storage; the chain
    (core/blockchain.go) stores the block, marks its coins spent, commits its
    state to the node database and makes the heaviest block the head.

    ** Files

    - [Prelude]: machine integers with their wrap-around, the [outcome] monad
      (value, error, panic), byte strings and big-endian numbers, shared
      lemmas, tactics and hint databases. [BigInt]: Go's math/big. [Sha256]:
      crypto/sha256.
    - [Hexutil], [HexutilProofs]: common/hexutil/hexutil.go and json.go.
    - [Zkp] models crypto/zkp (Elgamal.go, commit.go, utils.go, zkp.go);
      [ZkpProofs] and [ZkpClaims] prove completeness, special
      soundness and the limits of the proofs. Random draws are an explicit
      stream, the hash is a parameter.
    - [Types] (core/types/transaction.go), [Api] (checkParameter,
      toZeroTransaction and toExTransaction of internal/ethapi/api.go).
    - [Exchange], [ExchangeProofs]: src/exchange, and the way of a purchase
      from /buy to the pool. [Transfer]: the way of a transfer from the RPC
      through the proof checks of the pool.
    - [GoHeap] (container/heap), [TxList], [TxListProofs] (core/tx_list.go).
    - [Rlp] (rlp/encode.go, raw.go, decode.go), [RlpProofs], [RlpStream].
    - [CMdb]: the commitment records of core/rawdb, byte for byte.
    - [Gas]: IntrinsicGas and the gas pool.
    - [TxPool] (core/tx_pool.go, tx_noncer.go and the price index of
      tx_list.go), [TxPoolProofs], [PoolClaims]; [PoolOps] (batches, limits,
      price threshold, eviction, resets), [PoolOpsClaims].
    - [StateDB] (core/state: statedb.go, state_object.go, journal.go),
      [StateProofs], [StateClaims]; the database behind it is the class
      [Backend].
    - [Trie] (trie: encoding.go, node.go, trie.go), [TrieProofs],
      [TrieClaims]; the node database is a parameter. [TrieHash] (hasher.go,
      proof.go, the codec of node.go, Hash and New of trie.go), with
      [TrieHashProofs] (what a hash is the hash of), [MerkleProofs]
      (where module [TrieCodec] shows that the parser inverts the encoder)
      and [MerkleClaims] (with module [MerkleSafety]). [TrieDb] (database.go),
      with [TrieDbGc] (the flush-list, the invariant and the garbage collector),
      [TrieDbOps], [TrieDbFlush] and [TrieDbClaims]; the cache of clean nodes
      and the failures of the disk are the class [Environment]. [TrieCommit]
      (committer.go, secure_trie.go, Commit of trie.go), with
      [TrieCommitProofs] (what the flags of nodes promise and what is stored),
      [TrieCommitOps] (what is read back, in module [ReloadProofs], and the
      operations) and [TrieCommitClaims].
    - [Evm] (core/vm: evm.go, contract.go, the tables of contracts.go, and
      core/evm.go), [EvmProofs]; what a call relies on is the class
      [Interpreter] with its laws [InterpreterLaws]. [Transition]
      (core/state_transition.go), [EvmClaims].
    - The virtual machine: [Word] (common/math, core/vm/common.go, gas.go,
      analysis.go), [Instructions] (stack.go, memory.go, instructions.go),
      [Machine] (gas_table.go, memory_table.go, jump_table.go, eips.go,
      interpreter.go), which is an instance of [Interpreter] for any number
      of call levels; the precompiled contracts are the class [Precompiles].
      [WordProofs], [WordClaims], [MachineProofs] (the laws),
      [RefundProofs] (read-only mode and the refund counter),
      [MachineClaims]; [SafeInstructions] (calls, instructions),
      [SafeTables] (every entry of every jump table) and [SafeClaims]: no
      message panics.
    - [Regulator] (src/Regulator; the text of JSON values is the class [Json]),
      [RegulatorClaims].
    - [Clique] (consensus/clique: snapshot.go, clique.go), [CliqueProofs],
      [CliqueClaims]; signature recovery is a parameter, the snapshot caches
      are the class [Stores].
    - [Pow] (consensus/ethash/algorithm.go and the search of sealer.go),
      [PowTables] (sizes), [PowClaims]; [Ethash] (consensus.go,
      consensus/misc, the headers of core/types/block.go), [EthashClaims].
      Keccak is a parameter.
    - [Chain] (core/blockchain.go, headerchain.go and the accessors of
      core/rawdb: lookups, writing blocks, choosing the head, reorganising),
      [ChainProofs] (one reorganisation), [ChainClaims] (all histories).
      [ChainInsert] (InsertChain, blockchain_insert.go, block_validator.go),
      where the engine and the execution of blocks are the class
      [Processing], with [ChainInsertProofs] and [ChainInsertClaims].
      [ChainHead] (header chains, SetHead, loadLastState, Reset, Rollback),
      [ChainHeadClaims].

    Each model file follows its sources function by function, under the same
    names; a Go struct is a record, an interface an inductive type, a map a
    [gmap], a slice a list, an error a value of an inductive type, and an
    operation that changes state takes the old state and returns the new one.

    ** What the theorems show

    - The currency: honest proofs verify, two accepted proofs with different
      challenges give openings that balance, the pool accepts no second
      transfer of a coin, and a block settles which coins are spent; and where
      this fails (values modulo the group order, equality proofs under one key,
      coins that reorgCM releases, a transfer that creates its own input again).
    - The regulator: registrations are permanent, a later request does not
      register a key again, its own key never changes, and the exchange sells
      only to keys whose registration was asked for, through failures of the
      database, restarts and any interleaving of requests; requests that overlap
      can register one key twice. The exchange: what a purchase that runs alone
      commits to, for every amount; purchases that overlap mix their values.
    - Encodings: RLP and hexadecimal text are written and read back, and only
      canonical input is accepted; commitment records survive the database.
    - The pool's lists: the nonce heap and the map agree after any sequence of
      operations; Ready, Filter and Cap return what they promise. The limit of
      pending transactions ends, and is kept as far as the slots of accounts
      allow; a new head gives back exactly the transactions of the abandoned
      branch, whose coins stay spent; errors of batches are misplaced.
    - The state: reverting to a snapshot restores every answer after any
      operations in between, Finalise settles, failed calls leave no trace,
      and the exact effect of a transfer on all balances, with the wrap-around
      of useGas; money of a deleted account can come back.
    - The virtual machine: every run ends, gives back no more gas than it got
      and leaves what the caller needs to revert it; static calls change
      nothing; no message whose gas limit covers its intrinsic gas, which this
      fork does not check, panics (memory is paid for before it is sliced, the
      stack is checked before it is popped, the refund counter covers what
      storage writes take back) and what it is charged is bounded; the
      arithmetic instructions compute their references, and jumps go to
      instructions only.
    - The trie refines a finite map under updates and deletions, on nodes
      loaded from the database as needed, and stays in normal form. Cached
      hashes stay right, the root hash identifies the content, proofs of
      honest nodes are accepted and accepted proofs are true, all unless two
      of the strings that are hashed collide. The node database keeps every
      node below a live root through collections, flushes and failed writes,
      and the disk is closed under references at every moment. A trie that is
      committed and opened again at its root hash has the same content, given
      keys of one length (as all keys of secure tries are); a value in a
      branch is lost otherwise.
    - The engine: votes and tally agree, signers change by majority only, one
      signer can always go on, sealing and verifying agree, an honest header
      is accepted, and the search for a snapshot ends with the right one.
    - Proof of work: the cache and the dataset give the same hashes, in whatever
      order the dataset was stored, up to 4 GB (and not above); up to there mined
      headers are accepted; the difficulty has its bounds; accepted uncles are recent
      and new, but of any number, for which they are paid.
    - The chain: after any history of writes the blocks found by number are
      the ancestors of the head, the transaction index lists exactly theirs,
      and, as long as no known block that is lighter was made the head, the head
      is as heavy as any block written with its state; markers
      of abandoned blocks stay above a head that is lower than the one before
      it, and blocks off the chain spend coins. The same holds after any
      imports, but for the weight: a known block in the middle of an import
      becomes the head whatever its weight. Rewinding takes away exactly the
      blocks of the chain above the number; a missing head block is never
      recovered from.

    ** Fuel and bounds

    Recursions that are not structural take fuel, and a theorem shows that
    the fuel suffices: twice the key length plus two for the trie (a hash
    node is followed by its expansion, and every other step shortens the
    key), the key length plus one for the proof nodes [VerifyProof] visits
    (every one but the first consumes a part of the key), the length of the
    input plus one for the node parser, the number of entries plus one for
    the walks of the node database (references do not run in circles, which
    the theorems assume of the hashes), the block number plus one for the
    search for a snapshot, for the common ancestor of two blocks and for
    rewinding, one round per transaction for the limit of pending ones, one round per unit of gas plus one for the interpreter loop (an instruction that
    does not end its frame costs gas) and 1025 levels for calls (the depth
    limit of 1024 is checked before each). [uint64] arithmetic wraps ([u64]);
    where the program relies on sizes it cannot exceed (block numbers, lengths
    below 2^56 or 2^63, block gas below 2^64 / 24,000 for the refund counter)
    the theorem says so.

    ** Not modelled

    The bodies of the precompiled contracts, and the abort flag, tracing and
    integer pool of the interpreter; trie iterators; the execution of whole
    blocks, receipts of a fast synchronisation and the ancient store; the files and
    lists of caches and datasets of ethash and its remote sealer, networking and synchronisation, the miner's event loop, key stores,
    storage engines, command line tools, the RPC server and the
    stand-alone copy of the cryptography. How deep imports
    nest (an import of a side chain imports its blocks again) is a bound the
    theorems leave open: they hold for every one. Goroutines and locks are modelled
    in the regulator, the exchange and the generation of datasets only; timers,
    logging and metrics are left out. Keccak, signature
    recovery and caches of third-party packages are parameters. *)

From stdpp Require Import base gmap list.
From Stdlib Require Import ZArith Lia.

Local Open Scope Z_scope.

(** ** Notations, hint databases and tactics *)

Declare Scope go_scope.
Delimit Scope go_scope with go.

Create HintDb go discriminated.
Create Rewrite HintDb go.

(** ** Machine integers

    A Go [uint64] is a [Z] in [0, 2^64); every arithmetic operation that can
    leave the range is followed by [u64]. An [int64] conversion is [i64]. *)

Definition two64 : Z := 2 ^ 64.
Definition u64 (x : Z) : Z := x mod two64.
Definition i64 (x : Z) : Z := (x + 2 ^ 63) mod two64 - 2 ^ 63.
Definition is_u64 (x : Z) : Prop := 0 <= x < two64.
Definition max_u64 : Z := two64 - 1.

Notation "x ⊕ y" := (u64 (x + y)) (at level 50, left associativity) : go_scope.
Notation "x ⊖ y" := (u64 (x - y)) (at level 50, left associativity) : go_scope.
Notation "x ⊗ y" := (u64 (x * y)) (at level 40, left associativity) : go_scope.

Lemma two64_pos : 0 < two64.
Proof. done. Qed.

Lemma u64_range x : is_u64 (u64 x).
Proof. apply Z.mod_pos_bound, two64_pos. Qed.

Lemma u64_small x : is_u64 x → u64 x = x.
Proof. apply Z.mod_small. Qed.

Lemma u64_idemp x : u64 (u64 x) = u64 x.
Proof. apply u64_small, u64_range. Qed.

Lemma i64_small x : - 2 ^ 63 <= x < 2 ^ 63 → i64 x = x.
Proof.
  intros H. unfold i64. rewrite Z.mod_small; [lia|].
  unfold two64. change (2 ^ 64) with (2 ^ 63 + 2 ^ 63). lia.
Qed.

#[export] Hint Resolve u64_range two64_pos : go.
#[export] Hint Rewrite u64_idemp : go.

(** [u64_lia] opens the 64-bit range and calls [lia]. *)
Ltac u64_lia :=
  unfold is_u64, max_u64, two64 in *; lia.

(** ** Outcomes

    A Go function that can fail returns a value, returns an [error], or
    panics (a nil dereference, an index out of range, an explicit [panic]). *)

Inductive outcome (E A : Type) : Type :=
  | Ret (a : A)
  | Err (e : E)
  | Panic.
Arguments Ret {E A} a.
Arguments Err {E A} e.
Arguments Panic {E A}.

#[export] Instance outcome_ret {E} : MRet (outcome E) := λ A a, Ret a.
#[export] Instance outcome_bind {E} : MBind (outcome E) := λ A B k m,
  match m with
  | Ret a => k a
  | Err e => Err e
  | Panic => Panic
  end.

Lemma outcome_bind_Ret {E A B} (m : outcome E A) (k : A → outcome E B) b :
  m ≫= k = Ret b ↔ ∃ a, m = Ret a ∧ k a = Ret b.
Proof. destruct m; naive_solver. Qed.

(** The error of a fuelled loop that did not finish: the Go loop is still
    running, so no Go value corresponds to it. *)
Inductive diverge : Type := OutOfFuel.

(** ** Bytes *)

Abbreviation bytes := (list Byte.byte).

Definition b2z (b : Byte.byte) : Z := Z.of_N (Byte.to_N b).

Definition z2b (z : Z) : Byte.byte :=
  match Byte.of_N (Z.to_N (z mod 256)) with
  | Some b => b
  | None => Byte.x00
  end.

#[export] Instance byte_eq_dec : EqDecision Byte.byte := Byte.byte_eq_dec.

#[export] Instance byte_countable : Countable Byte.byte.
Proof. refine (inj_countable Byte.to_N Byte.of_N _). apply Byte.of_to_N. Defined.

Lemma b2z_range b : 0 <= b2z b < 256.
Proof. unfold b2z. pose proof (Byte.to_N_bounded b). lia. Qed.

Lemma b2z_z2b z : b2z (z2b z) = z mod 256.
Proof.
  pose proof (Z.mod_pos_bound z 256). unfold z2b, b2z.
  destruct (Byte.of_N _) as [b|] eqn:E.
  - apply Byte.to_of_N in E. rewrite E. lia.
  - apply Byte.of_N_None_iff in E. lia.
Qed.

Lemma b2z_inj b1 b2 : b2z b1 = b2z b2 → b1 = b2.
Proof.
  unfold b2z. intros H%N2Z.inj.
  apply (f_equal Byte.of_N) in H. rewrite !Byte.of_to_N in H. congruence.
Qed.

Lemma z2b_b2z b : z2b (b2z b) = b.
Proof.
  apply b2z_inj. rewrite b2z_z2b. apply Z.mod_small, b2z_range.
Qed.

#[export] Hint Resolve b2z_range : go.
#[export] Hint Rewrite b2z_z2b z2b_b2z : go.

(** ** Big-endian integers: [big.Int.SetBytes] and [big.Int.Bytes] *)

Definition be_decode (l : bytes) : Z :=
  foldl (λ acc b, acc * 256 + b2z b) 0 l.

(** [n] bytes, most significant first; higher bits are dropped. *)
Fixpoint fixed_be (n : nat) (x : Z) : bytes :=
  match n with
  | O => []
  | S n => fixed_be n (x / 256) ++ [z2b x]
  end.

Definition byte_len (x : Z) : nat :=
  if x <=? 0 then 0%nat else Z.to_nat (Z.log2 x / 8 + 1).

Definition be_encode (x : Z) : bytes := fixed_be (byte_len (Z.abs x)) (Z.abs x).

Definition pow256 (n : nat) : Z := 256 ^ Z.of_nat n.

Lemma pow256_pos n : 0 < pow256 n.
Proof. unfold pow256. apply Z.pow_pos_nonneg; lia. Qed.

Lemma pow256_S n : pow256 (S n) = 256 * pow256 n.
Proof. unfold pow256. rewrite Nat2Z.inj_succ, Z.pow_succ_r; lia. Qed.

#[export] Hint Resolve pow256_pos : go.

Lemma be_decode_snoc l b : be_decode (l ++ [b]) = be_decode l * 256 + b2z b.
Proof. unfold be_decode. by rewrite foldl_app. Qed.

Lemma be_decode_app l1 l2 :
  be_decode (l1 ++ l2) = be_decode l1 * pow256 (length l2) + be_decode l2.
Proof.
  induction l2 as [|b l2 IH] using rev_ind.
  - rewrite app_nil_r. change (pow256 (length [])) with 1. cbn. lia.
  - rewrite app_assoc, !be_decode_snoc, IH, length_app, Nat.add_1_r, pow256_S.
    lia.
Qed.

Lemma be_decode_cons b l :
  be_decode (b :: l) = b2z b * pow256 (length l) + be_decode l.
Proof. exact (be_decode_app [b] l). Qed.

Lemma be_decode_range l : 0 <= be_decode l < pow256 (length l).
Proof.
  induction l as [|b l IH]; [done|].
  rewrite be_decode_cons. cbn [length]. rewrite pow256_S.
  pose proof (b2z_range b). nia.
Qed.

Lemma be_decode_nonneg l : 0 <= be_decode l.
Proof. apply be_decode_range. Qed.

#[export] Hint Resolve be_decode_range be_decode_nonneg : go.

Lemma length_fixed_be n x : length (fixed_be n x) = n.
Proof.
  revert x. induction n as [|n IH]; intros x; [done|].
  cbn [fixed_be]. rewrite length_app, IH. cbn. lia.
Qed.

Lemma be_decode_fixed n x : be_decode (fixed_be n x) = x mod pow256 n.
Proof.
  revert x. induction n as [|n IH]; intros x.
  - cbn. by rewrite Z.mod_1_r.
  - cbn [fixed_be]. rewrite be_decode_snoc, IH, b2z_z2b, pow256_S.
    rewrite Z.rem_mul_r by (pose proof (pow256_pos n); lia). lia.
Qed.

Lemma fixed_decode l : fixed_be (length l) (be_decode l) = l.
Proof.
  induction l as [|b l IH] using rev_ind; [done|].
  rewrite length_app, Nat.add_1_r. cbn [fixed_be].
  pose proof (b2z_range b).
  rewrite be_decode_snoc.
  rewrite Z.add_comm, Z.div_add, Z.div_small, Z.add_0_l by lia.
  rewrite IH. f_equal. f_equal. apply b2z_inj.
  rewrite b2z_z2b, Z.mod_add, Z.mod_small; lia.
Qed.

Lemma byte_len_bound x : x < pow256 (byte_len x).
Proof.
  unfold byte_len. destruct (Z.leb_spec x 0).
  - pose proof (pow256_pos 0). lia.
  - unfold pow256. pose proof (Z.log2_nonneg x).
    assert (0 <= Z.log2 x / 8) by (apply Z.div_pos; lia).
    rewrite Z2Nat.id by lia.
    change 256 with (2 ^ 8). rewrite <- Z.pow_mul_r by lia.
    apply Z.log2_lt_pow2; [lia|].
    pose proof (Z.mod_pos_bound (Z.log2 x) 8). pose proof (Z.div_mod (Z.log2 x) 8). lia.
Qed.

Lemma byte_len_le x n : 0 <= x < pow256 n → (byte_len x <= n)%nat.
Proof.
  intros [H0 H]. unfold byte_len. destruct (Z.leb_spec x 0); [lia|].
  unfold pow256 in H. change 256 with (2 ^ 8) in H. rewrite <- Z.pow_mul_r in H by lia.
  apply Z.log2_lt_pow2 in H; [|lia].
  apply Nat2Z.inj_le.
  assert (0 <= Z.log2 x / 8) by (apply Z.div_pos; [apply Z.log2_nonneg|lia]).
  rewrite Z2Nat.id by lia.
  enough (Z.log2 x / 8 < Z.of_nat n) by lia.
  apply Z.div_lt_upper_bound; lia.
Qed.

(** [SetBytes] undoes [Bytes] on every non-negative integer. *)
Lemma be_decode_encode x : 0 <= x → be_decode (be_encode x) = x.
Proof.
  intros Hx. unfold be_encode. rewrite Z.abs_eq by done.
  rewrite be_decode_fixed. apply Z.mod_small. pose proof (byte_len_bound x). lia.
Qed.

Lemma length_be_encode_le x n :
  0 <= x < pow256 n → (length (be_encode x) <= n)%nat.
Proof.
  intros H. unfold be_encode. rewrite length_fixed_be.
  apply byte_len_le. rewrite Z.abs_eq; lia.
Qed.

#[export] Hint Rewrite be_decode_encode using (auto with go; lia) : go.

(** The leading zero bytes of a slice, removed. *)
Fixpoint strip0 (l : bytes) : bytes :=
  match l with
  | b :: l' => if b2z b =? 0 then strip0 l' else l
  | [] => []
  end.

Lemma be_decode_strip0 l : be_decode (strip0 l) = be_decode l.
Proof.
  induction l as [|b l IH]; [done|]. cbn [strip0].
  destruct (Z.eqb_spec (b2z b) 0) as [E|]; [|done].
  rewrite IH, be_decode_cons, E. lia.
Qed.

Lemma byte_len_lower l b :
  b2z b ≠ 0 → byte_len (be_decode (b :: l)) = S (length l).
Proof.
  intros Hb. pose proof (be_decode_range (b :: l)) as HR.
  apply byte_len_le in HR as Hle. cbn [length] in Hle.
  apply Nat.le_antisymm; [done|].
  destruct (decide (byte_len (be_decode (b :: l)) ≤ length l)%nat) as [Hc|]; [|lia].
  exfalso. pose proof (byte_len_bound (be_decode (b :: l))) as HB.
  rewrite be_decode_cons in HB at 1.
  pose proof (b2z_range b). pose proof (be_decode_nonneg l).
  assert (pow256 (byte_len (be_decode (b :: l))) <= pow256 (length l)).
  { unfold pow256. apply Z.pow_le_mono_r; lia. }
  pose proof (pow256_pos (length l)). nia.
Qed.

(** [Bytes] of [SetBytes] is the slice without its leading zeros. *)
Lemma be_encode_decode l : be_encode (be_decode l) = strip0 l.
Proof.
  rewrite <- be_decode_strip0. set (l' := strip0 l).
  assert (Hl' : match l' with b :: _ => b2z b ≠ 0 | [] => True end).
  { subst l'. induction l as [|b l IH]; [done|]. cbn [strip0].
    destruct (Z.eqb_spec (b2z b) 0); done. }
  unfold be_encode. rewrite Z.abs_eq by apply be_decode_nonneg.
  destruct l' as [|b l']; [done|].
  rewrite byte_len_lower by done. apply (fixed_decode (b :: l')).
Qed.
