(* ===== verification/BigInt.v ===== *)
(** * BigInt: the operations of Go's [math/big] the program uses

    [big.Int] values are [Z]. [big_exp] is [Exp] with a modulus, [mod_inverse]
    is [ModInverse] ([None] where Go returns nil and leaves the receiver as it
    was), [big_gcd64] is the [int64] the callers truncate a [GCD] to.

    The second half is the arithmetic of the multiplicative group modulo a
    prime the cryptographic components share: congruence as an equivalence
    with the ring operations as morphisms, and exponents that only matter
    modulo [p - 1]. *)

From stdpp Require Import base list.
From Stdlib Require Import ZArith Lia Znumtheory Zpow_facts Zcong Zmod.
From S2P Require Import Prelude.

Local Open Scope Z_scope.

(** ** Operations *)

(** [new(big.Int).Exp(x, y, m)], for an exponent [y >= 0]. *)
Definition big_exp (x y m : Z) : Z := Zpow_mod x y m.

(** [z.ModInverse(g, n)]. *)
Definition mod_inverse (g n : Z) : option Z :=
  if Z.gcd g n =? 1 then Some (Z.invmod g n) else None.

(** [new(big.Int).GCD(nil, nil, a, b).Int64()]. *)
Definition big_gcd64 (a b : Z) : Z := i64 (Z.gcd a b).

(** ** Congruence *)

(** A record, so that rewriting sees the relation and not its definition. *)
Record eqmod (n a b : Z) : Prop := Eqmod { eqmod_eq : a mod n = b mod n }.
Notation "a ≡ b [mod n ]" := (eqmod n a b)
  (at level 70, b at next level, n at level 99, no associativity,
   format "a  ≡  b  [mod  n ]") : go_scope.
Local Open Scope go_scope.

#[export] Instance eqmod_equiv n : Equivalence (eqmod n).
Proof.
  split; intros; constructor; repeat match goal with H : eqmod _ _ _ |- _ => destruct H end;
    congruence.
Qed.

#[export] Instance eqmod_add n : Proper (eqmod n ==> eqmod n ==> eqmod n) Z.add.
Proof. intros a a' [Ha] b b' [Hb]. constructor. by rewrite Zplus_mod, Ha, Hb, <- Zplus_mod. Qed.

#[export] Instance eqmod_sub n : Proper (eqmod n ==> eqmod n ==> eqmod n) Z.sub.
Proof. intros a a' [Ha] b b' [Hb]. constructor. by rewrite Zminus_mod, Ha, Hb, <- Zminus_mod. Qed.

#[export] Instance eqmod_mul n : Proper (eqmod n ==> eqmod n ==> eqmod n) Z.mul.
Proof. intros a a' [Ha] b b' [Hb]. constructor. by rewrite Zmult_mod, Ha, Hb, <- Zmult_mod. Qed.

Lemma eqmod_mod n a : a mod n ≡ a [mod n].
Proof. constructor. apply Zmod_mod. Qed.

Lemma eqmod_pow n a b y : a ≡ b [mod n] → a ^ y ≡ b ^ y [mod n].
Proof. intros [E]. constructor. by rewrite <- (Z.mod_pow_l a), E, Z.mod_pow_l. Qed.

Lemma eqmod_self n : n ≡ 0 [mod n].
Proof. constructor. by rewrite Z_mod_same_full, Zmod_0_l. Qed.

Lemma eqmod_sub_self n a : n - a ≡ - a [mod n].
Proof. apply (eqmod_sub n n 0 (eqmod_self n) a a). done. Qed.

Lemma eqmod_small n a b : 0 <= a < n → 0 <= b < n → a ≡ b [mod n] → a = b.
Proof. intros Ha Hb [E]. by rewrite !Z.mod_small in E. Qed.

#[export] Hint Rewrite eqmod_mod : go.

(** ** Exponentiation *)

Lemma big_exp_spec x y m : m ≠ 0 → big_exp x y m = x ^ y mod m.
Proof. apply Zpow_mod_correct. Qed.

Lemma big_exp_range x y m : 0 < m → 0 <= big_exp x y m < m.
Proof. intros. rewrite big_exp_spec by lia. apply Z.mod_pos_bound; lia. Qed.

Lemma big_exp_eqmod x y m : 0 < m → big_exp x y m ≡ x ^ y [mod m].
Proof. intros. rewrite big_exp_spec by lia. apply eqmod_mod. Qed.

Lemma mod_inverse_spec g n i :
  1 < n → mod_inverse g n = Some i → i * g ≡ 1 [mod n] ∧ 0 <= i < n.
Proof.
  unfold mod_inverse. intros Hn. destruct (Z.eqb_spec (Z.gcd g n) 1) as [E|]; [|done].
  intros [= <-]. split.
  - constructor. apply Z.invmod_coprime'. exact E.
  - unfold Z.invmod. apply Z.mod_pos_bound. lia.
Qed.

(** Primality by trial division, for concrete moduli. *)
Definition prime_check (p : Z) : bool :=
  (1 <? p) && forallb (λ d, negb (p mod d =? 0)) (seqZ 2 (p - 2)).

Lemma prime_check_sound p : prime_check p = true → Z.prime p.
Proof.
  unfold prime_check. intros [H1 H2]%andb_prop. apply Z.ltb_lt in H1.
  split; [done|]. intros d Hd Hdiv. rewrite forallb_forall in H2.
  specialize (H2 d). rewrite <- list_elem_of_In, elem_of_seqZ in H2. specialize (H2 ltac:(lia)).
  apply Z.mod_divide in Hdiv; [|lia]. by rewrite Hdiv in H2.
Qed.

Section PrimeField.
Context (p : Z) (Hp : Z.prime p).

Lemma prime_gt_1 : 1 < p.
Proof. by destruct Hp. Qed.

(** A unit modulo [p]. *)
Definition unit_mod (g : Z) : Prop := g mod p ≠ 0.

Lemma unit_mod_mul a b : unit_mod a → unit_mod b → unit_mod (a * b).
Proof.
  unfold unit_mod. intros Ha Hb H. pose proof prime_gt_1.
  apply Z.mod_divide in H; [|lia].
  apply Z.divide_prime_mul in H as [H|H]; [| |exact Hp];
    apply Z.mod_divide in H; lia.
Qed.

Lemma unit_mod_mod a : unit_mod a → unit_mod (a mod p).
Proof. unfold unit_mod. by rewrite Zmod_mod. Qed.

Lemma unit_mod_pow g n : unit_mod g → 0 <= n → unit_mod (g ^ n).
Proof.
  intros Hg Hn. revert Hn. revert n. apply natlike_ind.
  - unfold unit_mod. rewrite Z.pow_0_r, Z.mod_small; pose proof prime_gt_1; lia.
  - intros n Hn IH. rewrite Z.pow_succ_r by done. by apply unit_mod_mul.
Qed.

Lemma unit_mod_gcd g : unit_mod g → Z.gcd g p = 1.
Proof.
  intros Hg. rewrite Z.gcd_comm. apply Z.coprime_prime_l; [exact Hp|]. intros Hd.
  apply Hg, Z.mod_divide; [|done]. pose proof prime_gt_1. lia.
Qed.

Lemma fermat_pow g : unit_mod g → g ^ (p - 1) ≡ 1 [mod p].
Proof.
  intros Hg. pose proof prime_gt_1. constructor.
  rewrite Z.fermat_nz, Z.mod_small; [done|lia|exact Hp|exact Hg].
Qed.

(** Exponents of a unit only matter modulo [p - 1]. *)
Lemma pow_exponent_mod g a b :
  unit_mod g → 0 <= a → 0 <= b → a ≡ b [mod p - 1] → g ^ a ≡ g ^ b [mod p].
Proof.
  intros Hg Ha Hb Hab. pose proof prime_gt_1.
  assert (Hred : ∀ n, 0 <= n → g ^ n ≡ g ^ (n mod (p - 1)) [mod p]).
  { intros n Hn.
    rewrite (Z.div_mod n (p - 1)) at 1 by lia.
    assert (0 <= n / (p - 1)) by (apply Z.div_pos; lia).
    pose proof (Z.mod_pos_bound n (p - 1) ltac:(lia)).
    assert (0 <= (p - 1) * (n / (p - 1))) by (apply Z.mul_nonneg_nonneg; lia).
    rewrite Z.pow_add_r, Z.pow_mul_r by lia.
    transitivity (1 ^ (n / (p - 1)) * g ^ (n mod (p - 1))).
    - apply eqmod_mul; [|done]. apply eqmod_pow, fermat_pow, Hg.
    - rewrite Z.pow_1_l by lia. by rewrite Z.mul_1_l. }
  rewrite (Hred a), (Hred b) by done. destruct Hab as [Hab]. by rewrite Hab.
Qed.

Lemma eqmod_cancel_l a x y : unit_mod a → a * x ≡ a * y [mod p] → x ≡ y [mod p].
Proof.
  intros Ha H. pose proof prime_gt_1.
  assert (Hi : Z.invmod a p * a ≡ 1 [mod p]).
  { constructor. apply Z.invmod_coprime'. exact (unit_mod_gcd a Ha). }
  transitivity (Z.invmod a p * (a * x)).
  - rewrite Z.mul_assoc, Hi. by rewrite Z.mul_1_l.
  - rewrite H, Z.mul_assoc, Hi. by rewrite Z.mul_1_l.
Qed.

(** *** Integer exponents

    [zpow g k] is [g] to the power [k] for any integer [k], as the exponent
    reduced modulo [p - 1]. *)
Definition zpow (g k : Z) : Z := g ^ (k mod (p - 1)).

Lemma zpow_range k : 0 <= k mod (p - 1).
Proof.
  pose proof prime_gt_1. destruct (decide (p = 2)) as [->|]; [by rewrite Z.mod_1_r|].
  apply Z.mod_pos_bound; lia.
Qed.

Lemma zpow_nonneg g k : unit_mod g → 0 <= k → g ^ k ≡ zpow g k [mod p].
Proof.
  intros Hg Hk. apply pow_exponent_mod; auto using zpow_range. by rewrite eqmod_mod.
Qed.

Lemma zpow_eqmod g k l : k ≡ l [mod p - 1] → zpow g k = zpow g l.
Proof. intros [E]. unfold zpow. by rewrite E. Qed.

Lemma zpow_add g k l : unit_mod g → zpow g (k + l) ≡ zpow g k * zpow g l [mod p].
Proof.
  intros Hg. unfold zpow. rewrite <- Z.pow_add_r by apply zpow_range.
  pose proof (zpow_range k). pose proof (zpow_range l).
  apply pow_exponent_mod; auto using zpow_range; [lia|]. by rewrite !eqmod_mod.
Qed.

Lemma zpow_mul g k l : unit_mod g → zpow g k ^ (l mod (p - 1)) ≡ zpow g (k * l) [mod p].
Proof.
  intros Hg. unfold zpow. pose proof (zpow_range k). pose proof (zpow_range l).
  rewrite <- Z.pow_mul_r by done.
  apply pow_exponent_mod; auto using zpow_range; [nia|]. by rewrite !eqmod_mod.
Qed.

Lemma zpow_opp g k : unit_mod g → zpow g (- k) * zpow g k ≡ 1 [mod p].
Proof.
  intros Hg. rewrite <- zpow_add by done. unfold zpow.
  by rewrite Z.add_opp_diag_l, Zmod_0_l, Z.pow_0_r.
Qed.

(** Extraction: two powers of [x] that differ by elements of the span of
    [g] and [h], with exponents whose difference is invertible, give a
    representation of [x] in the span. *)
Lemma extract x g h c c' z z' w w' e :
  unit_mod x → unit_mod g → unit_mod h →
  0 <= c → 0 <= c' → 0 <= z → 0 <= z' → 0 <= w → 0 <= w' →
  (c - c') * e ≡ 1 [mod p - 1] →
  x ^ c * g ^ z * h ^ w ≡ x ^ c' * g ^ z' * h ^ w' [mod p] →
  x ≡ zpow g ((z' - z) * e) * zpow h ((w' - w) * e) [mod p].
Proof.
  intros Hx Hg Hh Hc Hc' Hz Hz' Hw Hw' He E.
  rewrite (zpow_nonneg x c), (zpow_nonneg x c'), (zpow_nonneg g z), (zpow_nonneg g z'),
    (zpow_nonneg h w), (zpow_nonneg h w') in E by done.
  assert (E' : zpow x (c - c') ≡ zpow g (z' - z) * zpow h (w' - w) [mod p]).
  { rewrite <- !Z.add_opp_r, !zpow_add by done.
    transitivity (zpow x c * zpow g z * zpow h w * (zpow x (- c') * zpow g (- z) * zpow h (- w))).
    - transitivity (zpow x c * zpow x (- c') * 1 * 1); [by rewrite !Z.mul_1_r|].
      rewrite <- (zpow_opp g z) at 1 by done. rewrite <- (zpow_opp h w) at 1 by done.
      constructor. f_equal. ring.
    - rewrite E.
      transitivity ((zpow x (- c') * zpow x c') * (zpow g z' * zpow g (- z)
                     * (zpow h w' * zpow h (- w)))); [constructor; f_equal; ring|].
      rewrite zpow_opp by done. by rewrite Z.mul_1_l. }
  rewrite <- !zpow_mul by done. rewrite <- Z.pow_mul_l, <- (eqmod_pow _ _ _ _ E'), zpow_mul by done.
  rewrite (zpow_eqmod _ _ _ He), <- zpow_nonneg by done. by rewrite Z.pow_1_r.
Qed.

Lemma extract1 x h c c' w w' e :
  unit_mod x → unit_mod h → 0 <= c → 0 <= c' → 0 <= w → 0 <= w' →
  (c - c') * e ≡ 1 [mod p - 1] →
  x ^ c * h ^ w ≡ x ^ c' * h ^ w' [mod p] →
  x ≡ zpow h ((w' - w) * e) [mod p].
Proof.
  intros Hx Hh Hc Hc' Hw Hw' He E. pose proof prime_gt_1.
  assert (H1 : unit_mod 1) by (unfold unit_mod; rewrite Z.mod_small; lia).
  assert (Ex := extract x 1 h c c' 0 0 w w' e Hx H1 Hh Hc Hc' (Z.le_refl 0) (Z.le_refl 0) Hw Hw' He).
  rewrite !Z.pow_0_r, !Z.mul_1_r in Ex. specialize (Ex E). revert Ex.
  unfold zpow at 1. rewrite Z.pow_1_l by apply zpow_range. by rewrite Z.mul_1_l.
Qed.
End PrimeField.

Arguments unit_mod : simpl never.
Arguments zpow : simpl never.
