(* ===== verification/Sha256.v ===== *)
(** * Sha256: [crypto/sha256.Sum256] of the Go standard library

    The cryptographic components hash their transcripts with SHA-256. Their
    theorems hold for any hash function; this executable model of FIPS 180-4
    is the function the code calls, and the one the witnesses run. A 32-bit
    word is a [Z] in [0, 2^32). *)

From stdpp Require Import base list.
From Stdlib Require Import ZArith Lia.
From S2P Require Import Prelude.

Local Open Scope Z_scope.

Module Sha256.

Definition w32 (x : Z) : Z := x mod 2 ^ 32.

Definition rotr (x n : Z) : Z :=
  Z.lor (Z.shiftr x n) (w32 (Z.shiftl x (32 - n))).

Definition Ch (x y z : Z) : Z := Z.lxor (Z.land x y) (Z.land (2 ^ 32 - 1 - x) z).
Definition Maj (x y z : Z) : Z :=
  Z.lxor (Z.land x y) (Z.lxor (Z.land x z) (Z.land y z)).
Definition Sigma0 (x : Z) : Z := Z.lxor (rotr x 2) (Z.lxor (rotr x 13) (rotr x 22)).
Definition Sigma1 (x : Z) : Z := Z.lxor (rotr x 6) (Z.lxor (rotr x 11) (rotr x 25)).
Definition sigma0 (x : Z) : Z := Z.lxor (rotr x 7) (Z.lxor (rotr x 18) (Z.shiftr x 3)).
Definition sigma1 (x : Z) : Z := Z.lxor (rotr x 17) (Z.lxor (rotr x 19) (Z.shiftr x 10)).

(** The round constants are fractional bits of roots of the first primes,
    computed here by trial division and an integer cube root. *)
Definition is_prime (n : nat) : bool :=
  forallb (λ d, negb (n mod d =? 0)%nat) (seq 2 (n - 2)).

Definition primes (n : nat) : list Z :=
  map Z.of_nat (take n (List.filter is_prime (seq 2 310))).

(** The largest [r < lo + 2^bits] with [r^3 <= x]. *)
Fixpoint cube_root (bits : nat) (lo x : Z) : Z :=
  match bits with
  | O => lo
  | S bits =>
      let mid := lo + 2 ^ Z.of_nat bits in
      cube_root bits (if mid ^ 3 <=? x then mid else lo) x
  end.

(** First 32 bits of the fractional parts of the cube roots of 64 primes. *)
Definition K : list Z :=
  Eval vm_compute in map (λ p, w32 (cube_root 40 0 (p * 2 ^ 96))) (primes 64).

(** First 32 bits of the fractional parts of the square roots of 8 primes. *)
Definition H0 : list Z :=
  Eval vm_compute in map (λ p, w32 (Z.sqrt (p * 2 ^ 64))) (primes 8).

(** The message with a one bit, zeros and its 64-bit bit length. *)
Definition pad (m : bytes) : bytes :=
  let l := Z.of_nat (length m) in
  let zeros := (55 - l) mod 64 in
  m ++ [Byte.x80] ++ replicate (Z.to_nat zeros) Byte.x00 ++ fixed_be 8 (l * 8).

Fixpoint words (n : nat) (m : bytes) : list Z :=
  match n with
  | O => []
  | S n => be_decode (take 4 m) :: words n (drop 4 m)
  end.

(** The message schedule, most recent word first. *)
Fixpoint schedule (n : nat) (acc : list Z) : list Z :=
  match n with
  | O => acc
  | S n =>
      let w i := nth i acc 0 in
      schedule n (w32 (sigma1 (w 1%nat) + w 6%nat + sigma0 (w 14%nat) + w 15%nat) :: acc)
  end.

Definition round (st : list Z) (kw : Z * Z) : list Z :=
  match st with
  | [a; b; c; d; e; f; g; h] =>
      let t1 := h + Sigma1 e + Ch e f g + kw.1 + kw.2 in
      let t2 := Sigma0 a + Maj a b c in
      [w32 (t1 + t2); a; b; c; w32 (d + t1); e; f; g]
  | _ => st
  end.

Definition compress (st : list Z) (block : bytes) : list Z :=
  let W := rev (schedule 48 (rev (words 16 block))) in
  zip_with (λ x y, w32 (x + y)) st (foldl round st (zip K W)).

Fixpoint blocks (n : nat) (st : list Z) (m : bytes) : list Z :=
  match n with
  | O => st
  | S n => blocks n (compress st (take 64 m)) (drop 64 m)
  end.

Definition sha256 (m : bytes) : bytes :=
  let p := pad m in
  concat (map (fixed_be 4) (blocks (length p / 64) H0 p)).

(** The test vector "abc" of FIPS 180-4. *)
Example sha256_abc :
  be_decode (sha256 [Byte.x61; Byte.x62; Byte.x63])
  = 0xba7816bf8f01cfea414140de5dae2223b00361a396177a9cb410ff61f20015ad.
Proof. vm_compute. reflexivity. Qed.

Lemma length_compress st block :
  length st = 8%nat → length (compress st block) = 8%nat.
Proof.
  intros Hst. unfold compress. rewrite length_zip_with.
  enough (length (foldl round st (zip K (rev (schedule 48 (rev (words 16 block)))))) = 8%nat)
    by lia.
  generalize (zip K (rev (schedule 48 (rev (words 16 block))))) as l.
  intros l. revert st Hst. induction l as [|x l IH]; intros st Hst; [done|].
  cbn [foldl]. apply IH.
  do 8 (destruct st as [|? st]; [done|]). by destruct st.
Qed.

Lemma length_sha256 m : length (sha256 m) = 32%nat.
Proof.
  unfold sha256. set (p := pad m).
  assert (Hb : ∀ n st q, length st = 8%nat → length (blocks n st q) = 8%nat).
  { induction n as [|n IH]; intros st q Hst; [done|]. cbn [blocks].
    by apply IH, length_compress. }
  specialize (Hb (length p / 64)%nat H0 p eq_refl).
  generalize dependent (blocks (length p / 64)%nat H0 p). intros l Hl.
  do 8 (destruct l as [|? l]; [done|]). by destruct l.
Qed.

End Sha256.
