(* ===== verification/Hexutil.v ===== *)
(** * Hexutil: hexadecimal text with the 0x prefix (common/hexutil)

    The encodings the JSON-RPC uses for byte strings, 64-bit numbers and big
    integers, and [encoding/hex] and [strconv] as far as they are used. Text
    is a list of bytes; a Go [string] and a [[]byte] of text are both [bytes].
    The conversion of a decoding error into [json.UnmarshalTypeError] keeps
    the error, so [wrapTypeError] is the identity here. *)

From stdpp Require Import base list.
From Stdlib Require Import ZArith Lia.
From S2P Require Import Prelude.

Local Open Scope Z_scope.

Module Hexutil.

Inductive hex_error :=
  | ErrEmptyString | ErrSyntax | ErrMissingPrefix | ErrOddLength | ErrEmptyNumber
  | ErrLeadingZero | ErrUint64Range | ErrBig256Range | ErrNonString | ErrFixedLength.

(** ** Digits *)

(** [badNibble] is [None]. *)
Definition decodeNibble (b : Byte.byte) : option Z :=
  let z := b2z b in
  if (48 <=? z) && (z <=? 57) then Some (z - 48)
  else if (65 <=? z) && (z <=? 70) then Some (z - 65 + 10)
  else if (97 <=? z) && (z <=? 102) then Some (z - 97 + 10)
  else None.

(** The digits of [encoding/hex] and of [strconv] in base 16. *)
Definition nibble (d : Z) : Byte.byte := z2b (if d <? 10 then 48 + d else 87 + d).

Definition has0xPrefix (s : bytes) : bool :=
  match s with
  | a :: b :: _ => (b2z a =? 48) && ((b2z b =? 120) || (b2z b =? 88))
  | _ => false
  end.

Definition prefix0x : bytes := [z2b 48; z2b 120].

(** ** [encoding/hex] *)

Fixpoint hex_Encode (b : bytes) : bytes :=
  match b with
  | [] => []
  | x :: b => nibble (b2z x / 16) :: nibble (b2z x mod 16) :: hex_Encode b
  end.

(** Pairs from the left; the first bad digit is reported before a bad length. *)
Fixpoint hex_Decode (s : bytes) : outcome hex_error bytes :=
  match s with
  | [] => Ret []
  | [c] => match decodeNibble c with None => Err ErrSyntax | Some _ => Err ErrOddLength end
  | c1 :: c2 :: s =>
      match decodeNibble c1, decodeNibble c2 with
      | Some d1, Some d2 => b ← hex_Decode s; Ret (z2b (d1 * 16 + d2) :: b)
      | _, _ => Err ErrSyntax
      end
  end.

(** ** Strings (hexutil.go) *)

Definition Decode (input : bytes) : outcome hex_error bytes :=
  match input with
  | [] => Err ErrEmptyString
  | _ => if has0xPrefix input then hex_Decode (drop 2 input) else Err ErrMissingPrefix
  end.

Definition MustDecode (input : bytes) : outcome hex_error bytes :=
  match Decode input with Ret b => Ret b | _ => Panic end.

Definition Encode (b : bytes) : bytes := prefix0x ++ hex_Encode b.

Definition checkNumber (input : bytes) : outcome hex_error bytes :=
  match input with
  | [] => Err ErrEmptyString
  | _ =>
      if negb (has0xPrefix input) then Err ErrMissingPrefix
      else
        match drop 2 input with
        | [] => Err ErrEmptyNumber
        | (c :: _ :: _) as input => if b2z c =? 48 then Err ErrLeadingZero else Ret input
        | input => Ret input
        end
  end.

(** [strconv.ParseUint(raw, 16, 64)]: [cutoff] is [2^64 / 16]. *)
Fixpoint parse_uint16 (n : Z) (s : bytes) : outcome hex_error Z :=
  match s with
  | [] => Ret n
  | c :: s =>
      match decodeNibble c with
      | None => Err ErrSyntax
      | Some d => if 2 ^ 60 <=? n then Err ErrUint64Range else parse_uint16 (u64 (n * 16 + d)) s
      end
  end.

Definition DecodeUint64 (input : bytes) : outcome hex_error Z :=
  raw ← checkNumber input; parse_uint16 0 raw.

Definition MustDecodeUint64 (input : bytes) : outcome hex_error Z :=
  match DecodeUint64 input with Ret n => Ret n | _ => Panic end.

(** The digits of [strconv.AppendUint] in base 16, most significant first. *)
Fixpoint append_digits (fuel : nat) (n : Z) (acc : bytes) : bytes :=
  match fuel with
  | O => acc
  | S fuel =>
      let acc := nibble (n mod 16) :: acc in
      if n <? 16 then acc else append_digits fuel (n / 16) acc
  end.

(** Enough digits for [n]: four bits each. *)
Definition hex_digits (n : Z) : bytes := append_digits (S (Z.to_nat (Z.log2 n))) n [].

Definition EncodeUint64 (i : Z) : bytes := prefix0x ++ hex_digits i.

(** ** Big integers

    [words] of 16 nibbles from the right; [words[i] *= 16; words[i] += nib]
    on a 64-bit word. *)
Definition bigWordNibbles : nat := 16.

Fixpoint read_word (w : Z) (s : bytes) : outcome hex_error Z :=
  match s with
  | [] => Ret w
  | c :: s =>
      match decodeNibble c with
      | None => Err ErrSyntax
      | Some nib => read_word (u64 (u64 (w * 16) + nib)) s
      end
  end.

(** Round [i] of the loop over [n] words reads [raw[start:end]]. *)
Fixpoint read_words (n : nat) (raw : bytes) (end_ : nat) : outcome hex_error (list Z) :=
  match n with
  | O => Ret []
  | S n =>
      let start := (end_ - bigWordNibbles)%nat in
      w ← read_word 0 (take (end_ - start) (drop start raw));
      ws ← read_words n raw start;
      Ret (w :: ws)
  end.

(** [SetBits]: little-endian words. *)
Fixpoint set_bits (ws : list Z) : Z :=
  match ws with [] => 0 | w :: ws => w + two64 * set_bits ws end.

Definition decode_words (raw : bytes) : outcome hex_error Z :=
  if (64 <? length raw)%nat then Err ErrBig256Range
  else ws ← read_words (length raw / bigWordNibbles + 1) raw (length raw); Ret (set_bits ws).

Definition DecodeBig (input : bytes) : outcome hex_error Z :=
  raw ← checkNumber input; decode_words raw.

Definition MustDecodeBig (input : bytes) : outcome hex_error Z :=
  match DecodeBig input with Ret n => Ret n | _ => Panic end.

(** [fmt.Sprintf("%#x", bigint)] writes the sign before the prefix. *)
Definition EncodeBig (n : Z) : bytes :=
  if n =? 0 then prefix0x ++ [z2b 48]
  else (if n <? 0 then [z2b 45] else []) ++ prefix0x ++ hex_digits (Z.abs n).

(** ** JSON values (json.go) *)

Definition checkText (input : bytes) (wantPrefix : bool) : outcome hex_error bytes :=
  match input with
  | [] => Ret []
  | _ =>
      raw ← (if has0xPrefix input then Ret (drop 2 input)
             else if wantPrefix then Err ErrMissingPrefix else Ret input);
      if Nat.odd (length raw) then Err ErrOddLength else Ret raw
  end.

Definition checkNumberText (input : bytes) : outcome hex_error bytes :=
  match input with
  | [] => Ret []
  | _ =>
      if negb (has0xPrefix input) then Err ErrMissingPrefix
      else
        match drop 2 input with
        | [] => Err ErrEmptyNumber
        | (c :: _ :: _) as input => if b2z c =? 48 then Err ErrLeadingZero else Ret input
        | input => Ret input
        end
  end.

Definition isString (input : bytes) : bool :=
  (2 <=? length input)%nat &&
  match head input, last input with
  | Some a, Some b => (b2z a =? 34) && (b2z b =? 34)
  | _, _ => false
  end.

(** [input[1 : len(input)-1]] *)
Definition unquote (input : bytes) : bytes := take (length input - 2) (drop 1 input).

Definition Bytes_MarshalText (b : bytes) : bytes := prefix0x ++ hex_Encode b.

Definition Bytes_UnmarshalText (input : bytes) : outcome hex_error bytes :=
  raw ← checkText input true; hex_Decode raw.

Definition Bytes_UnmarshalJSON (input : bytes) : outcome hex_error bytes :=
  if isString input then Bytes_UnmarshalText (unquote input) else Err ErrNonString.

(** [out] is an array of [n] bytes. *)
Definition UnmarshalFixedText (input : bytes) (wantPrefix : bool) (n : nat)
    : outcome hex_error bytes :=
  raw ← checkText input wantPrefix;
  if negb (length raw / 2 =? n)%nat then Err ErrFixedLength
  else if forallb (λ b, bool_decide (is_Some (decodeNibble b))) raw then hex_Decode raw
  else Err ErrSyntax.

Definition Big_UnmarshalText (input : bytes) : outcome hex_error Z :=
  raw ← checkNumberText input; decode_words raw.

Definition Big_UnmarshalJSON (input : bytes) : outcome hex_error Z :=
  if isString input then Big_UnmarshalText (unquote input) else Err ErrNonString.

(** The loop reads the digits as one 64-bit word. *)
Definition Uint64_UnmarshalText (input : bytes) : outcome hex_error Z :=
  raw ← checkNumberText input;
  if (16 <? length raw)%nat then Err ErrUint64Range else read_word 0 raw.

Definition Uint64_UnmarshalJSON (input : bytes) : outcome hex_error Z :=
  if isString input then Uint64_UnmarshalText (unquote input) else Err ErrNonString.

End Hexutil.
