(* ===== verification/HexutilProofs.v ===== *)
(** * HexutilProofs: the hexadecimal encodings are canonical

    Decoding accepts, up to the case of letters, exactly what encoding writes:
    byte strings, 64-bit numbers, and 256-bit integers through the word loop
    of [DecodeBig]. *)

From stdpp Require Import base list.
From Stdlib Require Import ZArith Lia.
From S2P Require Import Prelude Hexutil.

Local Open Scope Z_scope.

Module HexutilProofs.
Import Hexutil.

(** ** Letters and digits *)

Definition lower (c : Byte.byte) : Byte.byte :=
  if (65 <=? b2z c) && (b2z c <=? 90) then z2b (b2z c + 32) else c.

Definition digit (d : Z) : Prop := 0 <= d < 16.

Lemma digit_cases d : digit d → d ∈ seqZ 0 16.
Proof. intros. by apply elem_of_seqZ. Qed.

Lemma decodeNibble_nibble d : digit d → decodeNibble (nibble d) = Some d ∧ lower (nibble d) = nibble d.
Proof.
  intros Hd%digit_cases. revert d Hd. apply Forall_forall.
  repeat constructor; vm_compute; reflexivity.
Qed.

Lemma decodeNibble_lower c : decodeNibble (lower c) = decodeNibble c.
Proof. by destruct c. Qed.

(** A digit character is the digit's character up to case. *)
Lemma decodeNibble_spec c d : decodeNibble c = Some d ↔ digit d ∧ lower c = nibble d.
Proof.
  split.
  - destruct c; vm_compute; intros [= <-]; (split; [split; congruence|reflexivity]) || done.
  - intros [Hd E]. rewrite <- decodeNibble_lower, E. by apply decodeNibble_nibble.
Qed.

Lemma nibble_inj d1 d2 : digit d1 → digit d2 → nibble d1 = nibble d2 → d1 = d2.
Proof.
  intros [H1 _]%decodeNibble_nibble [H2 _]%decodeNibble_nibble E. rewrite E in H1. congruence.
Qed.

Lemma lower_prefix a b s :
  has0xPrefix (a :: b :: s) = true ↔ [lower a; lower b] = prefix0x.
Proof.
  cbn [has0xPrefix]. unfold prefix0x. split.
  - rewrite andb_true_iff, orb_true_iff, !Z.eqb_eq. intros [Ha Hb].
    assert (a = z2b 48) as -> by (apply b2z_inj; by rewrite Ha).
    destruct Hb as [Hb|Hb]; [assert (b = z2b 120) as -> by (apply b2z_inj; by rewrite Hb)|
      assert (b = z2b 88) as -> by (apply b2z_inj; by rewrite Hb)]; reflexivity.
  - intros [= Ha Hb]. destruct a; try discriminate Ha; destruct b; try discriminate Hb; reflexivity.
Qed.

(** ** Digit lists and their value *)

Definition val (ds : list Z) : Z := foldl (λ n d, n * 16 + d) 0 ds.

Definition digits : bytes → list Z → Prop := Forall2 (λ c d, decodeNibble c = Some d).

Lemma val_from n ds : foldl (λ n d, n * 16 + d) n ds = n * 16 ^ Z.of_nat (length ds) + val ds.
Proof.
  unfold val. revert n. induction ds as [|d ds IH]; intros n; cbn [foldl length]; [lia|].
  rewrite IH, (IH (0 * 16 + d)), Nat2Z.inj_succ, Z.pow_succ_r by lia. lia.
Qed.

Lemma val_snoc ds d : val (ds ++ [d]) = val ds * 16 + d.
Proof. unfold val. by rewrite foldl_app. Qed.

Lemma val_app ds1 ds2 : val (ds1 ++ ds2) = val ds1 * 16 ^ Z.of_nat (length ds2) + val ds2.
Proof. unfold val at 1. by rewrite foldl_app, val_from. Qed.

Lemma val_cons d ds : val (d :: ds) = d * 16 ^ Z.of_nat (length ds) + val ds.
Proof. unfold val at 1. cbn [foldl]. rewrite val_from. lia. Qed.

Lemma val_range ds : Forall digit ds → 0 <= val ds < 16 ^ Z.of_nat (length ds).
Proof.
  induction ds as [|d ds IH] using rev_ind; [done|].
  rewrite Forall_app, Forall_singleton, val_snoc, length_app. intros [H%IH Hd]. unfold digit in Hd.
  rewrite Nat2Z.inj_add, Z.pow_add_r by lia. cbn [length]. change (16 ^ Z.of_nat 1) with 16. nia.
Qed.

Lemma digits_digit raw ds : digits raw ds → Forall digit ds.
Proof. induction 1 as [|c d raw ds [Hd _]%decodeNibble_spec]; by constructor. Qed.

Lemma digits_lower raw ds : digits raw ds ↔ Forall digit ds ∧ map lower raw = map nibble ds.
Proof.
  split.
  - intros H. split; [by eapply digits_digit|].
    induction H as [|c d raw ds [_ E]%decodeNibble_spec _ IH]; [done|]. cbn. by rewrite E, IH.
  - revert ds. induction raw as [|c raw IH]; intros [|d ds] [Hds E]; try discriminate E; [constructor|].
    apply Forall_cons in Hds as [Hd Hds]. cbn in E. injection E as E1 E2.
    constructor; [by apply decodeNibble_spec|]. by apply IH.
Qed.

(** Without a leading zero, except for zero itself. *)
Definition canonical (ds : list Z) : Prop :=
  Forall digit ds ∧ ds ≠ [] ∧ (head ds = Some 0 → length ds = 1%nat).

Lemma canonical_snoc ds d : canonical (ds ++ [d]) → ds ≠ [] → canonical ds ∧ 1 <= val ds.
Proof.
  intros ([Hds Hd]%Forall_app & _ & Hz) Hne. destruct ds as [|e ds]; [done|]. cbn in Hz.
  assert (He : e ≠ 0) by (intros ->; specialize (Hz eq_refl); rewrite length_app in Hz; cbn in Hz; lia).
  split; [split_and!; [done|done|]; cbn; congruence|].
  apply Forall_cons in Hds as [Hde Hds]. pose proof (val_range ds Hds). rewrite val_cons.
  unfold digit in Hde. nia.
Qed.

(** ** Writing digits *)

Lemma append_digits_spec ds fuel acc :
  canonical ds → (length ds <= fuel)%nat → append_digits fuel (val ds) acc = map nibble ds ++ acc.
Proof.
  revert fuel acc. induction ds as [|d ds IH] using rev_ind; intros fuel acc Hc Hf; [by destruct Hc as (_&?&_)|].
  rewrite length_app in Hf. cbn in Hf. destruct fuel as [|fuel]; [lia|]. cbn [append_digits].
  pose proof Hc as ([Hds Hd]%Forall_app & _ & _). rewrite Forall_singleton in Hd. unfold digit in Hd.
  pose proof (val_range ds Hds) as Hv.
  rewrite val_snoc, map_app, (Z.add_comm (_ * 16)), Z_mod_plus_full, Z_div_plus_full by lia.
  rewrite (Z.mod_small d 16), (Z.div_small d 16) by lia. cbn [map].
  destruct (decide (ds = [])) as [->|Hne].
  { cbn [val foldl map app]. destruct (Z.ltb_spec (d + 0 * 16) 16); [done|lia]. }
  destruct (canonical_snoc ds d Hc Hne) as [Hcs H1].
  destruct (Z.ltb_spec (d + val ds * 16) 16); [lia|]. rewrite IH by (done || lia).
  by rewrite <- app_assoc.
Qed.

Lemma canonical_log2 ds : canonical ds → (length ds <= S (Z.to_nat (Z.log2 (val ds))))%nat.
Proof.
  intros (Hd & Hne & Hz). destruct ds as [|d ds]; [done|]. cbn [length].
  destruct (decide (ds = [])) as [->|Hds]; [cbn; lia|].
  assert (d ≠ 0) by (intros ->; specialize (Hz eq_refl); destruct ds; [done|cbn in Hz; lia]).
  apply Forall_cons in Hd as [Hd0 Hd]. pose proof (val_range ds Hd). unfold digit in Hd0.
  apply le_n_S. rewrite <- (Nat2Z.id (length ds)) at 1. apply Z2Nat.inj_le; [lia|apply Z.log2_nonneg|].
  apply Z.log2_le_pow2; [rewrite val_cons; nia|]. rewrite val_cons.
  assert (2 ^ Z.of_nat (length ds) <= 16 ^ Z.of_nat (length ds)) by (apply Z.pow_le_mono_l; lia). nia.
Qed.

Lemma hex_digits_val ds : canonical ds → hex_digits (val ds) = map nibble ds.
Proof.
  intros Hc. unfold hex_digits. rewrite append_digits_spec by auto using canonical_log2.
  by rewrite app_nil_r.
Qed.

Lemma canonical_exists n : 0 <= n → ∃ ds, canonical ds ∧ val ds = n.
Proof.
  induction n as [n IH] using (well_founded_induction (Z.lt_wf 0)). intros Hn.
  destruct (Z.lt_ge_cases n 16) as [Hlt|Hge].
  { exists [n]. split; [split_and!; [by repeat constructor|done|done]|]. cbn. lia. }
  destruct (IH (n / 16)) as (ds & (Hd & Hne & Hz) & Hv).
  { split; [by apply Z.div_pos|]. apply Z.div_lt; lia. } { by apply Z.div_pos. }
  pose proof (Z.mod_pos_bound n 16 ltac:(lia)). pose proof (Z.div_mod n 16 ltac:(lia)).
  exists (ds ++ [n mod 16]). split; [split_and!|].
  - apply Forall_app. split; [done|]. by apply Forall_singleton.
  - by destruct ds.
  - destruct ds as [|d ds]; [done|]. cbn. intros [= ->]. specialize (Hz eq_refl). cbn in Hz.
    destruct ds; [|by cbn in Hz]. cbn in Hv. lia.
  - rewrite val_snoc, Hv. lia.
Qed.

(** The characters of a canonical number, up to case. *)
Lemma hex_digits_spec raw n :
  map lower raw = hex_digits n → 0 <= n → ∃ ds, digits raw ds ∧ canonical ds ∧ val ds = n.
Proof.
  intros E Hn. destruct (canonical_exists n Hn) as (ds & Hc & <-). rewrite hex_digits_val in E by done.
  exists ds. split; [|done]. apply digits_lower. split; [apply Hc|done].
Qed.

(** ** Reading numbers *)

Lemma digits_app_inv raw1 raw2 ds :
  digits (raw1 ++ raw2) ds ↔ ∃ ds1 ds2, ds = ds1 ++ ds2 ∧ digits raw1 ds1 ∧ digits raw2 ds2.
Proof.
  split; [intros (?&?&?&?&?)%Forall2_app_inv_l; eauto 10|].
  intros (?&?&->&?&?). by apply Forall2_app.
Qed.

(** [strconv.ParseUint] reads the value and refuses what does not fit. *)
Lemma parse_uint16_spec n raw m :
  is_u64 n → parse_uint16 n raw = Ret m ↔
    ∃ ds, digits raw ds ∧ m = n * 16 ^ Z.of_nat (length ds) + val ds ∧ m < two64.
Proof.
  revert n. induction raw as [|c raw IH]; intros n Hn; cbn [parse_uint16].
  { split.
    - intros [= <-]. exists []. split_and!; [constructor|cbn; lia|apply Hn].
    - intros (ds & ->%Forall2_nil_inv_l & -> & _). cbn. f_equal. lia. }
  destruct (decodeNibble c) as [d|] eqn:Ec.
  2: { split; [done|]. intros (ds & (d & ds' & E & _ & _)%Forall2_cons_inv_l & _). congruence. }
  pose proof Ec as [Hd _]%decodeNibble_spec. unfold digit in Hd.
  assert (Hstep : ∀ ds, n * 16 ^ Z.of_nat (length (d :: ds)) + val (d :: ds)
      = (n * 16 + d) * 16 ^ Z.of_nat (length ds) + val ds).
  { intros ds. rewrite val_cons. cbn [length]. rewrite Nat2Z.inj_succ, Z.pow_succ_r by lia. lia. }
  destruct (Z.leb_spec (2 ^ 60) n) as [Hbig|Hsmall].
  - split; [done|]. intros (ds & Hds & -> & Hlt).
    apply Forall2_cons_inv_l in Hds as (d' & ds' & E & Hds & ->). rewrite Ec in E. injection E as <-.
    rewrite Hstep in Hlt. pose proof (val_range ds' (digits_digit _ _ Hds)). u64_lia || nia.
  - assert (Hn' : is_u64 (n * 16 + d)) by u64_lia. rewrite u64_small, (IH _ Hn') by done. split.
    + intros (ds & Hds & -> & Hlt). exists (d :: ds). rewrite Hstep. split_and!; [by constructor|done|done].
    + intros (ds & Hds & -> & Hlt).
      apply Forall2_cons_inv_l in Hds as (d' & ds' & E & Hds & ->). rewrite Ec in E. injection E as <-.
      rewrite Hstep in *. eauto.
Qed.

(** One word of at most 16 nibbles. *)
Lemma read_word_spec w raw m :
  0 <= w → w * 16 ^ Z.of_nat (length raw) + 16 ^ Z.of_nat (length raw) <= two64 →
  read_word w raw = Ret m ↔ ∃ ds, digits raw ds ∧ m = w * 16 ^ Z.of_nat (length ds) + val ds.
Proof.
  revert w. induction raw as [|c raw IH]; intros w Hw Hfit; cbn [read_word].
  { split.
    - intros [= <-]. exists []. split_and!; [constructor|cbn; lia].
    - intros (ds & ->%Forall2_nil_inv_l & ->). cbn. f_equal. lia. }
  destruct (decodeNibble c) as [d|] eqn:Ec.
  2: { split; [done|]. intros (ds & (d & ds' & E & _ & _)%Forall2_cons_inv_l & _). congruence. }
  pose proof Ec as [Hd _]%decodeNibble_spec. unfold digit in Hd.
  cbn [length] in Hfit. rewrite Nat2Z.inj_succ, Z.pow_succ_r in Hfit by lia.
  pose proof (Z.pow_pos_nonneg 16 (Z.of_nat (length raw)) ltac:(lia) ltac:(lia)).
  rewrite (u64_small (w * 16)), (u64_small (w * 16 + d)), IH by (unfold is_u64; nia). split.
  - intros (ds & Hds & ->). exists (d :: ds). split; [by constructor|]. rewrite val_cons. cbn [length].
    rewrite Nat2Z.inj_succ, Z.pow_succ_r by lia. lia.
  - intros (ds & Hds & ->).
    apply Forall2_cons_inv_l in Hds as (d' & ds' & E & Hds & ->). rewrite Ec in E. injection E as <-.
    exists ds'. split; [done|]. rewrite val_cons. cbn [length]. rewrite Nat2Z.inj_succ, Z.pow_succ_r by lia. lia.
Qed.

Lemma pow16_word : 16 ^ Z.of_nat 16 = two64.
Proof. done. Qed.

(** The word loop computes the value of the digits it covers. *)
Lemma read_words_spec n raw end_ m :
  (end_ <= length raw)%nat → (end_ <= 16 * n)%nat →
  (∃ ws, read_words n raw end_ = Ret ws ∧ set_bits ws = m) ↔
  ∃ ds, digits (take end_ raw) ds ∧ m = val ds.
Proof.
  revert end_ m. induction n as [|n IH]; intros end_ m Hlen Hn.
  { assert (end_ = 0%nat) as -> by lia. cbn. split.
    - intros (ws & [= <-] & <-). exists []. split; [constructor|done].
    - intros (ds & ->%Forall2_nil_inv_l & ->). by exists []. }
  cbn [read_words]. set (start := (end_ - bigWordNibbles)%nat).
  assert (Hs : (start <= end_)%nat ∧ (end_ - start <= 16)%nat ∧ (start <= 16 * n)%nat) by (unfold start, bigWordNibbles; lia).
  set (word := take (end_ - start) (drop start raw)).
  assert (Hw : length word = (end_ - start)%nat) by (unfold word; rewrite length_take, length_drop; lia).
  assert (Ht : take end_ raw = take start raw ++ word).
  { unfold word. rewrite <- (take_drop start (take end_ raw)), take_take, Nat.min_l by lia.
    by rewrite skipn_firstn_comm. }
  assert (Hfit : 0 * 16 ^ Z.of_nat (length word) + 16 ^ Z.of_nat (length word) <= two64).
  { rewrite <- pow16_word. rewrite Z.mul_0_l, Z.add_0_l. apply Z.pow_le_mono_r; lia. }
  rewrite Ht. split.
  - intros (ws & E & <-). apply outcome_bind_Ret in E as (w & Ew & E).
    apply outcome_bind_Ret in E as (ws' & Ews & [= <-]).
    apply (read_word_spec 0 _ _ ltac:(lia) Hfit) in Ew as (ds2 & Hd2 & ->).
    destruct (proj1 (IH start (set_bits ws') ltac:(lia) ltac:(lia))) as (ds1 & Hd1 & E1); [eauto|].
    exists (ds1 ++ ds2). split; [by apply Forall2_app|]. cbn [set_bits]. rewrite E1, val_app.
    destruct (decide (start = 0%nat)) as [E0|E0].
    + rewrite E0 in Hd1. apply Forall2_nil_inv_l in Hd1 as ->. cbn. lia.
    + assert (length ds2 = 16%nat) as ->.
      { rewrite <- (Forall2_length _ _ _ Hd2), Hw. unfold start, bigWordNibbles in *. lia. }
      rewrite pow16_word. lia.
  - intros (ds & (ds1 & ds2 & -> & Hd1 & Hd2)%digits_app_inv & ->).
    destruct (proj2 (IH start (val ds1) ltac:(lia) ltac:(lia))) as (ws & Ews & Ev); [eauto|].
    assert (Ew : read_word 0 word = Ret (val ds2)).
    { apply (read_word_spec 0 _ _ ltac:(lia) Hfit). exists ds2. split; [done|lia]. }
    rewrite Ew, Ews. cbn [mbind outcome_bind]. eexists. split; [done|]. cbn [set_bits]. rewrite Ev, val_app.
    destruct (decide (start = 0%nat)) as [E0|E0].
    + rewrite E0 in Hd1. apply Forall2_nil_inv_l in Hd1 as ->. cbn. lia.
    + assert (length ds2 = 16%nat) as ->.
      { rewrite <- (Forall2_length _ _ _ Hd2), Hw. unfold start, bigWordNibbles in *. lia. }
      rewrite pow16_word. lia.
Qed.

(** ** Prefixes *)

Lemma checkNumber_spec s raw :
  checkNumber s = Ret raw ↔
  has0xPrefix s = true ∧ raw = drop 2 s ∧ raw ≠ [] ∧ (head raw = Some (z2b 48) → length raw = 1%nat).
Proof.
  unfold checkNumber. destruct s as [|a [|b s]]; [by split; [|intros [? _]]|by split; [|intros [? _]]|].
  destruct (has0xPrefix (a :: b :: s)); [|by split; [|intros [? _]]]. cbn [negb].
  change (drop 2 (a :: b :: s)) with s.
  destruct s as [|c [|c' s]].
  { split; [done|]. by intros (_ & -> & ? & _). }
  { split; [by intros [= <-]|]. by intros (_ & -> & _). }
  destruct (Z.eqb_spec (b2z c) 48) as [E|E].
  - assert (c = z2b 48) as -> by (apply b2z_inj; by rewrite E).
    split; [done|]. intros (_ & -> & _ & Hz). by specialize (Hz eq_refl).
  - split; [|by intros (_ & -> & _)]. intros [= <-]. split_and!; try done.
    cbn. intros [= ->]. by destruct E.
Qed.

Lemma checkNumberText_checkNumber s : s ≠ [] → checkNumberText s = checkNumber s.
Proof. by destruct s. Qed.

Lemma head_zero raw ds :
  digits raw ds → head raw = Some (z2b 48) ↔ head ds = Some 0.
Proof.
  destruct 1 as [|c d raw ds Hc _]; [done|]. cbn. split; intros [= ->].
  - vm_compute in Hc. congruence.
  - f_equal. destruct c; (discriminate Hc || reflexivity).
Qed.

Lemma canonical_raw raw ds :
  digits raw ds → canonical ds ↔ raw ≠ [] ∧ (head raw = Some (z2b 48) → length raw = 1%nat).
Proof.
  intros Hds. pose proof (Forall2_length _ _ _ Hds) as El. pose proof (head_zero _ _ Hds) as Hh.
  pose proof (digits_digit _ _ Hds) as Hd. unfold canonical. rewrite Hh, El.
  assert (ds = [] ↔ raw = []) by (destruct raw, ds; by split). tauto.
Qed.

(** Text that is a prefix and the digits of [n], up to case. *)
Lemma number_text s n :
  0 <= n →
  (∃ raw ds, checkNumber s = Ret raw ∧ digits raw ds ∧ val ds = n) ↔
  map lower s = prefix0x ++ hex_digits n.
Proof.
  intros Hn. split.
  - intros (raw & ds & (Hp & -> & Hraw)%checkNumber_spec & Hds & <-).
    destruct s as [|a [|b s]]; try done. apply lower_prefix in Hp.
    change (drop 2 (a :: b :: s)) with s in *.
    assert (Hc : canonical ds) by by apply (canonical_raw _ _ Hds).
    rewrite (hex_digits_val ds Hc), <- Hp. cbn. do 2 f_equal. by apply digits_lower.
  - intros E. destruct s as [|a [|b s]]; try discriminate E.
    change (map lower (a :: b :: s)) with ([lower a; lower b] ++ map lower s) in E.
    apply app_inj_1 in E as [Ep E]; [|done]. destruct (hex_digits_spec _ _ E Hn) as (ds & Hds & Hc & Hv).
    exists s, ds. split_and!; [|done|done]. apply checkNumber_spec. apply (canonical_raw _ _ Hds) in Hc.
    split_and!; try done; [|apply Hc..]. by apply lower_prefix.
Qed.

Lemma decode_words_spec raw n :
  decode_words raw = Ret n ↔ (length raw <= 64)%nat ∧ ∃ ds, digits raw ds ∧ n = val ds.
Proof.
  unfold decode_words. destruct (Nat.ltb_spec 64 (length raw)); [split; [done|lia]|].
  assert (Hw := read_words_spec (length raw / bigWordNibbles + 1) raw (length raw) n).
  rewrite firstn_all in Hw. rewrite outcome_bind_Ret, <- Hw.
  - split; [intros (ws & E & [= <-]); eauto|]. intros (_ & ws & E & <-). eauto.
  - done.
  - unfold bigWordNibbles. pose proof (Nat.div_mod_eq (length raw) 16).
    pose proof (Nat.mod_upper_bound (length raw) 16). lia.
Qed.

(** A canonical number below [16^k] has at most [k] digits. *)
Lemma canonical_length ds k :
  canonical ds → (0 < k)%nat → val ds < 16 ^ Z.of_nat k ↔ (length ds <= k)%nat.
Proof.
  intros (Hd & Hnil & Hz) Hk. split.
  - intros Hlt. destruct ds as [|d ds]; [done|].
    destruct (decide (d = 0)) as [->|Hd0]; [rewrite Hz by done; lia|].
    apply Forall_cons in Hd as [Hd Hds']. pose proof (val_range ds Hds'). unfold digit in Hd.
    rewrite val_cons in Hlt. cbn [length].
    assert (Z.of_nat (length ds) < Z.of_nat k); [|lia].
    apply (Z.pow_lt_mono_r_iff 16); [lia|lia|]. nia.
  - intros Hle. pose proof (val_range ds Hd). eapply Z.lt_le_trans; [apply H|].
    apply Z.pow_le_mono_r; lia.
Qed.

(** ** Claims *)

(** [DecodeUint64] accepts exactly the text [EncodeUint64] writes for a
    64-bit number, up to the case of its letters, and returns that number;
    [Uint64.UnmarshalText], which reads the digits with its own loop, agrees
    with it on every text but the empty one. *)
Theorem DecodeUint64_canonical s n :
  (DecodeUint64 s = Ret n ↔ is_u64 n ∧ map lower s = EncodeUint64 n) ∧
  (s ≠ [] → Uint64_UnmarshalText s = Ret n ↔ DecodeUint64 s = Ret n).
Proof.
  assert (H1 : DecodeUint64 s = Ret n ↔ is_u64 n ∧ map lower s = EncodeUint64 n).
  { unfold DecodeUint64. rewrite outcome_bind_Ret. split.
    - intros (raw & Hc & (ds & Hds & -> & Hlt)%parse_uint16_spec); [|u64_lia].
      rewrite Z.mul_0_l, Z.add_0_l in *.
      pose proof (val_range ds (digits_digit _ _ Hds)).
      split; [unfold is_u64; lia|]. apply number_text; [lia|]. eauto.
    - intros [Hn E]. apply number_text in E as (raw & ds & Hc & Hds & <-); [|apply Hn].
      exists raw. split; [done|]. apply parse_uint16_spec; [u64_lia|]. exists ds. split_and!; [done|lia|apply Hn]. }
  split; [done|]. intros Hne. unfold Uint64_UnmarshalText, DecodeUint64.
  rewrite checkNumberText_checkNumber, !outcome_bind_Ret by done.
  split; intros (raw & Hc & E); exists raw; (split; [done|]).
  - destruct (Nat.ltb_spec 16 (length raw)) as [|Hlen]; [done|].
    apply read_word_spec in E as (ds & Hds & ->); [|lia|].
    2: { rewrite Z.mul_0_l, Z.add_0_l, <- pow16_word. apply Z.pow_le_mono_r; lia. }
    apply parse_uint16_spec; [u64_lia|]. exists ds. split_and!; [done|done|].
    pose proof (val_range ds (digits_digit _ _ Hds)) as [_ Hv].
    rewrite Z.mul_0_l, Z.add_0_l. eapply Z.lt_le_trans; [exact Hv|]. rewrite <- pow16_word.
    apply Z.pow_le_mono_r; [lia|]. rewrite <- (Forall2_length _ _ _ Hds). lia.
  - apply parse_uint16_spec in E as (ds & Hds & -> & Hlt); [|u64_lia].
    rewrite Z.mul_0_l, Z.add_0_l in *. apply checkNumber_spec in Hc as (_ & _ & Hraw).
    assert (Hcan : canonical ds) by by apply (canonical_raw _ _ Hds).
    assert (Hlen : (length raw <= 16)%nat).
    { rewrite (Forall2_length _ _ _ Hds). apply canonical_length; [done|lia|done]. }
    rewrite (proj2 (Nat.ltb_ge 16 (length raw)) Hlen). apply read_word_spec; [lia| |].
    + rewrite Z.mul_0_l, Z.add_0_l, <- pow16_word. apply Z.pow_le_mono_r; lia.
    + exists ds. split; [done|lia].
Qed.


Lemma DecodeUint64_canonical_witness :
  Uint64_UnmarshalText [z2b 48; z2b 88; z2b 70; z2b 102] = Ret 255 ↔
  DecodeUint64 [z2b 48; z2b 88; z2b 70; z2b 102] = Ret 255.
Proof. apply DecodeUint64_canonical. discriminate. Defined.

(** [DecodeBig], whose loop assembles 64-bit words of sixteen nibbles from
    the right, accepts exactly the text [EncodeBig] writes for the integers of
    [0, 2^256), up to the case of its letters, and returns that integer. *)
Theorem DecodeBig_canonical s n :
  DecodeBig s = Ret n ↔ 0 <= n < 2 ^ 256 ∧ map lower s = EncodeBig n.
Proof.
  assert (Hpow : 16 ^ Z.of_nat 64 = 2 ^ 256) by done.
  assert (Henc : 0 <= n → EncodeBig n = prefix0x ++ hex_digits n).
  { intros Hn. unfold EncodeBig. destruct (Z.eqb_spec n 0) as [->|]; [done|].
    destruct (Z.ltb_spec n 0); [lia|]. by rewrite Z.abs_eq. }
  unfold DecodeBig. rewrite outcome_bind_Ret. split.
  - intros (raw & Hc & (Hlen & ds & Hds & ->)%decode_words_spec).
    pose proof (val_range ds (digits_digit _ _ Hds)) as Hv.
    rewrite Henc by lia. split; [|apply number_text; [lia|eauto]].
    apply checkNumber_spec in Hc as (_ & _ & Hraw).
    assert (Hcan : canonical ds) by by apply (canonical_raw _ _ Hds).
    rewrite <- Hpow. split; [lia|]. apply canonical_length; [done|lia|].
    by rewrite <- (Forall2_length _ _ _ Hds).
  - intros [Hn E]. rewrite Henc in E by lia.
    apply number_text in E as (raw & ds & Hc & Hds & <-); [|lia].
    exists raw. split; [done|]. apply decode_words_spec. split; [|eauto].
    apply checkNumber_spec in Hc as (_ & _ & Hraw).
    assert (Hcan : canonical ds) by by apply (canonical_raw _ _ Hds).
    rewrite (Forall2_length _ _ _ Hds). apply canonical_length; [done|lia|]. rewrite Hpow. lia.
Qed.

Lemma hex_byte x : digit (b2z x / 16) ∧ digit (b2z x mod 16).
Proof.
  pose proof (b2z_range x). pose proof (Z.mod_pos_bound (b2z x) 16 ltac:(lia)).
  split; [|done]. split; [apply Z.div_pos; lia|]. apply Z.div_lt_upper_bound; lia.
Qed.

(** Two characters for every byte, up to case. *)
Lemma hex_Decode_spec s b : hex_Decode s = Ret b ↔ map lower s = hex_Encode b.
Proof.
  split.
  - revert s. induction b as [|x b IH]; intros [|c1 [|c2 s]]; cbn [hex_Decode]; try done;
      try (by destruct (decodeNibble c1)); [by destruct (decodeNibble c1), (decodeNibble c2), (hex_Decode s)|].
    destruct (decodeNibble c1) as [d1|] eqn:E1; [|done]. destruct (decodeNibble c2) as [d2|] eqn:E2; [|done].
    intros (b' & Hb & [= Hx <-])%outcome_bind_Ret. cbn [map hex_Encode]. rewrite (IH _ Hb).
    apply decodeNibble_spec in E1 as [Hd1 ->], E2 as [Hd2 ->]. unfold digit in *.
    rewrite <- Hx, b2z_z2b, (Z.mod_small (d1 * 16 + d2)) by lia.
    rewrite Z.div_add_l, (Z.div_small d2), Z.add_0_r by lia.
    by rewrite Z.add_comm, Z_mod_plus_full, Z.mod_small by lia.
  - revert s. induction b as [|x b IH]; intros [|c1 [|c2 s]]; try done. cbn [hex_Decode map hex_Encode].
    intros [= E1 E2 E3]. destruct (hex_byte x) as [H1 H2].
    rewrite (proj2 (decodeNibble_spec _ _) (conj H1 E1)), (proj2 (decodeNibble_spec _ _) (conj H2 E2)).
    rewrite (IH _ E3). cbn [mbind outcome_bind]. do 2 f_equal. apply b2z_inj.
    rewrite b2z_z2b. pose proof (Z.div_mod (b2z x) 16 ltac:(lia)). pose proof (b2z_range x).
    rewrite Z.mod_small; lia.
Qed.

Lemma length_hex_Encode b : length (hex_Encode b) = (2 * length b)%nat.
Proof. induction b; cbn [hex_Encode length]; lia. Qed.

Lemma lower_hex_Encode b : map lower (hex_Encode b) = hex_Encode b.
Proof.
  induction b as [|x b IH]; [done|]. cbn [hex_Encode map]. destruct (hex_byte x) as [H1 H2].
  by rewrite IH, (proj2 (decodeNibble_nibble _ H1)), (proj2 (decodeNibble_nibble _ H2)).
Qed.

(** [Decode] accepts exactly what [Encode] writes, up to case, and the JSON
    form of a byte string - quotes, prefix, two digits per byte - is read back
    as the same bytes by [Bytes.UnmarshalJSON]. *)
Theorem hex_bytes_roundtrip s b :
  (Decode s = Ret b ↔ map lower s = Encode b) ∧
  Bytes_UnmarshalJSON (z2b 34 :: Bytes_MarshalText b ++ [z2b 34]) = Ret b.
Proof.
  split.
  - unfold Decode, Encode. destruct s as [|a [|c s]]; [done|done|].
    change (map lower (a :: c :: s)) with ([lower a; lower c] ++ map lower s).
    change (drop 2 (a :: c :: s)) with s.
    destruct (has0xPrefix (a :: c :: s)) eqn:E.
    + apply lower_prefix in E. rewrite E, hex_Decode_spec. split; [by intros ->|].
      intros Hs%app_inj_1; [|done]. apply Hs.
    + split; [done|]. intros [Hp _]%app_inj_1; [|done]. apply (lower_prefix a c s) in Hp. congruence.
  - unfold Bytes_UnmarshalJSON, Bytes_MarshalText.
    assert (Hq : isString (z2b 34 :: (prefix0x ++ hex_Encode b) ++ [z2b 34]) = true).
    { unfold isString. rewrite app_comm_cons, last_snoc. reflexivity. }
    rewrite Hq. unfold unquote.
    assert (Ht : take (length (z2b 34 :: (prefix0x ++ hex_Encode b) ++ [z2b 34]) - 2)
        (drop 1 (z2b 34 :: (prefix0x ++ hex_Encode b) ++ [z2b 34])) = prefix0x ++ hex_Encode b).
    { change (drop 1 (z2b 34 :: ?l)) with l. cbn [length]. apply take_app_length'.
      rewrite !length_app. cbn [length prefix0x]. lia. }
    rewrite Ht. unfold Bytes_UnmarshalText, checkText. cbn [prefix0x app].
    change (has0xPrefix (z2b 48 :: z2b 120 :: hex_Encode b)) with true. cbn [mbind outcome_bind].
    change (drop 2 (z2b 48 :: z2b 120 :: hex_Encode b)) with (hex_Encode b).
    rewrite length_hex_Encode, Nat.odd_mul. cbn [Nat.odd Nat.even negb andb mbind outcome_bind].
    apply hex_Decode_spec, lower_hex_Encode.
Qed.
End HexutilProofs.
