(* ===== verification/Zkp.v ===== *)
(** * Zkp: the zero-knowledge layer of the private currency (crypto/zkp)

    Keys, commitments, ElGamal encryption and signature check, and the three
    proof systems a private transfer carries: format proofs, balance proofs
    and linear-equation (equality) proofs. One definition per function of
    [Elgamal.go], [commit.go], [utils.go] and [zkp.go].

    - A [*big.Int] is a [Z], a [[]byte] a list of bytes ([nil] and the empty
      slice are both [[]]; no function here tells them apart).
    - [math/rand] draws are arguments: [draws k] is what [Rand] returns for
      the [k]-th seed, an integer of [0, limit).
    - The retry loops that look for a value prime to the modulus run on fuel.
    - [sha256.Sum256] is the section variable [sha256]; see [Sha256].
    - [fmt.Printf] diagnostics are dropped. *)

From stdpp Require Import base list.
From Stdlib Require Import ZArith Lia.
From S2P Require Import Prelude BigInt.

Local Open Scope Z_scope.

Module Zkp.

(** ** Data (Elgamal.go, commit.go, zkp.go) *)

Record PublicKey := mkPublicKey { G1 : Z; G2 : Z; P : Z; H : Z }.

Record PrivateKey := mkPrivateKey { priv_pub : PublicKey; X : Z }.

Record Signature := mkSignature { sig_M : bytes; sig_M_hash : bytes; sig_R : bytes; sig_S : bytes }.

Record Commitment := mkCommitment { commitment : bytes; rnd : bytes }.

Record CypherText := mkCypherText { C1 : bytes; C2 : bytes }.

Record FormatProof := mkFormatProof { fp_C : bytes; fp_Z1 : bytes; fp_Z2 : bytes }.

Record BalanceProof := mkBalanceProof {
  bp_C : bytes; bp_R_v : bytes; bp_R_r : bytes; bp_S_v : bytes; bp_S_r : bytes; bp_S_or : bytes }.

Record LinearEquationProof := mkLinearEquationProof { lp_S : list bytes; lp_T : bytes }.

Inductive zkp_error := ErrValueTooLarge.

(** ** Randomness: the retry loop shared by the encryption functions

    [k.Rand(rnd, limit); k.Add(k, 2)] until [gcd(k, m)], truncated to an
    [int64], is one. *)
Fixpoint draw_coprime (draws : nat → Z) (m : Z) (fuel rndKey : nat) : outcome diverge Z :=
  match fuel with
  | O => Err OutOfFuel
  | S fuel =>
      let k := draws rndKey + 2 in
      if big_gcd64 k m =? 1 then Ret k else draw_coprime draws m fuel (S rndKey)
  end.

(** ** Commitments (commit.go) *)

Definition Commit (pub : PublicKey) (v : Z) (rnd : bytes) : Commitment :=
  let v_ := v mod P pub in
  let r_ := be_decode rnd in
  let vG1 := big_exp (G1 pub) v_ (P pub) in
  let rH := big_exp (H pub) r_ (P pub) in
  let commitmentBigint := (vG1 * rH) mod P pub in
  mkCommitment (be_encode commitmentBigint) (be_encode r_).

Definition randBytes (draws : nat → Z) (fuel : nat) (pub : PublicKey) : outcome diverge bytes :=
  k ← draw_coprime draws (P pub) fuel 0;
  mret (be_encode k).

Definition CommitByUint64 (draws : nat → Z) (fuel : nat) (pub : PublicKey) (v : Z)
    : outcome diverge Commitment :=
  rnd ← randBytes draws fuel pub;
  mret (Commit pub v rnd).

Definition CommitByBytes (draws : nat → Z) (fuel : nat) (pub : PublicKey) (b : bytes)
    : outcome diverge Commitment :=
  rnd ← randBytes draws fuel pub;
  mret (Commit pub (be_decode b) rnd).

(** The search of [VerifyCommitment]; the last line is the [return 0] after
    the loop, which 262144 rounds never reach. *)
Fixpoint verify_commitment_from (pub : PublicKey) (R Commit : Z) (fuel : nat) (i : Z) : Z :=
  match fuel with
  | S fuel =>
      let vG1 := big_exp (G1 pub) i (P pub) in
      let rH := big_exp (H pub) R (P pub) in
      let commitmentBigint := (vG1 * rH) mod P pub in
      if commitmentBigint =? Commit then i
      else if 262144 <=? i then 0
      else verify_commitment_from pub R Commit fuel (i + 1)
  | O => 0
  end.

Definition VerifyCommitment (pub : PublicKey) (commit : Commitment) : Z :=
  verify_commitment_from pub (be_decode (rnd commit)) (be_decode (commitment commit))
    (Z.to_nat 262144) 1.

(** ** ElGamal encryption of a byte slice (Elgamal.go) *)

(** [var a [32]byte; copy(a[(32-len(x.Bytes())):], x.Bytes())]: a negative
    slice bound panics. *)
Definition norm32 (x : Z) : outcome diverge bytes :=
  let b := be_encode x in
  if (length b <=? 32)%nat then Ret (replicate (32 - length b) Byte.x00 ++ b) else Panic.

Definition encrypt_chunk (pub : PublicKey) (draws : nat → Z) (fuel : nat) (m_bytes : bytes)
    : outcome diverge (bytes * bytes) :=
  k ← draw_coprime draws (P pub) fuel 0;
  let m := be_decode m_bytes in
  let c1 := big_exp (G2 pub) k (P pub) in
  let s := big_exp (H pub) k (P pub) in
  let c2 := (s * m) mod P pub in
  c1_bytes ← norm32 c1;
  c2_bytes ← norm32 c2;
  mret (c1_bytes, c2_bytes).

(** Round [i] of the loop of [Encrypt], for the [rest = n - i] rounds to go:
    the slice of round [i] is [M[i*28 : (i+1)*28]], the last one [M[i*28:]]. *)
Fixpoint encrypt_from (pub : PublicKey) (draws : nat → nat → Z) (fuel : nat) (M : bytes)
    (rest i : nat) (c1 c2 : bytes) : outcome diverge CypherText :=
  match rest with
  | O => Ret (mkCypherText c1 c2)
  | S rest =>
      let m_bytes :=
        match rest with
        | O => drop (i * 28) M
        | S _ => take 28 (drop (i * 28) M)
        end in
      '(b1, b2) ← encrypt_chunk pub (draws i) fuel m_bytes;
      encrypt_from pub draws fuel M rest (S i) (c1 ++ b1) (c2 ++ b2)
  end.

Definition Encrypt (draws : nat → nat → Z) (fuel : nat) (pub : PublicKey) (M : bytes)
    : outcome diverge CypherText :=
  let n := ((length M + 27) / 28)%nat in
  encrypt_from pub draws fuel M n 0 [] [].

(** utils.go *)
Definition EncodeCypherText (C : CypherText) : Z := be_decode (C1 C ++ C2 C).

(** ** Encryption of a value and of an address (zkp.go) *)

Definition encrypt_bigint (draws : nat → Z) (fuel : nat) (pub : PublicKey) (m : Z)
    : outcome diverge (CypherText * Commitment) :=
  k ← draw_coprime draws (P pub) fuel 0;
  let c1 := be_encode (big_exp (G2 pub) k (P pub)) in
  let rnd := be_encode k in
  let commit := Commit pub m rnd in
  mret (mkCypherText c1 (commitment commit), commit).

Definition EncryptValue (draws : nat → Z) (fuel : nat) (pub : PublicKey) (M : Z)
    : outcome diverge (CypherText * Commitment * option zkp_error) :=
  if 262144 <? M then
    Ret (mkCypherText [] [], mkCommitment [] [], Some ErrValueTooLarge)
  else
    '(C, commit) ← encrypt_bigint draws fuel pub M;
    mret (C, commit, None).

Definition EncryptAddress (draws : nat → Z) (fuel : nat) (pub : PublicKey) (addr : bytes)
    : outcome diverge (CypherText * Commitment * option zkp_error) :=
  '(C, commit) ← encrypt_bigint draws fuel pub (be_decode addr);
  mret (C, commit, None).

(** ** Hash-based challenges *)

Section WithHash.
Context (sha256 : bytes → bytes).

(** [c_ := sha256.Sum256(m); c := SetBytes(c_[:]); c.Mod(c, pub.P)] *)
Definition challenge (pub : PublicKey) (m : bytes) : Z :=
  be_decode (sha256 m) mod P pub.

(** [x.Mul(c, w); x.Mod(x, P1); x.Sub(P1, x); z := a + x; z.Mod(z, P1)] *)
Definition response (P1 a c w : Z) : Z :=
  let x := P1 - (c * w) mod P1 in
  (a + x) mod P1.

(** Signature check (Elgamal.go) *)
Definition Verify (pub : PublicKey) (sig : Signature) : bool :=
  let hash_m := sha256 (sig_M sig) in
  if negb (length hash_m =? length (sig_M_hash sig))%nat then false
  else if negb (bool_decide (hash_m = sig_M_hash sig)) then false
  else
    let m := be_decode (sig_M_hash sig) mod P pub in
    let r := be_decode (sig_R sig) in
    let s := be_decode (sig_S sig) in
    let hr := big_exp (H pub) r (P pub) in
    let rs := big_exp r s (P pub) in
    let gm := big_exp (G2 pub) m (P pub) in
    (hr * rs) mod P pub =? gm.

(** ** Format proofs

    [rA] and [rB] are the two draws below [P - 4]. *)
Definition GenerateFormatProof (rA rB : Z) (pub : PublicKey) (v : Z) (r : bytes) : FormatProof :=
  let P1 := P pub - 1 in
  let a := rA + 2 in
  let b := rB + 2 in
  let g1a := big_exp (G1 pub) a (P pub) in
  let hb := big_exp (H pub) b (P pub) in
  let t1P := (g1a * hb) mod P pub in
  let t2P := big_exp (G2 pub) b (P pub) in
  let c := challenge pub (be_encode t1P ++ be_encode t2P) in
  let z1 := response P1 a c v in
  let z2 := response P1 b c (be_decode r) in
  mkFormatProof (be_encode c) (be_encode z1) (be_encode z2).

Definition VerifyFormatProof (C : CypherText) (pub : PublicKey) (fp : FormatProof) : bool :=
  let c1 := be_decode (C1 C) in
  let c2 := be_decode (C2 C) in
  let c := be_decode (fp_C fp) in
  let z1 := be_decode (fp_Z1 fp) in
  let z2 := be_decode (fp_Z2 fp) in
  let c1c := big_exp c2 c (P pub) in
  let g1z1 := big_exp (G1 pub) z1 (P pub) in
  let hz2 := big_exp (H pub) z2 (P pub) in
  let c1c := (c1c * g1z1) mod P pub in
  let t1V := (c1c * hz2) mod P pub in
  let c2c := big_exp c1 c (P pub) in
  let g2z2 := big_exp (G2 pub) z2 (P pub) in
  let t2V := (c2c * g2z2) mod P pub in
  let cV := challenge pub (be_encode t1V ++ be_encode t2V) in
  c =? cV.

(** ** Balance proofs

    [mix] is the one draw below [(P - 4) ^ 5] the five blinding values are
    digits of. *)
Definition GenerateBalanceProof (mix : Z) (pub : PublicKey) (vR vS vO : Z) (rR rS rO : bytes)
    : BalanceProof :=
  let P1 := P pub - 1 in
  let limit := P pub - 4 in
  let a := mix mod limit + 2 in
  let mix := mix / limit in
  let b := mix mod limit + 2 in
  let mix := mix / limit in
  let d := mix mod limit + 2 in
  let mix := mix / limit in
  let e := mix mod limit + 2 in
  let mix := mix / limit in
  let f := mix mod limit + 2 in
  let t1P := (big_exp (G1 pub) a (P pub) * big_exp (H pub) b (P pub)) mod P pub in
  let t2P := (big_exp (G1 pub) d (P pub) * big_exp (H pub) e (P pub)) mod P pub in
  let ad := (a + d) mod P1 in
  let t3P := (big_exp (G1 pub) ad (P pub) * big_exp (H pub) f (P pub)) mod P pub in
  let c := challenge pub ((be_encode t1P ++ be_encode t2P) ++ be_encode t3P) in
  let RV := response P1 a c vR in
  let RR := response P1 b c (be_decode rR) in
  let SV := response P1 d c vS in
  let SR := response P1 e c (be_decode rS) in
  let SOr := response P1 f c (be_decode rO) in
  mkBalanceProof (be_encode c) (be_encode RV) (be_encode RR)
    (be_encode SV) (be_encode SR) (be_encode SOr).

Definition VerifyBalanceProof (CM_r CM_s CM_o : bytes) (pub : PublicKey) (bp : BalanceProof)
    : bool :=
  let CmR := be_decode CM_r in
  let CmS := be_decode CM_s in
  let CmO := be_decode CM_o in
  let c := be_decode (bp_C bp) in
  let RV := be_decode (bp_R_v bp) in
  let RR := be_decode (bp_R_r bp) in
  let SV := be_decode (bp_S_v bp) in
  let SR := be_decode (bp_S_r bp) in
  let SOr := be_decode (bp_S_or bp) in
  let t1V := (big_exp (G1 pub) RV (P pub) * big_exp (H pub) RR (P pub)) mod P pub in
  let t1V := (t1V * big_exp CmR c (P pub)) mod P pub in
  let t2V := (big_exp (G1 pub) SV (P pub) * big_exp (H pub) SR (P pub)) mod P pub in
  let t2V := (t2V * big_exp CmS c (P pub)) mod P pub in
  let rvsv := RV + SV in
  let t3V := (big_exp (G1 pub) rvsv (P pub) * big_exp (H pub) SOr (P pub)) mod P pub in
  let t3V := (t3V * big_exp CmO c (P pub)) mod P pub in
  let cV := challenge pub ((be_encode t1V ++ be_encode t2V) ++ be_encode t3V) in
  c =? cV.

(** ** Linear-equation proofs *)

(** The [n] numbers [RandomBigInt] cuts out of the draw [mix]. *)
Fixpoint RandomBigInt (n : nat) (pub : PublicKey) (mix : Z) : list Z :=
  match n with
  | O => []
  | S n =>
      let limit := P pub - 4 in
      (mix mod limit + 2) :: RandomBigInt n pub (mix / limit)
  end.

(** The blinding vector: [ssnum] non-zero coefficients are left, the last
    of them gets the value that makes the weighted sum vanish, every other
    position the next number of [rbi] ([None]: index out of range). *)
Fixpoint blinding (P_1 : Z) (a : list Z) (rbi : list Z) (last : Z) (ssnum : nat)
    : option (list Z) :=
  match a with
  | [] => Some []
  | ai :: a' =>
      if ai =? 0 then
        match rbi with
        | r :: rbi' => v ← blinding P_1 a' rbi' last ssnum; Some (r :: v)
        | [] => None
        end
      else if (ssnum =? 1)%nat then
        (* [Ai.ModInverse(Ai, P_1)] leaves [Ai] as it is when there is none *)
        let Ai := default ai (mod_inverse ai P_1) in
        v ← blinding P_1 a' rbi last (ssnum - 1);
        Some ((last * Ai) mod P_1 :: v)
      else
        match rbi with
        | r :: rbi' =>
            v ← blinding P_1 a' rbi' ((last - ai * r) mod P_1) (ssnum - 1);
            Some (r :: v)
        | [] => None
        end
  end.

(** The product of the [g_i ^ e_i], reduced after every factor. *)
Fixpoint prod_exp (p acc : Z) (g : list bytes) (e : list Z) : Z :=
  match g, e with
  | gi :: g', ei :: e' => prod_exp p ((acc * big_exp (be_decode gi) ei p) mod p) g' e'
  | _, _ => acc
  end.

Definition count_nonzero (a : list Z) : nat := length (filter (λ ai, ai ≠ 0) a).

(** [mix] is the draw of [RandomBigInt]. The result is [None] when the code
    panics on an index of [rbi]. *)
Definition GenerateLinearEquationProof (mix : Z) (y : bytes) (b : Z) (a : list Z)
    (x g : list bytes) (pub : PublicKey) : option LinearEquationProof :=
  if negb (length x =? length g)%nat || negb (length g =? length a)%nat then
    Some (mkLinearEquationProof [] [])
  else
    let P_1 := P pub - 1 in
    let ssnum := count_nonzero a in
    let rbi :=
      if (ssnum =? 0)%nat then RandomBigInt (length a) pub mix
      else RandomBigInt (length a - 1) pub mix in
    v ← blinding P_1 a rbi 0 ssnum;
    let t := prod_exp (P pub) 1 g v in
    let T := be_encode t in
    let c_bi := challenge pub (concat g ++ y ++ T) in
    let S := zip_with (λ vi xi, be_encode ((vi - c_bi * be_decode xi) mod P_1)) v x in
    Some (mkLinearEquationProof S T).

(** The sum of the [a_i * S_i], reduced after every term. *)
Fixpoint sum_mod (P_1 acc : Z) (a : list Z) (S : list bytes) : Z :=
  match a, S with
  | ai :: a', si :: S' => sum_mod P_1 ((acc + (ai * be_decode si) mod P_1) mod P_1) a' S'
  | _, _ => acc
  end.

Definition VerifyLinearEquationProof (lp : LinearEquationProof) (y : bytes) (b : Z) (a : list Z)
    (g : list bytes) (pub : PublicKey) : bool :=
  if negb (length (lp_S lp) =? length g)%nat || negb (length g =? length a)%nat then false
  else
    let P_1 := P pub - 1 in
    let c_bi := challenge pub (concat g ++ y ++ lp_T lp) in
    let t_verify := big_exp (be_decode y) c_bi (P pub) in
    let t_verify := prod_exp (P pub) t_verify g (map be_decode (lp_S lp)) in
    if negb (t_verify =? be_decode (lp_T lp)) then false
    else
      let cb := - (c_bi * u64 b) in
      let mix := sum_mod P_1 0 a (lp_S lp) in
      mix =? cb.

(** ** Equality proofs: the linear equation [x0 - x1 = 0]

    [EqualityProof] embeds [LinearEquationProof] and nothing else. *)

Definition equality_generators (pub1 pub2 : PublicKey) : list bytes :=
  [be_encode (G1 pub1); be_encode (G1 pub2); be_encode (H pub1); be_encode (H pub2)].

Definition equality_coefficients : list Z := [1; -1; 0; 0].

Definition GenerateEqualityProof (mix : Z) (pub1 pub2 : PublicKey) (C1 C2 : Commitment) (v : Z)
    : option LinearEquationProof :=
  if negb (P pub1 =? P pub2) then Some (mkLinearEquationProof [] [])
  else
    let V := i64 v in
    let Y := (be_decode (commitment C1) * be_decode (commitment C2)) mod P pub1 in
    let g := equality_generators pub1 pub2 in
    let x := [be_encode V; be_encode V; rnd C1; rnd C2] in
    GenerateLinearEquationProof mix (be_encode Y) 0 equality_coefficients x g pub1.

Definition GenerateAddressEqualityProof (mix : Z) (pub1 pub2 : PublicKey) (C1 C2 : Commitment)
    (addr : bytes) : option LinearEquationProof :=
  if negb (P pub1 =? P pub2) then Some (mkLinearEquationProof [] [])
  else
    let V := be_decode addr in
    let Y := (be_decode (commitment C1) * be_decode (commitment C2)) mod P pub1 in
    let g := equality_generators pub1 pub2 in
    let x := [be_encode V; be_encode V; rnd C1; rnd C2] in
    GenerateLinearEquationProof mix (be_encode Y) 0 equality_coefficients x g pub1.

Definition VerifyEqualityProof (pub1 pub2 : PublicKey) (Ca Cb : CypherText)
    (ep : LinearEquationProof) : bool :=
  if negb (P pub1 =? P pub2) then false
  else
    let Y := (be_decode (C2 Ca) * be_decode (C2 Cb)) mod P pub1 in
    let g := equality_generators pub1 pub2 in
    VerifyLinearEquationProof ep (be_encode Y) 0 equality_coefficients g pub1.
End WithHash.

End Zkp.
