(* ===== verification/ZkpProofs.v ===== *)
(** * ZkpProofs: what the proof systems of crypto/zkp guarantee

    Completeness: every proof an honest prover generates is accepted, for any
    hash function and any random draws. *)

From stdpp Require Import base list.
From Stdlib Require Import ZArith Lia.
From S2P Require Import Prelude BigInt Sha256 Zkp.

Local Open Scope Z_scope.
Local Open Scope go_scope.

(** ** ZkpLemmas: the algebra behind the proof systems of crypto/zkp

    What the building blocks of [Zkp] compute modulo the prime of a key:
    commitments, challenges, responses, the two folds of the
    linear-equation proofs and the blinding vector. *)

Module ZkpLemmas.
Import Zkp.

(** A key as [GenerateKeys] produces them: a prime modulus and generators
    that are units modulo it. *)
Record valid_key (pub : PublicKey) : Prop := {
  vk_prime : Z.prime (P pub);
  vk_large : 5 < P pub;
  vk_G1 : 0 < G1 pub < P pub;
  vk_G2 : 0 < G2 pub < P pub;
  vk_H : 0 < H pub < P pub;
}.

(** A draw of [big.Int.Rand] below [limit = P - 4]. *)
Definition valid_draw (pub : PublicKey) (r : Z) : Prop := 0 <= r < P pub - 4.

Section Key.
Context (pub : PublicKey) (Hvk : valid_key pub).
Local Abbreviation p := (P pub).

Lemma key_pos : 0 < p.
Proof using Hvk. destruct Hvk. lia. Qed.

Lemma unit_small g : 0 < g < p → unit_mod p g.
Proof using Type. intros Hg. unfold unit_mod. rewrite Z.mod_small; lia. Qed.

Lemma unit_G1 : unit_mod p (G1 pub).
Proof using Hvk. apply unit_small, Hvk. Qed.
Lemma unit_G2 : unit_mod p (G2 pub).
Proof using Hvk. apply unit_small, Hvk. Qed.
Lemma unit_H : unit_mod p (H pub).
Proof using Hvk. apply unit_small, Hvk. Qed.

(** The first draw is always accepted: below a prime everything is prime to it. *)
Lemma draw_coprime_first draws fuel :
  valid_draw pub (draws O) → draw_coprime draws p (S fuel) 0 = Ret (draws O + 2).
Proof using Hvk.
  intros [H0 H1]. cbn [draw_coprime]. unfold big_gcd64.
  rewrite unit_mod_gcd; [done|apply Hvk|]. apply unit_small. lia.
Qed.

Lemma challenge_range sha m : 0 <= challenge sha pub m < p.
Proof using Hvk. apply Z.mod_pos_bound, key_pos. Qed.

Lemma response_range P1 a c w : 0 < P1 → 0 <= response P1 a c w < P1.
Proof using Type. intros. apply Z.mod_pos_bound; lia. Qed.

Lemma response_eqmod P1 a c w : response P1 a c w ≡ a - c * w [mod P1].
Proof using Type.
  unfold response. rewrite eqmod_mod, eqmod_mod, eqmod_sub_self.
  by rewrite Z.add_opp_r.
Qed.

(** A response cancels the challenge: [g^z * (g^w)^c = g^a]. *)
Lemma opening g z a c w :
  unit_mod p g → 0 <= z → 0 <= a → 0 <= c → 0 <= w →
  z ≡ a - c * w [mod p - 1] → g ^ z * (g ^ w) ^ c ≡ g ^ a [mod p].
Proof using Hvk.
  intros Hg Hz Ha Hc Hw E. rewrite <- Z.pow_mul_r, <- Z.pow_add_r by nia.
  apply pow_exponent_mod; [apply Hvk|done|nia|done|].
  rewrite E. by replace (a - c * w + w * c) with a by lia.
Qed.

Lemma opening_response g a c w :
  unit_mod p g → 0 <= a → 0 <= c → 0 <= w →
  g ^ response (p - 1) a c w * (g ^ w) ^ c ≡ g ^ a [mod p].
Proof using Hvk.
  intros. pose proof (vk_large _ Hvk).
  pose proof (response_range (p - 1) a c w ltac:(lia)).
  apply opening; try done; [lia|]. apply response_eqmod.
Qed.

(** ** Commitments *)

Lemma Commit_value v r :
  be_decode (commitment (Commit pub v r)) =
  (G1 pub ^ (v mod p) * H pub ^ be_decode r) mod p.
Proof using Hvk.
  pose proof key_pos. cbn [Commit commitment].
  rewrite be_decode_encode by (apply Z.mod_pos_bound; lia).
  rewrite !big_exp_spec by lia. by rewrite <- Zmult_mod.
Qed.

Lemma Commit_rnd v r : be_decode (rnd (Commit pub v r)) = be_decode r.
Proof using Type. cbn [Commit rnd]. apply be_decode_encode, be_decode_nonneg. Qed.

Lemma Commit_eqmod v r :
  0 <= v < p →
  be_decode (commitment (Commit pub v r)) ≡ G1 pub ^ v * H pub ^ be_decode r [mod p].
Proof using Hvk.
  intros Hv. rewrite Commit_value, eqmod_mod. by rewrite (Z.mod_small v).
Qed.

(** A commitment raised to the challenge cancels the two responses. *)
Lemma opening_commitment cm v r a b c z1 z2 :
  0 <= v → 0 <= r → 0 <= a → 0 <= b → 0 <= c → 0 <= z1 → 0 <= z2 →
  cm ≡ G1 pub ^ v * H pub ^ r [mod p] →
  z1 ≡ a - c * v [mod p - 1] → z2 ≡ b - c * r [mod p - 1] →
  G1 pub ^ z1 * H pub ^ z2 * cm ^ c ≡ G1 pub ^ a * H pub ^ b [mod p].
Proof using Hvk.
  intros Hv Hr Ha Hb Hc Hz1 Hz2 Hcm E1 E2.
  rewrite (eqmod_pow _ _ _ c Hcm), Z.pow_mul_l.
  replace (G1 pub ^ z1 * H pub ^ z2 * ((G1 pub ^ v) ^ c * (H pub ^ r) ^ c))
    with ((G1 pub ^ z1 * (G1 pub ^ v) ^ c) * (H pub ^ z2 * (H pub ^ r) ^ c)) by lia.
  rewrite (opening (G1 pub) z1 a c v), (opening (H pub) z2 b c r);
    try reflexivity; auto using unit_G1, unit_H.
Qed.

(** The verifier's expression for one commitment, as the code computes it. *)
Lemma verifier_term cm v r a b c z1 z2 :
  0 <= v → 0 <= r → 0 <= a → 0 <= b → 0 <= c → 0 <= z1 → 0 <= z2 →
  cm ≡ G1 pub ^ v * H pub ^ r [mod p] →
  z1 ≡ a - c * v [mod p - 1] → z2 ≡ b - c * r [mod p - 1] →
  ((big_exp (G1 pub) z1 p * big_exp (H pub) z2 p) mod p * big_exp cm c p) mod p
  = (big_exp (G1 pub) a p * big_exp (H pub) b p) mod p.
Proof using Hvk.
  intros. apply eqmod_eq. rewrite eqmod_mod, !big_exp_eqmod by apply key_pos.
  by apply (opening_commitment cm v r).
Qed.

(** ** The folds of the linear-equation proofs *)

Fixpoint prod_pow (g : list bytes) (e : list Z) : Z :=
  match g, e with
  | gi :: g', ei :: e' => be_decode gi ^ ei * prod_pow g' e'
  | _, _ => 1
  end.

Fixpoint dot (a x : list Z) : Z :=
  match a, x with
  | ai :: a', xi :: x' => ai * xi + dot a' x'
  | _, _ => 0
  end.

Lemma prod_exp_eqmod acc g e :
  prod_exp p acc g e ≡ acc * prod_pow g e [mod p].
Proof using Hvk.
  revert acc e. induction g as [|gi g IH]; intros acc [|ei e]; cbn [prod_exp prod_pow];
    rewrite ?Z.mul_1_r; try done.
  rewrite IH, eqmod_mod, big_exp_eqmod by apply key_pos. by rewrite Z.mul_assoc.
Qed.

Lemma prod_exp_range acc g e :
  0 <= acc < p → 0 <= prod_exp p acc g e < p.
Proof using Hvk.
  revert acc e. induction g as [|gi g IH]; intros acc [|ei e] Hacc; cbn [prod_exp]; try done.
  apply IH, Z.mod_pos_bound, key_pos.
Qed.

Lemma sum_mod_eqmod P_1 acc a S :
  sum_mod P_1 acc a S ≡ acc + dot a (map be_decode S) [mod P_1].
Proof using Type.
  revert acc S. induction a as [|ai a IH]; intros acc [|si S]; cbn [sum_mod dot map];
    rewrite ?Z.add_0_r; try done.
  rewrite IH, eqmod_mod, eqmod_mod. by rewrite Z.add_assoc.
Qed.

Lemma sum_mod_range P_1 acc a S :
  0 <= acc < P_1 → 0 <= sum_mod P_1 acc a S < P_1.
Proof using Type.
  revert acc S. induction a as [|ai a IH]; intros acc [|si S] Hacc; cbn [sum_mod]; try done.
  apply IH, Z.mod_pos_bound. lia.
Qed.

(** ** The blinding vector *)

Lemma RandomBigInt_length n mix : length (RandomBigInt n pub mix) = n.
Proof using Type. revert mix. induction n as [|n IH]; intros mix; cbn; [done|]. by rewrite IH. Qed.

Lemma RandomBigInt_nonneg n mix : Forall (λ r, 0 <= r) (RandomBigInt n pub mix).
Proof using Hvk.
  revert mix. induction n as [|n IH]; intros mix; cbn; constructor; [|done].
  pose proof (vk_large _ Hvk). pose proof (Z.mod_pos_bound mix (p - 4)). lia.
Qed.

(** The last non-zero coefficient has an inverse. *)
Fixpoint last_invertible (P_1 : Z) (a : list Z) : Prop :=
  match a with
  | [] => True
  | ai :: a' =>
      if (ai =? 0) || negb (count_nonzero a' =? 0)%nat then last_invertible P_1 a'
      else Z.gcd ai P_1 = 1
  end.

Lemma count_nonzero_cons ai a :
  count_nonzero (ai :: a) = ((if (ai =? 0)%Z then 0 else 1) + count_nonzero a)%nat.
Proof using Type.
  unfold count_nonzero. rewrite filter_cons. destruct (Z.eqb_spec ai 0).
  - by rewrite decide_False by lia.
  - by rewrite decide_True.
Qed.

Lemma count_nonzero_le a : (count_nonzero a <= length a)%nat.
Proof using Type. apply length_filter. Qed.

(** With enough random numbers the vector exists, has the length of [a],
    is non-negative, and its weighted sum is [last] (zero when every
    coefficient is zero). *)
Lemma blinding_spec P_1 a rbi last :
  1 < P_1 →
  last_invertible P_1 a →
  Forall (λ r, 0 <= r) rbi →
  (length a <= length rbi + (if (count_nonzero a =? 0)%nat then 0 else 1))%nat →
  ∃ v, blinding P_1 a rbi last (count_nonzero a) = Some v ∧
       length v = length a ∧
       Forall (λ r, 0 <= r) v ∧
       (count_nonzero a ≠ 0%nat → dot a v ≡ last [mod P_1]) ∧
       (count_nonzero a = 0%nat → dot a v = 0).
Proof using Type.
  intros HP1. revert rbi last. induction a as [|ai a IH]; intros rbi last Hinv Hr Hlen.
  { exists []. split_and!; done. }
  cbn [blinding last_invertible length] in *. rewrite count_nonzero_cons in *.
  destruct (Z.eqb_spec ai 0) as [->|Hai]; cbn [orb] in Hinv.
  - rewrite Nat.add_0_l in *.
    destruct rbi as [|r rbi].
    { exfalso. cbn [length] in Hlen. pose proof (count_nonzero_le a).
      destruct (Nat.eqb_spec (count_nonzero a) 0); lia. }
    apply Forall_cons in Hr as [Hr0 Hr]. cbn [length] in Hlen.
    destruct (IH rbi last Hinv Hr ltac:(lia)) as (v & -> & Hl & Hv & Hd & Hd0).
    exists (r :: v). cbn. split_and!; auto; try lia.
  - destruct (Nat.eqb_spec (count_nonzero a) 0) as [E|E]; cbn [negb] in Hinv.
    + rewrite E in *. cbn [Nat.eqb Nat.add] in *.
      assert (Hinv' : last_invertible P_1 a).
      { clear -E. induction a as [|bi a IH]; [done|]. rewrite count_nonzero_cons in E.
        cbn [last_invertible]. destruct (bi =? 0) eqn:B; [|lia].
        cbn. by apply IH. }
      destruct (IH rbi last Hinv' Hr ltac:(lia)) as (v & Ev & Hl & Hv & _ & Hd0).
      change (1 - 1)%nat with 0%nat. rewrite Ev. cbn.
      unfold mod_inverse. rewrite Hinv. cbn.
      eexists. split; [done|]. cbn. split_and!; try lia.
      * constructor; [|done]. apply Z.mod_pos_bound. lia.
      * intros _. rewrite Hd0 by done. rewrite Z.add_0_r, eqmod_mod.
        assert (Hi : Z.invmod ai P_1 * ai ≡ 1 [mod P_1])
          by (constructor; by apply Z.invmod_coprime').
        replace (ai * (last * Z.invmod ai P_1)) with (last * (Z.invmod ai P_1 * ai)) by lia.
        rewrite Hi. by rewrite Z.mul_1_r.
    + cbn [Nat.add Nat.eqb].
      destruct (Nat.eqb_spec (count_nonzero a) 0); [done|].
      destruct rbi as [|r rbi]; [cbn in Hlen; pose proof (count_nonzero_le a); lia|].
      apply Forall_cons in Hr as [Hr0 Hr]. cbn [length Nat.add Nat.eqb] in Hlen.
      rewrite Nat.sub_succ, Nat.sub_0_r.
      destruct (IH rbi ((last - ai * r) mod P_1) Hinv Hr ltac:(lia))
        as (v & -> & Hl & Hv & Hd & Hd0).
      exists (r :: v). cbn. split_and!; auto; try lia.
      intros _. rewrite Hd by done. rewrite eqmod_mod.
      by replace (ai * r + (last - ai * r)) with last by lia.
Qed.

(** ** Responses of a linear-equation proof *)

Definition responses (P_1 c : Z) (v x : list Z) : list Z :=
  zip_with (λ vi xi, (vi - c * xi) mod P_1) v x.

Lemma prod_pow_open c g v x :
  0 <= c → Forall (λ gi, unit_mod p (be_decode gi)) g →
  Forall (λ r, 0 <= r) v → Forall (λ r, 0 <= r) x →
  length v = length g → length x = length g →
  prod_pow g x ^ c * prod_pow g (responses (p - 1) c v x) ≡ prod_pow g v [mod p].
Proof using Hvk.
  intros Hc. pose proof (vk_large _ Hvk).
  revert v x. induction g as [|gi g IH]; intros [|vi v] [|xi x] Hg Hv Hx Hlv Hlx; try done.
  { cbn. by rewrite Z.pow_1_l. }
  apply Forall_cons in Hg as [Hg0 Hg], Hv as [Hv0 Hv], Hx as [Hx0 Hx].
  cbn [prod_pow responses zip_with]. rewrite Z.pow_mul_l.
  set (z := (vi - c * xi) mod (p - 1)).
  replace ((be_decode gi ^ xi) ^ c * prod_pow g x ^ c *
           (be_decode gi ^ z * prod_pow g (zip_with (λ vi xi, (vi - c * xi) mod (p - 1)) v x)))
    with ((be_decode gi ^ z * (be_decode gi ^ xi) ^ c) *
          (prod_pow g x ^ c * prod_pow g (responses (p - 1) c v x))) by (unfold responses; lia).
  assert (0 <= z) by (apply Z.mod_pos_bound; lia).
  rewrite (opening _ z vi c xi), IH; try done; auto. apply eqmod_mod.
Qed.

Lemma dot_open P_1 c a v x :
  length v = length x →
  dot a (responses P_1 c v x) ≡ dot a v - c * dot a x [mod P_1].
Proof using Type.
  revert v x. induction a as [|ai a IH]; intros [|vi v] [|xi x] Hl; try done; cbn [responses dot zip_with].
  { by rewrite Z.mul_0_r. } { by rewrite Z.mul_0_r. } { by rewrite Z.mul_0_r. }
  rewrite eqmod_mod. injection Hl as Hl. specialize (IH _ _ Hl). unfold responses in IH.
  rewrite IH.
  by replace (ai * (vi - c * xi) + (dot a v - c * dot a x))
    with (ai * vi + dot a v - c * (ai * xi + dot a x)) by lia.
Qed.
End Key.
End ZkpLemmas.

Local Open Scope go_scope.

Module ZkpProofs.
Import Zkp ZkpLemmas.

Section Encryption.
Context (pub : PublicKey) (Hvk : valid_key pub).

(** The encryption loops stop at their first draw. *)
Lemma encrypt_bigint_total draws fuel m :
  valid_draw pub (draws O) →
  encrypt_bigint draws (S fuel) pub m =
  Ret (mkCypherText (be_encode (big_exp (G2 pub) (draws O + 2) (P pub)))
         (commitment (Commit pub m (be_encode (draws O + 2)))),
       Commit pub m (be_encode (draws O + 2))).
Proof using Hvk. intros Hd. unfold encrypt_bigint. by rewrite draw_coprime_first. Qed.

Lemma EncryptValue_total draws fuel v :
  valid_draw pub (draws O) → v <= 262144 →
  EncryptValue draws (S fuel) pub v =
  Ret (mkCypherText (be_encode (big_exp (G2 pub) (draws O + 2) (P pub)))
         (commitment (Commit pub v (be_encode (draws O + 2)))),
       Commit pub v (be_encode (draws O + 2)), None).
Proof using Hvk.
  intros Hd Hv. unfold EncryptValue. destruct (Z.ltb_spec 262144 v); [lia|].
  by rewrite encrypt_bigint_total.
Qed.

Lemma EncryptAddress_total draws fuel addr :
  valid_draw pub (draws O) →
  EncryptAddress draws (S fuel) pub addr =
  Ret (mkCypherText (be_encode (big_exp (G2 pub) (draws O + 2) (P pub)))
         (commitment (Commit pub (be_decode addr) (be_encode (draws O + 2)))),
       Commit pub (be_decode addr) (be_encode (draws O + 2)), None).
Proof using Hvk. intros Hd. unfold EncryptAddress. by rewrite encrypt_bigint_total. Qed.
End Encryption.

Section Completeness.
Context (sha256 : bytes → bytes) (pub : PublicKey) (Hvk : valid_key pub).
Local Abbreviation p := (P pub).

Lemma format_proof_accepts v k rA rB r :
  0 <= v < p → 0 <= k → valid_draw pub rA → valid_draw pub rB → be_decode r = k →
  VerifyFormatProof sha256
    (mkCypherText (be_encode (big_exp (G2 pub) k p)) (commitment (Commit pub v (be_encode k))))
    pub (GenerateFormatProof sha256 rA rB pub v r) = true.
Proof using Hvk.
  intros Hv Hk [HA _] [HB _] Hr.
  unfold VerifyFormatProof, GenerateFormatProof. cbn [C1 C2 fp_C fp_Z1 fp_Z2].
  rewrite Hr. set (ch := challenge sha256 pub _).
  pose proof (key_pos pub Hvk). pose proof (vk_large _ Hvk).
  assert (Hc : 0 <= ch < p) by by apply challenge_range.
  pose proof (response_range (p - 1) (rA + 2) ch v ltac:(lia)).
  pose proof (response_range (p - 1) (rB + 2) ch k ltac:(lia)).
  rewrite !(be_decode_encode ch), !(be_decode_encode (response _ _ _ _)),
    (be_decode_encode (big_exp _ _ _)) by (try apply big_exp_range; lia).
  apply Z.eqb_eq. unfold ch at 1. f_equal. f_equal; f_equal; symmetry.
  - apply eqmod_eq. rewrite eqmod_mod, !big_exp_eqmod by done.
    rewrite (Z.mul_comm (_ ^ ch)), <- Z.mul_assoc, (Z.mul_comm (_ ^ ch)), Z.mul_assoc.
    apply (opening_commitment pub Hvk _ v k); try lia; try apply response_eqmod.
    rewrite Commit_eqmod by done. by rewrite be_decode_encode.
  - apply (eqmod_small p); try (apply Z.mod_pos_bound; done); [by apply big_exp_range|].
    rewrite eqmod_mod, (big_exp_eqmod _ ch) by done.
    rewrite (eqmod_pow _ _ _ _ (big_exp_eqmod _ k p ltac:(done))), !big_exp_eqmod, Z.mul_comm
      by done.
    apply opening_response; auto using unit_G2; lia.
Qed.

(** Balance proofs, for commitments given by their openings. *)
Lemma balance_proof_accepts mix vR vS vO rR rS rO CmR CmS CmO :
  0 <= vR → 0 <= vS →
  be_decode CmR ≡ G1 pub ^ vR * H pub ^ be_decode rR [mod p] →
  be_decode CmS ≡ G1 pub ^ vS * H pub ^ be_decode rS [mod p] →
  be_decode CmO ≡ G1 pub ^ (vR + vS) * H pub ^ be_decode rO [mod p] →
  VerifyBalanceProof sha256 CmR CmS CmO pub
    (GenerateBalanceProof sha256 mix pub vR vS vO rR rS rO) = true.
Proof using Hvk.
  intros HvR HvS HcR HcS HcO.
  unfold VerifyBalanceProof, GenerateBalanceProof.
  cbn [bp_C bp_R_v bp_R_r bp_S_v bp_S_r bp_S_or].
  pose proof (key_pos pub Hvk). pose proof (vk_large _ Hvk).
  set (lim := p - 4). set (ch := challenge sha256 pub _).
  assert (Hd : ∀ m, 0 <= m mod lim + 2)
    by (intros m; pose proof (Z.mod_pos_bound m lim); lia).
  generalize (Hd mix), (Hd (mix / lim)), (Hd (mix / lim / lim)),
    (Hd (mix / lim / lim / lim)), (Hd (mix / lim / lim / lim / lim)).
  set (a := mix mod lim + 2) in *. set (b := (mix / lim) mod lim + 2) in *.
  set (d := (mix / lim / lim) mod lim + 2) in *.
  set (e := (mix / lim / lim / lim) mod lim + 2) in *.
  set (f := (mix / lim / lim / lim / lim) mod lim + 2) in *.
  intros Ha Hb Hdd He Hf.
  assert (Hc : 0 <= ch < p) by by apply challenge_range.
  assert (Hresp : ∀ x w, 0 <= response (p - 1) x ch w)
    by (intros; apply response_range; lia).
  pose proof (Z.mod_pos_bound (a + d) (p - 1) ltac:(lia)).
  rewrite !(be_decode_encode ch), !(be_decode_encode (response _ _ _ _)) by (auto; lia).
  apply Z.eqb_eq. unfold ch at 1. do 2 f_equal; [f_equal|]; f_equal; symmetry.
  - apply (verifier_term pub Hvk _ vR (be_decode rR)); auto using be_decode_nonneg;
      try lia; apply response_eqmod.
  - apply (verifier_term pub Hvk _ vS (be_decode rS)); auto using be_decode_nonneg;
      try lia; apply response_eqmod.
  - apply (verifier_term pub Hvk _ (vR + vS) (be_decode rO)); auto using be_decode_nonneg;
      try lia.
    + pose proof (Hresp a vR). pose proof (Hresp d vS). lia.
    + rewrite !response_eqmod, eqmod_mod.
      by replace (a - ch * vR + (d - ch * vS)) with (a + d - ch * (vR + vS)) by lia.
    + apply response_eqmod.
Qed.

(** Linear-equation proofs for a homogeneous equation ([b = 0]). *)
Lemma linear_proof_accepts mix y a x g :
  length x = length g → length g = length a →
  Forall (λ gi, unit_mod p (be_decode gi)) g →
  last_invertible (p - 1) a →
  be_decode y ≡ prod_pow g (map be_decode x) [mod p] →
  dot a (map be_decode x) ≡ 0 [mod p - 1] →
  ∃ lp, GenerateLinearEquationProof sha256 mix y 0 a x g pub = Some lp ∧
        VerifyLinearEquationProof sha256 lp y 0 a g pub = true.
Proof using Hvk.
  intros Hxg Hga Hg Hinv Hy Hdot. pose proof (vk_large _ Hvk).
  unfold GenerateLinearEquationProof.
  rewrite (proj2 (Nat.eqb_eq _ _) Hxg), (proj2 (Nat.eqb_eq _ _) Hga). cbn [negb orb].
  set (rbi := if (count_nonzero a =? 0)%nat then _ else _).
  destruct (blinding_spec (p - 1) a rbi 0) as (v & Ev & Hlv & Hv & Hd & Hd0);
    [lia|done| | |].
  { subst rbi. destruct (_ =? _)%nat; by apply RandomBigInt_nonneg. }
  { subst rbi. destruct (_ =? _)%nat; rewrite RandomBigInt_length; lia. }
  rewrite Ev. cbn. eexists. split; [done|].
  unfold VerifyLinearEquationProof. cbn [lp_S lp_T].
  set (t := prod_exp p 1 g v). set (c := challenge sha256 pub _).
  set (S := zip_with _ v x).
  assert (HS : map be_decode S = responses (p - 1) c v (map be_decode x)).
  { subst S. unfold responses. generalize c. clear -H0. intros c. revert x. induction v as [|vi v IH]; intros [|xi x];
      cbn; try done. rewrite IH. f_equal. apply be_decode_encode, Z.mod_pos_bound. lia. }
  assert (HlS : length S = length g) by (subst S; rewrite length_zip_with; lia).
  rewrite (proj2 (Nat.eqb_eq _ _) HlS), (proj2 (Nat.eqb_eq _ _) Hga). cbn [negb orb].
  fold t. fold c. rewrite HS.
  assert (Hc : 0 <= c < p) by by apply challenge_range.
  assert (Ht : 0 <= t < p) by (apply prod_exp_range; [done|lia]).
  rewrite be_decode_encode by lia.
  replace (prod_exp p (big_exp (be_decode y) c p) g _) with t.
  2:{ apply (eqmod_small p); [done|apply prod_exp_range; [done|apply big_exp_range; lia]|].
      subst t. rewrite !prod_exp_eqmod, big_exp_eqmod, (eqmod_pow _ _ _ c Hy), Z.mul_1_l
        by (done || lia).
      symmetry. apply prod_pow_open; try done; rewrite ?length_map; try lia.
      apply Forall_forall. intros z (b & -> & _)%list_elem_of_fmap. apply be_decode_nonneg. }
  rewrite Z.eqb_refl. cbn [negb]. apply Z.eqb_eq. change (u64 0) with 0. rewrite Z.mul_0_r.
  apply (eqmod_small (p - 1)); [apply sum_mod_range; lia|lia|].
  rewrite sum_mod_eqmod, HS, dot_open, Hdot by (rewrite length_map; lia).
  rewrite Z.mul_0_r, Z.sub_0_r, Z.add_0_l.
  destruct (decide (count_nonzero a = 0%nat)) as [E|E]; [by rewrite Hd0|by apply Hd].
Qed.

(** Equality proofs, for two keys over the same modulus and two commitments
    whose product opens to the value [w] twice. *)
Lemma equality_accepts pub2 mix w Ca Cb ra rb :
  valid_key pub2 → P pub2 = p → 0 <= w →
  be_decode Ca * be_decode Cb ≡
    G1 pub ^ w * (G1 pub2 ^ w * (H pub ^ be_decode ra * H pub2 ^ be_decode rb)) [mod p] →
  ∃ lp,
    GenerateLinearEquationProof sha256 mix (be_encode ((be_decode Ca * be_decode Cb) mod p)) 0
      equality_coefficients [be_encode w; be_encode w; ra; rb]
      (equality_generators pub pub2) pub = Some lp ∧
    ∀ c1a c1b, VerifyEqualityProof sha256 pub pub2 (mkCypherText c1a Ca) (mkCypherText c1b Cb) lp
               = true.
Proof using Hvk.
  intros Hvk2 HP Hw HY. pose proof (key_pos pub Hvk). pose proof (vk_large _ Hvk).
  pose proof (vk_G1 _ Hvk). pose proof (vk_H _ Hvk).
  pose proof (vk_G1 _ Hvk2). pose proof (vk_H _ Hvk2).
  destruct (linear_proof_accepts mix (be_encode ((be_decode Ca * be_decode Cb) mod p))
    equality_coefficients [be_encode w; be_encode w; ra; rb] (equality_generators pub pub2))
    as (lp & Hgen & Hver); try done.
  - repeat constructor; rewrite be_decode_encode by lia; apply unit_small; lia.
  - exact (eq_trans (Z.gcd_opp_l 1 (p - 1)) (Z.gcd_1_l (p - 1))).
  - rewrite be_decode_encode by (apply Z.mod_pos_bound; lia). rewrite eqmod_mod, HY.
    cbn [equality_generators map prod_pow]. rewrite !be_decode_encode by lia.
    by rewrite Z.mul_1_r.
  - cbn [equality_coefficients map dot]. rewrite be_decode_encode by done.
    by replace (1 * w + (-1 * w + (0 * be_decode ra + (0 * be_decode rb + 0)))) with 0 by lia.
  - exists lp. split; [done|]. intros c1a c1b. unfold VerifyEqualityProof. cbn [C2].
    by rewrite HP, Z.eqb_refl.
Qed.
End Completeness.
(** ** Soundness: what two accepted proofs over the same first messages reveal *)

Section Soundness.
Context (pub : PublicKey) (Hvk : valid_key pub).
Local Abbreviation p := (P pub).

(** The first messages [VerifyFormatProof] reconstructs and hashes. *)
Definition format_messages (C : CypherText) (fp : FormatProof) : Z * Z :=
  let c := be_decode (fp_C fp) in
  let z1 := be_decode (fp_Z1 fp) in
  let z2 := be_decode (fp_Z2 fp) in
  (((big_exp (be_decode (C2 C)) c p * big_exp (G1 pub) z1 p) mod p * big_exp (H pub) z2 p) mod p,
   (big_exp (be_decode (C1 C)) c p * big_exp (G2 pub) z2 p) mod p).

Definition format_input (m : Z * Z) : bytes := be_encode m.1 ++ be_encode m.2.

Lemma VerifyFormatProof_messages sha256 C fp :
  VerifyFormatProof sha256 C pub fp = true →
  be_decode (fp_C fp) = challenge sha256 pub (format_input (format_messages C fp)).
Proof using Type. apply Z.eqb_eq. Qed.

(** The same for one commitment of a balance proof. *)
Definition commitment_message (Cm : bytes) (c z w : Z) : Z :=
  ((big_exp (G1 pub) z p * big_exp (H pub) w p) mod p * big_exp (be_decode Cm) c p) mod p.

Definition balance_messages (CmR CmS CmO : bytes) (bp : BalanceProof) : Z * Z * Z :=
  let c := be_decode (bp_C bp) in
  let RV := be_decode (bp_R_v bp) in
  let SV := be_decode (bp_S_v bp) in
  (commitment_message CmR c RV (be_decode (bp_R_r bp)),
   commitment_message CmS c SV (be_decode (bp_S_r bp)),
   commitment_message CmO c (RV + SV) (be_decode (bp_S_or bp))).

Definition balance_input (m : Z * Z * Z) : bytes :=
  (be_encode m.1.1 ++ be_encode m.1.2) ++ be_encode m.2.

Lemma VerifyBalanceProof_messages sha256 CmR CmS CmO bp :
  VerifyBalanceProof sha256 CmR CmS CmO pub bp = true →
  be_decode (bp_C bp) = challenge sha256 pub (balance_input (balance_messages CmR CmS CmO bp)).
Proof using Type. apply Z.eqb_eq. Qed.

Lemma commitment_message_extract Cm c c' z z' w w' e :
  unit_mod p (be_decode Cm) →
  0 <= c → 0 <= c' → 0 <= z → 0 <= z' → 0 <= w → 0 <= w' →
  (c - c') * e ≡ 1 [mod p - 1] →
  commitment_message Cm c z w = commitment_message Cm c' z' w' →
  be_decode Cm ≡ zpow p (G1 pub) ((z' - z) * e) * zpow p (H pub) ((w' - w) * e) [mod p].
Proof using Hvk.
  intros HCm Hc Hc' Hz Hz' Hw Hw' He E. unfold commitment_message in E.
  apply (Eqmod p) in E. rewrite !eqmod_mod, !big_exp_eqmod in E by by apply key_pos.
  apply (extract p (vk_prime _ Hvk) _ _ _ c c' z z' w w');
    auto using unit_G1, unit_H.
  rewrite <- !Z.mul_assoc, !(Z.mul_comm (be_decode Cm ^ _)). done.
Qed.

Lemma challenge_inverse c c' :
  Z.gcd (c - c') (p - 1) = 1 → (c - c') * Z.invmod (c - c') (p - 1) ≡ 1 [mod p - 1].
Proof using Type. intros E. rewrite Z.mul_comm. constructor. by apply Z.invmod_coprime'. Qed.
End Soundness.

(** ** The search of [VerifyCommitment], from any round *)

Lemma verify_commitment_from_spec pub R C fuel i :
  let opens j := (big_exp (G1 pub) j (P pub) * big_exp (H pub) R (P pub)) mod P pub = C in
  1 <= i → (∀ j, 1 <= j < i → ¬ opens j) → Z.of_nat fuel + i = 262145 →
  let v := verify_commitment_from pub R C fuel i in
  (1 <= v <= 262144 ∧ opens v ∧ ∀ j, 1 <= j < v → ¬ opens j) ∨
  (v = 0 ∧ ∀ j, 1 <= j <= 262144 → ¬ opens j).
Proof.
  intros opens. revert i. induction fuel as [|fuel IH]; intros i Hi Hbefore Hfuel.
  - right. split; [done|]. intros j Hj. apply Hbefore. lia.
  - cbn [verify_commitment_from].
    destruct (Z.eqb_spec ((big_exp (G1 pub) i (P pub) * big_exp (H pub) R (P pub)) mod P pub) C)
      as [E|E].
    + left. split_and!; [lia|lia|exact E|exact Hbefore].
    + assert (Hnext : ∀ j, 1 <= j < i + 1 → ¬ opens j).
      { intros j Hj. destruct (decide (j = i)) as [->|]; [exact E|]. apply Hbefore. lia. }
      destruct (Z.leb_spec 262144 i).
      * right. split; [done|]. intros j Hj. apply Hnext. lia.
      * apply IH; [lia|exact Hnext|lia].
Qed.

End ZkpProofs.
