(* ===== verification/ZkpClaims.v ===== *)
(** * ZkpClaims: the guarantees of the zero-knowledge layer

    Completeness of the three proof systems, knowledge soundness of the
    format and balance proofs in the form of extraction from two accepted
    proofs, the limits of what the equality and balance proofs establish, and
    the search of [VerifyCommitment]. The key of the witnesses is a small
    prime group; every statement is about any key. *)

From stdpp Require Import base list.
From Stdlib Require Import ZArith Lia.
From S2P Require Import Prelude BigInt Sha256 Zkp ZkpProofs.

Local Open Scope Z_scope.
Local Open Scope go_scope.

Module ZkpClaims.
Import Zkp ZkpLemmas ZkpProofs.

(** ** A concrete key *)

Definition key23 : PublicKey := mkPublicKey 5 7 23 11.

Lemma key23_valid : valid_key key23.
Proof. by split; [apply prime_check_sound; vm_compute| | | |]. Qed.

(** A second key over the same modulus. *)
Definition key23' : PublicKey := mkPublicKey 14 7 23 19.

Lemma key23'_valid : valid_key key23'.
Proof. by split; [apply prime_check_sound; vm_compute| | | |]. Qed.

(** ** Completeness *)

(** A value encrypted by [EncryptValue] and proved by [GenerateFormatProof]
    with the randomness of its commitment passes [VerifyFormatProof]; the
    encryption loop returns at its first draw. *)
Theorem format_proof_complete sha256 pub draws fuel v rA rB :
  valid_key pub → valid_draw pub (draws O) → valid_draw pub rA → valid_draw pub rB →
  0 <= v <= 262144 → v < P pub →
  ∃ C cm, EncryptValue draws (S fuel) pub v = Ret (C, cm, None) ∧
    C2 C = commitment cm ∧
    VerifyFormatProof sha256 C pub (GenerateFormatProof sha256 rA rB pub v (rnd cm)) = true.
Proof.
  intros Hvk Hd HA HB Hv HvP. pose proof Hd as [Hd0 _]. do 2 eexists.
  split; [apply EncryptValue_total; [done|done|lia]|]. split; [done|].
  apply format_proof_accepts; try done; [lia|lia|]. by rewrite Commit_rnd, be_decode_encode by lia.
Qed.

Lemma format_proof_complete_witness :
  ∃ C cm, EncryptValue (λ _, 3) 1 key23 17 = Ret (C, cm, None) ∧
    C2 C = commitment cm ∧
    VerifyFormatProof Sha256.sha256 C key23
      (GenerateFormatProof Sha256.sha256 9 16 key23 17 (rnd cm)) = true.
Proof.
  apply format_proof_complete; [exact key23_valid|..]; unfold valid_draw; cbn; lia.
Defined.

(** A balance proof generated for a change [vR] and a payment [vS] is
    accepted against the commitments of [vR], [vS] and of their sum, under
    whatever randomness the three commitments use. *)
Theorem balance_proof_complete sha256 pub mix vR vS vO rR rS rO :
  valid_key pub → 0 <= vR → 0 <= vS → vR + vS < P pub →
  VerifyBalanceProof sha256
    (commitment (Commit pub vR rR)) (commitment (Commit pub vS rS))
    (commitment (Commit pub (vR + vS) rO)) pub
    (GenerateBalanceProof sha256 mix pub vR vS vO rR rS rO) = true.
Proof.
  intros Hvk HR HS Hlt. apply balance_proof_accepts; try done; apply Commit_eqmod; auto; lia.
Qed.

Lemma balance_proof_complete_witness :
  VerifyBalanceProof Sha256.sha256
    (commitment (Commit key23 4 [Byte.x09])) (commitment (Commit key23 8 [Byte.x0c]))
    (commitment (Commit key23 (4 + 8) [Byte.x11])) key23
    (GenerateBalanceProof Sha256.sha256 12345 key23 4 8 0 [Byte.x09] [Byte.x0c] [Byte.x11]) = true.
Proof. apply balance_proof_complete; [exact key23_valid|..]; cbn; lia. Defined.

(** An equality proof generated for two commitments of the same value, under
    two keys over one modulus, is accepted. *)
Theorem equality_proof_complete sha256 pub1 pub2 mix v ra rb c1a c1b :
  valid_key pub1 → valid_key pub2 → P pub2 = P pub1 → 0 <= v < P pub1 → v < 2 ^ 63 →
  ∃ ep, GenerateEqualityProof sha256 mix pub1 pub2 (Commit pub1 v ra) (Commit pub2 v rb) v = Some ep ∧
    VerifyEqualityProof sha256 pub1 pub2
      (mkCypherText c1a (commitment (Commit pub1 v ra)))
      (mkCypherText c1b (commitment (Commit pub2 v rb))) ep = true.
Proof.
  intros Hvk1 Hvk2 HP Hv Hv63.
  destruct (equality_accepts sha256 pub1 Hvk1 pub2 mix v (commitment (Commit pub1 v ra))
    (commitment (Commit pub2 v rb)) (rnd (Commit pub1 v ra)) (rnd (Commit pub2 v rb)))
    as (ep & Hgen & Hver); [done|done|lia| |].
  - assert (E2 := Commit_eqmod pub2 Hvk2 v rb ltac:(lia)). rewrite HP in E2.
    rewrite !Commit_rnd, Commit_eqmod, E2 by done. constructor. f_equal. ring.
  - exists ep. split; [|done]. unfold GenerateEqualityProof.
    rewrite HP, Z.eqb_refl, i64_small by lia. exact Hgen.
Qed.

Lemma equality_proof_complete_witness :
  ∃ ep, GenerateEqualityProof Sha256.sha256 777 key23 key23'
          (Commit key23 6 [Byte.x09]) (Commit key23' 6 [Byte.x0c]) 6 = Some ep ∧
    VerifyEqualityProof Sha256.sha256 key23 key23'
      (mkCypherText [] (commitment (Commit key23 6 [Byte.x09])))
      (mkCypherText [] (commitment (Commit key23' 6 [Byte.x0c]))) ep = true.
Proof.
  apply equality_proof_complete; [exact key23_valid|exact key23'_valid|done|cbn; lia|lia].
Defined.

(** ** Soundness *)

(** Knowledge soundness of the format proof: two proofs accepted under two
    hash oracles that agree on the first messages and answer with challenges
    whose difference is invertible determine a value [v] and a randomness [k]
    with [C1 = G2^k] and [C2 = G1^v H^k]: the ciphertext is well formed. *)
Theorem format_proof_extractable sha sha' pub C fp fp' :
  valid_key pub → unit_mod (P pub) (be_decode (C1 C)) → unit_mod (P pub) (be_decode (C2 C)) →
  VerifyFormatProof sha C pub fp = true → VerifyFormatProof sha' C pub fp' = true →
  format_messages pub C fp = format_messages pub C fp' →
  (let m := format_input (format_messages pub C fp) in
   Z.gcd (challenge sha pub m - challenge sha' pub m) (P pub - 1) = 1) →
  ∃ v k, 0 <= v ∧ 0 <= k ∧
    be_decode (C1 C) ≡ G2 pub ^ k [mod P pub] ∧
    be_decode (C2 C) ≡ G1 pub ^ v * H pub ^ k [mod P pub].
Proof.
  intros Hvk HC1 HC2 Hv Hv' Hm Hg. cbv zeta in Hg.
  apply VerifyFormatProof_messages in Hv, Hv'. rewrite <- Hm in Hv'. rewrite <- Hv, <- Hv' in Hg.
  apply challenge_inverse in Hg. revert Hm Hg. unfold format_messages. clear Hv Hv'.
  set (c := be_decode (fp_C fp)). set (c' := be_decode (fp_C fp')).
  set (e := Z.invmod (c - c') (P pub - 1)). intros [= Hm1 Hm2] He.
  pose proof (vk_prime _ Hvk) as Hp. pose proof (key_pos _ Hvk) as Hpos.
  exists (((be_decode (fp_Z1 fp') - be_decode (fp_Z1 fp)) * e) mod (P pub - 1)).
  exists (((be_decode (fp_Z2 fp') - be_decode (fp_Z2 fp)) * e) mod (P pub - 1)).
  apply (Eqmod (P pub)) in Hm1, Hm2.
  rewrite !eqmod_mod, !big_exp_eqmod in Hm1 by done. rewrite !big_exp_eqmod in Hm2 by done.
  split_and!; try by apply zpow_range.
  - exact (extract1 _ Hp _ _ _ _ _ _ e HC1 (unit_G2 _ Hvk) (be_decode_nonneg _) (be_decode_nonneg _)
      (be_decode_nonneg _) (be_decode_nonneg _) He Hm2).
  - exact (extract _ Hp _ _ _ _ _ _ _ _ _ e HC2 (unit_G1 _ Hvk) (unit_H _ Hvk)
      (be_decode_nonneg _) (be_decode_nonneg _) (be_decode_nonneg _) (be_decode_nonneg _)
      (be_decode_nonneg _) (be_decode_nonneg _) He Hm1).
Qed.

(** Two oracles that answer 3 and 2, and the honest proofs under each. *)
Definition oracle3 (_ : bytes) : bytes := [Byte.x03].
Definition oracle2 (_ : bytes) : bytes := [Byte.x02].

Lemma format_proof_extractable_witness :
  ∃ v k, 0 <= v ∧ 0 <= k ∧ 17 ≡ 7 ^ k [mod 23] ∧ 6 ≡ 5 ^ v * 11 ^ k [mod 23].
Proof.
  apply (format_proof_extractable oracle3 oracle2 key23
    (mkCypherText [Byte.x11] [Byte.x06])
    (GenerateFormatProof oracle3 9 16 key23 17 [Byte.x05])
    (GenerateFormatProof oracle2 9 16 key23 17 [Byte.x05]));
    [exact key23_valid|vm_compute; done|vm_compute; done|vm_compute; reflexivity
    |vm_compute; reflexivity|vm_compute; reflexivity|vm_compute; reflexivity].
Defined.

(** C3: Knowledge soundness of the balance proof: from two proofs accepted under
    two oracles that agree on the first messages and answer with challenges
    whose difference is invertible, openings of the three commitments can be
    computed in which the value of the input is, modulo the order [p - 1] of
    the exponents, the sum of the values of the change and the payment. *)
Theorem balance_proof_extractable sha sha' pub CmR CmS CmO bp bp' :
  valid_key pub →
  unit_mod (P pub) (be_decode CmR) → unit_mod (P pub) (be_decode CmS) →
  unit_mod (P pub) (be_decode CmO) →
  VerifyBalanceProof sha CmR CmS CmO pub bp = true →
  VerifyBalanceProof sha' CmR CmS CmO pub bp' = true →
  balance_messages pub CmR CmS CmO bp = balance_messages pub CmR CmS CmO bp' →
  (let m := balance_input (balance_messages pub CmR CmS CmO bp) in
   Z.gcd (challenge sha pub m - challenge sha' pub m) (P pub - 1) = 1) →
  ∃ vR vS vO rR rS rO,
    be_decode CmR ≡ zpow (P pub) (G1 pub) vR * zpow (P pub) (H pub) rR [mod P pub] ∧
    be_decode CmS ≡ zpow (P pub) (G1 pub) vS * zpow (P pub) (H pub) rS [mod P pub] ∧
    be_decode CmO ≡ zpow (P pub) (G1 pub) vO * zpow (P pub) (H pub) rO [mod P pub] ∧
    vO ≡ vR + vS [mod P pub - 1].
Proof.
  intros Hvk HR HS HO Hv Hv' Hm Hg. cbv zeta in Hg.
  apply VerifyBalanceProof_messages in Hv, Hv'. rewrite <- Hm in Hv'.
  rewrite <- Hv, <- Hv' in Hg. apply challenge_inverse in Hg. clear Hv Hv'.
  injection Hm as HmR HmS HmO. set (e := Z.invmod _ _) in Hg.
  do 6 eexists. split_and!.
  1-3: eapply (commitment_message_extract pub Hvk _ _ _ _ _ _ _ e); [| | | | | | |exact Hg|];
    try eassumption; try apply Z.add_nonneg_nonneg; apply be_decode_nonneg.
  constructor. f_equal. ring.
Qed.

Lemma balance_proof_extractable_witness :
  ∃ vR vS vO rR rS rO,
    be_decode (commitment (Commit key23 4 [Byte.x09]))
      ≡ zpow 23 5 vR * zpow 23 11 rR [mod 23] ∧
    be_decode (commitment (Commit key23 8 [Byte.x0c]))
      ≡ zpow 23 5 vS * zpow 23 11 rS [mod 23] ∧
    be_decode (commitment (Commit key23 12 [Byte.x11]))
      ≡ zpow 23 5 vO * zpow 23 11 rO [mod 23] ∧
    vO ≡ vR + vS [mod 22].
Proof.
  apply (balance_proof_extractable oracle3 oracle2 key23 _ _ _
    (GenerateBalanceProof oracle3 12345 key23 4 8 0 [Byte.x09] [Byte.x0c] [Byte.x11])
    (GenerateBalanceProof oracle2 12345 key23 4 8 0 [Byte.x09] [Byte.x0c] [Byte.x11]));
    [exact key23_valid|vm_compute; done|vm_compute; done|vm_compute; done|vm_compute; reflexivity
    |vm_compute; reflexivity|vm_compute; reflexivity|vm_compute; reflexivity].
Defined.

(** ** Limits *)

(** The node checks every equality proof with the regulator's key on both
    sides. Then the equation only ties the product of the two commitments to
    twice a value: for any two values of even sum, running the prover with
    their mean produces a proof the verifier accepts, equal or not. *)
Theorem equality_proof_same_key_unsound sha256 pub mix v1 v2 ra rb c1a c1b :
  valid_key pub → 0 <= v1 < P pub → 0 <= v2 < P pub → Z.Even (v1 + v2) → v1 + v2 < 2 ^ 63 →
  ∃ ep, GenerateEqualityProof sha256 mix pub pub (Commit pub v1 ra) (Commit pub v2 rb)
          ((v1 + v2) / 2) = Some ep ∧
    VerifyEqualityProof sha256 pub pub
      (mkCypherText c1a (commitment (Commit pub v1 ra)))
      (mkCypherText c1b (commitment (Commit pub v2 rb))) ep = true.
Proof.
  intros Hvk Hv1 Hv2 [w Hw] Hlt. rewrite Hw, Z.mul_comm, Z.div_mul by lia.
  destruct (equality_accepts sha256 pub Hvk pub mix w (commitment (Commit pub v1 ra))
    (commitment (Commit pub v2 rb)) (rnd (Commit pub v1 ra)) (rnd (Commit pub v2 rb)))
    as (ep & Hgen & Hver); [done|done|lia| |].
  - rewrite !Commit_rnd, !Commit_eqmod by done.
    replace v2 with (w + w - v1) by lia.
    transitivity (G1 pub ^ v1 * G1 pub ^ (w + w - v1)
                  * (H pub ^ be_decode ra * H pub ^ be_decode rb)); [constructor; f_equal; ring|].
    rewrite <- Z.pow_add_r by lia. replace (v1 + (w + w - v1)) with (w + w) by lia.
    rewrite Z.pow_add_r by lia. constructor. f_equal. ring.
  - exists ep. split; [|done]. unfold GenerateEqualityProof.
    rewrite Z.eqb_refl, i64_small by lia. exact Hgen.
Qed.

Lemma equality_proof_same_key_unsound_witness :
  ∃ ep, GenerateEqualityProof Sha256.sha256 777 key23 key23
          (Commit key23 2 [Byte.x09]) (Commit key23 20 [Byte.x0c]) ((2 + 20) / 2) = Some ep ∧
    VerifyEqualityProof Sha256.sha256 key23 key23
      (mkCypherText [] (commitment (Commit key23 2 [Byte.x09])))
      (mkCypherText [] (commitment (Commit key23 20 [Byte.x0c]))) ep = true.
Proof.
  apply equality_proof_same_key_unsound; [exact key23_valid|cbn; lia|cbn; lia|by exists 11|lia].
Defined.

(** The balance equation holds modulo [p - 1] only, and nothing bounds the
    committed values: a payment of [vO + k] with a change of [p - 1 - k]
    balances an input of [vO], for every [k]. *)
Theorem balance_proof_wraps sha256 pub mix vO k rR rS rO :
  valid_key pub → 0 <= k < P pub - 1 → 0 <= vO → vO + k < P pub →
  VerifyBalanceProof sha256
    (commitment (Commit pub (P pub - 1 - k) rR)) (commitment (Commit pub (vO + k) rS))
    (commitment (Commit pub vO rO)) pub
    (GenerateBalanceProof sha256 mix pub (P pub - 1 - k) (vO + k) vO rR rS rO) = true.
Proof.
  intros Hvk Hk HvO Hlt. apply balance_proof_accepts; try lia; try done;
    rewrite Commit_eqmod by (done || lia); try done.
  assert (E : G1 pub ^ vO ≡ G1 pub ^ (P pub - 1 - k + (vO + k)) [mod P pub]).
  { apply pow_exponent_mod; auto using unit_G1, vk_prime; try lia.
    replace (P pub - 1 - k + (vO + k)) with (vO + 1 * (P pub - 1)) by lia.
    constructor. by rewrite Z_mod_plus_full. }
  by rewrite E.
Qed.

Lemma balance_proof_wraps_witness :
  VerifyBalanceProof Sha256.sha256
    (commitment (Commit key23 (P key23 - 1 - 10) [Byte.x09]))
    (commitment (Commit key23 (1 + 10) [Byte.x0c])) (commitment (Commit key23 1 [Byte.x11])) key23
    (GenerateBalanceProof Sha256.sha256 99 key23 (P key23 - 1 - 10) (1 + 10) 1
      [Byte.x09] [Byte.x0c] [Byte.x11]) = true.
Proof. apply balance_proof_wraps; [exact key23_valid|..]; cbn; lia. Defined.

(** C40: A linear equation with a non-zero constant is never accepted: the
    verifier compares a residue of [0, p - 1) with [-(c * b)]. *)
Theorem linear_equation_inhomogeneous_rejected sha256 pub lp y b a g :
  2 < P pub → u64 b ≠ 0 →
  challenge sha256 pub (concat g ++ y ++ lp_T lp) ≠ 0 →
  VerifyLinearEquationProof sha256 lp y b a g pub = false.
Proof.
  intros HP Hb Hc. unfold VerifyLinearEquationProof.
  destruct (negb _ || negb _); [done|]. destruct (negb _); [done|].
  apply Z.eqb_neq. pose proof (u64_range b) as [? _].
  pose proof (Z.mod_pos_bound (be_decode (sha256 (concat g ++ y ++ lp_T lp))) (P pub)).
  specialize (H1 ltac:(lia)). unfold challenge in *.
  pose proof (sum_mod_range (P pub - 1) 0 a (lp_S lp) ltac:(lia)). nia.
Qed.

Lemma linear_equation_inhomogeneous_rejected_witness :
  VerifyLinearEquationProof oracle3 (mkLinearEquationProof [[Byte.x02]] [Byte.x08])
    [Byte.x04] 5 [1] [[Byte.x07]] key23 = false.
Proof. apply linear_equation_inhomogeneous_rejected; [cbn; lia|done|done]. Defined.

(** ** The search for a committed value *)

(** [VerifyCommitment] returns a value of [1, 262144] that opens the
    commitment with its randomness, the least such; zero exactly when there
    is none. *)
Theorem VerifyCommitment_spec pub cm :
  let opens i := ((big_exp (G1 pub) i (P pub) * big_exp (H pub) (be_decode (rnd cm)) (P pub))
                  mod P pub) = be_decode (commitment cm) in
  let v := VerifyCommitment pub cm in
  (1 <= v <= 262144 ∧ opens v ∧ ∀ i, 1 <= i < v → ¬ opens i) ∨
  (v = 0 ∧ ∀ i, 1 <= i <= 262144 → ¬ opens i).
Proof.
  cbv zeta. unfold VerifyCommitment.
  apply verify_commitment_from_spec; [lia|lia|]. by rewrite Z2Nat.id.
Qed.

End ZkpClaims.
