(* ===== verification/Types.v ===== *)
(** * Types: transactions (core/types/transaction.go)

    [txdata] with every field of the private-currency payload, its
    constructors and the accessors that rebuild the zero-knowledge values
    from it.

    A [*hexutil.Bytes] field is the slice it points to: the pointers of a
    decoded or constructed transaction are never nil. The hash, size and
    sender caches of [Transaction] and the JSON-only [Hash] field are left
    out; [PK] is the empty slice until a signer sets it. *)

From stdpp Require Import base list.
From Stdlib Require Import ZArith.
From S2P Require Import Prelude Zkp.

Local Open Scope Z_scope.

Module Types.
Import Zkp.

Record txdata := mk_txdata {
  AccountNonce : Z; Price : Z; GasLimit : Z; Recipient : option Z; Amount : Z; Payload : bytes;
  ID : Z;
  ErpkC1 : bytes; ErpkC2 : bytes; EspkC1 : bytes; EspkC2 : bytes; CMRpk : bytes;
  CMSpk : bytes; ErpkEPs0 : bytes; ErpkEPs1 : bytes; ErpkEPs2 : bytes;
  ErpkEPs3 : bytes; ErpkEPt : bytes; EspkEPs0 : bytes; EspkEPs1 : bytes;
  EspkEPs2 : bytes; EspkEPs3 : bytes; EspkEPt : bytes; EvSC1 : bytes; EvSC2 : bytes;
  EvRC1 : bytes; EvRC2 : bytes; CmS : bytes; CmR : bytes; CMsFPC : bytes;
  CMsFPZ1 : bytes; CMsFPZ2 : bytes; CMrFPC : bytes; CMrFPZ1 : bytes; CMrFPZ2 : bytes;
  EvsBsC1 : bytes; EvsBsC2 : bytes; EvOC1 : bytes; EvOC2 : bytes; CmO : bytes;
  EvOEPs0 : bytes; EvOEPs1 : bytes; EvOEPs2 : bytes; EvOEPs3 : bytes; EvOEPt : bytes;
  BPC : bytes; BPRV : bytes; BPRR : bytes; BPSV : bytes; BPSR : bytes; BPSOr : bytes;
  EpkrC1 : bytes; EpkrC2 : bytes; EpkpC1 : bytes; EpkpC2 : bytes; SigM : bytes;
  SigMHash : bytes; SigR : bytes; SigS : bytes; CmV : bytes; CmSRC1 : bytes;
  CmSRC2 : bytes; CmRRC1 : bytes; CmRRC2 : bytes;
  tx_V : Z; tx_R : Z; tx_S : Z; PK : bytes }.

(** [amount] and [gasPrice] may be nil, then the fields stay zero. *)
Definition newTransaction (nonce : Z) (to : option Z) (amount : option Z) (gasLimit : Z)
    (gasPrice : option Z) (data : bytes) (ID : Z)
    (ErpkC1 ErpkC2 EspkC1 EspkC2 CMRpk CMSpk ErpkEPs0 ErpkEPs1 ErpkEPs2 ErpkEPs3
      ErpkEPt EspkEPs0 EspkEPs1 EspkEPs2 EspkEPs3 EspkEPt EvSC1 EvSC2 EvRC1 EvRC2 CmS
      CmR CMsFPC CMsFPZ1 CMsFPZ2 CMrFPC CMrFPZ1 CMrFPZ2 EvsBsC1 EvsBsC2 EvOC1 EvOC2 CmO
      EvOEPs0 EvOEPs1 EvOEPs2 EvOEPs3 EvOEPt BPC BPRV BPRR BPSV BPSR BPSOr EpkrC1
      EpkrC2 EpkpC1 EpkpC2 SigM SigMHash SigR SigS CmV CmSRC1 CmSRC2 CmRRC1 CmRRC2 : bytes) : txdata :=
    {| AccountNonce := nonce; Recipient := to; Payload := data; Amount := default 0 amount;
       GasLimit := gasLimit; Price := default 0 gasPrice; tx_V := 0; tx_R := 0; tx_S := 0;
       PK := []; ID := ID;
       ErpkC1 := ErpkC1; ErpkC2 := ErpkC2; EspkC1 := EspkC1; EspkC2 := EspkC2;
       CMRpk := CMRpk; CMSpk := CMSpk; ErpkEPs0 := ErpkEPs0; ErpkEPs1 := ErpkEPs1;
       ErpkEPs2 := ErpkEPs2; ErpkEPs3 := ErpkEPs3; ErpkEPt := ErpkEPt;
       EspkEPs0 := EspkEPs0; EspkEPs1 := EspkEPs1; EspkEPs2 := EspkEPs2;
       EspkEPs3 := EspkEPs3; EspkEPt := EspkEPt; EvSC1 := EvSC1; EvSC2 := EvSC2;
       EvRC1 := EvRC1; EvRC2 := EvRC2; CmS := CmS; CmR := CmR; CMsFPC := CMsFPC;
       CMsFPZ1 := CMsFPZ1; CMsFPZ2 := CMsFPZ2; CMrFPC := CMrFPC; CMrFPZ1 := CMrFPZ1;
       CMrFPZ2 := CMrFPZ2; EvsBsC1 := EvsBsC1; EvsBsC2 := EvsBsC2; EvOC1 := EvOC1;
       EvOC2 := EvOC2; CmO := CmO; EvOEPs0 := EvOEPs0; EvOEPs1 := EvOEPs1;
       EvOEPs2 := EvOEPs2; EvOEPs3 := EvOEPs3; EvOEPt := EvOEPt; BPC := BPC;
       BPRV := BPRV; BPRR := BPRR; BPSV := BPSV; BPSR := BPSR; BPSOr := BPSOr;
       EpkrC1 := EpkrC1; EpkrC2 := EpkrC2; EpkpC1 := EpkpC1; EpkpC2 := EpkpC2;
       SigM := SigM; SigMHash := SigMHash; SigR := SigR; SigS := SigS; CmV := CmV;
       CmSRC1 := CmSRC1; CmSRC2 := CmSRC2; CmRRC1 := CmRRC1; CmRRC2 := CmRRC2; |}.

(** ** Accessors *)

Definition EVS (tx : txdata) : CypherText := mkCypherText (EvSC1 tx) (EvSC2 tx).
Definition EVR (tx : txdata) : CypherText := mkCypherText (EvRC1 tx) (EvRC2 tx).
Definition CMsFP (tx : txdata) : FormatProof :=
  mkFormatProof (CMsFPC tx) (CMsFPZ1 tx) (CMsFPZ2 tx).
Definition CMrFP (tx : txdata) : FormatProof :=
  mkFormatProof (CMrFPC tx) (CMrFPZ1 tx) (CMrFPZ2 tx).
Definition BP (tx : txdata) : BalanceProof :=
  {| bp_C := BPC tx; bp_R_r := BPRR tx; bp_R_v := BPRV tx;
     bp_S_or := BPSOr tx; bp_S_r := BPSR tx; bp_S_v := BPSV tx |}.
Definition EVO (tx : txdata) : CypherText := mkCypherText (EvOC1 tx) (EvOC2 tx).
Definition CmSR (tx : txdata) : CypherText := mkCypherText (CmSRC1 tx) (CmSRC1 tx).
Definition CmRR (tx : txdata) : CypherText := mkCypherText (CmRRC1 tx) (CmRRC1 tx).
Definition ERPK (tx : txdata) : CypherText := mkCypherText (ErpkC1 tx) (ErpkC2 tx).
Definition ESPK (tx : txdata) : CypherText := mkCypherText (EspkC1 tx) (EspkC2 tx).
Definition EvoEP (tx : txdata) : LinearEquationProof :=
  mkLinearEquationProof [EvOEPs0 tx; EvOEPs1 tx; EvOEPs2 tx; EvOEPs3 tx] (EvOEPt tx).
Definition ErpkEP (tx : txdata) : LinearEquationProof :=
  mkLinearEquationProof [ErpkEPs0 tx; ErpkEPs1 tx; ErpkEPs2 tx; ErpkEPs3 tx] (ErpkEPt tx).
Definition EspkEP (tx : txdata) : LinearEquationProof :=
  mkLinearEquationProof [EspkEPs0 tx; EspkEPs1 tx; EspkEPs2 tx; EspkEPs3 tx] (EspkEPt tx).

(** ** Commitment records (core/types/commitment.go) *)

Record CM := mkCM { Cm : bytes; Spent : bool; Lock : bool }.

Definition NewDefaultCM (Cm : bytes) : CM := mkCM Cm false false.
Definition NewCM (Cm : bytes) (Spent : bool) : CM := mkCM Cm Spent false.

End Types.
