(* ===== verification/Api.v ===== *)
(** * Api: assembling private transactions (internal/ethapi/api.go)

    [SendTxArgs] and the two assembly functions behind [SendTransaction]:
    [toZeroTransaction] (a transfer, ID 0) and [toExTransaction] (a coin
    purchase, ID 1). Pointers of the arguments are [option]s; dereferencing a
    nil one panics. The random draws of every call are one record. *)

From stdpp Require Import base list.
From Stdlib Require Import ZArith.
From S2P Require Import Prelude BigInt Hexutil Zkp Types.

Local Open Scope Z_scope.

Module Api.
Import Zkp.

Record SendTxArgs := mkSendTxArgs {
  a_From : Z; a_To : option Z; a_Gas : option Z; a_GasPrice : option Z; a_Value : option Z;
  a_Nonce : option Z; a_ID : option Z; a_Data : option bytes; a_Input : option bytes;
  a_CmO : option bytes; a_Vr : option Z; a_Vs : option Z; a_VoR : option bytes;
  a_Spk : option bytes; a_Rpk : option bytes;
  a_EpkrC1 : option bytes; a_EpkrC2 : option bytes; a_EpkpC1 : option bytes;
  a_EpkpC2 : option bytes; a_SigM : option bytes; a_SigMHash : option bytes;
  a_SigR : option bytes; a_SigS : option bytes; a_CmV : option bytes;
  a_CmSRC1 : option bytes; a_CmSRC2 : option bytes; a_CmRRC1 : option bytes;
  a_CmRRC2 : option bytes }.

Inductive api_error := ErrNoID | ErrWrongID | ErrLackOfParameter.

Definition is_nil {A} (o : option A) : bool :=
  match o with Some _ => false | None => true end.

Definition checkParameter (args : SendTxArgs) : option api_error :=
  match a_ID args with
  | None => Some ErrNoID
  | Some ID =>
      if negb (ID =? 0) && negb (ID =? 1) then Some ErrWrongID
      else if ID =? 0 then
        if is_nil (a_Spk args) || is_nil (a_Rpk args) || is_nil (a_Vs args)
           || is_nil (a_Vr args) || is_nil (a_VoR args) || is_nil (a_CmO args)
        then Some ErrLackOfParameter else None
      else if ID =? 1 then
        if is_nil (a_EpkrC1 args) || is_nil (a_EpkrC2 args) || is_nil (a_EpkpC1 args)
           || is_nil (a_EpkpC2 args) || is_nil (a_SigM args) || is_nil (a_SigMHash args)
           || is_nil (a_SigR args) || is_nil (a_SigS args) || is_nil (a_CmV args)
        then Some ErrLackOfParameter else None
      else None
  end.

(** ** Public keys as hexadecimal strings *)

Fixpoint hex_digits (acc : Z) (s : bytes) : option Z :=
  match s with
  | [] => Some acc
  | b :: s' => d ← Hexutil.decodeNibble b; hex_digits (acc * 16 + d) s'
  end.

(** [new(big.Int).SetString(s, 16)]: an optional sign and at least one digit. *)
Definition set_string16 (s : bytes) : option Z :=
  match s with
  | [] => None
  | b :: s' =>
      if (b2z b =? 43) || (b2z b =? 45) then
        match s' with
        | [] => None
        | _ => z ← hex_digits 0 s'; Some (if b2z b =? 45 then - z else z)
        end
      else hex_digits 0 s
  end.

(** The key with nil pointers where a component did not parse. *)
Record raw_key := mk_raw_key { raw_P : option Z; raw_G1 : option Z; raw_G2 : option Z; raw_H : option Z }.

Definition paraPK (pk : bytes) : outcome diverge raw_key :=
  if (length pk <? 192)%nat then Panic
  else Ret {| raw_P := set_string16 (take 64 pk);
              raw_G1 := set_string16 (take 64 (drop 64 pk));
              raw_G2 := set_string16 (take 64 (drop 128 pk));
              raw_H := set_string16 (drop 192 pk) |}.

(** Using a nil component panics; [Encrypt] does not use [G1]. *)
Definition full_key (k : raw_key) : outcome diverge PublicKey :=
  match raw_P k, raw_G1 k, raw_G2 k, raw_H k with
  | Some p, Some g1, Some g2, Some h => Ret (mkPublicKey g1 g2 p h)
  | _, _, _, _ => Panic
  end.

Definition enc_key (k : raw_key) : outcome diverge PublicKey :=
  match raw_P k, raw_G2 k, raw_H k with
  | Some p, Some g2, Some h => Ret (mkPublicKey (default 0 (raw_G1 k)) g2 p h)
  | _, _, _ => Panic
  end.

Definition deref {A} (o : option A) : outcome diverge A :=
  match o with Some a => Ret a | None => Panic end.

(** [S[0] .. S[3]] of a linear-equation proof. *)
Definition index4 (S : list bytes) : outcome diverge (bytes * bytes * bytes * bytes) :=
  match S with
  | s0 :: s1 :: s2 :: s3 :: _ => Ret (s0, s1, s2, s3)
  | _ => Panic
  end.

(** The draws of one [toZeroTransaction], in the order of its calls. *)
Record zero_draws := mk_zero_draws {
  d_Erpk : nat → Z; d_Espk : nat → Z; d_CMrpk : nat → Z; d_CMspk : nat → Z;
  d_ErpkEP : Z; d_EspkEP : Z;
  d_EvS : nat → Z; d_CMsFP : Z * Z; d_Evs : nat → Z; d_CmSR : nat → nat → Z;
  d_EvR : nat → Z; d_CMrFP : Z * Z; d_CmRR : nat → nat → Z;
  d_EvO : nat → Z; d_EvoEP : Z; d_BP : Z }.

Section WithHash.
Context (sha256 : bytes → bytes).

Definition tx_input (args : SendTxArgs) : bytes :=
  match a_Input args with
  | Some i => i
  | None => default [] (a_Data args)
  end.

Definition toZeroTransaction (d : zero_draws) (fuel : nat) (regulatorPubk : PublicKey)
    (args : SendTxArgs) : outcome diverge Types.txdata :=
  Vs ← deref (a_Vs args);
  Vr ← deref (a_Vr args);
  rpk ← deref (a_Rpk args);
  spk ← deref (a_Spk args);
  Rpk ← paraPK rpk;
  Spk ← paraPK spk;
  VoR ← deref (a_VoR args);
  CmO ← deref (a_CmO args);
  let addrpk := be_encode (be_decode (sha256 rpk) mod P regulatorPubk) in
  let addspk := be_encode (be_decode (sha256 spk) mod P regulatorPubk) in
  '(Erpk, _CMrpk, _) ← EncryptAddress (d_Erpk d) fuel regulatorPubk addrpk;
  '(Espk, _CMspk, _) ← EncryptAddress (d_Espk d) fuel regulatorPubk addspk;
  '(_, CMrpk, _) ← EncryptAddress (d_CMrpk d) fuel regulatorPubk addrpk;
  '(_, CMspk, _) ← EncryptAddress (d_CMspk d) fuel regulatorPubk addspk;
  ErpkEP ← deref (GenerateAddressEqualityProof sha256 (d_ErpkEP d)
                    regulatorPubk regulatorPubk CMrpk _CMrpk addrpk);
  EspkEP ← deref (GenerateAddressEqualityProof sha256 (d_EspkEP d)
                    regulatorPubk regulatorPubk CMspk _CMspk addspk);
  '(EvS, CmS, _) ← EncryptValue (d_EvS d) fuel regulatorPubk Vs;
  let CMsFP := GenerateFormatProof sha256 (d_CMsFP d).1 (d_CMsFP d).2
                 regulatorPubk Vs (rnd CmS) in
  RpkFull ← full_key Rpk;
  '(Evs, _, _) ← EncryptValue (d_Evs d) fuel RpkFull Vs;
  CmSR ← Encrypt (d_CmSR d) fuel RpkFull (rnd CmS);
  '(EvR, CmR, _) ← EncryptValue (d_EvR d) fuel regulatorPubk Vr;
  let CMrFP := GenerateFormatProof sha256 (d_CMrFP d).1 (d_CMrFP d).2
                 regulatorPubk Vr (rnd CmR) in
  SpkEnc ← enc_key Spk;
  CmRR ← Encrypt (d_CmRR d) fuel SpkEnc (rnd CmR);
  '(EvO, CMo, _) ← EncryptValue (d_EvO d) fuel regulatorPubk (u64 (Vr + Vs));
  EvoEP ← deref (GenerateEqualityProof sha256 (d_EvoEP d) regulatorPubk regulatorPubk
                   CMo (mkCommitment CmO VoR) (u64 (Vr + Vs)));
  let BP := GenerateBalanceProof sha256 (d_BP d) regulatorPubk Vr Vs 0
              (rnd CmR) (rnd CmS) VoR in
  '(r0, r1, r2, r3) ← index4 (lp_S ErpkEP);
  '(s0, s1, s2, s3) ← index4 (lp_S EspkEP);
  '(o0, o1, o2, o3) ← index4 (lp_S EvoEP);
  nonce ← deref (a_Nonce args);
  gas ← deref (a_Gas args);
  mret (Types.newTransaction nonce (a_To args) (a_Value args) gas (a_GasPrice args)
      (tx_input args) 0
      (C1 Erpk) (C2 Erpk) (C1 Espk) (C2 Espk) (commitment CMrpk) (commitment CMspk) r0 r1 r2
      r3 (lp_T ErpkEP) s0 s1 s2 s3 (lp_T EspkEP) (C1 EvS) (C2 EvS) (C1 EvR) (C2 EvR)
      (commitment CmS) (commitment CmR) (fp_C CMsFP) (fp_Z1 CMsFP) (fp_Z2 CMsFP) (fp_C CMrFP)
      (fp_Z1 CMrFP) (fp_Z2 CMrFP) (C1 Evs) (C2 Evs) (C1 EvO) (C2 EvO) CmO o0 o1 o2 o3
      (lp_T EvoEP) (bp_C BP) (bp_R_v BP) (bp_R_r BP) (bp_S_v BP) (bp_S_r BP) (bp_S_or BP)
      (default [] (a_EpkrC1 args)) (default [] (a_EpkrC2 args)) (default [] (a_EpkpC1 args))
      (default [] (a_EpkpC2 args)) (default [] (a_SigM args)) (default [] (a_SigMHash args))
      (default [] (a_SigR args)) (default [] (a_SigS args)) (default [] (a_CmV args))
      (C1 CmSR) (C2 CmSR) (C1 CmRR) (C2 CmRR)).

(** Every field of the transfer payload is the empty slice. *)
Definition toExTransaction (args : SendTxArgs) : outcome diverge Types.txdata :=
  nonce ← deref (a_Nonce args);
  gas ← deref (a_Gas args);
  mret (Types.newTransaction nonce (a_To args) (a_Value args) gas (a_GasPrice args)
    (tx_input args) 1
    [] [] [] [] [] [] [] [] [] [] [] [] [] [] [] [] [] [] [] [] [] [] [] [] [] [] [] [] [] []
    [] [] [] [] [] [] [] [] [] [] [] [] [] [] (default [] (a_EpkrC1 args))
    (default [] (a_EpkrC2 args)) (default [] (a_EpkpC1 args)) (default [] (a_EpkpC2 args))
    (default [] (a_SigM args)) (default [] (a_SigMHash args)) (default [] (a_SigR args))
    (default [] (a_SigS args)) (default [] (a_CmV args)) [] [] [] []).
End WithHash.

End Api.
