(* ===== verification/Exchange.v ===== *)
(** * Exchange: the exchange server (src/exchange)

    ElGamal decryption, signing and key generation of [crypto/ElGamal.go], the
    message builders of [utils/paracreate.go], and the [/buy] handler of
    [main.go] with the transaction request it posts to a node.

    [Encrypt], [Verify] and the commitment functions are the same code as in
    crypto/zkp and are modelled by the same definitions. Random draws, the
    clock and the prime chosen from the table are arguments; what the
    regulator and the node answer over HTTP are arguments of [buy]. The handler
    keeps what it computes in variables of the package, which all requests
    share: [buy] is a request that runs alone, [handler_step] one statement of a
    request among others. Unlocking the account at the node, whose result the
    handler ignores, is left out. *)

From stdpp Require Import base list.
From Stdlib Require Import ZArith Lia.
From S2P Require Import Prelude BigInt Hexutil Zkp Types Api.

Local Open Scope Z_scope.

Module Exchange.
Import Zkp.

(** ** Keys *)

Inductive key_error := ErrPrime | ErrKeyFuel.

(** [g.Sub(g, 1)] until [gcd(g, P)], truncated to an [int64], is one. *)
Fixpoint make_coprime (fuel : nat) (g p : Z) : outcome key_error Z :=
  match fuel with
  | O => Err ErrKeyFuel
  | S fuel => if big_gcd64 g p =? 1 then Ret g else make_coprime fuel (g - 1) p
  end.

(** [prime] is the string [select_prime] chose, [now] the Unix time in
    decimal, [x] what [Rand] returned below [P]. *)
Definition GenerateKeys (sha256 : bytes → bytes) (prime info now : bytes) (x : Z) (fuel : nat)
    : outcome key_error (PublicKey * PrivateKey) :=
  match Api.set_string16 prime with
  | None => Err ErrPrime
  | Some p =>
      let HashInfo := sha256 info in
      g1 ← make_coprime fuel (be_decode HashInfo mod p) p;
      let HashInfo := HashInfo ++ now in
      g2 ← make_coprime fuel (be_decode HashInfo mod p) p;
      let pub := mkPublicKey g1 g2 p (big_exp g2 x p) in
      Ret (pub, mkPrivateKey pub x)
  end.

(** ** Encryption *)

Definition Encrypt := Zkp.Encrypt.

(** [ModInverse] leaves [s] alone when there is no inverse. *)
Definition decrypt_chunk (priv : PrivateKey) (c1_bytes c2_bytes : bytes) : bytes :=
  let p := P (priv_pub priv) in
  let c1 := be_decode c1_bytes in
  let c2 := be_decode c2_bytes in
  let s := big_exp c1 (X priv) p in
  let s := default s (mod_inverse s p) in
  be_encode ((s * c2) mod p).

(** Round [i] with [rest] rounds to go. A bound past the end of [C2] panics. *)
Fixpoint decrypt_from (priv : PrivateKey) (C : CypherText) (rest i : nat) (M : bytes)
    : outcome diverge bytes :=
  match rest with
  | O => Ret M
  | S rest =>
      let hi := match rest with O => (i * 32)%nat | S _ => ((i + 1) * 32)%nat end in
      if (length (C2 C) <? hi)%nat then Panic
      else
        let cut l := match rest with O => drop (i * 32) l | S _ => take 32 (drop (i * 32) l) end in
        decrypt_from priv C rest (S i) (M ++ decrypt_chunk priv (cut (C1 C)) (cut (C2 C)))
  end.

Definition Decrypt (priv : PrivateKey) (C : CypherText) : outcome diverge bytes :=
  decrypt_from priv C ((length (C1 C) + 31) / 32) 0 [].

(** ** Signatures *)

Section WithHash.
Context (sha256 : bytes → bytes).

(** A nil result of [ModInverse] is dereferenced by the next call. *)
Definition Sign (draws : nat → Z) (fuel : nat) (priv : PrivateKey) (m : bytes)
    : outcome diverge Signature :=
  let p := P (priv_pub priv) in
  let P_1 := p - 1 in
  K ← draw_coprime draws P_1 fuel 0;
  let m_0 := be_decode (sha256 m) in
  let m_ := m_0 mod p in
  let r := big_exp (G2 (priv_pub priv)) K p in
  match mod_inverse K P_1 with
  | None => Panic
  | Some s =>
      let s1 := m_ - r * X priv in
      let s := (s * s1) mod P_1 in
      Ret (mkSignature m (be_encode m_0) (be_encode r) (be_encode s))
  end.

(** ** Decimal text ([strconv]) *)

Fixpoint dec_digits (acc : Z) (s : bytes) : option Z :=
  match s with
  | [] => Some acc
  | c :: s =>
      let z := b2z c in
      if (48 <=? z) && (z <=? 57) then dec_digits (acc * 10 + (z - 48)) s else None
  end.

(** The sign and the digits of a decimal number; [None] on a syntax error. *)
Definition parse_dec (s : bytes) : option Z :=
  match s with
  | [] => None
  | c :: s' =>
      if (b2z c =? 43) || (b2z c =? 45) then
        match s' with
        | [] => None
        | _ => z ← dec_digits 0 s'; Some (if b2z c =? 45 then - z else z)
        end
      else dec_digits 0 s
  end.

(** The value [strconv.Atoi] returns, errors included: zero on bad syntax, the
    nearest bound out of range. *)
Definition Atoi (s : bytes) : Z :=
  match parse_dec s with
  | None => 0
  | Some z => Z.max (- 2 ^ 63) (Z.min z (2 ^ 63 - 1))
  end.

Fixpoint format_dec (fuel : nat) (n : Z) (acc : bytes) : bytes :=
  match fuel with
  | O => acc
  | S fuel =>
      let acc := z2b (48 + n mod 10) :: acc in
      if n <? 10 then acc else format_dec fuel (n / 10) acc
  end.

(** [strconv.FormatUint(n, 10)]: at most twenty digits. *)
Definition FormatUint (n : Z) : bytes := format_dec 20 n [].

(** ** Message builders (paracreate.go, json.go) *)

Definition CreateCM_v (rF : Z) (regpub : PublicKey) (amount : bytes) : Commitment :=
  let amounts := Atoi amount in
  let r1 := FormatUint rF in
  Commit regpub (u64 amounts) r1.

Definition CreateElgamalInfo (draws : nat → nat → Z) (fuel : nat) (regpub : PublicKey)
    (amount publickey : bytes) : outcome diverge CypherText :=
  Encrypt draws fuel regpub (publickey ++ amount).

Definition CreateElgamalR (draws : nat → nat → Z) (fuel : nat) (regpub : PublicKey) (r : bytes)
    : outcome diverge CypherText :=
  Encrypt draws fuel regpub r.

(** The message is the ID "1" and the amount. *)
Definition CreateSign (draws : nat → Z) (fuel : nat) (priv : PrivateKey) (amount : bytes)
    : outcome diverge Signature :=
  Sign draws fuel priv (z2b 49 :: amount).

(** [stringtobig] is nil when the text is not a decimal number. *)
Definition CreateUsrPub (g1 g2 p h : bytes) : Api.raw_key :=
  Api.mk_raw_key (parse_dec p) (parse_dec g1) (parse_dec g2) (parse_dec h).

Definition byteto0xstring (b : bytes) : bytes := Hexutil.Encode b.

(** ** The purchase handler *)

Record Purchase := mkPurchase { u_G1 : bytes; u_G2 : bytes; u_P : bytes; u_H : bytes; u_Amount : bytes }.

Record SendTx := mkSendTx {
  s_From : bytes; s_To : bytes; s_Gas : bytes; s_GasPrice : bytes; s_Value : bytes; s_ID : bytes;
  s_EpkrC1 : bytes; s_EpkrC2 : bytes; s_EpkpC1 : bytes; s_EpkpC2 : bytes;
  s_SigM : bytes; s_SigMHash : bytes; s_SigR : bytes; s_SigS : bytes; s_CmV : bytes }.

Record Receipt := mkReceipt { Cmv : bytes; Epkrc1 : bytes; Epkrc2 : bytes; Hash : bytes }.

Inductive response := ErrParamsLack | ErrPublicKey | ErrSendTransaction | Bought (r : Receipt).

(** The body of [SendTransaction]'s request. *)
Definition purchase_request (ethaccount ethto : bytes) (elgamalinfo elgamalr : CypherText)
    (sig : Signature) (cm : Commitment) : SendTx :=
  let zero := [z2b 48; z2b 120; z2b 48] in
  mkSendTx ethaccount ethto zero zero zero [z2b 48; z2b 120; z2b 49]
    (byteto0xstring (C1 elgamalr)) (byteto0xstring (C2 elgamalr))
    (byteto0xstring (C1 elgamalinfo)) (byteto0xstring (C2 elgamalinfo))
    (byteto0xstring (sig_M sig)) (byteto0xstring (sig_M_hash sig))
    (byteto0xstring (sig_R sig)) (byteto0xstring (sig_S sig)) (byteto0xstring (commitment cm)).

Definition Toreceipt (cmv rc1 rc2 hash : bytes) : Receipt :=
  mkReceipt (byteto0xstring cmv) (byteto0xstring rc1) (byteto0xstring rc2) hash.

(** The draws of one purchase. *)
Record buy_draws := mk_buy_draws {
  b_rF : Z; b_info : nat → nat → Z; b_r : nat → nat → Z; b_sign : nat → Z }.

Record exchange_state := mk_exchange {
  publisherpriv : PrivateKey; regulatorpub : PublicKey; x_ethaccount : bytes; x_Ethto : bytes }.

(** The variables of the package that the handler assigns. *)
Record globals := mk_globals {
  usrpub : Api.raw_key; cm_and_r : Commitment; elgamal_info : CypherText; elgamal_r : CypherText; signature : Signature }.

(** Its assignments, from the first. *)
Definition assign (st : exchange_state) (d : buy_draws) (fuel : nat) (u : Purchase) (k : nat) (g : globals) : outcome diverge globals :=
  match k with
  | 0%nat => Ret (mk_globals (CreateUsrPub (u_G1 u) (u_G2 u) (u_P u) (u_H u)) (cm_and_r g) (elgamal_info g) (elgamal_r g) (signature g))
  | 1%nat => Ret (mk_globals (usrpub g) (CreateCM_v (b_rF d) (regulatorpub st) (u_Amount u)) (elgamal_info g) (elgamal_r g) (signature g))
  | 2%nat =>
      c ← CreateElgamalInfo (b_info d) fuel (regulatorpub st) (u_Amount u) (u_H u);
      Ret (mk_globals (usrpub g) (cm_and_r g) c (elgamal_r g) (signature g))
  | 3%nat =>
      pub ← Api.enc_key (usrpub g);
      c ← CreateElgamalR (b_r d) fuel pub (rnd (cm_and_r g));
      Ret (mk_globals (usrpub g) (cm_and_r g) (elgamal_info g) c (signature g))
  | 4%nat =>
      sig ← CreateSign (b_sign d) fuel (publisherpriv st) (u_Amount u);
      Ret (mk_globals (usrpub g) (cm_and_r g) (elgamal_info g) (elgamal_r g) sig)
  | _ => Ret g
  end.

Definition lacking (u : Purchase) : bool :=
  (length (u_G1 u) =? 0)%nat || (length (u_G2 u) =? 0)%nat || (length (u_P u) =? 0)%nat || (length (u_H u) =? 0)%nat || (length (u_Amount u) =? 0)%nat.

(** What is sent to the node, and what to the buyer. *)
Definition request_of (st : exchange_state) (g : globals) : SendTx := purchase_request (x_ethaccount st) (x_Ethto st) (elgamal_info g) (elgamal_r g) (signature g) (cm_and_r g).
Definition receipt_of (g : globals) (hash : bytes) : Receipt := Toreceipt (commitment (cm_and_r g)) (C1 (elgamal_r g)) (C2 (elgamal_r g)) hash.

(** [registered] is the regulator's answer, [post] the node's: the hash of the
    transaction, or nothing. *)
Definition buy (registered : bytes → bool) (post : SendTx → option bytes)
    (st : exchange_state) (d : buy_draws) (fuel : nat) (u : Purchase) (g : globals)
    : outcome diverge (response * option SendTx) :=
  if lacking u then Ret (ErrParamsLack, None)
  else if negb (registered (u_H u)) then Ret (ErrPublicKey, None)
  else
    g ← assign st d fuel u 0 g;
    g ← assign st d fuel u 1 g;
    g ← assign st d fuel u 2 g;
    g ← assign st d fuel u 3 g;
    g ← assign st d fuel u 4 g;
    let tx := request_of st g in
    match post tx with
    | Some hash => Ret (Bought (receipt_of g hash), Some tx)
    | None => Ret (ErrSendTransaction, Some tx)
    end.

(** ** Requests that run at the same time *)

(** A request under way: the next statement, what was posted and what the node
    answered, and the response. *)
Record handler := mk_handler { h_u : Purchase; h_d : buy_draws; h_pc : nat; h_posted : option (SendTx * option bytes); h_done : option response }.

Definition handler_step (registered : bytes → bool) (post : SendTx → option bytes) (st : exchange_state) (fuel : nat) (h : handler) (g : globals)
    : outcome diverge (handler * globals) :=
  let finish r := Ret (mk_handler (h_u h) (h_d h) (h_pc h) (h_posted h) (Some r), g) in
  match h_done h with
  | Some _ => Ret (h, g)
  | None =>
      match h_pc h with
      | 0%nat =>
          if lacking (h_u h) then finish ErrParamsLack
          else if negb (registered (u_H (h_u h))) then finish ErrPublicKey
          else Ret (mk_handler (h_u h) (h_d h) 1 None None, g)
      | S k =>
          if (k <? 5)%nat then
            g ← assign st (h_d h) fuel (h_u h) k g;
            Ret (mk_handler (h_u h) (h_d h) (S (S k)) None None, g)
          else
            match h_posted h with
            | None => let tx := request_of st g in Ret (mk_handler (h_u h) (h_d h) (h_pc h) (Some (tx, post tx)) None, g)
            | Some (_, Some hash) => finish (Bought (receipt_of g hash))
            | Some (_, None) => finish ErrSendTransaction
            end
      end
  end.

(** Two requests; the schedule says whose statement is next. A panic of either is
    the outcome of both here (the server recovers from it). *)
Fixpoint both (registered : bytes → bool) (post : SendTx → option bytes) (st : exchange_state) (fuel : nat) (schedule : list bool) (h1 h2 : handler) (g : globals)
    : outcome diverge (handler * handler) :=
  match schedule with
  | [] => Ret (h1, h2)
  | true :: l => '(h1, g) ← handler_step registered post st fuel h1 g; both registered post st fuel l h1 h2 g
  | false :: l => '(h2, g) ← handler_step registered post st fuel h2 g; both registered post st fuel l h1 h2 g
  end.

End WithHash.
End Exchange.
