(* ===== verification/GoHeap.v ===== *)
(** * GoHeap: Go's [container/heap] on slices

    The library functions [Init], [Push], [Pop] and [Remove] as the
    transaction pool uses them, over a [Less] given by a Boolean comparison
    of elements. The laws they satisfy: the slice stays a heap, its content
    changes by exactly the element pushed or removed, and [Pop] returns a
    least element. *)

From stdpp Require Import base list sorting.
From Stdlib Require Import Lia.
From S2P Require Import Prelude.

Module GoHeap.

(** What a comparison promises: [less] is the strict part of a total preorder. *)
Class LessOrder {A} (less : A → A → bool) : Prop := {
  less_asym x y : less x y = true → less y x = false;
  less_trans x y z : less y x = false → less z y = false → less z x = false;
}.

Definition Swap {A} (h : list A) (i j : nat) : list A :=
  match h !! i, h !! j with
  | Some x, Some y => <[i := y]> (<[j := x]> h)
  | _, _ => h
  end.

Definition parent (k : nat) : nat := (k - 1) / 2.

Section Operations.
Context {A : Type} (less : A → A → bool).

Definition Less (h : list A) (i j : nat) : bool :=
  match h !! i, h !! j with Some x, Some y => less x y | _, _ => false end.

Fixpoint up (fuel : nat) (h : list A) (j : nat) : list A :=
  match fuel with
  | O => h
  | S fuel =>
      let i := parent j in
      if (i =? j) || negb (Less h j i) then h else up fuel (Swap h i j) i
  end.

(** The child of [i] that moves up, when there is one below [n]. *)
Definition least_child (h : list A) (i n : nat) : nat :=
  let j1 := 2 * i + 1 in
  let j2 := j1 + 1 in
  if (j2 <? n) && Less h j2 j1 then j2 else j1.

Fixpoint down (fuel : nat) (h : list A) (i n : nat) : list A * nat :=
  match fuel with
  | O => (h, i)
  | S fuel =>
      if n <=? 2 * i + 1 then (h, i)
      else
        let j := least_child h i n in
        if negb (Less h j i) then (h, i) else down fuel (Swap h i j) j n
  end.

(** Rounds [i-1, ..., 0] of the loop of [Init]. *)
Fixpoint init_from (h : list A) (i : nat) : list A :=
  match i with
  | O => h
  | S i => init_from (down (length h) h i (length h)).1 i
  end.

Definition Init (h : list A) : list A := init_from h (length h / 2).

Definition Push (h : list A) (x : A) : list A :=
  up (S (length h)) (h ++ [x]) (length h).

(** Pop of an empty heap indexes out of range: [None]. *)
Definition Pop (h : list A) : option (A * list A) :=
  match length h with
  | O => None
  | S n =>
      let h := (down n (Swap h 0 n) 0 n).1 in
      x ← h !! n; Some (x, take n h)
  end.

Definition Remove (h : list A) (i : nat) : option (A * list A) :=
  match length h with
  | O => None
  | S n =>
      let h :=
        if n =? i then h
        else
          let '(h', i') := down n (Swap h i n) i n in
          if i <? i' then h' else up (S i) h' i in
      x ← h !! n; Some (x, take n h)
  end.
End Operations.

Arguments Init : simpl never.
Arguments Push : simpl never.
Arguments Pop : simpl never.
Arguments Remove : simpl never.

(** ** Swapping *)

Lemma length_Swap {A} (h : list A) i j : length (Swap h i j) = length h.
Proof. unfold Swap. repeat case_match; by rewrite ?length_insert. Qed.

Lemma Swap_Permutation {A} (h : list A) i j : Swap h i j ≡ₚ h.
Proof.
  unfold Swap. destruct (h !! i) as [x|] eqn:Ei; [|done].
  destruct (h !! j) as [y|] eqn:Ej; [|done].
  destruct (decide (i = j)) as [->|].
  - rewrite list_insert_insert_eq. simplify_eq. by rewrite list_insert_id.
  - by apply Permutation_insert_swap.
Qed.

Lemma lookup_Swap {A} (h : list A) i j k :
  i < length h → j < length h →
  Swap h i j !! k = if decide (k = i) then h !! j else if decide (k = j) then h !! i else h !! k.
Proof.
  intros [x Hx]%lookup_lt_is_Some_2 [y Hy]%lookup_lt_is_Some_2.
  unfold Swap. rewrite Hx, Hy.
  destruct (decide (k = i)) as [->|].
  { rewrite list_lookup_insert_eq; [done|]. rewrite length_insert. by eapply lookup_lt_Some. }
  rewrite list_lookup_insert_ne by done. destruct (decide (k = j)) as [->|].
  - rewrite list_lookup_insert_eq; [done|]. by eapply lookup_lt_Some.
  - by rewrite list_lookup_insert_ne.
Qed.

Lemma parent_lt k : 0 < k → parent k < k.
Proof. intros. unfold parent. apply Nat.Div0.div_lt_upper_bound. lia. Qed.

Lemma parent_child k i : 0 < k → parent k = i ↔ k = 2 * i + 1 ∨ k = 2 * i + 2.
Proof.
  intros. unfold parent. pose proof (Nat.div_mod (k - 1) 2).
  pose proof (Nat.mod_upper_bound (k - 1) 2). lia.
Qed.

(** ** The heap property *)

Section Laws.
Context {A : Type} (less : A → A → bool) `{!LessOrder less}.

(** [ordered h i j]: the element at [i] does not come after the one at [j]. *)
Definition ordered (h : list A) (i j : nat) : Prop :=
  ∀ x y, h !! i = Some x → h !! j = Some y → less y x = false.

Definition heap_at (h : list A) (k : nat) : Prop := 0 < k → ordered h (parent k) k.
Definition heap_upto (n : nat) (h : list A) : Prop := ∀ k, k < n → heap_at h k.
Definition is_heap (h : list A) : Prop := heap_upto (length h) h.

Lemma less_irrefl x : less x x = false.
Proof using LessOrder0. destruct (less x x) eqn:E; [|done]. pose proof (less_asym _ _ E). congruence. Qed.

Lemma Less_ordered h i j : Less less h j i = false → ordered h i j.
Proof using Type. unfold Less. intros E x y Hx Hy. by rewrite Hx, Hy in E. Qed.

Lemma Less_ordered' h i j : Less less h j i = true → ordered h j i.
Proof using LessOrder0.
  unfold Less. intros E x y Hx Hy. rewrite Hx, Hy in E. by apply less_asym.
Qed.

Lemma ordered_trans h i j k :
  j < length h → ordered h i j → ordered h j k → ordered h i k.
Proof using LessOrder0.
  intros [y Hy]%lookup_lt_is_Some_2 H1 H2 x z Hx Hz.
  eapply less_trans; [by apply H1|by apply H2].
Qed.

(** Order after a swap, by the positions the elements came from. *)
Definition unswap (i j k : nat) : nat := if decide (k = i) then j else if decide (k = j) then i else k.

Lemma ordered_Swap h i j a b :
  i < length h → j < length h →
  ordered h (unswap i j a) (unswap i j b) → ordered (Swap h i j) a b.
Proof using Type.
  intros Hi Hj H x y. rewrite !lookup_Swap by done. unfold unswap in H.
  repeat case_decide; subst; intros; eauto.
Qed.

(** *** [up] repairs a heap broken at [j] only *)

Lemma up_heap fuel n h j :
  n <= length h → j < n → j < fuel →
  (∀ k, k < n → k ≠ j → heap_at h k) →
  (∀ k, k < n → 0 < k → 0 < j → parent k = j → ordered h (parent j) k) →
  heap_upto n (up less fuel h j).
Proof using LessOrder0.
  intros Hn. revert h j Hn. induction fuel as [|fuel IH]; intros h j Hn Hj Hf Hheap Hgp; [lia|].
  cbn [up]. destruct (Nat.eqb_spec (parent j) j) as [E|E]; cbn [orb].
  { intros k Hk. destruct (decide (k = j)) as [->|]; [|by apply Hheap].
    intros Hpos. pose proof (parent_lt j Hpos). lia. }
  assert (Hj0 : 0 < j) by (destruct j; [done|lia]).
  pose proof (parent_lt j Hj0) as Hpj.
  destruct (Less less h j (parent j)) eqn:EL; cbn [negb].
  2:{ intros k Hk. destruct (decide (k = j)) as [->|]; [|by apply Hheap].
      intros _. by apply Less_ordered. }
  apply Less_ordered' in EL. set (i := parent j) in *.
  assert (Hk : ∀ k, k < n → 0 < k → parent k < k) by (intros; by apply parent_lt).
  assert (Hsib : ∀ k, k < n → 0 < k → parent k = i → k ≠ j → ordered h j k).
  { intros k Hkn Hk0 Hpk Hkj. eapply (ordered_trans _ _ i); [lia|done|].
    rewrite <- Hpk. by apply Hheap. }
  apply IH; rewrite ?length_Swap; try lia.
  - intros k Hkn Hki Hk0. specialize (Hk k Hkn Hk0).
    apply ordered_Swap; [lia|lia|]. unfold unswap.
    destruct (decide (parent k = i)) as [Hpk|Hpk].
    + repeat case_decide; try lia; [done|by apply Hsib].
    + destruct (decide (parent k = j)) as [Hpj'|].
      * repeat case_decide; try lia. by apply Hgp.
      * repeat case_decide; try lia; [|by apply Hheap]. subst k. by fold i in Hpk.
  - intros k Hkn Hk0 Hi0 Hpk. specialize (Hk k Hkn Hk0).
    pose proof (parent_lt i Hi0) as Hpi.
    assert (Hi : ordered h (parent i) i) by (apply Hheap; lia).
    apply ordered_Swap; [lia|lia|]. unfold unswap.
    repeat case_decide; try lia; [done|]. eapply (ordered_trans _ _ i); [lia|done|].
    rewrite <- Hpk. by apply Hheap.
Qed.

Lemma length_up fuel h j : length (up less fuel h j) = length h.
Proof using Type.
  revert h j. induction fuel as [|fuel IH]; intros h j; cbn; [done|].
  case_match; [done|]. by rewrite IH, length_Swap.
Qed.

Lemma up_Permutation fuel h j : up less fuel h j ≡ₚ h.
Proof using Type.
  revert h j. induction fuel as [|fuel IH]; intros h j; cbn; [done|].
  case_match; [done|]. by rewrite IH, Swap_Permutation.
Qed.

Lemma up_above fuel h j k : j < k → k < length h → up less fuel h j !! k = h !! k.
Proof using Type.
  revert h j. induction fuel as [|fuel IH]; intros h j Hjk Hk; cbn [up]; [done|].
  destruct (Nat.eqb_spec (parent j) j) as [E|E]; cbn [orb]; [done|].
  destruct (negb _); [done|]. pose proof (parent_lt j). 
  assert (0 < j) by (destruct j; [done|lia]).
  rewrite IH, lookup_Swap by (rewrite ?length_Swap; lia).
  repeat case_decide; try done; lia.
Qed.

(** *** [down] repairs a heap broken between [i] and its children *)

Lemma least_child_spec h i n :
  2 * i + 1 < n → n <= length h →
  let j := least_child less h i n in
  j < n ∧ (j = 2 * i + 1 ∨ j = 2 * i + 2) ∧
  ∀ k, k < n → 0 < k → parent k = i → ordered h j k.
Proof using LessOrder0.
  intros Hn Hlen. unfold least_child. cbv zeta.
  assert (Hrefl : ∀ k, ordered h k k).
  { intros k x y Hx Hy. simplify_eq. apply less_irrefl. }
  replace (2 * i + 1 + 1) with (2 * i + 2) by lia.
  destruct (Nat.ltb_spec (2 * i + 2) n); cbn [andb].
  - destruct (Less _ _ _ _) eqn:E.
    + apply Less_ordered' in E. split_and!; [lia|lia|].
      intros k Hk Hk0 [->| ->]%parent_child; done.
    + apply Less_ordered in E. split_and!; [lia|lia|].
      intros k Hk Hk0 [->| ->]%parent_child; done.
  - split_and!; [lia|lia|]. intros k Hk Hk0 [->| ->]%parent_child; [done|lia|done].
Qed.

(** Only the order below the positions [>= lo] is considered: [lo] is 0 for
    a whole heap, larger while [Init] builds one. *)
Lemma down_heap_from lo fuel n h i :
  n <= length h → n <= fuel + i → lo <= i →
  (∀ k, k < n → 0 < k → lo <= parent k → parent k ≠ i → ordered h (parent k) k) →
  (∀ k, k < n → 0 < k → 0 < i → lo <= parent i → parent k = i → ordered h (parent i) k) →
  ∀ k, k < n → 0 < k → lo <= parent k → ordered (down less fuel h i n).1 (parent k) k.
Proof using LessOrder0.
  revert h i. induction fuel as [|fuel IH]; intros h i Hlen Hf Hlo Hheap Hgp.
  { intros k Hk Hk0 Hlk. apply Hheap; try done. pose proof (parent_lt k Hk0). lia. }
  cbn [down]. destruct (Nat.leb_spec n (2 * i + 1)).
  { intros k Hk Hk0 Hlk. apply Hheap; try done. intros Hpk%parent_child; lia. }
  destruct (least_child_spec h i n) as (Hjn & Hj & Hleast); [lia|lia|].
  set (j := least_child less h i n) in *.
  assert (Hpj : parent j = i) by (apply parent_child; lia).
  destruct (Less less h j i) eqn:EL; cbn [negb].
  2:{ apply Less_ordered in EL. intros k Hk Hk0 Hlk.
      destruct (decide (parent k = i)) as [Hpk|]; [|by apply Hheap].
      rewrite Hpk. cbn [fst]. eapply (ordered_trans _ _ j); [lia|done|by apply Hleast]. }
  apply Less_ordered' in EL.
  apply IH; rewrite ?length_Swap; try lia.
  - intros k Hk Hk0 Hlk Hpk. pose proof (parent_lt k Hk0).
    apply ordered_Swap; [lia|lia|]. unfold unswap.
    destruct (decide (parent k = i)) as [Hki|Hki].
    + repeat case_decide; try lia; [done|by apply Hleast].
    + repeat case_decide; try lia; try congruence; [subst k; apply Hgp; lia|by apply Hheap].
  - intros k Hk Hk0 Hj0 Hlj Hpk. pose proof (parent_lt k Hk0).
    rewrite Hpj. apply ordered_Swap; [lia|lia|]. unfold unswap.
    repeat case_decide; try lia. rewrite <- Hpk. apply Hheap; lia.
Qed.

Lemma down_heap n h i :
  n <= length h →
  (∀ k, k < n → 0 < k → parent k ≠ i → ordered h (parent k) k) →
  (∀ k, k < n → 0 < k → 0 < i → parent k = i → ordered h (parent i) k) →
  heap_upto n (down less n h i n).1.
Proof using LessOrder0.
  intros Hn Hh Hgp k Hk Hk0. apply (down_heap_from 0); auto; lia.
Qed.

Lemma length_down fuel h i n : length (down less fuel h i n).1 = length h.
Proof using Type.
  revert h i. induction fuel as [|fuel IH]; intros h i; cbn [down]; [done|].
  case_match; [done|]. case_match; [done|]. by rewrite IH, length_Swap.
Qed.

Lemma down_Permutation fuel h i n : (down less fuel h i n).1 ≡ₚ h.
Proof using Type.
  revert h i. induction fuel as [|fuel IH]; intros h i; cbn [down]; [done|].
  case_match; [done|]. case_match; [done|]. by rewrite IH, Swap_Permutation.
Qed.

Lemma down_above fuel h i n k :
  n <= k → k < length h → (down less fuel h i n).1 !! k = h !! k.
Proof using LessOrder0.
  revert h i. induction fuel as [|fuel IH]; intros h i Hnk Hk; cbn [down]; [done|].
  destruct (Nat.leb_spec n (2 * i + 1)); [done|]. destruct (negb _); [done|].
  destruct (least_child_spec h i n) as (Hjn & Hj & _); [lia|lia|].
  rewrite IH, lookup_Swap by (rewrite ?length_Swap; lia).
  repeat case_decide; try done; lia.
Qed.

(** [down] that returns its own index did nothing. *)
Lemma down_stays fuel h i n :
  n <= length h → i ≤ (down less fuel h i n).2 ∧
  ((down less fuel h i n).2 = i → (down less fuel h i n).1 = h).
Proof using LessOrder0.
  revert h i. induction fuel as [|fuel IH]; intros h i Hlen; cbn [down]; [done|].
  destruct (Nat.leb_spec n (2 * i + 1)); [done|]. destruct (negb _); [done|].
  destruct (least_child_spec h i n) as (Hjn & Hj & _); [lia|lia|].
  destruct (IH (Swap h i (least_child less h i n)) (least_child less h i n)) as [H1 _];
    [by rewrite length_Swap|]. split; [lia|]. intros E. lia.
Qed.

(** *** The operations *)

Lemma heap_upto_take n h : heap_upto n h → is_heap (take n h).
Proof using Type.
  intros Hh k Hk Hk0 x y Hx Hy. rewrite length_take in Hk. pose proof (parent_lt k Hk0).
  rewrite lookup_take_lt in Hx, Hy by lia. apply (Hh k ltac:(lia) Hk0 x y Hx Hy).
Qed.

Lemma Push_heap h x : is_heap h → is_heap (Push less h x).
Proof using LessOrder0.
  intros Hh. unfold is_heap, Push. rewrite length_up, length_app. cbn [length].
  apply up_heap; rewrite ?length_app; cbn [length]; try lia.
  - intros k Hk Hkn Hk0 a b Ha Hb. pose proof (parent_lt k Hk0).
    rewrite lookup_app_l in Ha, Hb by lia. apply (Hh k ltac:(lia) Hk0 a b Ha Hb).
  - intros k Hk Hk0 _ Hpk. pose proof (parent_lt k Hk0). lia.
Qed.

Lemma Push_Permutation h x : Push less h x ≡ₚ x :: h.
Proof using Type. unfold Push. rewrite up_Permutation. by rewrite Permutation_app_comm. Qed.

Lemma init_from_heap h i :
  (∀ k, k < length h → 0 < k → i <= parent k → ordered h (parent k) k) →
  is_heap (init_from less h i).
Proof using LessOrder0.
  revert h. induction i as [|i IH]; intros h Hh.
  { intros k Hk Hk0. apply Hh; [done|done|lia]. }
  cbn [init_from]. apply IH. rewrite length_down. apply down_heap_from; try lia.
  - intros k Hk Hk0 Hik Hne. apply Hh; lia.
  - intros k _ _ Hi0 Hlo _. pose proof (parent_lt i Hi0). lia.
Qed.

Lemma Init_heap h : is_heap (Init less h).
Proof using LessOrder0.
  apply init_from_heap. intros k Hk Hk0 Hi. exfalso.
  pose proof (Nat.div_mod (length h) 2). pose proof (Nat.mod_upper_bound (length h) 2).
  remember (parent k) as q eqn:E. symmetry in E. apply parent_child in E; lia.
Qed.

Lemma Init_Permutation h : Init less h ≡ₚ h.
Proof using Type.
  unfold Init. generalize (length h / 2). intros i. revert h.
  induction i as [|i IH]; intros h; cbn; [done|]. by rewrite IH, down_Permutation.
Qed.

(** The root of a heap is a least element. *)
Lemma heap_root h x y : is_heap h → h !! 0 = Some x → y ∈ h → less y x = false.
Proof using LessOrder0.
  intros Hh Hx [k Hk]%list_elem_of_lookup. revert y Hk.
  induction k as [k IH] using lt_wf_ind. intros y Hy.
  destruct (decide (k = 0)) as [->|]; [simplify_eq; apply less_irrefl|].
  pose proof (parent_lt k ltac:(lia)). pose proof (lookup_lt_Some _ _ _ Hy).
  destruct (lookup_lt_is_Some_2 h (parent k)) as [z Hz]; [lia|].
  eapply less_trans; [apply (IH (parent k)); [lia|exact Hz]|].
  apply (Hh k ltac:(lia) ltac:(lia) z y Hz Hy).
Qed.

Lemma take_last n (h : list A) x : length h = S n → h !! n = Some x → x :: take n h ≡ₚ h.
Proof using Type.
  intros Hl Hx. rewrite <- (take_drop n h) at 2.
  rewrite (drop_S h x n Hx), drop_ge by lia. by rewrite Permutation_app_comm.
Qed.

Lemma Pop_spec h :
  is_heap h → h ≠ [] →
  ∃ x h', Pop less h = Some (x, h') ∧ h !! 0 = Some x ∧ is_heap h' ∧ x :: h' ≡ₚ h ∧
    (∀ y, y ∈ h → less y x = false).
Proof using LessOrder0.
  intros Hh Hne. unfold Pop. destruct (length h) as [|n] eqn:El; [by destruct h|].
  destruct (lookup_lt_is_Some_2 h 0) as [x Hx]; [lia|].
  set (g := (down less n (Swap h 0 n) 0 n).1).
  assert (Hlen : length g = S n) by (subst g; by rewrite length_down, length_Swap).
  assert (Hgn : g !! n = Some x).
  { subst g. rewrite down_above, lookup_Swap by (rewrite ?length_Swap; lia).
    repeat case_decide; subst; done. }
  exists x, (take n g). rewrite Hgn. split_and!; [done|done| | |].
  - apply heap_upto_take. subst g. apply down_heap; rewrite ?length_Swap; try lia.
    intros k Hk Hk0 Hpk. apply ordered_Swap; [lia|lia|].
    unfold unswap. pose proof (parent_lt k Hk0).
    repeat case_decide; try lia. apply Hh; lia.
  - rewrite take_last by done. subst g. by rewrite down_Permutation, Swap_Permutation.
  - intros y Hy. by apply (heap_root h).
Qed.

(** [down], then [up] when it did not move: repairs a heap broken at [i]
    in either direction. *)
Lemma down_up_heap n s i :
  i < n → n <= length s →
  (∀ k, k < n → 0 < k → k ≠ i → parent k ≠ i → ordered s (parent k) k) →
  (∀ k, k < n → 0 < k → 0 < i → parent k = i → ordered s (parent i) k) →
  let r := down less n s i n in
  heap_upto n (if i <? r.2 then r.1 else up less (S i) r.1 i).
Proof using LessOrder0.
  intros Hin Hn Hs Hgp. destruct (down_stays n s i n Hn) as [Hge Hstay].
  pose proof (length_down n s i n) as Hld. cbv zeta.
  destruct ((0 <? i) && Less less s i (parent i)) eqn:E.
  - (* too small for its parent: [down] does nothing, [up] repairs *)
    apply andb_true_iff in E as [Hi0%Nat.ltb_lt EL]. apply Less_ordered' in EL.
    pose proof (parent_lt i Hi0) as Hpi.
    assert (Hle : ∀ k, k < n → 0 < k → parent k = i → ordered s i k).
    { intros k Hk Hk0 Hpk. eapply (ordered_trans _ _ (parent i)); [lia|done|by apply Hgp]. }
    assert (Ed : down less n s i n = (s, i)).
    { destruct n as [|n']; [lia|]. cbn [down]. destruct (Nat.leb_spec (S n') (2 * i + 1)); [done|].
      destruct (least_child_spec s i (S n')) as (Hcn & Hc & _); [lia|lia|].
      unfold Less. repeat case_match; try done.
      rewrite (Hle (least_child less s i (S n'))) in *; try done; [lia|]. apply parent_child; lia. }
    rewrite Ed, Nat.ltb_irrefl. cbn [fst]. apply up_heap; try lia.
    + intros k Hk Hki Hk0. destruct (decide (parent k = i)) as [Hpk|]; [|by apply Hs].
      rewrite Hpk. by apply Hle.
    + intros k Hk Hk0 _ Hpk. by apply Hgp.
  - assert (Hd : heap_upto n (down less n s i n).1).
    { apply down_heap; [done| |done]. intros k Hk Hk0 Hpk.
      destruct (decide (k = i)) as [->|]; [|by apply Hs].
      apply andb_false_iff in E as [E%Nat.ltb_ge|E]; [lia|by apply Less_ordered]. }
    case_match; [done|]. apply up_heap; try lia; [intros k Hk _; by apply Hd|].
    intros k Hk Hk0 Hi0 Hpk. pose proof (parent_lt i Hi0).
    pose proof (Hd k Hk Hk0) as Hik. rewrite Hpk in Hik.
    eapply (ordered_trans _ _ i); [lia|by apply Hd|exact Hik].
Qed.

Lemma Remove_spec h i x :
  is_heap h → h !! i = Some x →
  ∃ h', Remove less h i = Some (x, h') ∧ is_heap h' ∧ x :: h' ≡ₚ h.
Proof using LessOrder0.
  intros Hh Hx. pose proof (lookup_lt_Some _ _ _ Hx) as Hi.
  unfold Remove. destruct (length h) as [|n] eqn:El; [lia|].
  destruct (Nat.eqb_spec n i) as [->|Hni].
  { exists (take i h). rewrite Hx. split_and!; [done| |by apply take_last].
    apply heap_upto_take. intros k Hk. apply Hh. lia. }
  set (s := Swap h i n). assert (Hls : length s = S n) by (subst s; by rewrite length_Swap).
  assert (Hheap := down_up_heap n s i ltac:(lia) ltac:(lia)). cbv zeta in Hheap.
  pose proof (length_down n s i n) as Hld. pose proof (down_Permutation n s i n) as Hpd.
  pose proof (down_above n s i n n ltac:(lia) ltac:(lia)) as Hdn.
  destruct (down less n s i n) as [d i']. cbn [fst snd] in *.
  set (r := if i <? i' then d else up less (S i) d i) in *.
  assert (Hlr : length r = S n) by (subst r; case_match; rewrite ?length_up; lia).
  assert (Hrn : r !! n = Some x).
  { transitivity (s !! n); [subst r; case_match; rewrite ?up_above by lia; done|].
    subst s. rewrite lookup_Swap by lia. repeat case_decide; try lia; done. }
  exists (take n r). rewrite Hrn. split_and!; [done| |].
  - apply heap_upto_take, Hheap; intros k Hk Hk0.
    + intros Hki Hpk. pose proof (parent_lt k Hk0). subst s.
      apply ordered_Swap; [lia|lia|]. unfold unswap. repeat case_decide; try lia. apply Hh; lia.
    + intros Hi0 Hpk. pose proof (parent_lt i Hi0). pose proof (parent_lt k Hk0). subst s.
      apply ordered_Swap; [lia|lia|]. unfold unswap. repeat case_decide; try lia.
      eapply (ordered_trans _ _ i); [lia|by apply Hh; lia|]. rewrite <- Hpk. apply Hh; lia.
  - rewrite take_last by done. subst r. transitivity s; [|apply Swap_Permutation].
    case_match; [done|]. by rewrite up_Permutation.
Qed.
End Laws.
End GoHeap.
