(* ===== verification/TxList.v ===== *)
(** * TxList: nonce-sorted transaction lists of the pool (core/tx_list.go)

    [txSortedMap] (a hash map with a binary heap of nonces and a cache of the
    sorted order) and [txList] (its account-level wrapper with cost and gas
    caps). A method is a function from the receiver to its result and the
    updated receiver; [None] is the panic of an index out of range or of a nil
    transaction, which the invariant [wf] excludes.

    Iteration over a Go map takes the order of [map_to_list]. *)

From stdpp Require Import base gmap list sorting.
From Stdlib Require Import ZArith Lia.
From S2P Require Import Prelude GoHeap Types.

Local Open Scope Z_scope.

Module TxList.
Import Types.

(** ** nonceHeap: [Less] compares the nonces *)

Definition nonce_less (x y : Z) : bool := x <? y.

#[export] Instance nonce_less_order : GoHeap.LessOrder nonce_less.
Proof. split; unfold nonce_less; intros *; rewrite ?Z.ltb_lt, ?Z.ltb_ge; lia. Qed.

(** ** txSortedMap *)

Record txSortedMap := mk_sorted {
  items : gmap Z txdata; index : list Z; cache : option (list txdata) }.

Definition newTxSortedMap : txSortedMap := mk_sorted ∅ [] None.

Definition Get (m : txSortedMap) (nonce : Z) : option txdata := items m !! nonce.

Definition Put (m : txSortedMap) (tx : txdata) : txSortedMap :=
  let nonce := AccountNonce tx in
  let idx := match items m !! nonce with
             | None => GoHeap.Push nonce_less (index m) nonce
             | Some _ => index m
             end in
  mk_sorted (<[nonce := tx]> (items m)) idx None.

(** The loop of [Forward]: the popped transactions, in order. *)
Fixpoint forward_loop (fuel : nat) (threshold : Z) (its : gmap Z txdata) (idx : list Z)
    : option (list txdata * gmap Z txdata * list Z) :=
  match fuel with
  | O => Some ([], its, idx)
  | S fuel =>
      match idx !! 0%nat with
      | Some top =>
          if top <? threshold then
            '(nonce, idx') ← GoHeap.Pop nonce_less idx;
            tx ← its !! nonce;
            '(removed, its', idx'') ← forward_loop fuel threshold (delete nonce its) idx';
            Some (tx :: removed, its', idx'')
          else Some ([], its, idx)
      | None => Some ([], its, idx)
      end
  end.

Definition Forward (m : txSortedMap) (threshold : Z) : option (list txdata * txSortedMap) :=
  '(removed, its, idx) ← forward_loop (length (index m)) threshold (items m) (index m);
  Some (removed, mk_sorted its idx (drop (length removed) <$> cache m)).

Definition Filter (m : txSortedMap) (f : txdata → bool) : list txdata * txSortedMap :=
  let removed := (map_to_list (filter (λ kv, f kv.2 = true) (items m))).*2 in
  let its := filter (λ kv, f kv.2 = false) (items m) in
  match removed with
  | [] => (removed, mk_sorted its (index m) (cache m))
  | _ :: _ =>
      (removed, mk_sorted its (GoHeap.Init nonce_less (map_to_list its).*1) None)
  end.

(** The loop of [Cap] over the sorted index, from the last position down to
    [threshold]. *)
Fixpoint cap_loop (excess : nat) (threshold : nat) (its : gmap Z txdata) (idx : list Z)
    : option (list txdata * gmap Z txdata) :=
  match excess with
  | O => Some ([], its)
  | S excess =>
      nonce ← idx !! (threshold + excess)%nat;
      tx ← its !! nonce;
      '(drops, its') ← cap_loop excess threshold (delete nonce its) idx;
      Some (tx :: drops, its')
  end.

Definition Cap (m : txSortedMap) (threshold : nat) : option (list txdata * txSortedMap) :=
  if (size (items m) <=? threshold)%nat then Some ([], m)
  else
    let idx := merge_sort Z.le (index m) in
    '(drops, its) ← cap_loop (size (items m) - threshold) threshold (items m) idx;
    Some (drops, mk_sorted its (GoHeap.Init nonce_less (take threshold idx))
                   ((λ c, take (length c - length drops) c) <$> cache m)).

(** The position of a nonce in the heap, by linear search. *)
Fixpoint find_index (nonce : Z) (idx : list Z) : option nat :=
  match idx with
  | [] => None
  | n :: idx' => if n =? nonce then Some O else S <$> find_index nonce idx'
  end.

Definition Remove (m : txSortedMap) (nonce : Z) : option (bool * txSortedMap) :=
  match items m !! nonce with
  | None => Some (false, m)
  | Some _ =>
      idx ← match find_index nonce (index m) with
            | Some i => snd <$> GoHeap.Remove nonce_less (index m) i
            | None => Some (index m)
            end;
      Some (true, mk_sorted (delete nonce (items m)) idx None)
  end.

Fixpoint ready_loop (fuel : nat) (next : Z) (its : gmap Z txdata) (idx : list Z)
    : option (list txdata * gmap Z txdata * list Z) :=
  match fuel with
  | O => Some ([], its, idx)
  | S fuel =>
      match idx !! 0%nat with
      | Some top =>
          if top =? next then
            tx ← its !! next;
            '(_, idx') ← GoHeap.Pop nonce_less idx;
            '(ready, its', idx'') ← ready_loop fuel (u64 (next + 1)) (delete next its) idx';
            Some (tx :: ready, its', idx'')
          else Some ([], its, idx)
      | None => Some ([], its, idx)
      end
  end.

Definition Ready (m : txSortedMap) (start : Z) : option (list txdata * txSortedMap) :=
  match index m !! 0%nat with
  | None => Some ([], m)
  | Some top =>
      if start <? top then Some ([], m)
      else
        '(ready, its, idx) ← ready_loop (length (index m)) top (items m) (index m);
        Some (ready, mk_sorted its idx None)
  end.

Definition Len (m : txSortedMap) : nat := size (items m).

Definition by_nonce (t1 t2 : txdata) : Prop := AccountNonce t1 <= AccountNonce t2.

#[export] Instance by_nonce_dec : RelDecision by_nonce.
Proof. intros t1 t2. unfold by_nonce. apply _. Defined.

Definition Flatten (m : txSortedMap) : list txdata * txSortedMap :=
  let c := match cache m with
           | Some c => c
           | None => merge_sort by_nonce (map_to_list (items m)).*2
           end in
  (c, mk_sorted (items m) (index m) (Some c)).

(** ** txList *)

Record txList := mk_list { strict : bool; txs : txSortedMap; costcap : Z; gascap : Z }.

Definition newTxList (strict : bool) : txList := mk_list strict newTxSortedMap 0 0.

(** [tx.Cost()]: the gas price times the gas limit, plus the value. *)
Definition Cost (tx : txdata) : Z := Price tx * GasLimit tx + Amount tx.

Definition Overlaps (l : txList) (tx : txdata) : bool :=
  bool_decide (is_Some (Get (txs l) (AccountNonce tx))).

Definition Add (l : txList) (tx : txdata) (priceBump : Z) : bool * option txdata * txList :=
  let old := Get (txs l) (AccountNonce tx) in
  let refused :=
    match old with
    | Some old =>
        let threshold := (Price old * i64 (100 + i64 priceBump)) / 100 in
        (Price tx <=? Price old) || (Price tx <? threshold)
    | None => false
    end in
  if refused then (false, None, l)
  else
    (true, old,
     mk_list (strict l) (Put (txs l) tx)
       (if costcap l <? Cost tx then Cost tx else costcap l)
       (if gascap l <? GasLimit tx then GasLimit tx else gascap l)).

Definition set_txs (l : txList) (m : txSortedMap) : txList :=
  mk_list (strict l) m (costcap l) (gascap l).

Definition list_Forward (l : txList) (threshold : Z) : option (list txdata * txList) :=
  '(removed, m) ← Forward (txs l) threshold; Some (removed, set_txs l m).

Definition lowest_nonce (removed : list txdata) : Z :=
  foldl (λ lowest tx, if AccountNonce tx <? lowest then AccountNonce tx else lowest) max_u64 removed.

Definition list_Filter (l : txList) (costLimit gasLimit : Z)
    : list txdata * list txdata * txList :=
  if (costcap l <=? costLimit) && (gascap l <=? gasLimit) then ([], [], l)
  else
    let '(removed, m) :=
      Filter (txs l) (λ tx, (costLimit <? Cost tx) || (gasLimit <? GasLimit tx)) in
    let '(invalids, m) :=
      match removed with
      | _ :: _ =>
          if strict l then Filter m (λ tx, lowest_nonce removed <? AccountNonce tx) else ([], m)
      | [] => ([], m)
      end in
    (removed, invalids, mk_list (strict l) m costLimit gasLimit).

Definition list_Cap (l : txList) (threshold : nat) : option (list txdata * txList) :=
  '(drops, m) ← Cap (txs l) threshold; Some (drops, set_txs l m).

Definition list_Remove (l : txList) (tx : txdata) : option (bool * list txdata * txList) :=
  let nonce := AccountNonce tx in
  '(removed, m) ← Remove (txs l) nonce;
  if negb removed then Some (false, [], set_txs l m)
  else if strict l then
    let '(invalids, m) := Filter m (λ tx, nonce <? AccountNonce tx) in
    Some (true, invalids, set_txs l m)
  else Some (true, [], set_txs l m).

Definition list_Ready (l : txList) (start : Z) : option (list txdata * txList) :=
  '(ready, m) ← Ready (txs l) start; Some (ready, set_txs l m).

Definition list_Len (l : txList) : nat := Len (txs l).

Definition Empty (l : txList) : bool := (list_Len l =? 0)%nat.

Definition list_Flatten (l : txList) : list txdata * txList :=
  let '(c, m) := Flatten (txs l) in (c, set_txs l m).

End TxList.
