(* ===== verification/TxListProofs.v ===== *)
(** * TxListProofs: the sorted map is what it says (core/tx_list.go)

    The abstract content of a [txSortedMap] is its finite map of nonces; its
    sorted view is [sorted_txs]. Every operation of the heap-indexed map is
    characterised by that view and keeps the invariant [wf]: the heap holds
    exactly the nonces of the map, and a cache is the sorted view. *)

From stdpp Require Import base gmap list sorting.
From Stdlib Require Import ZArith Lia.
From S2P Require Import Prelude GoHeap Types TxList.

Local Open Scope Z_scope.

Module TxListProofs.
Import Types TxList.

Abbreviation txmap := (gmap Z txdata).

Lemma omap_ext_elem {A B} (f g : A → option B) (l : list A) :
  (∀ x, x ∈ l → f x = g x) → omap f l = omap g l.
Proof.
  induction l as [|x l IH]; [done|]. intros H. cbn. rewrite H by left.
  rewrite IH; [done|]. intros y Hy. apply H. by right.
Qed.

Lemma omap_reverse {A B} (f : A → option B) (l : list A) :
  omap f (reverse l) = reverse (omap f l).
Proof.
  induction l as [|x l IH]; [done|]. rewrite reverse_cons, omap_app, IH. cbn.
  destruct (f x); [symmetry; apply reverse_cons|by rewrite app_nil_r].
Qed.

Lemma StronglySorted_seqZ lo len : StronglySorted Z.le (seqZ lo len).
Proof.
  destruct (decide (0 <= len)) as [Hlen|]; [|rewrite seqZ_nil by lia; constructor].
  revert lo. pattern len. apply natlike_ind; [| |done]; [intros; constructor|].
  intros n Hn IH lo. rewrite seqZ_cons by lia. constructor; [rewrite Z.pred_succ; apply IH|].
  apply Forall_forall. intros k Hk%elem_of_seqZ. lia.
Qed.

(** ** The sorted view of a map *)

Definition nonces (its : txmap) : list Z := merge_sort Z.le (map_to_list its).*1.
Definition sorted_txs (its : txmap) : list txdata := omap (its !!.) (nonces its).

(** Every transaction is filed under its own nonce. *)
Definition keyed (its : txmap) : Prop :=
  ∀ n tx, its !! n = Some tx → AccountNonce tx = n ∧ is_u64 n.

Lemma nonces_Permutation its : nonces its ≡ₚ (map_to_list its).*1.
Proof. apply merge_sort_Permutation. Qed.

Lemma NoDup_nonces its : NoDup (nonces its).
Proof. rewrite nonces_Permutation. apply NoDup_fst_map_to_list. Qed.

Lemma elem_of_nonces its n : n ∈ nonces its ↔ is_Some (its !! n).
Proof.
  rewrite nonces_Permutation, list_elem_of_fmap. split.
  - intros ([k tx] & -> & H%elem_of_map_to_list). eauto.
  - intros [tx H%elem_of_map_to_list]. by exists (n, tx).
Qed.

Lemma length_nonces its : length (nonces its) = size its.
Proof. by rewrite nonces_Permutation, length_fmap, length_map_to_list. Qed.

(** A strictly sorted list of the nonces is the sorted list of the nonces. *)
Lemma nonces_unique its l : Sorted Z.le l → l ≡ₚ (map_to_list its).*1 → l = nonces its.
Proof.
  intros Hs Hp. apply (Sorted_unique Z.le); [done|apply Sorted_merge_sort, _|].
  by rewrite nonces_Permutation.
Qed.

Lemma Sorted_nonces its : StronglySorted Z.le (nonces its).
Proof. apply StronglySorted_merge_sort; apply _. Qed.

Lemma nonces_empty : nonces ∅ = [].
Proof. done. Qed.

(** The first nonce. *)
Lemma nonces_min its n tx :
  its !! n = Some tx → (∀ k, is_Some (its !! k) → n <= k) →
  nonces its = n :: nonces (delete n its).
Proof.
  intros Hn Hmin. symmetry. apply nonces_unique.
  - apply StronglySorted_Sorted. constructor; [apply Sorted_nonces|].
    apply Forall_forall. intros k Hk%elem_of_nonces. apply Hmin.
    destruct Hk as [t [_ Ht]%lookup_delete_Some]. eauto.
  - rewrite nonces_Permutation.
    by rewrite <- (map_to_list_delete its n tx Hn).
Qed.

Lemma sorted_txs_min its n tx :
  its !! n = Some tx → (∀ k, is_Some (its !! k) → n <= k) →
  sorted_txs its = tx :: sorted_txs (delete n its).
Proof.
  intros Hn Hmin. unfold sorted_txs. rewrite (nonces_min its n tx) by done.
  cbn. rewrite Hn. f_equal.
  apply omap_ext_elem. intros k [t Ht]%elem_of_nonces. rewrite Ht.
  by apply lookup_delete_Some in Ht as [_ ->].
Qed.

Lemma sorted_txs_empty : sorted_txs ∅ = [].
Proof. done. Qed.

(** The map splits at a threshold. *)
Lemma sorted_txs_split (P : Z → Prop) `{!∀ n, Decision (P n)} its :
  (∀ a b, P b → a <= b → P a) →
  sorted_txs its =
  sorted_txs (filter (λ kv, P kv.1) its) ++ sorted_txs (filter (λ kv, ¬ P kv.1) its).
Proof.
  intros Hdown.
  assert (E : nonces its = nonces (filter (λ kv, P kv.1) its) ++ nonces (filter (λ kv, ¬ P kv.1) its)).
  { symmetry. apply nonces_unique.
    - apply StronglySorted_Sorted, StronglySorted_app_2; auto using Sorted_nonces.
      intros a b [ta [_ Ha]%map_lookup_filter_Some]%elem_of_nonces
        [tb [_ Hb]%map_lookup_filter_Some]%elem_of_nonces. cbn in *.
      destruct (decide (a <= b)); [done|]. exfalso. apply Hb, (Hdown b a); [done|lia].
    - apply NoDup_Permutation.
      + apply NoDup_app. split_and!; [apply NoDup_nonces| |apply NoDup_nonces].
        intros n [t [_ Ht]%map_lookup_filter_Some]%elem_of_nonces
          [t' [_ Ht']%map_lookup_filter_Some]%elem_of_nonces. by apply Ht'.
      + apply NoDup_fst_map_to_list.
      + intros n. rewrite <- nonces_Permutation, elem_of_app, !elem_of_nonces.
        unfold is_Some. setoid_rewrite map_lookup_filter_Some. cbn.
        destruct (decide (P n)); naive_solver. }
  unfold sorted_txs. rewrite E, omap_app. f_equal;
    apply omap_ext_elem; intros n [t Ht]%elem_of_nonces; rewrite Ht;
    by apply map_lookup_filter_Some in Ht as [-> _].
Qed.

Lemma elem_of_sorted_txs its tx : tx ∈ sorted_txs its ↔ ∃ n, its !! n = Some tx.
Proof.
  unfold sorted_txs. rewrite list_elem_of_omap. split.
  - intros (n & _ & H). eauto.
  - intros [n H]. exists n. rewrite elem_of_nonces. eauto.
Qed.

Lemma sorted_txs_keyed its : keyed its → AccountNonce <$> sorted_txs its = nonces its.
Proof.
  intros Hk. unfold sorted_txs.
  assert (H : ∀ n, n ∈ nonces its → is_Some (its !! n)) by (intros n; apply elem_of_nonces).
  induction (nonces its) as [|n l IH]; [done|]. cbn.
  destruct (H n ltac:(left)) as [tx Htx]. rewrite Htx. cbn.
  destruct (Hk _ _ Htx) as [-> _]. f_equal. apply IH. intros k Hkl. apply H. by right.
Qed.

Lemma length_sorted_txs its : keyed its → length (sorted_txs its) = size its.
Proof.
  intros Hk. by rewrite <- length_nonces, <- (sorted_txs_keyed its Hk), length_fmap.
Qed.

(** The cache is filled with the sorted view. *)
Lemma merge_sort_sorted_txs its :
  keyed its → merge_sort by_nonce (map_to_list its).*2 = sorted_txs its.
Proof.
  intros Hk. set (l := merge_sort _ _).
  assert (Hp : l ≡ₚ (map_to_list its).*2) by apply merge_sort_Permutation.
  assert (Hel : ∀ tx, tx ∈ l → its !! AccountNonce tx = Some tx).
  { intros tx. rewrite Hp, list_elem_of_fmap. intros ([n t] & -> & H%elem_of_map_to_list).
    cbn. by destruct (Hk _ _ H) as [-> _]. }
  assert (Hn : AccountNonce <$> l = nonces its).
  { apply nonces_unique.
    - assert (Hs : Sorted by_nonce l).
      { apply Sorted_merge_sort. intros t1 t2. unfold by_nonce. lia. }
      clear -Hs. induction Hs as [|t l Hs IH Hd]; cbn; constructor; [done|].
      destruct Hd; cbn; constructor. done.
    - rewrite Hp, <- !list_fmap_compose. apply Permutation_refl'.
      apply list_fmap_ext. intros i [n t] Hi%list_elem_of_lookup_2%elem_of_map_to_list.
      cbn. by destruct (Hk _ _ Hi). }
  unfold sorted_txs. rewrite <- Hn. clear Hn Hp.
  induction l as [|t l' IH]; [done|]. cbn. rewrite (Hel t) by left. f_equal.
  apply IH. intros t' Ht'. apply Hel. by right.
Qed.

(** ** The invariant *)

Definition heap_of (idx : list Z) (its : txmap) : Prop :=
  GoHeap.is_heap nonce_less idx ∧ idx ≡ₚ (map_to_list its).*1.

Record wf (m : txSortedMap) : Prop := {
  wf_heap : heap_of (index m) (items m);
  wf_keyed : keyed (items m);
  wf_cache : ∀ c, cache m = Some c → c = sorted_txs (items m);
}.

Lemma heap_of_elem idx its n : heap_of idx its → n ∈ idx ↔ is_Some (its !! n).
Proof. intros [_ Hp]. by rewrite Hp, <- nonces_Permutation, elem_of_nonces. Qed.

Lemma heap_of_delete idx idx' its n tx :
  heap_of idx its → its !! n = Some tx → GoHeap.is_heap nonce_less idx' → n :: idx' ≡ₚ idx →
  heap_of idx' (delete n its).
Proof.
  intros [_ Hp] Hn Hh Hp'. split; [done|]. apply (Permutation_cons_inv (a := n)).
  by rewrite Hp', Hp, <- (map_to_list_delete its n tx Hn).
Qed.

Lemma heap_of_length idx its : heap_of idx its → length idx = size its.
Proof. intros [_ Hp]. by rewrite Hp, length_fmap, length_map_to_list. Qed.

(** The root of the index is the least nonce, and popping it removes it. *)
Lemma heap_of_pop idx its top :
  heap_of idx its → idx !! 0%nat = Some top →
  ∃ tx idx', GoHeap.Pop nonce_less idx = Some (top, idx') ∧ its !! top = Some tx ∧
    (∀ k, is_Some (its !! k) → top <= k) ∧ heap_of idx' (delete top its) ∧
    length idx = S (length idx').
Proof.
  intros Hi Htop. destruct (GoHeap.Pop_spec nonce_less idx) as (x & idx' & HP & Hx & Hh & Hp & Hmin).
  { apply Hi. } { by destruct idx. }
  simplify_eq. assert (Hin : top ∈ idx) by by eapply list_elem_of_lookup_2.
  pose proof Hin as [tx Htx]%(heap_of_elem _ _ _ Hi). exists tx, idx'. split_and!; try done.
  - intros k Hk%(heap_of_elem _ _ _ Hi). specialize (Hmin k Hk). apply Z.ltb_ge in Hmin. done.
  - by eapply heap_of_delete.
  - by rewrite <- Hp.
Qed.

Lemma keyed_delete its n : keyed its → keyed (delete n its).
Proof. intros Hk k tx [_ H]%lookup_delete_Some. by apply Hk. Qed.

Lemma keyed_filter (P : Z * txdata → Prop) `{Hdec : !∀ kv, Decision (P kv)} its :
  keyed its → keyed (filter P its).
Proof. intros Hk k tx [H _]%map_lookup_filter_Some. by apply Hk. Qed.

#[export] Hint Resolve keyed_delete keyed_filter : go.

Definition below (t : Z) (its : txmap) : txmap := filter (λ kv, kv.1 < t) its.
Definition from (t : Z) (its : txmap) : txmap := filter (λ kv, ¬ kv.1 < t) its.

Lemma sorted_txs_below_from t its :
  sorted_txs its = sorted_txs (below t its) ++ sorted_txs (from t its).
Proof.
  unfold below, from. rewrite (sorted_txs_split (λ n, n < t) its) by (intros; lia). done.
Qed.

Lemma below_none t its : (∀ k, is_Some (its !! k) → t <= k) → below t its = ∅ ∧ from t its = its.
Proof.
  intros H. split.
  - apply map_empty. intros k. apply map_lookup_filter_None. right.
    intros tx Hk. specialize (H k ltac:(eauto)). cbn. lia.
  - apply map_filter_id. intros k tx Hk. specialize (H k ltac:(eauto)). cbn. lia.
Qed.

Lemma below_cons t its n tx :
  its !! n = Some tx → n < t → (∀ k, is_Some (its !! k) → n <= k) →
  sorted_txs (below t its) = tx :: sorted_txs (below t (delete n its)) ∧
  from t (delete n its) = from t its.
Proof.
  intros Hn Hlt Hmin. unfold below, from. rewrite map_filter_delete. split.
  - apply sorted_txs_min.
    + by apply map_lookup_filter_Some.
    + intros k [t' [Ht' _]%map_lookup_filter_Some]. eauto.
  - rewrite map_filter_delete. apply delete_id, map_lookup_filter_None. right.
    intros t' Ht'. simplify_eq. cbn. lia.
Qed.

(** *** Forward *)

Lemma forward_loop_spec fuel t its idx :
  heap_of idx its → (length idx <= fuel)%nat →
  ∃ idx', forward_loop fuel t its idx = Some (sorted_txs (below t its), from t its, idx') ∧
    heap_of idx' (from t its).
Proof.
  revert its idx. induction fuel as [|fuel IH]; intros its idx Hi Hlen; cbn [forward_loop].
  { pose proof (heap_of_length _ _ Hi) as E. assert (its = ∅) as -> by (apply map_size_empty_inv; lia).
    eauto. }
  destruct (idx !! 0%nat) as [top|] eqn:Htop.
  - destruct (heap_of_pop _ _ _ Hi Htop) as (tx & idx' & HP & Htx & Hmin & Hi' & Hl).
    destruct (Z.ltb_spec top t).
    + rewrite HP. cbn. rewrite Htx. cbn.
      destruct (IH _ _ Hi' ltac:(lia)) as (idx'' & -> & Hi''). cbn.
      destruct (below_cons t its top tx) as [-> Hf]; try done.
      rewrite Hf in *. eauto.
    + destruct (below_none t its) as [-> ->]; [|eauto].
      intros k Hk. specialize (Hmin k Hk). lia.
  - assert (its = ∅) as ->; [|eauto].
    apply map_size_empty_inv. rewrite <- (heap_of_length _ _ Hi).
    destruct idx; [done|discriminate].
Qed.

Lemma Forward_wf m t :
  wf m → ∃ m', Forward m t = Some (sorted_txs (below t (items m)), m') ∧
    items m' = from t (items m) ∧ wf m'.
Proof.
  intros [Hh Hk Hc]. unfold Forward.
  destruct (forward_loop_spec (length (index m)) t _ _ Hh ltac:(lia)) as (idx' & -> & Hi'). cbn.
  eexists. split_and!; [done|done|]. split; cbn; [done|by apply keyed_filter|].
  intros c. destruct (cache m) as [c'|]; [|done]. cbn. intros [= <-].
  rewrite (Hc c' eq_refl), (sorted_txs_below_from t (items m)). by rewrite drop_app_length.
Qed.

(** *** Filter *)

Lemma Filter_wf m f :
  wf m →
  (Filter m f).1 ≡ₚ sorted_txs (filter (λ kv, f kv.2 = true) (items m)) ∧
  items (Filter m f).2 = filter (λ kv, f kv.2 = false) (items m) ∧
  wf (Filter m f).2.
Proof.
  intros [Hh Hk Hc]. unfold Filter.
  set (yes := filter (λ kv, f kv.2 = true) (items m)).
  set (no := filter (λ kv, f kv.2 = false) (items m)).
  assert (Hp : (map_to_list yes).*2 ≡ₚ sorted_txs yes).
  { rewrite <- merge_sort_sorted_txs by by apply keyed_filter. by rewrite merge_sort_Permutation. }
  destruct ((map_to_list yes).*2) as [|t l] eqn:E; cbn.
  - split_and!; [done|done|].
    assert (Hno : no = items m).
    { apply map_filter_id. intros k tx Hkx. cbn. destruct (f tx) eqn:Ef; [|done].
      assert (Hin : tx ∈ (map_to_list yes).*2); [|rewrite E in Hin; by apply elem_of_nil in Hin].
      apply list_elem_of_fmap. exists (k, tx). split; [done|].
      apply elem_of_map_to_list, map_lookup_filter_Some. done. }
    rewrite Hno. split; done.
  - split_and!; [done|done|]. split; cbn; [|by apply keyed_filter|done].
    split; [apply GoHeap.Init_heap, _|apply GoHeap.Init_Permutation].
Qed.

(** *** Remove *)

Lemma find_index_spec n idx : n ∈ idx → ∃ i, find_index n idx = Some i ∧ idx !! i = Some n.
Proof.
  induction idx as [|k idx IH]; [by intros ?%elem_of_nil|]. cbn.
  destruct (Z.eqb_spec k n) as [->|]; [eauto|]. intros [->|Hin]%elem_of_cons; [done|].
  destruct (IH Hin) as (i & -> & Hi). exists (S i). done.
Qed.

Lemma Remove_wf m n :
  wf m → ∃ m', Remove m n = Some (bool_decide (is_Some (items m !! n)), m') ∧
    items m' = delete n (items m) ∧ wf m'.
Proof.
  intros Hwf. pose proof Hwf as [Hh Hk Hc]. unfold Remove.
  destruct (items m !! n) as [tx|] eqn:Hn.
  - destruct (find_index_spec n (index m)) as (i & -> & Hi).
    { rewrite (heap_of_elem _ _ _ Hh), Hn. eauto. }
    destruct (GoHeap.Remove_spec nonce_less (index m) i n (proj1 Hh) Hi) as (idx' & -> & Hh' & Hp).
    cbn. eexists. split_and!; [done|done|]. split; cbn; [|by apply keyed_delete|done].
    by eapply heap_of_delete.
  - exists m. split_and!; [done| |done]. by rewrite delete_id.
Qed.

(** *** Put *)

Lemma Put_wf m tx :
  wf m → is_u64 (AccountNonce tx) →
  items (Put m tx) = <[AccountNonce tx := tx]> (items m) ∧ wf (Put m tx).
Proof.
  intros [Hh Hk Hc] Hu. split; [done|]. split; cbn [Put items index cache]; [| |done].
  - destruct Hh as [Hh Hp]. destruct (items m !! AccountNonce tx) as [old|] eqn:E; split; try done.
    + rewrite Hp. rewrite <- insert_delete_eq, map_to_list_insert by apply lookup_delete_eq.
      cbn. by rewrite <- (map_to_list_delete _ _ _ E).
    + by apply GoHeap.Push_heap; [apply _|].
    + rewrite GoHeap.Push_Permutation, map_to_list_insert by done. cbn. by f_equiv.
  - intros n t [[<- <-]|[_ H]]%lookup_insert_Some; [done|by apply Hk].
Qed.

(** *** Flatten *)

Lemma Flatten_wf m :
  wf m → (Flatten m).1 = sorted_txs (items m) ∧ items (Flatten m).2 = items m ∧ wf (Flatten m).2.
Proof.
  intros [Hh Hk Hc]. unfold Flatten.
  assert (E : match cache m with
              | Some c => c
              | None => merge_sort by_nonce (map_to_list (items m)).*2
              end = sorted_txs (items m)).
  { destruct (cache m) as [c|]; [by apply Hc|by apply merge_sort_sorted_txs]. }
  cbn. rewrite E. split_and!; [done|done|]. split; cbn; try done. congruence.
Qed.

(** *** Cap *)

(** The sorted view, cut by position. *)
Definition first_nonces (k : nat) (its : txmap) : txmap :=
  filter (λ kv, kv.1 ∈ take k (nonces its)) its.

Lemma nonces_cut k its n :
  n ∈ nonces its → n ∈ take k (nonces its) ↔ n ∉ drop k (nonces its).
Proof.
  intros Hn. pose proof (NoDup_nonces its) as Hnd.
  rewrite <- (take_drop k (nonces its)) in Hn, Hnd.
  apply NoDup_app in Hnd as (_ & Hdisj & _). apply elem_of_app in Hn. naive_solver.
Qed.

Lemma nonces_first k its : nonces (first_nonces k its) = take k (nonces its).
Proof.
  symmetry. pose proof (Sorted_nonces its) as Hs. pose proof (NoDup_nonces its) as Hnd.
  rewrite <- (take_drop k (nonces its)) in Hs, Hnd. apply NoDup_app in Hnd as (Hnd & _ & _).
  apply nonces_unique; [by eapply StronglySorted_Sorted, StronglySorted_app_1_l|].
  apply NoDup_Permutation; [done|apply NoDup_fst_map_to_list|].
  intros n. rewrite <- nonces_Permutation, elem_of_nonces. unfold is_Some, first_nonces.
  setoid_rewrite map_lookup_filter_Some. cbn. split.
  - intros Hn.
    assert (n ∈ nonces its) as [tx Htx]%elem_of_nonces; [|eauto].
    rewrite <- (take_drop k (nonces its)). apply elem_of_app. by left.
  - by intros (tx & _ & Hn).
Qed.

Lemma sorted_txs_first k its :
  keyed its →
  sorted_txs (first_nonces k its) = take k (sorted_txs its) ∧
  omap (its !!.) (drop k (nonces its)) = drop k (sorted_txs its).
Proof.
  intros Hk. set (l := nonces its).
  assert (Hl : sorted_txs (first_nonces k its) = omap (its !!.) (take k l)).
  { unfold sorted_txs. rewrite nonces_first. apply omap_ext_elem. intros n Hn.
    subst l. rewrite <- nonces_first, elem_of_nonces in Hn. destruct Hn as [t Ht]. rewrite Ht.
    by apply map_lookup_filter_Some in Ht as [-> _]. }
  assert (Hlen : length (sorted_txs (first_nonces k its)) = length (take k l)).
  { rewrite length_sorted_txs by by apply keyed_filter. by rewrite <- length_nonces, nonces_first. }
  assert (Hs : sorted_txs its = sorted_txs (first_nonces k its) ++ omap (its !!.) (drop k l)).
  { rewrite Hl, <- omap_app. subst l. by rewrite take_drop. }
  rewrite Hs. rewrite length_take in Hlen.
  destruct (decide (k <= length l)%nat).
  - rewrite take_app_length', drop_app_length' by lia. done.
  - rewrite (drop_ge l), !app_nil_r by lia. cbn.
    rewrite take_ge, drop_ge by lia. done.
Qed.

Lemma cap_loop_spec e k its idx :
  NoDup idx → (k + e <= length idx)%nat → (∀ n, n ∈ idx → is_Some (its !! n)) →
  cap_loop e k its idx =
  Some (omap (its !!.) (reverse (take e (drop k idx))),
        filter (λ kv, kv.1 ∉ take e (drop k idx)) its).
Proof.
  intros Hnd Hlen Hin. set (seg e := take e (drop k idx)). fold (seg e).
  assert (Hseg : ∀ e n, idx !! (k + e)%nat = Some n → seg (S e) = seg e ++ [n]).
  { intros e' n Hn. unfold seg. rewrite (take_S_r _ _ n); [done|]. by rewrite lookup_drop. }
  assert (Hgen : ∀ its', (∀ n, n ∈ seg e → its' !! n = its !! n) →
    cap_loop e k its' idx = Some (omap (its !!.) (reverse (seg e)), filter (λ kv, kv.1 ∉ seg e) its')).
  2: { by apply Hgen. }
  induction e as [|e IH]; intros its' Hits; cbn [cap_loop].
  { f_equal. f_equal. symmetry. apply map_filter_id. intros n tx _. apply not_elem_of_nil. }
  destruct (lookup_lt_is_Some_2 idx (k + e)%nat) as [n Hn]; [lia|]. rewrite Hn. cbn.
  rewrite (Hseg e n Hn) in *.
  destruct (Hin n) as [tx Htx]; [by eapply list_elem_of_lookup_2|].
  rewrite Hits, Htx by (apply elem_of_app; right; by left). cbn.
  assert (Hfresh : n ∉ seg e).
  { unfold seg. intros (i & Hi)%list_elem_of_lookup. apply lookup_take_Some in Hi as [Hi Hlt].
    rewrite lookup_drop in Hi. pose proof (NoDup_lookup idx _ _ _ Hnd Hi Hn). lia. }
  rewrite IH; [|lia|].
  2: { intros x Hx. rewrite lookup_delete_ne by by intros ->. apply Hits, elem_of_app. by left. }
  cbn. rewrite reverse_snoc. cbn. rewrite Htx. f_equal. f_equal.
  apply map_eq. intros x. rewrite !map_lookup_filter.
  destruct (decide (x = n)) as [->|].
  - rewrite lookup_delete_eq. cbn. destruct (its' !! n); [|done]. cbn.
    rewrite option_guard_False; [done|]. intros H. apply H, elem_of_app. right. by left.
  - rewrite lookup_delete_ne by done. destruct (its' !! x); [|done]. cbn.
    apply option_guard_iff. set_solver.
Qed.

Lemma Cap_wf m k :
  wf m → ∃ m', Cap m k = Some (reverse (drop k (sorted_txs (items m))), m') ∧
    items m' = first_nonces k (items m) ∧ wf m'.
Proof.
  intros Hwf. pose proof Hwf as [Hh Hk Hc]. unfold Cap.
  pose proof (length_sorted_txs _ Hk) as Hsize.
  destruct (sorted_txs_first k (items m) Hk) as [Hfirst Hdrop].
  destruct (Nat.leb_spec (size (items m)) k).
  { exists m. rewrite drop_ge by lia. split_and!; [done| |done]. symmetry.
    apply map_filter_id. intros n tx Hn. cbn. rewrite take_ge by (rewrite length_nonces; lia).
    apply elem_of_nonces. eauto. }
  assert (Hidx : merge_sort Z.le (index m) = nonces (items m)).
  { apply nonces_unique; [apply Sorted_merge_sort, _|]. by rewrite merge_sort_Permutation, (proj2 Hh). }
  rewrite Hidx, cap_loop_spec; [|apply NoDup_nonces|rewrite length_nonces; lia|].
  2: { intros n. apply elem_of_nonces. }
  rewrite (take_ge (drop k _)) by (rewrite length_drop, length_nonces; lia).
  assert (Hcut : filter (λ kv, kv.1 ∉ drop k (nonces (items m))) (items m) = first_nonces k (items m)).
  { apply map_filter_ext. intros n tx Hn. cbn. symmetry. apply nonces_cut, elem_of_nonces. eauto. }
  rewrite omap_reverse, Hdrop. cbn. eexists. split_and!; [done| |].
  - by rewrite <- Hcut.
  - split; cbn; [|by apply keyed_filter|].
    + rewrite Hcut, <- nonces_first. split; [apply GoHeap.Init_heap, _|].
      by rewrite GoHeap.Init_Permutation, nonces_Permutation.
    + intros c. destruct (cache m) as [c'|]; [|done]. cbn. intros [= <-].
      rewrite (Hc c' eq_refl), length_reverse, length_drop, Hcut, Hfirst. f_equal. lia.
Qed.

(** *** Ready *)

(** The run of consecutive nonces that starts at [lo]. *)
Record run (its : txmap) (lo len : Z) : Prop := {
  run_len : 0 <= len;
  run_all : ∀ k, lo <= k < lo + len → is_Some (its !! k);
  run_end : its !! (lo + len) = None;
}.

Lemma ready_loop_spec fuel n its idx :
  heap_of idx its → keyed its → (length idx <= fuel)%nat → 0 <= n →
  (∀ k, is_Some (its !! k) → n <= k) →
  ∃ len idx', run its n len ∧
    ready_loop fuel (u64 n) its idx = Some (sorted_txs (below (n + len) its), from (n + len) its, idx') ∧
    heap_of idx' (from (n + len) its).
Proof.
  revert n its idx. induction fuel as [|fuel IH]; intros n its idx Hi Hk Hlen Hn0 Hmin; cbn [ready_loop].
  { pose proof (heap_of_length _ _ Hi) as E. assert (its = ∅) as -> by (apply map_size_empty_inv; lia).
    exists 0, idx. split_and!; [|done|done]. split; [lia|intros; lia|done]. }
  destruct (idx !! 0%nat) as [top|] eqn:Htop.
  2: { assert (its = ∅) as ->.
       { apply map_size_empty_inv. rewrite <- (heap_of_length _ _ Hi). by destruct idx. }
       exists 0, idx. split_and!; [|done|done]. split; [lia|intros; lia|done]. }
  destruct (heap_of_pop _ _ _ Hi Htop) as (tx & idx' & HP & Htx & Hleast & Hi' & Hl).
  assert (Hu : n < two64) by (destruct (Hk _ _ Htx) as [_ [? ?]]; specialize (Hmin top ltac:(eauto)); lia).
  rewrite (u64_small n) by (split; lia). destruct (Z.eqb_spec top n) as [->|Hne].
  - rewrite Htx, HP. cbn.
    destruct (IH (n + 1) (delete n its) idx') as (len & idx'' & [H0 Hall Hend] & -> & Hi''); auto with go.
    { lia. } { lia. }
    { intros k [t [Hne Ht]%lookup_delete_Some]. specialize (Hmin k ltac:(eauto)). lia. }
    cbn. destruct (below_cons (n + 1 + len) its n tx) as [Hb Hf]; auto; [lia|].
    replace (n + 1 + len) with (n + (len + 1)) in * by lia.
    exists (len + 1), idx''. rewrite Hb, <- Hf. split_and!; [|done|done].
    split; [lia| |].
    + intros k Hkr. destruct (decide (k = n)) as [->|]; [eauto|].
      destruct (Hall k ltac:(lia)) as [t [_ Ht]%lookup_delete_Some]. eauto.
    + by rewrite lookup_delete_ne in Hend by lia.
  - assert (Hn : its !! n = None).
    { destruct (its !! n) eqn:E; [|done]. specialize (Hleast n ltac:(eauto)).
      specialize (Hmin top ltac:(eauto)). lia. }
    exists 0, idx. rewrite Z.add_0_r. destruct (below_none n its) as [-> ->]; [done|].
    split_and!; [|done|done]. split; [lia|intros; lia|by rewrite Z.add_0_r].
Qed.

Lemma Ready_wf m start :
  wf m →
  (Ready m start = Some ([], m) ∧ ∀ k, is_Some (items m !! k) → start < k) ∨
  ∃ lo len m', is_Some (items m !! lo) ∧ lo <= start ∧ (∀ k, is_Some (items m !! k) → lo <= k) ∧
    run (items m) lo len ∧
    Ready m start = Some (sorted_txs (below (lo + len) (items m)), m') ∧
    items m' = from (lo + len) (items m) ∧ wf m'.
Proof.
  intros Hwf. pose proof Hwf as [Hh Hk Hc]. unfold Ready.
  destruct (index m !! 0%nat) as [top|] eqn:Htop.
  2: { left. split; [done|]. intros k Hks. apply (heap_of_elem _ _ _ Hh) in Hks.
       destruct (index m); [by apply elem_of_nil in Hks|done]. }
  destruct (heap_of_pop _ _ _ Hh Htop) as (tx & idx' & _ & Htx & Hleast & _ & _).
  destruct (Z.ltb_spec start top).
  { left. split; [done|]. intros k Hks. specialize (Hleast k Hks). lia. }
  right. destruct (Hk _ _ Htx) as [_ Hu].
  destruct (ready_loop_spec (length (index m)) top (items m) (index m))
    as (len & idx'' & Hrun & Heq & Hi'); auto; [destruct Hu; lia|].
  rewrite u64_small in Heq by done. rewrite Heq. cbn.
  exists top, len. eexists. split_and!; eauto.
  split; cbn; [done|by apply keyed_filter|done].
Qed.

(** ** Account lists *)

(** The caps bound the cost and gas of every transaction of the list. *)
Record list_wf (l : txList) : Prop := {
  lw_map : wf (txs l);
  lw_caps : ∀ n tx, items (txs l) !! n = Some tx → Cost tx <= costcap l ∧ GasLimit tx <= gascap l;
}.

Lemma list_wf_sub l m' :
  list_wf l → wf m' → items m' ⊆ items (txs l) → list_wf (set_txs l m').
Proof.
  intros [_ Hcap] Hw Hsub. split; cbn; [done|]. intros n tx H. eapply Hcap, lookup_weaken; eauto.
Qed.

Lemma newTxList_wf b : list_wf (newTxList b).
Proof. split; [split|]; cbn; done. Qed.

Lemma Add_wf l tx bump :
  list_wf l → is_u64 (AccountNonce tx) → list_wf (Add l tx bump).2.
Proof.
  intros [Hw Hcap] Hu. unfold Add. case_match; [done|]. cbn.
  destruct (Put_wf (txs l) tx Hw Hu) as [Hit Hw']. split; cbn; [done|].
  intros n t [[_ <-]|[_ H']]%lookup_insert_Some.
  - destruct (Z.ltb_spec (costcap l) (Cost tx)), (Z.ltb_spec (gascap l) (GasLimit tx)); lia.
  - destruct (Hcap n t H'), (Z.ltb_spec (costcap l) (Cost tx)), (Z.ltb_spec (gascap l) (GasLimit tx)); lia.
Qed.

Lemma lowest_nonce_spec removed tx : tx ∈ removed → lowest_nonce removed <= AccountNonce tx.
Proof.
  unfold lowest_nonce. generalize max_u64. induction removed as [|t l IH]; intros x Hin.
  { by apply elem_of_nil in Hin. }
  assert (Hle : ∀ l y, foldl (λ lowest t, if AccountNonce t <? lowest then AccountNonce t else lowest) y l <= y).
  { clear. induction l as [|t l IH]; intros y; cbn; [lia|].
    destruct (Z.ltb_spec (AccountNonce t) y); [specialize (IH (AccountNonce t))|specialize (IH y)]; lia. }
  cbn. apply elem_of_cons in Hin as [->|Hin]; [|by apply IH].
  destruct (Z.ltb_spec (AccountNonce t) x); [apply Hle|]. specialize (Hle l x). lia.
Qed.

(** ** Claims *)

(** One call of a method of the map. *)
Inductive op :=
  | OpPut (tx : txdata) | OpForward (threshold : Z) | OpFilter (f : txdata → bool)
  | OpCap (threshold : nat) | OpRemove (nonce : Z) | OpReady (start : Z) | OpFlatten.

Definition apply_op (m : txSortedMap) (o : op) : option txSortedMap :=
  match o with
  | OpPut tx => Some (Put m tx)
  | OpForward t => snd <$> Forward m t
  | OpFilter f => Some (Filter m f).2
  | OpCap k => snd <$> Cap m k
  | OpRemove n => snd <$> Remove m n
  | OpReady s => snd <$> Ready m s
  | OpFlatten => Some (Flatten m).2
  end.

Definition op_ok (o : op) : Prop :=
  match o with OpPut tx => is_u64 (AccountNonce tx) | _ => True end.

Definition run_ops (m : txSortedMap) (os : list op) : option txSortedMap :=
  foldl (λ m o, m ≫= λ m, apply_op m o) (Some m) os.

Lemma apply_op_wf m o : wf m → op_ok o → ∃ m', apply_op m o = Some m' ∧ wf m'.
Proof.
  intros Hwf Ho. destruct o as [tx|t|f|k|n|s|]; cbn in *.
  - eexists. split; [done|]. by apply Put_wf.
  - destruct (Forward_wf m t Hwf) as (m' & -> & _ & ?). eauto.
  - eexists. split; [done|]. by apply Filter_wf.
  - destruct (Cap_wf m k Hwf) as (m' & -> & _ & ?). eauto.
  - destruct (Remove_wf m n Hwf) as (m' & -> & _ & ?). eauto.
  - destruct (Ready_wf m s Hwf) as [[-> _]|(lo & len & m' & _ & _ & _ & _ & -> & _ & ?)]; eauto.
  - eexists. split; [done|]. by apply Flatten_wf.
Qed.

Lemma run_ops_wf m os : wf m → Forall op_ok os → ∃ m', run_ops m os = Some m' ∧ wf m'.
Proof.
  unfold run_ops. revert m. induction os as [|o os IH]; intros m Hm Hos; [by exists m|].
  apply Forall_cons in Hos as [Ho Hos]. destruct (apply_op_wf m o Hm Ho) as (m' & E & Hm').
  cbn. rewrite E. by apply IH.
Qed.

(** C32: Whatever methods are called on a fresh map, none of them panics, the heap
    of nonces stays a heap of exactly the stored nonces, and [Flatten]
    returns the stored transactions once each, in ascending nonce order. *)
Theorem sorted_map_coherent os :
  Forall op_ok os →
  ∃ m, run_ops newTxSortedMap os = Some m ∧
    GoHeap.is_heap nonce_less (index m) ∧ index m ≡ₚ (map_to_list (items m)).*1 ∧
    StronglySorted Z.lt (AccountNonce <$> (Flatten m).1) ∧
    (∀ tx, tx ∈ (Flatten m).1 ↔ items m !! AccountNonce tx = Some tx).
Proof.
  intros Hos. destruct (run_ops_wf newTxSortedMap os) as (m & E & Hwf); [by split|done|].
  exists m. pose proof Hwf as [[Hh Hp] Hk _].
  destruct (Flatten_wf m Hwf) as (-> & _). rewrite sorted_txs_keyed by done.
  split_and!; auto.
  - pose proof (Sorted_nonces (items m)) as Hs. pose proof (NoDup_nonces (items m)) as Hnd.
    induction Hs as [|n l Hs IH Hall]; constructor; apply NoDup_cons in Hnd as [Hn Hnd]; auto.
    apply Forall_forall. intros k Hkl. rewrite Forall_forall in Hall. specialize (Hall k Hkl).
    destruct (decide (n = k)) as [->|]; [done|lia].
  - intros tx. rewrite elem_of_sorted_txs. split; [|eauto].
    intros [n Hn]. by destruct (Hk _ _ Hn) as [-> _].
Qed.

(** A transaction with a nonce and a gas price, for examples. *)
Definition tx_at (nonce price : Z) : txdata :=
  newTransaction nonce None None 21000 (Some price) [] 0
    [] [] [] [] [] [] [] [] [] [] [] [] [] [] [] [] [] [] [] [] [] [] [] [] [] [] [] [] [] []
    [] [] [] [] [] [] [] [] [] [] [] [] [] [] [] [] [] [] [] [] [] [] [] [] [] [] [].

Definition demo_ops : list op :=
  [OpPut (tx_at 5 1); OpPut (tx_at 2 1); OpPut (tx_at 9 1); OpFlatten; OpPut (tx_at 3 1);
   OpForward 3; OpCap 2; OpRemove 9].

Lemma sorted_map_coherent_witness :
  ∃ m, run_ops newTxSortedMap demo_ops = Some m ∧
    GoHeap.is_heap nonce_less (index m) ∧ index m ≡ₚ (map_to_list (items m)).*1 ∧
    StronglySorted Z.lt (AccountNonce <$> (Flatten m).1) ∧
    (∀ tx, tx ∈ (Flatten m).1 ↔ items m !! AccountNonce tx = Some tx).
Proof. apply sorted_map_coherent. repeat constructor; cbn; done. Defined.

(** [Ready] returns nothing when every nonce is above [start]; otherwise the
    maximal run of consecutive nonces from the lowest one, ascending, and
    leaves the rest. *)
Theorem Ready_maximal_run m start :
  wf m →
  ∃ ready m', Ready m start = Some (ready, m') ∧ wf m' ∧
    ((ready = [] ∧ m' = m ∧ ∀ k, is_Some (items m !! k) → start < k) ∨
     ∃ lo len, is_Some (items m !! lo) ∧ lo <= start ∧ (∀ k, is_Some (items m !! k) → lo <= k) ∧
       run (items m) lo len ∧
       AccountNonce <$> ready = seqZ lo len ∧
       items m' = filter (λ kv, ¬ kv.1 < lo + len) (items m)).
Proof.
  intros Hwf.
  destruct (Ready_wf m start Hwf) as [[E H]|(lo & len & m' & Hlo & Hs & Hmin & Hrun & E & Hi & Hm')].
  { exists [], m. eauto 10. }
  do 2 eexists. split_and!; [exact E|exact Hm'|]. right. exists lo, len. split_and!; auto.
  rewrite sorted_txs_keyed by apply keyed_filter, Hwf. symmetry. apply nonces_unique.
  - apply StronglySorted_Sorted, StronglySorted_seqZ.
  - rewrite <- nonces_Permutation. apply NoDup_Permutation; [apply NoDup_seqZ|apply NoDup_nonces|].
    intros n. rewrite elem_of_seqZ, elem_of_nonces. unfold is_Some, below.
    setoid_rewrite map_lookup_filter_Some. cbn. split.
    + intros Hn. destruct (run_all _ _ _ Hrun n Hn) as [t Ht]. exists t. split; [done|lia].
    + intros (t & Ht & Hlt). specialize (Hmin n ltac:(eauto)). lia.
Qed.

Definition demo_map : txSortedMap := default newTxSortedMap (run_ops newTxSortedMap
  [OpPut (tx_at 5 1); OpPut (tx_at 3 1); OpPut (tx_at 4 1); OpPut (tx_at 7 1)]).

Lemma demo_map_wf : wf demo_map.
Proof.
  destruct (run_ops_wf newTxSortedMap [OpPut (tx_at 5 1); OpPut (tx_at 3 1); OpPut (tx_at 4 1);
    OpPut (tx_at 7 1)]) as (m & E & Hwf); [by split|by repeat constructor|].
  unfold demo_map. rewrite E. exact Hwf.
Qed.

Lemma Ready_maximal_run_witness :
  ∃ ready m', Ready demo_map 4 = Some (ready, m') ∧ wf m' ∧
    ((ready = [] ∧ m' = demo_map ∧ ∀ k, is_Some (items demo_map !! k) → 4 < k) ∨
     ∃ lo len, is_Some (items demo_map !! lo) ∧ lo <= 4 ∧
       (∀ k, is_Some (items demo_map !! k) → lo <= k) ∧ run (items demo_map) lo len ∧
       AccountNonce <$> ready = seqZ lo len ∧
       items m' = filter (λ kv, ¬ kv.1 < lo + len) (items demo_map)).
Proof.
  apply Ready_maximal_run.
  exact demo_map_wf.
Defined.

(** [Cap] keeps the [threshold] lowest nonces and returns the others, highest
    nonce first. *)
Theorem Cap_drops_highest m threshold :
  wf m →
  ∃ m', Cap m threshold = Some (reverse (drop threshold (Flatten m).1), m') ∧ wf m' ∧
    (Flatten m').1 = take threshold (Flatten m).1.
Proof.
  intros Hwf. destruct (Cap_wf m threshold Hwf) as (m' & E & Hi & Hm').
  exists m'. destruct (Flatten_wf m Hwf) as (-> & _), (Flatten_wf m' Hm') as (-> & _).
  split_and!; auto. rewrite Hi. by destruct (sorted_txs_first threshold (items m) (wf_keyed _ Hwf)).
Qed.

Lemma Cap_drops_highest_witness :
  ∃ m', Cap demo_map 3 = Some (reverse (drop 3 (Flatten demo_map).1), m') ∧ wf m' ∧
    (Flatten m').1 = take 3 (Flatten demo_map).1.
Proof.
  apply Cap_drops_highest.
  exact demo_map_wf.
Defined.

(** The part of [txList.Filter] after its shortcut. *)
Lemma filter_affordable l costLimit gasLimit removed m :
  let f tx := (costLimit <? Cost tx) || (gasLimit <? GasLimit tx) in
  keyed (items (txs l)) →
  removed ≡ₚ sorted_txs (filter (λ kv, f kv.2 = true) (items (txs l))) →
  items m = filter (λ kv, f kv.2 = false) (items (txs l)) → wf m →
  ∃ removed' invalids l',
    (let '(invalids, m) :=
       match removed with
       | _ :: _ =>
           if strict l then Filter m (λ tx, lowest_nonce removed <? AccountNonce tx) else ([], m)
       | [] => ([], m)
       end in (removed, invalids, mk_list (strict l) m costLimit gasLimit)) = (removed', invalids, l') ∧
    list_wf l' ∧ items (txs l') ⊆ items (txs l) ∧
    (∀ n tx, items (txs l') !! n = Some tx → Cost tx <= costLimit ∧ GasLimit tx <= gasLimit) ∧
    (∀ tx, tx ∈ removed' → costLimit < Cost tx ∨ gasLimit < GasLimit tx) ∧
    (strict l = true → ∀ r n tx, r ∈ removed' → items (txs l') !! n = Some tx → n < AccountNonce r).
Proof.
  intros f Hk Hp Hi Hm.
  assert (Hrem : ∀ r, r ∈ removed → f r = true ∧ items (txs l) !! AccountNonce r = Some r).
  { intros r. rewrite Hp, elem_of_sorted_txs. intros (n & [Hn Hf]%map_lookup_filter_Some).
    split; [done|]. by destruct (Hk _ _ Hn) as [-> _]. }
  assert (Hkeep : ∀ n tx, items m !! n = Some tx →
    items (txs l) !! n = Some tx ∧ f tx = false ∧ Cost tx <= costLimit ∧ GasLimit tx <= gasLimit).
  { intros n tx. rewrite Hi. intros [Hn Hf]%map_lookup_filter_Some. cbn in Hf. split_and!; auto;
      unfold f in Hf; destruct (Z.ltb_spec costLimit (Cost tx)), (Z.ltb_spec gasLimit (GasLimit tx));
      done || lia. }
  assert (Hover : ∀ r, r ∈ removed → costLimit < Cost r ∨ gasLimit < GasLimit r).
  { intros r [Hf _]%Hrem. unfold f in Hf.
    destruct (Z.ltb_spec costLimit (Cost r)), (Z.ltb_spec gasLimit (GasLimit r)); auto; done. }
  set (r := match removed with [] => _ | _ => _ end).
  assert (Hr : wf r.2 ∧ items r.2 ⊆ items m ∧
    (strict l = true → removed ≠ [] → ∀ n tx, items r.2 !! n = Some tx → AccountNonce tx <= lowest_nonce removed)).
  { subst r. destruct removed as [|t ts] eqn:Er; [split_and!; done|]. rewrite <- Er.
    destruct (strict l); [|split_and!; done].
    destruct (Filter_wf m (λ tx, lowest_nonce removed <? AccountNonce tx) Hm) as (_ & Hi' & Hm').
    split_and!; [done|rewrite Hi'; apply map_filter_subseteq|].
    intros _ _ n tx. rewrite Hi'. intros [_ Hlt%Z.ltb_ge]%map_lookup_filter_Some. done. }
  destruct r as [invalids m'] eqn:Er. destruct Hr as (Hm' & Hsub & Hlow). cbn in *.
  assert (Hk' : ∀ n tx, items m' !! n = Some tx → items m !! n = Some tx) by (intros; by eapply lookup_weaken).
  do 3 eexists. split; [done|]. cbn. split_and!; auto.
  - split; cbn; [done|]. intros n tx H%Hk'. by apply Hkeep in H as (_ & _ & ?).
  - etrans; [done|]. rewrite Hi. apply map_filter_subseteq.
  - intros n tx H%Hk'. by apply Hkeep in H as (_ & _ & ?).
  - intros Hs x n tx Hx Hn. pose proof (lowest_nonce_spec _ _ Hx). destruct (Hrem x Hx) as [Hfx Hxl].
    assert (Hne : removed ≠ []) by (intros ->; by apply elem_of_nil in Hx).
    specialize (Hlow Hs Hne n tx Hn). apply Hk' in Hn. destruct (Hkeep _ _ Hn) as (Hnl & Hft & _).
    destruct (Hk _ _ Hnl) as [<- _]. destruct (decide (AccountNonce tx = AccountNonce x)) as [E|]; [|lia].
    rewrite E in Hnl. congruence.
Qed.

(** [txList.Filter] leaves only transactions within both limits (the caps
    make its shortcut safe), removes only transactions beyond one of them,
    and on a strict list leaves no transaction above a removed nonce. *)
Theorem list_Filter_affordable l costLimit gasLimit :
  list_wf l →
  ∃ removed invalids l', list_Filter l costLimit gasLimit = (removed, invalids, l') ∧
    list_wf l' ∧ items (txs l') ⊆ items (txs l) ∧
    (∀ n tx, items (txs l') !! n = Some tx → Cost tx <= costLimit ∧ GasLimit tx <= gasLimit) ∧
    (∀ tx, tx ∈ removed → costLimit < Cost tx ∨ gasLimit < GasLimit tx) ∧
    (strict l = true → ∀ r n tx, r ∈ removed → items (txs l') !! n = Some tx → n < AccountNonce r).
Proof.
  intros [Hw Hcap]. unfold list_Filter.
  destruct (Z.leb_spec (costcap l) costLimit), (Z.leb_spec (gascap l) gasLimit); cbn [andb].
  { do 3 eexists. split; [done|]. split_and!; [done|done| | |].
    - intros n tx Hn. destruct (Hcap n tx Hn). lia.
    - by intros tx ?%elem_of_nil.
    - by intros _ r n tx ?%elem_of_nil. }
  all: set (f := λ tx, _ || _);
    destruct (Filter_wf (txs l) f Hw) as (Hp & Hi & Hm);
    destruct (Filter (txs l) f) as [removed m]; cbn in Hp, Hi, Hm;
    apply (filter_affordable l costLimit gasLimit removed m); auto using wf_keyed.
Qed.

Definition demo_list : txList :=
  (Add (Add (Add (newTxList true) (tx_at 4 1) 10).2 (tx_at 5 9) 10).2 (tx_at 6 1) 10).2.

Lemma list_Filter_affordable_witness :
  ∃ removed invalids l', list_Filter demo_list 100000 30000 = (removed, invalids, l') ∧
    list_wf l' ∧ items (txs l') ⊆ items (txs demo_list) ∧
    (∀ n tx, items (txs l') !! n = Some tx → Cost tx <= 100000 ∧ GasLimit tx <= 30000) ∧
    (∀ tx, tx ∈ removed → 100000 < Cost tx ∨ 30000 < GasLimit tx) ∧
    (strict demo_list = true →
     ∀ r n tx, r ∈ removed → items (txs l') !! n = Some tx → n < AccountNonce r).
Proof.
  apply list_Filter_affordable. unfold demo_list.
  repeat (apply Add_wf; [|done]). apply newTxList_wf.
Defined.
End TxListProofs.
