(* ===== verification/Rlp.v ===== *)
(** * Rlp: the RLP codec (rlp/encode.go, rlp/raw.go, rlp/decode.go)

    - the encoder: [encbuf], which collects string data and list headers
      separately and merges them at the end, with one writer per kind of Go
      value;
    - the slice parser: [Split] and its relatives;
    - the stream decoder: [Stream], a state machine over the unread input with
      a stack of enclosing lists.

    The Go values the reflective writers see are [Value]; a struct is written
    like a slice of its fields. An [int] or [uint64] size is a [Z]. *)

From stdpp Require Import base list.
From Stdlib Require Import ZArith Lia.
From S2P Require Import Prelude.

Local Open Scope Z_scope.

Module Rlp.

Inductive Kind := Byte | String | List.

#[export] Instance Kind_eq_dec : EqDecision Kind.
Proof. solve_decision. Defined.

Inductive error :=
  | EOL | EOF | ErrUnexpectedEOF | ErrExpectedString | ErrExpectedList | ErrCanonInt | ErrCanonSize
  | ErrElemTooLarge | ErrValueTooLarge | ErrMoreThanOneValue | errNotInList | errNotAtEOL
  | errUintOverflow | errInvalidBool | errTooFewElements | errNegativeBigInt.

(** ** Encoding *)

Inductive Value :=
  | VBytes (b : bytes) | VUint (i : Z) | VBool (b : bool) | VBigInt (i : Z) | VList (l : list Value).

(** The least number of big-endian bytes of a [uint64]. *)
Definition putint (i : Z) : bytes :=
  let byte n := z2b (Z.shiftr i n) in
  if i <? 2 ^ 8 then [z2b i]
  else if i <? 2 ^ 16 then [byte 8; z2b i]
  else if i <? 2 ^ 24 then [byte 16; byte 8; z2b i]
  else if i <? 2 ^ 32 then [byte 24; byte 16; byte 8; z2b i]
  else if i <? 2 ^ 40 then [byte 32; byte 24; byte 16; byte 8; z2b i]
  else if i <? 2 ^ 48 then [byte 40; byte 32; byte 24; byte 16; byte 8; z2b i]
  else if i <? 2 ^ 56 then [byte 48; byte 40; byte 32; byte 24; byte 16; byte 8; z2b i]
  else [byte 56; byte 48; byte 40; byte 32; byte 24; byte 16; byte 8; z2b i].

(** The loop of [intsize]; eight rounds empty a [uint64]. *)
Fixpoint intsize_from (fuel : nat) (size : Z) (i : Z) : Z :=
  match fuel with
  | O => size
  | S fuel => let i := Z.shiftr i 8 in if i =? 0 then size else intsize_from fuel (size + 1) i
  end.

Definition intsize (i : Z) : Z := intsize_from 8 1 i.

Definition headsize (size : Z) : Z := if size <? 56 then 1 else 1 + intsize size.

Definition puthead (smalltag largetag size : Z) : bytes :=
  if size <? 56 then [z2b (smalltag + size)]
  else let s := putint size in z2b (largetag + Z.of_nat (length s)) :: s.

Record listhead := mk_head { offset : Z; lsize : Z }.

Record encbuf := mk_buf { str : bytes; lheads : list listhead; lhsize : Z }.

Definition new_encbuf : encbuf := mk_buf [] [] 0.

Definition append_str (w : encbuf) (b : bytes) : encbuf :=
  mk_buf (str w ++ b) (lheads w) (lhsize w).

Definition buf_size (w : encbuf) : Z := Z.of_nat (length (str w)) + lhsize w.

Definition encodeStringHeader (w : encbuf) (size : Z) : encbuf :=
  if size <? 56 then append_str w [z2b (0x80 + size)]
  else let s := putint size in append_str w (z2b (0xB7 + Z.of_nat (length s)) :: s).

Definition encodeString (w : encbuf) (b : bytes) : encbuf :=
  match b with
  | [x] => if b2z x <=? 0x7F then append_str w b else append_str (encodeStringHeader w 1) b
  | _ => append_str (encodeStringHeader w (Z.of_nat (length b))) b
  end.

(** [list()] returns a pointer to the new head: its position in [lheads]. *)
Definition list_begin (w : encbuf) : nat * encbuf :=
  (length (lheads w),
   mk_buf (str w) (lheads w ++ [mk_head (Z.of_nat (length (str w))) (lhsize w)]) (lhsize w)).

Definition listEnd (w : encbuf) (lh : nat) : encbuf :=
  match lheads w !! lh with
  | Some h =>
      let size := buf_size w - offset h - lsize h in
      mk_buf (str w) (<[lh := mk_head (offset h) size]> (lheads w))
        (if size <? 56 then lhsize w + 1 else lhsize w + (1 + intsize size))
  | None => w
  end.

Definition writeUint (i : Z) (w : encbuf) : outcome error encbuf :=
  if i =? 0 then Ret (append_str w [z2b 0x80])
  else if i <? 128 then Ret (append_str w [z2b i])
  else let s := putint i in Ret (append_str w (z2b (0x80 + Z.of_nat (length s)) :: s)).

Definition writeBool (b : bool) (w : encbuf) : outcome error encbuf :=
  Ret (append_str w [z2b (if b then 0x01 else 0x80)]).

Definition writeBigInt (i : Z) (w : encbuf) : outcome error encbuf :=
  if i <? 0 then Err errNegativeBigInt
  else if i =? 0 then Ret (append_str w [z2b 0x80])
  else Ret (encodeString w (be_encode i)).

Definition writeBytes (b : bytes) (w : encbuf) : outcome error encbuf := Ret (encodeString w b).

(** The writers, chosen by [makeWriter] from the type of the value. *)
Fixpoint write_value (v : Value) (w : encbuf) : outcome error encbuf :=
  match v with
  | VBytes b => writeBytes b w
  | VUint i => writeUint i w
  | VBool b => writeBool b w
  | VBigInt i => writeBigInt i w
  | VList l =>
      let '(lh, w) := list_begin w in
      w ← (fix write_list (l : list Value) (w : encbuf) : outcome error encbuf :=
             match l with
             | [] => Ret w
             | v :: l => w ← write_value v w; write_list l w
             end) l w;
      Ret (listEnd w lh)
  end.

(** [toBytes]: the string data with the list headers merged in. *)
Fixpoint merge_heads (s : bytes) (strpos : nat) (heads : list listhead) : bytes :=
  match heads with
  | [] => drop strpos s
  | h :: heads =>
      let off := Z.to_nat (offset h) in
      take (off - strpos) (drop strpos s) ++ puthead 0xC0 0xF7 (lsize h) ++ merge_heads s off heads
  end.

Definition toBytes (w : encbuf) : bytes := merge_heads (str w) 0 (lheads w).

Definition EncodeToBytes (v : Value) : outcome error bytes :=
  w ← write_value v new_encbuf; Ret (toBytes w).

(** ** Parsing slices (raw.go) *)

Definition readSize (b : bytes) (slen : Z) : outcome error Z :=
  if Z.of_nat (length b) <? slen then Err ErrUnexpectedEOF
  else
    let s := be_decode (take (Z.to_nat slen) b) in
    match b with
    | [] => Panic
    | b0 :: _ => if (s <? 56) || (b2z b0 =? 0) then Err ErrCanonSize else Ret s
    end.

Definition readKind (buf : bytes) : outcome error (Kind * Z * Z) :=
  match buf with
  | [] => Err ErrUnexpectedEOF
  | b0 :: tl =>
      let b := b2z b0 in
      '(k, tagsize, contentsize) ←
        (if b <? 0x80 then Ret (Byte, 0, 1)
         else if b <? 0xB8 then
           let contentsize := b - 0x80 in
           match tl with
           | b1 :: _ =>
               if (contentsize =? 1) && (b2z b1 <? 128) then Err ErrCanonSize
               else Ret (String, 1, contentsize)
           | [] => Ret (String, 1, contentsize)
           end
         else if b <? 0xC0 then
           size ← readSize tl (b - 0xB7); Ret (String, b - 0xB7 + 1, size)
         else if b <? 0xF8 then Ret (List, 1, b - 0xC0)
         else size ← readSize tl (b - 0xF7); Ret (List, b - 0xF7 + 1, size));
      if u64 (Z.of_nat (length buf) - tagsize) <? contentsize then Err ErrValueTooLarge
      else Ret (k, tagsize, contentsize)
  end.

Definition Split (b : bytes) : outcome error (Kind * bytes * bytes) :=
  '(k, ts, cs) ← readKind b;
  Ret (k, take (Z.to_nat cs) (drop (Z.to_nat ts) b), drop (Z.to_nat (ts + cs)) b).

Definition SplitString (b : bytes) : outcome error (bytes * bytes) :=
  '(k, content, rest) ← Split b;
  match k with List => Err ErrExpectedString | _ => Ret (content, rest) end.

Definition SplitList (b : bytes) : outcome error (bytes * bytes) :=
  '(k, content, rest) ← Split b;
  match k with List => Ret (content, rest) | _ => Err ErrExpectedList end.

(** Every round consumes at least one byte, so the length is fuel enough. *)
Fixpoint count_values (fuel : nat) (i : Z) (b : bytes) : outcome error Z :=
  match b, fuel with
  | [], _ => Ret i
  | _, O => Panic
  | _, S fuel =>
      '(_, tagsize, size) ← readKind b;
      count_values fuel (i + 1) (drop (Z.to_nat (tagsize + size)) b)
  end.

Definition CountValues (b : bytes) : outcome error Z := count_values (length b) 0 b.

(** ** Decoding streams (decode.go)

    The reader is a [bytes.Reader]: the unread bytes. [kind < 0] is [None].
    The stack is kept innermost list first. An operation returns a result or
    an error, and in both cases the stream it leaves. *)

Record listpos := mk_pos { pos : Z; size : Z }.

Record Stream := mk_stream {
  r : bytes; remaining : Z; limited : bool;
  skind : option Kind; ssize : Z; byteval : Byte.byte; kinderr : option error;
  stack : list listpos }.

Definition set_kind (s : Stream) (k : option Kind) : Stream :=
  mk_stream (r s) (remaining s) (limited s) k (ssize s) (byteval s) (kinderr s) (stack s).
Definition set_size (s : Stream) (n : Z) : Stream :=
  mk_stream (r s) (remaining s) (limited s) (skind s) n (byteval s) (kinderr s) (stack s).
Definition set_byteval (s : Stream) (b : Byte.byte) : Stream :=
  mk_stream (r s) (remaining s) (limited s) (skind s) (ssize s) b (kinderr s) (stack s).
Definition set_kinderr (s : Stream) (e : option error) : Stream :=
  mk_stream (r s) (remaining s) (limited s) (skind s) (ssize s) (byteval s) e (stack s).
Definition set_stack (s : Stream) (st : list listpos) : Stream :=
  mk_stream (r s) (remaining s) (limited s) (skind s) (ssize s) (byteval s) (kinderr s) st.
Definition set_remaining (s : Stream) (n : Z) : Stream :=
  mk_stream (r s) n (limited s) (skind s) (ssize s) (byteval s) (kinderr s) (stack s).
Definition set_r (s : Stream) (b : bytes) : Stream :=
  mk_stream b (remaining s) (limited s) (skind s) (ssize s) (byteval s) (kinderr s) (stack s).

(** A computation that can fail and changes the stream. *)
Definition SM (A : Type) : Type := Stream → (error + A) * Stream.

#[export] Instance SM_ret : MRet SM := λ A a s, (inr a, s).
#[export] Instance SM_bind : MBind SM := λ A B k m s,
  match m s with
  | (inl e, s) => (inl e, s)
  | (inr a, s) => k a s
  end.

Definition fail {A} (e : error) : SM A := λ s, (inl e, s).
Definition get : SM Stream := λ s, (inr s, s).
Definition modify (f : Stream → Stream) : SM unit := λ s, (inr tt, f s).

(** [NewStream(bytes.NewReader(b), 0)]: the limit is the length of the input. *)
Definition NewStream (b : bytes) : Stream :=
  mk_stream b (Z.of_nat (length b)) true None 0 Byte.x00 None [].

Definition willRead (n : Z) : SM unit :=
  modify (λ s, set_kind s None);;
  s ← get;
  (match stack s with
   | tos :: rest =>
       if u64 (size tos - pos tos) <? n then fail ErrElemTooLarge
       else modify (λ s, set_stack s (mk_pos (u64 (pos tos + n)) (size tos) :: rest))
   | [] => mret tt
   end);;
  s ← get;
  if limited s then
    if remaining s <? n then fail ErrValueTooLarge
    else modify (λ s, set_remaining s (remaining s - n))
  else mret tt.

Definition readByte : SM Byte.byte :=
  willRead 1;;
  s ← get;
  match r s with
  | b :: tl => modify (λ s, set_r s tl);; mret b
  | [] => fail ErrUnexpectedEOF
  end.

(** [readFull] into a buffer of length [n]. *)
Definition readFull (n : Z) : SM bytes :=
  willRead n;;
  s ← get;
  let k := Z.to_nat n in
  if (k <=? length (r s))%nat then
    modify (λ s, set_r s (drop k (r s)));; mret (take k (r s))
  else modify (λ s, set_r s []);; fail ErrUnexpectedEOF.

Definition readUint (sz : Z) : SM Z :=
  if sz =? 0 then modify (λ s, set_kind s None);; mret 0
  else if sz =? 1 then b ← readByte; mret (b2z b)
  else
    b ← readFull sz;
    match b with
    | b0 :: _ => if b2z b0 =? 0 then fail ErrCanonSize else mret (be_decode b)
    | [] => fail ErrCanonSize
    end.

(** A size of 56 or more in [n] bytes, for the kind [k]; an error keeps the
    kind and the size read so far. *)
Definition read_long_size (k : Kind) (n : Z) (s : Stream) : (Kind * Z * option error) * Stream :=
  match readUint n s with
  | (inl e, s) => ((k, 0, Some e), s)
  | (inr sz, s) => ((k, sz, if sz <? 56 then Some ErrCanonSize else None), s)
  end.

(** [readKind] of the stream: at top level an end of input becomes [EOF]. *)
Definition stream_readKind (s : Stream) : (Kind * Z * option error) * Stream :=
  match readByte s with
  | (inl e, s) =>
      let e := match stack s, e with
               | [], ErrUnexpectedEOF => EOF
               | [], ErrValueTooLarge => EOF
               | _, _ => e
               end in
      ((Byte, 0, Some e), s)
  | (inr b0, s) =>
      let b := b2z b0 in
      let s := set_byteval s Byte.x00 in
      if b <? 0x80 then ((Byte, 0, None), set_byteval s b0)
      else if b <? 0xB8 then ((String, b - 0x80, None), s)
      else if b <? 0xC0 then read_long_size String (b - 0xB7) s
      else if b <? 0xF8 then ((List, b - 0xC0, None), s)
      else read_long_size List (b - 0xF7) s
  end.

(** [s.kind, s.size, s.kinderr = s.readKind()] and the size checks after it. *)
Definition store_kind : SM unit := λ s,
  let '((k, n, err), s) := stream_readKind s in
  let err :=
    match err, stack s with
    | Some e, _ => Some e
    | None, [] => if limited s && (remaining s <? n) then Some ErrValueTooLarge else None
    | None, tos :: _ => if u64 (size tos - pos tos) <? n then Some ErrElemTooLarge else None
    end in
  (inr tt, set_kinderr (set_size (set_kind s (Some k)) n) err).

Definition Kind_ : SM (Kind * Z) :=
  s ← get;
  (match skind s with
   | None =>
       modify (λ s, set_kinderr s None);;
       match stack s with
       | tos :: _ => if pos tos =? size tos then fail EOL else store_kind
       | [] => store_kind
       end
   | Some _ => mret tt
   end);;
  s ← get;
  match kinderr s with
  | Some e => fail e
  | None => mret (default Byte (skind s), ssize s)
  end.

Definition Bytes : SM bytes :=
  '(kind, n) ← Kind_;
  match kind with
  | Byte => s ← get; modify (λ s, set_kind s None);; mret [byteval s]
  | String =>
      b ← readFull n;
      match b with
      | b0 :: _ => if (n =? 1) && (b2z b0 <? 128) then fail ErrCanonSize else mret b
      | [] => mret b
      end
  | List => fail ErrExpectedString
  end.

(** A canonical-size error of [readUint] is one of the integer here. *)
Definition uint_size_error {A} (m : SM A) : SM A := λ s,
  match m s with
  | (inl ErrCanonSize, s) => (inl ErrCanonInt, s)
  | res => res
  end.

Definition uint (maxbits : Z) : SM Z :=
  '(kind, n) ← Kind_;
  match kind with
  | Byte =>
      s ← get;
      if b2z (byteval s) =? 0 then fail ErrCanonInt
      else modify (λ s, set_kind s None);; mret (b2z (byteval s))
  | String =>
      if maxbits / 8 <? n then fail errUintOverflow
      else
        v ← uint_size_error (readUint n);
        if (0 <? n) && (v <? 128) then fail ErrCanonSize else mret v
  | List => fail ErrExpectedString
  end.

Definition Bool : SM bool :=
  num ← uint 8;
  if num =? 0 then mret false else if num =? 1 then mret true else fail errInvalidBool.

Definition List_ : SM Z :=
  '(kind, n) ← Kind_;
  match kind with
  | List =>
      modify (λ s, set_size (set_kind (set_stack s (mk_pos 0 n :: stack s)) None) 0);; mret n
  | _ => fail ErrExpectedList
  end.

Definition ListEnd : SM unit :=
  s ← get;
  match stack s with
  | [] => fail errNotInList
  | tos :: rest =>
      if negb (pos tos =? size tos) then fail errNotAtEOL
      else
        let rest := match rest with
                    | p :: rest => mk_pos (u64 (pos p + size tos)) (size p) :: rest
                    | [] => []
                    end in
        modify (λ s, set_size (set_kind (set_stack s rest) None) 0)
  end.

(** [decodeInterface]: any value as nested lists of strings, the Go type
    [interface{}]. The loop over the elements of a list ends at [EOL]. *)
Inductive Item := Str (b : bytes) | Lst (l : list Item).

(** [decodeSliceElems] with the element decoder [dec]. *)
Fixpoint decode_elems (dec : SM Item) (fuel : nat) : SM (list Item) := λ s,
  match fuel with
  | O => (inl ErrUnexpectedEOF, s)
  | S fuel =>
      match dec s with
      | (inl EOL, s) => (inr [], s)
      | (inl e, s) => (inl e, s)
      | (inr x, s) =>
          match decode_elems dec fuel s with
          | (inr l, s) => (inr (x :: l), s)
          | (inl e, s) => (inl e, s)
          end
      end
  end.

Fixpoint decodeInterface (fuel : nat) : SM Item :=
  match fuel with
  | O => fail ErrUnexpectedEOF
  | S fuel =>
      '(kind, _) ← Kind_;
      match kind with
      | List =>
          n ← List_;
          if n =? 0 then ListEnd;; mret (Lst [])
          else l ← decode_elems (decodeInterface fuel) fuel; ListEnd;; mret (Lst l)
      | _ => b ← Bytes; mret (Str b)
      end
  end.

End Rlp.
