(* ===== verification/RlpProofs.v ===== *)
(** * RlpProofs: correctness of the RLP codec

    [enc] is the encoding as the format defines it. The encoder's deferred
    list headers produce exactly [enc]; the slice parser and the stream
    decoder invert it. *)

From stdpp Require Import base list.
From Stdlib Require Import ZArith Lia.
From S2P Require Import Prelude Rlp.

Local Open Scope Z_scope.

Module RlpProofs.
Import Rlp.

(** ** The reference encoding *)

Definition head (small large n : Z) : bytes :=
  if n <? 56 then [z2b (small + n)]
  else z2b (large + Z.of_nat (length (be_encode n))) :: be_encode n.

Abbreviation zlen l := (Z.of_nat (length l)).

Definition enc_str (b : bytes) : bytes :=
  match b with
  | [x] => if b2z x <=? 0x7F then b else head 0x80 0xB7 1 ++ b
  | _ => head 0x80 0xB7 (zlen b) ++ b
  end.

Fixpoint enc (it : Item) : bytes :=
  match it with
  | Str b => enc_str b
  | Lst l => let p := concat (map enc l) in head 0xC0 0xF7 (zlen p) ++ p
  end.

Definition payload (l : list Item) : bytes := concat (map enc l).

Lemma Item_ind' (P : Item → Prop) :
  (∀ b, P (Str b)) → (∀ l, Forall P l → P (Lst l)) → ∀ it, P it.
Proof.
  intros HS HL. fix IH 1. intros [b|l]; [apply HS|]. apply HL.
  induction l as [|x l IHl]; constructor; [apply IH|apply IHl].
Qed.

Lemma Value_ind' (P : Value → Prop) :
  (∀ b, P (VBytes b)) → (∀ i, P (VUint i)) → (∀ b, P (VBool b)) → (∀ i, P (VBigInt i)) →
  (∀ l, Forall P l → P (VList l)) → ∀ v, P v.
Proof.
  intros H1 H2 H3 H4 HL. fix IH 1.
  intros [b|i|b|i|l]; [apply H1|apply H2|apply H3|apply H4|]. apply HL.
  induction l as [|x l IHl]; constructor; [apply IH|apply IHl].
Qed.

(** What a Go value means: integers are big-endian strings without leading
    zeros, Booleans the integers one and zero. *)
Fixpoint item_of (v : Value) : Item :=
  match v with
  | VBytes b => Str b
  | VUint i | VBigInt i => Str (be_encode i)
  | VBool b => Str (if b then [z2b 1] else [])
  | VList l => Lst (map item_of l)
  end.

(** The values Go can hold: unsigned integers of 64 bits, no negative big
    integers, and sizes an [int] can count. *)
Fixpoint writable (v : Value) : Prop :=
  match v with
  | VUint i => is_u64 i
  | VBigInt i => 0 <= i
  | VList l => (fix all l := match l with [] => True | v :: l => writable v ∧ all l end) l
  | _ => True
  end.

Lemma writable_list l : writable (VList l) ↔ Forall writable l.
Proof.
  cbn. induction l as [|v l IH]; [done|]. rewrite Forall_cons, <- IH. done.
Qed.

(** ** Integers *)

Lemma be_encode_bounds n (k : nat) :
  256 ^ Z.of_nat k <= n < 256 ^ Z.of_nat (S k) → be_encode n = fixed_be (S k) n.
Proof.
  intros [Hlo Hhi]. unfold be_encode. rewrite Z.abs_eq by lia. f_equal.
  assert (0 < n) by (assert (0 < 256 ^ Z.of_nat k) by (apply Z.pow_pos_nonneg; lia); lia).
  apply Nat.le_antisymm; [apply byte_len_le; unfold pow256; lia|].
  destruct (decide (byte_len n <= k)%nat); [|lia]. exfalso.
  pose proof (byte_len_bound n) as HB. unfold pow256 in HB.
  assert (256 ^ Z.of_nat (byte_len n) <= 256 ^ Z.of_nat k) by (apply Z.pow_le_mono_r; lia). lia.
Qed.

Lemma putint_spec i : 0 < i < two64 → putint i = be_encode i.
Proof.
  intros [Hpos Hlt]. unfold putint. rewrite !Z.shiftr_div_pow2 by lia.
  assert (Hb : ∀ k, 256 ^ Z.of_nat k <= i < 256 ^ Z.of_nat (S k) → be_encode i = fixed_be (S k) i)
    by (intros; by apply be_encode_bounds).
  repeat match goal with |- context [?a <? ?b] => destruct (Z.ltb_spec a b) end;
    [rewrite (Hb 0%nat)|rewrite (Hb 1%nat)|rewrite (Hb 2%nat)|rewrite (Hb 3%nat)
    |rewrite (Hb 4%nat)|rewrite (Hb 5%nat)|rewrite (Hb 6%nat)|rewrite (Hb 7%nat)];
    try (unfold two64 in *; lia); cbn [fixed_be app];
    rewrite ?Z.div_div by lia; done.
Qed.

Lemma intsize_spec i : 0 < i < two64 → intsize i = zlen (be_encode i).
Proof.
  intros [Hpos Hlt].
  assert (Hgen : ∀ fuel sz j, 0 < j < 256 ^ Z.of_nat fuel →
    intsize_from fuel sz j = sz - 1 + zlen (be_encode j)).
  { induction fuel as [|fuel IH]; intros sz j Hj; [cbn in Hj; lia|]. cbn [intsize_from].
    rewrite Z.shiftr_div_pow2 by lia. change (2 ^ 8) with 256.
    rewrite Nat2Z.inj_succ, Z.pow_succ_r in Hj by lia.
    assert (Hlen : zlen (be_encode j) = if j / 256 =? 0 then 1 else 1 + zlen (be_encode (j / 256))).
    { unfold be_encode. rewrite !length_fixed_be, !Z.abs_eq by (try apply Z.div_pos; lia).
      unfold byte_len. destruct (Z.leb_spec j 0); [lia|].
      pose proof (Z.log2_nonneg j). assert (0 <= Z.log2 j / 8) by (apply Z.div_pos; lia).
      destruct (Z.eqb_spec (j / 256) 0) as [E|E].
      - apply Z.div_small_iff in E; [|lia]. assert (Z.log2 j < 8) by (apply Z.log2_lt_pow2; lia).
        rewrite Z.div_small by lia. lia.
      - assert (0 < j / 256) by (pose proof (Z.div_pos j 256); lia).
        destruct (Z.leb_spec (j / 256) 0); [lia|].
        change 256 with (2 ^ 8). rewrite <- Z.shiftr_div_pow2, Z.log2_shiftr by lia.
        assert (8 <= Z.log2 j).
        { apply Z.log2_le_pow2; [lia|]. destruct (decide (j < 256)); [|lia].
          exfalso. apply E, Z.div_small. lia. }
        rewrite Z.max_r by lia. rewrite !Z2Nat.id by (try apply Z.add_nonneg_nonneg; try apply Z.div_pos; lia).
        replace (Z.log2 j) with (Z.log2 j - 8 + 1 * 8) at 1 by lia. rewrite Z.div_add by lia. lia. }
    rewrite Hlen. destruct (Z.eqb_spec (j / 256) 0); [lia|].
    rewrite IH; [lia|]. pose proof (Z.div_pos j 256).
    split; [lia|]. apply Z.div_lt_upper_bound; lia. }
  unfold intsize. rewrite Hgen; [lia|]. unfold two64 in Hlt. cbn. lia.
Qed.

Lemma length_head small large n :
  0 <= n < two64 → zlen (head small large n) = headsize n.
Proof.
  intros Hn. unfold head, headsize. destruct (Z.ltb_spec n 56); [done|].
  rewrite intsize_spec by lia. cbn [length]. lia.
Qed.

Lemma puthead_spec small large n : 0 <= n < two64 → puthead small large n = head small large n.
Proof.
  intros Hn. unfold puthead, head. destruct (Z.ltb_spec n 56); [done|]. rewrite putint_spec by lia. done.
Qed.

(** ** The buffer with deferred list headers

    What a writer appends: string data and list headers, in output order. *)
Inductive chunk := Data (b : bytes) | Head (n : Z).

Definition data_of (cs : list chunk) : bytes :=
  concat (map (λ c, match c with Data b => b | Head _ => [] end) cs).

Fixpoint heads_of (base : Z) (cs : list chunk) : list listhead :=
  match cs with
  | [] => []
  | Data b :: cs => heads_of (base + zlen b) cs
  | Head n :: cs => mk_head base n :: heads_of base cs
  end.

Fixpoint heads_size (cs : list chunk) : Z :=
  match cs with
  | [] => 0
  | Data _ :: cs => heads_size cs
  | Head n :: cs => headsize n + heads_size cs
  end.

Definition flat (cs : list chunk) : bytes :=
  concat (map (λ c, match c with Data b => b | Head n => puthead 0xC0 0xF7 n end) cs).

Definition extend (w : encbuf) (cs : list chunk) : encbuf :=
  mk_buf (str w ++ data_of cs) (lheads w ++ heads_of (zlen (str w)) cs) (lhsize w + heads_size cs).

Lemma data_of_app c1 c2 : data_of (c1 ++ c2) = data_of c1 ++ data_of c2.
Proof. unfold data_of. by rewrite map_app, concat_app. Qed.

Lemma heads_of_app base c1 c2 :
  heads_of base (c1 ++ c2) = heads_of base c1 ++ heads_of (base + zlen (data_of c1)) c2.
Proof.
  revert base. induction c1 as [|[b|n] c1 IH]; intros base; cbn.
  - f_equal. lia.
  - rewrite IH. do 2 f_equal. rewrite length_app. unfold data_of. lia.
  - by rewrite IH.
Qed.

Lemma heads_size_app c1 c2 : heads_size (c1 ++ c2) = heads_size c1 + heads_size c2.
Proof. induction c1 as [|[b|n] c1 IH]; cbn [app heads_size]; lia. Qed.

Lemma extend_app w c1 c2 : extend w (c1 ++ c2) = extend (extend w c1) c2.
Proof.
  unfold extend. cbn. rewrite data_of_app, heads_of_app, heads_size_app, length_app, !app_assoc.
  f_equal; [|lia]. do 2 f_equal. lia.
Qed.

Lemma flat_app c1 c2 : flat (c1 ++ c2) = flat c1 ++ flat c2.
Proof. unfold flat. by rewrite map_app, concat_app. Qed.

Lemma extend_nil w : extend w [] = w.
Proof. destruct w. unfold extend. cbn. rewrite !app_nil_r. f_equal. lia. Qed.

Lemma append_str_extend w b : append_str w b = extend w [Data b].
Proof. unfold append_str, extend, data_of. cbn. rewrite !app_nil_r. f_equal. lia. Qed.

Lemma append_str_app w b1 b2 : append_str (append_str w b1) b2 = append_str w (b1 ++ b2).
Proof. unfold append_str. cbn. by rewrite app_assoc. Qed.

(** *** Merging the headers back *)

Lemma heads_of_offset base cs : Forall (λ h, base <= offset h) (heads_of base cs).
Proof.
  revert base. induction cs as [|[b|n] cs IH]; intros base; cbn; [done| |].
  - eapply Forall_impl; [apply IH|]. cbn. lia.
  - constructor; [cbn; lia|apply IH].
Qed.

Lemma merge_heads_skip s (p q : nat) hs :
  (p <= q)%nat → Forall (λ h, Z.of_nat q <= offset h) hs →
  merge_heads s p hs = take (q - p) (drop p s) ++ merge_heads s q hs.
Proof.
  intros Hpq Hall. destruct hs as [|h hs]; cbn [merge_heads].
  - replace (drop q s) with (drop (q - p) (drop p s)) by (rewrite drop_drop; f_equal; lia).
    by rewrite take_drop.
  - apply Forall_cons in Hall as [Hh _]. rewrite (app_assoc (take (q - p) _)). f_equal.
    replace (drop q s) with (drop (q - p) (drop p s)) by (rewrite drop_drop; f_equal; lia).
    rewrite take_take_drop. f_equal. lia.
Qed.

Lemma merge_heads_flat pre cs :
  merge_heads (pre ++ data_of cs) (length pre) (heads_of (zlen pre) cs) = flat cs.
Proof.
  revert pre. induction cs as [|[b|n] cs IH]; intros pre.
  - cbn. by rewrite drop_app_length.
  - cbn [heads_of]. change (data_of (Data b :: cs)) with (b ++ data_of cs).
    rewrite (merge_heads_skip _ _ (length (pre ++ b))).
    + rewrite length_app at 1. replace (length pre + length b - length pre)%nat with (length b) by lia.
      rewrite drop_app_length, take_app_length. change (flat (Data b :: cs)) with (b ++ flat cs).
      f_equal. rewrite <- (IH (pre ++ b)), app_assoc, length_app, Nat2Z.inj_add. done.
    + rewrite length_app. lia.
    + eapply Forall_impl; [apply heads_of_offset|]. cbn. intros h. rewrite length_app. lia.
  - cbn [heads_of merge_heads offset lsize]. rewrite Nat2Z.id, Nat.sub_diag, take_0, app_nil_l.
    change (flat (Head n :: cs)) with (puthead 0xC0 0xF7 n ++ flat cs).
    f_equal. apply IH.
Qed.

(** *** The writers append the chunks of the value *)

Fixpoint chunks (it : Item) : list chunk :=
  match it with
  | Str b => [Data (enc_str b)]
  | Lst l => Head (zlen (concat (map enc l))) :: concat (map chunks l)
  end.

Lemma length_payload l : zlen (enc (Lst l)) = zlen (head 0xC0 0xF7 (zlen (payload l))) + zlen (payload l).
Proof. cbn [enc]. rewrite length_app. unfold payload. lia. Qed.

Lemma length_enc_elem x l : x ∈ l → zlen (enc x) <= zlen (payload l).
Proof.
  unfold payload. induction l as [|y l IH]; [by intros ?%elem_of_nil|].
  intros [->|Hx]%elem_of_cons; cbn; rewrite length_app; [lia|]. specialize (IH Hx). lia.
Qed.

Lemma flat_chunks it :
  zlen (enc it) < two64 →
  flat (chunks it) = enc it ∧ zlen (data_of (chunks it)) + heads_size (chunks it) = zlen (enc it).
Proof.
  induction it as [b|l IH] using Item_ind'; intros Hlen.
  { cbn [chunks enc]. unfold flat, data_of. cbn. rewrite app_nil_r. split; [done|]. lia. }
  rewrite length_payload in Hlen.
  assert (Hl : flat (concat (map chunks l)) = payload l ∧
    zlen (data_of (concat (map chunks l))) + heads_size (concat (map chunks l)) = zlen (payload l)).
  { assert (Hb : zlen (payload l) < two64) by lia. clear Hlen. unfold payload in *.
    induction IH as [|x l Hx Hall IHl]; [done|]. cbn [map concat] in *. rewrite length_app in Hb.
    destruct (Hx ltac:(lia)) as [E1 E2], (IHl ltac:(lia)) as [E3 E4].
    rewrite flat_app, data_of_app, heads_size_app, !length_app, E1, E3. split; [done|lia]. }
  destruct Hl as [Hf Hs]. cbn [chunks].
  change (flat (Head ?n :: ?cs)) with (puthead 0xC0 0xF7 n ++ flat cs).
  change (data_of (Head ?n :: ?cs)) with (data_of cs). cbn [heads_size].
  rewrite Hf, puthead_spec by (unfold payload in *; lia). split; [done|].
  rewrite length_payload, length_head by lia. unfold payload in *. lia.
Qed.

Lemma encodeStringHeader_head w n :
  0 <= n < two64 → encodeStringHeader w n = append_str w (head 0x80 0xB7 n).
Proof.
  intros Hn. unfold encodeStringHeader, head. destruct (Z.ltb_spec n 56); [done|].
  by rewrite putint_spec by lia.
Qed.

Lemma encodeString_extend w b :
  zlen b < two64 → encodeString w b = extend w [Data (enc_str b)].
Proof.
  intros Hb. rewrite <- append_str_extend. unfold encodeString, enc_str.
  destruct b as [|x [|y b]]; [|destruct (b2z x <=? 0x7F); [done|]|];
    rewrite encodeStringHeader_head, append_str_app by (cbn in *; lia); done.
Qed.

(** Integers and Booleans are strings. *)
Lemma enc_str_small i : 0 < i < 128 → enc_str (be_encode i) = [z2b i].
Proof.
  intros Hi. rewrite (be_encode_bounds i 0) by (cbn; lia). cbn.
  rewrite b2z_z2b, Z.mod_small by lia. destruct (Z.leb_spec i 127); [done|lia].
Qed.

Lemma enc_str_uint i :
  128 <= i < two64 →
  enc_str (be_encode i) = z2b (0x80 + zlen (be_encode i)) :: be_encode i.
Proof.
  intros Hi. assert (Hlen : (length (be_encode i) <= 8)%nat).
  { apply length_be_encode_le. unfold pow256, two64 in *. cbn. lia. }
  unfold enc_str. destruct (be_encode i) as [|x [|y b]] eqn:E.
  - exfalso. apply (f_equal be_decode) in E. rewrite be_decode_encode in E by lia. cbn in E. lia.
  - apply (f_equal be_decode) in E as E'. rewrite be_decode_encode in E' by lia. cbn in E'.
    destruct (Z.leb_spec (b2z x) 127); [lia|]. done.
  - unfold head. destruct (Z.ltb_spec (zlen (x :: y :: b)) 56); [done|]. cbn in *. lia.
Qed.

Lemma length_enc_str b : zlen b <= zlen (enc_str b).
Proof.
  unfold enc_str. destruct b as [|x [|y b]]; [cbn; lia|destruct (_ <=? _); [lia|]|];
    rewrite length_app; lia.
Qed.

(** Opening a list, writing [cs] and closing it puts the header in front. *)
Lemma listEnd_extend w cs :
  listEnd (extend (list_begin w).2 cs) (list_begin w).1 =
  extend w (Head (zlen (data_of cs) + heads_size cs) :: cs).
Proof.
  unfold listEnd, list_begin, extend. cbn [fst snd str lheads lhsize].
  rewrite <- app_assoc, lookup_app_r, Nat.sub_diag by done. cbn [app lookup list_lookup offset lsize].
  rewrite insert_app_r_alt, Nat.sub_diag by done. unfold buf_size. cbn [str lhsize].
  rewrite length_app, Nat2Z.inj_add.
  replace (zlen (str w) + zlen (data_of cs) + (lhsize w + heads_size cs) - zlen (str w) - lhsize w)
    with (zlen (data_of cs) + heads_size cs) by lia.
  change (data_of (Head ?n :: cs)) with (data_of cs). cbn [heads_of heads_size].
  f_equal; unfold headsize; destruct (_ <? 56); lia.
Qed.

Lemma write_value_extend v :
  ∀ w, writable v → zlen (enc (item_of v)) < two64 →
  write_value v w = Ret (extend w (chunks (item_of v))).
Proof.
  induction v as [b|i|b|i|l IH] using Value_ind'; intros w Hw Hlen;
    cbn [write_value item_of chunks] in *; unfold writeBytes, writeUint, writeBool, writeBigInt.
  - rewrite encodeString_extend; [done|]. pose proof (length_enc_str b). cbn [enc] in Hlen. lia.
  - cbn in Hw. rewrite <- !append_str_extend. destruct (Z.eqb_spec i 0) as [->|]; [done|].
    destruct (Z.ltb_spec i 128); [rewrite enc_str_small by (destruct Hw; lia); done|].
    rewrite putint_spec, enc_str_uint by (destruct Hw; lia). done.
  - rewrite <- append_str_extend. by destruct b.
  - cbn in Hw. destruct (Z.ltb_spec i 0); [lia|]. destruct (Z.eqb_spec i 0) as [->|].
    + by rewrite <- append_str_extend.
    + rewrite encodeString_extend; [done|]. pose proof (length_enc_str (be_encode i)).
      cbn [enc] in Hlen. lia.
  - apply writable_list in Hw.
    assert (Hpay := length_payload (map item_of l)). cbn [enc] in Hlen.
    rewrite length_app in Hlen. fold (payload (map item_of l)) in *.
    destruct (list_begin w) as [lh w1] eqn:Eb.
    set (cs := concat (map chunks (map item_of l))).
    match goal with |- context [mbind _ (?f l w1)] => set (loop := f) end.
    assert (Hloop : ∀ w, loop l w = Ret (extend w cs)).
    { subst cs. assert (Hb : zlen (payload (map item_of l)) < two64) by lia. clear -IH Hw Hb.
      induction IH as [|v l Hv _ IHl]; intros w; [by rewrite extend_nil|].
      apply Forall_cons in Hw as [Hw1 Hw]. unfold payload in Hb. cbn [map concat] in Hb.
      rewrite length_app in Hb. cbn [loop map concat]. fold loop.
      rewrite Hv by (done || lia). cbn [mbind outcome_bind]. rewrite IHl by (done || unfold payload; lia).
      by rewrite extend_app. }
    rewrite Hloop. cbn [mbind outcome_bind].
    assert (Hfc := flat_chunks (Lst (map item_of l))). cbn [enc chunks] in Hfc.
    rewrite length_app in Hfc. fold (payload (map item_of l)) cs in Hfc.
    destruct Hfc as [_ Hsz]; [lia|]. cbn [heads_size] in Hsz.
    change (data_of (Head ?n :: cs)) with (data_of cs) in Hsz.
    rewrite Nat2Z.inj_add, length_head in Hsz by lia.
    pose proof (listEnd_extend w cs) as Hend. rewrite Eb in Hend. cbn [fst snd] in Hend.
    rewrite Hend. do 4 f_equal. unfold payload in *. lia.
Qed.
(** ** The slice parser *)

Lemma strip0_head b l : b2z b ≠ 0 → strip0 (b :: l) = b :: l.
Proof. intros Hb. cbn. by destruct (Z.eqb_spec (b2z b) 0). Qed.

Lemma be_encode_head n : 0 < n → ∃ b l, be_encode n = b :: l ∧ b2z b ≠ 0.
Proof.
  intros Hn. pose proof (be_encode_decode (be_encode n)) as E. rewrite be_decode_encode in E by lia.
  destruct (be_encode n) as [|b l] eqn:En.
  - apply (f_equal be_decode) in En. rewrite be_decode_encode in En by lia. cbn in En. lia.
  - exists b, l. split; [done|]. intros Hb. cbn in E. rewrite Hb in E. cbn in E.
    assert (Hlen : ∀ l, (length (strip0 l) <= length l)%nat).
    { clear. induction l as [|b l IH]; [done|]. cbn. destruct (_ =? 0); [lia|done]. }
    specialize (Hlen l). rewrite <- E in Hlen. cbn in Hlen. lia.
Qed.

Lemma length_be_encode_u64 n : 0 < n < two64 → 1 <= zlen (be_encode n) <= 8.
Proof.
  intros Hn. destruct (be_encode_head n) as (b & l & E & _); [lia|].
  assert ((length (be_encode n) <= 8)%nat).
  { apply length_be_encode_le. unfold pow256, two64 in *. cbn. lia. }
  rewrite E in *. cbn in *. lia.
Qed.

Lemma readSize_encode n tl :
  56 <= n < two64 → readSize (be_encode n ++ tl) (zlen (be_encode n)) = Ret n.
Proof.
  intros Hn. unfold readSize. rewrite length_app.
  destruct (Z.ltb_spec (Z.of_nat (length (be_encode n) + length tl)) (zlen (be_encode n))); [lia|].
  rewrite Nat2Z.id, take_app_length, be_decode_encode by lia.
  destruct (be_encode_head n) as (b & l & E & Hb); [lia|]. rewrite E. cbn [app].
  destruct (Z.ltb_spec n 56); [lia|]. by destruct (Z.eqb_spec (b2z b) 0).
Qed.

Lemma readSize_inv b slen n :
  0 < slen → readSize b slen = Ret n →
  56 <= n ∧ slen <= zlen b ∧ take (Z.to_nat slen) b = be_encode n.
Proof.
  intros Hs. unfold readSize. destruct (Z.ltb_spec (zlen b) slen); [done|].
  destruct b as [|b0 tl] eqn:Eb; [done|]. rewrite <- Eb in *.
  destruct (Z.ltb_spec (be_decode (take (Z.to_nat slen) b)) 56); [done|].
  destruct (Z.eqb_spec (b2z b0) 0); [done|]. cbn. intros [= <-]. split_and!; [lia|lia|].
  rewrite be_encode_decode. rewrite Eb. destruct (Z.to_nat slen) eqn:E; [lia|].
  cbn [firstn]. by rewrite strip0_head.
Qed.

(** The kind, content and size of an encoded item. *)
Definition kind_of (it : Item) : Kind :=
  match it with
  | Str [x] => if b2z x <=? 0x7F then Byte else String
  | Str _ => String
  | Lst _ => List
  end.

Definition content_of (it : Item) : bytes :=
  match it with Str b => b | Lst l => payload l end.

(** An item that is not a single small byte is a header and its content. *)
Lemma enc_header it :
  kind_of it ≠ Byte →
  enc it = (match it with
            | Str _ => head 0x80 0xB7 (zlen (content_of it))
            | Lst _ => head 0xC0 0xF7 (zlen (content_of it))
            end) ++ content_of it.
Proof.
  destruct it as [b|l]; [|done]. cbn. unfold enc_str.
  destruct b as [|x [|y b]]; try done. by destruct (b2z x <=? 127).
Qed.

Lemma enc_byte it : kind_of it = Byte → ∃ x, it = Str [x] ∧ b2z x <= 0x7F ∧ enc it = [x].
Proof.
  destruct it as [[|x [|y b]]|l]; cbn; try done.
  destruct (Z.leb_spec (b2z x) 127); [|done]. exists x. eauto.
Qed.

(** The tag of a header of [n] bytes of content. *)
Lemma b2z_tag z : 0 <= z < 256 → b2z (z2b z) = z.
Proof. intros Hz. rewrite b2z_z2b. by apply Z.mod_small. Qed.

Ltac ltb_case :=
  match goal with |- context [?a <? ?b] => destruct (Z.ltb_spec a b); try lia end.

(** The last check of [readKind]: the content fits. *)
Lemma content_fits (buf : bytes) t n :
  0 <= t → 0 <= n → t + n <= zlen buf → zlen buf < two64 → (u64 (zlen buf - t) <? n) = false.
Proof. intros. rewrite u64_small by (split; lia). apply Z.ltb_ge. lia. Qed.

Lemma readKind_string c rest :
  let h := head 0x80 0xB7 (zlen c) in
  zlen (h ++ c ++ rest) < two64 → (∀ x, c = [x] → 128 <= b2z x) →
  readKind (h ++ c ++ rest) = Ret (String, zlen h, zlen c).
Proof.
  cbv zeta. intros Hlen Hone. rewrite !length_app in Hlen.
  assert (Hfit : ∀ buf t, buf = head 0x80 0xB7 (zlen c) ++ c ++ rest →
    t = zlen (head 0x80 0xB7 (zlen c)) → (u64 (zlen buf - t) <? zlen c) = false).
  { intros buf t -> ->. apply content_fits; rewrite ?length_app; lia. }
  unfold head in *. destruct (Z.ltb_spec (zlen c) 56) as [H56|H56].
  - unfold readKind. cbn [app]. rewrite b2z_tag by lia. do 2 ltb_case.
    replace (128 + zlen c - 128) with (zlen c) by lia.
    assert (Hcan : match c ++ rest with
      | b1 :: _ => if (zlen c =? 1) && (b2z b1 <? 128) then Err ErrCanonSize else Ret (String, 1, zlen c)
      | [] => Ret (String, 1, zlen c)
      end = @Ret error _ (String, 1, zlen c)).
    { destruct c as [|x [|y c]]; cbn [app].
      - destruct rest; done.
      - specialize (Hone x eq_refl). destruct (Z.ltb_spec (b2z x) 128); [lia|].
        by rewrite andb_false_r.
      - destruct (Z.eqb_spec (zlen (x :: y :: c)) 1) as [E|]; [cbn in E; lia|done]. }
    rewrite Hcan. cbn [mbind outcome_bind]. by rewrite Hfit.
  - pose proof (length_be_encode_u64 (zlen c) ltac:(cbn in Hlen; lia)).
    unfold readKind. cbn [app]. rewrite b2z_tag by lia. do 3 ltb_case.
    replace (183 + zlen (be_encode (zlen c)) - 183) with (zlen (be_encode (zlen c))) by lia.
    rewrite readSize_encode by (cbn in Hlen; lia). cbn [mbind outcome_bind].
    rewrite Hfit; [|done|cbn [length]; lia]. do 2 f_equal. f_equal. cbn [length]. lia.
Qed.

Lemma readKind_list c rest :
  let h := head 0xC0 0xF7 (zlen c) in
  zlen (h ++ c ++ rest) < two64 →
  readKind (h ++ c ++ rest) = Ret (List, zlen h, zlen c).
Proof.
  cbv zeta. intros Hlen. rewrite !length_app in Hlen.
  assert (Hfit : ∀ buf t, buf = head 0xC0 0xF7 (zlen c) ++ c ++ rest →
    t = zlen (head 0xC0 0xF7 (zlen c)) → (u64 (zlen buf - t) <? zlen c) = false).
  { intros buf t -> ->. apply content_fits; rewrite ?length_app; lia. }
  unfold head in *. destruct (Z.ltb_spec (zlen c) 56) as [H56|H56].
  - unfold readKind. cbn [app]. rewrite b2z_tag by lia. do 4 ltb_case. cbn [mbind outcome_bind].
    replace (192 + zlen c - 192) with (zlen c) by lia. by rewrite Hfit.
  - pose proof (length_be_encode_u64 (zlen c) ltac:(cbn in Hlen; lia)).
    unfold readKind. cbn [app]. rewrite b2z_tag by lia. do 4 ltb_case.
    replace (247 + zlen (be_encode (zlen c)) - 247) with (zlen (be_encode (zlen c))) by lia.
    rewrite readSize_encode by (cbn in Hlen; lia). cbn [mbind outcome_bind].
    rewrite Hfit; [|done|cbn [length]; lia]. do 2 f_equal. f_equal. cbn [length]. lia.
Qed.

Lemma readKind_enc it rest :
  zlen (enc it ++ rest) < two64 →
  readKind (enc it ++ rest) =
  Ret (kind_of it, zlen (enc it) - zlen (content_of it), zlen (content_of it)).
Proof.
  intros Hlen. destruct (decide (kind_of it = Byte)) as [HB|HB].
  { destruct (enc_byte it HB) as (x & -> & Hx & He). rewrite He in *. unfold readKind. cbn [app].
    cbn [kind_of content_of length]. ltb_case.
    destruct (Z.leb_spec (b2z x) 127); [|lia]. cbn [mbind outcome_bind].
    change (Z.of_nat (S (length rest))) with (zlen (x :: rest)).
    rewrite content_fits by (cbn in *; lia). done. }
  rewrite (enc_header it HB), <- app_assoc in *. rewrite length_app.
  destruct it as [b|l]; cbn [content_of] in *.
  - rewrite readKind_string; [|done|].
    + replace (kind_of (Str b)) with String; [do 2 f_equal; f_equal; lia|].
      cbn in *. destruct b as [|x [|y b]]; try done. by destruct (b2z x <=? 127).
    + intros x ->. cbn in HB. destruct (Z.leb_spec (b2z x) 127); [done|lia].
  - rewrite readKind_list by done. do 2 f_equal. f_equal. lia.
Qed.

Lemma Split_enc it rest :
  zlen (enc it ++ rest) < two64 →
  Split (enc it ++ rest) = Ret (kind_of it, content_of it, rest).
Proof.
  intros Hlen. unfold Split. rewrite readKind_enc by done. cbn [mbind outcome_bind].
  assert (Hd : drop (Z.to_nat (zlen (enc it) - zlen (content_of it))) (enc it) = content_of it ∧
    zlen (content_of it) <= zlen (enc it)).
  { destruct (decide (kind_of it = Byte)) as [HB|HB].
    - destruct (enc_byte it HB) as (x & -> & _ & ->). done.
    - rewrite (enc_header it HB), length_app. split; [|lia].
      by rewrite drop_app_length' by lia. }
  destruct Hd as [Hd Hle]. rewrite drop_app_le by lia. rewrite Hd.
  rewrite take_app_length' by lia. rewrite drop_app_length' by lia. done.
Qed.

(** *** Only canonical encodings are accepted *)

Lemma readKind_inv buf k t n :
  zlen buf < two64 → readKind buf = Ret (k, t, n) →
  0 <= t ∧ 0 <= n ∧ t + n <= zlen buf ∧
  match k with
  | Byte => t = 0 ∧ n = 1 ∧ ∃ x tl, buf = x :: tl ∧ b2z x <= 0x7F
  | String => take (Z.to_nat t) buf = head 0x80 0xB7 n ∧ t = zlen (head 0x80 0xB7 n) ∧
      (n = 1 → ∀ x, buf !! 1%nat = Some x → 128 <= b2z x)
  | List => take (Z.to_nat t) buf = head 0xC0 0xF7 n ∧ t = zlen (head 0xC0 0xF7 n)
  end.
Proof.
  intros Hlen. destruct buf as [|b0 tl]; [done|]. unfold readKind.
  pose proof (b2z_range b0) as Hb0. intros E.
  apply outcome_bind_Ret in E as ([[k' t'] n'] & E & Hfit).
  destruct (Z.ltb_spec (u64 (zlen (b0 :: tl) - t')) n') as [|Hle]; [done|]. simplify_eq.
  assert (Hu : 0 <= t → t <= zlen (b0 :: tl) → t + n <= zlen (b0 :: tl)).
  { intros. rewrite u64_small in Hle by (split; lia). lia. }
  assert (Hz : z2b (b2z b0) = b0) by apply z2b_b2z.
  assert (Hlong : ∀ tag slen, 0 < slen → tag + slen = b2z b0 → readSize tl slen = Ret n →
    t = slen + 1 → 0 <= t ∧ 0 <= n ∧ t <= zlen (b0 :: tl) ∧ 56 <= n ∧
    take (Z.to_nat t) (b0 :: tl) = z2b (tag + zlen (be_encode n)) :: be_encode n ∧
    t = 1 + zlen (be_encode n)).
  { intros tag slen Hs Htag Hrs ->. apply readSize_inv in Hrs as (H56 & Hsl & Htk); [|done].
    assert (Hl : zlen (be_encode n) = slen) by (rewrite <- Htk, length_take; lia).
    replace (Z.to_nat (slen + 1)) with (S (Z.to_nat slen)) by lia. cbn [firstn length].
    rewrite Htk, Hl, Htag, Hz. split_and!; try lia; done. }
  destruct (Z.ltb_spec (b2z b0) 0x80).
  { simplify_eq. split_and!; [lia|lia|apply Hu; cbn [length]; lia|done|done|]. exists b0, tl. split; [done|lia]. }
  destruct (Z.ltb_spec (b2z b0) 0xB8).
  { assert (k = String ∧ t = 1 ∧ n = b2z b0 - 0x80 ∧ (n = 1 → ∀ x, tl !! 0%nat = Some x → 128 <= b2z x))
      as (-> & -> & -> & Hone).
    { destruct tl as [|b1 tl]; [by simplify_eq|].
      destruct (Z.eqb_spec (b2z b0 - 128) 1), (Z.ltb_spec (b2z b1) 128); cbn in E; simplify_eq;
        split_and!; try done; intros; simplify_eq/=; lia. }
    split_and!; [lia|lia|apply Hu; cbn [length]; lia| | |exact Hone];
      unfold head; destruct (Z.ltb_spec (b2z b0 - 128) 56); try lia; [|done].
    cbn. replace (128 + (b2z b0 - 128)) with (b2z b0) by lia. by rewrite Hz. }
  destruct (Z.ltb_spec (b2z b0) 0xC0).
  { apply outcome_bind_Ret in E as (sz & Hrs & E). simplify_eq.
    destruct (Hlong 0xB7 (b2z b0 - 0xB7)) as (? & ? & ? & H56 & -> & Ht); try done; try lia.
    unfold head. destruct (Z.ltb_spec n 56); [lia|].
    split_and!; [lia|lia|apply Hu; lia|done|cbn [length]; lia|intros; lia]. }
  destruct (Z.ltb_spec (b2z b0) 0xF8).
  { simplify_eq. split_and!; [lia|lia|apply Hu; cbn [length]; lia| |];
      unfold head; destruct (Z.ltb_spec (b2z b0 - 192) 56); try lia; [|done].
    cbn. replace (192 + (b2z b0 - 192)) with (b2z b0) by lia. by rewrite Hz. }
  apply outcome_bind_Ret in E as (sz & Hrs & E). simplify_eq.
  destruct (Hlong 0xF7 (b2z b0 - 0xF7)) as (? & ? & ? & H56 & -> & Ht); try done; try lia.
  unfold head. destruct (Z.ltb_spec n 56); [lia|].
  split_and!; [lia|lia|apply Hu; lia|done|cbn [length]; lia].
Qed.

Lemma toBytes_extend v :
  zlen (enc (item_of v)) < two64 →
  toBytes (extend new_encbuf (chunks (item_of v))) = enc (item_of v).
Proof.
  intros Hlen. destruct (flat_chunks (item_of v) Hlen) as [<- _].
  exact (merge_heads_flat [] (chunks (item_of v))).
Qed.

Lemma EncodeToBytes_enc v : writable v → zlen (enc (item_of v)) < two64 → EncodeToBytes v = Ret (enc (item_of v)).
Proof.
  intros Hw Hlen. unfold EncodeToBytes. rewrite write_value_extend by done. cbn [mbind outcome_bind]. by rewrite toBytes_extend.
Qed.

(** ** Claims *)

(** [Split] takes a string or list encoding apart into its kind, its content
    and the rest, whatever follows it; and whatever it accepts is such a
    canonical encoding, so no two inputs of different shape are read alike. *)
Theorem Split_exact b k content rest :
  zlen b < two64 →
  Split b = Ret (k, content, rest) ↔
  match k with
  | List => b = head 0xC0 0xF7 (zlen content) ++ content ++ rest
  | _ => b = enc_str content ++ rest ∧ k = kind_of (Str content)
  end.
Proof.
  intros Hlen. split.
  - unfold Split. intros E. apply outcome_bind_Ret in E as ([[k' t] n] & E & [= <- <- <-]).
    apply readKind_inv in E as (Ht & Hn & Htn & E); [|done].
    set (c := take (Z.to_nat n) (drop (Z.to_nat t) b)).
    assert (Hc : zlen c = n) by (subst c; rewrite length_take, length_drop; lia).
    assert (Hb : b = take (Z.to_nat t) b ++ c ++ drop (Z.to_nat (t + n)) b).
    { subst c. rewrite Z2Nat.inj_add, <- drop_drop, !take_drop by done. done. }
    destruct k'.
    + destruct E as (-> & -> & x & tl & -> & Hx). subst c.
      change (take (Z.to_nat 1) (drop (Z.to_nat 0) (x :: tl))) with [x].
      change (drop (Z.to_nat (0 + 1)) (x :: tl)) with (drop 0 tl).
      unfold enc_str, kind_of. by rewrite (proj2 (Z.leb_le _ _) Hx).
    + destruct E as (E & _ & Hone). rewrite Hb at 1. rewrite E, app_assoc. rewrite <- Hc in *.
      assert (Hsmall : ∀ x, c = [x] → 128 <= b2z x).
      { intros x Ex. apply Hone; [by rewrite Ex|]. rewrite Hb, E, Ex.
        replace (head 128 183 (zlen [x])) with [z2b 129] by done. done. }
      unfold enc_str. cbn [kind_of]. destruct c as [|x [|y c']]; try done.
      specialize (Hsmall x eq_refl). destruct (Z.leb_spec (b2z x) 127); [lia|done].
    + destruct E as (E & _). rewrite Hb at 1. rewrite E, Hc. done.
  - destruct k.
    1-2: intros [-> ->]; apply (Split_enc (Str content)); exact Hlen.
    intros ->. unfold Split. rewrite readKind_list by done. cbn [mbind outcome_bind].
    rewrite <- Nat2Z.inj_add, !Nat2Z.id, drop_app_length, take_app_length.
    by rewrite app_assoc, drop_app_length' by (rewrite length_app; lia).
Qed.

Lemma Split_exact_witness :
  Split [z2b 0x83; z2b 1; z2b 2; z2b 3; z2b 9] = Ret (String, [z2b 1; z2b 2; z2b 3], [z2b 9]).
Proof. apply Split_exact; [done|]. split; reflexivity. Defined.

(** [CountValues] counts the items of a list payload. *)
Lemma count_values_payload l fuel i :
  zlen (payload l) < two64 → (length (payload l) <= fuel)%nat →
  count_values fuel i (payload l) = Ret (i + zlen l).
Proof.
  revert fuel i. induction l as [|it l IH]; intros fuel i Hlen Hf.
  { destruct fuel; cbn; f_equal; lia. }
  unfold payload in *. cbn [map concat] in *. rewrite length_app in *.
  assert (He : (0 < length (enc it))%nat).
  { destruct (decide (kind_of it = Byte)) as [HB|HB].
    - destruct (enc_byte it HB) as (x & -> & _ & ->). cbn. lia.
    - rewrite (enc_header it HB), length_app.
      assert (Hh : ∀ s l n, (0 < length (head s l n))%nat)
        by (intros s' l' n'; unfold head; destruct (_ <? _); cbn; lia).
      destruct it; [pose proof (Hh 0x80 0xB7 (zlen (content_of (Str b))))
                   |pose proof (Hh 0xC0 0xF7 (zlen (content_of (Lst l0))))]; lia. }
  destruct fuel as [|fuel]; [lia|].
  destruct (enc it ++ concat (map enc l)) as [|b0 tl] eqn:E.
  { apply (f_equal length) in E. rewrite length_app in E. cbn in E. lia. }
  cbn [count_values]. rewrite <- E, readKind_enc by (rewrite length_app; lia).
  cbn [mbind outcome_bind].
  replace (zlen (enc it) - zlen (content_of it) + zlen (content_of it)) with (zlen (enc it)) by lia.
  rewrite Nat2Z.id, drop_app_length, IH by lia. cbn [length]. f_equal. lia.
Qed.

(** The encoder with deferred list headers produces the RLP encoding of its
    value, and the buffer it allocates has exactly the size of the output. *)
Theorem EncodeToBytes_correct v :
  writable v → zlen (enc (item_of v)) < two64 →
  EncodeToBytes v = Ret (enc (item_of v)) ∧
  ∃ w, write_value v new_encbuf = Ret w ∧ buf_size w = zlen (toBytes w).
Proof.
  intros Hw Hlen. unfold EncodeToBytes. rewrite write_value_extend by done. cbn [mbind outcome_bind].
  destruct (flat_chunks (item_of v) Hlen) as [_ Hs]. pose proof (toBytes_extend v Hlen) as Ht.
  rewrite Ht. split; [done|]. eexists. split; [done|]. rewrite Ht. exact Hs.
Qed.

(** A struct with a string, a number, a flag and a nested list. *)
Definition demo_value : Value :=
  VList [VBytes [Byte.x64; Byte.x6f; Byte.x67]; VUint 1024; VBool true; VList [VBytes []; VBigInt 5]].

Lemma EncodeToBytes_correct_witness :
  EncodeToBytes demo_value = Ret (enc (item_of demo_value)) ∧
  ∃ w, write_value demo_value new_encbuf = Ret w ∧ buf_size w = zlen (toBytes w).
Proof. apply EncodeToBytes_correct; [cbn; unfold is_u64, two64; lia|reflexivity]. Defined.

End RlpProofs.
