(* ===== verification/RlpStream.v ===== *)
(** * RlpStream: the stream decoder inverts the encoder (rlp/decode.go)

    Hoare-style specifications of the operations of [Stream] on input that
    starts with an encoded item, and the round trip they add up to. *)

From stdpp Require Import base list.
From Stdlib Require Import ZArith Lia.
From S2P Require Import Prelude Rlp RlpProofs.

Local Open Scope Z_scope.

Module RlpStream.
Import Rlp RlpProofs.

(** The stream is about to read [data]; [st] are the enclosing lists. *)
Record reading (s : Stream) (data : bytes) (st : list listpos) : Prop := {
  rd_r : r s = data;
  rd_remaining : remaining s = zlen data;
  rd_limited : limited s = true;
  rd_stack : stack s = st;
}.

(** ... with no value announced yet, *)
Definition ready (s : Stream) (data : bytes) (st : list listpos) : Prop :=
  reading s data st ∧ skind s = None.

(** ... or with the kind and size of the next value already read. *)
Definition peeked (s : Stream) (k : Kind) (n : Z) (data : bytes) (st : list listpos) : Prop :=
  reading s data st ∧ skind s = Some k ∧ ssize s = n ∧ kinderr s = None.

(** The innermost list has room for [n] more bytes. *)
Definition room (st : list listpos) (n : Z) : Prop :=
  match st with
  | [] => True
  | p :: _ => 0 <= pos p ∧ pos p + n <= size p ∧ size p < two64
  end.

Definition bump (st : list listpos) (n : Z) : list listpos :=
  match st with
  | [] => []
  | p :: st => mk_pos (pos p + n) (size p) :: st
  end.

Lemma bump_bump st n m : bump (bump st n) m = bump st (n + m).
Proof. destruct st as [|p st]; [done|]. cbn. by rewrite Z.add_assoc. Qed.

Lemma room_le st n m : 0 <= m <= n → room st n → room st m.
Proof. destruct st; cbn; lia. Qed.

Lemma room_bump st n m : 0 <= n → 0 <= m → room st (n + m) → room (bump st n) m.
Proof. destruct st; cbn; lia. Qed.

(** Runs the monad: unfolds its operations and the record updates. *)
Ltac sm :=
  cbv [mbind SM_bind mret SM_ret modify get fail set_kind set_size set_byteval set_kinderr
       set_stack set_remaining set_r];
  cbn [r remaining limited skind ssize byteval kinderr stack pos size].

(** ** Reading bytes *)

Lemma willRead_ok s data st n :
  reading s data st → room st n → 0 <= n <= zlen data →
  willRead n s =
  (inr tt, mk_stream data (zlen data - n) true None (ssize s) (byteval s) (kinderr s) (bump st n)).
Proof.
  intros [Hr Hrem Hlim Hst] Hroom Hn. destruct s as [r0 rem lim k sz bv ke st0]; cbn in *. subst.
  destruct st as [|p st]; cbn in *; unfold willRead; sm.
  - destruct (Z.ltb_spec (zlen data) n); [lia|]. done.
  - rewrite (u64_small (size p - pos p)) by (split; lia).
    destruct (Z.ltb_spec (size p - pos p) n); [lia|]. sm.
    destruct (Z.ltb_spec (zlen data) n); [lia|]. sm.
    rewrite (u64_small (pos p + n)) by (split; lia). done.
Qed.

Lemma readByte_ok s b tl st :
  reading s (b :: tl) st → room st 1 →
  readByte s =
  (inr b, mk_stream tl (zlen tl) true None (ssize s) (byteval s) (kinderr s) (bump st 1)).
Proof.
  intros Hrd Hroom. unfold readByte. sm.
  rewrite (willRead_ok s (b :: tl) st 1) by (try done; cbn [length]; lia).
  sm. do 3 f_equal. cbn [length]. lia.
Qed.

Lemma readFull_ok s c tl st :
  reading s (c ++ tl) st → room st (zlen c) →
  readFull (zlen c) s =
  (inr c, mk_stream tl (zlen tl) true None (ssize s) (byteval s) (kinderr s) (bump st (zlen c))).
Proof.
  intros Hrd Hroom. unfold readFull. sm.
  rewrite (willRead_ok s (c ++ tl) st) by (try done; rewrite length_app; lia).
  sm. rewrite Nat2Z.id, (proj2 (Nat.leb_le _ _)) by (rewrite length_app; lia).
  sm. rewrite drop_app_length, take_app_length. do 3 f_equal. rewrite length_app. lia.
Qed.

Lemma readUint_ok s n tl st :
  0 < n < two64 → reading s (be_encode n ++ tl) st → room st (zlen (be_encode n)) →
  readUint (zlen (be_encode n)) s =
  (inr n, mk_stream tl (zlen tl) true None (ssize s) (byteval s) (kinderr s)
            (bump st (zlen (be_encode n)))).
Proof.
  intros Hn Hrd Hroom. pose proof (length_be_encode_u64 n Hn) as Hlen.
  destruct (be_encode_head n) as (b & l & E & Hb); [lia|].
  unfold readUint. destruct (Z.eqb_spec (zlen (be_encode n)) 0); [lia|].
  destruct (Z.eqb_spec (zlen (be_encode n)) 1) as [E1|].
  - rewrite E in E1. destruct l; [|cbn in E1; lia]. rewrite E in *. sm.
    rewrite (readByte_ok s b tl st) by done. do 2 f_equal.
    pose proof (be_decode_encode n ltac:(lia)) as Hd. rewrite E in Hd. exact Hd.
  - sm. rewrite (readFull_ok s (be_encode n) tl st) by done. rewrite E. destruct (Z.eqb_spec (b2z b) 0); [done|]. rewrite <- E, be_decode_encode by lia. done.
Qed.

(** ** Announcing the next value *)

(** The size [Kind] reports: zero for a single byte. *)
Definition csize (it : Item) : Z :=
  if decide (kind_of it = Byte) then 0 else zlen (content_of it).

(** What is left to read of an item after its header. *)
Definition body (it : Item) : bytes :=
  if decide (kind_of it = Byte) then [] else content_of it.

Lemma csize_content it : kind_of it ≠ Byte → csize it = zlen (content_of it) ∧ body it = content_of it.
Proof. intros HB. unfold csize, body. by rewrite !decide_False. Qed.

Lemma csize_byte it : kind_of it = Byte → csize it = 0 ∧ body it = [].
Proof. intros HB. unfold csize, body. by rewrite !decide_True. Qed.

Lemma enc_body it : ∃ h, enc it = h ++ body it ∧ zlen h = zlen (enc it) - csize it ∧ 1 <= zlen h.
Proof.
  unfold csize, body. destruct (decide (kind_of it = Byte)) as [HB|HB].
  - destruct (enc_byte it HB) as (x & -> & _ & ->). exists [x]. done.
  - pose proof (enc_header it HB) as E.
    assert (Hh : ∀ s l n, 1 <= zlen (head s l n))
      by (intros s l n; unfold head; destruct (_ <? _); cbn [length]; lia).
    destruct it; (eexists; split_and!; [exact E|rewrite E, length_app; lia|apply Hh]).
Qed.

Lemma length_enc_pos it : 1 <= zlen (enc it).
Proof. destruct (enc_body it) as (h & -> & _ & ?). rewrite length_app. lia. Qed.

Lemma csize_pos it : 0 <= csize it.
Proof. unfold csize. case_decide; lia. Qed.

Lemma read_long_size_ok k s n tl st :
  56 <= n < two64 → reading s (be_encode n ++ tl) st → room st (zlen (be_encode n)) →
  read_long_size k (zlen (be_encode n)) s =
  ((k, n, None), mk_stream tl (zlen tl) true None (ssize s) (byteval s) (kinderr s)
            (bump st (zlen (be_encode n)))).
Proof.
  intros Hn Hrd Hroom. unfold read_long_size. rewrite (readUint_ok s n tl st) by (done || lia).
  destruct (Z.ltb_spec n 56); [lia|done].
Qed.

Definition header_tags (small large : Z) (k : Kind) : Prop :=
  (small = 0x80 ∧ large = 0xB7 ∧ k = String) ∨ (small = 0xC0 ∧ large = 0xF7 ∧ k = List).

Lemma stream_readKind_header small large k s c rest st :
  header_tags small large k → zlen c < two64 →
  let h := head small large (zlen c) in
  reading s (h ++ c ++ rest) st → room st (zlen h) →
  stream_readKind s =
  ((k, zlen c, None),
   mk_stream (c ++ rest) (zlen (c ++ rest)) true None (ssize s) Byte.x00 (kinderr s)
     (bump st (zlen h))).
Proof.
  cbv zeta. intros Htag Hc Hrd Hroom. unfold stream_readKind, head in *.
  destruct (Z.ltb_spec (zlen c) 56) as [H56|H56].
  - rewrite (readByte_ok s _ (c ++ rest) st) by done. rewrite b2z_tag by (destruct Htag; lia). sm.
    destruct Htag as [(-> & -> & ->)|(-> & -> & ->)]; repeat ltb_case; do 3 f_equal; lia.
  - pose proof (length_be_encode_u64 (zlen c) ltac:(lia)) as Hl.
    rewrite (readByte_ok s (z2b (large + zlen (be_encode (zlen c)))) (be_encode (zlen c) ++ c ++ rest) st);
      [|done|eapply room_le; [|exact Hroom]; cbn [length]; lia].
    rewrite b2z_tag by (destruct Htag; lia). sm.
    set (s1 := mk_stream (be_encode (zlen c) ++ c ++ rest) _ _ _ _ Byte.x00 _ _).
    assert (H1 : reading s1 (be_encode (zlen c) ++ c ++ rest) (bump st 1)) by done.
    assert (H2 : room (bump st 1) (zlen (be_encode (zlen c)))).
    { apply room_bump; [lia|lia|]. eapply room_le; [|exact Hroom]. cbn [length]. lia. }
    assert (H3 : read_long_size k (zlen (be_encode (zlen c))) s1 =
      ((k, zlen c, None), mk_stream (c ++ rest) (zlen (c ++ rest)) true None (ssize s) Byte.x00
         (kinderr s) (bump st (zlen (z2b (large + zlen (be_encode (zlen c))) :: be_encode (zlen c)))))).
    { rewrite (read_long_size_ok k s1 (zlen c) (c ++ rest) (bump st 1)) by (done || lia).
      rewrite bump_bump. cbn [length]. rewrite Nat2Z.inj_succ, <- Z.add_1_l. done. }
    rewrite <- H3. destruct Htag as [(-> & -> & ->)|(-> & -> & ->)]; repeat ltb_case; f_equal; lia.
Qed.

Lemma kind_header it :
  kind_of it ≠ Byte →
  ∃ small large, header_tags small large (kind_of it) ∧
    enc it = head small large (zlen (content_of it)) ++ content_of it.
Proof.
  intros HB. pose proof (enc_header it HB) as E. destruct it as [b|l].
  - exists 0x80, 0xB7. split; [left|done]. cbn in *. split_and!; try done.
    destruct b as [|x [|y b]]; try done. by destruct (b2z x <=? 127).
  - exists 0xC0, 0xF7. split; [right|]; done.
Qed.

Lemma stream_readKind_ok s it rest st :
  reading s (enc it ++ rest) st → room st (zlen (enc it)) → zlen (enc it ++ rest) < two64 →
  ∃ bv, stream_readKind s =
    ((kind_of it, csize it, None),
     mk_stream (body it ++ rest) (zlen (body it ++ rest)) true None (ssize s) bv (kinderr s)
       (bump st (zlen (enc it) - csize it))) ∧
    (∀ x, kind_of it = Byte → it = Str [x] → bv = x).
Proof.
  intros Hrd Hroom Hlen. unfold csize, body. rewrite length_app in Hlen.
  destruct (decide (kind_of it = Byte)) as [HB|HB].
  { destruct (enc_byte it HB) as (x & -> & Hx & He). rewrite He in *. unfold stream_readKind.
    rewrite (readByte_ok s x rest st Hrd Hroom), HB. destruct (Z.ltb_spec (b2z x) 128); [|lia].
    sm. exists x. split; [done|]. by intros y _ [= ->]. }
  destruct (kind_header it HB) as (small & large & Htag & E). rewrite E in *.
  rewrite <- app_assoc in Hrd. rewrite length_app in *. exists Byte.x00. split; [|done].
  rewrite (stream_readKind_header small large (kind_of it) s (content_of it) rest st);
    [|done|lia|done|eapply room_le; [|exact Hroom]; lia].
  by rewrite !length_app, !Nat2Z.inj_add, Z.add_simpl_r.
Qed.

(** *** [Kind] *)

Lemma Kind_ready s it rest st :
  ready s (enc it ++ rest) st → room st (zlen (enc it)) → zlen (enc it ++ rest) < two64 →
  ∃ s', Kind_ s = (inr (kind_of it, csize it), s') ∧
    peeked s' (kind_of it) (csize it) (body it ++ rest) (bump st (zlen (enc it) - csize it)) ∧
    (∀ x, kind_of it = Byte → it = Str [x] → byteval s' = x).
Proof.
  intros [Hrd Hk] Hroom Hlen. pose proof (length_enc_pos it) as Hpos.
  destruct (enc_body it) as (h & Eh & Hlh & Hh).
  assert (Hb : zlen (body it) = csize it) by (apply (f_equal length) in Eh; rewrite length_app in Eh; lia).
  assert (Hrd' : reading (set_kinderr s None) (enc it ++ rest) st) by by destruct Hrd.
  destruct (stream_readKind_ok (set_kinderr s None) it rest st Hrd' Hroom Hlen) as (bv & E & Hbv).
  assert (Hsk : store_kind (set_kinderr s None) =
    (inr tt, mk_stream (body it ++ rest) (zlen (body it ++ rest)) true (Some (kind_of it)) (csize it) bv
       None (bump st (zlen (enc it) - csize it)))).
  { unfold store_kind. rewrite E. sm. f_equal. f_equal.
    pose proof (csize_pos it). destruct st as [|p st]; cbn in *.
    - rewrite length_app. destruct (Z.ltb_spec (Z.of_nat (length (body it) + length rest)) (csize it)); [lia|done].
    - rewrite u64_small by (split; lia).
      destruct (Z.ltb_spec (size p - (pos p + (zlen (enc it) - csize it))) (csize it)); [lia|done]. }
  assert (HK : Kind_ s = (inr (kind_of it, csize it),
    mk_stream (body it ++ rest) (zlen (body it ++ rest)) true (Some (kind_of it)) (csize it) bv
       None (bump st (zlen (enc it) - csize it)))).
  { unfold Kind_. sm. rewrite Hk. unfold set_kinderr in Hsk.
    destruct st as [|p st]; rewrite (rd_stack _ _ _ Hrd) in *.
    - rewrite Hsk. sm. done.
    - cbn in Hroom. destruct (Z.eqb_spec (pos p) (size p)); [lia|]. rewrite Hsk. sm. done. }
  eexists. split; [exact HK|]. split; [split_and!; done|]. exact Hbv.
Qed.

Lemma Kind_peeked s k n data st : peeked s k n data st → Kind_ s = (inr (k, n), s).
Proof.
  intros (_ & Hk & Hn & He). unfold Kind_. sm. rewrite Hk. sm. rewrite He, Hk, Hn. done.
Qed.

Lemma Kind_EOL s data p st :
  ready s data (p :: st) → pos p = size p → ∃ s', Kind_ s = (inl EOL, s') ∧ ready s' data (p :: st).
Proof.
  intros [[Hr Hrem Hlim Hst] Hk] Hp. unfold Kind_. sm. rewrite Hk, Hst, Hp, Z.eqb_refl.
  eexists. split; [done|]. by repeat split.
Qed.

(** ** The value operations

    Each of them starts with [Kind]; [announced] is what it finds, whether it
    reads the header itself or the header was read before. [st] is the stack
    before the header. *)
Definition announced (s s' : Stream) (it : Item) (rest : bytes) (st : list listpos) : Prop :=
  Kind_ s = (inr (kind_of it, csize it), s') ∧
  peeked s' (kind_of it) (csize it) (body it ++ rest) (bump st (zlen (enc it) - csize it)) ∧
  (∀ x, kind_of it = Byte → it = Str [x] → byteval s' = x) ∧
  room st (zlen (enc it)) ∧ zlen (enc it ++ rest) < two64.

Lemma ready_announced s it rest st :
  ready s (enc it ++ rest) st → room st (zlen (enc it)) → zlen (enc it ++ rest) < two64 →
  ∃ s', announced s s' it rest st.
Proof.
  intros Hs Hroom Hlen. destruct (Kind_ready s it rest st Hs Hroom Hlen) as (s' & HK & Hp & Hb).
  exists s'. split_and!; done.
Qed.

Lemma announced_again s s' it rest st : announced s s' it rest st → announced s' s' it rest st.
Proof.
  intros (_ & Hp & Hb & Hroom & Hlen). split_and!; try done. by eapply Kind_peeked.
Qed.

Lemma csize_bound it : 0 <= csize it < zlen (enc it).
Proof. pose proof (csize_pos it). destruct (enc_body it) as (h & _ & ? & ?). lia. Qed.

(** Reading the announced content. *)
Lemma announced_readFull s s' it rest st :
  announced s s' it rest st → kind_of it ≠ Byte →
  ∃ s'', readFull (csize it) s' = (inr (content_of it), s'') ∧ ready s'' rest (bump st (zlen (enc it))).
Proof.
  intros (_ & (Hrd & _) & _ & Hroom & _) HB. pose proof (csize_bound it) as Hc.
  destruct (csize_content it HB) as [Ec Eb]. rewrite Ec, Eb in *.
  rewrite (readFull_ok s' (content_of it) rest _ Hrd).
  - eexists. split; [done|]. split; [|done]. split; cbn; try done. rewrite bump_bump. f_equal. lia.
  - apply room_bump; [lia|lia|]. eapply room_le; [|exact Hroom]. lia.
Qed.

Lemma Bytes_ok s s' b rest st :
  announced s s' (Str b) rest st →
  ∃ s'', Bytes s = (inr b, s'') ∧ ready s'' rest (bump st (zlen (enc (Str b)))).
Proof.
  intros Ha. pose proof Ha as (HK & (Hrd & _) & Hb & _ & _). unfold Bytes. sm. rewrite HK.
  destruct (decide (kind_of (Str b) = Byte)) as [HB|HB].
  - destruct (enc_byte _ HB) as (x & [= ->] & _ & He). rewrite HB, (Hb x) by done.
    eexists. split; [done|]. destruct (csize_byte _ HB) as [Ec Eb]. rewrite Ec, Eb, Z.sub_0_r in Hrd.
    destruct Hrd as [Hr Hrem Hlim Hst]. split; [|done]. split; cbn; done.
  - destruct (announced_readFull _ _ _ _ _ Ha HB) as (s'' & HF & Hs'').
    assert (HS : kind_of (Str b) = String).
    { cbn in *. destruct b as [|x [|y b]]; try done. by destruct (b2z x <=? 127). }
    rewrite HS, HF. exists s''. split; [|done]. cbn [content_of].
    destruct b as [|x [|y b]]; try done.
    + cbn in HB. destruct (Z.leb_spec (b2z x) 127); [done|].
      destruct (Z.ltb_spec (b2z x) 128); [lia|]. by rewrite andb_false_r.
    + rewrite (proj1 (csize_content _ HB)). cbn [content_of].
      destruct (Z.eqb_spec (zlen (x :: y :: b)) 1) as [E|]; [cbn in E; lia|done].
Qed.

Lemma List_ok s s' l rest st :
  announced s s' (Lst l) rest st →
  ∃ s'', List_ s = (inr (zlen (payload l)), s'') ∧
    ready s'' (payload l ++ rest)
      (mk_pos 0 (zlen (payload l)) :: bump st (zlen (enc (Lst l)) - zlen (payload l))).
Proof.
  intros (HK & ([Hr Hrem Hlim Hst] & _) & _). unfold List_. sm. rewrite HK. cbn [kind_of].
  destruct (csize_content (Lst l)) as [Ec Eb]; [done|]. rewrite Ec, Eb in *. cbn [content_of] in *.
  eexists. split; [done|]. split; [|done]. split; cbn; try done. by rewrite Hst.
Qed.

Lemma ListEnd_ok s data n st m :
  ready s data (mk_pos n n :: bump st m) → 0 <= n → 0 <= m → room st (m + n) →
  ∃ s', ListEnd s = (inr tt, s') ∧ ready s' data (bump st (m + n)).
Proof.
  intros [[Hr Hrem Hlim Hst] Hk] Hn Hm Hroom. unfold ListEnd. sm. rewrite Hst. cbn [pos size].
  rewrite Z.eqb_refl. cbn [negb]. eexists. split; [done|]. split; [|done]. split; cbn; try done.
  destruct st as [|p st]; [done|]. cbn in *. rewrite u64_small by (split; lia). do 2 f_equal. lia.
Qed.

(** Booleans and the empty string. *)
Lemma Bool_ok s s' (b : bool) rest st :
  announced s s' (Str (if b then [z2b 1] else [])) rest st →
  ∃ s'', Bool s = (inr b, s'') ∧ ready s'' rest (bump st 1).
Proof.
  intros (HK & ([Hr Hrem Hlim Hst] & Hp) & Hbv & Hroom & _). unfold Bool, uint. sm. rewrite HK. destruct b.
  - change (kind_of (Str [z2b 1])) with Byte in *. sm. rewrite (Hbv (z2b 1)) by done.
    eexists. split; [reflexivity|]. split; [|done]. split; done.
  - eexists. split; [reflexivity|]. split; [|done]. split; done.
Qed.

(** ** The round trip *)

Definition decodes (dec : SM Item) (it : Item) : Prop := ∀ s rest st,
  ready s (enc it ++ rest) st → room st (zlen (enc it)) → zlen (enc it ++ rest) < two64 →
  ∃ s', dec s = (inr it, s') ∧ ready s' rest (bump st (zlen (enc it))).

(** [dec] reports the end of a list. *)
Definition stops (dec : SM Item) : Prop := ∀ s data p st,
  ready s data (p :: st) → pos p = size p → ∃ s', dec s = (inl EOL, s') ∧ ready s' data (p :: st).

Lemma decode_elems_ok dec l fuel s rest n st :
  (length l < fuel)%nat → Forall (decodes dec) l → stops dec →
  0 <= n → n + zlen (payload l) < two64 → zlen (payload l ++ rest) < two64 →
  ready s (payload l ++ rest) (mk_pos n (n + zlen (payload l)) :: st) →
  ∃ s', decode_elems dec fuel s = (inr l, s') ∧
    ready s' rest (mk_pos (n + zlen (payload l)) (n + zlen (payload l)) :: st).
Proof.
  revert fuel s n. induction l as [|it l IH]; intros fuel s n Hf Hdec Hstop Hn Hsz Hlen Hs;
    (destruct fuel as [|fuel]; [cbn in Hf; lia|]); cbn [decode_elems].
  - destruct (Hstop s _ _ _ Hs) as (s' & -> & Hs'); [cbn; lia|]. exists s'. split; [done|].
    cbn in Hs'. by rewrite Z.add_0_r in *.
  - apply Forall_cons in Hdec as [Hit Hdec]. unfold payload in *. cbn [map concat] in *.
    rewrite <- app_assoc in *. rewrite !length_app in *.
    destruct (Hit s (concat (map enc l) ++ rest) _ Hs) as (s1 & E1 & Hs1).
    { cbn. lia. } { rewrite !length_app. lia. }
    rewrite E1. cbn [bump pos size] in Hs1.
    destruct (IH fuel s1 (n + zlen (enc it))) as (s2 & E2 & Hs2);
      [cbn in Hf; lia|done|done|lia|lia|rewrite ?length_app; lia| |].
    { replace (n + zlen (enc it) + zlen (concat (map enc l)))
        with (n + Z.of_nat (length (enc it) + length (concat (map enc l)))) by lia. done. }
    rewrite E2. exists s2. split; [done|].
    replace (n + Z.of_nat (length (enc it) + length (concat (map enc l))))
      with (n + zlen (enc it) + zlen (concat (map enc l))) by lia. done.
Qed.

Lemma decodeInterface_stops fuel : stops (decodeInterface (S fuel)).
Proof.
  intros s data p st Hs Hp. destruct (Kind_EOL s data p st Hs Hp) as (s' & HK & Hs').
  cbn [decodeInterface]. sm. rewrite HK. eauto.
Qed.

Lemma length_items l : zlen l <= zlen (payload l).
Proof.
  unfold payload. induction l as [|it l IH]; [done|]. cbn [map concat]. rewrite length_app.
  pose proof (length_enc_pos it). cbn [length]. lia.
Qed.

(** One more than the length of the encoding is fuel enough. *)
Lemma decodeInterface_ok it fuel :
  (length (enc it) < fuel)%nat → decodes (decodeInterface fuel) it.
Proof.
  revert fuel. induction it as [b|l IH] using Item_ind'; intros fuel Hf s rest st Hs Hroom Hlen;
    (destruct fuel as [|fuel]; [lia|]); cbn [decodeInterface].
  - destruct (ready_announced s _ rest st Hs Hroom Hlen) as (s1 & Ha). pose proof Ha as (HK & _).
    sm. rewrite HK. destruct (Bytes_ok s1 s1 b rest st (announced_again _ _ _ _ _ Ha)) as (s2 & HB & Hs2).
    exists s2. split; [|done].
    assert (Hk : kind_of (Str b) ≠ List) by (cbn; repeat case_match; done).
    destruct (kind_of (Str b)); [by rewrite HB|by rewrite HB|done].
  - destruct (ready_announced s _ rest st Hs Hroom Hlen) as (s1 & Ha). pose proof Ha as (HK & _).
    sm. rewrite HK. cbn [kind_of].
    destruct (List_ok s1 s1 l rest st (announced_again _ _ _ _ _ Ha)) as (s2 & -> & Hs2).
    pose proof (csize_bound (Lst l)) as Hc. rewrite (proj1 (csize_content (Lst l) ltac:(done))) in Hc.
    cbn [content_of] in Hc. rewrite length_app in Hlen.
    set (m := zlen (enc (Lst l)) - zlen (payload l)) in *.
    assert (Hend : ∀ s3, ready s3 rest (mk_pos (zlen (payload l)) (zlen (payload l)) :: bump st m) →
      ∃ s4, ListEnd s3 = (inr tt, s4) ∧ ready s4 rest (bump st (zlen (enc (Lst l))))).
    { intros s3 Hs3. replace (zlen (enc (Lst l))) with (m + zlen (payload l)) by (subst m; lia).
      apply ListEnd_ok; [done|lia|lia|]. eapply room_le; [|exact Hroom]. lia. }
    pose proof (length_items l) as Hil.
    destruct (Z.eqb_spec (zlen (payload l)) 0) as [E0|E0].
    + destruct l as [|x l]; [|cbn [length] in Hil; lia].
      destruct (Hend s2) as (s4 & -> & Hs4); [exact Hs2|]. eauto.
    + destruct (decode_elems_ok (decodeInterface fuel) l fuel s2 rest 0
        (bump st m)) as (s3 & -> & Hs3); try lia.
      * destruct fuel as [|fuel]; [lia|]. apply Forall_forall. intros x Hx.
        rewrite Forall_forall in IH. apply IH; [done|]. pose proof (length_enc_elem x l Hx). lia.
      * destruct fuel as [|fuel]; [lia|]. apply decodeInterface_stops.
      * rewrite length_app. lia.
      * exact Hs2.
      * destruct (Hend s3 Hs3) as (s4 & -> & Hs4). eauto.
Qed.

(** C29: Decoding what was encoded gives the value back, as nested lists of
    strings, and consumes all of the input: encoder and stream decoder are
    inverse on every value Go can hold. *)
Theorem rlp_roundtrip v :
  writable v → zlen (enc (item_of v)) < two64 →
  ∃ b s, EncodeToBytes v = Ret b ∧
    decodeInterface (S (length b)) (NewStream b) = (inr (item_of v), s) ∧ r s = [].
Proof.
  intros Hw Hlen. unfold EncodeToBytes. rewrite write_value_extend by done. cbn [mbind outcome_bind].
  rewrite toBytes_extend by done.
  destruct (decodeInterface_ok (item_of v) (S (length (enc (item_of v)))) ltac:(lia)
    (NewStream (enc (item_of v))) [] []) as (s & E & [[Hr _ _ _] _]).
  { rewrite app_nil_r. done. } { done. } { by rewrite app_nil_r. }
  eauto.
Qed.

Lemma rlp_roundtrip_witness :
  ∃ b s, EncodeToBytes demo_value = Ret b ∧
    decodeInterface (S (length b)) (NewStream b) = (inr (item_of demo_value), s) ∧ r s = [].
Proof. apply rlp_roundtrip; [cbn; unfold is_u64, two64; lia|reflexivity]. Defined.

End RlpStream.
