(* ===== verification/CMdb.v ===== *)
(** * CMdb: the commitment database (core/rawdb, core/types/commitment.go)

    Commitments are stored under the hash of their bytes as RLP-encoded [CM]
    records. The key-value store is a finite map from keys to values;
    [sha3.NewLegacyKeccak256] (golang.org/x/crypto) is the section variable
    [keccak]. [log.Crit] ends the process: [Panic]. *)

From stdpp Require Import base gmap list.
From Stdlib Require Import ZArith Lia.
From S2P Require Import Prelude Zkp Types Rlp RlpProofs RlpStream.

Local Open Scope Z_scope.

Module CMdb.
Import Types Rlp.

Abbreviation database := (gmap bytes bytes).

(** [CMHashPrefix + hash] *)
Definition CMHashPrefix : bytes := [Byte.x63].
Definition CMKey (hash : bytes) : bytes := CMHashPrefix ++ hash.

(** The [CM] struct as the codec sees it. *)
Definition CM_value (cm : CM) : Value := VList [VBytes (Cm cm); VBool (Spent cm); VBool (Lock cm)].

(** The struct decoder: [EOL] in a field means too few elements. *)
Definition field {A} (m : SM A) : SM A := λ s,
  match m s with
  | (inl EOL, s) => (inl errTooFewElements, s)
  | res => res
  end.

Definition decodeCM : SM CM :=
  List_;;
  c ← field Bytes;
  sp ← field Bool;
  lk ← field Bool;
  ListEnd;;
  mret (mkCM c sp lk).

Definition HasCM (db : database) (hash : bytes) : bool :=
  bool_decide (is_Some (db !! CMKey hash)).

Definition WriteCM (db : database) (hash : bytes) (cm : CM) : outcome error database :=
  match EncodeToBytes (CM_value cm) with
  | Ret data => Ret (<[CMKey hash := data]> db)
  | _ => Panic
  end.

(** [nil] for a missing or an empty value. *)
Definition ReadCMRLP (db : database) (hash : bytes) : bytes := default [] (db !! CMKey hash).

Definition ReadCM (db : database) (hash : bytes) : option CM :=
  let data := ReadCMRLP db hash in
  match data with
  | [] => None
  | _ => match (decodeCM (NewStream data)).1 with inr cm => Some cm | inl _ => None end
  end.

Definition DeleteCM (db : database) (hash : bytes) : database := delete (CMKey hash) db.

Section WithKeccak.
Context (keccak : bytes → bytes).

(** [rlpHash]: the hash of the encoding; an encoding error leaves the
    hasher without input. *)
Definition rlpHash (v : Value) : bytes :=
  keccak (match EncodeToBytes v with Ret b => b | _ => [] end).

Definition CM_Hash (cm : CM) : bytes := rlpHash (VBytes (Cm cm)).

(** One transaction of a block. *)
Definition write_tx_CM (db : database) (tx : txdata) : outcome error database :=
  db ← (if ID tx =? 1 then
          let CmV := NewDefaultCM (CmV tx) in
          WriteCM db (CM_Hash CmV) CmV
        else Ret db);
  if ID tx =? 0 then
    let CmO := NewCM (CmO tx) true in
    db ← WriteCM db (CM_Hash CmO) CmO;
    let CmS := NewDefaultCM (CmS tx) in
    db ← WriteCM db (CM_Hash CmS) CmS;
    let CmR := NewDefaultCM (CmR tx) in
    WriteCM db (CM_Hash CmR) CmR
  else Ret db.

Fixpoint WriteAllCM (db : database) (txs : list txdata) : outcome error database :=
  match txs with
  | [] => Ret db
  | tx :: txs => db ← write_tx_CM db tx; WriteAllCM db txs
  end.
End WithKeccak.

(** ** The stored record is the record read *)

Import RlpProofs RlpStream.

(** A field of a struct, with [n] bytes of the list read before it. *)
Lemma field_announced s it rest n total :
  ready s (enc it ++ rest) [mk_pos n total] → 0 <= n → n + zlen (enc it ++ rest) <= total →
  total < two64 → ∃ s', announced s s' it rest [mk_pos n total].
Proof.
  intros Hs Hn Hfit Ht. rewrite length_app in Hfit.
  apply ready_announced; [done| |]; cbn; rewrite ?length_app; lia.
Qed.

Lemma decodeCM_enc cm :
  zlen (enc (item_of (CM_value cm))) < two64 →
  ∃ s, decodeCM (NewStream (enc (item_of (CM_value cm)))) = (inr cm, s).
Proof.
  destruct cm as [c sp lk]. cbn [CM_value Cm Spent Lock item_of map].
  set (bool_item (b : bool) := Str (if b then [z2b 1] else [])). fold (bool_item sp) (bool_item lk).
  set (l := [Str c; bool_item sp; bool_item lk]). intros Hlen.
  assert (Hb : ∀ b, zlen (enc (bool_item b)) = 1) by by intros [].
  assert (Hpl : payload l = enc (Str c) ++ enc (bool_item sp) ++ enc (bool_item lk) ++ [])
    by (unfold payload; cbn [l map concat]; by rewrite !app_nil_r).
  pose proof (csize_bound (Lst l)) as Hc. rewrite (proj1 (csize_content (Lst l) ltac:(done))) in Hc.
  cbn [content_of] in Hc.
  destruct (ready_announced (NewStream (enc (Lst l))) (Lst l) [] []) as (s0 & H0);
    [by rewrite app_nil_r|done|by rewrite app_nil_r|].
  destruct (List_ok _ _ _ _ _ H0) as (s1 & E1 & H1). rewrite app_nil_r in H1. cbn [bump] in H1.
  assert (Htot : zlen (payload l) = zlen (enc (Str c)) + 2)
    by (rewrite Hpl, !length_app, !Nat2Z.inj_add, !Hb; cbn; lia).
  rewrite Hpl in H1 at 1.
  destruct (field_announced s1 (Str c) _ _ _ H1) as (s1' & A1);
    [lia|rewrite <- Hpl; lia|lia|].
  destruct (Bytes_ok _ _ _ _ _ A1) as (s2 & E2 & H2). cbn [bump pos size] in H2.
  destruct (field_announced s2 _ _ _ _ H2) as (s2' & A2);
    [lia|rewrite ?length_app, ?Nat2Z.inj_add, ?Hb; cbn [length]; lia|lia|].
  destruct (Bool_ok _ _ _ _ _ A2) as (s3 & E3 & H3). cbn [bump pos size] in H3.
  destruct (field_announced s3 _ _ _ _ H3) as (s3' & A3);
    [lia|rewrite ?length_app, ?Nat2Z.inj_add, ?Hb; cbn [length]; lia|lia|].
  destruct (Bool_ok _ _ _ _ _ A3) as (s4 & E4 & H4). cbn [bump pos size] in H4.
  replace (0 + zlen (enc (Str c)) + 1 + 1) with (zlen (payload l)) in H4 by lia.
  destruct (ListEnd_ok s4 [] (zlen (payload l)) [] 0) as (s5 & E5 & _); [exact H4|lia|lia|done|].
  exists s5. unfold decodeCM, field. sm. rewrite E1, E2, E3, E4, E5. done.
Qed.

(** A commitment of at most 2^32 bytes fits every size field. *)
Definition storable (cm : CM) : Prop := zlen (Cm cm) < 2 ^ 32.

Lemma storable_enc cm : storable cm → zlen (enc (item_of (CM_value cm))) < two64.
Proof.
  unfold storable. destruct cm as [c sp lk]. cbn [CM_value Cm Spent Lock item_of map]. intros Hc.
  assert (Hhead : ∀ a b n, 0 <= n < two64 → zlen (head a b n) <= 9).
  { intros a b n Hn. unfold head. destruct (Z.ltb_spec n 56); [cbn; lia|].
    pose proof (length_be_encode_u64 n ltac:(lia)). cbn [length]. lia. }
  assert (Hstr : zlen (enc (Str c)) <= 2 ^ 32 + 9).
  { cbn [enc]. unfold enc_str. pose proof (Hhead 0x80 0xB7 (zlen c)). pose proof (Hhead 0x80 0xB7 1).
    unfold two64 in *. destruct c as [|x [|y c]]; [|destruct (_ <=? _)|];
      rewrite ?length_app; cbn [length] in *; lia. }
  assert (Hb : ∀ b : bool, zlen (enc (Str (if b then [z2b 1] else []))) = 1) by by intros [].
  rewrite length_payload. unfold payload. cbn [map concat].
  rewrite !length_app, !Nat2Z.inj_add, !Hb. cbn [length].
  pose proof (Hhead 0xC0 0xF7 (zlen (enc (Str c)) + (1 + (1 + Z.of_nat 0)))). unfold two64 in *. lia.
Qed.

Lemma WriteCM_ok db hash cm :
  storable cm →
  ∃ data, WriteCM db hash cm = Ret (<[CMKey hash := data]> db) ∧
    data = enc (item_of (CM_value cm)).
Proof.
  intros Hst. pose proof (storable_enc cm Hst) as Hlen. unfold WriteCM, EncodeToBytes.
  rewrite write_value_extend by (done || by apply writable_list; repeat constructor).
  cbn [mbind outcome_bind]. rewrite toBytes_extend by done. eauto.
Qed.

Lemma CMKey_inj h1 h2 : CMKey h1 = CMKey h2 → h1 = h2.
Proof. by intros [= ->]. Qed.

(** Reading after a write: the record at the written hash, the old one
    elsewhere. *)
Lemma ReadCM_WriteCM db db' hash cm :
  storable cm → WriteCM db hash cm = Ret db' →
  ReadCM db' hash = Some cm ∧ HasCM db' hash = true ∧
  ∀ hash', hash' ≠ hash → ReadCM db' hash' = ReadCM db hash' ∧ HasCM db' hash' = HasCM db hash'.
Proof.
  intros Hst E. destruct (WriteCM_ok db hash cm Hst) as (data & E' & Hd).
  rewrite E in E'. injection E' as ->. unfold ReadCM, HasCM, ReadCMRLP. rewrite lookup_insert_eq. split_and!.
  - cbn [default]. destruct (decodeCM_enc cm (storable_enc cm Hst)) as (s & Es).
    pose proof (length_enc_pos (item_of (CM_value cm))) as Hpos. rewrite <- Hd in *.
    destruct data as [|b l]; [cbn in Hpos; lia|]. cbn. by rewrite Es.
  - done.
  - intros hash' Hne. rewrite lookup_insert_ne by by intros ?%CMKey_inj. done.
Qed.

(** the commitment database is a map from hashes to records: a record of
    storable size is written without a panic and read back whole - value,
    spent flag and lock flag - through the RLP codec, [HasCM] sees it, no
    other hash is affected, and [DeleteCM] removes it. *)
Theorem CM_store_laws db hash cm :
  storable cm →
  ∃ db', WriteCM db hash cm = Ret db' ∧ ReadCM db' hash = Some cm ∧ HasCM db' hash = true ∧
    (∀ hash', hash' ≠ hash → ReadCM db' hash' = ReadCM db hash' ∧ HasCM db' hash' = HasCM db hash') ∧
    ReadCM (DeleteCM db' hash) hash = None ∧ HasCM (DeleteCM db' hash) hash = false.
Proof.
  intros Hst. destruct (WriteCM_ok db hash cm Hst) as (data & E & _). eexists. split; [exact E|].
  destruct (ReadCM_WriteCM db _ hash cm Hst E) as (H1 & H2 & H3). split_and!; [done..| |].
  - unfold ReadCM, ReadCMRLP, DeleteCM. by rewrite lookup_delete_eq.
  - unfold HasCM, DeleteCM. by rewrite lookup_delete_eq.
Qed.

Lemma CM_store_laws_witness :
  ∃ db', WriteCM ∅ [Byte.x2a] (mkCM [Byte.x01; Byte.x80] true false) = Ret db' ∧
    ReadCM db' [Byte.x2a] = Some (mkCM [Byte.x01; Byte.x80] true false).
Proof.
  destruct (CM_store_laws ∅ [Byte.x2a] (mkCM [Byte.x01; Byte.x80] true false)) as (db' & E & R & _);
    [unfold storable; cbn; lia|]. exists db'. exact (conj E R).
Defined.
End CMdb.
