(* ===== verification/Gas.v ===== *)
(** * Gas: intrinsic gas and the block gas pool (core/state_transition.go, core/gaspool.go)

    Gas amounts are [uint64]: every addition and subtraction wraps, and the
    guards the upstream client has against it are commented out here. *)

From stdpp Require Import base list.
From Stdlib Require Import ZArith Lia.
From S2P Require Import Prelude.

Local Open Scope Z_scope.
Local Open Scope go_scope.

Module Gas.

(** ** Parameters (params/protocol_params.go) *)

Definition TxGas : Z := 21000.
Definition TxGasContractCreation : Z := 53000.
Definition TxDataZeroGas : Z := 4.
Definition TxDataNonZeroGasFrontier : Z := 68.
Definition TxDataNonZeroGasEIP2028 : Z := 16.

(** ** Intrinsic gas *)

Fixpoint count_nonzero_bytes (data : bytes) : Z :=
  match data with
  | [] => 0
  | byt :: data => (if b2z byt =? 0 then 0 else 1) + count_nonzero_bytes data
  end.

Definition IntrinsicGas (data : bytes) (contractCreation isHomestead isEIP2028 : bool) : Z :=
  let gas := if contractCreation && isHomestead then TxGasContractCreation else TxGas in
  match data with
  | [] => gas
  | _ =>
      let nz := count_nonzero_bytes data in
      let nonZeroGas := if isEIP2028 then TxDataNonZeroGasEIP2028 else TxDataNonZeroGasFrontier in
      let gas := gas ⊕ (nz ⊗ nonZeroGas) in
      let z := Z.of_nat (length data) ⊖ nz in
      gas ⊕ (z ⊗ TxDataZeroGas)
  end.

(** ** The gas pool of a block *)

Inductive gas_error := ErrGasLimitReached.

Definition AddGas (gp amount : Z) : Z := gp ⊕ amount.

Definition SubGas (gp amount : Z) : outcome gas_error Z :=
  if gp <? amount then Err ErrGasLimitReached else Ret (gp ⊖ amount).

(** ** Lemmas *)

Lemma count_nonzero_bytes_bound data :
  0 <= count_nonzero_bytes data <= Z.of_nat (length data).
Proof. induction data as [|b data IH]; cbn [count_nonzero_bytes length]; [lia|]. case_match; lia. Qed.

(** For every payload shorter than 2^56 bytes none of the wrapping
    operations of [IntrinsicGas] wraps: the result is the base cost plus the
    exact cost of the zero and non-zero bytes. *)
Theorem IntrinsicGas_exact data create home eip :
  Z.of_nat (length data) < 2 ^ 56 →
  IntrinsicGas data create home eip =
  (if create && home then TxGasContractCreation else TxGas)
  + count_nonzero_bytes data * (if eip then TxDataNonZeroGasEIP2028 else TxDataNonZeroGasFrontier)
  + (Z.of_nat (length data) - count_nonzero_bytes data) * TxDataZeroGas.
Proof.
  intros Hlen. pose proof (count_nonzero_bytes_bound data) as Hc. unfold IntrinsicGas.
  unfold TxGas, TxGasContractCreation, TxDataZeroGas, TxDataNonZeroGasEIP2028,
    TxDataNonZeroGasFrontier in *.
  destruct data as [|b data]; [destruct (create && home); cbn; lia|].
  revert Hlen Hc. generalize (count_nonzero_bytes (b :: data)), (Z.of_nat (length (b :: data))).
  intros nz n Hn Hnz.
  set (g := if create && home then 53000 else 21000). set (k := if eip then 16 else 68).
  assert (0 <= g <= 53000) by (subst g; destruct (create && home); lia).
  assert (0 <= k <= 68) by (subst k; destruct eip; lia).
  assert (0 <= nz * k <= 2 ^ 56 * 68) by nia.
  rewrite (u64_small (nz * k)), (u64_small (n - nz)), (u64_small ((n - nz) * 4)),
    (u64_small (g + nz * k)), u64_small; u64_lia.
Qed.

Lemma IntrinsicGas_exact_witness :
  IntrinsicGas [Byte.x00; Byte.x01; Byte.xff] true true false = 53000 + 2 * 68 + (3 - 2) * 4.
Proof. rewrite IntrinsicGas_exact; cbn; [reflexivity|lia]. Defined.

Lemma IntrinsicGas_range data create home eip : is_u64 (IntrinsicGas data create home eip).
Proof.
  unfold IntrinsicGas. destruct data; [|apply u64_range].
  destruct (create && home); unfold TxGas, TxGasContractCreation; u64_lia.
Qed.
End Gas.
