(* ===== verification/TxPool.v ===== *)
(** * TxPool: the transaction pool (core/tx_pool.go, core/tx_noncer.go, core/tx_list.go)

    The pool's state and the operations that change it: admission ([add] with
    the commitment, signature, zero-knowledge and consensus checks), the
    queue, promotion, removal, demotion and the priced index, together with
    the lock states of the commitments they read and write.

    What the pool gets from elsewhere is the class [PoolEnv]: the hash, size
    and sender of a transaction (RLP hashing and signature recovery), the two
    hash functions, and the account state at the head of the chain.

    An operation is a state transformer that can panic ([None]). Metrics,
    logging, the disk journal, event feeds and locks are left out; heartbeats
    are kept as the set of accounts that have one. *)

From stdpp Require Import base gmap list.
From Stdlib Require Import ZArith Lia.
From S2P Require Import Prelude Zkp Types Rlp CMdb Gas GoHeap TxList.

Local Open Scope Z_scope.

Module TxPool.
Import Types TxList.

Class PoolEnv := {
  tx_Hash : txdata → Z;
  tx_Size : txdata → Z;
  Sender : txdata → option Z;
  keccak : bytes → bytes;
  sha256 : bytes → bytes;
  GetNonce : Z → Z;
  GetBalance : Z → Z;
}.

Inductive pool_error :=
  | ErrAlreadyKnown | ErrInvalidSender | ErrNonceTooLow | ErrUnderpriced | ErrReplaceUnderpriced
  | ErrGasLimit | ErrNegativeValue | ErrOversizedData | ErrVerifySig | ErrVerifyEvSFormatProof
  | ErrVerifyEvRFormatProof | ErrVerifyBalanceProof | ErrVerifyTotalEqualityProof
  | ErrVerifySpkEqualityProof | ErrVerifyRpkEqualityProof | ErrIDFormat | ErrExistedCM
  | ErrInvalidCM | ErrID.

Definition txSlotSize : Z := 32 * 1024.
Definition txMaxSize : Z := 2 * txSlotSize.

Record TxPoolConfig := mk_config {
  PriceBump : Z; AccountSlots : Z; GlobalSlots : Z; AccountQueue : Z; GlobalQueue : Z;
  Exchange : Zkp.PublicKey; Regulator : Zkp.PublicKey }.

Record txLookup := mk_lookup { lk_all : gmap Z txdata; lk_slots : Z }.

Record txPricedList := mk_priced { pr_items : list txdata; stales : Z }.

Record TxPool := mk_pool {
  config : TxPoolConfig; istanbul : bool;
  pendingNonces : gmap Z Z; currentMaxGas : Z;
  locals : gset Z;
  pending : gmap Z txList; queue : gmap Z txList; beats : gset Z;
  all : txLookup; priced : txPricedList;
  CMdb_ : CMdb.database }.

(** Functional updates of one field. *)
Definition set_pendingNonces (p : TxPool) x :=
  mk_pool (config p) (istanbul p) x (currentMaxGas p) (locals p) (pending p) (queue p) (beats p)
    (all p) (priced p) (CMdb_ p).
Definition set_locals (p : TxPool) x :=
  mk_pool (config p) (istanbul p) (pendingNonces p) (currentMaxGas p) x (pending p) (queue p)
    (beats p) (all p) (priced p) (CMdb_ p).
Definition set_pending (p : TxPool) x :=
  mk_pool (config p) (istanbul p) (pendingNonces p) (currentMaxGas p) (locals p) x (queue p)
    (beats p) (all p) (priced p) (CMdb_ p).
Definition set_queue (p : TxPool) x :=
  mk_pool (config p) (istanbul p) (pendingNonces p) (currentMaxGas p) (locals p) (pending p) x
    (beats p) (all p) (priced p) (CMdb_ p).
Definition set_beats (p : TxPool) x :=
  mk_pool (config p) (istanbul p) (pendingNonces p) (currentMaxGas p) (locals p) (pending p)
    (queue p) x (all p) (priced p) (CMdb_ p).
Definition set_all (p : TxPool) x :=
  mk_pool (config p) (istanbul p) (pendingNonces p) (currentMaxGas p) (locals p) (pending p)
    (queue p) (beats p) x (priced p) (CMdb_ p).
Definition set_priced (p : TxPool) x :=
  mk_pool (config p) (istanbul p) (pendingNonces p) (currentMaxGas p) (locals p) (pending p)
    (queue p) (beats p) (all p) x (CMdb_ p).
Definition set_CMdb (p : TxPool) x :=
  mk_pool (config p) (istanbul p) (pendingNonces p) (currentMaxGas p) (locals p) (pending p)
    (queue p) (beats p) (all p) (priced p) x.

(** State transformers that can panic. *)
Definition PM (A : Type) : Type := TxPool → option (A * TxPool).

#[export] Instance PM_ret : MRet PM := λ A a p, Some (a, p).
#[export] Instance PM_bind : MBind PM := λ A B k m p,
  match m p with Some (a, p) => k a p | None => None end.

Definition get : PM TxPool := λ p, Some (p, p).
Definition modify (f : TxPool → TxPool) : PM unit := λ p, Some (tt, f p).
Definition panic {A} : PM A := λ _, None.
Definition lift {A} (o : option A) : PM A := λ p, a ← o; Some (a, p).

Fixpoint forM {A} (l : list A) (f : A → PM unit) : PM unit :=
  match l with
  | [] => mret tt
  | x :: l => f x;; forM l f
  end.

Section WithEnv.
Context `{PoolEnv}.

(** ** The lookup of all transactions *)

Definition numSlots (tx : txdata) : Z := (tx_Size tx + txSlotSize - 1) / txSlotSize.

Definition all_Get (hash : Z) : PM (option txdata) :=
  p ← get; mret (lk_all (all p) !! hash).

Definition all_Add (tx : txdata) : PM unit :=
  modify (λ p, set_all p (mk_lookup (<[tx_Hash tx := tx]> (lk_all (all p)))
                            (lk_slots (all p) + numSlots tx))).

(** [numSlots] of a missing transaction dereferences nil. *)
Definition all_Remove (hash : Z) : PM unit :=
  p ← get;
  match lk_all (all p) !! hash with
  | Some tx =>
      modify (λ p, set_all p (mk_lookup (delete hash (lk_all (all p)))
                                (lk_slots (all p) - numSlots tx)))
  | None => panic
  end.

(** ** The priced list *)

Definition price_less (t1 t2 : txdata) : bool :=
  match Price t1 ?= Price t2 with
  | Lt => true
  | Gt => false
  | Eq => AccountNonce t2 <? AccountNonce t1
  end.

Definition priced_Put (tx : txdata) : PM unit :=
  modify (λ p, set_priced p (mk_priced (GoHeap.Push price_less (pr_items (priced p)) tx)
                               (stales (priced p)))).

Definition priced_Removed (count : Z) : PM unit :=
  modify (λ p,
    let st := stales (priced p) + count in
    if st <=? Z.of_nat (length (pr_items (priced p))) / 4 then
      set_priced p (mk_priced (pr_items (priced p)) st)
    else
      set_priced p (mk_priced (GoHeap.Init price_less (map_to_list (lk_all (all p))).*2) 0)).

Definition locals_contains (addr : Z) : PM bool := p ← get; mret (bool_decide (addr ∈ locals p)).

Definition containsTx (p : TxPool) (tx : txdata) : bool :=
  match Sender tx with Some addr => bool_decide (addr ∈ locals p) | None => false end.

(** The loop of [Underpriced] that drops stale heads. *)
Fixpoint drop_stale (fuel : nat) (known : gmap Z txdata) (its : list txdata) (st : Z)
    : option (list txdata * Z) :=
  match fuel, its !! 0%nat with
  | S fuel, Some h =>
      match known !! tx_Hash h with
      | None =>
          '(_, its) ← GoHeap.Pop price_less its;
          drop_stale fuel known its (st - 1)
      | Some _ => Some (its, st)
      end
  | _, _ => Some (its, st)
  end.

Definition Underpriced (tx : txdata) : PM bool :=
  p ← get;
  if containsTx p tx then mret false
  else
    '(its, st) ← lift (drop_stale (length (pr_items (priced p))) (lk_all (all p))
                         (pr_items (priced p)) (stales (priced p)));
    modify (λ p, set_priced p (mk_priced its st));;
    match its !! 0%nat with
    | None => mret false
    | Some cheapest => mret (Price tx <=? Price cheapest)
    end.

(** The loop of [Discard]: the remaining heap, the stale counter, the
    transactions to drop and the local ones to put back. *)
Fixpoint discard_loop (fuel : nat) (p : TxPool) (its : list txdata) (st slots : Z)
    (drop save : list txdata) : option (list txdata * Z * list txdata * list txdata) :=
  match fuel with
  | O => Some (its, st, drop, save)
  | S fuel =>
      match its with
      | [] => Some (its, st, drop, save)
      | _ =>
          if slots <=? 0 then Some (its, st, drop, save)
          else
            '(tx, its) ← GoHeap.Pop price_less its;
            match lk_all (all p) !! tx_Hash tx with
            | None => discard_loop fuel p its (st - 1) slots drop save
            | Some _ =>
                if containsTx p tx then discard_loop fuel p its st slots drop (save ++ [tx])
                else discard_loop fuel p its st (slots - numSlots tx) (drop ++ [tx]) save
            end
      end
  end.

(** [make] with a negative capacity panics. *)
Definition Discard (slots : Z) : PM (list txdata) :=
  p ← get;
  (if slots <? 0 then panic else mret tt);;
  '(its, st, drop, save) ← lift (discard_loop (length (pr_items (priced p))) p
                                   (pr_items (priced p)) (stales (priced p)) slots [] []);
  modify (λ p, set_priced p
    (mk_priced (foldl (λ h tx, GoHeap.Push price_less h tx) its save) st));;
  mret drop.

(** ** Pending nonces (tx_noncer.go): cached, falling back to the state *)

Definition noncer_get (addr : Z) : PM Z :=
  p ← get;
  match pendingNonces p !! addr with
  | Some n => mret n
  | None =>
      modify (λ p, set_pendingNonces p (<[addr := GetNonce addr]> (pendingNonces p)));;
      mret (GetNonce addr)
  end.

Definition noncer_set (addr nonce : Z) : PM unit :=
  modify (λ p, set_pendingNonces p (<[addr := nonce]> (pendingNonces p))).

Definition noncer_setIfLower (addr nonce : Z) : PM unit :=
  n ← noncer_get addr;
  if n <=? nonce then mret tt else noncer_set addr nonce.

(** ** Commitments *)

Definition cm_hash (c : bytes) : bytes := CMdb.CM_Hash keccak (NewDefaultCM c).

Definition write_CM (cm : CM) : PM unit :=
  p ← get;
  match CMdb.WriteCM (CMdb_ p) (CMdb.CM_Hash keccak cm) cm with
  | Ret db => modify (λ p, set_CMdb p db)
  | _ => panic
  end.

Definition validateCM (db : CMdb.database) (tx : txdata) : option pool_error :=
  if ID tx =? 1 then
    if CMdb.HasCM db (cm_hash (CmV tx)) then Some ErrExistedCM else None
  else if ID tx =? 0 then
    match CMdb.ReadCM db (cm_hash (CmO tx)) with
    | None => Some ErrInvalidCM
    | Some CmO_ =>
        if Spent CmO_ || Lock CmO_ then Some ErrInvalidCM
        else if CMdb.HasCM db (cm_hash (CmS tx)) then Some ErrExistedCM
        else if CMdb.HasCM db (cm_hash (CmR tx)) then Some ErrExistedCM
        else None
    end
  else Some ErrID.

Definition processCM (tx : txdata) : PM unit :=
  (if ID tx =? 1 then write_CM (mkCM (CmV tx) false true) else mret tt);;
  if ID tx =? 0 then write_CM (mkCM (CmO tx) false true) else mret tt.

Definition reorgCM (tx : txdata) : PM unit :=
  (if ID tx =? 1 then write_CM (NewDefaultCM (CmV tx)) else mret tt);;
  if ID tx =? 0 then write_CM (NewDefaultCM (CmO tx)) else mret tt.

(** ** Validation *)

Definition validateSign (cfg : TxPoolConfig) (tx : txdata) : option pool_error :=
  let sig := Zkp.mkSignature (SigM tx) (SigMHash tx) (SigR tx) (SigS tx) in
  if Zkp.Verify sha256 (Exchange cfg) sig then None else Some ErrVerifySig.

Definition verifyzkp (cfg : TxPoolConfig) (tx : txdata) : option pool_error :=
  let k := Regulator cfg in
  if negb (Zkp.VerifyFormatProof sha256 (EVS tx) k (CMsFP tx)) then Some ErrVerifyEvSFormatProof
  else if negb (Zkp.VerifyFormatProof sha256 (EVR tx) k (CMrFP tx)) then Some ErrVerifyEvRFormatProof
  else if negb (Zkp.VerifyBalanceProof sha256 (CmR tx) (CmS tx) (CmO tx) k (BP tx))
    then Some ErrVerifyBalanceProof
  else if negb (Zkp.VerifyEqualityProof sha256 k k (EVO tx) (Zkp.mkCypherText [] (CmO tx)) (EvoEP tx))
    then Some ErrVerifyTotalEqualityProof
  else if negb (Zkp.VerifyEqualityProof sha256 k k (ERPK tx) (Zkp.mkCypherText [] (CMRpk tx)) (ErpkEP tx))
    then Some ErrVerifyRpkEqualityProof
  else if negb (Zkp.VerifyEqualityProof sha256 k k (ESPK tx) (Zkp.mkCypherText [] (CMSpk tx)) (EspkEP tx))
    then Some ErrVerifySpkEqualityProof
  else None.

(** The result of the intrinsic-gas comparison is not used: both branches
    return nil. *)
Definition validateTx (p : TxPool) (tx : txdata) (local : bool) : option pool_error :=
  if txMaxSize <? tx_Size tx then Some ErrOversizedData
  else if Amount tx <? 0 then Some ErrNegativeValue
  else if currentMaxGas p <? GasLimit tx then Some ErrGasLimit
  else
    match Sender tx with
    | None => Some ErrInvalidSender
    | Some from =>
        if AccountNonce tx <? GetNonce from then Some ErrNonceTooLow
        else
          let intrGas := Gas.IntrinsicGas (Payload tx)
                           (match Recipient tx with None => true | Some _ => false end)
                           true (istanbul p) in
          if GasLimit tx <? intrGas then None else None
    end.

(** ** Queueing and promotion *)

(** Replaces the transaction [old] of a list: unlock, forget, re-price. *)
Definition forget (tx : txdata) : PM unit :=
  reorgCM tx;; all_Remove (tx_Hash tx);; priced_Removed 1.

(** Records a transaction the pool does not know yet. *)
Definition remember (tx : txdata) : PM unit :=
  processCM tx;; all_Add tx;; priced_Put tx.

Definition enqueueTx (hash : Z) (tx : txdata) : PM (pool_error + bool) :=
  p ← get;
  let from := default 0 (Sender tx) in
  let l := default (newTxList false) (queue p !! from) in
  let '(inserted, old, l) := Add l tx (PriceBump (config p)) in
  modify (λ p, set_queue p (<[from := l]> (queue p)));;
  if negb inserted then mret (inl ErrReplaceUnderpriced)
  else
    (match old with
     | Some old => forget old
     | None => mret tt
     end);;
    known ← all_Get hash;
    (match known with
     | None => remember tx
     | Some _ => mret tt
     end);;
    mret (inr (bool_decide (is_Some old))).

Definition promoteTx (addr hash : Z) (tx : txdata) : PM bool :=
  p ← get;
  let l := default (newTxList true) (pending p !! addr) in
  let '(inserted, old, l) := Add l tx (PriceBump (config p)) in
  modify (λ p, set_pending p (<[addr := l]> (pending p)));;
  if negb inserted then
    reorgCM tx;; all_Remove hash;; priced_Removed 1;; mret false
  else
    (match old with
     | Some old => forget old
     | None => mret tt
     end);;
    known ← all_Get hash;
    (match known with
     | None => remember tx
     | Some _ => mret tt
     end);;
    modify (λ p, set_beats p ({[addr]} ∪ beats p));;
    noncer_set addr (u64 (AccountNonce tx + 1));;
    mret true.

(** Drops the list of an account that became empty. *)
Definition delete_pending_if_empty (addr : Z) (l : txList) : PM unit :=
  if Empty l then
    modify (λ p, set_pending p (delete addr (pending p)));;
    modify (λ p, set_beats p (beats p ∖ {[addr]}))
  else mret tt.

Definition removeTx (hash : Z) (outofbound : bool) : PM unit :=
  known ← all_Get hash;
  match known with
  | None => mret tt
  | Some tx =>
      let addr := default 0 (Sender tx) in
      reorgCM tx;;
      all_Remove hash;;
      (if outofbound then priced_Removed 1 else mret tt);;
      p ← get;
      found ← (match pending p !! addr with
               | None => mret false
               | Some l =>
                   '(removed, invalids, l) ← lift (list_Remove l tx);
                   modify (λ p, set_pending p (<[addr := l]> (pending p)));;
                   if (removed : bool) then
                     delete_pending_if_empty addr l;;
                     forM invalids (λ tx, enqueueTx (tx_Hash tx) tx;; mret tt);;
                     noncer_setIfLower addr (AccountNonce tx);;
                     mret true
                   else mret false
               end);
      if (found : bool) then mret tt
      else
        p ← get;
        match queue p !! addr with
        | None => mret tt
        | Some l =>
            '(_, _, l) ← lift (list_Remove l tx);
            modify (λ p, set_queue p
              (if Empty l then delete addr (queue p) else <[addr := l]> (queue p)))
        end
  end.

(** ** Admission *)

Definition check_payload (p : TxPool) (tx : txdata) : option pool_error :=
  if ID tx =? 1 then validateSign (config p) tx
  else if ID tx =? 0 then verifyzkp (config p) tx
  else Some ErrIDFormat.

(** The part of [add] that makes room in a full pool; [true] when the new
    transaction is underpriced. *)
Definition make_room (tx : txdata) (local : bool) : PM bool :=
  p ← get;
  let limit := u64 (GlobalSlots (config p) + GlobalQueue (config p)) in
  if Z.of_nat (size (lk_all (all p))) <? limit then mret false
  else
    under ← (if local then mret false else Underpriced tx);
    if (under : bool) then mret true
    else
      p ← get;
      drop ← Discard (lk_slots (all p) - i64 limit + numSlots tx);
      forM drop (λ tx, removeTx (tx_Hash tx) false);;
      mret false.

Definition add_pending (from : Z) (l : txList) (tx : txdata) : PM (pool_error + bool) :=
  p ← get;
  let '(inserted, old, l) := Add l tx (PriceBump (config p)) in
  modify (λ p, set_pending p (<[from := l]> (pending p)));;
  if negb inserted then mret (inl ErrReplaceUnderpriced)
  else
    (match old with
     | Some old => forget old
     | None => mret tt
     end);;
    remember tx;;
    mret (inr (bool_decide (is_Some old))).

Definition add (tx : txdata) (local : bool) : PM (pool_error + bool) :=
  let hash := tx_Hash tx in
  known ← all_Get hash;
  match known with
  | Some _ => mret (inl ErrAlreadyKnown)
  | None =>
      p ← get;
      match validateCM (CMdb_ p) tx with
      | Some e => mret (inl e)
      | None =>
      match check_payload p tx with
      | Some e => mret (inl e)
      | None =>
      match validateTx p tx local with
      | Some e => mret (inl e)
      | None =>
          under ← make_room tx local;
          if (under : bool) then mret (inl ErrUnderpriced)
          else
            p ← get;
            let from := default 0 (Sender tx) in
            let overlaps := l ← pending p !! from; if Overlaps l tx then Some l else None in
            match overlaps with
            | Some l => add_pending from l tx
            | None =>
                res ← enqueueTx hash tx;
                match res with
                | inl e => mret (inl e)
                | inr replaced =>
                    (if local then modify (λ p, set_locals p ({[from]} ∪ locals p))
                     else mret tt);;
                    mret (inr replaced)
                end
            end
      end end end
  end.

(** [addTxsLocked]: the errors, and the senders whose queues changed. *)
Fixpoint addTxsLocked (txs : list txdata) (local : bool)
    : PM (list (option pool_error) * gset Z) :=
  match txs with
  | [] => mret ([], ∅)
  | tx :: txs =>
      res ← add tx local;
      '(errs, dirty) ← addTxsLocked txs local;
      match res with
      | inl e => mret (Some e :: errs, dirty)
      | inr replaced =>
          mret (None :: errs,
            if (replaced : bool) then dirty
            else match Sender tx with Some a => {[a]} ∪ dirty | None => dirty end)
      end
  end.

(** ** Promotion and demotion *)

(** Drops transactions that left a queue or pending list. *)
Definition drop_unlock (txs : list txdata) : PM unit :=
  forM txs (λ tx, reorgCM tx;; all_Remove (tx_Hash tx)).

Fixpoint promote_all (addr : Z) (txs : list txdata) : PM (list txdata) :=
  match txs with
  | [] => mret []
  | tx :: txs =>
      ok ← promoteTx addr (tx_Hash tx) tx;
      rest ← promote_all addr txs;
      mret (if (ok : bool) then tx :: rest else rest)
  end.

(** One account of [promoteExecutables]. The list is shared with the queue
    map, so every update is written back. *)
Definition promote_account (addr : Z) : PM (list txdata) :=
  p ← get;
  match queue p !! addr with
  | None => mret []
  | Some l =>
      '(forwards, l) ← lift (list_Forward l (GetNonce addr));
      drop_unlock forwards;;
      p ← get;
      let '(drops, _, l) := list_Filter l (GetBalance addr) (currentMaxGas p) in
      drop_unlock drops;;
      nonce ← noncer_get addr;
      '(readies, l) ← lift (list_Ready l nonce);
      modify (λ p, set_queue p (<[addr := l]> (queue p)));;
      promoted ← promote_all addr readies;
      loc ← locals_contains addr;
      p ← get;
      '(caps, l) ← (if (loc : bool) then mret ([], l)
                    else '(caps, l) ← lift (list_Cap l (Z.to_nat (AccountQueue (config p))));
                         drop_unlock caps;; mret (caps, l));
      priced_Removed (Z.of_nat (length forwards + length drops + length caps));;
      modify (λ p, set_queue p
        (if Empty l then delete addr (queue p) else <[addr := l]> (queue p)));;
      mret promoted
  end.

Fixpoint promoteExecutables (accounts : list Z) : PM (list txdata) :=
  match accounts with
  | [] => mret []
  | addr :: accounts =>
      l1 ← promote_account addr;
      l2 ← promoteExecutables accounts;
      mret (l1 ++ l2)
  end.

(** One account of [demoteUnexecutables]; the transactions below the
    account nonce were mined and are not unlocked. *)
Definition demote_account (addr : Z) : PM unit :=
  p ← get;
  match pending p !! addr with
  | None => mret tt
  | Some l =>
      let nonce := GetNonce addr in
      '(olds, l) ← lift (list_Forward l nonce);
      forM olds (λ tx, all_Remove (tx_Hash tx));;
      p ← get;
      let '(drops, invalids, l) := list_Filter l (GetBalance addr) (currentMaxGas p) in
      drop_unlock drops;;
      priced_Removed (Z.of_nat (length olds + length drops));;
      modify (λ p, set_pending p (<[addr := l]> (pending p)));;
      forM invalids (λ tx, enqueueTx (tx_Hash tx) tx;; mret tt);;
      l ← (if (0 <? Z.of_nat (list_Len l)) && negb (bool_decide (is_Some (Get (txs l) nonce))) then
             '(gapped, l) ← lift (list_Cap l 0);
             forM gapped (λ tx, enqueueTx (tx_Hash tx) tx;; mret tt);;
             mret l
           else mret l);
      modify (λ p, set_pending p (<[addr := l]> (pending p)));;
      delete_pending_if_empty addr l
  end.

Definition demoteUnexecutables : PM unit :=
  p ← get; forM (map_to_list (pending p)).*1 demote_account.
End WithEnv.
End TxPool.
