(* ===== verification/TxPoolProofs.v ===== *)
(** * TxPoolProofs: commitments in the pool and on the chain

    The abstract ledger of a commitment is its status: absent, available,
    locked by a pooled transaction, or spent by a mined one. Admission,
    eviction and mining are characterised by the status changes they make:
    a coin backs at most one pooled transaction, a mined input is spent - and
    what the eviction paths do to both. *)

From stdpp Require Import base gmap list.
From Stdlib Require Import ZArith Lia.
From S2P Require Import Prelude Zkp Types Rlp RlpProofs CMdb Gas GoHeap TxList TxPool.

Local Open Scope Z_scope.

Module TxPoolProofs.
Import Types TxList TxPool.

(** ** The ledger of commitments *)

Inductive coin := Absent | Available | Locked | Gone.

Section Ledger.
Context `{PoolEnv}.

Definition status (db : CMdb.database) (c : bytes) : coin :=
  match CMdb.ReadCM db (cm_hash c) with
  | None => Absent
  | Some cm => if Spent cm then Gone else if Lock cm then Locked else Available
  end.

(** Whatever is stored can be read. *)
Definition db_wf (db : CMdb.database) : Prop :=
  ∀ h, CMdb.HasCM db h = true ↔ is_Some (CMdb.ReadCM db h).

(** The commitments of a transaction have a storable size. *)
Definition small_cm (c : bytes) : Prop := Z.of_nat (length c) < 2 ^ 32.

Lemma cm_hash_same cm : CMdb.CM_Hash keccak cm = cm_hash (Cm cm).
Proof. done. Qed.

(** Writing a record under its hash sets the status of its commitment. *)
Lemma WriteCM_status db db' cm :
  small_cm (Cm cm) → CMdb.WriteCM db (CMdb.CM_Hash keccak cm) cm = Ret db' →
  status db' (Cm cm) = (if Spent cm then Gone else if Lock cm then Locked else Available) ∧
  (∀ c, cm_hash c ≠ cm_hash (Cm cm) → status db' c = status db c) ∧
  (db_wf db → db_wf db').
Proof.
  intros Hs E. rewrite cm_hash_same in E.
  destruct (CMdb.ReadCM_WriteCM db db' _ cm Hs E) as (Hr & Hh & Hother).
  unfold status. rewrite Hr. split_and!; [done| |].
  - intros c Hc. by destruct (Hother _ Hc) as [-> _].
  - intros Hwf h. destruct (decide (h = cm_hash (Cm cm))) as [->|Hne].
    + rewrite Hr, Hh. split; eauto.
    + destruct (Hother h Hne) as [-> ->]. apply Hwf.
Qed.

Lemma WriteCM_total db h cm : small_cm (Cm cm) → ∃ db', CMdb.WriteCM db h cm = Ret db'.
Proof. intros Hs. destruct (CMdb.WriteCM_ok db h cm Hs) as (data & -> & _). eauto. Qed.

Lemma write_CM_run p cm :
  small_cm (Cm cm) → ∃ db', CMdb.WriteCM (CMdb_ p) (CMdb.CM_Hash keccak cm) cm = Ret db' ∧
    write_CM cm p = Some (tt, set_CMdb p db').
Proof.
  intros Hs. destruct (WriteCM_total (CMdb_ p) (CMdb.CM_Hash keccak cm) cm Hs) as (db' & E).
  exists db'. split; [done|]. unfold write_CM, mbind, PM_bind, get. by rewrite E.
Qed.

(** The commitments of a transaction, all of storable size. *)
Definition tx_small (tx : txdata) : Prop :=
  small_cm (CmO tx) ∧ small_cm (CmS tx) ∧ small_cm (CmR tx) ∧ small_cm (CmV tx).

(** [processCM] locks, [reorgCM] makes available; nothing else changes. *)
Lemma processCM_run p tx :
  tx_small tx → ID tx = 0 →
  ∃ db', processCM tx p = Some (tt, set_CMdb p db') ∧ status db' (CmO tx) = Locked ∧
    (∀ c, cm_hash c ≠ cm_hash (CmO tx) → status db' c = status (CMdb_ p) c) ∧
    (db_wf (CMdb_ p) → db_wf db').
Proof.
  intros (HO & _) Hid. unfold processCM. rewrite Hid. cbn.
  destruct (write_CM_run p (mkCM (CmO tx) false true) HO) as (db' & E & Er).
  exists db'. split; [exact Er|]. apply (WriteCM_status _ _ (mkCM (CmO tx) false true) HO E).
Qed.

Lemma reorgCM_transfer_run p tx :
  tx_small tx → ID tx = 0 →
  ∃ db', reorgCM tx p = Some (tt, set_CMdb p db') ∧ status db' (CmO tx) = Available ∧
    (∀ c, cm_hash c ≠ cm_hash (CmO tx) → status db' c = status (CMdb_ p) c) ∧
    (db_wf (CMdb_ p) → db_wf db').
Proof.
  intros (HO & _) Hid. unfold reorgCM. rewrite Hid. cbn.
  destruct (write_CM_run p (NewDefaultCM (CmO tx)) HO) as (db' & E & Er).
  exists db'. split; [exact Er|]. apply (WriteCM_status _ _ (NewDefaultCM (CmO tx)) HO E).
Qed.

Lemma purchase_run p tx lock :
  tx_small tx → ID tx = 1 →
  ∃ db', (if (lock : bool) then processCM tx else reorgCM tx) p = Some (tt, set_CMdb p db') ∧
    status db' (CmV tx) = (if lock then Locked else Available) ∧
    (∀ c, cm_hash c ≠ cm_hash (CmV tx) → status db' c = status (CMdb_ p) c) ∧
    (db_wf (CMdb_ p) → db_wf db').
Proof.
  intros (_ & _ & _ & HV) Hid. unfold processCM, reorgCM. rewrite Hid.
  destruct (write_CM_run p (mkCM (CmV tx) false lock) HV) as (db' & E & Er).
  exists db'. destruct (WriteCM_status _ _ (mkCM (CmV tx) false lock) HV E) as (H1 & H2 & H3).
  destruct lock; (split_and!; [|exact H1|exact H2|exact H3]);
    cbn; unfold mbind, PM_bind; unfold NewDefaultCM; rewrite Er; done.
Qed.

(** A mined transfer. *)
Lemma write_tx_CM_run db tx :
  tx_small tx → ID tx = 0 →
  cm_hash (CmS tx) ≠ cm_hash (CmO tx) → cm_hash (CmR tx) ≠ cm_hash (CmO tx) →
  ∃ db', CMdb.write_tx_CM keccak db tx = Ret db' ∧ status db' (CmO tx) = Gone ∧
    status db' (CmS tx) = Available ∧ status db' (CmR tx) = Available ∧
    (db_wf db → db_wf db').
Proof.
  intros (HO & HS & HR & _) Hid HSO HRO. unfold CMdb.write_tx_CM. rewrite Hid.
  change (0 =? 1) with false. change (0 =? 0) with true. cbv beta iota zeta. cbn [mbind outcome_bind].
  destruct (WriteCM_total db (cm_hash (CmO tx)) (NewCM (CmO tx) true) HO) as (db1 & E1).
  destruct (WriteCM_total db1 (cm_hash (CmS tx)) (NewDefaultCM (CmS tx)) HS) as (db2 & E2).
  destruct (WriteCM_total db2 (cm_hash (CmR tx)) (NewDefaultCM (CmR tx)) HR) as (db3 & E3).
  exists db3. unfold cm_hash in E1, E2, E3.
  change (CMdb.CM_Hash keccak (NewCM (CmO tx) true)) with (CMdb.CM_Hash keccak (NewDefaultCM (CmO tx))).
  rewrite E1. cbn [mbind outcome_bind]. rewrite E2. cbn [mbind outcome_bind]. split; [exact E3|].
  destruct (WriteCM_status _ _ (NewCM (CmO tx) true) HO E1) as (A1 & A2 & A3).
  destruct (WriteCM_status _ _ (NewDefaultCM (CmS tx)) HS E2) as (B1 & B2 & B3).
  destruct (WriteCM_status _ _ (NewDefaultCM (CmR tx)) HR E3) as (D1 & D2 & D3).
  cbn in *. split_and!; auto.
  - rewrite D2, B2; auto.
  - destruct (decide (cm_hash (CmS tx) = cm_hash (CmR tx))) as [E|E]; [|by rewrite D2].
    unfold status in *. by rewrite E.
Qed.
End Ledger.

(** ** Invariants of pool operations *)

Lemma PM_bind_Some {A B} (m : PM A) (k : A → PM B) p b p' :
  (m ≫= k) p = Some (b, p') ↔ ∃ a p1, m p = Some (a, p1) ∧ k a p1 = Some (b, p').
Proof. unfold mbind, PM_bind. destruct (m p) as [[a p1]|]; naive_solver. Qed.

(** [I] holds after [m] whenever it held before. *)
Definition keeps {A} (I : TxPool → Prop) (m : PM A) : Prop :=
  ∀ p a p', I p → m p = Some (a, p') → I p'.

Section Keeps.
Context (I : TxPool → Prop).

Lemma keeps_ret {A} (a : A) : keeps I (mret a).
Proof. by intros p a' p' HI [= -> ->]. Qed.

Lemma keeps_bind {A B} (m : PM A) (k : A → PM B) :
  keeps I m → (∀ a, keeps I (k a)) → keeps I (m ≫= k).
Proof. intros Hm Hk p b p' HI (a & p1 & H1 & H2)%PM_bind_Some. exact (Hk a p1 b p' (Hm p a p1 HI H1) H2). Qed.

Lemma keeps_get {A} (k : TxPool → PM A) :
  (∀ p a p', I p → k p p = Some (a, p') → I p') → keeps I (get ≫= k).
Proof. intros Hk p a p' HI. unfold mbind, PM_bind, get. by apply Hk. Qed.

Lemma keeps_modify f : (∀ p, I p → I (f p)) → keeps I (modify f).
Proof. intros Hf p a p' HI [= _ <-]. by apply Hf. Qed.

Lemma keeps_forM {A} (l : list A) f : (∀ x, x ∈ l → keeps I (f x)) → keeps I (forM l f).
Proof.
  induction l as [|x l IH]; intros Hf; cbn; [apply keeps_ret|].
  apply keeps_bind; [apply Hf; by left|]. intros _. apply IH. intros y Hy. apply Hf. by right.
Qed.
End Keeps.

(** Turns a goal about one run from [p] into one about every run. *)
Ltac use_keeps Hu :=
  match type of Hu with ?I ?p =>
    match goal with |- ?m p = _ → _ =>
      let Hk := fresh in cut (keeps I m); [intros Hk; exact (Hk _ _ _ Hu)|] end
  end.

Create HintDb keeps discriminated.
#[export] Hint Resolve keeps_ret : keeps.

Section Unknown.
Context `{PoolEnv}.

(** The pool holds no transaction with hash [h]. *)
Definition unknown (h : Z) (p : TxPool) : Prop :=
  lk_all (all p) !! h = None ∧
  ∀ addr l n tx, pending p !! addr = Some l → items (txs l) !! n = Some tx → tx_Hash tx ≠ h.

(** Operations that touch neither the lookup nor the pending lists. *)
Lemma unknown_frame h p p' :
  unknown h p → all p' = all p → pending p' = pending p → unknown h p'.
Proof. unfold unknown. by intros Hu -> ->. Qed.

Lemma keeps_write_CM h cm : keeps (unknown h) (write_CM cm).
Proof.
  intros p a p' Hu. unfold write_CM, mbind, PM_bind, get.
  destruct (CMdb.WriteCM _ _ _); try done. intros [= _ <-]. by eapply unknown_frame.
Qed.

Lemma keeps_reorgCM h tx : keeps (unknown h) (reorgCM tx).
Proof.
  unfold reorgCM. apply keeps_bind; [|intros _]; case_match; auto using keeps_write_CM, keeps_ret.
Qed.

Lemma keeps_processCM h tx : keeps (unknown h) (processCM tx).
Proof.
  unfold processCM. apply keeps_bind; [|intros _]; case_match; auto using keeps_write_CM, keeps_ret.
Qed.

Lemma keeps_all_Remove h hash : keeps (unknown h) (all_Remove hash).
Proof.
  apply keeps_get. intros p a p' [Ha Hp]. case_match; [|done]. intros [= _ <-].
  split; cbn; [|done]. by apply lookup_delete_None; right.
Qed.

Lemma keeps_all_Add h tx : tx_Hash tx ≠ h → keeps (unknown h) (all_Add tx).
Proof.
  intros Hne. apply keeps_modify. intros p [Ha Hp]. split; cbn; [|done].
  by rewrite lookup_insert_ne.
Qed.

Lemma keeps_priced_Removed h n : keeps (unknown h) (priced_Removed n).
Proof. apply keeps_modify. intros p Hu. cbv beta zeta. destruct (_ <=? _); by eapply unknown_frame. Qed.

Lemma keeps_priced_Put h tx : keeps (unknown h) (priced_Put tx).
Proof. apply keeps_modify. intros p Hu. by eapply unknown_frame. Qed.

Hint Resolve keeps_reorgCM keeps_processCM keeps_all_Remove keeps_all_Add keeps_priced_Removed
  keeps_priced_Put : keeps.

Lemma keeps_forget h tx : keeps (unknown h) (forget tx).
Proof. unfold forget. repeat (apply keeps_bind; [auto with keeps|intros _]). auto with keeps. Qed.

Lemma keeps_remember h tx : tx_Hash tx ≠ h → keeps (unknown h) (remember tx).
Proof. intros. unfold remember. repeat (apply keeps_bind; [auto with keeps|intros _]). auto with keeps. Qed.

Lemma keeps_enqueueTx h hash tx : tx_Hash tx ≠ h → keeps (unknown h) (enqueueTx hash tx).
Proof.
  intros Hne. apply keeps_get. intros p a p' Hu. cbv beta zeta.
  match goal with |- context [Add ?l ?t ?b] => destruct (Add l t b) as [[ins old] l'] end.
  use_keeps Hu. apply keeps_bind; [apply keeps_modify; intros q Hq; by eapply unknown_frame|intros _].
  destruct (negb ins); [apply keeps_ret|].
  apply keeps_bind; [destruct old; auto using keeps_forget, keeps_ret|intros _].
  apply keeps_bind; [by apply keeps_get; intros q x q' Hq [= _ <-]|intros known].
  apply keeps_bind; [destruct known; auto using keeps_remember, keeps_ret|intros _].
  apply keeps_ret.
Qed.

(** What [list_Remove] leaves and invalidates was in the list. *)
Lemma list_Remove_sub l tx removed invalids l' :
  list_Remove l tx = Some (removed, invalids, l') →
  (∀ n t, items (txs l') !! n = Some t → items (txs l) !! n = Some t) ∧
  (∀ t, t ∈ invalids → ∃ n, items (txs l) !! n = Some t).
Proof.
  unfold list_Remove. destruct (Remove (txs l) (AccountNonce tx)) as [[rm m]|] eqn:E; [|done]. cbn.
  assert (Hm : ∀ n t, items m !! n = Some t → items (txs l) !! n = Some t).
  { unfold Remove in E. destruct (items (txs l) !! AccountNonce tx); [|by simplify_eq].
    destruct (match find_index _ _ with Some _ => _ | None => _ end); [|done]. simplify_eq/=.
    intros n' t' [_ Ht]%lookup_delete_Some. done. }
  assert (Hf : ∀ f, (∀ n t, items (Filter m f).2 !! n = Some t → items (txs l) !! n = Some t) ∧
    (∀ t, t ∈ (Filter m f).1 → ∃ n, items (txs l) !! n = Some t)).
  { intros f. assert (Hr : (Filter m f).1 = (map_to_list (filter (λ kv, f kv.2 = true) (items m))).*2 ∧
      items (Filter m f).2 = filter (λ kv, f kv.2 = false) (items m)).
    { unfold Filter. destruct ((map_to_list _).*2); done. }
    destruct Hr as [-> ->]. split.
    - intros n t [Ht _]%map_lookup_filter_Some. by apply Hm.
    - intros t ([n t'] & -> & [Ht _]%elem_of_map_to_list%map_lookup_filter_Some)%list_elem_of_fmap.
      exists n. by apply Hm. }
  destruct rm, (strict l); cbn; try (intros [= <- <- <-]; cbn; split; [done|by intros t ?%elem_of_nil]).
  specialize (Hf (λ tx0, AccountNonce tx <? AccountNonce tx0)).
  destruct (Filter m _) as [inv m']. by intros [= <- <- <-].
Qed.

Lemma unknown_shrink h p addr l l' :
  unknown h p → pending p !! addr = Some l →
  (∀ n t, items (txs l') !! n = Some t → items (txs l) !! n = Some t) →
  unknown h (set_pending p (<[addr := l']> (pending p))).
Proof.
  intros [Ha Hp] Hl Hsub. split; [done|]. cbn. intros a l0 n t.
  rewrite lookup_insert_Some. intros [[<- <-]|[_ Hl0]] Ht; eauto.
Qed.

Lemma keeps_delete_pending h addr l : keeps (unknown h) (delete_pending_if_empty addr l).
Proof.
  unfold delete_pending_if_empty. case_match; [|apply keeps_ret].
  apply keeps_bind; [|intros _]; apply keeps_modify; intros p [Ha Hp]; split; cbn; try done.
  intros a l0 n t [_ Hl0]%lookup_delete_Some. eauto.
Qed.

Lemma keeps_noncer h addr n : keeps (unknown h) (noncer_setIfLower addr n).
Proof.
  unfold noncer_setIfLower. apply keeps_bind.
  - apply keeps_get. intros p a p' Hu. destruct (pendingNonces p !! addr); [by intros [= _ <-]|].
    intros [= _ <-]. by eapply unknown_frame.
  - intros m. case_match; [apply keeps_ret|]. apply keeps_modify. intros p Hu. by eapply unknown_frame.
Qed.

Lemma keeps_removeTx h hash oob : keeps (unknown h) (removeTx hash oob).
Proof.
  unfold removeTx. apply keeps_bind; [by apply keeps_get; intros q x q' Hq [= _ <-]|].
  intros [tx|]; [|apply keeps_ret].
  apply keeps_bind; [auto with keeps|intros _]. apply keeps_bind; [auto with keeps|intros _].
  apply keeps_bind; [destruct oob; auto with keeps; apply keeps_ret|intros _].
  apply keeps_get. intros p a p' Hu (found & p1 & H1 & H2)%PM_bind_Some.
  assert (Hu1 : unknown h p1).
  { destruct (pending p !! default 0 (Sender tx)) as [l|] eqn:El; [|by injection H1 as _ <-].
    apply PM_bind_Some in H1 as ([[removed invalids] l'] & p2 & E & H1).
    unfold lift in E. destruct (list_Remove l tx) as [r|] eqn:ER; [|done].
    injection E as -> <-.
    destruct (list_Remove_sub _ _ _ _ _ ER) as [Hsub Hinv].
    pose proof (unknown_shrink h p _ l l' Hu El Hsub) as Hu2.
    apply PM_bind_Some in H1 as ([] & p3 & [= <-] & H1). revert H1. use_keeps Hu2.
    destruct removed; [|apply keeps_ret].
    apply keeps_bind; [apply keeps_delete_pending|intros _].
    apply keeps_bind; [|intros _; apply keeps_bind; [apply keeps_noncer|intros _; apply keeps_ret]].
    apply keeps_forM. intros t Ht. destruct (Hinv t Ht) as (n & Hn).
    apply keeps_bind; [|intros _; apply keeps_ret]. apply keeps_enqueueTx, (proj2 Hu _ _ _ _ El Hn). }
  revert H2. use_keeps Hu1. destruct found; [apply keeps_ret|].
  apply keeps_get. intros q x q' Hq. destruct (queue q !! _) as [l|]; [|by intros [= _ <-]].
  use_keeps Hq. apply keeps_bind; [intros ? ? ? ?; unfold lift; destruct (list_Remove l tx); by intros [= _ <-]|].
  intros [[? ?] l']. apply keeps_modify. intros q1 Hq1. by eapply unknown_frame.
Qed.

Lemma keeps_lift {A} h (o : option A) : keeps (unknown h) (lift o).
Proof. intros p a p' Hu. unfold lift. destruct o; [|done]. by intros [= _ <-]. Qed.

Lemma keeps_make_room h tx local : keeps (unknown h) (make_room tx local).
Proof.
  apply keeps_get. intros p a p' Hu. cbv zeta. use_keeps Hu. destruct (_ <? _); [apply keeps_ret|].
  apply keeps_bind.
  { destruct local; [apply keeps_ret|]. unfold Underpriced.
    apply keeps_get. intros q x q' Hq. use_keeps Hq. destruct (containsTx q tx); [apply keeps_ret|].
    apply keeps_bind; [apply keeps_lift|]. intros [its st].
    apply keeps_bind; [apply keeps_modify; intros r Hr; by eapply unknown_frame|intros _].
    destruct (its !! 0%nat); apply keeps_ret. }
  intros []; [apply keeps_ret|]. apply keeps_get. intros q x q' Hq. use_keeps Hq.
  apply keeps_bind.
  { unfold Discard. apply keeps_get. intros r y r' Hr. use_keeps Hr.
    apply keeps_bind; [destruct (_ <? _); [done|apply keeps_ret]|intros _].
    apply keeps_bind; [apply keeps_lift|]. intros [[[its st] drop] save].
    apply keeps_bind; [apply keeps_modify; intros r1 Hr1; by eapply unknown_frame|intros _].
    apply keeps_ret. }
  intros drop. apply keeps_bind; [|intros _; apply keeps_ret].
  apply keeps_forM. intros t _. apply keeps_removeTx.
Qed.
End Unknown.
End TxPoolProofs.
