(* ===== verification/Transfer.v ===== *)
(** * Transfer: a private transfer from the RPC to the pool

    [toZeroTransaction] (internal/ethapi/api.go) against [verifyzkp]
    (core/tx_pool.go): every transfer an honest sender assembles passes the
    six proof checks of the pool. *)

From stdpp Require Import base gmap list.
From Stdlib Require Import ZArith Lia.
From S2P Require Import Prelude BigInt Sha256 Zkp ZkpProofs ZkpClaims Types Api CMdb TxList TxPool TxPoolProofs.

Local Open Scope Z_scope.
Local Open Scope go_scope.

Module Transfer.
Import Zkp ZkpLemmas ZkpProofs.

(** ** Encryption for the receiver always returns *)

Lemma norm32_total x : 0 <= x < 2 ^ 256 → ∃ b, norm32 x = Ret b ∧ length b = 32%nat.
Proof.
  intros Hx. assert (Hl : (length (be_encode x) <= 32)%nat).
  { apply length_be_encode_le. unfold pow256. cbn. lia. }
  unfold norm32. rewrite (proj2 (Nat.leb_le _ _) Hl). eexists. split; [done|].
  rewrite length_app, length_replicate. lia.
Qed.

Section Encrypt.
Context (pub : PublicKey) (Hvk : valid_key pub) (H256 : P pub <= 2 ^ 256).

Lemma encrypt_chunk_total draws fuel m :
  valid_draw pub (draws O) → ∃ b1 b2, encrypt_chunk pub draws (S fuel) m = Ret (b1, b2).
Proof using Hvk H256.
  intros Hd. unfold encrypt_chunk. rewrite draw_coprime_first by done. cbn [mbind outcome_bind].
  pose proof (key_pos pub Hvk) as Hp.
  pose proof (big_exp_range (G2 pub) (draws O + 2) (P pub) Hp).
  pose proof (Z.mod_pos_bound (big_exp (H pub) (draws O + 2) (P pub) * be_decode m) (P pub) Hp).
  destruct (norm32_total (big_exp (G2 pub) (draws O + 2) (P pub))) as (b1 & -> & _); [lia|].
  destruct (norm32_total ((big_exp (H pub) (draws O + 2) (P pub) * be_decode m) mod P pub))
    as (b2 & -> & _); [lia|]. cbn [mbind outcome_bind]. eauto.
Qed.

(** Every chunk is encrypted at its first draw. *)
Lemma Encrypt_total draws fuel M :
  (∀ i, valid_draw pub (draws i O)) → ∃ C, Encrypt draws (S fuel) pub M = Ret C.
Proof using Hvk H256.
  intros Hd. unfold Encrypt.
  assert (Hloop : ∀ n i c1 c2, ∃ C, encrypt_from pub draws (S fuel) M n i c1 c2 = Ret C); [|apply Hloop].
  induction n as [|n IH]; intros i c1 c2; cbn [encrypt_from]; [eauto|].
  destruct (encrypt_chunk_total (draws i) fuel
    (match n with O => drop (i * 28) M | S _ => take 28 (drop (i * 28) M) end) (Hd i))
    as (b1 & b2 & ->). cbn [mbind outcome_bind]. apply IH.
Qed.
End Encrypt.

(** ** Honest transfers *)

(** What the sender's arguments and random draws satisfy: a total [Vr + Vs]
    below the value limit and the modulus, an input commitment that opens to
    it, keys that parse, and draws of [Rand] below its limits. *)
Record honest (k : PublicKey) (args : Api.SendTxArgs) (d : Api.zero_draws) : Prop := {
  h_key : valid_key k;
  h_values : ∃ Vs Vr, Api.a_Vs args = Some Vs ∧ Api.a_Vr args = Some Vr ∧ 0 <= Vs ∧ 0 <= Vr ∧
    Vr + Vs <= 262144 ∧ Vr + Vs < P k ∧
    ∃ VoR, Api.a_VoR args = Some VoR ∧
      Api.a_CmO args = Some (commitment (Commit k (Vr + Vs) VoR));
  h_rpk : ∃ s raw rpub, Api.a_Rpk args = Some s ∧ Api.paraPK s = Ret raw ∧
    Api.full_key raw = Ret rpub ∧ valid_key rpub ∧ P rpub <= 2 ^ 256 ∧
    valid_draw rpub (Api.d_Evs d O) ∧ ∀ i, valid_draw rpub (Api.d_CmSR d i O);
  h_spk : ∃ s raw spub, Api.a_Spk args = Some s ∧ Api.paraPK s = Ret raw ∧
    Api.enc_key raw = Ret spub ∧ valid_key spub ∧ P spub <= 2 ^ 256 ∧
    ∀ i, valid_draw spub (Api.d_CmRR d i O);
  h_nonce : is_Some (Api.a_Nonce args);
  h_gas : is_Some (Api.a_Gas args);
  h_draws : valid_draw k (Api.d_Erpk d O) ∧ valid_draw k (Api.d_Espk d O) ∧
    valid_draw k (Api.d_CMrpk d O) ∧ valid_draw k (Api.d_CMspk d O) ∧
    valid_draw k (Api.d_EvS d O) ∧ valid_draw k (Api.d_EvR d O) ∧ valid_draw k (Api.d_EvO d O) ∧
    valid_draw k (Api.d_CMsFP d).1 ∧ valid_draw k (Api.d_CMsFP d).2 ∧
    valid_draw k (Api.d_CMrFP d).1 ∧ valid_draw k (Api.d_CMrFP d).2;
}.

Section Equality.
Context (sha : bytes → bytes) (k : PublicKey) (Hvk : valid_key k).

(** An accepted equality proof has four responses. *)
Lemma equality_index4 Ca Cb ep :
  VerifyEqualityProof sha k k Ca Cb ep = true →
  ∃ s0 s1 s2 s3, Api.index4 (lp_S ep) = Ret (s0, s1, s2, s3) ∧
    mkLinearEquationProof [s0; s1; s2; s3] (lp_T ep) = ep.
Proof using Type.
  unfold VerifyEqualityProof, VerifyLinearEquationProof. rewrite Z.eqb_refl. cbn [negb].
  destruct (Nat.eqb_spec (length (lp_S ep)) (length (equality_generators k k))) as [E|]; [|done].
  intros _. destruct ep as [[|s0 [|s1 [|s2 [|s3 [|s4 S]]]]] T]; try done. cbn. eauto 10.
Qed.

(** Two commitments of one value, whatever their randomness. *)
Lemma commit_equality mix w ra rb :
  0 <= w < P k →
  ∃ ep, GenerateLinearEquationProof sha mix
    (be_encode ((be_decode (commitment (Commit k w ra)) * be_decode (commitment (Commit k w rb))) mod P k))
    0 equality_coefficients [be_encode w; be_encode w; ra; rb] (equality_generators k k) k = Some ep ∧
    ∀ c1a c1b, VerifyEqualityProof sha k k (mkCypherText c1a (commitment (Commit k w ra)))
      (mkCypherText c1b (commitment (Commit k w rb))) ep = true.
Proof using Hvk.
  intros Hw. apply equality_accepts; try done; [lia|].
  rewrite !Commit_eqmod by done. constructor. f_equal. ring.
Qed.

(** The verifier multiplies the two commitments: their order is free. *)
Lemma VerifyEqualityProof_comm Ca Cb ep :
  VerifyEqualityProof sha k k Ca Cb ep = VerifyEqualityProof sha k k Cb Ca ep.
Proof using Type. unfold VerifyEqualityProof. by rewrite (Z.mul_comm (be_decode (C2 Cb))). Qed.

Lemma rnd_Commit v r : 0 <= r → rnd (Commit k v (be_encode r)) = be_encode r.
Proof using Type. intros Hr. cbn [Commit rnd]. by rewrite be_decode_encode. Qed.

(** The address proofs of [toZeroTransaction]. *)
Lemma address_equality mix w r1 r2 :
  0 <= w < P k → 0 <= r1 → 0 <= r2 →
  let C1 := Commit k w (be_encode r1) in
  let C2 := Commit k w (be_encode r2) in
  ∃ ep, GenerateAddressEqualityProof sha mix k k C1 C2 (be_encode w) = Some ep ∧
    ∀ c1a c1b, VerifyEqualityProof sha k k (mkCypherText c1a (commitment C2))
      (mkCypherText c1b (commitment C1)) ep = true.
Proof using Hvk.
  intros Hw Hr1 Hr2. cbv zeta. unfold GenerateAddressEqualityProof.
  rewrite Z.eqb_refl, !rnd_Commit, be_decode_encode by lia. cbn [negb].
  destruct (commit_equality mix w (be_encode r1) (be_encode r2) Hw) as (ep & -> & Hver).
  exists ep. split; [done|]. intros. rewrite VerifyEqualityProof_comm. apply Hver.
Qed.

(** The proof that the input and the encrypted total agree. *)
Lemma total_equality mix w r VoR :
  0 <= w < P k → w < 2 ^ 63 → 0 <= r →
  let Co := Commit k w (be_encode r) in
  ∃ ep, GenerateEqualityProof sha mix k k Co (mkCommitment (commitment (Commit k w VoR)) VoR) w = Some ep ∧
    ∀ c1a c1b, VerifyEqualityProof sha k k (mkCypherText c1a (commitment Co))
      (mkCypherText c1b (commitment (Commit k w VoR))) ep = true.
Proof using Hvk.
  intros Hw Hw63 Hr. cbv zeta. unfold GenerateEqualityProof.
  rewrite Z.eqb_refl, rnd_Commit, i64_small by lia. cbn [negb commitment rnd].
  apply commit_equality. exact Hw.
Qed.
End Equality.

Lemma FormatProof_eta fp : mkFormatProof (fp_C fp) (fp_Z1 fp) (fp_Z2 fp) = fp.
Proof. by destruct fp. Qed.

Lemma BalanceProof_eta bp :
  mkBalanceProof (bp_C bp) (bp_R_v bp) (bp_R_r bp) (bp_S_v bp) (bp_S_r bp) (bp_S_or bp) = bp.
Proof. by destruct bp. Qed.

Ltac step H := rewrite H; cbn [mbind outcome_bind Api.deref].

(** ** Claims *)

(** C2: End to end: the transaction [toZeroTransaction] assembles for an honest
    sender exists (every retry loop stops at its first draw, nothing panics),
    spends the commitment the sender named, and passes the six checks of
    [verifyzkp] under the same regulator key, for any hash function. *)
Theorem honest_transfer_verifies `{TxPool.PoolEnv} cfg args d fuel :
  let k := TxPool.Regulator cfg in
  honest k args d →
  ∃ tx, Api.toZeroTransaction TxPool.sha256 d (S fuel) k args = Ret tx ∧
    Types.ID tx = 0 ∧ Some (Types.CmO tx) = Api.a_CmO args ∧
    TxPool.verifyzkp cfg tx = None.
Proof.
  cbv zeta. set (k := TxPool.Regulator cfg). set (sha := TxPool.sha256).
  intros [Hvk (Vs & Vr & EVs & EVr & HVs & HVr & Hlim & HltP & VoR & EVoR & ECmO)
    (rs & rraw & rpub & Erpk & Erp & Erk & Hrk & Hr256 & Hrd & Hrds)
    (ss & sraw & spub & Espk & Esp & Esk & Hsk & Hs256 & Hsds)
    [nonce Enonce] [gas Egas]
    (D1 & D2 & D3 & D4 & D5 & D6 & D7 & F1 & F2 & F3 & F4)].
  pose proof (key_pos k Hvk) as Hp.
  set (ra := be_decode (sha rs) mod P k). set (sa := be_decode (sha ss) mod P k).
  assert (Hra : 0 <= ra < P k) by by apply Z.mod_pos_bound.
  assert (Hsa : 0 <= sa < P k) by by apply Z.mod_pos_bound.
  assert (Htot : u64 (Vr + Vs) = Vr + Vs) by (apply u64_small; u64_lia).
  destruct (address_equality sha k Hvk (Api.d_ErpkEP d) ra (Api.d_CMrpk d O + 2) (Api.d_Erpk d O + 2))
    as (epr & Gr & Vr_); [done|unfold valid_draw in *; lia|unfold valid_draw in *; lia|].
  destruct (address_equality sha k Hvk (Api.d_EspkEP d) sa (Api.d_CMspk d O + 2) (Api.d_Espk d O + 2))
    as (eps & Gs & Vs_); [done|unfold valid_draw in *; lia|unfold valid_draw in *; lia|].
  destruct (total_equality sha k Hvk (Api.d_EvoEP d) (Vr + Vs) (Api.d_EvO d O + 2) VoR)
    as (epo & Go & Vo_); [lia|lia|unfold valid_draw in *; lia|].
  destruct (equality_index4 sha k _ _ _ (Vr_ [] [])) as (r0 & r1 & r2 & r3 & Ir & Er).
  destruct (equality_index4 sha k _ _ _ (Vs_ [] [])) as (s0 & s1 & s2 & s3 & Is & Es).
  destruct (equality_index4 sha k _ _ _ (Vo_ [] [])) as (o0 & o1 & o2 & o3 & Io & Eo).
  unfold Api.toZeroTransaction.
  step EVs. step EVr. step Erpk. step Espk. step Erp. step Esp. step EVoR. step ECmO.
  fold sha ra sa. rewrite !(EncryptAddress_total k Hvk) by done. cbn [mbind outcome_bind].
  rewrite !be_decode_encode by lia. step Gr. step Gs.
  rewrite (EncryptValue_total k Hvk _ _ Vs) by (done || lia). cbn [mbind outcome_bind]. step Erk.
  rewrite (EncryptValue_total rpub Hrk _ _ Vs) by (done || lia). cbn [mbind outcome_bind].
  destruct (Encrypt_total rpub Hrk Hr256 (Api.d_CmSR d) fuel
    (rnd (Commit k Vs (be_encode (Api.d_EvS d O + 2)))) Hrds) as (cSR & ESR). step ESR.
  rewrite (EncryptValue_total k Hvk _ _ Vr) by (done || lia). cbn [mbind outcome_bind]. step Esk.
  destruct (Encrypt_total spub Hsk Hs256 (Api.d_CmRR d) fuel
    (rnd (Commit k Vr (be_encode (Api.d_EvR d O + 2)))) Hsds) as (cRR & ERR). step ERR.
  rewrite Htot, (EncryptValue_total k Hvk _ _ (Vr + Vs)) by (done || lia). cbn [mbind outcome_bind].
  step Go. step Ir. step Is. step Io. step Enonce. step Egas.
  eexists. split; [reflexivity|]. split; [done|]. split; [done|].
  unfold TxPool.verifyzkp. fold k sha.
  unfold Types.EVS, Types.EVR, Types.CMsFP, Types.CMrFP, Types.BP, Types.EVO, Types.ERPK, Types.ESPK,
    Types.EvoEP, Types.ErpkEP, Types.EspkEP.
  cbn -[VerifyFormatProof VerifyBalanceProof VerifyEqualityProof Commit GenerateFormatProof
        GenerateBalanceProof be_encode big_exp].
  rewrite Er, Es, Eo, Vr_, Vs_, Vo_, FormatProof_eta, FormatProof_eta, BalanceProof_eta.
  unfold valid_draw in *.
  rewrite !(format_proof_accepts sha k Hvk) by
    (try done; try lia; rewrite Commit_rnd, be_decode_encode by lia; done).
  rewrite (balance_proof_accepts sha k Hvk); try done;
    rewrite ?Commit_rnd; apply Commit_eqmod; (done || lia).
Qed.

(** ** A concrete transfer *)

Definition hex64 (a b : Byte.byte) : bytes := replicate 62 Byte.x30 ++ [a; b].

(** The key 23, 5, 7, 11 in the form the RPC takes. *)
Definition key23_hex : bytes :=
  hex64 Byte.x31 Byte.x37 ++ hex64 Byte.x30 Byte.x35 ++ hex64 Byte.x30 Byte.x37 ++ hex64 Byte.x30 Byte.x62.

(** A payment of [Vs] and a change of [Vr], the input committed with [VoR]. *)
Definition demo_args (nonce Vs Vr : Z) (VoR : bytes) : Api.SendTxArgs :=
  {| Api.a_From := 7; Api.a_To := Some 9; Api.a_Gas := Some 90000; Api.a_GasPrice := Some 1;
     Api.a_Value := Some 0; Api.a_Nonce := Some nonce; Api.a_ID := Some 0; Api.a_Data := None;
     Api.a_Input := None; Api.a_CmO := Some (commitment (Commit ZkpClaims.key23 (Vr + Vs) VoR));
     Api.a_Vr := Some Vr; Api.a_Vs := Some Vs; Api.a_VoR := Some VoR;
     Api.a_Spk := Some key23_hex; Api.a_Rpk := Some key23_hex;
     Api.a_EpkrC1 := None; Api.a_EpkrC2 := None; Api.a_EpkpC1 := None; Api.a_EpkpC2 := None;
     Api.a_SigM := None; Api.a_SigMHash := None; Api.a_SigR := None; Api.a_SigS := None;
     Api.a_CmV := None; Api.a_CmSRC1 := None; Api.a_CmSRC2 := None; Api.a_CmRRC1 := None;
     Api.a_CmRRC2 := None |}.

Definition demo_draws (s r : Z) : Api.zero_draws :=
  let c := (λ _ : nat, 3) in
  {| Api.d_Erpk := c; Api.d_Espk := c; Api.d_CMrpk := c; Api.d_CMspk := c;
     Api.d_ErpkEP := 3; Api.d_EspkEP := 5; Api.d_EvS := λ _, s; Api.d_CMsFP := (3, 9); Api.d_Evs := c;
     Api.d_CmSR := λ _, c; Api.d_EvR := λ _, r; Api.d_CMrFP := (3, 5); Api.d_CmRR := λ _, c;
     Api.d_EvO := c; Api.d_EvoEP := 9; Api.d_BP := 7 |}.

Definition demo_config : TxPool.TxPoolConfig :=
  TxPool.mk_config 10 16 4096 64 1024 ZkpClaims.key23 ZkpClaims.key23.

(** An environment with one sender, at nonce [n]. *)
Definition demo_env (n : Z) : TxPool.PoolEnv := {|
  TxPool.tx_Hash tx := be_decode (Types.CmS tx) * 2 ^ 16 + Types.AccountNonce tx;
  TxPool.tx_Size _ := 1000; TxPool.Sender _ := Some 7; TxPool.keccak := Sha256.sha256;
  TxPool.sha256 := Sha256.sha256; TxPool.GetNonce _ := n; TxPool.GetBalance _ := 10 ^ 9 |}.

Lemma demo_honest : honest ZkpClaims.key23 (demo_args 5 4 5 [Byte.x11]) (demo_draws 5 7).
Proof.
  split.
  - exact ZkpClaims.key23_valid.
  - exists 4, 5. split_and!; try done. exists [Byte.x11]. done.
  - exists key23_hex. do 2 eexists. split_and!; [done|vm_compute; reflexivity|vm_compute; reflexivity|
      exact ZkpClaims.key23_valid|done|done|done].
  - exists key23_hex. do 2 eexists. split_and!; [done|vm_compute; reflexivity|vm_compute; reflexivity|
      exact ZkpClaims.key23_valid|done|done].
  - done.
  - done.
  - done.
Qed.

Lemma honest_transfer_verifies_witness :
  ∃ tx, Api.toZeroTransaction Sha256.sha256 (demo_draws 5 7) 1 ZkpClaims.key23
          (demo_args 5 4 5 [Byte.x11]) = Ret tx ∧
    Types.ID tx = 0 ∧ Some (Types.CmO tx) = Api.a_CmO (demo_args 5 4 5 [Byte.x11]) ∧
    @TxPool.verifyzkp (demo_env 5) demo_config tx = None.
Proof.
  exact (@honest_transfer_verifies (demo_env 5) demo_config _ _ O demo_honest).
Defined.
End Transfer.
