(* ===== verification/ExchangeProofs.v ===== *)
(** * ExchangeProofs: the exchange server's cryptography and its purchases

    Decryption inverts encryption up to the leading zero bytes of each slice,
    a signature verifies exactly when the hash of its message has no leading
    zero byte, generated keys are well formed, and a purchase posted by the
    [/buy] handler reaches the pool's signature check intact. *)

From stdpp Require Import base list.
From Stdlib Require Import ZArith Lia.
From S2P Require Import Prelude BigInt Sha256 Hexutil HexutilProofs Zkp ZkpProofs ZkpClaims Types Api Exchange TxList CMdb TxPool TxPoolProofs Transfer.

Local Open Scope Z_scope.
Local Open Scope go_scope.

Module ExchangeProofs.
Import Zkp ZkpLemmas Exchange.

(** ** Leading zeros *)

Lemma length_strip0 l : (length (strip0 l) <= length l)%nat.
Proof. induction l as [|b l IH]; cbn [strip0]; [done|]. case_match; cbn [length]; lia. Qed.

Lemma strip0_same l : strip0 l = l ↔ head l ≠ Some Byte.x00.
Proof.
  destruct l as [|b l]; [done|]. cbn [strip0 head]. pose proof (length_strip0 l) as Hl.
  destruct (Z.eqb_spec (b2z b) 0) as [E|E].
  - assert (b = Byte.x00) as -> by by apply b2z_inj.
    split; [|done]. intros Es. rewrite Es in Hl. cbn in Hl. lia.
  - split; [|done]. intros _ [= ->]. by apply E.
Qed.

Lemma strip0_length l : length (strip0 l) = length l ↔ strip0 l = l.
Proof.
  split; [|by intros ->]. destruct l as [|b l]; [done|]. cbn [strip0].
  pose proof (length_strip0 l). destruct (_ =? _); [cbn; lia|done].
Qed.

(** ** Key pairs *)

Record key_pair (priv : PrivateKey) : Prop := {
  kp_valid : valid_key (priv_pub priv);
  kp_X : 0 <= X priv;
  kp_H : H (priv_pub priv) = big_exp (G2 (priv_pub priv)) (X priv) (P (priv_pub priv));
}.

Section KeyPair.
Context (priv : PrivateKey) (Hkp : key_pair priv).
Local Abbreviation pub := (priv_pub priv).
Local Abbreviation p := (P (priv_pub priv)).

Lemma H_eqmod : H pub ≡ G2 pub ^ X priv [mod p].
Proof using Hkp. rewrite (kp_H _ Hkp). apply big_exp_eqmod, key_pos, Hkp. Qed.

(** One slice: the shared secret cancels. *)
Lemma decrypt_chunk_value k m :
  0 <= k → 0 <= m < p →
  decrypt_chunk priv (be_encode (big_exp (G2 pub) k p)) (be_encode ((big_exp (H pub) k p * m) mod p))
  = be_encode m.
Proof using Hkp.
  intros Hk Hm. pose proof (key_pos _ (kp_valid _ Hkp)) as Hp.
  pose proof (vk_large _ (kp_valid _ Hkp)) as Hp5. pose proof (kp_X _ Hkp) as HX.
  pose proof (vk_prime _ (kp_valid _ Hkp)) as Hprime.
  unfold decrypt_chunk. rewrite !be_decode_encode by (apply big_exp_range || apply Z.mod_pos_bound; lia).
  set (s := big_exp (big_exp (G2 pub) k p) (X priv) p).
  assert (Hs : s ≡ G2 pub ^ (k * X priv) [mod p]).
  { unfold s. rewrite big_exp_eqmod by lia. rewrite Z.pow_mul_r by lia.
    apply eqmod_pow, big_exp_eqmod. lia. }
  assert (Hu : unit_mod p s).
  { unfold unit_mod. destruct Hs as [->]. apply unit_mod_pow; [done|apply unit_G2, Hkp|nia]. }
  unfold mod_inverse. rewrite (unit_mod_gcd _ Hprime _ Hu). cbn [Z.eqb default].
  assert (Hinv : Z.invmod s p * s ≡ 1 [mod p]).
  { constructor. apply Z.invmod_coprime'. by apply unit_mod_gcd. }
  f_equal. apply (eqmod_small p); [apply Z.mod_pos_bound; lia|done|].
  rewrite !eqmod_mod, big_exp_eqmod by lia.
  rewrite (eqmod_pow _ _ _ k H_eqmod), <- Z.pow_mul_r, (Z.mul_comm (X priv)), <- Hs by lia.
  rewrite Z.mul_assoc, Hinv. by rewrite Z.mul_1_l.
Qed.

(** ** Slices and blocks *)

Fixpoint slices (rest i : nat) (M : bytes) : list bytes :=
  match rest with
  | O => []
  | S rest =>
      (match rest with O => drop (i * 28) M | S _ => take 28 (drop (i * 28) M) end)
      :: slices rest (S i) M
  end.

Lemma norm32_value x b : 0 <= x → norm32 x = Ret b → be_decode b = x ∧ length b = 32%nat.
Proof using Type.
  intros Hx. unfold norm32. destruct (Nat.leb_spec (length (be_encode x)) 32); [|done].
  intros [= <-]. rewrite length_app, length_replicate. split; [|lia].
  rewrite be_decode_app, be_decode_encode by done.
  assert (E : ∀ n, be_decode (replicate n Byte.x00) = 0).
  { intros n. induction n as [|n IH]; [done|]. cbn [replicate]. rewrite be_decode_cons, IH. cbn. lia. }
  rewrite E. lia.
Qed.

(** What [Encrypt] writes: blocks of 32 bytes that decrypt to the slices. *)
Definition opens_to (b1 b2 m : bytes) : Prop :=
  length b1 = 32%nat ∧ length b2 = 32%nat ∧ decrypt_chunk priv b1 b2 = strip0 m.

Lemma encrypt_chunk_opens draws fuel m :
  p <= 2 ^ 256 → valid_draw pub (draws O) → be_decode m < p →
  ∃ b1 b2, encrypt_chunk pub draws (S fuel) m = Ret (b1, b2) ∧ opens_to b1 b2 m.
Proof using Hkp.
  intros H256 Hd Hm. pose proof (key_pos _ (kp_valid _ Hkp)) as Hp.
  destruct (Transfer.encrypt_chunk_total pub (kp_valid _ Hkp) H256 draws fuel m Hd) as (b1 & b2 & E).
  exists b1, b2. split; [done|]. unfold encrypt_chunk in E.
  rewrite (draw_coprime_first pub (kp_valid _ Hkp)) in E by done. cbn [mbind outcome_bind] in E.
  set (k := draws O + 2) in E. assert (0 <= k) by (unfold k, valid_draw in *; lia).
  apply outcome_bind_Ret in E as (x1 & E1 & E). apply outcome_bind_Ret in E as (x2 & E2 & [= <- <-]).
  apply norm32_value in E1 as [V1 L1]; [|apply big_exp_range; lia].
  apply norm32_value in E2 as [V2 L2]; [|apply Z.mod_pos_bound; lia].
  split_and!; [done|done|]. pose proof (be_decode_nonneg m).
  rewrite <- (be_encode_decode m), <- (decrypt_chunk_value k (be_decode m)) by (lia || done).
  unfold decrypt_chunk. rewrite V1, V2, !be_decode_encode; [done|..];
    (apply Z.mod_pos_bound || apply big_exp_range); lia.
Qed.

Lemma encrypt_from_opens draws fuel M rest i c1 c2 :
  p <= 2 ^ 256 → (∀ i, valid_draw pub (draws i O)) →
  Forall (λ m, be_decode m < p) (slices rest i M) →
  ∃ l1 l2, encrypt_from pub draws (S fuel) M rest i c1 c2
      = Ret (mkCypherText (c1 ++ concat l1) (c2 ++ concat l2)) ∧
    Forall3 opens_to l1 l2 (slices rest i M).
Proof using Hkp.
  intros H256 Hd. revert i c1 c2. induction rest as [|rest IH]; intros i c1 c2 Hall; cbn [encrypt_from slices] in *.
  { exists [], []. rewrite !app_nil_r. split; [done|constructor]. }
  apply Forall_cons in Hall as [Hm Hall].
  destruct (encrypt_chunk_opens (draws i) fuel _ H256 (Hd i) Hm) as (b1 & b2 & E & Ho). rewrite E.
  cbn [mbind outcome_bind].
  destruct (IH (S i) (c1 ++ b1) (c2 ++ b2) Hall) as (l1 & l2 & E' & Hl).
  exists (b1 :: l1), (b2 :: l2). cbn [concat]. rewrite E', <- !app_assoc. split; [done|]. by constructor.
Qed.

Lemma concat_blocks (l : list bytes) i :
  Forall (λ b, length b = 32%nat) l → drop (i * 32) (concat l) = concat (drop i l) ∧
  length (concat l) = (length l * 32)%nat.
Proof using Type.
  intros Hl. split.
  - revert i. induction Hl as [|b l Hb Hl IH]; intros i; [cbn [concat]; by rewrite !skipn_nil|].
    destruct i as [|i]; [done|]. change (drop (S i) (b :: l)) with (drop i l). rewrite <- (IH i). cbn [concat].
    replace (S i * 32)%nat with (length b + i * 32)%nat by lia. by rewrite drop_app_add.
  - induction Hl as [|b l Hb Hl IH]; [done|]. cbn [concat length]. rewrite length_app, IH. lia.
Qed.

Lemma decrypt_from_opens l1 l2 ms rest i M :
  Forall3 opens_to l1 l2 ms → length l1 = (i + rest)%nat →
  decrypt_from priv (mkCypherText (concat l1) (concat l2)) rest i M
  = Ret (M ++ concat (map strip0 (drop i ms))).
Proof using Type.
  intros Hl. assert (Hb1 : Forall (λ b, length b = 32%nat) l1 ∧ Forall (λ b, length b = 32%nat) l2 ∧
    length l2 = length l1 ∧ length ms = length l1).
  { induction Hl as [|b1 b2 m l1 l2 ms (H1 & H2 & _) _ (F1 & F2 & F3 & F4)]; [done|].
    split_and!; try constructor; try done; cbn; lia. }
  destruct Hb1 as (F1 & F2 & E2 & E3).
  revert i M. induction rest as [|rest IH]; intros i M Hlen; cbn [decrypt_from C1 C2].
  { rewrite drop_ge by lia. cbn. by rewrite app_nil_r. }
  destruct (lookup_lt_is_Some_2 l1 i ltac:(lia)) as [b1 Eb1].
  destruct (lookup_lt_is_Some_2 l2 i ltac:(lia)) as [b2 Eb2].
  destruct (lookup_lt_is_Some_2 ms i ltac:(lia)) as [m Em].
  destruct (Forall3_lookup_lmr _ _ _ _ _ _ _ _ Hl Eb1 Eb2 Em) as (L1 & L2 & Ho).
  destruct (concat_blocks l1 i F1) as [D1 _], (concat_blocks l2 i F2) as [D2 Len2].
  destruct (Nat.ltb_spec (length (concat l2)) (match rest with O => i * 32 | S _ => (i + 1) * 32 end)%nat)
    as [Hlt|_]; [destruct rest; lia|].
  assert (Hcut : ∀ (l : list bytes) b, l !! i = Some b → length b = 32%nat → drop (i * 32) (concat l) = concat (drop i l) →
    length l = (i + S rest)%nat →
    (match rest with O => drop (i * 32) (concat l) | S _ => take 32 (drop (i * 32) (concat l)) end) = b).
  { intros l b El Hb D Hl'. rewrite D, (drop_S l b i El). cbn [concat].
    destruct rest; [rewrite drop_ge by lia; cbn; by rewrite app_nil_r|].
    rewrite <- Hb. by rewrite take_app_length. }
  rewrite (Hcut l1 b1), (Hcut l2 b2), Ho by (done || lia).
  rewrite IH by lia. rewrite (drop_S ms m i Em). cbn [map concat]. by rewrite <- app_assoc.
Qed.

Lemma slices_concat M rest i :
  (length M <= (i + rest) * 28)%nat → (i * 28 <= length M)%nat →
  (rest = 0%nat → length M = (i * 28)%nat) → concat (slices rest i M) = drop (i * 28) M.
Proof using Type.
  revert i. induction rest as [|rest IH]; intros i Hlen Hi H0.
  { cbn. rewrite drop_ge by (rewrite H0; lia). done. }
  cbn [slices concat]. destruct rest as [|rest]; [cbn; by rewrite app_nil_r|].
  destruct (decide ((i + 1) * 28 <= length M)%nat) as [Hle|Hgt].
  - rewrite IH by lia. replace (S i * 28)%nat with (i * 28 + 28)%nat by lia.
    by rewrite <- drop_drop, take_drop.
  - rewrite take_ge by (rewrite length_drop; lia).
    assert (E : ∀ r j, (length M <= j * 28)%nat → concat (slices r j M) = []).
    { induction r as [|r IHr]; intros j Hj; [done|]. cbn [slices concat]. rewrite (IHr (S j)) by lia.
      rewrite drop_ge by lia. by destruct r. }
    rewrite E by lia. by rewrite app_nil_r.
Qed.

Lemma length_blocks (l1 l2 ms : list bytes) :
  Forall3 opens_to l1 l2 ms → ((length (concat l1) + 31) / 32 = length ms)%nat ∧ length l1 = length ms.
Proof using Type.
  intros Hl. assert (Hb : Forall (λ b, length b = 32%nat) l1 ∧ length l1 = length ms).
  { induction Hl as [|b1 b2 m l1 l2 ms (H1 & _) _ (F1 & F2)]; [done|].
    split; [by constructor|cbn; lia]. }
  destruct Hb as [Hb E]. destruct (concat_blocks l1 0 Hb) as [_ ->]. split; [|done]. rewrite E.
  symmetry. apply (Nat.div_unique _ _ _ 31); lia.
Qed.
End KeyPair.

Lemma length_slices rest i M : length (slices rest i M) = rest.
Proof. revert i. induction rest; intros i; cbn; auto. Qed.

Definition message_slices (M : bytes) : list bytes := slices ((length M + 27) / 28) 0 M.

Lemma message_slices_concat M : concat (message_slices M) = M.
Proof.
  unfold message_slices. pose proof (Nat.div_mod_eq (length M + 27) 28).
  pose proof (Nat.mod_upper_bound (length M + 27) 28). rewrite slices_concat; [done|lia..].
Qed.

(** Stripping leaves a list of slices alone exactly when no slice starts with
    a zero byte. *)
Lemma concat_strip0 (l : list bytes) :
  concat (map strip0 l) = concat l ↔ Forall (λ m, head m ≠ Some Byte.x00) l.
Proof.
  assert (Hle : ∀ l, (length (concat (map strip0 l)) <= length (concat l))%nat).
  { induction l0 as [|m l0 IH]; [done|]. cbn. rewrite !length_app. pose proof (length_strip0 m). lia. }
  split.
  - induction l as [|m l IH]; [constructor|]. cbn [map concat]. intros E.
    assert (Em : strip0 m = m).
    { apply strip0_length. apply (f_equal length) in E. rewrite !length_app in E.
      pose proof (length_strip0 m). specialize (Hle l). lia. }
    rewrite Em in E. apply app_inv_head in E. constructor; [by apply strip0_same|auto].
  - induction 1 as [|m l Hm _ IH]; [done|]. cbn. by rewrite IH, (proj2 (strip0_same m) Hm).
Qed.

Lemma decrypt_slices priv draws fuel M :
  key_pair priv → P (priv_pub priv) <= 2 ^ 256 → (∀ i, valid_draw (priv_pub priv) (draws i O)) →
  Forall (λ m, be_decode m < P (priv_pub priv)) (message_slices M) →
  ∃ C, Encrypt draws (S fuel) (priv_pub priv) M = Ret C ∧
    Decrypt priv C = Ret (concat (map strip0 (message_slices M))).
Proof.
  intros Hkp H256 Hd Hm.
  destruct (encrypt_from_opens priv Hkp draws fuel M _ 0 [] [] H256 Hd Hm) as (l1 & l2 & E & Hl).
  eexists. split; [exact E|]. cbn [app].
  destruct (length_blocks priv l1 l2 _ Hl) as [El1 El2].
  unfold Decrypt. cbn [C1]. rewrite El1. rewrite (decrypt_from_opens priv l1 l2 _ _ 0 [] Hl) by lia.
  by rewrite drop_0.
Qed.

Lemma signature_valid sha256 priv draws fuel m :
  key_pair priv → 0 <= draws O → Z.gcd (draws O + 2) (P (priv_pub priv) - 1) = 1 →
  ∃ sig, Sign sha256 draws (S fuel) priv m = Ret sig ∧ sig_M sig = m ∧
    Zkp.Verify sha256 (priv_pub priv) sig = bool_decide (head (sha256 m) ≠ Some Byte.x00).
Proof.
  intros Hkp Hd Hg. pose proof (kp_valid _ Hkp) as Hvk. pose proof (key_pos _ Hvk) as Hp.
  pose proof (vk_large _ Hvk) as Hp5. pose proof (vk_prime _ Hvk) as Hprime.
  pose proof (kp_X _ Hkp) as HX.
  unfold Sign. cbn [draw_coprime]. unfold big_gcd64. rewrite Hg. cbn [Z.eqb]. change (i64 1 =? 1) with true.
  cbn [mbind outcome_bind]. set (K := draws O + 2) in *.
  destruct (mod_inverse K (P (priv_pub priv) - 1)) as [s|] eqn:Es.
  2: { unfold mod_inverse in Es. by rewrite Hg in Es. }
  apply mod_inverse_spec in Es as [Hs Hsr]; [|lia].
  eexists. split; [reflexivity|]. split; [done|]. unfold Zkp.Verify. cbn [sig_M sig_M_hash sig_R sig_S].
  rewrite be_encode_decode.
  destruct (decide (strip0 (sha256 m) = sha256 m)) as [Eh|Eh].
  2: { rewrite (bool_decide_eq_false_2 (head _ ≠ _)) by (intros Hc; by apply Eh, strip0_same).
       destruct (Nat.eqb_spec (length (sha256 m)) (length (strip0 (sha256 m)))) as [El|]; [|done].
       destruct Eh. by apply strip0_length. }
  rewrite Eh, Nat.eqb_refl. cbn [negb]. rewrite (bool_decide_eq_true_2 (_ = _)) by done. cbn [negb].
  rewrite (bool_decide_eq_true_2 (head _ ≠ _)) by by apply strip0_same.
  apply Z.eqb_eq. set (h := be_decode (sha256 m)). set (q := P (priv_pub priv)) in *.
  set (g := G2 (priv_pub priv)). set (r := big_exp g K q).
  pose proof (big_exp_range g K q Hp) as Hr. fold r in Hr.
  pose proof (Z.mod_pos_bound (s * (h mod q - r * X priv)) (q - 1) ltac:(lia)) as Hsig.
  rewrite !be_decode_encode by lia.
  assert (0 <= K) by (unfold K; lia). pose proof (Z.mod_pos_bound h q Hp) as Hh.
  apply (eqmod_small q); [by apply Z.mod_pos_bound|by apply big_exp_range|].
  rewrite eqmod_mod, !big_exp_eqmod by lia.
  rewrite (eqmod_pow _ _ _ r (H_eqmod priv Hkp)). fold q g. rewrite <- Z.pow_mul_r by lia.
  rewrite (eqmod_pow _ r (g ^ K) _ (big_exp_eqmod g K q Hp)), <- Z.pow_mul_r, <- Z.pow_add_r by (nia || lia).
  apply pow_exponent_mod; [done|apply unit_G2, Hvk|nia|lia|].
  rewrite eqmod_mod. rewrite Z.mul_assoc, (Z.mul_comm K), Hs. constructor. f_equal. ring.
Qed.

(** ** Claims *)

(** [Decrypt] with the private key inverts [Encrypt] slice by slice: the
    result is the message with the leading zero bytes of every 28-byte slice
    removed, hence the message itself exactly when no slice starts with a zero
    byte. *)
Theorem decrypt_encrypt priv draws fuel M :
  key_pair priv → P (priv_pub priv) <= 2 ^ 256 → (∀ i, valid_draw (priv_pub priv) (draws i O)) →
  Forall (λ m, be_decode m < P (priv_pub priv)) (message_slices M) →
  ∃ C, Encrypt draws (S fuel) (priv_pub priv) M = Ret C ∧
    Decrypt priv C = Ret (concat (map strip0 (message_slices M))) ∧
    (Decrypt priv C = Ret M ↔ Forall (λ m, head m ≠ Some Byte.x00) (message_slices M)).
Proof.
  intros Hkp H256 Hd Hm. destruct (decrypt_slices priv draws fuel M Hkp H256 Hd Hm) as (C & E & ED).
  exists C. split_and!; [done|done|].
  rewrite ED, <- concat_strip0, message_slices_concat. by split; [intros [= ->]|intros ->].
Qed.

(** the pool's [Verify] accepts a signature [Sign] made exactly when the
    hash of the message has no leading zero byte: [Sign] drops such bytes, and
    [Verify] compares the hash with its full length. *)
Theorem sign_verify sha256 priv draws fuel m :
  key_pair priv → 0 <= draws O → Z.gcd (draws O + 2) (P (priv_pub priv) - 1) = 1 →
  ∃ sig, Sign sha256 draws (S fuel) priv m = Ret sig ∧
    Zkp.Verify sha256 (priv_pub priv) sig = bool_decide (head (sha256 m) ≠ Some Byte.x00).
Proof.
  intros Hkp Hd Hg. destruct (signature_valid sha256 priv draws fuel m Hkp Hd Hg) as (sig & E & _ & Hv). eauto.
Qed.

(** [GenerateKeys] returns a key pair whenever the table entry is a prime
    above 5 and neither hash vanishes modulo it: both generators are accepted
    at once, and the public component is [G2^X]. *)
Theorem GenerateKeys_valid sha256 prime info now x fuel q :
  Api.set_string16 prime = Some q → Z.prime q → 5 < q →
  be_decode (sha256 info) mod q ≠ 0 → be_decode (sha256 info ++ now) mod q ≠ 0 → 0 <= x →
  ∃ pub priv, GenerateKeys sha256 prime info now x (S fuel) = Ret (pub, priv) ∧
    priv_pub priv = pub ∧ P pub = q ∧ X priv = x ∧ key_pair priv.
Proof.
  intros Ep Hq H5 H1 H2 Hx. unfold GenerateKeys. rewrite Ep.
  assert (Hc : ∀ h, h mod q ≠ 0 → make_coprime (S fuel) (h mod q) q = Ret (h mod q)).
  { intros h Hh. cbn [make_coprime]. unfold big_gcd64.
    rewrite unit_mod_gcd; [done|done|]. by apply unit_mod_mod. }
  rewrite !Hc by done. cbn [mbind outcome_bind]. do 2 eexists. split; [reflexivity|].
  do 3 (split; [done|]). set (g2 := be_decode (sha256 info ++ now) mod q).
  assert (Hr : ∀ h, h mod q ≠ 0 → 0 < h mod q < q).
  { intros h Hh. pose proof (Z.mod_pos_bound h q ltac:(lia)). lia. }
  assert (Hu : unit_mod q (g2 ^ x)) by (apply unit_mod_pow; [done| |done]; unfold g2; by apply unit_mod_mod).
  split; [split|done|done]; cbn; try done; try (by apply Hr).
  rewrite big_exp_spec by lia. by apply Hr.
Qed.

(** ** A purchase from the handler to the pool *)

(** The arguments the node decodes from the posted text; the nonce is the one
    [setDefaults] fills in. *)
Definition decode_request (nonce : Z) (tx : SendTx) : outcome Hexutil.hex_error Api.SendTxArgs :=
  from ← Hexutil.UnmarshalFixedText (s_From tx) true 20;
  to ← Hexutil.UnmarshalFixedText (s_To tx) true 20;
  gas ← Hexutil.Uint64_UnmarshalText (s_Gas tx);
  price ← Hexutil.Big_UnmarshalText (s_GasPrice tx);
  value ← Hexutil.Big_UnmarshalText (s_Value tx);
  id ← Hexutil.Uint64_UnmarshalText (s_ID tx);
  epkrc1 ← Hexutil.Bytes_UnmarshalText (s_EpkrC1 tx);
  epkrc2 ← Hexutil.Bytes_UnmarshalText (s_EpkrC2 tx);
  epkpc1 ← Hexutil.Bytes_UnmarshalText (s_EpkpC1 tx);
  epkpc2 ← Hexutil.Bytes_UnmarshalText (s_EpkpC2 tx);
  sigm ← Hexutil.Bytes_UnmarshalText (s_SigM tx);
  sigmhash ← Hexutil.Bytes_UnmarshalText (s_SigMHash tx);
  sigr ← Hexutil.Bytes_UnmarshalText (s_SigR tx);
  sigs ← Hexutil.Bytes_UnmarshalText (s_SigS tx);
  cmv ← Hexutil.Bytes_UnmarshalText (s_CmV tx);
  Ret (Api.mkSendTxArgs (be_decode from) (Some (be_decode to)) (Some gas) (Some price) (Some value)
    (Some nonce) (Some id) None None None None None None None None
    (Some epkrc1) (Some epkrc2) (Some epkpc1) (Some epkpc2) (Some sigm) (Some sigmhash)
    (Some sigr) (Some sigs) (Some cmv) None None None None).

Lemma Bytes_text_roundtrip b : Hexutil.Bytes_UnmarshalText (byteto0xstring b) = Ret b.
Proof.
  unfold Hexutil.Bytes_UnmarshalText, Hexutil.checkText, byteto0xstring, Hexutil.Encode. cbn [Hexutil.prefix0x app].
  change (Hexutil.has0xPrefix (z2b 48 :: z2b 120 :: Hexutil.hex_Encode b)) with true. cbn [mbind outcome_bind].
  change (drop 2 (z2b 48 :: z2b 120 :: Hexutil.hex_Encode b)) with (Hexutil.hex_Encode b).
  rewrite HexutilProofs.length_hex_Encode, Nat.odd_mul. cbn [Nat.odd Nat.even negb andb mbind outcome_bind].
  apply HexutilProofs.hex_Decode_spec, HexutilProofs.lower_hex_Encode.
Qed.

Lemma Address_text_roundtrip b :
  Hexutil.UnmarshalFixedText (byteto0xstring b) true (length b) = Ret b.
Proof.
  pose proof (Bytes_text_roundtrip b) as Hb. unfold Hexutil.Bytes_UnmarshalText in Hb.
  apply outcome_bind_Ret in Hb as (raw & E & Hraw). unfold Hexutil.UnmarshalFixedText. rewrite E.
  cbn [mbind outcome_bind]. apply HexutilProofs.hex_Decode_spec in Hraw as Hl.
  apply (f_equal length) in Hl. rewrite length_map, HexutilProofs.length_hex_Encode in Hl.
  rewrite Hl, Nat.mul_comm, Nat.div_mul, Nat.eqb_refl by lia. cbn [negb].
  assert (Hd : ∀ s b, Hexutil.hex_Decode s = Ret b →
    forallb (λ c, bool_decide (is_Some (Hexutil.decodeNibble c))) s = true).
  { clear. intros s b. revert s. induction b as [|x b IH]; intros [|c1 [|c2 s]]; try done; cbn [Hexutil.hex_Decode forallb];
      destruct (Hexutil.decodeNibble c1) as [d1|]; try done; destruct (Hexutil.decodeNibble c2) as [d2|]; try done;
      intros (b' & Hb & Hx)%outcome_bind_Ret; [done|]. injection Hx as _ <-. by rewrite (IH _ Hb). }
  by rewrite (Hd _ _ Hraw).
Qed.

Lemma short_slices M : (length M <= 28)%nat → message_slices M = [M] ∨ (M = [] ∧ message_slices M = []).
Proof.
  intros HM. destruct M as [|b M]; [by right|]. left. unfold message_slices.
  assert (E : ((length (b :: M) + 27) / 28 = 1)%nat).
  { symmetry. apply (Nat.div_unique _ _ _ (length M)); cbn [length] in *; lia. }
  by rewrite E.
Qed.

Lemma strip0_be_encode n : 0 <= n → strip0 (be_encode n) = be_encode n.
Proof. intros Hn. by rewrite <- be_encode_decode, be_decode_encode. Qed.

Lemma length_format_dec fuel n acc : (length (format_dec fuel n acc) <= fuel + length acc)%nat.
Proof.
  revert n acc. induction fuel as [|fuel IH]; intros n acc; cbn [format_dec]; [lia|].
  destruct (n <? 10); [cbn; lia|]. specialize (IH (n / 10) (z2b (48 + n mod 10) :: acc)).
  cbn [length] in IH. lia.
Qed.

(** The randomness of the commitment is one short slice. *)
Lemma CreateCM_v_rnd rF regpub amount :
  (length (rnd (CreateCM_v rF regpub amount)) <= 28)%nat ∧
  strip0 (rnd (CreateCM_v rF regpub amount)) = rnd (CreateCM_v rF regpub amount).
Proof.
  unfold CreateCM_v. cbn [Commit rnd]. split; [|apply strip0_be_encode, be_decode_nonneg].
  rewrite be_encode_decode. pose proof (length_strip0 (FormatUint rF)).
  pose proof (length_format_dec 20 rF []) as Hl. unfold FormatUint in *. cbn [length] in Hl. lia.
Qed.

(** A short message without leading zeros comes back whole. *)
Lemma decrypt_short priv draws fuel M :
  key_pair priv → P (priv_pub priv) <= 2 ^ 256 → (∀ i, valid_draw (priv_pub priv) (draws i O)) →
  (length M <= 28)%nat → strip0 M = M → be_decode M < P (priv_pub priv) →
  ∃ C, Encrypt draws (S fuel) (priv_pub priv) M = Ret C ∧ Decrypt priv C = Ret M.
Proof.
  intros Hkp H256 Hd Hlen Hs Hm. pose proof (short_slices M Hlen) as Hsl.
  destruct (decrypt_slices priv draws fuel M Hkp H256 Hd) as (C & E & ED).
  { destruct Hsl as [->|[_ ->]]; by repeat constructor. }
  exists C. split; [done|]. rewrite ED. f_equal.
  destruct Hsl as [->|[-> ->]]; [|done]. cbn. by rewrite app_nil_r.
Qed.

(** ** Amounts *)

Lemma format_head fuel : ∀ n acc, ∃ x l, 0 <= x < 10 ∧ format_dec (S fuel) n acc = z2b (48 + x) :: l.
Proof.
  induction fuel as [|fuel IH]; intros n acc; pose proof (Z.mod_pos_bound n 10 ltac:(lia)).
  - exists (n mod 10), acc. split; [done|]. cbn [format_dec]. by destruct (n <? 10).
  - remember (S fuel) as f. cbn [format_dec]. destruct (n <? 10); [eauto|]. subst f. apply IH.
Qed.

Lemma dec_digits_format fuel : ∀ n acc, 0 <= n < 10 ^ Z.of_nat fuel → dec_digits 0 (format_dec fuel n acc) = dec_digits n acc.
Proof.
  assert (Hd : ∀ a n acc, dec_digits a (z2b (48 + n mod 10) :: acc) = dec_digits (a * 10 + n mod 10) acc).
  { intros a n acc. pose proof (Z.mod_pos_bound n 10 ltac:(lia)). cbn [dec_digits]. rewrite b2z_z2b, Z.mod_small by lia. rewrite (proj2 (Z.leb_le 48 _)), (proj2 (Z.leb_le _ 57)) by lia. cbn [andb]. f_equal. lia. }
  induction fuel as [|fuel IH]; intros n acc Hn; cbn [format_dec].
  - assert (n = 0) as -> by (cbn in Hn; lia). done.
  - destruct (Z.ltb_spec n 10).
    + rewrite Hd. f_equal. rewrite Z.mod_small; lia.
    + rewrite IH, Hd; [f_equal; pose proof (Z.div_mod n 10); lia|]. rewrite Nat2Z.inj_succ, Z.pow_succ_r in Hn by lia. split; [apply Z.div_pos; lia|apply Z.div_lt_upper_bound; lia].
Qed.

(** What a number is written as is read as this number. *)
Lemma parse_FormatUint n : 0 <= n < 2 ^ 64 → parse_dec (FormatUint n) = Some n.
Proof.
  intros Hn. pose proof (dec_digits_format 20 n [] ltac:(lia)) as Hd. unfold FormatUint. destruct (format_head 19 n []) as (x & l & Hx & E). rewrite E in *. cbn [parse_dec].
  rewrite b2z_z2b, Z.mod_small by lia. rewrite (proj2 (Z.eqb_neq (48 + x) 43)), (proj2 (Z.eqb_neq (48 + x) 45)) by lia. cbn [orb]. exact Hd.
Qed.

(** The number a coin of this amount commits to: the amount, where it is a number
    of 63 bits. *)
Lemma CreateCM_v_value rF regpub amount : valid_key regpub →
  let coin v := be_decode (commitment (CreateCM_v rF regpub amount)) = (G1 regpub ^ (v mod P regpub) * H regpub ^ be_decode (FormatUint rF)) mod P regpub in
  (∀ n, parse_dec amount = Some n → 0 <= n < 2 ^ 63 → coin n) ∧ (∀ n, parse_dec amount = Some n → 2 ^ 63 <= n → coin (2 ^ 63 - 1)) ∧
  (∀ n, parse_dec amount = Some (- n) → 0 < n <= 2 ^ 63 → coin (2 ^ 64 - n)) ∧ (∀ n, parse_dec amount = Some (- n) → 2 ^ 63 < n → coin (2 ^ 63)) ∧
  (parse_dec amount = None → coin 0).
Proof.
  intros Hr coin. assert (HC : ∀ v, u64 (Atoi amount) = v → coin v) by (intros v <-; by apply Commit_value).
  split_and!; [intros n E Hn..|intros E]; apply HC; unfold Atoi; rewrite E; unfold u64, two64.
  - rewrite Z.mod_small; lia.
  - rewrite Z.mod_small; lia.
  - replace (Z.max (- 2 ^ 63) (Z.min (- n) (2 ^ 63 - 1))) with (2 ^ 64 - n + -1 * 2 ^ 64) by lia. rewrite Z.mod_add, Z.mod_small; lia.
  - replace (Z.max (- 2 ^ 63) (Z.min (- n) (2 ^ 63 - 1))) with (2 ^ 63 + -1 * 2 ^ 64) by lia. rewrite Z.mod_add, Z.mod_small; lia.
  - done.
Qed.

(** What a purchase needs: the exchange's and the buyer's key pairs, a
    regulator key, complete parameters, an address of 20 bytes on both sides,
    and draws of [Rand] within its limits. *)
Record purchasable (st : exchange_state) (upriv : PrivateKey) (d : buy_draws) (u : Purchase) : Prop := {
  b_priv : key_pair (publisherpriv st);
  b_sign_draw : 0 <= b_sign d O ∧ Z.gcd (b_sign d O + 2) (P (priv_pub (publisherpriv st)) - 1) = 1;
  b_reg : valid_key (regulatorpub st) ∧ P (regulatorpub st) <= 2 ^ 256 ∧
    ∀ i, valid_draw (regulatorpub st) (b_info d i O);
  b_user : key_pair upriv ∧ P (priv_pub upriv) <= 2 ^ 256 ∧ ∀ i, valid_draw (priv_pub upriv) (b_r d i O);
  b_user_text : Api.enc_key (CreateUsrPub (u_G1 u) (u_G2 u) (u_P u) (u_H u)) = Ret (priv_pub upriv);
  b_rnd : be_decode (FormatUint (b_rF d)) < P (priv_pub upriv);
  b_fields : u_G1 u ≠ [] ∧ u_G2 u ≠ [] ∧ u_P u ≠ [] ∧ u_H u ≠ [] ∧ u_Amount u ≠ [];
  b_account : ∃ a, length a = 20%nat ∧ x_ethaccount st = byteto0xstring a;
  b_to : ∃ a, length a = 20%nat ∧ x_Ethto st = byteto0xstring a;
}.

Lemma not_lacking u : u_G1 u ≠ [] ∧ u_G2 u ≠ [] ∧ u_P u ≠ [] ∧ u_H u ≠ [] ∧ u_Amount u ≠ [] → lacking u = false.
Proof. unfold lacking. destruct (u_G1 u), (u_G2 u), (u_P u), (u_H u), (u_Amount u); intros (? & ? & ? & ? & ?); done. Qed.

(** The request of a purchase that runs alone is made of its own values. *)
Lemma buy_posts sha256 registered post st d fuel u g pub ci cr sig :
  lacking u = false → registered (u_H u) = true → Api.enc_key (CreateUsrPub (u_G1 u) (u_G2 u) (u_P u) (u_H u)) = Ret pub →
  CreateElgamalInfo (b_info d) fuel (regulatorpub st) (u_Amount u) (u_H u) = Ret ci →
  CreateElgamalR (b_r d) fuel pub (rnd (CreateCM_v (b_rF d) (regulatorpub st) (u_Amount u))) = Ret cr →
  CreateSign sha256 (b_sign d) fuel (publisherpriv st) (u_Amount u) = Ret sig →
  ∃ res, buy sha256 registered post st d fuel u g = Ret (res, Some (purchase_request (x_ethaccount st) (x_Ethto st) ci cr sig (CreateCM_v (b_rF d) (regulatorpub st) (u_Amount u)))).
Proof.
  intros Hl Hr Ek Ei Er Es. unfold buy. rewrite Hl, Hr. cbn [negb assign mbind outcome_bind usrpub cm_and_r elgamal_info elgamal_r signature]. rewrite Ei. cbn [mbind outcome_bind usrpub cm_and_r elgamal_info elgamal_r signature].
  rewrite Ek. cbn [mbind outcome_bind]. rewrite Er. cbn [mbind outcome_bind usrpub cm_and_r elgamal_info elgamal_r signature]. rewrite Es. cbn [mbind outcome_bind]. unfold request_of. cbn [usrpub cm_and_r elgamal_info elgamal_r signature].
  destruct (post _); eauto.
Qed.

(** What the node makes of the request. *)
Lemma request_assembled st nonce ci cr sig cm :
  (∃ a, length a = 20%nat ∧ x_ethaccount st = byteto0xstring a) → (∃ a, length a = 20%nat ∧ x_Ethto st = byteto0xstring a) →
  ∃ args tx, decode_request nonce (purchase_request (x_ethaccount st) (x_Ethto st) ci cr sig cm) = Ret args ∧
    Api.checkParameter args = None ∧ Api.toExTransaction args = Ret tx ∧ Types.ID tx = 1 ∧
    Types.CmV tx = commitment cm ∧ Types.EpkrC1 tx = C1 cr ∧ Types.EpkrC2 tx = C2 cr ∧
    mkSignature (Types.SigM tx) (Types.SigMHash tx) (Types.SigR tx) (Types.SigS tx) = sig.
Proof.
  intros (a & La & Ea) (b & Lb & Eb). unfold decode_request, purchase_request.
  cbn [s_From s_To s_Gas s_GasPrice s_Value s_ID s_EpkrC1 s_EpkrC2 s_EpkpC1 s_EpkpC2 s_SigM s_SigMHash
       s_SigR s_SigS s_CmV].
  rewrite Ea, Eb, <- La, Address_text_roundtrip, La, <- Lb, Address_text_roundtrip, !Bytes_text_roundtrip.
  eexists _, _. split; [reflexivity|]. split; [reflexivity|]. split; [reflexivity|].
  repeat (split; [reflexivity|]). by destruct sig.
Qed.

(** C39: a purchase, end to end, for one request that no other request of the
    exchange interleaves with: for a registered buyer [/buy] posts a request that
    the node decodes, finds complete and assembles into a purchase; the buyer's
    private key decrypts the randomness [r] of its coin; the coin is the
    commitment to the amount and [r] under the regulator's key, where the amount
    is a number from 0 to 2^63-1, while a larger number gives a coin of 2^63-1, a
    negative number -n one of 2^64-n (of 2^63 below -2^63), and a text that is not
    a number one of 0; and the pool's signature check accepts the purchase
    exactly when the hash of the signed text has no leading zero byte. *)
Theorem purchase_reaches_pool `{TxPool.PoolEnv} cfg registered post st upriv d fuel u g nonce :
  purchasable st upriv d u → registered (u_H u) = true →
  TxPool.Exchange cfg = priv_pub (publisherpriv st) →
  ∃ res req args tx r,
    buy TxPool.sha256 registered post st d (S fuel) u g = Ret (res, Some req) ∧
    decode_request nonce req = Ret args ∧ Api.checkParameter args = None ∧
    Api.toExTransaction args = Ret tx ∧ Types.ID tx = 1 ∧
    Decrypt upriv (mkCypherText (Types.EpkrC1 tx) (Types.EpkrC2 tx)) = Ret r ∧ be_decode r = be_decode (FormatUint (b_rF d)) ∧
    (let coin v := be_decode (Types.CmV tx) = (G1 (regulatorpub st) ^ (v mod P (regulatorpub st)) * H (regulatorpub st) ^ be_decode r) mod P (regulatorpub st) in
     (∀ n, parse_dec (u_Amount u) = Some n → 0 <= n < 2 ^ 63 → coin n) ∧ (∀ n, parse_dec (u_Amount u) = Some n → 2 ^ 63 <= n → coin (2 ^ 63 - 1)) ∧
     (∀ n, parse_dec (u_Amount u) = Some (- n) → 0 < n <= 2 ^ 63 → coin (2 ^ 64 - n)) ∧ (∀ n, parse_dec (u_Amount u) = Some (- n) → 2 ^ 63 < n → coin (2 ^ 63)) ∧
     (parse_dec (u_Amount u) = None → coin 0)) ∧
    (TxPool.validateSign cfg tx = None ↔
      head (TxPool.sha256 (z2b 49 :: u_Amount u)) ≠ Some Byte.x00).
Proof.
  intros [Hpriv [Hs1 Hs2] (Hreg & Hr256 & Hrd) (Hup & Hu256 & Hud) Hut Hrnd Hf Ha Hb] Hregd Hex.
  destruct (CreateCM_v_rnd (b_rF d) (regulatorpub st) (u_Amount u)) as [Hlen Hst].
  pose proof (CreateCM_v_value (b_rF d) (regulatorpub st) (u_Amount u) Hreg) as Hcoin.
  assert (Er : be_decode (rnd (CreateCM_v (b_rF d) (regulatorpub st) (u_Amount u))) = be_decode (FormatUint (b_rF d))) by apply Commit_rnd.
  set (cm := CreateCM_v (b_rF d) (regulatorpub st) (u_Amount u)) in *.
  destruct (Transfer.Encrypt_total _ Hreg Hr256 (b_info d) fuel (u_H u ++ u_Amount u) Hrd) as (ci & Eci).
  destruct (decrypt_short upriv (b_r d) fuel (rnd cm) Hup Hu256 Hud Hlen Hst ltac:(by rewrite Er)) as (cr & Ecr & Edec).
  destruct (signature_valid TxPool.sha256 (publisherpriv st) (b_sign d) fuel (z2b 49 :: u_Amount u) Hpriv Hs1 Hs2)
    as (sig & Esig & EM & Hver).
  destruct (buy_posts TxPool.sha256 registered post st d (S fuel) u g _ ci cr sig (not_lacking u Hf) Hregd Hut Eci Ecr Esig) as (res & Hbuy).
  destruct (request_assembled st nonce ci cr sig cm Ha Hb) as (args & tx & Ed & Ec & Et & Eid & Ecm & E1 & E2 & Es).
  exists res, (purchase_request (x_ethaccount st) (x_Ethto st) ci cr sig cm), args, tx, (rnd cm).
  do 5 (split; [done|]). rewrite Ecm, Er, E1, E2. split; [by destruct cr|]. split; [done|]. split; [exact Hcoin|].
  unfold TxPool.validateSign. rewrite Es, Hex, Hver.
  destruct (bool_decide_reflect (head (TxPool.sha256 (z2b 49 :: u_Amount u)) ≠ Some Byte.x00)); by split.
Qed.

(** ** Requests one statement at a time *)

Definition begin (u : Purchase) (d : buy_draws) : handler := mk_handler u d 0 None None.

(** The statements of a request that runs alone, one after the other, are [buy]. *)
Lemma steps_alone sha256 registered post st fuel u d h2 g :
  match buy sha256 registered post st d fuel u g with
  | Ret (res, req) => ∃ h1, both sha256 registered post st fuel (replicate 8 true) (begin u d) h2 g = Ret (h1, h2) ∧ h_done h1 = Some res ∧ fst <$> h_posted h1 = req
  | Err e => both sha256 registered post st fuel (replicate 8 true) (begin u d) h2 g = Err e
  | Panic => both sha256 registered post st fuel (replicate 8 true) (begin u d) h2 g = Panic
  end.
Proof.
  unfold buy, begin. cbn [replicate both]. unfold handler_step.
  destruct (lacking u) eqn:El; [eexists; repeat (cbn [mbind outcome_bind h_done h_pc h_u]; rewrite ?El); done|].
  destruct (registered (u_H u)) eqn:Er; [|eexists; repeat (cbn [mbind outcome_bind h_done h_pc h_u negb]; rewrite ?El, ?Er); done].
  cbn [h_done h_pc h_u]. rewrite El, Er. cbn [mbind outcome_bind h_done h_pc h_u h_d h_posted negb Nat.ltb Nat.leb].
  do 5 (destruct (assign _ _ _ _ _ _ _) as [?g| |]; cbn [mbind outcome_bind h_done h_pc h_u h_d h_posted Nat.ltb Nat.leb]; [|done|done]).
  destruct (post _) as [hash|]; cbn [mbind outcome_bind h_done h_pc h_u h_d h_posted]; eexists; split; done.
Qed.

(** ** Witnesses: keys over small primes *)

Definition priv23 : PrivateKey := mkPrivateKey (mkPublicKey 5 7 23 21) 3.

Lemma priv23_pair : key_pair priv23.
Proof. by split; [split; [apply prime_check_sound; vm_compute|..]|..]. Qed.

Definition priv101 : PrivateKey := mkPrivateKey (mkPublicKey 3 2 101 32) 5.

Lemma priv101_pair : key_pair priv101.
Proof. by split; [split; [apply prime_check_sound; vm_compute|..]|..]. Qed.

Lemma decrypt_encrypt_witness :
  ∃ C, Encrypt (λ _ _, 4) 1 (priv_pub priv101) [Byte.x2a] = Ret C ∧
    Decrypt priv101 C = Ret (concat (map strip0 (message_slices [Byte.x2a]))) ∧
    (Decrypt priv101 C = Ret [Byte.x2a] ↔ Forall (λ m, head m ≠ Some Byte.x00) (message_slices [Byte.x2a])).
Proof. apply decrypt_encrypt; [exact priv101_pair|done|done|by repeat constructor]. Defined.

Lemma sign_verify_witness :
  ∃ sig, Sign Sha256.sha256 (λ _, 3) 1 priv23 [Byte.x31] = Ret sig ∧
    Zkp.Verify Sha256.sha256 (priv_pub priv23) sig
    = bool_decide (head (Sha256.sha256 [Byte.x31]) ≠ Some Byte.x00).
Proof. apply sign_verify; [exact priv23_pair|done|reflexivity]. Defined.

Lemma GenerateKeys_valid_witness :
  ∃ pub priv, GenerateKeys Sha256.sha256 [Byte.x31; Byte.x37] [Byte.x61] [Byte.x31] 5 1 = Ret (pub, priv) ∧
    priv_pub priv = pub ∧ P pub = 23 ∧ X priv = 5 ∧ key_pair priv.
Proof.
  apply GenerateKeys_valid; [reflexivity|apply prime_check_sound; vm_compute; reflexivity|lia|
    vm_compute; discriminate|vm_compute; discriminate|lia].
Defined.

(** The buyer's key 3, 2, 101, 32 in decimal, buying 7 coins. *)
Definition demo_purchase : Purchase :=
  mkPurchase [Byte.x33] [Byte.x32] [Byte.x31; Byte.x30; Byte.x31] [Byte.x33; Byte.x32] [Byte.x37].

Definition demo_exchange : exchange_state :=
  mk_exchange priv23 ZkpClaims.key23 (byteto0xstring (replicate 20 Byte.x01))
    (byteto0xstring (replicate 20 Byte.x02)).

Definition demo_buy_draws : buy_draws := mk_buy_draws 5 (λ _ _, 4) (λ _ _, 4) (λ _, 3).

Lemma demo_purchasable : purchasable demo_exchange priv101 demo_buy_draws demo_purchase.
Proof.
  split; try done.
  - exact priv23_pair.
  - split; [exact ZkpClaims.key23_valid|done].
  - split; [exact priv101_pair|done].
  - exists (replicate 20 Byte.x01). done.
  - exists (replicate 20 Byte.x02). done.
Qed.

Definition no_globals : globals := mk_globals (Api.mk_raw_key None None None None) (mkCommitment [] []) (mkCypherText [] []) (mkCypherText [] []) (mkSignature [] [] [] []).

Lemma purchase_reaches_pool_witness :
  ∃ res req args tx r,
    buy Sha256.sha256 (λ _, true) (λ _, None) demo_exchange demo_buy_draws 1 demo_purchase no_globals
      = Ret (res, Some req) ∧
    decode_request 9 req = Ret args ∧ Api.checkParameter args = None ∧
    Api.toExTransaction args = Ret tx ∧ Types.ID tx = 1 ∧
    be_decode (Types.CmV tx) = (G1 ZkpClaims.key23 ^ 7 * H ZkpClaims.key23 ^ be_decode r) mod 23.
Proof.
  destruct (@purchase_reaches_pool (Transfer.demo_env 5)
    (TxPool.mk_config 10 16 4096 64 1024 (priv_pub priv23) ZkpClaims.key23)
    (λ _, true) (λ _, None) demo_exchange priv101 demo_buy_draws 0 demo_purchase no_globals 9 demo_purchasable eq_refl eq_refl)
    as (res & req & args & tx & r & H1 & H2 & H3 & H4 & H5 & _ & _ & (H6 & _) & _).
  exists res, req, args, tx, r. repeat (split; [assumption|]). apply (H6 7 eq_refl). lia.
Defined.

(** Two purchases at the same time, of 7 and of 9 coins: the first computes its
    commitment, then the second does, and the first goes on. What it posts is
    signed for 7, with the commitment to 9. *)
Definition second_purchase : Purchase :=
  mkPurchase [Byte.x33] [Byte.x32] [Byte.x31; Byte.x30; Byte.x31] [Byte.x33; Byte.x32] [Byte.x39].

Lemma purchases_mix :
  match both Sha256.sha256 (λ _, true) (λ _, None) demo_exchange 1 [true; true; true; false; false; false; true; true; true; true] (begin demo_purchase demo_buy_draws) (begin second_purchase demo_buy_draws) no_globals with
  | Ret (mk_handler _ _ _ (Some (req, _)) _, _) =>
      s_SigM req = byteto0xstring [Byte.x31; Byte.x37] ∧
      s_CmV req = byteto0xstring (commitment (CreateCM_v 5 ZkpClaims.key23 [Byte.x39])) ∧
      s_CmV req ≠ byteto0xstring (commitment (CreateCM_v 5 ZkpClaims.key23 [Byte.x37]))
  | _ => False
  end.
Proof. vm_compute. repeat split. discriminate. Qed.

End ExchangeProofs.
