(* ===== verification/PoolClaims.v ===== *)
(** * PoolClaims: what the pool and the chain do to a coin

    The commitment checks of admission stated on the ledger of coins, the
    exclusion of double spends inside the pool, what mining a block does to
    the coins of its transactions, and the two paths on which a coin changes
    status without being mined. *)

From stdpp Require Import base gmap list.
From Stdlib Require Import ZArith Lia.
From S2P Require Import Prelude BigInt Sha256 Zkp ZkpClaims Types Api Rlp RlpProofs CMdb Gas GoHeap TxList TxListProofs TxPool TxPoolProofs Transfer.

Local Open Scope Z_scope.

Module PoolClaims.
Import Types TxList TxPool TxPoolProofs.

Section Pool.
Context `{PoolEnv}.

Lemma status_absent db c : db_wf db → status db c = Absent ↔ CMdb.HasCM db (cm_hash c) = false.
Proof.
  intros Hwf. specialize (Hwf (cm_hash c)). unfold status.
  destruct (CMdb.ReadCM db (cm_hash c)) as [cm|], (CMdb.HasCM db (cm_hash c)); split; try done.
  - by destruct (Spent cm), (Lock cm).
  - intros _. destruct Hwf as [_ Hwf]. discriminate Hwf; eauto.
  - intros _. destruct Hwf as [Hwf _]. destruct (Hwf eq_refl) as [? [=]].
Qed.

Lemma HasCM_status db c :
  db_wf db → CMdb.HasCM db (cm_hash c) = negb (match status db c with Absent => true | _ => false end).
Proof.
  intros Hwf. pose proof (status_absent db c Hwf) as [Hs1 Hs2].
  destruct (CMdb.HasCM db (cm_hash c)), (status db c); try done;
    (by specialize (Hs1 eq_refl)) || (by specialize (Hs2 eq_refl)).
Qed.

(** [validateCM] as a decision on the ledger. *)
Lemma validateCM_ledger db tx :
  db_wf db →
  validateCM db tx =
    if ID tx =? 1 then
      match status db (CmV tx) with Absent => None | _ => Some ErrExistedCM end
    else if ID tx =? 0 then
      match status db (CmO tx), status db (CmS tx), status db (CmR tx) with
      | Available, Absent, Absent => None
      | Available, _, _ => Some ErrExistedCM
      | _, _, _ => Some ErrInvalidCM
      end
    else Some ErrID.
Proof.
  intros Hwf. unfold validateCM. rewrite !HasCM_status by done.
  destruct (ID tx =? 1); [by destruct (status db (CmV tx))|]. destruct (ID tx =? 0); [|done].
  destruct (status db (CmS tx)), (status db (CmR tx)); unfold status;
  destruct (CMdb.ReadCM db (cm_hash (CmO tx))) as [[c [] []]|]; done.
Qed.

(** A coin that is locked or spent backs no further transfer. *)
Lemma unavailable_rejected p tx local :
  lk_all (all p) !! tx_Hash tx = None → ID tx = 0 →
  status (CMdb_ p) (CmO tx) ≠ Available → add tx local p = Some (inl ErrInvalidCM, p).
Proof.
  intros Hn Hid Hst. unfold add, all_Get, mbind, PM_bind, get, mret, PM_ret. rewrite Hn.
  unfold validateCM. rewrite Hid. cbn [Z.eqb].
  unfold status in Hst. destruct (CMdb.ReadCM (CMdb_ p) (cm_hash (CmO tx))) as [[c [] []]|]; done.
Qed.

Lemma remember_run p tx p' :
  tx_small tx → ID tx = 0 → remember tx p = Some (tt, p') →
  lk_all (all p') !! tx_Hash tx = Some tx ∧ status (CMdb_ p') (CmO tx) = Locked.
Proof.
  intros Hs Hid. destruct (processCM_run p tx Hs Hid) as (db' & E & Hst & _ & _).
  unfold remember, mbind, PM_bind. rewrite E. unfold all_Add, priced_Put, modify.
  intros [= <-]. cbn. by rewrite lookup_insert_eq.
Qed.

Lemma keeps_opt_forget h (old : option txdata) :
  keeps (unknown h) (match old with Some old => forget old | None => mret tt end).
Proof. destruct old; [apply keeps_forget|apply keeps_ret]. Qed.

(** The two insertion paths of [add] end with [remember tx]. *)
Lemma enqueueTx_new p tx r p' :
  unknown (tx_Hash tx) p → tx_small tx → ID tx = 0 →
  enqueueTx (tx_Hash tx) tx p = Some (inr r, p') →
  lk_all (all p') !! tx_Hash tx = Some tx ∧ status (CMdb_ p') (CmO tx) = Locked.
Proof.
  intros Hu Hs Hid. unfold enqueueTx. intros (p0 & p1 & [= <- <-] & H1)%PM_bind_Some.
  cbv beta zeta in H1.
  match type of H1 with context [Add ?l ?t ?b] => destruct (Add l t b) as [[ins old] l'] end.
  apply PM_bind_Some in H1 as ([] & p2 & [= <-] & H1). destruct ins; cbn [negb] in H1; [|done].
  apply PM_bind_Some in H1 as ([] & p3 & H3 & H1).
  assert (Hu3 : unknown (tx_Hash tx) p3).
  { eapply (keeps_opt_forget _ old); [|exact H3]. by eapply unknown_frame. }
  apply PM_bind_Some in H1 as (known & p4 & E & H1). unfold all_Get, mbind, PM_bind, get in E.
  injection E as <- <-. rewrite (proj1 Hu3) in H1.
  apply PM_bind_Some in H1 as ([] & p5 & H5 & [= _ <-]). by apply (remember_run p3).
Qed.

Lemma add_pending_new p from l tx r p' :
  tx_small tx → ID tx = 0 → add_pending from l tx p = Some (inr r, p') →
  lk_all (all p') !! tx_Hash tx = Some tx ∧ status (CMdb_ p') (CmO tx) = Locked.
Proof.
  intros Hs Hid. unfold add_pending. intros (p0 & p1 & [= <- <-] & H1)%PM_bind_Some.
  destruct (Add l tx _) as [[ins old] l'].
  apply PM_bind_Some in H1 as ([] & p2 & [= <-] & H1). destruct ins; cbn [negb] in H1; [|done].
  apply PM_bind_Some in H1 as ([] & p3 & H3 & H1).
  apply PM_bind_Some in H1 as ([] & p5 & H5 & [= _ <-]). by apply (remember_run p3).
Qed.

(** What an accepted transfer went through and left. *)
Lemma add_accepted p tx local r p' :
  unknown (tx_Hash tx) p → tx_small tx → ID tx = 0 → add tx local p = Some (inr r, p') →
  validateCM (CMdb_ p) tx = None ∧ verifyzkp (config p) tx = None ∧ validateTx p tx local = None ∧
  lk_all (all p') !! tx_Hash tx = Some tx ∧ status (CMdb_ p') (CmO tx) = Locked.
Proof.
  intros Hu Hs Hid. unfold add. intros (k & p1 & E & H1)%PM_bind_Some.
  unfold all_Get, mbind, PM_bind, get in E. injection E as <- <-. rewrite (proj1 Hu) in H1.
  apply PM_bind_Some in H1 as (p0 & p1 & [= <- <-] & H1).
  destruct (validateCM (CMdb_ p) tx) eqn:EC; [done|].
  unfold check_payload in H1. rewrite Hid in H1. cbn [Z.eqb] in H1.
  destruct (verifyzkp (config p) tx) eqn:EZ; [done|].
  destruct (validateTx p tx local) eqn:EV; [done|].
  do 3 (split; [done|]).
  apply PM_bind_Some in H1 as ([] & p2 & H2 & H1); [done|].
  pose proof (keeps_make_room (tx_Hash tx) tx local p _ p2 Hu H2) as Hu2.
  apply PM_bind_Some in H1 as (p3 & p4 & [= <- <-] & H1). cbv zeta in H1.
  destruct (pending p2 !! _ ≫= _) as [l|]; [by eapply add_pending_new|].
  apply PM_bind_Some in H1 as ([e|r'] & p5 & H5 & H1); [done|].
  destruct (enqueueTx_new _ _ _ _ Hu2 Hs Hid H5) as [A B].
  apply PM_bind_Some in H1 as ([] & p6 & H6 & [= _ <-]).
  destruct local; injection H6 as <-; done.
Qed.

(** ** Mining *)

(** The coins a transaction creates. *)
Definition outputs (tx : txdata) : list bytes :=
  if ID tx =? 1 then [CmV tx] else if ID tx =? 0 then [CmS tx; CmR tx] else [].

(** [write_tx_CM] on the ledger: a coin that is neither its input nor an
    output keeps its status, the outputs become available. *)
Lemma write_tx_CM_ledger db tx :
  tx_small tx →
  ∃ db', CMdb.write_tx_CM keccak db tx = Ret db' ∧
    (∀ c, c ∈ outputs tx → status db' c = Available) ∧
    (∀ c, (∀ o, o ∈ outputs tx → cm_hash c ≠ cm_hash o) →
      status db' c =
        if decide (ID tx = 0 ∧ cm_hash c = cm_hash (CmO tx)) then Gone else status db c) ∧
    (db_wf db → db_wf db').
Proof.
  intros Hs. pose proof Hs as (HO & HS & HR & HV). unfold CMdb.write_tx_CM, outputs.
  destruct (Z.eqb_spec (ID tx) 1) as [E1|E1].
  { rewrite E1. change (1 =? 0) with false. cbv zeta.
    destruct (WriteCM_total db (cm_hash (CmV tx)) (NewDefaultCM (CmV tx)) HV) as (db1 & E).
    unfold cm_hash in E. rewrite E. cbn [mbind outcome_bind]. exists db1. split; [done|].
    destruct (WriteCM_status _ _ (NewDefaultCM (CmV tx)) HV E) as (A1 & A2 & A3). cbn in A1, A2.
    split_and!; [by intros c ->%list_elem_of_singleton| |done].
    intros c Hc. rewrite decide_False by by intros []. apply A2, Hc, list_elem_of_singleton. done. }
  cbn [mbind outcome_bind]. destruct (Z.eqb_spec (ID tx) 0) as [E0|E0].
  2: { exists db. split_and!; [done|by intros c ?%elem_of_nil| |done].
       intros c _. by rewrite decide_False by by intros []. }
  destruct (WriteCM_total db (cm_hash (CmO tx)) (NewCM (CmO tx) true) HO) as (db1 & W1).
  destruct (WriteCM_total db1 (cm_hash (CmS tx)) (NewDefaultCM (CmS tx)) HS) as (db2 & W2).
  destruct (WriteCM_total db2 (cm_hash (CmR tx)) (NewDefaultCM (CmR tx)) HR) as (db3 & W3).
  destruct (WriteCM_status _ _ (NewCM (CmO tx) true) HO W1) as (A1 & A2 & A3).
  destruct (WriteCM_status _ _ (NewDefaultCM (CmS tx)) HS W2) as (B1 & B2 & B3).
  destruct (WriteCM_status _ _ (NewDefaultCM (CmR tx)) HR W3) as (D1 & D2 & D3).
  cbv zeta. unfold cm_hash in W1, W2, W3.
  change (CMdb.CM_Hash keccak (NewCM (CmO tx) true)) with (CMdb.CM_Hash keccak (NewDefaultCM (CmO tx))).
  rewrite W1. cbn [mbind outcome_bind]. rewrite W2. cbn [mbind outcome_bind].
  exists db3. split; [exact W3|]. cbn in *. split_and!; [| |by auto].
  - intros c [->| ->%list_elem_of_singleton]%elem_of_cons; [|done].
    destruct (decide (cm_hash (CmS tx) = cm_hash (CmR tx))) as [E|E]; [|by rewrite D2].
    unfold status in *. by rewrite E.
  - intros c Hc. rewrite D2, B2 by (apply Hc; set_solver).
    case_decide as Hd; [|by apply A2; intros Heq; apply Hd].
    destruct Hd as [_ Hd]. unfold status in *. by rewrite Hd.
Qed.

(** What a transaction of a block does to a coin: creating counts after
    consuming. *)
Definition creates (tx : txdata) (c : bytes) : Prop := Exists (λ o, cm_hash c = cm_hash o) (outputs tx).
Definition consumes (tx : txdata) (c : bytes) : Prop := ID tx = 0 ∧ cm_hash c = cm_hash (CmO tx).

#[local] Instance creates_dec tx c : Decision (creates tx c).
Proof. unfold creates. apply _. Defined.
#[local] Instance consumes_dec tx c : Decision (consumes tx c).
Proof. unfold consumes. apply _. Defined.

Definition after_tx (c : bytes) (s : coin) (tx : txdata) : coin :=
  if decide (creates tx c) then Available else if decide (consumes tx c) then Gone else s.

Definition after_block (txs : list txdata) (c : bytes) (s : coin) : coin := foldl (after_tx c) s txs.

(** A whole block: it is written, and every coin has the status its transactions
    give it, one after the other. *)
Lemma WriteAllCM_ledger txs db :
  Forall tx_small txs →
  ∃ db', CMdb.WriteAllCM keccak db txs = Ret db' ∧ ∀ c, status db' c = after_block txs c (status db c).
Proof.
  revert db. induction txs as [|tx txs IH]; intros db Hall; [by exists db|].
  apply Forall_cons in Hall as [Hs Hall]. cbn [CMdb.WriteAllCM].
  destruct (write_tx_CM_ledger db tx Hs) as (db1 & E1 & Hout & Hst & _).
  destruct (IH db1 Hall) as (db' & E & Hfin). rewrite E1. cbn [mbind outcome_bind].
  exists db'. split; [done|]. intros c. rewrite Hfin. cbn [after_block foldl]. unfold after_block. f_equal. unfold after_tx.
  destruct (decide (creates tx c)) as [(o & Ho & Heq)%Exists_exists|Hc]; [|unfold creates in Hc; rewrite Exists_exists in Hc].
  - specialize (Hout _ Ho). unfold status in *. by rewrite Heq.
  - rewrite Hst by (intros o Ho Heq; apply Hc; eauto). done.
Qed.

Lemma after_kept txs c s : (∀ t, t ∈ txs → ¬ creates t c ∧ ¬ consumes t c) → after_block txs c s = s.
Proof.
  unfold after_block. induction txs as [|tx txs IH]; intros K; [done|]. cbn [foldl]. destruct (K tx) as [H1 H2]; [by left|].
  assert (after_tx c s tx = s) as -> by (unfold after_tx; by rewrite !decide_False). apply IH. intros t Ht. apply K. by right.
Qed.

(** Once spent, or once available, a coin stays so until it is created or
    consumed again. *)
Lemma after_spent txs c : (∀ t, t ∈ txs → ¬ creates t c) → after_block txs c Gone = Gone.
Proof.
  unfold after_block. induction txs as [|tx txs IH]; intros K; [done|]. cbn [foldl].
  assert (after_tx c Gone tx = Gone) as -> by (unfold after_tx; rewrite decide_False by (apply K; by left); by destruct (decide _)). apply IH. intros t Ht. apply K. by right.
Qed.

Lemma after_available txs c : (∀ t, t ∈ txs → ¬ consumes t c) → after_block txs c Available = Available.
Proof.
  unfold after_block. induction txs as [|tx txs IH]; intros K; [done|]. cbn [foldl].
  assert (after_tx c Available tx = Available) as -> by (unfold after_tx; rewrite (decide_False (P := consumes tx c)) by (apply K; by left); by destruct (decide _)). apply IH. intros t Ht. apply K. by right.
Qed.

Lemma after_split l1 tx l2 c s : after_block (l1 ++ tx :: l2) c s = after_block l2 c (after_tx c (after_block l1 c s) tx).
Proof. unfold after_block. by rewrite foldl_app. Qed.

(** ** Claims *)

(** [validateCM] accepts exactly the transactions the ledger allows: a
    purchase whose coin does not exist yet, or a transfer whose input is
    available and whose two outputs do not exist yet. *)
Theorem validateCM_spec db tx :
  db_wf db →
  validateCM db tx = None ↔
    (ID tx = 1 ∧ status db (CmV tx) = Absent) ∨
    (ID tx = 0 ∧ status db (CmO tx) = Available ∧ status db (CmS tx) = Absent ∧
     status db (CmR tx) = Absent).
Proof.
  intros Hwf. rewrite validateCM_ledger by done.
  destruct (Z.eqb_spec (ID tx) 1), (Z.eqb_spec (ID tx) 0); try lia;
    destruct (status db (CmV tx)), (status db (CmO tx)), (status db (CmS tx)), (status db (CmR tx));
    intuition congruence.
Qed.

(** C4: admission of a transfer the pool does not know: when [add] accepts
    it - whatever evictions and replacements that takes - its input was
    available and its outputs fresh, its six proofs verified, it is stored
    under its hash, and its input is locked. *)
Theorem add_transfer_sound p tx local replaced p' :
  unknown (tx_Hash tx) p → tx_small tx → ID tx = 0 → db_wf (CMdb_ p) →
  add tx local p = Some (inr replaced, p') →
  status (CMdb_ p) (CmO tx) = Available ∧ status (CMdb_ p) (CmS tx) = Absent ∧
  status (CMdb_ p) (CmR tx) = Absent ∧ verifyzkp (config p) tx = None ∧
  lk_all (all p') !! tx_Hash tx = Some tx ∧ status (CMdb_ p') (CmO tx) = Locked.
Proof.
  intros Hu Hs Hid Hwf Hadd. destruct (add_accepted _ _ _ _ _ Hu Hs Hid Hadd) as (HC & HZ & _ & HA & HL).
  rewrite validateCM_ledger, Hid in HC by done. cbn [Z.eqb] in HC.
  destruct (status _ (CmO tx)), (status _ (CmS tx)), (status _ (CmR tx)); done.
Qed.

(** C1: no double spend inside the pool: once a transfer is accepted, every
    other transfer of the same coin is refused with [ErrInvalidCM] and
    leaves the pool untouched. *)
Theorem no_double_spend_in_pool p tx local replaced p' tx2 local2 :
  unknown (tx_Hash tx) p → tx_small tx → ID tx = 0 →
  add tx local p = Some (inr replaced, p') →
  ID tx2 = 0 → CmO tx2 = CmO tx → lk_all (all p') !! tx_Hash tx2 = None →
  add tx2 local2 p' = Some (inl ErrInvalidCM, p').
Proof.
  intros Hu Hs Hid Hadd Hid2 Hsame Hnew.
  destruct (add_accepted _ _ _ _ _ Hu Hs Hid Hadd) as (_ & _ & _ & _ & HL).
  apply unavailable_rejected; [done|done|]. by rewrite Hsame, HL.
Qed.

(** C35: what a block leaves of the coins. Writing the commitments of a block
    always succeeds, and every coin ends with the status that its transactions
    give it in their order, where a transfer spends its input before it creates
    its outputs. So the input of a transfer is spent, and the pool refuses every
    further transfer of it, if neither that transfer nor a later one creates
    the same commitment again; a commitment that is created, be it the input of
    the same transfer, and not consumed later is available; and coins the block
    does not mention keep their status. (Blocks are written without checking
    their coins, so all of this can happen.) *)
Theorem mined_coin_stays_spent txs p :
  Forall tx_small txs →
  ∃ db', CMdb.WriteAllCM keccak (CMdb_ p) txs = Ret db' ∧
    (∀ c, status db' c = after_block txs c (status (CMdb_ p) c)) ∧
    (∀ l1 tx l2, txs = l1 ++ tx :: l2 → ID tx = 0 → (∀ t o, t ∈ tx :: l2 → o ∈ outputs t → cm_hash (CmO tx) ≠ cm_hash o) →
      status db' (CmO tx) = Gone ∧
      ∀ tx2 local, ID tx2 = 0 → CmO tx2 = CmO tx → lk_all (all p) !! tx_Hash tx2 = None → add tx2 local (set_CMdb p db') = Some (inl ErrInvalidCM, set_CMdb p db')) ∧
    (∀ l1 tx l2 c, txs = l1 ++ tx :: l2 → c ∈ outputs tx → (∀ t, t ∈ l2 → ID t = 0 → cm_hash c ≠ cm_hash (CmO t)) → status db' c = Available) ∧
    ∀ c, (∀ t o, t ∈ txs → o ∈ outputs t → cm_hash c ≠ cm_hash o) → (∀ t, t ∈ txs → ID t = 0 → cm_hash c ≠ cm_hash (CmO t)) →
      status db' c = status (CMdb_ p) c.
Proof.
  intros Hall. destruct (WriteAllCM_ledger txs (CMdb_ p) Hall) as (db' & E & Hst). exists db'.
  assert (Hnc : ∀ t c, (∀ o, o ∈ outputs t → cm_hash c ≠ cm_hash o) → ¬ creates t c) by (unfold creates; intros t c Ho (o & Hin & Heq)%Exists_exists; by apply (Ho o)).
  split_and!; [done|done| | |].
  - intros l1 tx l2 -> Hid Hout. assert (Hg : status db' (CmO tx) = Gone).
    { assert (Et : ∀ s, after_tx (CmO tx) s tx = Gone) by (intros s; unfold after_tx; rewrite decide_False, decide_True; [done|by split|apply Hnc; intros o; apply Hout; by left]).
      rewrite Hst, after_split, Et. apply after_spent. intros t Ht. apply Hnc. intros o. apply Hout. by right. }
    split; [done|]. intros tx2 local Hid2 Hsame Hnew. apply unavailable_rejected; [done|done|]. cbn. by rewrite Hsame, Hg.
  - intros l1 tx l2 c -> Hin Hcons. assert (Et : ∀ s, after_tx c s tx = Available) by (intros s; unfold after_tx; rewrite decide_True; [done|]; unfold creates; apply Exists_exists; eauto).
    rewrite Hst, after_split, Et. apply after_available. intros t Ht [H1 H2]. by apply (Hcons t).
  - intros c Hc1 Hc2. rewrite Hst. apply after_kept. intros t Ht. split; [apply Hnc; intros o; by apply Hc1|]. intros [H1 H2]. by apply (Hc2 t).
Qed.

(** Evicting a transaction of an account without pending ones touches the
    database through [reorgCM] only. *)
Lemma removeTx_queued p tx oob p' db' :
  lk_all (all p) !! tx_Hash tx = Some tx → pending p !! default 0 (Sender tx) = None →
  reorgCM tx p = Some (tt, set_CMdb p db') → removeTx (tx_Hash tx) oob p = Some (tt, p') →
  CMdb_ p' = db'.
Proof.
  intros Hk Hp Hr. set (I q := CMdb_ q = db' ∧ pending q !! default 0 (Sender tx) = None).
  assert (HI : I (set_CMdb p db')) by done.
  assert (Hmod : ∀ f, (∀ q, CMdb_ (f q) = CMdb_ q ∧ pending (f q) = pending q) → keeps I (modify f)).
  { intros f Hf. apply keeps_modify. intros q. unfold I. by destruct (Hf q) as [-> ->]. }
  unfold removeTx. intros (k & p1 & E & H1)%PM_bind_Some.
  unfold all_Get, mbind, PM_bind, get in E. injection E as <- <-. rewrite Hk in H1.
  apply PM_bind_Some in H1 as ([] & p2 & H2 & H1). rewrite Hr in H2. injection H2 as <-.
  enough (HI' : I p') by apply HI'. revert H1. use_keeps HI.
  apply keeps_bind; [|intros _].
  { apply keeps_get. intros q a q' Hq. destruct (lk_all (all q) !! tx_Hash tx); [|done].
    use_keeps Hq. by apply Hmod. }
  apply keeps_bind; [|intros _].
  { destruct oob; [|apply keeps_ret]. apply Hmod. intros q. cbv zeta. by destruct (_ <=? _). }
  apply keeps_get. intros q a q' Hq H1. rewrite (proj2 Hq) in H1. revert H1. use_keeps Hq.
  apply keeps_bind; [apply keeps_ret|]. intros []; [apply keeps_ret|].
  apply keeps_get. intros r b r' Hr'. destruct (queue r !! _); [|by intros [= _ <-]].
  use_keeps Hr'. apply keeps_bind; [|intros [[? ?] ?]; by apply Hmod].
  intros ? ? ? ?. unfold lift. destruct (list_Remove _ _); [|done]. by intros [= _ <-].
Qed.

(** a purchase that never reaches the chain can still be spent: when the
    pool evicts a queued purchase, its coin becomes available, and the
    commitment check accepts a transfer of it into fresh outputs. *)
Theorem evicted_purchase_spendable p tx oob p' tx2 :
  tx_small tx → ID tx = 1 → db_wf (CMdb_ p) →
  lk_all (all p) !! tx_Hash tx = Some tx → pending p !! default 0 (Sender tx) = None →
  removeTx (tx_Hash tx) oob p = Some (tt, p') →
  ID tx2 = 0 → CmO tx2 = CmV tx →
  status (CMdb_ p) (CmS tx2) = Absent → status (CMdb_ p) (CmR tx2) = Absent →
  cm_hash (CmS tx2) ≠ cm_hash (CmV tx) → cm_hash (CmR tx2) ≠ cm_hash (CmV tx) →
  status (CMdb_ p') (CmV tx) = Available ∧ validateCM (CMdb_ p') tx2 = None.
Proof.
  intros Hs Hid Hwf Hk Hp Hrm Hid2 HO HS HR HnS HnR.
  destruct (purchase_run p tx false Hs Hid) as (db' & E & Hst & Hoth & Hwf').
  rewrite (removeTx_queued _ _ _ _ _ Hk Hp E Hrm). split; [done|].
  rewrite validateCM_ledger, Hid2, HO, Hst by auto. cbn [Z.eqb].
  by rewrite !Hoth, HS, HR by done.
Qed.
End Pool.

(** ** Witnesses *)

Import Transfer.

(** Two transfers of one coin, and a purchase. *)
Definition transfer (nonce s r : Z) : txdata :=
  match Api.toZeroTransaction Sha256.sha256 (demo_draws s r) 1 ZkpClaims.key23
          (demo_args nonce 4 5 [Byte.x11]) with
  | Ret tx => tx
  | _ => TxListProofs.tx_at nonce 1
  end.

(** Transfers of the coin 16 at nonces 6 and 7 into different outputs. *)
Definition txA : txdata := Eval vm_compute in transfer 6 5 7.
Definition txB : txdata := Eval vm_compute in transfer 7 11 1.

Definition demo_db : CMdb.database :=
  match CMdb.WriteCM ∅ (@cm_hash (demo_env 5) (CmO txA)) (NewDefaultCM (CmO txA)) with
  | Ret db => db | _ => ∅ end.

Definition demo_pool (db : CMdb.database) : TxPool :=
  mk_pool demo_config true ∅ 8000000 ∅ ∅ ∅ ∅ (mk_lookup ∅ 0) (mk_priced [] 0) db.

Lemma empty_wf : db_wf ∅.
Proof. intros h. unfold CMdb.HasCM, CMdb.ReadCM, CMdb.ReadCMRLP. rewrite lookup_empty. by split; [|intros []]. Qed.

Lemma txs_small : tx_small txA ∧ tx_small txB.
Proof. by repeat split. Qed.

Lemma WriteCM_wf db h cm :
  small_cm (Cm cm) → db_wf db →
  db_wf (match CMdb.WriteCM db h cm with Ret db' => db' | _ => ∅ end).
Proof.
  intros Hs Hwf. destruct (WriteCM_total db h cm Hs) as (db' & E). rewrite E.
  destruct (CMdb.ReadCM_WriteCM db db' h cm Hs E) as (Hr & Hh & Hoth).
  intros h'. destruct (decide (h' = h)) as [->|Hne]; [rewrite Hr, Hh; by split|].
  destruct (Hoth h' Hne) as [-> ->]. apply Hwf.
Qed.

Lemma demo_db_wf : db_wf demo_db.
Proof. apply WriteCM_wf; [done|exact empty_wf]. Qed.

Lemma validateCM_spec_witness :
  @validateCM (demo_env 5) demo_db txA = None ↔
    (ID txA = 1 ∧ @status (demo_env 5) demo_db (CmV txA) = Absent) ∨
    (ID txA = 0 ∧ @status (demo_env 5) demo_db (CmO txA) = Available ∧
     @status (demo_env 5) demo_db (CmS txA) = Absent ∧ @status (demo_env 5) demo_db (CmR txA) = Absent).
Proof. exact (@validateCM_spec (demo_env 5) demo_db txA demo_db_wf). Defined.

(** The pool a run leaves; a run is known by its result. *)
Definition pool_after {A} (r : option (A * TxPool)) : TxPool :=
  match r with Some (_, p) => p | None => demo_pool ∅ end.

Lemma pool_after_run {A} (r : option (A * TxPool)) a :
  fst <$> r = Some a → r = Some (a, pool_after r).
Proof. destruct r as [[b p]|]; [|done]. by intros [= ->]. Qed.

Definition db_after {E} (r : outcome E CMdb.database) : CMdb.database :=
  match r with Ret db => db | _ => ∅ end.

Lemma db_after_run {E} (r : outcome E CMdb.database) :
  (if r is Ret _ then True else False) → r = Ret (db_after r).
Proof. by destruct r. Qed.

(** The pool after [txA] is admitted: one queued transaction. *)
Definition pool_A : TxPool := pool_after (@add (demo_env 5) txA false (demo_pool demo_db)).

Lemma add_A : @add (demo_env 5) txA false (demo_pool demo_db) = Some (inr false, pool_A).
Proof. apply pool_after_run. vm_compute. reflexivity. Qed.

Lemma demo_unknown h : @unknown (demo_env 5) h (demo_pool demo_db).
Proof. by split; [apply lookup_empty|intros addr l n tx]; cbn; rewrite ?lookup_empty. Qed.

Lemma add_transfer_sound_witness :
  @status (demo_env 5) demo_db (CmO txA) = Available ∧ @status (demo_env 5) demo_db (CmS txA) = Absent ∧
  @status (demo_env 5) demo_db (CmR txA) = Absent ∧ @verifyzkp (demo_env 5) demo_config txA = None ∧
  lk_all (all pool_A) !! @tx_Hash (demo_env 5) txA = Some txA ∧
  @status (demo_env 5) (CMdb_ pool_A) (CmO txA) = Locked.
Proof.
  exact (@add_transfer_sound (demo_env 5) (demo_pool demo_db) txA false false pool_A (demo_unknown _)
    (proj1 txs_small) eq_refl demo_db_wf add_A).
Defined.

Lemma no_double_spend_in_pool_witness :
  @add (demo_env 5) txB true pool_A = Some (inl ErrInvalidCM, pool_A).
Proof.
  refine (@no_double_spend_in_pool (demo_env 5) (demo_pool demo_db) txA false false pool_A txB true
    (demo_unknown _) (proj1 txs_small) eq_refl add_A eq_refl eq_refl _).
  vm_compute. reflexivity.
Defined.

Lemma mined_coin_stays_spent_witness :
  ∃ db', CMdb.WriteAllCM Sha256.sha256 demo_db [txA] = Ret db' ∧
    @status (demo_env 7) db' (CmO txA) = Gone.
Proof.
  destruct (@mined_coin_stays_spent (demo_env 7) [txA] (demo_pool demo_db))
    as (db' & E & _ & Hst & _); [constructor; [exact (proj1 txs_small)|done]|]. exists db'. split; [exact E|].
  apply (Hst [] txA []); [done|done|]. intros t o ->%list_elem_of_singleton [->| ->%list_elem_of_singleton]%elem_of_cons; vm_compute; discriminate.
Defined.

(** A transfer whose first output is its input leaves the input available, and
    a block with it is written like any other. *)
Definition txLoop : txdata := Eval vm_compute in
  mk_txdata (AccountNonce txA) (Price txA) (GasLimit txA) (Recipient txA) (Amount txA) (Payload txA) (ID txA) (ErpkC1 txA) (ErpkC2 txA) (EspkC1 txA) (EspkC2 txA) (CMRpk txA) (CMSpk txA) (ErpkEPs0 txA) (ErpkEPs1 txA) (ErpkEPs2 txA) (ErpkEPs3 txA) (ErpkEPt txA) (EspkEPs0 txA) (EspkEPs1 txA) (EspkEPs2 txA) (EspkEPs3 txA) (EspkEPt txA) (EvSC1 txA) (EvSC2 txA) (EvRC1 txA) (EvRC2 txA) (CmO txA) (CmR txA) (CMsFPC txA) (CMsFPZ1 txA) (CMsFPZ2 txA) (CMrFPC txA) (CMrFPZ1 txA) (CMrFPZ2 txA) (EvsBsC1 txA) (EvsBsC2 txA) (EvOC1 txA) (EvOC2 txA) (CmO txA) (EvOEPs0 txA) (EvOEPs1 txA) (EvOEPs2 txA) (EvOEPs3 txA) (EvOEPt txA) (BPC txA) (BPRV txA) (BPRR txA) (BPSV txA) (BPSR txA) (BPSOr txA) (EpkrC1 txA) (EpkrC2 txA) (EpkpC1 txA) (EpkpC2 txA) (SigM txA) (SigMHash txA) (SigR txA) (SigS txA) (CmV txA) (CmSRC1 txA) (CmSRC2 txA) (CmRRC1 txA) (CmRRC2 txA) (tx_V txA) (tx_R txA) (tx_S txA) (PK txA).

Lemma looped_input_available : ∃ db', CMdb.WriteAllCM Sha256.sha256 demo_db [txLoop] = Ret db' ∧ @status (demo_env 7) db' (CmO txLoop) = Available.
Proof.
  assert (E : (λ db', @status (demo_env 7) db' (CmO txLoop)) <$> (match CMdb.WriteAllCM Sha256.sha256 demo_db [txLoop] with Ret d => Some d | _ => None end) = Some Available) by (vm_compute; reflexivity).
  destruct (CMdb.WriteAllCM _ _ _) as [db'| |]; [|done|done]. exists db'. split; [done|]. by injection E.
Qed.

(** The stages of a run: [txA] queued, mined, forwarded out of the queue, and
    [txB] added. *)
Definition db_mined : CMdb.database :=
  db_after (CMdb.WriteAllCM Sha256.sha256 (CMdb_ pool_A) [txA]).

Definition pool_forwarded : TxPool :=
  pool_after (@promoteExecutables (demo_env 7) [7] (set_CMdb pool_A db_mined)).

Definition pool_B : TxPool := pool_after (@add (demo_env 7) txB false pool_forwarded).

(** A mined coin can be spent again: [txA] waits in the queue behind a
    nonce gap while a block mines it and fills the gap. The next promotion
    forwards it out of the queue, its spent input becomes available again, and
    [txB], a second transfer of the same coin with valid proofs, is accepted. *)
Theorem mined_transfer_spendable_again :
  @add (demo_env 5) txA false (demo_pool demo_db) = Some (inr false, pool_A) ∧
  CMdb.WriteAllCM Sha256.sha256 (CMdb_ pool_A) [txA] = Ret db_mined ∧
  @status (demo_env 7) db_mined (CmO txA) = Gone ∧
  @promoteExecutables (demo_env 7) [7] (set_CMdb pool_A db_mined) = Some ([], pool_forwarded) ∧
  @status (demo_env 7) (CMdb_ pool_forwarded) (CmO txA) = Available ∧
  CmO txB = CmO txA ∧ @add (demo_env 7) txB false pool_forwarded = Some (inr false, pool_B).
Proof.
  split; [exact add_A|]. split; [unfold db_mined; apply db_after_run; vm_compute; exact I|].
  split; [vm_compute; reflexivity|].
  split; [unfold pool_forwarded; apply pool_after_run; vm_compute; reflexivity|].
  split; [vm_compute; reflexivity|]. split; [reflexivity|].
  unfold pool_B. apply pool_after_run. vm_compute. reflexivity.
Qed.

(** A purchase the pool knows. *)
Definition purchase : txdata :=
  match Api.toExTransaction (demo_args 6 4 5 [Byte.x11]) with
  | Ret tx => tx | _ => TxListProofs.tx_at 6 1 end.

Lemma purchase_small : tx_small purchase.
Proof. by repeat split. Qed.

Definition pool_purchase : TxPool :=
  pool_after (@remember (demo_env 5) purchase (demo_pool ∅)).

Lemma pool_purchase_wf : db_wf (CMdb_ pool_purchase).
Proof.
  unfold pool_purchase, remember, mbind, PM_bind.
  destruct (@purchase_run (demo_env 5) (demo_pool ∅) purchase true purchase_small eq_refl)
    as (db' & E & _ & _ & Hwf). rewrite E. apply Hwf, empty_wf.
Qed.

Definition pool_evicted : TxPool :=
  pool_after (@removeTx (demo_env 5) (@tx_Hash (demo_env 5) purchase) true pool_purchase).

(** A transfer of the coin of the purchase. *)
Definition txC : txdata :=
  newTransaction 7 None None 21000 (Some 1) [] 0
    [] [] [] [] [] [] [] [] [] [] [] [] [] [] [] [] [] [] [] [] [Byte.x01] [Byte.x02]
    [] [] [] [] [] [] [] [] [] [] (CmV purchase) [] [] [] [] []
    [] [] [] [] [] [] [] [] [] [] [] [] [] [] [] [] [] [] [].

Lemma evicted_purchase_spendable_witness :
  @status (demo_env 5) (CMdb_ pool_evicted) (CmV purchase) = Available ∧
  @validateCM (demo_env 5) (CMdb_ pool_evicted) txC = None.
Proof.
  apply (@evicted_purchase_spendable (demo_env 5) pool_purchase purchase true pool_evicted txC).
  - exact purchase_small.
  - reflexivity.
  - apply pool_purchase_wf.
  - vm_compute. reflexivity.
  - vm_compute. reflexivity.
  - unfold pool_evicted. apply pool_after_run. vm_compute. reflexivity.
  - reflexivity.
  - reflexivity.
  - vm_compute. reflexivity.
  - vm_compute. reflexivity.
  - vm_compute. discriminate.
  - vm_compute. discriminate.
Defined.
End PoolClaims.
