(* ===== verification/StateDB.v ===== *)
(** * StateDB: accounts, their journal and snapshots (core/state)

    [stateObject], the change journal and [StateDB] with every operation the
    EVM uses up to [Finalise]. The account and storage tries and the code
    store behind the [Database] interface are the class [Backend].

    - Addresses, hashes and storage words are [Z]; nil code is [None].
    - A journal lists its entries newest first; [journalIndex] is a length.
    - Objects are values: the map owns the live object of an address, and the
      object a [resetObjectChange] keeps is out of the map until it is put
      back, so no alias is ever written through.
    - An operation is a state transformer; [None] is a panic.
    - Metrics and the debugging storage of [SetStorage] are left out. *)

From stdpp Require Import base gmap list.
From Stdlib Require Import ZArith Lia.
From S2P Require Import Prelude.

Local Open Scope Z_scope.

Module StateDB.

(** ** Data *)

Record Account := mk_Account { Nonce : Z; Balance : Z; Root : Z; CodeHash : Z }.

Abbreviation Storage := (gmap Z Z).

Record stateObject := mk_object {
  data : Account; code : option bytes;
  originStorage : Storage; pendingStorage : Storage; dirtyStorage : Storage;
  dirtyCode : bool; suicided : bool; deleted : bool }.

Record Log := mk_Log {
  lg_Address : Z; lg_Topics : list Z; lg_Data : bytes;
  lg_TxHash : Z; lg_BlockHash : Z; lg_TxIndex : Z; lg_Index : Z }.

Inductive journalEntry :=
  | createObjectChange (account : Z)
  | resetObjectChange (account : Z) (prev : stateObject)
  | suicideChange (account : Z) (prev : bool) (prevbalance : Z)
  | balanceChange (account : Z) (prev : Z)
  | nonceChange (account : Z) (prev : Z)
  | storageChange (account key prevalue : Z)
  | codeChange (account : Z) (prevcode : option bytes) (prevhash : Z)
  | refundChange (prev : Z)
  | addLogChange (txhash : Z)
  | addPreimageChange (hash : Z)
  | touchChange (account : Z).

Record journal := mk_journal { entries : list journalEntry; dirties : gmap Z Z }.

Record revision := mk_revision { rev_id : Z; journalIndex : nat }.

Record StateDB := mk_state {
  stateObjects : gmap Z stateObject;
  stateObjectsPending : gset Z; stateObjectsDirty : gset Z;
  refund : Z; thash : Z; bhash : Z; txIndex : Z;
  logs : gmap Z (list Log); logSize : Z; preimages : gmap Z bytes;
  jrnl : journal; validRevisions : list revision; nextRevisionId : Z }.

(** What the state reads through [Database] and [Trie]: an account (absent or
    undecodable ones are [None]), a storage word of the trie with a given
    root, contract code, and the hash of code. *)
Class Backend := {
  read_account : Z → option Account;
  read_storage : Z → Z → Z → Z;
  ContractCode : Z → option bytes;
  Keccak256Hash : bytes → Z;
  emptyRoot : Z;
  read_empty : ∀ a k, read_storage a emptyRoot k = 0;
}.

(** ** Field updates *)

Definition set_data (o : stateObject) x :=
  mk_object x (code o) (originStorage o) (pendingStorage o) (dirtyStorage o) (dirtyCode o) (suicided o) (deleted o).
Definition set_code_cache (o : stateObject) x :=
  mk_object (data o) x (originStorage o) (pendingStorage o) (dirtyStorage o) (dirtyCode o) (suicided o) (deleted o).
Definition set_origin (o : stateObject) x :=
  mk_object (data o) (code o) x (pendingStorage o) (dirtyStorage o) (dirtyCode o) (suicided o) (deleted o).
Definition set_storage (o : stateObject) p d :=
  mk_object (data o) (code o) (originStorage o) p d (dirtyCode o) (suicided o) (deleted o).
Definition set_dirtyCode (o : stateObject) x :=
  mk_object (data o) (code o) (originStorage o) (pendingStorage o) (dirtyStorage o) x (suicided o) (deleted o).
Definition set_suicided (o : stateObject) x :=
  mk_object (data o) (code o) (originStorage o) (pendingStorage o) (dirtyStorage o) (dirtyCode o) x (deleted o).
Definition set_deleted (o : stateObject) x :=
  mk_object (data o) (code o) (originStorage o) (pendingStorage o) (dirtyStorage o) (dirtyCode o) (suicided o) x.

Definition with_objects (s : StateDB) x :=
  mk_state x (stateObjectsPending s) (stateObjectsDirty s) (refund s) (thash s) (bhash s) (txIndex s)
    (logs s) (logSize s) (preimages s) (jrnl s) (validRevisions s) (nextRevisionId s).
Definition with_marks (s : StateDB) p d :=
  mk_state (stateObjects s) p d (refund s) (thash s) (bhash s) (txIndex s)
    (logs s) (logSize s) (preimages s) (jrnl s) (validRevisions s) (nextRevisionId s).
Definition with_refund (s : StateDB) x :=
  mk_state (stateObjects s) (stateObjectsPending s) (stateObjectsDirty s) x (thash s) (bhash s) (txIndex s)
    (logs s) (logSize s) (preimages s) (jrnl s) (validRevisions s) (nextRevisionId s).
Definition with_tx (s : StateDB) h b i :=
  mk_state (stateObjects s) (stateObjectsPending s) (stateObjectsDirty s) (refund s) h b i
    (logs s) (logSize s) (preimages s) (jrnl s) (validRevisions s) (nextRevisionId s).
Definition with_logs (s : StateDB) x n :=
  mk_state (stateObjects s) (stateObjectsPending s) (stateObjectsDirty s) (refund s) (thash s) (bhash s) (txIndex s)
    x n (preimages s) (jrnl s) (validRevisions s) (nextRevisionId s).
Definition with_preimages (s : StateDB) x :=
  mk_state (stateObjects s) (stateObjectsPending s) (stateObjectsDirty s) (refund s) (thash s) (bhash s) (txIndex s)
    (logs s) (logSize s) x (jrnl s) (validRevisions s) (nextRevisionId s).
Definition with_journal (s : StateDB) x :=
  mk_state (stateObjects s) (stateObjectsPending s) (stateObjectsDirty s) (refund s) (thash s) (bhash s) (txIndex s)
    (logs s) (logSize s) (preimages s) x (validRevisions s) (nextRevisionId s).
Definition with_revisions (s : StateDB) x n :=
  mk_state (stateObjects s) (stateObjectsPending s) (stateObjectsDirty s) (refund s) (thash s) (bhash s) (txIndex s)
    (logs s) (logSize s) (preimages s) (jrnl s) x n.

(** ** State transformers *)

Definition SM (A : Type) : Type := StateDB → option (A * StateDB).

#[export] Instance SM_ret : MRet SM := λ A a s, Some (a, s).
#[export] Instance SM_bind : MBind SM := λ A B k m s,
  match m s with Some (a, s) => k a s | None => None end.

Definition get : SM StateDB := λ s, Some (s, s).
Definition modify (f : StateDB → StateDB) : SM unit := λ s, Some (tt, f s).
Definition panic {A} : SM A := λ _, None.

(** ** The journal (journal.go) *)

Definition newJournal : journal := mk_journal [] ∅.

Definition dirtied (e : journalEntry) : option Z :=
  match e with
  | createObjectChange a | suicideChange a _ _ | touchChange a | balanceChange a _
  | nonceChange a _ | codeChange a _ _ | storageChange a _ _ => Some a
  | resetObjectChange _ _ | refundChange _ | addLogChange _ | addPreimageChange _ => None
  end.

Definition journal_dirty (addr : Z) (j : journal) : journal :=
  mk_journal (entries j) (<[addr := default 0 (dirties j !! addr) + 1]> (dirties j)).

Definition journal_append (entry : journalEntry) (j : journal) : journal :=
  let j := mk_journal (entry :: entries j) (dirties j) in
  match dirtied entry with
  | Some addr => journal_dirty addr j
  | None => j
  end.

(** [if j.dirties[*addr]--; j.dirties[*addr] == 0 { delete(j.dirties, *addr) }] *)
Definition undirty (e : journalEntry) (d : gmap Z Z) : gmap Z Z :=
  match dirtied e with
  | Some addr =>
      let n := default 0 (d !! addr) - 1 in
      if n =? 0 then delete addr d else <[addr := n]> d
  | None => d
  end.

Definition append (entry : journalEntry) : SM unit :=
  modify (λ s, with_journal s (journal_append entry (jrnl s))).

Definition length_ (s : StateDB) : nat := length (entries (jrnl s)).

Section WithBackend.
Context `{Backend}.

Definition emptyCodeHash : Z := Keccak256Hash [].

(** ** Objects (state_object.go) *)

Definition empty (o : stateObject) : bool :=
  (Nonce (data o) =? 0) && (Balance (data o) =? 0) && (CodeHash (data o) =? emptyCodeHash).

(** A [nil] code hash or a zero root becomes the empty one. *)
Definition newObject (d : Account) : stateObject :=
  mk_object (mk_Account (Nonce d) (Balance d) (if Root d =? 0 then emptyRoot else Root d) (CodeHash d))
    None ∅ ∅ ∅ false false false.

(** [newObject(s, addr, Account{})] *)
Definition blank : stateObject := newObject (mk_Account 0 0 0 emptyCodeHash).

Definition setBalance (o : stateObject) (x : Z) : stateObject :=
  set_data o (mk_Account (Nonce (data o)) x (Root (data o)) (CodeHash (data o))).
Definition setNonce (o : stateObject) (x : Z) : stateObject :=
  set_data o (mk_Account x (Balance (data o)) (Root (data o)) (CodeHash (data o))).
Definition setCode (o : stateObject) (codeHash : Z) (c : option bytes) : stateObject :=
  set_dirtyCode (set_code_cache (set_data o (mk_Account (Nonce (data o)) (Balance (data o)) (Root (data o)) codeHash)) c) true.
Definition setState (o : stateObject) (key value : Z) : stateObject :=
  set_storage o (pendingStorage o) (<[key := value]> (dirtyStorage o)).

(** [finalise]: dirty slots win over pending ones. *)
Definition finalise (o : stateObject) : stateObject :=
  set_storage o (dirtyStorage o ∪ pendingStorage o) ∅.

(** ** Looking objects up (statedb.go) *)

Definition setStateObject (addr : Z) (o : stateObject) : SM unit :=
  modify (λ s, with_objects s (<[addr := o]> (stateObjects s))).

Definition getDeletedStateObject (addr : Z) : SM (option stateObject) :=
  s ← get;
  match stateObjects s !! addr with
  | Some obj => mret (Some obj)
  | None =>
      match read_account addr with
      | None => mret None
      | Some d =>
          let obj := newObject d in
          setStateObject addr obj;; mret (Some obj)
      end
  end.

Definition getStateObject (addr : Z) : SM (option stateObject) :=
  obj ← getDeletedStateObject addr;
  match obj with
  | Some o => if deleted o then mret None else mret (Some o)
  | None => mret None
  end.

(** Calls a method on the object of an address; a nil object panics. *)
Definition on_object (addr : Z) (f : stateObject → stateObject) : SM unit :=
  obj ← getStateObject addr;
  match obj with
  | Some o => setStateObject addr (f o)
  | None => panic
  end.

(** ** Reverting entries *)

Definition revert (e : journalEntry) : SM unit :=
  match e with
  | createObjectChange a =>
      modify (λ s, with_objects s (delete a (stateObjects s)));;
      modify (λ s, with_marks s (stateObjectsPending s) (stateObjectsDirty s ∖ {[a]}))
  | resetObjectChange a prev => setStateObject a prev
  | suicideChange a prev prevbalance =>
      obj ← getStateObject a;
      match obj with
      | Some o => setStateObject a (setBalance (set_suicided o prev) prevbalance)
      | None => mret tt
      end
  | touchChange _ => mret tt
  | balanceChange a prev => on_object a (λ o, setBalance o prev)
  | nonceChange a prev => on_object a (λ o, setNonce o prev)
  | codeChange a prevcode prevhash => on_object a (λ o, setCode o prevhash prevcode)
  | storageChange a key prevalue => on_object a (λ o, setState o key prevalue)
  | refundChange prev => modify (λ s, with_refund s prev)
  | addLogChange txhash =>
      s ← get;
      match default [] (logs s !! txhash) with
      | [] => panic
      | [_] => modify (λ s, with_logs s (delete txhash (logs s)) (u64 (logSize s - 1)))
      | l => modify (λ s, with_logs s (<[txhash := take (length l - 1) l]> (logs s)) (u64 (logSize s - 1)))
      end
  | addPreimageChange hash => modify (λ s, with_preimages s (delete hash (preimages s)))
  end.

(** [journal.revert]: [n] entries are undone, newest first. *)
Fixpoint journal_revert (n : nat) : SM unit :=
  match n with
  | O => mret tt
  | S n =>
      s ← get;
      match entries (jrnl s) with
      | [] => mret tt
      | e :: _ =>
          revert e;;
          modify (λ s, with_journal s (mk_journal (tail (entries (jrnl s))) (undirty e (dirties (jrnl s)))));;
          journal_revert n
      end
  end.

(** ** Reading *)

Definition Code (addr : Z) (o : stateObject) : SM (option bytes) :=
  match code o with
  | Some c => mret (Some c)
  | None =>
      if CodeHash (data o) =? emptyCodeHash then mret None
      else
        let c := ContractCode (CodeHash (data o)) in
        setStateObject addr (set_code_cache o c);; mret c
  end.

Definition obj_GetCommittedState (addr : Z) (o : stateObject) (key : Z) : SM Z :=
  match pendingStorage o !! key with
  | Some v => mret v
  | None =>
      match originStorage o !! key with
      | Some v => mret v
      | None =>
          let v := read_storage addr (Root (data o)) key in
          setStateObject addr (set_origin o (<[key := v]> (originStorage o)));; mret v
      end
  end.

Definition obj_GetState (addr : Z) (o : stateObject) (key : Z) : SM Z :=
  match dirtyStorage o !! key with
  | Some v => mret v
  | None => obj_GetCommittedState addr o key
  end.

Definition Exist (addr : Z) : SM bool :=
  obj ← getStateObject addr; mret (bool_decide (is_Some obj)).

Definition Empty (addr : Z) : SM bool :=
  obj ← getStateObject addr; mret (match obj with Some o => empty o | None => true end).

Definition GetBalance (addr : Z) : SM Z :=
  obj ← getStateObject addr; mret (match obj with Some o => Balance (data o) | None => 0 end).

Definition GetNonce (addr : Z) : SM Z :=
  obj ← getStateObject addr; mret (match obj with Some o => Nonce (data o) | None => 0 end).

Definition GetCode (addr : Z) : SM (option bytes) :=
  obj ← getStateObject addr;
  match obj with Some o => Code addr o | None => mret None end.

Definition GetCodeHash (addr : Z) : SM Z :=
  obj ← getStateObject addr; mret (match obj with Some o => CodeHash (data o) | None => 0 end).

Definition GetState (addr key : Z) : SM Z :=
  obj ← getStateObject addr;
  match obj with Some o => obj_GetState addr o key | None => mret 0 end.

Definition GetCommittedState (addr key : Z) : SM Z :=
  obj ← getStateObject addr;
  match obj with Some o => obj_GetCommittedState addr o key | None => mret 0 end.

Definition HasSuicided (addr : Z) : SM bool :=
  obj ← getStateObject addr; mret (match obj with Some o => suicided o | None => false end).

(** ** Creating *)

Definition createObject (addr : Z) : SM (stateObject * option stateObject) :=
  prev ← getDeletedStateObject addr;
  let newobj := setNonce blank 0 in
  (match prev with
   | None => append (createObjectChange addr)
   | Some prev => append (resetObjectChange addr prev)
   end);;
  setStateObject addr newobj;;
  mret (newobj, prev).

Definition GetOrNewStateObject (addr : Z) : SM stateObject :=
  obj ← getStateObject addr;
  match obj with
  | Some o => mret o
  | None => '(newobj, _) ← createObject addr; mret newobj
  end.

Definition CreateAccount (addr : Z) : SM unit :=
  '(newobj, prev) ← createObject addr;
  match prev with
  | Some prev => setStateObject addr (setBalance newobj (Balance (data prev)))
  | None => mret tt
  end.

(** ** Writing *)

Definition ripemd : Z := 3.

Definition touch (addr : Z) : SM unit :=
  append (touchChange addr);;
  if addr =? ripemd then modify (λ s, with_journal s (journal_dirty addr (jrnl s))) else mret tt.

Definition obj_SetBalance (addr : Z) (o : stateObject) (amount : Z) : SM unit :=
  append (balanceChange addr (Balance (data o)));; setStateObject addr (setBalance o amount).

Definition AddBalance (addr amount : Z) : SM unit :=
  o ← GetOrNewStateObject addr;
  if amount =? 0 then (if empty o then touch addr else mret tt)
  else obj_SetBalance addr o (Balance (data o) + amount).

Definition SubBalance (addr amount : Z) : SM unit :=
  o ← GetOrNewStateObject addr;
  if amount =? 0 then mret tt
  else obj_SetBalance addr o (Balance (data o) - amount).

Definition SetBalance (addr amount : Z) : SM unit :=
  o ← GetOrNewStateObject addr; obj_SetBalance addr o amount.

Definition SetNonce (addr nonce : Z) : SM unit :=
  o ← GetOrNewStateObject addr;
  append (nonceChange addr (Nonce (data o)));; setStateObject addr (setNonce o nonce).

(** The hash of a nil code is the hash of no bytes. [Code] may have cached the
    code of the object: the write is on the cached object. *)
Definition SetCode (addr : Z) (c : option bytes) : SM unit :=
  o ← GetOrNewStateObject addr;
  prevcode ← Code addr o;
  append (codeChange addr prevcode (CodeHash (data o)));;
  on_object addr (λ o, setCode o (Keccak256Hash (default [] c)) c).

Definition SetState (addr key value : Z) : SM unit :=
  o ← GetOrNewStateObject addr;
  prev ← obj_GetState addr o key;
  if prev =? value then mret tt
  else
    append (storageChange addr key prev);;
    on_object addr (λ o, setState o key value).

Definition Suicide (addr : Z) : SM bool :=
  obj ← getStateObject addr;
  match obj with
  | None => mret false
  | Some o =>
      append (suicideChange addr (suicided o) (Balance (data o)));;
      setStateObject addr (setBalance (set_suicided o true) 0);;
      mret true
  end.

Definition AddRefund (gas : Z) : SM unit :=
  s ← get; append (refundChange (refund s));; modify (λ s, with_refund s (u64 (refund s + gas))).

Definition SubRefund (gas : Z) : SM unit :=
  s ← get;
  append (refundChange (refund s));;
  if refund s <? gas then panic else modify (λ s, with_refund s (u64 (refund s - gas))).

Definition AddLog (lg : Log) : SM unit :=
  s ← get;
  append (addLogChange (thash s));;
  let lg := mk_Log (lg_Address lg) (lg_Topics lg) (lg_Data lg) (thash s) (bhash s) (txIndex s) (logSize s) in
  modify (λ s, with_logs s (<[thash s := default [] (logs s !! thash s) ++ [lg]]> (logs s))
                 (u64 (logSize s + 1))).

Definition AddPreimage (hash : Z) (preimage : bytes) : SM unit :=
  s ← get;
  match preimages s !! hash with
  | Some _ => mret tt
  | None =>
      append (addPreimageChange hash);;
      modify (λ s, with_preimages s (<[hash := preimage]> (preimages s)))
  end.

Definition Prepare (h b i : Z) : SM unit := modify (λ s, with_tx s h b i).

(** ** Snapshots *)

Definition Snapshot : SM Z :=
  s ← get;
  let id := nextRevisionId s in
  modify (λ s, with_revisions s (validRevisions s ++ [mk_revision id (length_ s)]) (id + 1));;
  mret id.

(** [sort.Search]: the least [i] of [[lo, hi)] with [f i], for a monotone [f]. *)
Fixpoint sort_search (fuel lo hi : nat) (f : nat → bool) : nat :=
  match fuel with
  | O => lo
  | S fuel =>
      if (lo <? hi)%nat then
        let h := ((lo + hi) / 2)%nat in
        if f h then sort_search fuel lo h f else sort_search fuel (S h) hi f
      else lo
  end.

Definition RevertToSnapshot (revid : Z) : SM unit :=
  s ← get;
  let revs := validRevisions s in
  let idx := sort_search (S (length revs)) 0 (length revs)
    (λ i, match revs !! i with Some r => revid <=? rev_id r | None => false end) in
  match revs !! idx with
  | Some r =>
      if rev_id r =? revid then
        journal_revert (length_ s - journalIndex r);;
        modify (λ s, with_revisions s (take idx (validRevisions s)) (nextRevisionId s))
      else panic
  | None => panic
  end.

(** ** The end of a transaction *)

Definition clearJournalAndRefund : SM unit :=
  modify (λ s,
    let s := match entries (jrnl s) with
             | [] => s
             | _ => with_refund (with_journal s newJournal) 0
             end in
    with_revisions s [] (nextRevisionId s)).

(** The objects of dirty accounts, finalised or marked deleted. *)
Definition finalise_object (deleteEmptyObjects : bool) (o : stateObject) : stateObject :=
  if suicided o || (deleteEmptyObjects && empty o) then set_deleted o true else finalise o.

Definition Finalise (deleteEmptyObjects : bool) : SM unit :=
  modify (λ s,
    let live := dom (dirties (jrnl s)) ∩ dom (stateObjects s) in
    with_marks
      (with_objects s (map_imap (λ a o,
         Some (if bool_decide (a ∈ live) then finalise_object deleteEmptyObjects o else o)) (stateObjects s)))
      (stateObjectsPending s ∪ live) (stateObjectsDirty s ∪ live));;
  clearJournalAndRefund.

End WithBackend.
End StateDB.
