(* ===== verification/StateProofs.v ===== *)
(** * StateProofs: reverting to a snapshot restores the state

    Two states are equivalent when every account looks the same through them,
    whatever each has cached. Every operation leaves a journal whose entries,
    undone newest first, lead back to an equivalent state; so does any
    sequence of operations with nested snapshots, and [RevertToSnapshot] finds
    its revision by binary search and undoes exactly those entries. *)

From stdpp Require Import base gmap list sorting.
From Stdlib Require Import ZArith Lia.
From S2P Require Import Prelude StateDB.

Local Open Scope Z_scope.

Module StateProofs.
Import StateDB.

Section State.
Context `{Backend}.

(** ** What an object and a state show *)

Definition committed (a : Z) (o : stateObject) (k : Z) : Z :=
  match pendingStorage o !! k with
  | Some v => v
  | None => default (read_storage a (Root (data o)) k) (originStorage o !! k)
  end.

Definition current (a : Z) (o : stateObject) (k : Z) : Z :=
  default (committed a o k) (dirtyStorage o !! k).

Definition code_of (o : stateObject) : option bytes :=
  match code o with
  | Some c => Some c
  | None => if CodeHash (data o) =? emptyCodeHash then None else ContractCode (CodeHash (data o))
  end.

Record obj_eqv (a : Z) (o o' : stateObject) : Prop := {
  oe_data : data o = data o';
  oe_suicided : suicided o = suicided o';
  oe_deleted : deleted o = deleted o';
  oe_committed : ∀ k, committed a o k = committed a o' k;
  oe_current : ∀ k, current a o k = current a o' k;
  oe_code : code_of o = code_of o';
}.

#[export] Instance obj_eqv_equiv a : Equivalence (obj_eqv a).
Proof.
  split.
  - by intros o.
  - intros o o' []. by split.
  - intros o1 o2 o3 [] []. split; intros; etrans; eauto.
Qed.

(** The object of an address, from the map or from the database. *)
Definition eff (s : StateDB) (a : Z) : option stateObject :=
  match stateObjects s !! a with
  | Some o => Some o
  | None => newObject <$> read_account a
  end.

Record eqv (s t : StateDB) : Prop := {
  e_obj : ∀ a, option_Forall2 (obj_eqv a) (eff s a) (eff t a);
  e_refund : refund s = refund t;
  e_logs : ∀ h, default [] (logs s !! h) = default [] (logs t !! h);
  e_logSize : logSize s = logSize t;
  e_preimages : preimages s = preimages t;
  e_tx : thash s = thash t ∧ bhash s = bhash t ∧ txIndex s = txIndex t;
}.

#[export] Instance eqv_equiv : Equivalence eqv.
Proof.
  split.
  - by intros s.
  - intros s t [E1 ? E3 ? ? (?&?&?)]. split; [|done|done|done|done|done].
    intros a. by destruct (E1 a); constructor.
  - intros s t u [E1 ? E3 ? ? (?&?&?)] [F1 ? F3 ? ? (?&?&?)].
    split; [|congruence| |congruence|congruence|split_and!; congruence].
    + intros a. etrans; [apply E1|apply F1].
    + intros h. by rewrite E3.
Qed.

(** States that differ in the journal, the marks or the revisions only. *)
Lemma eqv_frame s t :
  stateObjects t = stateObjects s → refund t = refund s → logs t = logs s → logSize t = logSize s →
  preimages t = preimages s → thash t = thash s → bhash t = bhash s → txIndex t = txIndex s → eqv t s.
Proof.
  intros E1 E2 E3 E4 E5 E6 E7 E8. split; [|congruence|by intros h; rewrite E3|congruence|congruence|done].
  intros a. unfold eff. rewrite E1. by destruct (match _ with Some _ => _ | None => _ end); constructor.
Qed.

(** ** Object updates respect the equivalence *)

Lemma setBalance_eqv a o o' x : obj_eqv a o o' → obj_eqv a (setBalance o x) (setBalance o' x).
Proof.
  intros [Ed Es El Ec Et Eo]. split; [cbn; by rewrite Ed|exact Es|exact El|exact Ec|exact Et|exact Eo].
Qed.

Lemma setNonce_eqv a o o' x : obj_eqv a o o' → obj_eqv a (setNonce o x) (setNonce o' x).
Proof.
  intros [Ed Es El Ec Et Eo]. split; [cbn; by rewrite Ed|exact Es|exact El|exact Ec|exact Et|exact Eo].
Qed.

Lemma setCode_eqv a o o' h c : obj_eqv a o o' → obj_eqv a (setCode o h c) (setCode o' h c).
Proof.
  intros [Ed Es El Ec Et Eo]. split; [cbn; by rewrite Ed|exact Es|exact El|exact Ec|exact Et|done].
Qed.

Lemma setState_eqv a o o' k v : obj_eqv a o o' → obj_eqv a (setState o k v) (setState o' k v).
Proof.
  intros [Ed Es El Ec Et Eo]. split; [exact Ed|exact Es|exact El|exact Ec| |exact Eo].
  intros k'. specialize (Et k'). unfold current in *. cbn [setState set_storage dirtyStorage].
  destruct (decide (k = k')) as [->|]; [by rewrite !lookup_insert_eq|]. rewrite !lookup_insert_ne by done. exact Et.
Qed.

Lemma set_suicided_eqv a o o' b : obj_eqv a o o' → obj_eqv a (set_suicided o b) (set_suicided o' b).
Proof. intros [Ed Es El Ec Et Eo]. by split; [exact Ed| |exact El|exact Ec|exact Et|exact Eo]. Qed.

(** ** Looking up *)

(** Loading an object puts it in the map. *)
Definition cached (a : Z) (s : StateDB) : StateDB :=
  match eff s a with
  | Some o => with_objects s (<[a := o]> (stateObjects s))
  | None => s
  end.

Definition live (s : StateDB) (a : Z) : option stateObject :=
  match eff s a with
  | Some o => if deleted o then None else Some o
  | None => None
  end.

Lemma with_objects_id s : with_objects s (stateObjects s) = s.
Proof. by destruct s. Qed.

Lemma getDeletedStateObject_run a s : getDeletedStateObject a s = Some (eff s a, cached a s).
Proof.
  unfold getDeletedStateObject, cached, eff, mbind, SM_bind, get.
  destruct (stateObjects s !! a) as [o|] eqn:E.
  - rewrite insert_id by done. by rewrite with_objects_id.
  - by destruct (read_account a).
Qed.

Lemma getStateObject_run a s : getStateObject a s = Some (live s a, cached a s).
Proof.
  unfold getStateObject, mbind, SM_bind. rewrite getDeletedStateObject_run. unfold live.
  destruct (eff s a) as [o|]; [by destruct (deleted o)|done].
Qed.

Lemma eff_insert s a o b :
  eff (with_objects s (<[a := o]> (stateObjects s))) b = if decide (a = b) then Some o else eff s b.
Proof.
  unfold eff. cbn. case_decide as E; [subst; by rewrite lookup_insert_eq|by rewrite lookup_insert_ne].
Qed.

Lemma eff_cached s a b : eff (cached a s) b = eff s b.
Proof.
  unfold cached. destruct (eff s a) as [o|] eqn:E; [|done]. rewrite eff_insert.
  case_decide; [by subst|done].
Qed.

(** The state with the object of [a] replaced. *)
Definition put (a : Z) (o : stateObject) (s : StateDB) : StateDB :=
  with_objects s (<[a := o]> (stateObjects s)).

Lemma setStateObject_run a o s : setStateObject a o s = Some (tt, put a o s).
Proof. done. Qed.

Lemma put_cached a o s : put a o (cached a s) = put a o s.
Proof.
  unfold put, cached. destruct (eff s a); [|done]. unfold with_objects. cbn. by rewrite insert_insert_eq.
Qed.

Lemma on_object_run a f s :
  on_object a f s = (λ o, (tt, put a (f o) s)) <$> live s a.
Proof.
  unfold on_object, mbind, SM_bind. rewrite getStateObject_run. destruct (live s a); [|done].
  cbn. by rewrite setStateObject_run, put_cached.
Qed.

Lemma cached_eqv a s : eqv (cached a s) s.
Proof.
  assert (Hf : refund (cached a s) = refund s ∧ logs (cached a s) = logs s ∧ logSize (cached a s) = logSize s ∧
    preimages (cached a s) = preimages s ∧ thash (cached a s) = thash s ∧ bhash (cached a s) = bhash s ∧
    txIndex (cached a s) = txIndex s) by (unfold cached; by destruct (eff s a)).
  destruct Hf as (E1 & E2 & E3 & E4 & E5 & E6 & E7). split; try done.
  - intros b. rewrite eff_cached. by destruct (eff s b); constructor.
  - by rewrite E2.
Qed.

Lemma put_eqv a o o' s t : eqv s t → obj_eqv a o o' → eqv (put a o s) (put a o' t).
Proof.
  intros [E1 E2 E3 E4 E5 E6] Ho. split; try done. intros b. unfold put. rewrite !eff_insert.
  case_decide; [subst; by constructor|apply E1].
Qed.

(** Putting back an object that shows the same. *)
Lemma put_back a o o' s : eff s a = Some o' → obj_eqv a o o' → eqv (put a o s) s.
Proof.
  intros E Ho. split; try done. intros b. unfold put. rewrite eff_insert.
  case_decide; [subst; rewrite E; by constructor|by destruct (eff s b); constructor].
Qed.

Lemma live_eqv s t a : eqv s t → option_Forall2 (obj_eqv a) (live s a) (live t a).
Proof.
  intros [E _ _ _ _ _]. unfold live. destruct (E a) as [o o' Ho|]; [|constructor].
  rewrite <- (oe_deleted _ _ _ Ho). destruct (deleted o); by constructor.
Qed.

(** ** Reverting respects the equivalence *)

Definition outcome_eqv (x y : option (unit * StateDB)) : Prop :=
  option_Forall2 (λ p q, eqv p.2 q.2) x y.

Lemma on_object_eqv a f s t :
  (∀ o o', obj_eqv a o o' → obj_eqv a (f o) (f o')) → eqv s t →
  outcome_eqv (on_object a f s) (on_object a f t).
Proof.
  intros Hf E. rewrite !on_object_run. destruct (live_eqv s t a E) as [o o' Ho|]; cbn; constructor.
  cbn. apply put_eqv; auto.
Qed.

Lemma revert_eqv e s t : eqv s t → outcome_eqv (revert e s) (revert e t).
Proof.
  intros E. pose proof E as [E1 E2 E3 E4 E5 E6]. destruct e; cbn [revert].
  - constructor. cbn. split; try done. intros b. unfold eff. cbn.
    destruct (decide (account = b)) as [->|]; [rewrite !lookup_delete_eq|rewrite !lookup_delete_ne by done; apply E1].
    by destruct (newObject <$> _); constructor.
  - constructor. cbn. by apply put_eqv.
  - unfold mbind, SM_bind. rewrite !getStateObject_run.
    destruct (live_eqv s t account E) as [o o' Ho|].
    + cbv beta iota. rewrite !setStateObject_run, !put_cached. constructor. apply put_eqv; [done|]. by apply setBalance_eqv, set_suicided_eqv.
    + constructor. cbn. by rewrite !cached_eqv.
  - apply on_object_eqv; [|done]. intros. by apply setBalance_eqv.
  - apply on_object_eqv; [|done]. intros. by apply setNonce_eqv.
  - apply on_object_eqv; [|done]. intros. by apply setState_eqv.
  - apply on_object_eqv; [|done]. intros. by apply setCode_eqv.
  - constructor. cbn. by split.
  - unfold mbind, SM_bind, get. cbn. rewrite <- E3.
    assert (Hl : ∀ f g : gmap Z (list Log), (∀ h, default [] (f !! h) = default [] (g !! h)) →
      eqv (with_logs s f (u64 (logSize s - 1))) (with_logs t g (u64 (logSize t - 1)))).
    { intros f g Hfg. split; try done. cbn. by rewrite E4. }
    destruct (default [] (logs s !! txhash)) as [|l0 [|l1 l]]; constructor; cbn; apply Hl; intros h.
    + destruct (decide (txhash = h)) as [->|]; [by rewrite !lookup_delete_eq|by rewrite !lookup_delete_ne].
    + destruct (decide (txhash = h)) as [->|]; [by rewrite !lookup_insert_eq|by rewrite !lookup_insert_ne].
  - constructor. cbn. split; try done. cbn. by rewrite E5.
  - by constructor.
Qed.

(** ** Undoing a list of entries, newest first *)

Fixpoint undo (es : list journalEntry) (s : StateDB) : option StateDB :=
  match es with
  | [] => Some s
  | e :: es => match revert e s with Some (_, s) => undo es s | None => None end
  end.

Lemma undo_app es1 es2 s : undo (es1 ++ es2) s = undo es1 s ≫= undo es2.
Proof. revert s. induction es1 as [|e es1 IH]; intros s; [done|]. cbn. destruct (revert e s) as [[]|]; [apply IH|done]. Qed.

Lemma undo_eqv es s t : eqv s t → option_Forall2 eqv (undo es s) (undo es t).
Proof.
  revert s t. induction es as [|e es IH]; intros s t E; cbn; [by constructor|].
  destruct (revert_eqv e s t E) as [[[] s'] [[] t'] E'|]; [by apply IH|constructor].
Qed.

(** ** Dirty counters *)

(** How many entries of the journal an account dirtied. *)
Definition count (a : Z) (es : list journalEntry) : nat :=
  length (filter (λ e, dirtied e = Some a) es).

(** The counters agree with the entries, except for the account that [touch]
    marks by hand. *)
Definition jwf (j : journal) : Prop :=
  ∀ a, a ≠ ripemd →
    dirties j !! a = if decide (count a (entries j) = 0%nat) then None else Some (Z.of_nat (count a (entries j))).

Lemma count_cons a e es : count a (e :: es) = ((if decide (dirtied e = Some a) then 1 else 0) + count a es)%nat.
Proof. unfold count. rewrite filter_cons. by case_decide. Qed.

Lemma jwf_append e j : jwf j → jwf (journal_append e j).
Proof.
  intros Hj a Ha. specialize (Hj a Ha). unfold journal_append.
  destruct (dirtied e) as [b|] eqn:E; cbn [journal_dirty entries dirties]; rewrite count_cons, E.
  - destruct (decide (b = a)) as [->|Hne].
    + rewrite lookup_insert_eq, Hj, (decide_True (P := Some a = Some a)) by done.
      repeat case_decide; try lia; simpl; f_equal; lia.
    + rewrite lookup_insert_ne, Hj, (decide_False (P := Some b = Some a)) by congruence. done.
  - rewrite Hj, (decide_False (P := None = Some a)) by done. done.
Qed.

Lemma jwf_ripemd j : jwf j → jwf (journal_dirty ripemd j).
Proof. intros Hj a Ha. cbn. rewrite lookup_insert_ne by done. by apply Hj. Qed.

Lemma jwf_undirty e es d : jwf (mk_journal (e :: es) d) → jwf (mk_journal es (undirty e d)).
Proof.
  intros Hj a Ha. specialize (Hj a Ha). cbn [entries dirties] in *. rewrite count_cons in Hj. unfold undirty.
  destruct (dirtied e) as [b|] eqn:E.
  - destruct (decide (b = a)) as [->|Hne].
    + rewrite (decide_True (P := Some a = Some a)) in Hj by done. rewrite decide_False in Hj by lia.
      rewrite Hj. cbn [default from_option]. unfold id.
      destruct (Z.eqb_spec (Z.of_nat (1 + count a es) - 1) 0); case_decide; try lia.
      * by rewrite lookup_delete_eq.
      * rewrite lookup_insert_eq. f_equal. lia.
    + rewrite (decide_False (P := Some b = Some a)) in Hj by congruence. cbn [Nat.add] in Hj. rewrite <- Hj.
      destruct (_ =? 0); [by rewrite lookup_delete_ne|by rewrite lookup_insert_ne].
  - by rewrite (decide_False (P := None = Some a)) in Hj.
Qed.

(** ** Operations and their entries *)

Definition swf (s : StateDB) : Prop := is_u64 (logSize s) ∧ jwf (jrnl s).

(** [s'] is [s] after an operation whose new entries undo it. *)
Record reach (s s' : StateDB) : Prop := {
  r_undo : ∃ es, entries (jrnl s') = es ++ entries (jrnl s) ∧
    ∀ t, eqv t s' → ∃ t', undo es t = Some t' ∧ eqv t' s;
  r_revs : validRevisions s' = validRevisions s ∧ nextRevisionId s' = nextRevisionId s;
  r_swf : swf s';
}.

Lemma reach_trans s1 s2 s3 : reach s1 s2 → reach s2 s3 → reach s1 s3.
Proof.
  intros [(es1 & E1 & U1) [R1 N1] _] [(es2 & E2 & U2) [R2 N2] W]. split; [|split; congruence|done].
  exists (es2 ++ es1). split; [by rewrite E2, E1, app_assoc|]. intros t Ht.
  destruct (U2 t Ht) as (t2 & Eu2 & Ht2). destruct (U1 t2 Ht2) as (t1 & Eu1 & Ht1).
  exists t1. by rewrite undo_app, Eu2.
Qed.

Lemma reach_eqv s s' :
  swf s → eqv s' s → jrnl s' = jrnl s → validRevisions s' = validRevisions s →
  nextRevisionId s' = nextRevisionId s → reach s s'.
Proof.
  intros [W1 W2] E Ej Er En. split; [|done|].
  - exists []. rewrite Ej. split; [done|]. intros t Ht. exists t. split; [done|]. by etrans.
  - split; [by rewrite (e_logSize _ _ E)|by rewrite Ej].
Qed.

Lemma reach_entry e s s' :
  swf s → jrnl s' = journal_append e (jrnl s) → validRevisions s' = validRevisions s →
  nextRevisionId s' = nextRevisionId s → is_u64 (logSize s') →
  (∀ t, eqv t s' → ∃ t', revert e t = Some (tt, t') ∧ eqv t' s) → reach s s'.
Proof.
  intros [W1 W2] Ej Er En Hl Hu. split; [|done|].
  - exists [e]. rewrite Ej. split.
    + unfold journal_append. by destruct (dirtied e).
    + intros t Ht. destruct (Hu t Ht) as (t' & E & Ht'). exists t'. cbn. by rewrite E.
  - split; [done|]. rewrite Ej. by apply jwf_append.
Qed.

Lemma reach_cached a s : swf s → reach s (cached a s).
Proof.
  intros W. apply reach_eqv; [done|apply cached_eqv|..]; unfold cached; by destruct (eff s a).
Qed.

Lemma live_cached_eq s a b : live (cached a s) b = live s b.
Proof. unfold live. by rewrite eff_cached. Qed.

Lemma refund_cached a s : refund (cached a s) = refund s.
Proof. unfold cached. by destruct (eff s a). Qed.

(** The state after an entry is appended. *)
Definition logged (e : journalEntry) (s : StateDB) : StateDB := with_journal s (journal_append e (jrnl s)).

Lemma append_run e s : append e s = Some (tt, logged e s).
Proof. done. Qed.

Lemma live_put a o s : deleted o = false → live (put a o s) a = Some o.
Proof. intros E. unfold live, put. rewrite eff_insert, decide_True by done. by rewrite E. Qed.

(** A change of one live object, undone by [g]. *)
Lemma reach_object e a f g o s :
  swf s → (∀ t, revert e t = on_object a g t) → live s a = Some o → deleted (f o) = false →
  (∀ o o', obj_eqv a o o' → obj_eqv a (g o) (g o')) → obj_eqv a (g (f o)) o →
  reach s (put a (f o) (logged e s)).
Proof.
  intros W He Hl Hd Hg Ho. apply (reach_entry e); try done; [apply W|].
  intros t Ht. rewrite He, on_object_run.
  pose proof (live_eqv _ _ a Ht) as Hlt. rewrite live_put in Hlt by done.
  inversion Hlt as [o1 ? Ho1 E1|]; subst. eexists. split; [done|].
  transitivity (put a (g (f o)) (put a (f o) (logged e s))); [by apply put_eqv; auto|].
  unfold live in Hl. destruct (eff s a) as [o'|] eqn:Ee; [|done]. destruct (deleted o'); [done|]. injection Hl as ->.
  transitivity (put a (g (f o)) s); [|by eapply put_back].
  apply eqv_frame; try done. cbn. by rewrite insert_insert_eq.
Qed.

(** A fresh object under the entry that remembers what was there. *)
Definition create_entry (a : Z) (s : StateDB) : journalEntry :=
  match eff s a with None => createObjectChange a | Some prev => resetObjectChange a prev end.

Lemma reach_create a o s : swf s → reach s (put a o (logged (create_entry a s) (cached a s))).
Proof.
  intros W. pose proof (reach_cached a s W) as Hc. pose proof (r_swf _ _ Hc) as Wc.
  eapply reach_trans; [exact Hc|]. set (c := cached a s).
  apply (reach_entry (create_entry a s)); try done; [apply Wc|].
  intros t Ht. unfold create_entry. destruct (eff s a) as [prev|] eqn:E; cbn [revert].
  - eexists. split; [done|].
    transitivity (put a prev (put a o (logged (create_entry a s) c))); [by apply put_eqv|].
    transitivity (put a prev c); [apply eqv_frame; try done; cbn; by rewrite insert_insert_eq|].
    eapply put_back; [|done]. unfold c. by rewrite eff_cached.
  - eexists. split; [done|]. pose proof Ht as [E1 E2 E3 E4 E5 E6].
    split; try done. intros b. unfold eff at 1. cbn.
    destruct (decide (a = b)) as [->|Hne].
    + rewrite lookup_delete_eq. unfold c. rewrite eff_cached, E. unfold eff in E.
      destruct (stateObjects s !! b); [done|]. rewrite E. constructor.
    + rewrite lookup_delete_ne by done. specialize (E1 b). unfold put in E1.
      rewrite eff_insert, decide_False in E1 by done. exact E1.
Qed.

Lemma SM_bind_Some {A B} (m : SM A) (k : A → SM B) s b s' :
  (m ≫= k) s = Some (b, s') ↔ ∃ a s1, m s = Some (a, s1) ∧ k a s1 = Some (b, s').
Proof.
  unfold mbind, SM_bind. destruct (m s) as [[a s1]|].
  - split; [eauto|]. by intros (a' & s1' & [= <- <-] & E).
  - split; [done|]. by intros (a' & s1' & ? & _).
Qed.

Lemma createObject_run a s :
  createObject a s = Some ((setNonce blank 0, eff s a),
    put a (setNonce blank 0) (logged (create_entry a s) (cached a s))).
Proof.
  unfold createObject, create_entry, mbind, SM_bind. rewrite getDeletedStateObject_run.
  by destruct (eff s a).
Qed.

Lemma GetOrNewStateObject_reach a s o s' :
  swf s → GetOrNewStateObject a s = Some (o, s') → reach s s' ∧ live s' a = Some o.
Proof.
  intros W. unfold GetOrNewStateObject, mbind, SM_bind. rewrite getStateObject_run.
  pose proof (reach_cached a s W) as Hc. destruct (live s a) as [o'|] eqn:El.
  - intros [= <- <-]. split; [done|]. unfold live in *. by rewrite eff_cached.
  - rewrite createObject_run. intros [= <- <-].
    split; [|by apply live_put]. eapply reach_trans; [exact Hc|]. apply reach_create, Hc.
Qed.

Lemma obj_SetBalance_reach a o x s s' :
  swf s → live s a = Some o → obj_SetBalance a o x s = Some (tt, s') → reach s s'.
Proof.
  intros W Hl [= <-]. apply (reach_object (balanceChange a (Balance (data o))) a (λ o, setBalance o x)
    (λ o', setBalance o' (Balance (data o))) o s W); try done.
  - unfold live in Hl. destruct (eff s a) as [o'|]; [|done]. destruct (deleted o') eqn:E; [done|]. by injection Hl as <-.
  - intros. by apply setBalance_eqv.
  - split; try done. cbn. by destruct (data o).
Qed.

Lemma live_deleted s a o : live s a = Some o → deleted o = false ∧ eff s a = Some o.
Proof.
  unfold live. destruct (eff s a) as [o'|]; [|done]. destruct (deleted o') eqn:E; [done|]. by intros [= <-].
Qed.

Lemma put_live s a o b :
  deleted o = false → live (put a o s) b = if decide (b = a) then Some o else live s b.
Proof.
  intros Hd. unfold live, put. rewrite eff_insert. destruct (decide (a = b)) as [->|].
  - rewrite Hd. by rewrite decide_True.
  - by rewrite decide_False by done.
Qed.

Lemma live_not_deleted s a o : live s a = Some o → deleted o = false.
Proof. apply live_deleted. Qed.

Lemma touch_reach a s s' : swf s → touch a s = Some (tt, s') → reach s s'.
Proof.
  intros W. unfold touch, mbind, SM_bind. rewrite append_run.
  assert (Hr : reach s (logged (touchChange a) s)).
  { apply (reach_entry (touchChange a)); try done; [apply W|]. intros t Ht. exists t. split; [done|].
    rewrite Ht. by apply eqv_frame. }
  destruct (Z.eqb_spec a ripemd) as [->|]; intros [= <-]; [|done].
  destruct Hr as [(es & E & U) R [W1 W2]]. split; [|done|].
  - exists es. split; [done|]. intros t Ht. apply U. rewrite Ht. by apply eqv_frame.
  - split; [done|]. by apply jwf_ripemd.
Qed.

Lemma SetBalance_reach a x s s' : swf s → SetBalance a x s = Some (tt, s') → reach s s'.
Proof.
  intros W (o & s1 & [Hr Hl]%GetOrNewStateObject_reach & E)%SM_bind_Some; [|done].
  eapply reach_trans; [exact Hr|]. eapply obj_SetBalance_reach; [apply Hr|done|done].
Qed.

Lemma AddBalance_reach a x s s' : swf s → AddBalance a x s = Some (tt, s') → reach s s'.
Proof.
  intros W (o & s1 & [Hr Hl]%GetOrNewStateObject_reach & E)%SM_bind_Some; [|done].
  eapply reach_trans; [exact Hr|]. pose proof (r_swf _ _ Hr) as W1.
  destruct (x =? 0); [destruct (empty o)|].
  - by eapply touch_reach.
  - injection E as <-. by apply reach_eqv.
  - by eapply obj_SetBalance_reach.
Qed.

Lemma SubBalance_reach a x s s' : swf s → SubBalance a x s = Some (tt, s') → reach s s'.
Proof.
  intros W (o & s1 & [Hr Hl]%GetOrNewStateObject_reach & E)%SM_bind_Some; [|done].
  eapply reach_trans; [exact Hr|]. pose proof (r_swf _ _ Hr) as W1.
  destruct (x =? 0); [injection E as <-; by apply reach_eqv|]. by eapply obj_SetBalance_reach.
Qed.

Lemma SetNonce_reach a x s s' : swf s → SetNonce a x s = Some (tt, s') → reach s s'.
Proof.
  intros W (o & s1 & [Hr Hl]%GetOrNewStateObject_reach & E)%SM_bind_Some; [|done].
  eapply reach_trans; [exact Hr|]. injection E as <-.
  apply (reach_object (nonceChange a (Nonce (data o))) a (λ o, setNonce o x)
    (λ o', setNonce o' (Nonce (data o))) o s1 (r_swf _ _ Hr)); try done.
  - by apply live_deleted in Hl as [].
  - intros. by apply setNonce_eqv.
  - split; try done. cbn. by destruct (data o).
Qed.

(** Loading code or a storage word changes caches only. *)
Lemma Code_reach a o s c s' :
  swf s → live s a = Some o → Code a o s = Some (c, s') →
  reach s s' ∧ c = code_of o ∧ ∃ o', live s' a = Some o' ∧ obj_eqv a o' o.
Proof.
  intros W Hl. destruct (live_deleted _ _ _ Hl) as [Hd He]. unfold Code, code_of.
  destruct (code o) as [c0|] eqn:Ec; [|destruct (CodeHash (data o) =? emptyCodeHash) eqn:Eh].
  - intros [= <- <-]. split_and!; [by apply reach_eqv|done|]. by exists o.
  - intros [= <- <-]. split_and!; [by apply reach_eqv|done|]. by exists o.
  - intros [= <- <-]. set (o' := set_code_cache o (ContractCode (CodeHash (data o)))).
    assert (Ho : obj_eqv a o' o).
    { split; try done. unfold code_of. cbn. rewrite Ec, Eh. by destruct (ContractCode _). }
    split_and!; [|done|].
    + apply reach_eqv; try done. by eapply put_back.
    + exists o'. split; [by apply live_put|done].
Qed.

Lemma GetCommittedState_reach a o k s v s' :
  swf s → live s a = Some o → obj_GetCommittedState a o k s = Some (v, s') →
  reach s s' ∧ v = committed a o k ∧ ∃ o', live s' a = Some o' ∧ obj_eqv a o' o.
Proof.
  intros W Hl. destruct (live_deleted _ _ _ Hl) as [Hd He].
  unfold obj_GetCommittedState, committed. destruct (pendingStorage o !! k) as [v0|] eqn:E2.
  { intros [= <- <-]. split_and!; [by apply reach_eqv|done|]. by exists o. }
  destruct (originStorage o !! k) as [v0|] eqn:E3.
  { intros [= <- <-]. split_and!; [by apply reach_eqv|done|]. by exists o. }
  intros [= <- <-]. set (o' := set_origin o _).
  assert (Hc : ∀ k, committed a o' k = committed a o k).
  { intros k'. unfold committed. cbn. destruct (pendingStorage o !! k'); [done|].
    destruct (decide (k = k')) as [->|]; [by rewrite lookup_insert_eq, E3|by rewrite lookup_insert_ne]. }
  assert (Ho : obj_eqv a o' o).
  { split; try done. intros k'. unfold current. cbn. by rewrite Hc. }
  split_and!; [|done|].
  - apply reach_eqv; try done. by eapply put_back.
  - exists o'. split; [by apply live_put|done].
Qed.

Lemma GetState_reach a o k s v s' :
  swf s → live s a = Some o → obj_GetState a o k s = Some (v, s') →
  reach s s' ∧ v = current a o k ∧ ∃ o', live s' a = Some o' ∧ obj_eqv a o' o.
Proof.
  intros W Hl. unfold obj_GetState, current. destruct (dirtyStorage o !! k) as [v0|]; [|by apply GetCommittedState_reach].
  intros [= <- <-]. split_and!; [by apply reach_eqv|done|]. by exists o.
Qed.

Lemma SetCode_reach a c s s' : swf s → SetCode a c s = Some (tt, s') → reach s s'.
Proof.
  intros W (o & s1 & [Hr Hl]%GetOrNewStateObject_reach & E)%SM_bind_Some; [|done].
  apply SM_bind_Some in E as (prev & s2 & [Hr2 (-> & o' & Hl' & Ho)]%Code_reach & E); [|apply Hr|done].
  eapply reach_trans; [exact Hr|]. eapply reach_trans; [exact Hr2|].
  apply SM_bind_Some in E as ([] & s3 & [= <-] & E). rewrite on_object_run in E.
  destruct (live_deleted _ _ _ Hl') as [Hd' He'].
  assert (Hl3 : live (logged (codeChange a (code_of o) (CodeHash (data o))) s2) a = Some o') by done.
  change (with_journal s2 _) with (logged (codeChange a (code_of o) (CodeHash (data o))) s2) in E.
  rewrite Hl3 in E. injection E as <-.
  apply (reach_object (codeChange a (code_of o) (CodeHash (data o))) a
    (λ o, setCode o (Keccak256Hash (default [] c)) c)
    (λ o', setCode o' (CodeHash (data o)) (code_of o)) o' s2 (r_swf _ _ Hr2)); try done.
  - intros. by apply setCode_eqv.
  - destruct Ho as [Ed Es El Ec Et Eo]. split; try done.
    + cbn. rewrite Ed. by destruct (data o).
    + rewrite Eo. unfold code_of at 1. cbn. destruct (code_of o) eqn:Eco; [done|].
      unfold code_of in Eco. by destruct (code o).
Qed.

Lemma SetState_reach a k v s s' : swf s → SetState a k v s = Some (tt, s') → reach s s'.
Proof.
  intros W (o & s1 & [Hr Hl]%GetOrNewStateObject_reach & E)%SM_bind_Some; [|done].
  apply SM_bind_Some in E as (prev & s2 & [Hr2 (-> & o' & Hl' & Ho)]%GetState_reach & E); [|apply Hr|done].
  eapply reach_trans; [exact Hr|]. eapply reach_trans; [exact Hr2|].
  destruct (_ =? v); [injection E as <-; by apply reach_eqv; [apply Hr2|..]|].
  apply SM_bind_Some in E as ([] & s3 & [= <-] & E). rewrite on_object_run in E.
  destruct (live_deleted _ _ _ Hl') as [Hd' He'].
  change (with_journal s2 _) with (logged (storageChange a k (current a o k)) s2) in E.
  assert (Hl3 : live (logged (storageChange a k (current a o k)) s2) a = Some o') by done.
  rewrite Hl3 in E. injection E as <-.
  apply (reach_object (storageChange a k (current a o k)) a (λ o, setState o k v)
    (λ o', setState o' k (current a o k)) o' s2 (r_swf _ _ Hr2)); try done.
  - intros. by apply setState_eqv.
  - split; try done. intros k'. unfold current at 1. cbn.
    destruct (decide (k = k')) as [->|].
    + rewrite lookup_insert_eq. cbn. symmetry. apply Ho.
    + by rewrite !lookup_insert_ne.
Qed.

Lemma Suicide_reach a s b s' : swf s → Suicide a s = Some (b, s') → reach s s'.
Proof.
  intros W (o & s1 & E1 & E)%SM_bind_Some. rewrite getStateObject_run in E1. injection E1 as <- <-.
  pose proof (reach_cached a s W) as Hc. eapply reach_trans; [exact Hc|]. pose proof (r_swf _ _ Hc) as W1.
  assert (Hl : live (cached a s) a = live s a) by (unfold live; by rewrite eff_cached).
  destruct (live s a) as [o|]; [|injection E as <- <-; by apply reach_eqv].
  destruct (live_deleted _ _ _ Hl) as [Hd He]. injection E as <- <-. set (c := cached a s) in *.
  set (e := suicideChange a (suicided o) (Balance (data o))). set (o1 := setBalance (set_suicided o true) 0).
  apply (reach_entry e); try done; [apply W1|]. intros t Ht.
  pose proof (live_eqv _ _ a Ht) as Hlt. change (with_objects _ _) with (put a o1 (logged e c)) in Hlt.
  rewrite live_put in Hlt by done. inversion Hlt as [o2 ? Ho2 E2|]; subst.
  eexists. split.
  - unfold e. cbn [revert]. unfold mbind, SM_bind. rewrite getStateObject_run, <- E2.
    by rewrite setStateObject_run, put_cached.
  - transitivity (put a (setBalance (set_suicided o1 (suicided o)) (Balance (data o))) (put a o1 (logged e c))).
    { apply put_eqv; [done|]. by apply setBalance_eqv, set_suicided_eqv. }
    transitivity (put a (setBalance (set_suicided o1 (suicided o)) (Balance (data o))) c).
    { apply eqv_frame; try done. cbn. by rewrite insert_insert_eq. }
    eapply put_back; [exact He|]. split; try done. cbn. by destruct (data o).
Qed.

Lemma CreateAccount_reach a s s' : swf s → CreateAccount a s = Some (tt, s') → reach s s'.
Proof.
  intros W ([new prev] & s1 & E1 & E)%SM_bind_Some. rewrite createObject_run in E1. injection E1 as <- <- <-.
  destruct (eff s a) as [prev|]; injection E as <-; [|by apply reach_create].
  set (o := setBalance (setNonce blank 0) (Balance (data prev))). pose proof (reach_create a o s W) as Hr.
  replace (with_objects _ _) with (put a o (logged (create_entry a s) (cached a s))); [exact Hr|].
  unfold put, with_objects. cbn. by rewrite insert_insert_eq.
Qed.

Lemma AddRefund_reach g s s' : swf s → AddRefund g s = Some (tt, s') → reach s s'.
Proof.
  intros W [= <-]. apply (reach_entry (refundChange (refund s))); try done; [apply W|].
  intros t [E1 E2 E3 E4 E5 E6]. eexists. split; [done|]. by split.
Qed.

Lemma SubRefund_reach g s s' : swf s → SubRefund g s = Some (tt, s') → reach s s'.
Proof.
  intros W. unfold SubRefund, mbind, SM_bind, get. rewrite append_run. destruct (_ <? _); [done|]. intros [= <-].
  apply (reach_entry (refundChange (refund s))); try done; [apply W|].
  intros t [E1 E2 E3 E4 E5 E6]. eexists. split; [done|]. by split.
Qed.

Lemma AddPreimage_reach h b s s' : swf s → AddPreimage h b s = Some (tt, s') → reach s s'.
Proof.
  intros W. unfold AddPreimage, mbind, SM_bind, get. destruct (preimages s !! h) eqn:E; intros [= <-]; [by apply reach_eqv|].
  apply (reach_entry (addPreimageChange h)); try done; [apply W|].
  intros t [E1 E2 E3 E4 E5 E6]. eexists. split; [done|]. split; try done. cbn in *. rewrite E5. by rewrite delete_insert_id.
Qed.

Lemma AddLog_reach lg s s' : swf s → AddLog lg s = Some (tt, s') → reach s s'.
Proof.
  intros W [= <-]. apply (reach_entry (addLogChange (thash s))); try done; [apply u64_range|].
  intros t [E1 E2 E3 E4 E5 E6]. cbn in E3, E4. cbn [revert]. unfold mbind, SM_bind, get.
  pose proof (E3 (thash s)) as El. rewrite lookup_insert_eq in El.
  change (default [] (Some ?l)) with l in El.
  set (old := default [] (logs s !! thash s)) in *. rewrite El.
  assert (Hn : u64 (logSize t - 1) = logSize s).
  { rewrite E4. pose proof (proj1 W) as Hr. unfold u64, is_u64, two64 in *.
    rewrite Zminus_mod_idemp_l. replace (logSize s + 1 - 1) with (logSize s) by lia. by apply Z.mod_small. }
  assert (Hgen : ∀ f : gmap Z (list Log), default [] (f !! thash s) = old →
      (∀ h, h ≠ thash s → f !! h = logs t !! h) → eqv (with_logs t f (u64 (logSize t - 1))) s).
  { intros f H1 H2. split; try done. intros h. cbn. destruct (decide (h = thash s)) as [->|Hne]; [by rewrite H1|].
    rewrite H2 by done. specialize (E3 h). by rewrite lookup_insert_ne in E3. }
  destruct old as [|l0 old']; cbn [app].
  - eexists. split; [done|]. apply Hgen; [by rewrite lookup_delete_eq|]. intros h Hh. by rewrite lookup_delete_ne.
  - destruct (old' ++ [_]) eqn:Eo; [by destruct old'|]. rewrite <- Eo.
    eexists. split; [done|]. apply Hgen.
    + rewrite lookup_insert_eq. change (default [] (Some ?l)) with l. cbn [length]. rewrite length_app. cbn [length].
      replace (S (length old' + 1) - 1)%nat with (S (length old')) by lia. cbn [take].
      f_equal. by rewrite take_app_length.
    + intros h Hh. by rewrite lookup_insert_ne.
Qed.

(** ** Sequences of operations *)

Inductive op :=
  | OAddBalance (a x : Z) | OSubBalance (a x : Z) | OSetBalance (a x : Z) | OSetNonce (a n : Z)
  | OSetCode (a : Z) (c : option bytes) | OSetState (a k v : Z) | OSuicide (a : Z)
  | OCreateAccount (a : Z) | OAddRefund (g : Z) | OSubRefund (g : Z) | OAddLog (lg : Log)
  | OAddPreimage (h : Z) (b : bytes) | OExist (a : Z) | OSnapshot | ORevert (id : Z).

Definition exec (o : op) : SM unit :=
  match o with
  | OAddBalance a x => AddBalance a x
  | OSubBalance a x => SubBalance a x
  | OSetBalance a x => SetBalance a x
  | OSetNonce a n => SetNonce a n
  | OSetCode a c => SetCode a c
  | OSetState a k v => SetState a k v
  | OSuicide a => Suicide a;; mret tt
  | OCreateAccount a => CreateAccount a
  | OAddRefund g => AddRefund g
  | OSubRefund g => SubRefund g
  | OAddLog lg => AddLog lg
  | OAddPreimage h b => AddPreimage h b
  | OExist a => Exist a;; mret tt
  | OSnapshot => Snapshot;; mret tt
  | ORevert id => RevertToSnapshot id
  end.

Fixpoint exec_all (os : list op) : SM unit :=
  match os with
  | [] => mret tt
  | o :: os => exec o;; exec_all os
  end.

Definition is_write (o : op) : bool := match o with OSnapshot | ORevert _ => false | _ => true end.

Lemma exec_reach o s s' : swf s → is_write o = true → exec o s = Some (tt, s') → reach s s'.
Proof.
  intros W Hw. destruct o; cbn [exec]; try done.
  - by apply AddBalance_reach.
  - by apply SubBalance_reach.
  - by apply SetBalance_reach.
  - by apply SetNonce_reach.
  - by apply SetCode_reach.
  - by apply SetState_reach.
  - intros (b & s1 & E & [= <-])%SM_bind_Some. by eapply Suicide_reach.
  - by apply CreateAccount_reach.
  - by apply AddRefund_reach.
  - by apply SubRefund_reach.
  - by apply AddLog_reach.
  - by apply AddPreimage_reach.
  - intros (b & s1 & (o & s2 & E & [= <- <-])%SM_bind_Some & [= <-])%SM_bind_Some.
    rewrite getStateObject_run in E. injection E as <- <-. by apply reach_cached.
Qed.

(** ** Reverting the journal *)

Lemma revert_frame e s s' :
  revert e s = Some (tt, s') →
  jrnl s' = jrnl s ∧ validRevisions s' = validRevisions s ∧ nextRevisionId s' = nextRevisionId s ∧
  (is_u64 (logSize s) → is_u64 (logSize s')).
Proof.
  assert (Ho : ∀ a f, on_object a f s = Some (tt, s') →
    jrnl s' = jrnl s ∧ validRevisions s' = validRevisions s ∧ nextRevisionId s' = nextRevisionId s ∧
    (is_u64 (logSize s) → is_u64 (logSize s'))).
  { intros a f. rewrite on_object_run. destruct (live s a); [|done]. by intros [= <-]. }
  destruct e; cbn [revert]; eauto; try (by intros [= <-]).
  - unfold mbind, SM_bind. rewrite getStateObject_run. unfold cached.
    destruct (live s account), (eff s account); by intros [= <-].
  - unfold mbind, SM_bind, get. destruct (default [] _) as [|l0 [|l1 l]]; [done|..];
      intros [= <-]; (split_and!; [done..|]); intros _; apply u64_range.
Qed.

Lemma journal_revert_spec es base s t :
  entries (jrnl s) = es ++ base → undo es s = Some t → swf s →
  ∃ s', journal_revert (length es) s = Some (tt, s') ∧ eqv s' t ∧ entries (jrnl s') = base ∧
    validRevisions s' = validRevisions s ∧ nextRevisionId s' = nextRevisionId s ∧ swf s'.
Proof.
  revert s t. induction es as [|e es IH]; intros s t Ee Hu W.
  { injection Hu as <-. exists s. by split_and!. }
  cbn [undo] in Hu. destruct (revert e s) as [[[] s1]|] eqn:Er; [|done].
  destruct (revert_frame e s s1 Er) as (Ej & Ev & En & Hl).
  cbn [journal_revert length]. unfold mbind, SM_bind, get. rewrite Ee, <- app_comm_cons, Er. unfold modify.
  set (s1' := with_journal s1 _).
  assert (Es1 : eqv s1 s1') by (symmetry; by apply eqv_frame).
  pose proof (undo_eqv es s1 s1' Es1) as Hu'. rewrite Hu in Hu'. inversion Hu' as [? t' Ht E1 E2|]; subst.
  assert (Ee' : entries (jrnl s1') = es ++ base) by (cbn; by rewrite Ej, Ee).
  destruct (IH s1' t' Ee' (eq_sym E2)) as (s' & Er' & Hs' & Hb & Hv & Hn & W').
  { destruct W as [W1 W2]. split; [apply Hl, W1|]. cbn. rewrite Ej. destruct (jrnl s) as [en d]. cbn in *. subst en.
    cbn. by apply jwf_undirty. }
  exists s'. split_and!; [done|by etrans|done| | |done]; [by rewrite Hv|by rewrite Hn].
Qed.

(** ** Revisions *)

Definition rev_lt (r r' : revision) : Prop := rev_id r < rev_id r' ∧ (journalIndex r <= journalIndex r')%nat.

Record revs_wf (s : StateDB) : Prop := {
  rw_sorted : StronglySorted rev_lt (validRevisions s);
  rw_bound : Forall (λ r, rev_id r < nextRevisionId s ∧ (journalIndex r <= length_ s)%nat) (validRevisions s);
}.

Lemma sort_search_spec fuel n lo hi f k :
  (∀ h, (h < n)%nat → f h = (k <=? h)%nat) → (lo <= k <= hi)%nat → (hi <= n)%nat → (hi - lo < fuel)%nat →
  sort_search fuel lo hi f = k.
Proof.
  intros Hf. revert lo hi. induction fuel as [|fuel IH]; intros lo hi Hk Hn Hfuel; [lia|]. cbn [sort_search].
  destruct (Nat.ltb_spec lo hi); [|lia].
  assert (Hm : (lo <= (lo + hi) / 2 < hi)%nat).
  { split; [apply Nat.div_le_lower_bound; lia|apply Nat.Div0.div_lt_upper_bound; lia]. }
  rewrite Hf by lia. destruct (Nat.leb_spec k ((lo + hi) / 2)); apply IH; lia.
Qed.

Lemma sorted_lookup revs i j r r' :
  StronglySorted rev_lt revs → revs !! i = Some r → revs !! j = Some r' → (i < j)%nat → rev_lt r r'.
Proof.
  intros Hs. revert i j. induction Hs as [|x revs Hs IH Hx]; intros i j Hi Hj Hij; [done|].
  destruct i as [|i], j as [|j]; try lia; cbn in *.
  - injection Hi as <-. by eapply Forall_lookup_1.
  - eapply IH; [done|done|lia].
Qed.

Lemma search_found revs k r :
  StronglySorted rev_lt revs → revs !! k = Some r →
  sort_search (S (length revs)) 0 (length revs)
    (λ i, match revs !! i with Some r' => rev_id r <=? rev_id r' | None => false end) = k.
Proof.
  intros Hs Hk. pose proof (lookup_lt_Some _ _ _ Hk). apply (sort_search_spec _ (length revs)); try lia.
  intros h Hh. destruct (lookup_lt_is_Some_2 _ _ Hh) as [r' Hr']. rewrite Hr'.
  destruct (Nat.leb_spec k h) as [Hle|Hlt].
  - apply Z.leb_le. destruct (decide (k = h)) as [->|]; [rewrite Hk in Hr'; injection Hr' as <-; lia|].
    destruct (sorted_lookup revs k h r r' Hs Hk Hr' ltac:(lia)). lia.
  - apply Z.leb_gt. destruct (sorted_lookup revs h k r' r Hs Hr' Hk ltac:(lia)). lia.
Qed.

(** What holds between a snapshot of [s0] and its revert. *)
Record since (s0 : StateDB) (id : Z) (s : StateDB) : Prop := {
  si_revs : ∃ revs, validRevisions s = validRevisions s0 ++ mk_revision id (length_ s0) :: revs;
  si_wf : revs_wf s;
  si_undo : ∃ es t, entries (jrnl s) = es ++ entries (jrnl s0) ∧ undo es s = Some t ∧ eqv t s0;
  si_swf : swf s;
}.

Lemma revs_wf_reach s s' : revs_wf s → reach s s' → revs_wf s'.
Proof.
  intros [H1 H2] [(es & Ee & _) [Rv Rn] _]. split; [by rewrite Rv|]. rewrite Rv, Rn. eapply Forall_impl; [exact H2|].
  intros r [? ?]. split; [done|]. unfold length_ in *. rewrite Ee, length_app. lia.
Qed.

Lemma since_write s0 id s s' : since s0 id s → reach s s' → since s0 id s'.
Proof.
  intros [Hr Hw (es & t & Ee & Eu & Et) Hs] Hre. pose proof Hre as [(es' & Ee' & Hu') [Rv Rn] W']. split.
  - by rewrite Rv.
  - by eapply revs_wf_reach.
  - destruct (Hu' s' ltac:(done)) as (t1 & E1 & H1). pose proof (undo_eqv es t1 s H1) as Hp. rewrite Eu in Hp.
    inversion Hp as [t2 ? Ht2 E2|]; subst. exists (es' ++ es), t2. split_and!.
    + by rewrite Ee', Ee, app_assoc.
    + by rewrite undo_app, E1.
    + by etrans.
  - done.
Qed.

Lemma since_snapshot s0 id s b s' : since s0 id s → Snapshot s = Some (b, s') → since s0 id s'.
Proof.
  intros [(revs & Er) [H1 H2] Hu Hs] [= <- <-]. split.
  - exists (revs ++ [mk_revision (nextRevisionId s) (length_ s)]). cbn. rewrite Er, <- app_assoc. done.
  - split; cbn.
    + apply StronglySorted_app_2; [|done|by repeat constructor]. intros r r' Hr ->%list_elem_of_singleton.
      rewrite Forall_forall in H2. destruct (H2 r Hr). split; cbn; [lia|done].
    + apply Forall_app. split; [|repeat constructor; cbn; lia].
      eapply Forall_impl; [exact H2|]. intros r [? ?]. split; cbn; [lia|done].
  - destruct Hu as (es & t & Ee & Eu & Et).
    assert (Ev : eqv s (with_revisions s (validRevisions s ++ [mk_revision (nextRevisionId s) (length_ s)])
      (nextRevisionId s + 1))) by (symmetry; by apply eqv_frame).
    pose proof (undo_eqv es _ _ Ev) as Hp. rewrite Eu in Hp. inversion Hp as [? t2 Ht2 E1 E2|]; subst.
    exists es, t2. split_and!; [done|done|]. rewrite <- Et. by symmetry.
  - done.
Qed.

(** Undoing back to a revision [r] at position [idx]. *)
Lemma revert_to s0 id s idx r :
  since s0 id s → validRevisions s !! idx = Some r → (length (validRevisions s0) <= idx)%nat →
  ∃ s', journal_revert (length_ s - journalIndex r) s = Some (tt, s') ∧
    (∃ es t, entries (jrnl s') = es ++ entries (jrnl s0) ∧ length_ s' = journalIndex r ∧
      undo es s' = Some t ∧ eqv t s0) ∧
    validRevisions s' = validRevisions s ∧ nextRevisionId s' = nextRevisionId s ∧ swf s'.
Proof.
  intros [(revs & Er) [H1 H2] (es & t & Ee & Eu & Et) Hs] Hidx Hpos.
  assert (Hr : (length_ s0 <= journalIndex r <= length_ s)%nat).
  { rewrite Forall_forall in H2. destruct (H2 r ltac:(by eapply list_elem_of_lookup_2)) as [_ Hle].
    split; [|done]. assert (Hk : validRevisions s !! length (validRevisions s0) = Some (mk_revision id (length_ s0))).
    { rewrite Er, lookup_app_r, Nat.sub_diag by lia. done. }
    destruct (decide (idx = length (validRevisions s0))) as [->|].
    - rewrite Hk in Hidx. by injection Hidx as <-.
    - apply (sorted_lookup _ _ _ _ _ H1 Hk Hidx). lia. }
  unfold length_ in Hr at 2. rewrite Ee, length_app in Hr. unfold length_ in Hr at 1.
  set (n := (length_ s - journalIndex r)%nat).
  assert (Hn : (n <= length es)%nat) by (unfold n, length_; rewrite Ee, length_app; lia).
  rewrite <- (take_drop n es), <- app_assoc in Ee. rewrite <- (take_drop n es), undo_app in Eu.
  destruct (undo (take n es) s) as [t1|] eqn:E1; [|done]. cbn in Eu.
  destruct (journal_revert_spec _ _ s t1 Ee E1 Hs) as (s' & Ej & Hs' & Hb & Hv & Hnx & W).
  rewrite length_take, Nat.min_l in Ej by done. exists s'. split_and!; try done.
  pose proof (undo_eqv (drop n es) s' t1 Hs') as Hp. rewrite Eu in Hp. inversion Hp as [t2 ? Ht2 E2|]; subst.
  exists (drop n es), t2. split_and!; try done; [|by etrans].
  unfold length_. rewrite Hb, length_app, length_drop. unfold n, length_. rewrite Ee.
  rewrite !length_app, length_take, length_drop. lia.
Qed.

Lemma since_position s0 id s idx r :
  since s0 id s → validRevisions s !! idx = Some r → id < rev_id r → (length (validRevisions s0) < idx)%nat.
Proof.
  intros [(revs & Er) [H1 _] _ _] Hidx Hid.
  assert (Hk : validRevisions s !! length (validRevisions s0) = Some (mk_revision id (length_ s0))).
  { rewrite Er, lookup_app_r, Nat.sub_diag by lia. done. }
  destruct (decide (length (validRevisions s0) < idx)%nat); [done|exfalso].
  destruct (decide (idx = length (validRevisions s0))) as [->|].
  - rewrite Hk in Hidx. injection Hidx as <-. cbn in Hid. lia.
  - destruct (sorted_lookup _ _ _ _ _ H1 Hidx Hk ltac:(lia)). cbn in *. lia.
Qed.

(** A revert to a later snapshot stays after the first one. *)
Lemma since_revert s0 id s i s' :
  since s0 id s → id < i → RevertToSnapshot i s = Some (tt, s') → since s0 id s'.
Proof.
  intros Hsi Hid. unfold RevertToSnapshot, mbind, SM_bind, get.
  set (idx := sort_search _ _ _ _). clearbody idx. destruct (validRevisions s !! idx) as [r|] eqn:Eidx; [|done].
  destruct (Z.eqb_spec (rev_id r) i) as [<-|]; [|done].
  pose proof (since_position _ _ _ _ _ Hsi Eidx Hid) as Hpos.
  destruct (revert_to s0 id s idx r Hsi Eidx ltac:(lia)) as (s1 & E1 & (es & t & Ee & El & Eu & Et) & Hv & Hn & W).
  rewrite E1. unfold modify. intros [= <-]. destruct Hsi as [(revs & Er) [H1 H2] _ _]. split.
  - exists (take (idx - S (length (validRevisions s0))) revs). cbn. rewrite Hv, Er.
    rewrite take_app_ge by lia. f_equal.
    by replace (idx - length (validRevisions s0))%nat with (S (idx - S (length (validRevisions s0)))) by lia.
  - split; cbn; rewrite Hv.
    + rewrite <- (take_drop idx (validRevisions s)) in H1. by apply StronglySorted_app_1_l in H1.
    + apply Forall_lookup. intros j rj Hj. apply lookup_take_Some in Hj as [Hj Hlt]. rewrite Forall_lookup in H2.
      split; [rewrite Hn; by apply (H2 j)|]. change (length_ _) with (length_ s1). rewrite El.
      apply (sorted_lookup _ _ _ _ _ H1 Hj Eidx). lia.
  - assert (Ev : eqv s1 (with_revisions s1 (take idx (validRevisions s1)) (nextRevisionId s1)))
      by (symmetry; by apply eqv_frame).
    pose proof (undo_eqv es _ _ Ev) as Hp. rewrite Eu in Hp. inversion Hp as [? t2 Ht2 E2 E3|]; subst.
    exists es, t2. split_and!; [done|done|]. rewrite <- Et. by symmetry.
  - done.
Qed.

(** Reverts inside the sequence stay above the snapshot. *)
Definition above (id : Z) (o : op) : Prop := match o with ORevert i => id < i | _ => True end.

Lemma since_all s0 id os s s' :
  since s0 id s → Forall (above id) os → exec_all os s = Some (tt, s') → since s0 id s'.
Proof.
  intros Hs Ho. revert s Hs. induction Ho as [|o os Ho _ IH]; intros s Hs; [by intros [= <-]|].
  cbn [exec_all]. intros ([] & s1 & E1 & E2)%SM_bind_Some. apply (IH s1); [|done].
  destruct (is_write o) eqn:Ew; [eapply since_write; [done|]; eapply exec_reach; [apply Hs|done..]|].
  destruct o; try done; cbn [exec] in E1.
  - apply SM_bind_Some in E1 as (b & s2 & E & [= <-]). by eapply since_snapshot.
  - by eapply since_revert.
Qed.

Lemma since_start s id s1 :
  swf s → revs_wf s → Snapshot s = Some (id, s1) → id = nextRevisionId s ∧ since s id s1.
Proof.
  intros W [H1 H2] [= <- <-]. split; [done|]. split; [by exists []| | |done].
  - split; cbn.
    + apply StronglySorted_app_2; [|done|by repeat constructor]. intros r r' Hr ->%list_elem_of_singleton.
      rewrite Forall_forall in H2. destruct (H2 r Hr). split; cbn; [lia|done].
    + apply Forall_app. split; [|repeat constructor; cbn; lia].
      eapply Forall_impl; [exact H2|]. intros r [? ?]. split; cbn; [lia|done].
  - eexists [], _. split_and!; [done..|by apply eqv_frame].
Qed.

(** ** What a caller sees of an account *)

Record view := mk_view {
  v_exist : bool; v_empty : bool; v_balance : Z; v_nonce : Z; v_code : option bytes;
  v_hash : Z; v_state : Z; v_committed : Z; v_suicided : bool }.

Definition observe (s : StateDB) (a k : Z) : option view :=
  '(e, _) ← Exist a s; '(m, _) ← Empty a s; '(b, _) ← GetBalance a s; '(n, _) ← GetNonce a s;
  '(c, _) ← GetCode a s; '(h, _) ← GetCodeHash a s; '(v, _) ← GetState a k s;
  '(w, _) ← GetCommittedState a k s; '(d, _) ← HasSuicided a s;
  Some (mk_view e m b n c h v w d).

Definition view_of (a k : Z) (o : option stateObject) : view :=
  match o with
  | Some o => mk_view true (empty o) (Balance (data o)) (Nonce (data o)) (code_of o) (CodeHash (data o))
                (current a o k) (committed a o k) (suicided o)
  | None => mk_view false true 0 0 None 0 0 0 false
  end.

Lemma Code_result a o s : fst <$> Code a o s = Some (code_of o).
Proof. unfold Code, code_of. destruct (code o); [done|]. by destruct (_ =? _). Qed.

Lemma obj_GetCommittedState_result a o k s : fst <$> obj_GetCommittedState a o k s = Some (committed a o k).
Proof.
  unfold obj_GetCommittedState, committed. destruct (pendingStorage o !! k); [done|]. by destruct (originStorage o !! k).
Qed.

Lemma obj_GetState_result a o k s : fst <$> obj_GetState a o k s = Some (current a o k).
Proof.
  unfold obj_GetState, current. destruct (dirtyStorage o !! k); [done|]. apply obj_GetCommittedState_result.
Qed.

Lemma observe_live s a k : observe s a k = Some (view_of a k (live s a)).
Proof.
  unfold observe, Exist, Empty, GetBalance, GetNonce, GetCode, GetCodeHash, GetState, GetCommittedState, HasSuicided.
  unfold mbind, SM_bind. rewrite !getStateObject_run. destruct (live s a) as [o|]; [|done]. cbn [mret SM_ret option_bind].
  pose proof (Code_result a o (cached a s)) as H1. pose proof (obj_GetState_result a o k (cached a s)) as H2.
  pose proof (obj_GetCommittedState_result a o k (cached a s)) as H3.
  destruct (Code _ _ _) as [[]|], (obj_GetState _ _ _ _) as [[]|], (obj_GetCommittedState _ _ _ _) as [[]|]; try done.
  cbn in *. by simplify_eq.
Qed.

Lemma observe_eqv s t a k : eqv s t → observe s a k = observe t a k.
Proof.
  intros E. rewrite !observe_live. f_equal. destruct (live_eqv s t a E) as [o o' Ho|]; [|done].
  destruct Ho as [Ed Es El Ec Et Eo]. cbn. unfold empty. by rewrite Ed, Es, Ec, Et, Eo.
Qed.

(** The parts of the state that a revert restores as they were. *)
Definition same_books (s t : StateDB) : Prop :=
  refund s = refund t ∧ (∀ h, default [] (logs s !! h) = default [] (logs t !! h)) ∧
  logSize s = logSize t ∧ preimages s = preimages t ∧ entries (jrnl s) = entries (jrnl t) ∧
  validRevisions s = validRevisions t.

Lemma jwf_dirties j j' a :
  jwf j → jwf j' → entries j = entries j' → a ≠ ripemd → dirties j !! a = dirties j' !! a.
Proof. intros H1 H2 E Ha. by rewrite H1, H2, E. Qed.

(** A revert to the snapshot undoes all that happened since. *)
Lemma since_back_eqv s id s2 :
  swf s → since s id s2 →
  ∃ s3, RevertToSnapshot id s2 = Some (tt, s3) ∧ eqv s3 s ∧ swf s3 ∧
    entries (jrnl s3) = entries (jrnl s) ∧ validRevisions s3 = validRevisions s.
Proof.
  intros W Hs2.
  destruct (si_revs _ _ _ Hs2) as (revs & Er). pose proof (si_wf _ _ _ Hs2) as Hwf2.
  assert (Hk : validRevisions s2 !! length (validRevisions s) = Some (mk_revision id (length_ s))).
  { rewrite Er, lookup_app_r, Nat.sub_diag by lia. done. }
  destruct (revert_to s id s2 _ _ Hs2 Hk ltac:(lia)) as (s3 & E3 & (es & t & Ee & El & Eu & Et) & Hv & Hn & W3).
  assert (es = []) as ->.
  { apply nil_length_inv. unfold length_ in El. cbn in El. rewrite Ee, length_app in El. unfold length_ in El. lia. }
  injection Eu as <-. cbn in Ee. eexists. split_and!.
  - unfold RevertToSnapshot, mbind, SM_bind, get.
    rewrite (search_found _ _ _ (rw_sorted _ Hwf2) Hk : sort_search _ _ _ (λ i, match _ with Some r => id <=? rev_id r | None => _ end) = _).
    rewrite Hk. cbn [rev_id]. rewrite Z.eqb_refl, E3. done.
  - etrans; [|exact Et]. by apply eqv_frame.
  - done.
  - done.
  - cbn. by rewrite Hv, Er, take_app_length.
Qed.

Lemma since_back s id s2 :
  swf s → since s id s2 →
  ∃ s3, RevertToSnapshot id s2 = Some (tt, s3) ∧
    (∀ a k, observe s3 a k = observe s a k) ∧ same_books s3 s ∧
    (∀ a, a ≠ ripemd → dirties (jrnl s3) !! a = dirties (jrnl s) !! a).
Proof.
  intros W Hs2. destruct (since_back_eqv s id s2 W Hs2) as (s3 & E3 & Ev & W3 & Ee & Er). exists s3. split_and!; [done|..].
  - intros a k. by apply observe_eqv.
  - destruct Ev as [_ E1 E2 E4 E5 _]. by split_and!.
  - intros a Ha. apply jwf_dirties; [apply W3|apply W|done|done].
Qed.

End State.
End StateProofs.
