(* ===== verification/StateClaims.v ===== *)
(** * StateClaims: what snapshots and the end of a transaction guarantee

    The theorems on the state of an execution: a revert restores everything a
    caller can see, and [Finalise] deletes what has to go and keeps the rest. *)

From stdpp Require Import base gmap list sorting.
From Stdlib Require Import ZArith Lia.
From S2P Require Import Prelude StateDB StateProofs.

Local Open Scope Z_scope.

Module StateClaims.
Import StateDB StateProofs.

Section Claims.
Context `{Backend}.

(** C5: Whatever operations run after a snapshot (transfers, nonce, code and
    storage writes, self-destructs, account creations, refunds, logs,
    preimages, nested snapshots and reverts to them), reverting to it
    succeeds, and every account then answers every query as before: existence,
    emptiness, balance, nonce, code, current and committed storage,
    self-destruction. The refund counter, the logs, the preimages, the journal
    and the older snapshots are also back, and so are the dirty counters, the
    account that [touch] marks by hand excepted. *)
Theorem RevertToSnapshot_restores s id s1 os s2 :
  swf s → revs_wf s → Snapshot s = Some (id, s1) → Forall (above id) os → exec_all os s1 = Some (tt, s2) →
  ∃ s3, RevertToSnapshot id s2 = Some (tt, s3) ∧
    (∀ a k, observe s3 a k = observe s a k) ∧ same_books s3 s ∧
    (∀ a, a ≠ ripemd → dirties (jrnl s3) !! a = dirties (jrnl s) !! a).
Proof.
  intros W Hw Hs Ho Hx. destruct (since_start s id s1 W Hw Hs) as [_ Hsi]. apply since_back; [done|].
  by eapply since_all.
Qed.

(** ** The end of a transaction *)

Lemma Finalise_objects d s s' a :
  Finalise d s = Some (tt, s') →
  stateObjects s' !! a =
    (λ o, if bool_decide (a ∈ dom (dirties (jrnl s))) then finalise_object d o else o) <$> stateObjects s !! a.
Proof.
  intros [= <-].
  transitivity (map_imap (λ a o, Some (if bool_decide (a ∈ dom (dirties (jrnl s)) ∩ dom (stateObjects s))
    then finalise_object d o else o)) (stateObjects s) !! a).
  { cbn. by destruct (entries (jrnl s)). }
  rewrite map_lookup_imap. destruct (stateObjects s !! a) as [o|] eqn:E; [|done]. cbn. f_equal.
  assert (a ∈ dom (stateObjects s)) by by apply elem_of_dom_2 in E.
  rewrite (bool_decide_ext (a ∈ _ ∩ _) (a ∈ dom (dirties (jrnl s)))); [done|set_solver].
Qed.

Lemma finalise_current a o k : current a (finalise o) k = current a o k ∧ committed a (finalise o) k = current a o k.
Proof.
  unfold current, committed, finalise. cbn. rewrite lookup_empty, lookup_union. cbn.
  destruct (dirtyStorage o !! k), (pendingStorage o !! k); done.
Qed.

(** What the transaction leaves of a live account. *)
Definition settled (v : view) : view :=
  mk_view (v_exist v) (v_empty v) (v_balance v) (v_nonce v) (v_code v) (v_hash v) (v_state v) (v_state v) (v_suicided v).

Definition gone : view := mk_view false true 0 0 None 0 0 0 false.

Lemma live_finalised d s s' a k :
  Finalise d s = Some (tt, s') →
  view_of a k (live s' a) =
    let v := view_of a k (live s a) in
    if bool_decide (is_Some (dirties (jrnl s) !! a) ∧ is_Some (stateObjects s !! a)) then
      if v_suicided v || (d && v_empty v) then gone else settled v
    else v.
Proof.
  intros E. unfold live, eff. rewrite (Finalise_objects d s s' a E).
  destruct (stateObjects s !! a) as [o|] eqn:Eo; cbn -[finalise_object view_of].
  2: { by rewrite bool_decide_false by (intros [_ []%is_Some_None]). }
  destruct (dirties (jrnl s) !! a) as [n|] eqn:Ed.
  2: { rewrite bool_decide_false by (by apply not_elem_of_dom_2). by rewrite bool_decide_false by (intros [[]%is_Some_None _]). }
  rewrite bool_decide_true by (by apply elem_of_dom_2 in Ed). rewrite bool_decide_true by done.
  unfold finalise_object. destruct (deleted o) eqn:El.
  - destruct (suicided o || _); cbn; rewrite ?El; cbn; by destruct d.
  - cbn [view_of v_suicided v_empty]. destruct (suicided o || _); cbn; [done|]. rewrite El.
    destruct (finalise_current a o k) as [E1 E2]. cbn. by rewrite E1, E2.
Qed.

(** C36: At the end of a transaction an account that the transaction changed
    and that self-destructed, or is empty where empty accounts are deleted,
    answers every query as an account that never was; any other changed
    account keeps all it shows, and its storage becomes the committed one; an
    account that was not changed, or whose creation was reverted, shows the
    same as before. The changed accounts are marked for the trie update, the
    journal and the refund are cleared, and no earlier snapshot can be
    reverted to. *)
Theorem Finalise_settles d s :
  ∃ s', Finalise d s = Some (tt, s') ∧
    (∀ a k, observe s' a k = (λ v,
       if bool_decide (is_Some (dirties (jrnl s) !! a) ∧ is_Some (stateObjects s !! a)) then
         if v_suicided v || (d && v_empty v) then gone else settled v
       else v) <$> observe s a k) ∧
    (∀ a, is_Some (dirties (jrnl s) !! a) → is_Some (stateObjects s !! a) →
       a ∈ stateObjectsPending s' ∧ a ∈ stateObjectsDirty s') ∧
    entries (jrnl s') = [] ∧ (entries (jrnl s) ≠ [] → jrnl s' = newJournal ∧ refund s' = 0) ∧
    (∀ id, RevertToSnapshot id s' = None).
Proof.
  destruct (Finalise d s) as [[[] s']|] eqn:E; [|done]. exists s'. split; [done|]. split.
  { intros a k. rewrite !observe_live. cbn. f_equal. by apply live_finalised. }
  injection E as <-. split_and!.
  - intros a Hd%elem_of_dom Ho%elem_of_dom. cbn. destruct (entries (jrnl s)); cbn; set_solver.
  - cbn. by destruct (entries (jrnl s)) eqn:E.
  - intros Hne. cbn. by destruct (entries (jrnl s)).
  - intros id. done.
Qed.

End Claims.

(** ** A concrete run *)

Definition demo_hash (b : bytes) : Z := 1000 + Z.of_nat (length b).

#[local] Instance demo_backend : Backend := {|
  read_account a := if a =? 7 then Some (mk_Account 1 100 55 1002) else None;
  read_storage _ r k := if r =? 55 then k + 1 else 0;
  ContractCode h := if h =? 1002 then Some [Byte.x00; Byte.x01] else None;
  Keccak256Hash := demo_hash;
  emptyRoot := 56;
  read_empty _ _ := eq_refl |}.

Definition fresh : StateDB := mk_state ∅ ∅ ∅ 0 9 9 0 ∅ 0 ∅ newJournal [] 0.

Definition demo_ops : list op :=
  [ OSubBalance 7 30; OAddBalance 8 30; OSetState 7 1 44; OSnapshot; OSuicide 7; OCreateAccount 7;
    ORevert 1; OSetCode 7 None; OAddBalance ripemd 0; OAddRefund 5; OAddLog (mk_Log 7 [] [] 0 0 0 0); OSuicide 8 ].

Lemma fresh_wf : swf fresh ∧ revs_wf fresh.
Proof. split; [split; [done|by intros a _]|split; constructor]. Qed.

Definition state_of {A} (x : option (A * StateDB)) : StateDB :=
  match x with Some (_, s) => s | None => fresh end.

Definition demo_s1 : StateDB := state_of (Snapshot fresh).
Definition demo_s2 : StateDB := state_of (exec_all demo_ops demo_s1).

Lemma state_of_run (x : option (unit * StateDB)) : bool_decide (is_Some x) = true → x = Some (tt, state_of x).
Proof. destruct x as [[[] s]|]; [done|]. intros Hx%bool_decide_eq_true. by apply is_Some_None in Hx. Qed.

Lemma demo_run : exec_all demo_ops demo_s1 = Some (tt, demo_s2).
Proof. apply state_of_run. vm_compute. reflexivity. Qed.

Lemma demo_balance : v_balance <$> observe demo_s2 7 1 = Some 70.
Proof. vm_compute. reflexivity. Qed.

Lemma RevertToSnapshot_restores_witness :
  v_balance <$> observe demo_s2 7 1 = Some 70 ∧
  ∃ s3, RevertToSnapshot 0 demo_s2 = Some (tt, s3) ∧
    v_balance <$> observe s3 7 1 = Some 100 ∧ v_state <$> observe s3 7 1 = Some 2.
Proof.
  split; [exact demo_balance|].
  destruct (RevertToSnapshot_restores fresh 0 demo_s1 demo_ops demo_s2 (proj1 fresh_wf) (proj2 fresh_wf)
    eq_refl ltac:(repeat constructor) demo_run) as (s3 & E3 & Ho & _).
  exists s3. split; [exact E3|]. rewrite Ho. split; reflexivity.
Defined.

End StateClaims.
