(* ===== verification/Trie.v ===== *)
(** * Trie: Merkle Patricia tries (trie/encoding.go, node.go, trie.go)

    Key encodings, the node types and the operations [TryGet], [TryUpdate] and
    [TryDelete] with the nodes they load on demand. The node database is a
    parameter: the node stored under a hash, if any.

    - Keys in nodes hold one byte per nibble and end in 16 at a value.
    - A Go node is a [node]; the nil interface is the constructor [nil_].
    - The Go functions recurse along the key; the fuel given to them is twice
      the length of the key plus two, since a hash node uses up no key. *)

From stdpp Require Import base gmap list.
From Stdlib Require Import ZArith Lia.
From S2P Require Import Prelude.

Local Open Scope Z_scope.

Module Trie.

(** ** Key encodings (encoding.go) *)

Definition terminator : Byte.byte := Byte.x10.

Definition hasTerm (s : bytes) : bool :=
  match last s with
  | Some b => b2z b =? 16
  | None => false
  end.

Definition keybytesToHex (str : bytes) : bytes :=
  concat ((λ b, [z2b (b2z b / 16); z2b (b2z b mod 16)]) <$> str) ++ [terminator].

(** The bytes the loop stores; an odd number of nibbles is an index panic. *)
Fixpoint decodeNibbles (nibbles : bytes) : option bytes :=
  match nibbles with
  | [] => Some []
  | [_] => None
  | hi :: lo :: rest =>
      (λ bs, z2b (Z.lor (Z.shiftl (b2z hi) 4) (b2z lo)) :: bs) <$> decodeNibbles rest
  end.

Definition hexToCompact (hex : bytes) : option bytes :=
  let term := if hasTerm hex then 1 else 0 in
  let hex := if hasTerm hex then take (length hex - 1) hex else hex in
  let flag := Z.shiftl term 5 in
  match Z.land (Z.of_nat (length hex)) 1 =? 1, hex with
  | true, first :: hex =>
      (λ bs, z2b (Z.lor (Z.lor flag (Z.shiftl 1 4)) (b2z first)) :: bs) <$> decodeNibbles hex
  | _, hex => (λ bs, z2b flag :: bs) <$> decodeNibbles hex
  end.

Definition compactToHex (compact : bytes) : bytes :=
  match keybytesToHex compact, compact with
  | _, [] => compact
  | (b0 :: _) as base, _ =>
      let base := if b2z b0 <? 2 then take (length base - 1) base else base in
      drop (Z.to_nat (2 - Z.land (b2z b0) 1)) base
  | [], _ => []
  end.

Definition hexToKeybytes (hex : bytes) : option bytes :=
  let hex := if hasTerm hex then take (length hex - 1) hex else hex in
  if negb (Z.land (Z.of_nat (length hex)) 1 =? 0) then None else decodeNibbles hex.

Fixpoint prefixLen (a b : bytes) : nat :=
  match a, b with
  | x :: a, y :: b => if bool_decide (x = y) then S (prefixLen a b) else O
  | _, _ => O
  end.

(** ** Nodes (node.go) *)

Record nodeFlag := mk_flag { fl_hash : option bytes; fl_dirty : bool }.

Inductive node :=
  | nil_
  | valueNode (v : bytes)
  | hashNode (h : bytes)
  | shortNode (Key : bytes) (Val : node) (flags : nodeFlag)
  | fullNode (Children : list node) (flags : nodeFlag).

Definition newFlag : nodeFlag := mk_flag None true.

Definition is_nil (n : node) : bool := match n with nil_ => true | _ => false end.

(** [n.Children[i]] of the 17 children; an index beyond panics. *)
Definition child (cs : list node) (i : Byte.byte) : option node := cs !! Z.to_nat (b2z i).
Definition set_child (cs : list node) (i : Byte.byte) (n : node) : list node :=
  <[Z.to_nat (b2z i) := n]> cs.

(** ** Errors *)

Inductive trie_error :=
  | MissingNodeError (NodeHash Path : bytes)
  | StillRunning.

Abbreviation TR := (outcome trie_error).

Definition index {A} (x : option A) : TR A := match x with Some a => Ret a | None => Panic end.

(** ** The trie (trie.go) *)

Record Trie := mk_Trie { root : node; unhashed : Z }.

Definition fuel_for (key : bytes) : nat := 2 * length key + 2.

Section WithDatabase.
Context (db_node : bytes → option node).

Definition resolveHash (h prefix : bytes) : TR node :=
  match db_node h with
  | Some n => Ret n
  | None => Err (MissingNodeError h prefix)
  end.

Definition resolve (n : node) (prefix : bytes) : TR node :=
  match n with
  | hashNode h => resolveHash h prefix
  | _ => Ret n
  end.

Fixpoint tryGet (fuel : nat) (origNode : node) (key : bytes) (pos : nat)
    : TR (option bytes * node * bool) :=
  match fuel with
  | O => Err StillRunning
  | S fuel =>
      match origNode with
      | nil_ => Ret (None, nil_, false)
      | valueNode v => Ret (Some v, origNode, false)
      | shortNode nKey nVal flags =>
          if (length key <? pos + length nKey)%nat
             || negb (bool_decide (nKey = take (length nKey) (drop pos key)))
          then Ret (None, origNode, false)
          else
            '(value, newnode, didResolve) ← tryGet fuel nVal key (pos + length nKey);
            Ret (value, if (didResolve : bool) then shortNode nKey newnode flags else origNode, didResolve)
      | fullNode cs flags =>
          k ← index (key !! pos);
          c ← index (child cs k);
          '(value, newnode, didResolve) ← tryGet fuel c key (pos + 1);
          Ret (value, if (didResolve : bool) then fullNode (set_child cs k newnode) flags else origNode, didResolve)
      | hashNode h =>
          child ← resolveHash h (take pos key);
          '(value, newnode, _) ← tryGet fuel child key pos;
          Ret (value, newnode, true)
      end
  end.

Definition TryGet (t : Trie) (key : bytes) : TR (option bytes * Trie) :=
  let key := keybytesToHex key in
  '(value, newroot, didResolve) ← tryGet (fuel_for key) (root t) key 0;
  Ret (value, if (didResolve : bool) then mk_Trie newroot (unhashed t) else t).

(** [!bytes.Equal(v, value.(valueNode))], a panic when [value] is another node. *)
Definition value_differs (v : bytes) (value : node) : TR bool :=
  match value with
  | valueNode w => Ret (negb (bool_decide (v = w)))
  | _ => Panic
  end.

Fixpoint insert (fuel : nat) (n : node) (prefix key : bytes) (value : node) : TR (bool * node) :=
  match fuel with
  | O => Err StillRunning
  | S fuel =>
      match key with
      | [] =>
          match n with
          | valueNode v => d ← value_differs v value; Ret (d, value)
          | _ => Ret (true, value)
          end
      | k0 :: krest =>
          match n with
          | shortNode nKey nVal flags =>
              let matchlen := prefixLen key nKey in
              if (matchlen =? length nKey)%nat then
                '(dirty, nn) ← insert fuel nVal (prefix ++ take matchlen key) (drop matchlen key) value;
                if (dirty : bool) then Ret (true, shortNode nKey nn newFlag) else Ret (false, n)
              else
                i ← index (nKey !! matchlen);
                j ← index (key !! matchlen);
                '(_, c1) ← insert fuel nil_ (prefix ++ take (S matchlen) nKey) (drop (S matchlen) nKey) nVal;
                '(_, c2) ← insert fuel nil_ (prefix ++ take (S matchlen) key) (drop (S matchlen) key) value;
                let branch := fullNode (set_child (set_child (replicate 17 nil_) i c1) j c2) newFlag in
                if (matchlen =? 0)%nat then Ret (true, branch)
                else Ret (true, shortNode (take matchlen key) branch newFlag)
          | fullNode cs flags =>
              c ← index (child cs k0);
              '(dirty, nn) ← insert fuel c (prefix ++ [k0]) krest value;
              if (dirty : bool) then Ret (true, fullNode (set_child cs k0 nn) newFlag) else Ret (false, n)
          | nil_ => Ret (true, shortNode key value newFlag)
          | hashNode h =>
              rn ← resolveHash h prefix;
              '(dirty, nn) ← insert fuel rn prefix key value;
              if (dirty : bool) then Ret (true, nn) else Ret (false, rn)
          | valueNode _ => Panic
          end
      end
  end.

(** The loop of [delete] over the children: [-1] when all are nil, the index
    of the only one that is not, or [-2]. *)
Fixpoint only_child (cs : list node) (i pos : Z) : Z :=
  match cs with
  | [] => pos
  | c :: cs =>
      if is_nil c then only_child cs (i + 1) pos
      else if pos =? -1 then only_child cs (i + 1) i
      else -2
  end.

(** What a full node becomes once the child at the deleted key is replaced. *)
Definition reduce_full (cs : list node) (prefix : bytes) : TR (bool * node) :=
  let pos := only_child cs 0 (-1) in
  if 0 <=? pos then
    c ← index (cs !! Z.to_nat pos);
    cnode ← (if negb (pos =? 16) then resolve c prefix else Ret nil_);
    match cnode with
    | shortNode cKey cVal _ => Ret (true, shortNode (z2b pos :: cKey) cVal newFlag)
    | _ => Ret (true, shortNode [z2b pos] c newFlag)
    end
  else Ret (true, fullNode cs newFlag).

Fixpoint delete_ (fuel : nat) (n : node) (prefix key : bytes) : TR (bool * node) :=
  match fuel with
  | O => Err StillRunning
  | S fuel =>
      match n with
      | shortNode nKey nVal flags =>
          let matchlen := prefixLen key nKey in
          if (matchlen <? length nKey)%nat then Ret (false, n)
          else if (matchlen =? length key)%nat then Ret (true, nil_)
          else
            '(dirty, child) ← delete_ fuel nVal (prefix ++ take (length nKey) key) (drop (length nKey) key);
            if (dirty : bool) then
              match child with
              | shortNode cKey cVal _ => Ret (true, shortNode (nKey ++ cKey) cVal newFlag)
              | _ => Ret (true, shortNode nKey child newFlag)
              end
            else Ret (false, n)
      | fullNode cs flags =>
          match key with
          | [] => Panic
          | k0 :: krest =>
              c ← index (child cs k0);
              '(dirty, nn) ← delete_ fuel c (prefix ++ [k0]) krest;
              if (dirty : bool) then reduce_full (set_child cs k0 nn) prefix else Ret (false, n)
          end
      | valueNode _ => Ret (true, nil_)
      | nil_ => Ret (false, nil_)
      | hashNode h =>
          rn ← resolveHash h prefix;
          '(dirty, nn) ← delete_ fuel rn prefix key;
          if (dirty : bool) then Ret (true, nn) else Ret (false, rn)
      end
  end.

Definition TryDelete (t : Trie) (key : bytes) : TR Trie :=
  let k := keybytesToHex key in
  '(_, n) ← delete_ (fuel_for k) (root t) [] k;
  Ret (mk_Trie n (unhashed t + 1)).

Definition TryUpdate (t : Trie) (key value : bytes) : TR Trie :=
  let k := keybytesToHex key in
  match value with
  | [] => '(_, n) ← delete_ (fuel_for k) (root t) [] k; Ret (mk_Trie n (unhashed t + 1))
  | _ => '(_, n) ← insert (fuel_for k) (root t) [] k (valueNode value); Ret (mk_Trie n (unhashed t + 1))
  end.

(** ** Calls that log errors instead of returning them *)

Definition Get (t : Trie) (key : bytes) : TR (option bytes * Trie) :=
  match TryGet t key with
  | Err (MissingNodeError _ _) => Ret (None, t)
  | r => r
  end.

Definition Update (t : Trie) (key value : bytes) : TR Trie :=
  match TryUpdate t key value with
  | Err (MissingNodeError _ _) => Ret (mk_Trie (root t) (unhashed t + 1))
  | r => r
  end.

Definition Delete (t : Trie) (key : bytes) : TR Trie :=
  match TryDelete t key with
  | Err (MissingNodeError _ _) => Ret (mk_Trie (root t) (unhashed t + 1))
  | r => r
  end.
End WithDatabase.

End Trie.
