(* ===== verification/TrieProofs.v ===== *)
(** * TrieProofs: a trie is a finite map

    A node holds a value under a key; a well-formed trie is in the canonical
    form the operations keep: leaves end in the terminator, extensions lead to
    branches, branches have two children at least, hash nodes can be loaded.
    On such tries the operations never miss a node, never run out of fuel, and
    act as lookup, insertion and deletion. *)

From stdpp Require Import base gmap list.
From Stdlib Require Import ZArith Lia.
From S2P Require Import Prelude Trie.

Local Open Scope Z_scope.

Module TrieProofs.
Import Trie.

(** ** Hex keys *)

Definition nibble (b : Byte.byte) : Prop := b2z b < 16.

Inductive hexkey : bytes → Prop :=
  | hk_end : hexkey [terminator]
  | hk_cons b k : nibble b → hexkey k → hexkey (b :: k).

Lemma term_not_nibble : ¬ nibble terminator.
Proof. unfold nibble. change (b2z terminator) with 16. lia. Qed.

Lemma hexkey_app ns k : Forall nibble ns → hexkey k → hexkey (ns ++ k).
Proof. induction 1; [done|]. intros Hk. cbn. by constructor; auto. Qed.

Lemma hexkey_nonempty k : hexkey k → k ≠ [].
Proof. by destruct 1. Qed.

Lemma hexkey_drop ns k : Forall nibble ns → hexkey (ns ++ k) → hexkey k.
Proof.
  induction 1 as [|b ns Hb Hns IH]; [done|]. cbn. intros Hk. apply IH. inversion Hk as [E|]; subst; [|done].
  by apply term_not_nibble in Hb.
Qed.

(** The terminator is the last element and only there. *)
Lemma hexkey_prefix_free k k' r : hexkey k → hexkey k' → k' = k ++ r → r = [].
Proof.
  intros Hk. revert k'. induction Hk as [|b k Hb Hk IH]; intros k' Hk' E; cbn in *.
  - subst. inversion Hk' as [|b k Hb Hk]; subst; [done|]. by apply term_not_nibble in Hb.
  - subst. inversion Hk' as [E'|b' k' Hb' Hk'']; subst.
    + destruct k; [inversion Hk|done].
    + by eapply IH.
Qed.

Lemma nibbles_not_hexkey ns k r : Forall nibble ns → hexkey k → ns = k ++ r → False.
Proof.
  intros Hns Hk ->. apply Forall_app in Hns as [Hns _]. revert Hns.
  induction Hk as [|b k Hb Hk IH]; inversion_clear 1; [by apply term_not_nibble|auto].
Qed.

Lemma b2z_nibble z : 0 <= z < 16 → nibble (z2b z).
Proof. intros Hz. unfold nibble. rewrite b2z_z2b, Z.mod_small by lia. lia. Qed.

Lemma hexkey_keybytes s : hexkey (keybytesToHex s).
Proof.
  unfold keybytesToHex. apply hexkey_app; [|constructor]. induction s as [|b s IH]; [constructor|].
  pose proof (b2z_range b). cbn. constructor; [|constructor; [|done]]; apply b2z_nibble.
  - split; [apply Z.div_pos; lia|apply Z.div_lt_upper_bound; lia].
  - apply Z.mod_pos_bound. lia.
Qed.

Lemma keybytes_cons b s :
  keybytesToHex (b :: s) = z2b (b2z b / 16) :: z2b (b2z b mod 16) :: keybytesToHex s.
Proof. done. Qed.

Lemma byte_of_nibbles b b' :
  z2b (b2z b / 16) = z2b (b2z b' / 16) → z2b (b2z b mod 16) = z2b (b2z b' mod 16) → b = b'.
Proof.
  intros E1 E2. apply (f_equal b2z) in E1, E2. rewrite !b2z_z2b in E1, E2.
  pose proof (b2z_range b). pose proof (b2z_range b').
  pose proof (Z.mod_pos_bound (b2z b) 16). pose proof (Z.mod_pos_bound (b2z b') 16).
  assert (b2z b / 16 < 256) by (apply Z.div_lt_upper_bound; lia).
  assert (b2z b' / 16 < 256) by (apply Z.div_lt_upper_bound; lia).
  assert (0 <= b2z b / 16) by (apply Z.div_pos; lia). assert (0 <= b2z b' / 16) by (apply Z.div_pos; lia).
  rewrite (Z.mod_small (_ / 16)), (Z.mod_small (_ / 16)) in E1 by lia.
  rewrite (Z.mod_small (b2z b mod 16)), (Z.mod_small (b2z b' mod 16)) in E2 by lia.
  apply b2z_inj. rewrite (Z.div_mod (b2z b) 16), (Z.div_mod (b2z b') 16) by lia. lia.
Qed.

Lemma keybytes_inj s s' : keybytesToHex s = keybytesToHex s' → s = s'.
Proof.
  revert s'. induction s as [|b s IH]; intros [|b' s'] E; [done|exfalso|exfalso|].
  - apply (f_equal length) in E. rewrite keybytes_cons in E. cbn in E. pose proof (hexkey_nonempty _ (hexkey_keybytes s')). by destruct (keybytesToHex s').
  - apply (f_equal length) in E. rewrite keybytes_cons in E. cbn in E. pose proof (hexkey_nonempty _ (hexkey_keybytes s)). by destruct (keybytesToHex s).
  - rewrite !keybytes_cons in E. injection E as E1 E2 E3. f_equal; [by apply byte_of_nibbles|by apply IH].
Qed.

(** ** Common prefixes *)

Lemma prefixLen_spec a b :
  take (prefixLen a b) a = take (prefixLen a b) b ∧
  (prefixLen a b <= length a)%nat ∧ (prefixLen a b <= length b)%nat ∧
  (∀ x y, a !! prefixLen a b = Some x → b !! prefixLen a b = Some y → x ≠ y).
Proof.
  revert b. induction a as [|x a IH]; intros [|y b]; cbn [prefixLen]; try (split_and!; [done|cbn; lia|cbn; lia|done]).
  case_bool_decide as E.
  - subst. destruct (IH b) as (I1 & I2 & I3 & I4). cbn. split_and!; [by f_equal|lia|lia|done].
  - cbn. split_and!; [done|lia|lia|]. by intros ? ? [= <-] [= <-].
Qed.

Lemma prefixLen_app k r : prefixLen (k ++ r) k = length k.
Proof. induction k as [|x k IH]; [by destruct r|]. cbn. rewrite bool_decide_true by done. by rewrite IH. Qed.

Lemma prefixLen_full a b : prefixLen a b = length b → ∃ r, a = b ++ r.
Proof.
  intros E. destruct (prefixLen_spec a b) as (I1 & _ & _ & _). rewrite E, (take_ge b) in I1 by lia.
  exists (drop (length b) a). rewrite <- I1 at 1. by rewrite take_drop.
Qed.

(** A key and a node key that does not start it split at the first difference. *)
Lemma prefixLen_split a b :
  (prefixLen a b < length a)%nat → (prefixLen a b < length b)%nat →
  ∃ p x y a' b', a = p ++ x :: a' ∧ b = p ++ y :: b' ∧ x ≠ y ∧ prefixLen a b = length p.
Proof.
  intros Ha Hb. destruct (prefixLen_spec a b) as (I1 & _ & _ & I4). set (m := prefixLen a b) in *.
  destruct (lookup_lt_is_Some_2 a m Ha) as [x Hx]. destruct (lookup_lt_is_Some_2 b m Hb) as [y Hy].
  exists (take m a), x, y, (drop (S m) a), (drop (S m) b). split_and!.
  - by rewrite take_drop_middle.
  - rewrite I1. by rewrite take_drop_middle.
  - by apply I4.
  - rewrite length_take. lia.
Qed.

(** ** What a node holds *)

Section Store.
Context (db_node : bytes → option node).

Inductive holds : node → bytes → bytes → Prop :=
  | holds_value v : holds (valueNode v) [] v
  | holds_short K c fl k v : holds c k v → holds (shortNode K c fl) (K ++ k) v
  | holds_full cs fl b c k v : child cs b = Some c → holds c k v → holds (fullNode cs fl) (b :: k) v
  | holds_hash h n k v : db_node h = Some n → holds n k v → holds (hashNode h) k v.

Definition solid (n : node) : Prop :=
  match n with shortNode _ _ _ | fullNode _ _ => True | _ => False end.

Definition branch (n : node) : Prop :=
  match n with
  | fullNode _ _ => True
  | hashNode h => ∃ cs fl, db_node h = Some (fullNode cs fl)
  | _ => False
  end.

Definition two_children (cs : list node) : Prop :=
  ∃ i j a b, (i < j)%nat ∧ cs !! i = Some a ∧ cs !! j = Some b ∧ a ≠ nil_ ∧ b ≠ nil_.

Inductive wf : node → Prop :=
  | wf_leaf K v fl : hexkey K → v ≠ [] → wf (shortNode K (valueNode v) fl)
  | wf_ext K c fl : K ≠ [] → Forall nibble K → branch c → wf c → wf (shortNode K c fl)
  | wf_full cs fl :
      length cs = 17%nat →
      (∀ i c, cs !! i = Some c → (i < 16)%nat → c ≠ nil_ → wf c) →
      (∀ c, cs !! 16%nat = Some c → c ≠ nil_ → ∃ v, v ≠ [] ∧ c = valueNode v) →
      two_children cs → wf (fullNode cs fl)
  | wf_hash h n : db_node h = Some n → solid n → wf n → wf (hashNode h).

(** A subtrie at a position where [k] remains of a key. *)
Definition ok (k : bytes) (n : node) : Prop :=
  match k with
  | [] => n = nil_ ∨ ∃ v, v ≠ [] ∧ n = valueNode v
  | _ => hexkey k ∧ (n = nil_ ∨ wf n)
  end.

Lemma wf_not_nil n : wf n → n ≠ nil_.
Proof. by destruct 1. Qed.

Lemma holds_nil k v : ¬ holds nil_ k v.
Proof. inversion 1. Qed.

Lemma holds_value_inv w k v : holds (valueNode w) k v ↔ k = [] ∧ v = w.
Proof. split; [by inversion 1|]. intros [-> ->]. constructor. Qed.

Lemma holds_short_inv K c fl k v : holds (shortNode K c fl) k v ↔ ∃ r, k = K ++ r ∧ holds c r v.
Proof. split; [inversion 1; subst; eauto|]. intros (r & -> & Hr). by constructor. Qed.

Lemma holds_full_inv cs fl k v :
  holds (fullNode cs fl) k v ↔ ∃ b c r, k = b :: r ∧ child cs b = Some c ∧ holds c r v.
Proof. split; [inversion 1; subst; eauto 10|]. intros (b & c & r & -> & Hc & Hr). by econstructor. Qed.

Lemma holds_hash_inv h n k v : db_node h = Some n → holds (hashNode h) k v ↔ holds n k v.
Proof. intros E. split; [inversion 1; subst; congruence|]. intros Hn. by econstructor. Qed.

(** ** Children *)

Lemma b2z_to_nat_inj b b' : Z.to_nat (b2z b) = Z.to_nat (b2z b') → b = b'.
Proof. intros E. apply b2z_inj. pose proof (b2z_range b). pose proof (b2z_range b'). lia. Qed.

Lemma child_set cs b b' n :
  (Z.to_nat (b2z b) < length cs)%nat →
  child (set_child cs b n) b' = if decide (b' = b) then Some n else child cs b'.
Proof.
  intros Hl. unfold child, set_child. case_decide as E; [subst; by rewrite list_lookup_insert_eq|].
  rewrite list_lookup_insert_ne; [done|]. by intros ?%b2z_to_nat_inj.
Qed.

Lemma hexkey_head b k : hexkey (b :: k) → (b = terminator ∧ k = []) ∨ (nibble b ∧ hexkey k).
Proof. inversion 1; auto. Qed.

Lemma hexkey_index b k : hexkey (b :: k) → (Z.to_nat (b2z b) < 17)%nat.
Proof.
  intros [[-> _]|[Hb _]]%hexkey_head; [cbn; change (b2z terminator) with 16; lia|]. unfold nibble in Hb.
  pose proof (b2z_range b). lia.
Qed.

(** The child under the first element of a key. *)
Lemma wf_child cs fl b k :
  wf (fullNode cs fl) → hexkey (b :: k) → ∃ c, child cs b = Some c ∧ ok k c.
Proof.
  intros Hw Hk. inversion Hw as [| |cs' fl' Hl H1 H2 H3|]; subst.
  pose proof (hexkey_index b k Hk) as Hi.
  destruct (lookup_lt_is_Some_2 cs (Z.to_nat (b2z b))) as [c Hc]; [lia|].
  exists c. split; [done|]. apply hexkey_head in Hk as [[-> ->]|[Hb Hk]].
  - cbn. destruct (decide (is_nil c)) as [E|E]; [left; by destruct c|right]. apply (H2 c Hc). by intros ->.
  - pose proof (hexkey_nonempty _ Hk). destruct k; [done|]. split; [done|].
    destruct (decide (is_nil c)) as [E|E]; [left; by destruct c|right]. unfold nibble in Hb.
    apply (H1 _ _ Hc); [pose proof (b2z_range b); lia|]. by intros ->.
Qed.

Lemma ok_wf k n : hexkey k → ok k n ↔ n = nil_ ∨ wf n.
Proof. intros Hk. destruct k; [by inversion Hk|]. cbn. tauto. Qed.

(** ** Fuel *)

Definition need (n : node) (k : bytes) : nat :=
  2 * length k + match n with hashNode _ => 2 | _ => 1 end.

Lemma need_sub (n c : node) K k : K ≠ [] → (need c k < need n (K ++ k))%nat.
Proof. intros HK. unfold need. rewrite length_app. destruct K; [done|]. cbn. destruct c, n; lia. Qed.

Lemma need_hash h n k : solid n → (need n k < need (hashNode h) k)%nat.
Proof. destruct n; try done; intros _; unfold need; lia. Qed.

(** A child other than nil under the index [b] of a branch. *)
Definition fits (b : Byte.byte) (c : node) : Prop :=
  (b = terminator ∧ ∃ v, v ≠ [] ∧ c = valueNode v) ∨ (nibble b ∧ wf c).

Lemma ok_fits b k c : hexkey (b :: k) → ok k c → c ≠ nil_ → fits b c.
Proof.
  intros [[-> ->]|[Hb Hk]]%hexkey_head Hc Hn; [left|right].
  - by destruct Hc as [->|Hc].
  - by apply ok_wf in Hc as [->|Hc].
Qed.

Lemma fits_not_nil b c : fits b c → c ≠ nil_.
Proof. intros [(_ & v & _ & ->)|[_ Hw]]; [done|by apply wf_not_nil]. Qed.

Lemma fits_index b c : fits b c → (Z.to_nat (b2z b) < 17)%nat.
Proof.
  intros [[-> _]|[Hb _]]; [change (b2z terminator) with 16; lia|]. unfold nibble in Hb. pose proof (b2z_range b). lia.
Qed.

(** The children of a branch, without the condition on their number. *)
Definition slots (cs : list node) : Prop :=
  length cs = 17%nat ∧
  (∀ i c, cs !! i = Some c → (i < 16)%nat → c ≠ nil_ → wf c) ∧
  (∀ c, cs !! 16%nat = Some c → c ≠ nil_ → ∃ v, v ≠ [] ∧ c = valueNode v).

Lemma wf_slots cs fl : wf (fullNode cs fl) ↔ slots cs ∧ two_children cs.
Proof. split; [inversion 1; subst; repeat split; done|]. intros [(H1 & H2 & H3) H4]. by constructor. Qed.

Lemma slots_empty : slots (replicate 17 nil_).
Proof. split_and!; [done| |]; intros *; intros [-> _]%lookup_replicate; done. Qed.

Lemma slots_set cs b c : slots cs → (c = nil_ ∧ (Z.to_nat (b2z b) < 17)%nat) ∨ fits b c → slots (set_child cs b c).
Proof.
  intros (Hl & H1 & H2) Hc. assert (Hi : (Z.to_nat (b2z b) < 17)%nat) by (destruct Hc as [[_ ?]|?]; [done|by eapply fits_index]).
  unfold set_child. split_and!; [by rewrite length_insert| |].
  - intros i c' E Hi' Hn. destruct (decide (i = Z.to_nat (b2z b))) as [->|]; [|rewrite list_lookup_insert_ne in E by done; by eapply H1].
    rewrite list_lookup_insert_eq in E by lia. injection E as <-.
    destruct Hc as [[-> _]|[[-> _]|[_ Hw]]]; [done|change (b2z terminator) with 16 in Hi'; lia|done].
  - intros c' E Hn. destruct (decide (16%nat = Z.to_nat (b2z b))) as [E16|]; [|rewrite list_lookup_insert_ne in E by done; by apply H2].
    rewrite <- E16, list_lookup_insert_eq in E by lia. injection E as <-.
    destruct Hc as [[-> _]|[[_ Hv]|[Hb _]]]; [done|done|unfold nibble in Hb; lia].
Qed.

(** Two different keys lead to a child. *)
Lemma two_children_intro cs b b' c c' :
  b ≠ b' → child cs b = Some c → child cs b' = Some c' → c ≠ nil_ → c' ≠ nil_ → two_children cs.
Proof.
  intros Hne Hc Hc' Hn Hn'. unfold child in *. assert (Z.to_nat (b2z b) ≠ Z.to_nat (b2z b')) by (by intros ?%b2z_to_nat_inj).
  destruct (decide (Z.to_nat (b2z b) < Z.to_nat (b2z b'))%nat); unfold two_children; [by eauto 15|].
  eexists (Z.to_nat (b2z b')), (Z.to_nat (b2z b)), c', c. split_and!; try done. lia.
Qed.

(** Replacing a child of a branch by one that fits. *)
Lemma two_children_set cs b c :
  two_children cs → c ≠ nil_ → (Z.to_nat (b2z b) < length cs)%nat → two_children (set_child cs b c).
Proof.
  intros (i & j & x & y & Hij & Hx & Hy & Hx' & Hy') Hn Hl. unfold set_child. set (ib := Z.to_nat (b2z b)) in *.
  exists i, j, (if decide (i = ib) then c else x), (if decide (j = ib) then c else y).
  split_and!; [done| | |by case_decide|by case_decide]; case_decide as E; try rewrite E;
    first [by rewrite list_lookup_insert_eq|by rewrite list_lookup_insert_ne].
Qed.

Lemma wf_set_child cs fl fl' b c :
  wf (fullNode cs fl) → fits b c → wf (fullNode (set_child cs b c) fl').
Proof.
  intros [Hs H2]%wf_slots Hf. apply wf_slots. split; [apply slots_set; auto|].
  apply two_children_set; [done|by eapply fits_not_nil|]. rewrite (proj1 Hs). by eapply fits_index.
Qed.

Definition same (n n' : node) : Prop := ∀ k v, holds n k v ↔ holds n' k v.

Lemma same_set_child cs fl fl' b c c' :
  child cs b = Some c → same c c' → same (fullNode cs fl) (fullNode (set_child cs b c') fl').
Proof.
  intros Hc Hs k v. rewrite !holds_full_inv. pose proof (lookup_lt_Some _ _ _ Hc) as Hl.
  split; intros (b0 & c0 & r & -> & E & Hh).
  - exists b0. rewrite child_set by done. case_decide; [subst|by eauto].
    assert (c0 = c) as -> by congruence. exists c', r. split_and!; [done|done|by apply Hs].
  - rewrite child_set in E by done. exists b0. case_decide; [subst; injection E as <-|by eauto].
    exists c, r. split_and!; [done|done|by apply Hs].
Qed.

(** ** Lookup *)

Lemma key_match (K key : bytes) pos :
  (pos <= length key)%nat →
  if (length key <? pos + length K)%nat || negb (bool_decide (K = take (length K) (drop pos key)))
  then ∀ r, drop pos key ≠ K ++ r
  else drop pos key = K ++ drop (pos + length K) key ∧ (pos + length K <= length key)%nat.
Proof.
  intros Hpos. destruct (Nat.ltb_spec (length key) (pos + length K)) as [Hl|Hl]; cbn [orb].
  - intros r E. apply (f_equal length) in E. rewrite length_drop, length_app in E. lia.
  - case_bool_decide as E; cbn [negb].
    + split; [|done]. rewrite E at 1. by rewrite <- drop_drop, take_drop.
    + intros r Er. apply E. rewrite Er. by rewrite take_app_length.
Qed.

(** A short node on the way of a key is an extension or the leaf of the key. *)
Lemma ok_short K c fl k r :
  ok k (shortNode K c fl) → k = K ++ r → K ≠ [] ∧ ok r c ∧ c ≠ nil_ ∧
  ((hexkey K ∧ r = [] ∧ ∃ v, v ≠ [] ∧ c = valueNode v) ∨ (Forall nibble K ∧ branch c ∧ wf c ∧ hexkey r)).
Proof.
  intros Hok ->. assert (hexkey (K ++ r) ∧ wf (shortNode K c fl)) as [Hk Hw].
  { destruct (K ++ r) as [|b k] eqn:E; [by destruct Hok as [[=]|(v & _ & [=])]|]. by destruct Hok as [? [[=]|?]]. }
  inversion Hw as [K' v fl' HK Hv|K' c' fl' HK Hn Hb Hc| |]; subst.
  - pose proof (hexkey_prefix_free K (K ++ r) r HK Hk eq_refl) as ->. pose proof (hexkey_nonempty _ HK).
    split_and!; [done|right; eauto|done|left; eauto].
  - pose proof (hexkey_drop K r Hn Hk) as Hr. split_and!; [done|by apply ok_wf; auto|by apply wf_not_nil|by right].
Qed.

Record got (n : node) (k : bytes) (r : option bytes) (n' : node) : Prop := {
  got_value : ∀ v, r = Some v ↔ holds n k v;
  got_ok : ok k n';
  got_same : same n n';
  got_nil : n ≠ nil_ → n' ≠ nil_;
  got_branch : branch n → branch n' ∧ wf n';
}.

Lemma got_refl n k r : (∀ v, r = Some v ↔ holds n k v) → ok k n → wf n ∨ ¬ branch n → got n k r n.
Proof. intros H1 H2 H3. split; [done|done|by intros|done|]. destruct H3; [by split|done]. Qed.

Lemma tryGet_spec fuel : ∀ n key pos k,
  drop pos key = k → (pos <= length key)%nat → ok k n → (need n k <= fuel)%nat →
  ∃ r n' d, tryGet db_node fuel n key pos = Ret (r, n', d) ∧ got n k r n' ∧ (d = false → n' = n).
Proof.
  induction fuel as [|fuel IH]; intros n key pos k Ek Hpos Hok Hf; [unfold need in Hf; destruct n; lia|].
  destruct n as [|w|h|K c fl|cs fl]; cbn [tryGet].
  - eexists _, _, _. split; [done|]. split; [|done]. apply got_refl; [|done|right; by intros []]. intros v. split; [done|by intros []%holds_nil].
  - eexists _, _, _. split; [done|]. split; [|done]. destruct k as [|b k]; [|destruct Hok as [_ [[=]|Hw]]; inversion Hw].
    apply got_refl; [|done|right; by intros []]. intros v. rewrite holds_value_inv. split; [by intros [= ->]|by intros [_ ->]].
  - destruct k as [|b k]; [by destruct Hok as [[=]|(v & _ & [=])]|]. destruct Hok as [Hk [[=]|Hw]].
    inversion Hw as [| | |h' n Eh Hs Hn]; subst. unfold resolveHash. rewrite Eh. cbn [mbind outcome_bind].
    pose proof (need_hash h n (b :: k) Hs).
    destruct (IH n key pos (b :: k)) as (r & n' & d & E & Hg & _); [done|done|split; [done|by right]|lia|].
    rewrite E. eexists _, _, _. split; [done|]. split; [|done]. destruct Hg as [G1 G2 G3 G4 G5].
    assert (Hsame : same (hashNode h) n) by (intros k' v'; by apply holds_hash_inv).
    split; [|done| |by intros; apply G4, wf_not_nil|].
    + intros v. rewrite G1. symmetry. apply Hsame.
    + intros k' v'. rewrite (Hsame k' v'). apply G3.
    + intros (cs & fl & Eb). apply G5. assert (n = fullNode cs fl) as -> by congruence. done.
  - pose proof (key_match K key pos Hpos) as Hm. destruct (_ || _).
    + eexists _, _, _. split; [done|]. split; [|done]. apply got_refl; [|done|right; by intros []].
      intros v. split; [done|]. rewrite holds_short_inv. intros (r & -> & _). by destruct (Hm r).
    + destruct Hm as [Em Hl]. rewrite Ek in Em.
      destruct (ok_short K c fl k _ Hok Em) as (HK & Hr & Hc & Hcase). set (r := drop (pos + length K) key) in *.
      assert (need c r < need (shortNode K c fl) k)%nat by (rewrite Em; by apply need_sub).
      destruct (IH c key (pos + length K)%nat r) as (x & n' & d & E & Hg & Hd); [done|done|done|lia|].
      rewrite E. cbn [mbind outcome_bind].
      exists x, (if d then shortNode K n' fl else shortNode K c fl), d. split; [done|]. split; [|by intros ->].
      assert (same (shortNode K c fl) (if d then shortNode K n' fl else shortNode K c fl)) as Hsame.
      { destruct d; [|done]. intros k' v'. rewrite !holds_short_inv. destruct Hg as [_ _ G3 _ _].
        split; intros (r' & -> & ?); exists r'; (split; [done|]); by apply G3. }
      split; [|destruct d; [|done]|done|by destruct d|done].
      * intros v. rewrite (got_value _ _ _ _ Hg v), holds_short_inv. rewrite Em.
        split; [eauto|]. intros (r' & E'%app_inv_head & ?). by subst r'.
      * assert (hexkey k) as Hk by (destruct k; [by destruct Hok as [[=]|(? & _ & [=])]|by destruct Hok]).
        apply ok_wf; [done|right]. destruct Hcase as [(HhK & Hre & w & Hw & ->)|(Hn & Hb & Hwc & Hhr)].
        -- rewrite Hre in Hg. destruct (got_ok _ _ _ _ Hg) as [->|(u & Hu & ->)]; [by destruct (got_nil _ _ _ _ Hg)|].
           by constructor.
        -- destruct (got_branch _ _ _ _ Hg Hb). by constructor.
  - assert (∃ b r, k = b :: r ∧ hexkey (b :: r) ∧ wf (fullNode cs fl)) as (b & r & -> & Hk & Hw).
    { destruct k as [|b k]; [by destruct Hok as [[=]|(? & _ & [=])]|]. destruct Hok as [? [[=]|?]]. eauto. }
    assert (Hb : key !! pos = Some b) by (by rewrite <- (Nat.add_0_r pos), <- lookup_drop, Ek). rewrite Hb.
    destruct (wf_child cs fl b r Hw Hk) as (c & Ec & Hc). cbn [index mbind outcome_bind]. rewrite Ec. cbn [index mbind outcome_bind].
    pose proof (lookup_lt_Some _ _ _ Hb) as Hpl. pose proof (lookup_lt_Some _ _ _ Ec) as Hcl.
    pose proof (need_sub (fullNode cs fl) c [b] r ltac:(done)) as Hneed. cbn [app] in Hneed.
    destruct (IH c key (pos + 1)%nat r) as (x & n' & d & E & Hg & Hd); [by rewrite <- drop_drop, Ek|lia|done|lia|].
    rewrite E. cbn [mbind outcome_bind].
    exists x, (if d then fullNode (set_child cs b n') fl else fullNode cs fl), d. split; [done|]. split; [|by intros ->].
    assert (Hwf : d = true → wf (fullNode (set_child cs b n') fl)).
    { intros ->. destruct (decide (is_nil c)) as [En|En].
      - assert (c = nil_) as -> by (by destruct c).
        destruct fuel as [|fuel]; [unfold need in Hneed; cbn in *; lia|]. by injection E.
      - apply (wf_set_child cs fl fl b n' Hw), (ok_fits b r); [done|apply Hg|].
        apply (got_nil _ _ _ _ Hg). by intros ->. }
    split; [| | |by destruct d|].
    + intros v. rewrite (got_value _ _ _ _ Hg v), holds_full_inv. split; [eauto 10|].
      intros (b' & c' & r' & [= <- <-] & E' & ?). congruence.
    + apply ok_wf; [done|right]. destruct d; [by apply Hwf|done].
    + destruct d; [|done]. eapply same_set_child; [done|]. apply Hg.
    + intros _. destruct d; [split; [done|by apply Hwf]|done].
Qed.

(** ** Insertion *)

(** What insertion puts where there was nothing. *)
Definition place (k : bytes) (c : node) : node :=
  match k with [] => c | _ => shortNode k c newFlag end.

Lemma insert_nil fuel prefix k c : insert db_node (S fuel) nil_ prefix k c = Ret (true, place k c).
Proof. by destruct k. Qed.

Lemma holds_place k c k' v : holds (place k c) k' v ↔ ∃ r, k' = k ++ r ∧ holds c r v.
Proof.
  destruct k as [|b k]; [|apply holds_short_inv]. cbn. split; [eauto|]. by intros (r & -> & ?).
Qed.

Lemma place_leaf k v : ok k nil_ → v ≠ [] → ok k (place k (valueNode v)) ∧ place k (valueNode v) ≠ nil_.
Proof.
  intros Hk Hv. destruct k as [|b k]; [split; [right; eauto|done]|]. destruct Hk as [Hk _].
  split; [|done]. split; [done|right]. by constructor.
Qed.

Definition updated (n : node) (k v : bytes) (n' : node) : Prop :=
  ∀ k' v', holds n' k' v' ↔ (k' = k ∧ v' = v) ∨ (k' ≠ k ∧ holds n k' v').

Record inserted (n : node) (k v : bytes) (n' : node) : Prop := {
  ins_ok : ok k n';
  ins_nil : n' ≠ nil_;
  ins_holds : updated n k v n';
  ins_branch : branch n → branch n' ∧ wf n';
}.

(** An update below a prefix of the key. *)
Lemma updated_prefix (n n' c c' : node) K r v :
  (∀ k' v', holds n k' v' ↔ ∃ r', k' = K ++ r' ∧ holds c r' v') →
  (∀ k' v', holds n' k' v' ↔ ∃ r', k' = K ++ r' ∧ holds c' r' v') →
  updated c r v c' → updated n (K ++ r) v n'.
Proof.
  intros H1 H2 Hu k' v'. rewrite H2, H1. split.
  - intros (r' & -> & [[-> ->]|[Hne ?]]%Hu); [by left|right]. split; [by intros ?%app_inv_head|]. eauto.
  - intros [[-> ->]|[Hne (r' & -> & ?)]].
    + exists r. split; [done|]. apply Hu. by left.
    + exists r'. split; [done|]. apply Hu. right. split; [by intros ->|done].
Qed.

Lemma updated_child cs fl fl' b c c' r v :
  child cs b = Some c → updated c r v c' →
  updated (fullNode cs fl) (b :: r) v (fullNode (set_child cs b c') fl').
Proof.
  intros Hc Hu k' v'. rewrite !holds_full_inv. pose proof (lookup_lt_Some _ _ _ Hc) as Hl. split.
  - intros (b' & c0 & r' & -> & E & Hh). rewrite child_set in E by done. case_decide as Eb.
    + subst. injection E as <-. apply Hu in Hh as [[-> ->]|[Hne Hh]]; [by left|right].
      split; [by intros [= ->]|]. eauto 10.
    + right. split; [by intros [= -> _]|]. eauto 10.
  - intros [[-> ->]|[Hne (b' & c0 & r' & -> & E & Hh)]].
    + exists b, c', r. rewrite child_set, decide_True by done. split_and!; [done|done|]. apply Hu. by left.
    + exists b'. rewrite child_set by done. case_decide as Eb; [subst|by eauto 10].
      exists c', r'. split_and!; [done|done|]. apply Hu. right. assert (c0 = c) as -> by congruence.
      split; [by intros ->|done].
Qed.

Lemma updated_same n n' k v m : updated n k v n' → same n' m → updated n k v m.
Proof. intros Hu Hs k' v'. rewrite <- (Hs k' v'). apply Hu. Qed.

(** The branch that replaces a short node whose key differs. *)
Definition fork (y : Byte.byte) (c1 : node) (x : Byte.byte) (c2 : node) : node :=
  fullNode (set_child (set_child (replicate 17 nil_) y c1) x c2) newFlag.

Lemma fork_child y c1 x c2 b :
  (Z.to_nat (b2z y) < 17)%nat → (Z.to_nat (b2z x) < 17)%nat →
  child (set_child (set_child (replicate 17 nil_) y c1) x c2) b =
  if decide (b = x) then Some c2 else if decide (b = y) then Some c1 else child (replicate 17 nil_) b.
Proof. intros Hy Hx. by rewrite !child_set by (unfold set_child; rewrite ?length_insert, length_replicate; done). Qed.

Lemma fork_wf y c1 x c2 : x ≠ y → fits y c1 → fits x c2 → wf (fork y c1 x c2).
Proof.
  intros Hne H1 H2. apply wf_slots. pose proof (fits_index _ _ H1). pose proof (fits_index _ _ H2). split.
  - apply slots_set; [|by right]. apply slots_set; [apply slots_empty|by right].
  - apply (two_children_intro _ y x c1 c2); [done| | |by eapply fits_not_nil|by eapply fits_not_nil];
      rewrite fork_child by done; by repeat (case_decide; try done).
Qed.

Lemma fork_holds y c1 x c2 k v :
  x ≠ y → fits y c1 → fits x c2 →
  holds (fork y c1 x c2) k v ↔ (∃ r, k = y :: r ∧ holds c1 r v) ∨ (∃ r, k = x :: r ∧ holds c2 r v).
Proof.
  intros Hne H1%fits_index H2%fits_index. unfold fork. rewrite holds_full_inv. split.
  - intros (b & c & r & -> & E & Hh). rewrite fork_child in E by done.
    case_decide; [subst; injection E as <-; eauto|]. case_decide; [subst; injection E as <-; eauto|].
    apply lookup_replicate in E as [-> _]. by apply holds_nil in Hh.
  - intros [(r & -> & Hh)|(r & -> & Hh)]; eexists _, _, r; (split; [done|]); (split; [|done]);
      rewrite fork_child by done; by repeat (case_decide; try done).
Qed.

Lemma hexkey_split p y r : hexkey (p ++ y :: r) → Forall nibble p ∧ hexkey (y :: r).
Proof.
  induction p as [|b p IH]; cbn; [by split|]. intros [[-> E]|[Hb Hk]]%hexkey_head; [by destruct p|].
  destruct (IH Hk). by split; [constructor|].
Qed.

Lemma drop_app_cons {A} (p : list A) x r : drop (S (length p)) (p ++ x :: r) = r.
Proof. rewrite <- Nat.add_1_r, <- drop_drop, drop_app_length. done. Qed.

(** A node key that neither starts a key nor is continued by it. *)
Lemma short_fork K c fl k :
  hexkey k → wf (shortNode K c fl) → prefixLen k K ≠ length K →
  ∃ p x y a' b', k = p ++ x :: a' ∧ K = p ++ y :: b' ∧ x ≠ y ∧ prefixLen k K = length p ∧
    Forall nibble p ∧ hexkey (x :: a') ∧ fits y (place b' c).
Proof.
  intros Hk Hw Hne. destruct (prefixLen_spec k K) as (I1 & I2 & I3 & _).
  assert (Hlk : (prefixLen k K < length k)%nat).
  { destruct (decide (prefixLen k K = length k)) as [E|]; [exfalso|lia].
    rewrite E, take_ge in I1 by lia. assert (EK : K = k ++ drop (length k) K) by (rewrite I1 at 1; by rewrite take_drop).
    inversion Hw as [K' w fl' HK|K' c' fl' _ HK| |]; subst.
    - pose proof (hexkey_prefix_free k K _ Hk HK EK) as Hd. rewrite Hd, app_nil_r in EK. congruence.
    - by eapply nibbles_not_hexkey. }
  destruct (prefixLen_split k K) as (p & x & y & a' & b' & Ek & EK & Hxy & El); [lia|lia|].
  exists p, x, y, a', b'. rewrite Ek in Hk. destruct (hexkey_split _ _ _ Hk) as [Hp Hx]. split_and!; try done.
  inversion Hw as [K' w fl' HK Hv|K' c' fl' _ HK Hb Hc| |]; subst.
  - destruct (hexkey_split _ _ _ HK) as [_ Hy]. destruct (place_leaf b' w) as [H1 H2]; [|done|by eapply ok_fits].
    destruct b' as [|z b']; [by left|]. split; [|by left]. apply hexkey_head in Hy as [[_ [=]]|[_ ?]]. done.
  - apply Forall_app in HK as [_ [Hy Hb']%Forall_cons]. right. split; [done|]. destruct b' as [|z b']; [done|].
    by constructor.
Qed.

Lemma fork_updated p x y a' b' c fl v :
  x ≠ y → fits y (place b' c) → fits x (place a' (valueNode v)) →
  updated (shortNode (p ++ y :: b') c fl) (p ++ x :: a') v
    (place p (fork y (place b' c) x (place a' (valueNode v)))).
Proof.
  intros Hne H1 H2 k' v'. rewrite holds_place, holds_short_inv. split.
  - intros (r & -> & [(r' & -> & (r2 & -> & Hh)%holds_place)|(r' & -> & (r2 & -> & [-> ->]%holds_value_inv)%holds_place)]%fork_holds); try done.
    + right. split; [intros [= E _]%app_inv_head; congruence|]. exists r2. by rewrite <- app_assoc.
    + left. by rewrite app_nil_r.
  - intros [[-> ->]|[_ (r & -> & Hh)]]; (eexists; split; [by rewrite <- ?app_assoc|]); apply fork_holds; try done.
    + right. eexists. split; [done|]. apply holds_place. exists []. rewrite app_nil_r. split; [done|constructor].
    + left. eexists. split; [done|]. apply holds_place. eauto.
Qed.

(** Insertion with [fuel] does what it should at [n]. *)
Definition inserts_at (fuel : nat) (n : node) (k : bytes) : Prop :=
  ∀ prefix v, v ≠ [] → ∃ d n',
    insert db_node fuel n prefix k (valueNode v) = Ret (d, n') ∧ inserted n k v n' ∧ (d = false → same n n').

Definition inserts (fuel : nat) : Prop := ∀ n k, ok k n → (need n k <= fuel)%nat → inserts_at fuel n k.

Lemma insert_value fuel n : ok [] n → inserts_at (S fuel) n [].
Proof.
  intros [->|(w & Hw & ->)] prefix v Hv; cbn [insert value_differs mbind outcome_bind].
  - eexists _, _. split; [done|]. split; [|done]. split; [right; eauto|done| |by intros []].
    intros k' v'. rewrite holds_value_inv. split; [auto|]. by intros [?|[_ []%holds_nil]].
  - eexists _, _. split; [done|]. split; [split; [right; eauto|done| |by intros []]|].
    + intros k' v'. rewrite !holds_value_inv. split; [auto|]. by intros [?|[Hne [-> _]]].
    + case_bool_decide; [by subst|done].
Qed.

Lemma insert_leaf fuel k : hexkey k → inserts_at (S fuel) nil_ k.
Proof.
  intros Hk prefix v Hv. rewrite insert_nil. eexists _, _. split; [done|]. split; [|done].
  destruct (place_leaf k v) as [H1 H2]; [by apply ok_wf; auto|done|]. split; [done|done| |by intros []].
  intros k' v'. rewrite holds_place. split.
  - intros (r & -> & [-> ->]%holds_value_inv). left. by rewrite app_nil_r.
  - intros [[-> ->]|[_ []%holds_nil]]. exists []. rewrite app_nil_r. split; [done|constructor].
Qed.

Lemma same_hash h n : db_node h = Some n → same (hashNode h) n.
Proof. intros E k' v'. by apply holds_hash_inv. Qed.

Lemma branch_hash h n : db_node h = Some n → branch (hashNode h) → branch n.
Proof. intros E (cs & fl & Eb). by assert (n = fullNode cs fl) as -> by congruence. Qed.

Lemma insert_hash fuel h k :
  inserts fuel → hexkey k → wf (hashNode h) → (need (hashNode h) k <= S fuel)%nat → inserts_at (S fuel) (hashNode h) k.
Proof.
  intros IH Hk Hw Hf prefix v Hv. inversion Hw as [| | |h' n Eh Hs Hn]; subst.
  pose proof (need_hash h n k Hs). destruct (IH n k) with prefix v as (d & n' & E & [G1 G2 G3 G4] & Hd); [by apply ok_wf; auto|lia|done|].
  destruct k as [|k0 kr]; [inversion Hk|]. cbn [insert]. unfold resolveHash. rewrite Eh. cbn [mbind outcome_bind]. rewrite E.
  assert (Hu : updated (hashNode h) (k0 :: kr) v n') by (intros k' v'; rewrite (same_hash h n Eh k' v'); apply G3).
  pose proof (branch_hash h n Eh). destruct d; (eexists _, _; split; [done|]; split; [|intros; by apply same_hash]).
  - split; auto.
  - split; [by split; auto|by apply wf_not_nil| |auto].
    eapply updated_same; [exact Hu|]. intros k' v'. symmetry. by apply Hd.
Qed.

Lemma insert_short fuel K c fl r :
  inserts fuel → hexkey (K ++ r) → wf (shortNode K c fl) → (need (shortNode K c fl) (K ++ r) <= S fuel)%nat →
  inserts_at (S fuel) (shortNode K c fl) (K ++ r).
Proof.
  intros IH Hk Hw Hf prefix v Hv. assert (Hok : ok (K ++ r) (shortNode K c fl)) by (apply ok_wf; auto).
  destruct (ok_short K c fl _ r Hok eq_refl) as (HK & Hr & Hc & Hcase).
  pose proof (need_sub (shortNode K c fl) c K r HK) as Hnd.
  destruct (IH c r Hr ltac:(lia) (prefix ++ take (length K) (K ++ r)) v Hv) as (d & n' & E & [G1 G2 G3 G4] & Hd).
  assert (Hu : updated (shortNode K c fl) (K ++ r) v (shortNode K n' newFlag)).
  { eapply updated_prefix; [..|exact G3]; intros; apply holds_short_inv. }
  exists d, (if d then shortNode K n' newFlag else shortNode K c fl). split.
  { destruct (K ++ r) as [|k0 kr] eqn:Ek; [by destruct K|]. cbn [insert]. rewrite <- Ek, prefixLen_app, Nat.eqb_refl, drop_app_length.
    rewrite Ek, E. by destruct d. }
  split; [|by intros ->]. destruct d.
  - split; [|done|done|by intros []]. apply ok_wf; [done|right].
    destruct Hcase as [(HhK & -> & w & Hw' & ->)|(HnK & Hb & Hwc & Hhr)].
    + destruct G1 as [->|(u & Hu' & ->)]; [done|]. by constructor.
    + destruct (G4 Hb). by constructor.
  - split; [done|done| |by intros []]. eapply updated_same; [exact Hu|]. intros k' v'. rewrite !holds_short_inv.
    split; intros (r' & -> & Hh); exists r'; (split; [done|]); by apply Hd.
Qed.

Lemma insert_fork fuel K c fl k :
  hexkey k → wf (shortNode K c fl) → prefixLen k K ≠ length K → inserts_at (S (S fuel)) (shortNode K c fl) k.
Proof.
  intros Hk Hw Em prefix v Hv.
  destruct (short_fork K c fl k Hk Hw Em) as (p & x & y & a' & b' & Ek & EK & Hxy & El & Hp & Hx & Hy).
  assert (Hx2 : fits x (place a' (valueNode v))).
  { destruct (place_leaf a' v) as [H1 H2]; [|done|by eapply ok_fits].
    destruct a' as [|z a']; [by left|]. split; [|by left]. apply hexkey_head in Hx as [[_ [=]]|[_ ?]]. done. }
  exists true, (place p (fork y (place b' c) x (place a' (valueNode v)))). split; [|split; [|done]].
  - remember (S fuel) as f eqn:Ef. destruct k as [|k0 kr] eqn:E0; [inversion Hk|]. cbn [insert]. rewrite <- E0 in *. apply Nat.eqb_neq in Em. rewrite Em.
    rewrite El, Ek, EK, !list_lookup_middle by done. cbn [index mbind outcome_bind]. rewrite Ef, !insert_nil. cbn [mbind outcome_bind].
    rewrite take_app_length, !drop_app_cons. by destruct p.
  - pose proof (fork_wf y _ x _ Hxy Hy Hx2) as Hfork. split; [|by destruct p| |by intros []].
    + apply ok_wf; [done|right]. destruct p as [|z p]; [done|]. by constructor.
    + rewrite Ek, EK. by apply fork_updated.
Qed.

Lemma insert_full fuel cs fl b k :
  inserts fuel → hexkey (b :: k) → wf (fullNode cs fl) → (need (fullNode cs fl) (b :: k) <= S fuel)%nat →
  inserts_at (S fuel) (fullNode cs fl) (b :: k).
Proof.
  intros IH Hk Hw Hf prefix v Hv. destruct (wf_child cs fl b k Hw Hk) as (c & Ec & Hc).
  pose proof (need_sub (fullNode cs fl) c [b] k ltac:(done)) as Hnd. cbn [app] in Hnd.
  destruct (IH c k Hc ltac:(lia) (prefix ++ [b]) v Hv) as (d & n' & E & [G1 G2 G3 G4] & Hd).
  cbn [insert]. rewrite Ec. cbn [index mbind outcome_bind]. rewrite E. cbn [mbind outcome_bind].
  pose proof (updated_child cs fl newFlag b c n' k v Ec G3) as Hu.
  assert (Hw' : wf (fullNode (set_child cs b n') newFlag)) by (eapply wf_set_child; [exact Hw|]; by eapply ok_fits).
  destruct d; (eexists _, _; split; [done|]; split; [|done]).
  - split; [by split; auto|done|done|done].
  - split; [by split; auto|done| |done].
    eapply updated_same; [exact Hu|]. intros k' v'. symmetry. apply same_set_child with c; [done|]. by apply Hd.
Qed.

Lemma insert_spec fuel : inserts fuel.
Proof.
  induction fuel as [|fuel IH]; intros n k Hok Hf; [unfold need in Hf; destruct n; lia|].
  destruct k as [|k0 kr]; [by apply insert_value|]. destruct Hok as [Hk Hn].
  destruct n as [|w|h|K c fl|cs fl]; [by apply insert_leaf| |..]; destruct Hn as [[=]|Hw].
  - inversion Hw.
  - by apply insert_hash.
  - destruct (decide (prefixLen (k0 :: kr) K = length K)) as [Em|Em].
    + destruct (prefixLen_full _ _ Em) as [r Er]. rewrite Er in *. by apply insert_short.
    + destruct fuel as [|fuel]; [unfold need in Hf; cbn in Hf; lia|]. by apply insert_fork.
  - by apply insert_full.
Qed.

(** ** Deletion *)

Lemma only_child_rest cs i p :
  0 <= p →
  (only_child cs i p = p ∧ ∀ j c, cs !! j = Some c → c = nil_) ∨
  (only_child cs i p = -2 ∧ ∃ j c, cs !! j = Some c ∧ c ≠ nil_).
Proof.
  intros Hp. revert i. induction cs as [|c cs IH]; intros i; cbn [only_child]; [by left|].
  destruct (is_nil c) eqn:E.
  - destruct c; try done. destruct (IH (i + 1)) as [[E1 H1]|[E1 (j & c & Hj & Hc)]]; rewrite E1.
    + left. split; [done|]. intros [|j] c Hj; [by injection Hj|by eapply H1].
    + right. split; [done|]. by exists (S j), c.
  - destruct (Z.eqb_spec p (-1)); [lia|]. right. split; [done|]. exists 0%nat, c. split; [done|]. by intros ->.
Qed.

Lemma only_child_spec cs i :
  0 <= i →
  (only_child cs i (-1) = -1 ∧ ∀ j c, cs !! j = Some c → c = nil_) ∨
  (∃ j c, only_child cs i (-1) = i + Z.of_nat j ∧ cs !! j = Some c ∧ c ≠ nil_ ∧
    ∀ j' c', cs !! j' = Some c' → j' ≠ j → c' = nil_) ∨
  (only_child cs i (-1) = -2 ∧ two_children cs).
Proof.
  revert i. induction cs as [|c cs IH]; intros i Hi; cbn [only_child]; [by left|].
  destruct (is_nil c) eqn:E.
  - destruct c; try done. destruct (IH (i + 1) ltac:(lia)) as [[E1 H1]|[(j & c & E1 & Hj & Hc & Ho)|[E1 (j & j' & a & b & Hj)]]]; rewrite E1.
    + left. split; [done|]. intros [|j] c Hj; [by injection Hj|by eapply H1].
    + right. left. exists (S j), c. split_and!; [lia|done|done|]. intros [|j'] c' Hj' Hne; [by injection Hj'|]. apply (Ho j'); [done|lia].
    + right. right. split; [done|]. exists (S j), (S j'), a, b. cbn. destruct Hj as (? & ? & ? & ? & ?). split_and!; try done. lia.
  - assert (c ≠ nil_) by (by intros ->). rewrite Z.eqb_refl. destruct (only_child_rest cs (i + 1) i Hi) as [[E1 H1]|[E1 (j & c' & Hj & Hc)]]; rewrite E1.
    + right. left. exists 0%nat, c. split_and!; [lia|done|done|]. intros [|j'] c' Hj' Hne; [done|by eapply H1].
    + right. right. split; [done|]. exists 0%nat, (S j), c, c'. split_and!; try done. lia.
Qed.

Lemma holds_only cs fl j c k v :
  cs !! j = Some c → (j < 17)%nat → (∀ j' c', cs !! j' = Some c' → j' ≠ j → c' = nil_) →
  holds (fullNode cs fl) k v ↔ ∃ r, k = z2b (Z.of_nat j) :: r ∧ holds c r v.
Proof.
  intros Hj Hl Ho. assert (Ej : Z.to_nat (b2z (z2b (Z.of_nat j))) = j) by (rewrite b2z_z2b, Z.mod_small; lia).
  rewrite holds_full_inv. unfold child. split.
  - intros (b & c' & r & -> & Hb & Hh). destruct (decide (Z.to_nat (b2z b) = j)) as [E|E].
    + rewrite E in Hb. exists r. replace c' with c in Hh by congruence. split; [|done]. f_equal. apply b2z_to_nat_inj. congruence.
    + rewrite (Ho _ _ Hb E) in Hh. by apply holds_nil in Hh.
  - intros (r & -> & Hh). eexists _, c, r. rewrite Ej. done.
Qed.

(** Merging a prefix into the short node below it. *)
Lemma merge_short p K c fl fl' fl'' :
  Forall nibble p → wf (shortNode K c fl) →
  wf (shortNode (p ++ K) c fl') ∧ same (shortNode p (shortNode K c fl) fl'') (shortNode (p ++ K) c fl').
Proof.
  intros Hp Hw. split.
  - inversion Hw as [K' w fl0 HK Hv|K' c' fl0 HK Hn Hb Hc| |]; subst.
    + constructor; [by apply hexkey_app|done].
    + constructor; [by destruct p, K|by apply Forall_app|done|done].
  - intros k v. rewrite !holds_short_inv. split.
    + intros (r & -> & (r' & -> & Hh)%holds_short_inv). exists r'. by rewrite app_assoc.
    + intros (r & -> & Hh). exists (K ++ r). rewrite app_assoc. split; [done|]. apply holds_short_inv. eauto.
Qed.

Lemma same_under K c c' fl fl' : same c c' → same (shortNode K c fl) (shortNode K c' fl').
Proof. intros Hs k v. rewrite !holds_short_inv. split; intros (r & -> & Hh); exists r; (split; [done|]); by apply Hs. Qed.

Lemma resolve_wf c prefix :
  wf c → ∃ n, resolve db_node c prefix = Ret n ∧ solid n ∧ wf n ∧ same c n ∧
    (∀ cs fl, n = fullNode cs fl → branch c).
Proof.
  intros Hw. inversion Hw as [K w fl|K c' fl|cs fl|h n Eh Hs Hn]; subst; try (eexists; split_and!; [done..|]; by intros).
  exists n. unfold resolve, resolveHash. rewrite Eh. split_and!; [done|done|done|by apply same_hash|].
  intros cs fl ->. by exists cs, fl.
Qed.

Lemma reduce_full_spec cs prefix :
  slots cs → (∃ j c, cs !! j = Some c ∧ c ≠ nil_) →
  ∃ n', reduce_full db_node cs prefix = Ret (true, n') ∧ wf n' ∧ solid n' ∧ same (fullNode cs newFlag) n'.
Proof.
  intros (Hl & H1 & H2) Hone. unfold reduce_full. cbv zeta.
  destruct (only_child_spec cs 0 ltac:(lia)) as [[_ Hn]|[(j & c & E & Hj & Hc & Ho)|[E Htwo]]].
  - destruct Hone as (j & c & Hj & Hc). by destruct (Hc (Hn j c Hj)).
  - rewrite Z.add_0_l in E. rewrite E. pose proof (lookup_lt_Some _ _ _ Hj) as Hj17. rewrite Hl in Hj17.
    rewrite (proj2 (Z.leb_le 0 (Z.of_nat j))) by lia. rewrite Nat2Z.id, Hj. cbn [index mbind outcome_bind].
    pose proof (holds_only cs newFlag j c) as Hh. set (b := z2b (Z.of_nat j)) in *.
    assert (Hsame : same (fullNode cs newFlag) (shortNode [b] c newFlag)).
    { intros k v. rewrite Hh, holds_short_inv by done. done. }
    destruct (Z.eqb_spec (Z.of_nat j) 16) as [E16|E16]; cbn [negb mbind outcome_bind].
    + assert (j = 16%nat) as -> by lia. destruct (H2 c Hj Hc) as (v & Hv & ->).
      eexists. split_and!; [done| |done|done]. constructor; [constructor|done].
    + pose proof (H1 j c Hj ltac:(lia) Hc) as Hw. assert (Hb : nibble b) by (apply b2z_nibble; lia).
      destruct (resolve_wf c prefix Hw) as (n & -> & Hs & Hn & Hsn & Hbr). cbn [mbind outcome_bind].
      destruct n as [| | |K c' fl|cs' fl']; try done.
      * destruct (merge_short [b] K c' fl newFlag newFlag ltac:(by constructor) Hn) as [M1 M2].
        eexists. split_and!; [done|done|done|]. intros k v. rewrite (Hsame k v), (same_under [b] c _ newFlag newFlag Hsn k v). apply M2.
      * eexists. split_and!; [done| |done|done]. constructor; [done|by constructor|by eapply Hbr|done].
  - rewrite E. cbn. eexists. split_and!; [done| |done|done]. by apply wf_slots.
Qed.

Definition removed (n : node) (k : bytes) (n' : node) : Prop :=
  ∀ k' v', holds n' k' v' ↔ k' ≠ k ∧ holds n k' v'.

Record erased (n : node) (k : bytes) (n' : node) : Prop := {
  era_ok : ok k n';
  era_holds : removed n k n';
  era_branch : branch n → solid n' ∧ wf n';
}.

Definition deletes_at (fuel : nat) (n : node) (k : bytes) : Prop :=
  ∀ prefix, ∃ d n', delete_ db_node fuel n prefix k = Ret (d, n') ∧ erased n k n' ∧ (d = false → same n n').

Definition deletes (fuel : nat) : Prop := ∀ n k, ok k n → (need n k <= fuel)%nat → deletes_at fuel n k.

Lemma removed_same n n' k m : removed n k n' → same n' m → removed n k m.
Proof. intros Hu Hs k' v'. rewrite <- (Hs k' v'). apply Hu. Qed.

Lemma removed_short K c c' fl fl' r :
  removed c r c' → removed (shortNode K c fl) (K ++ r) (shortNode K c' fl').
Proof.
  intros Hu k' v'. rewrite !holds_short_inv. split.
  - intros (r' & -> & [Hne ?]%Hu). split; [by intros ?%app_inv_head|eauto].
  - intros (Hne & r' & -> & ?). exists r'. split; [done|]. apply Hu. split; [by intros ->|done].
Qed.

Lemma removed_child cs fl fl' b c c' r :
  child cs b = Some c → removed c r c' → removed (fullNode cs fl) (b :: r) (fullNode (set_child cs b c') fl').
Proof.
  intros Hc Hu k' v'. rewrite !holds_full_inv. pose proof (lookup_lt_Some _ _ _ Hc) as Hl. split.
  - intros (b' & c0 & r' & -> & E & Hh). rewrite child_set in E by done. case_decide as Eb.
    + subst. injection E as <-. apply Hu in Hh as [Hne Hh]. split; [by intros [= ->]|eauto 10].
    + split; [by intros [= -> _]|eauto 10].
  - intros (Hne & b' & c0 & r' & -> & E & Hh). exists b'. rewrite child_set by done.
    case_decide as Eb; [subst|by eauto 10]. assert (c0 = c) as -> by congruence.
    exists c', r'. split_and!; [done|done|]. apply Hu. split; [by intros ->|done].
Qed.

Lemma delete_hash fuel h k :
  deletes fuel → hexkey k → wf (hashNode h) → (need (hashNode h) k <= S fuel)%nat → deletes_at (S fuel) (hashNode h) k.
Proof.
  intros IH Hk Hw Hf prefix. inversion Hw as [| | |h' n Eh Hs Hn]; subst.
  pose proof (need_hash h n k Hs). destruct (IH n k) with prefix as (d & n' & E & [G1 G2 G3] & Hd); [by apply ok_wf; auto|lia|].
  cbn [delete_]. unfold resolveHash. rewrite Eh. cbn [mbind outcome_bind]. rewrite E.
  assert (Hu : removed (hashNode h) k n') by (intros k' v'; rewrite (same_hash h n Eh k' v'); apply G2).
  pose proof (branch_hash h n Eh). destruct d; (eexists _, _; split; [done|]; split; [|intros; by apply same_hash]).
  - split; auto.
  - split; [by apply ok_wf; auto| |auto]. eapply removed_same; [exact Hu|]. intros k' v'. symmetry. by apply Hd.
Qed.

Lemma delete_short fuel K c fl r :
  deletes fuel → hexkey (K ++ r) → wf (shortNode K c fl) → (need (shortNode K c fl) (K ++ r) <= S fuel)%nat →
  deletes_at (S fuel) (shortNode K c fl) (K ++ r).
Proof.
  intros IH Hk Hw Hf prefix. assert (Hok : ok (K ++ r) (shortNode K c fl)) by (apply ok_wf; auto).
  destruct (ok_short K c fl _ r Hok eq_refl) as (HK & Hr & Hc & Hcase).
  cbn [delete_]. rewrite prefixLen_app, Nat.ltb_irrefl.
  destruct Hcase as [(HhK & -> & w & Hv & ->)|(HnK & Hb & Hwc & Hhr)].
  - rewrite app_nil_r, Nat.eqb_refl. eexists _, _. split; [done|]. split; [|done]. split; [apply ok_wf; auto| |by intros []].
    intros k' v'. split; [by intros []%holds_nil|]. intros [Hne (r & -> & [-> _]%holds_value_inv)%holds_short_inv].
    by rewrite app_nil_r in Hne.
  - pose proof (hexkey_nonempty _ Hhr). assert ((length K =? length (K ++ r))%nat = false) as ->.
    { apply Nat.eqb_neq. rewrite length_app. destruct r; [done|]. cbn. lia. }
    pose proof (need_sub (shortNode K c fl) c K r HK) as Hnd. rewrite drop_app_length, take_app_length.
    destruct (IH c r Hr ltac:(lia) (prefix ++ K)) as (d & n' & -> & [G1 G2 G3] & Hd). cbn [mbind outcome_bind].
    pose proof (removed_short K c n' fl newFlag r G2) as Hu. destruct (G3 Hb) as [Hs Hw'].
    destruct d.
    + destruct n' as [| | |K' c' fl'|cs' fl']; try done; (eexists _, _; split; [done|]; split; [|done]).
      * destruct (merge_short K K' c' fl' newFlag newFlag HnK Hw') as [M1 M2].
        split; [by apply ok_wf; auto|by eapply removed_same|by intros []].
      * split; [apply ok_wf; [done|right]; by constructor|done|by intros []].
    + eexists _, _. split; [done|]. split; [|done]. split; [done| |by intros []].
      eapply removed_same; [exact Hu|]. apply same_under. intros k' v'. symmetry. by apply Hd.
Qed.

Lemma delete_full fuel cs fl b k :
  deletes fuel → hexkey (b :: k) → wf (fullNode cs fl) → (need (fullNode cs fl) (b :: k) <= S fuel)%nat →
  deletes_at (S fuel) (fullNode cs fl) (b :: k).
Proof.
  intros IH Hk Hw Hf prefix. destruct (wf_child cs fl b k Hw Hk) as (c & Ec & Hc).
  pose proof (need_sub (fullNode cs fl) c [b] k ltac:(done)) as Hnd. cbn [app] in Hnd.
  destruct (IH c k Hc ltac:(lia) (prefix ++ [b])) as (d & n' & E & [G1 G2 G3] & Hd).
  cbn [delete_]. rewrite Ec. cbn [index mbind outcome_bind]. rewrite E. cbn [mbind outcome_bind].
  pose proof (removed_child cs fl newFlag b c n' k Ec G2) as Hu. pose proof (proj1 (wf_slots cs fl) Hw) as [Hsl Htwo].
  destruct d.
  - destruct (reduce_full_spec (set_child cs b n') prefix) as (n2 & -> & Hw2 & Hs2 & Hsame).
    + apply slots_set; [done|]. destruct (decide (is_nil n')) as [En|En].
      * left. split; [by destruct n'|]. by eapply hexkey_index.
      * right. eapply ok_fits; [done|done|]. by intros ->.
    + destruct Htwo as (i & j & x & y & Hij & Hx & Hy & Hnx & Hny). unfold set_child.
      destruct (decide (i = Z.to_nat (b2z b))) as [Ei|Ei].
      * exists j, y. rewrite list_lookup_insert_ne by lia. done.
      * exists i, x. rewrite list_lookup_insert_ne by done. done.
    + eexists _, _. split; [done|]. split; [|done]. split; [by apply ok_wf; auto|by eapply removed_same|done].
  - eexists _, _. split; [done|]. split; [|done]. split; [by apply ok_wf; auto| |done].
    eapply removed_same; [exact Hu|]. intros k' v'. symmetry. apply same_set_child with c; [done|]. by apply Hd.
Qed.

Lemma delete_spec fuel : deletes fuel.
Proof.
  induction fuel as [|fuel IH]; intros n k Hok Hf; [unfold need in Hf; destruct n; lia|].
  assert (Hnil : deletes_at (S fuel) nil_ k ∨ n ≠ nil_) by (destruct (decide (is_nil n)) as [E|E]; [left|right; by intros ->];
    destruct n; try done; intros prefix; eexists _, _; split; [done|]; split; [|done]; split; [done| |by intros []];
    intros k' v'; split; [by intros []%holds_nil|by intros [_ []%holds_nil]]).
  destruct k as [|k0 kr].
  { destruct Hok as [->|(w & Hw & ->)]; [by destruct Hnil|]. intros prefix. eexists _, _. split; [done|]. split; [|done].
    split; [by left| |by intros []]. intros k' v'. split; [by intros []%holds_nil|]. intros [Hne [-> _]%holds_value_inv]. done. }
  destruct Hok as [Hk [->|Hw]]; [by destruct Hnil|]. destruct n as [|w|h|K c fl|cs fl]; [inversion Hw|inversion Hw|..].
  - by apply delete_hash.
  - destruct (decide (prefixLen (k0 :: kr) K = length K)) as [Em|Em].
    + destruct (prefixLen_full _ _ Em) as [r Er]. rewrite Er in *. by apply delete_short.
    + intros prefix. cbn [delete_]. destruct (prefixLen_spec (k0 :: kr) K) as (_ & _ & Hle & _).
      rewrite (proj2 (Nat.ltb_lt _ _)) by lia. eexists _, _. split; [done|]. split; [|done].
      split; [by split; auto| |by intros []]. intros k' v'. split; [|by intros [_ ?]]. intros Hh. split; [|done].
      intros ->. apply holds_short_inv in Hh as (r & E & _). rewrite E, prefixLen_app in Em. done.
  - by apply delete_full.
Qed.

(** ** Canonical form *)

Lemma wf_full_at cs fl i c :
  wf (fullNode cs fl) → cs !! i = Some c → c ≠ nil_ → (i < 17)%nat ∧ fits (z2b (Z.of_nat i)) c ∧ child cs (z2b (Z.of_nat i)) = Some c.
Proof.
  intros [(Hl & H1 & H2) _]%wf_slots Hi Hc. pose proof (lookup_lt_Some _ _ _ Hi) as Hl'. rewrite Hl in Hl'.
  assert (Ei : b2z (z2b (Z.of_nat i)) = Z.of_nat i) by (rewrite b2z_z2b, Z.mod_small; lia).
  split_and!; [done| |by unfold child; rewrite Ei, Nat2Z.id].
  destruct (decide (i = 16%nat)) as [->|]; [left; split; [done|by apply H2]|right].
  split; [apply b2z_nibble; lia|]. by apply (H1 i); [|lia|].
Qed.

Lemma wf_holds n : wf n → ∃ k v, holds n k v.
Proof.
  induction 1 as [K v fl|K c fl HK Hn Hb Hc (k & v & IH)|cs fl Hl H1 IH H2 (i & j & a & b & Hij & Ha & Hb & Hna & _)|h n E Hs Hn (k & v & IH)].
  - exists (K ++ []), v. constructor. constructor.
  - exists (K ++ k), v. by constructor.
  - pose proof (lookup_lt_Some _ _ _ Hb) as Hj. destruct (IH i a Ha ltac:(lia) Hna) as (k & v & Hh).
    exists (z2b (Z.of_nat i) :: k), v. econstructor; [|exact Hh]. unfold child.
    rewrite b2z_z2b, Z.mod_small, Nat2Z.id by lia. done.
  - exists k, v. by econstructor.
Qed.

Lemma fits_holds b c : fits b c → ∃ k v, holds c k v.
Proof. intros [(_ & v & _ & ->)|[_ Hw]]; [exists [], v; constructor|by apply wf_holds]. Qed.

(** A branch holds keys that differ at once. *)
Lemma full_two cs fl :
  wf (fullNode cs fl) → ∃ b b' k k' v v', b ≠ b' ∧ holds (fullNode cs fl) (b :: k) v ∧ holds (fullNode cs fl) (b' :: k') v'.
Proof.
  intros Hw. pose proof (proj1 (wf_slots cs fl) Hw) as [_ (i & j & x & y & Hij & Hx & Hy & Hnx & Hny)].
  destruct (wf_full_at cs fl i x Hw Hx Hnx) as (Hi & Hf & Hc). destruct (wf_full_at cs fl j y Hw Hy Hny) as (Hj & Hf' & Hc').
  destruct (fits_holds _ _ Hf) as (k & v & Hh). destruct (fits_holds _ _ Hf') as (k' & v' & Hh').
  exists (z2b (Z.of_nat i)), (z2b (Z.of_nat j)), k, k', v, v'. split_and!; [|by econstructor|by econstructor].
  intros E%(f_equal b2z). rewrite !b2z_z2b, !Z.mod_small in E by lia. lia.
Qed.

Lemma branch_two c :
  branch c → wf c → ∃ b b' k k' v v', b ≠ b' ∧ holds c (b :: k) v ∧ holds c (b' :: k') v'.
Proof.
  destruct c as [| |h| |cs fl]; try done; intros Hb Hw; [|by eapply full_two]. destruct Hb as (cs & fl & E).
  inversion Hw as [| | |h' n E' Hs Hn]; subst. assert (n = fullNode cs fl) as -> by congruence.
  destruct (full_two cs fl Hn) as (b & b' & k & k' & v & v' & Hne & H1 & H2). exists b, b', k, k', v, v'.
  split_and!; [done|by econstructor..].
Qed.

(** Two nodes are the same up to flags and up to loading. *)
Inductive sim : node → node → Prop :=
  | sim_nil : sim nil_ nil_
  | sim_value v : sim (valueNode v) (valueNode v)
  | sim_short K c c' fl fl' : sim c c' → sim (shortNode K c fl) (shortNode K c' fl')
  | sim_full cs cs' fl fl' :
      length cs = length cs' → (∀ i c c', cs !! i = Some c → cs' !! i = Some c' → sim c c') →
      sim (fullNode cs fl) (fullNode cs' fl')
  | sim_hash_l h n n' : db_node h = Some n → sim n n' → sim (hashNode h) n'
  | sim_hash_r h n n' : db_node h = Some n' → sim n n' → sim n (hashNode h).

(** The key of an extension is what its keys have in common. *)
Lemma common_prefix (K K' : bytes) b b' k k' r r' :
  b ≠ b' → K ++ b :: k = K' ++ r → K ++ b' :: k' = K' ++ r' → ∃ s, K = K' ++ s.
Proof.
  intros Hne. revert K'. induction K as [|x K IH]; intros [|x' K'] Hr Hr'; cbn in *; [by exists []| |by eexists|].
  - congruence.
  - injection Hr as <- Hr. injection Hr' as Hr'. destruct (IH K' Hr Hr') as [s ->]. by exists s.
Qed.

Lemma ext_prefix K c fl K' c' fl' :
  branch c → wf c → same (shortNode K c fl) (shortNode K' c' fl') → ∃ s, K = K' ++ s.
Proof.
  intros Hb Hw Hs. destruct (branch_two c Hb Hw) as (b & b' & k & k' & v & v' & Hne & H1 & H2).
  pose proof (proj1 (Hs (K ++ b :: k) v) ltac:(by constructor)) as (r & Er & _)%holds_short_inv.
  pose proof (proj1 (Hs (K ++ b' :: k') v') ltac:(by constructor)) as (r' & Er' & _)%holds_short_inv.
  by eapply common_prefix.
Qed.

Lemma same_sym n n' : same n n' → same n' n.
Proof. intros Hs k v. symmetry. apply Hs. Qed.

Lemma same_trans n1 n2 n3 : same n1 n2 → same n2 n3 → same n1 n3.
Proof. intros H1 H2 k v. rewrite (H1 k v). apply H2. Qed.

Lemma ext_same K K' c c' fl fl' :
  branch c → wf c → branch c' → wf c' → same (shortNode K c fl) (shortNode K' c' fl') → K = K' ∧ same c c'.
Proof.
  intros Hb Hw Hb' Hw' Hs. destruct (ext_prefix _ _ _ _ _ _ Hb Hw Hs) as [s1 E1].
  destruct (ext_prefix _ _ _ _ _ _ Hb' Hw' (same_sym _ _ Hs)) as [s2 E2].
  assert (s1 = []) as ->. { apply (f_equal length) in E1, E2. rewrite length_app in E1, E2. destruct s1; [done|cbn in *; lia]. }
  rewrite app_nil_r in E1. subst K'. split; [done|]. intros k v. specialize (Hs (K ++ k) v). rewrite !holds_short_inv in Hs.
  split; intros Hh; [destruct (proj1 Hs) as (r & E & ?)|destruct (proj2 Hs) as (r & E & ?)]; eauto; by apply app_inv_head in E as ->.
Qed.

(** A leaf holds one key only. *)
Lemma leaf_not_branching K v fl K' c fl' :
  branch c → wf c → ¬ same (shortNode K (valueNode v) fl) (shortNode K' c fl').
Proof.
  intros Hb Hw Hs. destruct (branch_two c Hb Hw) as (b & b' & k & k' & w & w' & Hne & H1 & H2).
  pose proof (proj2 (Hs (K' ++ b :: k) w) ltac:(by constructor)) as (r & Er & [-> _]%holds_value_inv)%holds_short_inv.
  pose proof (proj2 (Hs (K' ++ b' :: k') w') ltac:(by constructor)) as (r' & Er' & [-> _]%holds_value_inv)%holds_short_inv.
  rewrite <- Er' in Er. by apply app_inv_head in Er as [= ].
Qed.

Lemma short_not_full K c fl cs fl' : K ≠ [] → wf (fullNode cs fl') → ¬ same (shortNode K c fl) (fullNode cs fl').
Proof.
  intros HK Hw Hs. destruct (full_two cs fl' Hw) as (b & b' & k & k' & w & w' & Hne & H1 & H2).
  apply Hs in H1, H2. apply holds_short_inv in H1 as (r & E1 & _), H2 as (r' & E2 & _).
  destruct K as [|x K]; [done|]. cbn in E1, E2. congruence.
Qed.

Lemma short_key n K c fl : n = shortNode K c fl → wf n → K ≠ [].
Proof. intros -> Hw. inversion Hw; subst; [by apply hexkey_nonempty|done]. Qed.

Lemma full_child_same cs cs' fl fl' i c c' :
  (i < 17)%nat → same (fullNode cs fl) (fullNode cs' fl') → cs !! i = Some c → cs' !! i = Some c' → same c c'.
Proof.
  intros Hi Hs Hc Hc' k v. set (b := z2b (Z.of_nat i)).
  assert (Ei : Z.to_nat (b2z b) = i) by (unfold b; rewrite b2z_z2b, Z.mod_small; lia).
  specialize (Hs (b :: k) v). rewrite !holds_full_inv in Hs. unfold child in Hs. split; intros Hh.
  - destruct (proj1 Hs) as (b0 & c0 & r & [= <- <-] & E & Hh'); [eexists b, c, k; by rewrite Ei|]. rewrite Ei in E. congruence.
  - destruct (proj2 Hs) as (b0 & c0 & r & [= <- <-] & E & Hh'); [eexists b, c', k; by rewrite Ei|]. rewrite Ei in E. congruence.
Qed.

Lemma wf_loaded n : wf n → ∃ m, solid m ∧ wf m ∧ same n m ∧ ∀ x, sim x m → sim x n.
Proof.
  intros Hw. inversion Hw as [| | |h m E Hs Hm]; subst; try (eexists; split_and!; [| exact Hw|by intros|]; done).
  exists m. split_and!; [done|done|by apply same_hash|]. intros x Hx. by econstructor.
Qed.

Lemma not_nil_same b c c' : fits b c → same c c' → c' ≠ nil_.
Proof. intros (k & v & Hh)%fits_holds Hs ->. apply Hs in Hh. by apply holds_nil in Hh. Qed.

Lemma canonical n : wf n → ∀ n', wf n' → same n n' → sim n n'.
Proof.
  induction 1 as [K v fl HK Hv|K c fl HK Hn Hb Hc IH|cs fl Hl H1 IH H2 H3|h n E Hs Hn IH]; intros n0 Hw0 Hs0.
  1-3: destruct (wf_loaded n0 Hw0) as (m & Hsm & Hwm & Hsame & Hm); apply Hm; clear Hm; pose proof (same_trans _ _ _ Hs0 Hsame) as Hnm; clear Hs0 Hsame Hw0.
  1-3: destruct m as [| | |K' c' fl'|cs' fl']; try done.
  - inversion Hwm as [K0 w fl0 HK0 Hv0|K0 c0 fl0 HK0 Hn0 Hb0 Hc0| |]; subst; [|by apply leaf_not_branching in Hnm].
    pose proof (proj1 (Hnm (K ++ []) v) ltac:(constructor; constructor)) as (r & E & [-> ->]%holds_value_inv)%holds_short_inv.
    rewrite !app_nil_r in E. subst. constructor. constructor.
  - apply short_not_full in Hnm; [done|by apply hexkey_nonempty|done].
  - inversion Hwm as [K0 w fl0 HK0 Hv0|K0 c0 fl0 HK0 Hn0 Hb0 Hc0| |]; subst; [by apply same_sym, leaf_not_branching in Hnm|].
    destruct (ext_same K K' c c' fl fl' Hb Hc Hb0 Hc0 Hnm) as [-> Hs]. constructor. by apply IH.
  - by apply short_not_full in Hnm.
  - apply same_sym in Hnm. apply short_not_full in Hnm; [done|by eapply short_key|by constructor].
  - pose proof (proj1 (wf_slots cs' fl') Hwm) as [(Hl' & _) _]. constructor; [congruence|]. intros i c c' Hc Hc'.
    pose proof (lookup_lt_Some _ _ _ Hc) as Hi. rewrite Hl in Hi.
    pose proof (full_child_same cs cs' fl fl' i c c' Hi Hnm Hc Hc') as Hsc.
    assert (Hw : wf (fullNode cs fl)) by (by constructor).
    destruct (decide (is_nil c)) as [Ec|Ec].
    + assert (c = nil_) as -> by (by destruct c). destruct (decide (is_nil c')) as [Ec'|Ec']; [destruct c'; try done; constructor|].
      destruct (wf_full_at cs' fl' i c' Hwm Hc') as (_ & Hf & _); [by intros ->|]. by destruct (not_nil_same _ _ _ Hf (same_sym _ _ Hsc)).
    + assert (Hnc : c ≠ nil_) by (by intros ->). destruct (wf_full_at cs fl i c Hw Hc Hnc) as (_ & Hf & _).
      pose proof (not_nil_same _ _ _ Hf Hsc) as Hnc'. destruct (wf_full_at cs' fl' i c' Hwm Hc' Hnc') as (_ & [[Ei' (w & _ & ->)]|[Hi' Hwc']] & _).
      * destruct Hf as [[_ (w0 & _ & ->)]|[Hib _]]; [|by rewrite Ei' in Hib; apply term_not_nibble in Hib].
        pose proof (proj1 (Hsc [] w0) ltac:(constructor)) as [_ ->]%holds_value_inv. constructor.
      * destruct Hf as [[Ei _]|[Hib _]]; [by rewrite Ei in Hi'; apply term_not_nibble in Hi'|].
        apply (IH i c); try done. unfold nibble in Hib. rewrite b2z_z2b, Z.mod_small in Hib by lia. lia.
  - econstructor; [exact E|]. apply IH; [done|]. eapply same_trans; [|exact Hs0]. apply same_sym. by apply same_hash.
Qed.

End Store.
End TrieProofs.
