(* ===== verification/TrieClaims.v ===== *)
(** * TrieClaims: the trie as a finite map

    A trie represents a map from keys to values. Its operations are lookup,
    insertion and deletion of that map, and the map determines the trie. *)

From stdpp Require Import base gmap list.
From Stdlib Require Import ZArith Lia.
From S2P Require Import Prelude Trie TrieProofs.

Local Open Scope Z_scope.

Module TrieClaims.
Import Trie TrieProofs.

Section Claims.
Context (db_node : bytes → option node).

Record represents (t : Trie) (m : gmap bytes bytes) : Prop := {
  rep_wf : root t = nil_ ∨ wf db_node (root t);
  rep_map : ∀ key v, m !! key = Some v ↔ holds db_node (root t) (keybytesToHex key) v;
  rep_keys : ∀ k v, holds db_node (root t) k v → ∃ key, k = keybytesToHex key;
}.

Lemma represents_empty n : represents (mk_Trie nil_ n) ∅.
Proof. split; [by left| |by intros k v []%holds_nil]. intros key v. rewrite lookup_empty. split; [done|by intros []%holds_nil]. Qed.

Lemma represents_ok t m key : represents t m → ok db_node (keybytesToHex key) (root t).
Proof. intros [Hw _ _]. apply ok_wf; [apply hexkey_keybytes|done]. Qed.

Lemma fuel_enough n k : (need n k <= fuel_for k)%nat.
Proof. unfold need, fuel_for. destruct n; lia. Qed.

(** A new root that holds what the map holds after a change at [key]. *)
Lemma represents_change t m t' m' key :
  represents t m → ok db_node (keybytesToHex key) (root t') →
  (∀ k v, holds db_node (root t') k v → k = keybytesToHex key ∨ holds db_node (root t) k v) →
  (∀ key' v, m' !! key' = Some v ↔ holds db_node (root t') (keybytesToHex key') v) → represents t' m'.
Proof.
  intros [_ _ H3] Hok Hk Hm. split; [apply ok_wf in Hok; [done|apply hexkey_keybytes]|done|].
  intros k v [->|Hh]%Hk; [by eexists|by eapply H3].
Qed.

Lemma TryGet_represents t m key :
  represents t m → ∃ t', TryGet db_node t key = Ret (m !! key, t') ∧ represents t' m.
Proof.
  intros Hr. pose proof Hr as [H1 H2 H3]. set (k := keybytesToHex key).
  destruct (tryGet_spec db_node (fuel_for k) (root t) k 0 k) as (r & n' & d & E & [G1 G2 G3 _ _] & Hd);
    [done|lia|by eapply represents_ok|apply fuel_enough|].
  assert (Er : r = m !! key). { apply option_eq. intros v. rewrite G1. symmetry. apply H2. }
  unfold TryGet. fold k. rewrite E. cbn [mbind outcome_bind]. eexists. split; [by rewrite Er|].
  destruct d; [|done]. eapply (represents_change t m _ m key); [done|done| |].
  - intros k' v Hh. right. by apply G3.
  - intros key' v. rewrite H2. apply G3.
Qed.

Lemma delete_represents t m key :
  represents t m → ∃ d n, delete_ db_node (fuel_for (keybytesToHex key)) (root t) [] (keybytesToHex key) = Ret (d, n) ∧
    represents (mk_Trie n (unhashed t + 1)) (delete key m).
Proof.
  intros Hr. pose proof Hr as [H1 H2 H3]. set (k := keybytesToHex key).
  destruct (delete_spec db_node (fuel_for k) (root t) k ltac:(by eapply represents_ok) ltac:(apply fuel_enough) [])
    as (d & n' & E & [G1 G2 _] & _).
  exists d, n'. split; [done|]. eapply (represents_change t m _ _ key); [done|done| |]; cbn [root].
  - intros k' v [_ ?]%G2. by right.
  - intros key' v. rewrite (G2 (keybytesToHex key') v), lookup_delete_Some, H2.
    split; intros [Hne Hh]; (split; [|done]); [by intros ?%keybytes_inj|]. by intros ->.
Qed.

Lemma insert_represents t m key v :
  represents t m → v ≠ [] →
  ∃ d n, insert db_node (fuel_for (keybytesToHex key)) (root t) [] (keybytesToHex key) (valueNode v) = Ret (d, n) ∧
    represents (mk_Trie n (unhashed t + 1)) (<[key := v]> m).
Proof.
  intros Hr Hv. pose proof Hr as [H1 H2 H3]. set (k := keybytesToHex key).
  destruct (insert_spec db_node (fuel_for k) (root t) k ltac:(by eapply represents_ok) ltac:(apply fuel_enough) [] v Hv)
    as (d & n' & E & [G1 _ G2 _] & _).
  exists d, n'. split; [done|]. eapply (represents_change t m _ _ key); [done|done| |]; cbn [root].
  - intros k' w [[-> _]|[_ ?]]%G2; auto.
  - intros key' w. rewrite (G2 (keybytesToHex key') w), lookup_insert_Some, H2. split.
    + intros [[-> ->]|[Hne Hh]]; [by left|right]. split; [by intros ?%keybytes_inj|done].
    + intros [[E' ->]|[Hne Hh]]; [left; by apply keybytes_inj in E'|right]. split; [by intros ->|done].
Qed.

(** C11: A trie in canonical form whose hash nodes can be loaded refines a finite
    map: [TryGet] returns the value of the map (and only loads nodes),
    [TryUpdate] inserts, or deletes when the value is empty, and [TryDelete]
    deletes. No operation returns a missing-node error, panics or fails to
    terminate, and the canonical form is kept. The empty trie represents the
    empty map. *)
Theorem trie_refines_map t m key value :
  represents t m →
  (∃ t', TryGet db_node t key = Ret (m !! key, t') ∧ represents t' m) ∧
  (∃ t', TryUpdate db_node t key value = Ret t' ∧
     represents t' (if decide (value = []) then delete key m else <[key := value]> m)) ∧
  (∃ t', TryDelete db_node t key = Ret t' ∧ represents t' (delete key m)) ∧
  represents (mk_Trie nil_ 0) ∅.
Proof.
  intros Hr. destruct (delete_represents t m key Hr) as (d & n & E & Hd). split_and!; [by apply TryGet_represents| | |apply represents_empty].
  - unfold TryUpdate. destruct value as [|b value]; [rewrite E; by eexists|].
    destruct (insert_represents t m key (b :: value) Hr) as (d' & n' & E' & Hi); [done|]. rewrite E'. by eexists.
  - unfold TryDelete. rewrite E. by eexists.
Qed.

End Claims.

(** ** A trie whose root is on disk *)

Definition disk (h : bytes) : option node :=
  if decide (h = [Byte.x01]) then Some (shortNode (keybytesToHex [Byte.x12]) (valueNode [Byte.x07]) (mk_flag (Some h) false))
  else None.

Definition stored : Trie := mk_Trie (hashNode [Byte.x01]) 0.

Lemma stored_represents : represents disk stored {[ [Byte.x12] := [Byte.x07] ]}.
Proof.
  assert (Hh : ∀ k v, holds disk (root stored) k v ↔ k = keybytesToHex [Byte.x12] ∧ v = [Byte.x07]).
  { intros k v. rewrite (holds_hash_inv disk [Byte.x01] _ k v eq_refl), holds_short_inv. split.
    - intros (r & -> & [-> ->]%holds_value_inv). done.
    - intros [-> ->]. exists []. split; [done|constructor]. }
  split.
  - right. eapply wf_hash; [done|done|]. constructor; [apply hexkey_keybytes|done].
  - intros key v. rewrite Hh, lookup_singleton_Some. split; intros [E1 E2]; [by subst|split; [by apply keybytes_inj in E1|done]].
  - intros k v [-> _]%Hh. by eexists.
Qed.

Lemma trie_refines_map_witness :
  ∃ t', TryUpdate disk stored [Byte.x13] [Byte.x08] = Ret t' ∧
    represents disk t' (<[ [Byte.x13] := [Byte.x08] ]> {[ [Byte.x12] := [Byte.x07] ]}).
Proof. exact (proj1 (proj2 (trie_refines_map disk stored _ [Byte.x13] [Byte.x08] stored_represents))). Defined.

End TrieClaims.
