(* ===== verification/TrieHash.v ===== *)
(** * TrieHash: hashing, storing and proving tries (trie/hasher.go, node.go, proof.go)

    The consensus encoding of nodes and its parser, the hasher with its cached
    hashes, the root hash, and Merkle proofs. Keccak-256 is a parameter.

    - The collapsed form of a node has a compact key and hashed children.
    - A cached hash is a part of the flags of a node; [flags.hash == nil] is
      [None].
    - [parallel] hashing writes disjoint children and is left out. *)

From stdpp Require Import base gmap list.
From Stdlib Require Import ZArith Lia.
From S2P Require Import Prelude Rlp Trie.

Local Open Scope Z_scope.

Module TrieHash.
Import Trie.

(** ** Encoding (node.go) *)

(** What [rlp.Encode] sees of a node: a nil interface is an empty list, but
    [EncodeRLP] of a full node replaces a nil child by an empty value. *)
Fixpoint rlp_value (n : node) : Rlp.Value :=
  match n with
  | nil_ => Rlp.VList []
  | valueNode v => Rlp.VBytes v
  | hashNode h => Rlp.VBytes h
  | shortNode Key Val _ => Rlp.VList [Rlp.VBytes Key; rlp_value Val]
  | fullNode Children _ =>
      Rlp.VList (map (λ c, if is_nil c then Rlp.VBytes [] else rlp_value c) Children)
  end.

(** [rlp.Encode], an error of which is a panic. *)
Definition encode (n : node) : TR bytes :=
  match Rlp.EncodeToBytes (rlp_value n) with
  | Ret b => Ret b
  | _ => Panic
  end.

Definition cache (n : node) : option bytes * bool :=
  match n with
  | shortNode _ _ fl | fullNode _ fl => (fl_hash fl, fl_dirty fl)
  | _ => (None, true)
  end.

(** ** Decoding (node.go) *)

Inductive decode_context := InShort | InFull | InVal | InChild (i : Z).

Inductive decode_cause :=
  | UnexpectedEOF
  | RlpError (e : Rlp.error)
  | DecodeError (e : Rlp.error)
  | InvalidValue (e : Rlp.error)
  | InvalidCount (c : Z)
  | OversizedEmbedded (size : Z)
  | InvalidSize (size : Z)
  | NotDone.

(** A cause, wrapped or not, with the path to it. *)
Record decode_error := mk_decode_error { what : decode_cause; stack : list decode_context }.

Definition plain (c : decode_cause) : decode_error := mk_decode_error c [].

Definition wrapError (e : decode_error) (ctx : decode_context) : decode_error :=
  mk_decode_error (what e) (stack e ++ [ctx]).

Abbreviation DR := (outcome decode_error).

Definition wrap {A} (m : DR A) (ctx : decode_context) : DR A :=
  match m with
  | Err e => Err (wrapError e ctx)
  | m => m
  end.

Definition from_rlp {A} (cause : Rlp.error → decode_cause) (m : outcome Rlp.error A) : DR A :=
  match m with
  | Ret a => Ret a
  | Err e => Err (plain (cause e))
  | Panic => Panic
  end.

Definition hashLen : Z := 32.

Section Decode.
Context (decodeNode : option bytes → bytes → DR node).

Definition decodeRef (buf : bytes) : DR (node * bytes) :=
  '(kind, val, rest) ← from_rlp RlpError (Rlp.Split buf);
  match kind with
  | Rlp.List =>
      let size := Z.of_nat (length buf) - Z.of_nat (length rest) in
      if hashLen <? size then Err (plain (OversizedEmbedded size))
      else n ← decodeNode None buf; Ret (n, rest)
  | Rlp.String =>
      if (length val =? 0)%nat then Ret (nil_, rest)
      else if (length val =? 32)%nat then Ret (hashNode val, rest)
      else Err (plain (InvalidSize (Z.of_nat (length val))))
  | Rlp.Byte => Err (plain (InvalidSize (Z.of_nat (length val))))
  end.

Definition decodeShort (hash : option bytes) (elems : bytes) : DR node :=
  '(kbuf, rest) ← from_rlp RlpError (Rlp.SplitString elems);
  let flag := mk_flag hash false in
  let key := compactToHex kbuf in
  if hasTerm key then
    '(val, _) ← from_rlp InvalidValue (Rlp.SplitString rest);
    Ret (shortNode key (valueNode val) flag)
  else
    '(r, _) ← wrap (decodeRef rest) InVal;
    Ret (shortNode key r flag).

(** The children from index [i] on; [k] of the sixteen are left. *)
Fixpoint decode_children (k : nat) (i : Z) (elems : bytes) : DR (list node * bytes) :=
  match k with
  | O => Ret ([], elems)
  | S k =>
      '(cld, rest) ← wrap (decodeRef elems) (InChild i);
      '(cs, rest) ← decode_children k (i + 1) rest;
      Ret (cld :: cs, rest)
  end.

Definition decodeFull (hash : option bytes) (elems : bytes) : DR node :=
  '(cs, elems) ← decode_children 16 0 elems;
  '(val, _) ← from_rlp RlpError (Rlp.SplitString elems);
  let last := if (0 <? length val)%nat then valueNode val else nil_ in
  Ret (fullNode (cs ++ [last]) (mk_flag hash false)).
End Decode.

(** Every level takes a list header off, so the length is fuel enough. *)
Fixpoint decode_node (fuel : nat) (hash : option bytes) (buf : bytes) : DR node :=
  match fuel with
  | O => Err (plain NotDone)
  | S fuel =>
      if (length buf =? 0)%nat then Err (plain UnexpectedEOF)
      else
        '(elems, _) ← from_rlp DecodeError (Rlp.SplitList buf);
        let c := match Rlp.CountValues elems with Ret c => c | _ => 0 end in
        if c =? 2 then wrap (decodeShort (decode_node fuel) hash elems) InShort
        else if c =? 17 then wrap (decodeFull (decode_node fuel) hash elems) InFull
        else Err (plain (InvalidCount c))
  end.

Definition decodeNode (hash : option bytes) (buf : bytes) : DR node :=
  decode_node (S (length buf)) hash buf.

Definition mustDecodeNode (hash : option bytes) (buf : bytes) : TR node :=
  match decodeNode hash buf with
  | Ret n => Ret n
  | _ => Panic
  end.

(** ** Hashing (hasher.go) *)

Section WithHash.
Context (keccak : bytes → bytes).

Definition hashData (data : bytes) : bytes := keccak data.

Definition shortnodeToHash (n : node) (force : bool) : TR node :=
  tmp ← encode n;
  if (length tmp <? 32)%nat && negb force then Ret n else Ret (hashNode (hashData tmp)).

Definition fullnodeToHash (n : node) (force : bool) : TR node :=
  tmp ← encode n;
  if (length tmp <? 32)%nat && negb force then Ret n else Ret (hashNode (hashData tmp)).

(** [cached.flags.hash = hn], or nil for a node too small to be hashed. *)
Definition set_hash (cached hashed : node) : node :=
  let h := match hashed with hashNode h => Some h | _ => None end in
  match cached with
  | shortNode k v fl => shortNode k v (mk_flag h (fl_dirty fl))
  | fullNode cs fl => fullNode cs (mk_flag h (fl_dirty fl))
  | n => n
  end.

(** The first [k] children, hashed and cached; the rest stays. *)
Fixpoint hash_children (hash : node → bool → TR (node * node)) (k : nat) (cs : list node) {struct cs} : TR (list node * list node) :=
  match cs, k with
  | c :: cs', S k =>
      '(x, y) ← (if is_nil c then Ret (valueNode [], nil_) else hash c false);
      '(xs, ys) ← hash_children hash k cs';
      Ret (x :: xs, y :: ys)
  | _, _ => Ret (cs, cs)
  end.

Definition hashFullNodeChildren (hash : node → bool → TR (node * node)) (cs : list node) (fl : nodeFlag) : TR (node * node) :=
  '(xs, ys) ← hash_children hash 16 cs;
  Ret (fullNode xs fl, fullNode ys fl).

Definition hashShortNodeChildren (hash : node → bool → TR (node * node)) (Key : bytes) (Val : node) (fl : nodeFlag) : TR (node * node) :=
  k ← index (hexToCompact Key);
  '(x, y) ← match Val with
            | fullNode _ _ | shortNode _ _ _ => hash Val false
            | _ => Ret (Val, Val)
            end;
  Ret (shortNode k x fl, shortNode Key y fl).

Fixpoint hash (n : node) (force : bool) {struct n} : TR (node * node) :=
  match fst (cache n) with
  | Some h => Ret (hashNode h, n)
  | None =>
      match n with
      | shortNode Key Val fl =>
          '(collapsed, cached) ← hashShortNodeChildren hash Key Val fl;
          hashed ← shortnodeToHash collapsed force;
          Ret (hashed, set_hash cached hashed)
      | fullNode Children fl =>
          '(collapsed, cached) ← hashFullNodeChildren hash Children fl;
          hashed ← fullnodeToHash collapsed force;
          Ret (hashed, set_hash cached hashed)
      | _ => Ret (n, n)
      end
  end.

Definition proofHash (original : node) : TR (node * node) :=
  match original with
  | shortNode Key Val fl =>
      '(sn, _) ← hashShortNodeChildren hash Key Val fl;
      hn ← shortnodeToHash sn false;
      Ret (sn, hn)
  | fullNode Children fl =>
      '(fn, _) ← hashFullNodeChildren hash Children fl;
      hn ← fullnodeToHash fn false;
      Ret (fn, hn)
  | n => Ret (n, n)
  end.

(** ** The root hash (trie.go) *)

Definition emptyRoot : bytes :=
  map z2b [0x56; 0xe8; 0x1f; 0x17; 0x1b; 0xcc; 0x55; 0xa6; 0xff; 0x83; 0x45; 0xe6; 0x92; 0xc0; 0xf8; 0x6e;
           0x5b; 0x48; 0xe0; 0x1b; 0x99; 0x6c; 0xad; 0xc0; 0x01; 0x62; 0x2f; 0xb5; 0xe3; 0x63; 0xb4; 0x21].

Definition hashRoot (t : Trie) : TR (node * node * Trie) :=
  match root t with
  | nil_ => Ret (hashNode emptyRoot, nil_, t)
  | r => '(hashed, cached) ← hash r true; Ret (hashed, cached, mk_Trie (root t) 0)
  end.

(** The hash and the trie with its hashes cached; the root of a trie is no
    value node, so the type assertion holds. *)
Definition Hash (t : Trie) : TR (bytes * Trie) :=
  '(hashed, cached, t) ← hashRoot t;
  match hashed with
  | hashNode h => Ret (h, mk_Trie cached (unhashed t))
  | _ => Panic
  end.

Definition zeroHash : bytes := replicate 32 Byte.x00.

Definition New (db_node : bytes → option node) (r : bytes) : TR Trie :=
  if negb (bool_decide (r = zeroHash)) && negb (bool_decide (r = emptyRoot)) then
    rootnode ← resolveHash db_node r [];
    Ret (mk_Trie rootnode 0)
  else Ret (mk_Trie nil_ 0).

(** ** Merkle proofs (proof.go) *)

(** The nodes on the path to [key]. *)
Fixpoint prove_path (db_node : bytes → option node) (fuel : nat) (tn : node) (key : bytes) : TR (list node) :=
  match fuel with
  | O => Err StillRunning
  | S fuel =>
      match key, tn with
      | [], _ | _, nil_ => Ret []
      | k0 :: krest, shortNode nKey nVal _ =>
          ns ← (if (length key <? length nKey)%nat || negb (bool_decide (nKey = take (length nKey) key))
                then prove_path db_node fuel nil_ key
                else prove_path db_node fuel nVal (drop (length nKey) key));
          Ret (tn :: ns)
      | k0 :: krest, fullNode cs _ =>
          c ← index (child cs k0);
          ns ← prove_path db_node fuel c krest;
          Ret (tn :: ns)
      | _, hashNode h =>
          rn ← resolveHash db_node h [];
          prove_path db_node fuel rn key
      | _, valueNode _ => Panic
      end
  end.

(** The second loop: the node at position [i] becomes a proof element when its
    encoding is a hash, or when it is the root. *)
Fixpoint prove_elements (nodes : list node) (i fromLevel : Z) : TR (list (bytes * bytes)) :=
  match nodes with
  | [] => Ret []
  | n :: nodes =>
      if 0 <? fromLevel then prove_elements nodes (i + 1) (fromLevel - 1)
      else
        '(c, hn) ← proofHash n;
        puts ← match hn with
               | hashNode h => enc ← encode c; Ret [(h, enc)]
               | _ => if i =? 0 then enc ← encode c; Ret [(hashData enc, enc)] else Ret []
               end;
        rest ← prove_elements nodes (i + 1) 0;
        Ret (puts ++ rest)
  end.

(** The elements put into the proof database, in order. *)
Definition Prove (db_node : bytes → option node) (t : Trie) (key : bytes) (fromLevel : Z) : TR (list (bytes * bytes)) :=
  let key := keybytesToHex key in
  nodes ← prove_path db_node (fuel_for key) (root t) key;
  prove_elements nodes 0 fromLevel.

Inductive proof_error :=
  | ProofNodeMissing (i : Z) (h : bytes)
  | BadProofNode (i : Z) (e : decode_error)
  | ProofRunning.

(** The rest of the key and the node found; an index out of range panics. *)
Fixpoint get (fuel : nat) (tn : node) (key : bytes) : outcome proof_error (bytes * node) :=
  match fuel with
  | O => Err ProofRunning
  | S fuel =>
      match tn with
      | shortNode nKey nVal _ =>
          if (length key <? length nKey)%nat || negb (bool_decide (nKey = take (length nKey) key))
          then Ret ([], nil_)
          else get fuel nVal (drop (length nKey) key)
      | fullNode cs _ =>
          match key with
          | [] => Panic
          | k0 :: krest => match child cs k0 with Some c => get fuel c krest | None => Panic end
          end
      | hashNode _ | nil_ => Ret (key, tn)
      | valueNode _ => Ret ([], tn)
      end
  end.

Fixpoint depth (n : node) : nat :=
  match n with
  | shortNode _ v _ => S (depth v)
  | fullNode cs _ => S (foldr Nat.max 0%nat (map depth cs))
  | _ => 1%nat
  end.

(** The loop of [VerifyProof], at proof node [i]; a decoded node is finite, so
    its depth is fuel enough for [get]. *)
Fixpoint verify_from (fuel : nat) (proofDb : bytes → option bytes) (wantHash key : bytes) (i : Z)
    : outcome proof_error (option bytes * Z) :=
  match fuel with
  | O => Err ProofRunning
  | S fuel =>
      match proofDb wantHash with
      | None => Err (ProofNodeMissing i wantHash)
      | Some buf =>
          match decodeNode (Some wantHash) buf with
          | Panic => Panic
          | Err e => Err (BadProofNode i e)
          | Ret n =>
              '(keyrest, cld) ← get (depth n) n key;
              match cld with
              | nil_ => Ret (None, i)
              | hashNode h => verify_from fuel proofDb h keyrest (i + 1)
              | valueNode v => Ret (Some v, i + 1)
              | _ => verify_from fuel proofDb wantHash key (i + 1)
              end
          end
      end
  end.

Definition VerifyProof (fuel : nat) (rootHash key : bytes) (proofDb : bytes → option bytes) : outcome proof_error (option bytes * Z) :=
  verify_from fuel proofDb rootHash (keybytesToHex key) 0.

End WithHash.
End TrieHash.
