(* ===== verification/TrieHashProofs.v ===== *)
(** * TrieHashProofs: what the hash of a node stands for

    The item a node is encoded as, with its children folded into references;
    the hasher computes it, cached hashes or not; the parser of nodes takes it
    apart again. *)

From stdpp Require Import base gmap list.
From Stdlib Require Import ZArith Lia.
From S2P Require Import Prelude Rlp RlpProofs Trie TrieProofs TrieHash.

Local Open Scope Z_scope.

Module TrieHashProofs.
Import Rlp RlpProofs Trie TrieProofs TrieHash.

(** ** Compact keys *)

Definition nib (s : bytes) : bytes := concat ((λ b, [z2b (b2z b / 16); z2b (b2z b mod 16)]) <$> s).

Lemma nib_cons b s : nib (b :: s) = z2b (b2z b / 16) :: z2b (b2z b mod 16) :: nib s.
Proof. done. Qed.

Lemma nibble_range b : nibble b → 0 <= b2z b < 16.
Proof. unfold nibble. pose proof (b2z_range b). lia. Qed.

Lemma lor_add a b : 0 <= a → 0 <= b < 16 → Z.lor (a * 16) b = a * 16 + b.
Proof.
  intros Ha Hb. rewrite <- Z.lxor_lor; [symmetry; apply Z.add_nocarry_lxor|]; apply Z.bits_inj'; intros i Hi;
    rewrite Z.land_spec, Z.bits_0; (destruct (decide (i < 4));
    [change 16 with (2 ^ 4); by rewrite Z.mul_pow2_bits_low by lia|rewrite andb_comm; rewrite (Z.bits_above_log2 b i); [done|lia|]]);
    (destruct (decide (b = 0)) as [->|]; [cbn; lia|]; assert (Z.log2 b < 4) by (apply Z.log2_lt_pow2; lia); lia).
Qed.

(** The byte that two nibbles make. *)
Lemma join_nibbles h l : nibble h → nibble l →
  let b := z2b (Z.lor (Z.shiftl (b2z h) 4) (b2z l)) in z2b (b2z b / 16) = h ∧ z2b (b2z b mod 16) = l.
Proof.
  intros Hh%nibble_range Hl%nibble_range. cbv zeta. rewrite Z.shiftl_mul_pow2 by lia. change (2 ^ 4) with 16.
  rewrite lor_add by lia. rewrite b2z_z2b, (Z.mod_small (_ + _)) by lia. split.
  - rewrite Z.div_add_l, Z.div_small, Z.add_0_r by lia. apply z2b_b2z.
  - rewrite Z.add_comm, Z.mod_add, Z.mod_small by lia. apply z2b_b2z.
Qed.

Lemma decodeNibbles_nib ns : Forall nibble ns → Nat.Even (length ns) →
  ∃ bs, decodeNibbles ns = Some bs ∧ nib bs = ns ∧ length ns = (2 * length bs)%nat.
Proof.
  intros Hn [k Hk]. revert ns Hn Hk. induction k as [|k IH]; intros ns Hn Hk.
  - destruct ns; [|cbn in Hk; lia]. by exists [].
  - destruct ns as [|h [|l ns]]; [cbn in Hk; lia|cbn in Hk; lia|].
    inversion Hn as [|? ? Hh Hn']; subst. inversion Hn' as [|? ? Hl Hns]; subst.
    destruct (IH ns Hns) as (bs & E & Eb & El); [cbn in Hk; lia|]. cbn [decodeNibbles]. rewrite E. eexists. split; [done|].
    destruct (join_nibbles h l Hh Hl) as [E1 E2]. rewrite nib_cons, E1, E2, Eb. split; [done|]. cbn. lia.
Qed.

Definition compact (K : bytes) : bytes := default [] (hexToCompact K).

(** A key of a node: nibbles, with or without the terminator. *)
Definition plain_key (K : bytes) (t : bool) : Prop :=
  ∃ ns, Forall nibble ns ∧ K = ns ++ (if t then [terminator] else []).

Lemma hexkey_plain K : hexkey K → plain_key K true.
Proof.
  induction 1 as [|b k Hb Hk (ns & Hn & ->)]; [by exists []|]. exists (b :: ns). split; [by constructor|done].
Qed.

Lemma nibbles_plain K : Forall nibble K → plain_key K false.
Proof. intros Hn. exists K. split; [done|]. by rewrite app_nil_r. Qed.

Lemma nibbles_hasTerm ns : Forall nibble ns → hasTerm ns = false.
Proof.
  intros Hn. unfold hasTerm. destruct (last ns) as [b|] eqn:E; [|done]. apply last_Some in E as [l ->].
  apply Forall_app in Hn as [_ Hb]. inversion Hb as [|? ? Hx _]; subst. unfold nibble in Hx. apply Z.eqb_neq. lia.
Qed.

Lemma plain_hasTerm K t : plain_key K t → hasTerm K = t.
Proof.
  intros (ns & Hn & ->). destruct t; [|rewrite app_nil_r; by apply nibbles_hasTerm]. unfold hasTerm. by rewrite last_snoc.
Qed.

Lemma take_term (ns : bytes) x : take (length (ns ++ [x]) - 1) (ns ++ [x]) = ns.
Proof. rewrite length_app. cbn. rewrite Nat.add_sub. apply take_app_length. Qed.

Lemma land_one (n : nat) : (Z.land (Z.of_nat n) 1 =? 1) = Nat.odd n.
Proof.
  change 1 with (Z.ones 1). rewrite Z.land_ones by lia. change (2 ^ 1) with 2. change (Z.ones 1) with 1.
  destruct (Nat.odd n) eqn:E.
  - apply Nat.odd_spec in E as [k ->]. apply Z.eqb_eq. rewrite Nat2Z.inj_add, Nat2Z.inj_mul. change (Z.of_nat 2) with 2.
    rewrite Z.add_comm, Z.mul_comm, Z.mod_add by lia. done.
  - rewrite <- Nat.negb_even in E. apply negb_false_iff, Nat.even_spec in E as [k ->]. apply Z.eqb_neq.
    rewrite Nat2Z.inj_mul. change (Z.of_nat 2) with 2. rewrite Z.mul_comm, Z.mod_mul by lia. lia.
Qed.

Lemma compactToHex_nib b s :
  compactToHex (b :: s) =
  let base := nib (b :: s) ++ [terminator] in
  let f := b2z b / 16 in
  drop (Z.to_nat (2 - Z.land f 1)) (if f <? 2 then nib (b :: s) else base).
Proof.
  cbv zeta. unfold compactToHex, keybytesToHex. fold (nib (b :: s)). rewrite nib_cons. cbn [app].
  assert (Ef : b2z (z2b (b2z b / 16)) = b2z b / 16).
  { rewrite b2z_z2b, Z.mod_small; [done|]. pose proof (b2z_range b). split; [apply Z.div_pos; lia|]. apply Z.div_lt_upper_bound; lia. }
  rewrite Ef. destruct (b2z b / 16 <? 2); [|done]. f_equal.
  change (z2b (b2z b / 16) :: z2b (b2z b mod 16) :: nib s ++ [terminator]) with ((z2b (b2z b / 16) :: z2b (b2z b mod 16) :: nib s) ++ [terminator]).
  apply take_term.
Qed.

Lemma flag_byte (t : bool) : let flag := Z.shiftl (if t then 1 else 0) 5 in b2z (z2b flag) / 16 = (if t then 2 else 0).
Proof. by destruct t. Qed.

Lemma odd_flag_byte (t : bool) b : nibble b →
  let x := z2b (Z.lor (Z.lor (Z.shiftl (if t then 1 else 0) 5) (Z.shiftl 1 4)) (b2z b)) in
  b2z x / 16 = (if t then 3 else 1) ∧ z2b (b2z x mod 16) = b.
Proof.
  intros Hb%nibble_range. cbv zeta. change (Z.shiftl 1 4) with 16.
  replace (Z.lor (Z.shiftl (if t then 1 else 0) 5) 16) with ((if t then 3 else 1) * 16) by (by destruct t).
  rewrite lor_add by (destruct t; lia). rewrite b2z_z2b, (Z.mod_small (_ + _)) by (destruct t; lia).
  rewrite Z.div_add_l, Z.div_small by lia. split; [destruct t; lia|]. rewrite Z.add_comm, Z.mod_add, Z.mod_small by lia. apply z2b_b2z.
Qed.

Lemma compact_roundtrip K t : plain_key K t →
  ∃ c, hexToCompact K = Some c ∧ compactToHex c = K ∧ (length c <= length K + 1)%nat.
Proof.
  intros HK. pose proof (plain_hasTerm K t HK) as Ht. destruct HK as (ns & Hn & EK). unfold hexToCompact. rewrite Ht.
  assert (Ehex : (if t then take (length K - 1) K else K) = ns).
  { subst K. destruct t; [apply take_term|apply app_nil_r]. }
  rewrite Ehex, land_one.
  assert (Hlen : (length ns <= length K)%nat) by (subst K; rewrite length_app; lia).
  destruct (Nat.odd (length ns)) eqn:Eo.
  - destruct ns as [|b ns]; [done|]. inversion Hn as [|? ? Hb Hns]; subst.
    destruct (decodeNibbles_nib ns Hns) as (bs & E & Eb & El).
    { apply Nat.even_spec. cbn [length] in Eo. by rewrite Nat.odd_succ in Eo. }
    rewrite E. eexists. split; [done|]. destruct (odd_flag_byte t b Hb) as [F1 F2]. split; [|cbn in *; lia].
    rewrite compactToHex_nib. cbv zeta. rewrite nib_cons, F1, F2, Eb. by destruct t.
  - destruct (decodeNibbles_nib ns Hn) as (bs & E & Eb & El).
    { apply Nat.even_spec. rewrite <- Nat.negb_odd, Eo. done. }
    exists (z2b (Z.shiftl (if t then 1 else 0) 5) :: bs). split; [by destruct ns; rewrite E|]. split; [|cbn; lia].
    rewrite compactToHex_nib. cbv zeta. rewrite nib_cons, flag_byte, Eb. subst K. by destruct t.
Qed.

Lemma compact_spec K t : plain_key K t →
  hexToCompact K = Some (compact K) ∧ compactToHex (compact K) = K ∧ zlen (compact K) <= zlen K + 1.
Proof. intros (c & E & E2 & El)%compact_roundtrip. unfold compact. rewrite E. cbn. split_and!; [done|done|lia]. Qed.

#[export] Instance is_nil_dec n : Decision (n = nil_).
Proof. destruct n; (by left) || (by right). Defined.

#[export] Instance solid_dec n : Decision (solid n).
Proof. destruct n; (by left) || (by right; intros []). Defined.

(** ** Items *)

Section Hashing.
Context (keccak : bytes → bytes) (keccak_32 : ∀ b, length (keccak b) = 32%nat).

(** A child is referred to by its hash, unless its encoding is shorter than that. *)
Definition fold_ref (it : Item) : Item :=
  match it with
  | Str _ => it
  | Lst _ => if (length (enc it) <? 32)%nat then it else Str (keccak (enc it))
  end.

Fixpoint item (n : node) : Item :=
  match n with
  | nil_ => Str []
  | valueNode v => Str v
  | hashNode h => Str h
  | shortNode K V _ => Lst [Str (compact K); fold_ref (item V)]
  | fullNode cs _ => Lst (map (λ c, fold_ref (item c)) cs)
  end.

Definition digest (n : node) : bytes := keccak (enc (item n)).

Definition big (n : node) : Prop := (32 <= length (enc (item n)))%nat.

#[export] Instance big_dec n : Decision (big n).
Proof. unfold big. apply _. Defined.

Lemma fold_big n : solid n → big n → fold_ref (item n) = Str (digest n).
Proof.
  unfold big. intros Hs Hb. destruct n; try done; cbn [item fold_ref] in *; by rewrite (proj2 (Nat.ltb_ge _ _) Hb).
Qed.

Lemma fold_small n : ¬ big n → fold_ref (item n) = item n.
Proof.
  unfold big. intros Hb. destruct n; try done; cbn [item fold_ref] in *; by rewrite (proj2 (Nat.ltb_lt _ _)) by lia.
Qed.

(** Nodes without their flags. *)
Fixpoint strip (n : node) : node :=
  match n with
  | shortNode K V _ => shortNode K (strip V) newFlag
  | fullNode cs _ => fullNode (map strip cs) newFlag
  | n => n
  end.

Lemma node_ind' (P : node → Prop) :
  P nil_ → (∀ v, P (valueNode v)) → (∀ h, P (hashNode h)) → (∀ K V fl, P V → P (shortNode K V fl)) →
  (∀ cs fl, Forall P cs → P (fullNode cs fl)) → ∀ n, P n.
Proof.
  intros H1 H2 H3 H4 H5. fix IH 1. intros [|v|h|K V fl|cs fl]; [done|done|done|by apply H4|]. apply H5.
  induction cs; constructor; [apply IH|done].
Qed.

Lemma item_strip n : item (strip n) = item n.
Proof.
  induction n as [| | |K V fl IH|cs fl IH] using node_ind'; cbn; [done..|by rewrite IH|]. f_equal. rewrite map_map.
  apply map_ext_Forall. eapply Forall_impl; [exact IH|]. intros c E. cbn. by rewrite E.
Qed.

Definition alike (n n' : node) : Prop := strip n = strip n'.

Lemma alike_item n n' : alike n n' → item n = item n'.
Proof. intros E. by rewrite <- (item_strip n), <- (item_strip n'), E. Qed.

(** ** Cached hashes and links to the database *)

Section Store.
Context (db_node : bytes → option node).

Definition flag_ok (top : bool) (n : node) : Prop :=
  ∀ h, fst (cache n) = Some h → h = digest n ∧ (top = false → big n).

(** Every cached hash is right and every hash node leads to a node with that
    hash; below the root, only nodes of 32 bytes and more have a hash. *)
Inductive good : bool → node → Prop :=
  | good_nil top : good top nil_
  | good_value top v : good top (valueNode v)
  | good_hash top h n : db_node h = Some n → solid n → h = digest n → (top = false → big n) → good top n → good top (hashNode h)
  | good_short top K V fl : good false V → flag_ok top (shortNode K V fl) → good top (shortNode K V fl)
  | good_full top cs fl : Forall (good false) cs → flag_ok top (fullNode cs fl) → good top (fullNode cs fl).

Lemma good_weak top n : good false n → good top n.
Proof.
  intros Hg. remember false as b eqn:Eb. induction Hg as [| |b h n E Hs Hd Hb Hg IH|b K V fl HV _ Hf|b cs fl Hc Hf]; subst; try constructor; auto.
  - econstructor; eauto.
  - intros h E. destruct (Hf h E). split; [done|auto].
  - intros h E. destruct (Hf h E). split; [done|auto].
Qed.

Lemma good_new_short top K V : good false V → good top (shortNode K V newFlag).
Proof. intros HV. constructor; [done|]. by intros h. Qed.

Lemma good_new_full top cs : Forall (good false) cs → good top (fullNode cs newFlag).
Proof. intros HV. constructor; [done|]. by intros h. Qed.

(** *** The operations keep them *)

(** What the parent of a node, or the owner of the trie, knows of it. *)
Definition root_digest (n : node) : bytes := match n with hashNode h => h | n => digest n end.

Definition known_as (top : bool) (n n' : node) : Prop :=
  root_digest n = root_digest n' ∧ (top = false → fold_ref (item n) = fold_ref (item n')).

Lemma known_refl top n : known_as top n n.
Proof. done. Qed.

Lemma known_hash top h n n' : solid n → h = digest n → (top = false → big n) → known_as top n n' → known_as top (hashNode h) n'.
Proof.
  intros Hs -> Hb [K1 K2]. split; [by rewrite <- K1; destruct n|]. intros Et. rewrite <- (K2 Et), (fold_big n) by auto. done.
Qed.

Lemma flag_ok_item top n n' : item n = item n' → cache n = cache n' → flag_ok top n → flag_ok top n'.
Proof. intros Ei Ec Hf h Eh. unfold digest, big. rewrite <- Ei. apply Hf. by rewrite Ec. Qed.

Lemma item_set_child cs fl fl' i c c' :
  child cs i = Some c → fold_ref (item c) = fold_ref (item c') → item (fullNode (set_child cs i c') fl') = item (fullNode cs fl).
Proof.
  intros Hc E. cbn [item]. f_equal. unfold set_child. change (map ?f ?l) with (f <$> l). rewrite list_fmap_insert, <- E.
  apply list_insert_id. rewrite list_lookup_fmap. unfold child in Hc. by rewrite Hc.
Qed.

Lemma Forall_set_child (P : node → Prop) cs i c : Forall P cs → P c → Forall P (set_child cs i c).
Proof. apply Forall_insert. Qed.

Lemma Forall_child (P : node → Prop) cs i c : Forall P cs → child cs i = Some c → P c.
Proof. intros HF Hc. eapply Forall_lookup_1; [exact HF|exact Hc]. Qed.

Lemma resolveHash_inv h prefix n : resolveHash db_node h prefix = Ret n → db_node h = Some n.
Proof. unfold resolveHash. by destruct (db_node h); intros [= ->]. Qed.

Lemma index_inv {A} (x : option A) a : index x = Ret a → x = Some a.
Proof. by destruct x; intros [= ->]. Qed.

Lemma tryGet_good fuel : ∀ n key pos r n' d top,
  good top n → tryGet db_node fuel n key pos = Ret (r, n', d) → good top n' ∧ known_as top n n'.
Proof.
  induction fuel as [|fuel IH]; intros n key pos r n' d top Hg E; [done|]. destruct n as [|v|h|K V fl|cs fl]; cbn [tryGet] in E.
  1-2: by simplify_eq.
  - apply outcome_bind_Ret in E as (rn & Er%resolveHash_inv & E). apply outcome_bind_Ret in E as ([[v nn] d'] & E & [= <- <- <-]).
    inversion Hg as [| |top' h' n0 En Hs Hd Hb Hn| |]; subst. assert (n0 = rn) as -> by congruence.
    destruct (IH _ _ _ _ _ _ _ Hn E) as [H1 H2]. split; [done|by eapply known_hash].
  - destruct (_ || _); [by simplify_eq|]. apply outcome_bind_Ret in E as ([[v nn] d'] & E & [= <- <- <-]).
    inversion Hg as [| | |top' K' V' fl' HV Hf|]; subst. destruct (IH _ _ _ _ _ _ _ HV E) as [H1 [_ H2]]. destruct d'; [|done].
    assert (Ei : item (shortNode K V fl) = item (shortNode K nn fl)) by (cbn [item]; by rewrite H2).
    split; [constructor; [done|by eapply flag_ok_item]|]. split; [cbn [root_digest]; unfold digest; by rewrite Ei|intros _; by rewrite Ei].
  - apply outcome_bind_Ret in E as (k & _ & E). apply outcome_bind_Ret in E as (c & Hc%index_inv & E).
    apply outcome_bind_Ret in E as ([[v nn] d'] & E & [= <- <- <-]).
    inversion Hg as [| | | |top' cs' fl' HF Hf]; subst. pose proof (Forall_child _ _ _ _ HF Hc) as HV.
    destruct (IH _ _ _ _ _ _ _ HV E) as [H1 [_ H2]]. destruct d'; [|done].
    assert (Ei : item (fullNode cs fl) = item (fullNode (set_child cs k nn) fl)) by (symmetry; apply (item_set_child _ _ _ _ c); auto).
    split; [constructor; [by apply Forall_set_child|by eapply flag_ok_item]|].
    split; [cbn [root_digest]; unfold digest; by rewrite Ei|intros _; by rewrite Ei].
Qed.

(** Properties of nodes, at the root or below it, that new nodes have from
    their children and loaded nodes from their hash. *)
Record stable (P : bool → node → Prop) : Prop := {
  sb_nil : ∀ top, P top nil_;
  sb_value : ∀ top v, P top (valueNode v);
  sb_short : ∀ top K V, P false V → P top (shortNode K V newFlag);
  sb_full : ∀ top cs, Forall (P false) cs → P top (fullNode cs newFlag);
  sb_short_inv : ∀ top K V fl, P top (shortNode K V fl) → P false V;
  sb_full_inv : ∀ top cs fl, P top (fullNode cs fl) → Forall (P false) cs;
  sb_hash : ∀ top h n, db_node h = Some n → P top (hashNode h) → P top n;
}.

Section Stable.
Context (P : bool → node → Prop) (SP : stable P).

Lemma insert_stable fuel : ∀ n prefix key value d n' top,
  P top n → P false value → (key = [] → P top value) → insert db_node fuel n prefix key value = Ret (d, n') → P top n'.
Proof.
  induction fuel as [|fuel IH]; intros n prefix key value d n' top Hg Hv Ht E; [done|]. cbn [insert] in E.
  destruct key as [|k0 kr].
  { destruct n; try (injection E as _ <-; by apply Ht). apply outcome_bind_Ret in E as (d' & _ & [= _ <-]). by apply Ht. }
  destruct n as [|v|h|K V fl|cs fl].
  - injection E as _ <-. by apply (sb_short P SP).
  - done.
  - apply outcome_bind_Ret in E as (rn & Er%resolveHash_inv & E). apply outcome_bind_Ret in E as ([d' nn] & E & Ed).
    destruct d'; injection Ed as _ <-; [|by eapply (sb_hash P SP)]. eapply IH; [by eapply (sb_hash P SP)|exact Hv|done|exact E].
  - pose proof (sb_short_inv P SP _ _ _ _ Hg) as HV. cbv zeta in E. destruct (_ =? _)%nat.
    + apply outcome_bind_Ret in E as ([d' nn] & E & Ed). destruct d'; injection Ed as _ <-; [|done]. apply (sb_short P SP). eapply IH; [exact HV|exact Hv|done|exact E].
    + apply outcome_bind_Ret in E as (i & _ & E). apply outcome_bind_Ret in E as (j & _ & E).
      apply outcome_bind_Ret in E as ([d1 c1] & E1 & E). apply outcome_bind_Ret in E as ([d2 c2] & E2 & E).
      assert (Hc1 : P false c1) by (eapply IH; [apply (sb_nil P SP)|exact HV|done|exact E1]).
      assert (Hc2 : P false c2) by (eapply IH; [apply (sb_nil P SP)|exact Hv|done|exact E2]).
      assert (Hcs : Forall (P false) (set_child (set_child (replicate 17 nil_) i c1) j c2))
        by (apply Forall_set_child; [apply Forall_set_child; [apply Forall_replicate, (sb_nil P SP)|done]|done]).
      destruct (_ =? 0)%nat; injection E as _ <-; [by apply (sb_full P SP)|apply (sb_short P SP); by apply (sb_full P SP)].
  - pose proof (sb_full_inv P SP _ _ _ Hg) as HF. apply outcome_bind_Ret in E as (c & Hc%index_inv & E).
    apply outcome_bind_Ret in E as ([d' nn] & E & Ed). destruct d'; injection Ed as _ <-; [|done]. apply (sb_full P SP).
    apply Forall_set_child; [done|]. eapply IH; [by eapply Forall_child|exact Hv|done|exact E].
Qed.

Lemma resolve_stable top c prefix n : P top c → resolve db_node c prefix = Ret n → P top n.
Proof. intros Hg E. destruct c; try (injection E as <-; done). cbn [resolve] in E. apply resolveHash_inv in E. by eapply (sb_hash P SP). Qed.

Lemma reduce_full_stable cs prefix d n top : Forall (P false) cs → reduce_full db_node cs prefix = Ret (d, n) → P top n.
Proof.
  intros HF E. unfold reduce_full in E. destruct (0 <=? _); [|injection E as _ <-; by apply (sb_full P SP)].
  apply outcome_bind_Ret in E as (c & Hc%index_inv & E). apply outcome_bind_Ret in E as (cn & Ec & E).
  pose proof (Forall_lookup_1 _ _ _ _ HF Hc) as Hg.
  assert (Hcn : P false cn) by (destruct (negb _); [by eapply resolve_stable|injection Ec as <-; apply (sb_nil P SP)]).
  destruct cn; injection E as _ <-; apply (sb_short P SP); try done. by eapply (sb_short_inv P SP).
Qed.

Lemma delete_stable fuel : ∀ n prefix key d n' top, P top n → delete_ db_node fuel n prefix key = Ret (d, n') → P top n'.
Proof.
  induction fuel as [|fuel IH]; intros n prefix key d n' top Hg E; [done|]. cbn [delete_] in E. destruct n as [|v|h|K V fl|cs fl].
  - injection E as _ <-. apply (sb_nil P SP).
  - injection E as _ <-. apply (sb_nil P SP).
  - apply outcome_bind_Ret in E as (rn & Er%resolveHash_inv & E). apply outcome_bind_Ret in E as ([d' nn] & E & Ed).
    pose proof (sb_hash P SP _ _ _ Er Hg) as Hn. destruct d'; injection Ed as _ <-; [|done]. eapply IH; [exact Hn|exact E].
  - pose proof (sb_short_inv P SP _ _ _ _ Hg) as HV. cbv zeta in E. destruct (_ <? _)%nat; [by injection E as _ <-|].
    destruct (_ =? _)%nat; [injection E as _ <-; apply (sb_nil P SP)|]. apply outcome_bind_Ret in E as ([d' nn] & E & Ed).
    destruct d'; [|by injection Ed as _ <-]. pose proof (IH _ _ _ _ _ _ HV E) as Hn.
    destruct nn; injection Ed as _ <-; apply (sb_short P SP); try done. by eapply (sb_short_inv P SP).
  - pose proof (sb_full_inv P SP _ _ _ Hg) as HF. destruct key as [|k0 kr]; [done|].
    apply outcome_bind_Ret in E as (c & Hc%index_inv & E). apply outcome_bind_Ret in E as ([d' nn] & E & Ed).
    destruct d'; [|by injection Ed as _ <-]. eapply reduce_full_stable; [|exact Ed]. apply Forall_set_child; [done|].
    eapply IH; [by eapply Forall_child|exact E].
Qed.
End Stable.

Lemma good_stable : stable good.
Proof.
  split; [constructor|constructor|intros; by apply good_new_short|intros; by apply good_new_full| | |].
  - intros top K V fl Hg. by inversion Hg.
  - intros top cs fl Hg. by inversion Hg.
  - intros top h n E Hg. inversion Hg as [| |top' h' n0 En Hs Hd Hb Hn| |]; subst. congruence.
Qed.

Lemma insert_good fuel n prefix key value d n' top :
  good top n → good false value → insert db_node fuel n prefix key value = Ret (d, n') → good top n'.
Proof. intros Hg Hv. apply (insert_stable good good_stable); [done|done|]. intros _. by apply good_weak. Qed.

Lemma delete_good fuel n prefix key d n' top : good top n → delete_ db_node fuel n prefix key = Ret (d, n') → good top n'.
Proof. apply (delete_stable good good_stable). Qed.

(** ** Sizes *)

(** Keys and values that fit into memory. *)
Definition bounded (n : node) : Prop := ∀ k v, holds db_node n k v → zlen k < 2 ^ 56 ∧ zlen v < 2 ^ 56.

Lemma bounded_short K V fl : bounded (shortNode K V fl) → bounded V.
Proof.
  intros Hb k v Hh. destruct (Hb (K ++ k) v) as [H1 H2]; [by constructor|]. rewrite length_app in H1. split; [lia|done].
Qed.

Lemma bounded_child cs fl i c : wf db_node (fullNode cs fl) → bounded (fullNode cs fl) → cs !! i = Some c → bounded c.
Proof.
  intros Hw Hb Hi k v Hh. destruct (decide (c = nil_)) as [->|Hc]; [by apply holds_nil in Hh|].
  destruct (wf_full_at _ cs fl i c Hw Hi Hc) as (_ & _ & Hch). destruct (Hb _ v (holds_full _ _ _ _ _ _ _ Hch Hh)) as [H1 H2].
  cbn [length] in H1. split; [lia|done].
Qed.

Lemma bounded_hash h n : db_node h = Some n → bounded (hashNode h) → bounded n.
Proof. intros E Hb k v Hh. apply Hb. by econstructor. Qed.

Lemma head_len small large n : 0 <= n < two64 → zlen (head small large n) <= 9.
Proof.
  intros Hn. unfold head. destruct (_ <? _) eqn:E; [cbn; lia|]. apply Z.ltb_ge in E.
  pose proof (length_be_encode_u64 n). cbn [length]. lia.
Qed.

Lemma enc_str_len b : zlen b < two64 → zlen (enc_str b) <= zlen b + 9.
Proof.
  intros Hb. unfold enc_str. assert (Hh : zlen (head 0x80 0xB7 (zlen b) ++ b) <= zlen b + 9).
  { rewrite length_app. pose proof (head_len 0x80 0xB7 (zlen b)). lia. }
  destruct b as [|x [|y b]]; try done. destruct (_ <=? _); [cbn; lia|done].
Qed.

Lemma enc_hash_len h : length h = 32%nat → zlen (enc (Str h)) = 33.
Proof.
  intros El. assert (Hh : zlen (head 0x80 0xB7 (zlen h) ++ h) = 33) by (rewrite length_app, El; done).
  cbn [enc]. unfold enc_str. by destruct h as [|x [|y h]].
Qed.

Lemma digest_len n : length (digest n) = 32%nat.
Proof. apply keccak_32. Qed.

(** The reference to a subtrie. *)
Lemma ref_len c : wf db_node c → good false c → zlen (enc (fold_ref (item c))) <= 33.
Proof.
  intros Hw Hg. assert (Hs : solid c → zlen (enc (fold_ref (item c))) <= 33).
  { intros Hs. destruct (decide (big c)) as [Hb|Hb]; [rewrite fold_big by done; rewrite enc_hash_len by apply digest_len; done|].
    rewrite fold_small by done. unfold big in Hb. lia. }
  inversion Hg as [| |top h n E _ -> _ _| |]; subst; [by apply wf_not_nil in Hw|by inversion Hw| |by apply Hs..].
  cbn [item fold_ref]. by rewrite enc_hash_len by apply digest_len.
Qed.

Lemma payload_two a b : payload [a; b] = enc a ++ enc b.
Proof. unfold payload. cbn. by rewrite app_nil_r. Qed.

Lemma list_len l : zlen (payload l) < 2 ^ 60 → zlen (enc (Lst l)) < two64.
Proof.
  intros Hp. rewrite length_payload. pose proof (head_len 0xC0 0xF7 (zlen (payload l))). unfold two64 in *. lia.
Qed.

Lemma payload_le l m : Forall (λ it, zlen (enc it) <= m) l → zlen (payload l) <= zlen l * m.
Proof.
  unfold payload. induction 1 as [|it l H1 H2 IH]; cbn [map concat length]; [cbn; lia|]. rewrite length_app. lia.
Qed.

Lemma full_split cs fl : wf db_node (fullNode cs fl) → ∃ l x, cs = l ++ [x] ∧ length l = 16%nat.
Proof.
  intros [(Hl & _) _]%wf_slots. destruct cs as [|x l _] using rev_ind; [done|]. exists l, x. split; [done|].
  rewrite length_app in Hl. cbn in Hl. lia.
Qed.

Lemma full_payload l : zlen l = 16 → ∀ x m, Forall (λ it, zlen (enc it) <= m) l → zlen (payload (l ++ [x])) <= 16 * m + zlen (enc x).
Proof.
  intros El x m HF. unfold payload. rewrite map_app, concat_app, length_app. cbn [map concat]. rewrite app_nil_r.
  pose proof (payload_le l m HF). unfold payload in *. lia.
Qed.

Lemma item_len n top : solid n → wf db_node n → good top n → bounded n → zlen (enc (item n)) < two64.
Proof.
  intros Hs Hw Hg Hb. inversion Hw as [K v fl HK Hv|K c fl HK Hn Hbr Hc|cs fl Hl H1 H2 H3|]; subst; [..|done].
  - destruct (Hb (K ++ []) v) as [B1 B2]; [repeat constructor|]. rewrite app_nil_r in B1. cbn [item fold_ref]. apply list_len. rewrite payload_two, length_app.
    destruct (compact_spec K true) as (_ & _ & Hcl); [by apply hexkey_plain|]. cbn [enc].
    pose proof (enc_str_len (compact K)). pose proof (enc_str_len v). unfold two64 in *. lia.
  - destruct (wf_holds _ c Hc) as (k & v & Hh). destruct (Hb (K ++ k) v) as [B1 _]; [by constructor|]. rewrite length_app in B1.
    inversion Hg as [| | |top' K' V' fl' HV Hf|]; subst. cbn [item]. apply list_len. rewrite payload_two, length_app.
    destruct (compact_spec K false) as (_ & _ & Hcl); [by apply nibbles_plain|]. cbn [enc].
    pose proof (enc_str_len (compact K)). pose proof (ref_len c Hc HV). unfold two64 in *. cbn [enc] in *. lia.
  - destruct (full_split cs fl Hw) as (l & x & -> & El). inversion Hg as [| | | |top' cs' fl' HF Hf]; subst.
    apply Forall_app in HF as [HF _]. cbn [item]. rewrite map_app. apply list_len.
    assert (Hx : zlen (enc (fold_ref (item x))) <= 2 ^ 56 + 9).
    { destruct (decide (x = nil_)) as [->|Hx]; [done|].
      assert (H16 : (l ++ [x]) !! 16%nat = Some x) by (rewrite <- El; by rewrite lookup_app_r, Nat.sub_diag by lia).
      destruct (H2 x H16 Hx) as (v & _ & ->). pose proof (bounded_child _ _ _ _ Hw Hb H16 [] v ltac:(constructor)) as [_ B].
      cbn [item fold_ref enc]. pose proof (enc_str_len v). unfold two64 in *. lia. }
    assert (HF2 : Forall (λ it, zlen (enc it) <= 33) (map (λ c, fold_ref (item c)) l)).
    { apply Forall_fmap. apply Forall_lookup_2. intros i c Hi. cbn. pose proof (lookup_lt_Some _ _ _ Hi) as Hlt.
      destruct (decide (c = nil_)) as [->|Hc]; [done|]. apply ref_len; [|by eapply Forall_lookup_1].
      apply (H1 i); [by rewrite lookup_app_l|lia|done]. }
    pose proof (full_payload (map (λ c, fold_ref (item c)) l) ltac:(rewrite length_map; lia) (fold_ref (item x)) 33 HF2). cbn [map] in *. lia.
Qed.

(** ** The hasher *)

Lemma rlp_value_writable n : writable (rlp_value n).
Proof.
  induction n as [| | |K V fl IH|cs fl IH] using node_ind'; [done..|by cbn|]. apply writable_list, Forall_fmap.
  eapply Forall_impl; [exact IH|]. intros c Hc. cbn. by destruct (is_nil c).
Qed.

(** The item of a node whose children are collapsed. *)
Definition raw_item (n : node) : Item := item_of (rlp_value n).

Definition raw_child (c : node) : Item := if is_nil c then Str [] else raw_item c.

Lemma raw_full cs fl : raw_item (fullNode cs fl) = Lst (map raw_child cs).
Proof.
  unfold raw_item. cbn [rlp_value item_of]. f_equal. rewrite map_map. apply map_ext. intros c. unfold raw_child. by destruct (is_nil c).
Qed.

Lemma encode_ok n it : raw_item n = it → zlen (enc it) < two64 → encode n = Ret (enc it).
Proof.
  intros <- Hl. unfold encode. rewrite EncodeToBytes_enc; [done|apply rlp_value_writable|exact Hl].
Qed.

(** What [hash] returns for a node: its hash, or its collapsed form. *)
Definition hashed_as (force : bool) (n hd : node) : Prop :=
  ((force = true ∨ big n) ∧ hd = hashNode (digest n)) ∨ (force = false ∧ ¬ big n ∧ solid hd ∧ raw_item hd = item n).

Lemma hashed_raw n hd : solid n → hashed_as false n hd → raw_child hd = fold_ref (item n).
Proof.
  intros Hs [[[?|Hb] ->]|(_ & Hb & Hsd & E)]; [done|by rewrite fold_big|]. rewrite fold_small, <- E by done. by destruct hd.
Qed.

Definition hash_at (n : node) : Prop := ∀ force, good force n → bounded n →
  ∃ hd n', hash keccak n force = Ret (hd, n') ∧ (if decide (solid n) then hashed_as force n hd else hd = n) ∧ alike n n' ∧ good force n'.

(** The last step of [hash] and of [proofHash]. *)
Lemma to_hash collapsed n force : raw_item collapsed = item n → solid collapsed → zlen (enc (item n)) < two64 →
  ∃ hd, (tmp ← encode collapsed; if (length tmp <? 32)%nat && negb force then Ret collapsed else Ret (hashNode (hashData keccak tmp))) = Ret hd ∧
    hashed_as force n hd.
Proof.
  intros E Hs Hl. rewrite (encode_ok _ _ E Hl). cbn [mbind outcome_bind]. destruct (Nat.ltb_spec (length (enc (item n))) 32).
  - destruct force; cbn [negb andb].
    + eexists. split; [done|]. left. auto.
    + eexists. split; [done|]. right. unfold big. split_and!; [done|lia|done|done].
  - eexists. split; [by rewrite andb_false_l|]. left. unfold big. split; [right; lia|done].
Qed.

(** The flags [hash] leaves are right. *)
Lemma set_hash_good n y force hd :
  solid n → alike n y → hashed_as force n hd →
  (match y with shortNode _ V _ => good false V | fullNode cs _ => Forall (good false) cs | _ => True end) →
  alike n (set_hash y hd) ∧ good force (set_hash y hd).
Proof.
  intros Hs Ha Hh Hy. assert (Hal : alike n (set_hash y hd)) by (unfold alike; rewrite Ha; by destruct y).
  split; [done|]. assert (Hsy : solid y) by (destruct n, y; try done; cbn in Ha; discriminate).
  assert (Hf : flag_ok force (set_hash y hd)).
  { intros h E. unfold digest, big. rewrite <- (alike_item _ _ Hal).
    assert (Hd : hd = hashNode h) by (destruct y; try done; cbn in E; destruct hd; try done; by injection E as <-). subst hd.
    destruct Hh as [[Hb [= ->]]|(_ & _ & [] & _)]. split; [done|]. intros ->. by destruct Hb. }
  destruct y; try done; by constructor.
Qed.

(** A hashed node and its copy with hashes. *)
Definition child_hashed (c x y : node) : Prop := raw_child x = fold_ref (item c) ∧ strip y = strip c ∧ good false y.

Lemma hash_children_ok cs : ∀ k, Forall (λ c, c ≠ nil_ → hash_at c ∧ good false c ∧ bounded c ∧ wf db_node c) (take k cs) →
  Forall (λ c, raw_child c = fold_ref (item c) ∧ good false c) (drop k cs) →
  ∃ xs ys, hash_children (hash keccak) k cs = Ret (xs, ys) ∧
    map raw_child xs = map (λ c, fold_ref (item c)) cs ∧ map strip ys = map strip cs ∧ Forall (good false) ys.
Proof.
  induction cs as [|c cs IH]; intros k Ht Hd.
  { exists [], []. by destruct k. }
  destruct k as [|k].
  - exists (c :: cs), (c :: cs). split; [done|]. split; [|split; [done|]].
    + apply map_ext_Forall. eapply Forall_impl; [exact Hd|]. by intros x [].
    + eapply Forall_impl; [exact Hd|]. by intros x [].
  - cbn [take drop] in *. inversion Ht as [|? ? Hc Ht']; subst. destruct (IH k Ht' Hd) as (xs & ys & E & E1 & E2 & E3).
    cbn [hash_children]. destruct (decide (c = nil_)) as [->|Hn].
    + cbn [is_nil mbind outcome_bind]. rewrite E. cbn [mbind outcome_bind]. eexists _, _. split; [done|]. cbn [map]. rewrite E1, E2. split_and!; [done|done|].
      constructor; [constructor|done].
    + destruct (Hc Hn) as (Hat & Hg & Hb & Hw). destruct (Hat false Hg Hb) as (hd & n' & Eh & Hh & Ha & Hg').
      assert (En : is_nil c = false) by (by destruct c). rewrite En, Eh. cbn [mbind outcome_bind]. rewrite E. cbn [mbind outcome_bind].
      eexists _, _. split; [done|]. cbn [map]. rewrite E1, E2, Ha. split_and!; [|done|by constructor]. f_equal.
      case_decide as Hs; [by apply hashed_raw|subst hd]. by inversion Hw; subst.
Qed.

Definition collapse (n : node) : TR (node * node) :=
  match n with
  | shortNode K V fl => hashShortNodeChildren (hash keccak) K V fl
  | fullNode cs fl => hashFullNodeChildren (hash keccak) cs fl
  | _ => Ret (n, n)
  end.

Definition kids_good (y : node) : Prop :=
  match y with shortNode _ V _ => good false V | fullNode cs _ => Forall (good false) cs | _ => True end.

(** The children of a node can be hashed. *)
Definition kids_hash (n : node) : Prop :=
  match n with
  | shortNode _ V _ => hash_at V
  | fullNode cs _ => ∀ i c, cs !! i = Some c → (i < 16)%nat → c ≠ nil_ → hash_at c
  | _ => True
  end.

Lemma last_child_raw cs fl c :
  wf db_node (fullNode cs fl) → cs !! 16%nat = Some c → raw_child c = fold_ref (item c) ∧ good false c.
Proof.
  intros [(_ & _ & H2) _]%wf_slots Hc. destruct (decide (c = nil_)) as [->|Hn]; [split; [done|constructor]|].
  destruct (H2 c Hc Hn) as (v & _ & ->). split; [done|constructor].
Qed.

Lemma collapse_short K V fl top :
  wf db_node (shortNode K V fl) → good top (shortNode K V fl) → bounded (shortNode K V fl) → hash_at V →
  ∃ c y, collapse (shortNode K V fl) = Ret (c, y) ∧ solid c ∧ raw_item c = item (shortNode K V fl) ∧ alike (shortNode K V fl) y ∧ kids_good y.
Proof.
  intros Hw Hg Hb HV. inversion Hg as [| | |top' K' V' fl' HgV Hf|]; subst. apply bounded_short in Hb as HbV.
  assert (HK : ∃ t, plain_key K t) by (inversion Hw; subst; eauto using hexkey_plain, nibbles_plain).
  destruct HK as [t HK]. destruct (compact_spec K t HK) as (Ec & _ & _).
  assert (HVx : ∃ x y, match V with fullNode _ _ | shortNode _ _ _ => hash keccak V false | _ => Ret (V, V) end = Ret (x, y) ∧
      raw_item x = fold_ref (item V) ∧ alike V y ∧ good false y).
  { assert (Hval : ¬ solid V → V ≠ nil_ → ∃ x y, @Ret trie_error _ (V, V) = Ret (x, y) ∧ raw_item x = fold_ref (item V) ∧ alike V y ∧ good false y).
    { intros Hs Hn. exists V, V. split_and!; [done| |done|done]. by destruct V. }
    assert (Hsol : solid V → ∃ x y, hash keccak V false = Ret (x, y) ∧ raw_item x = fold_ref (item V) ∧ alike V y ∧ good false y).
    { intros Hs. destruct (HV false HgV HbV) as (hd & n' & E & Hh & Ha & Hg'). rewrite decide_True in Hh by done. exists hd, n'.
      split_and!; [done| |done|done]. rewrite <- (hashed_raw V hd Hs Hh). destruct Hh as [[_ ->]|(_ & _ & Hsd & _)]; [done|by destruct hd]. }
    destruct V; [by inversion Hw; subst|apply Hval; auto|apply Hval; auto|by apply Hsol|by apply Hsol]. }
  destruct HVx as (x & y & E & Ex & Ha & Hy). cbn [collapse]. unfold hashShortNodeChildren. rewrite Ec. cbn [index mbind outcome_bind].
  rewrite E. cbn [mbind outcome_bind]. eexists _, _. split; [done|]. split_and!; [done| |by unfold alike in *; cbn; rewrite Ha|done].
  unfold raw_item in *. cbn [rlp_value item_of map item]. by rewrite Ex.
Qed.

Lemma collapse_full cs fl top :
  wf db_node (fullNode cs fl) → good top (fullNode cs fl) → bounded (fullNode cs fl) → kids_hash (fullNode cs fl) →
  ∃ c y, collapse (fullNode cs fl) = Ret (c, y) ∧ solid c ∧ raw_item c = item (fullNode cs fl) ∧ alike (fullNode cs fl) y ∧ kids_good y.
Proof.
  intros Hw Hg Hb HV. inversion Hg as [| | | |top' cs' fl' HF Hf]; subst. inversion Hw as [| |cs' fl' Hl H1 H2 H3|]; subst.
  destruct (hash_children_ok cs 16) as (xs & ys & E & E1 & E2 & E3).
  - apply Forall_lookup_2. intros i c Hi Hn. pose proof (lookup_lt_Some _ _ _ Hi) as Hlt. rewrite length_take in Hlt.
    rewrite lookup_take_Some in Hi. destruct Hi as [Hi _]. split_and!; [apply (HV i c Hi); [lia|done]|by eapply Forall_lookup_1|by eapply bounded_child|].
    apply (H1 i c Hi); [lia|done].
  - apply Forall_lookup_2. intros i c Hi. rewrite lookup_drop in Hi. pose proof (lookup_lt_Some _ _ _ Hi) as Hlt.
    replace (16 + i)%nat with 16%nat in Hi by lia. by eapply last_child_raw.
  - cbn [collapse]. unfold hashFullNodeChildren. rewrite E. cbn [mbind outcome_bind]. eexists _, _. split; [done|]. split_and!; [done| | |done].
    + rewrite raw_full. cbn [item]. by rewrite E1.
    + unfold alike. cbn [strip]. by rewrite E2.
Qed.

Lemma hash_step n : wf db_node n → solid n → kids_hash n → hash_at n.
Proof.
  intros Hw Hs HK force Hg Hb. destruct (fst (cache n)) as [h|] eqn:Ec.
  { exists (hashNode h), n. rewrite decide_True by done. assert (Hf : flag_ok force n) by (by inversion Hg; subst). destruct (Hf h Ec) as [-> Hbig].
    split; [destruct n; try done; cbn [hash] in *; cbn [cache fst] in *; by rewrite Ec|]. split_and!; [|done|done].
    left. split; [|done]. destruct force; auto. }
  assert (HC : ∃ c y, collapse n = Ret (c, y) ∧ solid c ∧ raw_item c = item n ∧ alike n y ∧ kids_good y).
  { destruct n as [| | |K V fl|cs fl]; try done; [by eapply collapse_short|by eapply collapse_full]. }
  destruct HC as (c & y & E & Hsc & Ei & Ha & Hky). pose proof (item_len n force Hs Hw Hg Hb) as Hlen.
  destruct (to_hash c n force Ei Hsc Hlen) as (hd & Ehd & Hh). destruct (set_hash_good n y force hd Hs Ha Hh Hky) as [Ha' Hg'].
  exists hd, (set_hash y hd). rewrite decide_True by done. split_and!; [|done..].
  destruct n as [| | |K V fl|cs fl]; try done; cbn [hash]; cbn [cache fst] in *; rewrite Ec; cbn [collapse] in E; rewrite E;
    cbn [mbind outcome_bind] in *; unfold shortnodeToHash, fullnodeToHash; cbn [mbind outcome_bind]; by rewrite Ehd.
Qed.

Lemma hash_ok n : wf db_node n → hash_at n.
Proof.
  induction 1 as [K v fl HK Hv|K c fl HK Hn Hbr Hc IH|cs fl Hl H1 IH H2 H3|h n E Hs Hn IH].
  - apply hash_step; [by constructor|done|]. intros force _ _. exists (valueNode v), (valueNode v). split_and!; [done|done|done|constructor].
  - by apply hash_step; [constructor| |].
  - apply hash_step; [by constructor|done|]. exact IH.
  - intros force Hg _. exists (hashNode h), (hashNode h). by split_and!.
Qed.

End Store.
End Hashing.

End TrieHashProofs.
