(* ===== verification/MerkleProofs.v ===== *)
(** * MerkleProofs: a root hash stands for the whole content

    Tries loaded from different databases are compared through their fully
    expanded forms. Without a collision between the encodings of their nodes,
    the root hash determines the expanded trie, and a Merkle proof leads to
    what the trie holds. *)

From stdpp Require Import base gmap list.
From Stdlib Require Import ZArith Lia.
From S2P Require Import Prelude Rlp RlpProofs Trie TrieProofs TrieHash TrieHashProofs.

Local Open Scope Z_scope.

(** ** TrieCodec: nodes survive their encoding

    Parsing the encoding of a node gives the node back, with its larger
    children replaced by their hashes. *)

Module TrieCodec.
Import Rlp RlpProofs Trie TrieProofs TrieHash TrieHashProofs.

Section Codec.
Context (keccak : bytes → bytes) (keccak_32 : ∀ b, length (keccak b) = 32%nat) (db_node : bytes → option node).

Abbreviation item := (item keccak).
Abbreviation fold_ref := (fold_ref keccak).
Abbreviation digest := (digest keccak).
Abbreviation big := (big keccak).
Abbreviation good := (good keccak db_node).
Abbreviation wf := (wf db_node).
Abbreviation bounded := (bounded db_node).

(** The reference to the child [c], which parses to [d] where it is embedded. *)
Definition dec_ref (c d : node) : node := if decide (solid c ∧ big c) then hashNode (digest c) else d.

(** The node that the encoding of [n] parses to. *)
Fixpoint dec (h : option bytes) (n : node) : node :=
  match n with
  | shortNode K V _ => shortNode K (dec_ref V (dec None V)) (mk_flag h false)
  | fullNode cs _ => fullNode (map (λ c, dec_ref c (dec None c)) cs) (mk_flag h false)
  | n => n
  end.

Lemma dec_ref_value v d : dec_ref (valueNode v) d = d.
Proof. unfold dec_ref. by rewrite decide_False by (by intros [[] _]). Qed.

Lemma dec_ref_nil d : dec_ref nil_ d = d.
Proof. unfold dec_ref. by rewrite decide_False by (by intros [[] _]). Qed.

Lemma enc_nonempty it : (0 < length (enc it))%nat.
Proof.
  destruct (decide (kind_of it = Byte)) as [HB|HB].
  - destruct (enc_byte it HB) as (x & -> & _ & ->). cbn. lia.
  - rewrite (enc_header it HB), length_app.
    assert (Hh : ∀ s l n, (0 < length (head s l n))%nat) by (intros; unfold head; destruct (_ <? _); cbn; lia).
    destruct it; [pose proof (Hh 0x80 0xB7 (zlen (content_of (Str b))))|pose proof (Hh 0xC0 0xF7 (zlen (content_of (Lst l))))]; lia.
Qed.

Lemma payload_lt l : (length (payload l) < length (enc (Lst l)))%nat.
Proof.
  pose proof (length_payload l). assert (0 < zlen (head 0xC0 0xF7 (zlen (payload l)))) by (unfold head; destruct (_ <? _); cbn; lia). lia.
Qed.

Lemma SplitString_enc b rest : zlen (enc (Str b) ++ rest) < two64 → SplitString (enc (Str b) ++ rest) = Ret (b, rest).
Proof.
  intros Hl. unfold SplitString. rewrite Split_enc by done. cbn [mbind outcome_bind content_of].
  destruct (kind_of (Str b)) eqn:E; [done|done|]. cbn in E. destruct b as [|x [|y b]]; try done. by destruct (_ <=? _).
Qed.

Lemma SplitList_enc l rest : zlen (enc (Lst l) ++ rest) < two64 → SplitList (enc (Lst l) ++ rest) = Ret (payload l, rest).
Proof. intros Hl. unfold SplitList. by rewrite Split_enc. Qed.

Lemma CountValues_payload l : zlen (payload l) < two64 → CountValues (payload l) = Ret (zlen l).
Proof. intros Hl. unfold CountValues. by rewrite count_values_payload. Qed.

Lemma kind_long b : length b = 32%nat → kind_of (Str b) = String.
Proof. by destruct b as [|x [|y b]]. Qed.

(** The parser works on the nodes shorter than [fuel]. *)
Definition decodes (fuel : nat) : Prop := ∀ n top h rest,
  solid n → wf n → good top n → bounded n → (length (enc (item n)) < fuel)%nat → zlen (enc (item n) ++ rest) < two64 →
  decode_node fuel h (enc (item n) ++ rest) = Ret (dec h n).

Lemma decodeRef_ok fuel c rest :
  decodes fuel → c = nil_ ∨ wf c → good false c → bounded c → (length (enc (fold_ref (item c))) < fuel)%nat →
  zlen (enc (fold_ref (item c)) ++ rest) < two64 →
  decodeRef (decode_node fuel) (enc (fold_ref (item c)) ++ rest) = Ret (dec_ref c (dec None c), rest).
Proof.
  intros HD Hw Hg Hb Hf Hl. unfold decodeRef. rewrite Split_enc by done. cbn [from_rlp mbind outcome_bind].
  assert (Hhash : ∀ h, length h = 32%nat → fold_ref (item c) = Str h →
    (match kind_of (fold_ref (item c)) with
     | List => let size := zlen (enc (fold_ref (item c)) ++ rest) - zlen rest in
         if hashLen <? size then Err (plain (OversizedEmbedded size)) else n ← decode_node fuel None (enc (fold_ref (item c)) ++ rest); Ret (n, rest)
     | String => if (length (content_of (fold_ref (item c))) =? 0)%nat then Ret (nil_, rest)
         else if (length (content_of (fold_ref (item c))) =? 32)%nat then Ret (hashNode (content_of (fold_ref (item c))), rest)
         else Err (plain (InvalidSize (zlen (content_of (fold_ref (item c))))))
     | Byte => Err (plain (InvalidSize (zlen (content_of (fold_ref (item c))))))
     end) = Ret (hashNode h, rest)).
  { intros h El ->. rewrite kind_long by done. cbn [content_of]. by rewrite El. }
  destruct (decide (solid c)) as [Hs|Hs].
  - unfold dec_ref. destruct (decide (big c)) as [Hbig|Hbig].
    + rewrite decide_True by done. apply Hhash; [apply keccak_32|by apply fold_big].
    + rewrite decide_False by tauto. rewrite fold_small in * by done. destruct Hw as [->|Hw]; [done|].
      assert (Ek : kind_of (item c) = List) by (by destruct c). rewrite Ek. cbv zeta.
      assert (Hsz : (hashLen <? zlen (enc (item c) ++ rest) - zlen rest) = false).
      { apply Z.ltb_ge. rewrite length_app. unfold hashLen, TrieHashProofs.big in *. lia. }
      rewrite Hsz. rewrite (HD c false None rest) by done. done.
  - unfold dec_ref. rewrite decide_False by tauto. inversion Hg as [| |top h n E _ Eh _ _| |]; subst; try done.
    + destruct Hw as [?|Hw]; [done|by inversion Hw].
    + apply Hhash; [apply keccak_32|done].
Qed.

Lemma decode_children_ok fuel cs : ∀ i rest,
  decodes fuel → Forall (λ c, (c = nil_ ∨ wf c) ∧ good false c ∧ bounded c) cs →
  (length (payload (map (λ c, fold_ref (item c)) cs)) < fuel)%nat → zlen (payload (map (λ c, fold_ref (item c)) cs) ++ rest) < two64 →
  decode_children (decode_node fuel) (length cs) i (payload (map (λ c, fold_ref (item c)) cs) ++ rest) =
    Ret (map (λ c, dec_ref c (dec None c)) cs, rest).
Proof.
  induction cs as [|c cs IH]; intros i rest HD HF Hf Hl; [done|]. inversion HF as [|? ? (Hw & Hg & Hb) HF']; subst.
  unfold payload in *. cbn [map concat length decode_children] in *. rewrite <- app_assoc in *. rewrite length_app in Hf.
  rewrite decodeRef_ok; [|done|done|done|done|lia|done]. cbn [wrap mbind outcome_bind]. rewrite length_app in Hl.
  rewrite IH; [done|done|done|lia|lia].
Qed.

Lemma decodeShort_ok fuel K V fl top h :
  decodes fuel → wf (shortNode K V fl) → good top (shortNode K V fl) → bounded (shortNode K V fl) →
  let p := payload [Str (compact K); fold_ref (item V)] in (length p < fuel)%nat → zlen p < two64 →
  decodeShort (decode_node fuel) h p = Ret (dec h (shortNode K V fl)).
Proof.
  cbv zeta. rewrite payload_two. intros HD Hw Hg Hb Hf Hl. unfold decodeShort. rewrite SplitString_enc by done. cbn [from_rlp mbind outcome_bind].
  inversion Hg as [| | |top' K' V' fl' HV _|]; subst. rewrite length_app in Hf, Hl.
  inversion Hw as [K' v fl' HK Hv|K' c fl' HK Hn Hbr Hc| |]; subst.
  - destruct (compact_spec K true) as (_ & -> & _); [by apply hexkey_plain|]. rewrite (plain_hasTerm K true) by (by apply hexkey_plain).
    cbn [TrieHashProofs.item TrieHashProofs.fold_ref] in *. rewrite <- (app_nil_r (enc (Str v))), SplitString_enc by (rewrite app_nil_r; lia).
    cbn [from_rlp mbind outcome_bind dec]. by rewrite dec_ref_value.
  - destruct (compact_spec K false) as (_ & -> & _); [by apply nibbles_plain|]. rewrite (plain_hasTerm K false) by (by apply nibbles_plain).
    rewrite <- (app_nil_r (enc (fold_ref (item V)))), decodeRef_ok; [done|done|by right|done|by eapply bounded_short|lia|rewrite app_nil_r; lia].
Qed.

Lemma decodeFull_ok fuel cs fl top h :
  decodes fuel → wf (fullNode cs fl) → good top (fullNode cs fl) → bounded (fullNode cs fl) →
  let p := payload (map (λ c, fold_ref (item c)) cs) in (length p < fuel)%nat → zlen p < two64 →
  decodeFull (decode_node fuel) h p = Ret (dec h (fullNode cs fl)).
Proof.
  cbv zeta. intros HD Hw Hg Hb Hf Hl. destruct (full_split _ cs fl Hw) as (l & x & -> & El).
  inversion Hg as [| | | |top' cs' fl' HF _]; subst. apply Forall_app in HF as [HF _]. inversion Hw as [| |cs' fl' H17 H1 H2 H3|]; subst.
  assert (Ep : payload (map (λ c, fold_ref (item c)) (l ++ [x])) = payload (map (λ c, fold_ref (item c)) l) ++ enc (fold_ref (item x))).
  { unfold payload. rewrite !map_app, concat_app. cbn. by rewrite app_nil_r. }
  rewrite Ep in *. rewrite length_app in Hf.
  assert (HF2 : Forall (λ c, (c = nil_ ∨ wf c) ∧ good false c ∧ bounded c) l).
  { apply Forall_lookup_2. intros i c Hi. pose proof (lookup_lt_Some _ _ _ Hi) as Hlt. assert (Hi' : (l ++ [x]) !! i = Some c) by (by rewrite lookup_app_l).
    split_and!; [|by eapply Forall_lookup_1|by eapply bounded_child]. destruct (decide (c = nil_)); [by left|right]. by apply (H1 i); [|lia|]. }
  unfold decodeFull. rewrite <- El. rewrite decode_children_ok; [|done|done|lia|done]. cbn [mbind outcome_bind]. rewrite length_app in Hl.
  assert (H16 : (l ++ [x]) !! 16%nat = Some x) by (rewrite <- El; by rewrite lookup_app_r, Nat.sub_diag by lia).
  cbn [dec]. rewrite map_app. cbn [map].
  destruct (decide (x = nil_)) as [->|Hx].
  - cbn [TrieHashProofs.item TrieHashProofs.fold_ref]. rewrite <- (app_nil_r (enc (Str []))), SplitString_enc by done. done.
  - destruct (H2 x H16 Hx) as (v & Hv & ->). cbn [TrieHashProofs.item TrieHashProofs.fold_ref] in *.
    rewrite <- (app_nil_r (enc (Str v))), SplitString_enc by (rewrite app_nil_r; lia). cbn [from_rlp mbind outcome_bind].
    cbn [dec]. rewrite dec_ref_value. by destruct v.
Qed.

Lemma decode_node_ok fuel : decodes fuel.
Proof.
  induction fuel as [|fuel IH]; intros n top h rest Hs Hw Hg Hb Hf Hl; [lia|]. cbn [decode_node].
  destruct (Nat.eqb_spec (length (enc (item n) ++ rest)) 0) as [E0|_].
  { pose proof (enc_nonempty (item n)). rewrite length_app in E0. lia. }
  assert (HP : ∃ l, item n = Lst l) by (destruct n; try done; by eexists). destruct HP as [l El]. rewrite El in *.
  pose proof (payload_lt l). assert (zlen (payload l) < two64) by (rewrite length_app in Hl; lia).
  rewrite SplitList_enc by done. cbn [from_rlp mbind outcome_bind]. rewrite CountValues_payload by done.
  destruct n as [| | |K V fl|cs fl]; try done; injection El as <-.
  - cbn [length Z.eqb Pos.eqb Z.of_nat Pos.of_succ_nat Pos.succ]. rewrite (decodeShort_ok fuel K V fl top h) by (done || lia). done.
  - rewrite length_map. assert (length cs = 17%nat) as -> by (inversion Hw; by subst). change (Z.of_nat 17 =? 2) with false. cbv iota.
    change (Z.of_nat 17 =? 17) with true. cbv iota. rewrite (decodeFull_ok fuel cs fl top h) by (done || lia). done.
Qed.

Lemma decodeNode_ok n top h :
  solid n → wf n → good top n → bounded n → decodeNode h (enc (item n)) = Ret (dec h n).
Proof.
  intros Hs Hw Hg Hb. unfold decodeNode. rewrite <- (app_nil_r (enc (item n))) at 2.
  apply (decode_node_ok _ n top); [done..|lia|]. rewrite app_nil_r. by eapply item_len.
Qed.

End Codec.
End TrieCodec.

Module MerkleProofs.
Import Rlp RlpProofs Trie TrieProofs TrieHash TrieHashProofs TrieCodec.

(** ** Flags do not matter *)

Lemma strip_holds db n k v : holds db n k v → ∀ n', alike n n' → holds db n' k v.
Proof.
  induction 1 as [v|K c fl k v Hc IH|cs fl b c k v Hc Hh IH|h n k v E Hh IH]; intros n' Ha; destruct n' as [| | |K' V'|cs']; try done; cbn in Ha.
  - injection Ha as ->. constructor.
  - injection Ha as <- Ha. constructor. by apply IH.
  - injection Ha as Ha. assert (Hs : (strip <$> cs) !! Z.to_nat (b2z b) = (strip <$> cs') !! Z.to_nat (b2z b)).
    { change (strip <$> cs) with (map strip cs). by rewrite Ha. }
    rewrite !list_lookup_fmap in Hs. unfold child in Hc. rewrite Hc in Hs. cbn in Hs.
    destruct (cs' !! Z.to_nat (b2z b)) as [c'|] eqn:Ec; [|done]. injection Hs as Hs. econstructor; [exact Ec|by apply IH].
  - injection Ha as ->. by econstructor.
Qed.

Lemma alike_children cs cs' i c : map strip cs = map strip cs' → cs' !! i = Some c → ∃ c0, cs !! i = Some c0 ∧ alike c0 c.
Proof.
  intros Ha Hi. assert (Hs : (strip <$> cs) !! i = (strip <$> cs') !! i) by (change (strip <$> cs) with (map strip cs); by rewrite Ha).
  rewrite !list_lookup_fmap, Hi in Hs. cbn in Hs. destruct (cs !! i) as [c0|]; [|done]. injection Hs as Hs. by exists c0.
Qed.

Lemma strip_wf db n : wf db n → ∀ n', alike n n' → wf db n'.
Proof.
  induction 1 as [K v fl HK Hv|K c fl HK Hn Hb Hc IH|cs fl Hl H1 IH H2 H3|h n E Hs Hn IH]; intros n' Ha; destruct n' as [| | |K' V'|cs']; try done; cbn in Ha.
  - injection Ha as <- Ha. destruct V'; try done. injection Ha as <-. by constructor.
  - injection Ha as <- Ha. constructor; [done|done| |by apply IH]. destruct c, V'; try done. cbn in Ha. by injection Ha as <-.
  - injection Ha as Ha. assert (Hl' : length cs' = 17%nat) by (rewrite <- (length_map strip cs'), <- Ha, length_map; done). constructor; [done| | |].
    + intros i c Hi Hlt Hc. destruct (alike_children _ _ _ _ Ha Hi) as (c0 & H0 & Hal). apply (IH i c0 H0 Hlt); [|done]. intros ->. by destruct c.
    + intros c Hi Hc. destruct (alike_children _ _ _ _ Ha Hi) as (c0 & H0 & Hal). destruct (H2 c0 H0) as (v & Hv & ->); [intros ->; by destruct c|].
      destruct c; try done. injection Hal as <-. eauto.
    + destruct H3 as (i & j & a & b & Hij & Hi & Hj & Ha' & Hb'). symmetry in Ha.
      destruct (alike_children _ _ _ _ Ha Hi) as (a0 & Hi0 & Hala), (alike_children _ _ _ _ Ha Hj) as (b0 & Hj0 & Halb).
      exists i, j, a0, b0. split_and!; [done..| |]; intros ->; [by destruct a|by destruct b].
  - injection Ha as ->. by econstructor.
Qed.

Lemma alike_sym n n' : alike n n' → alike n' n.
Proof. by unfold alike. Qed.

Lemma holds_fun db n k v : holds db n k v → ∀ v', holds db n k v' → v = v'.
Proof.
  induction 1 as [v|K c fl k v Hc IH|cs fl b c k v Hc Hh IH|h n k v E Hh IH]; intros v' Hv'.
  - by apply holds_value_inv in Hv' as [_ ->].
  - apply holds_short_inv in Hv' as (r & <-%app_inv_head & Hr). auto.
  - apply holds_full_inv in Hv' as (b' & c' & r & [= <- <-] & Hc' & Hr). apply IH. congruence.
  - apply IH. by eapply holds_hash_inv.
Qed.

(** ** Expanded tries *)

Definition none (h : bytes) : option node := None.

Section Merkle.
Context (keccak : bytes → bytes) (keccak_32 : ∀ b, length (keccak b) = 32%nat).

Abbreviation item := (item keccak).
Abbreviation fold_ref := (fold_ref keccak).
Abbreviation digest := (digest keccak).
Abbreviation big := (big keccak).
Abbreviation known_as := (known_as keccak).
Abbreviation root_digest := (root_digest keccak).

(** The strings that were hashed for a trie. *)
Inductive encodes (db : bytes → option node) : node → bytes → Prop :=
  | enc_nil : encodes db nil_ [z2b 0x80]
  | enc_self n : solid n → encodes db n (enc (item n))
  | enc_short K V fl e : V ≠ nil_ → encodes db V e → encodes db (shortNode K V fl) e
  | enc_full cs fl i c e : cs !! i = Some c → c ≠ nil_ → encodes db c e → encodes db (fullNode cs fl) e
  | enc_link h n e : db h = Some n → encodes db n e → encodes db (hashNode h) e.

Section Expand.
Context (db : bytes → option node).

Record expanded (top : bool) (n m : node) : Prop := {
  ex_solid : solid m;
  ex_wf : wf none m;
  ex_good : good keccak none top m;
  ex_known : known_as top n m;
  ex_holds : ∀ k v, holds db n k v ↔ holds none m k v;
  ex_branch : branch db n → branch none m;
  ex_encodes : ∀ e, encodes none m e → encodes db n e;
}.

(** A child of a branch and its expanded form. *)
Definition child_expanded (c m : node) : Prop :=
  (m = nil_ ↔ c = nil_) ∧ (c = nil_ ∨ (∃ v, v ≠ [] ∧ c = valueNode v ∧ m = c) ∨ (wf db c ∧ expanded false c m)).

Lemma list_choice {A B} (P : A → B → Prop) l : (∀ i x, l !! i = Some x → ∃ y, P x y) → ∃ l', Forall2 P l l'.
Proof.
  induction l as [|x l IH]; intros H; [by exists []|]. destruct (H 0%nat x eq_refl) as [y Hy].
  destruct IH as [l' Hl]; [intros i z Hz; by apply (H (S i))|]. exists (y :: l'). by constructor.
Qed.

Lemma child_known c m : child_expanded c m → fold_ref (item c) = fold_ref (item m).
Proof.
  intros [Hn [->|[(v & _ & -> & ->)|[_ [_ _ _ [_ Hk] _ _ _]]]]]; [by rewrite (proj2 Hn eq_refl)|done|auto].
Qed.

Lemma child_holds c m k v : child_expanded c m → holds db c k v ↔ holds none m k v.
Proof.
  intros [Hn [->|[(w & _ & -> & ->)|[_ [_ _ _ _ Hh _ _]]]]]; [|by rewrite !holds_value_inv|by apply Hh].
  rewrite (proj2 Hn eq_refl). split; by intros []%holds_nil.
Qed.

Lemma expand_full cs fl ms top :
  wf db (fullNode cs fl) → Forall2 child_expanded cs ms → expanded top (fullNode cs fl) (fullNode ms newFlag).
Proof.
  intros Hw HF. inversion Hw as [| |cs' fl' Hl H1 H2 H3|]; subst. pose proof (Forall2_length _ _ _ HF) as Elen.
  assert (Hat : ∀ i m, ms !! i = Some m → ∃ c, cs !! i = Some c ∧ child_expanded c m).
  { intros i m Hi. destruct (Forall2_lookup_r _ _ _ _ _ HF Hi) as (c & Hc & Hx). eauto. }
  assert (Ei : item (fullNode cs fl) = item (fullNode ms newFlag)).
  { cbn [TrieHashProofs.item]. f_equal. clear -HF. induction HF as [|c m cs ms Hc HF IH]; [done|]. cbn [map]. by rewrite IH, (child_known c m Hc). }
  split; [done| | | | |done|].
  - constructor; [lia| | |].
    + intros i m Hi Hlt Hm. destruct (Hat i m Hi) as (c & Hc & Hn & Hcx). destruct Hcx as [->|[(v & _ & -> & ->)|[_ Hx]]]; [by destruct Hm; apply Hn| |apply Hx].
      specialize (H1 i _ Hc Hlt ltac:(done)). inversion H1.
    + intros m Hi Hm. destruct (Hat _ m Hi) as (c & Hc & Hn & Hcx). destruct (H2 c Hc) as (v & Hv & ->); [by intros ->; apply Hm, Hn|].
      destruct Hcx as [?|[(w & _ & [= <-] & ->)|[Hx _]]]; [done|by eexists|inversion Hx].
    + destruct H3 as (i & j & a & b & Hij & Hi & Hj & Ha & Hb).
      destruct (Forall2_lookup_l _ _ _ _ _ HF Hi) as (a' & Hi' & Hxa), (Forall2_lookup_l _ _ _ _ _ HF Hj) as (b' & Hj' & Hxb).
      pose proof (proj1 Hxa). pose proof (proj1 Hxb).
      exists i, j, a', b'. split_and!; [done..| |]; naive_solver.
  - apply good_new_full. apply Forall_lookup_2. intros i m Hi. destruct (Hat i m Hi) as (c & _ & Hn & Hcx).
    destruct Hcx as [->|[(v & _ & -> & ->)|[_ Hx]]]; [rewrite (proj2 Hn eq_refl); constructor|constructor|apply Hx].
  - split; [cbn [TrieHashProofs.root_digest]; unfold TrieHashProofs.digest; by rewrite Ei|intros _; by rewrite Ei].
  - intros k v. rewrite !holds_full_inv. split.
    + intros (b & c & r & -> & Hc & Hh). destruct (Forall2_lookup_l _ _ _ _ _ HF Hc) as (m & Hm & Hx). exists b, m, r.
      split_and!; [done|done|by apply (child_holds c m)].
    + intros (b & m & r & -> & Hm & Hh). destruct (Hat _ m Hm) as (c & Hc & Hx). exists b, c, r. split_and!; [done|done|by apply (child_holds c m)].
  - intros e He. inversion He as [|n Hs|K V fl0 e' HV He'|cs0 fl0 i m e' Hm Hnm He'|]; subst; [rewrite <- Ei; by apply (enc_self _ (fullNode cs fl))|].
    destruct (Hat i m Hm) as (c & Hc & Hn & Hcx). destruct Hcx as [->|[(v & _ & -> & ->)|[_ Hx]]]; [by destruct Hnm; apply Hn|inversion He'; by subst|].
    eapply enc_full; [exact Hc|by intros ->; apply Hnm, Hn|]. by apply Hx.
Qed.

Lemma expand n : wf db n → ∀ top, good keccak db top n → ∃ m, expanded top n m.
Proof.
  induction 1 as [K v fl HK Hv|K c fl HK Hn Hb Hc IH|cs fl Hl H1 IH H2 H3|h n E Hs Hn IH]; intros top Hg.
  - exists (shortNode K (valueNode v) newFlag). split; [done|by constructor|apply good_new_short; constructor|done| |done|].
    + intros k w. rewrite !holds_short_inv. by setoid_rewrite holds_value_inv.
    + intros e He. inversion He as [|n Hs|K' V fl0 e' HV He'| |]; subst; [by apply (enc_self _ (shortNode K (valueNode v) fl))|inversion He'; by subst].
  - inversion Hg as [| | |top' K' V' fl' HgV Hf|]; subst. destruct (IH false HgV) as [m [Hs Hw Hgm [_ Hk] Hh Hbr He]].
    assert (Ei : item (shortNode K c fl) = item (shortNode K m newFlag)) by (cbn [TrieHashProofs.item]; by rewrite Hk).
    exists (shortNode K m newFlag). split; [done|by constructor; auto|by apply good_new_short| | |done|].
    + split; [cbn [TrieHashProofs.root_digest]; unfold TrieHashProofs.digest; by rewrite Ei|intros _; by rewrite Ei].
    + intros k w. rewrite !holds_short_inv. by setoid_rewrite Hh.
    + intros e He'. inversion He' as [|n Hs'|K' V fl0 e' HV He''| |]; subst; [rewrite <- Ei; by apply (enc_self _ (shortNode K c fl))|].
      apply enc_short; [by apply wf_not_nil in Hc|by apply He].
  - inversion Hg as [| | | |top' cs' fl' HF Hf]; subst. assert (Hw : wf db (fullNode cs fl)) by (by constructor).
    destruct (list_choice child_expanded cs) as [ms HF2]; [|by exists (fullNode ms newFlag); apply expand_full].
    intros i c Hi. destruct (decide (c = nil_)) as [->|Hnc]; [exists nil_; by split; [|left]|]. pose proof (lookup_lt_Some _ _ _ Hi) as Hlt.
    destruct (decide (i = 16%nat)) as [->|Hi16].
    + destruct (H2 c Hi Hnc) as (v & Hv & ->). exists (valueNode v). split; [done|]. right. left. eauto.
    + destruct (IH i c Hi ltac:(lia) Hnc false) as [m Hm]; [by eapply Forall_lookup_1|]. exists m. split; [|right; right; split; [by apply (H1 i); [|lia|]|done]].
      destruct Hm as [Hs _ _ _ _ _ _]. split; [by intros ->|done].
  - inversion Hg as [| |top' h' n0 En _ Hd Hbig Hn0| |]; subst. assert (n0 = n) as -> by congruence. destruct (IH top Hn0) as [m [Hsm Hw Hgm Hk Hh Hbr He]].
    exists m. split; [done|done|done|by apply (known_hash keccak top _ n m)| | |].
    + intros k v. rewrite <- Hh. by apply holds_hash_inv.
    + intros Hb. apply Hbr. by eapply branch_hash.
    + intros e He'. econstructor; [exact E|by apply He].
Qed.

End Expand.

(** ** The content determines the hash *)

Lemma sim_known m1 m2 : sim none m1 m2 → ∀ top, good keccak none top m1 → good keccak none top m2 → known_as top m1 m2.
Proof.
  assert (Hitem : ∀ top n n', solid n → solid n' → item n = item n' → known_as top n n').
  { intros top n n' Hs Hs' E. split; [destruct n, n'; try done; cbn [TrieHashProofs.root_digest]; unfold TrieHashProofs.digest; by rewrite E|intros _; by rewrite E]. }
  induction 1 as [|v|K c c' fl fl' Hc IH|cs cs' fl fl' Hl Hc IH|h n n' E Hn IH|h n n' E Hn IH]; intros top G1 G2; try done.
  - inversion G1 as [| | |t1 K1 V1 f1 HV1 _|]; inversion G2 as [| | |t2 K2 V2 f2 HV2 _|]; subst. apply Hitem; [done|done|].
    cbn [TrieHashProofs.item]. by rewrite (proj2 (IH false HV1 HV2) eq_refl).
  - inversion G1 as [| | | |t1 c1 f1 HF1 _]; inversion G2 as [| | | |t2 c2 f2 HF2 _]; subst. apply Hitem; [done|done|].
    cbn [TrieHashProofs.item]. f_equal. change (map ?f ?l) with (f <$> l). apply list_eq. intros i. rewrite !list_lookup_fmap.
    destruct (cs !! i) as [c|] eqn:E1, (cs' !! i) as [c'|] eqn:E2; cbn.
    + f_equal. apply (IH i c c' E1 E2 false); [exact (Forall_lookup_1 _ _ _ _ HF1 E1)|exact (Forall_lookup_1 _ _ _ _ HF2 E2)|done].
    + apply lookup_lt_Some in E1. apply lookup_ge_None in E2. lia.
    + apply lookup_ge_None in E1. apply lookup_lt_Some in E2. lia.
    + done.
Qed.

(** ** The hash determines the content *)

Definition fit (db : bytes → option node) (top : bool) (m : node) : Prop := solid m ∧ wf db m ∧ good keccak db top m ∧ bounded db m.

(** No string hashed for one trie collides with one hashed for the other. *)
Definition apart (db1 db2 : bytes → option node) (n1 n2 : node) : Prop :=
  ∀ e e', encodes db1 n1 e → encodes db2 n2 e' → keccak e = keccak e' → e = e'.

Lemma fit_weak db top m : fit db false m → fit db top m.
Proof. intros (H1 & H2 & H3 & H4). split_and!; [done|done|by apply good_weak|done]. Qed.

Lemma enc_dec t1 t2 m1 m2 : fit none t1 m1 → fit none t2 m2 → enc (item m1) = enc (item m2) → dec keccak None m1 = dec keccak None m2.
Proof.
  intros (H1 & H2 & H3 & H4) (J1 & J2 & J3 & J4) E. pose proof (decodeNode_ok keccak keccak_32 none m1 t1 None H1 H2 H3 H4) as D1.
  pose proof (decodeNode_ok keccak keccak_32 none m2 t2 None J1 J2 J3 J4) as D2. rewrite E in D1. congruence.
Qed.

Lemma dec_solid h n : solid n → solid (dec keccak h n).
Proof. by destruct n. Qed.

Lemma ref_dec c1 c2 : fit none false c1 → fit none false c2 → apart none none c1 c2 →
  dec_ref keccak c1 (dec keccak None c1) = dec_ref keccak c2 (dec keccak None c2) → dec keccak None c1 = dec keccak None c2.
Proof.
  intros F1 F2 Hap. unfold dec_ref. pose proof (dec_solid None c1 (proj1 F1)). pose proof (dec_solid None c2 (proj1 F2)).
  destruct (decide (solid c1 ∧ big c1)) as [[Hs1 Hb1]|Hn1], (decide (solid c2 ∧ big c2)) as [[Hs2 Hb2]|Hn2]; intros E.
  - injection E as E. eapply enc_dec; [done|done|]. apply Hap; [by constructor|by constructor|done].
  - by rewrite <- E in *.
  - by rewrite E in *.
  - done.
Qed.

Lemma dec_ref_branch c : branch none c → ¬ (∃ v, dec_ref keccak c (dec keccak None c) = valueNode v).
Proof.
  intros Hb [v E]. destruct c as [| |h| |cs fl]; try done. unfold dec_ref in E. by destruct (decide _).
Qed.

Lemma dec_ref_not_nil c : solid c → dec_ref keccak c (dec keccak None c) ≠ nil_.
Proof. intros Hs. unfold dec_ref. destruct (decide _); [done|]. by destruct c. Qed.

Lemma fit_full_child top cs fl i c : fit none top (fullNode cs fl) → cs !! i = Some c → (i < 16)%nat → c ≠ nil_ → fit none false c.
Proof.
  intros (_ & Hw & Hg & Hb) Hi Hlt Hc. inversion Hg as [| | | |t c1 f1 HF _]; subst.
  assert (Hwc : wf none c) by (inversion Hw as [| |c2 f2 _ H1 _ _|]; subst; by apply (H1 i)). assert (Hgc := Forall_lookup_1 _ _ _ _ HF Hi). cbn in Hgc.
  split_and!; [|done|done|by eapply bounded_child]. inversion Hwc; subst; done.
Qed.

Lemma fit_ext top K c fl : fit none top (shortNode K c fl) → branch none c → fit none false c.
Proof.
  intros (_ & Hw & Hg & Hb) Hbr. inversion Hg as [| | |t K1 V1 f1 HV _|]; subst. assert (Hsc : solid c) by (destruct c as [| |h| |]; try done; by destruct Hbr as (? & ? & ?)).
  split_and!; [done|inversion Hw; by subst|done|by eapply bounded_short].
Qed.

Lemma dec_inj m1 : wf none m1 → ∀ t1 t2 m2, fit none t1 m1 → fit none t2 m2 → apart none none m1 m2 →
  dec keccak None m1 = dec keccak None m2 → alike m1 m2.
Proof.
  induction 1 as [K v fl HK Hv|K c fl HK Hn Hb Hc IH|cs fl Hl H1 IH H2 H3|h n Eh Hs Hn IH]; intros t1 t2 m2 F1 F2 Hap E; [| | |done];
    pose proof (proj1 (proj2 F2)) as Hw2.
  - destruct m2 as [| | |K2 V2 fl2|]; try done. cbn [dec] in E. rewrite dec_ref_value in E. injection E as <- E.
    inversion Hw2 as [K' w f' HK' Hw'|K' c' f' _ _ Hb' _| |]; subst; [rewrite dec_ref_value in E; by injection E as ->|].
    destruct (dec_ref_branch V2 Hb'). by exists v.
  - destruct m2 as [| | |K2 V2 fl2|]; try done. cbn [dec] in E. injection E as <- E.
    inversion Hw2 as [K' w f' HK' Hw'|K' c' f' _ _ Hb' _| |]; subst; [rewrite dec_ref_value in E; destruct (dec_ref_branch c Hb); by eexists|].
    pose proof (fit_ext _ _ _ _ F1 Hb) as Fc. pose proof (fit_ext _ _ _ _ F2 Hb') as Fc'.
    assert (Hap' : apart none none c V2).
    { intros e e' He He'. apply Hap; apply enc_short; try done; apply wf_not_nil with none; [apply Fc|apply Fc']. }
    unfold alike. cbn [strip]. f_equal. apply (IH false false); [done..|]. by apply ref_dec.
  - destruct m2 as [| | | |cs2 fl2]; try done. cbn [dec] in E. injection E as E. unfold alike. cbn [strip]. f_equal.
    inversion Hw2 as [| |cs' fl' Hl' H1' H2' H3'|]; subst. change (map ?f ?l) with (f <$> l) in E |- *. apply list_eq. intros i. rewrite !list_lookup_fmap.
    apply (f_equal (lookup i)) in E. rewrite !list_lookup_fmap in E.
    destruct (cs !! i) as [c|] eqn:E1, (cs2 !! i) as [c'|] eqn:E2; cbn in *; try done. f_equal. injection E as E.
    pose proof (lookup_lt_Some _ _ _ E1) as Hlt. destruct (decide (i = 16%nat)) as [->|Hi].
    + assert (Hlast : ∀ x, x ≠ nil_ → x = c ∨ x = c' → ∃ v, v ≠ [] ∧ x = valueNode v) by (intros x Hx [->| ->]; auto).
      destruct (decide (c = nil_)) as [->|Hc], (decide (c' = nil_)) as [->|Hc']; [done|..].
      * destruct (Hlast c' Hc') as (v & _ & ->); [by right|]. by rewrite dec_ref_value in E.
      * destruct (Hlast c Hc) as (v & _ & ->); [by left|]. by rewrite dec_ref_value in E.
      * destruct (Hlast c Hc) as (v & _ & ->); [by left|]. destruct (Hlast c' Hc') as (v' & _ & ->); [by right|]. by rewrite !dec_ref_value in E.
    + assert (Hf1 : c ≠ nil_ → fit none false c) by (intros; eapply fit_full_child; [exact F1|exact E1|lia|done]).
      assert (Hf2 : c' ≠ nil_ → fit none false c') by (intros; eapply fit_full_child; [exact F2|exact E2|lia|done]).
      destruct (decide (c = nil_)) as [->|Hc], (decide (c' = nil_)) as [->|Hc']; [done|..].
      * pose proof (dec_ref_not_nil c' (proj1 (Hf2 Hc'))) as Hx. by rewrite <- E in Hx.
      * pose proof (dec_ref_not_nil c (proj1 (Hf1 Hc))) as Hx. by rewrite E in Hx.
      * apply (IH i c E1 ltac:(lia) Hc false false); [auto|auto| |].
        -- intros e e' He He'. apply Hap; by eapply enc_full.
        -- apply ref_dec; [auto|auto| |done]. intros e e' He He'. apply Hap; by eapply enc_full.
Qed.

(** ** Proofs *)

Section Proofs.
Context (db : bytes → option node).

(** The nodes on the way to a key. *)
Inductive on_path : node → bytes → node → Prop :=
  | path_here n k : solid n → k ≠ [] → on_path n k n
  | path_short K V fl r x : on_path V r x → on_path (shortNode K V fl) (K ++ r) x
  | path_full cs fl b c r x : child cs b = Some c → on_path c r x → on_path (fullNode cs fl) (b :: r) x
  | path_hash h n k x : db h = Some n → on_path n k x → on_path (hashNode h) k x.

(** What [get] finds at the end of a proof node. *)
Definition found (m : node) (k : bytes) (kr : bytes) (cld : node) : Prop :=
  match cld with
  | nil_ => ∀ v, ¬ holds db m k v
  | valueNode v => holds db m k v
  | hashNode d => ∃ c, fit db false c ∧ big c ∧ d = digest c ∧ hexkey kr ∧ (∀ v, holds db m k v ↔ holds db c kr v) ∧
      (∀ e, encodes db c e → encodes db m e) ∧ (∀ x, on_path c kr x → on_path m k x) ∧ (length kr < length k)%nat
  | _ => False
  end.

(** [sub] is where [m] leads along [k], with [kr] left. *)
Record leads (m : node) (k : bytes) (c : node) (kr : bytes) : Prop := {
  ld_holds : ∀ v, holds db m k v ↔ holds db c kr v;
  ld_encodes : c ≠ nil_ → ∀ e, encodes db c e → encodes db m e;
  ld_path : ∀ x, on_path c kr x → on_path m k x;
  ld_less : (length kr < length k)%nat;
}.

Lemma found_leads m k c kr kr' cld : c ≠ nil_ → leads m k c kr → found c kr kr' cld → found m k kr' cld.
Proof.
  intros Hc [L1 L2 L3 L4] F. destruct cld; try done; cbn in *.
  - intros v. rewrite L1. apply F.
  - by apply L1.
  - destruct F as (c' & F1 & Fb & F2 & F3 & F4 & F5 & F6 & F7). exists c'. split_and!; [done|done|done|done|intros w; by rewrite L1|auto|auto|lia].
Qed.

(** The child of a decoded node, big or embedded. *)
Lemma get_ref m k c kr fuel :
  wf db c → good keccak db false c → bounded db c → hexkey kr → leads m k c kr → (depth (dec_ref keccak c (dec keccak None c)) <= fuel)%nat →
  (solid c → (depth (dec keccak None c) <= fuel)%nat → ∃ kr' cld, get fuel (dec keccak None c) kr = Ret (kr', cld) ∧ found c kr kr' cld) →
  ∃ kr' cld, get fuel (dec_ref keccak c (dec keccak None c)) kr = Ret (kr', cld) ∧ found m k kr' cld.
Proof.
  intros Hw Hg Hb Hk Hl Hf IH. assert (Hc : c ≠ nil_) by (by apply wf_not_nil in Hw).
  assert (Hh : ∀ d x, solid x → big x → wf db x → good keccak db false x → bounded db x → d = digest x → leads m k x kr →
    ∃ kr' cld, get fuel (hashNode d) kr = Ret (kr', cld) ∧ found m k kr' cld).
  { intros d x Hs Hbig Hwx Hgx Hbx -> [L1 L2 L3 L4]. destruct fuel as [|fuel].
    - exfalso. clear -Hf. destruct (dec_ref keccak c (dec keccak None c)); cbn in Hf; lia.
    - eexists _, _. split; [done|]. exists x. split_and!; try done. apply L2. by apply wf_not_nil in Hwx. }
  destruct (decide (solid c)) as [Hs|Hs].
  - unfold dec_ref in *. destruct (decide (solid c ∧ big c)) as [[_ Hbig]|Hn].
    + by apply (Hh _ c).
    + destruct (IH Hs Hf) as (kr' & cld & E & F). exists kr', cld. split; [done|by eapply found_leads].
  - unfold dec_ref. rewrite decide_False by tauto. inversion Hw as [| | |h n Eh Hsn Hwn]; subst; try done. cbn [dec].
    inversion Hg as [| |top h' n0 En _ Hd Hbig Hn0| |]; subst. assert (n0 = n) as -> by congruence.
    apply (Hh _ n); [done|by apply Hbig|done|done|by eapply bounded_hash|done|]. destruct Hl as [L1 L2 L3 L4]. split; [| | |done].
    + intros v. rewrite L1. by apply holds_hash_inv.
    + intros _ e He. apply L2; [done|]. by econstructor.
    + intros x Hx. apply L3. by econstructor.
Qed.

Lemma leads_short K V fl r : K ≠ [] → leads (shortNode K V fl) (K ++ r) V r.
Proof.
  intros HK. split.
  - intros v. rewrite holds_short_inv. split; [by intros (r' & ->%app_inv_head & Hh)|eauto].
  - intros Hn e He. by apply enc_short.
  - intros x Hx. by constructor.
  - rewrite length_app. destruct K; [done|cbn; lia].
Qed.

Lemma leads_full cs fl b c r : child cs b = Some c → leads (fullNode cs fl) (b :: r) c r.
Proof.
  intros Hc. split.
  - intros v. rewrite holds_full_inv. split; [intros (b' & c' & r' & [= <- <-] & Hc' & Hh); congruence|eauto 10].
  - intros Hn e He. by eapply enc_full.
  - intros x Hx. by econstructor.
  - cbn. lia.
Qed.

(** Whether a key starts with the key of a short node. *)
Lemma short_match (K key : bytes) :
  (length key <? length K)%nat || negb (bool_decide (K = take (length K) key)) = false → key = K ++ drop (length K) key.
Proof.
  intros [_ E]%orb_false_elim. apply negb_false_iff, bool_decide_eq_true in E. rewrite E at 1. by rewrite take_drop.
Qed.

Lemma short_mismatch (K key : bytes) :
  (length key <? length K)%nat || negb (bool_decide (K = take (length K) key)) = true → ∀ r, key ≠ K ++ r.
Proof.
  intros E r ->. rewrite take_app_length, bool_decide_true, orb_false_r in E by done. apply Nat.ltb_lt in E. rewrite length_app in E. lia.
Qed.

Lemma depth_child cs fl b c fuel : child cs b = Some c → (depth (fullNode cs fl) <= S fuel)%nat → (depth c <= fuel)%nat.
Proof.
  cbn [depth]. intros Hc Hf. apply le_S_n in Hf. etrans; [|exact Hf]. clear -Hc. unfold child in Hc. revert Hc. generalize (Z.to_nat (b2z b)). intros i Hi.
  revert i Hi. induction cs as [|x cs IH]; intros [|i] Hi; try done; cbn in *; [injection Hi as ->; lia|]. specialize (IH i Hi). lia.
Qed.

Lemma child_dec cs b c : child cs b = Some c → child (map (λ c, dec_ref keccak c (dec keccak None c)) cs) b = Some (dec_ref keccak c (dec keccak None c)).
Proof. unfold child. intros Hc. change (map ?f ?l) with (f <$> l). by rewrite list_lookup_fmap, Hc. Qed.

Lemma get_ok m : wf db m → ∀ top h k fuel, fit db top m → hexkey k → (depth (dec keccak h m) <= fuel)%nat →
  ∃ kr cld, get fuel (dec keccak h m) k = Ret (kr, cld) ∧ found m k kr cld.
Proof.
  induction 1 as [K v fl HK Hv|K c fl HK Hn Hb Hc IH|cs fl Hl H1 IH H2 H3|h0 n E Hs Hn IH]; intros top h k fuel F Hk Hf; [| | |by destruct F].
  - cbn [dec] in *. rewrite dec_ref_value in *. destruct fuel as [|fuel]; [cbn in Hf; lia|]. cbn [get]. destruct (_ || _) eqn:Em.
    + eexists _, _. split; [done|]. intros w (r & Ek & _)%holds_short_inv. by eapply short_mismatch.
    + apply short_match in Em. destruct fuel as [|fuel]; [cbn in Hf; lia|]. eexists _, _. split; [done|]. cbn.
      rewrite Em in Hk |- *. rewrite (hexkey_prefix_free K _ _ HK Hk eq_refl). repeat constructor.
  - destruct F as (_ & _ & Hg & Hbd). inversion Hg as [| | |t K1 V1 f1 HV _|]; subst. cbn [dec] in *. destruct fuel as [|fuel]; [cbn in Hf; lia|].
    cbn [get depth] in *. destruct (_ || _) eqn:Em.
    + eexists _, _. split; [done|]. intros w (r & Ek & _)%holds_short_inv. by eapply short_mismatch.
    + apply short_match in Em. set (r := drop (length K) k) in *. clearbody r. subst k. pose proof (hexkey_drop _ _ Hn Hk) as Hr.
      apply bounded_short in Hbd. apply get_ref; [done|done|done|done|by apply leads_short|lia|].
      intros Hs Hd. apply (IH false); [by split_and!|done|done].
  - assert (Hwf : wf db (fullNode cs fl)) by (by constructor). destruct k as [|b kr]; [by inversion Hk|].
    destruct (wf_child db cs fl b kr Hwf Hk) as (c & Hc & Hok). cbn [dec] in *. destruct fuel as [|fuel]; [cbn in Hf; lia|]. cbn [get].
    rewrite (child_dec cs b c Hc). pose proof (depth_child _ _ _ _ _ (child_dec cs b c Hc) Hf) as Hd.
    pose proof (leads_full cs fl b c kr Hc) as Hl'. destruct (decide (c = nil_)) as [->|Hnc].
    { cbn [dec] in *. rewrite dec_ref_nil in *. destruct fuel as [|fuel]; [cbn in Hd; lia|]. eexists _, _. split; [done|]. intros v Hh%(ld_holds _ _ _ _ Hl'). by apply holds_nil in Hh. }
    destruct F as (_ & _ & Hg & Hbd). inversion Hg as [| | | |t c1 f1 HF _]; subst. pose proof (Forall_child _ _ _ _ HF Hc) as Hgc.
    pose proof (bounded_child _ _ _ _ _ Hwf Hbd Hc) as Hbc. destruct kr as [|b' kr'].
    + destruct Hok as [?|(v & Hv & ->)]; [done|]. rewrite dec_ref_value in *. destruct fuel as [|fuel]; [cbn in Hd; lia|].
      eexists _, _. split; [done|]. cbn. apply (ld_holds _ _ _ _ Hl'). constructor.
    + destruct Hok as [Hkr [?|Hwc]]; [done|]. apply get_ref; [done|done|done|done|done|done|].
      intros Hs Hdc. assert (Hi : (Z.to_nat (b2z b) < 16)%nat).
      { inversion Hk as [|? ? Hnb _]; subst. unfold nibble in Hnb. pose proof (b2z_range b). lia. }
      apply (IH _ c Hc Hi Hnc false); [by split_and!|done|done].
Qed.

(** *** Soundness and completeness of verification *)

Lemma verify_sound proofDb : (∀ h b, proofDb h = Some b → keccak b = h) → ∀ fuel top m k i r j,
  fit db top m → hexkey k → (∀ e h b, encodes db m e → proofDb h = Some b → keccak e = keccak b → e = b) →
  verify_from fuel proofDb (digest m) k i = Ret (r, j) → ∀ v, r = Some v ↔ holds db m k v.
Proof.
  intros Hca fuel. induction fuel as [|fuel IH]; intros top m k i r j F Hk Hnc E; [done|]. cbn [verify_from] in E.
  destruct (proofDb (digest m)) as [buf|] eqn:Ep; [|done]. pose proof F as (Hs & Hw & Hg & Hb).
  assert (Eb : enc (item m) = buf). { eapply Hnc; [by apply enc_self|exact Ep|]. by rewrite (Hca _ _ Ep). } subst buf.
  rewrite (decodeNode_ok keccak keccak_32 db m top) in E by done.
  destruct (get_ok m Hw top (Some (digest m)) k (depth (dec keccak (Some (digest m)) m)) F Hk) as (kr & cld & Eg & Hfound); [lia|].
  rewrite Eg in E. cbn [mbind outcome_bind] in E. destruct cld as [|w|d| |]; try done; cbn in Hfound.
  - injection E as <- <-. intros v. split; [done|by intros ?%Hfound].
  - injection E as <- <-. intros v. split; [by intros [= <-]|]. intros Hh. f_equal. by eapply holds_fun.
  - destruct Hfound as (c & Fc & Hbc & -> & Hkr & Hh & He & _ & _). intros v. rewrite Hh. eapply IH; [exact Fc|done| |exact E].
    intros e h b Hec. by apply Hnc, He.
Qed.

Lemma verify_complete proofDb : ∀ fuel top m k i,
  fit db top m → hexkey k → (∀ x, on_path m k x → x = m ∨ big x → proofDb (digest x) = Some (enc (item x))) → (length k < fuel)%nat →
  ∃ r j, verify_from fuel proofDb (digest m) k i = Ret (r, j).
Proof.
  intros fuel. induction fuel as [|fuel IH]; intros top m k i F Hk Hp Hf; [lia|]. cbn [verify_from]. pose proof F as (Hs & Hw & Hg & Hb).
  rewrite (Hp m); [|constructor; [done|by apply hexkey_nonempty]|by left]. rewrite (decodeNode_ok keccak keccak_32 db m top) by done.
  destruct (get_ok m Hw top (Some (digest m)) k (depth (dec keccak (Some (digest m)) m)) F Hk) as (kr & cld & Eg & Hfound); [lia|].
  rewrite Eg. cbn [mbind outcome_bind]. destruct cld as [|w|d| |]; try done; cbn in Hfound; [by eexists _, _|by eexists _, _|].
  destruct Hfound as (c & Fc & Hbc & -> & Hkr & Hh & He & Hpath & Hlt). eapply IH; [exact Fc|done| |lia].
  intros x Hx [->|Hbx]; apply Hp; auto.
Qed.

(** *** Proofs are complete *)

Lemma prove_path_ok fuel : ∀ n k top, ok db k n → good keccak db top n → bounded db n → (need n k <= fuel)%nat →
  ∃ ns, prove_path db fuel n k = Ret ns ∧ (∀ x, on_path n k x → x ∈ ns) ∧ Forall (λ x, fit db true x ∧ encodes db n (enc (item x))) ns ∧
    (solid n → k ≠ [] → ∃ tl, ns = n :: tl).
Proof.
  induction fuel as [|fuel IH]; intros n k top Hok Hg Hb Hf; [unfold need in Hf; destruct n; lia|]. destruct k as [|b k].
  { exists []. split_and!; [done| |constructor|done]. intros x Hx. exfalso. inversion Hx as [n0 k0 Hs Hk|K V fl r x' Hx'| |h n0 k0 x' E Hx']; subst; [done| |].
    - by destruct Hok as [?|(? & _ & ?)].
    - by destruct Hok as [?|(? & _ & ?)]. }
  destruct Hok as [Hk [->|Hw]]; [exists []; split_and!; [done| |constructor|done]; intros x Hx; by inversion Hx; subst|].
  destruct n as [|v|h|K V fl|cs fl]; cbn [prove_path]; [by apply wf_not_nil in Hw|by inversion Hw| | |].
  - inversion Hw as [| | |h' n Eh Hs Hn]; subst. inversion Hg as [| |top' h' n0 En _ Hd Hbig Hn0| |]; subst. assert (n0 = n) as -> by congruence.
    unfold resolveHash. rewrite Eh. cbn [mbind outcome_bind]. pose proof (need_hash (digest n) n (b :: k) Hs).
    destruct (IH n (b :: k) top) as (ns & E & H1 & H2 & _); [split; [done|by right]|done|by eapply bounded_hash|lia|]. exists ns. split_and!; [done| | |done].
    + intros x Hx. apply H1. inversion Hx as [| | |h0 n0 k0 x0 E0 Hx0]; subst; [done|]. congruence.
    + eapply Forall_impl; [exact H2|]. intros x [F1 F2]. split; [done|by econstructor].
  - inversion Hg as [| | |t K1 V1 f1 HV _|]; subst. assert (Hfit : fit db true (shortNode K V fl) ∧ encodes db (shortNode K V fl) (enc (item (shortNode K V fl)))).
    { split; [|by apply enc_self]. split_and!; [done|done|destruct top; [done|by apply good_weak]|done]. }
    destruct (_ || _) eqn:Em.
    + assert (Enil : prove_path db fuel nil_ (b :: k) = Ret []) by (destruct fuel; [unfold need in Hf; cbn in Hf; lia|done]). rewrite Enil.
      eexists. split; [done|]. split_and!; [|by constructor|by eexists]. intros x Hx.
      inversion Hx as [|K' V' f' r x' Hx' EK| |]; subst; [constructor|]. by destruct (short_mismatch _ _ Em r).
    + apply short_match in Em. set (r := drop (length K) (b :: k)) in *. clearbody r. rewrite Em in Hf.
      destruct (ok_short db K V fl (b :: k) r) as (HK & Hokr & Hnv & _); [split; [done|by right]|done|].
      pose proof (need_sub (shortNode K V fl) V K r HK). destruct (IH V r false) as (ns & E & H1 & H2 & _); [done|done|by eapply bounded_short|lia|].
      rewrite E. eexists. split; [done|]. split_and!; [|constructor; [done|]|by eexists].
      * intros x Hx. inversion Hx as [|K' V' f' r' x' Hx' EK| |]; subst; [constructor|]. right. apply H1.
        lazymatch goal with EQ : _ ++ _ = b :: k |- _ => rewrite Em in EQ; by apply app_inv_head in EQ as -> end.
      * eapply Forall_impl; [exact H2|]. intros x [F1 F2]. split; [done|by apply enc_short].
  - inversion Hg as [| | | |t c1 f1 HF _]; subst. assert (Hfit : fit db true (fullNode cs fl) ∧ encodes db (fullNode cs fl) (enc (item (fullNode cs fl)))).
    { split; [|by apply enc_self]. split_and!; [done|done|destruct top; [done|by apply good_weak]|done]. }
    destruct (wf_child db cs fl b k Hw Hk) as (c & Hc & Hokc). rewrite Hc. cbn [index mbind outcome_bind].
    pose proof (need_sub (fullNode cs fl) c [b] k ltac:(done)). cbn [app] in *.
    destruct (IH c k false) as (ns & E & H1 & H2 & _); [done|by eapply Forall_child|by eapply bounded_child|lia|].
    rewrite E. eexists. split; [done|]. split_and!; [|constructor; [done|]|by eexists].
    + intros x Hx. inversion Hx as [| |cs' f' b' c' r' x' Hc' Hx'|]; subst; [constructor|]. right. apply H1. congruence.
    + destruct (decide (c = nil_)) as [->|Hnc]; [|eapply Forall_impl; [exact H2|]; intros x [F1 F2]; split; [done|by eapply enc_full]].
      assert (Ens : ns = []) by (destruct fuel; [done|]; destruct k; cbn in E; by injection E as <-). by rewrite Ens.
Qed.

(** What is put into the proof for a node. *)
Definition element (x : node) : bytes * bytes := (digest x, enc (item x)).

Lemma proofHash_ok x : fit db true x → ∃ c hn, proofHash keccak x = Ret (c, hn) ∧ raw_item c = item x ∧ hashed_as keccak false x hn.
Proof.
  intros (Hs & Hw & Hg & Hb). pose proof (item_len keccak keccak_32 db x true Hs Hw Hg Hb) as Hlen.
  assert (HC : ∃ c y, collapse keccak x = Ret (c, y) ∧ solid c ∧ raw_item c = item x).
  { assert (Hkids : kids_hash keccak db x).
    { destruct x as [| | |K V fl|cs fl]; try done; cbn [kids_hash].
      - inversion Hw as [K' v f' _ _|K' c f' _ _ _ Hc| |]; subst; [|by apply hash_ok].
        intros force _ _. exists (valueNode v), (valueNode v). split_and!; [done|done|done|constructor].
      - intros i c Hi Hlt Hn. apply hash_ok; [done|]. inversion Hw as [| |c2 f2 _ H1 _ _|]; subst. by apply (H1 i). }
    destruct x as [| | |K V fl|cs fl]; try done;
      [destruct (collapse_short keccak db K V fl true Hw Hg Hb Hkids) as (c & y & E & H1 & H2 & _)
      |destruct (collapse_full keccak db cs fl true Hw Hg Hb Hkids) as (c & y & E & H1 & H2 & _)]; eauto. }
  destruct HC as (c & y & E & Hsc & Ei). destruct (to_hash keccak c x false Ei Hsc Hlen) as (hn & Eh & Hh). exists c, hn.
  split; [|done]. destruct x as [| | |K V fl|cs fl]; try done; cbn [proofHash collapse] in *; rewrite E; cbn [mbind outcome_bind] in *;
    unfold shortnodeToHash, fullnodeToHash; cbn [mbind outcome_bind]; by rewrite Eh.
Qed.

Lemma prove_elements_ok ns : ∀ i, 0 <= i → Forall (fit db true) ns →
  ∃ l, prove_elements keccak ns i 0 = Ret l ∧ Forall (λ p, ∃ x, x ∈ ns ∧ p = element x) l ∧
    (∀ j x, ns !! j = Some x → big x ∨ (i = 0 ∧ j = 0%nat) → element x ∈ l).
Proof.
  induction ns as [|n ns IH]; intros i Hi HF; [by exists []|]. inversion HF as [|? ? Fn HF']; subst.
  destruct (IH (i + 1) ltac:(lia) HF') as (l & E & H1 & H2). destruct (proofHash_ok n Fn) as (c & hn & Eh & Ei & Hh).
  pose proof Fn as (Hs & Hw & Hg & Hb). pose proof (item_len keccak keccak_32 db n true Hs Hw Hg Hb) as Hlen.
  cbn [prove_elements]. change (0 <? 0) with false. cbv iota. rewrite Eh. cbn [mbind outcome_bind]. rewrite (encode_ok _ _ Ei Hlen), E. cbn [mbind outcome_bind].
  assert (Hl : Forall (λ p, ∃ x, x ∈ n :: ns ∧ p = element x) l).
  { eapply Forall_impl; [exact H1|]. intros p (x & Hx & ->). exists x. split; [by right|done]. }
  assert (Hput : ∀ puts, puts = [element n] ∨ (puts = [] ∧ ¬ big n ∧ i ≠ 0) →
    Forall (λ p, ∃ x, x ∈ n :: ns ∧ p = element x) (puts ++ l) ∧
    ∀ j x, (n :: ns) !! j = Some x → big x ∨ (i = 0 ∧ j = 0%nat) → element x ∈ puts ++ l).
  { intros puts Hp. split.
    - apply Forall_app. split; [|done]. destruct Hp as [->|[-> _]]; [|constructor]. repeat constructor. exists n. split; [by left|done].
    - intros j x Hj Hx. apply elem_of_app. destruct j as [|j]; [|right; apply (H2 j x Hj); left; destruct Hx as [?|[_ ?]]; done].
      injection Hj as ->. destruct Hp as [->|(_ & Hnb & Hni)]; [left; by left|]. exfalso. tauto. }
  destruct Hh as [[[?|Hbig] ->]|(_ & Hnb & Hsd & _)]; [done| |].
  - eexists. split; [done|]. apply (Hput [element n]). by left.
  - destruct (Z.eqb_spec i 0) as [->|Hni].
    + exists ([element n] ++ l). split; [by destruct hn|]. apply Hput. by left.
    + exists ([] ++ l). split; [by destruct hn|]. apply (Hput []). by right.
Qed.

End Proofs.
End Merkle.
End MerkleProofs.
