(* ===== verification/MerkleClaims.v ===== *)
(** * MerkleClaims: root hashes and Merkle proofs

    Cached hashes stay right under every operation, the root hash of a trie
    stands for its content and nothing else, and a Merkle proof is accepted
    for what the trie holds and for nothing else. *)

From stdpp Require Import base gmap list.
From Stdlib Require Import ZArith Lia.
From S2P Require Import Prelude Sha256 Rlp RlpProofs Trie TrieProofs TrieClaims TrieHash TrieHashProofs MerkleProofs.

Local Open Scope Z_scope.

(** ** MerkleSafety: no proof makes the verifier panic

    Whatever bytes a proof consists of, parsing them into nodes and following
    a key through these nodes stays within all bounds. *)

Module MerkleSafety.
Import Rlp RlpProofs Trie TrieProofs TrieHash TrieHashProofs.

Definition calm {E A} (m : outcome E A) : Prop := m ≠ Panic.

Lemma calm_then {E A B} (m : outcome E A) (k : A → outcome E B) : calm m → (∀ a, m = Ret a → calm (k a)) → calm (m ≫= k).
Proof. destruct m; [intros _ H; by apply H|done|done]. Qed.

Lemma calm_value {E A} (a : A) : calm (@Ret E A a).
Proof. done. Qed.

Lemma calm_err {E A} (e : E) : calm (@Err E A e).
Proof. done. Qed.

Lemma readSize_calm b slen : 0 < slen → calm (readSize b slen).
Proof.
  intros Hs. unfold readSize. destruct (Z.ltb_spec (zlen b) slen); [done|]. destruct b; [cbn in *; lia|]. by destruct (_ || _).
Qed.

Lemma readKind_calm buf : calm (readKind buf).
Proof.
  destruct buf as [|b0 tl]; [done|]. unfold readKind. apply calm_then.
  - destruct (Z.ltb_spec (b2z b0) 0x80); [done|]. destruct (Z.ltb_spec (b2z b0) 0xB8); [by destruct tl; [|destruct (_ && _)]|].
    destruct (Z.ltb_spec (b2z b0) 0xC0); [apply calm_then; [apply readSize_calm; lia|done]|].
    destruct (Z.ltb_spec (b2z b0) 0xF8); [done|]. apply calm_then; [apply readSize_calm; lia|done].
  - intros [[k t] n] _. by destruct (_ <? _).
Qed.

Lemma Split_calm b : calm (Split b).
Proof. apply calm_then; [apply readKind_calm|]. by intros [[k t] n] _. Qed.

Lemma SplitString_calm b : calm (SplitString b).
Proof. apply calm_then; [apply Split_calm|]. by intros [[[] c] r] _. Qed.

Lemma SplitList_calm b : calm (SplitList b).
Proof. apply calm_then; [apply Split_calm|]. by intros [[[] c] r] _. Qed.

Lemma from_rlp_calm {A} cause (m : outcome Rlp.error A) : calm m → calm (from_rlp cause m).
Proof. by destruct m. Qed.

Lemma wrap_calm {A} (m : DR A) ctx : calm m → calm (wrap m ctx).
Proof. by destruct m. Qed.

Lemma wrap_ret {A} (m : DR A) ctx a : wrap m ctx = Ret a → m = Ret a.
Proof. by destruct m. Qed.

(** ** Decoded nodes *)

Lemma nib_nibbles s : Forall nibble (nib s).
Proof.
  induction s as [|b s IH]; [constructor|]. rewrite nib_cons. pose proof (b2z_range b).
  repeat constructor; [apply b2z_nibble|apply b2z_nibble|done].
  - split; [apply Z.div_pos; lia|apply Z.div_lt_upper_bound; lia].
  - apply Z.mod_pos_bound. lia.
Qed.

Lemma compactToHex_plain c : plain_key (compactToHex c) (hasTerm (compactToHex c)).
Proof.
  destruct c as [|b s]; [by exists []|]. rewrite compactToHex_nib. cbv zeta. set (d := Z.to_nat _).
  assert (Hd : (d <= length (nib (b :: s)))%nat).
  { unfold d. rewrite nib_cons. cbn [length]. assert (0 <= Z.land (b2z b / 16) 1); [|lia]. apply Z.land_nonneg. right. lia. }
  pose proof (Forall_drop nibble d _ (nib_nibbles (b :: s))) as Hn. destruct (_ <? 2).
  - rewrite (nibbles_hasTerm _ Hn). by apply nibbles_plain.
  - rewrite drop_app_le by done. assert (HP : plain_key (drop d (nib (b :: s)) ++ [terminator]) true) by (by eexists).
    by rewrite (plain_hasTerm _ true HP).
Qed.

(** What [decodeNode] and [decodeRef] can return. *)
Inductive decoded : node → Prop :=
  | dc_nil : decoded nil_
  | dc_hash h : decoded (hashNode h)
  | dc_leaf K v fl : plain_key K true → decoded (shortNode K (valueNode v) fl)
  | dc_ext K c fl : plain_key K false → decoded c → decoded (shortNode K c fl)
  | dc_full cs c fl : length cs = 16%nat → Forall decoded cs → c = nil_ ∨ (∃ v, c = valueNode v) → decoded (fullNode (cs ++ [c]) fl).

Definition decoder_ok (D : option bytes → bytes → DR node) : Prop := ∀ h buf, calm (D h buf) ∧ ∀ n, D h buf = Ret n → decoded n.

Lemma decodeRef_calm D buf : decoder_ok D → calm (decodeRef D buf) ∧ ∀ n rest, decodeRef D buf = Ret (n, rest) → decoded n.
Proof.
  intros HD. unfold decodeRef. pose proof (Split_calm buf) as Hs. destruct (Split buf) as [[[k v] rest]|e|]; [|done|done]. cbn [from_rlp mbind outcome_bind].
  destruct k; [done| |].
  - destruct (_ =? 0)%nat; [split; [done|]; intros n r [= <- _]; constructor|]. destruct (_ =? 32)%nat; [|done]. split; [done|]. intros n r [= <- _]. constructor.
  - cbv zeta. destruct (_ <? _); [done|]. destruct (HD None buf) as [H1 H2]. destruct (D None buf) as [n|e|]; [|done|done]. split; [done|].
    intros n' r [= <- _]. by apply H2.
Qed.

Lemma decodeShort_calm D h elems : decoder_ok D → calm (decodeShort D h elems) ∧ ∀ n, decodeShort D h elems = Ret n → decoded n.
Proof.
  intros HD. unfold decodeShort. pose proof (SplitString_calm elems) as Hs. destruct (SplitString elems) as [[kb rest]|e|]; [|done|done].
  cbn [from_rlp mbind outcome_bind]. pose proof (compactToHex_plain kb) as HK. destruct (hasTerm _).
  - pose proof (SplitString_calm rest) as Hr. destruct (SplitString rest) as [[v r]|e|]; [|done|done]. split; [done|]. intros n [= <-]. by constructor.
  - destruct (decodeRef_calm D rest HD) as [H1 H2]. destruct (decodeRef D rest) as [[n r]|e|]; [|done|done]. split; [done|]. intros n' [= <-].
    constructor; [done|by eapply H2].
Qed.

Lemma decode_children_calm D k : decoder_ok D → ∀ i elems,
  calm (decode_children D k i elems) ∧ ∀ cs r, decode_children D k i elems = Ret (cs, r) → length cs = k ∧ Forall decoded cs.
Proof.
  intros HD. induction k as [|k IH]; intros i elems; cbn [decode_children]; [split; [done|]; intros cs r [= <- _]; by split|].
  destruct (decodeRef_calm D elems HD) as [H1 H2]. destruct (decodeRef D elems) as [[n rest]|e|]; [|done|done]. cbn [wrap mbind outcome_bind].
  destruct (IH (i + 1) rest) as [H3 H4]. destruct (decode_children D k (i + 1) rest) as [[cs r]|e|]; [|done|done]. cbn [mbind outcome_bind].
  split; [done|]. intros cs' r' [= <- _]. destruct (H4 cs r eq_refl) as [H5 H6]. split; [cbn; lia|]. constructor; [by eapply H2|done].
Qed.

Lemma decodeFull_calm D h elems : decoder_ok D → calm (decodeFull D h elems) ∧ ∀ n, decodeFull D h elems = Ret n → decoded n.
Proof.
  intros HD. unfold decodeFull. destruct (decode_children_calm D 16 HD 0 elems) as [H1 H2].
  destruct (decode_children D 16 0 elems) as [[cs r]|e|]; [|done|done]. cbn [mbind outcome_bind]. destruct (H2 cs r eq_refl) as [H3 H4].
  pose proof (SplitString_calm r) as Hr. destruct (SplitString r) as [[v r']|e|]; [|done|done]. cbn [from_rlp mbind outcome_bind]. split; [done|]. intros n [= <-].
  constructor; [done|done|]. destruct (_ <? _)%nat; [right; by eexists|by left].
Qed.

Lemma decode_node_calm fuel : decoder_ok (decode_node fuel).
Proof.
  induction fuel as [|fuel IH]; intros h buf; [done|]. cbn [decode_node]. destruct (_ =? 0)%nat; [done|].
  pose proof (SplitList_calm buf) as Hs. destruct (SplitList buf) as [[elems r]|e|]; [|done|done]. cbn [from_rlp mbind outcome_bind]. cbv zeta.
  destruct (_ =? 2).
  - destruct (decodeShort_calm _ h elems IH) as [H1 H2]. split; [by apply wrap_calm|]. intros n E%wrap_ret. by apply H2.
  - destruct (_ =? 17); [|done]. destruct (decodeFull_calm _ h elems IH) as [H1 H2]. split; [by apply wrap_calm|]. intros n E%wrap_ret. by apply H2.
Qed.

(** ** Following a key *)

Lemma plain_match K k : plain_key K false → hexkey k → ∀ r, k = K ++ r → hexkey r.
Proof. intros (ns & Hn & ->) Hk r ->. rewrite app_nil_r in Hk. by eapply hexkey_drop. Qed.

Lemma get_calm fuel : ∀ n k, decoded n → hexkey k →
  calm (get fuel n k) ∧ ∀ kr h, get fuel n k = Ret (kr, hashNode h) → hexkey kr.
Proof.
  induction fuel as [|fuel IH]; intros n k Hn Hk; [done|]. destruct Hn as [|h|K v fl HK|K c fl HK Hc|cs c fl Hl HF Hc]; cbn [get].
  - split; [done|]. by intros kr h [= ].
  - split; [done|]. by intros kr h' [= <- _].
  - destruct (_ || _); [split; [done|]; by intros kr h [= ]|]. destruct fuel; [done|]. split; [done|]. by intros kr h [= ].
  - destruct (_ || _) eqn:Em; [split; [done|]; by intros kr h [= ]|]. apply IH; [done|]. apply orb_false_elim in Em as [_ Em].
    apply negb_false_iff, bool_decide_eq_true in Em. eapply plain_match; [exact HK|exact Hk|]. rewrite Em at 1. by rewrite take_drop.
  - destruct k as [|b k]; [by inversion Hk|]. pose proof (hexkey_index b k Hk) as Hi. unfold child.
    apply hexkey_head in Hk as [[-> ->]|[Hb Hk]].
    + change (Z.to_nat (b2z terminator)) with 16%nat. rewrite lookup_app_r, Hl by lia. cbn [lookup list_lookup Nat.sub].
      destruct fuel; [by destruct Hc as [->|[v ->]]|]. destruct Hc as [->|[v ->]]; (split; [done|]); by intros kr h [= ].
    + assert (Hi' : (Z.to_nat (b2z b) < 16)%nat) by (unfold nibble in Hb; pose proof (b2z_range b); lia).
      rewrite lookup_app_l by lia. destruct (lookup_lt_is_Some_2 cs (Z.to_nat (b2z b))) as [x Hx]; [lia|]. rewrite Hx.
      apply IH; [by eapply Forall_lookup_1|done].
Qed.

Lemma verify_calm fuel proofDb : ∀ want k i, hexkey k → calm (verify_from fuel proofDb want k i).
Proof.
  induction fuel as [|fuel IH]; intros want k i Hk; [done|]. cbn [verify_from]. destruct (proofDb want) as [buf|]; [|done].
  destruct (decode_node_calm (S (length buf)) (Some want) buf) as [H1 H2]. unfold decodeNode. destruct (decode_node _ _ buf) as [n|e|]; [|done|done].
  destruct (get_calm (depth n) n k (H2 n eq_refl) Hk) as [H3 H4]. destruct (get (depth n) n k) as [[kr cld]|e|]; [|done|done]. cbn [mbind outcome_bind].
  destruct cld; try done; apply IH; [by eapply H4|done|done].
Qed.

End MerkleSafety.

Module MerkleClaims.
Import Rlp RlpProofs Trie TrieProofs TrieClaims TrieHash TrieHashProofs TrieCodec MerkleProofs MerkleSafety.

Section Claims.
Context (keccak : bytes → bytes) (keccak_32 : ∀ b, length (keccak b) = 32%nat).

(** A trie that represents [m], with right cached hashes and links. *)
Record sealed (db : bytes → option node) (t : Trie) (m : gmap bytes bytes) : Prop := {
  se_rep : represents db t m;
  se_good : good keccak db true (root t);
}.

(** Keys and values that fit into memory. *)
Definition sized (m : gmap bytes bytes) : Prop := ∀ k v, m !! k = Some v → zlen k < 2 ^ 54 ∧ zlen v < 2 ^ 56.

Lemma hex_len k : zlen (keybytesToHex k) = 2 * zlen k + 1.
Proof.
  unfold keybytesToHex. rewrite length_app. cbn [length]. induction k as [|b k IH]; [done|]. cbn in *. lia.
Qed.

Lemma sized_bounded db t m : represents db t m → sized m → bounded db (root t).
Proof.
  intros [_ R2 R3] Hs k v Hh. destruct (R3 k v Hh) as [key ->]. destruct (Hs key v) as [H1 H2]; [by apply R2|]. rewrite hex_len. split; [lia|done].
Qed.

Definition root_key (n : node) : bytes := match n with nil_ => emptyRoot | n => root_digest keccak n end.

Lemma represents_same db t t' m : represents db t m → alike (root t) (root t') → represents db t' m.
Proof.
  intros [R1 R2 R3] Ha. assert (Hh : ∀ k v, holds db (root t) k v ↔ holds db (root t') k v).
  { intros k v. split; intros Hh; [by eapply strip_holds|eapply strip_holds; [exact Hh|by symmetry]]. }
  split.
  - destruct R1 as [E|Hw]; [left; rewrite E in Ha; destruct (root t'); done|right; by eapply strip_wf].
  - intros key v. rewrite R2. apply Hh.
  - intros k v Hk%Hh. by eapply R3.
Qed.

Lemma Hash_ok db t m : sealed db t m → sized m → ∃ t', Hash keccak t = Ret (root_key (root t), t') ∧ sealed db t' m.
Proof.
  intros [Hr Hg] Hs. pose proof (sized_bounded _ _ _ Hr Hs) as Hb. unfold Hash, hashRoot. destruct (decide (root t = nil_)) as [En|Hn].
  - rewrite En. cbn [mbind outcome_bind]. eexists. split; [done|]. split; [|constructor]. eapply represents_same; [exact Hr|by rewrite En].
  - pose proof (rep_wf _ _ _ Hr) as [?|Hw]; [done|]. destruct (hash_ok keccak keccak_32 db (root t) Hw true Hg Hb) as (hd & n' & E & Hh & Ha & Hg').
    assert (Ek : hd = hashNode (root_key (root t))).
    { case_decide as Hsol; [|subst hd; inversion Hw; subst; try (exfalso; by apply Hsol); by destruct (root t)].
      destruct Hh as [[_ ->]|[? _]]; [|done]. by destruct (root t). }
    assert (E2 : match root t with nil_ => Ret (hashNode emptyRoot, nil_, t) | r => '(hashed, cached) ← hash keccak r true; Ret (hashed, cached, mk_Trie (root t) 0) end
      = Ret (hd, n', mk_Trie (root t) 0)) by (destruct (root t); try done; by rewrite E).
    rewrite E2. cbn [mbind outcome_bind]. rewrite Ek. eexists. split; [done|]. split; [|done]. by eapply represents_same.
Qed.

Lemma TryUpdate_good db t key value t' : good keccak db true (root t) → TryUpdate db t key value = Ret t' → good keccak db true (root t').
Proof.
  intros Hg E. unfold TryUpdate in E. destruct value; apply outcome_bind_Ret in E as ([d n] & E & [= <-]); cbn [root].
  - by eapply delete_good.
  - eapply insert_good; [exact Hg|constructor|exact E].
Qed.

Lemma TryUpdate_sealed db t m key value :
  sealed db t m → ∃ t', TryUpdate db t key value = Ret t' ∧ sealed db t' (if decide (value = []) then delete key m else <[key := value]> m).
Proof.
  intros [Hr Hg]. assert (HU : ∃ t', TryUpdate db t key value = Ret t' ∧ represents db t' (if decide (value = []) then delete key m else <[key := value]> m)).
  { unfold TryUpdate. destruct value as [|b value].
    - destruct (delete_represents db t m key Hr) as (d & n & Ed & Hd). rewrite Ed. by eexists.
    - destruct (insert_represents db t m key (b :: value) Hr) as (d' & n' & E' & Hi); [done|]. rewrite E'. by eexists. }
  destruct HU as (t' & E & Hr'). exists t'. split; [done|]. split; [done|by eapply TryUpdate_good].
Qed.

Lemma sealed_empty db : sealed db (mk_Trie nil_ 0) ∅.
Proof. split; [apply represents_empty|constructor]. Qed.

(** ** Root hashes *)

Lemma represents_nil db t m : represents db t m → root t = nil_ ↔ m = ∅.
Proof.
  intros [R1 R2 R3]. split.
  - intros E. apply map_empty. intros key. destruct (m !! key) as [v|] eqn:Em; [|done]. apply R2 in Em. rewrite E in Em. by apply holds_nil in Em.
  - intros ->. destruct R1 as [?|Hw]; [done|]. destruct (wf_holds _ _ Hw) as (k & v & Hh). destruct (R3 k v Hh) as [key ->]. by apply R2 in Hh.
Qed.

(** The expanded form of a trie that is not empty. *)
Lemma sealed_expand db t m : sealed db t m → sized m → m ≠ ∅ →
  ∃ n, expanded keccak db true (root t) n ∧ fit keccak none true n ∧ root_key (root t) = digest keccak n.
Proof.
  intros [Hr Hg] Hs Hm. assert (Hn : root t ≠ nil_) by (by rewrite (represents_nil db t m Hr)). pose proof (rep_wf _ _ _ Hr) as [?|Hw]; [done|].
  destruct (expand keccak db (root t) Hw true Hg) as [n Hx]. exists n. split; [done|]. pose proof (sized_bounded _ _ _ Hr Hs) as Hb.
  destruct Hx as [X1 X2 X3 [X4 _] X5 _ _]. split.
  - split_and!; [done|done|done|]. intros k v Hh%X5. by apply Hb.
  - assert (root_digest keccak n = digest keccak n) as <- by (by destruct n). by rewrite <- X4; destruct (root t).
Qed.

(** Tries that hold the same have the same digest. *)
Lemma same_digest db1 db2 t1 t2 m n1 n2 : sealed db1 t1 m → sealed db2 t2 m → expanded keccak db1 true (root t1) n1 → expanded keccak db2 true (root t2) n2 → digest keccak n1 = digest keccak n2.
Proof.
  intros S1 S2 X1 X2. pose proof (ex_holds _ _ _ _ _ X1) as H1. pose proof (ex_holds _ _ _ _ _ X2) as H2. assert (Hsame : same none n1 n2).
  { intros k v. rewrite <- H1, <- H2. split; intros Hh.
    - destruct (rep_keys _ _ _ (se_rep _ _ _ S1) k v Hh) as [key ->]. apply (rep_map _ _ _ (se_rep _ _ _ S2)). by apply (rep_map _ _ _ (se_rep _ _ _ S1)).
    - destruct (rep_keys _ _ _ (se_rep _ _ _ S2) k v Hh) as [key ->]. apply (rep_map _ _ _ (se_rep _ _ _ S1)). by apply (rep_map _ _ _ (se_rep _ _ _ S2)). }
  destruct X1 as [S1' W1 G1 _ _ _ _], X2 as [S2' W2 G2 _ _ _ _].
  destruct (sim_known keccak n1 n2 (canonical none n1 W1 n2 W2 Hsame) true G1 G2) as [E _]. by destruct n1, n2.
Qed.

Lemma same_root db1 db2 t1 t2 m : sealed db1 t1 m → sealed db2 t2 m → sized m → root_key (root t1) = root_key (root t2).
Proof.
  intros S1 S2 Hs. destruct (decide (m = ∅)) as [Hm|Hm].
  - by rewrite (proj2 (represents_nil _ _ _ (se_rep _ _ _ S1)) Hm), (proj2 (represents_nil _ _ _ (se_rep _ _ _ S2)) Hm).
  - destruct (sealed_expand _ _ _ S1 Hs Hm) as (n1 & X1 & _ & ->), (sealed_expand _ _ _ S2 Hs Hm) as (n2 & X2 & _ & ->). by apply (same_digest db1 db2 t1 t2 m).
Qed.

(** The trie in memory, without hash nodes, that a trie stands for. *)
Lemma sealed_memory db t m : sealed db t m → sized m → m ≠ ∅ → ∃ n, solid n ∧ represents none (mk_Trie n 0) m ∧ root_key (root t) = keccak (enc (item keccak n)).
Proof.
  intros S Hs Hm. destruct (sealed_expand _ _ _ S Hs Hm) as (n & X & _ & E). exists n. split; [apply X|]. split; [|exact E]. pose proof (ex_holds _ _ _ _ _ X) as HX. destruct (se_rep _ _ _ S) as [_ R2 R3]. split; cbn [root].
  - right. apply X.
  - intros key v. rewrite R2. apply HX.
  - intros k v Hk%HX. by eapply R3.
Qed.

(** C12: every operation keeps the cached hashes right. After looking up,
    updating, deleting or hashing, each node that carries a hash carries the
    hash of its own encoding, each hash node leads to a node of that hash, and
    the trie represents the map it should; the empty trie starts so. [Hash]
    returns the hash that the map alone determines: the constant for the empty
    map, otherwise the hash of the encoding of the trie in memory that holds
    the map, whatever is cached and loaded; every trie of that map returns the
    same. *)
Theorem cached_hashes_stay_right db t m key value :
  sealed db t m →
  (∃ t', TryGet db t key = Ret (m !! key, t') ∧ sealed db t' m) ∧
  (∃ t', TryUpdate db t key value = Ret t' ∧ sealed db t' (if decide (value = []) then delete key m else <[key := value]> m)) ∧
  (∃ t', TryDelete db t key = Ret t' ∧ sealed db t' (delete key m)) ∧
  (sized m → ∃ h t', Hash keccak t = Ret (h, t') ∧ sealed db t' m ∧ (m = ∅ → h = emptyRoot) ∧
     (m ≠ ∅ → ∃ n, solid n ∧ represents none (mk_Trie n 0) m ∧ h = keccak (enc (item keccak n))) ∧
     ∀ db2 t2, sealed db2 t2 m → ∃ t2', Hash keccak t2 = Ret (h, t2')) ∧
  sealed db (mk_Trie nil_ 0) ∅.
Proof.
  intros [Hr Hg]. destruct (delete_represents db t m key Hr) as (d & n & Ed & Hd). split_and!.
  - destruct (TryGet_represents db t m key Hr) as (t' & E & Hr'). exists t'. split; [done|]. split; [done|].
    unfold TryGet in E. apply outcome_bind_Ret in E as ([[v nn] dd] & E & [= _ <-]). destruct dd; [|done].
    by destruct (tryGet_good keccak db _ _ _ _ _ _ _ true Hg E).
  - apply TryUpdate_sealed. by split.
  - unfold TryDelete. rewrite Ed. eexists. split; [done|]. split; [done|]. by eapply delete_good.
  - intros Hs. pose proof (Build_sealed _ _ _ Hr Hg) as HS. destruct (Hash_ok db t m HS Hs) as (t' & E & H). exists (root_key (root t)), t'. split_and!; [done|done| | |].
    + intros Hm. by rewrite (proj2 (represents_nil _ _ _ Hr) Hm).
    + by apply (sealed_memory db t m).
    + intros db2 t2 S2. destruct (Hash_ok db2 t2 m S2 Hs) as (t2' & E2 & _). exists t2'. by rewrite (same_root db db2 t t2 m HS S2 Hs).
  - apply sealed_empty.
Qed.

Lemma list_not_empty_string n : solid n → enc (item keccak n) ≠ [z2b 0x80].
Proof.
  assert (Hl : ∀ l, enc (Lst l) ≠ [z2b 0x80]); [|by destruct n; try done; intros _; apply Hl].
  intros l E. pose proof (length_payload l) as Hlen. rewrite E in Hlen. cbn [enc] in E. unfold head in *. fold (payload l) in *.
  destruct (Z.ltb_spec (zlen (payload l)) 56) as [H|H].
  - cbn [length] in Hlen. destruct (payload l); [done|cbn in Hlen; lia].
  - cbn [length] in Hlen. lia.
Qed.

(** C13: the root hash stands for the content. Two tries, each with a database of
    its own and whatever history, have the same root hash exactly when they
    hold the same values under the same keys, unless two of the strings
    hashed for them collide. The hash of a lone empty string is the constant
    [emptyRoot]. *)
Theorem root_hash_identifies_content db1 db2 t1 t2 m1 m2 :
  keccak [z2b 0x80] = emptyRoot → sealed db1 t1 m1 → sealed db2 t2 m2 → sized m1 → sized m2 →
  apart keccak db1 db2 (root t1) (root t2) →
  ∃ h1 t1' h2 t2', Hash keccak t1 = Ret (h1, t1') ∧ Hash keccak t2 = Ret (h2, t2') ∧ (h1 = h2 ↔ m1 = m2).
Proof.
  intros Hempty S1 S2 Z1 Z2 Hap. destruct (Hash_ok _ _ _ S1 Z1) as (t1' & E1 & _), (Hash_ok _ _ _ S2 Z2) as (t2' & E2 & _).
  exists (root_key (root t1)), t1', (root_key (root t2)), t2'. split_and!; [done|done|].
  pose proof (represents_nil _ _ _ (se_rep _ _ _ S1)) as N1. pose proof (represents_nil _ _ _ (se_rep _ _ _ S2)) as N2.
  destruct (decide (m1 = ∅)) as [M1|M1], (decide (m2 = ∅)) as [M2|M2].
  - rewrite (proj2 N1 M1), (proj2 N2 M2). by split; [subst|].
  - destruct (sealed_expand _ _ _ S2 Z2 M2) as (n & X & (F & _) & ->). rewrite (proj2 N1 M1) in *. split; [|by intros ->].
    cbn [root_key]. rewrite <- Hempty. intros E. exfalso. apply (list_not_empty_string n F). symmetry. apply Hap; [constructor| |done].
    apply (ex_encodes _ _ _ _ _ X). by constructor.
  - destruct (sealed_expand _ _ _ S1 Z1 M1) as (n & X & (F & _) & ->). rewrite (proj2 N2 M2) in *. split; [|by intros ->].
    cbn [root_key]. rewrite <- Hempty. intros E. exfalso. apply (list_not_empty_string n F). apply Hap; [|constructor|done].
    apply (ex_encodes _ _ _ _ _ X). by constructor.
  - destruct (sealed_expand _ _ _ S1 Z1 M1) as (n1 & X1 & F1 & ->), (sealed_expand _ _ _ S2 Z2 M2) as (n2 & X2 & F2 & ->).
    pose proof (ex_holds _ _ _ _ _ X1) as H1. pose proof (ex_holds _ _ _ _ _ X2) as H2. split.
    + intros E. assert (Hal : alike n1 n2).
      { apply (dec_inj keccak keccak_32 n1 (proj1 (proj2 F1)) true true); [done|done| |].
        - intros e e' He He'. apply Hap; [by apply (ex_encodes _ _ _ _ _ X1)|by apply (ex_encodes _ _ _ _ _ X2)].
        - eapply enc_dec; [done|exact F1|exact F2|]. apply Hap; [|..|exact E].
          + apply (ex_encodes _ _ _ _ _ X1). constructor. apply F1.
          + apply (ex_encodes _ _ _ _ _ X2). constructor. apply F2. }
      apply map_eq. intros key. apply option_eq. intros v.
      rewrite (rep_map _ _ _ (se_rep _ _ _ S1) key v), (rep_map _ _ _ (se_rep _ _ _ S2) key v), H1, H2.
      split; intros Hh; eapply strip_holds; [exact Hh|done|exact Hh|by symmetry].
    + intros <-. by apply (same_digest db1 db2 t1 t2 m1).
Qed.

(** ** Proofs *)

(** The node a root hash stands for. *)
Lemma sealed_root db t m : sealed db t m → sized m → m ≠ ∅ →
  ∃ n, fit keccak db true n ∧ root_key (root t) = digest keccak n ∧ same db (root t) n ∧
    (∀ e, encodes keccak db n e → encodes keccak db (root t) e) ∧ (∀ k x, on_path db n k x → on_path db (root t) k x) ∧
    (∀ f k, k ≠ [] → prove_path db (S f) (root t) k = prove_path db (S f) n k ∨ prove_path db (S f) (root t) k = prove_path db f n k).
Proof.
  intros [Hr Hg] Hs Hm. assert (Hn : root t ≠ nil_) by (by rewrite (represents_nil db t m Hr)). pose proof (rep_wf _ _ _ Hr) as [?|Hw]; [done|].
  pose proof (sized_bounded _ _ _ Hr Hs) as Hb. destruct (decide (solid (root t))) as [Hsol|Hsol].
  - exists (root t). split_and!; [by split_and!|by destruct (root t)|by intros|done|done|by left].
  - destruct (root t) as [| |h| |] eqn:Er; try done; [by inversion Hw|]. inversion Hw as [| | |h' n Eh Hsn Hwn]; subst.
    inversion Hg as [| |top h' n0 En _ Hd Hbig Hn0| |]; subst. assert (n0 = n) as -> by congruence. exists n. split_and!.
    + split_and!; [done|done|done|by eapply bounded_hash].
    + done.
    + by apply same_hash.
    + intros e He. by econstructor.
    + intros k x Hx. by econstructor.
    + intros f [|b k] Hk; [done|]. right. cbn [prove_path]. unfold resolveHash. by rewrite Eh.
Qed.

Lemma no_string_proof proofDb fuel k i r j : (∀ h b, proofDb h = Some b → keccak b = h) → keccak [z2b 0x80] = emptyRoot →
  (∀ h b, proofDb h = Some b → keccak [z2b 0x80] = keccak b → [z2b 0x80] = b) → verify_from fuel proofDb emptyRoot k i ≠ Ret (r, j).
Proof.
  intros Hca He Hnc E. destruct fuel as [|fuel]; [done|]. cbn [verify_from] in E. destruct (proofDb emptyRoot) as [b|] eqn:Ep; [|done].
  rewrite <- (Hnc _ _ Ep) in E by (rewrite (Hca _ _ Ep); done). done.
Qed.

(** C14: Merkle proofs are sound. Against the root hash of a trie, [VerifyProof]
    returns a value only if the trie holds it under the key, and reports
    absence only of keys the trie does not hold, whatever the proof contains:
    its entries are stored under their hashes and do not collide with nodes of
    the trie. And no proof at all, of any content, makes it panic. *)
Theorem merkle_proof_sound db t m h t' proofDb :
  keccak [z2b 0x80] = emptyRoot → sealed db t m → sized m → Hash keccak t = Ret (h, t') →
  (∀ k b, proofDb k = Some b → keccak b = k) →
  (∀ e k b, encodes keccak db (root t) e → proofDb k = Some b → keccak e = keccak b → e = b) →
  (∀ fuel key r j, VerifyProof fuel h key proofDb = Ret (r, j) → r = m !! key) ∧
  (∀ fuel root key anyDb, VerifyProof fuel root key anyDb ≠ Panic).
Proof.
  intros Hempty HS HZ EH Hca Hnc. split; [|intros; apply verify_calm, hexkey_keybytes].
  destruct (Hash_ok _ _ _ HS HZ) as (t2 & E2 & _). rewrite E2 in EH. injection EH as <- _. intros fuel key r j E. unfold VerifyProof in E.
  destruct (decide (m = ∅)) as [Hm|Hm].
  - pose proof (proj2 (represents_nil _ _ _ (se_rep _ _ _ HS)) Hm) as En. rewrite En in E. exfalso. eapply no_string_proof; [exact Hca|done| |exact E].
    intros k b Hp. apply (Hnc _ k b); [rewrite En; constructor|done].
  - destruct (sealed_root _ _ _ HS HZ Hm) as (n & F & Ek & Hsame & Henc & _ & _). rewrite Ek in E. apply option_eq. intros v.
    rewrite (rep_map _ _ _ (se_rep _ _ _ HS)), (Hsame (keybytesToHex key) v).
    eapply (verify_sound keccak keccak_32 db proofDb Hca fuel true n); [done|apply hexkey_keybytes| |exact E]. intros e k b He. by apply Hnc, Henc.
Qed.

(** The database the elements of a proof are put into, the last one winning. *)
Definition proof_db (l : list (bytes * bytes)) (h : bytes) : option bytes := (list_to_map (reverse l) : gmap bytes bytes) !! h.

Lemma proof_db_in l h b : proof_db l h = Some b → (h, b) ∈ l.
Proof. unfold proof_db. intros E%elem_of_list_to_map_2. by rewrite elem_of_reverse in E. Qed.

Lemma proof_db_some l h b : (h, b) ∈ l → ∃ b', proof_db l h = Some b'.
Proof.
  intros Hl. unfold proof_db. destruct (list_to_map (reverse l) !! h) as [b'|] eqn:E; [eauto|]. exfalso. apply not_elem_of_list_to_map in E. apply E.
  apply list_elem_of_fmap. exists (h, b). split; [done|]. by apply elem_of_reverse.
Qed.

(** C15: Merkle proofs are complete. For a trie that is not empty, [Prove] builds
    a proof with which [VerifyProof] returns what the trie holds under the
    key, value or absence, unless two of the nodes of the trie collide. The
    loop of [VerifyProof] ends within one round per nibble of the key. *)
Theorem merkle_proof_complete db t m h t' key :
  keccak [z2b 0x80] = emptyRoot → sealed db t m → sized m → m ≠ ∅ → Hash keccak t = Ret (h, t') → apart keccak db db (root t) (root t) →
  ∃ elems j, Prove keccak db t key 0 = Ret elems ∧
    VerifyProof (S (length (keybytesToHex key))) h key (proof_db elems) = Ret (m !! key, j).
Proof.
  intros Hempty HS HZ Hm EH Hap. destruct (Hash_ok _ _ _ HS HZ) as (t2 & E2 & _). rewrite E2 in EH. injection EH as <- _.
  destruct (sealed_root _ _ _ HS HZ Hm) as (n & F & Ek & Hsame & Henc & _ & Hpp). set (k := keybytesToHex key).
  assert (Hk : hexkey k) by apply hexkey_keybytes. pose proof (hexkey_nonempty _ Hk) as Hne.
  assert (HP : ∃ ns, prove_path db (fuel_for k) (root t) k = Ret ns ∧ (∀ x, on_path db n k x → x ∈ ns) ∧
    Forall (λ x, fit keccak db true x ∧ encodes keccak db n (enc (item keccak x))) ns ∧ ∃ tl, ns = n :: tl).
  { pose proof F as (Hsn & Hwn & Hgn & Hbn). assert (Hokn : ok db k n) by (apply ok_wf; [done|by right]).
    assert (Hf : ∀ f, (need n k <= f)%nat → ∃ ns, prove_path db f n k = Ret ns ∧ (∀ x, on_path db n k x → x ∈ ns) ∧
      Forall (λ x, fit keccak db true x ∧ encodes keccak db n (enc (item keccak x))) ns ∧ ∃ tl, ns = n :: tl).
    { intros f Hf. destruct (prove_path_ok keccak db f n k true Hokn Hgn Hbn Hf) as (ns & P1 & P2 & P3 & P4). exists ns. split_and!; auto. }
    assert (En : need n k = (2 * length k + 1)%nat) by (by destruct n). replace (fuel_for k) with (S (2 * length k + 1)) by (unfold fuel_for; lia).
    destruct (Hpp (2 * length k + 1)%nat k Hne) as [->| ->]; apply Hf; lia. }
  destruct HP as (ns & EP & HP1 & HP2 & tl & Ens).
  destruct (prove_elements_ok keccak keccak_32 db ns 0 ltac:(lia)) as (l & El & HL1 & HL2); [by eapply Forall_impl; [exact HP2|]; intros x []|].
  assert (Hin : ∀ hh b, (hh, b) ∈ l → keccak b = hh ∧ encodes keccak db n b).
  { intros hh b Hb. rewrite Forall_forall in HL1. destruct (HL1 _ Hb) as (x & Hx & [= -> ->]). split; [done|]. rewrite Forall_forall in HP2. by apply HP2. }
  assert (Hget : ∀ x, x ∈ ns → x = n ∨ big keccak x → proof_db l (digest keccak x) = Some (enc (item keccak x))).
  { intros x Hx Hc. assert (He : element keccak x ∈ l).
    { apply list_elem_of_lookup in Hx as [j Hj]. destruct (decide (big keccak x)) as [Hb|Hb]; [apply (HL2 j x Hj); by left|].
      destruct Hc as [->|?]; [|done]. apply (HL2 0%nat n); [by rewrite Ens|by right]. }
    destruct (proof_db_some _ _ _ He) as [b Eb]. rewrite Eb. f_equal. destruct (Hin _ _ (proof_db_in _ _ _ Eb)) as [H1 H2].
    apply Hap; [by apply Henc| |done]. rewrite Forall_forall in HP2. by apply Henc, HP2. }
  destruct (verify_complete keccak keccak_32 db (proof_db l) (S (length k)) true n k 0 F Hk) as (r & j & EV); [|lia|].
  { intros x Hx. by apply Hget, HP1. }
  exists l, j. split; [unfold Prove; fold k; rewrite EP; done|]. unfold VerifyProof. fold k. rewrite Ek, EV. do 2 f_equal. apply option_eq. intros v.
  rewrite (rep_map _ _ _ (se_rep _ _ _ HS)), (Hsame (keybytesToHex key) v).
  eapply (verify_sound keccak keccak_32 db (proof_db l)); [|exact F|done| |exact EV].
  - intros hh b Hb%proof_db_in. by apply Hin.
  - intros e hh b He Hb%proof_db_in Ehash. apply Hap; [by apply Henc|apply Henc; by apply (Hin hh)|done].
Qed.

End Claims.

(** ** A concrete trie *)

(** A hash for small inputs: the low 32 bytes. *)
Definition demo_keccak (b : bytes) : bytes := if decide (b = [z2b 0x80]) then emptyRoot else fixed_be 32 (be_decode b).

Lemma demo_keccak_32 b : length (demo_keccak b) = 32%nat.
Proof. unfold demo_keccak. case_decide; [done|apply length_fixed_be]. Qed.

Definition long_value (x : Z) : bytes := repeat (z2b x) 40.

Definition update_all (t : Trie) (ops : list (bytes * bytes)) : TR Trie :=
  foldl (λ r '(k, v), t ← r; TryUpdate none t k v) (Ret t) ops.

Definition demo_ops : list (bytes * bytes) :=
  [([z2b 0x12], long_value 1); ([z2b 0x13], long_value 2); ([z2b 0x50], [z2b 7])].

Definition demo_map : gmap bytes bytes := list_to_map demo_ops.

Definition trie_of (r : TR Trie) : Trie := match r with Ret t => t | _ => mk_Trie nil_ 0 end.

(** The same content in another order, with a detour. *)
Definition demo_trie : Trie := trie_of (update_all (mk_Trie nil_ 0) demo_ops).
Definition other_trie : Trie := trie_of (update_all (mk_Trie nil_ 0) ([([z2b 0x77], [z2b 1])] ++ reverse demo_ops ++ [([z2b 0x77], [])])).

Lemma update_all_sealed ops : ∀ t m, sealed demo_keccak none t m →
  sealed demo_keccak none (trie_of (update_all t ops)) (foldl (λ m '(k, v), if decide (v = []) then delete k m else <[k := v]> m) m ops).
Proof.
  induction ops as [|[k v] ops IH]; intros t m HS; [done|]. unfold update_all. cbn [foldl mbind outcome_bind].
  destruct (TryUpdate_sealed demo_keccak none t m k v HS) as (t' & E & HS'). rewrite E. by apply IH.
Qed.

Lemma demo_sealed : sealed demo_keccak none demo_trie demo_map.
Proof. exact (update_all_sealed demo_ops _ _ (sealed_empty _ _)). Qed.

Lemma other_sealed : sealed demo_keccak none other_trie demo_map.
Proof.
  assert (E : demo_map = foldl (λ m '(k, v), if decide (v = []) then delete k m else <[k := v]> m) ∅ ([([z2b 0x77], [z2b 1])] ++ reverse demo_ops ++ [([z2b 0x77], [])]))
    by (apply (bool_decide_unpack _); by vm_compute).
  rewrite E. apply update_all_sealed, sealed_empty.
Qed.

Lemma demo_sized : sized demo_map.
Proof.
  assert (H : map_Forall (λ k v, (length k <= 40)%nat ∧ (length v <= 40)%nat) demo_map) by (apply (bool_decide_unpack _); by vm_compute).
  intros k v [H1 H2]%H. lia.
Qed.

(** The strings hashed for a trie in memory. *)
Fixpoint encodings (n : node) : list bytes :=
  match n with
  | nil_ => [[z2b 0x80]]
  | shortNode _ V _ => enc (item demo_keccak n) :: encodings V
  | fullNode cs _ => enc (item demo_keccak n) :: concat (map encodings cs)
  | _ => []
  end.

Lemma encodes_in n e : encodes demo_keccak none n e → e ∈ encodings n.
Proof.
  induction 1 as [|n Hs|K V fl e HV He IH|cs fl i c e Hi Hc He IH|h n e E He IH]; [by left|destruct n; try done; by left|by right| |done].
  right. apply list_elem_of_In, in_concat. exists (encodings c). split; [|by apply list_elem_of_In]. apply in_map. apply list_elem_of_In. by eapply list_elem_of_lookup_2.
Qed.

Definition apart_check (l l' : list bytes) : bool :=
  let hl' := map (λ e, (demo_keccak e, e)) l' in
  forallb (λ p, forallb (λ p', bool_decide (p.1 ≠ p'.1 ∨ p.2 = p'.2)) hl') (map (λ e, (demo_keccak e, e)) l).

Lemma apart_check_sound l l' e e' : apart_check l l' = true → e ∈ l → e' ∈ l' → demo_keccak e = demo_keccak e' → e = e'.
Proof.
  intros H He%list_elem_of_In He'%list_elem_of_In E. unfold apart_check in H. cbv zeta in H. rewrite forallb_forall in H.
  specialize (H _ (in_map (λ e, (demo_keccak e, e)) _ _ He)). rewrite forallb_forall in H. specialize (H _ (in_map (λ e, (demo_keccak e, e)) _ _ He')).
  apply bool_decide_eq_true in H. by destruct H.
Qed.

Lemma apart_by_check n n' : apart_check (encodings n) (encodings n') = true → apart demo_keccak none none n n'.
Proof. intros H e e' He%encodes_in He'%encodes_in. by apply (apart_check_sound _ _ e e' H). Qed.

Lemma elements_apart n els : apart_check (encodings n) (map snd els) = true →
  ∀ e k b, encodes demo_keccak none n e → proof_db els k = Some b → demo_keccak e = demo_keccak b → e = b.
Proof.
  intros H e k b He%encodes_in Hb%proof_db_in. apply (apart_check_sound _ _ e b H); [done|]. apply (list_elem_of_fmap_2 snd els (k, b)). done.
Qed.

Lemma elements_addressed els : forallb (λ p, bool_decide (demo_keccak p.2 = p.1)) els = true → ∀ k b, proof_db els k = Some b → demo_keccak b = k.
Proof.
  intros H k b Hb%proof_db_in%list_elem_of_In. rewrite forallb_forall in H. specialize (H _ Hb). by apply bool_decide_eq_true in H.
Qed.

Lemma cached_hashes_stay_right_witness :
  (∃ t', TryUpdate none demo_trie [z2b 0x12] [z2b 9] = Ret t' ∧ sealed demo_keccak none t' (<[ [z2b 0x12] := [z2b 9] ]> demo_map)) ∧
  ∃ h t', Hash demo_keccak demo_trie = Ret (h, t') ∧ ∃ t2', Hash demo_keccak other_trie = Ret (h, t2').
Proof.
  destruct (cached_hashes_stay_right demo_keccak demo_keccak_32 none demo_trie demo_map [z2b 0x12] [z2b 9] demo_sealed) as (_ & H1 & _ & H2 & _).
  split; [exact H1|]. destruct (H2 demo_sized) as (h & t' & E & _ & _ & _ & H3). exists h, t'. split; [exact E|]. exact (H3 none other_trie other_sealed).
Defined.

Lemma root_hash_identifies_content_witness :
  ∃ h1 t1' h2 t2', Hash demo_keccak demo_trie = Ret (h1, t1') ∧ Hash demo_keccak other_trie = Ret (h2, t2') ∧ (h1 = h2 ↔ demo_map = demo_map).
Proof.
  apply (root_hash_identifies_content demo_keccak demo_keccak_32 none none demo_trie other_trie demo_map demo_map);
    [by vm_compute|exact demo_sealed|exact other_sealed|exact demo_sized|exact demo_sized|]. apply apart_by_check. by vm_compute.
Defined.

Definition demo_root : bytes := root_key demo_keccak (root demo_trie).

Definition demo_hashed : Trie := match Hash demo_keccak demo_trie with Ret (_, t) => t | _ => demo_trie end.

Lemma demo_hash_run : Hash demo_keccak demo_trie = Ret (demo_root, demo_hashed).
Proof. by vm_compute. Qed.

Definition demo_elements : list (bytes * bytes) := match Prove demo_keccak none demo_trie [z2b 0x13] 0 with Ret l => l | _ => [] end.

(** The proof has the root, the branch below it and the leaf. *)
Example demo_proof_length : length demo_elements = 3%nat.
Proof. by vm_compute. Qed.

Lemma demo_addressed : forallb (λ p, bool_decide (demo_keccak p.2 = p.1)) demo_elements = true.
Proof. by vm_compute. Qed.

Lemma demo_apart : apart_check (encodings (root demo_trie)) (map snd demo_elements) = true.
Proof. by vm_compute. Qed.

Lemma demo_empty_root : demo_keccak [z2b 0x80] = emptyRoot.
Proof. by vm_compute. Qed.

Lemma merkle_proof_sound_witness :
  VerifyProof 10 demo_root [z2b 0x13] (proof_db demo_elements) = Ret (Some (long_value 2), 3) ∧ Some (long_value 2) = demo_map !! [z2b 0x13].
Proof.
  assert (E : VerifyProof 10 demo_root [z2b 0x13] (proof_db demo_elements) = Ret (Some (long_value 2), 3)) by (by vm_compute). split; [exact E|].
  exact (proj1 (merkle_proof_sound demo_keccak demo_keccak_32 none demo_trie demo_map demo_root demo_hashed (proof_db demo_elements)
    demo_empty_root demo_sealed demo_sized demo_hash_run (elements_addressed _ demo_addressed) (elements_apart _ _ demo_apart)) 10%nat [z2b 0x13] _ _ E).
Defined.

Lemma demo_nonempty : demo_map ≠ ∅.
Proof. intros E. apply (f_equal (lookup [z2b 0x50])) in E. by vm_compute in E. Qed.

Lemma demo_self_apart : apart_check (encodings (root demo_trie)) (encodings (root demo_trie)) = true.
Proof. by vm_compute. Qed.

Lemma merkle_proof_complete_witness :
  ∃ elems j, Prove demo_keccak none demo_trie [z2b 0x60] 0 = Ret elems ∧
    VerifyProof (S (length (keybytesToHex [z2b 0x60]))) demo_root [z2b 0x60] (proof_db elems) = Ret (demo_map !! [z2b 0x60], j).
Proof.
  exact (merkle_proof_complete demo_keccak demo_keccak_32 none demo_trie demo_map demo_root demo_hashed [z2b 0x60]
    demo_empty_root demo_sealed demo_sized demo_nonempty demo_hash_run (apart_by_check _ _ demo_self_apart)).
Defined.

End MerkleClaims.
