(* ===== verification/TrieDb.v ===== *)
(** * TrieDb: the node database of the tries (trie/database.go)

    Nodes that tries commit are kept in memory with reference counts until
    they are flushed to the disk, oldest first ([Cap]) or below a root
    ([Commit]), or collected as garbage ([Dereference]).

    - A hash is a string of 32 bytes; a Go pointer to an entry is looked up in
      [dirties] at each use, and a nil pointer is a panic.
    - A disk batch lists its puts in order and is written atomically; a write
      may fail. The memory cache of clean nodes may forget; a Go map is ranged
      over in any order. Both, and the failures, are the class [Environment].
    - [StorageSize] is a float that holds integers only: a [Z]. Locks, timers,
      meters and the statistics for the log are left out. *)

From stdpp Require Import base gmap list.
From Stdlib Require Import ZArith Lia.
From S2P Require Import Prelude Rlp Trie TrieHash.

Local Open Scope Z_scope.

Module TrieDb.
Import Trie TrieHash.

(** ** Raw nodes *)

(** What an entry holds: nothing (the meta root), an encoded blob, or a
    collapsed node without flags. *)
Inductive raw :=
  | raw_nil
  | rawNode (blob : bytes)
  | rawShortNode (Key : bytes) (Val : raw)
  | rawFullNode (Children : list raw)
  | raw_value (v : bytes)
  | raw_hash (h : bytes).

(** The [Hash] of a byte string: its last 32 bytes, padded on the left. *)
Definition BytesToHash (b : bytes) : bytes :=
  replicate (32 - length b) Byte.x00 ++ drop (length b - 32) b.

(** What [rlp.Encode] sees of a raw node. *)
Fixpoint raw_rlp (n : raw) : Rlp.Value :=
  match n with
  | raw_nil => Rlp.VList []
  | rawNode b | raw_value b | raw_hash b => Rlp.VBytes b
  | rawShortNode Key Val => Rlp.VList [Rlp.VBytes Key; raw_rlp Val]
  | rawFullNode Children =>
      Rlp.VList (map (λ c, match c with raw_nil => Rlp.VBytes [] | c => raw_rlp c end) Children)
  end.

(** All of a list, or a panic. *)
Fixpoint traverse {A B} (f : A → option B) (l : list A) : option (list B) :=
  match l with
  | [] => Some []
  | x :: l => y ← f x; ys ← traverse f l; Some (y :: ys)
  end.

Fixpoint simplifyNode (n : node) : option raw :=
  match n with
  | shortNode Key Val _ => rawShortNode Key <$> simplifyNode Val
  | fullNode cs _ => rawFullNode <$> traverse (λ c, if is_nil c then Some raw_nil else simplifyNode c) cs
  | valueNode v => Some (raw_value v)
  | hashNode h => Some (raw_hash h)
  | nil_ => None
  end.

Fixpoint expandNode (hash : option bytes) (n : raw) : option node :=
  match n with
  | rawShortNode Key Val => (λ v, shortNode (compactToHex Key) v (mk_flag hash false)) <$> expandNode None Val
  | rawFullNode cs =>
      (λ cs, fullNode cs (mk_flag hash false)) <$>
        traverse (λ c, match c with raw_nil => Some nil_ | c => expandNode None c end) cs
  | raw_value v => Some (valueNode v)
  | raw_hash h => Some (hashNode h)
  | raw_nil | rawNode _ => None
  end.

(** The hashes the callback of [forGatherChildren] is called with. The last
    child of a full node is skipped. *)
Fixpoint forGatherChildren (n : raw) : list bytes :=
  match n with
  | rawShortNode _ Val => forGatherChildren Val
  | rawFullNode cs => concat (take 16 (map forGatherChildren cs))
  | raw_hash h => [BytesToHash h]
  | raw_value _ | raw_nil | rawNode _ => []
  end.

(** ** Entries and the database *)

Record cachedNode := mk_cached {
  c_node : raw; c_size : Z; parents : Z; children : option (gmap bytes Z);
  flushPrev : bytes; flushNext : bytes }.

Definition set_parents (c : cachedNode) x := mk_cached (c_node c) (c_size c) x (children c) (flushPrev c) (flushNext c).
Definition set_children (c : cachedNode) x := mk_cached (c_node c) (c_size c) (parents c) x (flushPrev c) (flushNext c).
Definition set_prev (c : cachedNode) x := mk_cached (c_node c) (c_size c) (parents c) (children c) x (flushNext c).
Definition set_next (c : cachedNode) x := mk_cached (c_node c) (c_size c) (parents c) (children c) (flushPrev c) x.

Definition HashLength : Z := 32.
Definition cachedNodeSize : Z := 96.
Definition cachedNodeChildrenSize : Z := 48.
Definition IdealBatchSize : Z := 100 * 1024.

Abbreviation batch := (list (bytes * bytes)).

Class Environment := {
  cache : Type;
  cache_new : cache;
  cache_get : cache → bytes → option bytes;
  cache_set : cache → bytes → bytes → cache;
  write_fails : gmap bytes bytes → batch → bool;
  range : ∀ {A}, gmap bytes A → list (bytes * A);
  cache_new_get : ∀ k, cache_get cache_new k = None;
  cache_set_get : ∀ c k v k' v', cache_get (cache_set c k v) k' = Some v' → (k' = k ∧ v' = v) ∨ cache_get c k' = Some v';
  range_perm : ∀ A (m : gmap bytes A), range m ≡ₚ map_to_list m;
}.

Section WithEnvironment.
Context `{ENV : Environment}.

Record Database := mk_db {
  diskdb : gmap bytes bytes; cleans : option cache; dirties : gmap bytes cachedNode;
  oldest : bytes; newest : bytes; preimages : gmap bytes bytes;
  dirtiesSize : Z; childrenSize : Z; preimagesSize : Z }.

Definition set_disk db x := mk_db x (cleans db) (dirties db) (oldest db) (newest db) (preimages db) (dirtiesSize db) (childrenSize db) (preimagesSize db).
Definition set_cleans db x := mk_db (diskdb db) x (dirties db) (oldest db) (newest db) (preimages db) (dirtiesSize db) (childrenSize db) (preimagesSize db).
Definition set_dirties db x := mk_db (diskdb db) (cleans db) x (oldest db) (newest db) (preimages db) (dirtiesSize db) (childrenSize db) (preimagesSize db).
Definition set_oldest db x := mk_db (diskdb db) (cleans db) (dirties db) x (newest db) (preimages db) (dirtiesSize db) (childrenSize db) (preimagesSize db).
Definition set_newest db x := mk_db (diskdb db) (cleans db) (dirties db) (oldest db) x (preimages db) (dirtiesSize db) (childrenSize db) (preimagesSize db).
Definition set_preimages db x y := mk_db (diskdb db) (cleans db) (dirties db) (oldest db) (newest db) x (dirtiesSize db) (childrenSize db) y.
Definition add_sizes db x y := mk_db (diskdb db) (cleans db) (dirties db) (oldest db) (newest db) (preimages db) (dirtiesSize db + x) (childrenSize db + y) (preimagesSize db).

(** ** Operations *)

Inductive db_error := WriteFailed | NotFound.

(** The outcome of an operation: the database is kept on an error too. *)
Inductive res (A : Type) :=
  | Ok (db : Database) (a : A)
  | Fail (db : Database) (e : db_error)
  | Crash
  | Unfinished.
#[global] Arguments Ok {A} db a.
#[global] Arguments Fail {A} db e.
#[global] Arguments Crash {A}.
#[global] Arguments Unfinished {A}.

Definition M (A : Type) : Type := Database → res A.

Definition ret {A} (a : A) : M A := λ db, Ok db a.
Definition bind {A B} (m : M A) (k : A → M B) : M B := λ db,
  match m db with
  | Ok db a => k a db
  | Fail db e => Fail db e
  | Crash => Crash
  | Unfinished => Unfinished
  end.

Local Notation "x <- m ;; k" := (bind m (λ x, k)) (at level 100, m at next level, right associativity).
Local Notation "m ;;; k" := (bind m (λ _, k)) (at level 100, right associativity).

Definition get_db : M Database := λ db, Ok db db.
Definition modify (f : Database → Database) : M unit := λ db, Ok (f db) tt.
Definition throw {A} (e : db_error) : M A := λ db, Fail db e.
Definition some {A} (x : option A) : M A := λ db, match x with Some a => Ok db a | None => Crash end.

(** [db.dirties[h].f = x] *)
Definition update_entry (h : bytes) (f : cachedNode → cachedNode) : M unit := λ db,
  match dirties db !! h with
  | Some c => Ok (set_dirties db (<[h := f c]> (dirties db))) tt
  | None => Crash
  end.

Fixpoint each {A} (f : A → M unit) (l : list A) : M unit :=
  match l with
  | [] => ret tt
  | x :: l => f x;;; each f l
  end.

Definition NewDatabaseWithCache (disk : gmap bytes bytes) (size : Z) : Database :=
  mk_db disk (if 0 <? size then Some cache_new else None)
    {[ zeroHash := mk_cached raw_nil 0 0 (Some ∅) zeroHash zeroHash ]} zeroHash zeroHash ∅ 0 0 0.

Definition NewDatabase (disk : gmap bytes bytes) : Database := NewDatabaseWithCache disk 0.

(** *** Entries *)

(** The blob of an entry; a failing encoder is a panic. *)
Definition rlp (c : cachedNode) : option bytes :=
  match c_node c with
  | rawNode b => Some b
  | n => match Rlp.EncodeToBytes (raw_rlp n) with Ret b => Some b | _ => None end
  end.

Definition obj (c : cachedNode) (hash : bytes) : option node :=
  match c_node c with
  | rawNode b => match mustDecodeNode (Some hash) b with Ret n => Some n | _ => None end
  | n => expandNode (Some hash) n
  end.

Definition forChilds (c : cachedNode) : list bytes :=
  (match children c with Some m => (range m).*1 | None => [] end) ++ forGatherChildren (c_node c).

(** *** Insertion *)

(** A node, or a blob as it is. *)
Definition simplify (n : node + bytes) : option raw :=
  match n with
  | inl n => simplifyNode n
  | inr blob => Some (rawNode blob)
  end.

(** The size added to [dirtiesSize] is a [uint16] sum. *)
Definition insert (hash : bytes) (size : Z) (n : node + bytes) : M unit :=
  db <- get_db;;
  if decide (is_Some (dirties db !! hash)) then ret tt
  else
    r <- some (simplify n);;
    let entry := mk_cached r (size mod 2 ^ 16) 0 None (newest db) zeroHash in
    let ds := foldl (λ ds c, alter (λ c, set_parents c ((parents c + 1) mod 2 ^ 32)) c ds) (dirties db) (forChilds entry) in
    modify (λ db, set_dirties db (<[hash := entry]> ds));;;
    (if decide (oldest db = zeroHash) then modify (λ db, set_newest (set_oldest db hash) hash)
     else update_entry (newest db) (λ c, set_next c hash);;; modify (λ db, set_newest db hash));;;
    modify (λ db, add_sizes db ((HashLength + c_size entry) mod 2 ^ 16) 0).

Definition InsertBlob (hash blob : bytes) : M unit := insert hash (Z.of_nat (length blob)) (inr blob).

Definition insertPreimage (hash preimage : bytes) : M unit := modify (λ db,
  match preimages db !! hash with
  | Some _ => db
  | None => set_preimages db (<[hash := preimage]> (preimages db)) (preimagesSize db + HashLength + Z.of_nat (length preimage))
  end).

(** *** Lookup *)

(** A clean blob: from the cache, when there is one. *)
Definition clean_get (db : Database) (hash : bytes) : option bytes :=
  match cleans db with Some c => cache_get c hash | None => None end.

Definition clean_set (hash enc : bytes) : M unit := modify (λ db,
  match cleans db with Some c => set_cleans db (Some (cache_set c hash enc)) | None => db end).

Definition node_ (hash : bytes) : M (option node) :=
  db <- get_db;;
  match clean_get db hash with
  | Some enc => n <- some (match mustDecodeNode (Some hash) enc with Ret n => Some n | _ => None end);; ret (Some n)
  | None =>
      match dirties db !! hash with
      | Some dirty => n <- some (obj dirty hash);; ret (Some n)
      | None =>
          match diskdb db !! hash with
          | None => ret None
          | Some enc =>
              clean_set hash enc;;;
              n <- some (match mustDecodeNode (Some hash) enc with Ret n => Some n | _ => None end);; ret (Some n)
          end
      end
  end.

Definition Node (hash : bytes) : M bytes :=
  if decide (hash = zeroHash) then throw NotFound
  else
    db <- get_db;;
    match clean_get db hash with
    | Some enc => ret enc
    | None =>
        match dirties db !! hash with
        | Some dirty => some (rlp dirty)
        | None =>
            match diskdb db !! hash with
            | None => throw NotFound
            | Some enc => clean_set hash enc;;; ret enc
            end
        end
    end.

Definition secureKeyPrefix : bytes := map z2b [0x73; 0x65; 0x63; 0x75; 0x72; 0x65; 0x2d; 0x6b; 0x65; 0x79; 0x2d].

Definition secureKey (key : bytes) : bytes := secureKeyPrefix ++ key.

Definition preimage (db : Database) (hash : bytes) : option bytes :=
  match preimages db !! hash with
  | Some p => Some p
  | None => diskdb db !! secureKey hash
  end.

Definition Nodes (db : Database) : list bytes :=
  filter (λ h, h ≠ zeroHash) ((range (dirties db)).*1).

(** *** References *)

(** The count of an external child; one that is not there counts zero. *)
Definition ext (c : cachedNode) (h : bytes) : Z :=
  match children c with Some m => default 0 (m !! h) | None => 0 end.

Definition set_ext (c : cachedNode) (h : bytes) (x : Z) : cachedNode :=
  set_children c (Some (<[h := x]> (default ∅ (children c)))).

(** One more reference from [parent] to [child]. *)
Definition add_reference (child parent : bytes) : M unit :=
  update_entry child (λ c, set_parents c ((parents c + 1) mod 2 ^ 32));;;
  update_entry parent (λ p, set_ext p child ((ext p child + 1) mod 2 ^ 16));;;
  db <- get_db;;
  p <- some (dirties db !! parent);;
  if decide (ext p child = 1) then modify (λ db, add_sizes db 0 (HashLength + 2)) else ret tt.

Definition reference (child parent : bytes) : M unit :=
  db <- get_db;;
  match dirties db !! child with
  | None => ret tt
  | Some _ =>
      p <- some (dirties db !! parent);;
      match children p with
      | None =>
          update_entry parent (λ p, set_children p (Some ∅));;;
          modify (λ db, add_sizes db 0 cachedNodeChildrenSize);;;
          add_reference child parent
      | Some m => if decide (is_Some (m !! child) ∧ parent ≠ zeroHash) then ret tt else add_reference child parent
      end
  end.

Definition Reference : bytes → bytes → M unit := reference.

(** Take a node out of the flush-list. *)
Definition unlink (h : bytes) (n : cachedNode) : M unit :=
  db <- get_db;;
  if decide (h = oldest db) then
    modify (λ db, set_oldest db (flushNext n));;; update_entry (flushNext n) (λ c, set_prev c zeroHash)
  else if decide (h = newest db) then
    modify (λ db, set_newest db (flushPrev n));;; update_entry (flushPrev n) (λ c, set_next c zeroHash)
  else
    update_entry (flushPrev n) (λ c, set_next c (flushNext n));;;
    update_entry (flushNext n) (λ c, set_prev c (flushPrev n)).

(** Take one reference of [parent] to [child] away. *)
Definition drop_ext (child parent : bytes) : M unit :=
  db <- get_db;;
  p <- some (dirties db !! parent);;
  if 0 <? ext p child then
    if ext p child =? 1 then
      update_entry parent (λ p, set_children p (delete child <$> children p));;; modify (λ db, add_sizes db 0 (- (HashLength + 2)))
    else update_entry parent (λ p, set_ext p child (ext p child - 1))
  else ret tt.

(** A reference to [child] is gone: it is collected with the last one. *)
Definition release (dereference : bytes → bytes → M unit) (child : bytes) : M unit :=
  db <- get_db;;
  match dirties db !! child with
  | None => ret tt
  | Some _ =>
      update_entry child (λ c, if 0 <? parents c then set_parents c (parents c - 1) else c);;;
      db <- get_db;;
      node <- some (dirties db !! child);;
      if parents node =? 0 then
        unlink child node;;;
        each (λ h, dereference h child) (forChilds node);;;
        db <- get_db;;
        node <- some (dirties db !! child);;
        modify (λ db, set_dirties db (delete child (dirties db)));;;
        modify (λ db, add_sizes db (- (HashLength + c_size node)) (match children node with Some _ => - cachedNodeChildrenSize | None => 0 end))
      else ret tt
  end.

(** Every nested call is for another entry, so their number is fuel enough. *)
Fixpoint dereference (fuel : nat) (child parent : bytes) : M unit :=
  match fuel with
  | O => λ _, Unfinished
  | S fuel => drop_ext child parent;;; release (dereference fuel) child
  end.

Definition Dereference (root : bytes) : M unit :=
  if decide (root = zeroHash) then ret tt
  else db <- get_db;; dereference (S (size (dirties db))) root zeroHash.

(** *** Writing to the disk *)

Definition ValueSize (b : batch) : Z := foldr (λ p s, Z.of_nat (length p.2) + s) 0 b.

(** Puts in order: a later one wins. *)
Definition write_all (disk : gmap bytes bytes) (b : batch) : gmap bytes bytes :=
  foldl (λ d '(k, v), <[k := v]> d) disk b.

Definition Write (b : batch) : M unit := λ db,
  if write_fails (diskdb db) b then Fail db WriteFailed else Ok (set_disk db (write_all (diskdb db) b)) tt.

(** The preimages put into a batch, which is written whenever it is full. *)
Fixpoint put_preimages (l : list (bytes * bytes)) (b : batch) : M batch :=
  match l with
  | [] => ret b
  | (hash, preimage) :: l =>
      let b := b ++ [(secureKey hash, preimage)] in
      if IdealBatchSize <? ValueSize b then Write b;;; put_preimages l []
      else put_preimages l b
  end.

(** What an entry adds to the memory in use. *)
Definition entry_size (n : cachedNode) : Z :=
  HashLength + c_size n + cachedNodeSize +
    match children n with Some m => cachedNodeChildrenSize + Z.of_nat (size m) * (HashLength + 2) | None => 0 end.

(** The flush loop of [Cap]: the first node left over and the last batch. One
    round per entry is fuel enough. *)
Fixpoint cap_flush (fuel : nat) (size limit : Z) (old : bytes) (b : batch) : M (bytes * batch) :=
  if (limit <? size) && negb (bool_decide (old = zeroHash)) then
    match fuel with
    | O => λ _, Unfinished
    | S fuel =>
        db <- get_db;;
        node <- some (dirties db !! old);;
        blob <- some (rlp node);;
        let b := b ++ [(old, blob)] in
        b <- (if IdealBatchSize <=? ValueSize b then Write b;;; ret [] else ret b);;
        cap_flush fuel (size - entry_size node) limit (flushNext node) b
    end
  else ret (old, b).

(** The second loop: entries up to [old] leave the memory. *)
Fixpoint cap_clear (fuel : nat) (old : bytes) : M unit :=
  db <- get_db;;
  if decide (oldest db = old) then ret tt
  else
    match fuel with
    | O => λ _, Unfinished
    | S fuel =>
        node <- some (dirties db !! oldest db);;
        modify (λ db, set_oldest (set_dirties db (delete (oldest db) (dirties db))) (flushNext node));;;
        modify (λ db, add_sizes db (- (HashLength + c_size node))
          (match children node with Some m => - (cachedNodeChildrenSize + Z.of_nat (size m) * (HashLength + 2)) | None => 0 end));;;
        cap_clear fuel old
    end.

(** The memory in use and, apart, that of the preimages. *)
Definition Size (db : Database) : option (Z * Z) :=
  meta ← dirties db !! zeroHash;
  let metadataSize := (Z.of_nat (size (dirties db)) - 1) * cachedNodeSize in
  let metarootRefs := match children meta with Some m => Z.of_nat (size m) | None => 0 end * (HashLength + 2) in
  Some (dirtiesSize db + childrenSize db + metadataSize - metarootRefs, preimagesSize db).

Definition Cap (limit : Z) : M unit :=
  db <- get_db;;
  sz <- some (fst <$> Size db);;
  let flushPreimages := 4 * 1024 * 1024 <? preimagesSize db in
  b <- (if flushPreimages then put_preimages (range (preimages db)) [] else ret []);;
  p <- cap_flush (S (size (dirties db))) sz limit (oldest db) b;;
  let '(old, b) := p in
  Write b;;;
  (if flushPreimages then modify (λ db, set_preimages db ∅ 0) else ret tt);;;
  db <- get_db;;
  cap_clear (S (size (dirties db))) old;;;
  db <- get_db;;
  if decide (oldest db = zeroHash) then ret tt else update_entry (oldest db) (λ c, set_prev c zeroHash).

(** [cleaner.Put]; the sizes of the external children are taken off
    [dirtiesSize]. *)
Definition cleaner_Put (key enc : bytes) : M unit :=
  let hash := BytesToHash key in
  db <- get_db;;
  match dirties db !! hash with
  | None => ret tt
  | Some node =>
      unlink hash node;;;
      modify (λ db, set_dirties db (delete hash (dirties db)));;;
      modify (λ db, add_sizes db (- (HashLength + c_size node)) 0);;;
      modify (λ db, add_sizes db
        (match children node with Some m => - (cachedNodeChildrenSize + Z.of_nat (size m) * (HashLength + 2)) | None => 0 end) 0);;;
      clean_set hash enc
  end.

Definition Replay (b : batch) : M unit := each (λ '(k, v), cleaner_Put k v) b.

(** The callback of [forChilds], in turn. *)
Fixpoint commit_each (commit : bytes → batch → M batch) (l : list bytes) (b : batch) : M batch :=
  match l with
  | [] => ret b
  | c :: l => b <- commit c b;; commit_each commit l b
  end.

(** Children first; the batch is written and replayed whenever it is full. *)
Fixpoint commit (fuel : nat) (hash : bytes) (b : batch) : M batch :=
  match fuel with
  | O => λ _, Unfinished
  | S fuel =>
      db <- get_db;;
      match dirties db !! hash with
      | None => ret b
      | Some node =>
          b <- commit_each (commit fuel) (forChilds node) b;;
          blob <- some (rlp node);;
          let b := b ++ [(hash, blob)] in
          if IdealBatchSize <=? ValueSize b then Write b;;; Replay b;;; ret [] else ret b
      end
  end.

Definition Commit (root : bytes) : M unit :=
  db <- get_db;;
  b <- put_preimages (range (preimages db)) [];;
  Write b;;;
  db <- get_db;;
  b <- commit (S (size (dirties db))) root [];;
  Write b;;;
  Replay b;;;
  modify (λ db, set_preimages db ∅ 0).

End WithEnvironment.
End TrieDb.
