(* ===== verification/TrieDbGc.v ===== *)
(** * TrieDbGc: the invariant of the node database, and garbage collection

    [content] and [links] say what is stored under a hash and which hashes
    that refers to; [rank] says that references do not run in circles. *)

From stdpp Require Import base gmap list.
From Stdlib Require Import ZArith Lia.
From S2P Require Import Prelude Rlp Trie TrieHash TrieDb.

Local Open Scope Z_scope.

(** ** TrieDbProofs: the flush-list and the reference counts

    The state of the node database between two operations and in the middle of
    a collection: the entries form a doubly linked list in the order in which
    they came, every entry that is not yet on the disk counts the references
    to it, and what an entry refers to is on the disk or earlier in the list. *)

Module TrieDbProofs.
Import Trie TrieHash TrieDb.

Abbreviation entries := (gmap bytes cachedNode).

Section Proofs.
Context `{ENV : Environment}.

(** ** Segments of the flush-list *)

(** The nodes of [l] are linked in order; [prev] is the node before, where that
    matters, and [nxt] the node after. *)
Fixpoint seg (ds : entries) (prev : option bytes) (l : list bytes) (nxt : bytes) : Prop :=
  match l with
  | [] => True
  | a :: l => ∃ e, ds !! a = Some e ∧ (∀ p, prev = Some p → flushPrev e = p) ∧ flushNext e = hd nxt l ∧ seg ds (Some a) l nxt
  end.

Definition last_or (prev : option bytes) (l : list bytes) : option bytes :=
  match last l with Some x => Some x | None => prev end.

Lemma last_or_cons prev a l : last_or prev (a :: l) = last_or (Some a) l.
Proof. unfold last_or. rewrite last_cons. by destruct (last l). Qed.

Lemma last_or_snoc prev l a : last_or prev (l ++ [a]) = Some a.
Proof. unfold last_or. by rewrite last_snoc. Qed.

Lemma hd_app (l1 l2 : list bytes) d : hd d (l1 ++ l2) = hd (hd d l2) l1.
Proof. by destruct l1. Qed.

Lemma seg_app ds l1 l2 nxt : ∀ prev, seg ds prev (l1 ++ l2) nxt ↔ seg ds prev l1 (hd nxt l2) ∧ seg ds (last_or prev l1) l2 nxt.
Proof.
  induction l1 as [|a l1 IH]; intros prev; [cbn; naive_solver|]. rewrite last_or_cons. cbn [app seg]. rewrite hd_app. split.
  - intros (e & E1 & E2 & E3 & [? ?]%IH). eauto 10.
  - intros [(e & E1 & E2 & E3 & H1) H2]. exists e. split_and!; auto. by apply IH.
Qed.

(** Two entries at the same place of the list. *)
Definition same_place (c c' : option cachedNode) : Prop :=
  ∀ e, c = Some e → ∃ e', c' = Some e' ∧ flushPrev e' = flushPrev e ∧ flushNext e' = flushNext e.

Lemma seg_frame ds ds' l nxt : ∀ prev, (∀ h, h ∈ l → same_place (ds !! h) (ds' !! h)) → seg ds prev l nxt → seg ds' prev l nxt.
Proof.
  induction l as [|a l IH]; intros prev Hf; [done|]. cbn. intros (e & E1 & E2 & E3 & Hs).
  destruct (Hf a) with (e := e) as (e' & E1' & P & N); [left|done|]. exists e'. rewrite P, N. split_and!; auto. apply IH; [|done]. intros h Hh. apply Hf. by right.
Qed.

Lemma seg_lookup ds prev l nxt h : seg ds prev l nxt → h ∈ l → is_Some (ds !! h).
Proof.
  revert prev. induction l as [|a l IH]; intros prev Hs Hh; [by apply not_elem_of_nil in Hh|]. destruct Hs as (e & E & _ & _ & Hs).
  apply elem_of_cons in Hh as [->|Hh]; [by exists e|by eapply IH].
Qed.

Lemma same_place_insert (ds : entries) a e h : h ≠ a → same_place (ds !! h) (<[a := e]> ds !! h).
Proof. intros Hn e' E. exists e'. by rewrite lookup_insert_ne. Qed.

Lemma seg_insert ds prev l nxt a e : a ∉ l → seg ds prev l nxt → seg (<[a := e]> ds) prev l nxt.
Proof. intros Ha. apply seg_frame. intros h Hh. apply same_place_insert. by intros ->. Qed.

Lemma seg_set_next ds prev l a x y e : a ∉ l → ds !! a = Some e → seg ds prev (l ++ [a]) x → seg (<[a := set_next e y]> ds) prev (l ++ [a]) y.
Proof.
  intros Ha E. rewrite !seg_app. cbn [hd]. intros [H1 (e' & E' & P & N & _)]. split; [by apply seg_insert|]. simplify_eq.
  exists (set_next e y). rewrite lookup_insert_eq. by split_and!.
Qed.

Lemma seg_set_prev ds prev l b nxt y e : b ∉ l → ds !! b = Some e → seg ds prev (b :: l) nxt → seg (<[b := set_prev e y]> ds) (Some y) (b :: l) nxt.
Proof.
  intros Hb E (e' & E' & P & N & Hs). simplify_eq. exists (set_prev e y). rewrite lookup_insert_eq. split_and!; [done|by intros ? [= ->]|done|by apply seg_insert].
Qed.

(** The whole list, between [oldest] and [newest]. *)
Definition linked (l : list bytes) (db : Database) : Prop :=
  seg (dirties db) None l zeroHash ∧ oldest db = hd zeroHash l ∧ (∀ x, last l = Some x → newest db = x).

(** ** Entries *)

(** Entries that differ in their place in the list only. *)
Definition alike (e e' : cachedNode) : Prop :=
  c_node e' = c_node e ∧ c_size e' = c_size e ∧ parents e' = parents e ∧ children e' = children e.

Definition all_alike (ds ds' : entries) : Prop := ∀ h, option_relation alike (λ _, False) (λ _, False) (ds !! h) (ds' !! h).

Lemma all_alike_refl ds : all_alike ds ds.
Proof. intros h. by destruct (ds !! h). Qed.

Lemma all_alike_trans ds1 ds2 ds3 : all_alike ds1 ds2 → all_alike ds2 ds3 → all_alike ds1 ds3.
Proof.
  intros H1 H2 h. specialize (H1 h). specialize (H2 h). destruct (ds1 !! h), (ds2 !! h), (ds3 !! h); try done. unfold alike in *. cbn in *. naive_solver congruence.
Qed.

Lemma all_alike_insert ds h e e' : ds !! h = Some e → alike e e' → all_alike ds (<[h := e']> ds).
Proof. intros E Ha k. destruct (decide (k = h)) as [->|Hn]; [by rewrite lookup_insert_eq, E|rewrite lookup_insert_ne by done]. by destruct (ds !! k). Qed.

Lemma all_alike_Some ds ds' h e : all_alike ds ds' → ds !! h = Some e → ∃ e', ds' !! h = Some e' ∧ alike e e'.
Proof. intros H E. specialize (H h). rewrite E in H. destruct (ds' !! h); [|done]. eauto. Qed.

Lemma all_alike_None ds ds' h : all_alike ds ds' → ds !! h = None ↔ ds' !! h = None.
Proof. intros H. specialize (H h). by destruct (ds !! h), (ds' !! h). Qed.

Lemma update_entry_ok db h f e : dirties db !! h = Some e → update_entry h f db = Ok (set_dirties db (<[h := f e]> (dirties db))) tt.
Proof. unfold update_entry. by intros ->. Qed.

Lemma update_entry_other db db' h f : (dirties db' = dirties db) → ∀ e, dirties db !! h = Some e → update_entry h f db' = Ok (set_dirties db' (<[h := f e]> (dirties db'))) tt.
Proof. intros E e E2. apply update_entry_ok. by rewrite E. Qed.

(** What stays but for the entries and the sizes. *)
Definition quiet (db db' : Database) : Prop :=
  diskdb db' = diskdb db ∧ cleans db' = cleans db ∧ preimages db' = preimages db.

(** Taking a node out of the list. *)
Lemma unlink_ok db l1 c l2 e :
  linked (l1 ++ c :: l2) db → NoDup (zeroHash :: l1 ++ c :: l2) → is_Some (dirties db !! zeroHash) → dirties db !! c = Some e →
  ∃ db', unlink c e db = Ok db' tt ∧ linked (l1 ++ l2) db' ∧ all_alike (dirties db) (dirties db') ∧ quiet db db'.
Proof.
  intros (Hs & Ho & Hn) [Hz HN]%NoDup_cons [z Ez] Ec. apply NoDup_app in HN as (N1 & N12 & [Nc N2]%NoDup_cons).
  apply seg_app in Hs as [S1 (e' & Ee' & P & N & S2)]. simplify_eq. unfold unlink, bind, get_db, modify.
  destruct l1 as [|a l1 _] using rev_ind.
  - cbn [app hd] in *. rewrite decide_True by done. rewrite N. destruct l2 as [|b l2].
    + erewrite update_entry_other by done. eexists. split; [done|]. split_and!; [|by eapply all_alike_insert|done]. split; [done|]. by split.
    + destruct S2 as (eb & Eb & Hb). cbn [hd]. erewrite update_entry_other by done. eexists. split; [done|]. split_and!; [|by eapply all_alike_insert|done].
      split; [|by split]. apply NoDup_cons in N2 as [Nb N2].
      assert (H : seg (<[b := set_prev eb zeroHash]> (dirties db)) (Some zeroHash) (b :: l2) zeroHash) by (eapply seg_set_prev; [done|done|by exists eb]).
      destruct H as (e2 & E2 & _ & E3 & H). exists e2. split_and!; [done|done|done|done].
  - assert (Hco : c ≠ oldest db).
    { intros E. apply (N12 c); [|by left]. rewrite E, Ho. destruct l1; [by left|by left]. }
    rewrite decide_False by done. rewrite last_or_snoc in P. specialize (P a eq_refl). rewrite P.
    pose proof (seg_lookup _ _ _ _ a S1 ltac:(apply elem_of_app; right; by left)) as [ea Ea]. apply NoDup_app in N1 as (N1 & N1a & _).
    assert (Ha : a ∉ l1) by (intros Hin; apply (N1a a Hin); by left). rewrite N. destruct l2 as [|b l2].
    + assert (Hcn : c = newest db) by (symmetry; apply Hn; by rewrite last_snoc). rewrite decide_True by done.
      erewrite update_entry_other by done. eexists. split; [done|]. rewrite app_nil_r. split_and!; [|by eapply all_alike_insert|done].
      split_and!; [by eapply seg_set_next|by destruct l1|]. intros x. rewrite last_snoc. by intros [= ->].
    + assert (Hcn : c ≠ newest db).
      { intros E. rewrite last_app_cons, !last_cons_cons in Hn. destruct (last (b :: l2)) as [x|] eqn:El; [|by apply last_None in El].
        rewrite E, (Hn x eq_refl) in Nc. apply Nc. by apply last_Some_elem_of. }
      rewrite decide_False by done. rewrite (update_entry_ok _ _ _ _ Ea). destruct S2 as (eb & Eb & Pb & Nb & S2). apply NoDup_cons in N2 as [Hb N2].
      assert (Hab : a ≠ b) by (intros ->; apply (N12 b); [apply elem_of_app; right; by left|right; by left]).
      assert (Hal2 : a ∉ l2) by (intros Hin; apply (N12 a); [apply elem_of_app; right; by left|right; by right]).
      assert (Hbl1 : b ∉ l1) by (intros Hin; apply (N12 b); [apply elem_of_app; by left|right; by left]).
      cbn [hd]. rewrite (update_entry_ok _ b _ eb) by (cbn; by rewrite lookup_insert_ne). eexists. split; [done|]. cbn.
      split_and!; [|eapply all_alike_trans; eapply all_alike_insert; [exact Ea|done|by rewrite lookup_insert_ne|done]|done].
      split_and!; cbn; [|by destruct l1|].
      * apply seg_app. split; [|rewrite last_or_snoc].
        -- apply seg_insert; [rewrite elem_of_app, list_elem_of_singleton; naive_solver|]. by eapply seg_set_next.
        -- eapply seg_set_prev; [done|by rewrite lookup_insert_ne|]. apply (seg_insert _ None); [rewrite elem_of_cons; naive_solver|]. exists eb. by split_and!.
      * intros x Hx. apply Hn. rewrite last_app_cons in *. by rewrite last_cons_cons.
Qed.

(** ** References *)

Fixpoint occ (c : bytes) (l : list bytes) : Z :=
  match l with
  | [] => 0
  | x :: l => (if decide (x = c) then 1 else 0) + occ c l
  end.

Lemma occ_nonneg c l : 0 <= occ c l.
Proof. induction l as [|x l IH]; cbn; [done|]. case_decide; lia. Qed.

Lemma occ_app c l l' : occ c (l ++ l') = occ c l + occ c l'.
Proof. induction l as [|x l IH]; cbn; [done|]. lia. Qed.

Lemma occ_pos c l : 0 < occ c l ↔ c ∈ l.
Proof.
  induction l as [|x l IH]; cbn; [split; [lia|by intros ?%not_elem_of_nil]|]. rewrite elem_of_cons, <- IH. pose proof (occ_nonneg c l).
  case_decide; [subst; split; [by left|lia]|]. split; [intros; right; lia|intros [?|?]; [congruence|lia]].
Qed.

Lemma occ_perm c l l' : l ≡ₚ l' → occ c l = occ c l'.
Proof. induction 1; cbn; lia. Qed.

Lemma occ_nodup c l : NoDup l → occ c l = if decide (c ∈ l) then 1 else 0.
Proof.
  induction 1 as [|x l Hx Hl IH]; cbn [occ]; [by case_decide as H; [apply not_elem_of_nil in H|]|]. rewrite IH. repeat case_decide; subst; rewrite elem_of_cons in *; try done; naive_solver.
Qed.

(** How often an entry refers to [c]. *)
Definition mult (e : cachedNode) (c : bytes) : Z := ext e c + occ c (forGatherChildren (c_node e)).

Definition mult_at (ds : entries) (c p : bytes) : Z := match ds !! p with Some e => mult e c | None => 0 end.

Fixpoint refsum (ds : entries) (l : list bytes) (c : bytes) : Z :=
  match l with
  | [] => 0
  | p :: l => mult_at ds c p + refsum ds l c
  end.

Lemma refsum_app ds l l' c : refsum ds (l ++ l') c = refsum ds l c + refsum ds l' c.
Proof. induction l as [|p l IH]; cbn [refsum app]; [done|]. rewrite IH. lia. Qed.

Lemma refsum_ext ds ds' l c : (∀ p, p ∈ l → mult_at ds c p = mult_at ds' c p) → refsum ds l c = refsum ds' l c.
Proof. induction l as [|p l IH]; intros H; cbn [refsum]; [done|]. rewrite (H p) by left. rewrite IH; [done|]. intros q Hq. apply H. by right. Qed.

(** The counts of external children are positive, and one but for roots. *)
Definition ext_ok (h : bytes) (e : cachedNode) : Prop :=
  ∀ m c x, children e = Some m → m !! c = Some x → 0 < x < 2 ^ 16 ∧ (h ≠ zeroHash → x = 1).

Lemma ext_nonneg h e c : ext_ok h e → 0 <= ext e c.
Proof. intros He. unfold ext. destruct (children e) as [m|] eqn:Em; [|done]. destruct (m !! c) as [x|] eqn:Ex; cbn; [|done]. destruct (He _ _ _ Em Ex). lia. Qed.

Lemma mult_nonneg h e c : ext_ok h e → 0 <= mult e c.
Proof. intros He. pose proof (ext_nonneg _ _ c He). pose proof (occ_nonneg c (forGatherChildren (c_node e))). unfold mult. lia. Qed.

Definition kids (e : cachedNode) : list bytes := match children e with Some m => (range m).*1 | None => [] end.

Lemma forChilds_eq e : forChilds e = kids e ++ forGatherChildren (c_node e).
Proof. done. Qed.

Lemma range_keys {A} (m : gmap bytes A) : (range m).*1 ≡ₚ (map_to_list m).*1.
Proof. by rewrite range_perm. Qed.

Lemma elem_of_range {A} (m : gmap bytes A) h : h ∈ (range m).*1 ↔ is_Some (m !! h).
Proof.
  rewrite range_keys, list_elem_of_fmap. split.
  - intros ([k x] & -> & Hx%elem_of_map_to_list). by exists x.
  - intros [x Hx]. exists (h, x). split; [done|]. by apply elem_of_map_to_list.
Qed.

Lemma kids_pos h e c : ext_ok h e → 0 < ext e c ↔ c ∈ kids e.
Proof.
  intros He. unfold ext, kids. destruct (children e) as [m|] eqn:Em; [|split; [lia|by intros ?%not_elem_of_nil]]. rewrite elem_of_range.
  destruct (m !! c) as [x|] eqn:Ex; cbn; [|split; [lia|by intros [? ?]]]. destruct (He _ _ _ Em Ex). split; [by exists x|lia].
Qed.

Lemma kids_occ h e c : h ≠ zeroHash → ext_ok h e → occ c (kids e) = ext e c.
Proof.
  intros Hh He. unfold ext, kids. destruct (children e) as [m|] eqn:Em; [|done].
  rewrite occ_nodup by (rewrite range_keys; apply NoDup_fst_map_to_list).
  case_decide as H; rewrite elem_of_range in H; destruct (m !! c) as [x|] eqn:Ex; cbn; try done.
  - destruct (He _ _ _ Em Ex) as [_ ->]; done.
  - by destruct H.
Qed.

(** An entry but the meta root refers to a hash as often as its children list it. *)
Lemma forChilds_occ h e c : h ≠ zeroHash → ext_ok h e → occ c (forChilds e) = mult e c.
Proof. intros Hh He. rewrite forChilds_eq, occ_app. unfold mult. by rewrite (kids_occ h). Qed.

Lemma forChilds_pos h e c : ext_ok h e → c ∈ forChilds e ↔ 0 < mult e c.
Proof.
  intros He. rewrite forChilds_eq, elem_of_app, <- (kids_pos h) by done. rewrite <- occ_pos. unfold mult.
  pose proof (ext_nonneg _ _ c He). pose proof (occ_nonneg c (forGatherChildren (c_node e))). lia.
Qed.

End Proofs.
End TrieDbProofs.

Module TrieDbGc.
Import Trie TrieHash TrieDb TrieDbProofs.

Section Gc.
Context `{ENV : Environment}.
Context (content : bytes → option bytes) (links : bytes → list bytes) (rank : bytes → nat).

(** Hashes refer to hashes, and not in circles. *)
Record lawful : Prop := {
  links_rank : ∀ h c, c ∈ links h → (rank c < rank h)%nat;
  links_len : ∀ h c, c ∈ links h → length c = 32%nat;
  links_zero : ∀ h, zeroHash ∉ links h;
}.

(** ** The invariant *)

(** The entries are the meta root, the flush-list [L] and the nodes [S] that
    are being collected, of which the references [pend] are still to be taken
    away. *)
Record shape (L S : list bytes) (db : Database) : Prop := {
  k_dom : ∀ h, is_Some (dirties db !! h) ↔ h ∈ zeroHash :: L ++ S;
  k_nodup : NoDup (zeroHash :: L ++ S);
  k_len : Forall (λ h, length h = 32%nat) L;
  k_linked : linked L db;
  k_meta : ∃ z m, dirties db !! zeroHash = Some z ∧ c_node z = raw_nil ∧ children z = Some m;
  k_ext : ∀ h e, dirties db !! h = Some e → ext_ok h e;
  k_parents : ∀ h e, dirties db !! h = Some e → 0 <= parents e < 2 ^ 32;
}.

(** Entries that are not on the disk count the references to them. *)
Definition counted (L pend : list bytes) (db : Database) : Prop :=
  ∀ c e, c ∈ L → dirties db !! c = Some e → diskdb db !! c = None →
    refsum (dirties db) (zeroHash :: L) c + occ c pend <= parents e.

(** What an entry refers to is on the disk or before it in the list. *)
Record ordered (L : list bytes) (db : Database) : Prop := {
  k_order : ∀ l1 p l2 e c, L = l1 ++ p :: l2 → dirties db !! p = Some e → c ∈ forChilds e → is_Some (diskdb db !! c) ∨ c ∈ l1;
  k_roots : ∀ z c, dirties db !! zeroHash = Some z → c ∈ forChilds z → is_Some (diskdb db !! c) ∨ c ∈ L;
}.

(** The entries, the disk and the cache hold the right content, and the disk
    is closed under references. *)
Record right (db : Database) : Prop := {
  k_links : ∀ h e c, h ≠ zeroHash → dirties db !! h = Some e → c ∈ forChilds e → c ∈ links h;
  k_blob : ∀ h e, h ≠ zeroHash → dirties db !! h = Some e → ∃ b, rlp e = Some b ∧ content h = Some b;
  k_disk : ∀ h b, length h = 32%nat → diskdb db !! h = Some b → content h = Some b ∧ ∀ c, c ∈ links h → is_Some (diskdb db !! c);
  k_clean : ∀ ca h b, cleans db = Some ca → cache_get ca h = Some b → length h = 32%nat ∧ diskdb db !! h = Some b;
  k_pre : ∀ h p, preimages db !! h = Some p → length h = 32%nat;
}.

Record core (L S pend : list bytes) (db : Database) : Prop := {
  k_shape : shape L S db;
  k_counted : counted L pend db;
  k_ordered : ordered L db;
  k_right : right db;
}.

(** All references of the nodes of the list are tracked. *)
Definition full (L : list bytes) (db : Database) : Prop :=
  ∀ h e c, h ∈ L → dirties db !! h = Some e → c ∈ links h → c ∈ forChilds e ∨ is_Some (diskdb db !! c).

(** ** Frames *)

Lemma alike_mult e e' c : alike e e' → mult e' c = mult e c.
Proof. intros (E1 & _ & _ & E4). unfold mult, ext. by rewrite E1, E4. Qed.

Lemma alike_forChilds e e' : alike e e' → forChilds e' = forChilds e.
Proof. intros (E1 & _ & _ & E4). unfold forChilds. by rewrite E1, E4. Qed.

Lemma alike_rlp e e' : c_node e' = c_node e → rlp e' = rlp e.
Proof. intros E1. unfold rlp. by rewrite E1. Qed.

Lemma all_alike_back ds ds' h e' : all_alike ds ds' → ds' !! h = Some e' → ∃ e, ds !! h = Some e ∧ alike e e'.
Proof. intros H E. specialize (H h). rewrite E in H. destruct (ds !! h); [|done]. eauto. Qed.

Lemma refsum_alike ds ds' l c : all_alike ds ds' → refsum ds' l c = refsum ds l c.
Proof.
  intros Ha. apply refsum_ext. intros p _. unfold mult_at. specialize (Ha p). destruct (ds !! p), (ds' !! p); try done. cbn in Ha. by apply alike_mult.
Qed.

(** Moving the entries about in the list changes nothing else. *)
Lemma core_alike L S pend db db' : core L S pend db → linked L db' → all_alike (dirties db) (dirties db') → quiet db db' → core L S pend db'.
Proof.
  intros [[D N Le Li (z & m & Ez & Hz1 & Hz2) X P] C [O R] [K1 K2 K3 K4 K5]] HL Ha (Q1 & Q2 & Q3). split.
  - split; [|done|done|done| | |].
    + intros h. rewrite <- D, <- !not_eq_None_Some. by rewrite (all_alike_None _ _ h Ha).
    + destruct (all_alike_Some _ _ _ _ Ha Ez) as (z' & Ez' & (A1 & _ & _ & A4)). exists z', m. by rewrite A1, A4.
    + intros h e' E'. destruct (all_alike_back _ _ _ _ Ha E') as (e & E & (_ & _ & _ & A4)). intros m' c x. rewrite A4. apply (X h e E).
    + intros h e' E'. destruct (all_alike_back _ _ _ _ Ha E') as (e & E & (_ & _ & A3 & _)). rewrite A3. by eapply P.
  - intros c e' Hc E' Hd. destruct (all_alike_back _ _ _ _ Ha E') as (e & E & (_ & _ & A3 & _)).
    rewrite (refsum_alike (dirties db)), A3 by done. rewrite Q1 in Hd. by eapply C.
  - split; rewrite ?Q1.
    + intros l1 p l2 e' c EL E'. destruct (all_alike_back _ _ _ _ Ha E') as (e & E & A). rewrite (alike_forChilds e e' A). by eapply O.
    + intros e' c E'. destruct (all_alike_back _ _ _ _ Ha E') as (e & E & A). rewrite (alike_forChilds e e' A). by eapply R.
  - split; rewrite ?Q1, ?Q2, ?Q3; [| |done|done|done].
    + intros h e' c Hh E'. destruct (all_alike_back _ _ _ _ Ha E') as (e & E & A). rewrite (alike_forChilds e e' A). by eapply K1.
    + intros h e' Hh E'. destruct (all_alike_back _ _ _ _ Ha E') as (e & E & (A1 & _)). rewrite (alike_rlp e e' A1). by eapply K2.
Qed.

Lemma core_weaken L S c pend db : core L S (c :: pend) db → core L S pend db.
Proof. intros [H1 H2 H3 H4]. split; [done| |done|done]. intros x e Hx E Hd. specialize (H2 x e Hx E Hd). cbn [occ] in H2. case_decide; lia. Qed.

(** An entry that is not changed in what it refers to. *)
Lemma mult_at_insert ds h e e' c : ds !! h = Some e → mult e' c = mult e c → ∀ p, mult_at (<[h := e']> ds) c p = mult_at ds c p.
Proof.
  intros E Em p. unfold mult_at. destruct (decide (p = h)) as [->|Hn]; [by rewrite lookup_insert_eq, E|by rewrite lookup_insert_ne].
Qed.

Lemma refsum_insert ds h e e' c l : ds !! h = Some e → mult e' c = mult e c → refsum (<[h := e']> ds) l c = refsum ds l c.
Proof. intros E Em. apply refsum_ext. intros p _. by eapply mult_at_insert. Qed.

Lemma refsum_insert_out ds h e' c l : h ∉ l → refsum (<[h := e']> ds) l c = refsum ds l c.
Proof. intros Hh. apply refsum_ext. intros p Hp. unfold mult_at. rewrite lookup_insert_ne; [done|]. by intros ->. Qed.

Lemma linked_frame L db db' : (∀ h, h ∈ L → same_place (dirties db !! h) (dirties db' !! h)) → oldest db' = oldest db → newest db' = newest db →
  linked L db → linked L db'.
Proof. intros Hf E1 E2 (H1 & H2 & H3). unfold linked. rewrite E1, E2. split_and!; [|done|done]. by eapply seg_frame. Qed.

Lemma same_place_set (ds : entries) h e e' : ds !! h = Some e → flushPrev e' = flushPrev e → flushNext e' = flushNext e → ∀ k, same_place (ds !! k) (<[h := e']> ds !! k).
Proof.
  intros E E1 E2 k. destruct (decide (k = h)) as [->|Hn]; [|by apply same_place_insert]. rewrite lookup_insert_eq, E. intros e0 [= <-]. eauto.
Qed.

Lemma dom_insert (ds : entries) h (e e' : cachedNode) : ds !! h = Some e → ∀ k, is_Some (<[h := e']> ds !! k) ↔ is_Some (ds !! k).
Proof. intros E k. destruct (decide (k = h)) as [->|Hn]; [rewrite lookup_insert_eq, E|by rewrite lookup_insert_ne]. by split; eexists. Qed.

(** Replacing an entry by one at the same place. *)
Lemma shape_set L S db db' h e e' :
  shape L S db → dirties db !! h = Some e → dirties db' = <[h := e']> (dirties db) → oldest db' = oldest db → newest db' = newest db →
  flushPrev e' = flushPrev e → flushNext e' = flushNext e → c_node e' = c_node e → (h = zeroHash → is_Some (children e')) →
  ext_ok h e' → 0 <= parents e' < 2 ^ 32 → shape L S db'.
Proof.
  intros [D N Le Li (z & m & Ez & Hz1 & Hz2) X P] E Ed Eo En F1 F2 F3 Hc He Hp. split; rewrite ?Ed; [|done|done| | | |].
  - intros k. rewrite (dom_insert _ _ e) by done. apply D.
  - eapply linked_frame; [|done|done|done]. rewrite Ed. intros k _. by eapply same_place_set.
  - destruct (decide (h = zeroHash)) as [->|Hn].
    + destruct (Hc eq_refl) as [m' Em']. exists e', m'. rewrite lookup_insert_eq. split_and!; [done|congruence|done].
    + exists z, m. by rewrite lookup_insert_ne.
  - intros k e0. destruct (decide (k = h)) as [->|Hn]; [rewrite lookup_insert_eq; by intros [= <-]|rewrite lookup_insert_ne by done; apply X].
  - intros k e0. destruct (decide (k = h)) as [->|Hn]; [rewrite lookup_insert_eq; by intros [= <-]|rewrite lookup_insert_ne by done; apply P].
Qed.

Lemma right_set db db' h e e' :
  right db → dirties db !! h = Some e → dirties db' = <[h := e']> (dirties db) → diskdb db' = diskdb db → cleans db' = cleans db → preimages db' = preimages db →
  c_node e' = c_node e → (h ≠ zeroHash → ∀ c, c ∈ forChilds e' → c ∈ links h) → right db'.
Proof.
  intros [K1 K2 K3 K4 K5] E Ed Q1 Q2 Q3 F3 Hf. split; rewrite ?Ed, ?Q1, ?Q2, ?Q3; [| |done|done|done].
  - intros k e0 c Hk. destruct (decide (k = h)) as [->|Hn]; [rewrite lookup_insert_eq; intros [= <-]; by apply Hf|rewrite lookup_insert_ne by done; intros; by eapply K1].
  - intros k e0 Hk. destruct (decide (k = h)) as [->|Hn]; [rewrite lookup_insert_eq; intros [= <-]|rewrite lookup_insert_ne by done; by apply K2].
    rewrite (alike_rlp e e' F3). by apply K2.
Qed.

Lemma ordered_set L db db' h e e' :
  ordered L db → dirties db !! h = Some e → dirties db' = <[h := e']> (dirties db) → diskdb db' = diskdb db →
  (h = zeroHash ∨ h ∈ L → ∀ c, c ∈ forChilds e' → c ∈ forChilds e) → ordered L db'.
Proof.
  intros [O R] E Ed Q1 Hf. split; rewrite ?Ed, ?Q1.
  - intros l1 p l2 e0 c EL. destruct (decide (p = h)) as [->|Hn]; [rewrite lookup_insert_eq; intros [= <-]|rewrite lookup_insert_ne by done; intros; by eapply O].
    intros Hc. eapply O; [exact EL|exact E|]. apply Hf; [|done]. right. rewrite EL, elem_of_app. right. by left.
  - intros e0 c. destruct (decide (h = zeroHash)) as [->|Hn]; [rewrite lookup_insert_eq; intros [= <-]|rewrite lookup_insert_ne by done; intros; by eapply R].
    intros Hc. eapply R; [exact E|]. apply Hf; [by left|done].
Qed.

(** ** Taking references away *)

Definition minus_ext (e : cachedNode) (c : bytes) : cachedNode :=
  if ext e c =? 1 then set_children e (delete c <$> children e) else set_ext e c (ext e c - 1).

Lemma drop_ext_eq db c p e : dirties db !! p = Some e → 0 < ext e c →
  ∃ db', drop_ext c p db = Ok db' tt ∧ dirties db' = <[p := minus_ext e c]> (dirties db) ∧ oldest db' = oldest db ∧ newest db' = newest db ∧ quiet db db'.
Proof.
  intros E Hx. unfold drop_ext, bind, get_db, some, minus_ext, modify. rewrite E, (proj2 (Z.ltb_lt _ _) Hx).
  destruct (ext e c =? 1); rewrite (update_entry_ok _ _ _ _ E); eexists; by split_and!.
Qed.

Lemma drop_ext_none db c p e : dirties db !! p = Some e → ext e c <= 0 → drop_ext c p db = Ok db tt.
Proof. intros E Hx. unfold drop_ext, bind, get_db, some. rewrite E. by rewrite (proj2 (Z.ltb_ge _ _) Hx). Qed.

Lemma minus_ext_ext h e c x : ext_ok h e → 0 < ext e c → ext (minus_ext e c) x = ext e x - (if decide (x = c) then 1 else 0).
Proof.
  intros He Hc. unfold minus_ext, ext at 2 3. unfold ext in *. destruct (children e) as [m|] eqn:Em; [|lia]. destruct (m !! c) as [y|] eqn:Ey; cbn in *; [|lia].
  destruct (Z.eqb_spec y 1) as [->|Hy]; cbn; rewrite ?Em; cbn; case_decide as Ex; subst.
  - by rewrite lookup_delete_eq, Ey.
  - rewrite lookup_delete_ne by done. lia.
  - rewrite lookup_insert_eq, Ey. done.
  - rewrite lookup_insert_ne by done. lia.
Qed.

Lemma minus_ext_ok h e c : ext_ok h e → 0 < ext e c → ext_ok h (minus_ext e c).
Proof.
  intros He Hc m x y. unfold minus_ext, ext in *. destruct (children e) as [m0|] eqn:Em; [|lia]. destruct (m0 !! c) as [y0|] eqn:Ey; cbn in *; [|lia].
  destruct (He _ _ _ Em Ey) as [H1 H2]. destruct (Z.eqb_spec y0 1) as [->|Hy]; cbn; rewrite ?Em; cbn; intros [= <-].
  - intros [_ Hx]%lookup_delete_Some. intros; by eapply (He m0).
  - destruct (decide (x = c)) as [->|Hn]; [rewrite lookup_insert_eq; intros [= <-]|rewrite lookup_insert_ne by done; intros; by eapply (He m0)].
    split; [lia|]. intros Hh. by destruct Hy, (H2 Hh).
Qed.

Lemma minus_ext_childs h e c x : ext_ok h e → 0 < ext e c → x ∈ forChilds (minus_ext e c) → x ∈ forChilds e.
Proof.
  intros He Hc. rewrite !(forChilds_pos h) by (done || by apply minus_ext_ok). unfold mult. rewrite (minus_ext_ext h) by done.
  assert (c_node (minus_ext e c) = c_node e) as -> by (unfold minus_ext; by destruct (_ =? _)). case_decide; lia.
Qed.

Lemma minus_ext_fields e c : let e' := minus_ext e c in
  c_node e' = c_node e ∧ parents e' = parents e ∧ flushPrev e' = flushPrev e ∧ flushNext e' = flushNext e ∧ (is_Some (children e) → is_Some (children e')).
Proof. unfold minus_ext. destruct (_ =? _); cbn; split_and!; try done. by intros [m ->]. Qed.

(** A node that is being collected loses a reference. *)
Lemma drop_ext_in L S pend db c p : core L S pend db → p ∈ S →
  ∃ db', drop_ext c p db = Ok db' tt ∧ core L S pend db' ∧ quiet db db' ∧ ∀ h, h ∈ L → dirties db' !! h = dirties db !! h.
Proof.
  intros [H1 H2 H3 H4] Hp. destruct (k_dom _ _ _ H1 p) as [_ HD]. destruct HD as [e E]; [right; apply elem_of_app; by right|].
  pose proof (k_ext _ _ _ H1 _ _ E) as He. destruct (decide (0 < ext e c)) as [Hc|Hc].
  2: { rewrite (drop_ext_none _ _ _ _ E) by lia. exists db. by split_and!. }
  destruct (drop_ext_eq db c p e E Hc) as (db' & -> & Ed & Eo & En & Q). exists db'. destruct (minus_ext_fields e c) as (F1 & F2 & F3 & F4 & F5).
  assert (Hout : p ∉ zeroHash :: L) by (pose proof (k_nodup _ _ _ H1) as HN; rewrite app_comm_cons in HN; apply NoDup_app in HN as (_ & HN & _); intros Hin; by apply (HN p)).
  split_and!; [done| |done|].
  2: { intros h Hh. rewrite Ed. apply lookup_insert_ne. intros ->. apply Hout. by right. }
  destruct Q as (Q1 & Q2 & Q3). split.
  - eapply (shape_set _ _ db); try done; [intros ->; exfalso; apply Hout; by left|by apply minus_ext_ok|rewrite F2; by apply (k_parents _ _ _ H1 p)].
  - intros x ex Hx. rewrite Ed, Q1, refsum_insert_out by done. rewrite lookup_insert_ne by (intros ->; apply Hout; by right). by apply H2.
  - eapply (ordered_set _ db); try done. intros [->|Hin]; [exfalso; apply Hout; by left|exfalso; apply Hout; by right].
  - eapply (right_set db); try done. intros Hz x Hx%(minus_ext_childs p); [|done|done]. by eapply (k_links _ H4).
Qed.

(** The meta root loses a reference: it is pending. *)
Lemma drop_ext_root L db c z : core L [] [] db → dirties db !! zeroHash = Some z → 0 < ext z c →
  ∃ db', drop_ext c zeroHash db = Ok db' tt ∧ core L [] [c] db' ∧ quiet db db' ∧ ∀ h, h ≠ zeroHash → dirties db' !! h = dirties db !! h.
Proof.
  intros [H1 H2 H3 H4] E Hc. pose proof (k_ext _ _ _ H1 _ _ E) as He. pose proof (k_nodup _ _ _ H1) as [Hz _]%NoDup_cons. rewrite app_nil_r in Hz.
  destruct (drop_ext_eq db c zeroHash z E Hc) as (db' & -> & Ed & Eo & En & (Q1 & Q2 & Q3)). exists db'. destruct (minus_ext_fields z c) as (F1 & F2 & F3 & F4 & F5).
  split_and!; [done| |done|]. 2: { intros h Hh. rewrite Ed. by apply lookup_insert_ne. }
  split.
  - eapply (shape_set _ _ db); try done; [|by apply minus_ext_ok|rewrite F2; by apply (k_parents _ _ _ H1 zeroHash)].
    intros _. apply F5. destruct (k_meta _ _ _ H1) as (z' & m & Ez & _ & Em). simplify_eq. by exists m.
  - intros x ex Hx. rewrite Ed, Q1. rewrite lookup_insert_ne by (by intros <-). intros Ex Hd. specialize (H2 x ex Hx Ex Hd). revert H2.
    cbn [refsum occ]. rewrite refsum_insert_out by done. unfold mult_at. rewrite lookup_insert_eq, E. unfold mult. rewrite (minus_ext_ext zeroHash), F1 by done.
    destruct (decide (x = c)), (decide (c = x)); subst; try done; lia.
  - eapply (ordered_set _ db); try done. intros _ x. by apply (minus_ext_childs zeroHash).
  - by eapply (right_set db).
Qed.

Lemma refsum_nonneg ds l c : (∀ p e, ds !! p = Some e → ext_ok p e) → 0 <= refsum ds l c.
Proof.
  intros He. induction l as [|q l IH]; cbn [refsum]; [done|]. assert (0 <= mult_at ds c q); [|lia].
  unfold mult_at. destruct (ds !! q) eqn:E; [by eapply mult_nonneg, He|done].
Qed.

(** Lists with one element taken out. *)
Lemma split_without (l1 l2 k1 k2 : list bytes) c p : l1 ++ l2 = k1 ++ p :: k2 →
  ∃ j1 j2, l1 ++ c :: l2 = j1 ++ p :: j2 ∧ ∀ y, y ∈ j1 → y = c ∨ y ∈ k1.
Proof.
  revert k1. induction l1 as [|a l1 IH]; intros k1 E; cbn in *.
  - subst. exists (c :: k1), k2. split; [done|]. intros y. rewrite elem_of_cons. tauto.
  - destruct k1 as [|b k1]; injection E as -> E.
    + exists [], (l1 ++ c :: l2). split; [done|]. by intros y ?%not_elem_of_nil.
    + destruct (IH k1 E) as (j1 & j2 & -> & Hj). exists (b :: j1), j2. split; [done|]. intros y. rewrite !elem_of_cons. intros [->|Hy]; [by right; left|].
      destruct (Hj y Hy); tauto.
Qed.

Definition less_parents (e : cachedNode) : cachedNode := if 0 <? parents e then set_parents e (parents e - 1) else e.

Lemma less_parents_fields e : let e' := less_parents e in
  c_node e' = c_node e ∧ children e' = children e ∧ flushPrev e' = flushPrev e ∧ flushNext e' = flushNext e.
Proof. unfold less_parents. by destruct (_ <? _). Qed.

Lemma set_forChilds e e' : c_node e' = c_node e → children e' = children e → forChilds e' = forChilds e ∧ ∀ c, mult e' c = mult e c.
Proof. intros E1 E2. unfold forChilds, mult, ext. by rewrite E1, E2. Qed.

(** A pending reference is taken off the count of its target. *)
Lemma less_parents_ok L S c rest db e : core L S (c :: rest) db → c ∈ L → dirties db !! c = Some e →
  core L S rest (set_dirties db (<[c := less_parents e]> (dirties db))).
Proof.
  intros [H1 H2 H3 H4] Hc E. destruct (less_parents_fields e) as (F1 & F2 & F3 & F4). destruct (set_forChilds _ _ F1 F2) as [G1 G2].
  pose proof (k_parents _ _ _ H1 _ _ E) as Hp. split.
  - eapply (shape_set _ _ db); try done; [|intros m x y; rewrite F2; by apply (k_ext _ _ _ H1 c)|unfold less_parents; destruct (Z.ltb_spec 0 (parents e)); cbn; lia].
    intros ->. pose proof (k_nodup _ _ _ H1) as [Hz _]%NoDup_cons. destruct Hz. apply elem_of_app. by left.
  - intros x ex Hx. cbn [dirties set_dirties diskdb]. intros Ex Hd. rewrite (refsum_insert _ _ e) by done.
    destruct (decide (x = c)) as [->|Hn].
    + rewrite lookup_insert_eq in Ex. injection Ex as <-. specialize (H2 c e Hc E Hd). cbn [occ] in H2. rewrite decide_True in H2 by done.
      unfold less_parents. destruct (Z.ltb_spec 0 (parents e)); cbn [parents set_parents]; [lia|].
      assert (0 <= refsum (dirties db) (zeroHash :: L) c); [|pose proof (occ_nonneg c rest); lia].
      apply refsum_nonneg. intros p e0. apply (k_ext _ _ _ H1).
    + rewrite lookup_insert_ne in Ex by done. specialize (H2 x ex Hx Ex Hd). cbn [occ] in H2. by rewrite decide_False in H2.
  - eapply (ordered_set _ db); try done. intros _ x. by rewrite G1.
  - eapply (right_set db); try done. intros Hz x. rewrite G1. by eapply (k_links _ H4).
Qed.

Lemma mult_ref ds l c p : (∀ p e, ds !! p = Some e → ext_ok p e) → p ∈ l → mult_at ds c p <= refsum ds l c.
Proof.
  intros He. induction l as [|q l IH]; intros Hp; [by apply not_elem_of_nil in Hp|]. cbn [refsum].
  assert (0 <= mult_at ds c q) by (unfold mult_at; destruct (ds !! q) eqn:E; [by eapply mult_nonneg, He|done]).
  pose proof (refsum_nonneg ds l c He). apply elem_of_cons in Hp as [->|Hp]; [lia|]. specialize (IH Hp). lia.
Qed.

(** A node without references, or one that is on the disk, leaves the list; its
    own references are pending. *)
Lemma collect_ok l1 c l2 S rest db db' e :
  core (l1 ++ c :: l2) S rest db → dirties db !! c = Some e → parents e = 0 ∨ is_Some (diskdb db !! c) → linked (l1 ++ l2) db' → all_alike (dirties db) (dirties db') → quiet db db' →
  core (l1 ++ l2) (c :: S) (forChilds e ++ rest) db'.
Proof.
  intros [H1 H2 H3 H4] E Hp HL Ha (Q1 & Q2 & Q3). set (L := l1 ++ c :: l2) in *. assert (HcL : c ∈ L) by (apply elem_of_app; right; by left).
  assert (HP : zeroHash :: L ++ S ≡ₚ zeroHash :: (l1 ++ l2) ++ c :: S).
  { unfold L. constructor. rewrite <- !app_assoc. apply Permutation_app_head. cbn. apply Permutation_middle. }
  pose proof (k_nodup _ _ _ H1) as HN. assert (Hcz : c ≠ zeroHash) by (intros ->; apply NoDup_cons in HN as [Hz _]; apply Hz, elem_of_app; by left).
  assert (Hsub : ∀ x, x ∈ l1 ++ l2 → x ∈ L) by (intros x; unfold L; rewrite !elem_of_app, elem_of_cons; tauto).
  assert (Hnone : ∀ p ep, p ∈ zeroHash :: L → dirties db !! p = Some ep → c ∈ forChilds ep → is_Some (diskdb db !! c)).
  { intros p ep Hpl Ep Hin. destruct Hp as [Hp|?]; [|done]. destruct (diskdb db !! c) eqn:Ed; [by eexists|]. exfalso. specialize (H2 c e HcL E Ed). rewrite Hp in H2.
    pose proof (mult_ref (dirties db) (zeroHash :: L) c p (k_ext _ _ _ H1) Hpl) as Hm. unfold mult_at in Hm. rewrite Ep in Hm.
    apply (forChilds_pos p) in Hin; [|by apply (k_ext _ _ _ H1)]. pose proof (occ_nonneg c rest). lia. }
  split.
  - destruct H1 as [D N Le Li (z & m & Ez & Hz1 & Hz2) X P]. split; [| | |done| | |].
    + intros h. rewrite <- HP, <- D, <- !not_eq_None_Some. by rewrite (all_alike_None _ _ h Ha).
    + by rewrite <- HP.
    + rewrite Forall_forall in *. auto.
    + destruct (all_alike_Some _ _ _ _ Ha Ez) as (z' & Ez' & (A1 & _ & _ & A4)). exists z', m. by rewrite A1, A4.
    + intros h e' E'. destruct (all_alike_back _ _ _ _ Ha E') as (e0 & E0 & (_ & _ & _ & A4)). intros m' x y. rewrite A4. by apply (X h e0 E0).
    + intros h e' E'. destruct (all_alike_back _ _ _ _ Ha E') as (e0 & E0 & (_ & _ & A3 & _)). rewrite A3. by eapply P.
  - intros x ex' Hx Ex' Hd. destruct (all_alike_back _ _ _ _ Ha Ex') as (ex & Ex & (_ & _ & A3 & _)). rewrite Q1 in Hd.
    specialize (H2 x ex (Hsub _ Hx) Ex Hd). rewrite (refsum_alike (dirties db)), A3, occ_app, (forChilds_occ c) by (done || by apply (k_ext _ _ _ H1)).
    revert H2. unfold L. cbn [refsum]. rewrite !refsum_app. cbn [refsum]. unfold mult_at at 2. rewrite E. lia.
  - destruct H3 as [O R]. split; rewrite ?Q1.
    + intros k1 p k2 e' x EL E' Hx. destruct (all_alike_back _ _ _ _ Ha E') as (e0 & E0 & A). rewrite (alike_forChilds e0 e' A) in Hx.
      assert (HpL : p ∈ l1 ++ l2) by (rewrite EL; apply elem_of_app; right; by left).
      assert (∃ j1 j2, L = j1 ++ p :: j2 ∧ ∀ y, y ∈ j1 → y = c ∨ y ∈ k1) as (j1 & j2 & Ej & Hj) by (by eapply split_without).
      destruct (O j1 p j2 e0 x Ej E0 Hx) as [?|Hin]; [by left|]. destruct (Hj x Hin) as [->|?]; [|by right]. left. apply (Hnone p e0); [right; auto|done|done].
    + intros e' x E' Hx. destruct (all_alike_back _ _ _ _ Ha E') as (e0 & E0 & A). rewrite (alike_forChilds e0 e' A) in Hx.
      destruct (R e0 x E0 Hx) as [?|Hin]; [by left|]. destruct (decide (x = c)) as [->|Hn]; [left; apply (Hnone zeroHash e0); [by left|done|done]|].
      right. revert Hin. unfold L. rewrite !elem_of_app, elem_of_cons. naive_solver.
  - destruct H4 as [K1 K2 K3 K4 K5]. split; rewrite ?Q1, ?Q2, ?Q3; [| |done|done|done].
    + intros h e' x Hh E'. destruct (all_alike_back _ _ _ _ Ha E') as (e0 & E0 & A). rewrite (alike_forChilds e0 e' A). by eapply K1.
    + intros h e' Hh E'. destruct (all_alike_back _ _ _ _ Ha E') as (e0 & E0 & (A1 & _)). rewrite (alike_rlp e0 e' A1). by eapply K2.
Qed.

(** ** Collection *)

Lemma sublist_elem_of (x : bytes) l l' : l `sublist_of` l' → x ∈ l → x ∈ l'.
Proof. induction 1; rewrite ?elem_of_cons; tauto. Qed.

Lemma submseteq_dom_size (ds : entries) l : NoDup l → (∀ h, h ∈ l → is_Some (ds !! h)) → (length l <= size ds)%nat.
Proof.
  intros HN Hl. rewrite <- size_dom. rewrite <- (size_list_to_set (C := gset bytes) l) by done. apply subseteq_size. intros h Hh%elem_of_list_to_set. by apply elem_of_dom, Hl.
Qed.

(** The entries of [L] refer to what they did. *)
Definition kept (L : list bytes) (db db' : Database) : Prop :=
  ∀ h e', h ∈ L → dirties db' !! h = Some e' → ∃ e, dirties db !! h = Some e ∧ c_node e' = c_node e ∧ children e' = children e.

Lemma kept_refl L db : kept L db db.
Proof. intros h e' _ E. eauto. Qed.

Lemma kept_trans L L' db1 db2 db3 : kept L db1 db2 → (∀ h, h ∈ L' → h ∈ L) → kept L' db2 db3 → kept L' db1 db3.
Proof. intros H1 HL H2 h e3 Hh E3. destruct (H2 h e3 Hh E3) as (e2 & E2 & A1 & A2). destruct (H1 h e2 (HL h Hh) E2) as (e1 & E1 & B1 & B2). exists e1. split_and!; congruence. Qed.

Lemma quiet_trans db1 db2 db3 : quiet db1 db2 → quiet db2 db3 → quiet db1 db3.
Proof. unfold quiet. intuition congruence. Qed.

Lemma core_resize L S pend db x y : core L S pend db → core L S pend (add_sizes db x y).
Proof. intros H. eapply core_alike; [exact H|exact (k_linked _ _ _ (k_shape _ _ _ _ H))|apply all_alike_refl|done]. Qed.

(** A collected node goes. *)
Lemma core_delete L S c pend db : core L (c :: S) pend db → core L S pend (set_dirties db (delete c (dirties db))).
Proof.
  intros [[D N Le Li (z & m & Ez & Hz1 & Hz2) X P] C [O R] [K1 K2 K3 K4 K5]].
  assert (HP : zeroHash :: L ++ c :: S ≡ₚ c :: zeroHash :: L ++ S) by (rewrite <- Permutation_middle; constructor).
  assert (HP' : NoDup (c :: zeroHash :: L ++ S)) by (by rewrite <- HP). apply NoDup_cons in HP' as [Hc HN].
  assert (HcL : c ∉ zeroHash :: L) by (intros Hin; apply Hc; rewrite app_comm_cons; apply elem_of_app; by left).
  assert (Hdel : ∀ h e, delete c (dirties db) !! h = Some e → dirties db !! h = Some e) by (intros h e [_ H]%lookup_delete_Some; done).
  assert (Hkeep : ∀ h, h ≠ c → delete c (dirties db) !! h = dirties db !! h) by (intros h Hh; by apply lookup_delete_ne).
  split; [split|..]; cbn [dirties set_dirties diskdb cleans preimages]; [|done|done| | | | | |split|split]; eauto.
  - intros h. destruct (decide (h = c)) as [->|Hn].
    + rewrite lookup_delete_eq. split; [by intros [? ?]|done].
    + rewrite Hkeep by done. rewrite D, HP, elem_of_cons. naive_solver.
  - eapply (linked_frame _ db); [|done|done|exact Li]. intros h Hh e E. exists e. cbn. rewrite Hkeep; [done|]. intros ->. apply HcL. by right.
  - exists z, m. rewrite Hkeep; [done|]. intros <-. apply HcL. by left.
  - intros x e Hx E Hd. rewrite (refsum_ext _ (dirties db)); [by eapply C; eauto|]. intros p Hp. unfold mult_at. rewrite Hkeep; [done|]. by intros ->.
Qed.

Section Dereference.
Hypothesis LAW : lawful.

(** What a call of [dereference] for one of the pending references does. *)
Definition derefs (fuel : nat) : Prop := ∀ L S c p rest db,
  core L S (c :: rest) db → p ∈ S → c ≠ zeroHash → (∀ s, s ∈ S → (rank c < rank s)%nat) → (length L < fuel)%nat →
  ∃ db' L', dereference fuel c p db = Ok db' tt ∧ core L' S rest db' ∧ L' `sublist_of` L ∧ quiet db db' ∧ kept L' db db'.

Lemma each_dereference fuel c l : derefs fuel → ∀ L S rest db,
  core L (c :: S) (l ++ rest) db → (∀ x, x ∈ l → x ≠ zeroHash ∧ (rank x < rank c)%nat) → (∀ s, s ∈ S → (rank c < rank s)%nat) → (length L < fuel)%nat →
  ∃ db' L', each (λ h, dereference fuel h c) l db = Ok db' tt ∧ core L' (c :: S) rest db' ∧ L' `sublist_of` L ∧ quiet db db' ∧ kept L' db db'.
Proof.
  intros IH. induction l as [|x l IHl]; intros L S rest db H Hl HS Hf; cbn [each].
  - exists db, L. split_and!; [done|done|done|done|apply kept_refl].
  - destruct (Hl x) as [Hx0 Hxr]; [by left|]. destruct (IH L (c :: S) x c (l ++ rest) db) as (db1 & L1 & E1 & H1 & Hs1 & Q1 & K1); [done|by left|done| |done|].
    { intros s [->|Hs]%elem_of_cons; [done|]. specialize (HS s Hs). lia. }
    unfold bind. rewrite E1. pose proof (sublist_length _ _ Hs1). destruct (IHl L1 S rest db1 H1) as (db2 & L2 & E2 & H2 & Hs2 & Q2 & K2); [|done|lia|].
    { intros y Hy. apply Hl. by right. }
    exists db2, L2. split_and!; [done|done|by etrans|by eapply quiet_trans|]. eapply kept_trans; [exact K1| |exact K2]. intros h Hh. by eapply sublist_elem_of.
Qed.

Lemma release_ok fuel L S c rest db : derefs fuel →
  core L S (c :: rest) db → c ≠ zeroHash → (∀ s, s ∈ S → (rank c < rank s)%nat) → (length L <= fuel)%nat →
  ∃ db' L', release (dereference fuel) c db = Ok db' tt ∧ core L' S rest db' ∧ L' `sublist_of` L ∧ quiet db db' ∧ kept L' db db'.
Proof.
  intros IH H Hc HS Hf. unfold release, bind, get_db. destruct (dirties db !! c) as [e|] eqn:E.
  2: { exists db, L. split_and!; [done|by eapply core_weaken|done|done|apply kept_refl]. }
  pose proof (k_dom _ _ _ (k_shape _ _ _ _ H) c) as [Hin _]. specialize (Hin (ex_intro _ e E)).
  apply elem_of_cons in Hin as [?|[HcL|HcS]%elem_of_app]; [done| |specialize (HS c HcS); lia].
  rewrite (update_entry_ok _ _ _ _ E). change (if 0 <? parents e then _ else e) with (less_parents e).
  pose proof (less_parents_ok _ _ _ _ _ _ H HcL E) as H1. set (db1 := set_dirties db _) in *. cbn [some].
  assert (E1 : dirties db1 !! c = Some (less_parents e)) by apply lookup_insert_eq. rewrite E1. cbn [some].
  assert (K1 : kept L db db1).
  { intros h e'. cbn. destruct (decide (h = c)) as [->|Hn]; [rewrite lookup_insert_eq; intros _ [= <-]; exists e; by destruct (less_parents_fields e) as (? & ? & _)|].
    rewrite lookup_insert_ne by done. intros _ E'. eauto. }
  destruct (Z.eqb_spec (parents (less_parents e)) 0) as [Hp|Hp]; [|by exists db1, L; split_and!].
  apply list_elem_of_split in HcL as (l1 & l2 & ->). pose proof (k_shape _ _ _ _ H1) as Sh1.
  destruct (unlink_ok db1 l1 c l2 (less_parents e)) as (db2 & E2 & L2 & A2 & Q2);
    [exact (k_linked _ _ _ Sh1)|pose proof (k_nodup _ _ _ Sh1) as HN; rewrite app_comm_cons in HN; by apply NoDup_app in HN as (HN & _)| |done|].
  { destruct (k_meta _ _ _ Sh1) as (z & m & Ez & _). by eexists. }
  rewrite E2. pose proof (collect_ok _ _ _ _ _ _ _ _ H1 E1 (or_introl Hp) L2 A2 Q2) as H2.
  destruct (each_dereference fuel c (forChilds (less_parents e)) IH (l1 ++ l2) S rest db2 H2) as (db3 & L3 & E3 & H3 & Hs3 & Q3 & K3); [|done| |].
  { intros x Hx. pose proof (k_links _ (k_right _ _ _ _ H1) c _ x Hc E1 Hx) as Hl. split; [intros ->; by eapply (links_zero LAW)|by apply (links_rank LAW)]. }
  { rewrite length_app in *. cbn in Hf. lia. }
  rewrite E3. destruct (k_dom _ _ _ (k_shape _ _ _ _ H3) c) as [_ [e3 Ee3]]; [right; apply elem_of_app; right; by left|]. rewrite Ee3. cbn [some].
  eexists _, L3. split; [done|]. split_and!.
  - apply core_resize. by apply core_delete.
  - etrans; [exact Hs3|]. by apply sublist_app, sublist_cons.
  - eapply (quiet_trans _ db1); [done|]. eapply quiet_trans; [exact Q2|]. by eapply (quiet_trans _ db3).
  - intros h e'. cbn. intros Hh [_ E']%lookup_delete_Some. destruct (K3 h e' Hh E') as (e2 & Ee2 & B1 & B2).
    destruct (all_alike_back _ _ _ _ A2 Ee2) as (e1 & Ee1 & (A1 & _ & _ & A4)). apply (sublist_elem_of h) in Hs3; [|done].
    destruct (K1 h e1) as (e0 & Ee0 & C1 & C2); [rewrite elem_of_app, elem_of_cons in *; tauto|done|]. exists e0. split_and!; congruence.
Qed.

Lemma dereference_ok fuel : derefs fuel.
Proof.
  induction fuel as [|fuel IH]; intros L S c p rest db H Hp Hc HS Hf; [lia|]. cbn [dereference]. unfold bind.
  destruct (drop_ext_in _ _ _ _ c p H Hp) as (db1 & -> & H1 & Q1 & K1).
  destruct (release_ok fuel L S c rest db1 IH H1 Hc HS) as (db' & L' & E & H' & Hs & Q & K); [lia|]. exists db', L'. split_and!; [done|done|done|by eapply quiet_trans|].
  intros h e' Hh E'. destruct (K h e' Hh E') as (e & E0 & ?). exists e. split; [|done]. rewrite <- K1; [done|]. by eapply sublist_elem_of.
Qed.

(** [Dereference] of a root that is referenced. *)
Lemma Dereference_ok L db c z : core L [] [] db → full L db → c ≠ zeroHash → dirties db !! zeroHash = Some z → 0 < ext z c →
  ∃ db' L', Dereference c db = Ok db' tt ∧ core L' [] [] db' ∧ full L' db' ∧ L' `sublist_of` L ∧ quiet db db'.
Proof.
  intros H HF Hc Ez Hx. unfold Dereference. rewrite decide_False by done. unfold bind, get_db. cbn [dereference]. unfold bind.
  destruct (drop_ext_root _ _ _ _ H Ez Hx) as (db1 & -> & H1 & Q1 & K1).
  destruct (release_ok (size (dirties db)) L [] c [] db1 (dereference_ok _) H1 Hc) as (db' & L' & E & H' & Hs & Q & K); [by intros ? ?%not_elem_of_nil| |].
  - etrans; [|apply (submseteq_dom_size (dirties db) L)]; [done| |].
    + pose proof (k_nodup _ _ _ (k_shape _ _ _ _ H)) as HN. rewrite app_nil_r in HN. by apply NoDup_cons in HN as [_ HN].
    + intros h Hh. apply (k_dom _ _ _ (k_shape _ _ _ _ H)). right. apply elem_of_app. by left.
  - exists db', L'. split_and!; [done|done| |done|by eapply quiet_trans].
    intros h e' x Hh E' Hl. destruct (K h e' Hh E') as (e & E0 & A1 & A2). destruct (set_forChilds _ _ A1 A2) as [-> _].
    apply (sublist_elem_of h) in Hs; [|done]. rewrite K1 in E0.
    2: { intros ->. pose proof (k_nodup _ _ _ (k_shape _ _ _ _ H)) as [HN _]%NoDup_cons. apply HN, elem_of_app. by left. }
    destruct (HF h e x Hs E0 Hl) as [?|?]; [by left|]. right. destruct Q1 as (Q1 & _), Q as (Q & _). by rewrite Q, Q1.
Qed.
End Dereference.

End Gc.
End TrieDbGc.
