(* ===== verification/TrieDbOps.v ===== *)
(** * TrieDbOps: insertion, references and flushing keep the invariant

    Each operation of the node database on a state between operations: what it
    returns, and that the entries stay linked, counted and ordered and the
    disk stays closed, also when a write fails half way. *)

From stdpp Require Import base gmap list.
From Stdlib Require Import ZArith Lia.
From S2P Require Import Prelude Rlp Trie TrieHash TrieDb TrieDbGc.

Local Open Scope Z_scope.

Module TrieDbOps.
Import Trie TrieHash TrieDb TrieDbProofs TrieDbGc.

Section Ops.
Context `{ENV : Environment}.
Context (content : bytes → option bytes) (links : bytes → list bytes) (rank : bytes → nat) (LAW : lawful links rank).

Abbreviation core := (core content links).
Abbreviation full := (full links).
Abbreviation right := (right content links).

(** ** Basic facts *)

Lemma in_dirties L S pend db h e : core L S pend db → dirties db !! h = Some e → h = zeroHash ∨ h ∈ L ∨ h ∈ S.
Proof. intros H E. destruct (k_dom _ _ _ (k_shape _ _ _ _ _ _ H) h) as [Hd _]. by apply elem_of_cons in Hd as [?|?%elem_of_app]; [left|right|eexists]. Qed.

Lemma of_list L S pend db h : core L S pend db → h ∈ L → ∃ e, dirties db !! h = Some e ∧ h ≠ zeroHash ∧ length h = 32%nat.
Proof.
  intros H Hh. pose proof (k_shape _ _ _ _ _ _ H) as Sh. destruct (k_dom _ _ _ Sh h) as [_ [e E]]; [right; apply elem_of_app; by left|]. exists e. split_and!; [done| |].
  - intros ->. pose proof (k_nodup _ _ _ Sh) as [HN _]%NoDup_cons. apply HN, elem_of_app. by left.
  - pose proof (k_len _ _ _ Sh) as HL. rewrite Forall_forall in HL. by apply HL.
Qed.

Lemma list_nodup L S pend db : core L S pend db → NoDup L.
Proof. intros H. pose proof (k_nodup _ _ _ (k_shape _ _ _ _ _ _ H)) as [_ HN]%NoDup_cons. by apply NoDup_app in HN as (HN & _). Qed.

(** ** Insertion *)

Definition bump (ds : entries) (l : list bytes) : entries :=
  foldl (λ ds c, alter (λ c, set_parents c ((parents c + 1) mod 2 ^ 32)) c ds) ds l.

Lemma bump_lookup l : ∀ ds, (∀ h e, ds !! h = Some e → 0 <= parents e ∧ parents e + occ h l < 2 ^ 32) →
  ∀ h, bump ds l !! h = (λ e, set_parents e (parents e + occ h l)) <$> ds !! h.
Proof.
  induction l as [|c l IH]; intros ds Hr h; cbn [bump foldl occ].
  - destruct (ds !! h) as [[]|]; [|done]. cbn. by rewrite Z.add_0_r.
  - change (foldl _ ?d l) with (bump d l). rewrite IH.
    + destruct (decide (c = h)) as [->|Hn]; [rewrite lookup_alter_eq|rewrite lookup_alter_ne by done]; destruct (ds !! h) as [e|] eqn:E; cbn; try done.
      f_equal. destruct (Hr h e E) as [H1 H2]. cbn [occ] in H2. rewrite decide_True in H2 by done. pose proof (occ_nonneg h l).
      unfold set_parents; cbn. f_equal. rewrite Z.mod_small by lia. lia.
    + intros k e. destruct (decide (c = k)) as [->|Hn]; [rewrite lookup_alter_eq|rewrite lookup_alter_ne by done].
      * intros (e0 & E & ->)%fmap_Some. destruct (Hr k e0 E) as [H1 H2]. cbn [occ] in H2. rewrite decide_True in H2 by done. pose proof (occ_nonneg k l).
        cbn. rewrite Z.mod_small by lia. lia.
      * intros E. destruct (Hr k e E) as [H1 H2]. cbn [occ] in H2. rewrite decide_False in H2 by done. lia.
Qed.

(** A node that may be inserted: its references are links and available, and
    the counters have room for them. *)
Record insertable (L : list bytes) (db : Database) (hash : bytes) (r : raw) : Prop := {
  in_len : length hash = 32%nat;
  in_zero : hash ≠ zeroHash;
  in_refs : ∀ c, c ∈ forGatherChildren r → c ∈ links hash ∧ (is_Some (diskdb db !! c) ∨ c ∈ L);
  in_blob : ∃ b, rlp (mk_cached r 0 0 None zeroHash zeroHash) = Some b ∧ content hash = Some b;
  in_room : ∀ h e, dirties db !! h = Some e → parents e + occ h (forGatherChildren r) < 2 ^ 32;
}.

Definition inserted (L : list bytes) (db : Database) (hash : bytes) (r : raw) (size : Z) (db' : Database) : Prop :=
  quiet db db' ∧ linked (L ++ [hash]) db' ∧
  (∃ e, dirties db' !! hash = Some e ∧ c_node e = r ∧ children e = None ∧ parents e = 0) ∧
  ∀ h, h ≠ hash → option_relation (λ e e', c_node e' = c_node e ∧ children e' = children e ∧ parents e' = parents e + occ h (forGatherChildren r))
    (λ _, False) (λ _, False) (dirties db !! h) (dirties db' !! h).

Lemma linked_nil L db : linked L db → zeroHash ∉ L → oldest db = zeroHash ↔ L = [].
Proof. intros (_ & -> & _) Hz. destruct L as [|a L]; [done|]. cbn. split; [|done]. intros ->. destruct Hz. by left. Qed.

Lemma insert_run L db hash size n r :
  core L [] [] db → dirties db !! hash = None → simplify n = Some r → insertable L db hash r →
  ∃ db', insert hash size n db = Ok db' tt ∧ inserted L db hash r size db'.
Proof.
  intros H Hn Hr [I1 I0 I2 I3 I4]. pose proof (k_shape _ _ _ _ _ _ H) as Sh. unfold insert, bind, get_db. rewrite decide_False by (rewrite Hn; by intros [? ?]).
  unfold some. rewrite Hr. set (entry := mk_cached r _ 0 None (newest db) zeroHash).
  assert (Ef : forChilds entry = forGatherChildren r) by done. rewrite Ef. change (foldl _ (dirties db) (forGatherChildren r)) with (bump (dirties db) (forGatherChildren r)).
  pose proof (bump_lookup (forGatherChildren r) (dirties db)) as HB. set (ds := bump (dirties db) (forGatherChildren r)) in *.
  specialize (HB ltac:(intros h e E; split; [by apply (k_parents _ _ _ Sh h e E)|by apply I4])).
  assert (Hnz : zeroHash ∉ L) by (pose proof (k_nodup _ _ _ Sh) as [Hz _]%NoDup_cons; by rewrite app_nil_r in Hz).
  assert (HnL : hash ∉ L) by (intros Hin; destruct (of_list _ _ _ _ _ H Hin) as (? & ? & _); congruence).
  destruct (k_linked _ _ _ Sh) as (S1 & S2 & S3). pose proof (linked_nil L db (k_linked _ _ _ Sh) Hnz) as Hnil.
  assert (Hseg : seg (<[hash := entry]> ds) None L zeroHash).
  { apply seg_insert; [done|]. eapply seg_frame; [|exact S1]. intros h _ e E. rewrite HB, E. by eexists. }
  assert (Hrel : ∀ h, h ≠ hash → option_relation (λ e e', c_node e' = c_node e ∧ children e' = children e ∧ parents e' = parents e + occ h (forGatherChildren r))
    (λ _, False) (λ _, False) (dirties db !! h) (<[hash := entry]> ds !! h)).
  { intros h Hh. rewrite lookup_insert_ne, HB by done. by destruct (dirties db !! h). }
  unfold modify at 1. destruct (decide (oldest db = zeroHash)) as [Ho|Ho].
  - apply Hnil in Ho as ->. eexists. split; [done|]. split_and!; [done| | |done].
    + split_and!; [|done|by intros x [= ->]]. exists entry. cbn. by rewrite lookup_insert_eq.
    + exists entry. cbn. by rewrite lookup_insert_eq.
  - destruct L as [|a L _] using rev_ind; [by destruct Ho, Hnil|]. assert (En : newest db = a) by (apply S3; by rewrite last_snoc). rewrite En.
    assert (Hah : a ≠ hash) by (intros ->; apply HnL, elem_of_app; right; by left).
    destruct (of_list _ _ _ _ a H ltac:(apply elem_of_app; right; by left)) as (ea & Ea & _).
    assert (Ea' : <[hash := entry]> ds !! a = Some (set_parents ea (parents ea + occ a (forGatherChildren r)))) by (rewrite lookup_insert_ne, HB, Ea; done).
    rewrite (update_entry_ok (set_dirties db (<[hash := entry]> ds)) a _ _ Ea'). eexists. split; [done|]. split_and!; [done| | |].
    + assert (HaL : a ∉ L) by (pose proof (list_nodup _ _ _ _ H) as (_ & HN & _)%NoDup_app; intros Hin; apply (HN a Hin); by left).
      split_and!; cbn; [|rewrite S2; by destruct L|intros x; rewrite last_snoc; by intros [= ->]].
      apply seg_app. split; [by eapply seg_set_next|]. rewrite last_or_snoc. exists entry. rewrite lookup_insert_ne, lookup_insert_eq by done.
      split_and!; [done|intros p [= <-]; done|done|done].
    + exists entry. cbn. by rewrite lookup_insert_ne, lookup_insert_eq.
    + intros h Hh. cbn. destruct (decide (h = a)) as [->|Hha]; [rewrite lookup_insert_eq, Ea; done|rewrite lookup_insert_ne by done; by apply Hrel].
Qed.

Lemma inserted_lookup L db hash r size db' h e' : inserted L db hash r size db' → h ≠ hash → dirties db' !! h = Some e' →
  ∃ e, dirties db !! h = Some e ∧ c_node e' = c_node e ∧ children e' = children e ∧ parents e' = parents e + occ h (forGatherChildren r).
Proof. intros (_ & _ & _ & HR) Hh E'. specialize (HR h Hh). rewrite E' in HR. destruct (dirties db !! h); [|done]. eauto. Qed.

Lemma inserted_refsum L db hash r size db' l c : inserted L db hash r size db' → hash ∉ l → refsum (dirties db') l c = refsum (dirties db) l c.
Proof.
  intros (_ & _ & _ & HR) Hl. apply refsum_ext. intros p Hp. unfold mult_at. specialize (HR p ltac:(by intros ->)).
  destruct (dirties db !! p), (dirties db' !! p); try done. destruct HR as (A1 & A2 & _). by apply set_forChilds.
Qed.

(** Nothing refers to a hash that is neither in memory nor on the disk. *)
Lemma unreferenced L S pend db c : core L S pend db → dirties db !! c = None → diskdb db !! c = None → refsum (dirties db) (zeroHash :: L) c = 0.
Proof.
  intros H Hc Hd. pose proof (k_shape _ _ _ _ _ _ H) as Sh. destruct (k_ordered _ _ _ _ _ _ H) as [O R].
  assert (Hz : ∀ p, p ∈ zeroHash :: L → mult_at (dirties db) c p = 0).
  { intros p Hp. unfold mult_at. destruct (dirties db !! p) as [e|] eqn:E; [|done]. pose proof (k_ext _ _ _ Sh _ _ E) as He.
    assert (c ∉ forChilds e) as Hno.
    { intros Hin. assert (is_Some (diskdb db !! c) ∨ c ∈ L) as [[? ?]|HcL]; [|congruence|destruct (of_list _ _ _ _ _ H HcL) as (? & ? & _); congruence].
      apply elem_of_cons in Hp as [->|Hp]; [by eapply R|]. apply list_elem_of_split in Hp as (l1 & l2 & EL). destruct (O l1 p l2 e c EL E Hin) as [?|Hl]; [by left|].
      right. rewrite EL. apply elem_of_app. by left. }
    rewrite (forChilds_pos p) in Hno by done. pose proof (mult_nonneg _ _ c He). lia. }
  revert Hz. generalize (zeroHash :: L). induction l as [|p l IH]; intros Hz; cbn [refsum]; [done|]. rewrite (Hz p), IH; [done| |by left]. intros q Hq. apply Hz. by right.
Qed.

Section Inserted.
Context (L : list bytes) (db : Database) (hash : bytes) (r : raw) (size : Z) (db' : Database).
Context (H : core L [] [] db) (Hn : dirties db !! hash = None) (INS : insertable L db hash r) (HI : inserted L db hash r size db').

Lemma inserted_back h e' : h ≠ hash → dirties db' !! h = Some e' →
  ∃ e, dirties db !! h = Some e ∧ c_node e' = c_node e ∧ children e' = children e ∧ parents e' = parents e + occ h (forGatherChildren r) ∧ forChilds e' = forChilds e.
Proof. intros Hh E'. destruct (inserted_lookup _ _ _ _ _ _ _ _ HI Hh E') as (e & E & A1 & A2 & A3). exists e. split_and!; try done. by apply set_forChilds. Qed.

Lemma inserted_fresh : hash ≠ zeroHash ∧ hash ∉ L.
Proof.
  pose proof (k_dom _ _ _ (k_shape _ _ _ _ _ _ H) hash) as Hd. rewrite Hn, app_nil_r, elem_of_cons in Hd.
  split; intros Hx; assert (is_Some (@None cachedNode)) as [? ?] by (apply Hd; auto); done.
Qed.

Lemma inserted_entry : ∃ e, dirties db' !! hash = Some e ∧ c_node e = r ∧ parents e = 0 ∧ forChilds e = forGatherChildren r ∧ ext_ok hash e.
Proof.
  destruct HI as (_ & _ & (e0 & E0 & N0 & C0 & P0) & _). exists e0. split_and!; [done|done|done|unfold forChilds; by rewrite C0, N0|]. intros m c x. by rewrite C0.
Qed.

Lemma insert_shape : shape (L ++ [hash]) [] db'.
Proof.
  destruct (k_shape _ _ _ _ _ _ H) as [D N Le Li (z & m & Ez & Hz1 & Hz2) X P]. pose proof HI as (_ & HL & _ & HR). destruct inserted_fresh as [Hz0 HnL].
  destruct inserted_entry as (e0 & E0 & N0 & P0 & F0 & X0). rewrite app_nil_r in *. split; rewrite ?app_nil_r; [| | |done| | |].
  - intros h. rewrite app_comm_cons, elem_of_app, list_elem_of_singleton. destruct (decide (h = hash)) as [->|Hh]; [rewrite E0; split; [by right|by eexists]|].
    specialize (HR h Hh). rewrite <- D. destruct (dirties db !! h), (dirties db' !! h); try done; [split; [left|]; by eexists|naive_solver].
  - rewrite app_comm_cons. apply NoDup_app. split_and!; [done| |apply NoDup_singleton]. intros x Hx ->%list_elem_of_singleton. rewrite elem_of_cons in Hx. tauto.
  - apply Forall_app. repeat constructor; [done|]. by destruct INS.
  - specialize (HR zeroHash ltac:(congruence)). rewrite Ez in HR. destruct (dirties db' !! zeroHash) as [z'|] eqn:Ez'; [|done].
    destruct HR as (A1 & A2 & _). exists z', m. by rewrite A1, A2.
  - intros h e' E'. destruct (decide (h = hash)) as [->|Hh]; [by simplify_eq|]. destruct (inserted_back h e' Hh E') as (e & E & A1 & A2 & A3 & A4).
    intros m' c x. rewrite A2. by apply (X h e E).
  - intros h e' E'. destruct (decide (h = hash)) as [->|Hh]; [simplify_eq; lia|]. destruct (inserted_back h e' Hh E') as (e & E & A1 & A2 & -> & A4). destruct (P h e E).
    pose proof (occ_nonneg h (forGatherChildren r)). split; [lia|]. by apply (in_room _ _ _ _ INS).
Qed.

Lemma insert_counted : counted (L ++ [hash]) [] db'.
Proof.
  intros c e' Hc E' Hd. pose proof HI as ((Q1 & _) & _). destruct inserted_fresh as [Hz0 HnL]. destruct inserted_entry as (e0 & E0 & N0 & P0 & F0 & X0).
  rewrite Q1 in Hd. rewrite app_comm_cons, refsum_app, (inserted_refsum _ _ _ _ _ _ _ _ HI) by (rewrite elem_of_cons; tauto). cbn [refsum occ].
  assert (Em : mult_at (dirties db') c hash = occ c (forGatherChildren r)) by (unfold mult_at; rewrite E0, <- (forChilds_occ hash), F0; done).
  rewrite Em. destruct (decide (c = hash)) as [->|Hh].
  - assert (e' = e0) as -> by congruence. pose proof (unreferenced L [] [] db hash H Hn Hd) as Hu. cbn [refsum] in Hu. rewrite P0. pose proof (occ_nonneg hash (forGatherChildren r)).
    destruct (decide (0 < occ hash (forGatherChildren r))) as [Hp|]; [|lia]. apply occ_pos, (in_refs _ _ _ _ INS) in Hp as [Hp _].
    apply (links_rank _ _ LAW) in Hp. lia.
  - destruct (inserted_back c e' Hh E') as (e & E & A1 & A2 & -> & A4). apply elem_of_app in Hc as [Hc| ->%list_elem_of_singleton]; [|done].
    pose proof (k_counted _ _ _ _ _ _ H c e Hc E Hd) as HC. cbn [occ refsum] in HC. lia.
Qed.

Lemma insert_ordered : ordered (L ++ [hash]) db'.
Proof.
  destruct (k_ordered _ _ _ _ _ _ H) as [O R]. pose proof HI as ((Q1 & _) & _). destruct inserted_fresh as [Hz0 HnL]. destruct inserted_entry as (e0 & E0 & N0 & P0 & F0 & X0).
  split; rewrite ?Q1.
  - intros l1 p l2 e' c EL E' Hc. destruct l2 as [|y l2 _] using rev_ind.
    + apply app_inj_tail in EL as [-> <-]. assert (e' = e0) as -> by congruence. rewrite F0 in Hc. by destruct (in_refs _ _ _ _ INS c Hc).
    + rewrite app_comm_cons, app_assoc in EL. apply app_inj_tail in EL as [EL _].
      destruct (inserted_back p e') as (e & E & A1 & A2 & A3 & A4); [intros ->; apply HnL; rewrite EL; apply elem_of_app; right; by left|done|].
      rewrite A4 in Hc. by eapply O.
  - intros e' c E' Hc. destruct (inserted_back zeroHash e') as (e & E & A1 & A2 & A3 & A4); [congruence|done|]. rewrite A4 in Hc.
    destruct (R e c E Hc); [by left|]. right. apply elem_of_app. by left.
Qed.

Lemma insert_right : right db'.
Proof.
  destruct (k_right _ _ _ _ _ _ H) as [K1 K2 K3 K4 K5]. pose proof HI as ((Q1 & Q2 & Q3) & _). destruct inserted_entry as (e0 & E0 & N0 & P0 & F0 & X0).
  split; rewrite ?Q1, ?Q2, ?Q3; [| |done|done|done].
  - intros h e' c Hh E' Hc. destruct (decide (h = hash)) as [->|Hhh]; [simplify_eq; rewrite F0 in Hc; by apply (in_refs _ _ _ _ INS)|].
    destruct (inserted_back h e' Hhh E') as (e & E & A1 & A2 & A3 & A4). rewrite A4 in Hc. by eapply K1.
  - intros h e' Hh E'. destruct (decide (h = hash)) as [->|Hhh].
    + assert (e' = e0) as -> by congruence. destruct (in_blob _ _ _ _ INS) as (b & Hb & ?). exists b. split; [|done]. rewrite <- Hb. by apply alike_rlp.
    + destruct (inserted_back h e' Hhh E') as (e & E & A1 & _). rewrite (alike_rlp _ _ A1). by eapply K2.
Qed.

Lemma insert_core : core (L ++ [hash]) [] [] db'.
Proof. split; [apply insert_shape|apply insert_counted|apply insert_ordered|apply insert_right]. Qed.
End Inserted.

(** ** References *)

Definition more_parents (e : cachedNode) : cachedNode := set_parents e (parents e + 1).
Definition more_ext (e : cachedNode) (c : bytes) : cachedNode := set_ext e c (ext e c + 1).

Lemma add_reference_run db c p ec ep :
  dirties db !! c = Some ec → dirties db !! p = Some ep → c ≠ p → 0 <= parents ec < 2 ^ 32 - 1 → 0 <= ext ep c < 2 ^ 16 - 1 →
  ∃ db', add_reference c p db = Ok db' tt ∧ dirties db' = <[p := more_ext ep c]> (<[c := more_parents ec]> (dirties db)) ∧
    oldest db' = oldest db ∧ newest db' = newest db ∧ quiet db db'.
Proof.
  intros Ec Ep Hcp Hpar Hext. unfold add_reference, bind, get_db. rewrite (update_entry_ok _ _ _ _ Ec), Z.mod_small by lia.
  rewrite (update_entry_ok _ p _ ep) by (cbn; by rewrite lookup_insert_ne). rewrite Z.mod_small by lia. cbn [dirties set_dirties]. rewrite lookup_insert_eq. cbn [some].
  destruct (decide _); eexists; (split; [done|]); by split_and!.
Qed.

Lemma reference_run db c p ec ep :
  dirties db !! c = Some ec → dirties db !! p = Some ep → c ≠ p → 0 <= parents ec < 2 ^ 32 - 1 → 0 <= ext ep c < 2 ^ 16 - 1 →
  (∀ m, children ep = Some m → ¬ (is_Some (m !! c) ∧ p ≠ zeroHash)) →
  ∃ db', reference c p db = Ok db' tt ∧ dirties db' = <[p := more_ext ep c]> (<[c := more_parents ec]> (dirties db)) ∧
    oldest db' = oldest db ∧ newest db' = newest db ∧ quiet db db'.
Proof.
  intros Ec Ep Hcp Hpar Hext Hdup. unfold reference, bind, get_db. rewrite Ec, Ep. cbn [some]. destruct (children ep) as [m|] eqn:Em.
  - rewrite decide_False by (by apply Hdup). by apply add_reference_run.
  - rewrite (update_entry_ok _ _ _ _ Ep). unfold modify at 1.
    assert (Ex : ext ep c = 0) by (unfold ext; by rewrite Em).
    destruct (add_reference_run (add_sizes (set_dirties db (<[p:=set_children ep (Some ∅)]> (dirties db))) 0 cachedNodeChildrenSize) c p ec (set_children ep (Some ∅)))
      as (db' & E & Ed & Eo & En & Q); cbn; [by rewrite lookup_insert_ne|by rewrite lookup_insert_eq|done|done|unfold ext; cbn; rewrite lookup_empty; cbn; lia|].
    exists db'. split_and!; [done| |done|done|done]. rewrite Ed. cbn. rewrite (insert_insert_ne _ c p), insert_insert_eq by done.
    f_equal. unfold more_ext, set_ext, ext. cbn. rewrite Em. cbn. by rewrite lookup_empty.
Qed.

Lemma more_ext_ext e c x : ext (more_ext e c) x = ext e x + (if decide (x = c) then 1 else 0).
Proof.
  unfold more_ext, set_ext, ext. cbn. case_decide as Hx; [subst; rewrite lookup_insert_eq; cbn; lia|]. rewrite lookup_insert_ne by done.
  destruct (children e) as [m|]; cbn; [lia|]. rewrite lookup_empty. cbn. lia.
Qed.

Lemma more_ext_ok h e c : ext_ok h e → (h ≠ zeroHash → ext e c = 0) → ext e c < 2 ^ 16 - 1 → ext_ok h (more_ext e c).
Proof.
  intros He Hz Hx m x y. cbn. intros [= <-]. destruct (decide (x = c)) as [->|Hn].
  - rewrite lookup_insert_eq. intros [= <-]. pose proof (ext_nonneg _ _ c He). split; [lia|]. intros Hh. rewrite Hz by done. done.
  - rewrite lookup_insert_ne by done. destruct (children e) as [m|] eqn:Em; [by apply He|]. cbn. by rewrite lookup_empty.
Qed.

Lemma more_ext_mult e c x : mult (more_ext e c) x = mult e x + (if decide (x = c) then 1 else 0).
Proof. unfold mult. rewrite more_ext_ext. cbn [more_ext set_ext c_node set_children]. lia. Qed.

(** A reference that may be added. *)
Record referable (L : list bytes) (db : Database) (c p : bytes) : Prop := {
  re_child : c ≠ zeroHash;
  re_parent : p = zeroHash ∨ p ∈ L;
  re_link : p ≠ zeroHash → c ∈ links p;
  re_order : ∀ l1 l2, L = l1 ++ p :: l2 → is_Some (diskdb db !! c) ∨ c ∈ l1;
  re_there : is_Some (diskdb db !! c) ∨ c ∈ L;
  re_room : ∀ e, dirties db !! c = Some e → parents e < 2 ^ 32 - 1;
  re_room' : ∀ e, dirties db !! p = Some e → ext e c < 2 ^ 16 - 1;
}.

(** References are added, and none is lost. *)
Definition grown (db db' : Database) : Prop :=
  ∀ h e', dirties db' !! h = Some e' → ∃ e, dirties db !! h = Some e ∧ c_node e' = c_node e ∧ ∀ x, x ∈ forChilds e → x ∈ forChilds e'.

Lemma grown_refl db : grown db db.
Proof. intros h e' E. eauto. Qed.

Lemma refsum_insert_in ds p e e' l x : NoDup l → p ∈ l → ds !! p = Some e → refsum (<[p := e']> ds) l x = refsum ds l x + (mult e' x - mult e x).
Proof.
  intros HN Hp E. apply list_elem_of_split in Hp as (l1 & l2 & ->). apply NoDup_app in HN as (_ & HN1 & [HN2 _]%NoDup_cons).
  rewrite !refsum_app. cbn [refsum]. rewrite !refsum_insert_out by (done || (intros Hin; apply (HN1 p Hin); by left)).
  unfold mult_at. rewrite lookup_insert_eq, E. lia.
Qed.

Lemma more_ext_childs h e c x : ext_ok h e → ext_ok h (more_ext e c) → x ∈ forChilds (more_ext e c) ↔ x = c ∨ x ∈ forChilds e.
Proof.
  intros He He'. rewrite !(forChilds_pos h), more_ext_mult by done. pose proof (mult_nonneg _ _ x He). case_decide; [split; [by left|lia]|]. split; [right; lia|intros [?|?]; [done|lia]].
Qed.

Section Referenced.
Context (L : list bytes) (db : Database) (c p : bytes) (ec ep : cachedNode) (db' : Database).
Context (H : core L [] [] db) (RE : referable L db c p) (Ec : dirties db !! c = Some ec) (Ep : dirties db !! p = Some ep) (Hcp : c ≠ p)
  (Hx : p ≠ zeroHash → ext ep c = 0) (Ed : dirties db' = <[p := more_ext ep c]> (<[c := more_parents ec]> (dirties db)))
  (Eo : oldest db' = oldest db) (En : newest db' = newest db) (Q : quiet db db').

Lemma referenced_ext : ext_ok p ep ∧ ext_ok p (more_ext ep c).
Proof.
  pose proof (k_ext _ _ _ (k_shape _ _ _ _ _ _ H) p ep Ep) as He. split; [done|]. apply more_ext_ok; [done|done|]. by apply (re_room' _ _ _ _ RE).
Qed.

(** The state with the count of the child raised. *)
Definition raised : Database := set_dirties db (<[c := more_parents ec]> (dirties db)).

Lemma raised_parent : dirties raised !! p = Some ep.
Proof. cbn. by rewrite lookup_insert_ne. Qed.

Lemma referenced_shape : shape L [] db'.
Proof.
  pose proof (k_shape _ _ _ _ _ _ H) as Sh. destruct referenced_ext as [He He']. pose proof (k_parents _ _ _ Sh p ep Ep).
  assert (Sh1 : shape L [] raised).
  { apply (shape_set L [] db raised c ec (more_parents ec)); try done; [intros E; by destruct (re_child _ _ _ _ RE)|exact (k_ext _ _ _ Sh c ec Ec)|]. cbn.
    pose proof (k_parents _ _ _ Sh c ec Ec). pose proof (re_room _ _ _ _ RE ec Ec). lia. }
  apply (shape_set L [] raised db' p ep (more_ext ep c)); try done; exact raised_parent.
Qed.

Lemma referenced_counted : counted L [] db'.
Proof.
  intros x ex' HxL Ex' Hd. destruct Q as (Q1 & _). rewrite Q1 in Hd. rewrite Ed in *. pose proof (k_shape _ _ _ _ _ _ H) as Sh.
  pose proof (k_nodup _ _ _ Sh) as HN. rewrite app_nil_r in HN. rewrite (refsum_insert_in _ p ep); [|done|destruct (re_parent _ _ _ _ RE); [subst; by left|by right]|exact raised_parent].
  rewrite (refsum_insert _ _ ec) by done. rewrite more_ext_mult. cbn [occ].
  destruct (decide (x = c)) as [->|Hxc].
  - rewrite lookup_insert_ne, lookup_insert_eq in Ex' by done. injection Ex' as <-. pose proof (k_counted _ _ _ _ _ _ H c ec HxL Ec Hd) as HC. cbn in HC |- *. lia.
  - assert (∃ ex, dirties db !! x = Some ex ∧ parents ex' = parents ex) as (ex & Ex & ->).
    { destruct (decide (x = p)) as [->|Hxp]; [rewrite lookup_insert_eq in Ex'; injection Ex' as <-; by exists ep|]. rewrite !lookup_insert_ne in Ex' by done. by exists ex'. }
    pose proof (k_counted _ _ _ _ _ _ H x ex HxL Ex Hd) as HC. cbn [occ] in HC. lia.
Qed.

Lemma referenced_back h e' : dirties db' !! h = Some e' → ∃ e, dirties db !! h = Some e ∧ c_node e' = c_node e ∧
  (∀ x, x ∈ forChilds e' ↔ (h = p ∧ x = c) ∨ x ∈ forChilds e).
Proof.
  destruct referenced_ext as [He He']. rewrite Ed. destruct (decide (h = p)) as [->|Hp].
  { rewrite lookup_insert_eq. intros [= <-]. exists ep. split_and!; [done|done|]. intros x. rewrite (more_ext_childs p) by done. naive_solver. }
  rewrite lookup_insert_ne by done. destruct (decide (h = c)) as [->|Hc]; [rewrite lookup_insert_eq; intros [= <-]|rewrite lookup_insert_ne by done; intros E].
  - exists ec. split_and!; [done|done|]. intros x. assert (forChilds (more_parents ec) = forChilds ec) as -> by done. naive_solver.
  - exists e'. split_and!; [done|done|]. naive_solver.
Qed.

Lemma referenced_core : core L [] [] db'.
Proof.
  destruct (k_ordered _ _ _ _ _ _ H) as [O R], (k_right _ _ _ _ _ _ H) as [K1 K2 K3 K4 K5], Q as (Q1 & Q2 & Q3).
  split; [apply referenced_shape|apply referenced_counted|split|split]; rewrite ?Q1, ?Q2, ?Q3; [| | | |done|done|done].
  - intros l1 q l2 e' x EL E'. destruct (referenced_back q e' E') as (e & E & _ & Hc). rewrite Hc. intros [[-> ->]|Hin]; [by apply (re_order _ _ _ _ RE l1 l2)|by eapply O].
  - intros z' x E'. destruct (referenced_back _ z' E') as (e & E & _ & Hc). rewrite Hc. intros [[_ ->]|Hin]; [apply (re_there _ _ _ _ RE)|by eapply R].
  - intros h e' x Hh E'. destruct (referenced_back _ e' E') as (e & E & _ & Hc). rewrite Hc. intros [[-> ->]|Hin]; [by apply (re_link _ _ _ _ RE)|by eapply K1].
  - intros h e' Hh E'. destruct (referenced_back _ e' E') as (e & E & A1 & _). rewrite (alike_rlp _ _ A1). by eapply K2.
Qed.
End Referenced.

Lemma reference_ok L db c p : core L [] [] db → referable L db c p →
  ∃ db', reference c p db = Ok db' tt ∧ core L [] [] db' ∧ quiet db db' ∧ grown db db' ∧
    (∀ e', dirties db' !! p = Some e' → c ∈ forChilds e' ∨ is_Some (diskdb db !! c)) ∧
    ∀ h e', dirties db' !! h = Some e' → ∃ e, dirties db !! h = Some e ∧ parents e' <= parents e + 1 ∧ ∀ x, x ≠ c → ext e' x = ext e x.
Proof.
  intros H RE. pose proof (k_shape _ _ _ _ _ _ H) as Sh. destruct (dirties db !! c) as [ec|] eqn:Ec.
  2: { exists db. unfold reference, bind, get_db. rewrite Ec. split_and!; [done|done|done|apply grown_refl| |intros h e' E'; exists e'; split_and!; [done|lia|done]].
       intros e' E'. right. destruct (re_there _ _ _ _ RE) as [?|HcL]; [done|]. destruct (of_list _ _ _ _ _ H HcL) as (? & ? & _). congruence. }
  assert (is_Some (dirties db !! p)) as [ep Ep].
  { apply (k_dom _ _ _ Sh). rewrite app_nil_r, elem_of_cons. apply (re_parent _ _ _ _ RE). }
  assert (Hcp : c ≠ p).
  { intros ->. destruct (re_parent _ _ _ _ RE) as [->|Hp]; [by apply (re_child _ _ _ _ RE)|]. destruct (of_list _ _ _ _ _ H Hp) as (_ & _ & Hz & _).
    pose proof (links_rank _ _ LAW _ _ (re_link _ _ _ _ RE Hz)). lia. }
  pose proof (k_ext _ _ _ Sh p ep Ep) as He. destruct (decide (p ≠ zeroHash ∧ 0 < ext ep c)) as [[Hz Hpos]|Hno].
  - exists db. assert (is_Some (m ← children ep; m !! c)) as [x Hm].
    { unfold ext in Hpos. destruct (children ep) as [m|]; [|lia]. cbn. destruct (m !! c); [by eexists|cbn in Hpos; lia]. }
    destruct (children ep) as [m|] eqn:Em; [|done]. cbn in Hm. split_and!; [|done|done|apply grown_refl| |intros h e' E'; exists e'; split_and!; [done|lia|done]].
    + unfold reference, bind, get_db. rewrite Ec, Ep. cbn [some]. rewrite Em, decide_True; [done|]. split; [by eexists|done].
    + intros e' E'. left. simplify_eq. rewrite forChilds_eq, elem_of_app. left. by apply (kids_pos p).
  - pose proof (ext_nonneg _ _ c He) as Hnn. assert (Hx : p ≠ zeroHash → ext ep c = 0) by (intros Hz; destruct (decide (0 < ext ep c)); [by destruct Hno|lia]).
    destruct (reference_run db c p ec ep Ec Ep Hcp) as (db' & E & Ed & Eo & En & Q).
    { pose proof (k_parents _ _ _ Sh c ec Ec). pose proof (re_room _ _ _ _ RE ec Ec). lia. }
    { pose proof (re_room' _ _ _ _ RE ep Ep). lia. }
    { intros m Em [[x Hm] Hz]. specialize (Hx Hz). unfold ext in Hx. rewrite Em, Hm in Hx. cbn in Hx. destruct (He m c x Em Hm). lia. }
    exists db'. pose proof (referenced_back L db c p ec ep db' H RE Ec Ep Hx Ed) as HB. split_and!; [done|by eapply referenced_core|done| | |].
    + intros h e' E'. destruct (HB h e' E') as (e & E0 & A1 & A2). exists e. split_and!; [done|done|]. intros x Hin. apply A2. by right.
    + intros e' E'. left. destruct (HB p e' E') as (e & E0 & A1 & A2). apply A2. by left.
    + intros h e'. rewrite Ed. destruct (decide (h = p)) as [->|Hp].
      { rewrite lookup_insert_eq. intros [= <-]. exists ep. split_and!; [done|cbn; lia|]. intros x Hxc. rewrite more_ext_ext, decide_False by done. lia. }
      rewrite lookup_insert_ne by done. destruct (decide (h = c)) as [->|Hc]; [rewrite lookup_insert_eq; intros [= <-]; exists ec; split_and!; [done|cbn; lia|done]|].
      rewrite lookup_insert_ne by done. intros E'. exists e'. split_and!; [done|lia|done].
Qed.

Lemma grown_trans db1 db2 db3 : grown db1 db2 → grown db2 db3 → grown db1 db3.
Proof.
  intros H1 H2 h e3 E3. destruct (H2 h e3 E3) as (e2 & E2 & A1 & A2), (H1 h e2 E2) as (e1 & E1 & B1 & B2). exists e1. split_and!; [done|congruence|auto].
Qed.

Lemma ext_small L db h e c : core L [] [] db → h ≠ zeroHash → dirties db !! h = Some e → 0 <= ext e c <= 1.
Proof.
  intros H Hz E. pose proof (k_ext _ _ _ (k_shape _ _ _ _ _ _ H) h e E) as He. split; [by eapply ext_nonneg|]. unfold ext. destruct (children e) as [m|] eqn:Em; [|done].
  destruct (m !! c) as [x|] eqn:Ex; cbn; [|done]. by destruct (He _ _ _ Em Ex) as [_ ->].
Qed.

(** The references of a node to other tries. *)
Lemma each_reference L hash exts : hash ∈ L → ∀ db, core L [] [] db →
  (∀ c, c ∈ exts → c ∈ links hash ∧ ∀ l1 l2, L = l1 ++ hash :: l2 → is_Some (diskdb db !! c) ∨ c ∈ l1) →
  (∀ h e, dirties db !! h = Some e → parents e + Z.of_nat (length exts) < 2 ^ 32) →
  ∃ db', each (λ c, reference c hash) exts db = Ok db' tt ∧ core L [] [] db' ∧ quiet db db' ∧ grown db db' ∧
    ∀ c e', c ∈ exts → dirties db' !! hash = Some e' → c ∈ forChilds e' ∨ is_Some (diskdb db !! c).
Proof.
  intros HhL. induction exts as [|c exts IH]; intros db H Hr Hroom.
  - exists db. split_and!; [done|done|done|apply grown_refl|]. by intros c e' ?%not_elem_of_nil.
  - cbn [each]. unfold bind. destruct (of_list _ _ _ _ _ H HhL) as (eh & Eh & Hz & _). destruct (Hr c ltac:(by left)) as [Hl Ho].
    assert (RE : referable L db c hash).
    { split; [intros ->; by apply (links_zero _ _ LAW hash)|by right|done|done| | |].
      - destruct (list_elem_of_split _ _ HhL) as (l1 & l2 & EL). destruct (Ho l1 l2 EL); [by left|]. right. rewrite EL. apply elem_of_app. by left.
      - intros e E. specialize (Hroom c e E). cbn [length] in Hroom. lia.
      - intros e E. pose proof (ext_small L db hash e c H Hz E). lia. }
    destruct (reference_ok L db c hash H RE) as (db1 & -> & H1 & (Q1 & Q2 & Q3) & G1 & F1 & P1).
    destruct (IH db1 H1) as (db' & -> & H' & Q' & G' & F').
    { intros x Hx. rewrite Q1. apply Hr. by right. }
    { intros h e1 E1. destruct (P1 h e1 E1) as (e & E & Hp & _). specialize (Hroom h e E). cbn [length] in Hroom. lia. }
    exists db'. split_and!; [done|done|by eapply quiet_trans|by eapply grown_trans|].
    intros x e' [->|Hx]%elem_of_cons E'; [|rewrite <- Q1; by apply F'].
    destruct (G' hash e' E') as (e1 & E1 & _ & A2). destruct (F1 e1 E1); [left; by apply A2|by right].
Qed.

(** A node with references to other tries that may be stored. *)
Record storable (L : list bytes) (db : Database) (hash : bytes) (n : node + bytes) (exts : list bytes) : Prop := {
  st_ins : ∃ r, simplify n = Some r ∧ insertable L db hash r ∧ ∀ c, c ∈ links hash → c ∈ forGatherChildren r ∨ c ∈ exts;
  st_exts : ∀ c, c ∈ exts → c ∈ links hash ∧ (is_Some (diskdb db !! c) ∨ c ∈ L);
  st_room : ∀ h e, dirties db !! h = Some e → parents e + Z.of_nat (length exts) + Z.of_nat (length (default [] (forGatherChildren <$> simplify n))) < 2 ^ 32;
}.

Definition store_node (hash : bytes) (size : Z) (n : node + bytes) (exts : list bytes) : M unit :=
  bind (insert hash size n) (λ _, each (λ c, reference c hash) exts).

Lemma occ_length c l : occ c l <= Z.of_nat (length l).
Proof. induction l as [|x l IH]; cbn [occ length]; [done|]. case_decide; lia. Qed.

Lemma split_last (L l1 l2 : list bytes) h : NoDup (L ++ [h]) → L ++ [h] = l1 ++ h :: l2 → l1 = L.
Proof.
  intros HN E. destruct l2 as [|y l2 _] using rev_ind; [by apply app_inj_tail in E as [-> _]|]. exfalso.
  rewrite app_comm_cons, app_assoc in E. rewrite E in HN. apply app_inj_tail in E as [_ <-]. apply NoDup_app in HN as (_ & HN & _). apply (HN h); [|by left].
  apply elem_of_app. right. by left.
Qed.

Lemma insert_ok L db hash size n exts : core L [] [] db → full L db → storable L db hash n exts →
  ∃ db' L', insert hash size n db = Ok db' tt ∧ core L' [] [] db' ∧ quiet db db' ∧ hash ∈ L' ∧ (L' = L ∨ L' = L ++ [hash]) ∧
    (∀ c, c ∈ exts → ∀ l1 l2, L' = l1 ++ hash :: l2 → is_Some (diskdb db !! c) ∨ c ∈ l1) ∧
    (∀ h e', dirties db' !! h = Some e' → parents e' + Z.of_nat (length exts) < 2 ^ 32) ∧
    (∀ h e' c, h ∈ L' → dirties db' !! h = Some e' → c ∈ links h → c ∈ forChilds e' ∨ is_Some (diskdb db !! c) ∨ (h = hash ∧ c ∈ exts)).
Proof.
  intros H HF [(r & Er & INS & Hlinks) Hex Hroom]. rewrite Er in Hroom. cbn [default fmap option_fmap option_map from_option id] in Hroom.
  destruct (dirties db !! hash) as [e|] eqn:E.
  - assert (HhL : hash ∈ L) by (destruct (in_dirties _ _ _ _ _ _ H E) as [->|[?|?%not_elem_of_nil]]; [by destruct (in_zero _ _ _ _ INS)|done|done]).
    exists db, L. split_and!; [|done|done|done|by left| | |].
    + unfold insert, bind, get_db. rewrite decide_True; [done|]. rewrite E. by eexists.
    + intros c Hc l1 l2 EL. destruct (Hex c Hc) as [Hl _]. destruct (HF hash e c HhL E Hl) as [Hin|?]; [|by left]. by eapply (k_order _ _ (k_ordered _ _ _ _ _ _ H)).
    + intros h e' E'. specialize (Hroom h e' E'). lia.
    + intros h e' c Hh E' Hl. destruct (HF h e' c Hh E' Hl); auto.
  - destruct (insert_run L db hash size n r H E Er INS) as (db' & -> & HI). exists db', (L ++ [hash]).
    pose proof (insert_core L db hash r size db' H E INS HI) as H'. pose proof HI as (Q & _). destruct (inserted_entry L db hash r size db' HI) as (e0 & E0 & _ & P0 & F0 & _).
    split_and!; [done|done|done|apply elem_of_app; right; by left|by right| | |].
    + intros c Hc l1 l2 EL. apply split_last in EL as ->; [|by eapply list_nodup]. by apply Hex.
    + intros h e' E'. destruct (decide (h = hash)) as [->|Hh].
      * assert (e' = e0) as -> by congruence. destruct (k_meta _ _ _ (k_shape _ _ _ _ _ _ H)) as (z & m & Ez & _). specialize (Hroom _ _ Ez).
        pose proof (k_parents _ _ _ (k_shape _ _ _ _ _ _ H) _ _ Ez). lia.
      * destruct (inserted_back L db hash r size db' HI h e' Hh E') as (e & Ee & _ & _ & -> & _). specialize (Hroom h e Ee). pose proof (occ_length h (forGatherChildren r)). lia.
    + intros h e' c Hh E' Hl. destruct (decide (h = hash)) as [->|Hhh].
      * assert (e' = e0) as -> by congruence. rewrite F0. destruct (Hlinks c Hl); auto.
      * destruct (inserted_back L db hash r size db' HI h e' Hhh E') as (e & Ee & _ & _ & _ & ->). apply elem_of_app in Hh as [Hh| ->%list_elem_of_singleton]; [|done].
        destruct (HF h e c Hh Ee Hl); auto.
Qed.

Lemma store_node_ok L db hash size n exts : core L [] [] db → full L db → storable L db hash n exts →
  ∃ db' L', store_node hash size n exts db = Ok db' tt ∧ core L' [] [] db' ∧ full L' db' ∧ quiet db db' ∧ hash ∈ L' ∧ (L' = L ∨ L' = L ++ [hash]).
Proof.
  intros H HF HS. destruct (insert_ok L db hash size n exts H HF HS) as (db1 & L1 & E1 & H1 & Q1 & Hh & HL & Ho & Hroom & Hful).
  pose proof (st_exts _ _ _ _ _ HS) as Hex. unfold store_node, bind. rewrite E1. pose proof Q1 as (Qd & _).
  destruct (each_reference L1 hash exts Hh db1 H1) as (db' & -> & H' & Q' & G' & F').
  { intros c Hc. rewrite Qd. split; [by apply Hex|by apply Ho]. }
  { done. }
  exists db', L1. split_and!; [done|done| |by eapply quiet_trans|done|done].
  intros h e' c HhL E' Hl. destruct Q' as (Q' & _). rewrite Q', Qd. destruct (G' h e' E') as (e1 & Ee1 & _ & A2).
  destruct (Hful h e1 c HhL Ee1 Hl) as [Hin|[?|[-> Hce]]]; [left; by apply A2|by right|]. rewrite <- Qd. by apply F'.
Qed.

End Ops.
End TrieDbOps.
