(* ===== verification/TrieDbFlush.v ===== *)
(** * TrieDbFlush: Cap and Commit write closed sets of nodes

    Batches are closed together with the disk, so each write keeps the disk
    closed; entries leave the memory only once they are on the disk. *)

From stdpp Require Import base gmap list.
From Stdlib Require Import ZArith Lia.
From S2P Require Import Prelude Rlp Trie TrieHash TrieDb TrieDbGc TrieDbOps.

Local Open Scope Z_scope.

Module TrieDbFlush.
Import Trie TrieHash TrieDb TrieDbProofs TrieDbGc TrieDbOps.

Section Flush.
Context `{ENV : Environment}.
Context (content : bytes → option bytes) (links : bytes → list bytes) (rank : bytes → nat) (LAW : lawful links rank).

Abbreviation core := (core content links).
Abbreviation full := (full links).
Abbreviation right := (right content links).

(** ** Writing batches *)

Lemma write_all_out b : ∀ d k, k ∉ b.*1 → write_all d b !! k = d !! k.
Proof.
  induction b as [|[k' v] b IH]; intros d k Hk; [done|]. cbn in *. rewrite elem_of_cons in Hk. change (foldl _ ?d b) with (write_all d b). rewrite IH by tauto.
  apply lookup_insert_ne. naive_solver.
Qed.

Lemma write_all_in b : ∀ d k, k ∈ b.*1 → ∃ v, (k, v) ∈ b ∧ write_all d b !! k = Some v.
Proof.
  induction b as [|[k' v] b IH]; intros d k Hk; [by apply not_elem_of_nil in Hk|]. cbn in *. change (foldl _ ?d b) with (write_all d b).
  destruct (decide (k ∈ b.*1)) as [Hin|Hout]; [destruct (IH (<[k' := v]> d) k Hin) as (w & ? & ?); exists w; split; [by right|done]|].
  apply elem_of_cons in Hk as [->|?]; [|done]. exists v. split; [by left|]. rewrite write_all_out by done. apply lookup_insert_eq.
Qed.

(** Nodes of the batch have their content, and refer to the disk or the batch. *)
Definition sound_batch (d : gmap bytes bytes) (b : batch) : Prop :=
  ∀ k v, (k, v) ∈ b → length k = 32%nat → content k = Some v ∧ ∀ c, c ∈ links k → is_Some (d !! c) ∨ c ∈ b.*1.

Lemma sound_nil d : sound_batch d [].
Proof. by intros k v ?%not_elem_of_nil. Qed.

Lemma sound_other d b k v : sound_batch d b → length k ≠ 32%nat → sound_batch d (b ++ [(k, v)]).
Proof.
  intros Hb Hk k' v'. rewrite elem_of_app, list_elem_of_singleton. intros [Hin|[= -> ->]] Hl; [|done]. destruct (Hb k' v' Hin Hl) as [? Hc]. split; [done|].
  intros c Hlc. destruct (Hc c Hlc); [by left|]. right. rewrite fmap_app. apply elem_of_app. by left.
Qed.

Lemma sound_node d b k v : sound_batch d b → content k = Some v → (∀ c, c ∈ links k → is_Some (d !! c) ∨ c ∈ b.*1) → sound_batch d (b ++ [(k, v)]).
Proof.
  intros Hb Hk Hc k' v'. rewrite elem_of_app, list_elem_of_singleton, fmap_app. intros [Hin|[= -> ->]] Hl.
  - destruct (Hb k' v' Hin Hl) as [? Hc']. split; [done|]. intros c Hlc. rewrite elem_of_app. destruct (Hc' c Hlc); auto.
  - split; [done|]. intros c Hlc. rewrite elem_of_app. destruct (Hc c Hlc); auto.
Qed.

(** The states before and after a write: only the disk changes, and it grows. *)
Definition written (db db' : Database) : Prop :=
  dirties db' = dirties db ∧ cleans db' = cleans db ∧ preimages db' = preimages db ∧ oldest db' = oldest db ∧ newest db' = newest db ∧
  preimagesSize db' = preimagesSize db ∧ ∀ h, is_Some (diskdb db !! h) → is_Some (diskdb db' !! h).

Lemma written_refl db : written db db.
Proof. by split_and!. Qed.

Lemma written_trans db1 db2 db3 : written db1 db2 → written db2 db3 → written db1 db3.
Proof. unfold written. intros (A1&A2&A3&A4&A5&A6&HA) (B1&B2&B3&B4&B5&B6&HB). split_and!; try congruence. auto. Qed.

Lemma write_all_mono d b h : is_Some (d !! h) → is_Some (write_all d b !! h).
Proof.
  intros H. destruct (decide (h ∈ b.*1)) as [Hin|Hout]; [destruct (write_all_in b d h Hin) as (v & _ & ->); by eexists|by rewrite write_all_out].
Qed.

Lemma write_core L db b : core L [] [] db → sound_batch (diskdb db) b → core L [] [] (set_disk db (write_all (diskdb db) b)).
Proof.
  intros [Sh C [O R] [K1 K2 K3 K4 K5]] Hb. pose proof (write_all_mono (diskdb db) b) as HM. split; [by destruct Sh; split| |split|split]; cbn [diskdb set_disk dirties cleans preimages]; try done.
  - intros c e Hc E Hd. apply C; [done|done|]. destruct (diskdb db !! c) eqn:Ed; [|done]. destruct (HM c) as [? Hs]; [by eexists|]. cbn in Hd. congruence.
  - intros l1 p l2 e c EL E Hc. destruct (O l1 p l2 e c EL E Hc); auto.
  - intros z c E Hc. destruct (R z c E Hc); auto.
  - intros h v Hl Hv. destruct (decide (h ∈ b.*1)) as [Hin|Hout].
    + destruct (write_all_in b (diskdb db) h Hin) as (w & Hw & Ew). rewrite Ew in Hv. injection Hv as <-. destruct (Hb h w Hw Hl) as [Hc Hlk]. split; [done|].
      intros c Hcl. destruct (Hlk c Hcl) as [?|Hcb]; [auto|]. destruct (write_all_in b (diskdb db) c Hcb) as (? & _ & ->). by eexists.
    + rewrite write_all_out in Hv by done. destruct (K3 h v Hl Hv) as [? Hlk]. split; [done|]. intros c Hcl. auto.
  - intros ca h v Eca Hg. destruct (K4 ca h v Eca Hg) as [Hl Hd]. split; [done|]. destruct (decide (h ∈ b.*1)) as [Hin|Hout]; [|by rewrite write_all_out].
    destruct (write_all_in b (diskdb db) h Hin) as (w & Hw & ->). destruct (Hb h w Hw Hl) as [Hc _]. destruct (K3 h v Hl Hd) as [Hc' _]. congruence.
Qed.

Lemma full_written L db db' : full L db → written db db' → full L db'.
Proof. intros HF (E1 & _ & _ & _ & _ & _ & HM) h e c Hh. rewrite E1. intros E Hl. destruct (HF h e c Hh E Hl); auto. Qed.

(** Between operations: the invariant with some flush-list. *)
Definition inv (db : Database) : Prop := ∃ L, core L [] [] db ∧ full L db.

(** Either the write fails and the state is as before, or the batch is on the
    disk. *)
Lemma Write_ok L db b : core L [] [] db → full L db → sound_batch (diskdb db) b →
  Write b db = Fail db WriteFailed ∨
  ∃ db', Write b db = Ok db' tt ∧ core L [] [] db' ∧ full L db' ∧ written db db' ∧
    (∀ k, k ∈ b.*1 → is_Some (diskdb db' !! k)) ∧ ∀ k v, (k, v) ∈ b → length k = 32%nat → diskdb db' !! k = Some v.
Proof.
  intros H HF Hb. unfold Write. destruct (write_fails (diskdb db) b); [by left|]. right. eexists. split; [done|]. pose proof (write_core L db b H Hb) as H'.
  assert (HW : written db (set_disk db (write_all (diskdb db) b))) by (split_and!; try done; intros h; apply write_all_mono).
  split_and!; [done|by eapply full_written|done| |].
  - intros k Hk. destruct (write_all_in b (diskdb db) k Hk) as (v & _ & Ev). cbn. rewrite Ev. by eexists.
  - intros k v Hk Hl. destruct (write_all_in b (diskdb db) k) as (w & Hw & Ew); [apply list_elem_of_fmap; by exists (k, v)|]. cbn. rewrite Ew. f_equal.
    destruct (Hb k v Hk Hl) as [H1 _], (Hb k w Hw Hl) as [H2 _]. congruence.
Qed.

(** ** Preimages *)

Lemma secureKey_length k : length k = 32%nat → length (secureKey k) ≠ 32%nat.
Proof. unfold secureKey. rewrite length_app. intros ->. cbn. lia. Qed.

Lemma put_preimages_ok L l : Forall (λ p, length p.1 = 32%nat) l → ∀ b db, core L [] [] db → full L db → sound_batch (diskdb db) b →
  (∃ db', put_preimages l b db = Fail db' WriteFailed ∧ inv db') ∨
  ∃ db' b', put_preimages l b db = Ok db' b' ∧ core L [] [] db' ∧ full L db' ∧ sound_batch (diskdb db') b' ∧ written db db'.
Proof.
  induction 1 as [|[k v] l Hk Hl IH]; intros b db H HF Hb; cbn [put_preimages].
  - right. exists db, b. split_and!; [done|done|done|done|apply written_refl].
  - pose proof (sound_other _ _ (secureKey k) v Hb (secureKey_length k Hk)) as Hb'. destruct (_ <? _); [|by apply IH]. unfold bind.
    destruct (Write_ok L db _ H HF Hb') as [->|(db1 & -> & H1 & HF1 & W1 & _)]; [left; exists db; split; [done|by exists L]|].
    destruct (IH [] db1 H1 HF1 (sound_nil _)) as [?|(db' & b' & ? & ? & ? & ? & ?)]; [by left|]. right. exists db', b'. split_and!; try done. by eapply written_trans.
Qed.

Lemma preimages_len db : right db → Forall (λ p, length p.1 = 32%nat) (range (preimages db)).
Proof.
  intros [_ _ _ _ K5]. rewrite Forall_forall. intros [h p]. rewrite range_perm, elem_of_map_to_list. apply K5.
Qed.

(** ** Uncaching *)

Lemma core_weaken_all L S p q db : core L S (p ++ q) db → core L S q db.
Proof. induction p as [|x p IH]; [done|]. intros H. apply IH. by eapply core_weaken. Qed.

(** A node on the disk leaves the list and the memory. *)
Lemma uncache_ok l1 c l2 db db1 : core (l1 ++ c :: l2) [] [] db → full (l1 ++ c :: l2) db → is_Some (diskdb db !! c) →
  linked (l1 ++ l2) db1 → all_alike (dirties db) (dirties db1) → quiet db db1 →
  let db' := set_dirties db1 (delete c (dirties db1)) in core (l1 ++ l2) [] [] db' ∧ full (l1 ++ l2) db'.
Proof.
  intros H HF Hd HL HA Q. assert (Hc : c ∈ l1 ++ c :: l2) by (apply elem_of_app; right; by left). destruct (of_list _ _ _ _ _ _ _ H Hc) as (e & E & _).
  assert (H1 : core (l1 ++ l2) [c] (forChilds e ++ []) db1) by (eapply collect_ok; eauto). apply core_weaken_all in H1. split; [by apply core_delete|].
  intros h e' x Hh. cbn. intros [_ E']%lookup_delete_Some Hl. destruct (all_alike_back _ _ _ _ HA E') as (e0 & E0 & A). rewrite (alike_forChilds _ _ A).
  destruct Q as (-> & _). apply (HF h e0); [|done|done]. rewrite elem_of_app, elem_of_cons in *. tauto.
Qed.

Lemma core_clean L db ca k v : core L [] [] db → length k = 32%nat → diskdb db !! k = Some v → cleans db = Some ca → core L [] [] (set_cleans db (Some (cache_set ca k v))).
Proof.
  intros [Sh C O [K1 K2 K3 K4 K5]] Hl Hd Eca. split; [by destruct Sh; split|done|by destruct O; split|]. split; cbn [diskdb set_cleans dirties cleans preimages]; try done.
  intros ca' h b [= <-] [[-> ->]|Hg]%cache_set_get; [done|by eapply K4].
Qed.

(** Reading into the cache of clean nodes. *)
Definition warmed (db db' : Database) : Prop := ∃ x, db' = set_cleans db x.

Lemma clean_set_ok L db k v : core L [] [] db → full L db → length k = 32%nat → diskdb db !! k = Some v →
  ∃ db', clean_set k v db = Ok db' tt ∧ core L [] [] db' ∧ full L db' ∧ warmed db db'.
Proof.
  intros H HF Hl Hd. unfold clean_set, modify. destruct (cleans db) as [ca|] eqn:Eca; eexists; (split; [done|]); split_and!; [by apply core_clean|done|by eexists|done|done|].
  exists (cleans db). by destruct db.
Qed.

Lemma BytesToHash_id k : length k = 32%nat → BytesToHash k = k.
Proof. intros Hk. unfold BytesToHash. rewrite Hk. done. Qed.

(** What leaving the memory keeps: the disk, and every node of the list that
    is not on it. *)
Definition flushed (L L' : list bytes) (db db' : Database) : Prop :=
  diskdb db' = diskdb db ∧ preimages db' = preimages db ∧ L' `sublist_of` L ∧ ∀ h, h ∈ L → h ∈ L' ∨ is_Some (diskdb db' !! h).

Lemma cleaner_Put_ok L db k v : core L [] [] db → full L db → length k = 32%nat → k ≠ zeroHash → diskdb db !! k = Some v →
  ∃ db' L', cleaner_Put k v db = Ok db' tt ∧ core L' [] [] db' ∧ full L' db' ∧ flushed L L' db db'.
Proof.
  intros H HF Hl Hz Hd. unfold cleaner_Put, bind, get_db. rewrite (BytesToHash_id k Hl). destruct (dirties db !! k) as [e|] eqn:E.
  2: { exists db, L. split_and!; [done|done|done|]. split_and!; [done|done|done|by left]. }
  destruct (in_dirties _ _ _ _ _ _ _ _ H E) as [?|[HkL|?%not_elem_of_nil]]; [done| |done]. apply list_elem_of_split in HkL as (l1 & l2 & ->). pose proof (k_shape _ _ _ _ _ _ H) as Sh.
  destruct (unlink_ok db l1 k l2 e) as (db1 & -> & L1 & A1 & Q1); [exact (k_linked _ _ _ Sh)|pose proof (k_nodup _ _ _ Sh) as HN; by rewrite app_nil_r in HN| |done|].
  { destruct (k_meta _ _ _ Sh) as (z & m & Ez & _). by eexists. }
  destruct (uncache_ok l1 k l2 db db1 H HF ltac:(by eexists) L1 A1 Q1) as [H2 HF2]. cbv zeta in H2, HF2. unfold modify. destruct Q1 as (Q1 & Q2 & Q3).
  match goal with |- ∃ db' L', clean_set k v ?d = _ ∧ _ => set (db2 := d) end.
  assert (H3 : core (l1 ++ l2) [] [] db2) by (do 2 apply core_resize; exact H2).
  destruct (clean_set_ok (l1 ++ l2) db2 k v H3) as (db' & -> & H' & HF' & (x & ->)); [exact HF2|done|cbn; congruence|].
  exists (set_cleans db2 x), (l1 ++ l2). split_and!; [done|done|done|]. split_and!; [done|done|by apply sublist_app, sublist_cons|].
  intros h Hh. cbn. rewrite Q1. destruct (decide (h = k)) as [->|Hn]; [right; by eexists|]. left. rewrite elem_of_app, elem_of_cons in *. tauto.
Qed.

Lemma flushed_refl L db : flushed L L db db.
Proof. split_and!; [done|done|done|by left]. Qed.

Lemma flushed_trans L1 L2 L3 db1 db2 db3 : flushed L1 L2 db1 db2 → flushed L2 L3 db2 db3 → flushed L1 L3 db1 db3.
Proof.
  intros (D1 & P1 & S1 & F1) (D2 & P2 & S2 & F2). split_and!; [congruence|congruence|by etrans|]. intros h Hh. rewrite D2 in *. destruct (F1 h Hh) as [Hh2|?]; [|by right]. by apply F2.
Qed.

Lemma Replay_ok b : ∀ L db, core L [] [] db → full L db → (∀ k v, (k, v) ∈ b → length k = 32%nat ∧ k ≠ zeroHash ∧ diskdb db !! k = Some v) →
  ∃ db' L', Replay b db = Ok db' tt ∧ core L' [] [] db' ∧ full L' db' ∧ flushed L L' db db'.
Proof.
  unfold Replay. induction b as [|[k v] b IH]; intros L db H HF Hb; cbn [each].
  - exists db, L. split_and!; [done|done|done|apply flushed_refl].
  - destruct (Hb k v ltac:(by left)) as (H1 & H2 & H3). unfold bind. destruct (cleaner_Put_ok L db k v H HF H1 H2 H3) as (db1 & L1 & -> & C1 & F1 & Fl1).
    pose proof Fl1 as (D1 & _). destruct (IH L1 db1 C1 F1) as (db' & L' & -> & C' & F' & Fl'); [intros k' v' Hin; rewrite D1; apply Hb; by right|].
    exists db', L'. split_and!; [done|done|done|by eapply flushed_trans].
Qed.

(** ** Commit *)

Definition reached (db : Database) (b : batch) (h : bytes) : Prop := is_Some (diskdb db !! h) ∨ h ∈ b.*1.

(** Every key of the batch is a node. *)
Definition nodes_only (b : batch) : Prop := ∀ k v, (k, v) ∈ b → length k = 32%nat ∧ k ≠ zeroHash.

(** Nodes get to the batch and the disk, and do not get lost. *)
Record progress (L L' : list bytes) (b b' : batch) (db db' : Database) : Prop := {
  p_sub : L' `sublist_of` L;
  p_list : ∀ h, h ∈ L → h ∈ L' ∨ is_Some (diskdb db' !! h);
  p_reached : ∀ h, reached db b h → reached db' b' h;
  p_disk : ∀ h, is_Some (diskdb db !! h) → is_Some (diskdb db' !! h);
}.

Lemma progress_refl L b db : progress L L b b db db.
Proof. split; [done|by left|done|done]. Qed.

Lemma progress_trans L1 L2 L3 b1 b2 b3 db1 db2 db3 : progress L1 L2 b1 b2 db1 db2 → progress L2 L3 b2 b3 db2 db3 → progress L1 L3 b1 b3 db1 db3.
Proof.
  intros [A1 A2 A3 A4] [B1 B2 B3 B4]. split; [by etrans| |auto|auto]. intros h Hh. destruct (A2 h Hh) as [?|?]; auto.
Qed.

(** The nodes that can be below [h]. *)
Definition below (h : bytes) (L : list bytes) : nat := length (filter (λ x, (rank x <= rank h)%nat) L).

Lemma below_sub h L L' : L' `sublist_of` L → (below h L' <= below h L)%nat.
Proof.
  unfold below. induction 1 as [|x l l' Hl IH|x l l' Hl IH]; [done|rewrite !filter_cons; case_decide; cbn; lia|rewrite filter_cons; case_decide; cbn; lia].
Qed.

Lemma below_child h c L : h ∈ L → (rank c < rank h)%nat → (below c L < below h L)%nat.
Proof.
  unfold below. intros Hh Hr. induction L as [|x L IH]; [by apply not_elem_of_nil in Hh|]. rewrite !filter_cons.
  assert (HL : (length (filter (λ x, (rank x <= rank c)%nat) L) <= length (filter (λ x, (rank x <= rank h)%nat) L))%nat).
  { clear -Hr. induction L as [|x L IH]; [done|]. rewrite !filter_cons. repeat case_decide; cbn; lia. }
  apply elem_of_cons in Hh as [->|Hh]; repeat case_decide; cbn; try lia; specialize (IH Hh); lia.
Qed.

Definition commits (fuel : nat) : Prop := ∀ L h b db,
  core L [] [] db → full L db → sound_batch (diskdb db) b → nodes_only b → h ≠ zeroHash → (below h L < fuel)%nat →
  (∃ db', commit fuel h b db = Fail db' WriteFailed ∧ inv db') ∨
  ∃ db' b' L', commit fuel h b db = Ok db' b' ∧ core L' [] [] db' ∧ full L' db' ∧ sound_batch (diskdb db') b' ∧ nodes_only b' ∧
    progress L L' b b' db db' ∧ (h ∈ L ∨ reached db b h → reached db' b' h).

Lemma commit_each_ok fuel l : commits fuel → ∀ L b db,
  core L [] [] db → full L db → sound_batch (diskdb db) b → nodes_only b → (∀ c, c ∈ l → c ≠ zeroHash ∧ (below c L < fuel)%nat ∧ (c ∈ L ∨ reached db b c)) →
  (∃ db', commit_each (commit fuel) l b db = Fail db' WriteFailed ∧ inv db') ∨
  ∃ db' b' L', commit_each (commit fuel) l b db = Ok db' b' ∧ core L' [] [] db' ∧ full L' db' ∧ sound_batch (diskdb db') b' ∧ nodes_only b' ∧
    progress L L' b b' db db' ∧ ∀ c, c ∈ l → reached db' b' c.
Proof.
  intros IH. induction l as [|c l IHl]; intros L b db H HF Hb Hn Hl; cbn [commit_each].
  - right. exists db, b, L. split_and!; [done|done|done|done|done|apply progress_refl|]. by intros c ?%not_elem_of_nil.
  - destruct (Hl c ltac:(by left)) as (Hz & Hf & Hc). unfold bind.
    destruct (IH L c b db H HF Hb Hn Hz Hf) as [(db1 & -> & ?)|(db1 & b1 & L1 & -> & H1 & HF1 & Hb1 & Hn1 & P1 & R1)]; [left; by exists db1|].
    destruct (IHl L1 b1 db1 H1 HF1 Hb1 Hn1) as [?|(db' & b' & L' & E & H' & HF' & Hb' & Hn' & P' & R')]; [|by left|].
    + intros x Hx. destruct (Hl x ltac:(by right)) as (Hzx & Hfx & [HxL|Hxr]); (split_and!; [done|pose proof (below_sub x _ _ (p_sub _ _ _ _ _ _ P1)); lia|]).
      * destruct (p_list _ _ _ _ _ _ P1 x HxL); [by left|right; by left].
      * right. by apply (p_reached _ _ _ _ _ _ P1).
    + right. exists db', b', L'. split_and!; [done|done|done|done|done|by eapply progress_trans|].
      intros x [->|Hx]%elem_of_cons; [|by apply R']. apply (p_reached _ _ _ _ _ _ P'). by apply R1.
Qed.

Lemma nodes_app b k v : nodes_only b → length k = 32%nat → k ≠ zeroHash → nodes_only (b ++ [(k, v)]).
Proof. intros Hn Hl Hz k' v'. rewrite elem_of_app, list_elem_of_singleton. intros [?|[= -> ->]]; [by eapply Hn|done]. Qed.

(** A batch that is written and replayed. *)
Lemma flush_batch L db b : core L [] [] db → full L db → sound_batch (diskdb db) b → nodes_only b →
  bind (Write b) (λ _, Replay b) db = Fail db WriteFailed ∨
  ∃ db' L', bind (Write b) (λ _, Replay b) db = Ok db' tt ∧ core L' [] [] db' ∧ full L' db' ∧ progress L L' b [] db db' ∧ preimages db' = preimages db.
Proof.
  intros H HF Hb Hn. unfold bind. destruct (Write_ok L db b H HF Hb) as [->|(db1 & -> & H1 & HF1 & (_ & _ & W3 & _ & _ & _ & WM) & Hk & Hv)]; [by left|]. right.
  destruct (Replay_ok b L db1 H1 HF1) as (db' & L' & -> & H' & HF' & (D & P & Sb & Fl)).
  { intros k v Hin. destruct (Hn k v Hin) as [? ?]. split_and!; [done|done|by apply Hv]. }
  exists db', L'. split_and!; [done|done|done| |congruence]. split; [done|done| |].
  - intros h [Hh|Hh]; left; rewrite D; auto.
  - intros h Hh. rewrite D. auto.
Qed.

Lemma commit_none fuel h b db : dirties db !! h = None → commit (S fuel) h b db = Ok db b.
Proof. intros E. cbn [commit]. unfold bind, get_db. by rewrite E. Qed.

Lemma commit_some fuel h b db e blob : dirties db !! h = Some e → rlp e = Some blob →
  commit (S fuel) h b db = bind (commit_each (commit fuel) (forChilds e) b) (λ b,
    let b := b ++ [(h, blob)] in if IdealBatchSize <=? ValueSize b then bind (bind (Write b) (λ _, Replay b)) (λ _, ret []) else ret b) db.
Proof.
  intros E Eb. cbn [commit]. unfold bind, get_db. rewrite E. unfold some. rewrite Eb. destruct (commit_each _ _ _ db); try done. cbv zeta.
  destruct (_ <=? _); [|done]. by destruct (Write _ _).
Qed.

Lemma commit_ok fuel : commits fuel.
Proof.
  induction fuel as [|fuel IH]; intros L h b db H HF Hb Hn Hz Hf; [lia|]. destruct (dirties db !! h) as [e|] eqn:E.
  2: { right. rewrite (commit_none _ _ _ _ E). exists db, b, L. split_and!; [done|done|done|done|done|apply progress_refl|].
       intros [HhL|?]; [|done]. destruct (of_list _ _ _ _ _ _ _ H HhL) as (? & ? & _). congruence. }
  destruct (in_dirties _ _ _ _ _ _ _ _ H E) as [?|[HhL|?%not_elem_of_nil]]; [done| |done]. destruct (of_list _ _ _ _ _ _ _ H HhL) as (_ & _ & _ & Hlen).
  destruct (k_blob _ _ _ (k_right _ _ _ _ _ _ H) h e Hz E) as (blob & Eb & Hct). rewrite (commit_some _ _ _ _ _ _ E Eb). unfold bind at 1 4.
  destruct (commit_each_ok fuel (forChilds e) IH L b db H HF Hb Hn) as [(db1 & E1 & ?)|(db1 & b1 & L1 & E1 & H1 & HF1 & Hb1 & Hn1 & P1 & R1)]; rewrite ?E1.
  { intros c Hc. pose proof (k_links _ _ _ (k_right _ _ _ _ _ _ H) h e c Hz E Hc) as Hl.
    split_and!; [intros ->; by apply (links_zero _ _ LAW h)|pose proof (below_child h c L HhL (links_rank _ _ LAW _ _ Hl)); lia|].
    apply list_elem_of_split in HhL as (l1 & l2 & EL). destruct (k_order _ _ (k_ordered _ _ _ _ _ _ H) l1 h l2 e c EL E Hc); [right; by left|left].
    rewrite EL. apply elem_of_app. by left. }
  { left. by exists db1. }
  assert (Hb2 : sound_batch (diskdb db1) (b1 ++ [(h, blob)])).
  { apply sound_node; [done|done|]. intros c Hl. destruct (HF h e c HhL E Hl) as [Hc|Hd]; [by apply R1|left; by apply (p_disk _ _ _ _ _ _ P1)]. }
  pose proof (nodes_app b1 h blob Hn1 Hlen Hz) as Hn2. assert (P2 : progress L1 L1 b1 (b1 ++ [(h, blob)]) db1 db1).
  { split; [done|by left| |done]. intros x [?|?]; [by left|right]. rewrite fmap_app. apply elem_of_app. by left. }
  assert (Hr : reached db1 (b1 ++ [(h, blob)]) h) by (right; rewrite fmap_app; apply elem_of_app; right; by left). cbv zeta. destruct (_ <=? _).
  - destruct (flush_batch L1 db1 _ H1 HF1 Hb2 Hn2) as [Ef|(db' & L' & Ef & H' & HF' & P' & _)].
    + left. exists db1. unfold bind at 1. rewrite Ef. split; [done|by exists L1].
    + right. exists db', [], L'. split_and!; [unfold bind at 1; by rewrite Ef|done|done|apply sound_nil|by intros ? ? ?%not_elem_of_nil| |].
      * eapply progress_trans; [exact P1|]. by eapply progress_trans.
      * intros _. by apply (p_reached _ _ _ _ _ _ P').
  - right. exists db1, (b1 ++ [(h, blob)]), L1. split_and!; try done. by eapply progress_trans.
Qed.

Lemma core_preimages L db x y : core L [] [] db → (∀ h p, x !! h = Some p → length h = 32%nat) → core L [] [] (set_preimages db x y).
Proof. intros [Sh C O [K1 K2 K3 K4 K5]] Hx. split; [by destruct Sh; split|done|by destruct O; split|]. by split. Qed.

(** An operation ends with [Q], or with a failed write in a good state; it does
    not panic or run out of fuel. *)
Definition ends {A} (m : M A) (db : Database) (Q : Database → A → Prop) : Prop :=
  match m db with
  | Ok db' a => Q db' a
  | Fail db' e => e = WriteFailed ∧ inv db'
  | Crash | Unfinished => False
  end.

Lemma ends_bind {A B} (m : M A) (k : A → M B) db Q R : ends m db Q → (∀ db' a, Q db' a → ends (k a) db' R) → ends (bind m k) db R.
Proof. unfold ends, bind. destruct (m db); [|done..]. intros HQ HK. by apply HK. Qed.

Lemma ends_get {B} (k : Database → M B) db R : ends (k db) db R → ends (bind get_db k) db R.
Proof. done. Qed.

Lemma ends_modify {B} f (k : unit → M B) db R : ends (k tt) (f db) R → ends (bind (modify f) k) db R.
Proof. done. Qed.

Lemma ends_some {A B} (x : option A) a (k : A → M B) db R : x = Some a → ends (k a) db R → ends (bind (some x) k) db R.
Proof. by intros ->. Qed.

Lemma ends_mono {A} (m : M A) db (Q R : Database → A → Prop) : ends m db Q → (∀ db' a, Q db' a → R db' a) → ends m db R.
Proof. unfold ends. destruct (m db); [|done..]. auto. Qed.

Lemma below_size L db h : core L [] [] db → (below h L < S (size (dirties db)))%nat.
Proof.
  intros H. pose proof (submseteq_dom_size (dirties db) L (list_nodup _ _ _ _ _ _ H)) as Hs. unfold below. pose proof (length_filter (λ x, (rank x <= rank h)%nat) L).
  assert (∀ h, h ∈ L → is_Some (dirties db !! h)) by (intros x Hx; destruct (of_list _ _ _ _ _ _ _ H Hx) as (e & E & _); by exists e). specialize (Hs ltac:(done)). lia.
Qed.

Lemma ends_Write L db b : core L [] [] db → full L db → sound_batch (diskdb db) b → ends (Write b) db (λ db' _,
  core L [] [] db' ∧ full L db' ∧ written db db' ∧ ∀ k, k ∈ b.*1 → is_Some (diskdb db' !! k)).
Proof.
  intros H HF Hb. unfold ends. destruct (Write_ok L db b H HF Hb) as [->|(db1 & -> & ? & ? & ? & ? & _)]; [|done]. split; [done|by exists L].
Qed.

Lemma ends_preimages L db : core L [] [] db → full L db → ends (put_preimages (range (preimages db)) []) db (λ db' b,
  core L [] [] db' ∧ full L db' ∧ sound_batch (diskdb db') b ∧ written db db').
Proof.
  intros H HF. unfold ends. pose proof (preimages_len db (k_right _ _ _ _ _ _ H)) as Hp.
  destruct (put_preimages_ok L _ Hp [] db H HF (sound_nil _)) as [(db1 & -> & ?)|(db1 & b1 & -> & ?)]; done.
Qed.

(** [Commit] ends with the root on the disk. *)
Lemma Commit_ok L db root : core L [] [] db → full L db → root ≠ zeroHash → ends (Commit root) db (λ db' _, ∃ L',
  core L' [] [] db' ∧ full L' db' ∧ L' `sublist_of` L ∧ (∀ h, h ∈ L ∨ is_Some (diskdb db !! h) → h ∈ L' ∨ is_Some (diskdb db' !! h)) ∧
  (root ∈ L ∨ is_Some (diskdb db !! root) → is_Some (diskdb db' !! root))).
Proof.
  intros H HF Hz. unfold Commit. apply ends_get. eapply ends_bind; [by apply (ends_preimages L)|]. intros db1 b1 (H1 & HF1 & Hb1 & W1).
  eapply ends_bind; [by apply (ends_Write L)|]. intros db2 _ (H2 & HF2 & W2 & _). apply ends_get. pose proof (written_trans _ _ _ W1 W2) as (_ & _ & _ & _ & _ & _ & WM).
  assert (HC : ends (commit (S (size (dirties db2))) root []) db2 (λ db3 b3, ∃ L3, core L3 [] [] db3 ∧ full L3 db3 ∧ sound_batch (diskdb db3) b3 ∧ nodes_only b3 ∧
    progress L L3 [] b3 db2 db3 ∧ (root ∈ L ∨ reached db2 [] root → reached db3 b3 root))).
  { unfold ends. destruct (commit_ok (S (size (dirties db2))) L root [] db2 H2 HF2 (sound_nil _)) as [(db3 & -> & ?)|(db3 & b3 & L3 & -> & ?)];
      [by intros ? ? ?%not_elem_of_nil|done|by apply below_size|done|by exists L3]. }
  eapply ends_bind; [exact HC|]. intros db3 b3 (L3 & H3 & HF3 & Hb3 & Hn3 & P3 & R3).
  assert (HW : ends (bind (Write b3) (λ _, Replay b3)) db3 (λ db' _, ∃ L', core L' [] [] db' ∧ full L' db' ∧ progress L3 L' b3 [] db3 db')).
  { unfold ends. destruct (flush_batch L3 db3 b3 H3 HF3 Hb3 Hn3) as [->|(db4 & L4 & -> & ? & ? & ? & _)]; [split; [done|by exists L3]|by exists L4]. }
  assert (HG : ends (bind (bind (Write b3) (λ _, Replay b3)) (λ _, modify (λ db, set_preimages db ∅ 0))) db3 (λ db' _, ∃ L', core L' [] [] db' ∧ full L' db' ∧ progress L3 L' b3 [] db3 db')).
  { eapply ends_bind; [exact HW|]. intros db4 _ (L4 & H4 & HF4 & P4). exists L4. split_and!; [by apply core_preimages|done|by destruct P4; split]. }
  assert (EA : bind (Write b3) (λ _, bind (Replay b3) (λ _, modify (λ db, set_preimages db ∅ 0))) db3 = bind (bind (Write b3) (λ _, Replay b3)) (λ _, modify (λ db, set_preimages db ∅ 0)) db3)
    by (unfold bind; by destruct (Write b3 db3)).
  unfold ends at 1. rewrite EA. eapply ends_mono; [exact HG|]. intros db' _ (L' & H' & HF' & P'). pose proof (progress_trans _ _ _ _ _ _ _ _ _ P3 P') as P.
  exists L'. split_and!; [done|done|exact (p_sub _ _ _ _ _ _ P)| |].
  - intros h [Hh|Hh]; [by apply (p_list _ _ _ _ _ _ P)|right; apply (p_disk _ _ _ _ _ _ P); auto].
  - intros Hr. destruct (p_reached _ _ _ _ _ _ P' root) as [?|?%not_elem_of_nil]; [|done|done]. apply R3. destruct Hr; [by left|right; left; auto].
Qed.

(** ** Cap *)

Definition cap_inv (L : list bytes) (db0 db : Database) (l1 l2 : list bytes) (b : batch) : Prop :=
  L = l1 ++ l2 ∧ core L [] [] db ∧ full L db ∧ sound_batch (diskdb db) b ∧ written db0 db ∧ ∀ h, h ∈ l1 → reached db b h.

Lemma hd_zero L l1 l2 db : core L [] [] db → L = l1 ++ l2 → hd zeroHash l2 = zeroHash → l2 = [].
Proof.
  intros H -> E. destruct l2 as [|a l2]; [done|]. cbn in E. subst a. destruct (of_list _ _ _ _ _ _ zeroHash H) as (_ & _ & ? & _); [apply elem_of_app; right; by left|done].
Qed.

(** The next node of the flush-list goes to the batch. *)
Lemma cap_next L db0 db l1 a l2 b : cap_inv L db0 db l1 (a :: l2) b →
  ∃ e blob, dirties db !! a = Some e ∧ rlp e = Some blob ∧ flushNext e = hd zeroHash l2 ∧ cap_inv L db0 db (l1 ++ [a]) l2 (b ++ [(a, blob)]).
Proof.
  intros (EL & H & HF & Hb & W & Hr). assert (Ha : a ∈ L) by (rewrite EL; apply elem_of_app; right; by left). destruct (of_list _ _ _ _ _ _ _ H Ha) as (e & E & Hz & Hl).
  destruct (k_blob _ _ _ (k_right _ _ _ _ _ _ H) a e Hz E) as (blob & Eb & Hct). exists e, blob. split_and!; [done|done| |].
  - destruct (k_linked _ _ _ (k_shape _ _ _ _ _ _ H)) as (Hs & _). rewrite EL in Hs. apply seg_app in Hs as [_ (e' & E' & _ & N & _)]. congruence.
  - split_and!; [rewrite <- app_assoc; done|done|done| |done|].
    + apply sound_node; [done|done|]. intros c Hc. destruct (HF a e c Ha E Hc) as [Hin|?]; [|by left].
      destruct (k_order _ _ (k_ordered _ _ _ _ _ _ H) l1 a l2 e c EL E Hin) as [?|Hc1]; [by left|]. by apply Hr.
    + intros h. rewrite elem_of_app, list_elem_of_singleton. unfold reached. rewrite fmap_app, elem_of_app. intros [Hh| ->]; [|right; right; by left].
      destruct (Hr h Hh); auto.
Qed.

Lemma cap_write L db0 db l1 l2 b : cap_inv L db0 db l1 l2 b →
  ends (if IdealBatchSize <=? ValueSize b then bind (Write b) (λ _, ret []) else ret b) db (λ db' b', cap_inv L db0 db' l1 l2 b').
Proof.
  intros (EL & H & HF & Hb & W & Hr). destruct (_ <=? _); [|done]. eapply ends_bind; [by apply (ends_Write L)|]. intros db' _ (H' & HF' & W' & Hk).
  cbn. split_and!; [done|done|done|apply sound_nil|by eapply written_trans|]. intros h Hh. destruct (Hr h Hh) as [?|?]; left; [|auto]. destruct W' as (_ & _ & _ & _ & _ & _ & WM). auto.
Qed.

Lemma cap_flush_ok L db0 limit fuel : ∀ size db l1 l2 b, cap_inv L db0 db l1 l2 b → (length l2 < fuel)%nat →
  ends (cap_flush fuel size limit (hd zeroHash l2) b) db (λ db' p, ∃ l1' l2', p.1 = hd zeroHash l2' ∧ cap_inv L db0 db' l1' l2' p.2).
Proof.
  induction fuel as [|fuel IH]; intros size db l1 l2 b HI Hf; [lia|]. cbn [cap_flush]. destruct (_ && _) eqn:Ec; [|by exists l1, l2].
  apply andb_true_iff in Ec as [_ Ez%negb_true_iff%bool_decide_eq_false]. destruct l2 as [|a l2]; [done|]. cbn [hd].
  destruct (cap_next _ _ _ _ _ _ _ HI) as (e & blob & E & Eb & En & HI'). apply ends_get. unfold some at 1, bind at 1. unfold ends at 1. rewrite E. unfold some at 1, bind at 1. rewrite Eb.
  change (ends (bind (if IdealBatchSize <=? ValueSize (b ++ [(a, blob)]) then bind (Write (b ++ [(a, blob)])) (λ _, ret []) else ret (b ++ [(a, blob)]))
    (λ b, cap_flush fuel (size - entry_size e) limit (flushNext e) b)) db (λ db' p, ∃ l1' l2', p.1 = hd zeroHash l2' ∧ cap_inv L db0 db' l1' l2' p.2)).
  eapply ends_bind; [by apply cap_write|]. intros db' b' HI''. rewrite En. eapply IH; [exact HI''|]. cbn in Hf. lia.
Qed.

(** Entries of the start of the list, all on the disk, are dropped. *)
Lemma cap_clear_ok l1 : ∀ fuel l2 db, core (l1 ++ l2) [] [] db → full (l1 ++ l2) db → (∀ h, h ∈ l1 → is_Some (diskdb db !! h)) → (length l1 < fuel)%nat →
  ∃ db', cap_clear fuel (hd zeroHash l2) db = Ok db' tt ∧ core l2 [] [] db' ∧ full l2 db' ∧ quiet db db'.
Proof.
  induction l1 as [|a l1 IH]; intros [|fuel] l2 db H HF Hd Hf; [cbn in *; lia| |cbn in *; lia|]; pose proof (k_linked _ _ _ (k_shape _ _ _ _ _ _ H)) as (Hs & Ho & Hn); cbn [cap_clear]; unfold bind, get_db.
  - rewrite decide_True by done. exists db. by split_and!.
  - destruct (of_list _ _ _ _ _ _ a H ltac:(by left)) as (e & E & Hz & _). cbn in Ho. rewrite Ho, decide_False.
    2: { destruct l2 as [|c l2]; [done|]. cbn. intros ->. pose proof (list_nodup _ _ _ _ _ _ H) as [HN _]%NoDup_cons. apply HN, elem_of_app. right. by left. }
    unfold some. rewrite E. cbn in Hs. destruct Hs as (e' & E' & _ & N & Hs). assert (e' = e) as -> by congruence. unfold modify.
    destruct (uncache_ok [] a (l1 ++ l2) db (set_oldest db (flushNext e)) H HF) as [H1 HF1]; [apply Hd; by left| |apply all_alike_refl|done|].
    { split_and!; [|done|].
      - cbn. destruct (l1 ++ l2) as [|x l]; [done|]. destruct Hs as (ex & Ex & _ & Nx & Hs). by exists ex.
      - intros x Hx. cbn. apply Hn. cbn. destruct (l1 ++ l2); [done|]. by rewrite last_cons_cons. }
    cbv zeta in H1, HF1. match goal with |- ∃ db', cap_clear fuel _ ?d = _ ∧ _ => set (db1 := d) end.
    destruct (IH fuel l2 db1) as (db' & Ec & H' & HF' & Q').
    { apply core_resize. rewrite Ho. exact H1. }
    { unfold db1. rewrite Ho. exact HF1. }
    { intros h Hh. apply Hd. by right. }
    { cbn in Hf. lia. }
    exists db'. split_and!; [done|done|done|]. by eapply quiet_trans; [|exact Q'].
Qed.

Lemma Cap_ok L db limit : core L [] [] db → full L db → ends (Cap limit) db (λ db' _, ∃ l1 L', L = l1 ++ L' ∧
  core L' [] [] db' ∧ full L' db' ∧ (∀ h, h ∈ L ∨ is_Some (diskdb db !! h) → h ∈ L' ∨ is_Some (diskdb db' !! h))).
Proof.
  intros H HF. unfold Cap. apply ends_get. destruct (k_meta _ _ _ (k_shape _ _ _ _ _ _ H)) as (z & m & Ez & _ & Em).
  assert (ES : ∃ sz, (fst <$> Size db) = Some sz) by (unfold Size; rewrite Ez; by eexists). destruct ES as [sz ES]. eapply ends_some; [exact ES|].
  assert (HP : ends (if 4 * 1024 * 1024 <? preimagesSize db then put_preimages (range (preimages db)) [] else ret []) db (λ db1 b1, cap_inv L db db1 [] L b1)).
  { destruct (_ <? _).
    - eapply ends_mono; [by apply (ends_preimages L)|]. intros db1 b1 (? & ? & ? & ?). split_and!; try done. by intros h ?%not_elem_of_nil.
    - split_and!; [done|done|done|apply sound_nil|apply written_refl|]. by intros h ?%not_elem_of_nil. }
  eapply ends_bind; [exact HP|]. intros db1 b1 HI. pose proof HI as (_ & H1 & _ & _ & W1 & _).
  assert (HS : ∀ db, core L [] [] db → (length L < S (size (dirties db)))%nat).
  { intros d Hd. pose proof (submseteq_dom_size (dirties d) L (list_nodup _ _ _ _ _ _ Hd)) as Hle. apply Nat.lt_succ_r, Hle. intros h Hh.
    destruct (of_list _ _ _ _ _ _ _ Hd Hh) as (e & E & _). by exists e. }
  assert (Eo : oldest db = hd zeroHash L) by (by destruct (k_linked _ _ _ (k_shape _ _ _ _ _ _ H)) as (_ & ? & _)). rewrite Eo.
  eapply ends_bind; [by apply (cap_flush_ok L db limit _ sz db1 [] L b1 HI), HS|]. intros db2 [old b2] (l1 & l2 & Eold & HI2). cbn [fst] in Eold. subst old.
  destruct HI2 as (EL & H2 & HF2 & Hb2 & W2 & Hr2). eapply ends_bind; [by apply (ends_Write L)|]. intros db3 _ (H3 & HF3 & W3 & Hk3).
  pose proof (written_trans _ _ _ W2 W3) as (_ & _ & _ & _ & _ & _ & WM).
  assert (HD : ∀ h, h ∈ l1 → is_Some (diskdb db3 !! h)) by (intros h Hh; destruct (Hr2 h Hh); [by apply W3|auto]).
  assert (HQ : ends (if 4 * 1024 * 1024 <? preimagesSize db then modify (λ db, set_preimages db ∅ 0) else ret tt) db3
    (λ db4 _, core L [] [] db4 ∧ full L db4 ∧ diskdb db4 = diskdb db3)) by (destruct (_ <? _); [split_and!; [by apply core_preimages|done|done]|by split_and!]).
  eapply ends_bind; [exact HQ|]. intros db4 _ (H4 & HF4 & D4). apply ends_get. rewrite EL in H4, HF4, HS.
  destruct (cap_clear_ok l1 (S (size (dirties db4))) l2 db4 H4 HF4) as (db5 & E5 & H5 & HF5 & (Q5 & _)); [by rewrite D4| |].
  { specialize (HS db4 H4). rewrite length_app in HS. lia. }
  eapply (ends_bind _ _ _ (λ d _, d = db5)); [unfold ends; by rewrite E5|]. intros ? _ ->. apply ends_get.
  assert (HE : ∀ h, h ∈ L ∨ is_Some (diskdb db !! h) → h ∈ l2 ∨ is_Some (diskdb db5 !! h)).
  { intros h [Hh|Hh]; rewrite Q5, D4; [|right; auto]. rewrite EL in Hh. apply elem_of_app in Hh as [Hh|Hh]; [right; auto|by left]. }
  destruct (decide _) as [Ez5|Ez5]; [by exists l1, l2|]. destruct (k_linked _ _ _ (k_shape _ _ _ _ _ _ H5)) as (S5 & O5 & N5). rewrite O5 in Ez5 |- *.
  destruct l2 as [|a l2]; [done|]. cbn [hd] in *. destruct (of_list _ _ _ _ _ _ a H5 ltac:(by left)) as (e & E & _). unfold ends. rewrite (update_entry_ok _ _ _ _ E). exists l1, (a :: l2).
  assert (HA : all_alike (dirties db5) (<[a := set_prev e zeroHash]> (dirties db5))) by (by eapply all_alike_insert).
  split_and!; [done| | |done].
  - eapply core_alike; [exact H5| |exact HA|done]. split_and!; [|done|done]. destruct S5 as (e' & E' & _ & N & S5). assert (e' = e) as -> by congruence.
    exists (set_prev e zeroHash). cbn. rewrite lookup_insert_eq. split_and!; [done|done|done|]. apply seg_insert; [|done]. by pose proof (list_nodup _ _ _ _ _ _ H5) as [? _]%NoDup_cons.
  - intros h e' c Hh E' Hl. destruct (all_alike_back _ _ _ _ HA E') as (e0 & E0 & A). rewrite (alike_forChilds _ _ A). by apply (HF5 h e0).
Qed.

End Flush.
End TrieDbFlush.
