(* ===== verification/TrieDbClaims.v ===== *)
(** * TrieDbClaims: the node database loses no node that is needed

    Over any history of insertions, references, collections, flushes, failed
    writes and reads: live roots can be read in full, and the disk is closed
    under references at every moment. *)

From stdpp Require Import base gmap list relations.
From Stdlib Require Import ZArith Lia.
From S2P Require Import Prelude Rlp Trie TrieHash TrieDb TrieDbGc TrieDbOps TrieDbFlush.

Local Open Scope Z_scope.

Module TrieDbClaims.
Import Trie TrieHash TrieDb TrieDbProofs TrieDbGc TrieDbOps TrieDbFlush.

Section Claims.
Context `{ENV : Environment}.
Context (content : bytes → option bytes) (links : bytes → list bytes) (rank : bytes → nat).

(** ** Histories *)

(** What users of the database do: store a node with its references to other
    tries (as the committer does with its leaf callback), reference a root and
    give it up, flush, persist a root, store a preimage, read. *)
Inductive op :=
  | Store (hash : bytes) (size : Z) (n : node + bytes) (exts : list bytes)
  | Root (child : bytes)
  | Unroot (root : bytes)
  | Flush (limit : Z)
  | Persist (root : bytes)
  | Preimage (hash preimage : bytes)
  | Read (hash : bytes).

Definition run (o : op) : M unit :=
  match o with
  | Store hash size n exts => store_node hash size n exts
  | Root child => Reference child zeroHash
  | Unroot root => Dereference root
  | Flush limit => Cap limit
  | Persist root => Commit root
  | Preimage hash preimage => insertPreimage hash preimage
  | Read hash => bind (Node hash) (λ _, ret tt)
  end.

(** In memory or on the disk. *)
Definition available (db : Database) (h : bytes) : Prop := is_Some (diskdb db !! h) ∨ (h ≠ zeroHash ∧ is_Some (dirties db !! h)).

(** A root with a reference that has not been given up. *)
Definition live (db : Database) (root : bytes) : Prop := ∃ z, dirties db !! zeroHash = Some z ∧ 0 < ext z root.

Definition room (db : Database) (k : Z) : Prop := map_Forall (λ _ e, parents e + k < 2 ^ 32) (dirties db).

(** When the users may do it. Counters do not overflow, hashes have 32 bytes; a
    node is stored under its hash, after what it refers to; only a live root is
    given up. *)
Definition allowed (db : Database) (o : op) : Prop :=
  match o with
  | Store hash size n exts => ∃ r b, simplify n = Some r ∧ length hash = 32%nat ∧ hash ≠ zeroHash ∧
      rlp (mk_cached r 0 0 None zeroHash zeroHash) = Some b ∧ content hash = Some b ∧
      (∀ c, c ∈ links hash ↔ c ∈ forGatherChildren r ++ exts) ∧ Forall (available db) (forGatherChildren r ++ exts) ∧
      room db (Z.of_nat (length (forGatherChildren r ++ exts)))
  | Root child => length child = 32%nat ∧ child ≠ zeroHash ∧ available db child ∧ room db 1 ∧ ∀ z, dirties db !! zeroHash = Some z → ext z child < 2 ^ 16 - 1
  | Unroot root => root ≠ zeroHash ∧ live db root
  | Flush limit => True
  | Persist root => root ≠ zeroHash
  | Preimage hash preimage => length hash = 32%nat
  | Read hash => length hash = 32%nat
  end.

(** The databases over [disk] that a history leads to, failed writes included. *)
Inductive reachable (disk : gmap bytes bytes) : Database → Prop :=
  | reach_new cache : reachable disk (NewDatabaseWithCache disk cache)
  | reach_ok db o db' : reachable disk db → allowed db o → run o db = Ok db' tt → reachable disk db'
  | reach_fail db o db' e : reachable disk db → allowed db o → run o db = Fail db' e → reachable disk db'.

(** A disk with right nodes only, closed under references. *)
Definition closed (disk : gmap bytes bytes) : Prop :=
  ∀ h b, length h = 32%nat → disk !! h = Some b → content h = Some b ∧ ∀ c, c ∈ links h → is_Some (disk !! c).

(** ** The invariant holds *)

Abbreviation inv := (inv content links).

Lemma new_lookup disk cache h e : dirties (NewDatabaseWithCache disk cache) !! h = Some e → zeroHash = h ∧ mk_cached raw_nil 0 0 (Some ∅) zeroHash zeroHash = e.
Proof. apply lookup_singleton_Some. Qed.

Lemma inv_new disk cache : closed disk → inv (NewDatabaseWithCache disk cache).
Proof.
  intros HC. exists []. split; [|by intros h e c ?%not_elem_of_nil]. split.
  - split; cbn [app].
    + intros h. cbn [dirties NewDatabaseWithCache]. rewrite list_elem_of_singleton. destruct (decide (h = zeroHash)) as [->|Hn]; [rewrite lookup_singleton_eq; split; [done|by eexists]|].
      rewrite lookup_singleton_ne by done. split; [by intros [? ?]|done].
    + apply NoDup_singleton.
    + constructor.
    + done.
    + eexists _, ∅. cbn [dirties NewDatabaseWithCache]. rewrite lookup_singleton_eq. by split_and!.
    + intros h e [<- <-]%new_lookup m c x [= <-]. by rewrite lookup_empty.
    + intros h e [<- <-]%new_lookup. done.
  - by intros c e ?%not_elem_of_nil.
  - split.
    + intros l1 p l2 e c E. by destruct l1.
    + intros z c [_ <-]%new_lookup Hc. cbn in Hc. rewrite elem_of_app, elem_of_range in Hc. destruct Hc as [[? Hc]|?%not_elem_of_nil]; [by rewrite lookup_empty in Hc|done].
  - split.
    + intros h e c Hh [<- _]%new_lookup. done.
    + intros h e Hh [<- _]%new_lookup. done.
    + apply HC.
    + intros ca h b. cbn. destruct (_ <? _); [|done]. intros [= <-]. by rewrite cache_new_get.
    + done.
Qed.

Lemma available_list L db h : core content links L [] [] db → available db h ↔ is_Some (diskdb db !! h) ∨ h ∈ L.
Proof.
  intros H. unfold available. rewrite (k_dom _ _ _ (k_shape _ _ _ _ _ _ H) h), app_nil_r, elem_of_cons. split; [naive_solver|].
  intros [?|HhL]; [by left|]. destruct (of_list _ _ _ _ _ _ _ H HhL) as (_ & _ & ? & _). naive_solver.
Qed.

Lemma allowed_storable L db hash size n exts : core content links L [] [] db → allowed db (Store hash size n exts) → storable content links L db hash n exts.
Proof.
  intros H (r & b & Er & Hl & Hz & Eb & Ec & Hlk & Hav & Hroom). rewrite Forall_forall in Hav. rewrite length_app in Hroom. split.
  - exists r. split_and!; [done| |intros c Hc; by apply Hlk, elem_of_app in Hc]. split; [done|done| |by exists b|].
    + intros c Hc. assert (Hin : c ∈ forGatherChildren r ++ exts) by (apply elem_of_app; by left). split; [by apply Hlk|]. by apply (available_list L), Hav.
    + intros h e E. specialize (Hroom h e E). cbn in Hroom. pose proof (occ_length h (forGatherChildren r)). lia.
  - intros c Hc. assert (Hin : c ∈ forGatherChildren r ++ exts) by (apply elem_of_app; by right). split; [by apply Hlk|]. by apply (available_list L), Hav.
  - intros h e E. specialize (Hroom h e E). cbn in Hroom. rewrite Er. cbn. lia.
Qed.

(** Reading. *)
Lemma Node_ok L db h : core content links L [] [] db → full links L db → length h = 32%nat → h ≠ zeroHash →
  (is_Some (diskdb db !! h) ∨ h ∈ L → ∃ db' b, Node h db = Ok db' b ∧ content h = Some b ∧ core content links L [] [] db' ∧ full links L db') ∧
  (¬ (is_Some (diskdb db !! h) ∨ h ∈ L) → Node h db = Fail db NotFound).
Proof.
  intros H HF Hl Hz. unfold Node. rewrite decide_False by done. unfold bind, get_db. destruct (k_right _ _ _ _ _ _ H) as [K1 K2 K3 K4 K5].
  destruct (clean_get db h) as [enc|] eqn:Eg.
  { unfold clean_get in Eg. destruct (cleans db) as [ca|] eqn:Eca; [|done]. destruct (K4 ca h enc eq_refl Eg) as [_ Hd].
    split; [intros _; exists db, enc; split_and!; [done|by apply (K3 h enc)|done|done]|]. intros Hn. destruct Hn. left. by eexists. }
  destruct (dirties db !! h) as [e|] eqn:E.
  { destruct (K2 h e Hz E) as (b & Eb & Hc). destruct (in_dirties _ _ _ _ _ _ _ _ H E) as [?|[HhL|?%not_elem_of_nil]]; [done| |done].
    split; [intros _; exists db, b; unfold some; rewrite Eb; by split_and!|]. intros Hn. destruct Hn. by right. }
  assert (HnL : h ∉ L) by (intros HhL; destruct (of_list _ _ _ _ _ _ _ H HhL) as (? & ? & _); congruence).
  destruct (diskdb db !! h) as [enc|] eqn:Ed; [|split; [by intros [[? ?]|?]|done]]. split; [|intros Hn; destruct Hn; left; by eexists]. intros _.
  destruct (clean_set_ok content links L db h enc H HF Hl Ed) as (db' & -> & H' & HF' & _). exists db', enc. split_and!; [done|by apply (K3 h enc)|done|done].
Qed.

Section Lawful.
Hypothesis LAW : lawful links rank.

(** No operation panics or hangs, and the state after it is good. *)
Lemma run_ok db o : inv db → allowed db o → match run o db with Ok db' _ | Fail db' _ => inv db' | Crash | Unfinished => False end.
Proof.
  intros (L & H & HF) HA. destruct o as [hash size n exts|child|root|limit|root|hash p|hash]; cbn [run].
  - destruct (store_node_ok content links rank LAW L db hash size n exts H HF) as (db' & L' & -> & ? & ? & _); [by eapply allowed_storable|]. by exists L'.
  - destruct HA as (Hl & Hz & Hav & Hroom & Hx). apply (available_list L) in Hav; [|done]. unfold Reference.
    destruct (reference_ok content links rank LAW L db child zeroHash H) as (db' & -> & H' & (Q & _) & G & _).
    { split; [done|by left|done| |done|intros e E; specialize (Hroom _ _ E); cbn in Hroom; lia|done].
      intros l1 l2 EL. destruct (of_list _ _ _ _ _ _ zeroHash H) as (_ & _ & ? & _); [rewrite EL; apply elem_of_app; right; by left|done]. }
    exists L. split; [done|]. intros h e' c Hh E' Hlk. destruct (G h e' E') as (e & E & _ & A). rewrite Q. destruct (HF h e c Hh E Hlk); auto.
  - destruct HA as (Hz & z & Ez & Hx). destruct (Dereference_ok content links rank LAW L db root z H HF Hz Ez Hx) as (db' & L' & -> & ? & ? & _). by exists L'.
  - pose proof (Cap_ok content links rank L db limit H HF) as HC. unfold ends in HC. destruct (Cap limit db) as [db' a|db' e| |]; [|by destruct HC|done|done].
    destruct HC as (l1 & L' & _ & ? & ? & _). by exists L'.
  - pose proof (Commit_ok content links rank LAW L db root H HF HA) as HC. unfold ends in HC. destruct (Commit root db) as [db' a|db' e| |]; [|by destruct HC|done|done].
    destruct HC as (L' & ? & ? & _). by exists L'.
  - exists L. unfold insertPreimage, modify. destruct (preimages db !! hash); [done|]. split; [|done]. apply core_preimages; [done|].
    intros h q Hq. destruct (decide (h = hash)) as [->|Hn]; [done|]. rewrite lookup_insert_ne in Hq by done. by apply (k_pre _ _ _ (k_right _ _ _ _ _ _ H) h q).
  - unfold bind. destruct (decide (hash = zeroHash)) as [->|Hz]; [unfold Node; rewrite decide_True by done; by exists L|].
    destruct (Node_ok L db hash H HF HA Hz) as [N1 N2]. destruct (diskdb db !! hash) as [b|] eqn:Ed.
    + destruct N1 as (db' & b' & -> & _ & ? & ?); [left; by eexists|by exists L].
    + destruct (decide (hash ∈ L)) as [HhL|HhL]; [destruct N1 as (db' & b' & -> & _ & ? & ?); [by right|by exists L]|].
      rewrite N2 by (intros [[? ?]|?]; done). by exists L.
Qed.

Lemma reachable_inv disk db : closed disk → reachable disk db → inv db.
Proof.
  intros HC. induction 1 as [cache|db o db' _ IH HA E|db o db' e _ IH HA E]; [by apply inv_new|..]; pose proof (run_ok db o IH HA) as HR; by rewrite E in HR.
Qed.

(** What is available goes on to be so below. *)
Lemma available_below db a b : inv db → available db a → length a = 32%nat → b ∈ links a → available db b.
Proof.
  intros (L & H & HF) Ha Hl Hb. apply (available_list L) in Ha; [|done]. apply (available_list L); [done|]. destruct Ha as [[v Hv]|HaL].
  - left. by apply (k_disk _ _ _ (k_right _ _ _ _ _ _ H) a v Hl Hv).
  - destruct (of_list _ _ _ _ _ _ _ H HaL) as (e & E & _). destruct (HF a e b HaL E Hb) as [Hc|?]; [|by left].
    apply list_elem_of_split in HaL as (l1 & l2 & EL). destruct (k_order _ _ (k_ordered _ _ _ _ _ _ H) l1 a l2 e b EL E Hc); [by left|]. right. rewrite EL. apply elem_of_app. by left.
Qed.

Lemma available_path db a b : inv db → available db a → length a = 32%nat → rtc (λ x y, y ∈ links x) a b → available db b ∧ length b = 32%nat ∧ (a ≠ zeroHash → b ≠ zeroHash).
Proof.
  intros HI Ha Hl HP. revert Ha Hl. induction HP as [a|a c b Hac HP IH]; intros Ha Hl; [done|].
  destruct IH as (I1 & I2 & I3); [by eapply available_below|by eapply (links_len _ _ LAW)|]. split_and!; [done|done|]. intros _. apply I3. intros ->. by eapply (links_zero _ _ LAW).
Qed.

Lemma live_available db root : inv db → live db root → available db root.
Proof.
  intros (L & H & HF) (z & Ez & Hx). pose proof (k_ext _ _ _ (k_shape _ _ _ _ _ _ H) _ _ Ez) as He.
  assert (Hc : root ∈ forChilds z) by (rewrite forChilds_eq, elem_of_app; left; by apply (kids_pos zeroHash)).
  apply (available_list L); [done|]. by apply (k_roots _ _ (k_ordered _ _ _ _ _ _ H) z).
Qed.

Lemma available_Node db h : inv db → available db h → length h = 32%nat → h ≠ zeroHash → ∃ db' b, Node h db = Ok db' b ∧ content h = Some b.
Proof.
  intros (L & H & HF) Ha Hl Hz. apply (available_list L) in Ha; [|done]. destruct (Node_ok L db h H HF Hl Hz) as [N1 _]. destruct (N1 Ha) as (db' & b & ? & ? & _). eauto.
Qed.

(** C16: garbage collection is safe. After any history of the node database, with
    collections, flushes and failed writes in it, every node that can be
    reached from a live root is read back with its content; and whatever the
    users may do next neither panics nor hangs. *)
Theorem database_keeps_live_nodes disk db :
  closed disk → reachable disk db →
  (∀ root h, live db root → length root = 32%nat → root ≠ zeroHash → rtc (λ a b, b ∈ links a) root h →
    ∃ db' b, Node h db = Ok db' b ∧ content h = Some b) ∧
  (∀ o, allowed db o → ∃ db', run o db = Ok db' tt ∨ ∃ e, run o db = Fail db' e).
Proof.
  intros HC HR. pose proof (reachable_inv disk db HC HR) as HI. split.
  - intros root h Hl Hlen Hz HP. destruct (available_path db root h HI (live_available db root HI Hl) Hlen HP) as (Ha & Hlh & Hzh). apply available_Node; auto.
  - intros o HA. pose proof (run_ok db o HI HA) as HO. destruct (run o db) as [db' []|db' e| |]; [exists db'; by left|exists db'; right; by exists e|done|done].
Qed.

Lemma disk_path db a b : inv db → is_Some (diskdb db !! a) → length a = 32%nat → rtc (λ x y, y ∈ links x) a b →
  ∃ v, diskdb db !! b = Some v ∧ content b = Some v.
Proof.
  intros (L & H & HF) Ha Hl HP. pose proof (k_disk _ _ _ (k_right _ _ _ _ _ _ H)) as HD. revert Ha Hl.
  induction HP as [a|a c b Hac HP IH]; intros [v Hv] Hl; destruct (HD a v Hl Hv) as [Hc Hlk]; [by exists v|]. apply IH; [by apply Hlk|by eapply (links_len _ _ LAW)].
Qed.

(** C17: the disk is consistent at every moment. After any history, ended by a
    failed write or not, whatever a node on the disk refers to, directly or
    not, is on the disk with its content; and a [Commit] that succeeds puts
    the whole trie below its root there. *)
Theorem disk_always_closed disk db :
  closed disk → reachable disk db →
  (∀ h c, is_Some (diskdb db !! h) → length h = 32%nat → rtc (λ a b, b ∈ links a) h c → ∃ b, diskdb db !! c = Some b ∧ content c = Some b) ∧
  (∀ root db' c, available db root → length root = 32%nat → root ≠ zeroHash → Commit root db = Ok db' tt → rtc (λ a b, b ∈ links a) root c →
    ∃ b, diskdb db' !! c = Some b ∧ content c = Some b).
Proof.
  intros HC HR. pose proof (reachable_inv disk db HC HR) as HI. split; [intros h c; by apply disk_path|].
  intros root db' c Ha Hl Hz E HP. destruct HI as (L & H & HF). pose proof (Commit_ok content links rank LAW L db root H HF Hz) as HO. unfold ends in HO. rewrite E in HO.
  destruct HO as (L' & H' & HF' & _ & _ & Hroot). apply (disk_path db' root); [by exists L'| |done|done]. apply Hroot. apply (available_list L) in Ha; [|done]. tauto.
Qed.

End Lawful.
End Claims.

(** ** A concrete history *)

#[export] Instance demo_env : Environment := {
  cache := gmap bytes bytes; cache_new := ∅; cache_get c k := c !! k; cache_set c k v := <[k := v]> c;
  write_fails _ _ := false; range A m := map_to_list m;
  cache_new_get := lookup_empty (M := gmap bytes) (A := bytes);
  cache_set_get c k v k' v' := λ E, match proj1 (lookup_insert_Some c k k' v v') E with
    | or_introl (conj H1 H2) => or_introl (conj (eq_sym H1) (eq_sym H2)) | or_intror (conj _ H) => or_intror H end;
  range_perm A m := Permutation_refl _;
}.

Definition demo_hash (x : Z) : bytes := repeat (z2b x) 32.

(** A leaf, a branch above it, and an account whose storage that is. *)
Definition demo_leaf : node := shortNode [z2b 0x20; z2b 0x11] (valueNode (repeat (z2b 7) 40)) newFlag.
Definition demo_branch : node := fullNode (hashNode (demo_hash 1) :: valueNode [z2b 5] :: repeat nil_ 15) newFlag.
Definition demo_account : node := shortNode [z2b 0x20; z2b 0x22] (valueNode (repeat (z2b 9) 50)) newFlag.

Definition blob_of (n : node) : option bytes := r ← simplify (inl n); rlp (mk_cached r 0 0 None zeroHash zeroHash).

Definition demo_content (h : bytes) : option bytes :=
  if decide (h = demo_hash 1) then blob_of demo_leaf else if decide (h = demo_hash 2) then blob_of demo_branch
  else if decide (h = demo_hash 3) then blob_of demo_account else None.

Definition demo_links (h : bytes) : list bytes :=
  if decide (h = demo_hash 2) then [demo_hash 1] else if decide (h = demo_hash 3) then [demo_hash 2] else [].

Definition demo_rank (h : bytes) : nat := if decide (h = demo_hash 2) then 1 else if decide (h = demo_hash 3) then 2 else 0.

Lemma demo_links_in h c : c ∈ demo_links h → (h = demo_hash 2 ∧ c = demo_hash 1) ∨ (h = demo_hash 3 ∧ c = demo_hash 2).
Proof. unfold demo_links. repeat case_decide; rewrite ?list_elem_of_singleton; intros Hc; [by left|by right|by apply not_elem_of_nil in Hc]. Qed.

Lemma demo_lawful : lawful demo_links demo_rank.
Proof.
  split.
  - intros h c [[-> ->]|[-> ->]]%demo_links_in; vm_compute; lia.
  - by intros h c [[-> ->]|[-> ->]]%demo_links_in.
  - by intros h [[_ E]|[_ E]]%demo_links_in; vm_compute in E.
Qed.

Lemma demo_closed : closed demo_content demo_links ∅.
Proof. intros h b _. by rewrite lookup_empty. Qed.

#[local] Instance available_dec db h : Decision (available db h).
Proof. unfold available. apply _. Defined.

(** Steps that may be done, by computation. *)
Definition step_check (db : Database) (o : op) : bool :=
  match o with
  | Store hash size n exts =>
      match simplify n with
      | Some r =>
          bool_decide (length hash = 32%nat ∧ hash ≠ zeroHash ∧ demo_links hash = forGatherChildren r ++ exts ∧ Forall (available db) (forGatherChildren r ++ exts)) &&
          bool_decide (rlp (mk_cached r 0 0 None zeroHash zeroHash) = demo_content hash ∧ is_Some (demo_content hash)) &&
          bool_decide (map_Forall (λ _ e, parents e + Z.of_nat (length (forGatherChildren r ++ exts)) < 2 ^ 32) (dirties db))
      | None => false
      end
  | Root child => bool_decide (length child = 32%nat ∧ child ≠ zeroHash ∧ available db child) && bool_decide (map_Forall (λ _ e, parents e + 1 < 2 ^ 32) (dirties db)) &&
      match dirties db !! zeroHash with Some z => ext z child <? 2 ^ 16 - 1 | None => false end
  | Unroot root => bool_decide (root ≠ zeroHash) && match dirties db !! zeroHash with Some z => 0 <? ext z root | None => false end
  | Persist root => bool_decide (root ≠ zeroHash)
  | _ => true
  end.

Lemma step_check_ok db o : step_check db o = true → (∀ h p, o ≠ Preimage h p) → (∀ h, o ≠ Read h) → allowed demo_content demo_links db o.
Proof.
  intros H HP HR. destruct o as [hash size n exts|child|root|limit|root|hash p|hash]; cbn [step_check allowed] in *; try done; [| | |by apply bool_decide_eq_true in H|by destruct (HP hash p)|by destruct (HR hash)].
  - destruct (simplify n) as [r|] eqn:Er; [|done]. apply andb_prop in H as [[H1 H2]%andb_prop H3]. apply bool_decide_eq_true in H1, H2, H3.
    destruct H1 as (? & ? & El & ?), H2 as (E1 & b & E2). exists r, b. split_and!; try done; [congruence|]. intros c. by rewrite El.
  - apply andb_prop in H as [[H1 H2]%andb_prop H3]. apply bool_decide_eq_true in H1, H2. destruct H1 as (? & ? & ?). split_and!; try done.
    intros z Ez. rewrite Ez in H3. by apply Z.ltb_lt.
  - apply andb_prop in H as [H1 H2]. apply bool_decide_eq_true in H1. split; [done|]. unfold live. destruct (dirties db !! zeroHash) as [z|]; [|done]. exists z. split; [done|]. by apply Z.ltb_lt.
Qed.

Fixpoint run_all (db : Database) (l : list op) : option Database :=
  match l with
  | [] => Some db
  | o :: l => if step_check db o then match run o db with Ok db _ => run_all db l | _ => None end else None
  end.

Lemma run_all_reachable l : Forall (λ o, (∀ h p, o ≠ Preimage h p) ∧ ∀ h, o ≠ Read h) l → ∀ db db', reachable demo_content demo_links ∅ db → run_all db l = Some db' → reachable demo_content demo_links ∅ db'.
Proof.
  induction 1 as [|o l [Ho1 Ho2] Hl IH]; intros db db' HR E; cbn in E; [by injection E as <-|]. destruct (step_check db o) eqn:Ec; [|done].
  destruct (run o db) as [db1 []|?|?|] eqn:Er; try done. eapply IH; [|exact E]. eapply reach_ok; [exact HR| |exact Er]. by apply step_check_ok.
Qed.

(** The account is referenced twice and given up once; the leaf and a part of
    the rest are flushed in between. *)
Definition demo_history : list op :=
  [Store (demo_hash 1) 44 (inl demo_leaf) []; Store (demo_hash 2) 60 (inl demo_branch) []; Root (demo_hash 2);
   Store (demo_hash 3) 54 (inl demo_account) [demo_hash 2]; Root (demo_hash 3); Root (demo_hash 3);
   Unroot (demo_hash 2); Flush 400; Unroot (demo_hash 3)].

Definition demo_db : Database := default (NewDatabase ∅) (run_all (NewDatabaseWithCache ∅ 16) demo_history).

Lemma run_all_default l db d : Forall (λ o, (∀ h p, o ≠ Preimage h p) ∧ ∀ h, o ≠ Read h) l → reachable demo_content demo_links ∅ db →
  match run_all db l with Some _ => true | None => false end = true → reachable demo_content demo_links ∅ (default d (run_all db l)).
Proof. intros Hl HR. destruct (run_all db l) as [db'|] eqn:E; [|done]. intros _. cbn. by eapply run_all_reachable. Qed.

Lemma demo_reachable : reachable demo_content demo_links ∅ demo_db.
Proof. apply run_all_default; [repeat constructor; done|apply reach_new|by vm_compute]. Qed.

Lemma live_check db root : match dirties db !! zeroHash with Some z => 0 <? ext z root | None => false end = true → live db root.
Proof. unfold live. destruct (dirties db !! zeroHash) as [z|]; [|done]. intros H%Z.ltb_lt. by exists z. Qed.

Lemma demo_live : live demo_db (demo_hash 3).
Proof. apply live_check. by vm_compute. Qed.

(** The leaf has been flushed, the account has not. *)
Example demo_parts : bool_decide (is_Some (diskdb demo_db !! demo_hash 1)) = true ∧ diskdb demo_db !! demo_hash 3 = None.
Proof. by vm_compute. Qed.

Lemma demo_path : rtc (λ a b, b ∈ demo_links a) (demo_hash 3) (demo_hash 1).
Proof. apply (rtc_l _ _ (demo_hash 2)); [|apply (rtc_l _ _ (demo_hash 1)); [|done]]; by left. Qed.

Lemma database_keeps_live_nodes_witness : ∃ db' b, Node (demo_hash 1) demo_db = Ok db' b ∧ demo_content (demo_hash 1) = Some b.
Proof.
  apply (proj1 (database_keeps_live_nodes demo_content demo_links demo_rank demo_lawful ∅ demo_db demo_closed demo_reachable) (demo_hash 3) (demo_hash 1) demo_live);
    [done|by vm_compute|exact demo_path].
Defined.

Definition demo_committed : Database := match Commit (demo_hash 3) demo_db with Ok db _ => db | _ => demo_db end.

Lemma commit_check root db : match Commit root db with Ok _ _ => true | _ => false end = true → Commit root db = Ok (match Commit root db with Ok db _ => db | _ => db end) tt.
Proof. by destruct (Commit root db) as [? []| | |]. Qed.

Lemma demo_commit : Commit (demo_hash 3) demo_db = Ok demo_committed tt.
Proof. apply commit_check. by vm_compute. Qed.

Lemma demo_available : available demo_db (demo_hash 3).
Proof. apply (bool_decide_unpack _). by vm_compute. Qed.

Lemma disk_always_closed_witness : ∃ b, diskdb demo_committed !! demo_hash 2 = Some b ∧ demo_content (demo_hash 2) = Some b.
Proof.
  apply (proj2 (disk_always_closed demo_content demo_links demo_rank demo_lawful ∅ demo_db demo_closed demo_reachable) (demo_hash 3) demo_committed (demo_hash 2) demo_available);
    [done|by vm_compute|exact demo_commit|]. apply (rtc_l _ _ (demo_hash 2)); [by left|done].
Defined.

End TrieDbClaims.
