(* ===== verification/TrieCommit.v ===== *)
(** * TrieCommit: committing tries (trie/committer.go, trie.go, secure_trie.go)

    The committer collapses a hashed trie bottom up and hands its nodes to the
    node database; a secure trie hashes its keys and keeps their preimages.

    - With a leaf callback, the committer sends the nodes over a channel to
      [commitLoop]; without one it inserts them itself. Either way they are
      inserted in the order in which [store] meets them, so [commit] returns
      them as a list and [commitLoop] inserts it.
    - A nil callback is [None]. The pools of committers are left out. *)

From stdpp Require Import base gmap list.
From Stdlib Require Import ZArith Lia.
From S2P Require Import Prelude Rlp Trie TrieHash TrieDb.

Local Open Scope Z_scope.

Module TrieCommit.
Import Trie TrieHash TrieDb.

(** ** The committer (committer.go) *)

Record leaf := mk_leaf { lf_size : Z; lf_hash : bytes; lf_node : node; lf_vnodes : bool }.

Definition commitNeeded (n : node) : bool :=
  let '(hash, dirty) := TrieHash.cache n in
  match hash with None => true | Some _ => dirty end.

(** A nil node without a place in a full node is a panic. *)
Fixpoint estimateSize (n : node) : option Z :=
  match n with
  | shortNode Key Val _ => (λ s, 3 + Z.of_nat (length Key) + s) <$> estimateSize Val
  | fullNode cs _ =>
      foldl (λ s x, s ← s; x ← x; Some (s + x)) (Some 3) (take 16 (map (λ c, if is_nil c then Some 1 else estimateSize c) cs))
  | valueNode v => Some (1 + Z.of_nat (length v))
  | hashNode h => Some (1 + Z.of_nat (length h))
  | nil_ => None
  end.

Section WithHash.
Context (keccak : bytes → bytes).

Definition makeHashNode (data : bytes) : bytes := keccak data.

(** The node or its hash, and what is sent to the database. *)
Definition store (n : node) (force vnodes : bool) : TR (node * list leaf) :=
  match fst (TrieHash.cache n) with
  | None =>
      match n with
      | valueNode _ =>
          tmp ← encode n;
          if (length tmp <? 32)%nat && negb force then Ret (n, [])
          else
            let hash := makeHashNode tmp in
            Ret (hashNode hash, [mk_leaf (Z.of_nat (length tmp)) (BytesToHash hash) n vnodes])
      | _ => Ret (n, [])
      end
  | Some hash =>
      size ← index (estimateSize n);
      Ret (hashNode hash, [mk_leaf size (BytesToHash hash) n vnodes])
  end.

Definition is_value (n : node) : bool := match n with valueNode _ => true | _ => false end.

(** The children, nil ones skipped, and their leaves in order. *)
Fixpoint commit_children (commit : node → bool → TR (node * list leaf)) (cs : list node) : TR (list node * list leaf) :=
  match cs with
  | [] => Ret ([], [])
  | c :: cs =>
      '(c', l) ← (if is_nil c then Ret (nil_, []) else commit c false);
      '(cs', ls) ← commit_children commit cs;
      Ret (c' :: cs', l ++ ls)
  end.

Definition commitChildren (commit : node → bool → TR (node * list leaf)) (cs : list node) : TR (list node * bool * list leaf) :=
  '(children, ls) ← commit_children commit cs;
  Ret (children, existsb is_value children, ls).

Fixpoint commit (n : node) (force : bool) {struct n} : TR (node * list leaf) :=
  match TrieHash.cache n with
  | (Some hash, false) => Ret (hashNode hash, [])
  | _ =>
      match n with
      | shortNode Key Val fl =>
          '(val, ls) ← (if is_value Val then Ret (Val, []) else commit Val false);
          key ← index (hexToCompact Key);
          '(hashedNode, l) ← store (shortNode key val fl) force true;
          Ret (hashedNode, ls ++ l)
      | fullNode cs fl =>
          '(hashedKids, hasVnodes, ls) ← commitChildren commit cs;
          '(hashedNode, l) ← store (fullNode hashedKids fl) force hasVnodes;
          Ret (hashedNode, ls ++ l)
      | valueNode _ => store n force false
      | hashNode _ => Ret (n, [])
      | nil_ => Panic
      end
  end.

(** [committer.Commit]: the root is a hash. *)
Definition commit_root (n : node) : TR (bytes * list leaf) :=
  '(h, ls) ← commit n true;
  match h with
  | hashNode hash => Ret (hash, ls)
  | _ => Panic
  end.

Section WithDatabase.
Context `{ENV : Environment}.

Local Notation "x <- m ;; k" := (TrieDb.bind m (λ x, k)) (at level 100, m at next level, right associativity).
Local Notation "m ;;; k" := (TrieDb.bind m (λ _, k)) (at level 100, right associativity).

(** The values below a stored node that the callback is told of. *)
Definition leaf_values (n : node) : list bytes :=
  match n with
  | shortNode _ (valueNode v) _ => [v]
  | fullNode cs _ => omap (λ c, match c with valueNode v => Some v | _ => None end) (take 16 cs)
  | _ => []
  end.

Definition commit_leaf (onleaf : option (bytes → bytes → M unit)) (l : leaf) : M unit :=
  insert (lf_hash l) (lf_size l) (inl (lf_node l));;;
  match onleaf with
  | Some f => if lf_vnodes l then each (λ v, f v (lf_hash l)) (leaf_values (lf_node l)) else ret tt
  | None => ret tt
  end.

Definition commitLoop (onleaf : option (bytes → bytes → M unit)) (ls : list leaf) : M unit := each (commit_leaf onleaf) ls.

(** Hashing and collapsing return no errors. *)
Definition lift {A} (m : TR A) : M A := λ db, match m with Ret a => Ok db a | _ => Crash end.

(** ** The trie (trie.go) *)

(** The nodes a trie with this database sees. *)
Definition db_view (db : Database) (h : bytes) : option node :=
  match node_ (BytesToHash h) db with Ok _ n => n | _ => None end.

Definition Commit (onleaf : option (bytes → bytes → M unit)) (t : Trie) : M (bytes * Trie) :=
  match root t with
  | nil_ => ret (emptyRoot, t)
  | _ =>
      r <- lift (Hash keccak t);;
      let '(rootHash, t) := r in
      if negb (commitNeeded (root t)) then ret (rootHash, t)
      else
        c <- lift (commit_root (root t));;
        let '(newRoot, ls) := c in
        commitLoop onleaf ls;;;
        ret (rootHash, mk_Trie (hashNode newRoot) (unhashed t))
  end.

(** ** Secure tries (secure_trie.go) *)

(** [owned]: the key cache belongs to this trie and not to the one it was
    copied from. *)
Record SecureTrie := mk_Secure { s_trie : Trie; secKeyCache : gmap bytes bytes; owned : bool }.

Definition hashKey (key : bytes) : bytes := keccak key.

Definition getSecKeyCache (t : SecureTrie) : SecureTrie :=
  if owned t then t else mk_Secure (s_trie t) ∅ true.

Definition NewSecure (db : Database) (r : bytes) : TR SecureTrie :=
  t ← New (db_view db) r; Ret (mk_Secure t ∅ false).

Definition secure_TryGet (db : Database) (t : SecureTrie) (key : bytes) : TR (option bytes * SecureTrie) :=
  '(v, t') ← TryGet (db_view db) (s_trie t) (hashKey key);
  Ret (v, mk_Secure t' (secKeyCache t) (owned t)).

Definition secure_TryUpdate (db : Database) (t : SecureTrie) (key value : bytes) : TR SecureTrie :=
  let hk := hashKey key in
  t' ← TryUpdate (db_view db) (s_trie t) hk value;
  let t := getSecKeyCache (mk_Secure t' (secKeyCache t) (owned t)) in
  Ret (mk_Secure (s_trie t) (<[hk := key]> (secKeyCache t)) (owned t)).

Definition secure_TryDelete (db : Database) (t : SecureTrie) (key : bytes) : TR SecureTrie :=
  let hk := hashKey key in
  let t := getSecKeyCache t in
  let cache := delete hk (secKeyCache t) in
  t' ← TryDelete (db_view db) (s_trie t) hk;
  Ret (mk_Secure t' cache (owned t)).

Definition GetKey (db : Database) (t : SecureTrie) (shaKey : bytes) : option bytes * SecureTrie :=
  let t := getSecKeyCache t in
  match secKeyCache t !! shaKey with
  | Some key => (Some key, t)
  | None => (preimage db (BytesToHash shaKey), t)
  end.

Definition secure_Commit (onleaf : option (bytes → bytes → M unit)) (t : SecureTrie) : M (bytes * SecureTrie) :=
  let t := getSecKeyCache t in
  (if (0 <? size (secKeyCache t))%nat
   then each (λ p, insertPreimage (BytesToHash p.1) p.2) (range (secKeyCache t)) else ret tt);;;
  r <- Commit onleaf (s_trie t);;
  let '(root, t') := r in
  ret (root, mk_Secure t' (if (0 <? size (secKeyCache t))%nat then ∅ else secKeyCache t) (owned t)).

Definition secure_Hash (t : SecureTrie) : TR (bytes * SecureTrie) :=
  '(h, t') ← Hash keccak (s_trie t);
  Ret (h, mk_Secure t' (secKeyCache t) (owned t)).

Definition secure_Copy (t : SecureTrie) : SecureTrie := mk_Secure (s_trie t) (secKeyCache t) false.

End WithDatabase.
End WithHash.
End TrieCommit.
