(* ===== verification/TrieCommitProofs.v ===== *)
(** * TrieCommitProofs: what the committer stores

    On a hashed trie the committer stores every node that is not clean, under
    its hash, after the nodes it refers to, and what is stored expands to what
    the encoding of the node parses to. *)

From stdpp Require Import base gmap list.
From Stdlib Require Import ZArith Lia.
From S2P Require Import Prelude Rlp RlpProofs Trie TrieProofs TrieHash TrieHashProofs MerkleProofs TrieDb TrieCommit.

Local Open Scope Z_scope.

(** ** NeatProofs: what the flags of the nodes in memory promise the committer

    A node that is not dirty is in the database, and below a node with a
    cached hash every node that deserves one has one. Lookups, updates,
    deletions and hashing keep this, and hashing a trie hashes all of it. *)

Module NeatProofs.
Import Rlp RlpProofs Trie TrieProofs TrieHash TrieHashProofs.

Section Neat.
Context (keccak : bytes → bytes) (keccak_32 : ∀ b, length (keccak b) = 32%nat) (db_node : bytes → option node).

Abbreviation item := (item keccak).
Abbreviation fold_ref := (fold_ref keccak).
Abbreviation big := (big keccak).
Abbreviation good := (good keccak db_node).

(** Every node that is to be referred to by its hash has it. *)
Inductive hashed : node → Prop :=
  | hashed_nil : hashed nil_
  | hashed_value v : hashed (valueNode v)
  | hashed_hash h : hashed (hashNode h)
  | hashed_short K V fl : hashed V → (big (shortNode K V fl) → is_Some (fl_hash fl)) → hashed (shortNode K V fl)
  | hashed_full cs fl : Forall hashed cs → (big (fullNode cs fl) → is_Some (fl_hash fl)) → hashed (fullNode cs fl).

(** [D h]: the node with hash [h] is in the database. *)
Context (D : bytes → Prop).

(** What the flags say of a node that is not dirty; one without a hash is a
    part of the node it was loaded with. *)
Definition clean_ok (top : bool) (n : node) (fl : nodeFlag) : Prop :=
  fl_dirty fl = false → match fl_hash fl with Some h => D h | None => top = false ∧ ¬ big n end.

Inductive neat : bool → node → Prop :=
  | neat_nil top : neat top nil_
  | neat_value top v : neat top (valueNode v)
  | neat_hash top h : D h → neat top (hashNode h)
  | neat_short top K V fl : neat false V → (is_Some (fl_hash fl) → hashed V) → clean_ok top (shortNode K V fl) fl → neat top (shortNode K V fl)
  | neat_full top cs fl : Forall (neat false) cs → (is_Some (fl_hash fl) → Forall hashed cs) → clean_ok top (fullNode cs fl) fl → neat top (fullNode cs fl).

(** Nodes loaded from the database are so. *)
Hypothesis db_neat : ∀ top h n, db_node h = Some n → D h → neat top n ∧ hashed n.

Lemma neat_stable : stable db_node neat.
Proof.
  split; [constructor|constructor| | | | |].
  - intros top K V HV. constructor; [done|by intros [? ?]|done].
  - intros top cs HV. constructor; [done|by intros [? ?]|done].
  - intros top K V fl Hn. by inversion Hn.
  - intros top cs fl Hn. by inversion Hn.
  - intros top h n E Hn. inversion Hn; subst. by eapply db_neat.
Qed.

Lemma tryGet_neat fuel : ∀ n key pos r n' d top,
  good top n → neat top n → tryGet db_node fuel n key pos = Ret (r, n', d) → neat top n' ∧ (hashed n → hashed n').
Proof.
  induction fuel as [|fuel IH]; intros n key pos r n' d top Hg Hn E; [done|]. destruct n as [|v|h|K V fl|cs fl]; cbn [tryGet] in E.
  1-2: by simplify_eq.
  - apply outcome_bind_Ret in E as (rn & Er%resolveHash_inv & E). apply outcome_bind_Ret in E as ([[v nn] d'] & E & [= <- <- <-]).
    inversion Hn as [| |top' h' HD| |]; subst. destruct (db_neat top h rn Er HD) as [N1 N2].
    destruct (IH _ _ _ _ _ _ _ (sb_hash _ _ (good_stable keccak db_node) _ _ _ Er Hg) N1 E) as [H1 H2]. auto.
  - destruct (_ || _); [by simplify_eq|]. apply outcome_bind_Ret in E as ([[v nn] d'] & E & [= <- <- <-]).
    inversion Hg as [| | |top' K' V' fl' HV Hf|]; subst. inversion Hn as [| | |top' K' V' fl' NV Hh Hc|]; subst. destruct d'; [|done].
    destruct (IH _ _ _ _ _ _ _ HV NV E) as [H1 H2]. destruct (tryGet_good keccak db_node _ _ _ _ _ _ _ _ HV E) as [_ [_ Ek]]. specialize (Ek eq_refl).
    assert (Eb : big (shortNode K nn fl) ↔ big (shortNode K V fl)) by (unfold TrieHashProofs.big; cbn [TrieHashProofs.item]; by rewrite Ek).
    split; [constructor; [done|auto|]|].
    + intros Hd. specialize (Hc Hd). destruct (fl_hash fl); [done|]. by rewrite Eb.
    + intros Hs. inversion Hs; subst. constructor; [auto|]. by rewrite Eb.
  - apply outcome_bind_Ret in E as (k & _ & E). apply outcome_bind_Ret in E as (c & Hk%index_inv & E).
    apply outcome_bind_Ret in E as ([[v nn] d'] & E & [= <- <- <-]). destruct d'; [|done].
    inversion Hg as [| | | |top' cs' fl' HF Hf]; subst. inversion Hn as [| | | |top' cs' fl' NF Hh Hc]; subst.
    pose proof (Forall_child _ _ _ _ HF Hk) as HV. pose proof (Forall_child _ _ _ _ NF Hk) as NV.
    destruct (IH _ _ _ _ _ _ _ HV NV E) as [H1 H2]. destruct (tryGet_good keccak db_node _ _ _ _ _ _ _ _ HV E) as [_ [_ Ek]]. specialize (Ek eq_refl).
    assert (Eb : big (fullNode (set_child cs k nn) fl) ↔ big (fullNode cs fl)) by (unfold TrieHashProofs.big; by rewrite (item_set_child keccak cs fl fl k c nn Hk Ek)).
    assert (Hhs : Forall hashed cs → Forall hashed (set_child cs k nn)) by (intros HH; apply Forall_set_child; [done|]; apply H2; by eapply Forall_child).
    split; [constructor; [by apply Forall_set_child|auto|]|].
    + intros Hd. specialize (Hc Hd). destruct (fl_hash fl); [done|]. by rewrite Eb.
    + intros Hs. inversion Hs; subst. constructor; [auto|]. by rewrite Eb.
Qed.

(** ** Hashing *)

Definition hash_neat_at (n : node) : Prop := ∀ force hd n', good force n → bounded db_node n → neat force n →
  hash keccak n force = Ret (hd, n') → neat force n' ∧ hashed n'.

(** The last step: the flag of a node that is big, or of the root, is set. *)
Lemma set_hash_neat n y fl force hd :
  hashed_as keccak force n hd → TrieHashProofs.alike n y → fl_hash fl = None → clean_ok force n fl →
  (∃ K V, y = shortNode K V fl ∧ neat false V ∧ hashed V) ∨ (∃ cs, y = fullNode cs fl ∧ Forall (neat false) cs ∧ Forall hashed cs) →
  neat force (set_hash y hd) ∧ hashed (set_hash y hd).
Proof.
  intros Hh Ha Ef Hc Hy. assert (Hal : TrieHashProofs.alike n (set_hash y hd)) by (unfold TrieHashProofs.alike; rewrite Ha; by destruct y).
  assert (Eb : big (set_hash y hd) ↔ big n) by (unfold TrieHashProofs.big; by rewrite (alike_item keccak _ _ Hal)).
  set (h := match hd with hashNode h => Some h | _ => None end).
  assert (Hbig : big n → is_Some h).
  { intros Hb. destruct Hh as [[_ ->]|(_ & Hs & _)]; [by eexists|done]. }
  assert (Hclean : clean_ok force (set_hash y hd) (mk_flag h (fl_dirty fl))).
  { intros Hd. cbn in Hd |- *. specialize (Hc Hd). rewrite Ef in Hc. destruct Hc as [-> Hs]. destruct h eqn:Eh; [|split; [done|by rewrite Eb]]. exfalso. unfold h in Eh.
    destruct Hh as [[[?|?] _]|(_ & _ & Hsd & _)]; [done|done|]. by destruct hd. }
  destruct Hy as [(K & V & -> & NV & HV)|(cs & -> & NV & HV)]; cbn [set_hash] in *; fold h in Eb, Hclean |- *.
  - split; constructor; auto. intros Hb. cbn. apply Hbig. by apply Eb.
  - split; constructor; auto. intros Hb. cbn. apply Hbig. by apply Eb.
Qed.

Lemma hash_children_neat cs : ∀ k xs ys, Forall (λ c, c ≠ nil_ → ∀ hd y, hash keccak c false = Ret (hd, y) → neat false y ∧ hashed y) (take k cs) →
  Forall (λ c, neat false c ∧ hashed c) (drop k cs) → hash_children (hash keccak) k cs = Ret (xs, ys) → Forall (neat false) ys ∧ Forall hashed ys.
Proof.
  induction cs as [|c cs IH]; intros k xs ys Ht Hd E; [by destruct k; injection E as <- <-|]. destruct k as [|k]; cbn [hash_children] in E.
  - injection E as <- <-. by apply Forall_and.
  - cbn [take drop] in *. inversion Ht as [|? ? Hc Ht']; subst. apply outcome_bind_Ret in E as ([x y] & Ec & E). apply outcome_bind_Ret in E as ([xs' ys'] & E & [= <- <-]).
    destruct (IH k xs' ys' Ht' Hd E) as [I1 I2]. destruct (decide (c = nil_)) as [->|Hn]; [injection Ec as <- <-; split; constructor; auto; constructor|].
    assert (En : is_nil c = false) by (by destruct c). rewrite En in Ec. destruct (Hc Hn x y Ec) as [? ?]. split; by constructor.
Qed.

(** A node with a cached hash stays as it is. *)
Lemma hash_cached n force h : fst (cache n) = Some h → hash keccak n force = Ret (hashNode h, n).
Proof. destruct n; cbn [hash cache fst]; try done; by intros ->. Qed.

Lemma neat_cached n force h : neat force n → fst (cache n) = Some h → hashed n.
Proof.
  intros HN Ec. inversion HN as [| | |top K V fl NV Hh Hc|top cs fl NV Hh Hc]; subst; try done; cbn in Ec; constructor; rewrite ?Ec; [apply Hh; by eexists|by eexists|apply Hh; by eexists|by eexists].
Qed.

Lemma hash_short_neat K V fl force hd n' : wf db_node (shortNode K V fl) → hash_neat_at V →
  good force (shortNode K V fl) → bounded db_node (shortNode K V fl) → neat force (shortNode K V fl) → fl_hash fl = None →
  hash keccak (shortNode K V fl) force = Ret (hd, n') → neat force n' ∧ hashed n'.
Proof.
  intros Hw IH Hg Hb HN Ef Eh. destruct (hash_ok keccak keccak_32 db_node _ Hw force Hg Hb) as (hd0 & n0 & E0 & Hh & Ha & _). rewrite Eh in E0. injection E0 as <- <-.
  rewrite decide_True in Hh by done. cbn [hash cache fst] in Eh. rewrite Ef in Eh. apply outcome_bind_Ret in Eh as ([c y] & Ec & Eh). apply outcome_bind_Ret in Eh as (hd' & _ & [= <- <-]).
  unfold hashShortNodeChildren in Ec. apply outcome_bind_Ret in Ec as (k & _ & Ec). apply outcome_bind_Ret in Ec as ([x y'] & Ev & [= <- <-]).
  inversion Hg as [| | |top' K' V' fl' HV Hf|]; subst. inversion HN as [| | |top' K' V' fl' NV Hk Hc|]; subst. apply bounded_short in Hb.
  assert (Hy : neat false y' ∧ hashed y').
  { destruct V; try (injection Ev as <- <-; split; [done|constructor]); by eapply IH. }
  destruct Hy as [Hy1 Hy2]. eapply (set_hash_neat (shortNode K V fl) (shortNode K y' fl) fl); [exact Hh| |done|done|left; by exists K, y'].
  unfold TrieHashProofs.alike in *. cbn in Ha |- *. done.
Qed.

Lemma hash_full_neat cs fl force hd n' : wf db_node (fullNode cs fl) → (∀ i c, cs !! i = Some c → (i < 16)%nat → c ≠ nil_ → hash_neat_at c) →
  good force (fullNode cs fl) → bounded db_node (fullNode cs fl) → neat force (fullNode cs fl) → fl_hash fl = None →
  hash keccak (fullNode cs fl) force = Ret (hd, n') → neat force n' ∧ hashed n'.
Proof.
  intros Hw IH Hg Hb HN Ef Eh. destruct (hash_ok keccak keccak_32 db_node _ Hw force Hg Hb) as (hd0 & n0 & E0 & Hh & Ha & _). rewrite Eh in E0. injection E0 as <- <-.
  rewrite decide_True in Hh by done. cbn [hash cache fst] in Eh. rewrite Ef in Eh. apply outcome_bind_Ret in Eh as ([c y] & Ec & Eh). apply outcome_bind_Ret in Eh as (hd' & _ & [= <- <-]).
  unfold hashFullNodeChildren in Ec. apply outcome_bind_Ret in Ec as ([xs ys] & Ec & [= <- <-]).
  inversion Hg as [| | | |top' cs' fl' HF Hf]; subst. inversion HN as [| | | |top' cs' fl' NF Hk Hc]; subst. pose proof Hw as [(Hl & _ & H2) _]%wf_slots.
  assert (Hy : Forall (neat false) ys ∧ Forall hashed ys).
  { eapply (hash_children_neat cs 16); [| |exact Ec]; apply Forall_lookup_2; intros i c Hi.
    - intros Hn hd y Ey. pose proof (lookup_lt_Some _ _ _ Hi) as Hlt. rewrite length_take in Hlt. rewrite lookup_take_Some in Hi. destruct Hi as [Hi _].
      eapply (IH i c Hi ltac:(lia) Hn false); [by eapply Forall_lookup_1|by eapply bounded_child|by eapply Forall_lookup_1|exact Ey].
    - rewrite lookup_drop in Hi. pose proof (lookup_lt_Some _ _ _ Hi) as Hlt. replace (16 + i)%nat with 16%nat in Hi by lia.
      destruct (decide (c = nil_)) as [->|Hn]; [split; constructor|]. destruct (H2 c Hi Hn) as (v & _ & ->). split; constructor. }
  destruct Hy as [Hy1 Hy2]. eapply (set_hash_neat (fullNode cs fl) (fullNode ys fl) fl); [exact Hh| |done|done|right; by exists ys].
  unfold TrieHashProofs.alike in *. cbn in Ha |- *. done.
Qed.

Lemma hash_neat n : wf db_node n → hash_neat_at n.
Proof.
  intros Hw. induction Hw as [K v fl HK Hv|K c fl HK Hn Hbr Hc IH|cs fl Hl H1 IH H2 H3|h n E Hs Hn IH]; intros force hd n' Hg Hb HN Eh;
    try (injection Eh as <- <-; split; [done|constructor]).
  all: match goal with fl : nodeFlag |- _ => destruct (fl_hash fl) as [h|] eqn:Ef end.
  all: try (rewrite (hash_cached _ _ h) in Eh by done; injection Eh as <- <-; split; [done|by eapply neat_cached]).
  - eapply hash_short_neat; [by constructor| |done..]. intros f hd0 n0 _ _ _ E0. injection E0 as <- <-. split; constructor.
  - eapply hash_short_neat; [by constructor|done..].
  - eapply hash_full_neat; [by constructor|done..].
Qed.

End Neat.
End NeatProofs.

Module TrieCommitProofs.
Import Rlp RlpProofs Trie TrieProofs TrieHash TrieHashProofs TrieCodec MerkleProofs NeatProofs TrieDb TrieCommit.

Section Commit.
Context (keccak : bytes → bytes) (keccak_32 : ∀ b, length (keccak b) = 32%nat) (db_node : bytes → option node) (D : bytes → Prop).

Abbreviation item := (item keccak).
Abbreviation fold_ref := (fold_ref keccak).
Abbreviation big := (big keccak).
Abbreviation digest := (digest keccak).
Abbreviation good := (good keccak db_node).
Abbreviation dec := (dec keccak).
Abbreviation dec_ref := (dec_ref keccak).
Abbreviation hashed := (hashed keccak).
Abbreviation neat := (neat keccak D).
Abbreviation bounded := (bounded db_node).
Abbreviation wf := (wf db_node).

(** ** Keys of one length *)

Definition uniform (n : node) : Prop := ∃ len, ∀ k v, holds db_node n k v → length k = len.

Lemma uniform_short K V fl : uniform (shortNode K V fl) → uniform V.
Proof. intros [l H]. exists (l - length K)%nat. intros k v Hh. specialize (H (K ++ k) v ltac:(by constructor)). rewrite length_app in H. lia. Qed.

Lemma uniform_child cs fl i c : wf (fullNode cs fl) → uniform (fullNode cs fl) → cs !! i = Some c → c ≠ nil_ → uniform c.
Proof.
  intros Hw [l H] Hi Hc. exists (l - 1)%nat. intros k v Hh. destruct (wf_full_at _ cs fl i c Hw Hi Hc) as (_ & _ & Hch).
  specialize (H _ v (holds_full _ _ _ _ _ _ _ Hch Hh)). cbn in H. lia.
Qed.

Lemma wf_holds_nonempty n : wf n → ∀ k v, holds db_node n k v → k ≠ [].
Proof.
  induction 1 as [K w fl HK Hw|K c fl HK Hn Hbr Hc IH|cs fl Hl H1 IH H2 H3|h n E Hs Hn IH]; intros k v Hh; inversion Hh; subst; try done.
  - apply hexkey_nonempty in HK. by destruct K.
  - by destruct K.
  - match goal with H : db_node h = Some ?x, H2 : holds _ ?x _ _ |- _ => assert (x = n) as -> by congruence; by eapply IH end.
Qed.

(** A value in the middle of a path would be the end of a shorter key. *)
Lemma uniform_last cs fl c : wf (fullNode cs fl) → uniform (fullNode cs fl) → cs !! 16%nat = Some c → c = nil_.
Proof.
  intros Hw [l H] Hc. destruct (decide (c = nil_)) as [?|Hn]; [done|exfalso]. pose proof Hw as Hw'. inversion Hw' as [| |cs' fl' Hl H1 H2 (i & j & a & b & Hij & Ha & Hb & Na & Nb)|]; subst.
  destruct (H2 c Hc Hn) as (v & _ & ->). destruct (wf_full_at _ cs fl 16 _ Hw Hc Hn) as (_ & _ & Hch). pose proof (H _ v (holds_full _ _ _ _ _ _ _ Hch (holds_value _ v))) as E1.
  pose proof (lookup_lt_Some _ _ _ Hb) as Hlt. assert (Hi : (i < 16)%nat) by lia. pose proof (H1 i a Ha Hi Na) as Hwa. destruct (wf_holds _ a Hwa) as (k & w & Hh).
  destruct (wf_full_at _ cs fl i a Hw Ha Na) as (_ & _ & Hcha). pose proof (H _ w (holds_full _ _ _ _ _ _ _ Hcha Hh)) as E2. cbn in E1, E2.
  assert (k = []) as -> by (destruct k; [done|cbn in E2; lia]). by apply (wf_holds_nonempty a Hwa _ _ Hh).
Qed.

(** ** Raw nodes *)

Lemma traverse_Forall2 {A B} (f : A → option B) l r : TrieDb.traverse f l = Some r ↔ Forall2 (λ x y, f x = Some y) l r.
Proof.
  split.
  - revert r. induction l as [|x l IH]; intros r E; cbn in E; [by injection E as <-|]. destruct (f x) as [y|] eqn:Ex; [|done]. cbn in E.
    destruct (TrieDb.traverse f l) as [ys|] eqn:El; [|done]. injection E as <-. constructor; [done|by apply IH].
  - induction 1 as [|x y l r E _ IH]; cbn; [done|]. by rewrite E, IH.
Qed.

(** Children as [simplifyNode] and [expandNode] treat them. *)
Definition simp (c : node) : option raw := if is_nil c then Some raw_nil else simplifyNode c.
Definition expd (r : raw) : option node := match r with raw_nil => Some nil_ | r => expandNode None r end.

(** The hashes a collapsed node refers to. *)
Fixpoint node_refs (n : node) : list bytes :=
  match n with
  | hashNode h => [BytesToHash h]
  | shortNode _ V _ => node_refs V
  | fullNode cs _ => concat (take 16 (map node_refs cs))
  | _ => []
  end.

Lemma simplify_facts c : ∀ r, simplifyNode c = Some r → raw_rlp r = rlp_value c ∧ forGatherChildren r = node_refs c ∧ (match r with raw_nil | rawNode _ => False | _ => True end).
Proof.
  induction c as [|v|h|K V fl IH|cs fl IH] using node_ind'; intros r E; cbn [simplifyNode] in E; [done|by injection E as <-|by injection E as <-| |].
  - destruct (simplifyNode V) as [rv|]; [|done]. injection E as <-. destruct (IH rv eq_refl) as (I1 & I2 & _). cbn. by rewrite I1, I2.
  - destruct (TrieDb.traverse _ cs) as [rs|] eqn:Et; [|done]. injection E as <-. apply traverse_Forall2 in Et. cbn [raw_rlp rlp_value forGatherChildren node_refs].
    assert (HF : Forall2 (λ c r, match r with raw_nil => VBytes [] | r => raw_rlp r end = (if is_nil c then VBytes [] else rlp_value c) ∧ forGatherChildren r = node_refs c) cs rs).
    { induction Et as [|c r cs rs Ec Et IHt]; [constructor|]. inversion IH as [|? ? Hc HF]; subst. constructor; [|by apply IHt]. destruct c; cbn [is_nil] in Ec; try (injection Ec as <-; done);
        destruct (Hc r Ec) as (I1 & I2 & I3); cbn [is_nil]; rewrite <- I1; by destruct r. }
    clear IH Et. split_and!; [f_equal| |done].
    + induction HF as [|c r cs rs [H1 _] HF IH]; cbn; [done|]. by rewrite H1, IH.
    + f_equal. f_equal. induction HF as [|c r cs rs [_ H2] HF IH]; cbn; [done|]. by rewrite H2, IH.
Qed.

Lemma estimate_Some c : ∀ r, simplifyNode c = Some r → is_Some (estimateSize c).
Proof.
  induction c as [|v|h|K V fl IH|cs fl IH] using node_ind'; intros r E; cbn [simplifyNode] in E; [done|by eexists|by eexists| |].
  - destruct (simplifyNode V) as [rv|]; [|done]. destruct (IH rv eq_refl) as [s Hs]. cbn. rewrite Hs. by eexists.
  - destruct (TrieDb.traverse _ cs) as [rs|] eqn:Et; [|done]. apply traverse_Forall2 in Et. cbn [estimateSize].
    assert (HF : Forall is_Some (map (λ c, if is_nil c then Some 1 else estimateSize c) cs)).
    { apply Forall_fmap. clear E. induction Et as [|c r' cs rs Ec Et IHt]; [constructor|]. inversion IH as [|? ? Hc HF]; subst. constructor; [|by apply IHt]. cbn.
      destruct (is_nil c); [by eexists|by eapply Hc]. }
    apply (Forall_take _ 16%nat) in HF. generalize 3. induction HF as [|x l [y ->] HF IHl]; intros s; cbn; [by eexists|apply IHl].
Qed.

(** ** References *)

(** What stands for the child [n] in a collapsed node. *)
Definition ref_ok (n cn : node) : Prop :=
  raw_child cn = fold_ref (item n) ∧ ∃ r, simp cn = Some r ∧ expd r = Some (dec_ref n (dec None n)).

Lemma ref_nil : ref_ok nil_ nil_.
Proof. split; [done|]. exists raw_nil. split; [done|]. by rewrite dec_ref_nil. Qed.

Lemma ref_value v : ref_ok (valueNode v) (valueNode v).
Proof. split; [done|]. exists (raw_value v). split; [done|]. by rewrite dec_ref_value. Qed.

Lemma ref_hash h : ref_ok (hashNode h) (hashNode h).
Proof. split; [done|]. exists (raw_hash h). split; [done|]. unfold TrieCodec.dec_ref. rewrite decide_False; [done|]. by intros [[] _]. Qed.

Lemma ref_big n : solid n → big n → ref_ok n (hashNode (digest n)).
Proof.
  intros Hs Hb. split; [by rewrite fold_big|]. exists (raw_hash (digest n)). split; [done|]. unfold TrieCodec.dec_ref. by rewrite decide_True.
Qed.

(** A collapsed node. *)
Definition collapsed (n C : node) : Prop :=
  solid C ∧ raw_item C = item n ∧ ∃ r, simplifyNode C = Some r ∧ ∀ h, expandNode h r = Some (dec h n).

Lemma ref_small n C : solid n → ¬ big n → collapsed n C → ref_ok n C.
Proof.
  intros Hs Hb (HC & Hi & r & Er & Ex). split; [rewrite fold_small by done; rewrite <- Hi; by destruct C|]. exists r. split; [by destruct C|].
  unfold TrieCodec.dec_ref. rewrite decide_False by tauto. rewrite <- (Ex None). destruct (simplify_facts C r Er) as (_ & _ & Hr). by destruct r.
Qed.

Lemma collapsed_short K V fl val fl' t : plain_key K t → ref_ok V val → V ≠ nil_ → collapsed (shortNode K V fl) (shortNode (compact K) val fl').
Proof.
  intros HK [Hv (r & Er & Ex)] Hn. destruct (compact_spec K t HK) as (_ & Ec & _).
  assert (Hnv : val ≠ nil_). { intros ->. injection Er as <-. injection Ex as Ex. unfold TrieCodec.dec_ref in Ex. destruct (decide _); [done|]. by destruct V. }
  assert (Er' : simplifyNode val = Some r) by (by destruct val). destruct (simplify_facts val r Er') as (_ & _ & Hr). split_and!; [done| |].
  - unfold raw_item in *. cbn [rlp_value item_of map TrieHashProofs.item]. rewrite <- Hv. unfold raw_child, raw_item. by destruct val.
  - exists (rawShortNode (compact K) r). cbn [simplifyNode expandNode]. rewrite Er'. split; [done|]. intros h. assert (expandNode None r = Some (dec_ref V (dec None V))) as -> by (by destruct r).
    cbn. by rewrite Ec.
Qed.

Lemma collapsed_full cs fl cs' fl' : Forall2 ref_ok cs cs' → collapsed (fullNode cs fl) (fullNode cs' fl').
Proof.
  intros HF. split_and!; [done| |].
  - rewrite raw_full. cbn [TrieHashProofs.item]. f_equal. induction HF as [|c c' cs cs' [H1 _] HF IH]; cbn; [done|]. by rewrite H1, IH.
  - assert (∃ rs, Forall2 (λ c r, simp c = Some r) cs' rs ∧ Forall2 (λ r c, expd r = Some (dec_ref c (dec None c))) rs cs) as (rs & H1 & H2).
    { induction HF as [|c c' cs cs' [_ (r & Er & Ex)] HF (rs & I1 & I2)]; [by exists []|]. exists (r :: rs). split; by constructor. }
    exists (rawFullNode rs). cbn [simplifyNode expandNode]. apply traverse_Forall2 in H1. change (λ c, if is_nil c then Some raw_nil else simplifyNode c) with simp.
    rewrite H1. split; [done|]. intros h. change (λ c, match c with raw_nil => Some nil_ | _ => expandNode None c end) with expd.
    assert (TrieDb.traverse expd rs = Some (map (λ c, dec_ref c (dec None c)) cs)) as ->; [|done]. apply traverse_Forall2. clear -H2. induction H2; cbn; by constructor.
Qed.

(** ** Leaves *)

(** A node that may go to the database, where [A] is there already. It stands
    for a node of [n]. *)
Definition leaf_ok (A : bytes → Prop) (n : node) (l : leaf) : Prop :=
  ∃ n0 top r, fit keccak db_node top n0 ∧ encodes keccak db_node n (enc (item n0)) ∧ lf_hash l = digest n0 ∧ raw_item (lf_node l) = item n0 ∧
    simplifyNode (lf_node l) = Some r ∧ (∀ h, expandNode h r = Some (dec h n0)) ∧ ∀ c, c ∈ node_refs (lf_node l) → A c.

Fixpoint leaves_ok (A : bytes → Prop) (n : node) (ls : list leaf) : Prop :=
  match ls with
  | [] => True
  | l :: ls => leaf_ok A n l ∧ leaves_ok (λ h, A h ∨ h = lf_hash l) n ls
  end.

Lemma leaf_mono (A A' : bytes → Prop) n n' l : (∀ h, A h → A' h) → (∀ e, encodes keccak db_node n e → encodes keccak db_node n' e) → leaf_ok A n l → leaf_ok A' n' l.
Proof. intros HA Hn (n0 & top & r & H1 & H2 & H3 & H4 & H5 & H6 & H7). exists n0, top, r. split_and!; auto. Qed.

Lemma leaves_mono ls n n' : (∀ e, encodes keccak db_node n e → encodes keccak db_node n' e) → ∀ A A' : bytes → Prop, (∀ h, A h → A' h) → leaves_ok A n ls → leaves_ok A' n' ls.
Proof.
  intros Hn. induction ls as [|l ls IH]; intros A A' HA; [done|]. intros [H1 H2]. split; [by eapply leaf_mono|]. eapply IH; [|exact H2]. cbn. intros h [?|?]; auto.
Qed.

Definition sent (A : bytes → Prop) (ls : list leaf) (h : bytes) : Prop := A h ∨ h ∈ map lf_hash ls.

Lemma leaves_app ls ls' n : ∀ A, leaves_ok A n ls → leaves_ok (sent A ls) n ls' → leaves_ok A n (ls ++ ls').
Proof.
  induction ls as [|l ls IH]; intros A H1 H2; cbn in *.
  - eapply leaves_mono; [|  |exact H2]; [done|]. by intros h [?|?%not_elem_of_nil].
  - destruct H1 as [H1 H1']. split; [done|]. apply IH; [done|]. eapply leaves_mono; [| |exact H2]; [done|]. unfold sent. cbn. intros h. rewrite elem_of_cons. tauto.
Qed.

Lemma sent_mono (A A' : bytes → Prop) ls h : (∀ x, A x → A' x) → sent A ls h → sent A' ls h.
Proof. intros HA [?|?]; [left; auto|by right]. Qed.

Lemma sent_app A ls ls' h : sent (sent A ls) ls' h ↔ sent A (ls ++ ls') h.
Proof. unfold sent. rewrite map_app, elem_of_app. tauto. Qed.

(** How many references the leaves have together. *)
Definition total (ls : list leaf) : nat := sum_list (map (λ l, length (node_refs (lf_node l))) ls).

Lemma total_app ls ls' : total (ls ++ ls') = (total ls + total ls')%nat.
Proof. unfold total. by rewrite map_app, sum_list_with_app || (rewrite map_app; induction (map _ ls) as [|x l IH]; cbn; lia). Qed.

(** The nodes in memory. *)
Fixpoint nsize (n : node) : nat :=
  match n with
  | shortNode _ V _ => S (nsize V)
  | fullNode cs _ => S (sum_list (map nsize cs))
  | _ => 1
  end.

(** ** The committer *)

Definition commit_at (n : node) : Prop := ∀ top, neat top n → hashed n → good top n → bounded n → uniform n → (top = true → is_Some (fst (TrieHash.cache n)) ∨ ¬ solid n) →
  ∃ cn ls, commit keccak n top = Ret (cn, ls) ∧ (top = false → ref_ok n cn) ∧ (∀ h, fst (TrieHash.cache n) = Some h → cn = hashNode (digest n)) ∧
    leaves_ok D n ls ∧ (∀ c, c ∈ node_refs cn → sent D ls c) ∧ (total ls + length (node_refs cn) <= nsize n)%nat.

Lemma toHash_digest n : BytesToHash (digest n) = digest n.
Proof. unfold BytesToHash. unfold TrieHashProofs.digest. by rewrite keccak_32. Qed.

Lemma refs_digest n c : c ∈ node_refs (hashNode (digest n)) → c = digest n.
Proof. cbn. rewrite toHash_digest. apply list_elem_of_singleton. Qed.

(** The last step for a node whose children are committed. *)
Lemma store_ok n C fl top v ls :
  fit keccak db_node top n → (TrieHash.cache n = (fl_hash fl, fl_dirty fl)) → (TrieHash.cache C = (fl_hash fl, fl_dirty fl)) → neat top n → hashed n → (top = true → is_Some (fst (TrieHash.cache n)) ∨ ¬ solid n) →
  collapsed n C → leaves_ok D n ls → (∀ c, c ∈ node_refs C → sent D ls c) → (S (total ls + length (node_refs C)) <= nsize n)%nat →
  ∃ cn l, store keccak C top v = Ret (cn, l) ∧ (top = false → ref_ok n cn) ∧ (∀ h, fst (TrieHash.cache n) = Some h → cn = hashNode (digest n)) ∧
    leaves_ok D n (ls ++ l) ∧ (∀ c, c ∈ node_refs cn → sent D (ls ++ l) c) ∧ (total (ls ++ l) + length (node_refs cn) <= nsize n)%nat.
Proof.
  intros F En EC HN HH Ht HC HL HR HZ. pose proof F as (Hs & Hw & Hg & Hb). pose proof HC as (HsC & Hi & r & Er & Ex). unfold store. rewrite EC, En. cbn [fst]. destruct (fl_hash fl) as [h|] eqn:Ef.
  - destruct (estimate_Some C r Er) as [sz Esz]. rewrite Esz. cbn [index mbind outcome_bind].
    assert (Hf : flag_ok keccak top n) by (by inversion Hg; subst). destruct (Hf h) as [-> Hbig]; [by rewrite En|]. eexists _, _. split; [done|]. split_and!.
    + intros ->. apply ref_big; auto.
    + done.
    + apply leaves_app; [done|]. split; [|done]. exists n, top, r. cbn. rewrite toHash_digest. split_and!; try done. by constructor.
    + intros c ->%refs_digest. apply sent_app. right. cbn. rewrite toHash_digest. by left.
    + rewrite total_app. unfold total at 2. cbn. lia.
  - assert (Hsm : ¬ big n). { intros Hbig. inversion HH; subst; try done; cbn in En; injection En as En _; match goal with H : _ → is_Some _ |- _ => destruct (H Hbig) as [? ?] end; congruence. }
    assert (top = false) as ->. { destruct top; [|done]. destruct Ht as [[? Hx]|?]; [done| |done]. rewrite En in Hx. cbn in Hx. congruence. }
    exists C, []. split; [by destruct C|]. rewrite app_nil_r. split_and!; [intros _; by apply ref_small|done|done|done|lia].
Qed.

Lemma sent_more A ls ls' h : sent A ls h → sent A (ls ++ ls') h.
Proof. unfold sent. rewrite map_app, elem_of_app. tauto. Qed.

Lemma sent_later A ls ls' h : sent A ls' h → sent A (ls ++ ls') h.
Proof. unfold sent. rewrite map_app, elem_of_app. tauto. Qed.

(** A clean node is in the database already. *)
Lemma commit_clean n top h : solid n → TrieHash.cache n = (Some h, false) → neat top n → good top n →
  ∃ cn ls, commit keccak n top = Ret (cn, ls) ∧ (top = false → ref_ok n cn) ∧ (∀ h, fst (TrieHash.cache n) = Some h → cn = hashNode (digest n)) ∧
    leaves_ok D n ls ∧ (∀ c, c ∈ node_refs cn → sent D ls c) ∧ (total ls + length (node_refs cn) <= nsize n)%nat.
Proof.
  intros Hs Ec HN Hg.
  assert (HD : D h). { inversion HN as [| | |top' K V fl NV Hk Hc|top' cs fl NV Hk Hc]; subst; try done; cbn in Ec; destruct fl as [fh fd]; cbn in Ec; simplify_eq; by apply Hc. }
  assert (Hf : flag_ok keccak top n) by (by inversion Hg; subst). destruct (Hf h) as [Eh Hbig]; [by rewrite Ec|].
  exists (hashNode h), []. split; [destruct n; try done; cbn [commit]; by rewrite Ec|]. rewrite Eh. split_and!; [intros ->; apply ref_big; auto|done|done| |destruct n; cbn; lia].
  intros c ->%refs_digest. left. by rewrite <- Eh.
Qed.

Lemma commit_children_ok N cs : Forall (λ c, c = nil_ ∨ (∃ cn ls, commit keccak c false = Ret (cn, ls) ∧ ref_ok c cn ∧ leaves_ok D c ls ∧ (∀ x, x ∈ node_refs cn → sent D ls x) ∧ (total ls + length (node_refs cn) <= nsize c)%nat) ∧
    ∀ e, encodes keccak db_node c e → encodes keccak db_node N e) cs →
  ∃ cs' ls, commit_children (commit keccak) cs = Ret (cs', ls) ∧ Forall2 ref_ok cs cs' ∧ leaves_ok D N ls ∧ Forall (λ c', ∀ x, x ∈ node_refs c' → sent D ls x) cs' ∧
    (total ls + sum_list (map (λ c, length (node_refs c)) cs') <= sum_list (map nsize cs))%nat.
Proof.
  induction 1 as [|c cs Hc HF (cs' & ls' & E & I1 & I2 & I3 & I4)]; [exists [], []; by split_and!|]. cbn [commit_children].
  assert (HC : ∃ cn ls, (if is_nil c then Ret (nil_, []) else commit keccak c false) = Ret (cn, ls) ∧ ref_ok c cn ∧ leaves_ok D N ls ∧ (∀ x, x ∈ node_refs cn → sent D ls x) ∧ (total ls + length (node_refs cn) <= nsize c)%nat).
  { destruct Hc as [->|[(cn & ls & Ec & H1 & H2 & H3 & H4) He]]; [exists nil_, []; split_and!; [done|apply ref_nil|done|by intros x ?%not_elem_of_nil|cbn; lia]|].
    destruct (is_nil c) eqn:En; [destruct c; done|]. exists cn, ls. split_and!; [done|done| |done|done]. eapply leaves_mono; [exact He| |exact H2]. done. }
  destruct HC as (cn & ls & -> & H1 & H2 & H3 & H4). cbn [mbind outcome_bind]. rewrite E. cbn [mbind outcome_bind]. eexists _, _. split; [done|]. split_and!; [by constructor| | |rewrite total_app; cbn; lia].
  - apply leaves_app; [done|]. eapply leaves_mono; [| |exact I2]; [done|]. intros h Hh. by left.
  - constructor; [intros x Hx; by apply sent_more, H3|]. eapply Forall_impl; [exact I3|]. intros c' Hc' x Hx. by apply sent_later, Hc'.
Qed.

Lemma commit_short K V fl top : wf (shortNode K V fl) → (∀ h, TrieHash.cache (shortNode K V fl) ≠ (Some h, false)) →
  (if is_value V then True else commit_at V) → neat top (shortNode K V fl) → hashed (shortNode K V fl) → good top (shortNode K V fl) → bounded (shortNode K V fl) →
  uniform (shortNode K V fl) → (top = true → is_Some (fst (TrieHash.cache (shortNode K V fl))) ∨ ¬ solid (shortNode K V fl)) →
  ∃ cn ls, commit keccak (shortNode K V fl) top = Ret (cn, ls) ∧ (top = false → ref_ok (shortNode K V fl) cn) ∧
    (∀ h, fst (TrieHash.cache (shortNode K V fl)) = Some h → cn = hashNode (digest (shortNode K V fl))) ∧ leaves_ok D (shortNode K V fl) ls ∧ (∀ c, c ∈ node_refs cn → sent D ls c) ∧ (total ls + length (node_refs cn) <= nsize (shortNode K V fl))%nat.
Proof.
  intros Hw Hnc IH HN HH Hg Hb Hu Ht. assert (HK : ∃ t, plain_key K t) by (inversion Hw; subst; eauto using hexkey_plain, nibbles_plain). destruct HK as [t HK].
  destruct (compact_spec K t HK) as (Ek & _ & _). inversion HN as [| | |top' K' V' fl' NV Hk Hc|]; subst. inversion HH as [| | |K' V' fl' HV Hbg|]; subst. inversion Hg as [| | |top' K' V' fl' HgV Hf|]; subst.
  assert (HnV : V ≠ nil_). { intros ->. inversion Hw; subst; done. }
  assert (HC : ∃ val ls, (if is_value V then Ret (V, []) else commit keccak V false) = Ret (val, ls) ∧ ref_ok V val ∧ leaves_ok D (shortNode K V fl) ls ∧ (∀ c, c ∈ node_refs val → sent D ls c) ∧ (total ls + length (node_refs val) <= nsize V)%nat).
  { destruct (is_value V) eqn:EV.
    - destruct V; try done. eexists _, []. split_and!; [done|apply ref_value|done|by intros x ?%not_elem_of_nil|cbn; lia].
    - destruct (IH false NV HV HgV (bounded_short _ _ _ _ Hb) (uniform_short _ _ _ Hu)) as (cn & ls & E & H1 & _ & H3 & H4 & H5); [done|]. exists cn, ls. split_and!; auto.
      eapply leaves_mono; [| |exact H3]; [|done]. intros e He. by constructor. }
  destruct HC as (val & ls & E & Hr & HL & HR & HZ).
  destruct (store_ok (shortNode K V fl) (shortNode (compact K) val fl) fl top true ls) as (cn & l & Es & S1 & S2 & S3 & S4); try done.
  { by eapply collapsed_short. }
  { cbn. lia. }
  exists cn, (ls ++ l). split; [|done]. cbn [commit].
  destruct (TrieHash.cache (shortNode K V fl)) as [[h|] []] eqn:Ec; try (by destruct (Hnc h)); rewrite E; cbn [mbind outcome_bind]; rewrite Ek; cbn [index mbind outcome_bind]; by rewrite Es.
Qed.

Lemma commit_full cs fl top : wf (fullNode cs fl) → (∀ h, TrieHash.cache (fullNode cs fl) ≠ (Some h, false)) →
  (∀ i c, cs !! i = Some c → (i < 16)%nat → c ≠ nil_ → commit_at c) → neat top (fullNode cs fl) → hashed (fullNode cs fl) → good top (fullNode cs fl) → bounded (fullNode cs fl) →
  uniform (fullNode cs fl) → (top = true → is_Some (fst (TrieHash.cache (fullNode cs fl))) ∨ ¬ solid (fullNode cs fl)) →
  ∃ cn ls, commit keccak (fullNode cs fl) top = Ret (cn, ls) ∧ (top = false → ref_ok (fullNode cs fl) cn) ∧
    (∀ h, fst (TrieHash.cache (fullNode cs fl)) = Some h → cn = hashNode (digest (fullNode cs fl))) ∧ leaves_ok D (fullNode cs fl) ls ∧ (∀ c, c ∈ node_refs cn → sent D ls c) ∧ (total ls + length (node_refs cn) <= nsize (fullNode cs fl))%nat.
Proof.
  intros Hw Hnc IH HN HH Hg Hb Hu Ht. inversion HN as [| | | |top' cs' fl' NV Hk Hc]; subst. inversion HH as [| | | |cs' fl' HV Hbg]; subst. inversion Hg as [| | | |top' cs' fl' HgV Hf]; subst.
  destruct (commit_children_ok (fullNode cs fl) cs) as (cs' & ls & E & H1 & H2 & H3 & H4).
  { apply Forall_lookup_2. intros i c Hi. destruct (decide (c = nil_)) as [?|Hn]; [by left|right]. pose proof (lookup_lt_Some _ _ _ Hi) as Hlt.
    assert (Hl : length cs = 17%nat) by (by inversion Hw). assert (Hi16 : (i < 16)%nat).
    { destruct (decide (i = 16)%nat) as [->|]; [|lia]. by rewrite (uniform_last cs fl c Hw Hu Hi) in Hn. }
    split; [|intros e He; by eapply enc_full]. destruct (IH i c Hi Hi16 Hn false) as (cn & l & Ec & R1 & _ & R3 & R4 & R5);
      [by eapply Forall_lookup_1|by eapply Forall_lookup_1|by eapply Forall_lookup_1|by eapply bounded_child|by eapply uniform_child|done|]. exists cn, l. auto. }
  destruct (store_ok (fullNode cs fl) (fullNode cs' fl) fl top (existsb is_value cs') ls) as (cn & l & Es & S1 & S2 & S3 & S4); try done.
  { by apply collapsed_full. }
  { cbn [node_refs]. intros c Hcc. apply list_elem_of_In, in_concat in Hcc as (l & Hl%list_elem_of_In & Hcl%list_elem_of_In).
    apply list_elem_of_lookup in Hl as [i Hi]. apply lookup_take_Some in Hi as [Hi _]. apply list_lookup_fmap_Some in Hi as (c' & -> & Hi).
    by apply (Forall_lookup_1 _ _ _ _ H3 Hi). }
  { cbn [node_refs nsize]. assert (Hc16 : (length (concat (take 16 (map node_refs cs'))) <= sum_list (map (λ c, length (node_refs c)) cs'))%nat); [|lia].
    clear. generalize 16%nat. induction cs' as [|c cs' IH]; intros [|k]; cbn; try lia. rewrite length_app. specialize (IH k). lia. }
  exists cn, (ls ++ l). split; [|done]. cbn [commit].
  destruct (TrieHash.cache (fullNode cs fl)) as [[h|] []] eqn:Ec; try (by destruct (Hnc h)); unfold commitChildren; rewrite E; cbn [mbind outcome_bind]; by rewrite Es.
Qed.

Lemma commit_collapses n : wf n → commit_at n.
Proof.
  intros Hw. induction Hw as [K v fl HK Hv|K c fl HK Hn Hbr Hc IH|cs fl Hl H1 IH H2 H3|h n E Hs Hn IH]; intros top HN HH Hg Hb Hu Ht.
  4: { exists (hashNode h), []. inversion HN; subst. inversion Hg as [| |top' h' n0 En Hs0 Hd Hbig Hn0| |]; subst. split_and!; [done|intros _; apply ref_hash|done|done| |cbn; lia].
       intros c ->%refs_digest. by left. }
  all: match goal with |- ∃ _ _, commit _ ?N _ = _ ∧ _ => destruct (TrieHash.cache N) as [[h|] d] eqn:Ec end; [destruct d|].
  all: rewrite <- Ec in Ht |- *; try (by eapply commit_clean).
  - apply commit_short; try done; [by apply wf_leaf|intros h0; by rewrite Ec].
  - apply commit_short; try done; [by apply wf_leaf|intros h0; by rewrite Ec].
  - apply commit_short; try done; [by apply wf_ext|intros h0; by rewrite Ec|by destruct (is_value c)].
  - apply commit_short; try done; [by apply wf_ext|intros h0; by rewrite Ec|by destruct (is_value c)].
  - apply commit_full; try done; [by apply wf_full|intros h0; by rewrite Ec].
  - apply commit_full; try done; [by apply wf_full|intros h0; by rewrite Ec].
Qed.

End Commit.
End TrieCommitProofs.
