(* ===== verification/TrieCommitOps.v ===== *)
(** * TrieCommitOps: committed nodes in the node database

    A trie that uses the node database sees exactly the nodes that are
    available there. The nodes a commit sends keep the invariants of the
    database, and are available afterwards. *)

From stdpp Require Import base gmap list.
From Stdlib Require Import ZArith Lia.
From S2P Require Import Prelude Rlp RlpProofs Trie TrieProofs TrieHash TrieHashProofs MerkleProofs TrieDb TrieDbGc TrieDbOps TrieDbFlush TrieDbClaims TrieCommit TrieCommitProofs.

Local Open Scope Z_scope.

(** ** ReloadProofs: what is read back from the database is the trie

    Where the database holds the encodings of a trie, the nodes it returns
    hold the same values, in normal form, with right hashes. *)

Module ReloadProofs.
Import Rlp RlpProofs Trie TrieProofs TrieHash TrieHashProofs TrieCodec MerkleProofs NeatProofs TrieDb TrieCommit TrieCommitProofs.

Section Reload.
Context (keccak : bytes → bytes) (keccak_32 : ∀ b, length (keccak b) = 32%nat) (db db' : bytes → option node).
(** [E]: the strings whose hashes stand for them; [A]: the hashes of what [db'] has. *)
Context (E : bytes → Prop) (A : bytes → Prop).

Abbreviation item := (item keccak).
Abbreviation fold_ref := (fold_ref keccak).
Abbreviation big := (big keccak).
Abbreviation digest := (digest keccak).
Abbreviation dec := (dec keccak).
Abbreviation dec_ref := (dec_ref keccak).

Hypothesis db'_reads : ∀ n top, fit keccak db top n → E (enc (item n)) → A (digest n) →
  db' (digest n) = Some (dec (Some (digest n)) n) ∧ ∀ c, c ∈ node_refs (dec None n) → A c.

Lemma ref_item c : item (dec None c) = item c → fold_ref (item (dec_ref c (dec None c))) = fold_ref (item c).
Proof.
  intros Hi. unfold TrieCodec.dec_ref. destruct (decide (solid c ∧ big c)) as [[Hs Hb]|_]; [|by rewrite Hi]. by rewrite (fold_big keccak c).
Qed.

Lemma item_dec n : ∀ h, item (dec h n) = item n.
Proof.
  induction n as [|v|h0|K V fl IH|cs fl IH] using node_ind'; intros h; cbn [TrieCodec.dec TrieHashProofs.item]; [done..| |].
  - by rewrite ref_item.
  - f_equal. rewrite map_map. apply map_ext_Forall. eapply Forall_impl; [exact IH|]. intros c Hc. by apply ref_item.
Qed.

Lemma refs_dec n h : node_refs (dec h n) = node_refs (dec None n).
Proof. by destruct n. Qed.

Lemma refs_child cs i c fl h x : cs !! i = Some c → (i < 16)%nat → x ∈ node_refs (dec_ref c (dec None c)) → x ∈ node_refs (dec h (fullNode cs fl)).
Proof.
  intros Hi Hlt Hx. cbn [TrieCodec.dec node_refs]. apply list_elem_of_In, in_concat. exists (node_refs (dec_ref c (dec None c))). split; [|by apply list_elem_of_In].
  apply list_elem_of_In. apply list_elem_of_lookup. exists i. apply lookup_take_Some. split; [|done]. change (map ?f ?l) with (f <$> l). by rewrite !list_lookup_fmap, Hi.
Qed.

(** What [x], read by [db'], has of [n], read by [db]. *)
Record reads (n x : node) : Prop := {
  rd_wf : wf db' x;
  rd_holds : ∀ k v, holds db n k v ↔ holds db' x k v;
}.

(** The nodes at and below [n] whose references [db'] has. *)
Definition solid_reads (n : node) : Prop := ∀ top hopt, fit keccak db top n → (∀ e, encodes keccak db n e → E e) →
  (∀ c, c ∈ node_refs (dec None n) → A c) → (hopt = None ∨ hopt = Some (digest n) ∧ (top = false → big n)) →
  reads n (dec hopt n) ∧ good keccak db' top (dec hopt n).

Definition ref_reads (n : node) : Prop := good keccak db false n → bounded db n → (∀ e, encodes keccak db n e → E e) →
  (∀ c, c ∈ node_refs (dec_ref n (dec None n)) → A c) →
  reads n (dec_ref n (dec None n)) ∧ good keccak db' false (dec_ref n (dec None n)) ∧ (branch db n → branch db' (dec_ref n (dec None n))).

Lemma digest_dec n h : digest (dec h n) = digest n.
Proof. unfold TrieHashProofs.digest. by rewrite item_dec. Qed.

Lemma big_dec n h : big (dec h n) ↔ big n.
Proof. unfold TrieHashProofs.big. by rewrite item_dec. Qed.

Lemma toHash_digest' n : BytesToHash (digest n) = digest n.
Proof. unfold BytesToHash, TrieHashProofs.digest. by rewrite keccak_32. Qed.

(** A hash that stands for [n]. *)
Lemma hash_reads n top : fit keccak db top n → (top = false → big n) → solid_reads n → (∀ e, encodes keccak db n e → E e) → A (digest n) →
  reads n (hashNode (digest n)) ∧ good keccak db' top (hashNode (digest n)) ∧ db' (digest n) = Some (dec (Some (digest n)) n).
Proof.
  intros F Hbig HS HE HA. pose proof F as (Hs & Hw & Hg & Hb). destruct (db'_reads n top F (HE _ (enc_self _ _ _ Hs)) HA) as [Ed Hr].
  destruct (HS top (Some (digest n)) F HE Hr) as [[R1 R2] R3]; [by right|]. assert (Hsd : solid (dec (Some (digest n)) n)) by (by destruct n). split_and!; [split| |done].
  - by eapply wf_hash.
  - intros k v. rewrite R2. split; [intros Hh; by econstructor|]. intros Hh. inversion Hh; subst. congruence.
  - eapply good_hash; [exact Ed|done|by rewrite digest_dec|by rewrite big_dec|done].
Qed.

Lemma solid_ref_reads n : wf db n → solid n → solid_reads n → ref_reads n.
Proof.
  intros Hw Hs HS Hg Hb HE HA. assert (F : fit keccak db false n) by (by split_and!). unfold TrieCodec.dec_ref in *. destruct (decide (solid n ∧ big n)) as [[_ Hbig]|Hnb].
  - destruct (hash_reads n false F (λ _, Hbig) HS HE) as (R1 & R2 & R3); [apply HA; cbn; rewrite toHash_digest'; by left|]. split_and!; [done|done|].
    intros Hbr. destruct n; try done. cbn [branch]. rewrite R3. cbn. by eexists _, _.
  - destruct (HS false None F HE HA) as [R1 R2]; [by left|]. split_and!; [done|done|]. by destruct n.
Qed.

Lemma short_reads K V fl : wf db (shortNode K V fl) → (if is_value V then True else ref_reads V) → solid_reads (shortNode K V fl).
Proof.
  intros Hw HV top hopt (_ & _ & Hg & Hb) HE HA Ho. inversion Hg as [| | |top' K' V' fl' HgV Hf|]; subst. set (x := dec_ref V (dec None V)).
  assert (HR : wf db' (shortNode K x (mk_flag hopt false)) ∧ good keccak db' false x ∧ ∀ k v, holds db V k v ↔ holds db' x k v).
  { inversion Hw as [K' v fl' HK Hv|K' c fl' HK Hn Hbr Hc| |]; subst.
    - unfold x. rewrite dec_ref_value. cbn. split_and!; [by constructor|constructor|]. intros k w. split; intros Hh; inversion Hh; constructor.
    - assert (Hnv : is_value V = false) by (by destruct V). rewrite Hnv in HV. destruct HV as ([R1 R2] & R3 & R4); [done|by eapply bounded_short| |done|].
      { intros e He. apply HE. constructor; [|done]. intros ->. by apply wf_not_nil in Hc. }
      split_and!; [|done|done]. apply wf_ext; auto. }
  destruct HR as (R1 & R2 & R3). split; [split; [exact R1|]|].
  - intros k v. cbn [TrieCodec.dec]. fold x. split; intros Hh; inversion Hh; subst; constructor; by apply R3.
  - cbn [TrieCodec.dec]. fold x. constructor; [done|]. intros h. cbn. intros ->. destruct Ho as [?|[[= ->] Hbig]]; [done|].
    change (shortNode K x (mk_flag (Some (digest (shortNode K V fl))) false)) with (dec (Some (digest (shortNode K V fl))) (shortNode K V fl)).
    rewrite digest_dec. split; [done|]. intros ->. rewrite big_dec. auto.
Qed.

(** Every child of a full node, as it is read. *)
Lemma child_reads cs fl : wf db (fullNode cs fl) → Forall (good keccak db false) cs → bounded db (fullNode cs fl) → (∀ e, encodes keccak db (fullNode cs fl) e → E e) →
  (∀ c, c ∈ node_refs (dec None (fullNode cs fl)) → A c) → (∀ i c, cs !! i = Some c → (i < 16)%nat → c ≠ nil_ → ref_reads c) →
  ∀ i c, cs !! i = Some c → c ≠ nil_ → let x := dec_ref c (dec None c) in
  (wf db' x ∧ (i < 16)%nat ∨ i = 16%nat ∧ ∃ v, v ≠ [] ∧ x = valueNode v) ∧ good keccak db' false x ∧ ∀ k v, holds db c k v ↔ holds db' x k v.
Proof.
  intros Hw HF Hb HE HA IH i c Hi Hn. inversion Hw as [| |cs' fl' Hl H1 H2 H3|]; subst. pose proof (lookup_lt_Some _ _ _ Hi) as Hlt. destruct (decide (i < 16)%nat) as [Hlt16|Hge].
  - destruct (IH i c Hi Hlt16 Hn) as ([R1 R2] & R3 & _).
    + by eapply Forall_lookup_1.
    + by eapply bounded_child.
    + intros e He. apply HE. by eapply enc_full.
    + intros d Hd. apply HA. by eapply refs_child.
    + split_and!; [by left|done|done].
  - assert (i = 16%nat) as -> by lia. destruct (H2 c Hi Hn) as (v & Hv & ->). rewrite dec_ref_value. cbn. split_and!; [right; by eauto|constructor|].
    intros k w. split; intros Hh; inversion Hh; constructor.
Qed.

Lemma ref_not_nil c : c ≠ nil_ → dec_ref c (dec None c) ≠ nil_.
Proof. intros Hc. unfold TrieCodec.dec_ref. destruct (decide _); [done|]. by destruct c. Qed.

Lemma child_map cs b x : child (map (λ c, dec_ref c (dec None c)) cs) b = Some x ↔ ∃ c, child cs b = Some c ∧ x = dec_ref c (dec None c).
Proof. unfold child. change (map ?f ?l) with (f <$> l). rewrite list_lookup_fmap. split; [intros (c & -> & ->)%fmap_Some; eauto|intros (c & -> & ->); done]. Qed.

Lemma full_reads cs fl : wf db (fullNode cs fl) → (∀ i c, cs !! i = Some c → (i < 16)%nat → c ≠ nil_ → ref_reads c) → solid_reads (fullNode cs fl).
Proof.
  intros Hw IH top hopt (_ & _ & Hg & Hb) HE HA Ho. inversion Hg as [| | | |top' cs' fl' HgV Hf]; subst. pose proof (child_reads cs fl Hw HgV Hb HE HA IH) as HC.
  set (f := λ c, dec_ref c (dec None c)). assert (Hat : ∀ i x, map f cs !! i = Some x → ∃ c, cs !! i = Some c ∧ x = f c).
  { intros i x. change (map f cs) with (f <$> cs). rewrite list_lookup_fmap. intros (c & Hc & ->)%fmap_Some. eauto. }
  inversion Hw as [| |cs' fl' Hl H1 H2 (i & j & a & b & Hij & Ha & Hb' & Na & Nb)|]; subst. split; [split|].
  - apply wf_full; [by rewrite length_map| | |].
    + intros k x Hx Hlt Hnx. destruct (Hat k x Hx) as (c & Hc & ->). assert (Hn : c ≠ nil_) by (intros ->; apply Hnx; unfold f; by rewrite dec_ref_nil).
      destruct (HC k c Hc Hn) as ([[? _]|[-> _]] & _); [done|lia].
    + intros x Hx Hnx. destruct (Hat _ x Hx) as (c & Hc & ->). assert (Hn : c ≠ nil_) by (intros ->; apply Hnx; unfold f; by rewrite dec_ref_nil).
      destruct (HC _ c Hc Hn) as ([[_ ?]|[_ ?]] & _); [lia|done].
    + exists i, j, (f a), (f b). change (map f cs) with (f <$> cs). rewrite !list_lookup_fmap, Ha, Hb'. split_and!; [done|done|done|by apply ref_not_nil|by apply ref_not_nil].
  - intros k v. cbn [TrieCodec.dec]. fold f. split; intros Hh; inversion Hh as [| |cs' fl' b0 c k' v' Hc Hk|]; subst.
    + eapply holds_full; [apply child_map; by exists c|]. assert (Hn : c ≠ nil_) by (intros ->; by apply holds_nil in Hk). by apply (HC _ c Hc Hn).
    + apply child_map in Hc as (c0 & Hc & ->). eapply holds_full; [exact Hc|]. destruct (decide (c0 = nil_)) as [->|Hn]; [rewrite dec_ref_nil in Hk; by apply holds_nil in Hk|].
      by apply (HC _ c0 Hc Hn).
  - change (dec hopt (fullNode cs fl)) with (fullNode (map f cs) (mk_flag hopt false)). constructor.
    + apply Forall_lookup_2. intros k x Hx. destruct (Hat k x Hx) as (c & Hc & ->). destruct (decide (c = nil_)) as [->|Hn]; [unfold f; rewrite dec_ref_nil; constructor|]. by apply (HC k c Hc Hn).
    + intros h. cbn. intros ->. destruct Ho as [?|[[= ->] Hbig]]; [done|].
      change (fullNode (map f cs) (mk_flag (Some (digest (fullNode cs fl))) false)) with (dec (Some (digest (fullNode cs fl))) (fullNode cs fl)).
      rewrite digest_dec. split; [done|]. intros ->. rewrite big_dec. auto.
Qed.

Lemma reload_ok n : wf db n → (solid n → solid_reads n) ∧ ref_reads n.
Proof.
  induction 1 as [K v fl HK Hv|K c fl HK Hn Hbr Hc [_ IH]|cs fl Hl H1 IH H2 H3|h n Eh Hs Hn [IH _]].
  - assert (Hw : wf db (shortNode K (valueNode v) fl)) by (by constructor). assert (HS : solid_reads (shortNode K (valueNode v) fl)) by (by apply short_reads). split; [done|by apply solid_ref_reads].
  - assert (Hw : wf db (shortNode K c fl)) by (by constructor). assert (HS : solid_reads (shortNode K c fl)) by (apply short_reads; [done|by destruct (is_value c)]). split; [done|by apply solid_ref_reads].
  - assert (Hw : wf db (fullNode cs fl)) by (by constructor). assert (HS : solid_reads (fullNode cs fl)) by (apply full_reads; [done|]; intros i c Hi Hlt Hc; by apply (IH i c)).
    split; [done|by apply solid_ref_reads].
  - split; [done|]. intros Hg Hb HE HA. inversion Hg as [| |top h' n0 En _ Hd Hbig Hn0| |]; subst. assert (n0 = n) as -> by congruence.
    assert (Er : dec_ref (hashNode (digest n)) (dec None (hashNode (digest n))) = hashNode (digest n)) by (unfold TrieCodec.dec_ref; by rewrite decide_False by (by intros [[] _])).
    rewrite Er in *. assert (F : fit keccak db false n) by (split_and!; [done|done|done|by eapply bounded_hash]).
    destruct (hash_reads n false F Hbig (IH Hs)) as ([R1 R1'] & R2 & R3); [intros e He; apply HE; by econstructor|apply HA; cbn; rewrite toHash_digest'; by left|].
    split_and!; [split; [done|]|done|].
    + intros k v. rewrite <- R1'. split; [intros Hh; inversion Hh; subst; congruence|intros Hh; by econstructor].
    + intros (cs & fl & Ecs). assert (n = fullNode cs fl) as -> by congruence. cbn [branch]. rewrite R3. by eexists _, _.
Qed.

End Reload.
End ReloadProofs.

Module TrieCommitOps.
Import Rlp RlpProofs Trie TrieProofs TrieHash TrieHashProofs TrieCodec MerkleProofs NeatProofs TrieDb TrieDbProofs TrieDbGc TrieDbOps TrieDbFlush TrieDbClaims TrieCommit TrieCommitProofs ReloadProofs.

(** ** References of raw nodes *)

Lemma raw_ind' (P : raw → Prop) :
  P raw_nil → (∀ b, P (rawNode b)) → (∀ K V, P V → P (rawShortNode K V)) → (∀ cs, Forall P cs → P (rawFullNode cs)) →
  (∀ v, P (raw_value v)) → (∀ h, P (raw_hash h)) → ∀ r, P r.
Proof.
  intros H1 H2 H3 H4 H5 H6. fix IH 1. intros [|b|K V|cs|v|h]; [done|apply H2|apply H3, IH| |apply H5|apply H6]. apply H4. induction cs as [|c cs IHcs]; constructor; [apply IH|exact IHcs].
Qed.

Lemma expand_refs r : ∀ h x, expandNode h r = Some x → node_refs x = forGatherChildren r.
Proof.
  induction r as [|b|K V IH|cs IH|v|h0] using raw_ind'; intros h x E; cbn [expandNode] in E; [done|done| | |by injection E as <-|by injection E as <-].
  - destruct (expandNode None V) as [v|] eqn:EV; [|done]. injection E as <-. cbn. by eapply IH.
  - destruct (TrieDb.traverse _ cs) as [xs|] eqn:Et; [|done]. injection E as <-. apply traverse_Forall2 in Et. cbn [node_refs forGatherChildren]. f_equal. f_equal.
    induction Et as [|c x cs xs Ec Et IHt]; [done|]. inversion IH as [|? ? Hc HF]; subst. cbn [map]. f_equal; [|by apply IHt].
    destruct c; try (by eapply Hc); by injection Ec as <-.
Qed.

Lemma alike_encodes keccak db n e : encodes keccak db n e → ∀ n', TrieHashProofs.alike n n' → encodes keccak db n' e.
Proof.
  induction 1 as [|n Hs|K V fl e HV He IH|cs fl i c e Hi Hc He IH|h n e E He IH]; intros n' Ha.
  - destruct n'; try done. constructor.
  - rewrite (alike_item keccak n n' Ha). constructor. by destruct n, n'.
  - destruct n' as [| | |K' V' fl'|]; try done. injection Ha as <- Ha. constructor; [by intros ->; destruct V|by apply IH].
  - destruct n' as [| | | |cs' fl']; try done. injection Ha as Ha. destruct (alike_children cs' cs i c (eq_sym Ha) Hi) as (c' & Hi' & Ha').
    eapply enc_full; [exact Hi'|intros ->; by destruct c|]. apply IH. by symmetry.
  - destruct n'; try done. injection Ha as <-. by econstructor.
Qed.

Lemma nsize_alike n : nsize (strip n) = nsize n.
Proof.
  induction n as [| | |K V fl IH|cs fl IH] using node_ind'; cbn; [done..|by rewrite IH|]. rewrite map_map. do 2 f_equal. by apply map_ext_Forall.
Qed.

Section Ops.
Context `{ENV : Environment}.
Context (keccak : bytes → bytes) (keccak_32 : ∀ b, length (keccak b) = 32%nat).
Context (content : bytes → option bytes) (rank : bytes → nat).

(** What the node with this hash refers to. *)
Definition trie_links (h : bytes) : list bytes :=
  match content h with
  | Some b => match decodeNode None b with Ret n => node_refs n | _ => [] end
  | None => []
  end.

Abbreviation inv := (inv content trie_links).

(** Entries read as their blobs do. *)
Definition coherent (db : Database) : Prop :=
  ∀ h e b n, h ≠ zeroHash → dirties db !! h = Some e → rlp e = Some b → decodeNode (Some h) b = Ret n → obj e h = Some n.

Lemma coherent_new disk size : coherent (NewDatabaseWithCache disk size).
Proof. intros h e b n Hz [<- _]%new_lookup. done. Qed.

(** Strings whose hashes stand for them. *)
Definition stands (e : bytes) : Prop := content (keccak e) = Some e.

Lemma must_decode h b n : decodeNode h b = Ret n → match mustDecodeNode h b with Ret n => Some n | _ => None end = Some n.
Proof. unfold mustDecodeNode. by intros ->. Qed.

(** ** What a trie sees *)

Lemma view_ok db h b n : inv db → coherent db → available db h → length h = 32%nat → h ≠ zeroHash → content h = Some b → decodeNode (Some h) b = Ret n → db_view db h = Some n.
Proof.
  intros (L & H & _) Hco Hav Hl Hz Hc Hd. destruct (k_right _ _ _ _ _ _ H) as [_ K2 K3 K4 _]. unfold db_view. rewrite BytesToHash_id by done. unfold node_, bind, get_db.
  destruct (clean_get db h) as [enc|] eqn:Eg.
  { unfold clean_get in Eg. destruct (cleans db) as [ca|] eqn:Eca; [|done]. destruct (K4 ca h enc eq_refl Eg) as [_ Ed]. destruct (K3 h enc Hl Ed) as [Hc' _].
    assert (enc = b) as -> by congruence. rewrite (must_decode _ _ _ Hd). done. }
  destruct (dirties db !! h) as [e|] eqn:E.
  { destruct (K2 h e Hz E) as (b' & Eb & Hc'). assert (b' = b) as -> by congruence. unfold some. rewrite (Hco h e b n Hz E Eb Hd). done. }
  destruct Hav as [[enc Ed]|[_ [? ?]]]; [|congruence]. rewrite Ed. destruct (K3 h enc Hl Ed) as [Hc' _]. assert (enc = b) as -> by congruence. cbn [clean_set modify].
  unfold clean_set, modify, some. rewrite (must_decode _ _ _ Hd). done.
Qed.

Section Lawful.
Hypothesis LAW : lawful trie_links rank.
Hypothesis no_zero : content zeroHash = None.

Abbreviation digest := (digest keccak).
Abbreviation item := (item keccak).
Abbreviation dec := (dec keccak).

Lemma digest_not_zero n : stands (enc (item n)) → digest n ≠ zeroHash.
Proof. unfold stands, TrieHashProofs.digest. intros E Hz. rewrite Hz in E. congruence. Qed.

Lemma links_digest db_node n top : fit keccak db_node top n → stands (enc (item n)) → trie_links (digest n) = node_refs (dec None n).
Proof.
  intros (H1 & H2 & H3 & H4) E. unfold trie_links. unfold stands in E. fold (digest n) in E. rewrite E. by rewrite (decodeNode_ok keccak keccak_32 db_node n top None).
Qed.

(** What the database has is what was encoded. *)
Lemma db_reads db db_node : inv db → coherent db → ∀ n top, fit keccak db_node top n → stands (enc (item n)) → available db (digest n) →
  db_view db (digest n) = Some (dec (Some (digest n)) n) ∧ ∀ c, c ∈ node_refs (dec None n) → available db c.
Proof.
  intros HI Hco n top F HS Hav. pose proof F as (H1 & H2 & H3 & H4). split.
  - eapply view_ok; [done|done|done|apply keccak_32|by apply digest_not_zero|exact HS|]. by eapply decodeNode_ok.
  - intros c Hc. rewrite <- (links_digest db_node n top F HS) in Hc. exact (available_below content trie_links rank db _ c HI Hav (keccak_32 _) Hc).
Qed.

(** A hash that stands for a trie, all of it with its content. *)
Definition known (h : bytes) : Prop := ∃ n top, fit keccak none top n ∧ h = digest n ∧ ∀ e, encodes keccak none n e → stands e.

Definition stored (db : Database) (h : bytes) : Prop := available db h ∧ known h.

Abbreviation neat db := (neat keccak (stored db)).
Abbreviation hashed := (hashed keccak).

Definition solid_neat (db : Database) (n : node) : Prop := ∀ top hopt, fit keccak none top n → (∀ e, encodes keccak none n e → stands e) →
  (∀ c, c ∈ node_refs (dec None n) → available db c) → (if hopt is Some h then h = digest n ∧ available db h else top = false ∧ ¬ big keccak n) →
  neat db top (dec hopt n) ∧ hashed (dec hopt n).

Definition ref_neat (db : Database) (n : node) : Prop := fit keccak none false n → (∀ e, encodes keccak none n e → stands e) →
  (∀ c, c ∈ node_refs (dec_ref keccak n (dec None n)) → available db c) → neat db false (dec_ref keccak n (dec None n)) ∧ hashed (dec_ref keccak n (dec None n)).

Lemma solid_ref_neat db n : inv db → solid_neat db n → ref_neat db n.
Proof.
  intros HI HS F HE HA. pose proof F as (Hs & _). unfold TrieCodec.dec_ref in *. destruct (decide (solid n ∧ big keccak n)) as [[_ Hb]|Hn].
  - split; constructor. split; [|by exists n, false]. apply HA. cbn. rewrite (toHash_digest keccak keccak_32). by left.
  - apply HS; [done|done|done|]. split; [done|tauto].
Qed.

(** The flag of a node that is read suits it. *)
Lemma dec_short_neat db K V fl : ref_neat db V ∨ (∃ v, V = valueNode v) → wf none (shortNode K V fl) → solid_neat db (shortNode K V fl).
Proof.
  intros HV Hw top hopt F HE HA Ho. pose proof F as (_ & _ & Hg & Hb). inversion Hg as [| | |top' K' V' fl' HgV Hf|]; subst. set (x := dec_ref keccak V (dec None V)).
  assert (Hx : neat db false x ∧ hashed x).
  { destruct HV as [HV|[v ->]]; [|unfold x; rewrite dec_ref_value; split; constructor]. inversion Hw as [K' v fl' HK Hv|K' c fl' HK Hn Hbr Hc| |]; subst; [unfold x; rewrite dec_ref_value; split; constructor|].
    apply HV; [|intros e He; apply HE; constructor; [intros ->; by apply wf_not_nil in Hc|done]|done]. split_and!; [|done|done|by eapply bounded_short]. by inversion Hc; subst. }
  destruct Hx as [Hx1 Hx2]. pose proof (big_dec keccak (shortNode K V fl) hopt) as Eb. cbn [TrieCodec.dec] in *. fold x in Eb |- *. split; constructor; try done.
  - intros _. cbn. destruct hopt as [h|]; [destruct Ho as [-> ?]; split; [done|by exists (shortNode K V fl), top]|]. by rewrite Eb.
  - rewrite Eb. cbn. destruct hopt; [by eexists|]. by destruct Ho.
Qed.

Lemma dec_full_neat db cs fl : (∀ i c, cs !! i = Some c → (i < 16)%nat → c ≠ nil_ → ref_neat db c) → wf none (fullNode cs fl) → solid_neat db (fullNode cs fl).
Proof.
  intros IH Hw top hopt F HE HA Ho. pose proof F as (_ & _ & Hg & Hb). inversion Hg as [| | | |top' cs' fl' HgV Hf]; subst. set (f := λ c, dec_ref keccak c (dec None c)).
  assert (Hx : Forall (λ x, neat db false x ∧ hashed x) (map f cs)).
  { apply Forall_fmap, Forall_lookup_2. intros i c Hi. cbn. destruct (decide (c = nil_)) as [->|Hn]; [unfold f; rewrite dec_ref_nil; split; constructor|].
    inversion Hw as [| |cs' fl' Hl H1 H2 H3|]; subst. pose proof (lookup_lt_Some _ _ _ Hi). destruct (decide (i < 16)%nat) as [Hlt|Hge].
    - apply (IH i c Hi Hlt Hn); [by eapply fit_full_child|intros e He; apply HE; by eapply enc_full|]. intros d Hd. apply HA. by eapply refs_child.
    - assert (i = 16%nat) as -> by lia. destruct (H2 c Hi Hn) as (v & _ & ->). unfold f. rewrite dec_ref_value. split; constructor. }
  apply Forall_and in Hx as [Hx1 Hx2]. pose proof (big_dec keccak (fullNode cs fl) hopt) as Eb. cbn [TrieCodec.dec] in *. fold f in Eb |- *. split; constructor; try done.
  - intros _. cbn. destruct hopt as [h|]; [destruct Ho as [-> ?]; split; [done|by exists (fullNode cs fl), top]|]. by rewrite Eb.
  - rewrite Eb. cbn. destruct hopt; [by eexists|]. by destruct Ho.
Qed.

Lemma dec_neat db n : inv db → wf none n → solid_neat db n.
Proof.
  intros HI. induction 1 as [K v fl HK Hv|K c fl HK Hn Hbr Hc IH|cs fl Hl H1 IH H2 H3|h n Eh Hs Hn IH].
  - apply dec_short_neat; [right; by eexists|by constructor].
  - apply dec_short_neat; [left; by apply solid_ref_neat|by constructor].
  - apply dec_full_neat; [|by constructor]. intros i c Hi Hlt Hn. by apply solid_ref_neat, (IH i c).
  - done.
Qed.

(** What a trie reads from the database is neat. *)
Lemma view_neat db : inv db → coherent db → ∀ top h n, db_view db h = Some n → stored db h → neat db top n ∧ hashed n.
Proof.
  intros HI Hco top h n E (Hav & n0 & top0 & F & -> & HE). destruct (db_reads db none HI Hco n0 top0 F (HE _ (enc_self _ _ _ (proj1 F))) Hav) as [Ev Hr]. assert (n = dec (Some (digest n0)) n0) as -> by congruence.
  assert (neat db top0 (dec (Some (digest n0)) n0) ∧ hashed (dec (Some (digest n0)) n0)) as [HN HH] by (apply (dec_neat db n0 HI); [apply F|done|done|done|done]). split; [|done].
  destruct n0 as [| | |K V fl|cs fl]; try (by destruct F); cbn [TrieCodec.dec] in HN |- *; inversion HN as [| | |top' K' V' fl' HV Hh Hc|top' cs' fl' HV Hh Hc]; subst; constructor; try done; intros Hd; exact (Hc Hd).
Qed.

(** ** Storing the nodes of a commit *)

Section Leaves.
Context (db_node : bytes → option node) (N : node) (agree : ∀ e, encodes keccak db_node N e → stands e).

(** What the entry of a leaf holds. *)
Lemma leaf_raw A l : leaf_ok keccak db_node A N l →
  ∃ r n top, simplifyNode (lf_node l) = Some r ∧ fit keccak db_node top n ∧ lf_hash l = digest n ∧ stands (enc (item n)) ∧
    forGatherChildren r = node_refs (lf_node l) ∧ node_refs (dec None n) = node_refs (lf_node l) ∧ (∀ c, c ∈ node_refs (lf_node l) → A c) ∧
    (∀ e, c_node e = r → rlp e = Some (enc (item n)) ∧ obj e (digest n) = Some (dec (Some (digest n)) n)).
Proof.
  intros (n & top & r & F & He & Eh & Ei & Er & Ex & HA). destruct (simplify_facts (lf_node l) r Er) as (I1 & I2 & I3). exists r, n, top. pose proof F as (H1 & H2 & H3 & H4). split_and!; auto.
  - rewrite <- I2. by eapply expand_refs.
  - intros e <-. split.
    + assert (Ee : EncodeToBytes (raw_rlp (c_node e)) = Ret (enc (item n))).
      { rewrite I1, <- Ei. pose proof (encode_ok (lf_node l) _ Ei (item_len keccak keccak_32 db_node n top H1 H2 H3 H4)) as E. unfold encode in E. rewrite Ei. destruct (EncodeToBytes _); by simplify_eq/=. }
      unfold rlp. destruct (c_node e); try done; by rewrite Ee.
    + unfold obj. rewrite <- (Ex (Some (digest n))). by destruct (c_node e).
Qed.

Lemma leaf_storable L db A l : core content trie_links L [] [] db → leaf_ok keccak db_node A N l → (∀ c, A c → available db c) →
  room db (Z.of_nat (length (node_refs (lf_node l)))) → storable content trie_links L db (lf_hash l) (inl (lf_node l)) [].
Proof.
  intros H Hl HA Hr. destruct (leaf_raw A l Hl) as (r & n & top & Er & F & Eh & HS & R1 & R2 & R3 & R4). split.
  - exists r. split_and!; [done| |].
    + split; [rewrite Eh; apply keccak_32|rewrite Eh; by apply digest_not_zero| | |].
      * intros c Hc. rewrite R1 in Hc. split; [rewrite Eh, (links_digest db_node n top F HS), R2; done|]. by apply (available_list content trie_links rank L), HA, R3.
      * exists (enc (item n)). split; [by apply R4|]. rewrite Eh. exact HS.
      * intros h e E. specialize (Hr h e E). cbn in Hr. rewrite R1. pose proof (occ_length h (node_refs (lf_node l))). lia.
    + intros c. rewrite Eh, (links_digest db_node n top F HS), R2, R1. auto.
  - by intros c ?%not_elem_of_nil.
  - intros h e E. specialize (Hr h e E). cbn in Hr |- *. rewrite Er. cbn. rewrite R1. lia.
Qed.

(** What insertion does to the entries. *)
Lemma insert_frame L db hash size n r db' : core content trie_links L [] [] db → simplify n = Some r → insertable content trie_links L db hash r → insert hash size n db = Ok db' tt →
  ∀ h e', dirties db' !! h = Some e' → (∃ e, dirties db !! h = Some e ∧ c_node e' = c_node e ∧ parents e' <= parents e + Z.of_nat (length (forGatherChildren r))) ∨ (h = hash ∧ c_node e' = r ∧ parents e' = 0).
Proof.
  intros H Er INS E h e' E'. destruct (dirties db !! hash) as [e0|] eqn:Ed.
  - unfold insert, bind, get_db in E. rewrite decide_True in E by (rewrite Ed; by eexists). injection E as <-. left. exists e'. split_and!; [done|done|lia].
  - destruct (insert_run content trie_links L db hash size n r H Ed Er INS) as (db1 & E1 & HI). assert (db1 = db') as -> by congruence. destruct (decide (h = hash)) as [->|Hn].
    + right. destruct HI as (_ & _ & (e1 & Ee1 & ? & _ & ?) & _). assert (e1 = e') as -> by congruence. done.
    + left. destruct (inserted_back L db hash r size db' HI h e' Hn E') as (e & Ee & Ec & _ & -> & _). exists e. split_and!; [done|done|]. pose proof (occ_length h (forGatherChildren r)). lia.
Qed.

(** One leaf. *)
Lemma leaf_insert L db A l : core content trie_links L [] [] db → full trie_links L db → coherent db → leaf_ok keccak db_node A N l → (∀ c, A c → available db c) →
  ∀ k, room db (Z.of_nat (length (node_refs (lf_node l)) + k)) →
  ∃ db' L', commit_leaf None l db = Ok db' tt ∧ core content trie_links L' [] [] db' ∧ full trie_links L' db' ∧ coherent db' ∧ room db' (Z.of_nat k) ∧
    (∀ h, available db h → available db' h) ∧ available db' (lf_hash l).
Proof.
  intros H HF Hco Hl HA k Hr. assert (Hr' : room db (Z.of_nat (length (node_refs (lf_node l))))) by (intros h e E; specialize (Hr h e E); cbn in Hr; lia).
  pose proof (leaf_storable L db A l H Hl HA Hr') as HS. destruct (store_node_ok content trie_links rank LAW L db (lf_hash l) (lf_size l) (inl (lf_node l)) [] H HF HS) as (db' & L' & E & H' & HF' & (Q & _) & Hin & HL).
  unfold store_node in E. cbn [each] in E. unfold commit_leaf.
  assert (E0 : insert (lf_hash l) (lf_size l) (inl (lf_node l)) db = Ok db' tt) by (unfold bind in E; destruct (insert _ _ _ db) as [? []| | |]; by simplify_eq/=).
  destruct (leaf_raw A l Hl) as (r & n & top & Er & F & Eh & HSn & R1 & R2 & R3 & R4). destruct HS as [(r' & Er' & INS & _) _ _]. assert (r' = r) as -> by (cbn in Er'; congruence).
  pose proof (insert_frame L db (lf_hash l) (lf_size l) (inl (lf_node l)) r db' H Er INS E0) as HFr. exists db', L'. split; [unfold bind; by rewrite E0|]. split_and!; [done|done| | | |].
  - intros h e b x Hz Ee Eb Ex. destruct (HFr h e Ee) as [(e1 & Ee1 & Ec & _)|(-> & Ec & _)].
    + unfold obj, rlp in *. rewrite Ec in *. by apply (Hco h e1 b x Hz Ee1).
    + destruct (R4 e Ec) as [B1 B2]. rewrite Eh in *. assert (b = enc (item n)) as -> by congruence. destruct F as (F1 & F2 & F3 & F4).
      rewrite (decodeNode_ok keccak keccak_32 db_node n top (Some (digest n)) F1 F2 F3 F4) in Ex. by injection Ex as <-.
  - intros h e Ee. cbn. destruct (HFr h e Ee) as [(e1 & Ee1 & _ & Hp)|(-> & _ & Hp)].
    + specialize (Hr h e1 Ee1). cbn in Hr. rewrite R1 in Hp. lia.
    + destruct (k_meta _ _ _ (k_shape _ _ _ _ _ _ H)) as (z & m & Ez & _). specialize (Hr _ _ Ez). cbn in Hr. pose proof (k_parents _ _ _ (k_shape _ _ _ _ _ _ H) _ _ Ez). lia.
  - intros h. rewrite (available_list content trie_links rank L db h H), (available_list content trie_links rank L' db' h H'), Q.
    intros [?|?]; [by left|right]. destruct HL as [->| ->]; [done|apply elem_of_app; by left].
  - apply (available_list content trie_links rank L'); [done|by right].
Qed.

Lemma commitLoop_ok ls : ∀ L db A, core content trie_links L [] [] db → full trie_links L db → coherent db → leaves_ok keccak db_node A N ls → (∀ c, A c → available db c) → room db (Z.of_nat (total ls)) →
  ∃ db', commitLoop None ls db = Ok db' tt ∧ inv db' ∧ coherent db' ∧ (∀ h, sent A ls h → available db' h).
Proof.
  induction ls as [|l ls IH]; intros L db A H HF Hco Hl HA Hr; unfold commitLoop in *; cbn [each].
  - exists db. split_and!; [done|by exists L|done|]. intros h [?|?%not_elem_of_nil]; [auto|done].
  - destruct Hl as [Hl Hls]. destruct (leaf_insert L db A l H HF Hco Hl HA (total ls)) as (db1 & L1 & E1 & H1 & HF1 & Hco1 & Hr1 & M1 & Hav); [exact Hr|].
    destruct (IH L1 db1 (λ h, A h ∨ h = lf_hash l) H1 HF1 Hco1 Hls) as (db' & E' & I' & C' & S'); [intros c [?| ->]; auto|done|].
    exists db'. split_and!; [unfold bind; by rewrite E1|done|done|]. intros h [Hh|Hh]; apply S'; [left; by left|]. cbn in Hh. apply elem_of_cons in Hh as [->|?]; [left; by right|by right].
Qed.

End Leaves.

End Lawful.
End Ops.
End TrieCommitOps.
