(* ===== verification/TrieCommitClaims.v ===== *)
(** * TrieCommitClaims: a committed trie is read back

    A trie over the node database stays consistent with it under every
    operation. Committing it stores what its root hash stands for, and opening
    that root again yields the same content. *)

From stdpp Require Import base gmap list.
From Stdlib Require Import ZArith Lia.
From S2P Require Import Prelude Sha256 Rlp RlpProofs Trie TrieProofs TrieClaims TrieHash TrieHashProofs MerkleProofs MerkleClaims TrieDb TrieDbGc TrieDbOps TrieDbFlush TrieDbClaims TrieCommit TrieCommitProofs TrieCommitOps.

Local Open Scope Z_scope.

Module TrieCommitClaims.
Import Rlp RlpProofs Trie TrieProofs TrieClaims TrieHash TrieHashProofs TrieCodec MerkleProofs MerkleClaims NeatProofs TrieDb TrieDbProofs TrieDbGc TrieDbOps TrieDbFlush TrieDbClaims TrieCommit TrieCommitProofs ReloadProofs TrieCommitOps.

Section Claims.
Context `{ENV : Environment}.
Context (keccak : bytes → bytes) (keccak_32 : ∀ b, length (keccak b) = 32%nat).
Context (content : bytes → option bytes) (rank : bytes → nat).
Context (LAW : lawful (trie_links content) rank) (no_zero : content zeroHash = None) (no_empty : content emptyRoot = None).

Abbreviation inv := (inv content (trie_links content)).
Abbreviation stands := (stands keccak content).
Abbreviation stored := (stored keccak content).

(** A trie over the database that represents [m]: its hashes are right, and
    what its flags call clean is stored. *)
Record ready (db : Database) (t : Trie) (m : gmap bytes bytes) : Prop := {
  ry_sealed : sealed keccak (db_view db) t m;
  ry_neat : neat keccak (stored db) true (root t);
}.

(** A consistent database. *)
Definition consistent (db : Database) : Prop := inv db ∧ coherent db.

(** ** Operations on the trie *)

Section Trie.
Context (db : Database) (OK : consistent db).

Lemma consistent_neat top h n : db_view db h = Some n → stored db h → neat keccak (stored db) top n ∧ hashed keccak n.
Proof. destruct OK as [HI Hco]. by apply (view_neat keccak keccak_32 content rank no_zero db HI Hco). Qed.

Lemma ready_TryGet t m key : ready db t m → ∃ t', TryGet (db_view db) t key = Ret (m !! key, t') ∧ ready db t' m.
Proof.
  intros [[Hr Hg] HN]. destruct (TryGet_represents (db_view db) t m key Hr) as (t' & E & Hr'). exists t'. split; [done|].
  unfold TryGet in E. apply outcome_bind_Ret in E as ([[v nn] dd] & E & [= _ <-]). destruct dd; [|done].
  destruct (tryGet_neat keccak (db_view db) (stored db) consistent_neat _ _ _ _ _ _ _ _ Hg HN E) as [HN' _].
  destruct (tryGet_good keccak (db_view db) _ _ _ _ _ _ _ _ Hg E) as [Hg' _]. by split; [split|].
Qed.

Lemma ready_TryUpdate t m key value : ready db t m →
  ∃ t', TryUpdate (db_view db) t key value = Ret t' ∧ ready db t' (if decide (value = []) then delete key m else <[key := value]> m).
Proof.
  intros [HS HN]. destruct (TryUpdate_sealed keccak (db_view db) t m key value HS) as (t' & E & HS'). exists t'. split; [done|]. split; [done|].
  pose proof (neat_stable keccak (db_view db) (stored db) consistent_neat) as SP. unfold TryUpdate in E. destruct value; apply outcome_bind_Ret in E as ([d n] & E & [= <-]); cbn [root].
  - by eapply (delete_stable _ _ SP).
  - eapply (insert_stable _ _ SP); [exact HN|constructor|constructor|exact E].
Qed.

Lemma ready_TryDelete t m key : ready db t m → ∃ t', TryDelete (db_view db) t key = Ret t' ∧ ready db t' (delete key m).
Proof.
  intros [[Hr Hg] HN]. destruct (delete_represents (db_view db) t m key Hr) as (d & n & Ed & Hd). unfold TryDelete. rewrite Ed. eexists. split; [done|].
  pose proof (neat_stable keccak (db_view db) (stored db) consistent_neat) as SP. split; [split; [done|by eapply delete_good]|]. by eapply (delete_stable _ _ SP).
Qed.

(** Hashing sets the flag of the root. *)
Lemma hash_root_flag n hd n' : wf (db_view db) n → solid n → good keccak (db_view db) true n → bounded (db_view db) n → hash keccak n true = Ret (hd, n') → is_Some (fst (TrieHash.cache n')).
Proof.
  intros Hw Hs Hg Hb E. destruct (hash_ok keccak keccak_32 (db_view db) n Hw true Hg Hb) as (hd0 & n0 & E0 & Hh & _). rewrite E in E0. injection E0 as <- <-. rewrite decide_True in Hh by done.
  destruct Hh as [[_ ->]|[? _]]; [|done]. destruct (fst (TrieHash.cache n)) as [h|] eqn:Ec; [rewrite (hash_cached keccak n true h Ec) in E; injection E as _ <-; rewrite Ec; by eexists|].
  destruct n as [| | |K V fl|cs fl]; try done; cbn [hash] in E; cbn [TrieHash.cache fst] in Ec, E; rewrite Ec in E; apply outcome_bind_Ret in E as ([c y] & E1 & E); apply outcome_bind_Ret in E as (hd & _ & [= -> <-]).
  - unfold hashShortNodeChildren in E1. apply outcome_bind_Ret in E1 as (k & _ & E1). apply outcome_bind_Ret in E1 as ([x y'] & _ & [= _ <-]). by eexists.
  - unfold hashFullNodeChildren in E1. apply outcome_bind_Ret in E1 as ([xs ys] & _ & [= _ <-]). by eexists.
Qed.

(** What [Hash] leaves behind is ready to be committed. *)
Lemma ready_Hash t m : ready db t m → sized m → root t ≠ nil_ →
  ∃ t', Hash keccak t = Ret (root_key keccak (root t), t') ∧ ready db t' m ∧ hashed keccak (root t') ∧ TrieHashProofs.alike (root t) (root t') ∧ (is_Some (fst (TrieHash.cache (root t'))) ∨ ¬ solid (root t')) ∧
    root_key keccak (root t') = root_key keccak (root t).
Proof.
  intros [HS HN] Hz Hn. pose proof HS as [Hr Hg]. destruct (Hash_ok keccak keccak_32 _ _ _ HS Hz) as (t' & E & HS'). exists t'. split; [done|]. pose proof (sized_bounded _ _ _ Hr Hz) as Hb.
  pose proof (rep_wf _ _ _ Hr) as [?|Hw]; [done|]. destruct (hash_ok keccak keccak_32 _ _ Hw true Hg Hb) as (hd & n' & Eh & _ & Ha & _).
  assert (Et : root t' = n').
  { unfold Hash, hashRoot in E. apply outcome_bind_Ret in E as ([[x y] t0] & E0 & E). assert (y = n') as ->; [|by destruct x; simplify_eq/=].
    destruct (root t); try done; rewrite Eh in E0; by injection E0 as _ <- _. }
  destruct (hash_neat keccak keccak_32 (db_view db) (stored db) (root t) Hw true hd n' Hg Hb HN Eh) as [HN' HH']. rewrite Et. split_and!; [split; [done|by rewrite Et]|done|done| |].
  - destruct (decide (solid n')) as [Hs|Hs]; [left|by right]. eapply hash_root_flag; [exact Hw| |exact Hg|exact Hb|exact Eh]. unfold TrieHashProofs.alike in Ha. by destruct (root t), n'.
  - pose proof (alike_item keccak _ _ Ha) as Ei. assert (Ed : digest keccak n' = digest keccak (root t)) by (unfold TrieHashProofs.digest; by rewrite Ei).
    clear -Ed Ha. unfold TrieHashProofs.alike in Ha. destruct (root t), n'; try done. by injection Ha as ->.
Qed.

End Trie.

(** ** Opening a root *)

Lemma reopen db db' t m : sealed keccak (db_view db) t m → sized m → m ≠ ∅ → (∀ e, encodes keccak (db_view db) (root t) e → stands e) →
  consistent db' → available db' (root_key keccak (root t)) →
  (∀ u, ready db' (mk_Trie (hashNode (root_key keccak (root t))) u) m) ∧ ∃ t2, New (db_view db') (root_key keccak (root t)) = Ret t2 ∧ ready db' t2 m.
Proof.
  intros HS Hz Hm HE [HI Hco] Hav. destruct (sealed_expand keccak _ _ _ HS Hz Hm) as (n & X & F & Ek). rewrite Ek in *.
  assert (HE' : ∀ e, encodes keccak none n e → stands e) by (intros e He; by apply HE, (ex_encodes _ _ _ _ _ X)).
  pose proof (db_reads keccak keccak_32 content rank no_zero db' none HI Hco) as HR. destruct (HR n true F (HE' _ (enc_self _ _ _ (proj1 F))) Hav) as [Ev Hrefs].
  pose proof (proj1 (reload_ok keccak keccak_32 none (db_view db') stands (available db') HR n (proj1 (proj2 F))) (proj1 F)) as HSR.
  destruct (HSR true (Some (digest keccak n)) F HE' Hrefs) as [[W1 W2] W3]; [by right|]. destruct (hash_reads keccak none (db_view db') stands (available db') HR n true F ltac:(done) HSR HE' Hav) as ([V1 V2] & V3 & _).
  assert (Hst : stored db' (digest keccak n)) by (split; [done|by exists n, true]).
  assert (Hrep : ∀ x u, wf (db_view db') x → (∀ k v, holds none n k v ↔ holds (db_view db') x k v) → represents (db_view db') (mk_Trie x u) m).
  { intros x u Hw Hh. destruct (se_rep _ _ _ _ HS) as [_ R2 R3]. split; cbn [root]; [by right| |].
    - intros key v. rewrite R2, <- Hh. apply (ex_holds _ _ _ _ _ X).
    - intros k v Hk%Hh%(ex_holds _ _ _ _ _ X). by eapply R3. }
  split.
  - intros u. split; [split; [by apply Hrep|done]|by constructor].
  - exists (mk_Trie (dec keccak (Some (digest keccak n)) n) 0). split.
    + assert (HS1 : stands (enc (item keccak n))) by (apply HE', enc_self, F). unfold stands in HS1. fold (digest keccak n) in HS1.
      unfold New. rewrite !bool_decide_false by (intros E; rewrite E in HS1; congruence). cbn [negb andb]. unfold resolveHash. by rewrite Ev.
    + split; [split; [by apply Hrep|done]|]. cbn [root]. by eapply (view_neat keccak keccak_32 content rank no_zero db' HI Hco).
Qed.

Lemma keys_uniform db t m : represents db t m → (∃ len, ∀ k v, m !! k = Some v → length k = len) → uniform db (root t).
Proof.
  intros [_ R2 R3] [len Hl]. exists (Z.to_nat (2 * Z.of_nat len + 1)). intros k v Hh. destruct (R3 k v Hh) as [key ->]. apply R2 in Hh. pose proof (hex_len key). rewrite (Hl _ _ Hh) in *. lia.
Qed.

(** Collapsing and storing. *)
Lemma commit_stored db t m : consistent db → ready db t m → sized m → root t ≠ nil_ → hashed keccak (root t) → (is_Some (fst (TrieHash.cache (root t))) ∨ ¬ solid (root t)) →
  (∃ len, ∀ k v, m !! k = Some v → length k = len) → (∀ e, encodes keccak (db_view db) (root t) e → stands e) → room db (Z.of_nat (nsize (root t))) →
  ∃ ls db', commit_root keccak (root t) = Ret (root_key keccak (root t), ls) ∧ commitLoop None ls db = Ok db' tt ∧ consistent db' ∧ available db' (root_key keccak (root t)).
Proof.
  intros [(L & H & HF) Hco] [HS HN] Hz Hn HH Hfl Hu HE Hroom. pose proof HS as [Hr Hg]. pose proof (rep_wf _ _ _ Hr) as [?|Hw]; [done|].
  destruct (commit_collapses keccak keccak_32 (db_view db) (stored db) (root t) Hw true) as (cn & ls & Ec & _ & Hcn & Hls & Hrefs & Htot); [done|done|done|by eapply sized_bounded|by eapply keys_uniform|done|].
  assert (Ecn : cn = hashNode (root_key keccak (root t))).
  { destruct Hfl as [[h Eh]|Hs]; [rewrite (Hcn h Eh); clear -Eh Hn; by destruct (root t)|]. clear -Ec Hw Hs Hn. destruct (root t); try done; [by inversion Hw|by injection Ec as <-]. }
  subst cn. destruct (commitLoop_ok keccak keccak_32 content rank LAW no_zero (db_view db) (root t) HE ls L db (stored db) H HF Hco Hls) as (db' & El & HI' & Hco' & Hs); [by intros c [? _]| |].
  { intros h e E. specialize (Hroom h e E). cbn in Hroom. lia. }
  exists ls, db'. split_and!; [unfold commit_root; by rewrite Ec|done|by split|]. apply Hs, Hrefs. cbn.
  assert (length (root_key keccak (root t)) = 32%nat) as Hl.
  { clear -Hg Hn keccak_32. destruct (root t); [done|apply keccak_32| |apply keccak_32..]. inversion Hg; subst. apply keccak_32. }
  rewrite BytesToHash_id by done. by left.
Qed.

(** A root that needs no commit is stored. *)
Lemma clean_root db n : good keccak (db_view db) true n → neat keccak (stored db) true n → commitNeeded n = false → available db (root_key keccak n).
Proof.
  intros Hg HN Ec. assert (Hf : flag_ok keccak true n ∨ ¬ solid n) by (inversion Hg; subst; auto). destruct Hf as [Hf|Hs]; [|by destruct n]. unfold commitNeeded in Ec.
  destruct (TrieHash.cache n) as [[h|] d] eqn:E; [|done]. subst d. destruct (Hf h) as [Eh _]; [by rewrite E|]. destruct n as [| | |K V [fh fd]|cs [fh fd]]; try done; cbn in E; injection E as -> ->;
    inversion HN as [| | |top K' V' fl HV Hk Hc|top cs' fl HV Hk Hc]; subst; destruct (Hc eq_refl) as [Hav _]; cbn; by rewrite <- Eh.
Qed.

(** C18: a committed trie can be opened again. Take a trie over the node database,
    whatever updates it has gone through, with keys of one length. Reads,
    updates and deletions keep it in step with the database. [Commit] returns
    its root hash and keeps the database consistent, and both the trie it
    leaves behind and the one that [New] opens at that hash hold exactly what
    the trie held. No node is stored under the zero hash or the hash of the
    empty trie, hashes stand for the strings hashed, and the reference
    counters have room for the nodes in memory. *)
Theorem committed_trie_reopens db t m :
  consistent db → ready db t m →
  (∀ key, ∃ t', TryGet (db_view db) t key = Ret (m !! key, t') ∧ ready db t' m) ∧
  (∀ key value, ∃ t', TryUpdate (db_view db) t key value = Ret t' ∧ ready db t' (if decide (value = []) then delete key m else <[key := value]> m)) ∧
  (∀ key, ∃ t', TryDelete (db_view db) t key = Ret t' ∧ ready db t' (delete key m)) ∧
  (sized m → (∃ len, ∀ k v, m !! k = Some v → length k = len) → (m ≠ ∅ → ∀ e, encodes keccak (db_view db) (root t) e → stands e) → room db (Z.of_nat (nsize (root t))) →
   ∃ db' h t' t2, Commit keccak None t db = Ok db' (h, t') ∧ consistent db' ∧ ready db' t' m ∧ New (db_view db') h = Ret t2 ∧ ready db' t2 m).
Proof.
  intros OK HR. split_and!; [intros; by apply ready_TryGet|intros; by apply ready_TryUpdate|intros; by apply ready_TryDelete|]. intros Hz Hu HE Hroom.
  pose proof (represents_nil _ _ _ (se_rep _ _ _ _ (ry_sealed _ _ _ HR))) as Hnil. destruct (decide (root t = nil_)) as [En|Hn].
  { exists db, emptyRoot, t, (mk_Trie nil_ 0). apply Hnil in En as Em. split_and!; [unfold Commit; by rewrite En|done|done| |].
    - unfold New. by rewrite (bool_decide_true (emptyRoot = emptyRoot)), andb_false_r.
    - subst m. split; [apply sealed_empty|constructor]. }
  assert (Hm : m ≠ ∅) by (by rewrite <- Hnil). specialize (HE Hm).
  destruct (ready_Hash db t m HR Hz Hn) as (t1 & Eh & HR1 & HH & Ha & Hfl & Erk). assert (Hn1 : root t1 ≠ nil_) by (unfold TrieHashProofs.alike in Ha; by destruct (root t), (root t1)).
  assert (HE1 : ∀ e, encodes keccak (db_view db) (root t1) e → stands e) by (intros e He; apply HE; eapply alike_encodes; [exact He|by symmetry]).
  assert (EC : ∀ r, (if negb (commitNeeded (root t1)) then ret (root_key keccak (root t), t1) else bind (lift (commit_root keccak (root t1))) (λ '(newRoot, ls), bind (commitLoop None ls) (λ _, ret (root_key keccak (root t), mk_Trie (hashNode newRoot) (unhashed t1))))) db = r →
    Commit keccak None t db = r).
  { intros r <-. unfold Commit. destruct (root t) eqn:Er; try done; unfold bind at 1, lift at 1; by rewrite Eh. }
  destruct (commitNeeded (root t1)) eqn:Ecn; cbn [negb] in EC.
  - destruct (commit_stored db t1 m OK HR1 Hz Hn1 HH Hfl Hu HE1) as (ls & db' & Er & El & OK' & Hav).
    { rewrite <- (nsize_alike (root t1)). unfold TrieHashProofs.alike in Ha. by rewrite <- Ha, nsize_alike. }
    destruct (reopen db db' t1 m (ry_sealed _ _ _ HR1) Hz Hm HE1 OK' Hav) as [P1 (t2 & P2 & P3)]. rewrite Erk in *.
    eexists db', _, _, t2. split; [apply EC; unfold bind, lift; rewrite Er, El; done|]. split_and!; [done|apply P1|done|done].
  - assert (Hav : available db (root_key keccak (root t1))).
    { destruct HR1 as [[_ Hg1] HN1]. by apply clean_root. }
    destruct (reopen db db t1 m (ry_sealed _ _ _ HR1) Hz Hm HE1 OK Hav) as [_ (t2 & P2 & P3)]. rewrite Erk in *.
    eexists db, _, t1, t2. split; [by apply EC|]. by split_and!.
Qed.

End Claims.
(** ** A concrete commit *)

Definition new_db : Database := NewDatabase ∅.

Definition new_trie : Trie := trie_of (foldl (λ r '(k, v), t ← r; TryUpdate (db_view new_db) t k v) (Ret (mk_Trie nil_ 0)) demo_ops).

(** The strings hashed for a trie in memory that is not empty. *)
Fixpoint strings (n : node) : list bytes :=
  match n with
  | shortNode _ V _ => enc (item demo_keccak n) :: strings V
  | fullNode cs _ => enc (item demo_keccak n) :: concat (map strings cs)
  | _ => []
  end.

Lemma strings_in db n e : (∀ h, db h = None) → encodes demo_keccak db n e → n ≠ nil_ → e ∈ strings n.
Proof.
  intros Hdb. induction 1 as [|n Hs|K V fl e HV He IH|cs fl i c e Hi Hc He IH|h n e E He IH]; intros Hn; [done|destruct n; try done; by left|right; by apply IH| |by rewrite Hdb in E].
  right. apply list_elem_of_In, in_concat. exists (strings c). split; [|by apply list_elem_of_In, IH]. apply in_map. apply list_elem_of_In. by eapply list_elem_of_lookup_2.
Qed.

Definition hashed_strings : list bytes := strings (root new_trie).

(** The content: what the trie hashes, under its hash. *)
Definition table (l : list bytes) (h : bytes) : option bytes := (list_to_map (map (λ e, (demo_keccak e, e)) l) : gmap bytes bytes) !! h.

Lemma table_in l h b : table l h = Some b → b ∈ l ∧ h = demo_keccak b.
Proof. unfold table. intros E%elem_of_list_to_map_2. apply list_elem_of_fmap in E as (e & [= -> ->] & He). done. Qed.

Definition new_content : bytes → option bytes := table hashed_strings.

(** Parents are listed before their children. *)
Definition new_rank (h : bytes) : nat :=
  default 0%nat ((λ p, length hashed_strings - p.1)%nat <$> list_find (λ e, demo_keccak e = h) hashed_strings).

Lemma links_in l h c : c ∈ trie_links (table l) h → ∃ e, e ∈ l ∧ h = demo_keccak e.
Proof.
  unfold trie_links. intros Hc. destruct (table l h) as [b|] eqn:E; [|by apply not_elem_of_nil in Hc]. exists b. by apply table_in.
Qed.

Definition links_check (l : list bytes) (rank : bytes → nat) : bool :=
  forallb (λ e, forallb (λ c, bool_decide ((rank c < rank (demo_keccak e))%nat ∧ length c = 32%nat ∧ c ≠ zeroHash)) (trie_links (table l) (demo_keccak e))) l.

Lemma table_lawful l rank : links_check l rank = true → lawful (trie_links (table l)) rank.
Proof.
  intros H. assert (Hlink : ∀ h c, c ∈ trie_links (table l) h → (rank c < rank h)%nat ∧ length c = 32%nat ∧ c ≠ zeroHash).
  { intros h c Hc. destruct (links_in l h c Hc) as (e & He%list_elem_of_In & ->). unfold links_check in H. rewrite forallb_forall in H. specialize (H e He). rewrite forallb_forall in H.
    apply list_elem_of_In in Hc. specialize (H c Hc). by apply bool_decide_eq_true in H. }
  split; [intros h c Hc; by apply Hlink|intros h c Hc; by eapply Hlink|]. intros h Hc. by apply Hlink in Hc as (_ & _ & ?).
Qed.

Lemma new_links_check : links_check hashed_strings new_rank = true.
Proof. by vm_compute. Qed.

Lemma new_lawful : lawful (trie_links new_content) new_rank.
Proof. exact (table_lawful hashed_strings new_rank new_links_check). Qed.

Lemma new_no_zero : new_content zeroHash = None.
Proof. by vm_compute. Qed.

Lemma new_no_empty : new_content emptyRoot = None.
Proof. by vm_compute. Qed.

Lemma new_consistent : consistent new_content new_db.
Proof. split; [apply inv_new; intros h b _; by rewrite lookup_empty|apply coherent_new]. Qed.

Lemma new_ready : ready demo_keccak new_content new_db new_trie demo_map.
Proof.
  assert (H : ∀ ops t m, ready demo_keccak new_content new_db t m →
    ready demo_keccak new_content new_db (trie_of (foldl (λ r '(k, v), t ← r; TryUpdate (db_view new_db) t k v) (Ret t) ops)) (foldl (λ m '(k, v), if decide (v = []) then delete k m else <[k := v]> m) m ops)).
  { induction ops as [|[k v] ops IH]; intros t m HR; [done|]. cbn [foldl mbind outcome_bind].
    destruct (ready_TryUpdate demo_keccak demo_keccak_32 new_content new_rank new_no_zero new_db new_consistent t m k v HR) as (t' & E & HR'). rewrite E. by apply IH. }
  exact (H demo_ops (mk_Trie nil_ 0) ∅ (Build_ready _ _ _ _ _ (sealed_empty _ _) (neat_nil _ _ _))).
Qed.

Lemma new_view h : db_view new_db h = None.
Proof.
  unfold db_view, node_, bind, get_db. cbn [clean_get cleans new_db NewDatabase NewDatabaseWithCache Z.ltb Z.compare dirties diskdb]. destruct (decide (BytesToHash h = zeroHash)) as [->|Hn]; [by rewrite lookup_singleton_eq|].
  by rewrite lookup_singleton_ne, lookup_empty.
Qed.

Lemma new_not_empty : bool_decide (is_nil (root new_trie) = false) = true.
Proof. by vm_compute. Qed.

#[local] Instance stands_dec content e : Decision (stands demo_keccak content e).
Proof. unfold TrieCommitOps.stands. apply _. Defined.

Lemma new_stands : forallb (λ e, bool_decide (stands demo_keccak new_content e)) hashed_strings = true.
Proof. by vm_compute. Qed.

Lemma all_stand n (P : bytes → Prop) `{∀ e, Decision (P e)} : bool_decide (is_nil n = false) = true → forallb (λ e, bool_decide (P e)) (strings n) = true →
  ∀ e, encodes demo_keccak (db_view new_db) n e → P e.
Proof.
  intros Hn%bool_decide_eq_true HS e He. apply strings_in in He; [|apply new_view|by intros ->]. rewrite forallb_forall in HS. apply list_elem_of_In in He. specialize (HS e He). by apply bool_decide_eq_true in HS.
Qed.

Lemma new_agrees : ∀ e, encodes demo_keccak (db_view new_db) (root new_trie) e → stands demo_keccak new_content e.
Proof. exact (all_stand (root new_trie) (stands demo_keccak new_content) new_not_empty new_stands). Qed.

Lemma new_keys : ∃ len, ∀ k v, demo_map !! k = Some v → length k = len.
Proof.
  exists 1%nat. assert (H : map_Forall (λ k _, length k = 1%nat) demo_map) by (apply (bool_decide_unpack _); by vm_compute). intros k v E. by apply (H k v).
Qed.

Lemma new_room : room new_db (Z.of_nat (nsize (root new_trie))).
Proof. apply (bool_decide_unpack _). by vm_compute. Qed.

Lemma committed_trie_reopens_witness :
  ∃ db' h t' t2, Commit demo_keccak None new_trie new_db = Ok db' (h, t') ∧ consistent new_content db' ∧ ready demo_keccak new_content db' t' demo_map ∧
    New (db_view db') h = Ret t2 ∧ ready demo_keccak new_content db' t2 demo_map.
Proof.
  exact (proj2 (proj2 (proj2 (committed_trie_reopens demo_keccak demo_keccak_32 new_content new_rank new_lawful new_no_zero new_no_empty new_db new_trie demo_map new_consistent new_ready)))
    demo_sized new_keys (λ _, new_agrees) new_room).
Defined.

(** ** Keys of different lengths *)

(** Keys where one is the beginning of the other. *)
Definition mixed_ops : list (bytes * bytes) := [([z2b 0x12], long_value 1); ([z2b 0x12; z2b 0x34], long_value 2)].

Definition mixed_trie : Trie := trie_of (update_all (mk_Trie nil_ 0) mixed_ops).

(** What the trie has under a key, before it is committed and persisted, and after. *)
Definition read_back (keccak : bytes → bytes) (t : Trie) (key : bytes) : option (option bytes * option bytes) :=
  match TryGet none t key, Commit keccak None t new_db with
  | Ret (before, _), Ok db (h, _) =>
      match TrieDb.Commit h db with
      | Ok db _ =>
          match New (db_view db) h with
          | Ret t => match TryGet (db_view db) t key with Ret (after, _) => Some (before, after) | _ => None end
          | _ => None
          end
      | _ => None
      end
  | _, _ => None
  end.

(** A value of 31 bytes or more that sits in a branch is stored apart, the
    database does not count the reference to it, and once the branch is on the
    disk the hash is read in place of the value: without keys of one length,
    the round trip fails. *)
Lemma branch_value_lost : read_back Sha256.sha256 mixed_trie [z2b 0x12] = Some (Some (long_value 1), Some (Sha256.sha256 (enc (Str (long_value 1))))).
Proof. by vm_compute. Qed.

End TrieCommitClaims.
