(* ===== verification/Evm.v ===== *)
(** * Evm: message calls and contract creation (core/vm/evm.go, core/evm.go)

    [Call], [CallCode], [DelegateCall], [StaticCall] and [create] with their
    snapshots, value transfer and gas, on top of the execution state. The
    instruction loop of the interpreter and the bodies of the precompiled
    contracts are the class [Interpreter], of which [Machine] is an instance.

    - A contract keeps of its caller what is read from it: the address, and of
      a calling contract also its own caller and value.
    - nil return data is the empty list. Tracing and the cached jump
      destinations are left out. *)

From stdpp Require Import base gmap list.
From Stdlib Require Import ZArith Lia.
From S2P Require Import Prelude Rlp StateDB.

Local Open Scope Z_scope.

Module Evm.
Import StateDB.

(** ** Errors, contracts, environment *)

Inductive vm_error :=
  | ErrOutOfGas | ErrCodeStoreOutOfGas | ErrDepth | ErrInsufficientBalance
  | ErrContractAddressCollision | ErrNoCompatibleInterpreter
  | errExecutionReverted | errMaxCodeSizeExceeded
  | errInvalidOpcode (op : Z) | errStackUnderflow (len min : Z) | errStackLimit (len max : Z)
  | errWriteProtection | errGasUintOverflow | errReturnDataOutOfBounds | errInvalidJump
  | precompile_error (which : nat) | out_of_fuel.

#[export] Instance vm_error_eq_dec : EqDecision vm_error.
Proof. solve_decision. Defined.

Inductive ContractRef :=
  | AccountRef (addr : Z)
  | ContractOf (CallerAddress self : Z) (value : option Z).

Definition Address (r : ContractRef) : Z :=
  match r with AccountRef a => a | ContractOf _ self _ => self end.

Record Contract := mk_Contract {
  CallerAddress : Z; caller : ContractRef; self : Z;
  c_Code : bytes; c_CodeHash : Z; CodeAddr : option Z; Input : bytes;
  c_Gas : Z; c_value : option Z }.

Record Rules := mk_Rules {
  IsHomestead : bool; IsEIP150 : bool; IsEIP158 : bool; IsByzantium : bool;
  IsConstantinople : bool; IsPetersburg : bool; IsIstanbul : bool }.

(** The block context, the configuration, and the interpreter's [depth] and
    [readOnly], which the calls of a frame inherit. *)
Record EVM := mk_EVM {
  Origin : Z; evm_GasPrice : Z; Coinbase : Z; BlockNumber : Z; evm_Time : Z; evm_Difficulty : Z;
  evm_GasLimit : Z; GetHash : Z → Z; ChainID : Z; depth : Z; readOnly : bool;
  chainRules : Rules; NoRecursion : bool; EnablePreimageRecording : bool }.

(** [in.evm.depth++], and [readOnly] once set stays for the calls inside. *)
Definition enter (evm : EVM) (ro : bool) : EVM :=
  mk_EVM (Origin evm) (evm_GasPrice evm) (Coinbase evm) (BlockNumber evm) (evm_Time evm) (evm_Difficulty evm)
    (evm_GasLimit evm) (GetHash evm) (ChainID evm) (depth evm + 1) (readOnly evm || ro)
    (chainRules evm) (NoRecursion evm) (EnablePreimageRecording evm).

Definition CallCreateDepth : Z := 1024.
Definition MaxCodeSize : Z := 24576.
Definition CreateDataGas : Z := 200.

(** ** Contracts (contract.go) *)

Definition NewContract (caller : ContractRef) (object : Z) (value : option Z) (gas : Z) : Contract :=
  mk_Contract (Address caller) caller object [] 0 None [] gas value.

(** [c.caller.([*]Contract)] panics when the caller is no contract. *)
Definition AsDelegate (c : Contract) : option Contract :=
  match caller c with
  | ContractOf ca _ v =>
      Some (mk_Contract ca (caller c) (self c) (c_Code c) (c_CodeHash c) (CodeAddr c) (Input c) (c_Gas c) v)
  | AccountRef _ => None
  end.

Definition SetCallCode (c : Contract) (addr : option Z) (hash : Z) (code : bytes) : Contract :=
  mk_Contract (CallerAddress c) (caller c) (self c) code hash addr (Input c) (c_Gas c) (c_value c).

Definition set_Input (c : Contract) (input : bytes) : Contract :=
  mk_Contract (CallerAddress c) (caller c) (self c) (c_Code c) (c_CodeHash c) (CodeAddr c) input (c_Gas c) (c_value c).

(** The gas left, if there is enough. *)
Definition UseGas (have gas : Z) : option Z := if have <? gas then None else Some (have - gas).

(** [ret, contract.Gas, err] *)
Abbreviation result := (bytes * Z * option vm_error)%type.

(** [ret, address, contract.Gas, err] *)
Abbreviation create_result := (bytes * Z * Z * option vm_error)%type.

(** What the calls need of the rest of the machine: the precompiled contracts
    of the rules in force, and the instruction loop, which returns the data,
    the gas left and the error. The environment of the loop is that of the
    frame ([enter]). *)
Class Interpreter := {
  RequiredGas : Rules → Z → bytes → Z;
  RunPrecompile : Rules → Z → bytes → bytes * option vm_error;
  run_loop : EVM → Contract → SM result;
}.

(** The highest address of [PrecompiledContractsHomestead] and its successors. *)
Definition precompiles (r : Rules) (addr : Z) : bool :=
  let last := if IsIstanbul r then 9 else if IsByzantium r then 8 else 4 in
  (1 <=? addr) && (addr <=? last).

Section WithInterpreter.
Context `{Backend} `{Interpreter}.

(** ** Transfers (core/evm.go) *)

Definition CanTransfer (addr amount : Z) : SM bool :=
  b ← GetBalance addr; mret (amount <=? b).

Definition Transfer (sender recipient amount : Z) : SM unit :=
  SubBalance sender amount;; AddBalance recipient amount.

(** ** Running a contract *)

Definition RunPrecompiledContract (r : Rules) (addr : Z) (input : bytes) (c : Contract) : result :=
  match UseGas (c_Gas c) (RequiredGas r addr input) with
  | Some gas => let '(ret, err) := RunPrecompile r addr input in (ret, gas, err)
  | None => ([], c_Gas c, Some ErrOutOfGas)
  end.

(** The head of [EVMInterpreter.Run]: nothing runs where there is no code. *)
Definition Run (evm : EVM) (c : Contract) (input : bytes) (ro : bool) : SM result :=
  match c_Code c with
  | [] => mret ([], c_Gas c, None)
  | _ => run_loop (enter evm ro) (set_Input c input)
  end.

Definition run (evm : EVM) (c : Contract) (input : bytes) (ro : bool) : SM result :=
  match CodeAddr c with
  | Some a =>
      if precompiles (chainRules evm) a then mret (RunPrecompiledContract (chainRules evm) a input c)
      else Run evm c input ro
  | None => Run evm c input ro
  end.

(** [if err != nil { RevertToSnapshot; if err != errExecutionReverted { UseGas(Gas) } }] *)
Definition settle (snapshot : Z) (r : result) : SM result :=
  let '(ret, gas, err) := r in
  match err with
  | None => mret r
  | Some e =>
      RevertToSnapshot snapshot;;
      mret (ret, if decide (e = errExecutionReverted) then gas else 0, err)
  end.

(** The code of an account in a contract environment. *)
Definition load_code (c : Contract) (addr : Z) : SM Contract :=
  hash ← GetCodeHash addr;
  code ← GetCode addr;
  mret (SetCallCode c (Some addr) hash (default [] code)).

Definition Call (evm : EVM) (caller : ContractRef) (addr : Z) (input : bytes) (gas value : Z) : SM result :=
  if NoRecursion evm && (0 <? depth evm) then mret ([], gas, None)
  else if CallCreateDepth <? depth evm then mret ([], gas, Some ErrDepth)
  else
    can ← CanTransfer (Address caller) value;
    if negb can then mret ([], gas, Some ErrInsufficientBalance)
    else
      snapshot ← Snapshot;
      exists_ ← Exist addr;
      if negb exists_ && negb (precompiles (chainRules evm) addr) && IsEIP158 (chainRules evm) && (value =? 0)
      then mret ([], gas, None)
      else
        (if negb exists_ then CreateAccount addr else mret tt);;
        Transfer (Address caller) addr value;;
        c ← load_code (NewContract caller addr (Some value) gas) addr;
        r ← run evm c input false;
        settle snapshot r.

Definition CallCode (evm : EVM) (caller : ContractRef) (addr : Z) (input : bytes) (gas value : Z) : SM result :=
  if NoRecursion evm && (0 <? depth evm) then mret ([], gas, None)
  else if CallCreateDepth <? depth evm then mret ([], gas, Some ErrDepth)
  else
    can ← CanTransfer (Address caller) value;
    if negb can then mret ([], gas, Some ErrInsufficientBalance)
    else
      snapshot ← Snapshot;
      c ← load_code (NewContract caller (Address caller) (Some value) gas) addr;
      r ← run evm c input false;
      settle snapshot r.

Definition DelegateCall (evm : EVM) (caller : ContractRef) (addr : Z) (input : bytes) (gas : Z) : SM result :=
  if NoRecursion evm && (0 <? depth evm) then mret ([], gas, None)
  else if CallCreateDepth <? depth evm then mret ([], gas, Some ErrDepth)
  else
    snapshot ← Snapshot;
    match AsDelegate (NewContract caller (Address caller) None gas) with
    | None => panic
    | Some c =>
        c ← load_code c addr;
        r ← run evm c input false;
        settle snapshot r
    end.

Definition StaticCall (evm : EVM) (caller : ContractRef) (addr : Z) (input : bytes) (gas : Z) : SM result :=
  if NoRecursion evm && (0 <? depth evm) then mret ([], gas, None)
  else if CallCreateDepth <? depth evm then mret ([], gas, Some ErrDepth)
  else
    snapshot ← Snapshot;
    c ← load_code (NewContract caller addr (Some 0) gas) addr;
    AddBalance addr 0;;
    r ← run evm c input true;
    settle snapshot r.

(** ** Creation *)

(** The code a finished creation stores, or the error in its place. *)
Definition store_code (address : Z) (maxCodeSizeExceeded : bool) (r : result) : SM result :=
  let '(ret, gas, err) := r in
  match err, maxCodeSizeExceeded with
  | None, false =>
      match UseGas gas (u64 (Z.of_nat (length ret) * CreateDataGas)) with
      | Some gas => SetCode address (Some ret);; mret (ret, gas, None)
      | None => mret (ret, gas, Some ErrCodeStoreOutOfGas)
      end
  | _, _ => mret r
  end.

(** The part of [create] under the snapshot. *)
Definition create_body (evm : EVM) (caller : ContractRef) (c : Contract) (value address gas snapshot : Z) : SM create_result :=
  CreateAccount address;;
  (if IsEIP158 (chainRules evm) then SetNonce address 1 else mret tt);;
  Transfer (Address caller) address value;;
  if NoRecursion evm && (0 <? depth evm) then mret ([], address, gas, None)
  else
    r ← run evm c [] false;
    let maxCodeSizeExceeded := IsEIP158 (chainRules evm) && (MaxCodeSize <? Z.of_nat (length r.1.1)) in
    '(ret, gas, err) ← store_code address maxCodeSizeExceeded r;
    let revert := maxCodeSizeExceeded ||
      match err with
      | None => false
      | Some e => IsHomestead (chainRules evm) || negb (bool_decide (e = ErrCodeStoreOutOfGas))
      end in
    (if revert then RevertToSnapshot snapshot else mret tt);;
    let gas := if revert && negb (bool_decide (err = Some errExecutionReverted)) then 0 else gas in
    let err := match err with
               | None => if maxCodeSizeExceeded then Some errMaxCodeSizeExceeded else None
               | Some e => Some e
               end in
    mret (ret, address, gas, err).

Definition create (evm : EVM) (caller : ContractRef) (code : bytes) (codeHash : Z) (gas value address : Z)
    : SM create_result :=
  if CallCreateDepth <? depth evm then mret ([], 0, gas, Some ErrDepth)
  else
    can ← CanTransfer (Address caller) value;
    if negb can then mret ([], 0, gas, Some ErrInsufficientBalance)
    else
      nonce ← GetNonce (Address caller);
      SetNonce (Address caller) (u64 (nonce + 1));;
      contractHash ← GetCodeHash address;
      addrNonce ← GetNonce address;
      if negb (addrNonce =? 0) || (negb (contractHash =? 0) && negb (contractHash =? emptyCodeHash))
      then mret ([], 0, 0, Some ErrContractAddressCollision)
      else
        snapshot ← Snapshot;
        create_body evm caller (SetCallCode (NewContract caller address (Some value) gas) (Some address) codeHash code)
          value address gas snapshot.

(** [crypto.CreateAddress]: the low 20 bytes of the hash. *)
Definition CreateAddress (b nonce : Z) : Z :=
  let data := match Rlp.EncodeToBytes (Rlp.VList [Rlp.VBytes (fixed_be 20 b); Rlp.VUint nonce]) with
              | Ret d => d
              | _ => []
              end in
  Keccak256Hash data mod 2 ^ 160.

Definition CreateAddress2 (b salt : Z) (inithash : Z) : Z :=
  Keccak256Hash ([Byte.xff] ++ fixed_be 20 b ++ fixed_be 32 salt ++ fixed_be 32 inithash) mod 2 ^ 160.

Definition Create (evm : EVM) (caller : ContractRef) (code : bytes) (gas value : Z) : SM create_result :=
  nonce ← GetNonce (Address caller);
  create evm caller code 0 gas value (CreateAddress (Address caller) nonce).

Definition Create2 (evm : EVM) (caller : ContractRef) (code : bytes) (gas endowment salt : Z) : SM create_result :=
  let hash := Keccak256Hash code in
  create evm caller code hash gas endowment (CreateAddress2 (Address caller) salt hash).
End WithInterpreter.

End Evm.
