(* ===== verification/EvmProofs.v ===== *)
(** * EvmProofs: a failed call leaves no trace

    What the instruction loop promises to the calls (it changes the state only
    through journaled operations and does not produce gas), and what the calls
    make of it: whatever ran, an error restores the state. *)

From stdpp Require Import base gmap list.
From Stdlib Require Import ZArith Lia.
From S2P Require Import Prelude StateDB StateProofs Evm.

Local Open Scope Z_scope.

Module EvmProofs.
Import StateDB StateProofs Evm.

(** ** The promise of the interpreter *)

Class InterpreterLaws `{Backend} `{Interpreter} := {
  loop_since : ∀ evm c s0 id s r s',
    since s0 id s → run_loop evm c s = Some (r, s') → since s0 id s';
  loop_gas : ∀ evm c s ret gas err s',
    run_loop evm c s = Some ((ret, gas, err), s') → 0 <= c_Gas c → 0 <= gas <= c_Gas c;
  required_gas : ∀ r a input, 0 <= RequiredGas r a input;
}.

Section Calls.
Context {BE : Backend} {IN : Interpreter} {LW : InterpreterLaws}.

Lemma SM_bind_run {A B} (m : SM A) (k : A → SM B) s a s' : m s = Some (a, s') → (m ≫= k) s = k a s'.
Proof. intros E. unfold mbind, SM_bind. by rewrite E. Qed.

(** ** What the calls do to the state *)

Definition framed {A} (m : SM A) : Prop :=
  ∀ s0 id s a s', since s0 id s → m s = Some (a, s') → since s0 id s'.

Lemma framed_ret {A} (a : A) : framed (mret a).
Proof. by intros s0 id s a' s' Hs [= <- <-]. Qed.

Lemma framed_bind {A B} (m : SM A) (k : A → SM B) : framed m → (∀ a, framed (k a)) → framed (m ≫= k).
Proof. intros Hm Hk s0 id s b s' Hs (a & s1 & E1 & E2)%SM_bind_Some. eapply Hk; [|exact E2]. by eapply Hm. Qed.

Lemma framed_reach {A} (m : SM A) : (∀ s a s', swf s → m s = Some (a, s') → reach s s') → framed m.
Proof. intros Hm s0 id s a s' Hs E. eapply since_write; [done|]. eapply Hm; [apply Hs|exact E]. Qed.

Lemma getStateObject_framed a : framed (getStateObject a).
Proof. apply framed_reach. intros s o s' W E. rewrite getStateObject_run in E. injection E as <- <-. by apply reach_cached. Qed.

Lemma read_framed {A} a (f : option stateObject → A) : framed (o ← getStateObject a; mret (f o)).
Proof. apply framed_bind; [apply getStateObject_framed|]. intros o. apply framed_ret. Qed.

Lemma Code_framed a : framed (GetCode a).
Proof.
  apply framed_reach. intros s c s' W (o & s1 & E1 & E)%SM_bind_Some. rewrite getStateObject_run in E1. injection E1 as <- <-.
  pose proof (reach_cached a s W) as Hc. eapply reach_trans; [exact Hc|]. pose proof (r_swf _ _ Hc) as W1.
  destruct (live s a) as [o|] eqn:El; [|injection E as <- <-; by apply reach_eqv].
  eapply (Code_reach a o); [done| |exact E]. unfold live in *. by rewrite eff_cached.
Qed.

Lemma Transfer_framed a b x : framed (Transfer a b x).
Proof.
  apply framed_bind; [|intros []]; apply framed_reach; intros s [] s' W; [by apply SubBalance_reach|by apply AddBalance_reach].
Qed.

Lemma CreateAccount_framed a : framed (CreateAccount a).
Proof. apply framed_reach. intros s [] s' W. by apply CreateAccount_reach. Qed.

Lemma load_code_framed c a : framed (load_code c a).
Proof.
  apply framed_bind; [apply read_framed|intros hash]. apply framed_bind; [apply Code_framed|]. intros. apply framed_ret.
Qed.

Lemma run_framed evm c input ro : framed (run evm c input ro).
Proof.
  assert (Hr : framed (Run evm c input ro)).
  { unfold Run. destruct (c_Code c); [apply framed_ret|]. intros s0 id s r s'. apply loop_since. }
  unfold run. destruct (CodeAddr c) as [a|]; [|done]. destruct (precompiles _ _); [apply framed_ret|done].
Qed.

(** Gas *)

Lemma UseGas_Some have gas left : UseGas have gas = Some left → 0 <= gas → 0 <= left <= have.
Proof. unfold UseGas. destruct (Z.ltb_spec have gas); [done|]. intros [= <-]. lia. Qed.

Lemma run_gas evm c input ro s ret gas err s' :
  0 <= c_Gas c → run evm c input ro s = Some ((ret, gas, err), s') → 0 <= gas <= c_Gas c.
Proof.
  intros Hg. assert (Hr : Run evm c input ro s = Some ((ret, gas, err), s') → 0 <= gas <= c_Gas c).
  { unfold Run. destruct (c_Code c) as [|b l]; [intros [= <- <- <- <-]; lia|]. intros E. by apply loop_gas in E. }
  unfold run. destruct (CodeAddr c) as [a|]; [|done]. destruct (precompiles _ _); [|done].
  unfold RunPrecompiledContract. destruct (UseGas _ _) as [left|] eqn:Eu.
  - destruct (RunPrecompile _ _ _). intros [= <- <- <- <-]. eapply UseGas_Some; [exact Eu|apply required_gas].
  - intros [= <- <- <- <-]. lia.
Qed.

(** ** Calls *)

(** What a caller can tell two states apart by. *)
Definition restored (s s' : StateDB) : Prop :=
  (∀ a k, observe s' a k = observe s a k) ∧ same_books s' s.

Lemma restored_cached a s : restored s (cached a s).
Proof.
  split; [intros b k; apply observe_eqv, cached_eqv|]. unfold same_books, cached. by destruct (eff s a).
Qed.

Lemma restored_trans s1 s2 s3 : restored s1 s2 → restored s2 s3 → restored s1 s3.
Proof.
  intros [H1 (A1 & A2 & A3 & A4 & A5 & A6)] [H2 (B1 & B2 & B3 & B4 & B5 & B6)]. split.
  - intros a k. by rewrite H2.
  - unfold same_books. split_and!; congruence.
Qed.

Lemma revs_wf_cached a s : revs_wf s → revs_wf (cached a s).
Proof. intros [H1 H2]. unfold cached. destruct (eff s a); by split. Qed.

Definition spent_on_error (e : vm_error) (gas gas' : Z) : Prop :=
  0 <= gas' <= gas ∧ (gas' ≠ 0 → e = ErrDepth ∨ e = ErrInsufficientBalance ∨ e = errExecutionReverted).

(** The end of every call: run the contract, then settle. *)
Lemma settle_error evm c input ro s0 id s ret gas' e s' :
  swf s0 → since s0 id s → 0 <= c_Gas c →
  (r ← run evm c input ro; settle id r) s = Some ((ret, gas', Some e), s') →
  restored s0 s' ∧ spent_on_error e (c_Gas c) gas'.
Proof.
  intros W Hs Hg ([[ret0 g0] err] & s1 & Er & Ef)%SM_bind_Some. pose proof (run_framed _ _ _ _ _ _ _ _ _ Hs Er) as Hs1.
  pose proof (run_gas _ _ _ _ _ _ _ _ _ Hg Er) as Hgas. unfold settle in Ef. destruct err as [e0|]; [|done].
  destruct (since_back s0 id s1 W Hs1) as (s3 & E3 & Ho & Hb & _).
  rewrite (SM_bind_run _ _ _ _ _ E3) in Ef. injection Ef as <- <- <- <-. split; [done|].
  case_decide; [split; [done|auto]|]. split; [lia|done].
Qed.

(** The four kinds of message call. *)
Inductive call_kind := KCall (value : Z) | KCallCode (value : Z) | KDelegateCall | KStaticCall.

Definition message_call (k : call_kind) (evm : EVM) (caller : ContractRef) (addr : Z) (input : bytes) (gas : Z) : SM result :=
  match k with
  | KCall value => Call evm caller addr input gas value
  | KCallCode value => CallCode evm caller addr input gas value
  | KDelegateCall => DelegateCall evm caller addr input gas
  | KStaticCall => StaticCall evm caller addr input gas
  end.

Lemma CanTransfer_run a x s : ∃ b, CanTransfer a x s = Some (b, cached a s).
Proof. unfold CanTransfer, GetBalance, mbind, SM_bind. rewrite getStateObject_run. by eexists. Qed.

(** A body that runs under a snapshot taken in [s]. *)
Definition atomic (gas : Z) (body : Z → SM result) : Prop :=
  ∀ s0 id s ret gas' e s', swf s0 → since s0 id s → body id s = Some ((ret, gas', Some e), s') →
    restored s0 s' ∧ spent_on_error e gas gas'.

Lemma snapshot_atomic gas body s ret gas' e s' :
  swf s → revs_wf s → atomic gas body → (id ← Snapshot; body id) s = Some ((ret, gas', Some e), s') →
  restored s s' ∧ spent_on_error e gas gas'.
Proof.
  intros W Hw Hb (id & s1 & E1 & E2)%SM_bind_Some. destruct (since_start s id s1 W Hw E1) as [_ Hs]. by eapply Hb.
Qed.

Lemma atomic_bind {A} gas (m : SM A) (body : A → Z → SM result) :
  framed m → (∀ a, atomic gas (body a)) → atomic gas (λ id, a ← m; body a id).
Proof. intros Hm Hb s0 id s ret gas' e s' W Hs (a & s1 & E1 & E2)%SM_bind_Some. eapply Hb; [done| |exact E2]. by eapply Hm. Qed.

Lemma atomic_run evm c input ro : 0 <= c_Gas c → atomic (c_Gas c) (λ id, r ← run evm c input ro; settle id r).
Proof. intros Hg s0 id s ret gas' e s' W Hs E. by eapply settle_error. Qed.

Lemma load_code_gas c addr s c' s' : load_code c addr s = Some (c', s') → c_Gas c' = c_Gas c.
Proof. by intros (? & ? & _ & (? & ? & _ & [= <- _])%SM_bind_Some)%SM_bind_Some. Qed.

Lemma atomic_load c addr (body : Contract → Z → SM result) :
  (∀ c', c_Gas c' = c_Gas c → atomic (c_Gas c) (body c')) → atomic (c_Gas c) (λ id, c' ← load_code c addr; body c' id).
Proof.
  intros Hb s0 id s ret gas' e s' W Hs (c' & s1 & E1 & E2)%SM_bind_Some.
  eapply Hb; [by eapply load_code_gas|done| |exact E2]. by eapply load_code_framed.
Qed.

Lemma atomic_load_run evm c addr input ro :
  0 <= c_Gas c → atomic (c_Gas c) (λ id, c' ← load_code c addr; r ← run evm c' input ro; settle id r).
Proof.
  intros Hg. apply (atomic_load c addr (λ c' id, r ← run evm c' input ro; settle id r)).
  intros c' Ec. rewrite <- Ec in *. by apply atomic_run.
Qed.

(** The guards that fail a call before anything happens. *)
Lemma guarded_call evm caller value gas (body : SM result) s ret gas' e s' :
  0 <= gas →
  (∀ s1, restored s s1 → swf s1 → revs_wf s1 → body s1 = Some ((ret, gas', Some e), s') → restored s1 s' ∧ spent_on_error e gas gas') →
  swf s → revs_wf s →
  (if NoRecursion evm && (0 <? depth evm) then mret ([], gas, None)
   else if CallCreateDepth <? depth evm then mret ([], gas, Some ErrDepth)
   else can ← CanTransfer (Address caller) value;
     if negb can then mret ([], gas, Some ErrInsufficientBalance) else body) s = Some ((ret, gas', Some e), s') →
  restored s s' ∧ spent_on_error e gas gas'.
Proof.
  intros Hg Hb W Hw. destruct (NoRecursion evm && _); [done|]. destruct (_ <? _).
  { intros [= <- <- <- <-]. split; [by split|]. split; [lia|auto]. }
  destruct (CanTransfer_run (Address caller) value s) as [can E]. rewrite (SM_bind_run _ _ _ _ _ E).
  pose proof (restored_cached (Address caller) s) as Hr. destruct can; cbn [negb].
  - intros Ec. destruct (Hb (cached (Address caller) s)) as [H1 H2]; [done|apply (r_swf _ _ (reach_cached _ _ W))|by apply revs_wf_cached|done|].
    split; [by eapply restored_trans|done].
  - intros [= <- <- <- <-]. split; [done|]. split; [lia|auto].
Qed.

Lemma message_call_error k evm caller addr input gas s ret gas' e s' :
  0 <= gas → swf s → revs_wf s → message_call k evm caller addr input gas s = Some ((ret, gas', Some e), s') →
  restored s s' ∧ spent_on_error e gas gas'.
Proof.
  intros Hg W Hw. destruct k as [value|value| |]; cbn [message_call].
  - apply guarded_call; [done| |done|done]. intros s1 _ W1 Hw1. apply snapshot_atomic; [done|done|].
    apply (atomic_bind gas (Exist addr)); [apply read_framed|intros ex]. destruct (_ && _ && _ && _).
    { by intros s0 id s2 ? ? ? ? ? ?. }
    apply (atomic_bind gas (if negb ex then CreateAccount addr else mret tt)).
    { destruct (negb ex); [apply CreateAccount_framed|apply framed_ret]. }
    intros _. apply (atomic_bind gas (Transfer (Address caller) addr value)); [apply Transfer_framed|intros _].
    by apply (atomic_load_run evm (NewContract caller addr (Some value) gas)).
  - apply guarded_call; [done| |done|done]. intros s1 _ W1 Hw1. apply snapshot_atomic; [done|done|].
    by apply (atomic_load_run evm (NewContract caller (Address caller) (Some value) gas)).
  - unfold DelegateCall. destruct (NoRecursion evm && _); [done|]. destruct (_ <? _).
    { intros [= <- <- <- <-]. split; [by split|]. split; [lia|auto]. }
    apply snapshot_atomic; [done|done|]. destruct (AsDelegate _) as [c|] eqn:Ed; [|by intros s0 id s2 ? ? ? ? ? ?].
    assert (c_Gas c = gas) as Ec by (unfold AsDelegate in Ed; destruct caller; [done|by injection Ed as <-]).
    rewrite <- Ec in *. by apply atomic_load_run.
  - unfold StaticCall. destruct (NoRecursion evm && _); [done|]. destruct (_ <? _).
    { intros [= <- <- <- <-]. split; [by split|]. split; [lia|auto]. }
    apply snapshot_atomic; [done|done|].
    apply (atomic_load (NewContract caller addr (Some 0) gas) addr (λ c id, AddBalance addr 0;; r ← run evm c input true; settle id r)).
    intros c Ec. cbn in Ec. apply (atomic_bind _ (AddBalance addr 0)).
    + apply framed_reach. intros s1 [] s2 W1. by apply AddBalance_reach.
    + intros _. cbn [NewContract c_Gas]. rewrite <- Ec in *. by apply atomic_run.
Qed.

(** ** Creation *)

Lemma store_code_framed a m r : framed (store_code a m r).
Proof.
  destruct r as [[ret gas] err]. unfold store_code. destruct err as [e|]; [apply framed_ret|]. destruct m; [apply framed_ret|].
  destruct (UseGas _ _); [|apply framed_ret]. apply framed_bind; [|intros; apply framed_ret].
  apply framed_reach. intros s [] s' W. by apply SetCode_reach.
Qed.

(** Before Homestead a creation that cannot pay for its code keeps what it did. *)
Definition undone (evm : EVM) (e : vm_error) : Prop := IsHomestead (chainRules evm) = true ∨ e ≠ ErrCodeStoreOutOfGas.

Lemma store_code_reverted a m r s ret g s' : store_code a m r s = Some ((ret, g, Some errExecutionReverted), s') → r = (ret, g, Some errExecutionReverted).
Proof.
  destruct r as [[ret0 g0] err]. unfold store_code. destruct err as [e|]; [by intros [= -> -> -> _]|]. destruct m; [done|]. destruct (UseGas _ _); [|done].
  by intros (? & ? & _ & [=])%SM_bind_Some.
Qed.

Lemma create_body_error evm caller c value address gas s0 id s ret a gas' e s' :
  0 <= gas → c_Gas c = gas → undone evm e → swf s0 → since s0 id s →
  create_body evm caller c value address gas id s = Some ((ret, a, gas', Some e), s') → restored s0 s' ∧ spent_on_error e gas gas'.
Proof.
  intros Hg Ec Hh W Hs (? & s1 & E1 & E)%SM_bind_Some. pose proof (CreateAccount_framed _ _ _ _ _ _ Hs E1) as Hs1.
  apply SM_bind_Some in E as (? & s2 & E2 & E). assert (Hs2 : since s0 id s2).
  { destruct (IsEIP158 _); [|by injection E2 as _ <-]. eapply since_write; [exact Hs1|]. destruct x0. eapply SetNonce_reach; [apply Hs1|exact E2]. }
  apply SM_bind_Some in E as (? & s3 & E3 & E). pose proof (Transfer_framed _ _ _ _ _ _ _ _ Hs2 E3) as Hs3.
  destruct (NoRecursion evm && _); [done|]. apply SM_bind_Some in E as (r & s4 & E4 & E).
  pose proof (run_framed _ _ _ _ _ _ _ _ _ Hs3 E4) as Hs4. set (m := IsEIP158 _ && _) in *. cbv zeta in E.
  apply SM_bind_Some in E as ([[ret0 g0] err] & s5 & E5 & E). pose proof (store_code_framed _ _ _ _ _ _ _ _ Hs4 E5) as Hs5.
  destruct (since_back s0 id s5 W Hs5) as (s6 & E6 & Ho & Hb & _). set (rv := m || _) in E.
  assert (Hrev : rv = true).
  { destruct rv eqn:Erv; [done|]. apply orb_false_iff in Erv as [Em Ev]. apply SM_bind_Some in E as (? & ? & _ & E). rewrite Em in E. destruct err as [e0|]; [|done].
    injection E as _ _ _ -> _. apply orb_false_iff in Ev as [Ev1 Ev2]. destruct Hh as [Hh|Hh]; [by rewrite Hh in Ev1|]. by rewrite bool_decide_eq_false_2 in Ev2. }
  rewrite Hrev in E. rewrite (SM_bind_run _ _ _ _ _ E6) in E. cbn [andb] in E. injection E as _ _ <- Ee <-. split; [done|].
  destruct (bool_decide_reflect (err = Some errExecutionReverted)) as [->|]; cbn [negb]; [|split; [lia|done]]. injection Ee as <-.
  apply store_code_reverted in E5 as ->. pose proof (run_gas _ _ _ _ _ _ _ _ _ ltac:(rewrite Ec; exact Hg) E4) as Hgas. rewrite Ec in Hgas. split; [done|auto].
Qed.

(** A creation that fails changes the nonce of the creator at most, and gives
    gas back on the same errors as a call. *)
Lemma create_error evm caller code hash gas value address s ret a gas' e s' :
  0 <= gas → undone evm e → swf s → revs_wf s →
  create evm caller code hash gas value address s = Some ((ret, a, gas', Some e), s') →
  (restored s s' ∨ ∃ s1 n s2, restored s s1 ∧ SetNonce (Address caller) n s1 = Some (tt, s2) ∧ restored s2 s') ∧ spent_on_error e gas gas'.
Proof.
  intros Hg Hh W Hw. unfold create. destruct (_ <? _); [intros [= <- <- <- <- <-]; split; [left; by split|split; [lia|auto]]|].
  destruct (CanTransfer_run (Address caller) value s) as [can E]. rewrite (SM_bind_run _ _ _ _ _ E). clear E.
  pose proof (restored_cached (Address caller) s) as Hr. set (c0 := cached (Address caller) s) in *.
  destruct can; cbn [negb]; [|intros [= <- <- <- <- <-]; split; [by left|split; [lia|auto]]].
  assert (W0 : swf c0) by (apply (r_swf _ _ (reach_cached _ _ W))). assert (Hw0 : revs_wf c0) by (by apply revs_wf_cached).
  intros (n & c1 & E1 & E)%SM_bind_Some. unfold GetNonce, mbind, SM_bind in E1. rewrite getStateObject_run in E1. injection E1 as En <-.
  set (c1 := cached (Address caller) c0) in *. assert (W1 : swf c1) by (apply (r_swf _ _ (reach_cached _ _ W0))).
  assert (Hw1 : revs_wf c1) by (by apply revs_wf_cached).
  apply SM_bind_Some in E as ([] & c2 & E2 & E). pose proof (SetNonce_reach _ _ _ _ W1 E2) as R2. pose proof (r_swf _ _ R2) as W2.
  enough (restored c2 s' ∧ spent_on_error e gas gas') as [H1 H2].
  { split; [right|done]. exists c1, (u64 (n + 1)), c2. split; [by eapply restored_trans; [|apply restored_cached]|]. by split. }
  apply SM_bind_Some in E as (h & c3 & E3 & E). unfold GetCodeHash, mbind, SM_bind in E3. rewrite getStateObject_run in E3. injection E3 as _ <-.
  apply SM_bind_Some in E as (n2 & c4 & E4 & E). unfold GetNonce, mbind, SM_bind in E4. rewrite getStateObject_run in E4. injection E4 as _ <-.
  set (c4 := cached address (cached address c2)) in *.
  assert (Hr4 : restored c2 c4) by (eapply restored_trans; apply restored_cached).
  destruct (_ || _); [injection E as _ _ <- <- <-; split; [done|split; [lia|done]]|].
  assert (W4 : swf c4) by (apply (r_swf _ _ (reach_cached _ _ (r_swf _ _ (reach_cached address c2 W2))))).
  assert (Hw4 : revs_wf c4).
  { apply revs_wf_cached, revs_wf_cached. by eapply revs_wf_reach. }
  apply SM_bind_Some in E as (id & c5 & E5 & E). destruct (since_start c4 id c5 W4 Hw4 E5) as [_ Hs].
  eapply create_body_error in E as [H1 H2]; [|done|done|done|done|exact Hs]. split; [by eapply restored_trans|done].
Qed.

End Calls.
End EvmProofs.
