(* ===== verification/Transition.v ===== *)
(** * Transition: applying a message to the state (core/state_transition.go)

    Nonce check, purchase of gas, intrinsic gas, the call or creation, the
    refund and the payment of the miner. The gas counter is a [uint64] and
    [useGas] subtracts without a check, as the source does. *)

From stdpp Require Import base gmap list.
From Stdlib Require Import ZArith Lia.
From S2P Require Import Prelude Gas StateDB Evm.

Local Open Scope Z_scope.

Module Transition.
Import StateDB Evm.

Record Message := mk_Message {
  From : Z; To : option Z; GasPrice : Z; GasLimit : Z; Value : Z; MsgNonce : Z; CheckNonce : bool; Data : bytes }.

(** The counters of a transition: the block gas pool, the gas left and the gas bought. *)
Record StateTransition := mk_transition { gp : Z; gas : Z; initialGas : Z }.

Inductive transition_error :=
  | errInsufficientBalanceForGas | ErrGasLimitReached | ErrNonceTooHigh | ErrNonceTooLow
  | vm_insufficient_balance.

(** Return data, gas used, and whether the machine reported an error. *)
Abbreviation outcome_of := (transition_error + (bytes * Z * bool))%type.

Definition gasUsed (st : StateTransition) : Z := u64 (initialGas st - gas st).

Definition useGas (st : StateTransition) (amount : Z) : StateTransition :=
  mk_transition (gp st) (u64 (gas st - amount)) (initialGas st).

Section WithInterpreter.
Context `{Backend} `{Interpreter}.

Definition buyGas (msg : Message) (st : StateTransition) : SM (transition_error + StateTransition) :=
  let mgval := GasLimit msg * GasPrice msg in
  balance ← GetBalance (From msg);
  if balance <? mgval then mret (inl errInsufficientBalanceForGas)
  else
    match Gas.SubGas (gp st) (GasLimit msg) with
    | Ret gp' =>
        SubBalance (From msg) mgval;;
        mret (inr (mk_transition gp' (u64 (gas st + GasLimit msg)) (GasLimit msg)))
    | _ => mret (inl ErrGasLimitReached)
    end.

Definition preCheck (msg : Message) (st : StateTransition) : SM (transition_error + StateTransition) :=
  if CheckNonce msg then
    nonce ← GetNonce (From msg);
    if nonce <? MsgNonce msg then mret (inl ErrNonceTooHigh)
    else if MsgNonce msg <? nonce then mret (inl ErrNonceTooLow)
    else buyGas msg st
  else buyGas msg st.

Definition refundGas (msg : Message) (st : StateTransition) : SM StateTransition :=
  s ← get;
  let refund_ := gasUsed st / 2 in
  let refund_ := if refund s <? refund_ then refund s else refund_ in
  let gas' := u64 (gas st + refund_) in
  AddBalance (From msg) (gas' * GasPrice msg);;
  mret (mk_transition (Gas.AddGas (gp st) gas') gas' (initialGas st)).

(** The call or creation of a message. *)
Definition execute (evm : EVM) (msg : Message) (st : StateTransition) : SM result :=
  match To msg with
  | None =>
      '(ret, _, leftOver, vmerr) ← Create evm (AccountRef (From msg)) (Data msg) (gas st) (Value msg);
      mret (ret, leftOver, vmerr)
  | Some to =>
      nonce ← GetNonce (From msg);
      SetNonce (From msg) (u64 (nonce + 1));;
      Call evm (AccountRef (From msg)) to (Data msg) (gas st) (Value msg)
  end.

Definition TransitionDb (evm : EVM) (msg : Message) (gp0 : Z) : SM (Z * outcome_of) :=
  checked ← preCheck msg (mk_transition gp0 0 0);
  match checked with
  | inl e => mret (gp0, inl e)
  | inr st =>
      let contractCreation := match To msg with None => true | Some _ => false end in
      let ig := Gas.IntrinsicGas (Data msg) contractCreation (IsHomestead (chainRules evm)) (IsIstanbul (chainRules evm)) in
      let st := useGas st ig in
      '(ret, leftOver, vmerr) ← execute evm msg st;
      let st := mk_transition (gp st) leftOver (initialGas st) in
      if decide (vmerr = Some ErrInsufficientBalance) then mret (gp st, inl vm_insufficient_balance)
      else
        st ← refundGas msg st;
        AddBalance (Coinbase evm) (gasUsed st * GasPrice msg);;
        mret (gp st, inr (ret, gasUsed st, bool_decide (is_Some vmerr)))
  end.

Definition ApplyMessage (evm : EVM) (msg : Message) (gp0 : Z) : SM (Z * outcome_of) := TransitionDb evm msg gp0.
End WithInterpreter.

End Transition.
