(* ===== verification/EvmClaims.v ===== *)
(** * EvmClaims: calls, transfers and created accounts

    The theorems on message calls, on the balances after a transfer, and on
    what an account created over a deleted one starts with. *)

From stdpp Require Import base gmap list.
From Stdlib Require Import ZArith Lia.
From S2P Require Import Prelude Gas StateDB StateProofs StateClaims Evm EvmProofs Transition.

Local Open Scope Z_scope.

(** ** TransitionProofs: what a transfer costs

    The effect of the balance operations on the live objects, the exact
    balances after a plain transfer, and the balance a deleted account still
    has when it is created again. *)

Module TransitionProofs.
Import StateDB StateProofs Evm EvmProofs Transition.

Section Balances.
Context {BE : Backend} {IN : Interpreter}.

(** ** Live objects after a write *)

(** The object a write on [a] starts from. *)
Definition base (s : StateDB) (a : Z) : stateObject := default (setNonce blank 0) (live s a).

Definition bal (s : StateDB) (a : Z) : Z := match live s a with Some o => Balance (data o) | None => 0 end.

Lemma base_balance s a : Balance (data (base s a)) = bal s a.
Proof. unfold base, bal. by destruct (live s a). Qed.

(** [s'] shows [s] with the object of [a] replaced by [o]. *)
Definition wrote (s s' : StateDB) (a : Z) (o : stateObject) : Prop :=
  (∀ b, live s' b = if decide (b = a) then Some o else live s b) ∧ refund s' = refund s.

Lemma live_eff_eq s s' : stateObjects s' = stateObjects s → ∀ b, live s' b = live s b.
Proof. intros E b. unfold live, eff. by rewrite E. Qed.

Lemma base_not_deleted s a : deleted (base s a) = false.
Proof. unfold base. destruct (live s a) eqn:E; [by eapply live_not_deleted|done]. Qed.

Lemma GetOrNew_wrote a s : ∃ s', GetOrNewStateObject a s = Some (base s a, s') ∧ wrote s s' a (base s a).
Proof.
  unfold GetOrNewStateObject, mbind, SM_bind. rewrite getStateObject_run. unfold base.
  destruct (live s a) as [o|] eqn:E.
  - eexists. split; [done|]. split; [|apply refund_cached]. intros b. rewrite live_cached_eq. by case_decide; subst.
  - cbn [default]. rewrite createObject_run. eexists. split; [done|]. split; [|cbn; by rewrite !refund_cached].
    intros b. cbn [fst snd]. rewrite (put_live _ a (setNonce blank 0)) by done. case_decide; [done|].
    rewrite (live_eff_eq (cached a (cached a s))) by done. by rewrite !live_cached_eq.
Qed.

Lemma write_balance a x s s1 :
  wrote s s1 a (base s a) →
  ∃ s', obj_SetBalance a (base s a) x s1 = Some (tt, s') ∧ wrote s s' a (setBalance (base s a) x).
Proof.
  intros [Hl Hr]. exists (put a (setBalance (base s a) x) (logged (balanceChange a (Balance (data (base s a)))) s1)).
  split; [done|]. split; [|by rewrite <- Hr].
  intros b. rewrite (put_live _ a (setBalance (base s a) x)) by apply base_not_deleted. case_decide; [done|].
  rewrite (live_eff_eq s1) by done. rewrite Hl. by rewrite decide_False.
Qed.

Lemma setBalance_id o : setBalance o (Balance (data o) + 0) = o.
Proof. rewrite Z.add_0_r. by destruct o as [[] ? ? ? ? ? ? ?]. Qed.

Lemma wrote_logged s s1 s2 a o :
  wrote s s1 a o → stateObjects s2 = stateObjects s1 → refund s2 = refund s1 → wrote s s2 a o.
Proof. intros [Hl Hr] Es Er. split; [|congruence]. intros b. by rewrite (live_eff_eq s1). Qed.

Lemma AddBalance_wrote a x s :
  ∃ s', AddBalance a x s = Some (tt, s') ∧ wrote s s' a (setBalance (base s a) (bal s a + x)).
Proof.
  destruct (GetOrNew_wrote a s) as (s1 & E1 & H1). unfold AddBalance. rewrite (SM_bind_run _ _ _ _ _ E1), <- base_balance.
  destruct (Z.eqb_spec x 0) as [->|]; [|by apply write_balance]. rewrite setBalance_id.
  destruct (empty (base s a)); [|eexists; split; [done|done]].
  unfold touch. rewrite (SM_bind_run _ _ s1 tt _ (append_run _ _)). destruct (_ =? _); eexists; (split; [done|]); by eapply wrote_logged.
Qed.

Lemma SubBalance_wrote a x s :
  ∃ s', SubBalance a x s = Some (tt, s') ∧ wrote s s' a (setBalance (base s a) (bal s a - x)).
Proof.
  destruct (GetOrNew_wrote a s) as (s1 & E1 & H1). unfold SubBalance. rewrite (SM_bind_run _ _ _ _ _ E1), <- base_balance.
  destruct (Z.eqb_spec x 0) as [->|]; [|by apply write_balance].
  rewrite <- Z.add_opp_r, setBalance_id. by eexists.
Qed.

Lemma SetNonce_wrote a n s : ∃ s', SetNonce a n s = Some (tt, s') ∧ wrote s s' a (setNonce (base s a) n).
Proof.
  destruct (GetOrNew_wrote a s) as (s1 & E1 & [Hl Hr]). unfold SetNonce. rewrite (SM_bind_run _ _ _ _ _ E1).
  exists (put a (setNonce (base s a) n) (logged (nonceChange a (Nonce (data (base s a)))) s1)).
  split; [done|]. split; [|by rewrite <- Hr]. intros b.
  rewrite (put_live _ a (setNonce (base s a) n)) by apply base_not_deleted. case_decide; [done|].
  rewrite (live_eff_eq s1) by done. rewrite Hl. by rewrite decide_False.
Qed.

(** ** Reads *)

(** States that show the same balances, codes and refund. *)
Record alike (s s' : StateDB) : Prop := {
  al_bal : ∀ b, bal s' b = bal s b;
  al_code : ∀ b o, live s b = Some o → ∃ o', live s' b = Some o' ∧ code_of o' = code_of o;
  al_refund : refund s' = refund s;
}.

Lemma alike_live s s' : (∀ b, live s' b = live s b) → refund s' = refund s → alike s s'.
Proof. intros Hl Hr. split; [intros b; unfold bal; by rewrite Hl|intros b o E; exists o; by rewrite Hl|done]. Qed.

Lemma alike_trans s1 s2 s3 : alike s1 s2 → alike s2 s3 → alike s1 s3.
Proof.
  intros [A1 A2 A3] [B1 B2 B3]. split; [intros b; by rewrite B1|intros b o E|congruence].
  destruct (A2 b o E) as (o1 & E1 & C1). destruct (B2 b o1 E1) as (o2 & E2 & C2). exists o2. by rewrite C2.
Qed.

Lemma alike_cached a s : alike s (cached a s).
Proof. apply alike_live; [apply live_cached_eq|apply refund_cached]. Qed.

Lemma read_run {A} (f : option stateObject → A) a s :
  (o ← getStateObject a; mret (f o)) s = Some (f (live s a), cached a s).
Proof. rewrite (SM_bind_run _ _ _ _ _ (getStateObject_run a s)). done. Qed.

Lemma GetBalance_run a s : GetBalance a s = Some (bal s a, cached a s).
Proof. apply (read_run (λ o, match o with Some o => Balance (data o) | None => 0 end)). Qed.

Lemma GetNonce_run a s : GetNonce a s = Some (match live s a with Some o => Nonce (data o) | None => 0 end, cached a s).
Proof. apply (read_run (λ o, match o with Some o => Nonce (data o) | None => 0 end)). Qed.

Lemma GetCodeHash_run a s : GetCodeHash a s = Some (match live s a with Some o => CodeHash (data o) | None => 0 end, cached a s).
Proof. apply (read_run (λ o, match o with Some o => CodeHash (data o) | None => 0 end)). Qed.

Lemma Exist_run a s : Exist a s = Some (bool_decide (is_Some (live s a)), cached a s).
Proof. apply (read_run (λ o, bool_decide (is_Some o))). Qed.

Lemma GetCode_run a s o :
  live s a = Some o → ∃ s', GetCode a s = Some (code_of o, s') ∧ alike s s'.
Proof.
  intros E. unfold GetCode. rewrite (SM_bind_run _ _ _ _ _ (getStateObject_run a s)), E. unfold Code, code_of.
  destruct (code o) as [c|] eqn:Ec; [eexists; split; [done|apply alike_cached]|].
  destruct (CodeHash (data o) =? emptyCodeHash) eqn:Eh; [eexists; split; [done|apply alike_cached]|].
  exists (put a (set_code_cache o (ContractCode (CodeHash (data o)))) s). split.
  { rewrite (SM_bind_run _ _ _ _ _ (setStateObject_run _ _ _)). by rewrite put_cached. }
  assert (Hl := put_live s a (set_code_cache o (ContractCode (CodeHash (data o))))).
  assert (Hd : deleted o = false) by (by eapply live_not_deleted). split; [| |done].
  - intros b. unfold bal. rewrite Hl by done. case_decide; [subst; by rewrite E|done].
  - intros b o' E'. rewrite Hl by done. case_decide; [subst|by eauto]. assert (o' = o) as -> by congruence.
    eexists. split; [done|]. unfold code_of. cbn. rewrite Ec, Eh. by destruct (ContractCode _).
Qed.

Lemma bal_wrote s s' a o b : wrote s s' a o → bal s' b = if decide (b = a) then Balance (data o) else bal s b.
Proof. intros [Hl _]. unfold bal. rewrite Hl. by case_decide. Qed.

(** A write that keeps the code of the object. *)
Lemma code_wrote s s' a o b ob :
  wrote s s' a o → code_of o = code_of (base s a) → live s b = Some ob →
  ∃ o', live s' b = Some o' ∧ code_of o' = code_of ob.
Proof.
  intros [Hl _] Hc E. rewrite Hl. case_decide; [subst|by eauto]. exists o. split; [done|]. rewrite Hc. unfold base. by rewrite E.
Qed.

(** ** A call of an account without code *)

Lemma Call_plain evm from to input gas value s o :
  depth evm = 0 → live s to = Some o → default [] (code_of o) = [] → precompiles (chainRules evm) to = false →
  value <= bal s from →
  ∃ s', Call evm (AccountRef from) to input gas value s = Some (([], gas, None), s') ∧
    (∀ b, bal s' b = bal s b + (if decide (b = to) then value else 0) - (if decide (b = from) then value else 0)) ∧
    refund s' = refund s.
Proof.
  intros Hd Ho Hc Hp Hv. unfold Call. rewrite Hd, andb_false_r. change (CallCreateDepth <? 0) with false. cbv iota.
  assert (Ec : CanTransfer from value s = Some (true, cached from s)).
  { unfold CanTransfer. rewrite (SM_bind_run _ _ _ _ _ (GetBalance_run from s)). by rewrite (proj2 (Z.leb_le _ _) Hv). }
  cbn [Address]. rewrite (SM_bind_run _ _ _ _ _ Ec). cbn [negb]. set (s1 := cached from s) in *.
  set (s2 := with_revisions s1 (validRevisions s1 ++ [mk_revision (nextRevisionId s1) (length_ s1)]) (nextRevisionId s1 + 1)).
  rewrite (SM_bind_run _ _ s1 (nextRevisionId s1) s2 eq_refl).
  assert (A2 : alike s s2) by (eapply alike_trans; [apply alike_cached|]; by apply alike_live).
  assert (L2 : ∀ b, live s2 b = live s b) by (intros b; rewrite (live_eff_eq s1) by done; apply live_cached_eq).
  rewrite (SM_bind_run _ _ _ _ _ (Exist_run to s2)), L2, Ho.
  rewrite bool_decide_true by done. cbn [negb andb]. rewrite (SM_bind_run (mret tt) _ _ tt _ eq_refl). set (s3 := cached to s2).
  assert (L3 : ∀ b, live s3 b = live s b) by (intros b; unfold s3; by rewrite live_cached_eq).
  destruct (SubBalance_wrote from value s3) as (s4 & E4 & W4). destruct (AddBalance_wrote to value s4) as (s5 & E5 & W5).
  assert (ET : Transfer from to value s3 = Some (tt, s5)) by (unfold Transfer; by rewrite (SM_bind_run _ _ _ _ _ E4)).
  rewrite (SM_bind_run _ _ _ _ _ ET).
  destruct (code_wrote s3 s4 from _ to o W4) as (o4 & Ho4 & C4); [done|by rewrite L3|].
  destruct (code_wrote s4 s5 to _ to o4 W5) as (o5 & Ho5 & C5); [done|done|].
  destruct (GetCode_run to (cached to s5) o5) as (s6 & E6 & A6); [by rewrite live_cached_eq|].
  assert (EL : load_code (NewContract (AccountRef from) to (Some value) gas) to s5 =
    Some (SetCallCode (NewContract (AccountRef from) to (Some value) gas) (Some to) (CodeHash (data o5)) [], s6)).
  { unfold load_code. rewrite (SM_bind_run _ _ _ _ _ (GetCodeHash_run to s5)), Ho5.
    rewrite (SM_bind_run _ _ _ _ _ E6). rewrite C5, C4, Hc. done. }
  rewrite (SM_bind_run _ _ _ _ _ EL). unfold run. cbn [SetCallCode CodeAddr]. rewrite Hp.
  exists s6. split; [done|]. destruct (alike_trans _ _ _ (alike_cached to s5) A6) as [B6 _ R6]. split.
  - intros b. rewrite B6, (bal_wrote _ _ _ _ b W5). cbn [setBalance set_data data Balance]. rewrite !(bal_wrote _ _ _ _ _ W4).
    cbn [setBalance set_data data Balance].
    assert (B3 : ∀ x, bal s3 x = bal s x) by (intros x; unfold bal; by rewrite L3). rewrite !B3.
    repeat case_decide; subst; try done; lia.
  - rewrite R6. destruct W5 as [_ ->], W4 as [_ ->]. unfold s3. rewrite refund_cached. apply A2.
Qed.

(** ** A plain transfer *)

Definition intrinsic (evm : EVM) (msg : Message) : Z :=
  Gas.IntrinsicGas (Data msg) false (IsHomestead (chainRules evm)) (IsIstanbul (chainRules evm)).

(** A message to an existing account without code that the sender can pay,
    at the start of a transaction. *)
Record plain_transfer (evm : EVM) (msg : Message) (to gp0 : Z) (s : StateDB) : Prop := {
  pt_depth : depth evm = 0;
  pt_to : To msg = Some to;
  pt_code : ∃ o, live s to = Some o ∧ default [] (code_of o) = [];
  pt_pre : precompiles (chainRules evm) to = false;
  pt_limit : is_u64 (GasLimit msg) ∧ GasLimit msg <= gp0 ∧ is_u64 gp0;
  pt_nonce : CheckNonce msg = true → MsgNonce msg = match live s (From msg) with Some o => Nonce (data o) | None => 0 end;
  pt_funds : GasLimit msg * GasPrice msg + Value msg <= bal s (From msg);
  pt_value : 0 <= Value msg;
  pt_refund : refund s = 0;
}.

Lemma preCheck_plain evm msg to gp0 s :
  plain_transfer evm msg to gp0 s →
  ∃ s', preCheck msg (mk_transition gp0 0 0) s = Some (inr (mk_transition (u64 (gp0 - GasLimit msg)) (GasLimit msg) (GasLimit msg)), s') ∧
    (∀ b, bal s' b = bal s b - (if decide (b = From msg) then GasLimit msg * GasPrice msg else 0)) ∧
    (∀ b o, live s b = Some o → ∃ o', live s' b = Some o' ∧ code_of o' = code_of o) ∧ refund s' = refund s.
Proof.
  intros []. set (f := From msg) in *. set (cost := GasLimit msg * GasPrice msg) in *. destruct pt_limit0 as (Hg & Hle & Hgp).
  assert (Hbuy : ∀ s1, alike s s1 → ∃ s', buyGas msg (mk_transition gp0 0 0) s1 =
      Some (inr (mk_transition (u64 (gp0 - GasLimit msg)) (GasLimit msg) (GasLimit msg)), s') ∧
    (∀ b, bal s' b = bal s b - (if decide (b = f) then cost else 0)) ∧
    (∀ b o, live s b = Some o → ∃ o', live s' b = Some o' ∧ code_of o' = code_of o) ∧ refund s' = refund s).
  { intros s1 [A1 A2 A3]. unfold buyGas. fold f cost. rewrite (SM_bind_run _ _ _ _ _ (GetBalance_run f s1)), A1.
    rewrite (proj2 (Z.ltb_ge _ _)) by lia. unfold Gas.SubGas. cbn [gp]. rewrite (proj2 (Z.ltb_ge _ _)) by lia.
    destruct (SubBalance_wrote f cost (cached f s1)) as (s2 & E2 & W2). rewrite (SM_bind_run _ _ _ _ _ E2).
    exists s2. cbn [gas]. rewrite Z.add_0_l, (u64_small (GasLimit msg)) by done. split; [done|]. split_and!.
    - intros b. rewrite (bal_wrote _ _ _ _ b W2). cbn. pose proof (al_bal _ _ (alike_cached f s1)) as B. rewrite !B, !A1.
      case_decide; subst; lia.
    - intros b o E. destruct (A2 b o E) as (o1 & E1 & C1). rewrite <- C1. eapply code_wrote; [exact W2|done|]. by rewrite live_cached_eq.
    - destruct W2 as [_ ->]. by rewrite refund_cached. }
  unfold preCheck. destruct (CheckNonce msg) eqn:Ec; [|by apply Hbuy, alike_live].
  rewrite (SM_bind_run _ _ _ _ _ (GetNonce_run f s)), <- pt_nonce0, Z.ltb_irrefl by done. apply Hbuy, alike_cached.
Qed.

Lemma execute_plain evm msg to gp0 s s1 st :
  plain_transfer evm msg to gp0 s →
  (∀ b o, live s b = Some o → ∃ o', live s1 b = Some o' ∧ code_of o' = code_of o) → Value msg <= bal s1 (From msg) →
  ∃ s', execute evm msg st s1 = Some (([], gas st, None), s') ∧
    (∀ b, bal s' b = bal s1 b + (if decide (b = to) then Value msg else 0) - (if decide (b = From msg) then Value msg else 0)) ∧
    refund s' = refund s1.
Proof.
  intros [] Hc Hv. unfold execute. rewrite pt_to0. rewrite (SM_bind_run _ _ _ _ _ (GetNonce_run (From msg) s1)).
  set (n := u64 _). destruct (SetNonce_wrote (From msg) n (cached (From msg) s1)) as (s2 & E2 & W2). rewrite (SM_bind_run _ _ _ _ _ E2).
  assert (B2 : ∀ b, bal s2 b = bal s1 b).
  { intros b. rewrite (bal_wrote _ _ _ _ b W2). pose proof (al_bal _ _ (alike_cached (From msg) s1)) as B.
    case_decide; [subst|apply B]. cbn. rewrite base_balance. apply B. }
  destruct pt_code0 as (o & Ho & Hco). destruct (Hc to o Ho) as (o1 & Ho1 & C1).
  destruct (code_wrote _ _ _ _ to o1 W2) as (o2 & Ho2 & C2); [done|by rewrite live_cached_eq|].
  destruct (Call_plain evm (From msg) to (Data msg) (gas st) (Value msg) s2 o2) as (s3 & E3 & B3 & R3);
    [done|done|by rewrite C2, C1|done|by rewrite B2|].
  exists s3. split; [done|]. split; [intros b; by rewrite B3, B2|]. rewrite R3. destruct W2 as [_ ->]. apply refund_cached.
Qed.

Lemma u64_add x y : u64 (u64 x + u64 y) = u64 (x + y).
Proof. unfold u64. by rewrite <- Zplus_mod. Qed.

Lemma u64_eq x y : (x - y) mod two64 = 0 → u64 x = u64 y.
Proof. intros Hm. unfold u64. apply Z.mod_divide in Hm as [k Hk]; [|done]. replace x with (y + k * two64) by lia. by apply Z.mod_add. Qed.

Lemma u64_sub_cases g ig : is_u64 g → is_u64 ig → u64 (g - ig) = g - ig + (if g <? ig then two64 else 0).
Proof.
  unfold is_u64. intros Hg Hi. destruct (Z.ltb_spec g ig).
  - unfold u64. rewrite <- (Z.mod_add _ 1) by done. rewrite Z.mod_small; lia.
  - rewrite u64_small; unfold is_u64; lia.
Qed.

Lemma refundGas_none msg st s :
  refund s = 0 → is_u64 (gas st) →
  ∃ s', refundGas msg st s = Some (mk_transition (Gas.AddGas (gp st) (gas st)) (gas st) (initialGas st), s') ∧
    (∀ b, bal s' b = bal s b + (if decide (b = From msg) then gas st * GasPrice msg else 0)).
Proof.
  intros Hr Hg. unfold refundGas. rewrite (SM_bind_run get _ s s s eq_refl), Hr.
  assert (Hu : 0 <= gasUsed st / 2) by (apply Z.div_pos; [apply u64_range|lia]).
  assert ((if 0 <? gasUsed st / 2 then 0 else gasUsed st / 2) = 0) as -> by (destruct (Z.ltb_spec 0 (gasUsed st / 2)); lia).
  rewrite Z.add_0_r, (u64_small (gas st)) by done.
  destruct (AddBalance_wrote (From msg) (gas st * GasPrice msg) s) as (s' & E & W). rewrite (SM_bind_run _ _ _ _ _ E).
  exists s'. split; [done|]. intros b. rewrite (bal_wrote _ _ _ _ b W). cbn. case_decide; [subst; lia|lia].
Qed.

Lemma transfer_accounting_exact evm msg to gp0 s :
  plain_transfer evm msg to gp0 s →
  ∃ s', TransitionDb evm msg gp0 s = Some ((u64 (gp0 - intrinsic evm msg), inr ([], intrinsic evm msg, false)), s') ∧
    ∀ a, bal s' a = bal s a
      + (if decide (a = to) then Value msg else 0)
      + (if decide (a = Coinbase evm) then intrinsic evm msg * GasPrice msg else 0)
      - (if decide (a = From msg) then
           Value msg + intrinsic evm msg * GasPrice msg
           - (if GasLimit msg <? intrinsic evm msg then two64 * GasPrice msg else 0)
         else 0).
Proof.
  intros Hp. pose proof Hp as [Hd Hto Hcode Hpre (Hg & Hle & Hgp) Hn Hf Hv Hr].
  set (g := GasLimit msg) in *. set (p := GasPrice msg) in *. set (ig := intrinsic evm msg) in *.
  assert (Hig : is_u64 ig) by apply Gas.IntrinsicGas_range.
  destruct (preCheck_plain evm msg to gp0 s Hp) as (s1 & E1 & B1 & C1 & R1).
  unfold TransitionDb. rewrite (SM_bind_run _ _ _ _ _ E1), Hto. fold ig. cbn [useGas gp gas initialGas]. fold g.
  change (Gas.IntrinsicGas (Data msg) false _ _) with ig. unfold useGas. cbn [gp gas initialGas].
  destruct (execute_plain evm msg to gp0 s s1 (mk_transition (u64 (gp0 - g)) (u64 (g - ig)) g) Hp C1) as (s2 & E2 & B2 & R2).
  { rewrite B1, decide_True by done. fold g p. lia. }
  rewrite (SM_bind_run _ _ _ _ _ E2). cbv beta iota. rewrite decide_False by done. cbn [gp gas initialGas].
  destruct (refundGas_none msg (mk_transition (u64 (gp0 - g)) (u64 (g - ig)) g) s2) as (s3 & E3 & B3); [by rewrite R2, R1|apply u64_range|].
  rewrite (SM_bind_run _ _ _ _ _ E3). cbn [gp gas initialGas].
  assert (Eu : gasUsed (mk_transition (Gas.AddGas (u64 (gp0 - g)) (u64 (g - ig))) (u64 (g - ig)) g) = ig).
  { unfold gasUsed. cbn [gas initialGas]. rewrite <- (u64_small ig Hig) at 2. apply u64_eq. rewrite u64_sub_cases by done.
    destruct (g <? ig); [by replace (_ - _ - _) with ((-1) * two64) by lia|by replace (_ - _ - _) with 0 by lia]. }
  rewrite Eu. destruct (AddBalance_wrote (Coinbase evm) (ig * p) s3) as (s4 & E4 & W4). rewrite (SM_bind_run _ _ _ _ _ E4).
  exists s4. split.
  - rewrite bool_decide_false by (by intros ?%is_Some_None). unfold Gas.AddGas. rewrite u64_add.
    by replace (gp0 - g + (g - ig)) with (gp0 - ig) by lia.
  - intros a. rewrite (bal_wrote _ _ _ _ a W4). cbn [setBalance set_data data Balance]. rewrite !B3, !B2, !B1. fold g p.
    cbn [gas]. rewrite u64_sub_cases by done. repeat case_decide; subst; destruct (g <? ig); lia.
Qed.

End Balances.
End TransitionProofs.

Module EvmClaims.
Import StateDB StateProofs Evm EvmProofs Transition TransitionProofs.

Section Claims.
Context {BE : Backend} {IN : Interpreter}.

(** C6: A call, a call with foreign code, a delegate call or a static call that
    returns an error leaves every account, the refund, the logs, the preimages
    and the older snapshots as they were, whatever the called code did and
    however deep it called. It returns gas only when it failed before running
    (depth, balance) or the code reverted, and never more than it was given.
    A creation that returns an error changes nothing but the nonce of the
    creator, and returns gas on the same errors only; the one exception is a
    creation that cannot pay for storing its code before Homestead, which by the
    rules of then keeps what it did. *)
Theorem failed_call_leaves_no_trace {LW : InterpreterLaws} evm caller addr input gas s :
  0 <= gas → swf s → revs_wf s →
  (∀ k ret gas' e s', message_call k evm caller addr input gas s = Some ((ret, gas', Some e), s') →
     restored s s' ∧ spent_on_error e gas gas') ∧
  (∀ hash value a ret gas' e s', IsHomestead (chainRules evm) = true ∨ e ≠ ErrCodeStoreOutOfGas →
     create evm caller input hash gas value addr s = Some ((ret, a, gas', Some e), s') →
     (restored s s' ∨ ∃ s1 n s2, restored s s1 ∧ SetNonce (Address caller) n s1 = Some (tt, s2) ∧ restored s2 s') ∧ spent_on_error e gas gas').
Proof.
  intros Hg W Hw. split.
  - intros k ret gas' e s'. by apply message_call_error.
  - intros hash value a ret gas' e s' Hh. by apply create_error.
Qed.

(** C34: A plain transfer (a message to an existing account without code that the
    sender can pay) succeeds, uses exactly the intrinsic gas, and moves the
    value to the recipient and the gas fee to the miner, so that balances are
    conserved when the gas limit covers the intrinsic gas. When it does not,
    the unchecked subtraction of [useGas] wraps around and the sender is also
    credited 2^64 times the gas price out of nothing. *)
Theorem transfer_accounting evm msg to gp0 s :
  plain_transfer evm msg to gp0 s →
  ∃ s', TransitionDb evm msg gp0 s = Some ((u64 (gp0 - intrinsic evm msg), inr ([], intrinsic evm msg, false)), s') ∧
    ∀ a, bal s' a = bal s a
      + (if decide (a = to) then Value msg else 0)
      + (if decide (a = Coinbase evm) then intrinsic evm msg * GasPrice msg else 0)
      - (if decide (a = From msg) then
           Value msg + intrinsic evm msg * GasPrice msg
           - (if GasLimit msg <? intrinsic evm msg then two64 * GasPrice msg else 0)
         else 0).
Proof. apply transfer_accounting_exact. Qed.

(** ** Accounts created over deleted ones *)

Lemma Suicide_object a s o :
  live s a = Some o → ∃ s', Suicide a s = Some (true, s') ∧ live s' a = Some (setBalance (set_suicided o true) 0).
Proof.
  intros E. unfold Suicide. rewrite (SM_bind_run _ _ _ _ _ (getStateObject_run a s)), E.
  eexists. split; [done|]. change (with_objects _ _) with
    (put a (setBalance (set_suicided o true) 0) (logged (suicideChange a (suicided o) (Balance (data o))) (cached a s))).
  rewrite put_live by exact (live_not_deleted _ _ _ E). by rewrite decide_True.
Qed.

(** A balance change leaves the object in the map and marks the account. *)
Lemma AddBalance_object a x s o :
  live s a = Some o → x ≠ 0 →
  ∃ s', AddBalance a x s = Some (tt, s') ∧ stateObjects s' !! a = Some (setBalance o (Balance (data o) + x)) ∧
    is_Some (dirties (jrnl s') !! a).
Proof.
  intros E Hx. unfold AddBalance, GetOrNewStateObject.
  assert (Eg : (obj ← getStateObject a; match obj with Some o => mret o | None => '(newobj, _) ← createObject a; mret newobj end) s = Some (o, cached a s)).
  { rewrite (SM_bind_run _ _ _ _ _ (getStateObject_run a s)), E. done. }
  rewrite (SM_bind_run _ _ _ _ _ Eg). rewrite (proj2 (Z.eqb_neq x 0)) by done.
  eexists. split; [done|]. cbn. by rewrite !lookup_insert_eq.
Qed.

Lemma CreateAccount_object a s o :
  stateObjects s !! a = Some o → ∃ s', CreateAccount a s = Some (tt, s') ∧ bal s' a = Balance (data o).
Proof.
  intros E. assert (Ee : eff s a = Some o) by (unfold eff; by rewrite E).
  unfold CreateAccount, mbind, SM_bind. rewrite createObject_run, Ee. cbv beta iota.
  eexists. split; [apply setStateObject_run|]. unfold bal. by rewrite put_live, decide_True.
Qed.

(** An account that self-destructs, receives funds and is deleted at the end
    of the transaction answers as if it never was; creating it again in the
    same block, as any call to it does, brings the funds it received back.
    The balance is taken from the deleted object, though the account is
    documented as starting afresh unless it exists. *)
Theorem deleted_balance_returns a x d s o :
  live s a = Some o → x ≠ 0 →
  ∃ s1 s2 s3 s4,
    Suicide a s = Some (true, s1) ∧ AddBalance a x s1 = Some (tt, s2) ∧ Finalise d s2 = Some (tt, s3) ∧
    (∀ k, observe s3 a k = Some StateClaims.gone) ∧
    CreateAccount a s3 = Some (tt, s4) ∧ fst <$> GetBalance a s4 = Some x.
Proof.
  intros Hl Hx. destruct (Suicide_object a s o Hl) as (s1 & E1 & L1).
  destruct (AddBalance_object a x s1 _ L1 Hx) as (s2 & E2 & O2 & D2).
  destruct (Finalise d s2) as [[[] s3]|] eqn:E3; [|done].
  pose proof (StateClaims.Finalise_objects d s2 s3 a E3) as O3. rewrite O2 in O3. cbn [fmap option_fmap option_map] in O3.
  rewrite bool_decide_true in O3 by (by apply elem_of_dom).
  destruct (CreateAccount_object a s3 _ O3) as (s4 & E4 & B4). exists s1, s2, s3, s4. split_and!; try done.
  - intros k. rewrite observe_live. unfold live, eff. rewrite O3. done.
  - rewrite GetBalance_run. cbn. by rewrite B4.
Qed.

End Claims.

(** ** Concrete runs *)

#[local] Existing Instance StateClaims.demo_backend.

(** Code that writes storage and reverts. *)
#[local] Instance demo_interpreter : Interpreter := {|
  RequiredGas _ _ _ := 3000;
  RunPrecompile _ _ input := (input, None);
  run_loop _ c := SetState (self c) 1 99;; mret ([], c_Gas c, Some errExecutionReverted) |}.

#[local] Instance demo_laws : InterpreterLaws.
Proof.
  split.
  - intros evm c s0 id s r s' Hs (? & s1 & E1 & [= <- <-])%SM_bind_Some.
    eapply since_write; [exact Hs|]. destruct x. eapply SetState_reach; [apply Hs|exact E1].
  - intros evm c s ret gas err s' (? & s1 & _ & [= <- <- <- <-])%SM_bind_Some Hg. lia.
  - done.
Qed.

Definition demo_evm : EVM := mk_EVM 7 1 11 1 100 1 8000000 (λ _, 0) 1 0 false (mk_Rules true true true false false false false) false false.

Definition funded : StateDB := StateClaims.state_of (SetBalance 20 50000 StateClaims.fresh).

Definition demo_call : SM result := message_call (KCall 10) demo_evm (AccountRef 20) 7 [] 500.

Lemma funded_wf : swf funded ∧ revs_wf funded.
Proof.
  assert (E : SetBalance 20 50000 StateClaims.fresh = Some (tt, funded)) by (apply StateClaims.state_of_run; by vm_compute).
  destruct StateClaims.fresh_wf as [W Hw]. pose proof (SetBalance_reach _ _ _ _ W E) as R.
  split; [apply (r_swf _ _ R)|by eapply revs_wf_reach].
Qed.

Definition demo_called : StateDB := StateClaims.state_of (demo_call funded).

Lemma demo_call_reverts : demo_call funded = Some (([], 500, Some errExecutionReverted), demo_called).
Proof.
  assert (E : fst <$> demo_call funded = Some ([], 500, Some errExecutionReverted)) by (by vm_compute).
  unfold demo_called. destruct (demo_call funded) as [[r s]|]; [|done]. cbn in E. by injection E as ->.
Qed.

Lemma failed_call_leaves_no_trace_witness : restored funded demo_called ∧ spent_on_error errExecutionReverted 500 500.
Proof.
  exact (proj1 (failed_call_leaves_no_trace demo_evm (AccountRef 20) 7 [] 500 funded ltac:(lia) (proj1 funded_wf) (proj2 funded_wf))
    (KCall 10) [] 500 errExecutionReverted demo_called demo_call_reverts).
Defined.

(** A transfer of 1000 with a gas limit of 1 to an account without code. *)
Definition demo_message : Message := mk_Message 20 (Some 21) 1 1 1000 0 true [].

Definition two_accounts : StateDB := StateClaims.state_of (SetBalance 21 5 funded).

Lemma demo_plain : plain_transfer demo_evm demo_message 21 100000 two_accounts.
Proof.
  split; try done. eexists. split; [vm_compute; reflexivity|reflexivity].
Qed.

Lemma transfer_accounting_witness :
  ∃ s', TransitionDb demo_evm demo_message 100000 two_accounts = Some ((79000, inr ([], 21000, false)), s') ∧
    bal s' 20 = 50000 - 1000 - 21000 + two64 ∧ bal s' 21 = 1005 ∧ bal s' 11 = 21000.
Proof.
  destruct (transfer_accounting demo_evm demo_message 21 100000 two_accounts demo_plain) as (s' & E & B).
  exists s'. split; [exact E|]. rewrite !B. split; [|split]; by vm_compute.
Defined.

Lemma deleted_balance_returns_witness :
  ∃ s1 s2 s3 s4, Suicide 20 funded = Some (true, s1) ∧ AddBalance 20 3 s1 = Some (tt, s2) ∧
    Finalise true s2 = Some (tt, s3) ∧ fst <$> Exist 20 s3 = Some false ∧
    CreateAccount 20 s3 = Some (tt, s4) ∧ fst <$> GetBalance 20 s4 = Some 3.
Proof.
  destruct (deleted_balance_returns 20 3 true funded (base funded 20) ltac:(vm_compute; reflexivity) ltac:(done))
    as (s1 & s2 & s3 & s4 & E1 & E2 & E3 & Ho & E4 & E5).
  exists s1, s2, s3, s4. split; [exact E1|]. split; [exact E2|]. split; [exact E3|]. split; [|split; [exact E4|exact E5]].
  specialize (Ho 0). rewrite observe_live in Ho. injection Ho as Ho. rewrite Exist_run. cbn.
  destruct (live s3 20); [discriminate Ho|reflexivity].
Defined.

End EvmClaims.
