(* ===== verification/Word.v ===== *)
(** * Word: 256-bit words, sizes and jump destinations (common/math, core/vm)

    The arithmetic of the virtual machine on big integers as the instructions
    use it ([common/math/big.go], [common/math/integer.go]), the memory sizes
    and gas of calls ([core/vm/common.go], [core/vm/gas.go]), and the analysis
    of jump destinations ([core/vm/analysis.go]).

    - A [big.Int] is a [Z]; its [Bits] are 64-bit words, least significant
      first. [Div] and [Mod] are used on numbers that are not negative, where
      they are [Z.div] and [Z.modulo].
    - A bit vector is a list of bytes, as numbers. *)

From stdpp Require Import base list.
From Stdlib Require Import ZArith Lia.
From S2P Require Import Prelude.

Local Open Scope Z_scope.

Module Word.

(** ** common/math/big.go *)

Definition tt255 : Z := 2 ^ 255.
Definition tt256 : Z := 2 ^ 256.
Definition tt256m1 : Z := tt256 - 1.

(** A word of the machine. *)
Definition is_word (x : Z) : Prop := 0 <= x < tt256.

Definition U256 (x : Z) : Z := Z.land x tt256m1.

Definition S256 (x : Z) : Z := if x <? tt255 then x else x - tt256.

(** The number of 64-bit words of a number. *)
Definition nwords (x : Z) : nat := if x =? 0 then 0%nat else Z.to_nat (Z.log2 x / 64 + 1).

(** [n] rounds of squaring and multiplying. *)
Fixpoint exp_loop (n : nat) (result base word : Z) : Z :=
  match n with
  | O => result
  | S n =>
      let result := if Z.land word 1 =? 1 then U256 (result * base) else result in
      exp_loop n result (U256 (base * base)) (Z.shiftr word 1)
  end.

Definition Exp (base exponent : Z) : Z := exp_loop (64 * nwords exponent) 1 base exponent.

Definition bigEndianByteAt (x : Z) (n : nat) : Z :=
  let i := (n / 8)%nat in
  if (nwords x <=? i)%nat then 0
  else
    let word := Z.shiftr x (64 * Z.of_nat i) mod 2 ^ 64 in
    Z.shiftr word (8 * Z.of_nat (n mod 8)) mod 256.

Definition Byte_ (x : Z) (padlength n : nat) : Z :=
  if (padlength <=? n)%nat then 0 else bigEndianByteAt x (padlength - 1 - n).

(** [x.BitLen()] of a number that is not negative. *)
Definition BitLen (x : Z) : Z := if x =? 0 then 0 else Z.log2 x + 1.

Definition IsUint64 (x : Z) : bool := (0 <=? x) && (x <? two64).

(** ** common/math/integer.go *)

Definition SafeAdd (x y : Z) : Z * bool := (u64 (x + y), max_u64 - x <? y).

Definition SafeMul (x y : Z) : Z * bool :=
  if (x =? 0) || (y =? 0) then (0, false) else (u64 (x * y), max_u64 / x <? y).

(** ** core/vm/common.go *)

Definition calcMemSize64WithUint (off length64 : Z) : Z * bool :=
  if length64 =? 0 then (0, false)
  else if negb (IsUint64 off) then (0, true)
  else let val := u64 (off + length64) in (val, val <? off).

Definition calcMemSize64 (off l : Z) : Z * bool :=
  if negb (IsUint64 l) then (0, true) else calcMemSize64WithUint off l.

Definition RightPadBytes (slice : bytes) (l : nat) : bytes := slice ++ replicate (l - length slice) Byte.x00.

Definition getDataBig (data : bytes) (start size : Z) : bytes :=
  let dlen := Z.of_nat (length data) in
  let s := Z.min start dlen in
  let e := Z.min (s + size) dlen in
  RightPadBytes (take (Z.to_nat (e - s)) (drop (Z.to_nat s) data)) (Z.to_nat (i64 size)).

Definition toWordSize (size : Z) : Z :=
  if max_u64 - 31 <? size then max_u64 / 32 + 1 else (size + 31) / 32.

(** ** core/vm/gas.go *)

(** The gas a call gets, [None] for an overflow. *)
Definition callGas (isEip150 : bool) (availableGas base callCost : Z) : option Z :=
  let availableGas := u64 (availableGas - base) in
  let gas := u64 (availableGas - availableGas / 64) in
  if isEip150 && (negb (IsUint64 callCost) || (gas <? callCost)) then Some gas
  else if negb (IsUint64 callCost) then None
  else Some callCost.

(** ** core/vm/analysis.go *)

Definition PUSH1 : Z := 96.
Definition PUSH32 : Z := 127.
Definition JUMPDEST : Z := 91.

(** [bits[i] |= b]; an index out of range is a panic. *)
Definition or_at (bits : list Z) (i b : Z) : option (list Z) :=
  v ← bits !! Z.to_nat i; Some (<[Z.to_nat i := Z.lor v b]> bits).

Definition set (bits : list Z) (pos : Z) : option (list Z) := or_at bits (pos / 8) (Z.shiftr 128 (pos mod 8)).

Definition set8 (bits : list Z) (pos : Z) : option (list Z) :=
  let m := Z.shiftr 255 (pos mod 8) in
  bits ← or_at bits (pos / 8) m;
  or_at bits (pos / 8 + 1) (255 - m).

Definition codeSegment (bits : list Z) (pos : Z) : option bool :=
  v ← bits !! Z.to_nat (pos / 8); Some (Z.land v (Z.shiftr 128 (pos mod 8)) =? 0).

(** The inner loops: [n] bits from [pc] on, eight at a time. *)
Fixpoint set_many (fuel : nat) (bits : list Z) (pc numbits : Z) : option (list Z) :=
  match fuel with
  | O => Some bits
  | S fuel =>
      if 8 <=? numbits then bits ← set8 bits pc; set_many fuel bits (pc + 8) (numbits - 8)
      else if 0 <? numbits then bits ← set bits pc; set_many fuel bits (pc + 1) (numbits - 1)
      else Some bits
  end.

(** The length of an instruction with its data. *)
Definition op_len (op : Z) : Z := if (PUSH1 <=? op) && (op <=? PUSH32) then op - PUSH1 + 2 else 1.

Fixpoint bitmap_loop (fuel : nat) (code : bytes) (bits : list Z) (pc : Z) : option (list Z) :=
  match fuel with
  | O => Some bits
  | S fuel =>
      match code !! Z.to_nat pc with
      | None => Some bits
      | Some b =>
          let op := b2z b in
          if (PUSH1 <=? op) && (op <=? PUSH32) then
            let numbits := op - PUSH1 + 1 in
            bits ← set_many 33 bits (pc + 1) numbits;
            bitmap_loop fuel code bits (pc + 1 + numbits)
          else bitmap_loop fuel code bits (pc + 1)
      end
  end.

Definition codeBitmap (code : bytes) : option (list Z) :=
  bitmap_loop (S (length code)) code (replicate (length code / 8 + 1 + 4) 0) 0.

(** [Contract.validJumpdest]. The source keeps the analysis of a code in two
    caches, in the contract and by the hash of the code, which are left out: they
    hold what the analysis gives, as long as a hash determines the code. *)
Definition validJumpdest (code : bytes) (dest : Z) : option bool :=
  let udest := u64 dest in
  if (63 <=? BitLen dest) || (Z.of_nat (length code) <=? udest) then Some false
  else
    b ← code !! Z.to_nat udest;
    if negb (b2z b =? JUMPDEST) then Some false
    else bits ← codeBitmap code; codeSegment bits udest.

End Word.
