(* ===== verification/WordProofs.v ===== *)
(** * WordProofs: the arithmetic of words and the bit vector of a code

    The helpers of the instructions against plain arithmetic, and what the
    analysis of a code marks. *)

From stdpp Require Import base list numbers.
From Stdlib Require Import ZArith Zpow_facts Lia.
From S2P Require Import Prelude Word.

Local Open Scope Z_scope.

Module WordProofs.
Import Word.

(** ** Words *)

(** The reference readings: a number reduced to a word, a word read as a
    two's complement number, the low [n] bits of a number read so. *)
Definition word (x : Z) : Z := x mod 2 ^ 256.
Definition sext (n x : Z) : Z := (x + 2 ^ (n - 1)) mod 2 ^ n - 2 ^ (n - 1).
Definition signed (x : Z) : Z := sext 256 x.

Lemma tt256_eq : tt256 = 2 ^ 256.
Proof. done. Qed.

Lemma U256_word x : U256 x = word x.
Proof. unfold U256, word. change tt256m1 with (Z.ones 256). by rewrite Z.land_ones. Qed.

Lemma word_is_word x : is_word (word x).
Proof. by apply Z.mod_pos_bound. Qed.

Lemma word_small x : is_word x → word x = x.
Proof. apply Z.mod_small. Qed.

Lemma S256_signed x : is_word x → S256 x = signed x.
Proof.
  unfold is_word, S256, signed, sext. change tt256 with (2 ^ 256). change tt255 with (2 ^ (256 - 1)). intros Hx.
  assert (2 ^ 256 = 2 * 2 ^ (256 - 1)) as E2 by done. destruct (Z.ltb_spec x (2 ^ (256 - 1))).
  - rewrite Z.mod_small; lia.
  - replace (x + 2 ^ (256 - 1)) with (x - 2 ^ (256 - 1) + 1 * 2 ^ 256) by lia. rewrite Z.mod_add, Z.mod_small; lia.
Qed.

Lemma signed_range x : - 2 ^ 255 <= signed x < 2 ^ 255.
Proof.
  unfold signed, sext. pose proof (Z.mod_pos_bound (x + 2 ^ (256 - 1)) (2 ^ 256) ltac:(lia)).
  assert (2 ^ 256 = 2 * 2 ^ (256 - 1)) by done. change (2 ^ 255) with (2 ^ (256 - 1)). lia.
Qed.

Lemma signed_zero x : is_word x → signed x = 0 ↔ x = 0.
Proof.
  intros Hx. rewrite <-S256_signed by done. unfold S256, is_word, tt255, tt256 in *. destruct (Z.ltb_spec x (2 ^ 255)); lia.
Qed.

(** ** Division with signs *)

Lemma quot_cases x y :
  y ≠ 0 → (if negb (Z.sgn x =? Z.sgn y) then - (Z.abs x / Z.abs y) else Z.abs x / Z.abs y) = Z.quot x y ∨ x = 0.
Proof.
  intros Hy. rewrite Z.quot_div by done. destruct (Z.eq_dec x 0) as [->|Hx]; [by right|left].
  destruct (Z.lt_total x 0) as [|[|]], (Z.lt_total y 0) as [|[|]]; try lia;
    rewrite ?(Z.sgn_neg x), ?(Z.sgn_pos x), ?(Z.sgn_neg y), ?(Z.sgn_pos y) by lia; cbn [Z.eqb Pos.eqb negb]; lia.
Qed.

Lemma rem_cases x y : y ≠ 0 → (if x <? 0 then - (Z.abs x mod Z.abs y) else Z.abs x mod Z.abs y) = Z.rem x y.
Proof.
  intros Hy. rewrite Z.rem_mod by done. destruct (Z.ltb_spec x 0); [rewrite Z.sgn_neg by lia; lia|].
  destruct (Z.eq_dec x 0) as [->|]; [|rewrite Z.sgn_pos by lia; lia]. cbn [Z.abs Z.sgn]. by rewrite Z.mod_0_l by lia.
Qed.

(** ** Powers *)

Lemma nwords_bound x : 0 <= x → x < 2 ^ (64 * Z.of_nat (nwords x)).
Proof.
  intros Hx. unfold nwords. destruct (Z.eqb_spec x 0) as [->|]; [done|]. pose proof (Z.log2_nonneg x).
  rewrite Z2Nat.id by (Z.to_euclidean_division_equations; lia). apply Z.log2_lt_pow2; [lia|]. Z.to_euclidean_division_equations. lia.
Qed.

Lemma pow_split b w : 0 <= w → b ^ w = (b * b) ^ (w / 2) * (if Z.land w 1 =? 1 then b else 1).
Proof.
  intros Hw. change (Z.land w 1) with (Z.land w (Z.ones 1)). rewrite Z.land_ones by lia. change (2 ^ 1) with 2.
  replace (b * b) with (b ^ 2) by lia. rewrite <-Z.pow_mul_r by (Z.to_euclidean_division_equations; lia).
  destruct (Z.eqb_spec (w mod 2) 1).
  - rewrite <-(Z.pow_1_r b) at 3. rewrite <-Z.pow_add_r by (Z.to_euclidean_division_equations; lia). f_equal. Z.to_euclidean_division_equations. lia.
  - rewrite Z.mul_1_r. f_equal. Z.to_euclidean_division_equations. lia.
Qed.

Lemma exp_loop_spec n r b w : is_word r → 0 <= w < 2 ^ Z.of_nat n → exp_loop n r b w = word (r * b ^ w).
Proof.
  revert r b w. induction n as [|n IH]; intros r b w Hr Hw.
  - replace w with 0 by (change (2 ^ Z.of_nat 0) with 1 in Hw; lia). rewrite Z.pow_0_r, Z.mul_1_r. cbn [exp_loop]. symmetry. by apply word_small.
  - rewrite Nat2Z.inj_succ, Z.pow_succ_r in Hw by lia. cbn [exp_loop]. rewrite Z.shiftr_div_pow2 by lia. change (2 ^ 1) with 2.
    rewrite !U256_word, IH; [|case_match; [apply word_is_word|done]|split; [apply Z.div_pos; lia|apply Z.div_lt_upper_bound; lia]].
    rewrite (pow_split b w) by lia. unfold word. rewrite <-Zmult_mod_idemp_r, <-Zpower_mod, Zmult_mod_idemp_r by lia.
    destruct (Z.land w 1 =? 1); [rewrite Zmult_mod_idemp_l|]; f_equal; ring.
Qed.

Lemma Exp_word b e : 0 <= e → Exp b e = word (b ^ e).
Proof.
  intros He. unfold Exp. rewrite exp_loop_spec, Z.mul_1_l; [done|unfold is_word; change tt256 with (2 ^ 256); lia|].
  split; [done|]. replace (Z.of_nat (64 * nwords e)) with (64 * Z.of_nat (nwords e)) by lia. by apply nwords_bound.
Qed.

(** ** Bytes and sign extension *)

Lemma bigEndianByteAt_div x n : 0 <= x → bigEndianByteAt x n = x / 2 ^ (8 * Z.of_nat n) mod 2 ^ 8.
Proof.
  intros Hx. unfold bigEndianByteAt. pose proof (Nat.div_mod_eq n 8) as En. pose proof (Nat.mod_upper_bound n 8 ltac:(lia)).
  set (i := (n / 8)%nat) in *. set (j := (n mod 8)%nat) in *. destruct (Nat.leb_spec (nwords x) i) as [Hi|Hi].
  - rewrite Z.div_small; [done|]. pose proof (nwords_bound x Hx). split; [done|].
    apply Z.lt_le_trans with (2 ^ (64 * Z.of_nat (nwords x))); [done|]. apply Z.pow_le_mono_r; lia.
  - change 256 with (2 ^ 8). rewrite <-Z.shiftr_div_pow2 by lia. apply Z.bits_inj'. intros k Hk. destruct (Z.ltb_spec k 8).
    + rewrite !Z.mod_pow2_bits_low by lia. rewrite !Z.shiftr_spec by lia. rewrite Z.mod_pow2_bits_low by lia.
      rewrite Z.shiftr_spec by lia. f_equal. lia.
    + by rewrite !Z.mod_pow2_bits_high by lia.
Qed.

Lemma lor_mask v b : 0 <= b → Z.lor v (Z.lnot (Z.shiftl 1 b - 1)) = v mod 2 ^ b - 2 ^ b.
Proof.
  intros Hb. rewrite Z.shiftl_1_l. replace (2 ^ b - 1) with (Z.ones b) by (rewrite Z.ones_equiv; lia).
  transitivity (Z.lnot (Z.land (Z.lnot v) (Z.ones b))); [by rewrite Z.lnot_land, Z.lnot_involutive|].
  rewrite Z.land_ones by done. pose proof (Z.lnot_eq_pred_opp v). pose proof (Z.lnot_eq_pred_opp (Z.lnot v mod 2 ^ b)).
  assert (Z.lnot v mod 2 ^ b = 2 ^ b - 1 - v mod 2 ^ b); [|lia].
  pose proof (Z.pow_pos_nonneg 2 b ltac:(lia) Hb). pose proof (Z.mod_pos_bound v (2 ^ b) ltac:(lia)). pose proof (Z.div_mod v (2 ^ b) ltac:(lia)).
  symmetry. apply (Zmod_unique _ _ (- (v / 2 ^ b) - 1)); lia.
Qed.

Lemma sign_extend v b :
  0 <= b → (if Z.testbit v b then Z.lor v (Z.lnot (Z.shiftl 1 b - 1)) else Z.land v (Z.shiftl 1 b - 1)) = sext (b + 1) v.
Proof.
  intros Hb. unfold sext. replace (b + 1 - 1) with b by lia. pose proof (Z.pow_pos_nonneg 2 b ltac:(lia) Hb).
  rewrite lor_mask by done. replace (Z.shiftl 1 b - 1) with (Z.ones b) by (rewrite Z.ones_equiv, Z.shiftl_1_l; lia).
  rewrite Z.land_ones by done. rewrite Z.pow_add_r by lia. change (2 ^ 1) with 2.
  pose proof (Z.mod_pos_bound v (2 ^ b) ltac:(lia)). pose proof (Z.div_mod v (2 ^ b) ltac:(lia)) as Ev.
  pose proof (Z.div_mod (v / 2 ^ b) 2 ltac:(lia)) as Eq. pose proof (Z.testbit_spec' v b Hb) as Et.
  set (q := v / 2 ^ b) in *. destruct (Z.testbit v b); cbn [Z.b2z] in Et.
  - rewrite <-(Zmod_unique (v + 2 ^ b) (2 ^ b * 2) (q / 2 + 1) (v mod 2 ^ b)) by nia. lia.
  - rewrite <-(Zmod_unique (v + 2 ^ b) (2 ^ b * 2) (q / 2) (v mod 2 ^ b + 2 ^ b)) by nia. lia.
Qed.

(** ** The bit vector of a code *)

Definition bit_at (bits : list Z) (p : Z) : bool :=
  match bits !! Z.to_nat (p / 8) with Some v => Z.testbit v (7 - p mod 8) | None => false end.

Definition within (p pos n : Z) : bool := (pos <=? p) && (p <? pos + n).

Lemma not_within b p pos n : p < pos ∨ n <= 0 → b || within p pos n = b.
Proof. intros H. replace (within p pos n) with false by (unfold within; lia). apply orb_false_r. Qed.

(** Statements on two numbers below eight, by evaluation. *)
Lemma below8 (P : Z → Z → bool) :
  forallb (λ i, forallb (P i) [0; 1; 2; 3; 4; 5; 6; 7]) [0; 1; 2; 3; 4; 5; 6; 7] = true →
  ∀ i j, 0 <= i < 8 → 0 <= j < 8 → P i j = true.
Proof.
  intros H i j Hi Hj. rewrite forallb_forall in H. specialize (H i). rewrite forallb_forall in H. apply H; cbn; lia.
Qed.

Lemma mask_one i j : 0 <= i < 8 → 0 <= j < 8 → Z.testbit (Z.shiftr 128 i) (7 - j) = (j =? i).
Proof.
  intros Hi Hj. apply Bool.eqb_prop. exact (below8 (λ i j, Bool.eqb (Z.testbit (Z.shiftr 128 i) (7 - j)) (j =? i)) eq_refl i j Hi Hj).
Qed.

Lemma mask_from i j : 0 <= i < 8 → 0 <= j < 8 → Z.testbit (Z.shiftr 255 i) (7 - j) = (i <=? j).
Proof.
  intros Hi Hj. apply Bool.eqb_prop. exact (below8 (λ i j, Bool.eqb (Z.testbit (Z.shiftr 255 i) (7 - j)) (i <=? j)) eq_refl i j Hi Hj).
Qed.

Lemma mask_below i j : 0 <= i < 8 → 0 <= j < 8 → Z.testbit (255 - Z.shiftr 255 i) (7 - j) = (j <? i).
Proof.
  intros Hi Hj. apply Bool.eqb_prop. exact (below8 (λ i j, Bool.eqb (Z.testbit (255 - Z.shiftr 255 i) (7 - j)) (j <? i)) eq_refl i j Hi Hj).
Qed.

Lemma codeSegment_bit bits p : 0 <= p / 8 < Z.of_nat (length bits) → codeSegment bits p = Some (negb (bit_at bits p)).
Proof.
  intros Hp. unfold codeSegment, bit_at. destruct (lookup_lt_is_Some_2 bits (Z.to_nat (p / 8)) ltac:(lia)) as [v ->]. cbn. f_equal.
  pose proof (Z.mod_pos_bound p 8 ltac:(lia)) as Hm. destruct (Z.testbit v (7 - p mod 8)) eqn:E; cbn [negb].
  - apply Z.eqb_neq. intros H0. assert (Hb : Z.testbit (Z.land v (Z.shiftr 128 (p mod 8))) (7 - p mod 8) = true).
    { rewrite Z.land_spec, E, mask_one by done. by rewrite Z.eqb_refl. }
    by rewrite H0, Z.bits_0 in Hb.
  - apply Z.eqb_eq, Z.bits_inj'. intros k Hk. rewrite Z.bits_0, Z.land_spec. destruct (Z.ltb_spec k 8).
    + replace k with (7 - (7 - k)) by lia. rewrite mask_one by lia. destruct (Z.eqb_spec (7 - k) (p mod 8)) as [->|]; [by rewrite E|apply andb_false_r].
    + rewrite (Z.bits_above_log2 (Z.shiftr 128 _)); [apply andb_false_r|apply Z.shiftr_nonneg; lia|].
      apply Z.le_lt_trans with (Z.log2 128); [|cbn; lia]. apply Z.log2_le_mono. rewrite Z.shiftr_div_pow2 by lia.
      apply Z.div_le_upper_bound; [apply Z.pow_pos_nonneg; lia|]. pose proof (Z.pow_pos_nonneg 2 (p mod 8)). nia.
Qed.

(** An [or] into one byte of the vector. *)
Lemma or_at_bit bits i b : 0 <= i < Z.of_nat (length bits) →
  ∃ bits', or_at bits i b = Some bits' ∧ length bits' = length bits ∧
    ∀ p, 0 <= p → bit_at bits' p = bit_at bits p || ((p / 8 =? i) && Z.testbit b (7 - p mod 8)).
Proof.
  intros Hi. unfold or_at. destruct (lookup_lt_is_Some_2 bits (Z.to_nat i) ltac:(lia)) as [v Ev]. rewrite Ev. cbn.
  eexists. split_and!; [done|apply length_insert|]. intros p Hp. unfold bit_at. assert (0 <= p / 8) by (apply Z.div_pos; lia).
  destruct (Z.eqb_spec (p / 8) i) as [->|Hn].
  - rewrite list_lookup_insert_eq by lia. rewrite Ev. apply Z.lor_spec.
  - rewrite list_lookup_insert_ne by lia. by rewrite orb_false_r.
Qed.

Lemma set_bit bits pos : 0 <= pos → pos / 8 < Z.of_nat (length bits) →
  ∃ bits', set bits pos = Some bits' ∧ length bits' = length bits ∧
    ∀ p, 0 <= p → bit_at bits' p = bit_at bits p || within p pos 1.
Proof.
  intros H0 H1. pose proof (Z.div_pos pos 8 H0 ltac:(lia)). destruct (or_at_bit bits (pos / 8) (Z.shiftr 128 (pos mod 8))) as (b' & E & L & Hb); [lia|].
  exists b'. split_and!; [done..|]. intros p Hp. rewrite Hb by done. f_equal. rewrite mask_one by (apply Z.mod_pos_bound; lia).
  unfold within. destruct (Z.eqb_spec (p / 8) (pos / 8)), (Z.eqb_spec (p mod 8) (pos mod 8)); cbn [andb]; Z.to_euclidean_division_equations; lia.
Qed.

Lemma set8_bit bits pos : 0 <= pos → pos / 8 + 1 < Z.of_nat (length bits) →
  ∃ bits', set8 bits pos = Some bits' ∧ length bits' = length bits ∧
    ∀ p, 0 <= p → bit_at bits' p = bit_at bits p || within p pos 8.
Proof.
  intros H0 H1. pose proof (Z.div_pos pos 8 H0 ltac:(lia)). unfold set8. set (m := Z.shiftr 255 (pos mod 8)).
  destruct (or_at_bit bits (pos / 8) m) as (b1 & E1 & L1 & Hb1); [lia|]. rewrite E1. cbn [mbind option_bind].
  destruct (or_at_bit b1 (pos / 8 + 1) (255 - m)) as (b2 & E2 & L2 & Hb2); [lia|].
  exists b2. split_and!; [done|lia|]. intros p Hp. rewrite Hb2, Hb1, <-orb_assoc by done. f_equal. unfold m.
  rewrite mask_from, mask_below by (apply Z.mod_pos_bound; lia). unfold within.
  destruct (Z.eqb_spec (p / 8) (pos / 8)), (Z.eqb_spec (p / 8) (pos / 8 + 1)); cbn [andb orb]; Z.to_euclidean_division_equations; lia.
Qed.

Lemma set_many_bit fuel bits pc n :
  0 <= pc → 0 <= n <= Z.of_nat fuel → (pc + n) / 8 < Z.of_nat (length bits) →
  ∃ bits', set_many fuel bits pc n = Some bits' ∧ length bits' = length bits ∧
    ∀ p, 0 <= p → bit_at bits' p = bit_at bits p || within p pc n.
Proof.
  revert bits pc n. induction fuel as [|fuel IH]; intros bits pc n H0 Hn Hl; cbn [set_many].
  - exists bits. split_and!; [done..|]. intros p Hp. symmetry. apply not_within. lia.
  - destruct (Z.leb_spec 8 n); [|destruct (Z.ltb_spec 0 n)].
    + destruct (set8_bit bits pc) as (b1 & E1 & L1 & Hb1); [done|Z.to_euclidean_division_equations; lia|]. rewrite E1. cbn [mbind option_bind].
      destruct (IH b1 (pc + 8) (n - 8)) as (b2 & E2 & L2 & Hb2); [lia..|rewrite L1; by replace (pc + 8 + (n - 8)) with (pc + n) by lia|].
      exists b2. split_and!; [done|lia|]. intros p Hp. rewrite Hb2, Hb1, <-orb_assoc by done. f_equal. unfold within. lia.
    + destruct (set_bit bits pc) as (b1 & E1 & L1 & Hb1); [done|Z.to_euclidean_division_equations; lia|]. rewrite E1. cbn [mbind option_bind].
      destruct (IH b1 (pc + 1) (n - 1)) as (b2 & E2 & L2 & Hb2); [lia..|rewrite L1; by replace (pc + 1 + (n - 1)) with (pc + n) by lia|].
      exists b2. split_and!; [done|lia|]. intros p Hp. rewrite Hb2, Hb1, <-orb_assoc by done. f_equal. unfold within. lia.
    + exists bits. split_and!; [done..|]. intros p Hp. symmetry. apply not_within. lia.
Qed.

(** ** Where instructions start *)

(** The positions at which executing a code from [pc] on, without jumps, finds
    instructions: each starts after the data of the one before. *)
Inductive starts (code : bytes) (pc : Z) : Z → Prop :=
  | starts_here : starts code pc pc
  | starts_next p b : starts code pc p → code !! Z.to_nat p = Some b → starts code pc (p + op_len (b2z b)).

Lemma op_len_pos op : 1 <= op_len op.
Proof. unfold op_len, PUSH1, PUSH32. case_match; lia. Qed.

Lemma starts_ge code pc p : starts code pc p → pc <= p.
Proof. induction 1 as [|p b H IH]; [lia|]. pose proof (op_len_pos (b2z b)). lia. Qed.

(** The first instruction, then those after it. *)
Lemma starts_split code pc b p :
  code !! Z.to_nat pc = Some b → starts code pc p ↔ p = pc ∨ starts code (pc + op_len (b2z b)) p.
Proof.
  intros Eb. split.
  - induction 1 as [|p b' H IH Eb']; [by left|right]. destruct IH as [->|IH].
    + replace b' with b by congruence. constructor.
    + by apply starts_next.
  - intros [->|H]; [constructor|]. induction H as [|p b' H IH Eb']; [by apply starts_next; [constructor|]|by apply starts_next].
Qed.

Lemma bitmap_loop_bit fuel code bits pc :
  0 <= pc → Z.of_nat (length code) < Z.of_nat fuel + pc → Z.of_nat (length code) / 8 + 5 <= Z.of_nat (length bits) →
  (∀ p, pc <= p → bit_at bits p = false) →
  ∃ bits', bitmap_loop fuel code bits pc = Some bits' ∧ length bits' = length bits ∧
    (∀ p, 0 <= p < pc → bit_at bits' p = bit_at bits p) ∧
    ∀ p, pc <= p < Z.of_nat (length code) → bit_at bits' p = false ↔ starts code pc p.
Proof.
  revert bits pc. induction fuel as [|fuel IH]; intros bits pc H0 Hf Hl Hz; [exists bits; split_and!; [done..|lia]|].
  cbn [bitmap_loop]. destruct (code !! Z.to_nat pc) as [b|] eqn:Eb.
  2: { apply lookup_ge_None in Eb. exists bits. split_and!; [done..|lia]. }
  pose proof (lookup_lt_Some _ _ _ Eb) as Hlt. pose proof (op_len_pos (b2z b)) as Ho.
  assert (Hstep : ∀ b1, length b1 = length bits →
    (∀ p, 0 <= p → bit_at b1 p = bit_at bits p || within p (pc + 1) (op_len (b2z b) - 1)) →
    ∃ bits', bitmap_loop fuel code b1 (pc + op_len (b2z b)) = Some bits' ∧ length bits' = length bits ∧
      (∀ p, 0 <= p < pc → bit_at bits' p = bit_at bits p) ∧
      ∀ p, pc <= p < Z.of_nat (length code) → bit_at bits' p = false ↔ starts code pc p).
  { intros b1 L1 Hb1. destruct (IH b1 (pc + op_len (b2z b))) as (b2 & E2 & L2 & Hk & Hs); [lia..|intros p Hp; rewrite Hb1, Hz by lia; unfold within; lia|].
    exists b2. split_and!; [done|lia|intros p Hp; rewrite Hk, Hb1 by lia; apply not_within; lia|].
    intros p Hp. rewrite (starts_split code pc b p Eb). destruct (Z.ltb_spec p (pc + op_len (b2z b))) as [Hp'|Hp'].
    - rewrite Hk, Hb1, Hz by lia. split; [unfold within; lia|]. intros [->|Hge%starts_ge]; [unfold within; lia|lia].
    - rewrite Hs by lia. split; [by right|]. intros [->|?]; [lia|done]. }
  unfold op_len in *. destruct ((PUSH1 <=? b2z b) && (b2z b <=? PUSH32)) eqn:Ep.
  - unfold PUSH1, PUSH32 in *. destruct (set_many_bit 33 bits (pc + 1) (b2z b - 96 + 1)) as (b1 & E1 & L1 & Hb1); [lia..|Z.to_euclidean_division_equations; lia|].
    rewrite E1. cbn [mbind option_bind]. replace (pc + 1 + (b2z b - 96 + 1)) with (pc + (b2z b - 96 + 2)) by lia. apply Hstep; [done|].
    intros p Hp. rewrite Hb1 by done. do 2 f_equal. lia.
  - apply Hstep; [done|]. intros p Hp. symmetry. apply not_within. lia.
Qed.

Lemma codeBitmap_bit code :
  ∃ bits, codeBitmap code = Some bits ∧ length bits = (length code / 8 + 5)%nat ∧
    ∀ p, 0 <= p < Z.of_nat (length code) → bit_at bits p = false ↔ starts code 0 p.
Proof.
  unfold codeBitmap. pose proof (Nat2Z.inj_div (length code) 8) as Ed.
  destruct (bitmap_loop_bit (S (length code)) code (replicate (length code / 8 + 1 + 4) 0) 0) as (bits & E & L & _ & Hs);
    [lia|lia|rewrite length_replicate; lia| |exists bits; split_and!; [done|rewrite L, length_replicate; lia|done]].
  intros p Hp. unfold bit_at. destruct (replicate _ 0 !! _) as [v|] eqn:Ev; [|done].
  apply lookup_replicate in Ev as [-> _]. apply Z.bits_0.
Qed.

End WordProofs.
