(* ===== verification/Instructions.v ===== *)
(** * Instructions: stack, memory and the instructions (core/vm)

    [stack.go], [memory.go] and every function of [instructions.go] and
    [eips.go] an opcode runs, over the frame of one execution.

    - The stack is a list with its top first. The integer pool only recycles
      numbers and is left out.
    - [panic] of the state monad stands for a Go panic: an empty stack or an
      index out of range. A slice of the memory is taken within its length
      (Go would allow it up to the capacity).
    - Return data are values: a call copies them. *)

From stdpp Require Import base gmap list.
From Stdlib Require Import ZArith Lia.
From S2P Require Import Prelude Word StateDB Evm.

Local Open Scope Z_scope.

Module Instructions.
Import Word StateDB Evm.

(** ** Frames *)

Record Memory := mk_Memory { store : bytes; lastGasCost : Z }.

(** The variables of [Run], the gas of the contract, and what the interpreter
    keeps between an instruction and the next. *)
Record frame := mk_frame {
  pc : Z; stack : list Z; mem : Memory; f_gas : Z; returnData : bytes; callGasTemp : Z }.

Definition set_pc (f : frame) x := mk_frame x (stack f) (mem f) (f_gas f) (returnData f) (callGasTemp f).
Definition set_stack (f : frame) x := mk_frame (pc f) x (mem f) (f_gas f) (returnData f) (callGasTemp f).
Definition set_mem (f : frame) x := mk_frame (pc f) (stack f) x (f_gas f) (returnData f) (callGasTemp f).
Definition set_gas (f : frame) x := mk_frame (pc f) (stack f) (mem f) x (returnData f) (callGasTemp f).
Definition set_returnData (f : frame) x := mk_frame (pc f) (stack f) (mem f) (f_gas f) x (callGasTemp f).
Definition set_callGasTemp (f : frame) x := mk_frame (pc f) (stack f) (mem f) (f_gas f) (returnData f) x.

(** What an instruction returns: data, an error, and the frame. *)
Abbreviation exec_result := (bytes * option vm_error * frame)%type.

Definition done (f : frame) : SM exec_result := mret ([], None, f).
Definition fail_ (e : vm_error) (f : frame) : SM exec_result := mret ([], Some e, f).

(** A partial value; [None] is a panic. *)
Definition lift {A} (x : option A) : SM A := match x with Some a => mret a | None => panic end.

(** ** stack.go *)

Definition pop (f : frame) : SM (Z * frame) :=
  match stack f with x :: st => mret (x, set_stack f st) | [] => panic end.
Definition push (x : Z) (f : frame) : frame := set_stack f (x :: stack f).
Definition Back (f : frame) (n : nat) : option Z := stack f !! n.

(** [swap n] exchanges the top and the item [n - 1] below it. *)
Definition swap (f : frame) (n : nat) : SM frame :=
  x ← lift (stack f !! 0%nat);
  y ← lift (stack f !! (n - 1)%nat);
  mret (set_stack f (<[0%nat := y]> (<[(n - 1)%nat := x]> (stack f)))).

Definition dup (f : frame) (n : nat) : SM frame :=
  x ← lift (stack f !! (n - 1)%nat); mret (push x f).

(** ** memory.go *)

Definition mem_len (m : Memory) : Z := Z.of_nat (length (store m)).

(** Copying [value] over the store from [offset] on. *)
Definition write_at (st : bytes) (offset : Z) (value : bytes) : bytes :=
  take (Z.to_nat offset) st ++ value ++ drop (Z.to_nat offset + length value) st.

Definition mem_Set (m : Memory) (offset size : Z) (value : bytes) : option Memory :=
  if 0 <? size then
    let end_ := u64 (offset + size) in
    if (mem_len m <? end_) || (end_ <? offset) then None
    else Some (mk_Memory (write_at (store m) offset (take (Z.to_nat size) value)) (lastGasCost m))
  else Some m.

Definition Set32 (m : Memory) (offset val : Z) : option Memory :=
  let end_ := u64 (offset + 32) in
  if (mem_len m <? end_) || (end_ <? offset) then None
  else Some (mk_Memory (write_at (store m) offset (fixed_be 32 val)) (lastGasCost m)).

Definition Resize (m : Memory) (size : Z) : Memory :=
  if mem_len m <? size then mk_Memory (store m ++ replicate (Z.to_nat (size - mem_len m)) Byte.x00) (lastGasCost m)
  else m.

(** [GetPtr]; [GetCopy] returns a copy of the same bytes. *)
Definition GetPtr (m : Memory) (offset size : Z) : option bytes :=
  if size =? 0 then Some []
  else if offset <? mem_len m then
    if (offset <? 0) || (size <? 0) || (mem_len m <? offset + size) then None
    else Some (take (Z.to_nat size) (drop (Z.to_nat offset) (store m)))
  else Some [].

Section WithInterpreter.
Context {BE : Backend} {IN : Interpreter}.

(** ** instructions.go *)

Definition executionFunc : Type := EVM → Contract → frame → SM exec_result.

(** Instructions that compute the top of the stack from one, two or three items. *)
Definition unary (op : Z → Z) : executionFunc := λ _ _ f,
  '(x, f) ← pop f; done (push (op x) f).
Definition binary (op : Z → Z → Z) : executionFunc := λ _ _ f,
  '(x, f) ← pop f; '(y, f) ← pop f; done (push (op x y) f).
Definition ternary (op : Z → Z → Z → Z) : executionFunc := λ _ _ f,
  '(x, f) ← pop f; '(y, f) ← pop f; '(z, f) ← pop f; done (push (op x y z) f).

(** Instructions that push a value. *)
Definition pushes (v : EVM → Contract → frame → Z) : executionFunc := λ evm c f, done (push (v evm c f) f).

Definition bit (b : bool) : Z := if b then 1 else 0.

Definition opAdd : executionFunc := binary (λ x y, U256 (x + y)).
Definition opSub : executionFunc := binary (λ x y, U256 (x - y)).
Definition opMul : executionFunc := binary (λ x y, U256 (x * y)).
Definition opDiv : executionFunc := binary (λ x y, if negb (y =? 0) then U256 (x / y) else 0).

Definition opSdiv : executionFunc := binary (λ x y,
  let x := S256 x in let y := S256 y in
  if (y =? 0) || (x =? 0) then 0
  else if negb (Z.sgn x =? Z.sgn y) then U256 (- (Z.abs x / Z.abs y))
  else U256 (Z.abs x / Z.abs y)).

Definition opMod : executionFunc := binary (λ x y, if y =? 0 then 0 else U256 (x mod y)).

Definition opSmod : executionFunc := binary (λ x y,
  let x := S256 x in let y := S256 y in
  if y =? 0 then 0
  else if x <? 0 then U256 (- (Z.abs x mod Z.abs y))
  else U256 (Z.abs x mod Z.abs y)).

Definition opExp : executionFunc := binary (λ base exponent,
  if exponent <? 1 then 1
  else if base =? 0 then 0
  else if exponent =? 1 then base
  else Exp base exponent).

Definition opSignExtend : executionFunc := λ _ _ f,
  '(back, f) ← pop f;
  if back <? 31 then
    let b := u64 (back * 8 + 7) in
    '(num, f) ← pop f;
    let mask := Z.shiftl 1 b - 1 in
    let num := if Z.testbit num b then Z.lor num (Z.lnot mask) else Z.land num mask in
    done (push (U256 num) f)
  else done f.

Definition opNot : executionFunc := unary (λ x, U256 (Z.lnot x)).
Definition opLt : executionFunc := binary (λ x y, bit (x <? y)).
Definition opGt : executionFunc := binary (λ x y, bit (y <? x)).

Definition opSlt : executionFunc := binary (λ x y,
  if (tt255 <=? x) && (y <? tt255) then 1
  else if (x <? tt255) && (tt255 <=? y) then 0
  else bit (x <? y)).

Definition opSgt : executionFunc := binary (λ x y,
  if (tt255 <=? x) && (y <? tt255) then 0
  else if (x <? tt255) && (tt255 <=? y) then 1
  else bit (y <? x)).

Definition opEq : executionFunc := binary (λ x y, bit (x =? y)).
Definition opIszero : executionFunc := unary (λ x, bit (negb (0 <? x))).
Definition opAnd : executionFunc := binary (λ x y, Z.land x y).
Definition opOr : executionFunc := binary (λ x y, Z.lor x y).
Definition opXor : executionFunc := binary (λ x y, Z.lxor x y).
Definition opByte : executionFunc := binary (λ th val, if th <? 32 then Byte_ val 32 (Z.to_nat (i64 th)) else 0).
Definition opAddmod : executionFunc := ternary (λ x y z, if 0 <? z then U256 ((x + y) mod z) else 0).
Definition opMulmod : executionFunc := ternary (λ x y z, if 0 <? z then U256 ((x * y) mod z) else 0).

Definition opSHL : executionFunc := binary (λ shift value,
  let shift := U256 shift in let value := U256 value in
  if 256 <=? shift then 0 else U256 (Z.shiftl value (u64 shift))).

Definition opSHR : executionFunc := binary (λ shift value,
  let shift := U256 shift in let value := U256 value in
  if 256 <=? shift then 0 else U256 (Z.shiftr value (u64 shift))).

Definition opSAR : executionFunc := binary (λ shift value,
  let shift := U256 shift in let value := S256 value in
  if 256 <=? shift then (if 0 <=? value then U256 0 else U256 (-1))
  else U256 (Z.shiftr value (u64 shift))).

(** Bytes of the memory, at offsets taken as [int64]. *)
Definition read_mem (f : frame) (offset size : Z) : SM bytes := lift (GetPtr (mem f) (i64 offset) (i64 size)).

Definition write_mem (f : frame) (offset size : Z) (value : bytes) : SM frame :=
  m ← lift (mem_Set (mem f) (u64 offset) (u64 size) value); mret (set_mem f m).

Definition opSha3 : executionFunc := λ evm _ f,
  '(offset, f) ← pop f; '(size, f) ← pop f;
  data ← read_mem f offset size;
  let hash := Keccak256Hash data in
  (if EnablePreimageRecording evm then AddPreimage hash data else mret tt);;
  done (push hash f).

Definition opAddress : executionFunc := pushes (λ _ c _, self c).

(** [common.BigToAddress]: the low 20 bytes. *)
Definition BigToAddress (x : Z) : Z := x mod 2 ^ 160.

(** [common.BigToHash]: the low 32 bytes. *)
Definition BigToHash (x : Z) : Z := x mod 2 ^ 256.

Definition opBalance : executionFunc := λ _ _ f,
  '(slot, f) ← pop f; b ← GetBalance (BigToAddress slot); done (push b f).
Definition opOrigin : executionFunc := pushes (λ evm _ _, Origin evm).
Definition opCaller : executionFunc := pushes (λ _ c _, CallerAddress c).
Definition opCallValue : executionFunc := λ _ c f, v ← lift (c_value c); done (push v f).
Definition opCallDataLoad : executionFunc := λ _ c f,
  '(x, f) ← pop f; done (push (be_decode (getDataBig (Input c) x 32)) f).
Definition opCallDataSize : executionFunc := pushes (λ _ c _, Z.of_nat (length (Input c))).

Definition opCallDataCopy : executionFunc := λ _ c f,
  '(memOffset, f) ← pop f; '(dataOffset, f) ← pop f; '(length, f) ← pop f;
  f ← write_mem f memOffset length (getDataBig (Input c) dataOffset length); done f.

Definition opReturnDataSize : executionFunc := pushes (λ _ _ f, Z.of_nat (length (returnData f))).

Definition opReturnDataCopy : executionFunc := λ _ _ f,
  '(memOffset, f) ← pop f; '(dataOffset, f) ← pop f; '(len, f) ← pop f;
  let end_ := dataOffset + len in
  if negb (IsUint64 end_) || (Z.of_nat (length (returnData f)) <? end_) then fail_ errReturnDataOutOfBounds f
  else
    f ← write_mem f memOffset len (take (Z.to_nat (end_ - dataOffset)) (drop (Z.to_nat dataOffset) (returnData f)));
    done f.

(** [StateDB.GetCodeSize]: the length of the loaded or stored code. *)
Definition GetCodeSize (addr : Z) : SM Z :=
  obj ← getStateObject addr;
  mret (match obj with
        | None => 0
        | Some o =>
            match code o with
            | Some code => Z.of_nat (length code)
            | None => match ContractCode (CodeHash (data o)) with Some code => Z.of_nat (length code) | None => 0 end
            end
        end).

Definition opExtCodeSize : executionFunc := λ _ _ f,
  '(slot, f) ← pop f; n ← GetCodeSize (BigToAddress slot); done (push n f).
Definition opCodeSize : executionFunc := pushes (λ _ c _, Z.of_nat (length (c_Code c))).

Definition opCodeCopy : executionFunc := λ _ c f,
  '(memOffset, f) ← pop f; '(codeOffset, f) ← pop f; '(length, f) ← pop f;
  f ← write_mem f memOffset length (getDataBig (c_Code c) codeOffset length); done f.

Definition opExtCodeCopy : executionFunc := λ _ _ f,
  '(addr, f) ← pop f; '(memOffset, f) ← pop f; '(codeOffset, f) ← pop f; '(length, f) ← pop f;
  code ← GetCode (BigToAddress addr);
  f ← write_mem f memOffset length (getDataBig (default [] code) codeOffset length); done f.

Definition opExtCodeHash : executionFunc := λ _ _ f,
  '(slot, f) ← pop f;
  let address := BigToAddress slot in
  empty ← Empty address;
  if (empty : bool) then done (push 0 f) else hash ← GetCodeHash address; done (push hash f).

Definition opGasprice : executionFunc := pushes (λ evm _ _, evm_GasPrice evm).

Definition opBlockhash : executionFunc := λ evm _ f,
  '(num, f) ← pop f;
  let n := BlockNumber evm - 257 in
  if (n <? num) && (num <? BlockNumber evm) then done (push (GetHash evm (u64 num)) f) else done (push 0 f).

Definition opCoinbase : executionFunc := pushes (λ evm _ _, Coinbase evm).
Definition opTimestamp : executionFunc := pushes (λ evm _ _, U256 (evm_Time evm)).
Definition opNumber : executionFunc := pushes (λ evm _ _, U256 (BlockNumber evm)).
Definition opDifficulty : executionFunc := pushes (λ evm _ _, U256 (evm_Difficulty evm)).
Definition opGasLimit : executionFunc := pushes (λ evm _ _, U256 (evm_GasLimit evm)).
Definition opPop : executionFunc := λ _ _ f, '(_, f) ← pop f; done f.

Definition opMload : executionFunc := λ _ _ f,
  '(v, f) ← pop f; data ← lift (GetPtr (mem f) (i64 v) 32); done (push (be_decode data) f).

Definition opMstore : executionFunc := λ _ _ f,
  '(mStart, f) ← pop f; '(val, f) ← pop f;
  m ← lift (Set32 (mem f) (u64 mStart) val); done (set_mem f m).

Definition opMstore8 : executionFunc := λ _ _ f,
  '(off, f) ← pop f; '(val, f) ← pop f;
  let off := i64 off in
  if (off <? 0) || (mem_len (mem f) <=? off) then panic
  else done (set_mem f (mk_Memory (write_at (store (mem f)) off [z2b (i64 val)]) (lastGasCost (mem f)))).

Definition opSload : executionFunc := λ _ c f,
  '(loc, f) ← pop f; val ← GetState (self c) (BigToHash loc); done (push val f).

Definition opSstore : executionFunc := λ _ c f,
  '(loc, f) ← pop f; '(val, f) ← pop f;
  SetState (self c) (BigToHash loc) (BigToHash val);; done f.

Definition opJump : executionFunc := λ _ c f,
  '(pos, f) ← pop f;
  valid ← lift (validJumpdest (c_Code c) pos);
  if negb valid then fail_ errInvalidJump f else done (set_pc f (u64 pos)).

Definition opJumpi : executionFunc := λ _ c f,
  '(pos, f) ← pop f; '(cond, f) ← pop f;
  if negb (cond =? 0) then
    valid ← lift (validJumpdest (c_Code c) pos);
    if negb valid then fail_ errInvalidJump f else done (set_pc f (u64 pos))
  else done (set_pc f (u64 (pc f + 1))).

Definition opJumpdest : executionFunc := λ _ _ f, done f.
Definition opPc : executionFunc := pushes (λ _ _ f, pc f).
Definition opMsize : executionFunc := pushes (λ _ _ f, mem_len (mem f)).
Definition opGas : executionFunc := pushes (λ _ _ f, f_gas f).

(** The contract as the caller of what it calls. *)
Definition as_caller (c : Contract) : ContractRef := ContractOf (CallerAddress c) (self c) (c_value c).

(** [contract.UseGas(gas)], the result ignored. *)
Definition use_gas (f : frame) (gas : Z) : frame :=
  match UseGas (f_gas f) gas with Some gas_left => set_gas f gas_left | None => f end.

Definition opCreate : executionFunc := λ evm c f,
  '(value, f) ← pop f; '(offset, f) ← pop f; '(size, f) ← pop f;
  input ← read_mem f offset size;
  let gas := f_gas f in
  let gas := if IsEIP150 (chainRules evm) then gas - gas / 64 else gas in
  let f := use_gas f gas in
  '(res, addr, returnGas, suberr) ← Create evm (as_caller c) input gas value;
  let f :=
    if IsHomestead (chainRules evm) && bool_decide (suberr = Some ErrCodeStoreOutOfGas) then push 0 f
    else if bool_decide (suberr ≠ None) && bool_decide (suberr ≠ Some ErrCodeStoreOutOfGas) then push 0 f
    else push addr f in
  let f := set_gas f (u64 (f_gas f + returnGas)) in
  mret (if bool_decide (suberr = Some errExecutionReverted) then res else [], None, f).

Definition opCreate2 : executionFunc := λ evm c f,
  '(endowment, f) ← pop f; '(offset, f) ← pop f; '(size, f) ← pop f; '(salt, f) ← pop f;
  input ← read_mem f offset size;
  let gas := f_gas f in
  let gas := gas - gas / 64 in
  let f := use_gas f gas in
  '(res, addr, returnGas, suberr) ← Create2 evm (as_caller c) input gas endowment salt;
  let f := if bool_decide (suberr ≠ None) then push 0 f else push addr f in
  let f := set_gas f (u64 (f_gas f + returnGas)) in
  mret (if bool_decide (suberr = Some errExecutionReverted) then res else [], None, f).

(** The end of the four calls: success flag, return data, gas. *)
Definition after_call (f : frame) (retOffset retSize : Z) (r : result) : SM exec_result :=
  let '(ret, returnGas, err) := r in
  let f := push (bit (bool_decide (err = None))) f in
  f ← (if bool_decide (err = None) || bool_decide (err = Some errExecutionReverted)
       then write_mem f retOffset retSize ret else mret f);
  mret (ret, None, set_gas f (u64 (f_gas f + returnGas))).

Definition CallStipend : Z := 2300.

(** What a call returns is a value, a copy; that in the source the return data can
    be a slice of the caller's memory (the identity contract) and change with it is
    not modelled. *)
Definition opCall : executionFunc := λ evm c f,
  '(_, f) ← pop f;
  let gas := callGasTemp f in
  '(addr, f) ← pop f; '(value, f) ← pop f; '(inOffset, f) ← pop f; '(inSize, f) ← pop f;
  '(retOffset, f) ← pop f; '(retSize, f) ← pop f;
  let value := U256 value in
  args ← read_mem f inOffset inSize;
  let gas := if negb (value =? 0) then u64 (gas + CallStipend) else gas in
  r ← Call evm (as_caller c) (BigToAddress addr) args gas value;
  after_call f retOffset retSize r.

Definition opCallCode : executionFunc := λ evm c f,
  '(_, f) ← pop f;
  let gas := callGasTemp f in
  '(addr, f) ← pop f; '(value, f) ← pop f; '(inOffset, f) ← pop f; '(inSize, f) ← pop f;
  '(retOffset, f) ← pop f; '(retSize, f) ← pop f;
  let value := U256 value in
  args ← read_mem f inOffset inSize;
  let gas := if negb (value =? 0) then u64 (gas + CallStipend) else gas in
  r ← CallCode evm (as_caller c) (BigToAddress addr) args gas value;
  after_call f retOffset retSize r.

Definition opDelegateCall : executionFunc := λ evm c f,
  '(_, f) ← pop f;
  let gas := callGasTemp f in
  '(addr, f) ← pop f; '(inOffset, f) ← pop f; '(inSize, f) ← pop f; '(retOffset, f) ← pop f; '(retSize, f) ← pop f;
  args ← read_mem f inOffset inSize;
  r ← DelegateCall evm (as_caller c) (BigToAddress addr) args gas;
  after_call f retOffset retSize r.

Definition opStaticCall : executionFunc := λ evm c f,
  '(_, f) ← pop f;
  let gas := callGasTemp f in
  '(addr, f) ← pop f; '(inOffset, f) ← pop f; '(inSize, f) ← pop f; '(retOffset, f) ← pop f; '(retSize, f) ← pop f;
  args ← read_mem f inOffset inSize;
  r ← StaticCall evm (as_caller c) (BigToAddress addr) args gas;
  after_call f retOffset retSize r.

Definition opReturn : executionFunc := λ _ _ f,
  '(offset, f) ← pop f; '(size, f) ← pop f; ret ← read_mem f offset size; mret (ret, None, f).
Definition opRevert : executionFunc := λ _ _ f,
  '(offset, f) ← pop f; '(size, f) ← pop f; ret ← read_mem f offset size; mret (ret, None, f).
Definition opStop : executionFunc := λ _ _ f, done f.

Definition opSuicide : executionFunc := λ _ c f,
  balance ← GetBalance (self c);
  '(to, f) ← pop f;
  AddBalance (BigToAddress to) balance;;
  _ ← Suicide (self c);
  done f.

Fixpoint pop_topics (n : nat) (f : frame) : SM (list Z * frame) :=
  match n with
  | O => mret ([], f)
  | S n => '(x, f) ← pop f; '(xs, f) ← pop_topics n f; mret (BigToHash x :: xs, f)
  end.

Definition makeLog (size : nat) : executionFunc := λ _ c f,
  '(mStart, f) ← pop f; '(mSize, f) ← pop f;
  '(topics, f) ← pop_topics size f;
  d ← read_mem f mStart mSize;
  AddLog (mk_Log (self c) topics d 0 0 0 0);;
  done f.

Definition opPush1 : executionFunc := λ _ c f,
  let pc := u64 (pc f + 1) in
  let x := if pc <? Z.of_nat (length (c_Code c)) then match c_Code c !! Z.to_nat pc with Some b => b2z b | None => 0 end else 0 in
  done (push x (set_pc f pc)).

Definition makePush (size : Z) (pushByteSize : nat) : executionFunc := λ _ c f,
  let codeLen := length (c_Code c) in
  let startMin := Nat.min codeLen (Z.to_nat (u64 (pc f + 1))) in
  let endMin := Nat.min codeLen (startMin + pushByteSize) in
  let data := RightPadBytes (take (endMin - startMin) (drop startMin (c_Code c))) pushByteSize in
  done (set_pc (push (be_decode data) f) (u64 (pc f + size))).

Definition makeDup (size : nat) : executionFunc := λ _ _ f, f ← dup f size; done f.

(** [size++] in [makeSwap]: the top counts. *)
Definition makeSwap (size : nat) : executionFunc := λ _ _ f, f ← swap f (size + 1); done f.

(** ** eips.go *)

Definition opSelfBalance : executionFunc := λ _ c f, b ← GetBalance (self c); done (push b f).
Definition opChainID : executionFunc := pushes (λ evm _ _, ChainID evm).

End WithInterpreter.

End Instructions.
