(* ===== verification/Machine.v ===== *)
(** * Machine: gas, instruction sets and the interpreter loop (core/vm)

    [gas_table.go], [memory_table.go], [stack_table.go], [jump_table.go],
    [eips.go] and [interpreter.go]: what an instruction costs, the instruction
    sets of the forks, and the loop that runs them; [machine] ties the loop to
    the calls of [Evm], one level per call depth.

    - A jump table is a list of opcodes with their operations; the first entry
      of an opcode counts, so that a later fork is a longer list.
    - The loop has fuel for one instruction per unit of gas and one more. *)

From stdpp Require Import base gmap list.
From Stdlib Require Import ZArith Lia.
From S2P Require Import Prelude Word StateDB Evm Instructions.

Local Open Scope Z_scope.

Module Machine.
Import Word StateDB Evm Instructions.

(** ** Constants (gas.go, params/protocol_params.go) *)

Definition GasQuickStep : Z := 2.
Definition GasFastestStep : Z := 3.
Definition GasFastStep : Z := 5.
Definition GasMidStep : Z := 8.
Definition GasSlowStep : Z := 10.
Definition GasExtStep : Z := 20.
Definition BalanceGasEIP150 : Z := 400.
Definition BalanceGasEIP1884 : Z := 700.
Definition BalanceGasFrontier : Z := 20.
Definition CallGasEIP150 : Z := 700.
Definition CallGasFrontier : Z := 40.
Definition CallNewAccountGas : Z := 25000.
Definition CallValueTransferGas : Z := 9000.
Definition CopyGas : Z := 3.
Definition Create2Gas : Z := 32000.
Definition CreateBySelfdestructGas : Z := 25000.
Definition CreateGas : Z := 32000.
Definition ExpByteEIP158 : Z := 50.
Definition ExpByteFrontier : Z := 10.
Definition ExpGas : Z := 10.
Definition ExtcodeCopyBaseEIP150 : Z := 700.
Definition ExtcodeCopyBaseFrontier : Z := 20.
Definition ExtcodeHashGasConstantinople : Z := 400.
Definition ExtcodeHashGasEIP1884 : Z := 700.
Definition ExtcodeSizeGasEIP150 : Z := 700.
Definition ExtcodeSizeGasFrontier : Z := 20.
Definition JumpdestGas : Z := 1.
Definition LogDataGas : Z := 8.
Definition LogGas : Z := 375.
Definition LogTopicGas : Z := 375.
Definition MemoryGas : Z := 3.
Definition NetSstoreCleanGas : Z := 5000.
Definition NetSstoreClearRefund : Z := 15000.
Definition NetSstoreDirtyGas : Z := 200.
Definition NetSstoreInitGas : Z := 20000.
Definition NetSstoreNoopGas : Z := 200.
Definition NetSstoreResetClearRefund : Z := 19800.
Definition NetSstoreResetRefund : Z := 4800.
Definition QuadCoeffDiv : Z := 512.
Definition SelfdestructGasEIP150 : Z := 5000.
Definition SelfdestructRefundGas : Z := 24000.
Definition Sha3Gas : Z := 30.
Definition Sha3WordGas : Z := 6.
Definition SloadGasEIP150 : Z := 200.
Definition SloadGasEIP1884 : Z := 800.
Definition SloadGasFrontier : Z := 50.
Definition SstoreCleanGasEIP2200 : Z := 5000.
Definition SstoreCleanRefundEIP2200 : Z := 4200.
Definition SstoreClearGas : Z := 5000.
Definition SstoreClearRefundEIP2200 : Z := 15000.
Definition SstoreDirtyGasEIP2200 : Z := 800.
Definition SstoreInitGasEIP2200 : Z := 20000.
Definition SstoreInitRefundEIP2200 : Z := 19200.
Definition SstoreNoopGasEIP2200 : Z := 800.
Definition SstoreRefundGas : Z := 15000.
Definition SstoreResetGas : Z := 5000.
Definition SstoreSentryGasEIP2200 : Z := 2300.
Definition SstoreSetGas : Z := 20000.
Definition StackLimit : Z := 1024.

(** ** Memory sizes (memory_table.go) *)

(** The size an instruction needs and whether it overflows; [None] is a panic. *)
Definition memorySizeFunc : Type := frame → option (Z * bool).

Definition mem_size (off size : nat) : memorySizeFunc := λ f,
  o ← Back f off; l ← Back f size; Some (calcMemSize64 o l).
Definition mem_size_uint (off : nat) (n : Z) : memorySizeFunc := λ f,
  o ← Back f off; Some (calcMemSize64WithUint o n).

(** The larger of two ranges. *)
Definition mem_max (a b : memorySizeFunc) : memorySizeFunc := λ f,
  '(x, overflow) ← a f;
  if (overflow : bool) then Some (0, true)
  else
    '(y, overflow) ← b f;
    if (overflow : bool) then Some (0, true) else Some (if y <? x then x else y, false).

Definition memorySha3 := mem_size 0 1.
Definition memoryCallDataCopy := mem_size 0 2.
Definition memoryReturnDataCopy := mem_size 0 2.
Definition memoryCodeCopy := mem_size 0 2.
Definition memoryExtCodeCopy := mem_size 1 3.
Definition memoryMLoad := mem_size_uint 0 32.
Definition memoryMStore8 := mem_size_uint 0 1.
Definition memoryMStore := mem_size_uint 0 32.
Definition memoryCreate := mem_size 1 2.
Definition memoryCreate2 := mem_size 1 2.
Definition memoryCall := mem_max (mem_size 5 6) (mem_size 3 4).
Definition memoryDelegateCall := mem_max (mem_size 4 5) (mem_size 2 3).
Definition memoryStaticCall := mem_max (mem_size 4 5) (mem_size 2 3).
Definition memoryReturn := mem_size 0 1.
Definition memoryRevert := mem_size 0 1.
Definition memoryLog := mem_size 0 1.

Section WithInterpreter.
Context {BE : Backend} {IN : Interpreter}.

(** ** Dynamic gas (gas_table.go) *)

(** The cost, [None] for an error, and the frame with the memory fee and the
    gas of a call noted. *)
Definition gasFunc : Type := EVM → Contract → frame → Z → SM (option Z * frame).

Definition memoryGasCost (m : Memory) (newMemSize : Z) : option Z * Memory :=
  if newMemSize =? 0 then (Some 0, m)
  else if 137438953440 <? newMemSize then (None, m)
  else
    let newMemSizeWords := toWordSize newMemSize in
    let newMemSize := u64 (newMemSizeWords * 32) in
    if mem_len m <? newMemSize then
      let square := u64 (newMemSizeWords * newMemSizeWords) in
      let linCoef := u64 (newMemSizeWords * MemoryGas) in
      let quadCoef := square / QuadCoeffDiv in
      let newTotalFee := u64 (linCoef + quadCoef) in
      (Some (u64 (newTotalFee - lastGasCost m)), mk_Memory (store m) newTotalFee)
    else (Some 0, m).

Definition pureMemoryGascost : gasFunc := λ _ _ f memorySize,
  let '(gas, m) := memoryGasCost (mem f) memorySize in mret (gas, set_mem f m).

(** [if gas, overflow = math.SafeAdd(gas, x); overflow { return errGasUintOverflow }] *)
Definition add_gas (gas : option Z) (x : Z) : option Z :=
  g ← gas; let '(sum, overflow) := SafeAdd g x in if (overflow : bool) then None else Some sum.

(** The words of a size, times a price. *)
Definition word_gas (size price : Z) : option Z :=
  if negb (IsUint64 size) then None
  else let '(words, overflow) := SafeMul (toWordSize size) price in if (overflow : bool) then None else Some words.

(** Memory expansion and a price per word of the size at a stack position. *)
Definition memory_and_words (stackpos : nat) (price : Z) : gasFunc := λ evm c f memorySize,
  '(gas, f) ← pureMemoryGascost evm c f memorySize;
  match gas with
  | None => mret (None, f)
  | Some _ =>
      size ← lift (Back f stackpos);
      mret (w ← word_gas size price; add_gas gas w, f)
  end.

Definition memoryCopierGas (stackpos : nat) : gasFunc := memory_and_words stackpos CopyGas.
Definition gasCallDataCopy := memoryCopierGas 2.
Definition gasCodeCopy := memoryCopierGas 2.
Definition gasExtCodeCopy := memoryCopierGas 3.
Definition gasReturnDataCopy := memoryCopierGas 2.
Definition gasSha3 : gasFunc := memory_and_words 1 Sha3WordGas.
Definition gasCreate2 : gasFunc := memory_and_words 2 Sha3WordGas.
Definition gasReturn := pureMemoryGascost.
Definition gasRevert := pureMemoryGascost.
Definition gasMLoad := pureMemoryGascost.
Definition gasMStore8 := pureMemoryGascost.
Definition gasMStore := pureMemoryGascost.
Definition gasCreate := pureMemoryGascost.

(** Net metering, the same in EIP-1283 and EIP-2200 but for the prices. *)
Definition net_sstore (noop init clean dirty clear reset resetClear : Z) : gasFunc := λ evm c f _,
  x ← lift (Back f 0); y ← lift (Back f 1);
  current ← GetState (self c) (BigToHash x);
  let value := BigToHash y in
  if current =? value then mret (Some noop, f)
  else
    original ← GetCommittedState (self c) (BigToHash x);
    if original =? current then
      if original =? 0 then mret (Some init, f)
      else (if value =? 0 then AddRefund clear else mret tt);; mret (Some clean, f)
    else
      (if negb (original =? 0) then
         if current =? 0 then SubRefund clear
         else if value =? 0 then AddRefund clear
         else mret tt
       else mret tt);;
      (if original =? value then
         if original =? 0 then AddRefund resetClear else AddRefund reset
       else mret tt);;
      mret (Some dirty, f).

Definition gasSStore : gasFunc := λ evm c f memorySize,
  if IsPetersburg (chainRules evm) || negb (IsConstantinople (chainRules evm)) then
    x ← lift (Back f 0); y ← lift (Back f 1);
    current ← GetState (self c) (BigToHash x);
    if (current =? 0) && negb (y =? 0) then mret (Some SstoreSetGas, f)
    else if negb (current =? 0) && (y =? 0) then AddRefund SstoreRefundGas;; mret (Some SstoreClearGas, f)
    else mret (Some SstoreResetGas, f)
  else
    net_sstore NetSstoreNoopGas NetSstoreInitGas NetSstoreCleanGas NetSstoreDirtyGas
      NetSstoreClearRefund NetSstoreResetRefund NetSstoreResetClearRefund evm c f memorySize.

Definition gasSStoreEIP2200 : gasFunc := λ evm c f memorySize,
  if f_gas f <=? SstoreSentryGasEIP2200 then mret (None, f)
  else
    net_sstore SstoreNoopGasEIP2200 SstoreInitGasEIP2200 SstoreCleanGasEIP2200 SstoreDirtyGasEIP2200
      SstoreClearRefundEIP2200 SstoreCleanRefundEIP2200 SstoreInitRefundEIP2200 evm c f memorySize.

Definition makeGasLog (n : Z) : gasFunc := λ evm c f memorySize,
  requestedSize ← lift (Back f 1);
  if negb (IsUint64 requestedSize) then mret (None, f)
  else
    '(gas, f) ← pureMemoryGascost evm c f memorySize;
    let gas := add_gas (add_gas gas LogGas) (u64 (n * LogTopicGas)) in
    let '(memorySizeGas, overflow) := SafeMul requestedSize LogDataGas in
    mret (if (overflow : bool) then None else add_gas gas memorySizeGas, f).

Definition gas_exp (byte_price : Z) : gasFunc := λ _ _ f _,
  x ← lift (Back f 1);
  let expByteLen := (BitLen x + 7) / 8 in
  mret (add_gas (Some (u64 (expByteLen * byte_price))) ExpGas, f).
Definition gasExpFrontier : gasFunc := gas_exp ExpByteFrontier.
Definition gasExpEIP158 : gasFunc := gas_exp ExpByteEIP158.

(** The last steps of the gas of a call: the gas handed on is noted and added. *)
Definition with_call_gas (evm : EVM) (f : frame) (gas : option Z) : SM (option Z * frame) :=
  match gas with
  | None => mret (None, f)
  | Some base =>
      cost ← lift (Back f 0);
      match callGas (IsEIP150 (chainRules evm)) (f_gas f) base cost with
      | None => mret (None, set_callGasTemp f 0)
      | Some temp => mret (add_gas (Some base) temp, set_callGasTemp f temp)
      end
  end.

Definition gasCall : gasFunc := λ evm c f memorySize,
  value ← lift (Back f 2); addr ← lift (Back f 1);
  let transfersValue := negb (value =? 0) in
  let address := BigToAddress addr in
  newAccount ← (if IsEIP158 (chainRules evm)
                then (if transfersValue then Empty address else mret false)
                else (b ← Exist address; mret (negb b)));
  let gas := (if (newAccount : bool) then CallNewAccountGas else 0) + (if transfersValue then CallValueTransferGas else 0) in
  '(memoryGas, f) ← pureMemoryGascost evm c f memorySize;
  with_call_gas evm f (m ← memoryGas; add_gas (Some gas) m).

Definition gasCallCode : gasFunc := λ evm c f memorySize,
  '(memoryGas, f) ← pureMemoryGascost evm c f memorySize;
  match memoryGas with
  | None => mret (None, f)
  | Some m =>
      value ← lift (Back f 2);
      let gas := if negb (value =? 0) then CallValueTransferGas else 0 in
      with_call_gas evm f (add_gas (Some gas) m)
  end.

Definition gasDelegateCall : gasFunc := λ evm c f memorySize,
  '(gas, f) ← pureMemoryGascost evm c f memorySize; with_call_gas evm f gas.
Definition gasStaticCall : gasFunc := λ evm c f memorySize,
  '(gas, f) ← pureMemoryGascost evm c f memorySize; with_call_gas evm f gas.

Definition gasSelfdestruct : gasFunc := λ evm c f _,
  gas ← (if IsEIP150 (chainRules evm) then
           addr ← lift (Back f 0);
           let address := BigToAddress addr in
           create ← (if IsEIP158 (chainRules evm)
                     then (empty ← Empty address;
                           if (empty : bool) then b ← GetBalance (self c); mret (negb (b =? 0)) else mret false)
                     else (b ← Exist address; mret (negb b)));
           mret (SelfdestructGasEIP150 + (if (create : bool) then CreateBySelfdestructGas else 0))
         else mret 0);
  suicided ← HasSuicided (self c);
  (if negb suicided then AddRefund SelfdestructRefundGas else mret tt);;
  mret (Some gas, f).

(** ** Operations (jump_table.go, stack_table.go) *)

Record kind := mk_kind { halts : bool; jumps : bool; writes : bool; reverts : bool; returns : bool }.
Definition plain := mk_kind false false false false false.
Definition halting := mk_kind true false false false false.
Definition destroying := mk_kind true false true false false.
Definition jumping := mk_kind false true false false false.
Definition writing := mk_kind false false true false false.
Definition creating := mk_kind false false true false true.
Definition calling := mk_kind false false false false true.
Definition reverting := mk_kind false false false true true.

Record operation := mk_operation {
  execute : executionFunc; constantGas : Z; dynamicGas : option gasFunc;
  minStack : Z; maxStack : Z; memorySize : option memorySizeFunc; flags : kind }.

(** [minStack(pops, pushes)] and [maxStack(pops, pushes)]. *)
Definition mk_op (ex : executionFunc) (gas : Z) (dyn : option gasFunc) (pops pushes : Z) (ms : option memorySizeFunc) (k : kind) : operation :=
  mk_operation ex gas dyn pops (StackLimit + pops - pushes) ms k.

Definition JumpTable : Type := list (Z * operation).

Fixpoint get_op (jt : JumpTable) (op : Z) : option operation :=
  match jt with
  | [] => None
  | (k, o) :: jt => if k =? op then Some o else get_op jt op
  end.

(** [jt[op].constantGas = gas] and [jt[op].dynamicGas = dyn], for an operation of the table. *)
Definition set_constantGas (op gas : Z) (jt : JumpTable) : JumpTable :=
  match get_op jt op with
  | None => jt
  | Some o => (op, mk_operation (execute o) gas (dynamicGas o) (minStack o) (maxStack o) (memorySize o) (flags o)) :: jt
  end.
Definition set_dynamicGas (op : Z) (dyn : gasFunc) (jt : JumpTable) : JumpTable :=
  match get_op jt op with
  | None => jt
  | Some o => (op, mk_operation (execute o) (constantGas o) (Some dyn) (minStack o) (maxStack o) (memorySize o) (flags o)) :: jt
  end.

(** PUSH2 to PUSH32, DUP1 to DUP16, SWAP1 to SWAP16, LOG0 to LOG4. *)
Definition push_ops : JumpTable :=
  (λ n, (95 + Z.of_nat n, mk_op (makePush (Z.of_nat n) n) GasFastestStep None 0 1 None plain)) <$> seq 2 31.
Definition dup_ops : JumpTable :=
  (λ n, (127 + Z.of_nat n, mk_op (makeDup n) GasFastestStep None (Z.of_nat n) (Z.of_nat n + 1) None plain)) <$> seq 1 16.
Definition swap_ops : JumpTable :=
  (λ n, (143 + Z.of_nat n, mk_op (makeSwap n) GasFastestStep None (Z.of_nat n + 1) (Z.of_nat n + 1) None plain)) <$> seq 1 16.
Definition log_ops : JumpTable :=
  (λ n, (160 + Z.of_nat n, mk_op (makeLog n) 0 (Some (makeGasLog (Z.of_nat n))) (Z.of_nat n + 2) 0 (Some memoryLog) writing)) <$> seq 0 5.

Definition newFrontierInstructionSet : JumpTable :=
  [(* STOP *) (0, mk_op opStop 0 None 0 0 None halting);
   (* ADD *) (1, mk_op opAdd GasFastestStep None 2 1 None plain);
   (* MUL *) (2, mk_op opMul GasFastStep None 2 1 None plain);
   (* SUB *) (3, mk_op opSub GasFastestStep None 2 1 None plain);
   (* DIV *) (4, mk_op opDiv GasFastStep None 2 1 None plain);
   (* SDIV *) (5, mk_op opSdiv GasFastStep None 2 1 None plain);
   (* MOD *) (6, mk_op opMod GasFastStep None 2 1 None plain);
   (* SMOD *) (7, mk_op opSmod GasFastStep None 2 1 None plain);
   (* ADDMOD *) (8, mk_op opAddmod GasMidStep None 3 1 None plain);
   (* MULMOD *) (9, mk_op opMulmod GasMidStep None 3 1 None plain);
   (* EXP *) (10, mk_op opExp 0 (Some gasExpFrontier) 2 1 None plain);
   (* SIGNEXTEND *) (11, mk_op opSignExtend GasFastStep None 2 1 None plain);
   (* LT *) (16, mk_op opLt GasFastestStep None 2 1 None plain);
   (* GT *) (17, mk_op opGt GasFastestStep None 2 1 None plain);
   (* SLT *) (18, mk_op opSlt GasFastestStep None 2 1 None plain);
   (* SGT *) (19, mk_op opSgt GasFastestStep None 2 1 None plain);
   (* EQ *) (20, mk_op opEq GasFastestStep None 2 1 None plain);
   (* ISZERO *) (21, mk_op opIszero GasFastestStep None 1 1 None plain);
   (* AND *) (22, mk_op opAnd GasFastestStep None 2 1 None plain);
   (* XOR *) (24, mk_op opXor GasFastestStep None 2 1 None plain);
   (* OR *) (23, mk_op opOr GasFastestStep None 2 1 None plain);
   (* NOT *) (25, mk_op opNot GasFastestStep None 1 1 None plain);
   (* BYTE *) (26, mk_op opByte GasFastestStep None 2 1 None plain);
   (* SHA3 *) (32, mk_op opSha3 Sha3Gas (Some gasSha3) 2 1 (Some memorySha3) plain);
   (* ADDRESS *) (48, mk_op opAddress GasQuickStep None 0 1 None plain);
   (* BALANCE *) (49, mk_op opBalance BalanceGasFrontier None 1 1 None plain);
   (* ORIGIN *) (50, mk_op opOrigin GasQuickStep None 0 1 None plain);
   (* CALLER *) (51, mk_op opCaller GasQuickStep None 0 1 None plain);
   (* CALLVALUE *) (52, mk_op opCallValue GasQuickStep None 0 1 None plain);
   (* CALLDATALOAD *) (53, mk_op opCallDataLoad GasFastestStep None 1 1 None plain);
   (* CALLDATASIZE *) (54, mk_op opCallDataSize GasQuickStep None 0 1 None plain);
   (* CALLDATACOPY *) (55, mk_op opCallDataCopy GasFastestStep (Some gasCallDataCopy) 3 0 (Some memoryCallDataCopy) plain);
   (* CODESIZE *) (56, mk_op opCodeSize GasQuickStep None 0 1 None plain);
   (* CODECOPY *) (57, mk_op opCodeCopy GasFastestStep (Some gasCodeCopy) 3 0 (Some memoryCodeCopy) plain);
   (* GASPRICE *) (58, mk_op opGasprice GasQuickStep None 0 1 None plain);
   (* EXTCODESIZE *) (59, mk_op opExtCodeSize ExtcodeSizeGasFrontier None 1 1 None plain);
   (* EXTCODECOPY *) (60, mk_op opExtCodeCopy ExtcodeCopyBaseFrontier (Some gasExtCodeCopy) 4 0 (Some memoryExtCodeCopy) plain);
   (* BLOCKHASH *) (64, mk_op opBlockhash GasExtStep None 1 1 None plain);
   (* COINBASE *) (65, mk_op opCoinbase GasQuickStep None 0 1 None plain);
   (* TIMESTAMP *) (66, mk_op opTimestamp GasQuickStep None 0 1 None plain);
   (* NUMBER *) (67, mk_op opNumber GasQuickStep None 0 1 None plain);
   (* DIFFICULTY *) (68, mk_op opDifficulty GasQuickStep None 0 1 None plain);
   (* GASLIMIT *) (69, mk_op opGasLimit GasQuickStep None 0 1 None plain);
   (* POP *) (80, mk_op opPop GasQuickStep None 1 0 None plain);
   (* MLOAD *) (81, mk_op opMload GasFastestStep (Some gasMLoad) 1 1 (Some memoryMLoad) plain);
   (* MSTORE *) (82, mk_op opMstore GasFastestStep (Some gasMStore) 2 0 (Some memoryMStore) plain);
   (* MSTORE8 *) (83, mk_op opMstore8 GasFastestStep (Some gasMStore8) 2 0 (Some memoryMStore8) plain);
   (* SLOAD *) (84, mk_op opSload SloadGasFrontier None 1 1 None plain);
   (* SSTORE *) (85, mk_op opSstore 0 (Some gasSStore) 2 0 None writing);
   (* JUMP *) (86, mk_op opJump GasMidStep None 1 0 None jumping);
   (* JUMPI *) (87, mk_op opJumpi GasSlowStep None 2 0 None jumping);
   (* PC *) (88, mk_op opPc GasQuickStep None 0 1 None plain);
   (* MSIZE *) (89, mk_op opMsize GasQuickStep None 0 1 None plain);
   (* GAS *) (90, mk_op opGas GasQuickStep None 0 1 None plain);
   (* JUMPDEST *) (91, mk_op opJumpdest JumpdestGas None 0 0 None plain);
   (* PUSH1 *) (96, mk_op opPush1 GasFastestStep None 0 1 None plain);
   (* CREATE *) (240, mk_op opCreate CreateGas (Some gasCreate) 3 1 (Some memoryCreate) creating);
   (* CALL *) (241, mk_op opCall CallGasFrontier (Some gasCall) 7 1 (Some memoryCall) calling);
   (* CALLCODE *) (242, mk_op opCallCode CallGasFrontier (Some gasCallCode) 7 1 (Some memoryCall) calling);
   (* RETURN *) (243, mk_op opReturn 0 (Some gasReturn) 2 0 (Some memoryReturn) halting);
   (* SELFDESTRUCT *) (255, mk_op opSuicide 0 (Some gasSelfdestruct) 1 0 None destroying)]
  ++ push_ops ++ dup_ops ++ swap_ops ++ log_ops.

Definition newHomesteadInstructionSet : JumpTable :=
  (* DELEGATECALL *) (244, mk_op opDelegateCall CallGasFrontier (Some gasDelegateCall) 6 1 (Some memoryDelegateCall) calling)
  :: newFrontierInstructionSet.

(** BALANCE, EXTCODESIZE, SLOAD, EXTCODECOPY, CALL, CALLCODE, DELEGATECALL *)
Definition newTangerineWhistleInstructionSet : JumpTable :=
  set_constantGas 244 CallGasEIP150 (set_constantGas 242 CallGasEIP150 (set_constantGas 241 CallGasEIP150
  (set_constantGas 60 ExtcodeCopyBaseEIP150 (set_constantGas 84 SloadGasEIP150
  (set_constantGas 59 ExtcodeSizeGasEIP150 (set_constantGas 49 BalanceGasEIP150 newHomesteadInstructionSet)))))).

(** EXP *)
Definition newSpuriousDragonInstructionSet : JumpTable :=
  set_dynamicGas 10 gasExpEIP158 newTangerineWhistleInstructionSet.

Definition newByzantiumInstructionSet : JumpTable :=
  [(* STATICCALL *) (250, mk_op opStaticCall CallGasEIP150 (Some gasStaticCall) 6 1 (Some memoryStaticCall) calling);
   (* RETURNDATASIZE *) (61, mk_op opReturnDataSize GasQuickStep None 0 1 None plain);
   (* RETURNDATACOPY *) (62, mk_op opReturnDataCopy GasFastestStep (Some gasReturnDataCopy) 3 0 (Some memoryReturnDataCopy) plain);
   (* REVERT *) (253, mk_op opRevert 0 (Some gasRevert) 2 0 (Some memoryRevert) reverting)]
  ++ newSpuriousDragonInstructionSet.

Definition newConstantinopleInstructionSet : JumpTable :=
  [(* SHL *) (27, mk_op opSHL GasFastestStep None 2 1 None plain);
   (* SHR *) (28, mk_op opSHR GasFastestStep None 2 1 None plain);
   (* SAR *) (29, mk_op opSAR GasFastestStep None 2 1 None plain);
   (* EXTCODEHASH *) (63, mk_op opExtCodeHash ExtcodeHashGasConstantinople None 1 1 None plain);
   (* CREATE2 *) (245, mk_op opCreate2 Create2Gas (Some gasCreate2) 4 1 (Some memoryCreate2) creating)]
  ++ newByzantiumInstructionSet.

(** [eips.go] *)
Definition enable1884 (jt : JumpTable) : JumpTable :=
  (* SELFBALANCE *) (71, mk_op opSelfBalance GasFastStep None 0 1 None plain)
  :: set_constantGas 84 SloadGasEIP1884 (set_constantGas 63 ExtcodeHashGasEIP1884 (set_constantGas 49 BalanceGasEIP1884 jt)).
Definition enable1344 (jt : JumpTable) : JumpTable :=
  (* CHAINID *) (70, mk_op opChainID GasQuickStep None 0 1 None plain) :: jt.
Definition enable2200 (jt : JumpTable) : JumpTable := set_dynamicGas 85 gasSStoreEIP2200 jt.

Definition newIstanbulInstructionSet : JumpTable := enable2200 (enable1884 (enable1344 newConstantinopleInstructionSet)).

(** The choice of [NewEVMInterpreter]. *)
Definition instruction_set (r : Rules) : JumpTable :=
  if IsIstanbul r then newIstanbulInstructionSet
  else if IsConstantinople r then newConstantinopleInstructionSet
  else if IsByzantium r then newByzantiumInstructionSet
  else if IsEIP158 r then newSpuriousDragonInstructionSet
  else if IsEIP150 r then newTangerineWhistleInstructionSet
  else if IsHomestead r then newHomesteadInstructionSet
  else newFrontierInstructionSet.

(** ** The loop (interpreter.go) *)

Definition CALL : Z := 241.

(** [Contract.GetOp]: past the end of the code there are zeros. *)
Definition GetOp (c : Contract) (n : Z) : Z :=
  if n <? Z.of_nat (length (c_Code c)) then match c_Code c !! Z.to_nat n with Some b => b2z b | None => 0 end else 0.

(** What a round of the loop comes to. *)
Inductive verdict := Halt (r : result) | Continue (f : frame).

Definition halt (f : frame) (e : vm_error) : SM verdict := mret (Halt ([], f_gas f, Some e)).

(** The instruction itself, once it is paid for, and the end of the round. *)
Definition finish (o : operation) (evm : EVM) (c : Contract) (f : frame) : SM verdict :=
  '(res, err, f) ← execute o evm c f;
  let f := if returns (flags o) then set_returnData f res else f in
  match err with
  | Some e => halt f e
  | None =>
      mret (if reverts (flags o) then Halt (res, f_gas f, Some errExecutionReverted)
            else if halts (flags o) then Halt (res, f_gas f, None)
            else if jumps (flags o) then Continue f
            else Continue (set_pc f (u64 (pc f + 1))))
  end.

(** Paying for the instruction: constant gas, memory size, dynamic gas. *)
Definition pay (o : operation) (evm : EVM) (c : Contract) (f : frame) : SM (vm_error * frame + frame) :=
  match UseGas (f_gas f) (constantGas o) with
  | None => mret (inl (ErrOutOfGas, f))
  | Some gas =>
      let f := set_gas f gas in
      size ← lift (match memorySize o with Some ms => ms f | None => Some (0, false) end);
      let '(memSize, overflow) := (size : Z * bool) in
      let '(memSize, overflow') := if overflow then (0, true) else SafeMul (toWordSize memSize) 32 in
      if (overflow' : bool) then mret (inl (errGasUintOverflow, f))
      else
        match dynamicGas o with
        | None => mret (inr (set_mem f (if 0 <? memSize then Resize (mem f) memSize else mem f)))
        | Some dyn =>
            '(cost, f) ← dyn evm c f memSize;
            match (cost : option Z) with
            | None => mret (inl (ErrOutOfGas, f))
            | Some cost =>
                match UseGas (f_gas f) cost with
                | None => mret (inl (ErrOutOfGas, f))
                | Some gas =>
                    let f := set_gas f gas in
                    mret (inr (set_mem f (if 0 <? memSize then Resize (mem f) memSize else mem f)))
                end
            end
        end
  end.

(** In read-only mode nothing may write, nor a call transfer value. *)
Definition write_protected (o : operation) (op : Z) (evm : EVM) (f : frame) : option bool :=
  if readOnly evm && IsByzantium (chainRules evm) then
    if writes (flags o) then Some true
    else if op =? CALL then v ← Back f 2; Some (negb (v =? 0))
    else Some false
  else Some false.

Definition step (jt : JumpTable) (evm : EVM) (c : Contract) (f : frame) : SM verdict :=
  let op := GetOp c (pc f) in
  match get_op jt op with
  | None => halt f (errInvalidOpcode op)
  | Some o =>
      let sLen := Z.of_nat (length (stack f)) in
      if sLen <? minStack o then halt f (errStackUnderflow sLen (minStack o))
      else if maxStack o <? sLen then halt f (errStackLimit sLen (maxStack o))
      else
        protected ← lift (write_protected o op evm f);
        if (protected : bool) then halt f errWriteProtection
        else
          paid ← pay o evm c f;
          match paid with
          | inl (e, f) => halt f e
          | inr f => finish o evm c f
          end
  end.

Fixpoint loop (fuel : nat) (jt : JumpTable) (evm : EVM) (c : Contract) (f : frame) : SM result :=
  match fuel with
  | O => mret ([], f_gas f, Some out_of_fuel)
  | S fuel =>
      v ← step jt evm c f;
      match v with
      | Halt r => mret r
      | Continue f => loop fuel jt evm c f
      end
  end.

Definition start (c : Contract) : frame := mk_frame 0 [] (mk_Memory [] 0) (c_Gas c) [] 0.

(** The loop of [Run] on a contract with code. *)
Definition run_code (evm : EVM) (c : Contract) : SM result :=
  loop (S (Z.to_nat (c_Gas c))) (instruction_set (chainRules evm)) evm c (start c).

End WithInterpreter.

(** ** The machine *)

(** The precompiled contracts. *)
Class Precompiles := {
  contract_gas : Rules → Z → bytes → Z;
  contract_run : Rules → Z → bytes → bytes * option vm_error }.

(** The machine for [n] more levels of calls. *)
Fixpoint machine {BE : Backend} {PR : Precompiles} (n : nat) : Interpreter :=
  match n with
  | O => {| RequiredGas := contract_gas; RunPrecompile := contract_run;
            run_loop := λ _ c, mret ([], c_Gas c, Some out_of_fuel) |}
  | S n => {| RequiredGas := contract_gas; RunPrecompile := contract_run;
              run_loop := run_code (IN := machine n) |}
  end.

(** Calls nest at most [CallCreateDepth + 1] deep. *)
Definition levels : nat := 1025.

End Machine.
