(* ===== verification/MachineProofs.v ===== *)
(** * MachineProofs: what the interpreter loop promises

    Every instruction changes the state through journaled operations only,
    pays at least one unit of gas unless it ends the frame, and moves the stack
    by what its entry in the jump table says; hence the loop keeps the promises
    the calls of [Evm] rely on, and ends before its fuel does. *)

From stdpp Require Import base gmap list.
From Stdlib Require Import ZArith Lia.
From S2P Require Import Prelude Word StateDB StateProofs Evm EvmProofs Instructions Machine.

Local Open Scope Z_scope.

Module MachineProofs.
Import Word StateDB StateProofs Evm EvmProofs Instructions Machine.

(** ** Postconditions of state computations *)

Definition post {A} (m : SM A) (Q : A → Prop) : Prop := ∀ s a s', m s = Some (a, s') → Q a.

Lemma post_ret {A} (a : A) (Q : A → Prop) : Q a → post (mret a) Q.
Proof. by intros HQ s a' s' [= <- <-]. Qed.

Lemma post_bind {A B} (m : SM A) (k : A → SM B) (P : A → Prop) (Q : B → Prop) :
  post m P → (∀ a, P a → post (k a) Q) → post (m ≫= k) Q.
Proof. intros Hm Hk s b s' (a & s1 & E1 & E2)%SM_bind_Some. eapply Hk; [|exact E2]. by eapply Hm. Qed.

Lemma post_any {A B} (m : SM A) (k : A → SM B) (Q : B → Prop) : (∀ a, post (k a) Q) → post (m ≫= k) Q.
Proof. intros Hk. apply (post_bind _ _ (λ _, True)); [done|auto]. Qed.

Lemma post_weaken {A} (m : SM A) (P Q : A → Prop) : post m P → (∀ a, P a → Q a) → post m Q.
Proof. intros Hm HQ s a s' E. eapply HQ, Hm, E. Qed.

Lemma post_panic {A} (Q : A → Prop) : post panic Q.
Proof. by intros s a s'. Qed.

Lemma post_lift {A} (x : option A) (Q : A → Prop) : (∀ a, x = Some a → Q a) → post (lift x) Q.
Proof. intros HQ. destruct x; [apply post_ret; auto|apply post_panic]. Qed.

Lemma post_pop f (Q : Z * frame → Prop) : (∀ x st, stack f = x :: st → Q (x, set_stack f st)) → post (pop f) Q.
Proof. intros HQ. unfold pop. destruct (stack f) as [|x st]; [apply post_panic|apply post_ret; auto]. Qed.

Lemma pop_bind {A} (k : Z * frame → SM A) f x st s : stack f = x :: st → (pop f ≫= k) s = k (x, set_stack f st) s.
Proof. intros E. unfold pop. by rewrite E. Qed.

(** ** Calls under an enclosing snapshot *)

Section Calls.
Context {BE : Backend} {IN : Interpreter} {LW : InterpreterLaws}.

(** Snapshots before [n] survive. *)
Definition inside {A} (n : Z) (m : SM A) : Prop :=
  ∀ s0 id s a s', id < n → since s0 id s → m s = Some (a, s') → since s0 id s'.

Lemma inside_framed {A} n (m : SM A) : framed m → inside n m.
Proof. intros Hm s0 id s a s' _. by apply Hm. Qed.

Lemma inside_bind {A B} n (m : SM A) (k : A → SM B) : inside n m → (∀ a, inside n (k a)) → inside n (m ≫= k).
Proof. intros Hm Hk s0 id s b s' Hn Hs (a & s1 & E1 & E2)%SM_bind_Some. eapply Hk; [done| |exact E2]. by eapply Hm. Qed.

Lemma inside_revert n : inside n (RevertToSnapshot n).
Proof. intros s0 id s [] s' Hn Hs E. by eapply since_revert. Qed.

Lemma since_next s0 id s : since s0 id s → id < nextRevisionId s.
Proof.
  intros [(revs & Er) [_ H2] _ _]. rewrite Er in H2. apply Forall_app in H2 as [_ [H2 _]%Forall_cons]. cbn in H2. lia.
Qed.

Lemma framed_snapshot {A} (body : Z → SM A) : (∀ n, inside n (body n)) → framed (n ← Snapshot; body n).
Proof.
  intros Hb s0 id s a s' Hs (n & s1 & E1 & E2)%SM_bind_Some. pose proof (since_next _ _ _ Hs) as Hn.
  pose proof (since_snapshot _ _ _ _ _ Hs E1) as Hs1. eapply Hb; [|exact Hs1|exact E2].
  unfold Snapshot, mbind, SM_bind, get in E1. cbn in E1. injection E1 as <- _. done.
Qed.

Lemma settle_inside n r : inside n (settle n r).
Proof.
  destruct r as [[ret gas] err]. unfold settle. destruct err; [|apply inside_framed, framed_ret].
  apply inside_bind; [apply inside_revert|]. intros _. apply inside_framed, framed_ret.
Qed.

Lemma run_settle_inside n evm c input ro : inside n (r ← run evm c input ro; settle n r).
Proof. apply inside_bind; [apply inside_framed, run_framed|]. intros r. apply settle_inside. Qed.

Lemma CanTransfer_framed a x : framed (CanTransfer a x).
Proof. apply framed_bind; [apply read_framed|]. intros b. apply framed_ret. Qed.

Lemma AddBalance_framed a x : framed (AddBalance a x).
Proof. apply framed_reach. intros s [] s' W. by apply AddBalance_reach. Qed.

Lemma SetNonce_framed a x : framed (SetNonce a x).
Proof. apply framed_reach. intros s [] s' W. by apply SetNonce_reach. Qed.

Lemma message_call_framed k evm caller addr input gas : framed (message_call k evm caller addr input gas).
Proof.
  destruct k as [value|value| |]; cbn [message_call].
  - unfold Call. do 2 (case_match; [apply framed_ret|]). apply framed_bind; [apply CanTransfer_framed|intros can].
    destruct can; cbn [negb]; [|apply framed_ret]. apply framed_snapshot. intros n.
    apply inside_bind; [apply inside_framed, read_framed|intros ex]. case_match; [apply inside_framed, framed_ret|].
    apply inside_bind; [apply inside_framed; destruct (negb ex); [apply CreateAccount_framed|apply framed_ret]|intros _].
    apply inside_bind; [apply inside_framed, Transfer_framed|intros _].
    apply inside_bind; [apply inside_framed, load_code_framed|intros c]. apply run_settle_inside.
  - unfold CallCode. do 2 (case_match; [apply framed_ret|]). apply framed_bind; [apply CanTransfer_framed|intros can].
    destruct can; cbn [negb]; [|apply framed_ret]. apply framed_snapshot. intros n.
    apply inside_bind; [apply inside_framed, load_code_framed|intros c]. apply run_settle_inside.
  - unfold DelegateCall. do 2 (case_match; [apply framed_ret|]). apply framed_snapshot. intros n.
    destruct (AsDelegate _) as [c|]; [|by intros s0 id s a s'].
    apply inside_bind; [apply inside_framed, load_code_framed|intros c']. apply run_settle_inside.
  - unfold StaticCall. do 2 (case_match; [apply framed_ret|]). apply framed_snapshot. intros n.
    apply inside_bind; [apply inside_framed, load_code_framed|intros c].
    apply inside_bind; [apply inside_framed, AddBalance_framed|intros _]. apply run_settle_inside.
Qed.

Lemma create_framed evm caller code hash gas value address : framed (create evm caller code hash gas value address).
Proof.
  unfold create. case_match; [apply framed_ret|]. apply framed_bind; [apply CanTransfer_framed|intros can].
  destruct can; cbn [negb]; [|apply framed_ret]. apply framed_bind; [apply read_framed|intros nonce].
  apply framed_bind; [apply SetNonce_framed|intros _]. apply framed_bind; [apply read_framed|intros h].
  apply framed_bind; [apply read_framed|intros n']. case_match; [apply framed_ret|]. apply framed_snapshot. intros n.
  unfold create_body. apply inside_bind; [apply inside_framed, CreateAccount_framed|intros _].
  apply inside_bind; [apply inside_framed; destruct (IsEIP158 _); [apply SetNonce_framed|apply framed_ret]|intros _].
  apply inside_bind; [apply inside_framed, Transfer_framed|intros _]. case_match; [apply inside_framed, framed_ret|].
  apply inside_bind; [apply inside_framed, run_framed|intros r].
  apply inside_bind; [apply inside_framed, store_code_framed|intros [[ret g] err]].
  apply inside_bind; [|intros _; apply inside_framed, framed_ret].
  case_match; [apply inside_revert|apply inside_framed, framed_ret].
Qed.

Lemma Create_framed evm caller code gas value : framed (Create evm caller code gas value).
Proof. apply framed_bind; [apply read_framed|]. intros nonce. apply create_framed. Qed.

Lemma Create2_framed evm caller code gas value salt : framed (Create2 evm caller code gas value salt).
Proof. apply create_framed. Qed.

(** ** Gas of calls *)

Definition within (gas : Z) (r : result) : Prop := 0 <= r.1.2 <= gas.

Lemma settle_gas n r gas : within gas r → post (settle n r) (within gas).
Proof.
  destruct r as [[ret g] err]. intros [H1 H2]. cbn in H1, H2. unfold settle. destruct err; [|by apply post_ret].
  apply post_any. intros _. apply post_ret. unfold within. cbn. case_decide; lia.
Qed.

Lemma run_settle_gas n evm c input ro : 0 <= c_Gas c → post (r ← run evm c input ro; settle n r) (within (c_Gas c)).
Proof.
  intros Hg. apply (post_bind _ _ (within (c_Gas c))); [|intros r Hr; by apply settle_gas].
  intros s [[ret gas] err] s' E. by eapply run_gas.
Qed.

Lemma load_run_gas n evm c addr input ro :
  0 <= c_Gas c → post (c' ← load_code c addr; r ← run evm c' input ro; settle n r) (within (c_Gas c)).
Proof.
  intros Hg. apply (post_bind _ _ (λ c', c_Gas c' = c_Gas c)); [intros s c' s'; apply load_code_gas|].
  intros c' Ec. rewrite <- Ec in *. by apply run_settle_gas.
Qed.

Lemma message_call_gas k evm caller addr input gas : 0 <= gas → post (message_call k evm caller addr input gas) (within gas).
Proof.
  intros Hg. assert (Hret : ∀ e, post (mret ([], gas, e)) (within gas)) by (intros e; apply post_ret; unfold within; cbn; lia).
  destruct k as [value|value| |]; cbn [message_call].
  - unfold Call. do 2 (case_match; [apply Hret|]). apply post_any. intros can. destruct can; cbn [negb]; [|apply Hret].
    apply post_any. intros n. apply post_any. intros ex. case_match; [apply Hret|]. do 2 (apply post_any; intros _).
    by apply (load_run_gas n evm (NewContract caller addr (Some value) gas)).
  - unfold CallCode. do 2 (case_match; [apply Hret|]). apply post_any. intros can. destruct can; cbn [negb]; [|apply Hret].
    apply post_any. intros n. by apply (load_run_gas n evm (NewContract caller (Address caller) (Some value) gas)).
  - unfold DelegateCall. do 2 (case_match; [apply Hret|]). apply post_any. intros n.
    destruct (AsDelegate _) as [c|] eqn:Ed; [|apply post_panic].
    assert (Ec : c_Gas c = gas) by (unfold AsDelegate in Ed; destruct caller; [done|by injection Ed as <-]).
    rewrite <- Ec in *. by apply load_run_gas.
  - unfold StaticCall. do 2 (case_match; [apply Hret|]). apply post_any. intros n.
    apply (post_bind _ _ (λ c', c_Gas c' = gas)).
    { intros s c' s' E. by rewrite (load_code_gas _ _ _ _ _ E). }
    intros c' <-. apply post_any. intros _. by apply run_settle_gas.
Qed.

Definition create_within (gas : Z) (r : create_result) : Prop := 0 <= r.1.2 <= gas.

Lemma store_code_gas a m r gas : within gas r → post (store_code a m r) (within gas).
Proof.
  destruct r as [[ret g] err]. intros Hr. unfold store_code. destruct err; [by apply post_ret|]. destruct m; [by apply post_ret|].
  destruct (UseGas g _) as [g'|] eqn:Eu; [|by apply post_ret]. apply post_any. intros _. apply post_ret.
  pose proof (UseGas_Some _ _ _ Eu (proj1 (u64_range _))). unfold within in *. cbn in *. lia.
Qed.

Lemma create_gas evm caller code hash gas value address :
  0 <= gas → post (create evm caller code hash gas value address) (create_within gas).
Proof.
  intros Hg. assert (Hret : ∀ a g e, g = gas ∨ g = 0 → post (mret ([], a, g, e)) (create_within gas)).
  { intros a g e Hc. apply post_ret. unfold create_within. cbn. lia. }
  unfold create. case_match; [apply Hret; auto|]. apply post_any. intros can. destruct can; cbn [negb]; [|apply Hret; auto].
  do 4 (apply post_any; intros ?). case_match; [apply Hret; auto|]. apply post_any. intros n. unfold create_body.
  do 3 (apply post_any; intros ?). case_match; [apply Hret; auto|].
  apply (post_bind _ _ (within gas)); [intros s [[ret g] err] s' E; apply run_gas in E; done|].
  intros r Hr. eapply post_bind; [by apply store_code_gas|]. intros [[ret g] err] Hr'. apply post_any. intros _. apply post_ret.
  unfold create_within, within in *. cbn in *. case_match; lia.
Qed.

Lemma Create_gas evm caller code gas value : 0 <= gas → post (Create evm caller code gas value) (create_within gas).
Proof. intros Hg. apply post_any. intros nonce. by apply create_gas. Qed.

Lemma Create2_gas evm caller code gas value salt : 0 <= gas → post (Create2 evm caller code gas value salt) (create_within gas).
Proof. apply create_gas. Qed.

(** ** What the jump table says of an instruction *)

(** The gas an instruction may be given back beyond what the frame has. *)
Definition no_extra (f : frame) : Z := 0.

(** It needs [pops] items and leaves [pushes] in their place. *)
Definition exec_spec (pops pushes : nat) (extra : frame → Z) (ex : executionFunc) : Prop :=
  ∀ evm c f, 0 <= f_gas f → 0 <= extra f →
    post (ex evm c f) (λ '(_, e, f'), 0 <= f_gas f' <= f_gas f + extra f ∧ e ≠ Some out_of_fuel ∧
      (e = None → length (stack f') + pops = length (stack f) + pushes)%nat).

(** An instruction that does not touch the gas. *)
Definition quiet (pops pushes : nat) (ex : executionFunc) : Prop :=
  ∀ evm c f, post (ex evm c f) (λ '(_, e, f'), f_gas f' = f_gas f ∧ e ≠ Some out_of_fuel ∧
    (e = None → length (stack f') + pops = length (stack f) + pushes)%nat).

Lemma quiet_spec pops pushes ex : quiet pops pushes ex → exec_spec pops pushes no_extra ex.
Proof.
  intros Hq evm c f H1 _. eapply post_weaken; [apply Hq|]. intros [[r e] f'] (-> & H2 & H3).
  unfold no_extra. split; [lia|done].
Qed.

Lemma post_bind_pop {B} f (k : Z * frame → SM B) Q :
  (∀ x st, stack f = x :: st → post (k (x, set_stack f st)) Q) → post (pop f ≫= k) Q.
Proof. intros Hk. apply (post_bind _ _ (λ '(x, f'), ∃ st, stack f = x :: st ∧ f' = set_stack f st)).
  - apply post_pop. intros x st E. by exists st.
  - intros [x f'] (st & E & ->). by apply Hk.
Qed.

Lemma post_bind_write {B} f o n v (k : frame → SM B) Q :
  (∀ m, post (k (set_mem f m)) Q) → post (write_mem f o n v ≫= k) Q.
Proof.
  intros Hk. apply (post_bind _ _ (λ f', ∃ m, f' = set_mem f m)).
  - unfold write_mem. apply post_any. intros m. apply post_ret. by exists m.
  - by intros f' (m & ->).
Qed.

Lemma pop_topics_post n f :
  post (pop_topics n f) (λ '(_, f'), ∃ st, (length st + n = length (stack f))%nat ∧ f' = set_stack f st).
Proof.
  revert f. induction n as [|n IH]; intros f; cbn [pop_topics].
  - apply post_ret. exists (stack f). split; [lia|by destruct f].
  - apply post_bind_pop. intros x st E. eapply post_bind; [apply IH|]. intros [xs f'] (st' & Hl & ->). apply post_ret.
    exists st'. cbn in Hl. rewrite E. cbn. split; [lia|done].
Qed.

Lemma post_bind_topics {B} n f (k : list Z * frame → SM B) Q :
  (∀ xs st, (length st + n = length (stack f))%nat → post (k (xs, set_stack f st)) Q) → post (pop_topics n f ≫= k) Q.
Proof. intros Hk. eapply post_bind; [apply pop_topics_post|]. intros [xs f'] (st & Hl & ->). by apply Hk. Qed.

End Calls.

Ltac quiet_step :=
  match goal with
  | |- post (mret _) _ => apply post_ret
  | |- post (done _) _ => apply post_ret
  | |- post (fail_ _ _) _ => apply post_ret
  | |- post panic _ => apply post_panic
  | |- post (pop _ ≫= _) _ => apply post_bind_pop; intros ? ? ?
  | |- post (write_mem _ _ _ _ ≫= _) _ => apply post_bind_write; intros ?
  | |- post (pop_topics _ _ ≫= _) _ => apply post_bind_topics; intros ? ? ?
  | |- post (_ ≫= _) _ => apply post_any; intros ?
  | |- post (if ?b then _ else _) _ => destruct b
  | |- post (match ?x with _ => _ end) _ => destruct x
  end.

Ltac solve_quiet :=
  intros evm c f; repeat (cbv beta zeta; quiet_step);
  cbn [stack set_stack push set_mem set_pc f_gas set_gas] in *; simplify_eq; (split_and!; [done|done|]);
  intros ?; try done; cbn [length] in *; repeat match goal with H : stack f = _ |- _ => rewrite H end; cbn [length]; try lia.

Section Instructions.
Context {BE : Backend} {IN : Interpreter} {LW : InterpreterLaws}.

Lemma unary_quiet op : quiet 1 1 (unary op).
Proof. unfold unary. solve_quiet. Qed.

Lemma binary_quiet op : quiet 2 1 (binary op).
Proof. unfold binary. solve_quiet. Qed.

Lemma ternary_quiet op : quiet 3 1 (ternary op).
Proof. unfold ternary. solve_quiet. Qed.

Lemma pushes_quiet v : quiet 0 1 (pushes v).
Proof. unfold pushes. solve_quiet. Qed.

Lemma makeDup_quiet n : (1 ≤ n)%nat → quiet n (n + 1) (makeDup n).
Proof.
  intros Hn evm c f. unfold makeDup, dup. apply (post_bind _ _ (λ f', f_gas f' = f_gas f ∧ length (stack f') = S (length (stack f)))).
  - apply post_any. intros x. by apply post_ret.
  - intros f' [E1 E2]. apply post_ret. split_and!; [done|done|]. intros _. rewrite E2. lia.
Qed.

Lemma makeSwap_quiet n : quiet (n + 1) (n + 1) (makeSwap n).
Proof.
  intros evm c f. unfold makeSwap, swap. apply (post_bind _ _ (λ f', f_gas f' = f_gas f ∧ length (stack f') = length (stack f))).
  - apply post_any. intros x. apply post_any. intros y. apply post_ret. cbn. by rewrite !length_insert.
  - intros f' [E1 E2]. apply post_ret. by rewrite E2.
Qed.

Lemma makeLog_quiet n : quiet (n + 2) 0 (makeLog n).
Proof. unfold makeLog. solve_quiet. Qed.

Lemma u64_le x : 0 <= x → 0 <= u64 x <= x.
Proof. intros Hx. split; [apply u64_range|]. by apply Z.mod_le. Qed.

(** ** Instructions and journaled operations *)

Lemma panic_framed {A} : framed (A := A) panic.
Proof. by intros s0 id s a s'. Qed.

Lemma lift_framed {A} (x : option A) : framed (lift x).
Proof. destruct x; [apply framed_ret|apply panic_framed]. Qed.

Lemma object_framed {A} a (k : option stateObject → SM A) :
  framed (k None) →
  (∀ o s v s', swf s → live s a = Some o → k (Some o) s = Some (v, s') → reach s s') →
  framed (o ← getStateObject a; k o).
Proof.
  intros Hn Hk s0 id s v s' Hs (o & s1 & E1 & E2)%SM_bind_Some. rewrite getStateObject_run in E1. injection E1 as <- <-.
  pose proof (reach_cached a s (si_swf _ _ _ Hs)) as Hc. pose proof (since_write _ _ _ _ Hs Hc) as Hs1.
  destruct (live s a) as [o|] eqn:El; [|by eapply Hn].
  eapply since_write; [exact Hs1|]. eapply Hk; [apply (r_swf _ _ Hc)| |exact E2]. unfold live in *. by rewrite eff_cached.
Qed.

Lemma GetState_framed a k : framed (GetState a k).
Proof. apply object_framed; [apply framed_ret|]. intros o s v s' W Hl E. by apply (GetState_reach a o k s v s' W Hl E). Qed.

Lemma GetCommittedState_framed a k : framed (GetCommittedState a k).
Proof. apply object_framed; [apply framed_ret|]. intros o s v s' W Hl E. by apply (GetCommittedState_reach a o k s v s' W Hl E). Qed.

Lemma SetState_framed a k v : framed (SetState a k v).
Proof. apply framed_reach. intros s [] s' W. by apply SetState_reach. Qed.
Lemma Suicide_framed a : framed (Suicide a).
Proof. apply framed_reach. intros s b s' W. by apply Suicide_reach. Qed.
Lemma AddRefund_framed g : framed (AddRefund g).
Proof. apply framed_reach. intros s [] s' W. by apply AddRefund_reach. Qed.
Lemma SubRefund_framed g : framed (SubRefund g).
Proof. apply framed_reach. intros s [] s' W. by apply SubRefund_reach. Qed.
Lemma AddLog_framed lg : framed (AddLog lg).
Proof. apply framed_reach. intros s [] s' W. by apply AddLog_reach. Qed.
Lemma AddPreimage_framed h b : framed (AddPreimage h b).
Proof. apply framed_reach. intros s [] s' W. by apply AddPreimage_reach. Qed.

Lemma pop_framed f : framed (pop f).
Proof. unfold pop. destruct (stack f); [apply panic_framed|apply framed_ret]. Qed.

Lemma write_mem_framed f o n v : framed (write_mem f o n v).
Proof. apply framed_bind; [apply lift_framed|intros m; apply framed_ret]. Qed.

Lemma pop_topics_framed n f : framed (pop_topics n f).
Proof.
  revert f. induction n as [|n IH]; intros f; cbn [pop_topics]; [apply framed_ret|].
  apply framed_bind; [apply pop_framed|intros [x f']]. apply framed_bind; [apply IH|intros [xs f'']; apply framed_ret].
Qed.

Lemma after_call_framed f o n r : framed (after_call f o n r).
Proof.
  destruct r as [[ret g] err]. unfold after_call. apply framed_bind; [|intros f'; apply framed_ret].
  destruct (_ || _); [apply write_mem_framed|apply framed_ret].
Qed.

End Instructions.

Ltac framed_step :=
  match goal with
  | |- framed (mret _) => apply framed_ret
  | |- framed (done _) => apply framed_ret
  | |- framed (fail_ _ _) => apply framed_ret
  | |- framed (lift _) => apply lift_framed
  | |- framed (read_mem _ _ _) => apply lift_framed
  | |- framed panic => apply panic_framed
  | |- framed (pop _) => apply pop_framed
  | |- framed (dup _ _) => unfold dup
  | |- framed (swap _ _) => unfold swap
  | |- framed (write_mem _ _ _ _) => apply write_mem_framed
  | |- framed (pop_topics _ _) => apply pop_topics_framed
  | |- framed (GetBalance _) => apply read_framed
  | |- framed (GetNonce _) => apply read_framed
  | |- framed (GetCodeHash _) => apply read_framed
  | |- framed (GetCodeSize _) => apply read_framed
  | |- framed (Empty _) => apply read_framed
  | |- framed (Exist _) => apply read_framed
  | |- framed (HasSuicided _) => apply read_framed
  | |- framed (GetCode _) => apply Code_framed
  | |- framed (GetState _ _) => apply GetState_framed
  | |- framed (GetCommittedState _ _) => apply GetCommittedState_framed
  | |- framed (SetState _ _ _) => apply SetState_framed
  | |- framed (AddBalance _ _) => apply AddBalance_framed
  | |- framed (Suicide _) => apply Suicide_framed
  | |- framed (AddRefund _) => apply AddRefund_framed
  | |- framed (SubRefund _) => apply SubRefund_framed
  | |- framed (AddLog _) => apply AddLog_framed
  | |- framed (AddPreimage _ _) => apply AddPreimage_framed
  | |- framed (after_call _ _ _ _) => apply after_call_framed
  | |- framed (Call ?e ?c ?a ?i ?g ?v) => apply (message_call_framed (KCall v) e c a i g)
  | |- framed (CallCode ?e ?c ?a ?i ?g ?v) => apply (message_call_framed (KCallCode v) e c a i g)
  | |- framed (DelegateCall ?e ?c ?a ?i ?g) => apply (message_call_framed KDelegateCall e c a i g)
  | |- framed (StaticCall ?e ?c ?a ?i ?g) => apply (message_call_framed KStaticCall e c a i g)
  | |- framed (Create _ _ _ _ _) => apply Create_framed
  | |- framed (Create2 _ _ _ _ _ _) => apply Create2_framed
  | |- framed (_ ≫= _) => apply framed_bind; [|intros ?]
  | |- framed (if ?b then _ else _) => destruct b
  | |- framed (match ?x with _ => _ end) => destruct x
  end.

Ltac solve_framed := intros; repeat (cbv beta zeta; framed_step).

Section Framed.
Context {BE : Backend} {IN : Interpreter} {LW : InterpreterLaws}.

Definition exec_framed (ex : executionFunc) : Prop := ∀ evm c f, framed (ex evm c f).
Definition gas_framed (dyn : gasFunc) : Prop := ∀ evm c f n, framed (dyn evm c f n).

Lemma unary_framed op : exec_framed (unary op).
Proof. unfold exec_framed, unary. solve_framed. Qed.
Lemma binary_framed op : exec_framed (binary op).
Proof. unfold exec_framed, binary. solve_framed. Qed.
Lemma ternary_framed op : exec_framed (ternary op).
Proof. unfold exec_framed, ternary. solve_framed. Qed.
Lemma pushes_framed v : exec_framed (pushes v).
Proof. unfold exec_framed, pushes. solve_framed. Qed.
Lemma makeLog_framed n : exec_framed (makeLog n).
Proof. unfold exec_framed, makeLog. solve_framed. Qed.
Lemma makeDup_framed n : exec_framed (makeDup n).
Proof. unfold exec_framed, makeDup. solve_framed. Qed.
Lemma makeSwap_framed n : exec_framed (makeSwap n).
Proof. unfold exec_framed, makeSwap. solve_framed. Qed.
Lemma opCall_framed : exec_framed opCall.
Proof. unfold exec_framed, opCall. solve_framed. Qed.
Lemma opCreate_framed : exec_framed opCreate.
Proof. unfold exec_framed, opCreate. solve_framed. Qed.

Lemma pure_framed : gas_framed pureMemoryGascost.
Proof. unfold gas_framed, pureMemoryGascost. solve_framed. Qed.
Lemma memory_and_words_framed n p : gas_framed (memory_and_words n p).
Proof. unfold gas_framed, memory_and_words, pureMemoryGascost. solve_framed. Qed.
Lemma net_sstore_framed a b c d e f g : gas_framed (net_sstore a b c d e f g).
Proof. unfold gas_framed, net_sstore. solve_framed. Qed.
Lemma with_call_gas_framed evm f g : framed (with_call_gas evm f g).
Proof. unfold with_call_gas. solve_framed. Qed.

(** ** Dynamic gas *)

(** A cost covers what the instruction may give back, and [least] more. *)
Definition gas_spec (extra : frame → Z) (least : Z) (dyn : gasFunc) : Prop :=
  ∀ evm c f n, post (dyn evm c f n) (λ '(cost, f'), f_gas f' = f_gas f ∧ stack f' = stack f ∧
    ∀ k, cost = Some k → 0 <= extra f' ∧ extra f' + least <= k).

Lemma add_gas_exact gas x r : add_gas (Some gas) x = Some r → is_u64 gas → is_u64 x → r = gas + x ∧ is_u64 r.
Proof.
  unfold add_gas, SafeAdd. cbn. destruct (Z.ltb_spec (max_u64 - gas) x); [done|]. intros [= <-] [? ?] [? ?].
  unfold max_u64 in *. assert (Hr : is_u64 (gas + x)) by (unfold is_u64; lia). by rewrite (u64_small _ Hr).
Qed.

Lemma add_gas_None x : add_gas None x = None.
Proof. done. Qed.

Lemma memoryGasCost_u64 m n k m' : memoryGasCost m n = (Some k, m') → is_u64 k.
Proof.
  unfold memoryGasCost. repeat case_match; intros [= <- <-]; try apply u64_range; unfold is_u64; by split.
Qed.

Lemma pure_post evm c f n :
  post (pureMemoryGascost evm c f n) (λ '(cost, f'), f_gas f' = f_gas f ∧ stack f' = stack f ∧ callGasTemp f' = callGasTemp f ∧
    ∀ k, cost = Some k → is_u64 k).
Proof.
  unfold pureMemoryGascost. destruct (memoryGasCost (mem f) n) as [[k|] m] eqn:E; apply post_ret; split_and!; try done.
  intros k' [= <-]. by eapply memoryGasCost_u64.
Qed.

Lemma pure_gas : gas_spec no_extra 0 pureMemoryGascost.
Proof.
  intros evm c f n. eapply post_weaken; [apply pure_post|]. intros [cost f'] (H1 & H2 & _ & H3). split_and!; try done.
  intros k Hk. apply H3 in Hk. unfold no_extra, is_u64 in *. lia.
Qed.

Lemma word_gas_u64 size price k : word_gas size price = Some k → is_u64 k.
Proof.
  unfold word_gas, SafeMul. destruct (negb _); [done|]. destruct (_ || _); [by intros [= <-]|].
  destruct (_ <? _); [done|]. intros [= <-]. apply u64_range.
Qed.

Lemma memory_and_words_gas n p : gas_spec no_extra 0 (memory_and_words n p).
Proof.
  intros evm c f sz. unfold memory_and_words. eapply post_bind; [apply pure_post|]. intros [cost f'] (H1 & H2 & _ & H3).
  destruct cost as [k|]; [|by apply post_ret]. apply post_any. intros size. apply post_ret. split_and!; try done. intros k'.
  destruct (word_gas size p) as [w|] eqn:Ew; [|done]. intros Ek. apply add_gas_exact in Ek as [_ [? ?]]; [|by apply H3|by eapply word_gas_u64].
  unfold no_extra. lia.
Qed.

Lemma makeGasLog_gas n : gas_spec no_extra 1 (makeGasLog n).
Proof.
  intros evm c f sz. unfold makeGasLog. apply post_any. intros size. destruct (negb _); [by apply post_ret|].
  eapply post_bind; [apply pure_post|]. intros [cost f'] (H1 & H2 & _ & H3). destruct (SafeMul size LogDataGas) as [w ov] eqn:Ew.
  apply post_ret. split_and!; try done. intros k. destruct ov; [done|]. destruct cost as [g|]; [|done].
  destruct (add_gas (Some g) LogGas) as [g1|] eqn:E1; [|done]. apply add_gas_exact in E1 as [-> U1]; [|by apply H3|done].
  destruct (add_gas _ (u64 (n * LogTopicGas))) as [g2|] eqn:E2; [|done].
  apply add_gas_exact in E2 as [-> U2]; [|done|apply u64_range]. intros E3.
  assert (is_u64 w) by (unfold SafeMul in Ew; destruct (_ || _); [injection Ew as <-; by split|injection Ew as <- _; apply u64_range]).
  apply add_gas_exact in E3 as [-> _]; [|done|done]. pose proof (u64_range (n * LogTopicGas)). specialize (H3 g eq_refl).
  unfold no_extra, is_u64, LogGas in *. lia.
Qed.

Lemma gas_exp_gas p : gas_spec no_extra 1 (gas_exp p).
Proof.
  intros evm c f n. unfold gas_exp. apply post_any. intros x. apply post_ret. split_and!; try done. intros k E.
  apply add_gas_exact in E as [-> _]; [|apply u64_range|done]. pose proof (u64_range ((BitLen x + 7) / 8 * p)).
  unfold no_extra, is_u64, ExpGas in *. lia.
Qed.

Lemma net_sstore_gas a b c d e g h :
  0 < a → 0 < b → 0 < c → 0 < d → gas_spec no_extra 1 (net_sstore a b c d e g h).
Proof.
  intros Ha Hb Hc Hd evm ct f n. unfold net_sstore, no_extra. repeat (cbv beta zeta; quiet_step); split_and!; try done; intros k [= <-]; lia.
Qed.

Lemma gasSStore_gas : gas_spec no_extra 1 gasSStore.
Proof.
  intros evm c f n. unfold gasSStore. destruct (_ || _); [|by apply net_sstore_gas].
  unfold no_extra. repeat (cbv beta zeta; quiet_step); split_and!; try done; by intros k [= <-].
Qed.

Lemma gasSStoreEIP2200_gas : gas_spec no_extra 1 gasSStoreEIP2200.
Proof. intros evm c f n. unfold gasSStoreEIP2200. destruct (_ <=? _); [by apply post_ret|by apply net_sstore_gas]. Qed.

Lemma gasSelfdestruct_gas : gas_spec no_extra 0 gasSelfdestruct.
Proof.
  intros evm c f n. unfold gasSelfdestruct. eapply (post_bind _ _ (λ g, 0 <= g)).
  - destruct (IsEIP150 _); [|by apply post_ret]. apply post_any. intros a. apply post_any. intros b. apply post_ret. by destruct b.
  - intros g Hg. do 2 (apply post_any; intros ?). apply post_ret. split_and!; try done. intros k [= <-]. unfold no_extra. lia.
Qed.

(** ** The gas of the calls *)

(** The gas noted for the call; negative only when none was noted. *)
Definition temp_extra (f : frame) : Z := callGasTemp f.

(** A call that transfers value gives a stipend on top. *)
Definition stipend (f : frame) : Z := match stack f !! 2%nat with Some v => if v =? 0 then 0 else CallStipend | None => 0 end.
Definition value_extra (f : frame) : Z := if 0 <=? callGasTemp f then callGasTemp f + stipend f else callGasTemp f.

Lemma callGas_u64 b have base cost temp : callGas b have base cost = Some temp → is_u64 temp.
Proof.
  unfold callGas. destruct (b && _); [intros [= <-]; apply u64_range|]. destruct (IsUint64 cost) eqn:E; [|done].
  intros [= <-]. unfold IsUint64 in E. unfold is_u64. lia.
Qed.

Lemma with_call_gas_post evm f gas :
  (∀ k, gas = Some k → is_u64 k) →
  post (with_call_gas evm f gas) (λ '(cost, f'), f_gas f' = f_gas f ∧ stack f' = stack f ∧
    ∀ k, cost = Some k → ∃ base, gas = Some base ∧ k = base + callGasTemp f' ∧ 0 <= callGasTemp f').
Proof.
  intros Hu. unfold with_call_gas. destruct gas as [base|]; [|by apply post_ret]. apply post_any. intros cost.
  destruct (callGas _ _ _ _) as [temp|] eqn:Ec; [|by apply post_ret]. apply callGas_u64 in Ec. apply post_ret. split_and!; try done.
  intros k Ek. apply add_gas_exact in Ek as [-> _]; [|by apply Hu|done]. exists base. split_and!; try done. apply Ec.
Qed.

Lemma plain_call_gas (dyn : gasFunc) :
  (∀ evm c f n, dyn evm c f n = ('(gas, f) ← pureMemoryGascost evm c f n; with_call_gas evm f gas)) → gas_spec temp_extra 0 dyn.
Proof.
  intros E evm c f n. rewrite E. eapply post_bind; [apply pure_post|]. intros [cost f1] (H1 & H2 & _ & H3).
  eapply post_weaken; [by apply with_call_gas_post|]. intros [k f2] (H4 & H5 & H6). split_and!; [congruence..|].
  intros k' Hk. destruct (H6 k' Hk) as (base & Eb & -> & Ht). specialize (H3 _ Eb). unfold temp_extra, is_u64 in *. lia.
Qed.

(** The base price of a call with value is more than the stipend. *)
Lemma value_call_gas (f f' : frame) cost base value :
  stack f' !! 2%nat = Some value → (if negb (value =? 0) then CallValueTransferGas else 0) <= base →
  cost = base + callGasTemp f' → 0 <= callGasTemp f' → 0 <= value_extra f' ∧ value_extra f' + 0 <= cost.
Proof.
  intros Hv Hb -> Ht. unfold value_extra, stipend. rewrite (proj2 (Z.leb_le _ _) Ht), Hv. unfold CallValueTransferGas, CallStipend in *. destruct (value =? 0); cbn [negb] in Hb; lia.
Qed.

Lemma gasCallCode_gas : gas_spec value_extra 0 gasCallCode.
Proof.
  intros evm c f n. unfold gasCallCode. eapply post_bind; [apply pure_post|]. intros [cost f1] (H1 & H2 & _ & H3).
  destruct cost as [m|]; [|by apply post_ret]. apply (post_bind _ _ (λ v, stack f1 !! 2%nat = Some v)); [by apply post_lift|].
  intros value Hv. specialize (H3 m eq_refl). set (p := if negb (value =? 0) then _ else _).
  assert (Hp : is_u64 p) by (unfold p; destruct (negb _); by split).
  eapply post_weaken; [apply with_call_gas_post|].
  { intros k Ek. by apply add_gas_exact in Ek as [_ ?]. }
  intros [k f2] (H4 & H5 & H6). split_and!; [congruence..|]. intros k' Hk. destruct (H6 k' Hk) as (base & Eb & Ek & Ht).
  apply add_gas_exact in Eb as [-> _]; [|done|done]. eapply (value_call_gas f f2); [by rewrite H5| |exact Ek|done].
  fold p. destruct H3. lia.
Qed.

Lemma gasCall_gas : gas_spec value_extra 0 gasCall.
Proof.
  intros evm c f n. unfold gasCall. apply (post_bind _ _ (λ v, stack f !! 2%nat = Some v)); [by apply post_lift|]. intros value Hv.
  do 2 (apply post_any; intros ?). eapply post_bind; [apply pure_post|]. intros [cost f1] (H1 & H2 & _ & H3).
  match goal with |- context [add_gas (Some ?g)] => set (p := g) end.
  assert (Hp : is_u64 p ∧ (if negb (value =? 0) then CallValueTransferGas else 0) <= p).
  { unfold p, CallValueTransferGas, CallNewAccountGas, is_u64, two64. destruct a0, (negb (value =? 0)); lia. }
  destruct Hp as [Hp Hb]. eapply post_weaken; [apply with_call_gas_post|].
  { intros k Ek. destruct cost as [m|]; [|done]. apply add_gas_exact in Ek as [_ ?]; [done|done|by apply H3]. }
  intros [k f2] (H4 & H5 & H6). split_and!; [congruence..|]. intros k' Hk. destruct (H6 k' Hk) as (base & Eb & Ek & Ht).
  destruct cost as [m|]; [|done]. specialize (H3 m eq_refl). apply add_gas_exact in Eb as [-> _]; [|done|done].
  eapply (value_call_gas f f2); [by rewrite H5, H2| |exact Ek|done]. destruct H3. lia.
Qed.

(** ** The calls themselves *)

Lemma after_call_post f o n r g :
  0 <= f_gas f → within g r →
  post (after_call f o n r) (λ '(_, e, f'), 0 <= f_gas f' <= f_gas f + g ∧ e = None ∧ length (stack f') = S (length (stack f))).
Proof.
  destruct r as [[ret rg] err]. intros Hf [Hr1 Hr2]. cbn in Hr1, Hr2. unfold after_call.
  apply (post_bind _ _ (λ f', f_gas f' = f_gas f ∧ length (stack f') = S (length (stack f)))).
  - destruct (_ || _); [|by apply post_ret]. unfold write_mem. apply post_any. intros m. by apply post_ret.
  - intros f' [E1 E2]. apply post_ret. cbn. rewrite E1. pose proof (u64_le (f_gas f + rg)). split_and!; [lia..|done|done].
Qed.

Lemma call_post k evm caller addr input g f o n :
  0 <= f_gas f → 0 <= g →
  post (r ← message_call k evm caller addr input g; after_call f o n r)
    (λ '(_, e, f'), 0 <= f_gas f' <= f_gas f + g ∧ e = None ∧ length (stack f') = S (length (stack f))).
Proof.
  intros Hf Hg. eapply post_bind; [by apply message_call_gas|]. intros r Hr. by apply after_call_post.
Qed.

Ltac pops := repeat (apply post_bind_pop; intros ? ? ?; cbv beta iota); cbn [stack set_stack callGasTemp f_gas] in *; simplify_eq.

Lemma stipend_gas f x y v st :
  stack f = x :: y :: v :: st → 0 <= value_extra f →
  0 <= (if negb (U256 v =? 0) then u64 (callGasTemp f + CallStipend) else callGasTemp f) <= value_extra f.
Proof.
  intros E H0. unfold value_extra, stipend in *. rewrite E in *. cbn [lookup list_lookup] in *.
  destruct (Z.leb_spec 0 (callGasTemp f)) as [Ht|Ht]; [|lia]. destruct (Z.eqb_spec v 0) as [->|Hv].
  - change (U256 0 =? 0) with true. cbn [negb]. lia.
  - pose proof (u64_le (callGasTemp f + CallStipend)). unfold CallStipend in *. destruct (negb _); lia.
Qed.

(** The four calls, from the frame before the pops. *)
Lemma call_exec (pops : nat) k evm caller addr input g f f1 o n :
  f_gas f1 = f_gas f → (length (stack f1) + pops = length (stack f))%nat → 0 <= f_gas f → 0 <= g →
  post (r ← message_call k evm caller addr input g; after_call f1 o n r) (λ '(_, e, f'),
    0 <= f_gas f' <= f_gas f + g ∧ e ≠ Some out_of_fuel ∧ (e = None → length (stack f') + pops = length (stack f) + 1)%nat).
Proof.
  intros E1 E2 Hf Hg. rewrite <- E1 in *. eapply post_weaken; [by apply call_post|].
  intros [[r e] f'] (H1 & -> & H2). split_and!; [lia..|done|]. intros _. lia.
Qed.

Lemma opCall_spec : exec_spec 7 1 value_extra opCall.
Proof.
  intros evm c f Hf Hx. unfold opCall. pops. apply post_any. intros args.
  destruct (stipend_gas f _ _ _ _ ltac:(eassumption) Hx) as [G1 G2]. cbn [callGasTemp set_stack].
  eapply post_weaken; [eapply (call_exec 7 (KCall _) _ _ _ _ _ f); [done| |done|exact G1]|].
  - match goal with H : stack f = _ |- _ => rewrite H end. cbn. lia.
  - intros [[r e] f'] (H1 & H2 & H3). split_and!; [lia..|done|done].
Qed.

Lemma opCallCode_spec : exec_spec 7 1 value_extra opCallCode.
Proof.
  intros evm c f Hf Hx. unfold opCallCode. pops. apply post_any. intros args.
  destruct (stipend_gas f _ _ _ _ ltac:(eassumption) Hx) as [G1 G2]. cbn [callGasTemp set_stack].
  eapply post_weaken; [eapply (call_exec 7 (KCallCode _) _ _ _ _ _ f); [done| |done|exact G1]|].
  - match goal with H : stack f = _ |- _ => rewrite H end. cbn. lia.
  - intros [[r e] f'] (H1 & H2 & H3). split_and!; [lia..|done|done].
Qed.

Lemma opDelegateCall_spec : exec_spec 6 1 temp_extra opDelegateCall.
Proof.
  intros evm c f Hf Hx. unfold opDelegateCall. pops. apply post_any. intros args.
  apply (call_exec 6 KDelegateCall _ _ _ _ _ f); [done| |done|done].
  match goal with H : stack f = _ |- _ => rewrite H end. cbn. lia.
Qed.

Lemma opStaticCall_spec : exec_spec 6 1 temp_extra opStaticCall.
Proof.
  intros evm c f Hf Hx. unfold opStaticCall. pops. apply post_any. intros args.
  apply (call_exec 6 KStaticCall _ _ _ _ _ f); [done| |done|done].
  match goal with H : stack f = _ |- _ => rewrite H end. cbn. lia.
Qed.

(** Creation keeps a part of the gas and hands the rest on. *)
Lemma use_gas_split f g : 0 <= g <= f_gas f → f_gas (use_gas f g) = f_gas f - g ∧ stack (use_gas f g) = stack f.
Proof. intros Hg. unfold use_gas, UseGas. destruct (Z.ltb_spec (f_gas f) g); [lia|]. done. Qed.

Lemma sixty_fourth g : 0 <= g → 0 <= g - g / 64 <= g.
Proof. intros Hg. pose proof (Z.div_pos g 64 Hg). pose proof (Z.div_le_upper_bound g 64 g). lia. Qed.

Lemma opCreate_spec : exec_spec 3 1 no_extra opCreate.
Proof.
  intros evm c f Hf Hx. unfold opCreate. pops. apply post_any. intros input. unfold no_extra in *.
  set (f1 := set_stack _ _). set (g := if IsEIP150 _ then _ else _).
  assert (Hg : 0 <= g <= f_gas f) by (unfold g, f1; cbn; pose proof (sixty_fourth (f_gas f) Hf); destruct (IsEIP150 _); lia).
  destruct (use_gas_split f1 g Hg) as [E1 E2]. eapply post_bind; [apply Create_gas; lia|].
  intros [[[res addr] rg] err] [Hr1 Hr2]. cbn in Hr1, Hr2. cbv beta iota zeta. apply post_ret.
  match goal with |- context [set_gas ?f2 _] => assert (Hf2 : f_gas f2 = f_gas f - g ∧ length (stack f2) = S (length (stack f1))) end.
  { repeat case_match; cbn; by rewrite E1, E2. }
  destruct Hf2 as [-> Hl]. cbn [f_gas set_gas stack]. pose proof (u64_le (f_gas f - g + rg)). split_and!; [lia..|done|].
  intros _. rewrite Hl. cbn. match goal with H : stack f = _ |- _ => rewrite H end. cbn. lia.
Qed.

Lemma opCreate2_spec : exec_spec 4 1 no_extra opCreate2.
Proof.
  intros evm c f Hf Hx. unfold opCreate2. pops. apply post_any. intros input. unfold no_extra in *.
  set (f1 := set_stack _ _). set (g := _ - _ / 64).
  assert (Hg : 0 <= g <= f_gas f) by (apply (sixty_fourth (f_gas f) Hf)).
  destruct (use_gas_split f1 g Hg) as [E1 E2]. eapply post_bind; [apply Create2_gas; lia|].
  intros [[[res addr] rg] err] [Hr1 Hr2]. cbn in Hr1, Hr2. cbv beta iota zeta. apply post_ret.
  match goal with |- context [set_gas ?f2 _] => assert (Hf2 : f_gas f2 = f_gas f - g ∧ length (stack f2) = S (length (stack f1))) end.
  { repeat case_match; cbn; by rewrite E1, E2. }
  destruct Hf2 as [-> Hl]. cbn [f_gas set_gas stack]. pose proof (u64_le (f_gas f - g + rg)). split_and!; [lia..|done|].
  intros _. rewrite Hl. cbn. match goal with H : stack f = _ |- _ => rewrite H end. cbn. lia.
Qed.

(** ** Operations and instruction sets *)

(** Only the stack and the gas noted for a call count. *)
Definition local (extra : frame → Z) : Prop :=
  ∀ f f', stack f' = stack f → callGasTemp f' = callGasTemp f → extra f' = extra f.

Definition ends (o : operation) : bool := halts (flags o) || reverts (flags o).

(** What an entry of a jump table says of its instruction is true, and the
    instruction costs something unless it ends the frame. *)
Record op_fields (o : operation) (pops pushes : nat) (extra : frame → Z) (least : Z) : Prop := {
  of_min : minStack o = Z.of_nat pops;
  of_max : maxStack o = StackLimit + Z.of_nat pops - Z.of_nat pushes;
  of_local : local extra;
  of_spec : exec_spec pops pushes extra (execute o);
  of_framed : exec_framed (execute o);
  of_gas : match dynamicGas o with
           | None => (∀ f, extra f = 0) ∧ least = 0
           | Some dyn => gas_spec extra least dyn ∧ gas_framed dyn
           end;
  of_const : 0 <= constantGas o;
  of_least : 0 <= least;
  of_ends : ends o = false → 1 <= constantGas o + least;
}.

Inductive op_ok (o : operation) : Prop :=
  op_ok_intro (pops pushes : nat) (extra : frame → Z) (least : Z) : op_fields o pops pushes extra least → op_ok o.

Lemma local_none : local no_extra.
Proof. done. Qed.
Lemma local_temp : local temp_extra.
Proof. by intros f f' _. Qed.
Lemma local_value : local value_extra.
Proof. intros f f' E1 E2. unfold value_extra, stipend. by rewrite E1, E2. Qed.

(** Instructions without dynamic gas. *)
Lemma plain_ok ex gas (pops pushes : nat) k :
  quiet pops pushes ex → exec_framed ex → (if halts k || reverts k then 0 <= gas else 1 <= gas) →
  op_fields (mk_op ex gas None (Z.of_nat pops) (Z.of_nat pushes) None k) pops pushes no_extra 0.
Proof.
  intros Hq Hf Hg. split; try done; [by apply quiet_spec| |].
  - cbn. destruct (_ || _); lia.
  - unfold ends. cbn. intros E. rewrite E in Hg. lia.
Qed.

(** Instructions with dynamic gas that do not call. *)
Lemma dynamic_ok ex gas dyn least (pops pushes : nat) ms k :
  quiet pops pushes ex → exec_framed ex → gas_spec no_extra least dyn → gas_framed dyn → 0 <= gas → 0 <= least →
  (halts k || reverts k = false → 1 <= gas + least) →
  op_fields (mk_op ex gas (Some dyn) (Z.of_nat pops) (Z.of_nat pushes) ms k) pops pushes no_extra least.
Proof. intros Hq Hf Hd Hdf Hg Hl He. split; try done. by apply quiet_spec. Qed.

(** Calls and creations. *)
Lemma calling_ok ex gas dyn extra (pops pushes : nat) ms k :
  exec_spec pops pushes extra ex → exec_framed ex → local extra → gas_spec extra 0 dyn → gas_framed dyn → 1 <= gas →
  op_fields (mk_op ex gas (Some dyn) (Z.of_nat pops) (Z.of_nat pushes) ms k) pops pushes extra 0.
Proof. intros He Hf Hl Hd Hdf Hg. split; try done; cbn; lia. Qed.

Definition table_ok (jt : JumpTable) : Prop := Forall (λ '(_, o), op_ok o) jt.

Lemma get_op_ok jt op o : table_ok jt → get_op jt op = Some o → op_ok o.
Proof.
  intros Ht. induction Ht as [|[k o'] jt Ho Ht IH]; [done|]. cbn. destruct (_ =? _); [by intros [= <-]|done].
Qed.

Lemma set_constantGas_ok op gas jt : 1 <= gas → table_ok jt → table_ok (set_constantGas op gas jt).
Proof.
  intros Hg Ht. unfold set_constantGas. destruct (get_op jt op) as [o|] eqn:E; [|done]. constructor; [|done].
  destruct (get_op_ok _ _ _ Ht E) as [pops pushes extra least [H1 H2 H3 H4 H5 H6 H7 H8 H9]].
  apply (op_ok_intro _ pops pushes extra least). split; try done; cbn; lia.
Qed.

Lemma set_dynamicGas_ok op dyn least jt :
  1 <= least → gas_spec no_extra least dyn → gas_framed dyn →
  (∀ o, get_op jt op = Some o → ∃ pops pushes : nat, minStack o = Z.of_nat pops ∧ maxStack o = StackLimit + Z.of_nat pops - Z.of_nat pushes ∧
    quiet pops pushes (execute o)) →
  table_ok jt → table_ok (set_dynamicGas op dyn jt).
Proof.
  intros Hl Hd Hf Hq Ht. unfold set_dynamicGas. destruct (get_op jt op) as [o|] eqn:E; [|done]. constructor; [|done].
  destruct (Hq o eq_refl) as (pops & pushes & E1 & E2 & Hqo).
  destruct (get_op_ok _ _ _ Ht E) as [pops' pushes' extra least' [H1 H2 H3 H4 H5 H6 H7 H8 H9]].
  apply (op_ok_intro _ pops pushes no_extra least). split; try done; [by apply quiet_spec|lia|cbn; lia].
Qed.

Lemma makePush_quiet size n : quiet 0 1 (makePush size n).
Proof. unfold makePush. solve_quiet. Qed.
Lemma makePush_framed size n : exec_framed (makePush size n).
Proof. unfold exec_framed, makePush. solve_framed. Qed.

Lemma makeGasLog_framed n : gas_framed (makeGasLog n).
Proof. unfold gas_framed, makeGasLog, pureMemoryGascost. solve_framed. Qed.
Lemma gas_exp_framed p : gas_framed (gas_exp p).
Proof. unfold gas_framed, gas_exp. solve_framed. Qed.
Lemma gasSStore_framed : gas_framed gasSStore.
Proof. intros evm c f n. unfold gasSStore. destruct (_ || _); [solve_framed|apply net_sstore_framed]. Qed.
Lemma gasSStoreEIP2200_framed : gas_framed gasSStoreEIP2200.
Proof. intros evm c f n. unfold gasSStoreEIP2200. destruct (_ <=? _); [apply framed_ret|apply net_sstore_framed]. Qed.
Lemma gasSelfdestruct_framed : gas_framed gasSelfdestruct.
Proof. unfold gas_framed, gasSelfdestruct. solve_framed. Qed.
Lemma gasCall_framed : gas_framed gasCall.
Proof. unfold gas_framed, gasCall, pureMemoryGascost, with_call_gas. solve_framed. Qed.
Lemma gasCallCode_framed : gas_framed gasCallCode.
Proof. unfold gas_framed, gasCallCode, pureMemoryGascost, with_call_gas. solve_framed. Qed.
Lemma gasDelegateCall_framed : gas_framed gasDelegateCall.
Proof. unfold gas_framed, gasDelegateCall, pureMemoryGascost, with_call_gas. solve_framed. Qed.
Lemma gasStaticCall_framed : gas_framed gasStaticCall.
Proof. unfold gas_framed, gasStaticCall, pureMemoryGascost, with_call_gas. solve_framed. Qed.

Lemma push_ops_ok : table_ok push_ops.
Proof.
  unfold table_ok, push_ops. apply Forall_fmap, Forall_forall. intros n _. cbn.
  eapply op_ok_intro, (plain_ok _ _ 0 1); [apply makePush_quiet|apply makePush_framed|done].
Qed.

Lemma dup_ops_ok : table_ok dup_ops.
Proof.
  unfold table_ok, dup_ops. apply Forall_fmap, Forall_forall. intros n Hn%elem_of_seq. cbn.
  replace (Z.of_nat n + 1) with (Z.of_nat (n + 1)) by lia.
  eapply op_ok_intro, (plain_ok _ _ n (n + 1)); [apply makeDup_quiet; lia|apply makeDup_framed|done].
Qed.

Lemma swap_ops_ok : table_ok swap_ops.
Proof.
  unfold table_ok, swap_ops. apply Forall_fmap, Forall_forall. intros n _. cbn.
  replace (Z.of_nat n + 1) with (Z.of_nat (n + 1)) by lia.
  eapply op_ok_intro, (plain_ok _ _ (n + 1) (n + 1)); [apply makeSwap_quiet|apply makeSwap_framed|done].
Qed.

Lemma log_ops_ok : table_ok log_ops.
Proof.
  unfold table_ok, log_ops. apply Forall_fmap, Forall_forall. intros n _. cbn.
  replace (Z.of_nat n + 2) with (Z.of_nat (n + 2)) by lia.
  eapply op_ok_intro, (dynamic_ok _ _ _ 1 (n + 2) 0); [apply makeLog_quiet|apply makeLog_framed|apply makeGasLog_gas|apply makeGasLog_framed|done..].
Qed.

End Framed.

Ltac head t := lazymatch t with ?f _ => head f | _ => t end.

Ltac op_quiet :=
  match goal with
  | |- quiet _ _ ?ex =>
      first [apply unary_quiet | apply binary_quiet | apply ternary_quiet | apply pushes_quiet
            | let h := head ex in unfold h; solve_quiet]
  end.

Ltac op_framed :=
  match goal with
  | |- exec_framed ?ex =>
      first [apply unary_framed | apply binary_framed | apply ternary_framed | apply pushes_framed
            | let h := head ex in unfold exec_framed, h; solve_framed]
  end.

Ltac op_gas :=
  first [apply pure_gas | apply memory_and_words_gas | apply gas_exp_gas | apply gasSStore_gas | apply gasSelfdestruct_gas].

Ltac op_gas_framed :=
  first [apply pure_framed | apply memory_and_words_framed | apply gas_exp_framed | apply gasSStore_framed | apply gasSelfdestruct_framed].

Ltac least_of dyn :=
  lazymatch dyn with gasExpFrontier => constr:(1) | gasExpEIP158 => constr:(1) | gasSStore => constr:(1) | _ => constr:(0) end.

Ltac solve_op :=
  lazymatch goal with
  | |- op_ok (mk_op opCall _ _ _ _ _ _) =>
      eapply op_ok_intro, (calling_ok _ _ _ value_extra 7 1); [apply opCall_spec|op_framed|apply local_value|apply gasCall_gas|apply gasCall_framed|done]
  | |- op_ok (mk_op opCallCode _ _ _ _ _ _) =>
      eapply op_ok_intro, (calling_ok _ _ _ value_extra 7 1); [apply opCallCode_spec|op_framed|apply local_value|apply gasCallCode_gas|apply gasCallCode_framed|done]
  | |- op_ok (mk_op opDelegateCall _ _ _ _ _ _) =>
      eapply op_ok_intro, (calling_ok _ _ _ temp_extra 6 1); [apply opDelegateCall_spec|op_framed|apply local_temp|by apply plain_call_gas|apply gasDelegateCall_framed|done]
  | |- op_ok (mk_op opStaticCall _ _ _ _ _ _) =>
      eapply op_ok_intro, (calling_ok _ _ _ temp_extra 6 1); [apply opStaticCall_spec|op_framed|apply local_temp|by apply plain_call_gas|apply gasStaticCall_framed|done]
  | |- op_ok (mk_op opCreate _ _ _ _ _ _) =>
      eapply op_ok_intro, (calling_ok _ _ _ no_extra 3 1); [apply opCreate_spec|op_framed|apply local_none|apply pure_gas|apply pure_framed|done]
  | |- op_ok (mk_op opCreate2 _ _ _ _ _ _) =>
      eapply op_ok_intro, (calling_ok _ _ _ no_extra 4 1); [apply opCreate2_spec|op_framed|apply local_none|apply memory_and_words_gas|apply memory_and_words_framed|done]
  | |- op_ok (mk_op ?ex ?g None ?p ?q None ?k) =>
      let p' := eval compute in (Z.to_nat p) in let q' := eval compute in (Z.to_nat q) in
      eapply op_ok_intro, (plain_ok ex g p' q' k); [op_quiet|op_framed|done]
  | |- op_ok (mk_op ?ex ?g (Some ?dyn) ?p ?q ?ms ?k) =>
      let p' := eval compute in (Z.to_nat p) in let q' := eval compute in (Z.to_nat q) in let l := least_of dyn in
      eapply op_ok_intro, (dynamic_ok ex g dyn l p' q' ms k); [op_quiet|op_framed|op_gas|op_gas_framed|done..]
  end.

Section Tables.
Context {BE : Backend} {IN : Interpreter} {LW : InterpreterLaws}.

Lemma frontier_ok : table_ok newFrontierInstructionSet.
Proof.
  unfold newFrontierInstructionSet. unfold table_ok. rewrite !Forall_app.
  split_and!; [|apply push_ops_ok|apply dup_ops_ok|apply swap_ops_ok|apply log_ops_ok].
  repeat (apply Forall_cons; split; [cbv beta iota; solve_op|]). apply Forall_nil_2.
Qed.

Lemma homestead_ok : table_ok newHomesteadInstructionSet.
Proof. constructor; [cbv beta iota; solve_op|apply frontier_ok]. Qed.

Lemma tangerine_ok : table_ok newTangerineWhistleInstructionSet.
Proof. unfold newTangerineWhistleInstructionSet. repeat (apply set_constantGas_ok; [done|]). apply homestead_ok. Qed.

Lemma dragon_ok : table_ok newSpuriousDragonInstructionSet.
Proof.
  apply (set_dynamicGas_ok _ _ 1); [done|apply gas_exp_gas|apply gas_exp_framed| |apply tangerine_ok].
  assert (E : get_op newTangerineWhistleInstructionSet 10 = Some (mk_op opExp 0 (Some gasExpFrontier) 2 1 None plain)) by reflexivity.
  intros o Eo. rewrite E in Eo. apply (inj Some) in Eo as <-. exists 2%nat, 1%nat. split_and!; [done|done|]. apply binary_quiet.
Qed.

Lemma byzantium_ok : table_ok newByzantiumInstructionSet.
Proof. apply Forall_app. split; [|apply dragon_ok]. repeat (apply Forall_cons; split; [cbv beta iota; solve_op|]). apply Forall_nil_2. Qed.

Lemma constantinople_ok : table_ok newConstantinopleInstructionSet.
Proof. apply Forall_app. split; [|apply byzantium_ok]. repeat (apply Forall_cons; split; [cbv beta iota; solve_op|]). apply Forall_nil_2. Qed.

Lemma istanbul_ok : table_ok newIstanbulInstructionSet.
Proof.
  apply (set_dynamicGas_ok _ _ 1); [done|apply gasSStoreEIP2200_gas|apply gasSStoreEIP2200_framed| |].
  - assert (E : get_op (enable1884 (enable1344 newConstantinopleInstructionSet)) 85 = Some (mk_op opSstore 0 (Some gasSStore) 2 0 None writing)) by reflexivity.
    intros o Eo. rewrite E in Eo. apply (inj Some) in Eo as <-. exists 2%nat, 0%nat. split_and!; [done|done|].
    change (quiet 2 0 opSstore). unfold opSstore. solve_quiet.
  - constructor; [cbv beta iota; solve_op|]. repeat (apply set_constantGas_ok; [done|]).
    constructor; [cbv beta iota; solve_op|]. apply constantinople_ok.
Qed.

Lemma instruction_set_ok r : table_ok (instruction_set r).
Proof.
  unfold instruction_set. repeat case_match;
    [apply istanbul_ok|apply constantinople_ok|apply byzantium_ok|apply dragon_ok|apply tangerine_ok|apply homestead_ok|apply frontier_ok].
Qed.

(** ** A round of the loop *)

Definition fits (f : frame) : Prop := 0 <= f_gas f ∧ Z.of_nat (length (stack f)) <= StackLimit.

Lemma UseGas_exact have gas rest : UseGas have gas = Some rest → rest = have - gas ∧ gas <= have.
Proof. unfold UseGas. destruct (Z.ltb_spec have gas); [done|]. by intros [= <-]. Qed.

Lemma pay_post o extra least evm c f :
  local extra → 0 <= constantGas o → 0 <= least → 0 <= f_gas f →
  match dynamicGas o with
  | None => (∀ f, extra f = 0) ∧ least = 0
  | Some dyn => gas_spec extra least dyn ∧ gas_framed dyn
  end →
  post (pay o evm c f) (λ p, match p with
    | inl (e, f') => e ≠ out_of_fuel ∧ 0 <= f_gas f' <= f_gas f
    | inr f' => stack f' = stack f ∧ 0 <= f_gas f' ∧ 0 <= extra f' ∧ f_gas f' + extra f' + constantGas o + least <= f_gas f
    end).
Proof.
  intros Hloc Hc Hl Hf Hdyn. unfold pay. destruct (UseGas (f_gas f) (constantGas o)) as [g|] eqn:Eu; [|apply post_ret; split; [done|lia]].
  apply UseGas_exact in Eu as [-> Hle]. apply post_any. intros [sz ov]. destruct (if ov then _ else _) as [n ov'].
  destruct ov'; [apply post_ret; cbn; split; [done|lia]|]. destruct (dynamicGas o) as [dyn|].
  - destruct Hdyn as [Hd _]. eapply post_bind; [apply Hd|]. intros [cost f1] (H1 & H2 & H3). cbn in H1, H2.
    destruct cost as [k|]; [|apply post_ret; split; [done|lia]]. destruct (H3 k eq_refl) as [H4 H5].
    destruct (UseGas (f_gas f1) k) as [g|] eqn:Eu; [|apply post_ret; split; [done|lia]]. apply UseGas_exact in Eu as [-> Hle'].
    apply post_ret. match goal with |- context [extra ?f2] => rewrite (Hloc f1 f2) by done end. cbn. split_and!; [done|lia..].
  - destruct Hdyn as [He ->]. apply post_ret. rewrite He. cbn. split_and!; [done|lia..].
Qed.

Definition round_ok (f : frame) (v : verdict) : Prop :=
  match v with
  | Halt (_, g, e) => 0 <= g <= f_gas f ∧ e ≠ Some out_of_fuel
  | Continue f' => 0 <= f_gas f' < f_gas f ∧ Z.of_nat (length (stack f')) <= StackLimit
  end.

Lemma halt_post f f' e : 0 <= f_gas f' <= f_gas f → e ≠ out_of_fuel → post (halt f' e) (round_ok f).
Proof. intros Hg He. apply post_ret. split; [done|congruence]. Qed.

Lemma finish_post o extra least pops pushes evm c f f1 :
  exec_spec pops pushes extra (execute o) → 0 <= constantGas o → 0 <= least → (ends o = false → 1 <= constantGas o + least) →
  fits f → Z.of_nat (length (stack f)) <= StackLimit + Z.of_nat pops - Z.of_nat pushes →
  stack f1 = stack f → 0 <= f_gas f1 → 0 <= extra f1 → f_gas f1 + extra f1 + constantGas o + least <= f_gas f →
  post (finish o evm c f1) (round_ok f).
Proof.
  intros He Hc Hl Hend [Hf _] Hmax Es Hf1 Hx Hle. unfold finish. eapply post_bind; [by apply He|].
  intros [[res err] f2] (G1 & G2 & G3). cbv beta iota zeta. set (f3 := if returns _ then _ else _).
  assert (E3 : f_gas f3 = f_gas f2 ∧ stack f3 = stack f2) by (unfold f3; by destruct (returns _)). destruct E3 as [Eg Est].
  destruct err as [e|]; [apply halt_post; [lia|congruence]|]. specialize (G3 eq_refl). rewrite Es in G3. unfold ends in Hend.
  destruct (reverts (flags o)); [apply post_ret; split; [lia|done]|]. rewrite orb_false_r in Hend.
  destruct (halts (flags o)); [apply post_ret; split; [lia|done]|]. specialize (Hend eq_refl).
  destruct (jumps (flags o)); apply post_ret; (split; [cbn; lia|]); cbn; rewrite Est; lia.
Qed.

Lemma step_post jt evm c f : table_ok jt → fits f → post (step jt evm c f) (round_ok f).
Proof.
  intros Ht Hf. pose proof Hf as [Hg _]. unfold step. destruct (get_op jt _) as [o|] eqn:Eo; [|apply halt_post; [lia|done]].
  destruct (get_op_ok _ _ _ Ht Eo) as [pops pushes extra least [H1 H2 H3 H4 H5 H6 H7 H8 H9]].
  destruct (Z.ltb_spec (Z.of_nat (length (stack f))) (minStack o)); [apply halt_post; [lia|done]|].
  destruct (Z.ltb_spec (maxStack o) (Z.of_nat (length (stack f)))); [apply halt_post; [lia|done]|].
  apply post_any. intros protected. destruct protected; [apply halt_post; [lia|done]|].
  eapply post_bind; [by apply (pay_post o extra least)|]. intros [[e f1]|f1].
  - intros [He Hg1]. by apply halt_post.
  - intros (E1 & E2 & E3 & E4). eapply (finish_post o extra least pops pushes); eauto. lia.
Qed.

(** ** The loop *)

Lemma loop_post fuel jt evm c f :
  table_ok jt → fits f →
  post (loop fuel jt evm c f) (λ '(_, g, e), 0 <= g <= f_gas f ∧ ((Z.to_nat (f_gas f) < fuel)%nat → e ≠ Some out_of_fuel)).
Proof.
  intros Ht. revert f. induction fuel as [|fuel IH]; intros f Hf; cbn [loop].
  - apply post_ret. destruct Hf as [Hf _]. split; [lia|lia].
  - eapply post_bind; [by apply step_post|]. intros [[[r g] e]|f'].
    + intros [H1 H2]. by apply post_ret.
    + intros [H1 H2]. destruct Hf as [Hf _]. eapply post_weaken; [apply IH; split; [lia|done]|].
      intros [[r g] e] [H3 H4]. split; [lia|]. intros Hfuel. apply H4. lia.
Qed.

Lemma pay_framed o evm c f : op_ok o → framed (pay o evm c f).
Proof.
  intros [pops pushes extra least [_ _ _ _ _ Hd _ _ _]]. unfold pay. destruct (UseGas _ _); [|apply framed_ret].
  apply framed_bind; [apply lift_framed|]. intros [sz ov]. destruct (if ov then _ else _) as [n ov']. destruct ov'; [apply framed_ret|].
  destruct (dynamicGas o) as [dyn|]; [|apply framed_ret]. apply framed_bind; [apply Hd|]. intros [[k|] f']; [|apply framed_ret].
  destruct (UseGas _ _); apply framed_ret.
Qed.

Lemma step_framed jt evm c f : table_ok jt → framed (step jt evm c f).
Proof.
  intros Ht. unfold step. destruct (get_op jt _) as [o|] eqn:Eo; [|apply framed_ret]. pose proof (get_op_ok _ _ _ Ht Eo) as Ho.
  destruct (_ <? _); [apply framed_ret|]. destruct (_ <? _); [apply framed_ret|].
  apply framed_bind; [apply lift_framed|]. intros protected. destruct protected; [apply framed_ret|].
  apply framed_bind; [by apply pay_framed|]. intros [[e f1]|f1]; [apply framed_ret|]. unfold finish.
  destruct Ho as [pops pushes extra least [_ _ _ _ Hf _ _ _ _]]. apply framed_bind; [apply Hf|]. intros [[res err] f2].
  destruct err; apply framed_ret.
Qed.

Lemma loop_framed fuel jt evm c f : table_ok jt → framed (loop fuel jt evm c f).
Proof.
  intros Ht. revert f. induction fuel as [|fuel IH]; intros f; cbn [loop]; [apply framed_ret|].
  apply framed_bind; [by apply step_framed|]. intros [r|f']; [apply framed_ret|apply IH].
Qed.

Lemma start_fits c : 0 <= c_Gas c → fits (start c).
Proof. intros Hg. split; [done|]. cbn. by unfold StackLimit. Qed.

Lemma run_code_post evm c :
  0 <= c_Gas c → post (run_code evm c) (λ '(_, g, e), 0 <= g <= c_Gas c ∧ e ≠ Some out_of_fuel).
Proof.
  intros Hg. unfold run_code. eapply post_weaken; [apply loop_post; [apply instruction_set_ok|by apply start_fits]|].
  intros [[r g] e] [H1 H2]. split; [done|]. apply H2. cbn. lia.
Qed.

Lemma run_code_framed evm c : framed (run_code evm c).
Proof. apply loop_framed, instruction_set_ok. Qed.

End Tables.

(** ** The machine keeps the promises *)

(** Precompiled contracts cost something that is not negative. *)
Class PrecompilesLaws {PR : Precompiles} := {
  contract_gas_nonneg : ∀ r a input, 0 <= contract_gas r a input }.

#[export] Instance machine_laws {BE : Backend} {PR : Precompiles} {PL : PrecompilesLaws} n : InterpreterLaws (H0 := machine n).
Proof.
  induction n as [|n IH]; (split; [| |apply contract_gas_nonneg]).
  - intros evm c s0 id s r s' Hs [= <- <-]. done.
  - intros evm c s ret gas err s' [= <- <- <- <-]. lia.
  - intros evm c s0 id s r s'. apply (run_code_framed (IN := machine n)).
  - intros evm c s ret gas err s' E Hg. by destruct (run_code_post (IN := machine n) evm c Hg s _ s' E).
Qed.

End MachineProofs.
