(* ===== verification/WordClaims.v ===== *)
(** * WordClaims: the arithmetic instructions and the jump destinations

    The instructions that compute on words against the arithmetic they are
    specified by, and the destinations a jump accepts against the positions at
    which instructions start. *)

From stdpp Require Import base list sets.
From Stdlib Require Import ZArith Lia.
From S2P Require Import Prelude Word StateDB StateClaims Evm Instructions Machine WordProofs MachineProofs.

Local Open Scope Z_scope.

Module WordClaims.
Import Word StateDB Evm Instructions Machine WordProofs.

(** ** The reference *)

Inductive arith : Set :=
  ADD | MUL | SUB | DIV | SDIV | MOD | SMOD | ADDMOD | MULMOD | EXP | SIGNEXTEND
  | LT | GT | SLT | SGT | EQ | ISZERO | AND | OR | XOR | NOT | BYTE | SHL | SHR | SAR.

#[local] Instance arith_eq_dec : EqDecision arith.
Proof. solve_decision. Defined.

Definition opcode (o : arith) : Z :=
  match o with
  | ADD => 1 | MUL => 2 | SUB => 3 | DIV => 4 | SDIV => 5 | MOD => 6 | SMOD => 7 | ADDMOD => 8 | MULMOD => 9
  | EXP => 10 | SIGNEXTEND => 11 | LT => 16 | GT => 17 | SLT => 18 | SGT => 19 | EQ => 20 | ISZERO => 21
  | AND => 22 | OR => 23 | XOR => 24 | NOT => 25 | BYTE => 26 | SHL => 27 | SHR => 28 | SAR => 29
  end.

(** What the instruction leaves of a stack, in plain arithmetic: words are
    residues modulo 2^256, the signed instructions read them in two's
    complement, a division by zero gives zero. *)
Definition reference (o : arith) (st : list Z) : option (list Z) :=
  match o, st with
  | ADD, x :: y :: r => Some (word (x + y) :: r)
  | MUL, x :: y :: r => Some (word (x * y) :: r)
  | SUB, x :: y :: r => Some (word (x - y) :: r)
  | DIV, x :: y :: r => Some ((if y =? 0 then 0 else x / y) :: r)
  | SDIV, x :: y :: r => Some ((if y =? 0 then 0 else word (Z.quot (signed x) (signed y))) :: r)
  | MOD, x :: y :: r => Some ((if y =? 0 then 0 else x mod y) :: r)
  | SMOD, x :: y :: r => Some ((if y =? 0 then 0 else word (Z.rem (signed x) (signed y))) :: r)
  | ADDMOD, x :: y :: z :: r => Some ((if z =? 0 then 0 else (x + y) mod z) :: r)
  | MULMOD, x :: y :: z :: r => Some ((if z =? 0 then 0 else (x * y) mod z) :: r)
  | EXP, x :: y :: r => Some (word (x ^ y) :: r)
  | SIGNEXTEND, x :: y :: r => Some ((if x <? 31 then word (sext (8 * (x + 1)) y) else y) :: r)
  | LT, x :: y :: r => Some (bit (x <? y) :: r)
  | GT, x :: y :: r => Some (bit (y <? x) :: r)
  | SLT, x :: y :: r => Some (bit (signed x <? signed y) :: r)
  | SGT, x :: y :: r => Some (bit (signed y <? signed x) :: r)
  | EQ, x :: y :: r => Some (bit (x =? y) :: r)
  | ISZERO, x :: r => Some (bit (x =? 0) :: r)
  | AND, x :: y :: r => Some (Z.land x y :: r)
  | OR, x :: y :: r => Some (Z.lor x y :: r)
  | XOR, x :: y :: r => Some (Z.lxor x y :: r)
  | NOT, x :: r => Some (2 ^ 256 - 1 - x :: r)
  | BYTE, x :: y :: r => Some ((if x <? 32 then y / 2 ^ (8 * (31 - x)) mod 2 ^ 8 else 0) :: r)
  | SHL, x :: y :: r => Some (word (y * 2 ^ x) :: r)
  | SHR, x :: y :: r => Some (y / 2 ^ x :: r)
  | SAR, x :: y :: r => Some (word (signed y / 2 ^ x) :: r)
  | _, _ => None
  end.

(** ** The instructions one by one *)

Lemma word_le x y : 0 <= x <= y → is_word y → word x = x.
Proof. intros Hx [_ Hy]. apply word_small. unfold is_word. lia. Qed.

Lemma land_word x y : is_word x → is_word y → is_word (Z.land x y).
Proof.
  intros Hx Hy. rewrite <-(word_small y Hy), <-U256_word. unfold U256. rewrite Z.land_assoc. change (is_word (U256 (Z.land x y))).
  rewrite U256_word. apply word_is_word.
Qed.

Lemma high_bits x : is_word x ↔ 0 <= x ∧ ∀ k, 256 <= k → Z.testbit x k = false.
Proof.
  split.
  - intros Hx. split; [apply Hx|]. intros k Hk. rewrite <-(word_small x Hx). unfold word. apply Z.mod_pow2_bits_high. lia.
  - intros [H0 Hk]. split; [done|]. destruct (Z.eq_dec x 0) as [->|Hn]; [done|]. apply Z.log2_lt_pow2; [lia|].
    destruct (Z.ltb_spec (Z.log2 x) 256) as [|Hl]; [done|]. pose proof (Z.bit_log2 x ltac:(lia)) as Hb. by rewrite (Hk _ Hl) in Hb.
Qed.

Lemma lor_word x y : is_word x → is_word y → is_word (Z.lor x y).
Proof.
  rewrite !high_bits. intros [? Hx] [? Hy]. split; [by apply Z.lor_nonneg|]. intros k Hk. by rewrite Z.lor_spec, Hx, Hy.
Qed.

Lemma lxor_word x y : is_word x → is_word y → is_word (Z.lxor x y).
Proof.
  rewrite !high_bits. intros [? Hx] [? Hy]. split; [apply Z.lxor_nonneg; lia|]. intros k Hk. by rewrite Z.lxor_spec, Hx, Hy.
Qed.

Lemma bit_word b : is_word (bit b).
Proof. by destruct b. Qed.

Lemma div_word x y : is_word x → 0 < y → is_word (x / y).
Proof.
  intros [? Hx] Hy. split; [by apply Z.div_pos|]. apply Z.le_lt_trans with x; [|done]. apply Z.div_le_upper_bound; [done|]. nia.
Qed.

Lemma mod_word x z : is_word z → z ≠ 0 → is_word (x mod z).
Proof. intros [? ?] Hz. pose proof (Z.mod_pos_bound x z ltac:(lia)). unfold is_word. lia. Qed.

Lemma Sdiv_word x y : is_word x → is_word y →
  (let x := S256 x in let y := S256 y in
   if (y =? 0) || (x =? 0) then 0 else if negb (Z.sgn x =? Z.sgn y) then U256 (- (Z.abs x / Z.abs y)) else U256 (Z.abs x / Z.abs y)) =
  if y =? 0 then 0 else word (Z.quot (signed x) (signed y)).
Proof.
  intros Hx Hy. cbv zeta. rewrite !S256_signed, !U256_word by done. pose proof (signed_zero y Hy).
  destruct (Z.eqb_spec (signed y) 0), (Z.eqb_spec y 0); cbn [orb]; try lia.
  destruct (Z.eqb_spec (signed x) 0) as [->|Hn]; [by rewrite Z.quot_0_l|].
  destruct (quot_cases (signed x) (signed y)) as [<-|?]; [done| |done]. by destruct (negb _).
Qed.

Lemma Smod_word x y : is_word x → is_word y →
  (let x := S256 x in let y := S256 y in
   if y =? 0 then 0 else if x <? 0 then U256 (- (Z.abs x mod Z.abs y)) else U256 (Z.abs x mod Z.abs y)) =
  if y =? 0 then 0 else word (Z.rem (signed x) (signed y)).
Proof.
  intros Hx Hy. cbv zeta. rewrite !S256_signed, !U256_word by done. pose proof (signed_zero y Hy).
  destruct (Z.eqb_spec (signed y) 0), (Z.eqb_spec y 0); try lia.
  rewrite <-rem_cases by done. by destruct (signed x <? 0).
Qed.

Lemma Exp_word' x y : is_word x → is_word y →
  (if y <? 1 then 1 else if x =? 0 then 0 else if y =? 1 then x else Exp x y) = word (x ^ y).
Proof.
  intros Hx [Hy _]. destruct (Z.ltb_spec y 1); [by replace y with 0 by lia|].
  destruct (Z.eqb_spec x 0) as [->|]; [by rewrite Z.pow_0_l by lia|].
  destruct (Z.eqb_spec y 1) as [->|]; [by rewrite Z.pow_1_r, word_small|by apply Exp_word].
Qed.

Lemma Slt_signed x y : is_word x → is_word y →
  (if (tt255 <=? x) && (y <? tt255) then 1 else if (x <? tt255) && (tt255 <=? y) then 0 else bit (x <? y)) = bit (signed x <? signed y).
Proof.
  intros Hx Hy. rewrite <-!S256_signed by done. unfold S256, is_word, tt255, tt256 in *. unfold bit.
  destruct (Z.leb_spec (2 ^ 255) x), (Z.ltb_spec y (2 ^ 255)), (Z.ltb_spec x (2 ^ 255)), (Z.leb_spec (2 ^ 255) y); cbn [andb]; try lia;
    repeat case_match; try done; lia.
Qed.

Lemma Sgt_signed x y : is_word x → is_word y →
  (if (tt255 <=? x) && (y <? tt255) then 0 else if (x <? tt255) && (tt255 <=? y) then 1 else bit (y <? x)) = bit (signed y <? signed x).
Proof.
  intros Hx Hy. rewrite <-Slt_signed by done. unfold bit.
  destruct (Z.leb_spec tt255 x), (Z.ltb_spec y tt255), (Z.ltb_spec x tt255), (Z.leb_spec tt255 y); cbn [andb]; try lia; done.
Qed.

Lemma Byte_word x y : is_word x → is_word y →
  (if x <? 32 then Byte_ y 32 (Z.to_nat (i64 x)) else 0) = if x <? 32 then y / 2 ^ (8 * (31 - x)) mod 2 ^ 8 else 0.
Proof.
  intros [Hx _] [Hy _]. destruct (Z.ltb_spec x 32); [|done]. unfold Byte_. rewrite i64_small by lia.
  destruct (Nat.leb_spec 32 (Z.to_nat x)); [lia|]. rewrite bigEndianByteAt_div by done. repeat f_equal. lia.
Qed.

Lemma pow_256 x : 256 <= x → 2 ^ x = 2 ^ (x - 256) * 2 ^ 256.
Proof. intros Hx. rewrite <-Z.pow_add_r by lia. f_equal. lia. Qed.

Lemma Shl_word x y : is_word x → is_word y →
  (if 256 <=? U256 x then 0 else U256 (Z.shiftl (U256 y) (u64 (U256 x)))) = word (y * 2 ^ x).
Proof.
  intros Hx Hy. rewrite !U256_word, (word_small x), (word_small y) by done. destruct Hx as [Hx _]. destruct (Z.leb_spec 256 x).
  - unfold word. rewrite pow_256, Z.mul_assoc by done. by rewrite Z.mod_mul.
  - rewrite u64_small, Z.shiftl_mul_pow2 by (unfold is_u64, two64; lia). done.
Qed.

Lemma Shr_word x y : is_word x → is_word y →
  (if 256 <=? U256 x then 0 else U256 (Z.shiftr (U256 y) (u64 (U256 x)))) = y / 2 ^ x.
Proof.
  intros Hx Hy. rewrite !U256_word, (word_small x), (word_small y) by done. pose proof Hx as [Hx0 _]. destruct (Z.leb_spec 256 x).
  - symmetry. apply Z.div_small. destruct Hy as [? Hy]. split; [done|]. apply Z.lt_le_trans with (2 ^ 256); [done|]. apply Z.pow_le_mono_r; lia.
  - rewrite u64_small, Z.shiftr_div_pow2 by (unfold is_u64, two64; lia). apply word_small, div_word; [done|]. apply Z.pow_pos_nonneg; lia.
Qed.

Lemma Sar_word x y : is_word x → is_word y →
  (if 256 <=? U256 x then (if 0 <=? S256 y then U256 0 else U256 (-1)) else U256 (Z.shiftr (S256 y) (u64 (U256 x)))) = word (signed y / 2 ^ x).
Proof.
  intros Hx Hy. rewrite !U256_word, (word_small x), S256_signed by done. destruct Hx as [Hx _]. destruct (Z.leb_spec 256 x).
  - pose proof (signed_range y). assert (2 ^ 255 <= 2 ^ x) by (apply Z.pow_le_mono_r; lia). destruct (Z.leb_spec 0 (signed y)).
    + by rewrite (Z.div_small (signed y)) by lia.
    + rewrite <-(Z.div_unique (signed y) (2 ^ x) (-1) (signed y + 2 ^ x)); [done|left; lia|lia].
  - rewrite u64_small, Z.shiftr_div_pow2 by (unfold is_u64, two64; lia). done.
Qed.

Lemma Signext_word x y : is_word x → x < 31 →
  (let b := u64 (x * 8 + 7) in let mask := Z.shiftl 1 b - 1 in
   U256 (if Z.testbit y b then Z.lor y (Z.lnot mask) else Z.land y mask)) = word (sext (8 * (x + 1)) y).
Proof.
  intros [Hx _] H31. cbv zeta. rewrite u64_small by (unfold is_u64, two64; lia). rewrite sign_extend, U256_word by lia. do 2 f_equal. lia.
Qed.

Lemma Not_word x : is_word x → U256 (Z.lnot x) = 2 ^ 256 - 1 - x.
Proof.
  intros Hx. rewrite U256_word. unfold word. symmetry. unfold is_word, tt256 in Hx.
  apply (Zmod_unique _ _ (-1)); pose proof (Z.lnot_eq_pred_opp x); lia.
Qed.

(** ** The theorem on arithmetic *)

Section Claims.
Context {BE : Backend} {IN : Interpreter}.

(** The function the instruction set runs for an operation. *)
Definition exec_of (o : arith) : executionFunc :=
  match o with
  | ADD => opAdd | MUL => opMul | SUB => opSub | DIV => opDiv | SDIV => opSdiv | MOD => opMod | SMOD => opSmod
  | ADDMOD => opAddmod | MULMOD => opMulmod | EXP => opExp | SIGNEXTEND => opSignExtend
  | LT => opLt | GT => opGt | SLT => opSlt | SGT => opSgt | EQ => opEq | ISZERO => opIszero
  | AND => opAnd | OR => opOr | XOR => opXor | NOT => opNot | BYTE => opByte | SHL => opSHL | SHR => opSHR | SAR => opSAR
  end.

Definition shift (o : arith) : bool := match o with SHL | SHR | SAR => true | _ => false end.

(** A change of gas keeps what is run. *)
Lemma set_constantGas_run op gas jt k : execute <$> get_op (set_constantGas op gas jt) k = execute <$> get_op jt k.
Proof.
  unfold set_constantGas. destruct (get_op jt op) as [o|] eqn:E; [|reflexivity]. cbn [get_op].
  destruct (Z.eqb_spec op k) as [<-|]; [by rewrite E|reflexivity].
Qed.

Lemma set_dynamicGas_run op dyn jt k : execute <$> get_op (set_dynamicGas op dyn jt) k = execute <$> get_op jt k.
Proof.
  unfold set_dynamicGas. destruct (get_op jt op) as [o|] eqn:E; [|reflexivity]. cbn [get_op].
  destruct (Z.eqb_spec op k) as [<-|]; [by rewrite E|reflexivity].
Qed.

(** An instruction set runs the function of each operation; before
    Constantinople it has no shifts. *)
Definition runs (jt : JumpTable) (shifts : bool) : Prop :=
  ∀ o, execute <$> get_op jt (opcode o) = if shift o && negb shifts then None else Some (exec_of o).

Lemma runs_constantGas op gas jt b : runs jt b → runs (set_constantGas op gas jt) b.
Proof. intros Hr o. rewrite set_constantGas_run. apply Hr. Qed.

Lemma runs_dynamicGas op dyn jt b : runs jt b → runs (set_dynamicGas op dyn jt) b.
Proof. intros Hr o. rewrite set_dynamicGas_run. apply Hr. Qed.

Lemma runs_cons k op jt b : (∀ o, k ≠ opcode o) → runs jt b → runs ((k, op) :: jt) b.
Proof. intros Hk Hr o. cbn [get_op]. rewrite (proj2 (Z.eqb_neq k (opcode o)) (Hk o)). apply Hr. Qed.

Ltac table := repeat lazymatch goal with
  | |- runs (set_constantGas _ _ _) _ => apply runs_constantGas
  | |- runs (set_dynamicGas _ _ _) _ => apply runs_dynamicGas
  | |- runs ((_, _) :: _) _ => apply runs_cons; [by intros []|]
  end.

Lemma runs_frontier : runs newFrontierInstructionSet false.
Proof. intros []; reflexivity. Qed.

Lemma runs_tangerine : runs newTangerineWhistleInstructionSet false.
Proof. unfold newTangerineWhistleInstructionSet. table. unfold newHomesteadInstructionSet. table. apply runs_frontier. Qed.

Lemma runs_byzantium : runs newByzantiumInstructionSet false.
Proof. unfold newByzantiumInstructionSet. cbn [app]. table. unfold newSpuriousDragonInstructionSet. table. apply runs_tangerine. Qed.

Lemma runs_constantinople : runs newConstantinopleInstructionSet true.
Proof.
  intros o. destruct (shift o) eqn:Eo; [by destruct o|]. transitivity (execute <$> get_op newByzantiumInstructionSet (opcode o)).
  - destruct o; try discriminate Eo; reflexivity.
  - rewrite runs_byzantium, Eo. reflexivity.
Qed.

Lemma runs_set r : runs (instruction_set r) (IsConstantinople r || IsIstanbul r).
Proof.
  unfold instruction_set. destruct (IsIstanbul r).
  { rewrite orb_true_r. unfold newIstanbulInstructionSet, enable1344, enable1884, enable2200. table. apply runs_constantinople. }
  rewrite orb_false_r. destruct (IsConstantinople r); [apply runs_constantinople|]. repeat case_match;
    [apply runs_byzantium|unfold newSpuriousDragonInstructionSet; table; apply runs_tangerine|apply runs_tangerine| |apply runs_frontier].
  unfold newHomesteadInstructionSet. table. apply runs_frontier.
Qed.

Definition computes (ex : executionFunc) (evm : EVM) (c : Contract) (f : frame) (s : StateDB) (st : list Z) : Prop :=
  ex evm c f s = Some (([], None, set_stack f st), s) ∧ Forall is_word st.

Lemma unary_computes op evm c f s x r v :
  stack f = x :: r → Forall is_word r → op x = v → is_word v → computes (unary op) evm c f s (v :: r).
Proof. intros E Hr <- Hv. split; [|by constructor]. destruct f. cbn in E. by subst. Qed.

Lemma binary_computes op evm c f s x y r v :
  stack f = x :: y :: r → Forall is_word r → op x y = v → is_word v → computes (binary op) evm c f s (v :: r).
Proof. intros E Hr <- Hv. split; [|by constructor]. destruct f. cbn in E. by subst. Qed.

Lemma ternary_computes op evm c f s x y z r v :
  stack f = x :: y :: z :: r → Forall is_word r → op x y z = v → is_word v → computes (ternary op) evm c f s (v :: r).
Proof. intros E Hr <- Hv. split; [|by constructor]. destruct f. cbn in E. by subst. Qed.

(** The instructions on two words, the sign extension apart. *)
Lemma binary_reference o evm c f s x y r st :
  o ∉ [ISZERO; NOT; ADDMOD; MULMOD; SIGNEXTEND] → stack f = x :: y :: r → is_word x → is_word y → Forall is_word r →
  reference o (x :: y :: r) = Some st → computes (exec_of o) evm c f s st.
Proof.
  intros Ho E Hx Hy Hw Hr.
  assert (Hd : y ≠ 0 → is_word (x / y) ∧ is_word (x mod y)).
  { intros Hy0. split; [apply div_word; [done|destruct Hy; lia]|by apply mod_word]. }
  destruct o; try (clear - Ho; exfalso; set_solver); injection Hr as <-; (eapply binary_computes; [exact E|done| |]);
    try apply word_is_word; try apply bit_word; try reflexivity; try apply U256_word; cbv zeta;
    eauto using Sdiv_word, Smod_word, Exp_word', Slt_signed, Sgt_signed, Byte_word, Shl_word, Shr_word, Sar_word, land_word, lor_word, lxor_word.
  - destruct (Z.eqb_spec y 0); cbn [negb]; [done|]. rewrite U256_word. by apply word_small, Hd.
  - destruct (Z.eqb_spec y 0); [done|]. by apply Hd.
  - destruct (y =? 0); [done|apply word_is_word].
  - destruct (Z.eqb_spec y 0); [done|]. rewrite U256_word. by apply word_small, Hd.
  - destruct (Z.eqb_spec y 0); [done|]. by apply Hd.
  - destruct (y =? 0); [done|apply word_is_word].
  - destruct (x <? 32); [|done]. by apply mod_word.
  - apply div_word; [done|]. apply Z.pow_pos_nonneg; [lia|apply Hx].
Qed.

Lemma exec_of_computes o evm c f s st :
  Forall is_word (stack f) → reference o (stack f) = Some st → computes (exec_of o) evm c f s st.
Proof.
  intros Hw Hr. destruct (stack f) as [|x st1] eqn:E; [by destruct o|]. inv Hw as [|?? Hx Hw1].
  destruct (decide (o = ISZERO ∨ o = NOT)) as [Ho|Ho].
  { destruct Ho as [->| ->]; injection Hr as <-; (eapply unary_computes; [exact E|done| |]).
    - destruct Hx. destruct (Z.ltb_spec 0 x), (Z.eqb_spec x 0); try lia; reflexivity.
    - apply bit_word.
    - by apply Not_word.
    - unfold is_word, tt256 in *. lia. }
  destruct st1 as [|y st2]; [by destruct o; try (destruct Ho; tauto)|]. inv Hw1 as [|?? Hy Hw2].
  destruct (decide (o = ADDMOD ∨ o = MULMOD)) as [Ho3|Ho3].
  { destruct st2 as [|z st3]; [by destruct Ho3 as [->| ->]|]. inv Hw2 as [|?? Hz Hw3].
    assert (Hm : ∀ v, (if 0 <? z then U256 (v mod z) else 0) = (if z =? 0 then 0 else v mod z) ∧ is_word (if z =? 0 then 0 else v mod z)).
    { intros v. destruct Hz as [Hz0 Hz1]. destruct (Z.ltb_spec 0 z), (Z.eqb_spec z 0); try lia; [|done].
      pose proof (mod_word v z ltac:(done) ltac:(done)). split; [|done]. rewrite U256_word. by apply word_small. }
    destruct Ho3 as [->| ->]; injection Hr as <-; (eapply ternary_computes; [exact E|done|apply Hm|apply Hm]). }
  destruct (decide (o = SIGNEXTEND)) as [->|Hs].
  { injection Hr as <-. split; [|constructor; [case_match; [apply word_is_word|done]|done]].
    unfold exec_of, opSignExtend. rewrite (MachineProofs.pop_bind _ _ _ _ _ E). destruct (Z.ltb_spec x 31) as [H31|_]; [|reflexivity].
    rewrite (MachineProofs.pop_bind _ (set_stack f (y :: st2)) y st2) by reflexivity. rewrite <-(Signext_word x y Hx H31). reflexivity. }
  eapply binary_reference; [|exact E|done..]. set_solver.
Qed.

(** C30: On words, every arithmetic, comparison, bitwise and shift instruction of
    every instruction set computes its reference: sums, products and powers
    modulo 2^256, unsigned and two's complement division and remainder (zero
    for a zero divisor), sign extension from a byte, signed comparison, byte
    extraction, logical and arithmetic shifts by any amount. It consumes its
    operands, leaves words, and touches nothing else; only the shifts are
    absent, and only before Constantinople. *)
Theorem arithmetic_reference r o evm c f s st :
  Forall is_word (stack f) → reference o (stack f) = Some st →
  match get_op (instruction_set r) (opcode o) with
  | Some op => execute op evm c f s = Some (([], None, set_stack f st), s) ∧ Forall is_word st
  | None => shift o = true ∧ IsConstantinople r = false ∧ IsIstanbul r = false
  end.
Proof.
  intros Hw Hr. pose proof (runs_set r o) as Ht. destruct (get_op _ _) as [op|]; cbn [fmap option_fmap option_map] in Ht.
  - destruct (_ && _); [discriminate|]. injection Ht as Ht. rewrite Ht. by apply exec_of_computes.
  - destruct (shift o); [|discriminate]. destruct (IsConstantinople r), (IsIstanbul r); try discriminate. done.
Qed.

End Claims.

(** C31: The analysis of a code never fails, and a jump to a destination is
    accepted exactly when it is a JUMPDEST at which an instruction starts,
    never one within the data of a PUSH, whatever the code is. *)
Theorem validJumpdest_exact code dest :
  0 <= dest → Z.of_nat (length code) <= 2 ^ 62 →
  ∃ b, validJumpdest code dest = Some b ∧
    (b = true ↔ starts code 0 dest ∧ b2z <$> code !! Z.to_nat dest = Some JUMPDEST).
Proof.
  intros Hd Hl. unfold validJumpdest.
  assert (Hb : (63 <=? BitLen dest) || (Z.of_nat (length code) <=? u64 dest) = (Z.of_nat (length code) <=? dest)).
  { unfold BitLen. destruct (Z.eqb_spec dest 0) as [->|Hn]; [done|]. destruct (Z.ltb_spec dest (2 ^ 62)) as [Hs|Hs].
    - pose proof (proj1 (Z.log2_lt_pow2 dest 62 ltac:(lia)) Hs). rewrite u64_small by (unfold is_u64, two64; lia).
      by rewrite (proj2 (Z.leb_gt 63 (Z.log2 dest + 1))) by lia.
    - pose proof (proj1 (Z.log2_le_pow2 dest 62 ltac:(lia)) Hs). rewrite (proj2 (Z.leb_le 63 (Z.log2 dest + 1))) by lia. cbn [orb]. lia. }
  rewrite Hb. destruct (Z.leb_spec (Z.of_nat (length code)) dest) as [Hge|Hlt].
  { exists false. split; [done|]. rewrite lookup_ge_None_2 by lia. split; [done|]. by intros [_ ?]. }
  rewrite u64_small by (unfold is_u64, two64; lia).
  destruct (lookup_lt_is_Some_2 code (Z.to_nat dest) ltac:(lia)) as [b Eb]. rewrite Eb. cbn [mbind option_bind fmap option_fmap option_map].
  destruct (Z.eqb_spec (b2z b) JUMPDEST) as [Ej|Ej]; cbn [negb].
  2: { exists false. split; [done|]. split; [done|]. intros [_ [=]]. done. }
  destruct (codeBitmap_bit code) as (bits & Ec & Lb & Hs). rewrite Ec. cbn [mbind option_bind].
  exists (negb (bit_at bits dest)). split.
  - apply codeSegment_bit. rewrite Lb. pose proof (Nat2Z.inj_div (length code) 8). Z.to_euclidean_division_equations. lia.
  - rewrite negb_true_iff, Hs by lia. rewrite Ej. by split; [|intros [? _]].
Qed.

(** ** Concrete cases *)

#[local] Existing Instance StateClaims.demo_backend.

#[local] Instance idle_interpreter : Interpreter := {|
  RequiredGas _ _ _ := 10;
  RunPrecompile _ _ input := (input, None);
  run_loop _ c := mret ([], c_Gas c, None) |}.

Definition words_rules : Rules := mk_Rules true true true true true true true.
Definition words_evm : EVM := mk_EVM 7 1 11 1 100 1 8000000 (λ _, 0) 1 1 false words_rules false false.
Definition words_contract : Contract := mk_Contract 5 (AccountRef 5) 20 [] 0 None [] 100 (Some 0).

(** [-8] and [3] on the stack: the signed quotient is [-2]. *)
Definition words_frame : frame := mk_frame 0 [tt256 - 8; 3] (mk_Memory [] 0) 100 [] 0.

Lemma arithmetic_reference_witness :
  match get_op (instruction_set words_rules) (opcode SDIV) with
  | Some op => execute op words_evm words_contract words_frame StateClaims.fresh =
      Some (([], None, set_stack words_frame [tt256 - 2]), StateClaims.fresh) ∧ Forall is_word [tt256 - 2]
  | None => shift SDIV = true ∧ IsConstantinople words_rules = false ∧ IsIstanbul words_rules = false
  end.
Proof.
  apply (arithmetic_reference words_rules SDIV words_evm words_contract words_frame StateClaims.fresh [tt256 - 2]).
  - by repeat constructor.
  - by vm_compute.
Defined.

(** [PUSH1 91; JUMPDEST]: the first 91 is data. *)
Definition jump_code : bytes := map z2b [96; 91; 91].

Lemma validJumpdest_exact_witness :
  ∃ b, validJumpdest jump_code 2 = Some b ∧
    (b = true ↔ starts jump_code 0 2 ∧ b2z <$> jump_code !! Z.to_nat 2 = Some JUMPDEST).
Proof. apply (validJumpdest_exact jump_code 2); cbn; lia. Defined.

End WordClaims.
