(* ===== verification/RefundProofs.v ===== *)
(** * RefundProofs: the refund counter covers the cleared slots

    Writing a slot back to a value takes back the refund that clearing it gave
    ([SubRefund], which panics below zero). The counter is always enough: it
    covers every slot that is zero now and was not when the transaction began.
    Here is what each state operation does to those slots. *)

From stdpp Require Import base gmap list.
From Stdlib Require Import ZArith Lia.
From S2P Require Import Prelude StateDB StateProofs Evm EvmProofs Word Instructions Machine MachineProofs.

Local Open Scope Z_scope.

(** ** StaticProofs: code that runs read-only changes no answer

    What the state operations, the calls and the instructions do to the answers
    of the state when the interpreter is in read-only mode: at most, accounts
    that did not exist now exist and are empty. *)

Module StaticProofs.
Import Word StateDB StateProofs Evm EvmProofs Instructions Machine MachineProofs.

Section State.
Context {BE : Backend}.

(** ** States with the same answers *)

(** Nothing is left of an account: it never was, or it was deleted with no money. *)
Definition barren (o : option stateObject) : Prop :=
  match o with None => True | Some o => deleted o = true ∧ Balance (data o) = 0 end.

(** Deleted accounts have no money. *)
Definition clean (s : StateDB) : Prop := ∀ a o, eff s a = Some o → deleted o = true → Balance (data o) = 0.

Definition mild_obj (a : Z) (o o' : option stateObject) : Prop :=
  option_Forall2 (obj_eqv a) o o' ∨ (barren o ∧ ∃ n, o' = Some n ∧ obj_eqv a n blank).

(** [t] is [s], but that empty accounts may have come to exist. *)
Record mild (s t : StateDB) : Prop := {
  m_obj : ∀ a, mild_obj a (eff s a) (eff t a);
  m_refund : refund t = refund s;
  m_logs : ∀ h, default [] (logs t !! h) = default [] (logs s !! h);
  m_logSize : logSize t = logSize s;
}.

Lemma mild_eqv s t : eqv s t → mild s t.
Proof. intros [E1 E2 E3 E4 _ _]. split; [|done..]. intros a. left. apply E1. Qed.

Lemma barren_eqv a o o' : option_Forall2 (obj_eqv a) o o' → barren o' → barren o.
Proof. intros [x y [Ed _ El _ _ _]|]; [|done]. cbn. by rewrite Ed, El. Qed.

Lemma mild_trans s t u : mild s t → mild t u → mild s u.
Proof.
  intros [A1 A2 A3 A4] [B1 B2 B3 B4]. split; [|congruence| |congruence].
  - intros a. destruct (A1 a) as [Ha|[Hb (n & En & Hn)]], (B1 a) as [Hc|[Hd (m & Em & Hm)]].
    + left. by etrans.
    + right. split; [by eapply barren_eqv|eauto].
    + right. split; [done|]. rewrite En in Hc. inversion Hc as [x y Hxy|]; subst. exists y. split; [done|]. by rewrite <-Hxy.
    + exfalso. rewrite En in Hd. destruct Hd as [Hd _]. destruct Hn as [_ _ El _ _ _]. rewrite El in Hd. done.
  - intros h. by rewrite B3.
Qed.

Lemma mild_clean s t : clean s → mild s t → clean t.
Proof.
  intros Hc [A1 _ _ _] a o Eo Hd. destruct (A1 a) as [Ha|[_ (n & En & Hn)]].
  - rewrite Eo in Ha. inversion Ha as [x y [Ed _ El _ _ _] Ex|]; subst. rewrite <-Ed. apply (Hc a x); [done|congruence].
  - rewrite Eo in En. injection En as <-. destruct Hn as [_ _ El _ _ _]. by rewrite El in Hd.
Qed.

(** ** Computations that change no answer *)

Definition mildly {A} (m : SM A) : Prop :=
  ∀ s0 id s a s', since s0 id s → clean s → m s = Some (a, s') → mild s s'.

Definition calm {A} (m : SM A) : Prop := framed m ∧ mildly m.

Lemma calm_ret {A} (a : A) : calm (mret a).
Proof. split; [apply framed_ret|]. intros s0 id s a' s' _ _ [= <- <-]. by apply mild_eqv. Qed.

Lemma calm_panic {A} : calm (A := A) panic.
Proof. by split. Qed.

Lemma calm_lift {A} (x : option A) : calm (lift x).
Proof. destruct x; [apply calm_ret|apply calm_panic]. Qed.

Lemma mildly_bind {A B} (m : SM A) (k : A → SM B) : calm m → (∀ a, mildly (k a)) → mildly (m ≫= k).
Proof.
  intros [Fm Hm] Hk s0 id s b s' Hs Hc (a & s1 & E1 & E2)%SM_bind_Some. pose proof (Hm _ _ _ _ _ Hs Hc E1) as H1.
  eapply mild_trans; [exact H1|]. eapply Hk; [|by eapply mild_clean|exact E2]. by eapply Fm.
Qed.

Lemma calm_bind {A B} (m : SM A) (k : A → SM B) : calm m → (∀ a, calm (k a)) → calm (m ≫= k).
Proof.
  intros Hm Hk. split; [apply framed_bind; [apply Hm|intros a; apply Hk]|]. apply mildly_bind; [done|]. intros a. apply Hk.
Qed.

Lemma calm_eqv {A} (m : SM A) : framed m → (∀ s a s', swf s → m s = Some (a, s') → eqv s s') → calm m.
Proof. intros Hf Hm. split; [done|]. intros s0 id s a s' Hs _ E. apply mild_eqv. eapply Hm; [apply Hs|exact E]. Qed.

Lemma getStateObject_calm a : calm (getStateObject a).
Proof.
  apply calm_eqv; [apply getStateObject_framed|]. intros s o s' _ E. rewrite getStateObject_run in E. injection E as _ <-.
  symmetry. apply cached_eqv.
Qed.

Lemma read_calm {A} a (f : option stateObject → A) : calm (o ← getStateObject a; mret (f o)).
Proof. apply calm_bind; [apply getStateObject_calm|]. intros o. apply calm_ret. Qed.

(** An object's cache may change. *)
Lemma object_calm {A} a (k : option stateObject → SM A) :
  framed (o ← getStateObject a; k o) →
  (∀ s v s', k None s = Some (v, s') → s' = s) →
  (∀ o s v s', live s a = Some o → k (Some o) s = Some (v, s') → eqv s s') →
  calm (o ← getStateObject a; k o).
Proof.
  intros Hf Hn Hk. apply calm_eqv; [done|]. intros s v s' _ (o & s1 & E1 & E2)%SM_bind_Some.
  rewrite getStateObject_run in E1. injection E1 as <- <-. transitivity (cached a s); [symmetry; apply cached_eqv|].
  destruct (live s a) as [o|] eqn:El; [|by rewrite (Hn _ _ _ E2)].
  eapply Hk; [|exact E2]. unfold live in *. by rewrite eff_cached.
Qed.

Lemma Code_eqv a o s c s' : live s a = Some o → Code a o s = Some (c, s') → eqv s s'.
Proof.
  intros [Hd He]%live_deleted. unfold Code. destruct (code o) as [c0|] eqn:Ec; [by intros [= _ <-]|].
  destruct (CodeHash (data o) =? emptyCodeHash) eqn:Eh; [by intros [= _ <-]|]. intros [= _ <-]. symmetry. eapply put_back; [exact He|].
  split; try done. unfold code_of. cbn. rewrite Ec, Eh. by destruct (ContractCode _).
Qed.

Lemma GetCommittedState_eqv a o k s v s' : live s a = Some o → obj_GetCommittedState a o k s = Some (v, s') → eqv s s'.
Proof.
  intros [Hd He]%live_deleted. unfold obj_GetCommittedState. destruct (pendingStorage o !! k) as [v0|]; [by intros [= _ <-]|].
  destruct (originStorage o !! k) as [v0|] eqn:E3; [by intros [= _ <-]|]. intros [= _ <-]. symmetry. eapply put_back; [exact He|].
  assert (Hc : ∀ k', committed a (set_origin o (<[k := read_storage a (Root (data o)) k]> (originStorage o))) k' = committed a o k').
  { intros k'. unfold committed. cbn. destruct (pendingStorage o !! k'); [done|].
    destruct (decide (k = k')) as [->|]; [by rewrite lookup_insert_eq, E3|by rewrite lookup_insert_ne]. }
  split; try done. intros k'. unfold current. cbn. by rewrite Hc.
Qed.

Lemma GetState_eqv a o k s v s' : live s a = Some o → obj_GetState a o k s = Some (v, s') → eqv s s'.
Proof. intros Hl. unfold obj_GetState. destruct (dirtyStorage o !! k); [by intros [= _ <-]|by apply GetCommittedState_eqv]. Qed.

Lemma GetCode_calm a : calm (GetCode a).
Proof. apply object_calm; [apply Code_framed|by intros s v s' [= _ <-]|apply Code_eqv]. Qed.
Lemma GetState_calm a k : calm (GetState a k).
Proof. apply object_calm; [apply GetState_framed|by intros s v s' [= _ <-]|intros o s v s'; apply GetState_eqv]. Qed.
Lemma GetCommittedState_calm a k : calm (GetCommittedState a k).
Proof. apply object_calm; [apply GetCommittedState_framed|by intros s v s' [= _ <-]|intros o s v s'; apply GetCommittedState_eqv]. Qed.

Lemma AddPreimage_calm h b : calm (AddPreimage h b).
Proof.
  split; [apply AddPreimage_framed|]. intros s0 id s [] s' _ _. unfold AddPreimage, mbind, SM_bind, get.
  destruct (preimages s !! h); intros [= <-]; [by apply mild_eqv|]. split; try done. intros a. by left.
Qed.

(** ** Accounts that come to exist *)

Lemma live_barren s a : clean s → live s a = None → barren (eff s a).
Proof.
  intros Hc Hl. unfold live in Hl. destruct (eff s a) as [o|] eqn:E; [|done]. destruct (deleted o) eqn:Ed; [|done].
  split; [done|by apply (Hc a)].
Qed.

Lemma mild_put s a o e : clean s → live s a = None → obj_eqv a o blank → mild s (put a o (logged e (cached a s))).
Proof.
  intros Hc Hl Ho. split; [|unfold cached; by destruct (eff s a)..]. intros b. unfold put. rewrite eff_insert.
  destruct (decide (a = b)) as [<-|]; [|left; change (eff (logged e (cached a s)) b) with (eff (cached a s) b); by rewrite eff_cached].
  right. split; [by apply live_barren|eauto].
Qed.

Lemma GetOrNewStateObject_mild a s o s' : clean s → GetOrNewStateObject a s = Some (o, s') → mild s s'.
Proof.
  intros Hc. unfold GetOrNewStateObject, mbind, SM_bind. rewrite getStateObject_run.
  destruct (live s a) as [o'|] eqn:El; [intros [= _ <-]; apply mild_eqv; symmetry; apply cached_eqv|].
  rewrite createObject_run. intros [= _ <-]. eapply mild_trans; [apply mild_eqv; symmetry; apply (cached_eqv a)|].
  apply mild_put; [|unfold live in *; by rewrite eff_cached|done]. eapply mild_clean; [exact Hc|]. apply mild_eqv. symmetry. apply cached_eqv.
Qed.

Lemma touch_mild a s s' : touch a s = Some (tt, s') → mild s s'.
Proof.
  unfold touch, mbind, SM_bind. rewrite append_run. destruct (a =? ripemd); intros [= <-]; apply mild_eqv; symmetry; by apply eqv_frame.
Qed.

Lemma AddBalance_calm a : calm (AddBalance a 0).
Proof.
  split; [apply AddBalance_framed|]. intros s0 id s [] s' _ Hc (o & s1 & E1%GetOrNewStateObject_mild & E)%SM_bind_Some; [|done].
  eapply mild_trans; [exact E1|]. cbn [Z.eqb] in E. destruct (empty o); [by eapply touch_mild|]. injection E as <-. by apply mild_eqv.
Qed.

Lemma SubBalance_calm a : calm (SubBalance a 0).
Proof.
  split; [apply framed_reach; intros s [] s' W; by apply SubBalance_reach|].
  intros s0 id s [] s' _ Hc (o & s1 & E1%GetOrNewStateObject_mild & [= <-])%SM_bind_Some; done.
Qed.

Lemma Transfer_calm a b : calm (Transfer a b 0).
Proof. apply calm_bind; [apply SubBalance_calm|intros _; apply AddBalance_calm]. Qed.

Lemma CreateAccount_mild a s s' : clean s → live s a = None → CreateAccount a s = Some (tt, s') → mild s s'.
Proof.
  intros Hc Hl ([new prev] & s1 & E1 & E)%SM_bind_Some. rewrite createObject_run in E1. injection E1 as <- <- <-.
  pose proof (live_barren s a Hc Hl) as Hb. destruct (eff s a) as [prev|]; injection E as <-; [|by apply mild_put].
  destruct Hb as [_ Hb]. rewrite Hb.
  replace (with_objects _ _) with (put a (setBalance (setNonce blank 0) 0) (logged (create_entry a s) (cached a s))); [by apply mild_put|].
  unfold put, with_objects. cbn. by rewrite insert_insert_eq.
Qed.

(** ** Under a snapshot *)

(** What runs after the snapshot [id] of [s1] leaves its answers. *)
Definition calm_at {A} (id : Z) (s1 : StateDB) (m : SM A) : Prop :=
  ∀ s a s', since s1 id s → clean s1 → mild s1 s → m s = Some (a, s') → mild s1 s'.

Lemma calm_at_calm {A} id s1 (m : SM A) : calm m → calm_at id s1 m.
Proof.
  intros [_ Hm] s a s' Hs Hc M E. eapply mild_trans; [exact M|]. eapply Hm; [exact Hs|by eapply mild_clean|exact E].
Qed.

Lemma calm_at_bind {A B} id s1 (m : SM A) (k : A → SM B) : calm m → (∀ a, calm_at id s1 (k a)) → calm_at id s1 (m ≫= k).
Proof.
  intros [Fm Hm] Hk s b s' Hs Hc M (a & s2 & E1 & E2)%SM_bind_Some. eapply Hk; [by eapply Fm|done| |exact E2].
  eapply mild_trans; [exact M|]. eapply Hm; [exact Hs|by eapply mild_clean|exact E1].
Qed.

Lemma settle_at id s1 r : swf s1 → calm_at id s1 (settle id r).
Proof.
  intros W s r' s' Hs Hc M. destruct r as [[ret gas] err]. unfold settle. destruct err; [|by intros [= _ <-]].
  destruct (since_back_eqv s1 id s W Hs) as (s3 & E3 & Ev & _). rewrite (SM_bind_run _ _ _ _ _ E3). intros [= _ <-].
  apply mild_eqv. by symmetry.
Qed.

Lemma snapshot_mild {A} (body : Z → SM A) s a s' :
  swf s → revs_wf s → clean s → (∀ id, calm_at id s (body id)) → (n ← Snapshot; body n) s = Some (a, s') → mild s s'.
Proof.
  intros W Hw Hc Hb (id & s1 & E1 & E2)%SM_bind_Some. destruct (since_start s id s1 W Hw E1) as [_ Hs1].
  eapply Hb; [exact Hs1|done| |exact E2]. injection E1 as _ <-. apply mild_eqv. symmetry. by apply eqv_frame.
Qed.

Lemma mildly_snapshot {A} (body : Z → SM A) :
  (∀ id s1, swf s1 → calm_at id s1 (body id)) → mildly (n ← Snapshot; body n).
Proof.
  intros Hb s0 id0 s a s' Hs Hc. apply snapshot_mild; [apply Hs|apply Hs|done|]. intros id. apply Hb, Hs.
Qed.

(** Creating an account only when it does not exist. *)
Lemma Exist_create_at {A} id s1 a (b : bool → bool) (x : SM A) (k : SM A) :
  calm_at id s1 x → calm_at id s1 k →
  calm_at id s1 (ex ← Exist a; if b ex then x else (if negb ex then CreateAccount a else mret tt);; k).
Proof.
  intros Hx Hk s r s' Hs Hc M (ex & s2 & E1 & E)%SM_bind_Some.
  unfold Exist, mbind, SM_bind in E1. rewrite getStateObject_run in E1. injection E1 as Eex <-.
  assert (M1 : mild s1 (cached a s)) by (eapply mild_trans; [exact M|]; apply mild_eqv; symmetry; apply cached_eqv).
  assert (S1 : since s1 id (cached a s)) by (eapply since_write; [exact Hs|apply reach_cached, Hs]).
  destruct (b ex); [by eapply Hx|]. apply SM_bind_Some in E as ([] & s3 & E2 & E3). destruct ex; cbn [negb] in E2.
  - injection E2 as <-. by eapply Hk.
  - assert (Hl : live (cached a s) a = None) by (unfold live in *; rewrite eff_cached; destruct (eff s a) as [o|]; [by destruct (deleted o)|done]).
    pose proof (CreateAccount_mild _ _ _ (mild_clean _ _ Hc M1) Hl E2) as M2.
    eapply Hk; [|done|by eapply mild_trans|exact E3]. eapply since_write; [exact S1|]. eapply CreateAccount_reach; [apply S1|done].
Qed.

End State.

(** ** Calls in read-only mode *)

Definition static (evm : EVM) : Prop := readOnly evm = true ∧ IsByzantium (chainRules evm) = true.

Section Calls.
Context {BE : Backend} {IN : Interpreter} {LW : InterpreterLaws}.

(** The loop changes no answer in read-only mode. *)
Definition loop_calm : Prop := ∀ evm c, static evm → calm (run_loop evm c).

Context (LC : loop_calm).

Lemma run_calm evm c input ro : readOnly evm || ro = true → IsByzantium (chainRules evm) = true → calm (run evm c input ro).
Proof.
  intros Hr Hb. assert (HR : calm (Run evm c input ro)).
  { unfold Run. destruct (c_Code c); [apply calm_ret|]. by apply LC. }
  unfold run. destruct (CodeAddr c); [|done]. destruct (precompiles _ _); [apply calm_ret|done].
Qed.

Lemma load_code_calm c a : calm (load_code c a).
Proof. apply calm_bind; [apply read_calm|intros h]. apply calm_bind; [apply GetCode_calm|]. intros code. apply calm_ret. Qed.

Lemma CanTransfer_calm a x : calm (CanTransfer a x).
Proof. apply calm_bind; [apply read_calm|]. intros b. apply calm_ret. Qed.

Lemma run_settle_at id s1 evm c input ro :
  swf s1 → readOnly evm || ro = true → IsByzantium (chainRules evm) = true →
  calm_at id s1 (r ← run evm c input ro; settle id r).
Proof. intros W Hr Hb. apply calm_at_bind; [by apply run_calm|]. intros r. by apply settle_at. Qed.

(** A call that moves no money. *)
Definition no_value (k : call_kind) : Prop := match k with KCall v => v = 0 | _ => True end.

(** A static call needs no read-only mode around it. *)
Lemma StaticCall_mild evm caller addr input gas s r s' :
  IsByzantium (chainRules evm) = true → swf s → revs_wf s → clean s →
  StaticCall evm caller addr input gas s = Some (r, s') → mild s s'.
Proof.
  intros Hb W Hw Hc. unfold StaticCall. do 2 (case_match; [intros [= _ <-]; by apply mild_eqv|]).
  apply snapshot_mild; [done..|]. intros id.
  apply calm_at_bind; [apply load_code_calm|intros c]. apply calm_at_bind; [apply AddBalance_calm|intros _].
  apply run_settle_at; [done|apply orb_true_r|done].
Qed.

Lemma message_call_calm k evm caller addr input gas :
  static evm → no_value k → calm (message_call k evm caller addr input gas).
Proof.
  intros [Hr Hb] Hv. split; [apply message_call_framed|].
  assert (Hro : ∀ ro, readOnly evm || ro = true) by (intros ro; by rewrite Hr).
  assert (Hret : ∀ r : result, mildly (mret r)) by (intros r; apply calm_ret).
  destruct k as [value|value| |]; cbn [message_call no_value] in *.
  - subst value. unfold Call. do 2 (case_match; [apply Hret|]). apply mildly_bind; [apply CanTransfer_calm|intros can].
    destruct can; cbn [negb]; [|apply Hret]. apply mildly_snapshot. intros id s1 W.
    apply (Exist_create_at id s1 addr (λ ex, negb ex && negb (precompiles (chainRules evm) addr) && IsEIP158 (chainRules evm) && (0 =? 0)));
      [apply calm_at_calm, calm_ret|]. apply calm_at_bind; [apply Transfer_calm|intros _].
    apply calm_at_bind; [apply load_code_calm|intros c]. by apply run_settle_at.
  - unfold CallCode. do 2 (case_match; [apply Hret|]). apply mildly_bind; [apply CanTransfer_calm|intros can].
    destruct can; cbn [negb]; [|apply Hret]. apply mildly_snapshot. intros id s1 W.
    apply calm_at_bind; [apply load_code_calm|intros c]. by apply run_settle_at.
  - unfold DelegateCall. do 2 (case_match; [apply Hret|]). apply mildly_snapshot. intros id s1 W.
    destruct (AsDelegate _) as [c|]; [|by intros s a s']. apply calm_at_bind; [apply load_code_calm|intros c']. by apply run_settle_at.
  - intros s0 id s r s' Hs Hc. apply StaticCall_mild; [done|apply Hs|apply Hs|done].
Qed.

(** ** Instructions *)

Lemma pop_calm f : calm (pop f).
Proof. unfold pop. destruct (stack f); [apply calm_panic|apply calm_ret]. Qed.

Lemma write_mem_calm f o n v : calm (write_mem f o n v).
Proof. apply calm_bind; [apply calm_lift|intros m; apply calm_ret]. Qed.

Lemma after_call_calm f o n r : calm (after_call f o n r).
Proof.
  destruct r as [[ret g] err]. unfold after_call. apply calm_bind; [|intros f'; apply calm_ret].
  destruct (_ || _); [apply write_mem_calm|apply calm_ret].
Qed.

Ltac calm_step :=
  match goal with
  | |- calm (mret _) => apply calm_ret
  | |- calm (done _) => apply calm_ret
  | |- calm (fail_ _ _) => apply calm_ret
  | |- calm (lift _) => apply calm_lift
  | |- calm (read_mem _ _ _) => apply calm_lift
  | |- calm panic => apply calm_panic
  | |- calm (pop _) => apply pop_calm
  | |- calm (dup _ _) => unfold dup
  | |- calm (swap _ _) => unfold swap
  | |- calm (write_mem _ _ _ _) => apply write_mem_calm
  | |- calm (GetBalance _) => apply read_calm
  | |- calm (GetNonce _) => apply read_calm
  | |- calm (GetCodeHash _) => apply read_calm
  | |- calm (GetCodeSize _) => apply read_calm
  | |- calm (Empty _) => apply read_calm
  | |- calm (Exist _) => apply read_calm
  | |- calm (GetCode _) => apply GetCode_calm
  | |- calm (GetState _ _) => apply GetState_calm
  | |- calm (AddPreimage _ _) => apply AddPreimage_calm
  | |- calm (after_call _ _ _ _) => apply after_call_calm
  | |- calm (CallCode ?e ?c ?a ?i ?g ?v) => apply (message_call_calm (KCallCode v) e c a i g)
  | |- calm (DelegateCall ?e ?c ?a ?i ?g) => apply (message_call_calm KDelegateCall e c a i g)
  | |- calm (StaticCall ?e ?c ?a ?i ?g) => apply (message_call_calm KStaticCall e c a i g)
  | |- calm (_ ≫= _) => apply calm_bind; [|intros ?]
  | |- calm (if ?b then _ else _) => destruct b
  | |- calm (match ?x with _ => _ end) => destruct x
  end.

Ltac solve_calm := repeat (cbv beta zeta; calm_step); try done.

(** An instruction that may run in read-only mode. *)
Definition exec_calm (ex : executionFunc) : Prop := ∀ evm c f, static evm → calm (ex evm c f).
Definition gas_calm (dyn : gasFunc) : Prop := ∀ evm c f n, calm (dyn evm c f n).

Lemma calm_bind_pop {B} f (k : Z * frame → SM B) :
  (∀ x st, stack f = x :: st → calm (k (x, set_stack f st))) → calm (pop f ≫= k).
Proof.
  intros Hk. unfold pop. destruct (stack f) as [|x st]; [by split|].
  split; [intros s0 id s|intros s0 id s]; apply (Hk x st eq_refl).
Qed.

Lemma opCall_calm evm c f : static evm → stack f !! 2%nat = Some 0 → calm (opCall evm c f).
Proof.
  intros Hs Hv. unfold opCall. do 7 (apply calm_bind_pop; intros ? ? ?; cbv beta iota zeta).
  cbn [stack set_stack] in *. simplify_eq. match goal with H : stack f = _ |- _ => rewrite H in Hv end. injection Hv as ->.
  apply calm_bind; [apply calm_lift|intros args]. apply calm_bind; [|intros r; apply after_call_calm].
  by apply (message_call_calm (KCall (U256 0))).
Qed.

Definition op_calm (k : Z) (o : operation) : Prop :=
  writes (flags o) = false →
  (∀ evm c f, static evm → (k = CALL → stack f !! 2%nat = Some 0) → calm (execute o evm c f)) ∧
  match dynamicGas o with Some dyn => gas_calm dyn | None => True end.

Definition table_calm (jt : JumpTable) : Prop := Forall (λ '(k, o), op_calm k o) jt.

Lemma get_op_calm jt op o : table_calm jt → get_op jt op = Some o → op_calm op o.
Proof.
  intros Ht. induction Ht as [|[k o'] jt Ho Ht IH]; [done|]. cbn. destruct (Z.eqb_spec k op) as [->|]; [by intros [= <-]|done].
Qed.

Lemma set_constantGas_calm op gas jt : table_calm jt → table_calm (set_constantGas op gas jt).
Proof.
  intros Ht. unfold set_constantGas. destruct (get_op jt op) as [o|] eqn:E; [|done]. constructor; [|done].
  exact (get_op_calm _ _ _ Ht E).
Qed.

Lemma set_dynamicGas_calm op dyn jt :
  (∀ o, get_op jt op = Some o → writes (flags o) = false → gas_calm dyn) → table_calm jt → table_calm (set_dynamicGas op dyn jt).
Proof.
  intros Hd Ht. unfold set_dynamicGas. destruct (get_op jt op) as [o|] eqn:E; [|done]. constructor; [|done].
  intros Hw. cbn in Hw. split; [apply (get_op_calm _ _ _ Ht E Hw)|]. by apply (Hd o).
Qed.

Lemma pure_calm : gas_calm pureMemoryGascost.
Proof. intros evm c f n. unfold pureMemoryGascost. solve_calm. Qed.
Lemma memory_and_words_calm n p : gas_calm (memory_and_words n p).
Proof. intros evm c f k. unfold memory_and_words, pureMemoryGascost. solve_calm. Qed.
Lemma gas_exp_calm p : gas_calm (gas_exp p).
Proof. intros evm c f n. unfold gas_exp. solve_calm. Qed.
Lemma gasCall_calm : gas_calm gasCall.
Proof. intros evm c f n. unfold gasCall, pureMemoryGascost, with_call_gas. solve_calm. Qed.
Lemma gasCallCode_calm : gas_calm gasCallCode.
Proof. intros evm c f n. unfold gasCallCode, pureMemoryGascost, with_call_gas. solve_calm. Qed.
Lemma gasDelegateCall_calm : gas_calm gasDelegateCall.
Proof. intros evm c f n. unfold gasDelegateCall, pureMemoryGascost, with_call_gas. solve_calm. Qed.
Lemma gasStaticCall_calm : gas_calm gasStaticCall.
Proof. intros evm c f n. unfold gasStaticCall, pureMemoryGascost, with_call_gas. solve_calm. Qed.

Ltac head_of t := lazymatch t with ?f _ => head_of f | _ => t end.

Ltac exec_calm :=
  lazymatch goal with
  | |- calm (?ex ?evm ?c ?f) => let h := head_of ex in unfold h; try unfold unary, binary, ternary, pushes; solve_calm
  end.

Ltac gas_calm :=
  first [exact I | apply pure_calm | apply memory_and_words_calm | apply gas_exp_calm | apply gasCallCode_calm
        | apply gasDelegateCall_calm | apply gasStaticCall_calm].

Ltac entry_calm :=
  lazymatch goal with
  | |- op_calm _ (mk_op opCall _ _ _ _ _ _) =>
      intros _; split; [intros evm c f Hs Hv; apply opCall_calm; [done|by apply Hv]|apply gasCall_calm]
  | |- op_calm _ (mk_op _ _ _ _ _ _ writing) => intros Hw; discriminate Hw
  | |- op_calm _ (mk_op _ _ _ _ _ _ creating) => intros Hw; discriminate Hw
  | |- op_calm _ (mk_op _ _ _ _ _ _ destroying) => intros Hw; discriminate Hw
  | |- op_calm _ (mk_op _ _ _ _ _ _ _) => intros _; split; [intros evm c f Hs _; cbn [execute mk_op]; exec_calm|cbn [dynamicGas mk_op]; gas_calm]
  end.

Ltac table_calm := repeat (apply Forall_cons; split; [cbv beta iota; entry_calm|]); apply Forall_nil_2.

Lemma push_ops_calm : table_calm push_ops.
Proof. apply Forall_fmap, Forall_forall. intros n _. cbn beta iota. unfold compose. entry_calm. Qed.
Lemma dup_ops_calm : table_calm dup_ops.
Proof. apply Forall_fmap, Forall_forall. intros n _. cbn beta iota. unfold compose. entry_calm. Qed.
Lemma swap_ops_calm : table_calm swap_ops.
Proof. apply Forall_fmap, Forall_forall. intros n _. cbn beta iota. unfold compose. entry_calm. Qed.
Lemma log_ops_calm : table_calm log_ops.
Proof. apply Forall_fmap, Forall_forall. intros n _. cbn beta iota. unfold compose. entry_calm. Qed.

Lemma frontier_calm : table_calm newFrontierInstructionSet.
Proof.
  unfold newFrontierInstructionSet, table_calm. rewrite !Forall_app.
  split_and!; [table_calm|apply push_ops_calm|apply dup_ops_calm|apply swap_ops_calm|apply log_ops_calm].
Qed.

Lemma homestead_calm : table_calm newHomesteadInstructionSet.
Proof. apply Forall_cons. split; [cbv beta iota; entry_calm|apply frontier_calm]. Qed.

Lemma tangerine_calm : table_calm newTangerineWhistleInstructionSet.
Proof. unfold newTangerineWhistleInstructionSet. repeat apply set_constantGas_calm. apply homestead_calm. Qed.

Lemma dragon_calm : table_calm newSpuriousDragonInstructionSet.
Proof. apply set_dynamicGas_calm; [intros; apply gas_exp_calm|apply tangerine_calm]. Qed.

Lemma byzantium_calm : table_calm newByzantiumInstructionSet.
Proof. apply Forall_app. split; [table_calm|apply dragon_calm]. Qed.

Lemma constantinople_calm : table_calm newConstantinopleInstructionSet.
Proof. apply Forall_app. split; [table_calm|apply byzantium_calm]. Qed.

Lemma istanbul_calm : table_calm newIstanbulInstructionSet.
Proof.
  apply set_dynamicGas_calm.
  - assert (E : get_op (enable1884 (enable1344 newConstantinopleInstructionSet)) 85 = Some (mk_op opSstore 0 (Some gasSStore) 2 0 None writing)) by reflexivity.
    intros o Eo Hw. rewrite E in Eo. apply (inj Some) in Eo as <-. discriminate Hw.
  - apply Forall_cons. split; [cbv beta iota; entry_calm|]. repeat apply set_constantGas_calm.
    apply Forall_cons. split; [cbv beta iota; entry_calm|apply constantinople_calm].
Qed.

Lemma instruction_set_calm r : table_calm (instruction_set r).
Proof.
  unfold instruction_set. repeat case_match;
    [apply istanbul_calm|apply constantinople_calm|apply byzantium_calm|apply dragon_calm|apply tangerine_calm|apply homestead_calm|apply frontier_calm].
Qed.

(** ** The loop *)

Lemma calm_post {A B} (m : SM A) (k : A → SM B) (P : A → Prop) :
  calm m → post m P → (∀ a, P a → calm (k a)) → calm (m ≫= k).
Proof.
  intros [Fm Hm] Hp Hk. split.
  - intros s0 id s b s' Hs (a & s1 & E1 & E2)%SM_bind_Some. eapply (proj1 (Hk a (Hp _ _ _ E1))); [by eapply Fm|exact E2].
  - intros s0 id s b s' Hs Hc (a & s1 & E1 & E2)%SM_bind_Some. pose proof (Hm _ _ _ _ _ Hs Hc E1) as M1.
    eapply mild_trans; [exact M1|]. eapply (proj2 (Hk a (Hp _ _ _ E1))); [by eapply Fm|by eapply mild_clean|exact E2].
Qed.

(** Paying leaves the stack. *)
Lemma pay_stack o evm c f : op_ok o → post (pay o evm c f) (λ p, match p with inr f' => stack f' = stack f | inl _ => True end).
Proof.
  intros [pops pushes extra least [_ _ _ _ _ Hd _ _ _]]. unfold pay. destruct (UseGas _ _); [|by apply post_ret].
  apply post_any. intros [sz ov]. destruct (if ov then _ else _) as [n ov']. destruct ov'; [by apply post_ret|].
  destruct (dynamicGas o) as [dyn|]; [|by apply post_ret]. eapply post_bind; [apply Hd|]. intros [cost f1] (_ & H2 & _).
  destruct cost; [|by apply post_ret]. destruct (UseGas _ _); by apply post_ret.
Qed.

Lemma pay_calm o evm c f : match dynamicGas o with Some dyn => gas_calm dyn | None => True end → calm (pay o evm c f).
Proof.
  intros Hd. unfold pay. destruct (UseGas _ _); [|apply calm_ret]. apply calm_bind; [apply calm_lift|]. intros [sz ov].
  destruct (if ov then _ else _) as [n ov']. destruct ov'; [apply calm_ret|]. destruct (dynamicGas o) as [dyn|]; [|apply calm_ret].
  apply calm_bind; [apply Hd|]. intros [[k|] f']; [|apply calm_ret]. destruct (UseGas _ _); apply calm_ret.
Qed.

Lemma step_calm jt evm c f : table_ok jt → table_calm jt → static evm → calm (step jt evm c f).
Proof.
  intros Ht Hc Hs. unfold step. destruct (get_op jt _) as [o|] eqn:Eo; [|apply calm_ret].
  pose proof (get_op_ok _ _ _ Ht Eo) as Ho. pose proof (get_op_calm _ _ _ Hc Eo) as Hoc.
  destruct (_ <? _); [apply calm_ret|]. destruct (_ <? _); [apply calm_ret|].
  eapply (calm_post _ _ (λ p, write_protected o (GetOp c (pc f)) evm f = Some p)); [apply calm_lift|by apply post_lift|].
  intros protected Hp. destruct protected; [apply calm_ret|]. unfold write_protected in Hp. destruct Hs as [Hr Hb].
  rewrite Hr, Hb in Hp. cbn [andb] in Hp. destruct (writes (flags o)) eqn:Ew; [done|]. destruct (Hoc Ew) as [He Hd].
  eapply calm_post; [by apply pay_calm|by apply pay_stack|]. intros [[e f1]|f1] Hst; [apply calm_ret|].
  unfold finish. apply calm_bind; [|intros [[res err] f2]; destruct err; apply calm_ret].
  apply He; [done|]. intros Ek. rewrite Hst. rewrite Ek in Hp. cbn [Z.eqb CALL Pos.eqb] in Hp. unfold Back in Hp.
  destruct (stack f !! 2%nat) as [v|]; [|done]. cbn [mbind option_bind] in Hp. destruct (Z.eqb_spec v 0) as [E0|]; [by rewrite E0|done].
Qed.

Lemma loop_is_calm fuel jt evm c f : table_ok jt → table_calm jt → static evm → calm (loop fuel jt evm c f).
Proof.
  intros Ht Hc Hs. revert f. induction fuel as [|fuel IH]; intros f; cbn [loop]; [apply calm_ret|].
  apply calm_bind; [by apply step_calm|]. intros [r|f']; [apply calm_ret|apply IH].
Qed.

Lemma run_code_calm evm c : static evm → calm (run_code evm c).
Proof. intros Hs. apply loop_is_calm; [apply instruction_set_ok|apply instruction_set_calm|done]. Qed.

End Calls.

Lemma machine_calm {BE : Backend} {PR : Precompiles} {PL : PrecompilesLaws} n : loop_calm (IN := machine n).
Proof.
  induction n as [|n IH]; intros evm c Hs; [apply calm_ret|]. exact (run_code_calm (IN := machine n) IH evm c Hs).
Qed.

(** ** What a caller sees *)

Section Views.
Context {BE : Backend}.

(** An account that does not exist, and one that exists and is empty. *)
Definition absent : view := mk_view false true 0 0 None 0 0 0 false.
Definition empty_account : view := mk_view true true 0 0 None emptyCodeHash 0 0 false.

Lemma blank_view a k : view_of a k (Some blank) = empty_account.
Proof. unfold view_of, empty_account, current, committed, code_of. cbn. rewrite !lookup_empty, Z.eqb_refl, read_empty. reflexivity. Qed.

Lemma mild_views s t a k :
  mild s t → observe t a k = observe s a k ∨ observe s a k = Some absent ∧ observe t a k = Some empty_account.
Proof.
  intros [M _ _ _]. rewrite !observe_live. destruct (M a) as [Hm|[Hb (n & En & Hn)]].
  - left. unfold live. destruct Hm as [o o' Ho|]; [|done]. destruct Ho as [Ed Es El Ec Et Eo]. rewrite El.
    destruct (deleted o'); [done|]. cbn. unfold empty. by rewrite Ed, Es, Ec, Et, Eo.
  - right. unfold live. rewrite En. pose proof (oe_deleted _ _ _ Hn) as Ed. cbn in Ed. rewrite Ed. split.
    + destruct (eff s a) as [o|]; [|done]. destruct Hb as [Hb _]. by rewrite Hb.
    + f_equal. rewrite <-(blank_view a k). destruct Hn as [Hd Hs _ Hc Ht Ho]. cbn [view_of]. unfold empty. by rewrite Hd, Hs, Hc, Ht, Ho.
Qed.

End Views.
End StaticProofs.

Module RefundProofs.
Import Word StateDB StateProofs Evm EvmProofs Instructions Machine MachineProofs StaticProofs.

Section State.
Context {BE : Backend}.

(** ** Cleared slots *)

Definition cleared (a : Z) (o : stateObject) (k : Z) : Prop := committed a o k ≠ 0 ∧ current a o k = 0.

Definition zeroed (s : StateDB) (a k : Z) : Prop := ∃ o, live s a = Some o ∧ cleared a o k.

(** The refund for clearing a slot, the same under all rules. *)
Definition clear_refund : Z := 15000.

(** The slots that satisfy [P] are covered by the refund counter. *)
Definition covered (P : Z → Z → Prop) (s : StateDB) : Prop :=
  ∃ D : gset (Z * Z), (∀ a k, P a k → (a, k) ∈ D) ∧ clear_refund * Z.of_nat (size D) <= refund s.

Definition backed (s : StateDB) : Prop := covered (zeroed s) s.

(** No slot is cleared and the counter stays. *)
Definition tame (s s' : StateDB) : Prop := refund s' = refund s ∧ ∀ a k, zeroed s' a k → zeroed s a k.

#[export] Instance tame_preorder : PreOrder tame.
Proof.
  split; [by intros s|]. intros s1 s2 s3 [E1 H1] [E2 H2]. split; [congruence|auto].
Qed.

Lemma tame_backed s s' : tame s s' → backed s → backed s'.
Proof. intros [E H] (D & HD & Hs). exists D. rewrite E. split; [auto|done]. Qed.

Lemma cleared_eqv a o o' k : obj_eqv a o o' → cleared a o' k → cleared a o k.
Proof. intros [_ _ _ Ec Et _]. unfold cleared. by rewrite Ec, Et. Qed.

Lemma tame_eqv s s' : eqv s s' → tame s s'.
Proof.
  intros E. split; [symmetry; apply (e_refund _ _ E)|]. intros a k (o' & Hl & Ho).
  pose proof (live_eqv _ _ a E) as Hv. rewrite Hl in Hv. inversion Hv as [o ? Hoo El|]; subst.
  exists o. split; [done|by eapply cleared_eqv].
Qed.

(** A write of an object that clears nothing. *)
Lemma tame_put s s' a o :
  deleted o = false → (∀ k, cleared a o k → zeroed s a k) → (∀ b, b ≠ a → live s' b = live s b) → refund s' = refund s →
  tame s (put a o s').
Proof.
  intros Hd Ho Hl Hr. split; [done|]. intros b k (o' & Eo & Hc). rewrite put_live in Eo by done.
  destruct (decide (b = a)) as [->|Hb]; [injection Eo as <-; auto|]. exists o'. by rewrite <-Hl.
Qed.

Lemma blank_cleared a k : ¬ cleared a (setNonce blank 0) k.
Proof. intros [H1 H2]. unfold current, committed in *. cbn in *. by rewrite !lookup_empty in *. Qed.

(** ** Computations that clear nothing and cannot fail *)

Definition mellow {A} (m : SM A) : Prop := ∀ s, ∃ a s', m s = Some (a, s') ∧ tame s s'.

Definition gentle {A} (m : SM A) : Prop := framed m ∧ mellow m.

Lemma gentle_ret {A} (a : A) : gentle (mret a).
Proof. split; [apply framed_ret|]. intros s. by exists a, s. Qed.

Lemma gentle_bind {A B} (m : SM A) (k : A → SM B) : gentle m → (∀ a, gentle (k a)) → gentle (m ≫= k).
Proof.
  intros [Fm Hm] Hk. split; [apply framed_bind; [done|intros a; apply Hk]|].
  intros s. destruct (Hm s) as (a & s1 & E1 & T1). destruct (proj2 (Hk a) s1) as (b & s2 & E2 & T2).
  exists b, s2. split; [by rewrite (SM_bind_run _ _ _ _ _ E1)|by etrans].
Qed.

Lemma gentle_post {A B} (m : SM A) (k : A → SM B) (P : A → Prop) :
  gentle m → post m P → (∀ a, P a → gentle (k a)) → gentle (m ≫= k).
Proof.
  intros [Fm Hm] Hp Hk. split.
  - intros s0 id s b s' Hs (a & s1 & E1 & E2)%SM_bind_Some. eapply (proj1 (Hk a (Hp _ _ _ E1))); [by eapply Fm|exact E2].
  - intros s. destruct (Hm s) as (a & s1 & E1 & T1). destruct (proj2 (Hk a (Hp _ _ _ E1)) s1) as (b & s2 & E2 & T2).
    exists b, s2. split; [by rewrite (SM_bind_run _ _ _ _ _ E1)|by etrans].
Qed.

Lemma mellow_bind {A B} (m : SM A) (k : A → SM B) : mellow m → (∀ a, mellow (k a)) → mellow (m ≫= k).
Proof.
  intros Hm Hk s. destruct (Hm s) as (a & s1 & E1 & T1). destruct (Hk a s1) as (b & s2 & E2 & T2).
  exists b, s2. split; [by rewrite (SM_bind_run _ _ _ _ _ E1)|by etrans].
Qed.

Lemma mellow_ret {A} (a : A) : mellow (mret a).
Proof. intros s. by exists a, s. Qed.

Lemma getStateObject_gentle a : gentle (getStateObject a).
Proof.
  split; [apply getStateObject_framed|]. intros s. exists (live s a), (cached a s). split; [apply getStateObject_run|].
  apply tame_eqv. symmetry. apply cached_eqv.
Qed.

Lemma read_gentle {A} a (f : option stateObject → A) : gentle (o ← getStateObject a; mret (f o)).
Proof. apply gentle_bind; [apply getStateObject_gentle|intros o; apply gentle_ret]. Qed.

(** A read that may fill a cache of the object. *)
Lemma object_gentle {A} a (k : option stateObject → SM A) :
  framed (o ← getStateObject a; k o) → (∀ s, ∃ v, k None s = Some (v, s)) →
  (∀ o s, live s a = Some o → ∃ v s', k (Some o) s = Some (v, s') ∧ eqv s s') →
  gentle (o ← getStateObject a; k o).
Proof.
  intros Hf Hn Hk. split; [done|]. intros s. rewrite (SM_bind_run _ _ _ _ _ (getStateObject_run a s)).
  assert (T : tame s (cached a s)) by (apply tame_eqv; symmetry; apply cached_eqv). destruct (live s a) as [o|] eqn:El.
  - destruct (Hk o (cached a s)) as (v & s' & E & Ev); [by rewrite live_cached_eq|]. exists v, s'. split; [done|].
    etrans; [exact T|by apply tame_eqv].
  - destruct (Hn (cached a s)) as [v E]. by exists v, (cached a s).
Qed.

Lemma Code_total a o s : is_Some (Code a o s).
Proof. unfold Code. destruct (code o); [done|]. by destruct (_ =? _). Qed.

Lemma committed_total a o k s : is_Some (obj_GetCommittedState a o k s).
Proof. unfold obj_GetCommittedState. destruct (pendingStorage o !! k); [done|]. by destruct (originStorage o !! k). Qed.

Lemma state_total a o k s : is_Some (obj_GetState a o k s).
Proof. unfold obj_GetState. destruct (dirtyStorage o !! k); [done|apply committed_total]. Qed.

Lemma GetCode_gentle a : gentle (GetCode a).
Proof.
  apply object_gentle; [apply Code_framed|by eexists|]. intros o s Hl. destruct (Code_total a o s) as [[c s'] E].
  exists c, s'. split; [done|by eapply Code_eqv].
Qed.

Lemma GetState_gentle a k : gentle (GetState a k).
Proof.
  apply object_gentle; [apply GetState_framed|by eexists|]. intros o s Hl. destruct (state_total a o k s) as [[v s'] E].
  exists v, s'. split; [done|by eapply GetState_eqv].
Qed.

Lemma GetCommittedState_gentle a k : gentle (GetCommittedState a k).
Proof.
  apply object_gentle; [apply GetCommittedState_framed|by eexists|]. intros o s Hl. destruct (committed_total a o k s) as [[v s'] E].
  exists v, s'. split; [done|by eapply GetCommittedState_eqv].
Qed.

(** ** Writes that clear nothing *)

Lemma GetOrNewStateObject_tame a s :
  ∃ o s', GetOrNewStateObject a s = Some (o, s') ∧ tame s s' ∧ live s' a = Some o.
Proof.
  unfold GetOrNewStateObject, mbind, SM_bind. rewrite getStateObject_run. destruct (live s a) as [o|] eqn:El.
  - exists o, (cached a s). split_and!; [done|apply tame_eqv; symmetry; apply cached_eqv|by rewrite live_cached_eq].
  - rewrite createObject_run. eexists _, _. split_and!; [done| |by apply live_put].
    apply tame_put; [done|intros k []%blank_cleared| |].
    + intros b Hb. change (live (logged _ ?t) b) with (live t b). by rewrite !live_cached_eq.
    + cbn. by rewrite !refund_cached.
Qed.

(** Changing a live object without its storage. *)
Lemma write_mellow {A} a (k : stateObject → SM A) :
  (∀ o s, live s a = Some o → ∃ v s', k o s = Some (v, s') ∧ tame s s') → mellow (o ← GetOrNewStateObject a; k o).
Proof.
  intros Hk s. destruct (GetOrNewStateObject_tame a s) as (o & s1 & E1 & T1 & Hl). rewrite (SM_bind_run _ _ _ _ _ E1).
  destruct (Hk o s1 Hl) as (v & s2 & E2 & T2). exists v, s2. split; [done|by etrans].
Qed.

Lemma tame_object s a o o' e :
  live s a = Some o → deleted o' = false → (∀ k, cleared a o' k → cleared a o k) → tame s (put a o' (logged e s)).
Proof. intros Hl Hd Hc. apply tame_put; [done| |done|done]. intros k Hk. exists o. auto. Qed.

Lemma obj_SetBalance_tame a o x s : live s a = Some o → ∃ s', obj_SetBalance a o x s = Some (tt, s') ∧ tame s s'.
Proof.
  intros Hl. eexists. split; [done|]. apply (tame_object s a o (setBalance o x)); [done| |done]. apply (live_not_deleted _ _ _ Hl).
Qed.

Lemma touch_tame a s : ∃ s', touch a s = Some (tt, s') ∧ tame s s'.
Proof. unfold touch, mbind, SM_bind. rewrite append_run. destruct (a =? ripemd); by eexists. Qed.

Lemma AddBalance_gentle a x : gentle (AddBalance a x).
Proof.
  split; [apply AddBalance_framed|]. apply write_mellow. intros o s Hl.
  destruct (x =? 0); [destruct (empty o)|].
  - destruct (touch_tame a s) as (s' & E & T). eauto.
  - by exists tt, s.
  - destruct (obj_SetBalance_tame a o (Balance (data o) + x) s Hl) as (s' & E & T). eauto.
Qed.

Lemma SubBalance_gentle a x : gentle (SubBalance a x).
Proof.
  split; [apply framed_reach; intros s [] s' W; by apply SubBalance_reach|]. apply write_mellow. intros o s Hl.
  destruct (x =? 0); [by exists tt, s|]. destruct (obj_SetBalance_tame a o (Balance (data o) - x) s Hl) as (s' & E & T). eauto.
Qed.

Lemma Transfer_gentle a b x : gentle (Transfer a b x).
Proof. apply gentle_bind; [apply SubBalance_gentle|intros _; apply AddBalance_gentle]. Qed.

Lemma SetNonce_gentle a x : gentle (SetNonce a x).
Proof.
  split; [apply SetNonce_framed|]. apply write_mellow. intros o s Hl. eexists _, _. split; [done|].
  apply (tame_object s a o (setNonce o x)); [done| |done]. apply (live_not_deleted _ _ _ Hl).
Qed.

Lemma SetCode_gentle a c : gentle (SetCode a c).
Proof.
  split; [apply framed_reach; intros s [] s' W; by apply SetCode_reach|]. apply write_mellow. intros o s Hl.
  destruct (Code_total a o s) as [[pc s1] E]. rewrite (SM_bind_run _ _ _ _ _ E). pose proof (Code_eqv _ _ _ _ _ Hl E) as Ev.
  pose proof (live_eqv _ _ a Ev) as Hv. rewrite Hl in Hv. inversion Hv as [? o1 Ho E0 El|]; subst.
  set (e := codeChange a pc (CodeHash (data o))). rewrite (SM_bind_run _ _ _ _ _ (append_run e s1)), on_object_run.
  change (live (logged e s1) a) with (live s1 a). rewrite <-El. eexists _, _. split; [done|]. etrans; [by apply tame_eqv|].
  apply (tame_object s1 a o1); [done| |done]. symmetry in El. apply (live_not_deleted _ _ _ El).
Qed.

Lemma Suicide_gentle a : gentle (Suicide a).
Proof.
  split; [apply Suicide_framed|]. intros s. unfold Suicide. rewrite (SM_bind_run _ _ _ _ _ (getStateObject_run a s)).
  destruct (live s a) as [o|] eqn:El; [|eexists _, _; split; [done|]; apply tame_eqv; symmetry; apply cached_eqv].
  eexists _, _. split; [done|]. etrans; [apply tame_eqv; symmetry; apply (cached_eqv a)|].
  apply (tame_object (cached a s) a o); [by rewrite live_cached_eq| |done]. apply (live_not_deleted _ _ _ El).
Qed.

Lemma CreateAccount_gentle a : gentle (CreateAccount a).
Proof.
  split; [apply CreateAccount_framed|]. intros s. unfold CreateAccount. rewrite (SM_bind_run _ _ _ _ _ (createObject_run a s)).
  assert (T : ∀ x, tame s (put a (setBalance (setNonce blank 0) x) (logged (create_entry a s) (cached a s)))).
  { intros x. apply tame_put; [done|intros k Hk; by destruct (blank_cleared a k)| |apply (refund_cached a)].
    intros b Hb. apply live_cached_eq. }
  destruct (eff s a) as [prev|].
  - eexists _, _. split; [apply setStateObject_run|]. specialize (T (Balance (data prev))). revert T. unfold put, with_objects. cbn.
    by rewrite insert_insert_eq.
  - eexists _, _. split; [done|]. exact (T 0).
Qed.

Lemma AddLog_gentle lg : gentle (AddLog lg).
Proof. split; [apply AddLog_framed|]. intros s. unfold AddLog, mbind, SM_bind, get. rewrite append_run. unfold modify. eexists _, _. by split; [|split]. Qed.

Lemma AddPreimage_gentle h b : gentle (AddPreimage h b).
Proof.
  split; [apply AddPreimage_framed|]. intros s. unfold AddPreimage, mbind, SM_bind, get.
  destruct (preimages s !! h); [by exists tt, s|]. rewrite append_run. unfold modify. eexists _, _. by split; [|split].
Qed.

(** ** Storage writes *)

Definition cur_of (s : StateDB) (a k : Z) : Z := match live s a with Some o => current a o k | None => 0 end.
Definition orig_of (s : StateDB) (a k : Z) : Z := match live s a with Some o => committed a o k | None => 0 end.

Lemma zeroed_iff s a k : zeroed s a k ↔ orig_of s a k ≠ 0 ∧ cur_of s a k = 0.
Proof.
  unfold zeroed, cleared, orig_of, cur_of. destruct (live s a) as [o|].
  - split; [by intros (o' & [= <-] & H)|eauto].
  - split; [by intros (o' & ? & _)|]. by intros [? _].
Qed.

Lemma values_eqv s s' a k : eqv s s' → cur_of s' a k = cur_of s a k ∧ orig_of s' a k = orig_of s a k.
Proof.
  intros E. unfold cur_of, orig_of. destruct (live_eqv _ _ a E) as [o o' [_ _ _ Ec Et _]|]; [|done]. by rewrite Ec, Et.
Qed.

Lemma GetState_value a k s : ∃ s', GetState a k s = Some (cur_of s a k, s') ∧ eqv s s'.
Proof.
  unfold GetState. rewrite (SM_bind_run _ _ _ _ _ (getStateObject_run a s)).
  assert (Ec : eqv s (cached a s)) by (symmetry; apply cached_eqv). unfold cur_of. destruct (live s a) as [o|] eqn:El; [|by eexists].
  destruct (state_total a o k (cached a s)) as [[v s'] E]. pose proof (obj_GetState_result a o k (cached a s)) as Er.
  rewrite E in Er. injection Er as ->. exists s'. split; [done|]. etrans; [exact Ec|]. eapply GetState_eqv; [|exact E]. by rewrite live_cached_eq.
Qed.

Lemma GetCommittedState_value a k s : ∃ s', GetCommittedState a k s = Some (orig_of s a k, s') ∧ eqv s s'.
Proof.
  unfold GetCommittedState. rewrite (SM_bind_run _ _ _ _ _ (getStateObject_run a s)).
  assert (Ec : eqv s (cached a s)) by (symmetry; apply cached_eqv). unfold orig_of. destruct (live s a) as [o|] eqn:El; [|by eexists].
  destruct (committed_total a o k (cached a s)) as [[v s'] E]. pose proof (obj_GetCommittedState_result a o k (cached a s)) as Er.
  rewrite E in Er. injection Er as ->. exists s'. split; [done|]. etrans; [exact Ec|]. eapply GetCommittedState_eqv; [|exact E]. by rewrite live_cached_eq.
Qed.

(** The slots that are cleared once [v] is written to slot [k] of [a]. *)
Definition written (s : StateDB) (a k v b j : Z) : Prop :=
  if decide (b = a ∧ j = k) then orig_of s a k ≠ 0 ∧ v = 0 else zeroed s b j.

Lemma written_eqv s s' a k v b j : eqv s s' → written s' a k v b j → written s a k v b j.
Proof.
  intros E. unfold written. destruct (values_eqv _ _ a k E) as [_ ->]. case_decide; [done|]. apply (tame_eqv _ _ E).
Qed.

Lemma SetState_written a k v s :
  ∃ s', SetState a k v s = Some (tt, s') ∧ refund s' = refund s ∧ ∀ b j, zeroed s' b j → written s a k v b j.
Proof.
  unfold SetState. destruct (GetOrNewStateObject_tame a s) as (o & s1 & E1 & T1 & L1). rewrite (SM_bind_run _ _ _ _ _ E1).
  assert (Hblank : ∀ j, orig_of s a j = 0 → committed a o j = 0).
  { intros j. unfold GetOrNewStateObject in E1. rewrite (SM_bind_run _ _ _ _ _ (getStateObject_run a s)) in E1. unfold orig_of.
    destruct (live s a) as [o'|] eqn:El; [by injection E1 as <- _|]. intros _. rewrite (SM_bind_run _ _ _ _ _ (createObject_run a _)) in E1.
    injection E1 as <- _. unfold committed. cbn. by rewrite !lookup_empty, read_empty. }
  destruct (state_total a o k s1) as [[prev s2] E2]. rewrite (SM_bind_run _ _ _ _ _ E2).
  pose proof (obj_GetState_result a o k s1) as Er. rewrite E2 in Er. injection Er as ->.
  pose proof (GetState_eqv _ _ _ _ _ _ L1 E2) as Ev. assert (T2 : tame s s2) by (etrans; [exact T1|by apply tame_eqv]).
  destruct (Z.eqb_spec (current a o k) v) as [Hv|Hv].
  - exists s2. split_and!; [done|apply T2|]. intros b j Hz. unfold written. pose proof (proj2 T2 _ _ Hz) as Hs. case_decide as Hd; [|done].
    destruct Hd as [-> ->]. split; [by apply zeroed_iff in Hs as []|]. apply zeroed_iff in Hz as [_ Hz].
    destruct (values_eqv _ _ a k Ev) as [Ec _]. rewrite Ec in Hz. unfold cur_of in Hz. rewrite L1 in Hz. congruence.
  - pose proof (live_eqv _ _ a Ev) as Hl. rewrite L1 in Hl. inversion Hl as [? o2 Ho E0 L2|]; subst. symmetry in L2.
    set (e := storageChange a k (current a o k)). rewrite (SM_bind_run _ _ _ _ _ (append_run e s2)), on_object_run.
    change (live (logged e s2) a) with (live s2 a). rewrite L2. eexists. split_and!; [done|apply T2|].
    intros b j (o' & Lb & Hc). rewrite put_live in Lb by apply (live_not_deleted _ _ _ L2). unfold written.
    destruct (decide (b = a)) as [->|Hb].
    + injection Lb as <-. destruct Hc as [H1 H2]. change (committed a (setState o2 k v) j) with (committed a o2 j) in H1.
      case_decide as Hd.
      * destruct Hd as [_ ->]. split.
        -- intros H0. apply H1. rewrite <-(oe_committed _ _ _ Ho). auto.
        -- unfold current in H2. cbn in H2. by rewrite lookup_insert_eq in H2.
      * apply T2. exists o2. split; [done|]. split; [done|]. unfold current in *. cbn in H2. by rewrite lookup_insert_ne in H2 by naive_solver.
    + rewrite decide_False by naive_solver. apply T2. by exists o'.
Qed.

(** ** The counter *)

Lemma covered_mono (P Q : Z → Z → Prop) s s' : covered P s → (∀ a k, Q a k → P a k) → refund s <= refund s' → covered Q s'.
Proof. intros (D & HD & Hs) HQ Hr. exists D. split; [auto|lia]. Qed.

Lemma covered_more (P Q : Z → Z → Prop) s s' a k :
  covered P s → (∀ b j, Q b j → P b j ∨ (b = a ∧ j = k)) → refund s + clear_refund <= refund s' → covered Q s'.
Proof.
  intros (D & HD & Hs) HQ Hr. exists ({[(a, k)]} ∪ D). split.
  - intros b j [Hp|[-> ->]]%HQ; set_solver.
  - assert (size ({[(a, k)]} ∪ D) <= size D + 1)%nat; [|unfold clear_refund in *; lia].
    rewrite size_union_alt, size_singleton. assert (size (D ∖ {[(a, k)]}) <= size D)%nat; [|lia]. apply subseteq_size. set_solver.
Qed.

Lemma covered_less (P Q : Z → Z → Prop) s s' a k :
  covered P s → P a k → (∀ b j, Q b j → P b j ∧ (b, j) ≠ (a, k)) → refund s - clear_refund <= refund s' → covered Q s'.
Proof.
  intros (D & HD & Hs) Hp HQ Hr. exists (D ∖ {[(a, k)]}). split.
  - intros b j [Hb Hn]%HQ. apply elem_of_difference. split; [auto|]. by rewrite elem_of_singleton.
  - assert (size D = 1 + size (D ∖ {[(a, k)]}))%nat; [|unfold clear_refund in *; lia].
    rewrite <-(size_singleton (C := gset (Z * Z)) (a, k)), <-size_union by set_solver. f_equal. apply set_eq. intros x.
    destruct (decide (x = (a, k))); set_solver.
Qed.

Lemma covered_enough (P : Z → Z → Prop) s a k : covered P s → P a k → clear_refund <= refund s.
Proof.
  intros (D & HD & Hs) Hp%HD. assert (1 <= size D)%nat; [|unfold clear_refund in *; lia].
  rewrite <-(size_singleton (C := gset (Z * Z)) (a, k)). apply subseteq_size. set_solver.
Qed.

Lemma AddRefund_run g s : 0 <= refund s → 0 <= g → refund s + g < two64 →
  ∃ s', AddRefund g s = Some (tt, s') ∧ refund s' = refund s + g ∧ (∀ a, live s' a = live s a).
Proof. intros H0 Hg Hr. eexists. split; [done|]. split; [|done]. cbn. apply u64_small. unfold is_u64. lia. Qed.

Lemma SubRefund_run g s : 0 <= g <= refund s → refund s < two64 →
  ∃ s', SubRefund g s = Some (tt, s') ∧ refund s' = refund s - g ∧ (∀ a, live s' a = live s a).
Proof.
  intros Hg Hr. unfold SubRefund, mbind, SM_bind, get. rewrite append_run. rewrite (proj2 (Z.ltb_ge _ _)) by lia.
  eexists. split; [done|]. split; [|done]. cbn. apply u64_small. unfold is_u64. lia.
Qed.

Lemma zeroed_live s s' a k : live s' a = live s a → zeroed s' a k → zeroed s a k.
Proof. intros E. unfold zeroed. by rewrite E. Qed.

Lemma written_live s s' a k v b j : (∀ a, live s' a = live s a) → written s' a k v b j → written s a k v b j.
Proof.
  intros E. unfold written, orig_of. rewrite E. case_decide; [done|]. by apply zeroed_live.
Qed.

(** ** The price of a storage write *)

(** The most an instruction adds to the counter. *)
Definition max_refund : Z := 24000.

(** The adjustments of net metering for a write of [v] over [cur], where the
    transaction found [orig]. *)
Definition net_refund (cur orig v reset resetClear : Z) : SM unit :=
  (if negb (orig =? 0) then
     if cur =? 0 then SubRefund clear_refund
     else if v =? 0 then AddRefund clear_refund
     else mret tt
   else mret tt);;
  (if orig =? v then if orig =? 0 then AddRefund resetClear else AddRefund reset else mret tt).

Lemma net_refund_sure a k v reset resetClear s :
  0 <= reset <= max_refund → 0 <= resetClear <= max_refund → backed s → refund s + max_refund < two64 →
  cur_of s a k ≠ v →
  ∃ s', net_refund (cur_of s a k) (orig_of s a k) v reset resetClear s = Some (tt, s') ∧
    covered (written s' a k v) s' ∧ refund s' <= refund s + max_refund.
Proof.
  intros Hr1 Hr2 Hb Hroom Hcv. pose proof Hb as (D & _ & HD). assert (H0 : 0 <= refund s) by (unfold clear_refund in HD; lia).
  set (cur := cur_of s a k) in *. set (orig := orig_of s a k) in *. unfold net_refund.
  assert (Hfirst : ∃ s1, (if negb (orig =? 0) then if cur =? 0 then SubRefund clear_refund else if v =? 0 then AddRefund clear_refund else mret tt else mret tt) s
      = Some (tt, s1) ∧ covered (written s a k v) s1 ∧ (∀ b, live s1 b = live s b) ∧ 0 <= refund s1 ∧
      refund s1 <= refund s + (if negb (orig =? 0) && (v =? 0) then clear_refund else 0)).
  { destruct (Z.eqb_spec orig 0) as [Eo|Eo]; cbn [negb andb].
    { exists s. split_and!; [done| |done|done|lia]. eapply covered_mono; [exact Hb| |lia]. intros b j. unfold written. case_decide; [lia|done]. }
    destruct (Z.eqb_spec cur 0) as [Ec|Ec].
    - assert (Hz : zeroed s a k) by (by apply zeroed_iff). pose proof (covered_enough _ _ _ _ Hb Hz).
      destruct (SubRefund_run clear_refund s) as (s1 & E1 & R1 & L1); [unfold clear_refund in *; lia|unfold max_refund in *; lia|].
      exists s1. split_and!; [done| |done|lia|unfold clear_refund in *; destruct (v =? 0); lia].
      eapply covered_less; [exact Hb|exact Hz| |lia]. intros b j. unfold written. case_decide as Hd; [lia|]. naive_solver.
    - destruct (Z.eqb_spec v 0) as [Ev|Ev].
      + destruct (AddRefund_run clear_refund s) as (s1 & E1 & R1 & L1); [done|done|unfold max_refund, clear_refund in *; lia|].
        exists s1. split_and!; [done| |done|unfold clear_refund in *; lia|lia]. eapply (covered_more _ _ _ _ a k); [exact Hb| |lia].
        intros b j. unfold written. case_decide; tauto.
      + exists s. split_and!; [done| |done|done|lia]. eapply covered_mono; [exact Hb| |lia]. intros b j. unfold written. case_decide; [lia|done]. }
  destruct Hfirst as (s1 & E1 & C1 & L1 & P1 & R1). rewrite (SM_bind_run _ _ _ _ _ E1).
  assert (Hw : ∀ s2, (∀ b, live s2 b = live s1 b) → refund s1 <= refund s2 → covered (written s2 a k v) s2).
  { intros s2 L2 R2. eapply covered_mono; [exact C1| |done]. intros b j. apply written_live. intros b'. by rewrite L2. }
  destruct (Z.eqb_spec orig v) as [Eov|Eov].
  - assert (Hle : refund s1 <= refund s) by (destruct (Z.eqb_spec orig 0), (Z.eqb_spec v 0); cbn [negb andb] in R1; lia).
    destruct (orig =? 0).
    + destruct (AddRefund_run resetClear s1) as (s2 & E2 & R2 & L2); [lia|lia|lia|]. exists s2. split_and!; [done|apply Hw; [done|lia]|lia].
    + destruct (AddRefund_run reset s1) as (s2 & E2 & R2 & L2); [lia|lia|lia|]. exists s2. split_and!; [done|apply Hw; [done|lia]|lia].
  - exists s1. split_and!; [done|by apply Hw|]. unfold clear_refund, max_refund in *. destruct (negb _ && _); lia.
Qed.

End State.
End RefundProofs.
