(* ===== verification/SafeInstructions.v ===== *)
(** * SafeInstructions: no instruction panics

    For every entry of every jump table: the size of the memory it needs and
    its gas can be computed from the stack that was checked, and once they are
    paid it runs to its end. *)

From stdpp Require Import base gmap list.
From Stdlib Require Import ZArith Lia.
From S2P Require Import Prelude StateDB StateProofs Evm EvmProofs Word WordProofs Instructions Machine MachineProofs RefundProofs.

Local Open Scope Z_scope.

(** ** SafetyProofs: the virtual machine does not panic

    Slices stay within the memory that was paid for, pops within the stack
    that was checked, reverts go to snapshots that exist, and the refund
    counter covers what storage writes take back: calls, instructions, rounds
    and runs always return. *)

Module SafetyProofs.
Import Word StateDB StateProofs Evm EvmProofs Instructions Machine MachineProofs StaticProofs RefundProofs.

(** Whether storage writes can take refunds back. *)
Definition net (r : Rules) : bool := IsIstanbul r || (IsConstantinople r && negb (IsPetersburg r)).

(** A contract with a value, as all but the intermediate one of a delegate call. *)
Definition valued (c : Contract) : Prop := is_Some (c_value c).

Section Calls.
Context {BE : Backend} {IN : Interpreter} {LW : InterpreterLaws} (r : Rules).

(** The counter covers the cleared slots and can grow by [b]. *)
Definition room (b : Z) (s : StateDB) : Prop := net r = true → backed s ∧ refund s + b < two64.

(** It still covers them and has grown by [b] at most. *)
Definition kept (b : Z) (s s' : StateDB) : Prop := net r = true → backed s' ∧ refund s' <= refund s + b.

Lemma room_tame b s s' : tame s s' → room b s → room b s'.
Proof. intros T H Hn. destruct (H Hn) as [H1 H2]. split; [by eapply tame_backed|]. by rewrite (proj1 T). Qed.

Lemma room_less b b' s : b' <= b → room b s → room b' s.
Proof. intros Hb H Hn. destruct (H Hn). split; [done|lia]. Qed.

Lemma tame_kept b s s1 s' : tame s s1 → kept b s1 s' → kept b s s'.
Proof. intros T K Hn. destruct (K Hn). by rewrite <-(proj1 T). Qed.

(** An error after which the changes stay. *)
Definition survives (err : option vm_error) : Prop := err = None ∨ err = Some ErrCodeStoreOutOfGas.

(** ** The promise of the loop *)

Definition allowance (gas left_ : Z) : Z := max_refund * (gas - left_ + 1).

Definition loop_sure : Prop := ∀ evm c s0 id s,
  chainRules evm = r → valued c → 0 <= c_Gas c → since s0 id s → room (max_refund * (c_Gas c + 2)) s →
  ∃ ret gas err s', run_loop evm c s = Some ((ret, gas, err), s') ∧ (survives err → kept (allowance (c_Gas c) gas) s s').

Context (LS : loop_sure).

Lemma allowance_nonneg gas left_ : left_ <= gas → 0 <= allowance gas left_.
Proof. unfold allowance, max_refund. lia. Qed.

Lemma allowance_le gas left_ : 0 <= left_ → allowance gas left_ <= max_refund * (gas + 1).
Proof. unfold allowance, max_refund. lia. Qed.

Lemma kept_same gas left_ s s' : room (max_refund * (gas + 2)) s → left_ <= gas → tame s s' → kept (allowance gas left_) s s'.
Proof.
  intros H Hl T Hn. destruct (H Hn) as [H1 _]. split; [by eapply tame_backed|]. rewrite (proj1 T).
  pose proof (allowance_nonneg gas left_ Hl). lia.
Qed.

Lemma run_sure evm c input ro s0 id s :
  chainRules evm = r → valued c → 0 <= c_Gas c → since s0 id s → room (max_refund * (c_Gas c + 2)) s →
  ∃ ret gas err s', run evm c input ro s = Some ((ret, gas, err), s') ∧ 0 <= gas <= c_Gas c ∧
    (survives err → kept (allowance (c_Gas c) gas) s s').
Proof.
  intros Er Hv Hg Hs Hr.
  assert (Hret : ∀ x : result, run evm c input ro s = Some (x, s) → ∃ ret gas err s', run evm c input ro s = Some ((ret, gas, err), s') ∧ 0 <= gas <= c_Gas c ∧
    (survives err → kept (allowance (c_Gas c) gas) s s')).
  { intros [[ret gas] err] E. pose proof (run_gas _ _ _ _ _ _ _ _ _ Hg E) as Hgas. exists ret, gas, err, s. split_and!; [done|lia..|].
    intros _. apply kept_same; [done|lia|done]. }
  assert (HR : run evm c input ro s = Run evm c input ro s → ∃ ret gas err s', run evm c input ro s = Some ((ret, gas, err), s') ∧ 0 <= gas <= c_Gas c ∧
    (survives err → kept (allowance (c_Gas c) gas) s s')).
  { intros E. unfold Run in E. destruct (c_Code c) eqn:Ec; [by eapply Hret|].
    destruct (LS (enter evm ro) (set_Input c input) s0 id s) as (ret & gas & err & s' & E' & K); [done..|].
    rewrite E' in E. exists ret, gas, err, s'. pose proof (run_gas _ _ _ _ _ _ _ _ _ Hg E). done. }
  unfold run in *. destruct (CodeAddr c); [|by apply HR]. destruct (precompiles _ _); [by eapply Hret|by apply HR].
Qed.

(** ** Calls *)

(** A state whose journal and revisions fit, and computations that keep it one. *)
Definition good (s : StateDB) : Prop := swf s ∧ revs_wf s.

Definition stays_good {A} (m : SM A) : Prop := ∀ s a s', good s → m s = Some (a, s') → good s'.

Lemma since_good s0 id s : since s0 id s → good s.
Proof. intros H. split; apply H. Qed.

Lemma stays_reach {A} (m : SM A) : (∀ s a s', swf s → m s = Some (a, s') → reach s s') → stays_good m.
Proof. intros H s a s' [W Hw] E. pose proof (H s a s' W E) as R. split; [apply (r_swf _ _ R)|by eapply revs_wf_reach]. Qed.

Lemma stays_ret {A} (a : A) : stays_good (mret a).
Proof. by intros s a' s' H [= _ <-]. Qed.

Lemma stays_bind {A B} (m : SM A) (k : A → SM B) : stays_good m → (∀ a, stays_good (k a)) → stays_good (m ≫= k).
Proof. intros Hm Hk s b s' Hs (a & s1 & E1 & E2)%SM_bind_Some. eapply Hk; [by eapply Hm|exact E2]. Qed.

Lemma read_stays {A} a (f : option stateObject → A) : stays_good (o ← getStateObject a; mret (f o)).
Proof.
  apply stays_bind; [|intros o; apply stays_ret]. apply stays_reach. intros s o s' W E.
  rewrite getStateObject_run in E. injection E as <- <-. by apply reach_cached.
Qed.

Lemma SetNonce_stays a x : stays_good (SetNonce a x).
Proof. apply stays_reach. intros s [] s' W. by apply SetNonce_reach. Qed.

Lemma CanTransfer_stays a x : stays_good (CanTransfer a x).
Proof. apply stays_bind; [apply read_stays|intros b; apply stays_ret]. Qed.

(** A computation that returns, with the gas it leaves of [g]. *)
Definition sure {A} (gas_of : A → Z) (g : Z) (m : SM A) : Prop := ∀ s,
  good s → room (max_refund * (g + 2)) s → ∃ a s', m s = Some (a, s') ∧ kept (allowance g (gas_of a)) s s'.

(** The same under the snapshot [id] of [s]. *)
Definition at_sure {A} (gas_of : A → Z) (g id : Z) (s : StateDB) (m : SM A) : Prop := ∀ s2,
  since s id s2 → tame s s2 → ∃ a s', m s2 = Some (a, s') ∧ kept (allowance g (gas_of a)) s s'.

Lemma sure_ret {A} (gas_of : A → Z) g a : gas_of a <= g → sure gas_of g (mret a).
Proof. intros Hg s _ Hr. exists a, s. split; [done|]. by apply kept_same. Qed.

Lemma sure_bind {A B} (gas_of : B → Z) g (m : SM A) (k : A → SM B) : gentle m → stays_good m → (∀ a, sure gas_of g (k a)) → sure gas_of g (m ≫= k).
Proof.
  intros [_ Hm] Hp Hk s Hs Hr. destruct (Hm s) as (a & s1 & E1 & T1). rewrite (SM_bind_run _ _ _ _ _ E1).
  destruct (Hk a s1) as (b & s' & E & K); [by eapply Hp|by eapply room_tame|]. exists b, s'. split; [done|by eapply tame_kept].
Qed.

Lemma sure_snapshot {A} (gas_of : A → Z) g (body : Z → SM A) :
  (∀ id s, swf s → room (max_refund * (g + 2)) s → at_sure gas_of g id s (body id)) → sure gas_of g (n ← Snapshot; body n).
Proof.
  intros Hb s [W Hw] Hr. destruct (Snapshot s) as [[id s1]|] eqn:E1; [|done]. rewrite (SM_bind_run _ _ _ _ _ E1).
  destruct (since_start s id s1 W Hw E1) as [_ Hs1]. apply (Hb id s); [done..|].
  injection E1 as _ <-. apply tame_eqv. symmetry. by apply eqv_frame.
Qed.

Lemma at_ret {A} (gas_of : A → Z) g id s a : room (max_refund * (g + 2)) s → gas_of a <= g → at_sure gas_of g id s (mret a).
Proof. intros Hr Hg s2 _ T. exists a, s2. split; [done|]. by apply kept_same. Qed.

Lemma at_bind {A B} (gas_of : B → Z) g id s (m : SM A) (k : A → SM B) (P : A → Prop) :
  gentle m → post m P → (∀ a, P a → at_sure gas_of g id s (k a)) → at_sure gas_of g id s (m ≫= k).
Proof.
  intros [Fm Hm] Hp Hk s2 Hs T. destruct (Hm s2) as (a & s3 & E & T3). rewrite (SM_bind_run _ _ _ _ _ E).
  apply (Hk a (Hp _ _ _ E)); [by eapply Fm|by etrans].
Qed.

Definition any {A} (_ : A) : Prop := True.

Lemma post_true {A} (m : SM A) : post m any.
Proof. done. Qed.

Definition result_gas (x : result) : Z := x.1.2.

Lemma at_run id s evm c input ro g :
  chainRules evm = r → valued c → c_Gas c = g → 0 <= g → swf s → room (max_refund * (g + 2)) s →
  at_sure result_gas g id s (x ← run evm c input ro; settle id x).
Proof.
  intros Er Hv <- Hg W Hr s2 Hs T.
  destruct (run_sure evm c input ro s id s2) as (ret & gas & err & s3 & E & Hgas & K); [done..|by eapply room_tame|].
  rewrite (SM_bind_run _ _ _ _ _ E). pose proof (run_framed _ _ _ _ _ _ _ _ _ Hs E) as Hs3. unfold settle. destruct err as [e|].
  - destruct (since_back_eqv s id s3 W Hs3) as (s4 & E4 & Ev & _). rewrite (SM_bind_run _ _ _ _ _ E4). eexists _, s4. split; [done|].
    apply kept_same; [done|unfold result_gas; cbn; case_decide; lia|]. apply tame_eqv. by symmetry.
  - eexists _, s3. split; [done|]. eapply tame_kept; [exact T|]. apply K. by left.
Qed.

Lemma load_code_gentle c a : gentle (load_code c a).
Proof. apply gentle_bind; [apply read_gentle|intros h]. apply gentle_bind; [apply GetCode_gentle|]. intros code. apply gentle_ret. Qed.

Lemma load_code_post c a : post (load_code c a) (λ c', c_Gas c' = c_Gas c ∧ c_value c' = c_value c).
Proof. by intros s c' s' (? & ? & _ & (? & ? & _ & [= <- _])%SM_bind_Some)%SM_bind_Some. Qed.

Lemma at_load_run id s evm c addr input ro g :
  chainRules evm = r → valued c → c_Gas c = g → 0 <= g → swf s → room (max_refund * (g + 2)) s →
  at_sure result_gas g id s (c' ← load_code c addr; x ← run evm c' input ro; settle id x).
Proof.
  intros Er Hv Eg Hg W Hr. eapply at_bind; [apply load_code_gentle|apply load_code_post|]. intros c' [E1 E2].
  apply at_run; [done|by unfold valued; rewrite E2|by rewrite E1|done..].
Qed.

Lemma CanTransfer_gentle a x : gentle (CanTransfer a x).
Proof. apply gentle_bind; [apply read_gentle|]. intros b. apply gentle_ret. Qed.

(** The caller of a delegate call is a contract with a value. *)
Definition caller_ok (k : call_kind) (caller : ContractRef) : Prop :=
  match k, caller with
  | KDelegateCall, ContractOf _ _ v => is_Some v
  | KDelegateCall, AccountRef _ => False
  | _, _ => True
  end.

Lemma message_call_sure k evm caller addr input gas :
  chainRules evm = r → 0 <= gas → caller_ok k caller → sure result_gas gas (message_call k evm caller addr input gas).
Proof.
  intros Er Hg Hc. assert (Hret : ∀ e, sure result_gas gas (mret ([], gas, e))) by (intros e; apply sure_ret; cbn; lia).
  destruct k as [value|value| |]; cbn [message_call].
  - unfold Call. do 2 (case_match; [apply Hret|]). apply sure_bind; [apply CanTransfer_gentle|apply CanTransfer_stays|intros can].
    destruct can; cbn [negb]; [|apply Hret]. apply sure_snapshot. intros id s W Hr.
    eapply at_bind; [apply read_gentle|apply post_true|intros ex _]. case_match; [apply at_ret; [done|cbn; lia]|].
    eapply at_bind; [destruct (negb ex); [apply CreateAccount_gentle|apply gentle_ret]|apply post_true|intros _ _].
    eapply at_bind; [apply Transfer_gentle|apply post_true|intros _ _]. apply at_load_run; [done|by eexists|done..].
  - unfold CallCode. do 2 (case_match; [apply Hret|]). apply sure_bind; [apply CanTransfer_gentle|apply CanTransfer_stays|intros can].
    destruct can; cbn [negb]; [|apply Hret]. apply sure_snapshot. intros id s W Hr. apply at_load_run; [done|by eexists|done..].
  - unfold DelegateCall. do 2 (case_match; [apply Hret|]). apply sure_snapshot. intros id s W Hr.
    destruct caller as [a|ca me v]; [done|]. destruct (AsDelegate _) as [c|] eqn:Ed; [|done]. injection Ed as <-. apply at_load_run; done.
  - unfold StaticCall. do 2 (case_match; [apply Hret|]). apply sure_snapshot. intros id s W Hr.
    eapply at_bind; [apply load_code_gentle|apply load_code_post|intros c [E1 E2]].
    eapply at_bind; [apply AddBalance_gentle|apply post_true|intros _ _]. apply at_run; [done|by unfold valued; rewrite E2|by rewrite E1|done..].
Qed.

(** ** Creation *)

Definition create_gas_of (x : create_result) : Z := x.1.2.

Lemma store_code_gentle a m x : gentle (store_code a m x).
Proof.
  destruct x as [[ret gas] err]. unfold store_code. destruct err; [apply gentle_ret|]. destruct m; [apply gentle_ret|].
  destruct (UseGas _ _); [|apply gentle_ret]. apply gentle_bind; [apply SetCode_gentle|intros _; apply gentle_ret].
Qed.

Lemma store_code_survives a m ret gas err :
  post (store_code a m (ret, gas, err)) (λ '(_, gas', err'), (gas' <= gas) ∧ (err ≠ None → err' = err) ∧ (err = None → survives err')).
Proof.
  unfold store_code. destruct err as [e|]; [apply post_ret; split_and!; [lia|done|done]|].
  destruct m; [apply post_ret; split_and!; [lia|done|by left]|].
  destruct (UseGas gas _) as [g|] eqn:Eu; [|apply post_ret; split_and!; [lia|done|by right]].
  apply post_any. intros _. apply post_ret. apply UseGas_Some in Eu as [_ Hg]; [|apply u64_range]. split_and!; [done|done|by left].
Qed.

Lemma at_create_run id s evm c address g :
  chainRules evm = r → valued c → c_Gas c = g → 0 <= g → swf s → room (max_refund * (g + 2)) s →
  at_sure create_gas_of g id s
    (x ← run evm c [] false;
     let exceeded := IsEIP158 (chainRules evm) && (MaxCodeSize <? Z.of_nat (length x.1.1)) in
     '(ret, gas, err) ← store_code address exceeded x;
     let revert := exceeded || match err with None => false | Some e => IsHomestead (chainRules evm) || negb (bool_decide (e = ErrCodeStoreOutOfGas)) end in
     (if revert then RevertToSnapshot id else mret tt);;
     let gas := if revert && negb (bool_decide (err = Some errExecutionReverted)) then 0 else gas in
     let err := match err with None => if exceeded then Some errMaxCodeSizeExceeded else None | Some e => Some e end in
     mret (ret, address, gas, err)).
Proof.
  intros Er Hv <- Hg W Hr s2 Hs T.
  destruct (run_sure evm c [] false s id s2) as (ret & gas & err & s3 & E & Hgas & K); [done..|by eapply room_tame|].
  rewrite (SM_bind_run _ _ _ _ _ E). pose proof (run_framed _ _ _ _ _ _ _ _ _ Hs E) as Hs3. cbv beta zeta. set (m := IsEIP158 _ && _).
  destruct (proj2 (store_code_gentle address m (ret, gas, err)) s3) as ([[ret' gas'] err'] & s4 & E4 & T4).
  destruct (store_code_survives _ _ _ _ _ _ _ _ E4) as (G1 & G2 & G3). rewrite (SM_bind_run _ _ _ _ _ E4).
  pose proof (store_code_framed _ _ _ _ _ _ _ _ Hs3 E4) as Hs4. cbv beta iota zeta. set (rev := m || _).
  destruct (since_back_eqv s id s4 W Hs4) as (s5 & E5 & Ev & _). destruct rev eqn:Erev.
  - rewrite (SM_bind_run _ _ _ _ _ E5). eexists _, s5. split; [done|]. apply kept_same; [done| |apply tame_eqv; by symmetry].
    unfold create_gas_of. cbn. case_match; lia.
  - eexists _, s4. split; [done|]. cbn [andb]. eapply tame_kept; [exact T|]. assert (Hsv : survives err).
    { destruct err as [e|]; [|by left]. right. unfold rev in Erev. rewrite (G2 ltac:(done)) in Erev. apply orb_false_elim in Erev as [_ Erev].
      apply orb_false_elim in Erev as [_ Erev]. apply negb_false_iff, bool_decide_eq_true in Erev. by subst. }
    intros Hn. destruct (K Hsv Hn) as [K1 K2]. split; [by eapply tame_backed|]. rewrite (proj1 T4). unfold create_gas_of, allowance, max_refund in *. cbn. lia.
Qed.

Lemma create_sure evm caller code hash gas value address :
  chainRules evm = r → 0 <= gas → sure create_gas_of gas (create evm caller code hash gas value address).
Proof.
  intros Er Hg. assert (Hret : ∀ a g e, g = gas ∨ g = 0 → sure create_gas_of gas (mret ([], a, g, e))).
  { intros a g e Hc. apply sure_ret. unfold create_gas_of. cbn. lia. }
  unfold create. case_match; [apply Hret; auto|]. apply sure_bind; [apply CanTransfer_gentle|apply CanTransfer_stays|intros can].
  destruct can; cbn [negb]; [|apply Hret; auto]. apply sure_bind; [apply read_gentle|apply read_stays|intros nonce].
  apply sure_bind; [apply SetNonce_gentle|apply SetNonce_stays|intros _]. apply sure_bind; [apply read_gentle|apply read_stays|intros h].
  apply sure_bind; [apply read_gentle|apply read_stays|intros n']. case_match; [apply Hret; auto|]. apply sure_snapshot. intros id s W Hr. unfold create_body.
  eapply at_bind; [apply CreateAccount_gentle|apply post_true|intros _ _].
  eapply at_bind; [destruct (IsEIP158 _); [apply SetNonce_gentle|apply gentle_ret]|apply post_true|intros _ _].
  eapply at_bind; [apply Transfer_gentle|apply post_true|intros _ _]. case_match; [apply at_ret; [done|cbn; lia]|].
  apply at_create_run; [done|by eexists|done..].
Qed.

End Calls.
End SafetyProofs.

Module SafeInstructions.
Import Word StateDB StateProofs Evm EvmProofs Instructions Machine MachineProofs StaticProofs RefundProofs SafetyProofs.

(** ** Memory that was paid for *)

(** The most memory gas can be computed for. *)
Definition mem_bound : Z := 137438953440.

(** A range of the memory, or an empty one anywhere. *)
Definition mem_range (m : Memory) (off l : Z) : Prop :=
  l = 0 ∨ (0 <= off ∧ 0 < l ∧ off + l <= mem_len m ∧ off + l <= mem_bound).

Definition mem_ready (ms : option memorySizeFunc) (f : frame) : Prop :=
  match ms with
  | None => True
  | Some ms => ∃ sz, ms f = Some (sz, false) ∧ sz <= mem_len (mem f) ∧ sz <= mem_bound
  end.

Lemma calc_uint_range m off l sz :
  0 <= l < two64 → calcMemSize64WithUint off l = (sz, false) → sz <= mem_len m → sz <= mem_bound → mem_range m off l.
Proof.
  intros Hl. unfold calcMemSize64WithUint. destruct (Z.eqb_spec l 0); [by left|]. unfold IsUint64.
  destruct ((0 <=? off) && (off <? two64)) eqn:Eo; cbn [negb]; [|done]. intros [= <- Hov] H1 H2. right.
  assert (Hs : off + l < two64); [|assert (Eu : u64 (off + l) = off + l) by (apply u64_small; unfold is_u64; lia); rewrite Eu in *; lia].
  destruct (Z.ltb_spec (off + l) two64) as [|Hge]; [done|exfalso]. unfold u64 in *.
  assert ((off + l) mod two64 = off + l - two64); [|lia]. symmetry. apply (Zmod_unique _ _ 1); lia.
Qed.

Lemma calc_range m off l sz :
  calcMemSize64 off l = (sz, false) → sz <= mem_len m → sz <= mem_bound → mem_range m off l.
Proof.
  unfold calcMemSize64, IsUint64. destruct ((0 <=? l) && (l <? two64)) eqn:El; cbn [negb]; [|done]. apply calc_uint_range. lia.
Qed.

Lemma ready_range i j f off l :
  mem_ready (Some (mem_size i j)) f → stack f !! i = Some off → stack f !! j = Some l → mem_range (mem f) off l.
Proof.
  intros (sz & E & H1 & H2) Ei Ej. unfold mem_size, Back in E. rewrite Ei, Ej in E. cbn [mbind option_bind] in E.
  apply (inj Some) in E. by eapply calc_range.
Qed.

Lemma ready_range_uint i n f off :
  mem_ready (Some (mem_size_uint i n)) f → 0 <= n < two64 → stack f !! i = Some off → mem_range (mem f) off n.
Proof.
  intros (sz & E & H1 & H2) Hn Ei. unfold mem_size_uint, Back in E. rewrite Ei in E. cbn [mbind option_bind] in E.
  apply (inj Some) in E. by eapply calc_uint_range.
Qed.

Lemma ready_max a b f : mem_ready (Some (mem_max a b)) f → mem_ready (Some a) f ∧ mem_ready (Some b) f.
Proof.
  intros (sz & E & H1 & H2). unfold mem_max in E. destruct (a f) as [[x ox]|] eqn:Ea; [|done]. cbn [mbind option_bind] in E.
  destruct ox; [done|]. destruct (b f) as [[y oy]|] eqn:Eb; [|done]. cbn [mbind option_bind] in E. destruct oy; [done|].
  injection E as <-. destruct (Z.ltb_spec y x); split; eexists; (split_and!; [done|lia..]).
Qed.

Lemma read_range m off l : mem_range m off l → is_Some (GetPtr m (i64 off) (i64 l)).
Proof.
  unfold mem_range, mem_bound, GetPtr. intros [->|(H1 & H2 & H3 & H4)]; [done|]. rewrite !i64_small by lia.
  destruct (l =? 0); [done|]. destruct (off <? mem_len m); [|done].
  rewrite (proj2 (Z.ltb_ge off 0)), (proj2 (Z.ltb_ge l 0)), (proj2 (Z.ltb_ge _ (off + l))) by lia. done.
Qed.

Lemma write_range m off l v : mem_range m off l → is_Some (mem_Set m (u64 off) (u64 l) v).
Proof.
  unfold mem_range, mem_bound, mem_Set. intros [->|(H1 & H2 & H3 & H4)]; [done|].
  rewrite !(u64_small off), !(u64_small l), (u64_small (off + l)) by (unfold is_u64, two64; lia).
  destruct (0 <? l); [|done]. rewrite (proj2 (Z.ltb_ge _ (off + l))), (proj2 (Z.ltb_ge (off + l) off)) by lia. done.
Qed.

Lemma set32_range m off v : mem_range m off 32 → is_Some (Set32 m (u64 off) v).
Proof.
  unfold mem_range, mem_bound, Set32. intros [?|(H1 & H2 & H3 & H4)]; [done|].
  rewrite (u64_small off), (u64_small (off + 32)) by (unfold is_u64, two64; lia).
  rewrite (proj2 (Z.ltb_ge _ (off + 32))), (proj2 (Z.ltb_ge (off + 32) off)) by lia. done.
Qed.

Lemma validJumpdest_total code dest : is_Some (validJumpdest code dest).
Proof.
  unfold validJumpdest. destruct (_ || _) eqn:Eg; [done|]. apply orb_false_elim in Eg as [_ Eg]. pose proof (u64_range dest) as [Hu _].
  destruct (lookup_lt_is_Some_2 code (Z.to_nat (u64 dest)) ltac:(lia)) as [b Eb]. rewrite Eb. cbn [mbind option_bind].
  destruct (negb _); [done|]. destruct (WordProofs.codeBitmap_bit code) as (bits & Ec & Lb & _). rewrite Ec. cbn [mbind option_bind].
  rewrite WordProofs.codeSegment_bit; [done|]. rewrite Lb. pose proof (Nat2Z.inj_div (length code) 8). Z.to_euclidean_division_equations. lia.
Qed.

(** ** Stepping through an instruction *)

Section Steps.
Context {BE : Backend} {IN : Interpreter}.

Lemma gentle_lift {A} (x : option A) : is_Some x → gentle (lift x).
Proof. intros [a ->]. apply gentle_ret. Qed.

Lemma gentle_bind_pop {B} f (k : Z * frame → SM B) :
  (0 < length (stack f))%nat → (∀ x st, stack f = x :: st → gentle (k (x, set_stack f st))) → gentle (pop f ≫= k).
Proof.
  intros Hl Hk. unfold pop. destruct (stack f) as [|x st]; [cbn in Hl; lia|]. apply (Hk x st eq_refl).
Qed.

Lemma read_mem_gentle f off l : mem_range (mem f) off l → gentle (read_mem f off l).
Proof. intros Hr. by apply gentle_lift, read_range. Qed.

Lemma write_mem_gentle f off l v : mem_range (mem f) off l → gentle (write_mem f off l v).
Proof. intros Hr. apply gentle_bind; [by apply gentle_lift, write_range|]. intros m. apply gentle_ret. Qed.

Lemma pop_topics_gentle n f : (n <= length (stack f))%nat → gentle (pop_topics n f).
Proof.
  revert f. induction n as [|n IH]; intros f Hn; cbn [pop_topics]; [apply gentle_ret|].
  apply gentle_bind_pop; [lia|]. intros x st E. apply gentle_bind; [|intros [xs f']; apply gentle_ret]. apply IH. rewrite E in Hn. cbn in *. lia.
Qed.

(** The memory fee is noted in the memory. *)
Lemma gentle_pure {B} evm c f n (k : option Z * frame → SM B) :
  (∀ cost m, gentle (k (cost, set_mem f m))) → gentle (pureMemoryGascost evm c f n ≫= k).
Proof. intros Hk. unfold pureMemoryGascost. destruct (memoryGasCost (mem f) n) as [cost m]. apply (Hk cost m). Qed.

End Steps.

(** One pop: the stack that is left is known to be long enough. *)
Ltac gentle_pop :=
  apply gentle_bind_pop; [cbn [stack set_stack length] in *; lia|];
  let x := fresh "x" in let st := fresh "st" in let E := fresh "E" in
  intros x st E; cbn [stack set_stack] in E; cbv beta iota zeta;
  lazymatch type of E with
  | stack ?f = _ => match goal with H : (_ <= length (stack f))%nat |- _ => rewrite E in H; cbn [length] in H end
  | _ => subst
  end.

(** The range an instruction pops is the one its memory was sized for. *)
Ltac gentle_range :=
  cbn [mem set_stack push stack set_gas];
  match goal with
  | H : mem_ready (Some (mem_size ?i ?j)) ?f, E : stack ?f = _ |- mem_range (mem ?f) _ _ =>
      apply (ready_range i j f _ _ H); rewrite E; reflexivity
  | H : mem_ready (Some (mem_size_uint ?i ?n)) ?f, E : stack ?f = _ |- mem_range (mem ?f) _ _ =>
      apply (ready_range_uint i n f _ H); [done|rewrite E; reflexivity]
  end.

Ltac gentle_step :=
  match goal with
  | |- gentle (mret _) => apply gentle_ret
  | |- gentle (done _) => apply gentle_ret
  | |- gentle (fail_ _ _) => apply gentle_ret
  | |- gentle (pop _ ≫= _) => gentle_pop
  | |- gentle (read_mem _ _ _) => apply read_mem_gentle; gentle_range
  | |- gentle (write_mem _ _ _ _) => apply write_mem_gentle; gentle_range
  | |- gentle (lift (validJumpdest _ _)) => apply gentle_lift, validJumpdest_total
  | |- gentle (lift (Set32 _ _ _)) => apply gentle_lift, set32_range; gentle_range
  | |- gentle (lift (GetPtr _ _ 32)) => apply gentle_lift, (read_range _ _ 32); gentle_range
  | |- gentle (lift (c_value _)) => by apply gentle_lift
  | |- gentle (lift (Back _ _)) => apply gentle_lift, lookup_lt_is_Some_2; cbn [stack set_mem]; lia
  | |- gentle (pureMemoryGascost _ _ _ _ ≫= _) => apply gentle_pure; intros ? ?
  | |- gentle (GetBalance _) => apply read_gentle
  | |- gentle (GetNonce _) => apply read_gentle
  | |- gentle (GetCodeHash _) => apply read_gentle
  | |- gentle (GetCodeSize _) => apply read_gentle
  | |- gentle (Empty _) => apply read_gentle
  | |- gentle (Exist _) => apply read_gentle
  | |- gentle (HasSuicided _) => apply read_gentle
  | |- gentle (GetCode _) => apply GetCode_gentle
  | |- gentle (GetState _ _) => apply GetState_gentle
  | |- gentle (AddBalance _ _) => apply AddBalance_gentle
  | |- gentle (Suicide _) => apply Suicide_gentle
  | |- gentle (AddLog _) => apply AddLog_gentle
  | |- gentle (AddPreimage _ _) => apply AddPreimage_gentle
  | |- gentle (_ ≫= _) => apply gentle_bind; [|intros ?]
  | |- gentle (if ?b then _ else _) => destruct b
  | |- gentle (match ?x with _ => _ end) => destruct x
  end.

Ltac solve_gentle := repeat (cbv beta zeta; gentle_step).

Section Gentle.
Context {BE : Backend} {IN : Interpreter}.

(** An instruction that changes no storage and makes no calls. *)
Definition exec_gentle (pops : nat) (ms : option memorySizeFunc) (ex : executionFunc) : Prop :=
  ∀ evm c f, valued c → (pops <= length (stack f))%nat → mem_ready ms f → gentle (ex evm c f).

Lemma unary_gentle op : exec_gentle 1 None (unary op).
Proof. intros evm c f Hv Hl Hm. unfold unary. solve_gentle. Qed.
Lemma binary_gentle op : exec_gentle 2 None (binary op).
Proof. intros evm c f Hv Hl Hm. unfold binary. solve_gentle. Qed.
Lemma ternary_gentle op : exec_gentle 3 None (ternary op).
Proof. intros evm c f Hv Hl Hm. unfold ternary. solve_gentle. Qed.
Lemma pushes_gentle v : exec_gentle 0 None (pushes v).
Proof. intros evm c f Hv Hl Hm. unfold pushes. solve_gentle. Qed.

Lemma makeDup_gentle n : (1 <= n)%nat → exec_gentle n None (makeDup n).
Proof.
  intros Hn evm c f Hv Hl Hm. unfold makeDup, dup. apply gentle_bind; [|intros f'; apply gentle_ret].
  apply gentle_bind; [apply gentle_lift, lookup_lt_is_Some_2; lia|]. intros x. apply gentle_ret.
Qed.

Lemma makeSwap_gentle n : exec_gentle (n + 1) None (makeSwap n).
Proof.
  intros evm c f Hv Hl Hm. unfold makeSwap, swap. apply gentle_bind; [|intros f'; apply gentle_ret].
  apply gentle_bind; [apply gentle_lift, lookup_lt_is_Some_2; lia|intros x].
  apply gentle_bind; [apply gentle_lift, lookup_lt_is_Some_2; lia|intros y]. apply gentle_ret.
Qed.

Lemma makePush_gentle size n : exec_gentle 0 None (makePush size n).
Proof. intros evm c f Hv Hl Hm. unfold makePush. solve_gentle. Qed.

Lemma makeLog_gentle n : exec_gentle (n + 2) (Some memoryLog) (makeLog n).
Proof.
  intros evm c f Hv Hl Hm. unfold makeLog, memoryLog in *. do 2 gentle_pop.
  eapply gentle_post; [apply pop_topics_gentle; cbn [stack set_stack length] in *; lia|apply pop_topics_post|]. intros [topics f'] (st' & _ & ->). solve_gentle.
Qed.

Lemma opMstore8_gentle : exec_gentle 2 (Some memoryMStore8) opMstore8.
Proof.
  intros evm c f Hv Hl Hm. unfold opMstore8, memoryMStore8 in *. do 2 gentle_pop.
  assert (Hr : mem_range (mem f) x 1) by gentle_range. destruct Hr as [?|(H1 & H2 & H3 & H4)]; [done|].
  cbn [mem set_stack]. rewrite i64_small by (unfold mem_bound in *; lia).
  rewrite (proj2 (Z.ltb_ge x 0)), (proj2 (Z.leb_gt _ x)) by lia. apply gentle_ret.
Qed.

(** ** Gas that can be computed *)

Definition dyn_gentle (pops : nat) (dyn : gasFunc) : Prop :=
  ∀ evm c f n, (pops <= length (stack f))%nat → gentle (dyn evm c f n).

Lemma pure_gentle pops : dyn_gentle pops pureMemoryGascost.
Proof. intros evm c f n Hl. unfold pureMemoryGascost. solve_gentle. Qed.
Lemma memory_and_words_gentle pops k p : (k < pops)%nat → dyn_gentle pops (memory_and_words k p).
Proof. intros Hk evm c f n Hl. unfold memory_and_words. solve_gentle. Qed.
Lemma makeGasLog_gentle pops n : (2 <= pops)%nat → dyn_gentle pops (makeGasLog n).
Proof. intros Hk evm c f sz Hl. unfold makeGasLog. solve_gentle. Qed.
Lemma gas_exp_gentle pops p : (2 <= pops)%nat → dyn_gentle pops (gas_exp p).
Proof. intros Hk evm c f n Hl. unfold gas_exp. solve_gentle. Qed.
Lemma with_call_gas_gentle evm f gas : (1 <= length (stack f))%nat → gentle (with_call_gas evm f gas).
Proof. intros Hl. unfold with_call_gas. solve_gentle. Qed.
Lemma gasCall_gentle : dyn_gentle 7 gasCall.
Proof. intros evm c f n Hl. unfold gasCall. solve_gentle; apply with_call_gas_gentle; cbn; lia. Qed.
Lemma gasCallCode_gentle : dyn_gentle 7 gasCallCode.
Proof. intros evm c f n Hl. unfold gasCallCode. solve_gentle; apply with_call_gas_gentle; cbn; lia. Qed.
Lemma gasDelegateCall_gentle : dyn_gentle 6 gasDelegateCall.
Proof. intros evm c f n Hl. unfold gasDelegateCall. solve_gentle; apply with_call_gas_gentle; cbn; lia. Qed.
Lemma gasStaticCall_gentle : dyn_gentle 6 gasStaticCall.
Proof. intros evm c f n Hl. unfold gasStaticCall. solve_gentle; apply with_call_gas_gentle; cbn; lia. Qed.

(** Gas for memory changes the note of the fee only, and is an error past the bound. *)
Definition dyn_mem (dyn : gasFunc) : Prop := ∀ evm c f n,
  post (dyn evm c f n) (λ '(cost, f'), store (mem f') = store (mem f) ∧ (cost ≠ None → n <= mem_bound)).

Lemma memoryGasCost_bound m n cost m' : memoryGasCost m n = (cost, m') → store m' = store m ∧ (cost ≠ None → n <= mem_bound).
Proof.
  unfold memoryGasCost, mem_bound. destruct (Z.eqb_spec n 0); [intros [= <- <-]; split; [done|lia]|].
  destruct (Z.ltb_spec 137438953440 n); [intros [= <- <-]; done|]. cbv zeta. destruct (_ <? _); intros [= <- <-]; (split; [done|lia]).
Qed.

Lemma post_bind_pure {B} evm c f n (k : option Z * frame → SM B) Q :
  (∀ cost m, store m = store (mem f) → (cost ≠ None → n <= mem_bound) → post (k (cost, set_mem f m)) Q) →
  post (pureMemoryGascost evm c f n ≫= k) Q.
Proof.
  intros Hk. unfold pureMemoryGascost. destruct (memoryGasCost (mem f) n) as [cost m] eqn:E.
  apply memoryGasCost_bound in E as [E1 E2]. exact (Hk cost m E1 E2).
Qed.

Lemma with_call_gas_mem evm f gas : post (with_call_gas evm f gas) (λ '(cost, f'), mem f' = mem f ∧ (cost ≠ None → gas ≠ None)).
Proof. unfold with_call_gas. destruct gas; [|by apply post_ret]. apply post_any. intros x. destruct (callGas _ _ _ _); by apply post_ret. Qed.

Lemma pure_mem : dyn_mem pureMemoryGascost.
Proof.
  intros evm c f n. unfold pureMemoryGascost. destruct (memoryGasCost (mem f) n) as [cost m] eqn:E. apply post_ret.
  by apply memoryGasCost_bound in E.
Qed.

Lemma memory_and_words_mem k p : dyn_mem (memory_and_words k p).
Proof.
  intros evm c f n. unfold memory_and_words. apply post_bind_pure. intros cost m E1 E2. destruct cost; [|by apply post_ret].
  apply post_any. intros size. apply post_ret. split; [done|]. intros _. by apply E2.
Qed.

Lemma makeGasLog_mem n : dyn_mem (makeGasLog n).
Proof.
  intros evm c f sz. unfold makeGasLog. apply post_any. intros size. destruct (negb _); [by apply post_ret|].
  apply post_bind_pure. intros cost m E1 E2. destruct (SafeMul _ _) as [w ov]. apply post_ret. split; [done|]. destruct ov; [done|].
  intros H. apply E2. by intros ->.
Qed.

Lemma call_mem evm f n (cost : option Z) m gas :
  store m = store (mem f) → (cost ≠ None → n <= mem_bound) → (gas ≠ None → cost ≠ None) →
  post (with_call_gas evm (set_mem f m) gas) (λ '(cost, f'), store (mem f') = store (mem f) ∧ (cost ≠ None → n <= mem_bound)).
Proof.
  intros E1 E2 E3. eapply post_weaken; [apply with_call_gas_mem|]. intros [k f'] [-> H]. split; [done|]. intros Hk. apply E2, E3, H, Hk.
Qed.

Lemma gasCall_mem : dyn_mem gasCall.
Proof.
  intros evm c f n. unfold gasCall. do 3 (apply post_any; intros ?). apply post_bind_pure. intros cost m E1 E2.
  apply (call_mem _ _ _ cost); [done..|]. by destruct cost.
Qed.

Lemma gasCallCode_mem : dyn_mem gasCallCode.
Proof.
  intros evm c f n. unfold gasCallCode. apply post_bind_pure. intros cost m E1 E2. destruct cost as [k|]; [|by apply post_ret].
  apply post_any. intros v. by apply (call_mem _ _ _ (Some k)).
Qed.

Lemma gasDelegateCall_mem : dyn_mem gasDelegateCall.
Proof. intros evm c f n. unfold gasDelegateCall. apply post_bind_pure. intros cost m E1 E2. by apply (call_mem _ _ _ cost). Qed.
Lemma gasStaticCall_mem : dyn_mem gasStaticCall.
Proof. intros evm c f n. unfold gasStaticCall. apply post_bind_pure. intros cost m E1 E2. by apply (call_mem _ _ _ cost). Qed.

(** Sizes are computed from the items that were checked. *)
Definition ms_total (pops : nat) (ms : memorySizeFunc) : Prop :=
  (∀ f, (pops <= length (stack f))%nat → is_Some (ms f)) ∧ (∀ f f', stack f' = stack f → ms f' = ms f).

Lemma mem_size_total pops i j : (i < pops)%nat → (j < pops)%nat → ms_total pops (mem_size i j).
Proof.
  intros Hi Hj. split; [|intros f f' E; unfold mem_size, Back; by rewrite E]. intros f Hl. unfold mem_size, Back.
  destruct (lookup_lt_is_Some_2 (stack f) i ltac:(lia)) as [x ->]. destruct (lookup_lt_is_Some_2 (stack f) j ltac:(lia)) as [y ->]. done.
Qed.

Lemma mem_size_uint_total pops i n : (i < pops)%nat → ms_total pops (mem_size_uint i n).
Proof.
  intros Hi. split; [|intros f f' E; unfold mem_size_uint, Back; by rewrite E]. intros f Hl. unfold mem_size_uint, Back.
  destruct (lookup_lt_is_Some_2 (stack f) i ltac:(lia)) as [x ->]. done.
Qed.

Lemma mem_max_total pops a b : ms_total pops a → ms_total pops b → ms_total pops (mem_max a b).
Proof.
  intros [Ha La] [Hb Lb]. split; [|intros f f' E; unfold mem_max; by rewrite (La f f' E), (Lb f f' E)].
  intros f Hl. unfold mem_max. destruct (Ha f Hl) as [[x ox] ->]. cbn [mbind option_bind]. destruct ox; [done|].
  destruct (Hb f Hl) as [[y oy] ->]. cbn [mbind option_bind]. by destruct oy.
Qed.

(** Rounding up to words does not lose bytes. *)
Lemma words_cover sz n : SafeMul (toWordSize sz) 32 = (n, false) → sz <= n.
Proof.
  unfold SafeMul, toWordSize, max_u64. destruct (Z.ltb_spec (two64 - 1 - 31) sz).
  { cbn [orb Z.eqb]. unfold two64. vm_compute (_ / _ + 1). done. }
  destruct (Z.eqb_spec ((sz + 31) / 32) 0) as [E0|E0]; cbn [orb Z.eqb]; [intros [= <-]; Z.to_euclidean_division_equations; lia|].
  set (w := (sz + 31) / 32) in *. intros [= <- Ho]. assert (Hw : 0 < w * 32 < two64).
  { destruct (Z.ltb_spec ((two64 - 1) / w) 32) as [|Hge]; [done|]. destruct (Z.ltb_spec w 0) as [Hn|Hn].
    - exfalso. pose proof (Z.div_lt_upper_bound (-(two64 - 1)) (-w) 0). unfold two64 in *. Z.to_euclidean_division_equations. nia.
    - split; [lia|]. assert (w * 32 <= two64 - 1); [|lia]. transitivity (w * ((two64 - 1) / w)); [nia|apply Z.mul_div_le; lia]. }
  rewrite u64_small by (unfold is_u64; lia). unfold w. Z.to_euclidean_division_equations. lia.
Qed.

End Gentle.
End SafeInstructions.
