(* ===== verification/SafeTables.v ===== *)
(** * SafeTables: every entry of every jump table is safe

    The storage write with its refunds, self-destruction, calls and creations;
    then the tables, a round of the loop, the loop, and the machine. *)

From stdpp Require Import base gmap list.
From Stdlib Require Import ZArith Lia.
From S2P Require Import Prelude Word StateDB StateProofs Evm EvmProofs Instructions Machine MachineProofs RefundProofs SafeInstructions.

Local Open Scope Z_scope.

Module SafeTables.
Import Word StateDB StateProofs Evm EvmProofs Instructions Machine MachineProofs StaticProofs RefundProofs SafetyProofs SafeInstructions.

Section Entries.
Context {BE : Backend} {IN : Interpreter} {LW : InterpreterLaws} (r : Rules) (LS : loop_sure r).

(** ** What an entry promises *)

(** What holds between the payment for an instruction and its execution. *)
Definition between : Type := Contract → list Z → StateDB → Prop.
Definition as_before : between := λ _ _ s, backed s.

Definition dyn_sure (pops : nat) (mid : between) (d : Z) (dyn : gasFunc) : Prop := ∀ evm c f n s,
  chainRules evm = r → (pops <= length (stack f))%nat → room r max_refund s →
  ∃ cost f' s', dyn evm c f n s = Some ((cost, f'), s') ∧
    (cost ≠ None → net r = true → mid c (stack f) s' ∧ refund s' <= refund s + d).

Definition exec_sure (pops : nat) (mid : between) (e w : Z) (extra : frame → Z) (ms : option memorySizeFunc) (ex : executionFunc) : Prop :=
  ∀ evm c f s0 id s, chainRules evm = r → valued c → (pops <= length (stack f))%nat → mem_ready ms f →
    0 <= f_gas f → 0 <= extra f → since s0 id s →
    (net r = true → mid c (stack f) s ∧ refund s + max_refund * (f_gas f + extra f + w) < two64) →
    ∃ ret err f' s', ex evm c f s = Some ((ret, err, f'), s') ∧
      (net r = true → backed s' ∧ refund s' + max_refund * f_gas f' <= refund s + max_refund * (f_gas f + extra f) + e).

(** The refunds still possible after the payment. *)
Definition slack (o : operation) : Z := if ends o then 1 else 2.

Record safe_fields (o : operation) (pops : nat) (extra : frame → Z) (least : Z) (mid : between) (d e : Z) : Prop := {
  sf_size : match memorySize o with
            | Some ms => ms_total pops ms ∧ match dynamicGas o with Some dyn => dyn_mem dyn | None => False end
            | None => True
            end;
  sf_gas : match dynamicGas o with
           | None => d = 0 ∧ mid = as_before
           | Some dyn => dyn_sure pops mid d dyn
           end;
  sf_exec : exec_sure pops mid e (slack o) extra (memorySize o) (execute o);
  sf_nonneg : 0 <= d ∧ 0 <= e;
  sf_budget : d + e <= max_refund;
}.

Inductive op_safe (o : operation) : Prop :=
  op_safe_intro pops pushes extra least mid d e :
    op_fields o pops pushes extra least → safe_fields o pops extra least mid d e → op_safe o.

(** ** Instructions that touch no storage *)

Lemma gentle_sure pops pushes e w extra ms ex :
  0 <= e → exec_gentle pops ms ex → exec_spec pops pushes extra ex → exec_sure pops as_before e w extra ms ex.
Proof.
  intros He Hg Hs evm c f s0 id s _ Hv Hl Hm Hf Hx _ Hr. destruct (proj2 (Hg evm c f Hv Hl Hm) s) as ([[ret err] f'] & s' & E & T).
  exists ret, err, f', s'. split; [done|]. intros Hn. destruct (Hr Hn) as [Hb _]. split; [by eapply tame_backed|].
  destruct (Hs evm c f Hf Hx s _ s' E) as [[H1 H2] _]. rewrite (proj1 T). unfold max_refund in *. nia.
Qed.

Lemma dyn_gentle_sure pops dyn : dyn_gentle pops dyn → dyn_sure pops as_before 0 dyn.
Proof.
  intros Hg evm c f n s _ Hl Hr. destruct (proj2 (Hg evm c f n Hl) s) as ([cost f'] & s' & E & T). exists cost, f', s'.
  split; [done|]. intros _ Hn. destruct (Hr Hn) as [Hb _]. split; [by eapply tame_backed|]. rewrite (proj1 T). lia.
Qed.

Lemma plain_safe ex gas (pops pushes : nat) k :
  quiet pops pushes ex → exec_framed ex → exec_gentle pops None ex → (if halts k || reverts k then 0 <= gas else 1 <= gas) →
  op_safe (mk_op ex gas None (Z.of_nat pops) (Z.of_nat pushes) None k).
Proof.
  intros Hq Hf Hg Hgas. pose proof (plain_ok ex gas pops pushes k Hq Hf Hgas) as Ho. eapply op_safe_intro; [exact Ho|].
  split; [done|by split|apply (gentle_sure pops pushes 0); [done|done|by apply quiet_spec]|done|done].
Qed.

Lemma dynamic_safe ex gas dyn least (pops pushes : nat) ms k :
  quiet pops pushes ex → exec_framed ex → gas_spec no_extra least dyn → gas_framed dyn → exec_gentle pops ms ex → dyn_gentle pops dyn →
  match ms with Some ms => ms_total pops ms ∧ dyn_mem dyn | None => True end →
  0 <= gas → 0 <= least → (halts k || reverts k = false → 1 <= gas + least) →
  op_safe (mk_op ex gas (Some dyn) (Z.of_nat pops) (Z.of_nat pushes) ms k).
Proof.
  intros Hq Hf Hd Hdf Hg Hdg Hms Hgas Hl He. pose proof (dynamic_ok ex gas dyn least pops pushes ms k Hq Hf Hd Hdf Hgas Hl He) as Ho.
  eapply op_safe_intro; [exact Ho|]. split; [by destruct ms|by apply dyn_gentle_sure|apply (gentle_sure pops pushes 0); [done|done|by apply quiet_spec]|done|done].
Qed.

(** ** Self-destruction *)

Lemma AddRefund_sure g s : 0 <= g <= max_refund → room r max_refund s →
  ∃ s', AddRefund g s = Some (tt, s') ∧ (net r = true → backed s' ∧ refund s' <= refund s + g).
Proof.
  intros Hg Hr. destruct (AddRefund g s) as [[[] s']|] eqn:E; [|done]. exists s'. split; [done|]. intros Hn.
  destruct (Hr Hn) as [Hb Hroom]. pose proof Hb as (D & _ & HD). unfold clear_refund in HD.
  destruct (AddRefund_run g s) as (s1 & E1 & R1 & L1); [lia|lia|lia|]. rewrite E in E1. injection E1 as ->. split; [|lia].
  eapply covered_mono; [exact Hb| |lia]. intros a k. by apply zeroed_live.
Qed.

Lemma gasSelfdestruct_sure : dyn_sure 1 as_before max_refund gasSelfdestruct.
Proof.
  intros evm c f n s _ Hl Hr. unfold gasSelfdestruct.
  match goal with |- context [(?m ≫= _) s] => assert (Hm : gentle m) end.
  { destruct (IsEIP150 _); [|apply gentle_ret]. apply gentle_bind; [apply gentle_lift, lookup_lt_is_Some_2; lia|]. intros x.
    apply gentle_bind; [|intros b; apply gentle_ret]. solve_gentle. }
  destruct (proj2 Hm s) as (gas & s1 & E1 & T1). rewrite (SM_bind_run _ _ _ _ _ E1).
  destruct (proj2 (read_gentle (self c) (λ o, match o with Some o => suicided o | None => false end)) s1) as (b & s2 & E2 & T2).
  change ((HasSuicided (self c)) s1 = Some (b, s2)) in E2. rewrite (SM_bind_run _ _ _ _ _ E2).
  assert (T : tame s s2) by (by etrans). destruct b; cbn [negb].
  - eexists _, _, s2. split; [done|]. intros _ Hn. destruct (Hr Hn) as [Hb _]. split; [by eapply tame_backed|]. rewrite (proj1 T). unfold max_refund. lia.
  - destruct (AddRefund_sure SelfdestructRefundGas s2) as (s3 & E3 & H3); [done|by eapply room_tame|]. rewrite (SM_bind_run _ _ _ _ _ E3).
    eexists _, _, s3. split; [done|]. intros _ Hn. destruct (H3 Hn) as [H4 H5]. split; [done|]. rewrite <-(proj1 T). unfold SelfdestructRefundGas, max_refund in *. lia.
Qed.

Lemma opSuicide_gentle : exec_gentle 1 None opSuicide.
Proof. intros evm c f Hv Hl Hm. unfold opSuicide. solve_gentle. Qed.

Lemma suicide_safe : op_safe (mk_op opSuicide 0 (Some gasSelfdestruct) 1 0 None destroying).
Proof.
  assert (Hq : quiet 1 0 opSuicide) by (unfold opSuicide; solve_quiet).
  assert (Hf : exec_framed opSuicide) by (unfold exec_framed, opSuicide; solve_framed).
  assert (Ho : op_fields (mk_op opSuicide 0 (Some gasSelfdestruct) 1 0 None destroying) 1 0 no_extra 0).
  { apply (dynamic_ok opSuicide 0 gasSelfdestruct 0 1 0 None destroying); [done|done|apply gasSelfdestruct_gas|apply gasSelfdestruct_framed|done..]. }
  eapply op_safe_intro; [exact Ho|]. split; [done|apply gasSelfdestruct_sure| |split; done|done].
  apply (gentle_sure 1 0 0); [done|apply opSuicide_gentle|by apply quiet_spec].
Qed.

(** ** Storage writes *)

Definition store_covered : between := λ c st s,
  match st with x :: y :: _ => covered (written s (self c) (BigToHash x) (BigToHash y)) s | _ => False end.

Lemma SM_ret_bind {A B} (a : A) (k : A → SM B) s : (mret a ≫= k) s = k a s.
Proof. done. Qed.

Lemma SM_seq_run (m1 m2 : SM unit) {A} (k : SM A) s s' : (m1;; m2) s = Some (tt, s') → (m1;; (m2;; k)) s = k s'.
Proof. intros ([] & s1 & E1 & E2)%SM_bind_Some. rewrite (SM_bind_run _ _ _ _ _ E1). by rewrite (SM_bind_run _ _ _ _ _ E2). Qed.

Lemma net_sstore_sure noop init clean dirty reset resetClear evm c f n s x y st :
  0 <= reset <= max_refund → 0 <= resetClear <= max_refund → stack f = x :: y :: st → backed s → refund s + max_refund < two64 →
  ∃ cost s', net_sstore noop init clean dirty clear_refund reset resetClear evm c f n s = Some ((Some cost, f), s') ∧
    store_covered c (stack f) s' ∧ refund s' <= refund s + max_refund.
Proof.
  intros Hr1 Hr2 Est Hb Hroom. unfold net_sstore, Back. rewrite Est. cbn [lookup list_lookup lift]. cbv beta.
  set (a := self c). set (k := BigToHash x). set (v := BigToHash y). rewrite !SM_ret_bind.
  destruct (GetState_value a k s) as (s1 & E1 & V1). fold a k. rewrite (SM_bind_run _ _ _ _ _ E1). cbv zeta. fold v.
  assert (Hmax : max_refund = 24000) by done.
  destruct (Z.eqb_spec (cur_of s a k) v) as [Ecv|Ecv].
  { eexists _, s1. split; [done|]. rewrite <-(e_refund _ _ V1). split; [|lia]. cbn [store_covered]. fold a k v.
    eapply covered_mono; [exact Hb| |rewrite (e_refund _ _ V1); lia]. intros b j Hw%(written_eqv s) ; [|done]. unfold written in Hw.
    case_decide as Hd; [|done]. destruct Hd as [-> ->], Hw as [Ho Hv]. apply zeroed_iff. split; [done|congruence]. }
  destruct (GetCommittedState_value a k s1) as (s2 & E2 & V2). rewrite (SM_bind_run _ _ _ _ _ E2).
  assert (V : eqv s s2) by (by etrans). destruct (values_eqv _ _ a k V1) as [_ O1]. rewrite O1. destruct (values_eqv _ _ a k V) as [C2 O2].
  destruct (net_refund_sure a k v reset resetClear s2) as (s3 & E3 & H3 & R3);
    [done|done|eapply tame_backed; [by apply tame_eqv|done]|rewrite <-(e_refund _ _ V); done|by rewrite C2|].
  rewrite C2, O2 in E3. rewrite <-(e_refund _ _ V) in R3.
  assert (Hdone : store_covered c (x :: y :: st) s3 ∧ refund s3 <= refund s + max_refund) by done.
  destruct (Z.eqb_spec (orig_of s a k) (cur_of s a k)) as [Eoc|Eoc]; [|rewrite (SM_seq_run _ _ _ _ _ E3); by eexists _, s3].
  unfold net_refund in E3. rewrite (proj2 (Z.eqb_neq (orig_of s a k) v)) in E3 by congruence.
  destruct (Z.eqb_spec (orig_of s a k) 0) as [E0|E0]; cbn [negb] in E3.
  - injection E3 as <-. by eexists _, s2.
  - rewrite (proj2 (Z.eqb_neq (cur_of s a k) 0)) in E3 by congruence. apply SM_bind_Some in E3 as ([] & s4 & E4 & [= ->]).
    rewrite (SM_bind_run _ _ _ _ _ E4). by eexists _, s3.
Qed.

Lemma two_items (f : frame) : (2 <= length (stack f))%nat → ∃ x y st, stack f = x :: y :: st.
Proof. destruct (stack f) as [|x [|y st]]; cbn; try lia. eauto. Qed.

Lemma gasSStoreEIP2200_sure : IsIstanbul r = true → dyn_sure 2 store_covered max_refund gasSStoreEIP2200.
Proof.
  intros Hi evm c f n s _ Hl Hr. unfold gasSStoreEIP2200. destruct (_ <=? _); [by eexists _, _, s|].
  assert (Hn : net r = true) by (unfold net; by rewrite Hi). destruct (Hr Hn) as [Hb Hroom]. destruct (two_items f Hl) as (x & y & st & E).
  destruct (net_sstore_sure SstoreNoopGasEIP2200 SstoreInitGasEIP2200 SstoreCleanGasEIP2200 SstoreDirtyGasEIP2200 SstoreCleanRefundEIP2200 SstoreInitRefundEIP2200 evm c f n s x y st)
    as (cost & s' & E' & H1 & H2); [done..|]. by eexists _, _, s'.
Qed.

Lemma gasSStore_sure : IsIstanbul r = false → dyn_sure 2 store_covered max_refund gasSStore.
Proof.
  intros Hi evm c f n s Er Hl Hr. destruct (two_items f Hl) as (x & y & st & E). unfold gasSStore. rewrite Er.
  destruct (IsPetersburg r || negb (IsConstantinople r)) eqn:Eb.
  - assert (Hn : net r = false) by (unfold net; rewrite Hi; by destruct (IsPetersburg r), (IsConstantinople r)).
    unfold Back. rewrite E. cbn [lookup list_lookup lift]. rewrite !SM_ret_bind.
    destruct (proj2 (GetState_gentle (self c) (BigToHash x)) s) as (cur & s1 & E1 & _). rewrite (SM_bind_run _ _ _ _ _ E1).
    destruct (_ && _); [eexists _, _, s1; split; [done|]; congruence|]. destruct (_ && _); [|eexists _, _, s1; split; [done|]; congruence].
    destruct (AddRefund SstoreRefundGas s1) as [[[] s2]|] eqn:E2; [|done]. rewrite (SM_bind_run _ _ _ _ _ E2).
    eexists _, _, s2. split; [done|]. congruence.
  - assert (Hn : net r = true) by (unfold net; rewrite Hi; by destruct (IsPetersburg r), (IsConstantinople r)).
    destruct (Hr Hn) as [Hb Hroom].
    destruct (net_sstore_sure NetSstoreNoopGas NetSstoreInitGas NetSstoreCleanGas NetSstoreDirtyGas NetSstoreResetRefund NetSstoreResetClearRefund evm c f n s x y st)
      as (cost & s' & E' & H1 & H2); [done..|]. by eexists _, _, s'.
Qed.

Lemma opSstore_sure w : exec_sure 2 store_covered 0 w no_extra None opSstore.
Proof.
  intros evm c f s0 id s _ Hv Hl _ Hf _ Hs Hr. destruct (two_items f Hl) as (x & y & st & E). unfold opSstore, pop. rewrite E.
  rewrite SM_ret_bind. cbn [stack set_stack]. rewrite SM_ret_bind.
  destruct (SetState_written (self c) (BigToHash x) (BigToHash y) s) as (s' & E' & R' & Z'). rewrite (SM_bind_run _ _ _ _ _ E').
  eexists _, _, _, s'. split; [done|]. intros Hn. destruct (Hr Hn) as [Hm _]. rewrite E in Hm. cbn [store_covered] in Hm. split.
  - eapply covered_mono; [exact Hm|exact Z'|lia].
  - unfold no_extra. cbn. rewrite R'. lia.
Qed.

Lemma sstore_safe dyn :
  gas_spec no_extra 1 dyn → gas_framed dyn → dyn_sure 2 store_covered max_refund dyn →
  op_safe (mk_op opSstore 0 (Some dyn) 2 0 None writing).
Proof.
  intros Hd Hdf Hs. assert (Hq : quiet 2 0 opSstore) by (unfold opSstore; solve_quiet).
  assert (Hf : exec_framed opSstore) by (unfold exec_framed, opSstore; solve_framed).
  assert (Ho : op_fields (mk_op opSstore 0 (Some dyn) 2 0 None writing) 2 0 no_extra 1) by (by apply (dynamic_ok opSstore 0 dyn 1 2 0 None writing)).
  eapply op_safe_intro; [exact Ho|]. split; [done|exact Hs|apply opSstore_sure|done|done].
Qed.

(** ** Calls and creations *)

Lemma after_call_run f o n x s :
  mem_range (mem f) o n → ∃ ret f', after_call f o n x s = Some ((ret, None, f'), s) ∧ f_gas f' = u64 (f_gas f + result_gas x).
Proof.
  intros Hm. destruct x as [[ret g] err]. unfold after_call. destruct (_ || _).
  - unfold write_mem. destruct (write_range (mem f) o n ret Hm) as [m Em]. cbn [push mem set_stack]. rewrite Em. by eexists _, _.
  - by eexists _, _.
Qed.

Lemma call_tail k evm caller addr input g f o n s0 id s :
  chainRules evm = r → 0 <= g → caller_ok k caller → mem_range (mem f) o n → 0 <= f_gas f → since s0 id s → room r (max_refund * (g + 2)) s →
  ∃ ret err f' s', (x ← message_call k evm caller addr input g; after_call f o n x) s = Some ((ret, err, f'), s') ∧
    (net r = true → backed s' ∧ refund s' + max_refund * f_gas f' <= refund s + max_refund * (f_gas f + g) + max_refund).
Proof.
  intros Er Hg Hc Hm Hf Hs Hr. destruct (message_call_sure r LS k evm caller addr input g Er Hg Hc s (since_good _ _ _ Hs) Hr) as (x & s' & E & K).
  rewrite (SM_bind_run _ _ _ _ _ E). destruct (after_call_run f o n x s' Hm) as (ret & f' & E' & Ef). rewrite E'. eexists _, _, _, s'. split; [done|].
  intros Hn. destruct (K Hn) as [K1 K2]. split; [done|]. pose proof (message_call_gas k evm caller addr input g Hg s x s' E) as [G1 G2].
  pose proof (u64_le (f_gas f + result_gas x)). unfold result_gas, allowance, max_refund in *. rewrite Ef. lia.
Qed.

(** From the frame before the pops. *)
Lemma call_exec_sure k evm c addr input g f st o n extra s0 id s :
  chainRules evm = r → valued c → 0 <= g <= extra → mem_range (mem f) o n → 0 <= f_gas f → since s0 id s →
  (net r = true → as_before c (stack f) s ∧ refund s + max_refund * (f_gas f + extra + 2) < two64) →
  ∃ ret err f' s', (x ← message_call k evm (as_caller c) addr input g; after_call (set_stack f st) o n x) s = Some ((ret, err, f'), s') ∧
    (net r = true → backed s' ∧ refund s' + max_refund * f_gas f' <= refund s + max_refund * (f_gas f + extra) + max_refund).
Proof.
  intros Er Hv Hg Hm Hf Hs Hr.
  destruct (call_tail k evm (as_caller c) addr input g (set_stack f st) o n s0 id s) as (ret & err & f' & s' & E & K); try done; [lia|by destruct k| |].
  { intros Hn. destruct (Hr Hn) as [H1 H2]. split; [done|]. unfold max_refund in *. lia. }
  exists ret, err, f', s'. split; [exact E|]. intros Hn. destruct (K Hn) as [K1 K2]. split; [done|]. cbn [f_gas set_stack] in K2. unfold max_refund in *. lia.
Qed.

Ltac run_pops E := rewrite (pop_bind _ _ _ _ _ E); repeat (erewrite pop_bind by reflexivity); cbv zeta; cbn [callGasTemp set_stack].

Ltac run_read H :=
  let d := fresh "d" in let Ed := fresh "Ed" in
  destruct (read_range _ _ _ H) as [d Ed]; unfold read_mem; cbn [mem set_stack]; rewrite Ed; cbn [lift]; rewrite SM_ret_bind.

Ltac by_call H tac :=
  destruct H as (ret & err & f' & s' & E' & K); [done|done|tac|done|done|done|done|exists ret, err, f', s'; split; [exact E'|exact K]].

Lemma range_of i j f off l a b :
  mem_ready (Some (mem_max a b)) f → (a = mem_size i j ∨ b = mem_size i j) → stack f !! i = Some off → stack f !! j = Some l → mem_range (mem f) off l.
Proof. intros [Ha Hb]%ready_max [->| ->] Ei Ej; by eapply ready_range. Qed.

Lemma opCall_sure : exec_sure 7 as_before max_refund 2 value_extra (Some memoryCall) opCall.
Proof.
  intros evm c f s0 id s Er Hv Hl Hm Hf Hx Hs Hr. destruct (stack f) as [|x1 [|x2 [|x3 [|x4 [|x5 [|x6 [|x7 st]]]]]]] eqn:E; cbn [length] in Hl; try lia.
  assert (Hin : mem_range (mem f) x4 x5) by (apply (range_of 3 4 f _ _ _ _ Hm); [by right|by rewrite E..]).
  assert (Hout : mem_range (mem f) x6 x7) by (apply (range_of 5 6 f _ _ _ _ Hm); [by left|by rewrite E..]).
  unfold opCall. run_pops E. run_read Hin.
  by_call (call_exec_sure (KCall (U256 x3)) evm c (BigToAddress x2) d (if negb (U256 x3 =? 0) then u64 (callGasTemp f + CallStipend) else callGasTemp f) f st x6 x7 (value_extra f) s0 id s) ltac:(by apply (stipend_gas f x1 x2 x3 _ E)).
Qed.

Lemma opCallCode_sure : exec_sure 7 as_before max_refund 2 value_extra (Some memoryCall) opCallCode.
Proof.
  intros evm c f s0 id s Er Hv Hl Hm Hf Hx Hs Hr. destruct (stack f) as [|x1 [|x2 [|x3 [|x4 [|x5 [|x6 [|x7 st]]]]]]] eqn:E; cbn [length] in Hl; try lia.
  assert (Hin : mem_range (mem f) x4 x5) by (apply (range_of 3 4 f _ _ _ _ Hm); [by right|by rewrite E..]).
  assert (Hout : mem_range (mem f) x6 x7) by (apply (range_of 5 6 f _ _ _ _ Hm); [by left|by rewrite E..]).
  unfold opCallCode. run_pops E. run_read Hin.
  by_call (call_exec_sure (KCallCode (U256 x3)) evm c (BigToAddress x2) d (if negb (U256 x3 =? 0) then u64 (callGasTemp f + CallStipend) else callGasTemp f) f st x6 x7 (value_extra f) s0 id s) ltac:(by apply (stipend_gas f x1 x2 x3 _ E)).
Qed.

Lemma opDelegateCall_sure : exec_sure 6 as_before max_refund 2 temp_extra (Some memoryDelegateCall) opDelegateCall.
Proof.
  intros evm c f s0 id s Er Hv Hl Hm Hf Hx Hs Hr. destruct (stack f) as [|x1 [|x2 [|x3 [|x4 [|x5 [|x6 st]]]]]] eqn:E; cbn [length] in Hl; try lia.
  assert (Hin : mem_range (mem f) x3 x4) by (apply (range_of 2 3 f _ _ _ _ Hm); [by right|by rewrite E..]).
  assert (Hout : mem_range (mem f) x5 x6) by (apply (range_of 4 5 f _ _ _ _ Hm); [by left|by rewrite E..]).
  unfold opDelegateCall. run_pops E. run_read Hin.
  by_call (call_exec_sure KDelegateCall evm c (BigToAddress x2) d (callGasTemp f) f st x5 x6 (temp_extra f) s0 id s) ltac:(by unfold temp_extra in * ).
Qed.

Lemma opStaticCall_sure : exec_sure 6 as_before max_refund 2 temp_extra (Some memoryStaticCall) opStaticCall.
Proof.
  intros evm c f s0 id s Er Hv Hl Hm Hf Hx Hs Hr. destruct (stack f) as [|x1 [|x2 [|x3 [|x4 [|x5 [|x6 st]]]]]] eqn:E; cbn [length] in Hl; try lia.
  assert (Hin : mem_range (mem f) x3 x4) by (apply (range_of 2 3 f _ _ _ _ Hm); [by right|by rewrite E..]).
  assert (Hout : mem_range (mem f) x5 x6) by (apply (range_of 4 5 f _ _ _ _ Hm); [by left|by rewrite E..]).
  unfold opStaticCall. run_pops E. run_read Hin.
  by_call (call_exec_sure KStaticCall evm c (BigToAddress x2) d (callGasTemp f) f st x5 x6 (temp_extra f) s0 id s) ltac:(by unfold temp_extra in * ).
Qed.

(** Creation: a part of the gas is handed on, what is left of it comes back. *)
Lemma create_tail g (m : SM create_result) f (k : create_result → SM exec_result) s0 id s :
  sure r create_gas_of g m → post m (create_within g) → 0 <= g <= f_gas f → since s0 id s →
  (∀ x, ∃ ret err f', k x = mret (ret, err, f') ∧ f_gas f' = u64 (f_gas f - g + create_gas_of x)) →
  (net r = true → backed s ∧ refund s + max_refund * (f_gas f + 0 + 2) < two64) →
  ∃ ret err f' s', (m ≫= k) s = Some ((ret, err, f'), s') ∧
    (net r = true → backed s' ∧ refund s' + max_refund * f_gas f' <= refund s + max_refund * (f_gas f + 0) + max_refund).
Proof.
  intros Hm Hp Hg Hs Hk Hr. destruct (Hm s (since_good _ _ _ Hs)) as (x & s' & E & K).
  { intros Hn. destruct (Hr Hn) as [H1 H2]. split; [done|]. unfold max_refund in *. lia. }
  rewrite (SM_bind_run _ _ _ _ _ E). destruct (Hk x) as (ret & err & f' & -> & Ef). exists ret, err, f', s'. split; [done|].
  intros Hn. destruct (K Hn) as [K1 K2]. split; [done|]. pose proof (Hp s x s' E) as [G1 G2].
  pose proof (u64_le (f_gas f - g + create_gas_of x)). unfold create_gas_of, allowance, max_refund in *. lia.
Qed.

Lemma Create_sure evm caller code gas value : chainRules evm = r → 0 <= gas → sure r create_gas_of gas (Create evm caller code gas value).
Proof. intros Er Hg. apply sure_bind; [apply read_gentle|apply read_stays|]. intros nonce. by apply create_sure. Qed.

Lemma opCreate_sure : exec_sure 3 as_before max_refund 2 no_extra (Some memoryCreate) opCreate.
Proof.
  intros evm c f s0 id s Er Hv Hl Hm Hf _ Hs Hr. destruct (stack f) as [|x1 [|x2 [|x3 st]]] eqn:E; cbn [length] in Hl; try lia.
  assert (Hin : mem_range (mem f) x2 x3) by (apply (ready_range 1 2 f _ _ Hm); by rewrite E).
  unfold opCreate. run_pops E. run_read Hin. set (f1 := set_stack _ st). set (g := if IsEIP150 _ then _ else _).
  assert (Hg : 0 <= g <= f_gas f1) by (unfold g, f1; cbn; pose proof (sixty_fourth (f_gas f) Hf); destruct (IsEIP150 _); lia).
  destruct (use_gas_split f1 g Hg) as [E1 E2].
  apply (create_tail g _ f1 _ s0 id s); [apply Create_sure; [done|lia]|apply Create_gas; lia|done|done| |done].
  intros [[[res addr] rg] err]. eexists _, _, _. split; [done|]. cbn [f_gas set_gas]. f_equal. unfold create_gas_of. cbn.
  repeat case_match; cbn; by rewrite E1.
Qed.

Lemma opCreate2_sure : exec_sure 4 as_before max_refund 2 no_extra (Some memoryCreate2) opCreate2.
Proof.
  intros evm c f s0 id s Er Hv Hl Hm Hf _ Hs Hr. destruct (stack f) as [|x1 [|x2 [|x3 [|x4 st]]]] eqn:E; cbn [length] in Hl; try lia.
  assert (Hin : mem_range (mem f) x2 x3) by (apply (ready_range 1 2 f _ _ Hm); by rewrite E).
  unfold opCreate2. run_pops E. run_read Hin. set (f1 := set_stack _ st). set (g := f_gas f1 - f_gas f1 / 64).
  assert (Hg : 0 <= g <= f_gas f1) by (apply (sixty_fourth (f_gas f) Hf)). destruct (use_gas_split f1 g Hg) as [E1 E2].
  apply (create_tail g _ f1 _ s0 id s); [apply create_sure; [done|done|lia]|apply Create2_gas; lia|done|done| |done].
  intros [[[res addr] rg] err]. eexists _, _, _. split; [done|]. cbn [f_gas set_gas]. f_equal. unfold create_gas_of. cbn.
  repeat case_match; cbn; by rewrite E1.
Qed.

Lemma calling_safe ex gas dyn extra (pops pushes : nat) ms k :
  exec_spec pops pushes extra ex → exec_framed ex → local extra → gas_spec extra 0 dyn → gas_framed dyn →
  dyn_gentle pops dyn → ms_total pops ms → dyn_mem dyn → exec_sure pops as_before max_refund 2 extra (Some ms) ex →
  halts k || reverts k = false → 1 <= gas →
  op_safe (mk_op ex gas (Some dyn) (Z.of_nat pops) (Z.of_nat pushes) (Some ms) k).
Proof.
  intros He Hf Hl Hd Hdf Hdg Hms Hdm Hs Hk Hg. pose proof (calling_ok ex gas dyn extra pops pushes (Some ms) k He Hf Hl Hd Hdf Hg) as Ho.
  apply (op_safe_intro _ pops pushes extra 0 as_before 0 max_refund Ho). split; [done|by apply dyn_gentle_sure| |done|done].
  unfold slack, ends. cbn [flags mk_op]. rewrite Hk. exact Hs.
Qed.

(** ** The tables *)

(** All entries but that of SSTORE, whose price depends on the rules. *)
Definition SSTORE : Z := 85.
Definition table_safe (jt : JumpTable) : Prop := Forall (λ '(k, o), k ≠ SSTORE → op_safe o) jt.

Lemma get_op_safe jt op o : table_safe jt → op ≠ SSTORE → get_op jt op = Some o → op_safe o.
Proof.
  intros Ht Hk. induction Ht as [|[k o'] jt Ho Ht IH]; [done|]. cbn. destruct (Z.eqb_spec k op) as [->|]; [|done].
  intros [= <-]. by apply Ho.
Qed.

Lemma set_constantGas_safe op gas jt : 1 <= gas → table_safe jt → table_safe (set_constantGas op gas jt).
Proof.
  intros Hg Ht. unfold set_constantGas. destruct (get_op jt op) as [o|] eqn:E; [|done]. constructor; [|done]. intros Hk.
  destruct (get_op_safe _ _ _ Ht Hk E) as [pops pushes extra least mid d e [H1 H2 H3 H4 H5 H6 H7 H8 H9] [S1 S2 S3 S4 S5]].
  apply (op_safe_intro _ pops pushes extra least mid d e); [split; try done; cbn; lia|by split].
Qed.

Lemma set_dynamicGas_safe op dyn jt o :
  get_op jt op = Some o → (op ≠ SSTORE → op_safe (mk_operation (execute o) (constantGas o) (Some dyn) (minStack o) (maxStack o) (memorySize o) (flags o))) →
  table_safe jt → table_safe (set_dynamicGas op dyn jt).
Proof. intros E Ho Ht. unfold set_dynamicGas. rewrite E. by constructor. Qed.

Lemma push_ops_safe : table_safe push_ops.
Proof.
  apply Forall_fmap, Forall_forall. intros n _ _. apply (plain_safe _ _ 0 1); [apply makePush_quiet|apply makePush_framed|apply makePush_gentle|done].
Qed.

Lemma dup_ops_safe : table_safe dup_ops.
Proof.
  apply Forall_fmap, Forall_forall. intros n Hn%elem_of_seq _. replace (Z.of_nat n + 1) with (Z.of_nat (n + 1)) by lia.
  apply (plain_safe _ _ n (n + 1)); [apply makeDup_quiet; lia|apply makeDup_framed|apply makeDup_gentle; lia|done].
Qed.

Lemma swap_ops_safe : table_safe swap_ops.
Proof.
  apply Forall_fmap, Forall_forall. intros n _ _. replace (Z.of_nat n + 1) with (Z.of_nat (n + 1)) by lia.
  apply (plain_safe _ _ (n + 1) (n + 1)); [apply makeSwap_quiet|apply makeSwap_framed|apply makeSwap_gentle|done].
Qed.

Lemma log_ops_safe : table_safe log_ops.
Proof.
  apply Forall_fmap, Forall_forall. intros n _ _. replace (Z.of_nat n + 2) with (Z.of_nat (n + 2)) by lia.
  apply (dynamic_safe _ _ _ 1 (n + 2) 0);
    [apply makeLog_quiet|apply makeLog_framed|apply makeGasLog_gas|apply makeGasLog_framed|apply makeLog_gentle|apply makeGasLog_gentle; lia
    |split; [apply mem_size_total; lia|apply makeGasLog_mem]|done..].
Qed.

Ltac op_gentle :=
  lazymatch goal with
  | |- exec_gentle _ _ ?ex =>
      first [apply unary_gentle | apply binary_gentle | apply ternary_gentle | apply pushes_gentle | apply opMstore8_gentle
            | let h := head ex in unfold h; intros evm c f Hv Hl Hm;
              cbv delta [memorySha3 memoryCallDataCopy memoryReturnDataCopy memoryCodeCopy memoryExtCodeCopy memoryMLoad memoryMStore memoryReturn memoryRevert] in Hm;
              solve_gentle]
  end.

Ltac size_total := first [apply mem_size_total; lia | apply mem_size_uint_total; lia | apply mem_max_total; apply mem_size_total; lia].
Ltac gas_gentle := first [apply pure_gentle | apply memory_and_words_gentle; lia | apply gas_exp_gentle; lia].
Ltac gas_mem := first [apply pure_mem | apply memory_and_words_mem].

Ltac solve_safe :=
  lazymatch goal with
  | |- op_safe (mk_op opCall _ _ _ _ _ _) =>
      apply (calling_safe _ _ _ value_extra 7 1);
      [apply opCall_spec|op_framed|apply local_value|apply gasCall_gas|apply gasCall_framed|apply gasCall_gentle|size_total|apply gasCall_mem|apply opCall_sure|done|done]
  | |- op_safe (mk_op opCallCode _ _ _ _ _ _) =>
      apply (calling_safe _ _ _ value_extra 7 1);
      [apply opCallCode_spec|op_framed|apply local_value|apply gasCallCode_gas|apply gasCallCode_framed|apply gasCallCode_gentle|size_total|apply gasCallCode_mem|apply opCallCode_sure|done|done]
  | |- op_safe (mk_op opDelegateCall _ _ _ _ _ _) =>
      apply (calling_safe _ _ _ temp_extra 6 1);
      [apply opDelegateCall_spec|op_framed|apply local_temp|by apply plain_call_gas|apply gasDelegateCall_framed|apply gasDelegateCall_gentle|size_total|apply gasDelegateCall_mem|apply opDelegateCall_sure|done|done]
  | |- op_safe (mk_op opStaticCall _ _ _ _ _ _) =>
      apply (calling_safe _ _ _ temp_extra 6 1);
      [apply opStaticCall_spec|op_framed|apply local_temp|by apply plain_call_gas|apply gasStaticCall_framed|apply gasStaticCall_gentle|size_total|apply gasStaticCall_mem|apply opStaticCall_sure|done|done]
  | |- op_safe (mk_op opCreate _ _ _ _ _ _) =>
      apply (calling_safe _ _ _ no_extra 3 1);
      [apply opCreate_spec|op_framed|apply local_none|apply pure_gas|apply pure_framed|apply pure_gentle|size_total|apply pure_mem|apply opCreate_sure|done|done]
  | |- op_safe (mk_op opCreate2 _ _ _ _ _ _) =>
      apply (calling_safe _ _ _ no_extra 4 1);
      [apply opCreate2_spec|op_framed|apply local_none|apply memory_and_words_gas|apply memory_and_words_framed|gas_gentle|size_total|gas_mem|apply opCreate2_sure|done|done]
  | |- op_safe (mk_op opSuicide _ _ _ _ _ _) => apply suicide_safe
  | |- op_safe (mk_op ?ex ?g None ?p ?q None ?k) =>
      let p' := eval compute in (Z.to_nat p) in let q' := eval compute in (Z.to_nat q) in
      apply (plain_safe ex g p' q' k); [op_quiet|op_framed|op_gentle|done]
  | |- op_safe (mk_op ?ex ?g (Some ?dyn) ?p ?q ?ms ?k) =>
      let p' := eval compute in (Z.to_nat p) in let q' := eval compute in (Z.to_nat q) in let l := least_of dyn in
      apply (dynamic_safe ex g dyn l p' q' ms k);
      [op_quiet|op_framed|op_gas|op_gas_framed|op_gentle|gas_gentle|first [exact I|split; [size_total|gas_mem]]|done..]
  end.

Ltac entry_safe :=
  cbv beta iota;
  lazymatch goal with
  | |- _ → op_safe (mk_op opSstore _ _ _ _ _ _) => let H := fresh in intros H; exfalso; by apply H
  | |- _ → op_safe _ => intros _; solve_safe
  end.

Lemma frontier_safe : table_safe newFrontierInstructionSet.
Proof.
  unfold newFrontierInstructionSet, table_safe. rewrite !Forall_app.
  split_and!; [|apply push_ops_safe|apply dup_ops_safe|apply swap_ops_safe|apply log_ops_safe].
  repeat (apply Forall_cons; split; [entry_safe|]). apply Forall_nil_2.
Qed.

Lemma homestead_safe : table_safe newHomesteadInstructionSet.
Proof. apply Forall_cons. split; [entry_safe|apply frontier_safe]. Qed.

Lemma tangerine_safe : table_safe newTangerineWhistleInstructionSet.
Proof. unfold newTangerineWhistleInstructionSet. repeat (apply set_constantGas_safe; [done|]). apply homestead_safe. Qed.

Lemma dragon_safe : table_safe newSpuriousDragonInstructionSet.
Proof.
  assert (E : get_op newTangerineWhistleInstructionSet 10 = Some (mk_op opExp 0 (Some gasExpFrontier) 2 1 None plain)) by reflexivity.
  apply (set_dynamicGas_safe _ _ _ _ E); [|apply tangerine_safe]. intros _.
  change (op_safe (mk_op opExp 0 (Some gasExpEIP158) 2 1 None plain)). solve_safe.
Qed.

Lemma byzantium_safe : table_safe newByzantiumInstructionSet.
Proof. apply Forall_app. split; [|apply dragon_safe]. repeat (apply Forall_cons; split; [entry_safe|]). apply Forall_nil_2. Qed.

Lemma constantinople_safe : table_safe newConstantinopleInstructionSet.
Proof. apply Forall_app. split; [|apply byzantium_safe]. repeat (apply Forall_cons; split; [entry_safe|]). apply Forall_nil_2. Qed.

Lemma istanbul_safe : table_safe newIstanbulInstructionSet.
Proof.
  assert (E : get_op (enable1884 (enable1344 newConstantinopleInstructionSet)) 85 = Some (mk_op opSstore 0 (Some gasSStore) 2 0 None writing)) by reflexivity.
  apply (set_dynamicGas_safe _ _ _ _ E); [by intros []|]. apply Forall_cons. split; [entry_safe|].
  repeat (apply set_constantGas_safe; [done|]). apply Forall_cons. split; [entry_safe|apply constantinople_safe].
Qed.

Lemma instruction_set_safe : table_safe (instruction_set r).
Proof.
  unfold instruction_set. repeat case_match;
    [apply istanbul_safe|apply constantinople_safe|apply byzantium_safe|apply dragon_safe|apply tangerine_safe|apply homestead_safe|apply frontier_safe].
Qed.

Lemma sstore_entry :
  get_op (instruction_set r) SSTORE =
    Some (mk_op opSstore 0 (Some (if IsIstanbul r then gasSStoreEIP2200 else gasSStore)) 2 0 None writing).
Proof. unfold instruction_set. repeat case_match; reflexivity. Qed.

Lemma entry_is_safe op o : get_op (instruction_set r) op = Some o → op_safe o.
Proof.
  destruct (decide (op = SSTORE)) as [->|Hk]; [|intros E; by eapply get_op_safe; [apply instruction_set_safe| |exact E]].
  rewrite sstore_entry. intros E. apply (inj Some) in E as <-. destruct (IsIstanbul r) eqn:Ei.
  - apply sstore_safe; [apply gasSStoreEIP2200_gas|apply gasSStoreEIP2200_framed|by apply gasSStoreEIP2200_sure].
  - apply sstore_safe; [apply gasSStore_gas|apply gasSStore_framed|by apply gasSStore_sure].
Qed.

(** ** A round of the loop *)

Lemma resize_len m n : n <= mem_len (if 0 <? n then Resize m n else m).
Proof.
  destruct (Z.ltb_spec 0 n); [|unfold mem_len; lia]. unfold Resize. destruct (Z.ltb_spec (mem_len m) n); [|lia].
  unfold mem_len in *. cbn. rewrite length_app, length_replicate. lia.
Qed.

Lemma pay_sure o pops pushes extra least mid d e evm c f s :
  op_fields o pops pushes extra least → safe_fields o pops extra least mid d e → chainRules evm = r →
  (pops <= length (stack f))%nat → room r max_refund s →
  ∃ p s1, pay o evm c f s = Some (p, s1) ∧
    match p with
    | inl (err, _) => err ≠ ErrCodeStoreOutOfGas
    | inr f1 => mem_ready (memorySize o) f1 ∧ (net r = true → mid c (stack f) s1 ∧ refund s1 <= refund s + d)
    end.
Proof.
  intros Ho [S1 S2 _ _ _] Er Hl Hr. unfold pay. destruct (UseGas (f_gas f) (constantGas o)) as [g|]; [|by eexists _, s].
  set (f0 := set_gas f g).
  assert (Hsz : ∃ sz ov, match memorySize o with Some ms => ms f0 | None => Some (0, false) end = Some (sz, ov)).
  { destruct (memorySize o) as [ms|]; [|eauto]. destruct S1 as [[Ht _] _]. destruct (Ht f0 Hl) as [[sz ov] ->]. eauto. }
  destruct Hsz as (sz & ov & Esz). rewrite Esz. cbn [lift]. rewrite SM_ret_bind. cbv beta iota.
  destruct (if ov then (0, true) else SafeMul (toWordSize sz) 32) as [n ov'] eqn:En. destruct ov'; [by eexists _, s|]. destruct ov; [done|].
  destruct (dynamicGas o) as [dyn|] eqn:Ed.
  - destruct (S2 evm c f0 n s Er Hl Hr) as (cost & f1 & s1 & E1 & H1). rewrite (SM_bind_run _ _ _ _ _ E1). cbv beta iota.
    destruct cost as [k|]; [|by eexists _, s1]. destruct (UseGas (f_gas f1) k) as [g'|]; [|by eexists _, s1]. eexists _, s1. split; [done|].
    split; [|by apply H1]. destruct (memorySize o) as [ms|] eqn:Em; [|done]. destruct S1 as [[_ Hloc] Hdm].
    destruct (Hdm evm c f0 n s _ s1 E1) as [_ Hn]. specialize (Hn ltac:(done)). pose proof (words_cover _ _ En).
    pose proof (of_gas _ _ _ _ _ Ho) as Hg. rewrite Ed in Hg. destruct (proj1 Hg evm c f0 n s _ s1 E1) as (_ & Hst & _).
    exists sz. split_and!; [by rewrite <-Esz; apply Hloc| |lia]. cbn [mem set_mem]. pose proof (resize_len (mem f1) n). cbn. lia.
  - eexists _, s. split; [done|]. destruct S2 as [-> ->]. split; [by destruct (memorySize o) as [ms|]; [destruct S1|]|].
    intros Hn. destruct (Hr Hn). split; [done|lia].
Qed.

(** What a round leaves of the counter. *)
Definition round_sure (f : frame) (s : StateDB) (v : verdict) (s' : StateDB) : Prop :=
  net r = true →
  match v with
  | Halt (_, g, err) => survives err → backed s' ∧ refund s' + max_refund * g <= refund s + max_refund * f_gas f + max_refund
  | Continue f' => backed s' ∧ refund s' + max_refund * f_gas f' <= refund s + max_refund * f_gas f
  end.

Lemma halt_sure f e s s' : e ≠ ErrCodeStoreOutOfGas → ∃ v, halt f e s' = Some (v, s') ∧ round_sure f s v s'.
Proof. intros He. eexists. split; [done|]. intros _ [?|[= ?]]; done. Qed.

Lemma finish_sure o pops pushes extra least mid d e evm c f f1 s0 id s s1 :
  op_fields o pops pushes extra least → safe_fields o pops extra least mid d e → chainRules evm = r → valued c →
  (pops <= length (stack f))%nat → mem_ready (memorySize o) f1 → stack f1 = stack f → 0 <= f_gas f1 → 0 <= extra f1 →
  f_gas f1 + extra f1 + constantGas o + least <= f_gas f → since s0 id s1 →
  (net r = true → mid c (stack f) s1 ∧ refund s1 <= refund s + d) → room r (max_refund * (f_gas f + 2)) s →
  ∃ v s', finish o evm c f1 s1 = Some (v, s') ∧ round_sure f s v s'.
Proof.
  intros Ho [_ _ S3 [Hd He] S5] Er Hv Hl Hm Est Hf Hx Hle Hs Hmid Hr. destruct Ho as [_ _ _ _ _ _ Hc Hl0 Hend].
  destruct (S3 evm c f1 s0 id s1) as (ret & err & f2 & s2 & E & H2); try done; [by rewrite Est| |].
  { intros Hn. destruct (Hmid Hn), (Hr Hn). rewrite Est. split; [done|]. unfold slack. destruct (ends o); [unfold max_refund in *; lia|].
    specialize (Hend eq_refl). unfold max_refund in *. lia. }
  unfold finish. rewrite (SM_bind_run _ _ _ _ _ E). cbv beta iota zeta. set (f3 := if returns _ then _ else _).
  assert (E3 : f_gas f3 = f_gas f2) by (unfold f3; by destruct (returns _)).
  assert (Hall : net r = true → backed s2 ∧ refund s2 + max_refund * f_gas f2 + max_refund * (constantGas o + least) <= refund s + max_refund * f_gas f + max_refund).
  { intros Hn. destruct (H2 Hn), (Hmid Hn). split; [done|]. unfold max_refund in *. lia. }
  assert (Hhalt : ∀ r' err', round_sure f s (Halt (r', f_gas f3, err')) s2).
  { intros r' err' Hn _. destruct (Hall Hn). split; [done|]. rewrite E3. unfold max_refund in *. lia. }
  destruct err as [e'|]; [eexists _, s2; split; [done|apply Hhalt]|]. unfold ends in Hend.
  destruct (reverts (flags o)); [eexists _, s2; split; [done|apply Hhalt]|]. rewrite orb_false_r in Hend.
  destruct (halts (flags o)); [eexists _, s2; split; [done|apply Hhalt]|]. specialize (Hend eq_refl).
  eexists _, s2. split; [done|]. intros Hn. destruct (Hall Hn) as [H3 H4].
  destruct (jumps (flags o)); (split; [done|]); cbn [f_gas set_pc]; rewrite E3; unfold max_refund in *; lia.
Qed.

Lemma call_min o : get_op (instruction_set r) CALL = Some o → minStack o = 7.
Proof.
  assert (E : minStack <$> get_op (instruction_set r) CALL = Some 7) by (unfold instruction_set; repeat case_match; reflexivity).
  destruct (get_op _ _) as [o'|]; [|done]. injection E as E. by intros [= <-].
Qed.

Lemma step_sure evm c f s0 id s :
  chainRules evm = r → valued c → fits f → since s0 id s → room r (max_refund * (f_gas f + 2)) s →
  ∃ v s', step (instruction_set r) evm c f s = Some (v, s') ∧ round_sure f s v s'.
Proof.
  intros Er Hv [Hf Hst] Hs Hr. unfold step. destruct (get_op (instruction_set r) _) as [o|] eqn:Eo; [|destruct (halt_sure f (errInvalidOpcode (GetOp c (pc f))) s s) as (v & ? & ?); eauto].
  destruct (entry_is_safe _ _ Eo) as [pops pushes extra least mid d e Ho Hsf]. pose proof Ho as [H1 H2 H3 H4 H5 H6 H7 H8 H9].
  destruct (Z.ltb_spec (Z.of_nat (length (stack f))) (minStack o)); [edestruct (halt_sure f) as (v & ? & ?); [|eauto]; done|].
  destruct (Z.ltb_spec (maxStack o) (Z.of_nat (length (stack f)))); [edestruct (halt_sure f) as (v & ? & ?); [|eauto]; done|].
  assert (Hl : (pops <= length (stack f))%nat) by lia.
  assert (Hp : is_Some (write_protected o (GetOp c (pc f)) evm f)).
  { unfold write_protected. destruct (_ && _); [|done]. destruct (writes _); [done|]. destruct (Z.eqb_spec (GetOp c (pc f)) CALL) as [Ek|]; [|done].
    rewrite Ek in Eo. assert (Hc : minStack o = 7) by (by eapply call_min). unfold Back.
    destruct (lookup_lt_is_Some_2 (stack f) 2 ltac:(lia)) as [v ->]. done. }
  destruct Hp as [p Ep]. rewrite Ep. cbn [lift]. rewrite SM_ret_bind. destruct p; [edestruct (halt_sure f) as (v & ? & ?); [|eauto]; done|].
  destruct (pay_sure o pops pushes extra least mid d e evm c f s Ho Hsf Er Hl) as (q & s1 & E1 & Hq).
  { eapply room_less; [|exact Hr]. unfold max_refund. lia. }
  pose proof (pay_post o extra least evm c f H3 H7 H8 Hf H6 s q s1 E1) as Hpost.
  pose proof (pay_framed o evm c f (op_ok_intro _ _ _ _ _ Ho) _ _ _ _ _ Hs E1) as Hs1.
  rewrite (SM_bind_run _ _ _ _ _ E1). destruct q as [[err f1]|f1].
  - eexists _, s1. split; [done|]. intros _ [?|[= ?]]; done.
  - destruct Hpost as (P1 & P2 & P3 & P4), Hq as [Q1 Q2]. by eapply finish_sure.
Qed.

(** ** The loop *)

Lemma loop_is_sure fuel evm c f s0 id s :
  chainRules evm = r → valued c → fits f → since s0 id s → room r (max_refund * (f_gas f + 2)) s →
  ∃ x s', loop fuel (instruction_set r) evm c f s = Some (x, s') ∧
    (survives x.2 → kept r (allowance (f_gas f) x.1.2) s s').
Proof.
  intros Er Hv. revert f s. induction fuel as [|fuel IH]; intros f s Hf Hs Hr.
  - eexists _, s. split; [done|]. intros [?|[= ?]]; done.
  - cbn [loop]. destruct (step_sure evm c f s0 id s Er Hv Hf Hs Hr) as (v & s1 & E1 & Hv1). rewrite (SM_bind_run _ _ _ _ _ E1).
    pose proof (step_post _ _ _ _ (instruction_set_ok r) Hf _ _ _ E1) as Hp.
    pose proof (step_framed _ _ _ _ (instruction_set_ok r) _ _ _ _ _ Hs E1) as Hs1. destruct v as [[[ret g] err]|f'].
    + eexists _, s1. split; [done|]. cbn. intros Hsv Hn. destruct (Hv1 Hn Hsv). split; [done|]. unfold allowance, max_refund in *. lia.
    + destruct Hp as [Hg Hst]. destruct (IH f' s1) as (x & s' & E & K); [by split; [lia|]|done| |].
      { intros Hn. destruct (Hv1 Hn), (Hr Hn). split; [done|]. unfold max_refund in *. lia. }
      exists x, s'. split; [done|]. intros Hsv Hn. destruct (K Hsv Hn), (Hv1 Hn). split; [done|]. unfold allowance, max_refund in *. lia.
Qed.

End Entries.

(** ** The machine *)

Lemma machine_sure {BE : Backend} {PR : Precompiles} {PL : PrecompilesLaws} r n : loop_sure (IN := machine n) r.
Proof.
  induction n as [|n IH]; intros evm c s0 id s Er Hv Hg Hs Hr.
  - eexists _, _, _, s. split; [reflexivity|]. intros [?|[= ?]]; done.
  - destruct (loop_is_sure (IN := machine n) r IH (S (Z.to_nat (c_Gas c))) evm c (start c) s0 id s) as ([[ret g] err] & s' & E & K); [done|done|by apply start_fits|done|done|].
    exists ret, g, err, s'. split; [|exact K]. rewrite <-E, <-Er. reflexivity.
Qed.

End SafeTables.
