(* ===== verification/MachineClaims.v ===== *)
(** * MachineClaims: the virtual machine is safe and ends

    Whatever code runs, the state before it can be restored and gas is only
    spent; and no run depends on the fuel of the loop or on the levels of
    calls the model allows for. *)

From stdpp Require Import base gmap list.
From Stdlib Require Import ZArith Lia.
From S2P Require Import Prelude StateDB StateProofs StateClaims Evm EvmProofs Word Instructions Machine MachineProofs RefundProofs.

Local Open Scope Z_scope.

Module MachineClaims.
Import Word StateDB StateProofs Evm EvmProofs Instructions Machine MachineProofs StaticProofs.

(** ** Two interpreters that agree at a depth *)

Section Agreement.
Context {BE : Backend} (I J : Interpreter) (D : Z).

(** The same precompiled contracts, and the same runs one level down. *)
Record agree : Prop := {
  ag_gas : RequiredGas (Interpreter := I) = RequiredGas (Interpreter := J);
  ag_run : RunPrecompile (Interpreter := I) = RunPrecompile (Interpreter := J);
  ag_loop : D <= CallCreateDepth → ∀ evm c s, depth evm = D + 1 →
    run_loop (Interpreter := I) evm c s = run_loop (Interpreter := J) evm c s }.

Context (AG : agree).

Lemma bind_ext {A B} (m : SM A) (k k' : A → SM B) s : (∀ a s, k a s = k' a s) → (m ≫= k) s = (m ≫= k') s.
Proof. intros Hk. unfold mbind, SM_bind. by destruct (m s) as [[a s']|]. Qed.

Lemma bind_cong {A B} (m m' : SM A) (k k' : A → SM B) s : m s = m' s → (∀ a s, k a s = k' a s) → (m ≫= k) s = (m' ≫= k') s.
Proof. intros Em Hk. unfold mbind, SM_bind. rewrite Em. by destruct (m' s) as [[a s']|]. Qed.

Lemma run_agree evm c input ro s :
  depth evm = D → D <= CallCreateDepth → run (H0 := I) evm c input ro s = run (H0 := J) evm c input ro s.
Proof.
  intros Ed Hd. assert (HR : Run (H0 := I) evm c input ro s = Run (H0 := J) evm c input ro s).
  { unfold Run. destruct (c_Code c); [done|]. apply (ag_loop AG Hd). cbn. lia. }
  unfold run. destruct (CodeAddr c) as [a|]; [|done]. destruct (precompiles _ _); [|done].
  unfold RunPrecompiledContract. by rewrite (ag_gas AG), (ag_run AG).
Qed.

Ltac agree_step :=
  first [done | match goal with
  | |- (run _ _ _ _ ≫= _) _ = _ => apply bind_cong; [apply run_agree; [done|lia]|intros ? ?]
  | |- (_ ≫= _) _ = _ => apply bind_ext; intros ? ?
  | |- (if ?b then _ else _) _ = _ => destruct b
  | |- (match ?x with _ => _ end) _ = _ => destruct x
  end].

Lemma message_call_agree k evm caller addr input gas s :
  depth evm = D → message_call (IN := I) k evm caller addr input gas s = message_call (IN := J) k evm caller addr input gas s.
Proof.
  intros Ed. destruct (Z.ltb_spec CallCreateDepth (depth evm)) as [Hd|Hd].
  - apply Z.ltb_lt in Hd. destruct k; cbn [message_call]; unfold Call, CallCode, DelegateCall, StaticCall;
      (destruct (NoRecursion evm && _); [done|]); by rewrite Hd.
  - destruct k; cbn [message_call]; unfold Call, CallCode, DelegateCall, StaticCall;
      repeat (cbv beta zeta; agree_step).
Qed.

Lemma create_agree evm caller code hash gas value address s :
  depth evm = D → create (H0 := I) evm caller code hash gas value address s = create (H0 := J) evm caller code hash gas value address s.
Proof.
  intros Ed. unfold create. destruct (Z.ltb_spec CallCreateDepth (depth evm)) as [Hd|Hd]; [done|].
  unfold create_body. repeat (cbv beta zeta; agree_step).
Qed.

(** ** Instructions, operations, tables *)

Definition exec_agree (ex ex' : executionFunc) : Prop := ∀ evm c f s, depth evm = D → ex evm c f s = ex' evm c f s.

Definition op_agree (o o' : operation) : Prop :=
  exec_agree (execute o) (execute o') ∧ constantGas o = constantGas o' ∧ dynamicGas o = dynamicGas o' ∧
  minStack o = minStack o' ∧ maxStack o = maxStack o' ∧ memorySize o = memorySize o' ∧ flags o = flags o'.

Definition table_agree (jt jt' : JumpTable) : Prop := Forall2 (λ p p', p.1 = p'.1 ∧ op_agree p.2 p'.2) jt jt'.

Lemma op_agree_refl o : op_agree o o.
Proof. by split_and!. Qed.

Lemma table_agree_refl jt : table_agree jt jt.
Proof. induction jt; constructor; [split; [done|apply op_agree_refl]|done]. Qed.

Lemma call_agree k evm caller addr input gas f o n s :
  depth evm = D →
  (r ← message_call (IN := I) k evm caller addr input gas; after_call f o n r) s =
  (r ← message_call (IN := J) k evm caller addr input gas; after_call f o n r) s.
Proof. intros Ed. apply bind_cong; [by apply message_call_agree|done]. Qed.

Ltac pop_args := repeat (apply bind_ext; intros [? ?] ?; cbv beta iota zeta).

Lemma opCall_agree : exec_agree (opCall (IN := I)) (opCall (IN := J)).
Proof. intros evm c f s Ed. unfold opCall. pop_args. apply bind_ext. intros args s'. by apply (call_agree (KCall _)). Qed.
Lemma opCallCode_agree : exec_agree (opCallCode (IN := I)) (opCallCode (IN := J)).
Proof. intros evm c f s Ed. unfold opCallCode. pop_args. apply bind_ext. intros args s'. by apply (call_agree (KCallCode _)). Qed.
Lemma opDelegateCall_agree : exec_agree (opDelegateCall (IN := I)) (opDelegateCall (IN := J)).
Proof. intros evm c f s Ed. unfold opDelegateCall. pop_args. apply bind_ext. intros args s'. by apply (call_agree KDelegateCall). Qed.
Lemma opStaticCall_agree : exec_agree (opStaticCall (IN := I)) (opStaticCall (IN := J)).
Proof. intros evm c f s Ed. unfold opStaticCall. pop_args. apply bind_ext. intros args s'. by apply (call_agree KStaticCall). Qed.

Lemma opCreate_agree : exec_agree (opCreate (IN := I)) (opCreate (IN := J)).
Proof.
  intros evm c f s Ed. unfold opCreate. pop_args. apply bind_ext. intros args s'. apply bind_cong; [|by intros [[[? ?] ?] ?] ?].
  unfold Create. apply bind_ext. intros nonce s''. by apply create_agree.
Qed.

Lemma opCreate2_agree : exec_agree (opCreate2 (IN := I)) (opCreate2 (IN := J)).
Proof.
  intros evm c f s Ed. unfold opCreate2. pop_args. apply bind_ext. intros args s'. apply bind_cong; [|by intros [[[? ?] ?] ?] ?].
  unfold Create2. by apply create_agree.
Qed.

Lemma mk_op_agree ex ex' gas dyn p q ms k :
  exec_agree ex ex' → op_agree (mk_op ex gas dyn p q ms k) (mk_op ex' gas dyn p q ms k).
Proof. intros He. by split_and!. Qed.

Ltac entry :=
  cbn [fst snd]; split; [done|];
  lazymatch goal with
  | |- op_agree (mk_op opCall _ _ _ _ _ _) _ => apply mk_op_agree, opCall_agree
  | |- op_agree (mk_op opCallCode _ _ _ _ _ _) _ => apply mk_op_agree, opCallCode_agree
  | |- op_agree (mk_op opDelegateCall _ _ _ _ _ _) _ => apply mk_op_agree, opDelegateCall_agree
  | |- op_agree (mk_op opStaticCall _ _ _ _ _ _) _ => apply mk_op_agree, opStaticCall_agree
  | |- op_agree (mk_op opCreate _ _ _ _ _ _) _ => apply mk_op_agree, opCreate_agree
  | |- op_agree (mk_op opCreate2 _ _ _ _ _ _) _ => apply mk_op_agree, opCreate2_agree
  | |- _ => apply op_agree_refl
  end.

Lemma frontier_agree : table_agree (newFrontierInstructionSet (IN := I)) (newFrontierInstructionSet (IN := J)).
Proof.
  apply Forall2_app; [|apply table_agree_refl]. repeat (apply Forall2_cons; split; [entry|]). apply Forall2_nil_2.
Qed.

Lemma get_op_agree jt jt' op :
  table_agree jt jt' →
  match get_op jt op, get_op jt' op with Some o, Some o' => op_agree o o' | None, None => True | _, _ => False end.
Proof.
  intros Ht. induction Ht as [|[k o] [k' o'] jt jt' [Ek Ho] Ht IH]; [done|]. cbn in *. subst k'. by destruct (_ =? _).
Qed.

Lemma set_constantGas_agree op gas jt jt' :
  table_agree jt jt' → table_agree (set_constantGas op gas jt) (set_constantGas op gas jt').
Proof.
  intros Ht. unfold set_constantGas. pose proof (get_op_agree jt jt' op Ht) as Hg.
  destruct (get_op jt op) as [o|], (get_op jt' op) as [o'|]; try done. constructor; [|done].
  destruct Hg as (H1 & H2 & H3 & H4 & H5 & H6 & H7). split; [done|]. by split_and!.
Qed.

Lemma set_dynamicGas_agree op dyn jt jt' :
  table_agree jt jt' → table_agree (set_dynamicGas op dyn jt) (set_dynamicGas op dyn jt').
Proof.
  intros Ht. unfold set_dynamicGas. pose proof (get_op_agree jt jt' op Ht) as Hg.
  destruct (get_op jt op) as [o|], (get_op jt' op) as [o'|]; try done. constructor; [|done].
  destruct Hg as (H1 & H2 & H3 & H4 & H5 & H6 & H7). split; [done|]. by split_and!.
Qed.

Lemma tangerine_agree : table_agree (newTangerineWhistleInstructionSet (IN := I)) (newTangerineWhistleInstructionSet (IN := J)).
Proof.
  repeat apply set_constantGas_agree. apply Forall2_cons. split; [entry|apply frontier_agree].
Qed.

Lemma byzantium_agree : table_agree (newByzantiumInstructionSet (IN := I)) (newByzantiumInstructionSet (IN := J)).
Proof.
  apply Forall2_app; [|apply set_dynamicGas_agree, tangerine_agree]. repeat (apply Forall2_cons; split; [entry|]). apply Forall2_nil_2.
Qed.

Lemma constantinople_agree : table_agree (newConstantinopleInstructionSet (IN := I)) (newConstantinopleInstructionSet (IN := J)).
Proof.
  apply Forall2_app; [|apply byzantium_agree]. repeat (apply Forall2_cons; split; [entry|]). apply Forall2_nil_2.
Qed.

Lemma instruction_set_agree r : table_agree (instruction_set (IN := I) r) (instruction_set (IN := J) r).
Proof.
  unfold instruction_set. repeat case_match.
  - apply set_dynamicGas_agree, Forall2_cons. split; [entry|]. repeat apply set_constantGas_agree.
    apply Forall2_cons. split; [entry|apply constantinople_agree].
  - apply constantinople_agree.
  - apply byzantium_agree.
  - apply set_dynamicGas_agree, tangerine_agree.
  - apply tangerine_agree.
  - apply Forall2_cons. split; [entry|apply frontier_agree].
  - apply frontier_agree.
Qed.

(** ** The loop *)

Lemma step_agree jt jt' evm c f s : table_agree jt jt' → depth evm = D → step jt evm c f s = step jt' evm c f s.
Proof.
  intros Ht Ed. unfold step. pose proof (get_op_agree jt jt' (GetOp c (pc f)) Ht) as Hg.
  destruct (get_op jt _) as [o|], (get_op jt' _) as [o'|]; try done.
  destruct Hg as (H1 & H2 & H3 & H4 & H5 & H6 & H7). rewrite H4, H5. do 2 (case_match; [done|]).
  apply bind_cong; [unfold write_protected; by rewrite H7|]. intros [] s'; [done|].
  apply bind_cong; [unfold pay; by rewrite H2, H3, H6|]. intros [[e f1]|f1] s''; [done|].
  unfold finish. rewrite H7. apply bind_cong; [by apply H1|done].
Qed.

Lemma loop_agree fuel jt jt' evm c f s : table_agree jt jt' → depth evm = D → loop fuel jt evm c f s = loop fuel jt' evm c f s.
Proof.
  intros Ht Ed. revert f s. induction fuel as [|fuel IH]; intros f s; [done|]. cbn [loop].
  apply bind_cong; [by apply step_agree|]. intros [r|f'] s'; [done|apply IH].
Qed.

Lemma run_code_agree evm c s : depth evm = D → run_code (IN := I) evm c s = run_code (IN := J) evm c s.
Proof. intros Ed. apply loop_agree; [apply instruction_set_agree|done]. Qed.

End Agreement.

(** ** Levels and fuel *)

Section Machine.
Context {BE : Backend} {PR : Precompiles} {PL : PrecompilesLaws}.

Lemma machine_contracts n :
  RequiredGas (Interpreter := machine n) = contract_gas ∧ RunPrecompile (Interpreter := machine n) = contract_run.
Proof. by destruct n. Qed.

Lemma machine_stable n m evm c s :
  (1 ≤ n)%nat → (1 ≤ m)%nat → CallCreateDepth + 2 <= Z.of_nat n + depth evm → CallCreateDepth + 2 <= Z.of_nat m + depth evm →
  run_loop (Interpreter := machine n) evm c s = run_loop (Interpreter := machine m) evm c s.
Proof.
  revert m evm c s. induction n as [|n IH]; intros [|m] evm c s Hn Hm Ln Lm; try lia.
  change (run_code (IN := machine n) evm c s = run_code (IN := machine m) evm c s).
  apply (run_code_agree (machine n) (machine m) (depth evm)); [|reflexivity].
  destruct (machine_contracts n) as [Gn Rn], (machine_contracts m) as [Gm Rm].
  split; [by rewrite Gn, Gm|by rewrite Rn, Rm|]. intros Hd evm' c' s' Ed. apply IH; rewrite ?Ed; lia.
Qed.

Lemma loop_fuel {IN : Interpreter} {LW : InterpreterLaws} fuel fuel' jt evm c f s :
  table_ok jt → fits f → (Z.to_nat (f_gas f) < fuel)%nat → (fuel ≤ fuel')%nat → loop fuel jt evm c f s = loop fuel' jt evm c f s.
Proof.
  intros Ht. revert fuel' f s. induction fuel as [|fuel IH]; intros [|fuel'] f s Hf H1 H2; try lia. cbn [loop].
  pose proof (step_post jt evm c f Ht Hf s) as Hs. unfold mbind, SM_bind. destruct (step jt evm c f s) as [[v s']|]; [|done].
  specialize (Hs v s' eq_refl). destruct v as [r|f']; [done|]. destruct Hs as [Hg Hl]. destruct Hf as [Hf _].
  apply IH; [split; [lia|done]|lia|lia].
Qed.

(** C9: running a contract ends. The result of the machine does not depend on
    the number of call levels beyond [levels], nor on the fuel of the loop
    beyond one round per unit of gas; and no run gives up for want of either. *)
Theorem machine_terminates n fuel evm c s :
  0 <= c_Gas c → 1 <= depth evm → (levels ≤ n)%nat → (Z.to_nat (c_Gas c) < fuel)%nat →
  run_loop (Interpreter := machine n) evm c s = run_loop (Interpreter := machine levels) evm c s ∧
  loop fuel (instruction_set (IN := machine (pred levels)) (chainRules evm)) evm c (start c) s =
    run_loop (Interpreter := machine levels) evm c s ∧
  ∀ ret gas err s', run_loop (Interpreter := machine levels) evm c s = Some ((ret, gas, err), s') → err ≠ Some out_of_fuel.
Proof.
  intros Hg Hd Hn Hf. unfold levels in *. split_and!.
  - apply machine_stable; unfold CallCreateDepth; lia.
  - symmetry. apply (loop_fuel (IN := machine (pred 1025)) (S (Z.to_nat (c_Gas c))) fuel); [apply instruction_set_ok|by apply start_fits|cbn; lia|lia].
  - intros ret gas err s' E. by destruct (run_code_post (IN := machine (pred 1025)) evm c Hg s _ s' E).
Qed.

(** C7: running a contract is safe for its caller. Whatever the code does,
    calls, creations and reverts included, it returns no more gas than it was
    given, and the snapshot taken before it can be reverted to afterwards and
    brings back every answer of the state. *)
Theorem machine_sound n evm c s0 id s ret gas err s' :
  swf s0 → revs_wf s0 → Snapshot s0 = Some (id, s) → 0 <= c_Gas c →
  run_loop (Interpreter := machine n) evm c s = Some ((ret, gas, err), s') →
  0 <= gas <= c_Gas c ∧ ∃ s'', RevertToSnapshot id s' = Some (tt, s'') ∧ restored s0 s''.
Proof.
  intros W Hw Es Hg E. destruct (since_start s0 id s W Hw Es) as [_ Hs]. split; [by apply (loop_gas (InterpreterLaws := machine_laws n) evm c s ret gas err s')|].
  pose proof (loop_since (InterpreterLaws := machine_laws n) _ _ _ _ _ _ _ Hs E) as Hs'. destruct (since_back s0 id s' W Hs') as (s'' & E2 & Ho & Hb & _).
  by exists s''.
Qed.

(** C8: A static call changes nothing. Whatever the called code does, and
    whether it succeeds or fails, no account changes its balance, nonce, code,
    storage or self-destruction, and no log or refund is added; at most,
    accounts that did not exist exist afterwards and are empty, since every
    static call touches the account it calls. It is assumed that no account
    deleted earlier in the block is remembered with a balance. *)
Theorem static_call_changes_nothing n evm caller addr input gas s r s' :
  IsByzantium (chainRules evm) = true → swf s → revs_wf s → clean s →
  StaticCall (H0 := machine n) evm caller addr input gas s = Some (r, s') →
  (∀ a k, observe s' a k = observe s a k ∨ observe s a k = Some absent ∧ observe s' a k = Some empty_account) ∧
  refund s' = refund s ∧ (∀ h, default [] (logs s' !! h) = default [] (logs s !! h)) ∧ logSize s' = logSize s.
Proof.
  intros Hb W Hw Hc E. pose proof (StaticCall_mild (IN := machine n) (machine_calm n) _ _ _ _ _ _ _ _ Hb W Hw Hc E) as M.
  split; [intros a k; by apply mild_views|]. destruct M as [_ M2 M3 M4]. by split_and!.
Qed.

End Machine.

(** ** A concrete run *)

#[local] Existing Instance StateClaims.demo_backend.

#[local] Instance demo_contracts : Precompiles := {| contract_gas _ _ _ := 10; contract_run _ _ input := (input, None) |}.

#[local] Instance demo_contracts_laws : PrecompilesLaws.
Proof. done. Qed.

Definition demo_machine_evm : EVM :=
  mk_EVM 7 1 11 1 100 1 8000000 (λ _, 0) 1 1 false (mk_Rules true true true true true true true) false false.

(** [PUSH1 9; PUSH1 1; SSTORE; PUSH1 2; PUSH1 3; ADD; PUSH1 0; MSTORE; PUSH1 32;
    PUSH1 0; RETURN], run by account 20 with 25,000 gas. *)
Definition demo_code : list Byte.byte := map z2b [96;9;96;1;85;96;2;96;3;1;96;0;82;96;32;96;0;243].

Definition demo_contract : Contract := mk_Contract 5 (AccountRef 5) 20 demo_code 0 None [] 25000 (Some 0).

Definition demo_marked : StateDB := StateClaims.state_of (Snapshot StateClaims.fresh).

Definition demo_run : option (result * StateDB) := run_loop (Interpreter := machine 3) demo_machine_evm demo_contract demo_marked.

Definition demo_ran : StateDB := StateClaims.state_of demo_run.

Definition demo_word : list Byte.byte := map z2b (repeat 0 31 ++ [5]).

Lemma demo_run_eq : demo_run = Some ((demo_word, 4970, None), demo_ran).
Proof.
  assert (E : fst <$> demo_run = Some (demo_word, 4970, None)) by (by vm_compute).
  unfold demo_ran. destruct demo_run as [[r s]|]; [|done]. cbn in E. by injection E as ->.
Qed.

Lemma machine_sound_witness :
  0 <= 4970 <= 25000 ∧ ∃ s'', RevertToSnapshot 0 demo_ran = Some (tt, s'') ∧ restored StateClaims.fresh s''.
Proof.
  apply (machine_sound 3 demo_machine_evm demo_contract StateClaims.fresh 0 demo_marked demo_word 4970 None demo_ran);
    [apply StateClaims.fresh_wf|apply StateClaims.fresh_wf|by vm_compute|done|exact demo_run_eq].
Defined.

Lemma machine_terminates_witness :
  run_loop (Interpreter := machine 2000) demo_machine_evm demo_contract demo_marked =
    run_loop (Interpreter := machine levels) demo_machine_evm demo_contract demo_marked ∧
  loop (Z.to_nat 30000) (instruction_set (IN := machine (pred levels)) (chainRules demo_machine_evm)) demo_machine_evm demo_contract (start demo_contract) demo_marked =
    run_loop (Interpreter := machine levels) demo_machine_evm demo_contract demo_marked ∧
  ∀ ret gas err s', run_loop (Interpreter := machine levels) demo_machine_evm demo_contract demo_marked = Some ((ret, gas, err), s') →
    err ≠ Some out_of_fuel.
Proof.
  apply (machine_terminates 2000 (Z.to_nat 30000) demo_machine_evm demo_contract demo_marked); unfold levels; cbn [c_Gas demo_contract depth demo_machine_evm]; lia.
Defined.

(** ** A concrete static call *)

(** [PUSH1 1; SLOAD; PUSH1 0; MSTORE; PUSH1 32; PUSH1 0; RETURN] *)
Definition reader_code : list Byte.byte := map z2b [96;1;84;96;0;82;96;32;96;0;243].

Definition reader_backend : Backend := {|
  read_account a := if a =? 20 then Some (mk_Account 1 100 55 1003) else None;
  read_storage _ r k := if r =? 55 then k + 1 else 0;
  ContractCode h := if h =? 1003 then Some reader_code else None;
  Keccak256Hash := StateClaims.demo_hash;
  emptyRoot := 56;
  read_empty _ _ := eq_refl |}.

Definition static_run : option (result * StateDB) :=
  StaticCall (H := reader_backend) (H0 := machine (BE := reader_backend) 3) demo_machine_evm (AccountRef 5) 20 [] 5000 StateClaims.fresh.

Definition static_ran : StateDB := StateClaims.state_of static_run.

Lemma static_run_eq : static_run = Some ((map z2b (repeat 0 31 ++ [2]), 4182, None), static_ran).
Proof.
  assert (E : fst <$> static_run = Some (map z2b (repeat 0 31 ++ [2]), 4182, None)) by (by vm_compute).
  unfold static_ran. destruct static_run as [[r s]|]; [|done]. cbn in E. by injection E as ->.
Qed.

Lemma static_call_changes_nothing_witness :
  (∀ a k, observe (H := reader_backend) static_ran a k = observe (H := reader_backend) StateClaims.fresh a k ∨
     observe (H := reader_backend) StateClaims.fresh a k = Some absent ∧
     observe (H := reader_backend) static_ran a k = Some (empty_account (BE := reader_backend))) ∧
  refund static_ran = refund StateClaims.fresh ∧
  (∀ h, default [] (logs static_ran !! h) = default [] (logs StateClaims.fresh !! h)) ∧ logSize static_ran = logSize StateClaims.fresh.
Proof.
  eapply (static_call_changes_nothing (BE := reader_backend) 3 demo_machine_evm (AccountRef 5) 20 [] 5000 StateClaims.fresh);
    [done|apply StateClaims.fresh_wf|apply StateClaims.fresh_wf| |exact static_run_eq].
  intros a o Eo. unfold eff, StateClaims.fresh in Eo. cbn [stateObjects] in Eo. rewrite lookup_empty in Eo. cbn in Eo. destruct (a =? 20); [|done]. injection Eo as <-. done.
Defined.

End MachineClaims.
