(* ===== verification/SafeClaims.v ===== *)
(** * SafeClaims: a transaction always comes to a result

    Nothing a message can make the virtual machine do panics: from a state
    between transactions, applying a message returns. Under net metering, with a
    gas limit that covers the intrinsic gas, it charges between half the
    intrinsic gas and the gas limit, and leaves the rest to the block. *)

From stdpp Require Import base gmap list.
From Stdlib Require Import ZArith Lia.
From S2P Require Import Prelude Gas StateDB StateProofs StateClaims Evm EvmProofs Transition Machine MachineProofs RefundProofs SafeInstructions SafeTables MachineClaims.

Local Open Scope Z_scope.

Module SafeClaims.
Import StateDB StateProofs Evm EvmProofs Machine MachineProofs RefundProofs SafetyProofs SafeTables Transition.

Section Transition.
Context {BE : Backend} {IN : Interpreter} {LW : InterpreterLaws} (r : Rules) (LS : loop_sure r).

(** A state between two transactions. *)
Record settled (s : StateDB) : Prop := {
  sd_refund : refund s = 0;
  sd_dirty : ∀ a o, live s a = Some o → dirtyStorage o = ∅;
}.

Lemma settled_backed s : settled s → backed s.
Proof.
  intros [Hr Hd]. exists ∅. rewrite Hr. split; [|done]. intros a k (o & Hl & H1 & H2). exfalso. apply H1.
  unfold current in H2. by rewrite (Hd _ _ Hl), lookup_empty in H2.
Qed.

(** What the checks leave to spend. *)
Definition checked (msg : Message) (gp0 : Z) (x : transition_error + StateTransition) : Prop :=
  match x with
  | inl _ => True
  | inr st => GasLimit msg <= gp0 ∧ st = mk_transition (u64 (gp0 - GasLimit msg)) (u64 (GasLimit msg)) (GasLimit msg)
  end.

Lemma buyGas_sure msg gp0 :
  gentle (buyGas msg (mk_transition gp0 0 0)) ∧ stays_good (buyGas msg (mk_transition gp0 0 0)) ∧
  post (buyGas msg (mk_transition gp0 0 0)) (checked msg gp0).
Proof.
  unfold buyGas, Gas.SubGas. cbn [gp gas]. rewrite Z.add_0_l. split_and!.
  - apply gentle_bind; [apply read_gentle|]. intros b. destruct (b <? _); [apply gentle_ret|]. destruct (gp0 <? _); [apply gentle_ret|].
    apply gentle_bind; [apply SubBalance_gentle|intros _; apply gentle_ret].
  - apply stays_bind; [apply read_stays|]. intros b. destruct (b <? _); [apply stays_ret|]. destruct (gp0 <? _); [apply stays_ret|].
    apply stays_bind; [|intros _; apply stays_ret]. apply stays_reach. intros s [] s' W. by apply SubBalance_reach.
  - apply post_any. intros b. destruct (b <? _); [by apply post_ret|]. destruct (Z.ltb_spec gp0 (GasLimit msg)); [by apply post_ret|].
    apply post_any. intros _. by apply post_ret.
Qed.

Lemma preCheck_sure msg gp0 :
  gentle (preCheck msg (mk_transition gp0 0 0)) ∧ stays_good (preCheck msg (mk_transition gp0 0 0)) ∧
  post (preCheck msg (mk_transition gp0 0 0)) (checked msg gp0).
Proof.
  destruct (buyGas_sure msg gp0) as (H1 & H2 & H3). unfold preCheck. destruct (CheckNonce msg); [|done]. split_and!.
  - apply gentle_bind; [apply read_gentle|]. intros n. repeat (case_match; [apply gentle_ret|]). done.
  - apply stays_bind; [apply read_stays|]. intros n. repeat (case_match; [apply stays_ret|]). done.
  - apply post_any. intros n. repeat (case_match; [by apply post_ret|]). done.
Qed.

Lemma execute_sure evm msg st :
  chainRules evm = r → 0 <= gas st → sure r result_gas (gas st) (execute evm msg st) ∧ post (execute evm msg st) (within (gas st)).
Proof.
  intros Er Hg. unfold execute. destruct (To msg) as [to|]; split.
  - apply sure_bind; [apply read_gentle|apply read_stays|intros n]. apply sure_bind; [apply SetNonce_gentle|apply SetNonce_stays|intros _].
    by apply (message_call_sure r LS (KCall (Value msg))).
  - apply post_any. intros n. apply post_any. intros _. by apply (message_call_gas (KCall (Value msg))).
  - intros s Hs Hr. destruct (Create_sure r LS evm (AccountRef (From msg)) (Data msg) (gas st) (Value msg) Er Hg s Hs Hr) as ([[[ret a] g] err] & s' & E & K).
    rewrite (SM_bind_run _ _ _ _ _ E). by eexists _, s'.
  - eapply post_bind; [by apply Create_gas|]. intros [[[ret a] g] err] Hw. by apply post_ret.
Qed.

(** The gas a transition reports, given what the execution left. *)
Lemma refundGas_run msg st s :
  ∃ s', refundGas msg st s = Some (mk_transition (Gas.AddGas (gp st) (u64 (gas st + Z.min (refund s) (gasUsed st / 2)))) (u64 (gas st + Z.min (refund s) (gasUsed st / 2))) (initialGas st), s').
Proof.
  unfold refundGas. rewrite (SM_bind_run get _ s s s eq_refl).
  assert ((if refund s <? gasUsed st / 2 then refund s else gasUsed st / 2) = Z.min (refund s) (gasUsed st / 2)) as ->
    by (destruct (Z.ltb_spec (refund s) (gasUsed st / 2)); lia).
  destruct (proj2 (AddBalance_gentle (From msg) (u64 (gas st + Z.min (refund s) (gasUsed st / 2)) * GasPrice msg)) s) as ([] & s' & E & _).
  rewrite (SM_bind_run _ _ _ _ _ E). by exists s'.
Qed.

(** The charge: what is left of [limit - ig] and the refund come back. *)
Lemma charge_bounds gp0 limit ig left_ rf :
  0 <= ig <= limit → limit <= gp0 → is_u64 gp0 → 0 <= left_ <= limit - ig → 0 <= rf →
  let gas' := u64 (left_ + Z.min rf (u64 (limit - left_) / 2)) in
  let used := u64 (limit - gas') in
  used <= limit ∧ ig <= 2 * used ∧ Gas.AddGas (u64 (gp0 - limit)) gas' = gp0 - used.
Proof.
  intros Hi Hl Hg Hf Hr gas' used. unfold is_u64 in Hg.
  assert (E0 : u64 (limit - left_) = limit - left_) by (apply u64_small; unfold is_u64; lia).
  unfold used, gas'. rewrite E0. assert (Hh := Z.div_mod (limit - left_) 2). pose proof (Z.mod_pos_bound (limit - left_) 2).
  set (m := Z.min rf ((limit - left_) / 2)). assert (0 <= m <= (limit - left_) / 2) by (unfold m; lia).
  rewrite (u64_small (left_ + m)) by (unfold is_u64; lia). rewrite (u64_small (limit - (left_ + m))) by (unfold is_u64; lia).
  split_and!; [lia|lia|]. unfold Gas.AddGas. rewrite (u64_small (gp0 - limit)) by (unfold is_u64; lia).
  rewrite u64_small by (unfold is_u64; lia). lia.
Qed.

(** The intrinsic gas of a message. *)
Definition intrinsic_gas (evm : EVM) (msg : Message) : Z :=
  Gas.IntrinsicGas (Data msg) (match To msg with None => true | Some _ => false end) (IsHomestead (chainRules evm)) (IsIstanbul (chainRules evm)).

(** What a transition reports: no more than the limit is used, at least half
    the intrinsic gas is, and the block keeps the rest. *)
Definition charged (evm : EVM) (msg : Message) (gp0 gp' : Z) (out : outcome_of) : Prop :=
  match out with
  | inl _ => True
  | inr (_, used, _) => used <= GasLimit msg ∧ intrinsic_gas evm msg <= 2 * used ∧ gp' = gp0 - used
  end.

Lemma TransitionDb_sure evm msg gp0 s :
  chainRules evm = r → good s → settled s → is_u64 gp0 → 0 <= GasLimit msg →
  (net r = true → intrinsic_gas evm msg <= GasLimit msg ∧ max_refund * (gp0 + 2) < two64) →
  ∃ gp' out s', TransitionDb evm msg gp0 s = Some ((gp', out), s') ∧ (net r = true → charged evm msg gp0 gp' out).
Proof.
  intros Er Hgd Hst Hgp Hgl Hn. destruct (preCheck_sure msg gp0) as ([_ Hm] & Hk & Hp). destruct (Hm s) as (x & s1 & E1 & T1).
  unfold TransitionDb. rewrite (SM_bind_run _ _ _ _ _ E1). specialize (Hp _ _ _ E1). specialize (Hk _ _ _ Hgd E1).
  destruct x as [e|st]; [by eexists gp0, (inl e), s1|]. destruct Hp as [Hle ->]. cbv zeta. fold (intrinsic_gas evm msg).
  assert (Hi0 : 0 <= intrinsic_gas evm msg) by apply Gas.IntrinsicGas_range. unfold is_u64 in Hgp.
  unfold useGas. cbn [gp gas initialGas]. rewrite (u64_small (GasLimit msg)) by (unfold is_u64; lia).
  set (g := u64 (GasLimit msg - intrinsic_gas evm msg)).
  assert (Hg0 : 0 <= g) by apply u64_range. assert (Eg : net r = true → g = GasLimit msg - intrinsic_gas evm msg) by (intros Hnr; destruct (Hn Hnr); apply u64_small; unfold is_u64; lia).
  destruct (execute_sure evm msg (mk_transition (u64 (gp0 - GasLimit msg)) g (GasLimit msg)) Er) as [Hs Hw]; [cbn; lia|].
  destruct (Hs s1 Hk) as ([[ret left_] err] & s2 & E2 & K).
  { eapply room_tame; [exact T1|]. intros Hnr. split; [by apply settled_backed|]. rewrite (sd_refund _ Hst). specialize (Hn Hnr). specialize (Eg Hnr). cbn [gas]. unfold max_refund in *. lia. }
  rewrite (SM_bind_run _ _ _ _ _ E2). specialize (Hw _ _ _ E2). unfold within in Hw. cbn [fst snd gas] in Hw. cbn [gp gas initialGas].
  case_decide; [by eexists _, (inl vm_insufficient_balance), s2|].
  destruct (refundGas_run msg (mk_transition (u64 (gp0 - GasLimit msg)) left_ (GasLimit msg)) s2) as [s3 E3].
  rewrite (SM_bind_run _ _ _ _ _ E3). unfold gasUsed. cbn [gp gas initialGas].
  destruct (proj2 (AddBalance_gentle (Coinbase evm) (u64 (GasLimit msg - u64 (left_ + Z.min (refund s2) (u64 (GasLimit msg - left_) / 2))) * GasPrice msg)) s3) as ([] & s4 & E4 & _).
  rewrite (SM_bind_run _ _ _ _ _ E4). eexists _, _, s4. split; [done|]. intros Hnr. destruct (K Hnr) as [(D & _ & HD) _].
  specialize (Hn Hnr). specialize (Eg Hnr). apply charge_bounds; unfold is_u64, clear_refund in *; lia.
Qed.

End Transition.

Section Machine.
Context {BE : Backend} {PR : Precompiles} {PL : PrecompilesLaws}.

(** C10: applying a message never panics. Whatever code it runs, from a state
    between two transactions: every slice the instructions take lies within
    the memory that was paid for, every pop within the stack that was checked
    and every revert goes to a snapshot that exists. Where storage is metered by
    its net changes (Constantinople without Petersburg, and Istanbul) writes
    also take back from the refund counter. There two things are assumed: the
    gas limit of the message covers its intrinsic gas, which the transition
    itself no longer checks, and the gas of the block is below 2^64 / 24,000.
    Then the counter always covers what is taken back, the message is charged at
    most its gas limit and at least half its intrinsic gas, and the block keeps
    the rest. *)
Theorem apply_message_never_panics n evm msg gp0 s :
  swf s → revs_wf s → settled s → is_u64 gp0 → 0 <= GasLimit msg →
  (net (chainRules evm) = true → intrinsic_gas evm msg <= GasLimit msg ∧ max_refund * (gp0 + 2) < two64) →
  ∃ gp' out s', ApplyMessage (H0 := machine n) evm msg gp0 s = Some ((gp', out), s') ∧
    (net (chainRules evm) = true → charged evm msg gp0 gp' out).
Proof. intros W Hw. apply (TransitionDb_sure (IN := machine n) (chainRules evm)); [apply machine_sure|done|by split]. Qed.

End Machine.

(** ** A concrete message *)

(** [PUSH1 0; PUSH1 1; SSTORE; STOP]: clears slot 1, which holds 2. *)
Definition clearing_code : list Byte.byte := map z2b [96;0;96;1;85;0].

Definition clearing_backend : Backend := {|
  read_account a := if a =? 20 then Some (mk_Account 1 100 55 1003) else if a =? 5 then Some (mk_Account 0 100000 56 (StateClaims.demo_hash [])) else None;
  read_storage _ r k := if r =? 55 then k + 1 else 0;
  ContractCode h := if h =? 1003 then Some clearing_code else None;
  Keccak256Hash := StateClaims.demo_hash;
  emptyRoot := 56;
  read_empty _ _ := eq_refl |}.

(** 60,000 gas for account 20, at a price of 1. *)
Definition clearing_message : Message := mk_Message 5 (Some 20) 1 60000 0 0 true [].

#[local] Existing Instances clearing_backend MachineClaims.demo_contracts MachineClaims.demo_contracts_laws.

Lemma fresh_settled : settled StateClaims.fresh.
Proof.
  split; [done|]. intros a o. unfold live, eff. cbn [stateObjects StateClaims.fresh]. rewrite lookup_empty. cbn [read_account clearing_backend].
  destruct (a =? 20); [by intros [= <-]|]. by destruct (a =? 5); [intros [= <-]|].
Qed.

(** Half of the 26,006 gas used comes back: the refund is 15,000. *)
Example clearing_is_charged :
  fst <$> ApplyMessage (H0 := machine 3) MachineClaims.demo_machine_evm clearing_message 8000000 StateClaims.fresh
    = Some (8000000 - 13003, inr ([], 13003, false)).
Proof. by vm_compute. Qed.

Lemma apply_message_never_panics_witness :
  ∃ gp' out s', ApplyMessage (H0 := machine 3) MachineClaims.demo_machine_evm clearing_message 8000000 StateClaims.fresh = Some ((gp', out), s') ∧
    charged MachineClaims.demo_machine_evm clearing_message 8000000 gp' out.
Proof.
  destruct (apply_message_never_panics 3 MachineClaims.demo_machine_evm clearing_message 8000000 StateClaims.fresh) as (gp' & out & s' & E & H);
    [apply StateClaims.fresh_wf|apply StateClaims.fresh_wf|apply fresh_settled|done|done|intros _; split; [by vm_compute|done]|].
  exists gp', out, s'. split; [exact E|]. by apply H.
Defined.

End SafeClaims.
