(* ===== verification/Clique.v ===== *)
(** * Clique: proof-of-authority voting (consensus/clique)

    The snapshot of the authorised signers with its votes, the vote tally and
    the recent signers; the application of headers to it; the checks of a
    header and of its seal against a snapshot; and the condition under which a
    signer seals. Recovering the signer of a header is a parameter.

    - Addresses and hashes are [Z], block numbers [uint64].
    - [New] replaces a zero epoch by the default one, so epochs are positive. *)

From stdpp Require Import base gmap list sorting.
From Stdlib Require Import ZArith Lia.
From S2P Require Import Prelude.

Local Open Scope Z_scope.

Module Clique.

(** ** Data *)

Record Vote := mk_Vote { Signer : Z; Block : Z; Address : Z; Authorize : bool }.

Record Tally := mk_Tally { t_Authorize : bool; t_Votes : Z }.

(** [params.CliqueConfig], and the fields of [params.ChainConfig] for [VerifyForkHashes]. *)
Record CliqueConfig := mk_config { Period : Z; Epoch : Z; EIP150Block : option Z; EIP150Hash : Z }.

Record Snapshot := mk_Snapshot {
  Number : Z; Hash : Z; Signers : gset Z; Recents : gmap Z Z; Votes : list Vote; tally : gmap Z Tally }.

(** The fields of a header the engine looks at; the others only enter the
    hash and the signature. *)
Record Header := mk_Header {
  h_Number : Z; h_Hash : Z; ParentHash : Z; Coinbase : Z; HNonce : bytes; Time : Z;
  Extra : bytes; MixDigest : Z; UncleHash : Z; Difficulty : option Z }.

Inductive clique_error :=
  | errInvalidVotingChain | errUnauthorizedSigner | errRecentlySigned | errInvalidVote
  | errMissingSignature | errInvalidCheckpointBeneficiary | errInvalidCheckpointVote | errMissingVanity
  | errExtraSigners | errInvalidCheckpointSigners | errMismatchingCheckpointSigners | errInvalidMixDigest
  | errInvalidUncleHash | errInvalidDifficulty | errWrongDifficulty | ErrInvalidTimestamp
  | ErrFutureBlock | ErrUnknownAncestor | errUnknownBlock | errForkHash | errStore | recover_error (which : nat).

Abbreviation CR := (outcome clique_error).

Definition extraVanity : nat := 32.
Definition extraSeal : nat := 65.
Definition AddressLength : nat := 20.
Definition nonceAuthVote : bytes := replicate 8 Byte.xff.
Definition nonceDropVote : bytes := replicate 8 Byte.x00.
Definition diffInTurn : Z := 2.
Definition diffNoTurn : Z := 1.

(** ** Snapshots (snapshot.go) *)

Definition newSnapshot (number hash : Z) (signers : list Z) : Snapshot :=
  mk_Snapshot number hash (list_to_set signers) ∅ [] ∅.

(** [len(snap.Signers)/2 + 1] *)
Definition limit_of (sg : gset Z) : Z := Z.of_nat (size sg) / 2 + 1.

Definition validVote (sg : gset Z) (address : Z) (authorize : bool) : bool :=
  let signer := bool_decide (address ∈ sg) in
  (signer && negb authorize) || (negb signer && authorize).

Definition cast (s : Snapshot) (address : Z) (authorize : bool) : bool * Snapshot :=
  if negb (validVote (Signers s) address authorize) then (false, s)
  else
    let t := match tally s !! address with
             | Some old => mk_Tally (t_Authorize old) (t_Votes old + 1)
             | None => mk_Tally authorize 1
             end in
    (true, mk_Snapshot (Number s) (Hash s) (Signers s) (Recents s) (Votes s) (<[address := t]> (tally s))).

Definition uncast (T : gmap Z Tally) (address : Z) (authorize : bool) : gmap Z Tally :=
  match T !! address with
  | None => T
  | Some t =>
      if negb (Bool.eqb (t_Authorize t) authorize) then T
      else if 1 <? t_Votes t then <[address := mk_Tally (t_Authorize t) (t_Votes t - 1)]> T
      else delete address T
  end.

(** The first vote of [signer] about [address] goes, from list and tally. *)
Fixpoint discard_vote (signer address : Z) (vs : list Vote) (T : gmap Z Tally) : list Vote * gmap Z Tally :=
  match vs with
  | [] => ([], T)
  | v :: vs =>
      if (Signer v =? signer) && (Address v =? address) then (vs, uncast T (Address v) (Authorize v))
      else let '(vs, T) := discard_vote signer address vs T in (v :: vs, T)
  end.

(** All the votes [signer] cast go, from list and tally. *)
Fixpoint discard_signer (signer : Z) (vs : list Vote) (T : gmap Z Tally) : list Vote * gmap Z Tally :=
  match vs with
  | [] => ([], T)
  | v :: vs =>
      if Signer v =? signer then discard_signer signer vs (uncast T (Address v) (Authorize v))
      else let '(vs, T) := discard_signer signer vs T in (v :: vs, T)
  end.

(** [if limit := ...; number >= limit { delete(snap.Recents, number-limit) }] *)
Definition shift_recents (sg : gset Z) (number : Z) (R : gmap Z Z) : gmap Z Z :=
  if limit_of sg <=? number then delete (number - limit_of sg) R else R.

(** The vote of a header nonce. *)
Definition vote_of (nonce : bytes) : option bool :=
  if decide (nonce = nonceAuthVote) then Some true
  else if decide (nonce = nonceDropVote) then Some false
  else None.

(** [If the vote passed, update the list of signers] *)
Definition pass_vote (s : Snapshot) (number coinbase : Z) : Snapshot :=
  let t := default (mk_Tally false 0) (tally s !! coinbase) in
  if Z.of_nat (size (Signers s)) / 2 <? t_Votes t then
    let '(sg, R, vs, T) :=
      if t_Authorize t then ({[coinbase]} ∪ Signers s, Recents s, Votes s, tally s)
      else
        let sg := Signers s ∖ {[coinbase]} in
        let '(vs, T) := discard_signer coinbase (Votes s) (tally s) in
        (sg, shift_recents sg number (Recents s), vs, T) in
    mk_Snapshot (Number s) (Hash s) sg R (filter (λ v, Address v ≠ coinbase) vs) (delete coinbase T)
  else s.

(** The snapshots in memory (an ARC cache, which forgets) and on disk (JSON
    under the block hash); a write to disk can fail. *)
Class Stores (Cache DB : Type) := {
  cache_get : Cache → Z → option Snapshot;
  cache_add : Cache → Z → Snapshot → Cache;
  loadSnapshot : DB → Z → option Snapshot;
  store : DB → Snapshot → CR DB }.

(** What is read was written. *)
Class StoresLaws {Cache DB : Type} (ST : Stores Cache DB) := {
  cache_get_add c k s k' s' : cache_get (cache_add c k s) k' = Some s' → (k' = k ∧ s' = s) ∨ cache_get c k' = Some s';
  load_store d s d' k' s' : store d s = Ret d' → loadSnapshot d' k' = Some s' → (k' = Hash s ∧ s' = s) ∨ loadSnapshot d k' = Some s' }.

Section WithRecover.
Context (cfg : CliqueConfig) (ecrecover : Header → CR Z).

(** The body of the loop of [apply]. *)
Definition apply_header (s : Snapshot) (header : Header) : CR Snapshot :=
  let number := h_Number header in
  let '(vs, T) := if number mod Epoch cfg =? 0 then ([], ∅) else (Votes s, tally s) in
  let R := shift_recents (Signers s) number (Recents s) in
  signer ← ecrecover header;
  if negb (bool_decide (signer ∈ Signers s)) then Err errUnauthorizedSigner
  else if bool_decide (signer ∈ (map_to_list R).*2) then Err errRecentlySigned
  else
    let R := <[number := signer]> R in
    let '(vs, T) := discard_vote signer (Coinbase header) vs T in
    match vote_of (HNonce header) with
    | None => Err errInvalidVote
    | Some authorize =>
        let s := mk_Snapshot (Number s) (Hash s) (Signers s) R vs T in
        let '(counted, s) := cast s (Coinbase header) authorize in
        let s :=
          if (counted : bool) then
            mk_Snapshot (Number s) (Hash s) (Signers s) (Recents s)
              (Votes s ++ [mk_Vote signer number (Coinbase header) authorize]) (tally s)
          else s in
        Ret (pass_vote s number (Coinbase header))
    end.

Fixpoint apply_headers (s : Snapshot) (headers : list Header) : CR Snapshot :=
  match headers with
  | [] => Ret s
  | h :: hs => s ← apply_header s h; apply_headers s hs
  end.

(** [headers[i+1].Number == headers[i].Number + 1] for every [i], from [n] on. *)
Fixpoint contiguous (n : Z) (headers : list Header) : bool :=
  match headers with
  | [] => true
  | h :: hs => (h_Number h =? u64 (n + 1)) && contiguous (h_Number h) hs
  end.

Definition apply (s : Snapshot) (headers : list Header) : CR Snapshot :=
  match last headers with
  | None => Ret s
  | Some newest =>
      if negb (contiguous (Number s) headers) then Err errInvalidVotingChain
      else
        s' ← apply_headers s headers;
        Ret (mk_Snapshot (u64 (Number s' + Z.of_nat (length headers))) (h_Hash newest) (Signers s') (Recents s') (Votes s') (tally s'))
  end.

(** The signers in ascending order. *)
Definition signers (s : Snapshot) : list Z := merge_sort Z.le (elements (Signers s)).

(** The index of [x], or the length of the list. *)
Fixpoint offset_of (x : Z) (l : list Z) : Z :=
  match l with
  | [] => 0
  | y :: l => if y =? x then 0 else offset_of x l + 1
  end.

(** A modulus of zero signers is a panic. *)
Definition inturn (s : Snapshot) (number signer : Z) : CR bool :=
  let l := signers s in
  match l with
  | [] => Panic
  | _ => Ret (number mod Z.of_nat (length l) =? offset_of signer l)
  end.

Definition CalcDifficulty (s : Snapshot) (signer : Z) : CR Z :=
  b ← inturn s (u64 (Number s + 1)) signer;
  Ret (if (b : bool) then diffInTurn else diffNoTurn).

(** ** The engine (clique.go) *)

(** [VerifySeal] once the snapshot of the parent is at hand. *)
Definition verifySeal (fakeDiff : bool) (snap : Snapshot) (header : Header) : CR unit :=
  let number := h_Number header in
  if number =? 0 then Err errUnknownBlock
  else
    signer ← ecrecover header;
    if negb (bool_decide (signer ∈ Signers snap)) then Err errUnauthorizedSigner
    else if existsb (λ '(seen, recent), (recent =? signer) && (u64 (number - limit_of (Signers snap)) <? seen)) (map_to_list (Recents snap))
    then Err errRecentlySigned
    else if fakeDiff then Ret tt
    else
      turn ← inturn snap number signer;
      match Difficulty header with
      | None => Panic
      | Some d =>
          if (turn : bool) && negb (d =? diffInTurn) then Err errWrongDifficulty
          else if negb turn && negb (d =? diffNoTurn) then Err errWrongDifficulty
          else Ret tt
      end.

(** The condition of [Seal]: authorised, and not a recent signer. *)
Definition may_seal (snap : Snapshot) (number signer : Z) : CR bool :=
  if negb (bool_decide (signer ∈ Signers snap)) then Err errUnauthorizedSigner
  else
    let limit := limit_of (Signers snap) in
    Ret (negb (existsb (λ '(seen, recent), (recent =? signer) && ((number <? limit) || (u64 (number - limit) <? seen)))
      (map_to_list (Recents snap)))).

(** The checks of [verifyHeader] on the header alone; a header has a number here,
    so the error for a number that is nil does not arise. *)
Definition verifyStandalone (now uncleHash : Z) (header : Header) : CR unit :=
  let number := h_Number header in
  let checkpoint := number mod Epoch cfg =? 0 in
  let isVote := match vote_of (HNonce header) with Some _ => true | None => false end in
  if now <? Time header then Err ErrFutureBlock
  else if checkpoint && negb (Coinbase header =? 0) then Err errInvalidCheckpointBeneficiary
  else if negb isVote then Err errInvalidVote
  else if checkpoint && negb (bool_decide (HNonce header = nonceDropVote)) then Err errInvalidCheckpointVote
  else if (length (Extra header) <? extraVanity)%nat then Err errMissingVanity
  else if (length (Extra header) <? extraVanity + extraSeal)%nat then Err errMissingSignature
  else
    let signersBytes := (length (Extra header) - extraVanity - extraSeal)%nat in
    if negb checkpoint && negb (signersBytes =? 0)%nat then Err errExtraSigners
    else if checkpoint && negb (signersBytes mod AddressLength =? 0)%nat then Err errInvalidCheckpointSigners
    else if negb (MixDigest header =? 0) then Err errInvalidMixDigest
    else if negb (UncleHash header =? uncleHash) then Err errInvalidUncleHash
    else if (0 <? number) && negb (bool_decide (Difficulty header = Some diffInTurn ∨ Difficulty header = Some diffNoTurn))
    then Err errInvalidDifficulty
    else Ret tt.

(** [verifyCascadingFields], given the parent and the snapshot of the parent. *)
Definition verifyCascadingFields (fakeDiff : bool) (parent : option Header) (snap : CR Snapshot) (header : Header) : CR unit :=
  let number := h_Number header in
  if number =? 0 then Ret tt
  else
    match parent with
    | None => Err ErrUnknownAncestor
    | Some p =>
        if negb (h_Number p =? number - 1) || negb (h_Hash p =? ParentHash header) then Err ErrUnknownAncestor
        else if Time header <? u64 (Time p + Period cfg) then Err ErrInvalidTimestamp
        else
          snap ← snap;
          let listed := concat (fixed_be AddressLength <$> signers snap) in
          let found := take (length (Extra header) - extraSeal - extraVanity) (drop extraVanity (Extra header)) in
          if (number mod Epoch cfg =? 0) && negb (bool_decide (found = listed)) then Err errMismatchingCheckpointSigners
          else verifySeal fakeDiff snap header
    end.
Definition VerifyForkHashes (header : Header) (uncle : bool) : CR unit :=
  if uncle then Ret tt
  else if bool_decide (EIP150Block cfg = Some (h_Number header)) && negb (EIP150Hash cfg =? 0) && negb (EIP150Hash cfg =? h_Hash header)
  then Err errForkHash
  else Ret tt.

Definition verifyHeader (fakeDiff : bool) (now uncleHash : Z) (parent : option Header) (snap : CR Snapshot) (header : Header) : CR unit :=
  _ ← verifyStandalone now uncleHash header;
  _ ← VerifyForkHashes header false;
  verifyCascadingFields fakeDiff parent snap header.

(** ** Producing a header *)

Context (rehash : Header → Z).

(** The proposals worth a vote; the order of a Go map is not specified. *)
Definition votable (snap : Snapshot) (proposals : list (Z * bool)) : list (Z * bool) :=
  filter (λ '(address, authorize), validVote (Signers snap) address authorize = true) proposals.

(** The beneficiary and the nonce of the header; [pick] is the random choice. *)
Definition choose_vote (snap : Snapshot) (number : Z) (proposals : list (Z * bool)) (pick : nat) : Z * bytes :=
  if number mod Epoch cfg =? 0 then (0, nonceDropVote)
  else
    let addresses := votable snap proposals in
    match addresses !! (pick mod length addresses)%nat with
    | None => (0, nonceDropVote)
    | Some (address, authorize) => (address, if (authorize : bool) then nonceAuthVote else nonceDropVote)
    end.

Definition prepare_extra (snap : Snapshot) (number : Z) (extra : bytes) : bytes :=
  let extra := take extraVanity (extra ++ replicate (extraVanity - length extra) Byte.x00) in
  let extra := if number mod Epoch cfg =? 0 then extra ++ concat (fixed_be AddressLength <$> signers snap) else extra in
  extra ++ replicate extraSeal Byte.x00.

(** [Prepare], given the snapshot of the parent, the parent and the clock. *)
Definition Prepare (snap : CR Snapshot) (parent : option Header) (now signer : Z) (proposals : list (Z * bool)) (pick : nat)
    (header : Header) : CR Header :=
  let number := h_Number header in
  snap ← snap;
  let '(coinbase, nonce) := choose_vote snap number proposals pick in
  difficulty ← CalcDifficulty snap signer;
  let extra := prepare_extra snap number (Extra header) in
  match parent with
  | None => Err ErrUnknownAncestor
  | Some p =>
      let time := u64 (Time p + Period cfg) in
      let time := if time <? now then now else time in
      Ret (mk_Header number (h_Hash header) (ParentHash header) coinbase nonce time extra 0 (UncleHash header) (Some difficulty))
  end.

(** What [Finalize] sets: the hash of no uncles (the state root is not looked at). *)
Definition Finalize (uncleHash : Z) (header : Header) : Header :=
  mk_Header (h_Number header) (h_Hash header) (ParentHash header) (Coinbase header) (HNonce header) (Time header)
    (Extra header) (MixDigest header) uncleHash (Difficulty header).

(** The signature goes over the last bytes of the extra data; the hash of the
    header, which [rehash] computes from the other fields, is known from then on. *)
Definition put_seal (header : Header) (sighash : bytes) : CR Header :=
  let extra := Extra header in
  if (length extra <? extraSeal)%nat then Panic
  else
    let at_ := (length extra - extraSeal)%nat in
    let n := Nat.min extraSeal (length sighash) in
    let sealed hash := mk_Header (h_Number header) hash (ParentHash header) (Coinbase header) (HNonce header) (Time header)
      (take at_ extra ++ take n sighash ++ drop (at_ + n) extra) (MixDigest header) (UncleHash header) (Difficulty header) in
    Ret (sealed (rehash (sealed 0))).

(** [Seal] up to the signed header: [None] when the engine waits. *)
Definition Seal (snap : CR Snapshot) (signer : Z) (txs : nat) (signFn : Header → CR bytes) (header : Header) : CR (option Header) :=
  let number := h_Number header in
  if number =? 0 then Err errUnknownBlock
  else if (Period cfg =? 0) && (txs =? 0)%nat then Ret None
  else
    snap ← snap;
    may ← may_seal snap number signer;
    if negb may then Ret None
    else
      sighash ← signFn header;
      sealed ← put_seal header sighash;
      Ret (Some sealed).
(** ** Finding a snapshot *)

(** The chain a node knows. *)
Record ChainReader := mk_ChainReader { GetHeader : Z → Z → option Header; GetHeaderByNumber : Z → option Header }.

Definition checkpointInterval : Z := 1024.
Definition ImmutabilityThreshold : Z := 90000.

(** The signers a checkpoint lists in its extra data. *)
Definition checkpoint_signers (extra : bytes) : CR (list Z) :=
  let n := Z.quot (Z.of_nat (length extra) - Z.of_nat (extraVanity + extraSeal)) (Z.of_nat AddressLength) in
  if n <? 0 then Panic
  else Ret ((λ i, be_decode (take AddressLength (drop (extraVanity + i * AddressLength) extra))) <$> seq 0 (Z.to_nat n)).

Context {Cache DB : Type} {ST : Stores Cache DB} (chain : ChainReader).

Record gathered := mk_gathered { g_snap : Snapshot; g_headers : list Header; g_db : DB }.

(** The loop of [snapshot]: a snapshot to start from, and the headers after it,
    newest first; [None] when the fuel runs out. *)
Fixpoint gather (fuel : nat) (cache : Cache) (db : DB) (number hash : Z) (parents headers : list Header) : option (CR gathered) :=
  match fuel with
  | O => None
  | S fuel =>
      let back :=
        match last parents with
        | Some header =>
            if negb (h_Hash header =? hash) || negb (h_Number header =? number) then Some (Err ErrUnknownAncestor)
            else gather fuel cache db (u64 (number - 1)) (ParentHash header) (take (length parents - 1) parents) (headers ++ [header])
        | None =>
            match GetHeader chain hash number with
            | None => Some (Err ErrUnknownAncestor)
            | Some header => gather fuel cache db (u64 (number - 1)) (ParentHash header) parents (headers ++ [header])
            end
        end in
      match cache_get cache hash with
      | Some s => Some (Ret (mk_gathered s headers db))
      | None =>
          match (if number mod checkpointInterval =? 0 then loadSnapshot db hash else None) with
          | Some s => Some (Ret (mk_gathered s headers db))
          | None =>
              if (number =? 0) || ((number mod Epoch cfg =? 0) &&
                  ((ImmutabilityThreshold <? Z.of_nat (length headers)) || bool_decide (GetHeaderByNumber chain (u64 (number - 1)) = None)))
              then
                match GetHeaderByNumber chain number with
                | Some checkpoint =>
                    Some (signers ← checkpoint_signers (Extra checkpoint);
                          let snap := newSnapshot number (h_Hash checkpoint) signers in
                          db ← store db snap;
                          Ret (mk_gathered snap headers db))
                | None => back
                end
              else back
          end
      end
  end.

Definition snapshot (fuel : nat) (cache : Cache) (db : DB) (number hash : Z) (parents : list Header)
    : option (CR (Snapshot * Cache * DB)) :=
  match gather fuel cache db number hash parents [] with
  | None => None
  | Some r =>
      Some (
        '(mk_gathered snap headers db) ← r;
        snap ← apply snap (reverse headers);
        let cache := cache_add cache (Hash snap) snap in
        if (Number snap mod checkpointInterval =? 0) && negb (length headers =? 0)%nat then
          db ← store db snap; Ret (snap, cache, db)
        else Ret (snap, cache, db))
  end.
End WithRecover.

End Clique.
