(* ===== verification/CliqueProofs.v ===== *)
(** * CliqueProofs: the tally counts the standing votes

    The invariant of a snapshot (one standing vote per signer and account,
    only by current signers and only for a change; the tally is their count;
    the recent signers are distinct and recent), kept by every header; a
    signer joins or leaves only by the votes of a majority. *)

From stdpp Require Import base gmap list sorting.
From Stdlib Require Import ZArith Lia.
From S2P Require Import Prelude Clique.

Local Open Scope Z_scope.

Module CliqueProofs.
Import Clique.

(** ** Votes and the tally *)

Definition about (a : Z) (vs : list Vote) : list Vote := filter (λ v, Address v = a) vs.
Definition count (a : Z) (vs : list Vote) : Z := Z.of_nat (length (about a vs)).

Definition tally_ok (sg : gset Z) (vs : list Vote) (T : gmap Z Tally) : Prop :=
  ∀ a, T !! a = if decide (count a vs = 0) then None else Some (mk_Tally (bool_decide (a ∉ sg)) (count a vs)).

(** A vote for a change, by a signer. *)
Definition sound (sg : gset Z) (v : Vote) : Prop :=
  Signer v ∈ sg ∧ Authorize v = bool_decide (Address v ∉ sg).

Definition ballot (v : Vote) : Z * Z := (Signer v, Address v).

Lemma count_nonneg a vs : 0 <= count a vs.
Proof. unfold count. lia. Qed.

Lemma votes_count_cons a v vs : count a (v :: vs) = (if decide (Address v = a) then 1 else 0) + count a vs.
Proof. unfold count, about. rewrite filter_cons. case_decide; cbn [length]; lia. Qed.

Lemma count_app a vs vs' : count a (vs ++ vs') = count a vs + count a vs'.
Proof. unfold count, about. rewrite filter_app, length_app. lia. Qed.

Lemma count_filter a b vs : count a (filter (λ v, Address v ≠ b) vs) = if decide (a = b) then 0 else count a vs.
Proof.
  induction vs as [|v vs IH]; [by case_decide|]. rewrite filter_cons, votes_count_cons.
  destruct (decide (Address v ≠ b)); [rewrite votes_count_cons|]; rewrite IH; repeat case_decide; subst; try done; lia.
Qed.

Lemma tally_perm sg vs vs' T : vs ≡ₚ vs' → tally_ok sg vs T → tally_ok sg vs' T.
Proof.
  intros Hp HT a. assert (E : count a vs' = count a vs) by (unfold count, about; by rewrite Hp). rewrite E. apply HT.
Qed.

Lemma tally_uncast sg v vs T :
  Authorize v = bool_decide (Address v ∉ sg) → tally_ok sg (v :: vs) T → tally_ok sg vs (uncast T (Address v) (Authorize v)).
Proof.
  intros Ha HT. pose proof (HT (Address v)) as Hv. rewrite votes_count_cons, (decide_True (P := Address v = Address v)) in Hv by done.
  pose proof (count_nonneg (Address v) vs). rewrite decide_False in Hv by lia.
  assert (Hother : ∀ a, a ≠ Address v → T !! a = if decide (count a vs = 0) then None else Some (mk_Tally (bool_decide (a ∉ sg)) (count a vs))).
  { intros a Hne. rewrite (HT a), votes_count_cons. rewrite (decide_False (P := Address v = a)) by done. done. }
  unfold uncast. rewrite Hv, Ha. cbn [t_Authorize t_Votes]. rewrite Bool.eqb_reflx. cbn [negb].
  intros a. destruct (decide (a = Address v)) as [->|Hne].
  - destruct (Z.ltb_spec 1 (1 + count (Address v) vs)).
    + rewrite lookup_insert_eq, decide_False by lia. f_equal. f_equal. lia.
    + rewrite lookup_delete_eq, decide_True by lia. done.
  - destruct (_ <? _); [rewrite lookup_insert_ne by done|rewrite lookup_delete_ne by done]; by apply Hother.
Qed.

(** ** Discarding votes *)

Lemma discard_vote_spec signer a vs T :
  (discard_vote signer a vs T = (vs, T) ∧ Forall (λ v, ballot v ≠ (signer, a)) vs) ∨
  (∃ l1 v l2, vs = l1 ++ v :: l2 ∧ ballot v = (signer, a) ∧
    discard_vote signer a vs T = (l1 ++ l2, uncast T (Address v) (Authorize v))).
Proof.
  induction vs as [|v vs IH]; cbn [discard_vote]; [by left|].
  destruct (Z.eqb_spec (Signer v) signer) as [Es|Es], (Z.eqb_spec (Address v) a) as [Ea|Ea]; cbn [andb].
  { right. exists [], v, vs. unfold ballot. by rewrite Es, Ea. }
  all: assert (Hb : ballot v ≠ (signer, a)) by (unfold ballot; congruence).
  all: destruct IH as [[E IH]|(l1 & w & l2 & E1 & E2 & E)]; rewrite E;
    [left; split; [done|by constructor]|right; exists (v :: l1), w, l2; by rewrite E1].
Qed.

Lemma discard_signer_spec sg signer vs T pre :
  Forall (sound sg) vs → tally_ok sg (pre ++ vs) T →
  ∃ T', discard_signer signer vs T = (filter (λ v, Signer v ≠ signer) vs, T') ∧
    tally_ok sg (pre ++ filter (λ v, Signer v ≠ signer) vs) T'.
Proof.
  intros Hs. revert T pre. induction Hs as [|v vs [_ Hv] Hs IH]; intros T pre HT; cbn [discard_signer]; [by exists T|].
  rewrite filter_cons. destruct (Z.eqb_spec (Signer v) signer) as [E|E].
  - rewrite decide_False by (intros Hn; by apply Hn). apply IH. eapply tally_uncast; [done|].
    eapply tally_perm; [|exact HT]. by rewrite Permutation_middle.
  - rewrite decide_True by done. destruct (IH T (pre ++ [v])) as (T' & -> & HT'); [by rewrite <- app_assoc|].
    exists T'. split; [done|]. by rewrite <- app_assoc in HT'.
Qed.

(** The votes stand for changes, one per signer and account, and the tally counts them. *)
Definition polls (sg : gset Z) (vs : list Vote) (T : gmap Z Tally) : Prop :=
  tally_ok sg vs T ∧ Forall (sound sg) vs ∧ NoDup (ballot <$> vs).

Lemma polls_discard sg vs T signer a :
  polls sg vs T → ∃ vs' T', discard_vote signer a vs T = (vs', T') ∧ polls sg vs' T' ∧
    Forall (λ v, ballot v ≠ (signer, a)) vs' ∧ (∀ v, v ∈ vs' → v ∈ vs).
Proof.
  intros (HT & Hs & Hn). destruct (discard_vote_spec signer a vs T) as [[-> Hf]|(l1 & v & l2 & -> & Hb & ->)]; [by exists vs, T|].
  exists (l1 ++ l2), (uncast T (Address v) (Authorize v)). apply Forall_app in Hs as [H1 [Hv H2]%Forall_cons].
  rewrite fmap_app, fmap_cons in Hn. apply NoDup_app in Hn as (N1 & N2 & [N3 N4]%NoDup_cons).
  split; [done|]. split_and!; [split_and!| |].
  - eapply tally_uncast; [apply Hv|]. eapply tally_perm; [|exact HT]. by rewrite Permutation_middle.
  - by apply Forall_app.
  - rewrite fmap_app. apply NoDup_app. split_and!; [done| |done]. intros x Hx Hx'. apply (N2 x Hx). by right.
  - apply Forall_forall. intros w Hw Ew. rewrite <- Hb in Ew. apply elem_of_app in Hw as [Hw|Hw].
    + apply (N2 (ballot w)); [by apply list_elem_of_fmap_2|]. rewrite Ew. left.
    + apply N3. rewrite <- Ew. by apply list_elem_of_fmap_2.
  - intros w. rewrite !elem_of_app, elem_of_cons. tauto.
Qed.

(** ** Casting a vote *)

Lemma validVote_spec sg a auth : validVote sg a auth = Bool.eqb auth (bool_decide (a ∉ sg)).
Proof.
  unfold validVote. rewrite bool_decide_not. by destruct (bool_decide (a ∈ sg)), auth.
Qed.

(** The snapshot once the vote of a header has been cast. *)
Definition cast_vote (s : Snapshot) (signer number a : Z) (auth : bool) : Snapshot :=
  let '(counted, s) := cast s a auth in
  if counted then
    mk_Snapshot (Number s) (Hash s) (Signers s) (Recents s) (Votes s ++ [mk_Vote signer number a auth]) (tally s)
  else s.

Lemma polls_cast s signer number a auth :
  polls (Signers s) (Votes s) (tally s) → signer ∈ Signers s → Forall (λ v, ballot v ≠ (signer, a)) (Votes s) →
  let s' := cast_vote s signer number a auth in
  polls (Signers s') (Votes s') (tally s') ∧ Signers s' = Signers s ∧ Recents s' = Recents s ∧ Number s' = Number s ∧
  (∀ v, v ∈ Votes s' → v ∈ Votes s ++ [mk_Vote signer number a auth]).
Proof.
  intros (HT & Hs & Hn) Hin Hno. unfold cast_vote, cast. rewrite validVote_spec.
  destruct (Bool.eqb_spec auth (bool_decide (a ∉ Signers s))) as [Ha|Ha]; cbn [negb]; [|split; [done|]; split_and!; try done; set_solver].
  split_and!; try done; cbn [Signers Votes tally]. split_and!.
  - intros b. rewrite count_app, votes_count_cons. change (count b []) with 0. cbn [Address].
    pose proof (HT a) as Hta. pose proof (count_nonneg a (Votes s)). destruct (decide (a = b)) as [<-|Hne].
    + rewrite lookup_insert_eq, decide_False by lia. rewrite Hta. case_decide as E; cbn [t_Authorize t_Votes].
      * rewrite E. by rewrite Ha.
      * f_equal; f_equal; lia.
    + rewrite lookup_insert_ne by done. rewrite (HT b). by rewrite !Z.add_0_r.
  - apply Forall_app. split; [done|]. by repeat constructor.
  - rewrite fmap_app. apply NoDup_app. split_and!; [done| |repeat constructor; by intros ?%elem_of_nil].
    intros x (v & -> & Hv)%list_elem_of_fmap Hx. apply list_elem_of_singleton in Hx. rewrite Forall_forall in Hno. by apply (Hno v).
Qed.

(** ** Passing a vote *)

Lemma NoDup_voters a vs : NoDup (ballot <$> vs) → NoDup (Signer <$> about a vs).
Proof.
  intros Hn. unfold about. induction vs as [|v vs IH]; [constructor|]. rewrite fmap_cons in Hn. apply NoDup_cons in Hn as [Hv Hn].
  rewrite filter_cons. case_decide as E; [|by apply IH]. rewrite fmap_cons. apply NoDup_cons. split; [|by apply IH].
  intros (w & Ew & [Haw Hw]%list_elem_of_filter)%list_elem_of_fmap. apply Hv. apply list_elem_of_fmap. exists w. split; [|done].
  unfold ballot. congruence.
Qed.

Lemma polls_flip sg sg' c vs T :
  (∀ a, a ≠ c → a ∈ sg' ↔ a ∈ sg) → (∀ v, v ∈ vs → Signer v ∈ sg') → polls sg vs T →
  polls sg' (filter (λ v, Address v ≠ c) vs) (delete c T).
Proof.
  intros Hsg Hin (HT & Hs & Hn). split_and!.
  - intros a. rewrite count_filter. destruct (decide (a = c)) as [->|Hne].
    + by rewrite lookup_delete_eq.
    + rewrite lookup_delete_ne, (HT a) by done. by rewrite (bool_decide_ext (a ∉ sg') (a ∉ sg)) by (by rewrite Hsg).
  - apply Forall_forall. intros v [Hv Hv']%list_elem_of_filter. rewrite Forall_forall in Hs. destruct (Hs v Hv') as [_ Ha].
    split; [by apply Hin|]. rewrite Ha. apply bool_decide_ext. by rewrite Hsg.
  - eapply sublist_NoDup; [exact Hn|]. apply fmap_sublist, sublist_filter.
Qed.

Lemma polls_discard_signer sg vs T c :
  polls sg vs T → ∃ T', discard_signer c vs T = (filter (λ v, Signer v ≠ c) vs, T') ∧ polls sg (filter (λ v, Signer v ≠ c) vs) T'.
Proof.
  intros (HT & Hs & Hn). destruct (discard_signer_spec sg c vs T [] Hs HT) as (T' & E & HT'). exists T'. split; [done|].
  split_and!; [done| |].
  - apply Forall_forall. intros v [_ Hv]%list_elem_of_filter. rewrite Forall_forall in Hs. by apply Hs.
  - eapply sublist_NoDup; [exact Hn|]. apply fmap_sublist, sublist_filter.
Qed.

(** The account changes sides. *)
Definition flipped (sg : gset Z) (c : Z) : gset Z := if decide (c ∈ sg) then sg ∖ {[c]} else {[c]} ∪ sg.

(** More than half of the signers have a standing vote about the account. *)
Definition majority (sg : gset Z) (vs : list Vote) (c : Z) : Prop :=
  ∃ voters, NoDup voters ∧ Z.of_nat (size sg) / 2 < Z.of_nat (length voters) ∧
    ∀ x, x ∈ voters → x ∈ sg ∧ ∃ v, v ∈ vs ∧ Signer v = x ∧ Address v = c ∧ Authorize v = bool_decide (c ∉ sg).

Lemma majority_voters sg vs T c :
  polls sg vs T → Z.of_nat (size sg) / 2 < count c vs → majority sg vs c.
Proof.
  intros (HT & Hs & Hn) Hc. exists (Signer <$> about c vs). split_and!; [by apply NoDup_voters|by rewrite length_fmap|].
  intros x (v & -> & [Ha Hv]%list_elem_of_filter)%list_elem_of_fmap. rewrite Forall_forall in Hs. destruct (Hs v Hv) as [H1 H2].
  split; [done|]. exists v. by rewrite <- Ha.
Qed.

Lemma majority_mono sg vs vs' c : (∀ v, v ∈ vs → v ∈ vs') → majority sg vs c → majority sg vs' c.
Proof.
  intros Hv (l & Hn & Hl & H). exists l. split_and!; try done. intros x Hx. destruct (H x Hx) as [Hs (v & Hv' & Hrest)].
  split; [done|]. exists v. auto.
Qed.

Lemma pass_vote_polls s number c :
  polls (Signers s) (Votes s) (tally s) →
  let s' := pass_vote s number c in
  polls (Signers s') (Votes s') (tally s') ∧
  ((Signers s' = Signers s ∧ Recents s' = Recents s) ∨
   (Signers s' = flipped (Signers s) c ∧ majority (Signers s) (Votes s) c ∧
    Recents s' = if decide (c ∈ Signers s) then shift_recents (Signers s') number (Recents s) else Recents s)).
Proof.
  intros Hp. pose proof Hp as (HT & Hs & Hn). unfold pass_vote. set (t := default _ _).
  destruct (Z.ltb_spec (Z.of_nat (size (Signers s)) / 2) (t_Votes t)) as [Hlt|]; [|split; [done|by left]].
  assert (Hz : 0 <= Z.of_nat (size (Signers s)) / 2) by (apply Z.div_pos; lia).
  assert (Et : t = mk_Tally (bool_decide (c ∉ Signers s)) (count c (Votes s))).
  { unfold t in *. rewrite (HT c) in *. case_decide; [cbn in Hlt; lia|done]. }
  rewrite Et in *. cbn [t_Authorize t_Votes] in *. pose proof (majority_voters _ _ _ c Hp Hlt) as Hm. unfold flipped.
  destruct (decide (c ∈ Signers s)) as [Hc|Hc].
  - rewrite bool_decide_false by tauto. destruct (polls_discard_signer _ _ _ c Hp) as (T' & -> & Hp'). cbn.
    split; [|by right]. apply (polls_flip (Signers s)); [clear; set_solver| |done].
    intros v [Hv Hv']%list_elem_of_filter. rewrite Forall_forall in Hs. destruct (Hs v Hv') as [Hin _]. clear -Hin Hv. set_solver.
  - rewrite bool_decide_true by done. cbn. split; [|by right]. apply (polls_flip (Signers s)); [clear; set_solver| |done].
    intros v Hv. rewrite Forall_forall in Hs. destruct (Hs v Hv) as [Hin _]. clear -Hin. set_solver.
Qed.

Lemma pass_vote_Number s number c : Number (pass_vote s number c) = Number s.
Proof.
  unfold pass_vote. destruct (_ <? _); [|done]. destruct (t_Authorize _); [done|]. by destruct (discard_signer _ _ _).
Qed.

(** ** The window of recent signers *)

(** The blocks remembered after block [number]: the last [limit - 1] at most,
    each with a signer of its own. *)
Definition windowed (sg : gset Z) (number : Z) (R : gmap Z Z) : Prop :=
  (∀ k x, R !! k = Some x → 0 <= k <= number ∧ number < k + limit_of sg) ∧
  (∀ k k' x, R !! k = Some x → R !! k' = Some x → k = k').

Lemma limit_pos sg : 1 <= limit_of sg.
Proof. unfold limit_of. pose proof (Z.div_pos (Z.of_nat (size sg)) 2). lia. Qed.

Lemma shift_lookup sg number R k x :
  shift_recents sg number R !! k = Some x ↔
  R !! k = Some x ∧ ¬ (limit_of sg <= number ∧ k = number - limit_of sg).
Proof.
  unfold shift_recents. destruct (Z.leb_spec (limit_of sg) number) as [Hl|Hl].
  - rewrite lookup_delete_Some. split; intros [H1 H2]; split; try done; [intros [_ ->]|intros <-]; auto.
  - split; [intros ?; split; [done|lia]|by intros []].
Qed.

(** The oldest block leaves: what stays is in the window of the next block. *)
Lemma shift_window sg sg' number R :
  (∀ k x, R !! k = Some x → 0 <= k <= number) →
  (∀ k x, R !! k = Some x → number <= k + limit_of sg') →
  (∀ k k' x, R !! k = Some x → R !! k' = Some x → k = k') →
  limit_of sg' <= limit_of sg → windowed sg number (shift_recents sg' number R).
Proof.
  intros H0 H1 H2 Hl. split.
  - intros k x [Hk Hn]%shift_lookup. specialize (H0 _ _ Hk). specialize (H1 _ _ Hk). lia.
  - intros k k' x [Hk _]%shift_lookup [Hk' _]%shift_lookup. by eapply H2.
Qed.

Lemma windowed_next sg number R :
  windowed sg number R → windowed sg (number + 1) (shift_recents sg (number + 1) R).
Proof.
  intros [H1 H2]. apply shift_window; [| |done|lia]; intros k x Hk; specialize (H1 _ _ Hk); lia.
Qed.

Lemma windowed_insert sg number R x :
  0 <= number → windowed sg number R → (∀ k, R !! k ≠ Some x) → windowed sg number (<[number := x]> R).
Proof.
  intros Hn [H1 H2] Hx. pose proof (limit_pos sg). split.
  - intros k y [[<- _]|[_ Hk]]%lookup_insert_Some; [lia|by eapply H1].
  - intros k k' y [[<- <-]|[_ Hk]]%lookup_insert_Some [[<- E]|[_ Hk']]%lookup_insert_Some; subst; try done;
      (by eapply H2) || (by destruct (Hx _ Hk')) || by destruct (Hx _ Hk).
Qed.

Lemma windowed_grow sg sg' number R : limit_of sg <= limit_of sg' → windowed sg number R → windowed sg' number R.
Proof. intros Hl [H1 H2]. split; [|done]. intros k x Hk. specialize (H1 _ _ Hk). lia. Qed.

Lemma limit_add sg c : limit_of sg <= limit_of ({[c]} ∪ sg).
Proof.
  unfold limit_of. assert (Hs : (size sg ≤ size ({[c]} ∪ sg))%nat) by (apply subseteq_size; set_solver).
  pose proof (Z.div_le_mono (Z.of_nat (size sg)) (Z.of_nat (size ({[c]} ∪ sg))) 2). lia.
Qed.

Lemma limit_remove sg c : c ∈ sg → limit_of sg - 1 <= limit_of (sg ∖ {[c]}) <= limit_of sg.
Proof.
  intros Hc. unfold limit_of. assert (Hs : (size (sg ∖ {[c]}) = size sg - 1)%nat).
  { rewrite size_difference by set_solver. by rewrite size_singleton. }
  assert (size sg ≠ 0%nat) by (intros E; apply size_empty_iff in E; set_solver).
  rewrite Hs. Z.to_euclidean_division_equations. lia.
Qed.

Lemma pass_vote_windowed s number c :
  polls (Signers s) (Votes s) (tally s) → windowed (Signers s) number (Recents s) →
  let s' := pass_vote s number c in windowed (Signers s') number (Recents s').
Proof.
  intros Hp Hw s'. destruct (pass_vote_polls s number c Hp) as [_ [[E1 E2]|(E1 & _ & E2)]]; fold s' in E1, E2;
    rewrite E2, ?E1; [done|]. unfold flipped. destruct (decide (c ∈ Signers s)) as [Hc|Hc].
  - pose proof (limit_remove _ _ Hc). destruct Hw as [H1 H2].
    apply shift_window; try done; try lia; intros k x Hk; specialize (H1 _ _ Hk); lia.
  - eapply windowed_grow; [apply limit_add|done].
Qed.

(** ** The invariant *)

Definition wf (s : Snapshot) (number : Z) : Prop :=
  0 <= number ∧ polls (Signers s) (Votes s) (tally s) ∧ windowed (Signers s) number (Recents s).

Lemma polls_none sg : polls sg [] ∅.
Proof. split_and!; [intros a; by rewrite lookup_empty|constructor|constructor]. Qed.

Lemma newSnapshot_wf number hash l : 0 <= number → wf (newSnapshot number hash l) number.
Proof. intros Hn. split_and!; [done|apply polls_none|]. by split; intros k ? * Hk; cbn in Hk; rewrite lookup_empty in Hk. Qed.

Section WithRecover.
Context (cfg : CliqueConfig) (ecrecover : Header → CR Z).

(** The steps of a header that is accepted: its signer is a signer that is not
    recent; its vote replaces the signer's old vote; a vote may pass. *)
Lemma apply_header_steps s h s' :
  apply_header cfg ecrecover s h = Ret s' →
  let R := shift_recents (Signers s) (h_Number h) (Recents s) in
  ∃ signer authorize vs T, ecrecover h = Ret signer ∧ vote_of (HNonce h) = Some authorize ∧
    signer ∈ Signers s ∧ (∀ k, R !! k ≠ Some signer) ∧
    (vs, T) = (if h_Number h mod Epoch cfg =? 0 then discard_vote signer (Coinbase h) [] ∅
               else discard_vote signer (Coinbase h) (Votes s) (tally s)) ∧
    s' = pass_vote (cast_vote (mk_Snapshot (Number s) (Hash s) (Signers s) (<[h_Number h := signer]> R) vs T)
                      signer (h_Number h) (Coinbase h) authorize) (h_Number h) (Coinbase h).
Proof.
  intros E R. unfold apply_header in E. fold R in E.
  destruct (if h_Number h mod Epoch cfg =? 0 then ([], ∅) else (Votes s, tally s)) as [vs T] eqn:Ep.
  destruct (ecrecover h) as [x|e|]; cbn [mbind outcome_bind] in E; try done.
  case_bool_decide as Hx; cbn [negb] in E; [|done]. case_bool_decide as Hr; [done|].
  destruct (discard_vote x (Coinbase h) vs T) as [vs' T'] eqn:Ed.
  destruct (vote_of (HNonce h)) as [auth|]; [|done].
  exists x, auth, vs', T'. split_and!; try done.
  - intros k Hk. apply Hr, list_elem_of_fmap. exists (k, x). split; [done|]. by apply elem_of_map_to_list.
  - by destruct (_ =? 0); injection Ep as <- <-.
  - unfold cast_vote. destruct (cast _ _ _) as [[] s1]; by injection E.
Qed.

(** The account of the header changes sides, by the votes of a majority: the
    standing ones, or the one the header carries. *)
Definition elected (s : Snapshot) (h : Header) (s' : Snapshot) : Prop :=
  Signers s' = flipped (Signers s) (Coinbase h) ∧
  ∃ signer authorize, ecrecover h = Ret signer ∧ vote_of (HNonce h) = Some authorize ∧
    majority (Signers s) ((if h_Number h mod Epoch cfg =? 0 then [] else Votes s) ++ [mk_Vote signer (h_Number h) (Coinbase h) authorize])
      (Coinbase h).

Lemma apply_header_wf s h s' number :
  wf s number → h_Number h = number + 1 → apply_header cfg ecrecover s h = Ret s' →
  wf s' (number + 1) ∧ Number s' = Number s ∧ (Signers s' = Signers s ∨ elected s h s').
Proof.
  intros (Hn & Hp & Hw) Eh (x & auth & vs & T & Er & Ev & Hx & Hr & Ed & ->)%apply_header_steps. rewrite Eh in Hr, Ed |- *.
  set (old := if (number + 1) mod Epoch cfg =? 0 then [] else Votes s).
  assert (Hd : polls (Signers s) vs T ∧ Forall (λ v, ballot v ≠ (x, Coinbase h)) vs ∧ ∀ v, v ∈ vs → v ∈ old).
  { unfold old. destruct (_ =? 0).
    - destruct (polls_discard _ _ _ x (Coinbase h) (polls_none (Signers s))) as (vs' & T' & E & ?). rewrite E in Ed. by injection Ed as -> ->.
    - destruct (polls_discard _ _ _ x (Coinbase h) Hp) as (vs' & T' & E & ?). rewrite E in Ed. by injection Ed as -> ->. }
  destruct Hd as (Hp1 & Hno & Hsub).
  set (s1 := mk_Snapshot _ _ _ _ vs T). destruct (polls_cast s1 x (number + 1) (Coinbase h) auth) as (Hp2 & Es & ER & EN & Hv); [done..|].
  fold s1. set (s2 := cast_vote _ _ _ _ _) in *. assert (Hw2 : windowed (Signers s2) (number + 1) (Recents s2)).
  { rewrite Es, ER. apply windowed_insert; [lia|by apply windowed_next|done]. }
  split; [split_and!; [lia|apply pass_vote_polls; done|by apply pass_vote_windowed]|].
  split; [rewrite pass_vote_Number, EN; done|].
  destruct (pass_vote_polls s2 (number + 1) (Coinbase h) Hp2) as [_ [[E _]|(E & Hm & _)]]; rewrite Es in E; [by left|right].
  split; [done|]. exists x, auth. split_and!; try done. rewrite Eh. fold old. rewrite Es in Hm.
  eapply majority_mono; [|exact Hm]. intros v Hv'%Hv. cbn [Votes s1] in Hv'. apply elem_of_app.
  apply elem_of_app in Hv' as [Hv'|Hv']; auto.
Qed.

(** ** Chains of headers *)

Lemma contiguous_cons n h hs :
  0 <= n → n + Z.of_nat (length (h :: hs)) < two64 → contiguous n (h :: hs) = true →
  h_Number h = n + 1 ∧ contiguous (n + 1) hs = true.
Proof.
  intros H0 Hlt [E Hc]%andb_true_iff. apply Z.eqb_eq in E. cbn [length] in Hlt.
  rewrite u64_small in E by (unfold is_u64; lia). split; [done|]. by rewrite <- E.
Qed.

Lemma apply_headers_wf hs s s' number :
  wf s number → number + Z.of_nat (length hs) < two64 → contiguous number hs = true →
  apply_headers cfg ecrecover s hs = Ret s' → wf s' (number + Z.of_nat (length hs)) ∧ Number s' = Number s.
Proof.
  revert s number. induction hs as [|h hs IH]; intros s number Hw Hlt Hc E; cbn [apply_headers length] in *.
  { injection E as <-. by rewrite Z.add_0_r. }
  apply contiguous_cons in Hc as [Eh Hc]; [|by destruct Hw|done].
  destruct (apply_header cfg ecrecover s h) as [s1|e|] eqn:E1; cbn [mbind outcome_bind] in E; try done.
  destruct (apply_header_wf s h s1 number Hw Eh E1) as (Hw1 & EN & _).
  destruct (IH s1 (number + 1) Hw1) as [Hw' EN']; [lia|done|done|].
  rewrite EN', EN. split; [|done]. by replace (number + Z.of_nat (S (length hs))) with (number + 1 + Z.of_nat (length hs)) by lia.
Qed.

(** The snapshots a node holds: a checkpoint, or headers applied to one. *)
Inductive reachable : Snapshot → Prop :=
  | reach_new number hash l : 0 <= number → reachable (newSnapshot number hash l)
  | reach_apply s hs s' :
      reachable s → Number s + Z.of_nat (length hs) < two64 → apply cfg ecrecover s hs = Ret s' → reachable s'.

Lemma apply_wf s hs s' :
  wf s (Number s) → Number s + Z.of_nat (length hs) < two64 → apply cfg ecrecover s hs = Ret s' →
  wf s' (Number s') ∧ Number s' = Number s + Z.of_nat (length hs).
Proof.
  intros Hw Hlt. unfold apply. destruct (last hs) as [newest|] eqn:El.
  - destruct (contiguous _ _) eqn:Hc; cbn [negb]; [|done].
    destruct (apply_headers _ _ s hs) as [s1|e|] eqn:E1; cbn [mbind outcome_bind]; try done. intros [= <-].
    destruct (apply_headers_wf _ _ _ _ Hw Hlt Hc E1) as [Hw1 EN]. destruct Hw as [Hn _]. cbn. rewrite EN, u64_small by (unfold is_u64; lia). done.
  - apply last_None in El as ->. intros [= <-]. cbn [length]. by rewrite Z.add_0_r.
Qed.

Lemma reachable_wf s : reachable s → wf s (Number s).
Proof.
  induction 1 as [number hash l Hn|s hs s' _ IH Hlt E]; [by apply newSnapshot_wf|]. by eapply apply_wf.
Qed.

(** ** Progress *)

(** Not every signer is among the remembered ones. *)
Lemma free_signer sg number R :
  windowed sg number R → sg ≠ ∅ → ∃ x, x ∈ sg ∧ ∀ k, shift_recents sg (number + 1) R !! k ≠ Some x.
Proof.
  intros [H1 _] Hne. set (R' := shift_recents _ _ _). set (l := map_to_list R').
  assert (Hk : (length l.*1 ≤ length (seqZ (number + 2 - limit_of sg) (limit_of sg - 1)))%nat).
  { apply submseteq_length, NoDup_submseteq; [apply NoDup_fst_map_to_list|].
    intros k ([k' x] & -> & [Hk' Hn]%elem_of_map_to_list%shift_lookup)%list_elem_of_fmap. apply elem_of_seqZ. specialize (H1 _ _ Hk'). cbn. lia. }
  rewrite length_seqZ, length_fmap in Hk. pose proof (limit_pos sg) as Hl.
  destruct (decide (sg ∖ list_to_set l.*2 = ∅)) as [Hd|Hd].
  - assert (Hs : (length (elements sg) ≤ length l.*2)%nat).
    { apply submseteq_length, NoDup_submseteq; [apply NoDup_elements|]. intros x Hx%elem_of_elements.
      apply dec_stable. intros Hn. clear -Hd Hx Hn. set_solver. }
    rewrite length_fmap in Hs. change (length (elements sg)) with (size sg) in Hs. unfold limit_of in Hk, Hl.
    assert (size sg ≠ 0%nat) by (intros E; apply size_empty_iff in E; apply Hne; by apply leibniz_equiv).
    Z.to_euclidean_division_equations. lia.
  - apply set_choose_L in Hd as [x [Hx Hr]%elem_of_difference]. exists x. split; [done|]. intros k Hk'. apply Hr.
    apply elem_of_list_to_set, list_elem_of_fmap. exists (k, x). split; [done|]. by apply elem_of_map_to_list.
Qed.

Lemma apply_header_accepts s h x :
  ecrecover h = Ret x → vote_of (HNonce h) ≠ None → x ∈ Signers s →
  (∀ k, shift_recents (Signers s) (h_Number h) (Recents s) !! k ≠ Some x) →
  ∃ s', apply_header cfg ecrecover s h = Ret s'.
Proof.
  intros Er Hv Hx Hr. unfold apply_header. rewrite Er. cbn [mbind outcome_bind].
  destruct (if _ =? 0 then _ else _) as [vs T]. rewrite bool_decide_true by done. cbn [negb].
  rewrite bool_decide_false; [|intros ([k y] & -> & Hk%elem_of_map_to_list)%list_elem_of_fmap; by apply (Hr k)].
  destruct (discard_vote _ _ _ _). destruct (vote_of (HNonce h)) as [auth|]; [|done].
  destruct (cast _ _ _) as [[] ?]; eauto.
Qed.

(** ** The signer in turn *)

Lemma offset_of_lookup l (i : nat) x : NoDup l → l !! i = Some x → offset_of x l = Z.of_nat i.
Proof.
  intros Hn. revert i. induction Hn as [|y l Hy Hn IH]; intros [|i] Hi; cbn in *; try done.
  - injection Hi as ->. by rewrite Z.eqb_refl.
  - destruct (Z.eqb_spec y x) as [->|]; [|rewrite (IH i Hi); lia]. destruct Hy. by eapply list_elem_of_lookup_2.
Qed.

Lemma signers_NoDup s : NoDup (signers s).
Proof. unfold signers. rewrite merge_sort_Permutation. apply NoDup_elements. Qed.

Lemma elem_of_signers s x : x ∈ signers s ↔ x ∈ Signers s.
Proof. unfold signers. by rewrite merge_sort_Permutation, elem_of_elements. Qed.

(** Every block has one signer in turn. *)
Lemma inturn_unique s number :
  0 <= number → Signers s ≠ ∅ →
  ∃ x, x ∈ Signers s ∧ inturn s number x = Ret true ∧ ∀ y, y ∈ Signers s → inturn s number y = Ret true → y = x.
Proof.
  intros Hn Hne. pose proof (signers_NoDup s) as Hd. assert (Hl : (length (signers s) ≠ 0)%nat).
  { intros E%nil_length_inv. apply Hne, set_eq. intros x. by rewrite <- elem_of_signers, E, elem_of_nil. }
  set (n := Z.of_nat (length (signers s))) in *. pose proof (Z.mod_pos_bound number n ltac:(lia)) as Hb.
  destruct (lookup_lt_is_Some_2 (signers s) (Z.to_nat (number mod n))) as [x Hx]; [lia|].
  assert (Hin : ∀ y, inturn s number y = Ret (number mod n =? offset_of y (signers s))).
  { intros y. unfold inturn. fold n. by destruct (signers s). }
  exists x. split_and!; [apply elem_of_signers; by eapply list_elem_of_lookup_2| |].
  - rewrite Hin, (offset_of_lookup _ _ _ Hd Hx). by rewrite Z2Nat.id, Z.eqb_refl by lia.
  - intros y Hy%elem_of_signers. rewrite Hin. intros [= E%Z.eqb_eq]. apply list_elem_of_lookup in Hy as [i Hi].
    rewrite (offset_of_lookup _ _ _ Hd Hi) in E. rewrite E, Nat2Z.id in Hx. congruence.
Qed.

(** ** Sealing, verifying and applying *)

(** The signer is remembered when the header of block [number] is applied. *)
Definition recent (s : Snapshot) (number x : Z) : Prop := ∃ k, shift_recents (Signers s) number (Recents s) !! k = Some x.

Lemma apply_header_recent s h x :
  ecrecover h = Ret x → x ∈ Signers s → apply_header cfg ecrecover s h = Err errRecentlySigned ↔ recent s (h_Number h) x.
Proof.
  intros Er Hx. split.
  - unfold apply_header. rewrite Er. cbn [mbind outcome_bind]. destruct (if _ =? 0 then _ else _) as [vs T].
    rewrite bool_decide_true by done. cbn [negb]. case_bool_decide as Hr.
    + intros _. apply list_elem_of_fmap in Hr as ([k y] & -> & Hk%elem_of_map_to_list). by exists k.
    + destruct (discard_vote _ _ _ _). destruct (vote_of _); [|done]. by destruct (cast _ _ _).
  - intros [k Hk]. unfold apply_header. rewrite Er. cbn [mbind outcome_bind]. destruct (if _ =? 0 then _ else _) as [vs T].
    rewrite bool_decide_true by done. cbn [negb]. rewrite bool_decide_true; [done|].
    apply list_elem_of_fmap. exists (k, x). split; [done|]. by apply elem_of_map_to_list.
Qed.

(** The loops of [Seal] and of [verifySeal] over the remembered blocks. *)
Lemma existsb_recents (R : gmap Z Z) (f : Z → bool) x :
  existsb (λ '(seen, recent), (recent =? x) && f seen) (map_to_list R) = true ↔ ∃ k, R !! k = Some x ∧ f k = true.
Proof.
  rewrite existsb_exists. split.
  - intros ([k y] & Hk & [->%Z.eqb_eq Hf]%andb_true_iff). exists k. split; [|done]. by apply elem_of_map_to_list, list_elem_of_In.
  - intros (k & Hk & Hf). exists (k, x). rewrite Z.eqb_refl, Hf. split; [|done]. by apply list_elem_of_In, elem_of_map_to_list.
Qed.

Lemma recent_window s x :
  wf s (Number s) → Number s + 1 < two64 → let number := Number s + 1 in
  recent s number x ↔ ∃ k, Recents s !! k = Some x ∧ ((number <? limit_of (Signers s)) || (u64 (number - limit_of (Signers s)) <? k)) = true.
Proof.
  intros (Hn & _ & [Hw _]) Hb number. pose proof (limit_pos (Signers s)). unfold recent.
  setoid_rewrite shift_lookup. apply exist_proper. intros k. split; intros [Hk Hd]; split; try done; specialize (Hw _ _ Hk).
  - destruct (Z.ltb_spec number (limit_of (Signers s))); [done|]. apply Z.ltb_lt. rewrite u64_small by (unfold is_u64; lia). lia.
  - apply orb_true_iff in Hd as [Hd%Z.ltb_lt|Hd%Z.ltb_lt]; [lia|]. intros [Hl ->].
    rewrite u64_small in Hd by (unfold is_u64; lia). lia.
Qed.

(** Without the guard on [number < limit] the comparison wraps: then no block is late enough. *)
Lemma wrapped_window s x :
  wf s (Number s) → Number s + 1 < two64 → Z.of_nat (size (Signers s)) < 2 ^ 63 → let number := Number s + 1 in
  (∃ k, Recents s !! k = Some x ∧ (u64 (number - limit_of (Signers s)) <? k) = true) ↔
  recent s number x ∧ limit_of (Signers s) <= number.
Proof.
  intros Hwf Hb Hs. cbv zeta. rewrite (recent_window s x Hwf Hb). set (number := Number s + 1). destruct Hwf as (Hn & _ & [Hw _]).
  destruct (Z.ltb_spec number (limit_of (Signers s))) as [Hl|Hl]; cbn [orb]; [|split; [auto|by intros []]].
  split; [|lia]. intros (k & Hk & Hd%Z.ltb_lt). specialize (Hw _ _ Hk). exfalso.
  assert (E : u64 (number - limit_of (Signers s)) = number - limit_of (Signers s) + two64).
  { unfold u64. rewrite <- (Z_mod_plus_full _ 1), Z.mul_1_l. apply Z.mod_small.
    assert (limit_of (Signers s) <= 2 ^ 63) by (unfold limit_of; Z.to_euclidean_division_equations; lia). unfold two64 in *. lia. }
  assert (limit_of (Signers s) <= 2 ^ 62) by (unfold limit_of; Z.to_euclidean_division_equations; lia).
  rewrite E in Hd. unfold two64 in *. lia.
Qed.

End WithRecover.

End CliqueProofs.
