(* ===== verification/CliqueClaims.v ===== *)
(** * CliqueClaims: voting, progress, sealing and snapshots

    The properties of the proof-of-authority engine: the signers change by
    majority votes only, the chain can always go on, sealing and verifying
    agree, and [snapshot] finds the snapshot it is asked for. *)

From stdpp Require Import base gmap list sorting.
From Stdlib Require Import ZArith Lia.
From S2P Require Import Prelude Clique CliqueProofs.

Local Open Scope Z_scope.

Module CliqueClaims.
Import Clique CliqueProofs.

Section Snapshots.
Context (cfg : CliqueConfig) (ecrecover : Header → CR Z) {Cache DB : Type} {ST : Stores Cache DB} {SL : StoresLaws ST}.
Context (chain : ChainReader) (num : Z → Z).

(** A header hash determines the number of the block. *)
Definition numbered (h : Header) : Prop := h_Number h = num (h_Hash h) ∧ is_u64 (h_Number h).

Record chain_ok : Prop := {
  by_hash hash n h : GetHeader chain hash n = Some h → h_Hash h = hash ∧ h_Number h = n ∧ numbered h;
  by_number n h : GetHeaderByNumber chain n = Some h → h_Number h = n ∧ numbered h;
  genesis : GetHeaderByNumber chain 0 ≠ None }.

Definition kept (k : Z) (s : Snapshot) : Prop :=
  reachable cfg ecrecover s ∧ Hash s = k ∧ Number s = num k ∧ is_u64 (Number s).

Definition stores_ok (cache : Cache) (db : DB) : Prop :=
  (∀ k s, cache_get cache k = Some s → kept k s) ∧ (∀ k s, loadSnapshot db k = Some s → kept k s).

(** Headers from block [number] with hash [hash] backwards. *)
Fixpoint descends (number hash : Z) (hs : list Header) : Prop :=
  match hs with
  | [] => True
  | h :: hs => h_Number h = number ∧ h_Hash h = hash ∧ numbered h ∧ descends (number - 1) (ParentHash h) hs
  end.

(** What the search returns: a kept snapshot, under the hash that was asked
    for or of the canonical block of the number, and the headers in between. *)
Definition found (cache : Cache) (number hash : Z) (headers : list Header) (g : gathered) : Prop :=
  ∃ new, g_headers g = headers ++ new ∧ descends number hash new ∧ Z.of_nat (length new) <= number ∧
    kept (Hash (g_snap g)) (g_snap g) ∧ stores_ok cache (g_db g) ∧
    (new = [] → Hash (g_snap g) = hash ∨
      ∃ h, GetHeaderByNumber chain number = Some h ∧ Hash (g_snap g) = h_Hash h ∧ Number (g_snap g) = number).

Lemma stores_ok_store cache db s db' :
  stores_ok cache db → kept (Hash s) s → store db s = Ret db' → stores_ok cache db'.
Proof.
  intros [Hc Hd] Hs E. split; [done|]. intros k s' [[-> ->]|Hl]%(load_store _ _ _ _ _ E); auto.
Qed.

Lemma found_here cache db number hash headers s :
  0 <= number → stores_ok cache db → kept hash s → found cache number hash headers (mk_gathered s headers db).
Proof.
  intros Hn Hst Hk. pose proof Hk as (_ & E & _). exists []. cbn. rewrite app_nil_r, E. split_and!; auto. 
Qed.

Lemma found_back cache number hash headers h g :
  1 <= number → h_Number h = number → h_Hash h = hash → numbered h →
  found cache (number - 1) (ParentHash h) (headers ++ [h]) g → found cache number hash headers g.
Proof.
  intros Hn E1 E2 Hh (new & Eg & Hd & Hl & Hk & Hst & _). exists (h :: new). rewrite Eg, <- app_assoc.
  cbn [app length descends]. split_and!; try done. lia.
Qed.

Lemma found_checkpoint cache db number hash headers c r :
  chain_ok → stores_ok cache db → GetHeaderByNumber chain number = Some c →
  (signers ← checkpoint_signers (Extra c);
   let snap := newSnapshot number (h_Hash c) signers in
   db ← store db snap; Ret (mk_gathered snap headers db)) = Ret r → found cache number hash headers r.
Proof.
  intros Hch Hst Hc. destruct (by_number Hch _ _ Hc) as (En & Hnum & Hu). rewrite En in *.
  destruct (checkpoint_signers _) as [l|e|]; cbn [mbind outcome_bind]; try done.
  destruct (store _ _) as [db'|e|] eqn:Es; cbn [mbind outcome_bind]; try done. intros [= <-].
  assert (Hk : kept (h_Hash c) (newSnapshot number (h_Hash c) l)).
  { split_and!; try done. constructor. apply Hu. }
  exists []. cbn. rewrite app_nil_r. split_and!; [done|done|apply Hu|done| |].
  - by eapply stores_ok_store, Es.
  - right. by exists c.
Qed.

Lemma gather_spec fuel cache db number hash parents headers :
  chain_ok → stores_ok cache db → is_u64 number → Forall numbered parents → (Z.to_nat number < fuel)%nat →
  ∃ r, gather cfg chain fuel cache db number hash parents headers = Some r ∧ ∀ g, r = Ret g → found cache number hash headers g.
Proof.
  intros Hch Hst. revert number hash parents headers. induction fuel as [|fuel IH]; intros number hash parents headers Hu Hp Hf; [lia|].
  cbn [gather]. destruct (cache_get cache hash) as [s|] eqn:Ec.
  { eexists. split; [done|]. intros g [= <-]. apply found_here; [apply Hu|done|by apply (proj1 Hst)]. }
  destruct (if number mod checkpointInterval =? 0 then _ else None) as [s|] eqn:El.
  { eexists. split; [done|]. intros g [= <-]. apply found_here; [apply Hu|done|]. destruct (_ =? 0); [by apply (proj2 Hst)|done]. }
  match goal with |- ∃ r, (if _ then match _ with Some _ => _ | None => ?b end else _) = _ ∧ _ => set (back := b) end.
  assert (Hback : 1 <= number → ∃ r, back = Some r ∧ ∀ g, r = Ret g → found cache number hash headers g).
  { intros H1. assert (Hpred : u64 (number - 1) = number - 1) by (apply u64_small; unfold is_u64 in *; lia).
    assert (Hstep : ∀ h ps, h_Number h = number → h_Hash h = hash → numbered h → Forall numbered ps →
      ∃ r, gather cfg chain fuel cache db (number - 1) (ParentHash h) ps (headers ++ [h]) = Some r ∧ ∀ g, r = Ret g → found cache number hash headers g).
    { intros h ps E1 E2 Hh Hps. destruct (IH (number - 1) (ParentHash h) ps (headers ++ [h])) as (r & Er & Hr);
        [unfold is_u64 in *; lia|done|lia|]. exists r. split; [done|]. intros g Hg. eapply found_back; eauto. }
    unfold back. rewrite Hpred. destruct (last parents) as [h|] eqn:Elast.
    - destruct (Z.eqb_spec (h_Hash h) hash), (Z.eqb_spec (h_Number h) number); cbn [negb orb]; try (eexists; split; [done|by intros g]).
      rewrite Forall_forall in Hp. apply Hstep; try done; [|by apply Forall_take, Forall_forall].
      apply Hp. apply last_Some in Elast as [l ->]. set_solver.
    - destruct (GetHeader chain hash number) as [h|] eqn:Eh; [|eexists; split; [done|by intros g]].
      destruct (by_hash Hch _ _ _ Eh) as (? & ? & ?). by apply Hstep. }
  clearbody back. destruct (GetHeaderByNumber chain number) as [c|] eqn:Eg.
  - destruct ((number =? 0) || _) eqn:Eb; [eexists; split; [done|]; intros g Hg; by eapply found_checkpoint|].
    apply orb_false_iff in Eb as [Eb%Z.eqb_neq _]. apply Hback. unfold is_u64 in *. lia.
  - assert (number ≠ 0) by (intros ->; by apply (genesis Hch)).
    destruct ((number =? 0) || _); apply Hback; unfold is_u64 in *; lia.
Qed.

Lemma descends_snoc number hash l h : descends number hash (l ++ [h]) → h_Number h = number - Z.of_nat (length l).
Proof.
  revert number hash. induction l as [|h' l IH]; intros number hash; cbn [app descends length].
  - intros (-> & _). lia.
  - intros (_ & _ & _ & ->%IH). lia.
Qed.

(** The check of the numbers in [apply] pins the snapshot the headers start from. *)
Lemma descends_start number hash new s s' :
  is_u64 number → is_u64 (Number s) → descends number hash new → Z.of_nat (length new) <= number → new ≠ [] →
  apply cfg ecrecover s (reverse new) = Ret s' → Number s + Z.of_nat (length new) = number ∧ Hash s' = hash.
Proof.
  intros Hu Hus Hd Hl Hne. unfold apply. destruct new as [|h0 new]; [done|].
  rewrite reverse_cons, last_snoc. rewrite <- reverse_cons.
  destruct (contiguous _ _) eqn:Hc; cbn [negb]; [|done]. destruct (apply_headers _ _ _ _); cbn [mbind outcome_bind]; try done.
  intros [= <-]. split; [|cbn; apply Hd]. clear Hne. destruct (exists_last (l := h0 :: new)) as (l & h & El); [done|]. rewrite El in *.
  apply descends_snoc in Hd. rewrite reverse_snoc in Hc. cbn [contiguous] in Hc. apply andb_true_iff in Hc as [Hc%Z.eqb_eq _].
  rewrite length_app in *. cbn [length] in *. destruct (decide (Number s + 1 = two64)) as [E|E].
  - rewrite E in Hc. change (u64 two64) with 0 in Hc. lia.
  - rewrite u64_small in Hc by (unfold is_u64 in *; lia). lia.
Qed.

Lemma kept_apply number hash new s s' :
  is_u64 number → kept (Hash s) s → descends number hash new → Z.of_nat (length new) <= number → new ≠ [] →
  apply cfg ecrecover s (reverse new) = Ret s' → kept (Hash s') s' ∧ Number s' = number ∧ Hash s' = hash.
Proof.
  intros Hu (Hr & _ & _ & Hus) Hd Hl Hne E. destruct (descends_start _ _ _ _ _ Hu Hus Hd Hl Hne E) as [EN EH].
  pose proof (reachable_wf _ _ _ Hr) as Hw. assert (Hlt : Number s + Z.of_nat (length (reverse new)) < two64).
  { rewrite length_reverse. unfold is_u64 in Hu. lia. }
  destruct (apply_wf _ _ _ _ _ Hw Hlt E) as [_ EN']. rewrite length_reverse, EN in EN'.
  assert (Hnum : Number s' = num (Hash s')).
  { destruct new as [|h new]; [done|]. destruct Hd as (E1 & E2 & [E3 _] & _). congruence. }
  split; [|done]. split_and!; [by eapply reach_apply|done|done|by rewrite EN'].
Qed.

(** [snapshot] finds the snapshot of the block it is asked for. When the
    chain has a genesis, headers are numbered by their hashes and the cached
    and stored snapshots were computed by the engine, the search ends within
    [number + 1] rounds. A snapshot it returns is reachable, has the number
    asked for, and the hash asked for or that of the canonical block of the
    number; and the caches again hold only such snapshots. *)
Theorem snapshot_retrieves fuel cache db number hash parents :
  chain_ok → stores_ok cache db → Forall numbered parents → is_u64 number → num hash = number → (Z.to_nat number < fuel)%nat →
  ∃ r, snapshot cfg ecrecover chain fuel cache db number hash parents = Some r ∧
    ∀ s cache' db', r = Ret (s, cache', db') →
      reachable cfg ecrecover s ∧ Number s = number ∧ stores_ok cache' db' ∧
      (Hash s = hash ∨ ∃ h, GetHeaderByNumber chain number = Some h ∧ Hash s = h_Hash h).
Proof.
  intros Hch Hst Hp Hu En Hf. destruct (gather_spec fuel cache db number hash parents [] Hch Hst Hu Hp Hf) as (r & Er & Hr).
  unfold snapshot. rewrite Er. eexists. split; [done|]. intros s cache' db'.
  destruct r as [[s0 hs db0]|e|]; cbn [mbind outcome_bind]; try done.
  destruct (Hr _ eq_refl) as (new & Eg & Hd & Hl & Hk & Hst0 & Hnil). cbn in Eg, Hk, Hst0, Hnil. subst hs.
  destruct (apply _ _ _ _) as [s1|e|] eqn:Ea; cbn [mbind outcome_bind]; try done.
  assert (Hs1 : kept (Hash s1) s1 ∧ Number s1 = number ∧ (Hash s1 = hash ∨ ∃ h, GetHeaderByNumber chain number = Some h ∧ Hash s1 = h_Hash h)).
  { destruct (decide (new = [])) as [->|Hne].
    - injection Ea as <-. split; [done|]. destruct (Hnil eq_refl) as [E|(h & E1 & E2 & E3)]; [|split; [done|eauto]].
      split; [|by left]. destruct Hk as (_ & _ & -> & _). by rewrite E.
    - destruct (kept_apply _ _ _ _ _ Hu Hk Hd Hl Hne Ea) as (? & ? & ?). auto. }
  destruct Hs1 as (Hk1 & EN & EH).
  assert (Hcache : stores_ok (cache_add cache (Hash s1) s1) db0).
  { split; [|apply Hst0]. intros k s' [[-> ->]|Hg]%cache_get_add; [done|]. by apply (proj1 Hst0). }
  destruct (_ && _).
  - destruct (store db0 s1) as [db1|e|] eqn:Es; cbn [mbind outcome_bind]; try done. intros [= <- <- <-].
    split_and!; [apply Hk1|done|by eapply stores_ok_store, Es|done].
  - intros [= <- <- <-]. split_and!; [apply Hk1|done..].
Qed.

End Snapshots.
(** ** Producing a header that verifies *)

Section Engine.
Context (cfg : CliqueConfig) (ecrecover : Header → CR Z) (rehash : Header → Z).

(** The signers a checkpoint lists. *)
Definition listed (s : Snapshot) (number : Z) : bytes :=
  if number mod Epoch cfg =? 0 then concat (fixed_be AddressLength <$> signers s) else [].

Lemma prepare_extra_split s number extra :
  ∃ vanity, length vanity = extraVanity ∧ prepare_extra cfg s number extra = vanity ++ listed s number ++ replicate extraSeal Byte.x00.
Proof.
  unfold prepare_extra, listed. set (v := take _ _). exists v. split.
  - unfold v. rewrite length_take, length_app, length_replicate. lia.
  - destruct (_ =? 0); [by rewrite app_assoc|done].
Qed.

Lemma put_seal_extra h h' sig v l z :
  Extra h = v ++ l ++ z → length z = extraSeal → length sig = extraSeal → put_seal rehash h sig = Ret h' →
  Extra h' = v ++ l ++ sig.
Proof.
  intros E Hz Hs. unfold put_seal. rewrite E, !length_app, Hz, Hs.
  destruct (_ <? _)%nat; [done|]. intros [= <-]. cbn [Extra].
  replace (length v + (length l + extraSeal) - extraSeal)%nat with (length (v ++ l)) by (rewrite length_app; lia).
  rewrite (app_assoc v l), take_app_length, ?Nat.min_id, take_ge by (rewrite Hs; done).
  rewrite (drop_ge (_ ++ _)) by (rewrite length_app, Hz; done). by rewrite app_nil_r, <- app_assoc.
Qed.

Lemma listed_length s number : length (listed s number) = if number mod Epoch cfg =? 0 then (length (signers s) * AddressLength)%nat else 0%nat.
Proof.
  unfold listed. destruct (_ =? 0); [|done]. induction (signers s) as [|x l IH]; [done|].
  rewrite fmap_cons. cbn [concat length]. rewrite length_app, length_fixed_be, IH. done.
Qed.

Lemma choose_vote_ok s number proposals pick :
  ∃ a auth, choose_vote cfg s number proposals pick = (a, if (auth : bool) then nonceAuthVote else nonceDropVote) ∧
    (number mod Epoch cfg = 0 → a = 0 ∧ auth = false).
Proof.
  unfold choose_vote. destruct (Z.eqb_spec (number mod Epoch cfg) 0); [by exists 0, false|].
  destruct (_ !! _) as [[a auth]|]; [by exists a, auth|by exists 0, false].
Qed.

(** What [Prepare] settles; the last bytes of the extra data are the seal. *)
Record ready (s : Snapshot) (p : Header) (signer : Z) (h : Header) : Prop := {
  r_number : h_Number h = Number s + 1;
  r_parent : ParentHash h = h_Hash p;
  r_vote : ∃ auth, HNonce h = (if (auth : bool) then nonceAuthVote else nonceDropVote) ∧
             (h_Number h mod Epoch cfg = 0 → Coinbase h = 0 ∧ auth = false);
  r_time : u64 (Time p + Period cfg) <= Time h;
  r_extra : ∃ v sig, length v = extraVanity ∧ length sig = extraSeal ∧ Extra h = v ++ listed s (h_Number h) ++ sig;
  r_mix : MixDigest h = 0;
  r_turn : ∃ turn, inturn s (h_Number h) signer = Ret turn ∧ Difficulty h = Some (if (turn : bool) then diffInTurn else diffNoTurn) }.

Lemma Prepare_ready s p now signer proposals pick h h' :
  0 <= Number s → Number s + 1 < two64 → h_Number h = Number s + 1 → ParentHash h = h_Hash p →
  Prepare cfg (Ret s) (Some p) now signer proposals pick h = Ret h' → ready s p signer h'.
Proof.
  intros Hn Hb En Ep. unfold Prepare. cbn [mbind outcome_bind].
  destruct (choose_vote_ok s (h_Number h) proposals pick) as (a & auth & Ev & Hv). rewrite Ev.
  unfold CalcDifficulty. rewrite (u64_small (Number s + 1)) by (unfold is_u64; lia). rewrite <- En.
  destruct (inturn s (h_Number h) signer) as [turn|e|] eqn:Et; cbn [mbind outcome_bind]; try done. intros E.
  destruct (prepare_extra_split s (h_Number h) (Extra h)) as (v & Hl & Ee). rewrite Ee in E. inversion_clear E.
  split; try done; cbn [h_Number HNonce Coinbase Time Extra Difficulty].
  - by exists auth.
  - destruct (Z.ltb_spec (u64 (Time p + Period cfg)) now); lia.
  - exists v, (replicate extraSeal Byte.x00). by rewrite length_replicate.
  - by exists turn.
Qed.

Lemma put_seal_ready s p signer h sig h' :
  ready s p signer h → length sig = extraSeal → put_seal rehash h sig = Ret h' → ready s p signer h' ∧ UncleHash h' = UncleHash h ∧ Time h' = Time h.
Proof.
  intros [] Hs E. destruct r_extra0 as (v & z & Hv & Hz & Ee). pose proof (put_seal_extra _ _ _ _ _ _ Ee Hz Hs E) as Ee'.
  unfold put_seal in E. destruct (_ <? _)%nat; [done|]. inversion E; subst h'. cbn [h_Number Extra] in Ee'.
  split; [|done]. split; try done. exists v, sig. split_and!; try done.
Qed.

Lemma Finalize_ready s p signer u h : ready s p signer h → ready s p signer (Finalize u h).
Proof. intros []. by split. Qed.

Lemma Seal_ready s p signer txs signFn h h' :
  ready s p signer h → (∀ sig, signFn h = Ret sig → length sig = extraSeal) →
  Seal cfg rehash (Ret s) signer txs signFn h = Ret (Some h') →
  ready s p signer h' ∧ UncleHash h' = UncleHash h ∧ Time h' = Time h ∧ may_seal s (h_Number h') signer = Ret true.
Proof.
  intros Hr Hsig. unfold Seal. destruct (_ =? 0); [done|]. destruct (_ && _); [done|]. cbn [mbind outcome_bind].
  destruct (may_seal s (h_Number h) signer) as [[]|e|] eqn:Em; cbn [mbind outcome_bind negb]; try done.
  destruct (signFn h) as [sig|e|] eqn:Es; cbn [mbind outcome_bind]; try done.
  destruct (put_seal rehash h sig) as [h2|e|] eqn:Ep; cbn [mbind outcome_bind]; try done. intros [= <-].
  destruct (put_seal_ready _ _ _ _ _ _ Hr (Hsig _ eq_refl) Ep) as (Hr' & Eu & Et). split_and!; try done.
  by rewrite (r_number _ _ _ _ Hr'), <- (r_number _ _ _ _ Hr).
Qed.

Lemma ready_vote s p signer h : ready s p signer h → vote_of (HNonce h) ≠ None.
Proof. intros Hr. destruct (r_vote _ _ _ _ Hr) as ([] & -> & _); by vm_compute. Qed.

Lemma ready_standalone s p signer h now uncleHash :
  ready s p signer h → Time h <= now → UncleHash h = uncleHash → verifyStandalone cfg now uncleHash h = Ret tt.
Proof.
  intros Hr Ht <-. unfold verifyStandalone. pose proof (ready_vote _ _ _ _ Hr) as Hv. destruct (vote_of _) as [b|]; [clear Hv b|done].
  destruct (r_vote _ _ _ _ Hr) as (auth & En & Hc). destruct (r_extra _ _ _ _ Hr) as (v & sig & Hl & Hs & Ee).
  destruct (r_turn _ _ _ _ Hr) as (turn & _ & Ed). rewrite Ee, !length_app, listed_length, Hl, Hs, (r_mix _ _ _ _ Hr), Ed.
  rewrite (proj2 (Z.ltb_ge _ _) Ht), !Z.eqb_refl. cbn [negb andb].
  rewrite (proj2 (Nat.ltb_ge _ extraVanity)), (proj2 (Nat.ltb_ge _ (extraVanity + extraSeal))) by lia.
  assert (Hd : bool_decide (Some (if turn then diffInTurn else diffNoTurn) = Some diffInTurn ∨ Some (if turn then diffInTurn else diffNoTurn) = Some diffNoTurn) = true).
  { apply bool_decide_true. destruct turn; auto. }
  rewrite Hd, andb_false_r. destruct (Z.eqb_spec (h_Number h mod Epoch cfg) 0) as [E0|E0]; cbn [negb andb].
  - destruct (Hc E0) as [-> ->]. rewrite En, bool_decide_true by done. cbn [Z.eqb negb].
    replace (extraVanity + (length (signers s) * AddressLength + extraSeal) - extraVanity - extraSeal)%nat with (length (signers s) * AddressLength)%nat by lia.
    by rewrite Nat.Div0.mod_mul.
  - by replace (extraVanity + (0 + extraSeal) - extraVanity - extraSeal)%nat with 0%nat by lia.
Qed.

Lemma may_seal_spec s number x :
  x ∈ Signers s → ∃ b, may_seal s number x = Ret (negb b) ∧
    (b = true ↔ ∃ k, Recents s !! k = Some x ∧ ((number <? limit_of (Signers s)) || (u64 (number - limit_of (Signers s)) <? k)) = true).
Proof. intros Hx. unfold may_seal. rewrite bool_decide_true by done. eexists. split; [done|]. apply existsb_recents. Qed.

Lemma verifySeal_spec fakeDiff s h x :
  h_Number h ≠ 0 → ecrecover h = Ret x → x ∈ Signers s → ∃ b,
    (b = true ↔ ∃ k, Recents s !! k = Some x ∧ (u64 (h_Number h - limit_of (Signers s)) <? k) = true) ∧
    verifySeal ecrecover fakeDiff s h =
      if (b : bool) then Err errRecentlySigned
      else if (fakeDiff : bool) then Ret tt
      else turn ← inturn s (h_Number h) x;
        match Difficulty h with
        | None => Panic
        | Some d =>
            if (turn : bool) && negb (d =? diffInTurn) then Err errWrongDifficulty
            else if negb turn && negb (d =? diffNoTurn) then Err errWrongDifficulty
            else Ret tt
        end.
Proof.
  intros Hn Er Hx. eexists. split; [apply existsb_recents|]. unfold verifySeal.
  rewrite (proj2 (Z.eqb_neq _ 0) Hn), Er. cbn [mbind outcome_bind]. by rewrite bool_decide_true.
Qed.

(** A signer [Seal] lets sign passes the checks of [verifySeal], and of [apply]. *)
Lemma ready_seal s p signer h :
  0 <= Number s → ready s p signer h → may_seal s (h_Number h) signer = Ret true → ecrecover h = Ret signer →
  verifySeal ecrecover false s h = Ret tt.
Proof.
  intros Hn Hr Hm Er. assert (Hx : signer ∈ Signers s).
  { unfold may_seal in Hm. by case_bool_decide. }
  destruct (may_seal_spec s (h_Number h) signer Hx) as (b & Eb & Hb). rewrite Eb in Hm. destruct b; [done|].
  destruct (verifySeal_spec false s h signer) as (b' & Hb' & ->); [rewrite (r_number _ _ _ _ Hr); lia|done|done|].
  destruct b'; [|destruct (r_turn _ _ _ _ Hr) as (turn & -> & ->); by destruct turn].
  destruct (proj1 Hb' eq_refl) as (k & Hk & Hf). discriminate (proj2 Hb). exists k. by rewrite Hf, orb_true_r.
Qed.

Lemma ready_cascading s p signer h :
  0 <= Number s → h_Number p = Number s → ready s p signer h → may_seal s (h_Number h) signer = Ret true → ecrecover h = Ret signer →
  verifyCascadingFields cfg ecrecover false (Some p) (Ret s) h = Ret tt.
Proof.
  intros Hn Ep Hr Hm Er. unfold verifyCascadingFields. pose proof (r_number _ _ _ _ Hr) as En.
  rewrite (proj2 (Z.eqb_neq _ 0)) by lia. rewrite (proj2 (Z.eqb_eq (h_Number p) _)) by lia.
  rewrite (proj2 (Z.eqb_eq (h_Hash p) _)) by (by rewrite (r_parent _ _ _ _ Hr)). cbn [negb orb].
  rewrite (proj2 (Z.ltb_ge _ _) (r_time _ _ _ _ Hr)). cbn [mbind outcome_bind].
  rewrite (ready_seal s p signer h Hn Hr Hm Er). destruct (r_extra _ _ _ _ Hr) as (v & sig & Hl & Hs & Ee).
  assert (Ef : take (length (Extra h) - extraSeal - extraVanity) (drop extraVanity (Extra h)) = listed s (h_Number h)).
  { rewrite Ee, <- Hl, drop_app_length, Hl, !length_app, Hl, Hs.
    replace (extraVanity + (length (listed s (h_Number h)) + extraSeal) - extraSeal - extraVanity)%nat with (length (listed s (h_Number h))) by lia.
    apply take_app_length. }
  rewrite Ef. unfold listed. destruct (_ =? 0); cbn [andb]; [|done]. by rewrite bool_decide_true.
Qed.

(** C28: voting is sound. In every snapshot the engine can hold the standing
    votes are by current signers, for a change, one per signer and account; the
    tally counts exactly them; and the remembered signers are distinct, each of
    one of the last [limit - 1] blocks. A header that is applied to it changes
    the signers only by moving its beneficiary in or out, and only when more
    than half of the signers have a vote for that, the header's own included. *)
Theorem clique_voting_sound s :
  reachable cfg ecrecover s →
  polls (Signers s) (Votes s) (tally s) ∧ windowed (Signers s) (Number s) (Recents s) ∧
  ∀ h s', h_Number h = Number s + 1 → apply_header cfg ecrecover s h = Ret s' →
    Signers s' = Signers s ∨ elected cfg ecrecover s h s'.
Proof.
  intros Hr. pose proof (reachable_wf _ _ _ Hr) as Hw. split_and!; [apply Hw..|].
  intros h s' En E. by apply (apply_header_wf cfg ecrecover s h s' (Number s) Hw En E).
Qed.

(** C37: the chain can go on. In a snapshot with signers there is one whose next
    header is applied, whatever it votes for; and of every block exactly one
    signer is in turn. *)
Theorem clique_progress s :
  reachable cfg ecrecover s → Signers s ≠ ∅ →
  (∃ x, x ∈ Signers s ∧ ∀ h, h_Number h = Number s + 1 → ecrecover h = Ret x → vote_of (HNonce h) ≠ None →
    ∃ s', apply_header cfg ecrecover s h = Ret s') ∧
  (∃ x, x ∈ Signers s ∧ inturn s (Number s + 1) x = Ret true ∧
    ∀ y, y ∈ Signers s → inturn s (Number s + 1) y = Ret true → y = x).
Proof.
  intros Hr Hne. destruct (reachable_wf _ _ _ Hr) as (Hn & _ & Hw). split.
  - destruct (free_signer _ _ _ Hw Hne) as (x & Hx & Hf). exists x. split; [done|]. intros h En Er Hv.
    eapply apply_header_accepts; eauto. by rewrite En.
  - apply inturn_unique; [lia|done].
Qed.

(** Sealing, verifying and applying agree on recent signers. [Seal] waits
    exactly when applying the header would fail with [errRecentlySigned].
    [verifySeal] fails so exactly when applying does and the block number has
    reached [limit]: below it the subtraction wraps around and a header that
    cannot be applied passes. *)
Theorem seal_checks_agree s h x :
  reachable cfg ecrecover s → Number s + 1 < two64 → Z.of_nat (size (Signers s)) < 2 ^ 63 →
  h_Number h = Number s + 1 → ecrecover h = Ret x → x ∈ Signers s →
  (may_seal s (h_Number h) x = Ret false ↔ apply_header cfg ecrecover s h = Err errRecentlySigned) ∧
  (verifySeal ecrecover true s h = Err errRecentlySigned ↔
    apply_header cfg ecrecover s h = Err errRecentlySigned ∧ limit_of (Signers s) <= h_Number h).
Proof.
  intros Hr Hb Hs En Er Hx. pose proof (reachable_wf _ _ _ Hr) as Hw. pose proof Hw as [Hn _].
  rewrite (apply_header_recent cfg ecrecover s h x Er Hx).
  destruct (may_seal_spec s (h_Number h) x Hx) as (b & -> & Hb1).
  destruct (verifySeal_spec true s h x) as (b' & Hb2 & ->); [lia|done|done|]. rewrite En in *.
  rewrite <- (recent_window s x Hw Hb) in Hb1. rewrite (wrapped_window s x Hw Hb Hs) in Hb2.
  rewrite <- Hb2, <- Hb1. by destruct b, b'.
Qed.

(** C33: an honest signer's header is accepted. A header that [Prepare] fills in
    on top of the snapshot of its parent, that [Finalize] completes and [Seal]
    signs, passes every check of [verifyHeader] once its time has come, and is
    applied to the snapshot. *)
Theorem prepared_header_verifies s p now later uncleHash signer proposals pick txs signFn h h1 h2 :
  reachable cfg ecrecover s → Number s + 1 < two64 → h_Number p = Number s →
  h_Number h = Number s + 1 → ParentHash h = h_Hash p →
  Prepare cfg (Ret s) (Some p) now signer proposals pick h = Ret h1 →
  (∀ sig, signFn (Finalize uncleHash h1) = Ret sig → length sig = extraSeal) →
  Seal cfg rehash (Ret s) signer txs signFn (Finalize uncleHash h1) = Ret (Some h2) →
  ecrecover h2 = Ret signer → Time h1 <= later → VerifyForkHashes cfg h2 false = Ret tt →
  verifyHeader cfg ecrecover false later uncleHash (Some p) (Ret s) h2 = Ret tt ∧
  ∃ s', apply_header cfg ecrecover s h2 = Ret s'.
Proof.
  intros Hr Hb Ep En Eph EP Hsig ES Er Ht Hfork. pose proof (reachable_wf _ _ _ Hr) as Hw. pose proof Hw as [Hn _].
  pose proof (Finalize_ready _ _ _ uncleHash _ (Prepare_ready _ _ _ _ _ _ _ _ Hn Hb En Eph EP)) as Hr1.
  destruct (Seal_ready _ _ _ _ _ _ _ Hr1 Hsig ES) as (Hr2 & Eu & Et & Hm). cbn in Eu, Et.
  assert (Hx : signer ∈ Signers s) by (unfold may_seal in Hm; by case_bool_decide).
  split.
  - unfold verifyHeader. rewrite (ready_standalone s p signer h2 later uncleHash Hr2) by (done || lia).
    cbn [mbind outcome_bind]. rewrite Hfork. by apply (ready_cascading s p signer).
  - apply (apply_header_accepts cfg ecrecover s h2 signer Er (ready_vote _ _ _ _ Hr2) Hx). intros k Hk.
    destruct (may_seal_spec s (h_Number h2) signer Hx) as (b & Eb & Hb1). rewrite Hm in Eb. injection Eb as Eb.
    rewrite (r_number _ _ _ _ Hr2) in Hb1, Hk. rewrite <- (recent_window s signer Hw Hb) in Hb1.
    destruct b; [done|]. discriminate (proj2 Hb1). by exists k.
Qed.

End Engine.
(** ** Concrete chains *)

Definition demo_config : CliqueConfig := mk_config 15 30000 None 0.

(** The seal is the number of the account that signs. *)
Definition demo_recover (h : Header) : CR Z := Ret (be_decode (drop (length (Extra h) - extraSeal) (Extra h))).
Definition demo_seal (x : Z) : bytes := fixed_be extraSeal x.

Definition demo_header (number signer coinbase : Z) (nonce : bytes) : Header :=
  mk_Header number (100 + number) (99 + number) coinbase nonce (15 * number) (replicate extraVanity Byte.x00 ++ demo_seal signer) 0 7 (Some 2).

Definition snapshot_of (r : CR Snapshot) : Snapshot := match r with Ret s => s | _ => newSnapshot 0 0 [] end.

Definition returns {A} (r : CR A) : bool := match r with Ret _ => true | _ => false end.

Lemma snapshot_of_run r : returns r = true → r = Ret (snapshot_of r).
Proof. by destruct r. Qed.

(** Account 1, the sole signer, votes account 7 in. *)
Definition sole : Snapshot := newSnapshot 0 100 [1].
Definition joining : Header := demo_header 1 1 7 nonceAuthVote.
Definition joined : Snapshot := snapshot_of (apply_header demo_config demo_recover sole joining).

Lemma sole_reachable : reachable demo_config demo_recover sole.
Proof. by constructor. Qed.

Lemma joined_run : apply_header demo_config demo_recover sole joining = Ret joined ∧ (7 ∉ Signers sole) ∧ 7 ∈ Signers joined.
Proof.
  split; [apply snapshot_of_run; by vm_compute|]. split; [apply (bool_decide_unpack (7 ∉ Signers sole))|apply (bool_decide_unpack (7 ∈ Signers joined))]; by vm_compute.
Qed.

Lemma clique_voting_sound_witness : elected demo_config demo_recover sole joining joined.
Proof.
  destruct joined_run as (E & H1 & H2). destruct (clique_voting_sound demo_config demo_recover sole sole_reachable) as (_ & _ & H).
  destruct (H joining joined eq_refl E) as [Es|Es]; [|exact Es]. rewrite Es in H2. destruct (H1 H2).
Defined.

Lemma sole_signers : Signers sole ≠ ∅.
Proof. apply (bool_decide_unpack (Signers sole ≠ ∅)). by vm_compute. Qed.

Lemma clique_progress_witness : ∃ x, x ∈ Signers sole ∧ inturn sole 1 x = Ret true.
Proof.
  destruct (clique_progress demo_config demo_recover sole sole_reachable sole_signers) as [_ (x & Hx & Hi & _)].
  exists x. split; [exact Hx|exact Hi].
Defined.

(** The sole signer may vote itself out: no signer is left, and asking for the
    difficulty of the next block divides by zero. *)
Lemma sole_signer_leaves :
  ∃ s, apply_header demo_config demo_recover sole (demo_header 1 1 1 nonceDropVote) = Ret s ∧ Signers s = ∅ ∧ ∀ x, CalcDifficulty s x = Panic.
Proof.
  eexists. split; [apply snapshot_of_run; by vm_compute|]. set (s := snapshot_of _).
  assert (Es : Signers s = ∅) by (apply (bool_decide_unpack (Signers s = ∅)); by vm_compute).
  split; [done|]. intros x. unfold CalcDifficulty, inturn, signers. rewrite Es. done.
Qed.

(** Five signers; account 1 signs block 1 and block 2. *)
Definition five : Snapshot := newSnapshot 0 100 [1; 2; 3; 4; 5].
Definition five_1 : Snapshot := snapshot_of (apply demo_config demo_recover five [demo_header 1 1 0 nonceDropVote]).
Definition again : Header := demo_header 2 1 0 nonceDropVote.

Lemma five_1_reachable : reachable demo_config demo_recover five_1.
Proof. apply (reach_apply _ _ five [demo_header 1 1 0 nonceDropVote]); [by constructor|done|apply snapshot_of_run; by vm_compute]. Qed.

Lemma five_1_facts : Number five_1 + 1 = 2 ∧ Z.of_nat (size (Signers five_1)) = 5 ∧ 1 ∈ Signers five_1 ∧ may_seal five_1 2 1 = Ret false.
Proof. split_and!; [by vm_compute..| |by vm_compute]. apply (bool_decide_unpack (1 ∈ Signers five_1)). by vm_compute. Qed.

Lemma seal_checks_agree_witness :
  apply_header demo_config demo_recover five_1 again = Err errRecentlySigned ∧ verifySeal demo_recover true five_1 again ≠ Err errRecentlySigned.
Proof.
  destruct five_1_facts as (En & Es & Hx & Hm).
  destruct (seal_checks_agree demo_config demo_recover five_1 again 1 five_1_reachable) as [H1 H2].
  - rewrite En. reflexivity.
  - rewrite Es. reflexivity.
  - rewrite En. reflexivity.
  - reflexivity.
  - exact Hx.
  - split; [apply H1; exact Hm|]. intros Hv. destruct (proj1 H2 Hv) as [_ Hl]. unfold limit_of in Hl. rewrite Es in Hl. apply Hl. reflexivity.
Defined.

(** Account 1 prepares, completes and seals block 1. *)
Definition demo_parent : Header := mk_Header 0 100 0 0 nonceDropVote 1000 [] 0 7 None.
Definition demo_draft : Header := mk_Header 1 0 100 0 [] 0 [] 0 0 None.
Definition demo_prepared : CR Header := Prepare demo_config (Ret five) (Some demo_parent) 5000 1 [(9, true); (2, true)] 3 demo_draft.
Definition header_of (r : CR Header) : Header := match r with Ret h => h | _ => demo_draft end.
Definition demo_sealed : Header :=
  header_of (put_seal (λ _, 101) (Finalize 7 (header_of demo_prepared)) (demo_seal 1)).

Lemma demo_prepared_run : demo_prepared = Ret (header_of demo_prepared).
Proof. assert (E : returns demo_prepared = true) by (by vm_compute). by destruct demo_prepared. Qed.

Lemma demo_sealed_run :
  Seal demo_config (λ _, 101) (Ret five) 1 1 (λ _, Ret (demo_seal 1)) (Finalize 7 (header_of demo_prepared)) = Ret (Some demo_sealed) ∧
  demo_recover demo_sealed = Ret 1 ∧ Time (header_of demo_prepared) = 5000 ∧ VerifyForkHashes demo_config demo_sealed false = Ret tt.
Proof. split_and!; by vm_compute. Qed.

Lemma five_reachable : reachable demo_config demo_recover five.
Proof. by constructor. Qed.

Lemma prepared_header_verifies_witness :
  verifyHeader demo_config demo_recover false 6000 7 (Some demo_parent) (Ret five) demo_sealed = Ret tt.
Proof.
  destruct demo_sealed_run as (ES & Er & Et & Ef).
  refine (proj1 (prepared_header_verifies demo_config demo_recover (λ _, 101) five demo_parent 5000 6000 7 1 [(9, true); (2, true)] 3 1
    (λ _, Ret (demo_seal 1)) demo_draft (header_of demo_prepared) demo_sealed five_reachable _ _ _ _ demo_prepared_run _ ES Er _ Ef)).
  - reflexivity.
  - reflexivity.
  - reflexivity.
  - reflexivity.
  - intros sig E. injection E as <-. reflexivity.
  - rewrite Et. intros E. discriminate E.
Defined.

(** A chain of two blocks, nothing cached. *)
#[local] Instance map_stores : Stores (gmap Z Snapshot) (gmap Z Snapshot) := {|
  cache_get c k := c !! k; cache_add c k s := <[k := s]> c; loadSnapshot d k := d !! k; store d s := Ret (<[Hash s := s]> d) |}.

#[local] Instance map_stores_laws : StoresLaws map_stores.
Proof.
  split.
  - intros c k s k' s'. cbn. intros [[-> ->]|[_ ?]]%lookup_insert_Some; auto.
  - intros d s d' k' s'. cbn. intros [= <-] [[-> ->]|[_ ?]]%lookup_insert_Some; auto.
Qed.

Definition demo_genesis : Header := mk_Header 0 100 0 0 nonceDropVote 0 (replicate extraVanity Byte.x00 ++ fixed_be AddressLength 1 ++ demo_seal 0) 0 7 None.

Definition demo_chain : ChainReader := mk_ChainReader
  (λ hash number, if (hash =? 101) && (number =? 1) then Some joining else None)
  (λ number, if number =? 0 then Some demo_genesis else None).

Lemma demo_chain_ok : chain_ok demo_chain (λ hash, hash - 100).
Proof.
  split; cbn.
  - intros hash n h. destruct (Z.eqb_spec hash 101), (Z.eqb_spec n 1); cbn; try done. by intros [= <-]; subst.
  - intros n h. destruct (Z.eqb_spec n 0); [|done]. by intros [= <-]; subst.
  - done.
Qed.

Lemma no_stores : stores_ok demo_config demo_recover (λ hash, hash - 100) (∅ : gmap Z Snapshot) (∅ : gmap Z Snapshot).
Proof. split; intros k s Hk; cbn in Hk; by rewrite lookup_empty in Hk. Qed.

Lemma snapshot_retrieves_witness :
  ∃ r, snapshot demo_config demo_recover demo_chain 2 (∅ : gmap Z Snapshot) (∅ : gmap Z Snapshot) 1 101 [] = Some r ∧
    ∀ s cache db, r = Ret (s, cache, db) → reachable demo_config demo_recover s ∧ Number s = 1.
Proof.
  destruct (snapshot_retrieves demo_config demo_recover demo_chain (λ hash, hash - 100) 2 ∅ ∅ 1 101 []
    demo_chain_ok no_stores (Forall_nil_2 _) ltac:(unfold is_u64; vm_compute; split; [discriminate|reflexivity]) eq_refl ltac:(vm_compute; lia)) as (r & E & H).
  exists r. split; [exact E|]. intros s cache db Er. destruct (H s cache db Er) as (H1 & H2 & _). split; [exact H1|exact H2].
Defined.

(** The search applies block 1 to the genesis snapshot. *)
Lemma demo_found :
  match snapshot demo_config demo_recover demo_chain 2 (∅ : gmap Z Snapshot) (∅ : gmap Z Snapshot) 1 101 [] with
  | Some (Ret (s, _, _)) => (Number s, Hash s, signers s)
  | _ => (0, 0, [])
  end = (1, 101, [1; 7]).
Proof. by vm_compute. Qed.

End CliqueClaims.
