(* ===== verification/Chain.v ===== *)
(** * Chain: headers, blocks and the canonical chain

    The chain database (core/rawdb), the header chain (core/headerchain.go) and
    the block chain (core/blockchain.go): storing blocks, the canonical index,
    reorganisations.

    - A hash is a string of 32 bytes; a header carries its own. The key spaces
      of the chain database are the fields of [chaindb]; values are stored as
      they are read back, and no ancient store is attached. A batch is a change
      that is applied when it is written; a failing disk ends the process.
    - The LRU caches that repeat what the database holds are left out, like
      locks, metrics and logging. Feeds are the list of events sent.
    - A state to be written is what writing it does: the action its [Commit]
      performs on the node database, and its preimages.
    - The coin of [mrand.Float64() < 0.5] is an argument. *)

From stdpp Require Import base gmap list.
From Stdlib Require Import ZArith Lia.
From S2P Require Import Prelude Types CMdb TrieHash TrieDb.

Local Open Scope Z_scope.

Module Chain.

Abbreviation hash := bytes (only parsing).
Abbreviation zeroHash := TrieHash.zeroHash.

(** ** Data *)

Record Transaction := mk_tx { tx_Hash : bytes; tx_data : Types.txdata }.

Record Header := mk_Header { h_Hash : bytes; h_ParentHash : bytes; h_Number : Z; h_Difficulty : Z; h_Root : bytes; h_Time : Z }.

Record Block := mk_Block { b_header : Header; Transactions : list Transaction }.

Definition Hash (b : Block) : bytes := h_Hash (b_header b).
Definition ParentHash (b : Block) : bytes := h_ParentHash (b_header b).
Definition NumberU64 (b : Block) : Z := h_Number (b_header b).
Definition Difficulty (b : Block) : Z := h_Difficulty (b_header b).
Definition Root (b : Block) : bytes := h_Root (b_header b).

(** A log, with the mark that it was removed by a reorganisation. *)
Record Log := mk_log { l_data : bytes; Removed : bool }.

Record Receipt := mk_receipt { Logs : list Log }.

(** Transactions of [a] that are not in [b]. *)
Definition TxDifference (a b : list Transaction) : list Transaction :=
  filter (λ tx, tx_Hash tx ∉ map tx_Hash b) a.

(** ** The chain database (core/rawdb) *)

Record chaindb := mk_chaindb {
  headers : gmap (Z * bytes) Header; bodies : gmap (Z * bytes) (list Transaction); tds : gmap (Z * bytes) Z;
  receipts : gmap (Z * bytes) (list Receipt); canonical : gmap Z bytes; numbers : gmap bytes Z; lookups : gmap bytes Z;
  chain_preimages : gmap bytes bytes; headBlock : bytes; headHeader : bytes; headFastBlock : bytes }.

Definition ReadCanonicalHash (db : chaindb) (number : Z) : bytes := default zeroHash (canonical db !! number).

Definition WriteCanonicalHash (h : bytes) (number : Z) (db : chaindb) : chaindb :=
  mk_chaindb (headers db) (bodies db) (tds db) (receipts db) (<[number := h]> (canonical db)) (numbers db) (lookups db) (chain_preimages db) (headBlock db) (headHeader db) (headFastBlock db).

Definition DeleteCanonicalHash (number : Z) (db : chaindb) : chaindb :=
  mk_chaindb (headers db) (bodies db) (tds db) (receipts db) (delete number (canonical db)) (numbers db) (lookups db) (chain_preimages db) (headBlock db) (headHeader db) (headFastBlock db).

Definition ReadHeaderNumber (db : chaindb) (h : bytes) : option Z := numbers db !! h.

Definition ReadHeader (db : chaindb) (h : bytes) (number : Z) : option Header := headers db !! (number, h).
Definition HasHeader (db : chaindb) (h : bytes) (number : Z) : bool := bool_decide (is_Some (headers db !! (number, h))).

(** With the number of the hash. *)
Definition rawdb_WriteHeader (hd : Header) (db : chaindb) : chaindb :=
  mk_chaindb (<[(h_Number hd, h_Hash hd) := hd]> (headers db)) (bodies db) (tds db) (receipts db) (canonical db) (<[h_Hash hd := h_Number hd]> (numbers db)) (lookups db)
    (chain_preimages db) (headBlock db) (headHeader db) (headFastBlock db).

Definition DeleteHeader (h : bytes) (number : Z) (db : chaindb) : chaindb :=
  mk_chaindb (delete (number, h) (headers db)) (bodies db) (tds db) (receipts db) (canonical db) (delete h (numbers db)) (lookups db)
    (chain_preimages db) (headBlock db) (headHeader db) (headFastBlock db).

Definition ReadBody (db : chaindb) (h : bytes) (number : Z) : option (list Transaction) := bodies db !! (number, h).
Definition HasBody (db : chaindb) (h : bytes) (number : Z) : bool := bool_decide (is_Some (bodies db !! (number, h))).

Definition WriteBody (h : bytes) (number : Z) (body : list Transaction) (db : chaindb) : chaindb :=
  mk_chaindb (headers db) (<[(number, h) := body]> (bodies db)) (tds db) (receipts db) (canonical db) (numbers db) (lookups db) (chain_preimages db) (headBlock db) (headHeader db) (headFastBlock db).

Definition DeleteBody (h : bytes) (number : Z) (db : chaindb) : chaindb :=
  mk_chaindb (headers db) (delete (number, h) (bodies db)) (tds db) (receipts db) (canonical db) (numbers db) (lookups db) (chain_preimages db) (headBlock db) (headHeader db) (headFastBlock db).

Definition ReadTd (db : chaindb) (h : bytes) (number : Z) : option Z := tds db !! (number, h).

Definition WriteTd (h : bytes) (number td : Z) (db : chaindb) : chaindb :=
  mk_chaindb (headers db) (bodies db) (<[(number, h) := td]> (tds db)) (receipts db) (canonical db) (numbers db) (lookups db) (chain_preimages db) (headBlock db) (headHeader db) (headFastBlock db).

Definition DeleteTd (h : bytes) (number : Z) (db : chaindb) : chaindb :=
  mk_chaindb (headers db) (bodies db) (delete (number, h) (tds db)) (receipts db) (canonical db) (numbers db) (lookups db) (chain_preimages db) (headBlock db) (headHeader db) (headFastBlock db).

Definition HasReceipts (db : chaindb) (h : bytes) (number : Z) : bool := bool_decide (is_Some (receipts db !! (number, h))).

(** Receipts without their block are not returned. *)
Definition ReadReceipts (db : chaindb) (h : bytes) (number : Z) : option (list Receipt) :=
  rs ← receipts db !! (number, h); _ ← ReadBody db h number; Some rs.

Definition WriteReceipts (h : bytes) (number : Z) (rs : list Receipt) (db : chaindb) : chaindb :=
  mk_chaindb (headers db) (bodies db) (tds db) (<[(number, h) := rs]> (receipts db)) (canonical db) (numbers db) (lookups db) (chain_preimages db) (headBlock db) (headHeader db) (headFastBlock db).

Definition DeleteReceipts (h : bytes) (number : Z) (db : chaindb) : chaindb :=
  mk_chaindb (headers db) (bodies db) (tds db) (delete (number, h) (receipts db)) (canonical db) (numbers db) (lookups db) (chain_preimages db) (headBlock db) (headHeader db) (headFastBlock db).

Definition WriteHeadBlockHash (h : bytes) (db : chaindb) : chaindb :=
  mk_chaindb (headers db) (bodies db) (tds db) (receipts db) (canonical db) (numbers db) (lookups db) (chain_preimages db) h (headHeader db) (headFastBlock db).

Definition WriteHeadHeaderHash (h : bytes) (db : chaindb) : chaindb :=
  mk_chaindb (headers db) (bodies db) (tds db) (receipts db) (canonical db) (numbers db) (lookups db) (chain_preimages db) (headBlock db) h (headFastBlock db).

Definition WriteHeadFastBlockHash (h : bytes) (db : chaindb) : chaindb :=
  mk_chaindb (headers db) (bodies db) (tds db) (receipts db) (canonical db) (numbers db) (lookups db) (chain_preimages db) (headBlock db) (headHeader db) h.

Definition set_lookups (x : gmap bytes Z) (db : chaindb) : chaindb :=
  mk_chaindb (headers db) (bodies db) (tds db) (receipts db) (canonical db) (numbers db) x (chain_preimages db) (headBlock db) (headHeader db) (headFastBlock db).

(** The number zero is stored as an empty value, which reads as none. *)
Definition ReadTxLookupEntry (db : chaindb) (h : bytes) : option Z :=
  match lookups db !! h with
  | Some n => if n =? 0 then None else Some n
  | None => None
  end.

Definition WriteTxLookupEntries (b : Block) (db : chaindb) : chaindb :=
  set_lookups (foldl (λ m tx, <[tx_Hash tx := NumberU64 b]> m) (lookups db) (Transactions b)) db.

Definition DeleteTxLookupEntry (h : bytes) (db : chaindb) : chaindb := set_lookups (delete h (lookups db)) db.

Definition WritePreimages (ps : list (bytes * bytes)) (db : chaindb) : chaindb :=
  mk_chaindb (headers db) (bodies db) (tds db) (receipts db) (canonical db) (numbers db) (lookups db) (foldl (λ m '(k, v), <[k := v]> m) (chain_preimages db) ps)
    (headBlock db) (headHeader db) (headFastBlock db).

(** A block is its header and its body. *)
Definition ReadBlock (db : chaindb) (h : bytes) (number : Z) : option Block :=
  hd ← ReadHeader db h number; body ← ReadBody db h number; Some (mk_Block hd body).

Definition WriteBlock (b : Block) (db : chaindb) : chaindb :=
  rawdb_WriteHeader (b_header b) (WriteBody (Hash b) (NumberU64 b) (Transactions b) db).

(** ** The chain *)

Inductive chain_error :=
  | ErrUnknownAncestor | ErrPrunedAncestor | ErrFutureBlock | ErrKnownBlock | ErrBlacklistedHash | ErrNoGenesis
  | ErrInvalidOldChain | ErrInvalidNewChain | ErrNonContiguous | ErrFutureTime | ErrGhostState | ErrMissingParent | ErrMissingBlock | ErrNonExistent | ErrAborted
  | ErrState | ErrOther (code : Z).

Inductive WriteStatus := NonStatTy | CanonStatTy | SideStatTy.

Inductive event :=
  | ChainEvent (b : Block) (logs : list Log)
  | ChainSideEvent (b : Block)
  | ChainHeadEvent (b : Block)
  | LogsEvent (logs : list Log)
  | RemovedLogsEvent (logs : list Log).

Definition TriesInMemory : Z := 128.

Record CacheConfig := mk_config { TrieDirtyLimit : Z; TrieDirtyDisabled : bool; TrieTimeLimit : Z }.

(** A cache of blocks by their hashes, the most recent first. *)
Definition lru := list (bytes * Block).
Definition lru_remove (h : bytes) (l : lru) : lru := filter (λ x, x.1 ≠ h) l.
Definition lru_add (cap : nat) (b : Block) (l : lru) : lru := take cap ((Hash b, b) :: lru_remove (Hash b) l).
Definition lru_contains (h : bytes) (l : lru) : bool := bool_decide (h ∈ l.*1).

Section WithEnvironment.
Context `{ENV : TrieDb.Environment}.

(** [triegc]: roots and the numbers of their blocks; [gcproc]: the time spent
    since the last trie was persisted. *)
Record BlockChain := mk_bc {
  db : chaindb; CMdb : CMdb.database; triedb : TrieDb.Database; triegc : list (bytes * Z); gcproc : Z;
  genesisBlock : Block; currentHeader : Header; currentHeaderHash : bytes; currentBlock : Block; currentFastBlock : Block;
  futureBlocks : lru; badBlocks : lru; events : list event }.

Definition set_db (bc : BlockChain) x := mk_bc x (CMdb bc) (triedb bc) (triegc bc) (gcproc bc) (genesisBlock bc) (currentHeader bc) (currentHeaderHash bc) (currentBlock bc) (currentFastBlock bc) (futureBlocks bc) (badBlocks bc) (events bc).
Definition set_CMdb (bc : BlockChain) x := mk_bc (db bc) x (triedb bc) (triegc bc) (gcproc bc) (genesisBlock bc) (currentHeader bc) (currentHeaderHash bc) (currentBlock bc) (currentFastBlock bc) (futureBlocks bc) (badBlocks bc) (events bc).
Definition set_triedb (bc : BlockChain) x := mk_bc (db bc) (CMdb bc) x (triegc bc) (gcproc bc) (genesisBlock bc) (currentHeader bc) (currentHeaderHash bc) (currentBlock bc) (currentFastBlock bc) (futureBlocks bc) (badBlocks bc) (events bc).
Definition set_triegc (bc : BlockChain) x := mk_bc (db bc) (CMdb bc) (triedb bc) x (gcproc bc) (genesisBlock bc) (currentHeader bc) (currentHeaderHash bc) (currentBlock bc) (currentFastBlock bc) (futureBlocks bc) (badBlocks bc) (events bc).
Definition set_gcproc (bc : BlockChain) x := mk_bc (db bc) (CMdb bc) (triedb bc) (triegc bc) x (genesisBlock bc) (currentHeader bc) (currentHeaderHash bc) (currentBlock bc) (currentFastBlock bc) (futureBlocks bc) (badBlocks bc) (events bc).
Definition set_genesis (bc : BlockChain) x := mk_bc (db bc) (CMdb bc) (triedb bc) (triegc bc) (gcproc bc) x (currentHeader bc) (currentHeaderHash bc) (currentBlock bc) (currentFastBlock bc) (futureBlocks bc) (badBlocks bc) (events bc).
Definition set_header (bc : BlockChain) x y := mk_bc (db bc) (CMdb bc) (triedb bc) (triegc bc) (gcproc bc) (genesisBlock bc) x y (currentBlock bc) (currentFastBlock bc) (futureBlocks bc) (badBlocks bc) (events bc).
Definition set_block (bc : BlockChain) x := mk_bc (db bc) (CMdb bc) (triedb bc) (triegc bc) (gcproc bc) (genesisBlock bc) (currentHeader bc) (currentHeaderHash bc) x (currentFastBlock bc) (futureBlocks bc) (badBlocks bc) (events bc).
Definition set_fast (bc : BlockChain) x := mk_bc (db bc) (CMdb bc) (triedb bc) (triegc bc) (gcproc bc) (genesisBlock bc) (currentHeader bc) (currentHeaderHash bc) (currentBlock bc) x (futureBlocks bc) (badBlocks bc) (events bc).
Definition set_future (bc : BlockChain) x := mk_bc (db bc) (CMdb bc) (triedb bc) (triegc bc) (gcproc bc) (genesisBlock bc) (currentHeader bc) (currentHeaderHash bc) (currentBlock bc) (currentFastBlock bc) x (badBlocks bc) (events bc).
Definition set_bad (bc : BlockChain) x := mk_bc (db bc) (CMdb bc) (triedb bc) (triegc bc) (gcproc bc) (genesisBlock bc) (currentHeader bc) (currentHeaderHash bc) (currentBlock bc) (currentFastBlock bc) (futureBlocks bc) x (events bc).
Definition send (bc : BlockChain) (l : list event) := mk_bc (db bc) (CMdb bc) (triedb bc) (triegc bc) (gcproc bc) (genesisBlock bc) (currentHeader bc) (currentHeaderHash bc) (currentBlock bc) (currentFastBlock bc) (futureBlocks bc) (badBlocks bc) (events bc ++ l).

(** The outcome of an operation: the chain is kept on an error too. *)
Inductive res (A : Type) :=
  | Ok (bc : BlockChain) (a : A)
  | Fail (bc : BlockChain) (e : chain_error)
  | Crash
  | Unfinished.
#[global] Arguments Ok {A} bc a.
#[global] Arguments Fail {A} bc e.
#[global] Arguments Crash {A}.
#[global] Arguments Unfinished {A}.

Definition M (A : Type) : Type := BlockChain → res A.

Definition ret {A} (a : A) : M A := λ bc, Ok bc a.
Definition bind {A B} (m : M A) (k : A → M B) : M B := λ bc,
  match m bc with
  | Ok bc a => k a bc
  | Fail bc e => Fail bc e
  | Crash => Crash
  | Unfinished => Unfinished
  end.
Definition get : M BlockChain := λ bc, Ok bc bc.
Definition modify (f : BlockChain → BlockChain) : M unit := λ bc, Ok (f bc) tt.
Definition throw {A} (e : chain_error) : M A := λ bc, Fail bc e.
Definition some {A} (x : option A) : M A := λ bc, match x with Some a => Ok bc a | None => Crash end.

Local Notation "x <- m ;; k" := (bind m (λ x, k)) (at level 100, m at next level, right associativity).
Local Notation "m ;;; k" := (bind m (λ _, k)) (at level 100, right associativity).

(** [batch.Write()] *)
Definition write (batch : chaindb → chaindb) : M unit := modify (λ bc, set_db bc (batch (db bc))).

(** *** Reading (the caches apart) *)

Definition GetBlockNumber (d : chaindb) (h : bytes) : option Z := ReadHeaderNumber d h.
Definition GetTd (d : chaindb) (h : bytes) (number : Z) : option Z := ReadTd d h number.
Definition GetTdByHash (d : chaindb) (h : bytes) : option Z := n ← GetBlockNumber d h; GetTd d h n.
Definition GetHeader (d : chaindb) (h : bytes) (number : Z) : option Header := ReadHeader d h number.
Definition GetHeaderByHash (d : chaindb) (h : bytes) : option Header := n ← GetBlockNumber d h; GetHeader d h n.

Definition GetHeaderByNumber (d : chaindb) (number : Z) : option Header :=
  let h := ReadCanonicalHash d number in if decide (h = zeroHash) then None else GetHeader d h number.

Definition GetBlock (d : chaindb) (h : bytes) (number : Z) : option Block := ReadBlock d h number.
Definition GetBlockByHash (d : chaindb) (h : bytes) : option Block := n ← GetBlockNumber d h; GetBlock d h n.

Definition GetBlockByNumber (d : chaindb) (number : Z) : option Block :=
  let h := ReadCanonicalHash d number in if decide (h = zeroHash) then None else GetBlock d h number.

Definition HasBlock (d : chaindb) (h : bytes) (number : Z) : bool := HasBody d h number.

Definition HasFastBlock (d : chaindb) (h : bytes) (number : Z) : bool := HasBlock d h number && HasReceipts d h number.

Definition GetReceiptsByHash (d : chaindb) (h : bytes) : option (list Receipt) := n ← ReadHeaderNumber d h; ReadReceipts d h n.

(** The block with this hash and up to [n] - 1 ancestors. *)
Fixpoint blocks_from (d : chaindb) (n : nat) (h : bytes) (number : Z) : list Block :=
  match n with
  | O => []
  | S n => match GetBlock d h number with None => [] | Some b => b :: blocks_from d n (ParentHash b) (u64 (number - 1)) end
  end.

Definition GetBlocksFromHash (d : chaindb) (h : bytes) (n : nat) : list Block :=
  match GetBlockNumber d h with None => [] | Some number => blocks_from d n h number end.

(** Hashes of ancestors, down to the genesis block. *)
Fixpoint hashes_from (d : chaindb) (max : nat) (hd : Header) : list bytes :=
  match max with
  | O => []
  | S max =>
      match GetHeader d (h_ParentHash hd) (u64 (h_Number hd - 1)) with
      | None => []
      | Some p => h_ParentHash hd :: if h_Number p =? 0 then [] else hashes_from d max p
      end
  end.

Definition GetBlockHashesFromHash (d : chaindb) (h : bytes) (max : nat) : list bytes :=
  match GetHeaderByHash d h with None => [] | Some hd => hashes_from d max hd end.

(** The loop of [GetAncestor]; [max] is what is left of [maxNonCanonical]. *)
Fixpoint ancestor_from (d : chaindb) (ancestor : nat) (h : bytes) (number max : Z) : bytes * Z * Z :=
  match ancestor with
  | O => (h, number, max)
  | S a =>
      if decide (ReadCanonicalHash d number = h) then (ReadCanonicalHash d (number - Z.of_nat ancestor), number - Z.of_nat ancestor, max)
      else if max =? 0 then (zeroHash, 0, max)
      else match GetHeader d h number with
           | None => (zeroHash, 0, max - 1)
           | Some hd => ancestor_from d a (h_ParentHash hd) (number - 1) (max - 1)
           end
  end.

Definition GetAncestor (d : chaindb) (h : bytes) (number ancestor max : Z) : bytes * Z * Z :=
  if number <? ancestor then (zeroHash, 0, max)
  else if ancestor =? 1 then
    match GetHeader d h number with Some hd => (h_ParentHash hd, number - 1, max) | None => (zeroHash, 0, max) end
  else ancestor_from d (Z.to_nat ancestor) h number max.

(** *** Canonical markers *)

(** The loop [for i := first; ; i++] that deletes markers up to the first
    number without one; the number of markers is fuel enough. *)
Fixpoint delete_markers (fuel : nat) (d : chaindb) (i : Z) (batch : chaindb → chaindb) : chaindb → chaindb :=
  match fuel with
  | O => batch
  | S fuel =>
      if decide (ReadCanonicalHash d i = zeroHash) then batch
      else delete_markers fuel d (u64 (i + 1)) (λ x, DeleteCanonicalHash i (batch x))
  end.

Definition delete_above (d : chaindb) (number : Z) (batch : chaindb → chaindb) : chaindb → chaindb :=
  delete_markers (size (canonical d)) d (u64 (number + 1)) batch.

Definition writeHeadBlock (b : Block) : M unit :=
  bc <- get;;
  let updateHeads := negb (bool_decide (ReadCanonicalHash (db bc) (NumberU64 b) = Hash b)) in
  write (λ d,
    let d := WriteHeadBlockHash (Hash b) (WriteTxLookupEntries b (WriteCanonicalHash (Hash b) (NumberU64 b) d)) in
    if updateHeads then WriteHeadFastBlockHash (Hash b) (WriteHeadHeaderHash (Hash b) d) else d);;;
  (if updateHeads then modify (λ bc, set_fast (set_header bc (b_header b) (Hash b)) b) else ret tt);;;
  modify (λ bc, set_block bc b).

(** *** Reorganisation *)

(** The blocks from [b] down to the number, and the block there. *)
Fixpoint reduce (fuel : nat) (d : chaindb) (b : option Block) (number : Z) : option (list Block * option Block) :=
  match b with
  | None => Some ([], None)
  | Some x =>
      if NumberU64 x =? number then Some ([], b)
      else
        match fuel with
        | O => None
        | S fuel => '(l, r) ← reduce fuel d (GetBlock d (ParentHash x) (u64 (NumberU64 x - 1))) number; Some (x :: l, r)
        end
  end.

(** Both sides down to the common ancestor. *)
Fixpoint common_ancestor (fuel : nat) (d : chaindb) (old new : Block) : option (outcome chain_error (list Block * list Block * Block)) :=
  if decide (Hash old = Hash new) then Some (Ret ([], [], old))
  else
    match fuel with
    | O => None
    | S fuel =>
        match GetBlock d (ParentHash old) (u64 (NumberU64 old - 1)) with
        | None => Some (Err ErrInvalidOldChain)
        | Some old' =>
            match GetBlock d (ParentHash new) (u64 (NumberU64 new - 1)) with
            | None => Some (Err ErrInvalidNewChain)
            | Some new' =>
                r ← common_ancestor fuel d old' new';
                Some ('(o, n, c) ← r; Ret (old :: o, new :: n, c))
            end
        end
    end.

(** The logs of a block, marked as removed or as they are. *)
Definition collectLogs (d : chaindb) (removed : bool) (b : Block) : list Log :=
  match GetBlockNumber d (Hash b) with
  | None => []
  | Some number =>
      l ← default [] (ReadReceipts d (Hash b) number);
      (λ x, if removed then mk_log (l_data x) true else x) <$> Logs l
  end.

Definition nonempty {A} (ls : list (list A)) : list (list A) := filter (λ l, l ≠ []) ls.

(** The chains above the common ancestor, newest first. *)
Definition find_fork (fuel : nat) (d : chaindb) (oldBlock newBlock : Block) : option (outcome chain_error (list Block * list Block * Block)) :=
  '(o1, old, n1, new) ←
    (if NumberU64 newBlock <? NumberU64 oldBlock then
       '(l, old) ← reduce fuel d (Some oldBlock) (NumberU64 newBlock); Some (l, old, [], Some newBlock)
     else '(l, new) ← reduce fuel d (Some newBlock) (NumberU64 oldBlock); Some ([], Some oldBlock, l, new));
  match old, new with
  | None, _ => Some (Err ErrInvalidOldChain)
  | _, None => Some (Err ErrInvalidNewChain)
  | Some old, Some new =>
      r ← common_ancestor fuel d old new;
      Some ('(o2, n2, c) ← r; Ret (o1 ++ o2, n1 ++ n2, c))
  end.

Fixpoint each {A} (f : A → M unit) (l : list A) : M unit :=
  match l with
  | [] => ret tt
  | x :: l => f x;;; each f l
  end.

(** Block numbers are fuel enough: every round goes one block down. *)
Definition reorg (oldBlock newBlock : Block) : M unit :=
  bc <- get;;
  match find_fork (S (Z.to_nat (Z.max (NumberU64 oldBlock) (NumberU64 newBlock)))) (db bc) oldBlock newBlock with
  | None => λ _, Unfinished
  | Some (Err e) => throw e
  | Some Panic => λ _, Crash
  | Some (Ret (oldChain, newChain, _)) =>
      let deletedTxs := concat (map Transactions oldChain) in
      let deletedLogs := nonempty (map (collectLogs (db bc) true) oldChain) in
      let added := reverse (tail newChain) in
      each writeHeadBlock added;;;
      let rebirthLogs := nonempty (map (collectLogs (db bc) false) added) in
      let addedTxs := concat (map Transactions added) in
      bc <- get;;
      let batch := λ d, foldl (λ d tx, DeleteTxLookupEntry (tx_Hash tx) d) d (TxDifference deletedTxs addedTxs) in
      write (delete_above (db bc) (NumberU64 (currentBlock bc)) batch);;;
      (if decide (deletedLogs = []) then ret tt else modify (λ bc, send bc [RemovedLogsEvent (concat (reverse deletedLogs))]));;;
      (if decide (rebirthLogs = []) then ret tt else modify (λ bc, send bc [LogsEvent (concat rebirthLogs)]));;;
      modify (λ bc, send bc (ChainSideEvent <$> reverse oldChain))
  end.

(** *** Tries of recent blocks *)

(** An operation of the node database; [None] is an error. *)
Definition tries {A} (m : TrieDb.M A) : M (option A) := λ bc,
  match m (triedb bc) with
  | TrieDb.Ok d a => Ok (set_triedb bc d) (Some a)
  | TrieDb.Fail d _ => Ok (set_triedb bc d) None
  | TrieDb.Crash => Crash
  | TrieDb.Unfinished => Unfinished
  end.

Definition or_throw {A} (m : M (option A)) (e : chain_error) : M A := x <- m;; match x with Some a => ret a | None => throw e end.

(** [triegc.Pop()]: a root with the lowest block number. *)
Fixpoint pop_lowest (l : list (bytes * Z)) : option ((bytes * Z) * list (bytes * Z)) :=
  match l with
  | [] => None
  | x :: l =>
      match pop_lowest l with
      | None => Some (x, [])
      | Some (y, r) => if x.2 <=? y.2 then Some (x, l) else Some (y, x :: r)
      end
  end.

(** Roots of blocks up to [chosen] are given up; their number is fuel enough. *)
Fixpoint collect_tries (fuel : nat) (chosen : Z) : M unit :=
  match fuel with
  | O => ret tt
  | S fuel =>
      bc <- get;;
      match pop_lowest (triegc bc) with
      | None => ret tt
      | Some ((root, number), rest) =>
          if chosen <? number then modify (λ bc, set_triegc bc (rest ++ [(root, number)]))
          else modify (λ bc, set_triegc bc rest);;; tries (TrieDb.Dereference root);;; collect_tries fuel chosen
      end
  end.

(** The state is committed to the node database, and kept there for as long as
    its block is recent. *)
Definition commit_state (config : CacheConfig) (commit : TrieDb.M bytes) (b : Block) : M unit :=
  root <- or_throw (tries commit) ErrState;;
  if TrieDirtyDisabled config then or_throw (tries (TrieDb.Commit root)) ErrState
  else
    tries (TrieDb.Reference root zeroHash);;;
    modify (λ bc, set_triegc bc (triegc bc ++ [(root, NumberU64 b)]));;;
    if TriesInMemory <? NumberU64 b then
      bc <- get;;
      sz <- some (TrieDb.Size (triedb bc));;
      let limit := TrieDirtyLimit config * 1024 * 1024 in
      (if (limit <? sz.1) || (4 * 1024 * 1024 <? sz.2) then tries (TrieDb.Cap (limit - TrieDb.IdealBatchSize));;; ret tt else ret tt);;;
      let chosen := NumberU64 b - TriesInMemory in
      bc <- get;;
      (if TrieTimeLimit config <? gcproc bc then
         match GetHeaderByNumber (db bc) chosen with
         | None => ret tt
         | Some hd => tries (TrieDb.Commit (h_Root hd));;; modify (λ bc, set_gcproc bc 0)
         end
       else ret tt);;;
      bc <- get;;
      collect_tries (length (triegc bc)) chosen
    else ret tt.

(** *** Writing blocks *)

Definition writeBlockWithoutState (b : Block) (td : Z) : M unit :=
  write (λ d, WriteBlock b (WriteTd (Hash b) (NumberU64 b) td d)).

Definition writeKnownBlock (b : Block) : M unit :=
  bc <- get;;
  (if decide (ParentHash b = Hash (currentBlock bc)) then ret tt else reorg (currentBlock bc) b);;;
  writeHeadBlock b.

(** Whether a block of total difficulty [externTd] becomes the head. *)
Definition better (shouldPreserve : option (Block → bool)) (coin : bool) (externTd localTd : Z) (b current : Block) : bool :=
  if localTd <? externTd then true
  else if externTd =? localTd then
    if NumberU64 b <? NumberU64 current then true
    else if NumberU64 b =? NumberU64 current then
      let '(currentPreserve, blockPreserve) := match shouldPreserve with Some f => (f current, f b) | None => (false, false) end in
      negb currentPreserve && (blockPreserve || coin)
    else false
  else false.

Section WithKeccak.
Context (keccak : bytes → bytes) (config : CacheConfig) (shouldPreserve : option (Block → bool)).

Definition WriteAllCM (b : Block) : M unit := λ bc,
  match CMdb.WriteAllCM keccak (CMdb bc) (map tx_data (Transactions b)) with
  | Ret d => Ok (set_CMdb bc d) tt
  | _ => Crash
  end.

Definition writeBlockWithState (b : Block) (rs : list Receipt) (logs : list Log) (preimages : list (bytes * bytes)) (commit : TrieDb.M bytes) (emitHeadEvent coin : bool) : M WriteStatus :=
  bc <- get;;
  match GetTd (db bc) (ParentHash b) (u64 (NumberU64 b - 1)) with
  | None => throw ErrUnknownAncestor
  | Some ptd =>
      let localTd := GetTd (db bc) (Hash (currentBlock bc)) (NumberU64 (currentBlock bc)) in
      let externTd := Difficulty b + ptd in
      WriteAllCM b;;;
      write (λ d, WritePreimages preimages (WriteReceipts (Hash b) (NumberU64 b) rs (WriteBlock b (WriteTd (Hash b) (NumberU64 b) externTd d))));;;
      commit_state config commit b;;;
      localTd <- some localTd;;
      bc <- get;;
      let currentBlock := currentBlock bc in
      if better shouldPreserve coin externTd localTd b currentBlock then
        (if decide (ParentHash b = Hash currentBlock) then ret tt else reorg currentBlock b);;;
        writeHeadBlock b;;;
        modify (λ bc, set_future bc (lru_remove (Hash b) (futureBlocks bc)));;;
        modify (λ bc, send bc (ChainEvent b logs :: (if decide (logs = []) then [] else [LogsEvent logs]) ++ (if emitHeadEvent then [ChainHeadEvent b] else [])));;;
        ret CanonStatTy
      else
        modify (λ bc, set_future bc (lru_remove (Hash b) (futureBlocks bc)));;;
        modify (λ bc, send bc [ChainSideEvent b]);;;
        ret SideStatTy
  end.

End WithKeccak.

End WithEnvironment.
End Chain.
