(* ===== verification/ChainProofs.v ===== *)
(** * ChainProofs: forks and the canonical index

    The blocks of the database form a tree whose root is the genesis block. A
    reorganisation finds the highest common ancestor of two of its blocks, and
    what it writes makes the index follow the new branch. *)

From stdpp Require Import base gmap list.
From Stdlib Require Import ZArith Lia.
From S2P Require Import Prelude Types CMdb TrieHash TrieDb Chain.

Local Open Scope Z_scope.

Module ChainProofs.
Import Chain.

(** ** The tree of blocks *)

Definition stored (d : chaindb) (b : Block) : Prop := ReadBlock d (Hash b) (NumberU64 b) = Some b.

Definition parent (d : chaindb) (b p : Block) : Prop :=
  0 < NumberU64 b ∧ Hash p = ParentHash b ∧ NumberU64 p = NumberU64 b - 1 ∧ stored d p.

(** Blocks are linked to the genesis block [g] and stored under their numbers. *)
Record tree (g : Block) (d : chaindb) : Prop := {
  tr_key : ∀ n h b, ReadBlock d h n = Some b → NumberU64 b = n ∧ Hash b = h ∧ 0 <= n < 2 ^ 63 ∧ h ≠ zeroHash;
  tr_parent : ∀ b, stored d b → b = g ∨ ∃ p, parent d b p;
  tr_genesis : stored d g ∧ NumberU64 g = 0;
  tr_hash : ∀ b b', stored d b → stored d b' → Hash b = Hash b' → b = b';
}.

(** [a] is [b] or an ancestor of it. *)
Inductive anc (d : chaindb) : Block → Block → Prop :=
  | anc_refl b : anc d b b
  | anc_step b p a : parent d b p → anc d p a → anc d b a.

(** [l] leads from [b] down to [c], which it does not contain. *)
Inductive path (d : chaindb) : Block → list Block → Block → Prop :=
  | path_nil b : path d b [] b
  | path_cons b p l c : stored d b → parent d b p → path d p l c → path d b (b :: l) c.

Section Tree.
Context (g : Block) (d : chaindb) (T : tree g d).

Lemma stored_range b : stored d b → 0 <= NumberU64 b < 2 ^ 63 ∧ Hash b ≠ zeroHash.
Proof. intros (_ & _ & ? & ?)%(tr_key _ _ T). done. Qed.

Lemma parent_stored b p : parent d b p → stored d p.
Proof. by intros (_ & _ & _ & ?). Qed.

Lemma parent_fun b p p' : parent d b p → parent d b p' → p = p'.
Proof. intros (_ & H1 & N1 & S1) (_ & H2 & N2 & S2). unfold stored in *. rewrite H1, N1 in S1. rewrite H2, N2 in S2. congruence. Qed.

(** [GetBlock] finds the parent. *)
Lemma get_parent b p : stored d b → parent d b p → GetBlock d (ParentHash b) (u64 (NumberU64 b - 1)) = Some p.
Proof.
  intros Hb (Hn & Hh & Hp & Hs). pose proof (stored_range b Hb) as [? _]. rewrite u64_small by (unfold is_u64, two64; lia). unfold GetBlock. unfold stored in Hs. by rewrite <- Hh, <- Hp.
Qed.

Lemma has_parent b : stored d b → 0 < NumberU64 b → ∃ p, parent d b p.
Proof. intros Hb Hn. destruct (tr_parent _ _ T b Hb) as [->|?]; [|done]. destruct (tr_genesis _ _ T) as [_ E]. lia. Qed.

Lemma root_genesis b : stored d b → NumberU64 b = 0 → b = g.
Proof. intros Hb Hn. destruct (tr_parent _ _ T b Hb) as [->|(p & ? & _)]; [done|lia]. Qed.

Lemma anc_stored b a : anc d b a → stored d b → stored d a.
Proof. induction 1 as [|b p a Hp _ IH]; [done|]. intros _. by apply IH, (parent_stored b). Qed.

Lemma anc_number b a : anc d b a → NumberU64 a <= NumberU64 b.
Proof. induction 1 as [|b p a (_ & _ & ? & _) _ IH]; lia. Qed.

Lemma anc_same b a : anc d b a → NumberU64 a = NumberU64 b → a = b.
Proof. induction 1 as [|b p a Hp Ha IH]; [done|]. pose proof (anc_number _ _ Ha). destruct Hp as (_ & _ & ? & _). lia. Qed.

Lemma anc_fun b a a' : anc d b a → anc d b a' → NumberU64 a = NumberU64 a' → a = a'.
Proof.
  induction 1 as [b|b p a Hp Ha IH]; intros Ha' En; [symmetry; by apply anc_same|]. inversion Ha' as [|? p' ? Hp' Ha'']; subst.
  - pose proof (anc_number _ _ Ha). destruct Hp as (_ & _ & ? & _). lia.
  - assert (p' = p) as -> by (by eapply parent_fun). by apply IH.
Qed.

Lemma anc_exists b k : stored d b → 0 <= k <= NumberU64 b → ∃ a, anc d b a ∧ NumberU64 a = k.
Proof.
  intros Hb Hk. assert (Hm : ∃ m, NumberU64 b = k + Z.of_nat m) by (exists (Z.to_nat (NumberU64 b - k)); lia). destruct Hm as [m Em]. revert b Hb Hk Em.
  induction m as [|m IH]; intros b Hb Hk Em; [exists b; split; [constructor|lia]|]. destruct (has_parent b Hb) as [p Hp]; [lia|].
  pose proof Hp as (_ & _ & En & Hs). destruct (IH p Hs) as (a & Ha & Ea); [lia|lia|]. exists a. split; [by econstructor|done].
Qed.

(** ** Paths *)

Lemma path_anc b l c : path d b l c → ∀ a, anc d b a ↔ a ∈ l ∨ anc d c a.
Proof.
  induction 1 as [b|b p l c Hs Hp Hl IH]; intros a; [rewrite elem_of_nil; tauto|]. rewrite elem_of_cons. split.
  - intros Ha. inversion Ha as [|? p' ? Hp' Ha']; subst; [tauto|]. assert (p' = p) as -> by (by eapply parent_fun). apply IH in Ha'. tauto.
  - intros [[->|Ha]|Ha]; [constructor|..]; (econstructor; [exact Hp|]); apply IH; tauto.
Qed.

Lemma path_number b l c : path d b l c → NumberU64 b = NumberU64 c + Z.of_nat (length l).
Proof. induction 1 as [|b p l c Hs Hp Hl IH]; cbn; [lia|]. destruct Hp as (_ & _ & ? & _). lia. Qed.

Lemma path_in b l c a : path d b l c → a ∈ l → stored d a ∧ NumberU64 c < NumberU64 a <= NumberU64 b.
Proof.
  induction 1 as [|b p l c Hs Hp Hl IH]; [by intros ?%not_elem_of_nil|]. pose proof (path_number _ _ _ Hl) as E. destruct Hp as (_ & _ & En & _).
  intros [->|Ha]%elem_of_cons; [split; [done|lia]|]. destruct (IH Ha) as [? ?]. split; [done|lia].
Qed.

Lemma path_app b l c l' e : path d b l c → path d c l' e → path d b (l ++ l') e.
Proof. induction 1 as [|b p l c Hs Hp Hl IH]; intros H'; [done|]. cbn. econstructor; [done|done|]. by apply IH. Qed.

Lemma path_end b l c : path d b l c → stored d b → stored d c.
Proof. induction 1 as [|b p l c Hs Hp Hl IH]; [done|]. intros _. by apply IH, (parent_stored b). Qed.

(** ** Finding the fork *)

Lemma reduce_ok fuel : ∀ b n, stored d b → 0 <= n <= NumberU64 b → (Z.to_nat (NumberU64 b - n) <= fuel)%nat →
  ∃ l a, reduce fuel d (Some b) n = Some (l, Some a) ∧ path d b l a ∧ NumberU64 a = n.
Proof.
  induction fuel as [|fuel IH]; intros b n Hb Hn Hf; cbn [reduce].
  - destruct (Z.eqb_spec (NumberU64 b) n); [|lia]. exists [], b. split_and!; [done|constructor|done].
  - destruct (Z.eqb_spec (NumberU64 b) n) as [E|E]; [exists [], b; split_and!; [done|constructor|done]|]. destruct (has_parent b Hb) as [p Hp]; [lia|].
    rewrite (get_parent b p Hb Hp). destruct (IH p n) as (l & a & E' & Hl & En); [by apply (parent_stored b)|destruct Hp as (_ & _ & ? & _); lia..|].
    rewrite E'. cbn. exists (b :: l), a. split_and!; [done|by econstructor|done].
Qed.

Lemma same_number_hash b b' : stored d b → stored d b' → NumberU64 b = NumberU64 b' → Hash b = Hash b' → b = b'.
Proof. unfold stored. intros H1 H2 En Eh. rewrite En, Eh in H1. congruence. Qed.

Lemma common_ok fuel : ∀ old new, stored d old → stored d new → NumberU64 old = NumberU64 new → (Z.to_nat (NumberU64 old) <= fuel)%nat →
  ∃ o n c, common_ancestor fuel d old new = Some (Ret (o, n, c)) ∧ path d old o c ∧ path d new n c ∧ (∀ b, b ∈ o → b ∉ n).
Proof.
  induction fuel as [|fuel IH]; intros old new Ho Hn En Hf; cbn [common_ancestor].
  all: destruct (decide (Hash old = Hash new)) as [Eh|Eh]; [assert (new = old) as -> by (by apply same_number_hash); exists [], [], old; split_and!; [done|constructor|constructor|by intros b ?%not_elem_of_nil]|].
  all: pose proof (stored_range old Ho) as [? _].
  - exfalso. apply Eh. rewrite (root_genesis old Ho), (root_genesis new Hn) by lia. done.
  - destruct (decide (NumberU64 old = 0)) as [Ez|Hz]; [exfalso; apply Eh; rewrite (root_genesis old Ho), (root_genesis new Hn) by lia; done|].
    destruct (has_parent old Ho) as [p Hp]; [lia|]. destruct (has_parent new Hn) as [q Hq]; [lia|]. rewrite (get_parent _ _ Ho Hp), (get_parent _ _ Hn Hq).
    destruct (IH p q) as (o & n & c & E & H1 & H2 & HD); [by eapply parent_stored|by eapply parent_stored|destruct Hp as (_ & _ & ? & _), Hq as (_ & _ & ? & _); lia..|].
    rewrite E. cbn. exists (old :: o), (new :: n), c. split_and!; [done|by econstructor|by econstructor|]. destruct Hp as (_ & _ & Ep & _), Hq as (_ & _ & Eq & _).
    intros b [->|Hb]%elem_of_cons [->|Hb']%elem_of_cons; [done|destruct (path_in _ _ _ _ H2 Hb') as [_ ?]; lia|destruct (path_in _ _ _ _ H1 Hb) as [_ ?]; lia|by apply (HD b)].
Qed.

Lemma find_fork_ok old new fuel : stored d old → stored d new → (Z.to_nat (Z.max (NumberU64 old) (NumberU64 new)) <= fuel)%nat →
  ∃ o n c, find_fork fuel d old new = Some (Ret (o, n, c)) ∧ path d old o c ∧ path d new n c ∧ (∀ b, b ∈ o → b ∉ n).
Proof.
  intros Ho Hn Hf. pose proof (stored_range old Ho) as [? _]. pose proof (stored_range new Hn) as [? _]. unfold find_fork. destruct (Z.ltb_spec (NumberU64 new) (NumberU64 old)).
  - destruct (reduce_ok fuel old (NumberU64 new) Ho) as (l & a & -> & Hl & Ea); [lia|lia|]. cbn.
    destruct (common_ok fuel a new) as (o & n & c & -> & P1 & P2 & HD); [by eapply path_end|done|done|lia|]. cbn. exists (l ++ o), n, c. split_and!; [done|by eapply path_app|done|].
    intros b [Hb|Hb]%elem_of_app Hb'; [|by apply (HD b)]. destruct (path_in _ _ _ _ Hl Hb), (path_in _ _ _ _ P2 Hb'). lia.
  - destruct (reduce_ok fuel new (NumberU64 old) Hn) as (l & a & -> & Hl & Ea); [lia|lia|]. cbn.
    destruct (common_ok fuel old a) as (o & n & c & -> & P1 & P2 & HD); [done|by eapply path_end|done|lia|]. cbn. exists o, (l ++ n), c. split_and!; [done|done|by eapply path_app|].
    intros b Hb [Hb'|Hb']%elem_of_app; [|by apply (HD b)]. destruct (path_in _ _ _ _ Hl Hb'), (path_in _ _ _ _ P1 Hb). lia.
Qed.

End Tree.
(** ** What the operations write *)

Section Writes.
Context `{ENV : TrieDb.Environment}.

(** The part of the database that holds the blocks. *)
Definition same_blocks (d d' : chaindb) : Prop := headers d' = headers d ∧ bodies d' = bodies d ∧ tds d' = tds d ∧ numbers d' = numbers d.

Lemma same_blocks_read d d' h n : same_blocks d d' → ReadBlock d' h n = ReadBlock d h n.
Proof. intros (E1 & E2 & _). unfold ReadBlock, ReadHeader, ReadBody. by rewrite E1, E2. Qed.

Lemma same_stored d d' b : same_blocks d d' → stored d b ↔ stored d' b.
Proof. intros H. unfold stored. by rewrite (same_blocks_read d d' _ _ H). Qed.

Lemma same_parent d d' b p : same_blocks d d' → parent d b p ↔ parent d' b p.
Proof. intros H. unfold parent. by rewrite (same_stored d d' p H). Qed.

Lemma same_anc d d' b a : same_blocks d d' → anc d b a ↔ anc d' b a.
Proof. intros H. split; (induction 1 as [|b p a Hp _ IH]; [constructor|]); (eapply anc_step; [|exact IH]); by apply (same_parent d d' _ _ H). Qed.

Lemma same_tree g d d' : same_blocks d d' → tree g d → tree g d'.
Proof.
  intros H [T1 T2 T3 T4]. split.
  - intros n h b. rewrite (same_blocks_read d d' h n H). apply T1.
  - intros b Hb. apply (same_stored d d' b H) in Hb. destruct (T2 b Hb) as [?|(p & Hp)]; [by left|right]. exists p. by apply (same_parent d d' _ _ H).
  - by rewrite <- (same_stored d d' g H).
  - intros b b' Hb%(same_stored d d' b H) Hb'%(same_stored d d' b' H). by apply T4.
Qed.

Lemma same_blocks_trans d1 d2 d3 : same_blocks d1 d2 → same_blocks d2 d3 → same_blocks d1 d3.
Proof. intros (?&?&?&?) (?&?&?&?). split_and!; congruence. Qed.

(** Hashes of the transactions of a block. *)
Definition hashes (b : Block) : list bytes := map tx_Hash (Transactions b).

Fixpoint put_all (n : Z) (l : list bytes) (m : gmap bytes Z) : gmap bytes Z := match l with [] => m | h :: l => put_all n l (<[h := n]> m) end.

Lemma put_all_lookup n l : ∀ m h, put_all n l m !! h = if decide (h ∈ l) then Some n else m !! h.
Proof.
  induction l as [|x l IH]; intros m h; cbn; [by rewrite decide_False by apply not_elem_of_nil|]. rewrite IH. destruct (decide (h ∈ l)) as [Hl|Hl].
  - by rewrite decide_True by (by right).
  - destruct (decide (h = x)) as [->|Hn]; [by rewrite lookup_insert_eq, decide_True by (by left)|]. rewrite lookup_insert_ne by done. rewrite decide_False; [done|]. by intros [?|?]%elem_of_cons.
Qed.

Lemma WriteTxLookupEntries_lookups b d : lookups (WriteTxLookupEntries b d) = put_all (NumberU64 b) (hashes b) (lookups d).
Proof. unfold WriteTxLookupEntries, hashes. cbn. generalize (lookups d). induction (Transactions b) as [|tx l IH]; intros m; cbn; [done|]. apply IH. Qed.

(** The head and the index after [writeHeadBlock]. *)
Lemma writeHeadBlock_ok b bc : ∃ bc', writeHeadBlock b bc = Ok bc' tt ∧ currentBlock bc' = b ∧ same_blocks (db bc) (db bc') ∧
  canonical (db bc') = <[NumberU64 b := Hash b]> (canonical (db bc)) ∧ lookups (db bc') = put_all (NumberU64 b) (hashes b) (lookups (db bc)) ∧
  headBlock (db bc') = Hash b ∧ triedb bc' = triedb bc ∧ triegc bc' = triegc bc ∧ CMdb bc' = CMdb bc ∧ genesisBlock bc' = genesisBlock bc ∧ receipts (db bc') = receipts (db bc).
Proof.
  unfold writeHeadBlock, bind, get, write, modify. destruct (negb _); eexists; (split; [reflexivity|]); cbn; split_and!; try done; apply (WriteTxLookupEntries_lookups b (WriteCanonicalHash (Hash b) (NumberU64 b) (db bc))).
Qed.

(** A list of blocks made canonical, lowest first. *)
Fixpoint mark_all (l : list Block) (m : gmap Z bytes) : gmap Z bytes := match l with [] => m | b :: l => mark_all l (<[NumberU64 b := Hash b]> m) end.
Fixpoint index_all (l : list Block) (m : gmap bytes Z) : gmap bytes Z := match l with [] => m | b :: l => index_all l (put_all (NumberU64 b) (hashes b) m) end.

Lemma writes_ok l : ∀ bc, ∃ bc', each writeHeadBlock l bc = Ok bc' tt ∧ currentBlock bc' = default (currentBlock bc) (last l) ∧ same_blocks (db bc) (db bc') ∧
  canonical (db bc') = mark_all l (canonical (db bc)) ∧ lookups (db bc') = index_all l (lookups (db bc)) ∧
  triedb bc' = triedb bc ∧ triegc bc' = triegc bc ∧ CMdb bc' = CMdb bc ∧ genesisBlock bc' = genesisBlock bc.
Proof.
  induction l as [|b l IH]; intros bc; cbn [each]; [exists bc; by split_and!|]. unfold bind at 1. destruct (writeHeadBlock_ok b bc) as (bc1 & -> & C1 & S1 & E1 & E2 & _ & E3 & E4 & E5 & E6 & _).
  destruct (IH bc1) as (bc' & -> & C2 & S2 & F1 & F2 & F3 & F4 & F5 & F6). exists bc'. split_and!; try congruence.
  - rewrite C2, C1. destruct l as [|x l]; [done|]. cbn [last]. by destruct (last (x :: l)) eqn:E; [|apply last_None in E].
  - by eapply same_blocks_trans.
  - rewrite F1, E1. done.
  - rewrite F2, E2. done.
Qed.

Lemma mark_all_other l : ∀ m k, (∀ b, b ∈ l → NumberU64 b ≠ k) → mark_all l m !! k = m !! k.
Proof.
  induction l as [|b l IH]; intros m k H; cbn; [done|]. rewrite IH by (intros x Hx; apply H; by right). apply lookup_insert_ne. apply H. by left.
Qed.

(** Blocks of different numbers, and of different transactions. *)
Lemma mark_all_in l b : b ∈ l → (∀ b', b' ∈ l → NumberU64 b' = NumberU64 b → b' = b) → ∀ m, mark_all l m !! NumberU64 b = Some (Hash b).
Proof.
  intros Hb Hu. induction l as [|x l IH]; [by apply not_elem_of_nil in Hb|]. intros m. cbn. destruct (decide (Exists (λ y, NumberU64 y = NumberU64 b) l)) as [Hl|Hl].
  - apply Exists_exists in Hl as (y & Hy & E). assert (y = b) as -> by (apply Hu; [by right|done]). apply IH; [done|]. intros b' Hb'. apply Hu. by right.
  - assert (Hno : ∀ y, y ∈ l → NumberU64 y ≠ NumberU64 b) by (intros y Hy E; apply Hl, Exists_exists; by exists y).
    apply elem_of_cons in Hb as [->|Hb]; [|by destruct (Hno b Hb)]. rewrite mark_all_other by done. apply lookup_insert_eq.
Qed.

Lemma index_all_other l : ∀ m h, (∀ b, b ∈ l → h ∉ hashes b) → index_all l m !! h = m !! h.
Proof.
  induction l as [|b l IH]; intros m h H; cbn; [done|]. rewrite IH by (intros x Hx; apply H; by right). rewrite put_all_lookup, decide_False; [done|]. apply H. by left.
Qed.

Lemma index_all_in l b h : b ∈ l → h ∈ hashes b → (∀ b', b' ∈ l → h ∈ hashes b' → b' = b) → ∀ m, index_all l m !! h = Some (NumberU64 b).
Proof.
  intros Hb Hh Hu. induction l as [|x l IH]; [by apply not_elem_of_nil in Hb|]. intros m. cbn. destruct (decide (Exists (λ y, h ∈ hashes y) l)) as [Hl|Hl].
  - apply Exists_exists in Hl as (y & Hy & E). assert (y = b) as -> by (apply Hu; [by right|done]). apply IH; [done|]. intros b' Hb'. apply Hu. by right.
  - assert (Hno : ∀ y, y ∈ l → h ∉ hashes y) by (intros y Hy E; apply Hl, Exists_exists; by exists y).
    apply elem_of_cons in Hb as [->|Hb]; [|by destruct (Hno b Hb)]. by rewrite index_all_other, put_all_lookup, decide_True.
Qed.

(** Deleting markers. *)
Lemma delete_markers_ok m : ∀ fuel d i (batch : chaindb → chaindb) x, (m <= fuel)%nat → 0 <= i → i + Z.of_nat m < two64 →
  (∀ k, i <= k < i + Z.of_nat m → ReadCanonicalHash d k ≠ zeroHash) → ReadCanonicalHash d (i + Z.of_nat m) = zeroHash →
  let y := delete_markers fuel d i batch x in
  same_blocks (batch x) y ∧ lookups y = lookups (batch x) ∧ receipts y = receipts (batch x) ∧
  ∀ k, canonical y !! k = if decide (i <= k < i + Z.of_nat m) then None else canonical (batch x) !! k.
Proof.
  induction m as [|m IH]; intros fuel d i batch x Hf Hi Hlt Hnz Hz.
  - rewrite Z.add_0_r in Hz. assert (delete_markers fuel d i batch = batch) as -> by (destruct fuel; cbn [delete_markers]; [done|by rewrite decide_True]).
    cbv zeta. split_and!; try done. intros k. by rewrite decide_False by lia.
  - destruct fuel as [|fuel]; [lia|]. cbn [delete_markers]. rewrite decide_False by (apply Hnz; lia). rewrite u64_small by (unfold is_u64; lia).
    destruct (IH fuel d (i + 1) (λ x, DeleteCanonicalHash i (batch x)) x) as (S1 & L1 & R1 & C1); [lia|lia|lia|intros k Hk; apply Hnz; lia|by replace (i + 1 + Z.of_nat m) with (i + Z.of_nat (S m)) by lia|].
    cbv zeta. split_and!; [exact S1|exact L1|exact R1|]. intros k. rewrite C1. cbn. destruct (decide (i + 1 <= k < i + 1 + Z.of_nat m)) as [?|Hn]; [by rewrite decide_True by lia|].
    destruct (decide (i = k)) as [->|Hk]; [rewrite lookup_delete_eq, decide_True by lia; done|]. rewrite lookup_delete_ne by done. by rewrite decide_False by lia.
Qed.

(** ** The canonical index *)

(** The index follows the branch of [b]. *)
Definition follows (d : chaindb) (b : Block) : Prop := ∀ a, anc d b a → canonical d !! NumberU64 a = Some (Hash a).

(** Nothing is above [b]. *)
Definition top (d : chaindb) (b : Block) : Prop := ∀ k, NumberU64 b < k → canonical d !! k = None.

Definition in_range (d : chaindb) : Prop := ∀ k h, canonical d !! k = Some h → 0 <= k < 2 ^ 63.

(** The transactions of the branch are found at their blocks, and no others. *)
Definition indexed (d : chaindb) (b : Block) : Prop := ∀ h n, lookups d !! h = Some n ↔ ∃ a, anc d b a ∧ NumberU64 a = n ∧ h ∈ hashes a.

(** No branch has a transaction twice. *)
Definition unique (d : chaindb) : Prop := ∀ b a h, stored d b → anc d b a → h ∈ hashes b → h ∈ hashes a → a = b.

Lemma anc_below d b a a' : anc d b a → anc d b a' → NumberU64 a' <= NumberU64 a → anc d a a'.
Proof.
  induction 1 as [b|b p a Hp Ha IH]; intros Ha' Hn; [done|]. inversion Ha' as [|? p' ? Hp' Ha'']; subst.
  - pose proof (anc_number _ _ _ Ha). destruct Hp as (_ & _ & ? & _). lia.
  - assert (p' = p) as -> by (by eapply parent_fun). by apply IH.
Qed.

Lemma unique_branch d b a a' h : unique d → stored d b → anc d b a → anc d b a' → h ∈ hashes a → h ∈ hashes a' → a = a'.
Proof.
  intros HU Hb Ha Ha' Hh Hh'. destruct (Z.le_ge_cases (NumberU64 a') (NumberU64 a)) as [Hn|Hn].
  - symmetry. eapply (HU a a' h); [by eapply anc_stored|by eapply anc_below|done|done].
  - eapply (HU a' a h); [by eapply anc_stored|by eapply anc_below|done|done].
Qed.

(** The markers above a number. *)
Lemma markers_above d i : in_range d → 0 <= i <= 2 ^ 63 →
  ∃ m, (m <= size (canonical d))%nat ∧ i + Z.of_nat m < two64 ∧ (∀ k, i <= k < i + Z.of_nat m → ReadCanonicalHash d k ≠ zeroHash) ∧ ReadCanonicalHash d (i + Z.of_nat m) = zeroHash.
Proof.
  intros HR Hi. assert (HG : ∀ n j, ReadCanonicalHash d (j + Z.of_nat n) = zeroHash → ∃ m, (m <= n)%nat ∧ (∀ k, j <= k < j + Z.of_nat m → ReadCanonicalHash d k ≠ zeroHash) ∧ ReadCanonicalHash d (j + Z.of_nat m) = zeroHash).
  { induction n as [|n IH]; intros j Hz; [exists 0%nat; split_and!; [done|lia|done]|]. destruct (decide (ReadCanonicalHash d j = zeroHash)) as [E|E]; [exists 0%nat; split_and!; [lia|lia|by rewrite Z.add_0_r]|].
    destruct (IH (j + 1)) as (m & Hm & H1 & H2); [by replace (j + 1 + Z.of_nat n) with (j + Z.of_nat (S n)) by lia|]. exists (S m). split_and!; [lia| |by replace (j + Z.of_nat (S m)) with (j + 1 + Z.of_nat m) by lia].
    intros k Hk. destruct (decide (k = j)) as [->|?]; [done|]. apply H1. lia. }
  destruct (HG (Z.to_nat (2 ^ 63 - i)) i) as (m & Hm & H1 & H2).
  { unfold ReadCanonicalHash. rewrite Z2Nat.id by lia. replace (i + (2 ^ 63 - i)) with (2 ^ 63) by lia. destruct (canonical d !! (2 ^ 63)) as [h|] eqn:E; [|done]. apply HR in E. lia. }
  exists m. assert (Hlt : i + Z.of_nat m < two64) by (unfold two64; lia). split_and!; [|done|done|done].
  assert (Hsub : list_to_set (seqZ i (Z.of_nat m)) ⊆@{gset Z} dom (canonical d)).
  { intros k. rewrite elem_of_list_to_set, elem_of_seqZ, elem_of_dom. intros Hk. specialize (H1 k Hk). unfold ReadCanonicalHash in H1. destruct (canonical d !! k); [by eexists|done]. }
  apply subseteq_size in Hsub. rewrite size_list_to_set, length_seqZ, size_dom in Hsub by apply NoDup_seqZ. lia.
Qed.

(** What a reorganisation leaves in the index. *)
Lemma deletes_lookup l : ∀ d h, lookups (foldl (λ d tx, DeleteTxLookupEntry (tx_Hash tx) d) d l) !! h = (if decide (h ∈ map tx_Hash l) then None else lookups d !! h) ∧
  same_blocks d (foldl (λ d tx, DeleteTxLookupEntry (tx_Hash tx) d) d l) ∧ canonical (foldl (λ d tx, DeleteTxLookupEntry (tx_Hash tx) d) d l) = canonical d.
Proof.
  induction l as [|tx l IH]; intros d h; cbn [foldl map]; [by rewrite decide_False by apply not_elem_of_nil|]. destruct (IH (DeleteTxLookupEntry (tx_Hash tx) d) h) as (E & HS & HC). rewrite E. split; [|done]. cbn.
  destruct (decide (h ∈ map tx_Hash l)) as [?|Hl]; [by rewrite decide_True by (by right)|]. destruct (decide (h = tx_Hash tx)) as [->|Hn]; [by rewrite lookup_delete_eq, decide_True by (by left)|].
  rewrite lookup_delete_ne by done. rewrite decide_False; [done|]. by intros [?|?]%elem_of_cons.
Qed.

Lemma difference_in a b h : h ∈ map tx_Hash (TxDifference a b) ↔ h ∈ map tx_Hash a ∧ h ∉ map tx_Hash b.
Proof.
  unfold TxDifference. change (map tx_Hash ?l) with (tx_Hash <$> l). rewrite !list_elem_of_fmap. setoid_rewrite list_elem_of_filter. split.
  - intros (tx & -> & Hn & Ha). split; [by exists tx|]. intros (y & E & Hy). apply Hn. rewrite E. by apply list_elem_of_fmap_2.
  - intros [(tx & -> & Ha) Hn]. exists tx. split_and!; [done| |done]. intros Hb. apply Hn. by apply list_elem_of_fmap in Hb.
Qed.

Lemma concat_hashes l h : h ∈ map tx_Hash (concat (map Transactions l)) ↔ ∃ b, b ∈ l ∧ h ∈ hashes b.
Proof.
  induction l as [|b l IH]; cbn; [split; [by intros ?%not_elem_of_nil|by intros (? & ?%not_elem_of_nil & _)]|]. rewrite map_app, elem_of_app, IH. split.
  - intros [Hb|(x & Hx & Hh)]; [exists b; split; [by left|done]|exists x; split; [by right|done]].
  - intros (x & [->|Hx]%elem_of_cons & Hh); [by left|right; by exists x].
Qed.

(** The parts that no reorganisation touches. *)
Definition frame (bc bc' : BlockChain) : Prop :=
  same_blocks (db bc) (db bc') ∧ triedb bc' = triedb bc ∧ triegc bc' = triegc bc ∧ CMdb bc' = CMdb bc ∧ genesisBlock bc' = genesisBlock bc.

Lemma mark_all_range l m : (∀ b, b ∈ l → 0 <= NumberU64 b < 2 ^ 63) → (∀ k h, m !! k = Some h → 0 <= k < 2 ^ 63) → ∀ k h, mark_all l m !! k = Some h → 0 <= k < 2 ^ 63.
Proof.
  revert m. induction l as [|b l IH]; intros m Hl Hm k h; cbn; [apply Hm|]. apply IH; [intros x Hx; apply Hl; by right|]. intros k' h'. destruct (decide (k' = NumberU64 b)) as [->|Hn]; [intros _; apply Hl; by left|].
  rewrite lookup_insert_ne by done. apply Hm.
Qed.

Lemma last_reverse_tail {A} (l : list A) : last (reverse (tail l)) = head (tail l).
Proof. by rewrite last_reverse. Qed.

#[export] Instance some_hashes_dec (h : bytes) (l : list Block) : Decision (∃ b, b ∈ l ∧ h ∈ hashes b).
Proof. refine (cast_if (decide (Exists (λ b, h ∈ hashes b) l))); by rewrite <- Exists_exists. Defined.

Record reorganised (bc bc' : BlockChain) (o n : list Block) (m : nat) : Prop := {
  ro_frame : frame bc bc';
  ro_block : currentBlock bc' = default (currentBlock bc) (head (tail n));
  ro_marks : ∀ k, canonical (db bc') !! k = if decide (NumberU64 (currentBlock bc') + 1 <= k < NumberU64 (currentBlock bc') + 1 + Z.of_nat m) then None else mark_all (reverse (tail n)) (canonical (db bc)) !! k;
  ro_gap : default zeroHash (mark_all (reverse (tail n)) (canonical (db bc)) !! (NumberU64 (currentBlock bc') + 1 + Z.of_nat m)) = zeroHash;
  ro_index : ∀ h, lookups (db bc') !! h =
    if decide ((∃ b, b ∈ o ∧ h ∈ hashes b) ∧ ¬ ∃ b, b ∈ reverse (tail n) ∧ h ∈ hashes b) then None else index_all (reverse (tail n)) (lookups (db bc)) !! h;
}.

Lemma reorg_run g bc new : tree g (db bc) → stored (db bc) (currentBlock bc) → stored (db bc) new → in_range (db bc) →
  ∃ bc' o n c m, reorg (currentBlock bc) new bc = Ok bc' tt ∧ path (db bc) (currentBlock bc) o c ∧ path (db bc) new n c ∧ reorganised bc bc' o n m.
Proof.
  intros T Ho Hn HR. destruct (find_fork_ok g (db bc) T (currentBlock bc) new (S (Z.to_nat (Z.max (NumberU64 (currentBlock bc)) (NumberU64 new)))) Ho Hn) as (o & n & c & E & P1 & P2 & _); [lia|].
  unfold reorg, bind at 1, get at 1. rewrite E. set (added := reverse (tail n)).
  assert (Hadd : ∀ b, b ∈ added → stored (db bc) b). { intros b. unfold added. rewrite elem_of_reverse. destruct n; [by intros ?%not_elem_of_nil|]. intros Hb. eapply path_in; [exact P2|by right]. }
  destruct (writes_ok added bc) as (bc1 & E1 & C1 & S1 & M1 & I1 & F1 & F2 & F3 & F4). unfold bind at 1. rewrite E1. unfold bind at 1, get at 1.
  assert (HR1 : in_range (db bc1)). { intros k h. rewrite M1. apply mark_all_range; [|exact HR]. intros b Hb. by apply (stored_range g (db bc) T), Hadd. }
  assert (Hc1 : 0 <= NumberU64 (currentBlock bc1) < 2 ^ 63).
  { rewrite C1. destruct (last added) as [b|] eqn:El; cbn; [|by apply (stored_range g (db bc) T)]. apply (stored_range g (db bc) T), Hadd. apply last_Some in El as [l' ->]. apply elem_of_app. right. by left. }
  destruct (markers_above (db bc1) (NumberU64 (currentBlock bc1) + 1) HR1) as (m & Hm & Hlt & Hnz & Hz); [lia|].
  set (batch := λ d, foldl (λ d tx, DeleteTxLookupEntry (tx_Hash tx) d) d (TxDifference (concat (map Transactions o)) (concat (map Transactions added)))).
  destruct (delete_markers_ok m (size (canonical (db bc1))) (db bc1) (NumberU64 (currentBlock bc1) + 1) batch (db bc1) Hm) as (S2 & L2 & _ & K2); [lia|done|done|done|]. cbv zeta in S2, L2, K2.
  assert (Ed : delete_above (db bc1) (NumberU64 (currentBlock bc1)) batch (db bc1) = delete_markers (size (canonical (db bc1))) (db bc1) (NumberU64 (currentBlock bc1) + 1) batch (db bc1)).
  { unfold delete_above. by rewrite u64_small by (unfold is_u64, two64; lia). }
  set (d' := delete_markers _ _ _ batch (db bc1)) in *.
  assert (HB : ∀ h, lookups (batch (db bc1)) !! h = (if decide (h ∈ map tx_Hash (TxDifference (concat (map Transactions o)) (concat (map Transactions added)))) then None else lookups (db bc1) !! h) ∧ same_blocks (db bc1) (batch (db bc1)) ∧ canonical (batch (db bc1)) = canonical (db bc1))
    by (intros h; apply deletes_lookup).
  destruct (HB []) as (_ & S3 & K3).
  assert (HF : ∀ x, db x = d' → currentBlock x = currentBlock bc1 → triedb x = triedb bc1 → triegc x = triegc bc1 → CMdb x = CMdb bc1 → genesisBlock x = genesisBlock bc1 → reorganised bc x o n m).
  { intros x X1 X2 X3 X4 X5 X6. split.
    - split_and!; try congruence. rewrite X1. eapply same_blocks_trans; [exact S1|]. eapply same_blocks_trans; [exact S3|exact S2].
    - rewrite X2, C1. unfold added. by rewrite last_reverse_tail.
    - intros k. rewrite X1, X2, (K2 k), K3, M1. done.
    - rewrite X2. unfold ReadCanonicalHash in Hz. rewrite M1 in Hz. exact Hz.
    - intros h. rewrite X1, L2. destruct (HB h) as (-> & _ & _). rewrite I1. pose proof (difference_in (concat (map Transactions o)) (concat (map Transactions added)) h) as HD. rewrite !concat_hashes in HD.
      destruct (decide _) as [H1|H1], (decide _) as [H2|H2]; tauto. }
  exists (send (let bc2 := set_db bc1 d' in let bc3 := (if decide (nonempty (map (collectLogs (db bc) true) o) = []) then bc2 else send bc2 [RemovedLogsEvent (concat (reverse (nonempty (map (collectLogs (db bc) true) o))))]) in
    if decide (nonempty (map (collectLogs (db bc) false) added) = []) then bc3 else send bc3 [LogsEvent (concat (nonempty (map (collectLogs (db bc) false) added)))]) (ChainSideEvent <$> reverse o)), o, n, c, m.
  split_and!; [|done|done|apply HF; cbv zeta; repeat case_decide; done].
  unfold write, modify, bind, ret. cbv zeta. rewrite <- Ed. repeat case_decide; done.
Qed.

Lemma in_reverse (b : Block) l : b ∈ reverse l → b ∈ l.
Proof. by rewrite elem_of_reverse. Qed.

Section Settle.
Context (g : Block) (bc bc1 : BlockChain) (new : Block) (o n : list Block) (c : Block) (m : nat).
Context (T : tree g (db bc)) (Ho : stored (db bc) (currentBlock bc)) (Hn : stored (db bc) new).
Context (P1 : path (db bc) (currentBlock bc) o c) (P2 : path (db bc) new n c) (RO : reorganised bc bc1 o n m).

Lemma old_branch a : anc (db bc) c a → anc (db bc) (currentBlock bc) a ∧ NumberU64 a <= NumberU64 (currentBlock bc).
Proof. intros Ha. assert (H : anc (db bc) (currentBlock bc) a) by (apply (path_anc _ _ _ _ P1); by right). split; [done|]. by apply (anc_number (db bc)). Qed.

(** Blocks of the new branch: the head, those marked before, and the rest. *)
Lemma new_branch a : anc (db bc) new a → a = new ∨ (a ∈ tail n ∧ NumberU64 c < NumberU64 a) ∨ (anc (db bc) c a ∧ NumberU64 a <= NumberU64 c).
Proof.
  intros [Ha|Ha]%(path_anc _ _ _ _ P2).
  - inversion P2; subst; [by apply not_elem_of_nil in Ha|]. apply elem_of_cons in Ha as [->|Ha]; [by left|]. right. left. split; [done|]. by eapply path_in.
  - right. right. split; [done|]. by apply (anc_number (db bc)).
Qed.

Lemma tail_branch a : a ∈ tail n → anc (db bc) new a ∧ NumberU64 c < NumberU64 a < NumberU64 new ∧ NumberU64 a <= NumberU64 (currentBlock bc1).
Proof.
  rewrite (ro_block _ _ _ _ _ RO). intros Ha. inversion P2 as [|b p l c' Hs Hp Hl]; subst; [by apply not_elem_of_nil in Ha|]. cbn [tail] in *. pose proof Hp as (_ & _ & Ep & _).
  destruct (path_in _ _ _ _ _ Hl Ha) as [_ Hr]. split; [|split; [lia|]].
  - eapply anc_step; [exact Hp|]. apply (path_anc _ _ _ _ Hl). by left.
  - inversion Hl as [|b' p' l' c'' Hs' Hp' Hl']; subst; [by apply not_elem_of_nil in Ha|]. cbn. lia.
Qed.

Lemma tail_parent : tail n ≠ [] → ∃ p, parent (db bc) new p ∧ currentBlock bc1 = p.
Proof.
  rewrite (ro_block _ _ _ _ _ RO). intros Ht. inversion P2 as [|b p l c' Hs Hp Hl]; subst; [done|]. exists p. split; [done|]. cbn [tail] in *. by inversion Hl; subst.
Qed.

Lemma mark_new a : anc (db bc) new a → a ≠ new → follows (db bc) (currentBlock bc) → mark_all (reverse (tail n)) (canonical (db bc)) !! NumberU64 a = Some (Hash a) ∧ NumberU64 a <= NumberU64 (currentBlock bc1).
Proof.
  intros Ha Hne HF. destruct (new_branch a Ha) as [?|[[Ht Hlt]|[Hc Hle]]]; [done| |].
  - split; [|by apply tail_branch]. apply mark_all_in; [by apply elem_of_reverse|]. intros b' Hb' E. rewrite elem_of_reverse in Hb'. exact (anc_fun (db bc) new b' a (proj1 (tail_branch b' Hb')) Ha E).
  - destruct (old_branch a Hc) as [Hoa Hlo]. split.
    + rewrite mark_all_other; [by apply HF|]. intros b Hb%in_reverse E. destruct (tail_branch b Hb) as (_ & ? & _). lia.
    + destruct (tail n) as [|x l] eqn:Et; [rewrite (ro_block _ _ _ _ _ RO), Et; done|]. destruct (tail_branch x) as (_ & ? & ?); [rewrite Et; by left|]. lia.
Qed.

Context (bc2 : BlockChain) (M2 : canonical (db bc2) = <[NumberU64 new := Hash new]> (canonical (db bc1))) (I2 : lookups (db bc2) = put_all (NumberU64 new) (hashes new) (lookups (db bc1)))
  (S2 : same_blocks (db bc1) (db bc2)).

Lemma settle_same : same_blocks (db bc) (db bc2).
Proof. eapply same_blocks_trans; [apply (ro_frame _ _ _ _ _ RO)|done]. Qed.

Lemma settle_follows : follows (db bc) (currentBlock bc) → follows (db bc2) new.
Proof.
  intros HF a Ha%(same_anc _ _ _ _ settle_same). rewrite M2. destruct (decide (NumberU64 a = NumberU64 new)) as [E|E]; [rewrite E, (anc_same (db bc) new a Ha E), lookup_insert_eq; done|].
  rewrite lookup_insert_ne by done. destruct (mark_new a Ha) as [E1 Hle]; [by intros ->|done|]. by rewrite (ro_marks _ _ _ _ _ RO), decide_False by lia.
Qed.

Lemma settle_indexed : unique (db bc) → indexed (db bc) (currentBlock bc) → indexed (db bc2) new.
Proof.
  intros HU HX h x. setoid_rewrite <- (same_anc _ _ new _ settle_same). rewrite I2, put_all_lookup. destruct (decide (h ∈ hashes new)) as [Hh|Hh].
  { split; [intros [= <-]; exists new; split_and!; [constructor|done|done]|]. intros (a & Ha & <- & Hx). by rewrite (HU new a h Hn Ha Hh Hx). }
  rewrite (ro_index _ _ _ _ _ RO). destruct (decide (∃ b, b ∈ reverse (tail n) ∧ h ∈ hashes b)) as [Hin|Hout].
  { rewrite decide_False by tauto. destruct Hin as (b & Hb & Hhb). pose proof (proj1 (tail_branch b ltac:(by apply elem_of_reverse))) as Hab.
    rewrite (index_all_in _ b) by (done || (intros b' Hb'%in_reverse Hh'; eapply (unique_branch (db bc) new); [done|done|by apply tail_branch|done|done|done])).
    split; [intros [= <-]; by exists b|]. intros (a & Ha & <- & Hx). by rewrite (unique_branch (db bc) new a b h HU Hn Ha Hab Hx Hhb). }
  rewrite index_all_other by (intros b Hb Hx; apply Hout; by exists b). destruct (decide (∃ b, b ∈ o ∧ h ∈ hashes b)) as [Hold|Hnew].
  - rewrite decide_True by done. split; [done|]. intros (a & Ha & _ & Hx). exfalso. destruct Hold as (b & Hb & Hhb).
    destruct (new_branch a Ha) as [->|[[Ht _]|[Hc Hle]]]; [done|apply Hout; exists a; split; [by apply elem_of_reverse|done]|].
    assert (b = a) as -> by (eapply (unique_branch (db bc) (currentBlock bc)); [done|done|apply (path_anc _ _ _ _ P1); by left|by apply old_branch|done|done]).
    destruct (path_in _ _ _ _ _ P1 Hb) as [_ ?]. lia.
  - rewrite decide_False by tauto. rewrite (HX h x). split; intros (a & Ha & <- & Hx); exists a; split_and!; try done.
    + apply (path_anc _ _ _ _ P1) in Ha as [Ha|Ha]; [exfalso; apply Hnew; by exists a|]. apply (path_anc _ _ _ _ P2). by right.
    + destruct (new_branch a Ha) as [->|[[Ht _]|[Hc Hle]]]; [done|exfalso; apply Hout; exists a; split; [by apply elem_of_reverse|done]|by apply old_branch].
Qed.

Lemma settle_top : follows (db bc) (currentBlock bc) → top (db bc) (currentBlock bc) → 0 < NumberU64 new →
  NumberU64 (currentBlock bc) <= NumberU64 new ∨ canonical (db bc) !! (NumberU64 new - 1) ≠ Some (ParentHash new) → top (db bc2) new.
Proof.
  intros HF HT Hpos Hcond k Hk. rewrite M2, lookup_insert_ne by lia. rewrite (ro_marks _ _ _ _ _ RO). case_decide as Hd; [done|]. rewrite mark_all_other by (intros b Hb%in_reverse E; destruct (tail_branch b Hb) as (_ & ? & _); lia).
  destruct (Z.le_gt_cases k (NumberU64 (currentBlock bc))) as [Hle|Hgt]; [|by apply HT]. exfalso.
  assert (Hnot : canonical (db bc) !! (NumberU64 new - 1) ≠ Some (ParentHash new)) by (destruct Hcond; [lia|done]).
  assert (Ht : tail n ≠ []).
  { intros Et. destruct (has_parent g (db bc) T new Hn Hpos) as [p Hp]. pose proof Hp as (_ & Eh & En & _). apply Hnot. rewrite <- En, <- Eh. apply HF. apply (path_anc _ _ _ _ P1). right.
    inversion P2 as [|b p' l c' Hs' Hp' Hl']; subst; [by eapply anc_step; [exact Hp|constructor]|]. cbn in Et. subst l. inversion Hl'; subst. rewrite (parent_fun _ _ _ _ Hp Hp'). constructor. }
  destruct (tail_parent Ht) as (p & Hp & Ec). pose proof Hp as (_ & _ & Ep & Hs'). pose proof (ro_gap _ _ _ _ _ RO) as Hgap. rewrite Ec in Hd, Hgap.
  destruct (anc_exists g (db bc) T (currentBlock bc) (NumberU64 p + 1 + Z.of_nat m) Ho) as (a & Ha & Ea); [pose proof (stored_range g (db bc) T p Hs') as [? _]; lia|].
  rewrite mark_all_other in Hgap by (intros b Hb%in_reverse E; destruct (tail_branch b Hb) as (_ & ? & _); lia). rewrite <- Ea, (HF a Ha) in Hgap.
  cbn in Hgap. by apply (stored_range g (db bc) T a); [eapply anc_stored|].
Qed.

End Settle.

(** The block becomes the head, and the index follows it. *)
Lemma writeKnownBlock_ok g bc new : tree g (db bc) → stored (db bc) (currentBlock bc) → stored (db bc) new → 0 < NumberU64 new → in_range (db bc) →
  ∃ bc', writeKnownBlock new bc = Ok bc' tt ∧ currentBlock bc' = new ∧ frame bc bc' ∧ in_range (db bc') ∧ headBlock (db bc') = Hash new ∧
    (follows (db bc) (currentBlock bc) → follows (db bc') new) ∧
    (unique (db bc) → indexed (db bc) (currentBlock bc) → indexed (db bc') new) ∧
    (follows (db bc) (currentBlock bc) → top (db bc) (currentBlock bc) →
      NumberU64 (currentBlock bc) <= NumberU64 new ∨ canonical (db bc) !! (NumberU64 new - 1) ≠ Some (ParentHash new) → top (db bc') new).
Proof.
  intros T Ho Hn Hpos HR. unfold writeKnownBlock, bind at 1, get at 1.
  assert (Hrange : ∀ x y, in_range (db x) → canonical (db y) = <[NumberU64 new := Hash new]> (canonical (db x)) → in_range (db y)).
  { intros x y Hx E k h. rewrite E. destruct (decide (k = NumberU64 new)) as [->|Hk]; [intros _; by apply (stored_range g (db bc) T)|]. rewrite lookup_insert_ne by done. apply Hx. }
  destruct (decide (ParentHash new = Hash (currentBlock bc))) as [E|E].
  - destruct (has_parent g (db bc) T new Hn Hpos) as [p Hp]. assert (p = currentBlock bc) as ->. { destruct Hp as (_ & Eh & _ & Hs). apply (tr_hash _ _ T); [done|done|congruence]. }
    destruct (writeHeadBlock_ok new bc) as (bc' & E' & C' & S' & M' & I' & B' & F1 & F2 & F3 & F4 & _). exists bc'. unfold bind, ret. rewrite E'. split_and!; try done; [by eapply Hrange|..].
    + intros HF a Ha%(same_anc _ _ _ _ S'). rewrite M'. inversion Ha as [|? p' ? Hp' Ha']; subst; [by rewrite lookup_insert_eq|]. rewrite (parent_fun _ _ _ _ Hp' Hp) in Ha'. pose proof (anc_number _ _ _ Ha').
      destruct Hp as (_ & _ & En & _). rewrite lookup_insert_ne by lia. by apply HF.
    + intros HU HX h x. setoid_rewrite <- (same_anc _ _ new _ S'). rewrite I', put_all_lookup. destruct (decide (h ∈ hashes new)) as [Hh|Hh].
      * split; [intros [= <-]; exists new; split_and!; [constructor|done|done]|]. intros (a & Ha & <- & Hx). by rewrite (HU new a h Hn Ha Hh Hx).
      * rewrite (HX h x). split; intros (a & Ha & <- & Hx); exists a; split_and!; try done; [by eapply anc_step|]. inversion Ha as [|? p' ? Hp' Ha']; subst; [done|]. by rewrite (parent_fun _ _ _ _ Hp' Hp) in Ha'.
    + intros HF HT _ k Hk. rewrite M', lookup_insert_ne by lia. apply HT. destruct Hp as (_ & _ & En & _). lia.
  - destruct (reorg_run g bc new T Ho Hn HR) as (bc1 & o & n & c & m & E1 & P1 & P2 & RO). unfold bind. rewrite E1.
    destruct (writeHeadBlock_ok new bc1) as (bc' & E' & C' & S' & M' & I' & B' & F1 & F2 & F3 & F4 & _). exists bc'. rewrite E'. pose proof (ro_frame _ _ _ _ _ RO) as (G0 & G1 & G2 & G3 & G4). split_and!; try done.
    + split_and!; try congruence. by eapply same_blocks_trans.
    + eapply (Hrange bc1); [|done]. intros k h. rewrite (ro_marks _ _ _ _ _ RO). case_decide; [done|]. apply mark_all_range; [|exact HR]. intros b Hb%in_reverse. apply (stored_range g (db bc) T).
      eapply path_in; [exact P2|]. destruct n; [by apply not_elem_of_nil in Hb|by right].
    + by eapply settle_follows.
    + by eapply settle_indexed.
    + intros HF HT HC. by eapply settle_top.
Qed.

End Writes.
End ChainProofs.
