(* ===== verification/ChainClaims.v ===== *)
(** * ChainClaims: the canonical chain

    After any history of block writes, the index by number, the index of
    transactions and the head agree, and the head is as heavy as any block
    written; what is left above the head after a reorganisation is told
    exactly. *)

From stdpp Require Import base gmap list.
From Stdlib Require Import ZArith Lia.
From S2P Require Import Prelude Types CMdb TrieHash TrieDb TrieDbClaims Sha256 PoolClaims Chain ChainProofs.

Local Open Scope Z_scope.

Module ChainClaims.
Import Chain ChainProofs.

Section Claims.
Context `{ENV : TrieDb.Environment}.
Context (keccak : bytes → bytes) (config : CacheConfig) (shouldPreserve : option (Block → bool)).

(** ** Storing a block *)

(** A block whose parent is stored, with transactions that are new to its
    branch; its hash stands for it. *)
Record valid (d : chaindb) (b : Block) : Prop := {
  va_range : NumberU64 b < 2 ^ 63 ∧ Hash b ≠ zeroHash;
  va_parent : ∃ p, parent d b p ∧ ∀ a h, anc d p a → h ∈ hashes b → h ∉ hashes a;
  va_hash : ∀ b', stored d b' → Hash b' = Hash b → b' = b;
}.

(** [d'] is [d] with the block and its total difficulty. *)
Record grows (d d' : chaindb) (b : Block) (td : Z) : Prop := {
  gr_read : ∀ h n, ReadBlock d' h n = if decide (n = NumberU64 b ∧ h = Hash b) then Some b else ReadBlock d h n;
  gr_maps : headers d' = <[(NumberU64 b, Hash b) := b_header b]> (headers d) ∧ bodies d' = <[(NumberU64 b, Hash b) := Transactions b]> (bodies d);
  gr_numbers : numbers d' = <[Hash b := NumberU64 b]> (numbers d);
  gr_td : tds d' = <[(NumberU64 b, Hash b) := td]> (tds d);
  gr_rest : canonical d' = canonical d ∧ lookups d' = lookups d ∧ headBlock d' = headBlock d;
}.

Lemma side_grows b td d : grows d (WriteBlock b (WriteTd (Hash b) (NumberU64 b) td d)) b td.
Proof.
  split; [|done|done|done|done]. intros h n. unfold ReadBlock, ReadHeader, ReadBody, NumberU64, Hash. cbn.
  destruct (decide (n = h_Number (b_header b) ∧ h = h_Hash (b_header b))) as [[E1 E2]|Hn]; [subst; rewrite !lookup_insert_eq; by destruct b|].
  rewrite !lookup_insert_ne by (intros [= E1 E2]; by apply Hn). done.
Qed.

Lemma write_grows b td rs ps d : grows d (WritePreimages ps (WriteReceipts (Hash b) (NumberU64 b) rs (WriteBlock b (WriteTd (Hash b) (NumberU64 b) td d)))) b td.
Proof. by destruct (side_grows b td d). Qed.

Section Grow.
Context (g : Block) (d d' : chaindb) (b : Block) (td : Z) (T : tree g d) (V : valid d b) (G : grows d d' b td).

Lemma stored_grow x : stored d' x ↔ x = b ∨ stored d x.
Proof.
  unfold stored. rewrite (gr_read _ _ _ _ G). case_decide as Hk; [|split; [by right|intros [->|?]; [by destruct Hk|done]]]. destruct Hk as [En Eh]. split; [intros [= <-]; by left|].
  intros [->|Hx]; [done|]. by rewrite (va_hash _ _ V x Hx Eh).
Qed.

Lemma parent_grow x p : stored d x → parent d' x p ↔ parent d x p.
Proof.
  intros Hx. split; [|intros (?&?&?&?); split_and!; try done; apply stored_grow; by right]. intros Hp. pose proof Hp as (Hpos & Eh & En & Hs). destruct (has_parent g d T x Hx Hpos) as [q Hq].
  assert (p = q) as ->; [|done]. eapply (parent_fun d' x); [exact Hp|]. destruct Hq as (?&?&?&?). split_and!; try done. apply stored_grow. by right.
Qed.

Lemma anc_grow x a : stored d x → anc d' x a ↔ anc d x a.
Proof.
  intros Hx. split.
  - intros Ha. induction Ha as [x|x p a Hp Ha IH]; [constructor|]. apply parent_grow in Hp; [|done]. eapply anc_step; [exact Hp|]. apply IH. by eapply parent_stored.
  - intros Ha. induction Ha as [x|x p a Hp Ha IH]; [constructor|]. eapply anc_step; [by apply parent_grow|]. apply IH. by eapply parent_stored.
Qed.

Lemma parent_new p : parent d b p → parent d' b p.
Proof. intros (?&?&?&?). split_and!; try done. apply stored_grow. by right. Qed.

Lemma tree_grow : tree g d'.
Proof.
  destruct (va_range _ _ V) as [Hr Hz]. destruct (va_parent _ _ V) as (p & Hp & _). split.
  - intros n h x. rewrite (gr_read _ _ _ _ G). case_decide as Hk; [|apply (tr_key _ _ T)]. destruct Hk as [-> ->]. intros [= <-]. split_and!; try done. destruct Hp as (? & _). lia.
  - intros x Hx%stored_grow. destruct Hx as [->|Hx]; [right; exists p; by apply parent_new|]. destruct (tr_parent _ _ T x Hx) as [?|(q & Hq)]; [by left|right]. exists q. by apply parent_grow.
  - destruct (tr_genesis _ _ T) as [Hg ?]. split; [|done]. apply stored_grow. by right.
  - intros x y Hx%stored_grow Hy%stored_grow E. destruct Hx as [->|Hx], Hy as [->|Hy]; [done|symmetry; by apply (va_hash _ _ V)|by apply (va_hash _ _ V)|by apply (tr_hash _ _ T)].
Qed.

Lemma unique_grow : unique d → unique d'.
Proof.
  intros HU x a h Hx%stored_grow Ha Hh Hh'. destruct Hx as [->|Hx]; [|apply anc_grow in Ha; [by eapply HU|done]]. inversion Ha as [|? q ? Hq Ha']; subst; [done|]. exfalso.
  destruct (va_parent _ _ V) as (p & Hp & Hd). rewrite (parent_fun d' _ _ _ Hq (parent_new p Hp)) in Ha'. apply anc_grow in Ha'; [|by eapply parent_stored]. by apply (Hd a h).
Qed.

Lemma follows_grow x : stored d x → follows d x → follows d' x.
Proof. intros Hx HF a Ha%anc_grow; [|done]. destruct (gr_rest _ _ _ _ G) as (-> & _). by apply HF. Qed.

Lemma indexed_grow x : stored d x → indexed d x → indexed d' x.
Proof.
  intros Hx HX h n. destruct (gr_rest _ _ _ _ G) as (_ & -> & _). rewrite (HX h n). split; intros (a & Ha & H); exists a; (split; [by apply anc_grow|done]).
Qed.

End Grow.

(** ** Histories *)

Definition td_of (d : chaindb) (b : Block) : option Z := GetTd d (Hash b) (NumberU64 b).

(** A block that is lower than the head, and whose parent is on the head's branch. *)
Definition below (bc : BlockChain) (b : Block) : Prop :=
  NumberU64 b < NumberU64 (currentBlock bc) ∧ canonical (db bc) !! (NumberU64 b - 1) = Some (ParentHash b).

(** Such a block that is as heavy as the head or heavier, so that writing it can
    make it the head. *)
Definition lowers (bc : BlockChain) (b : Block) : Prop :=
  below bc b ∧ ∃ ptd tdh, GetTd (db bc) (ParentHash b) (NumberU64 b - 1) = Some ptd ∧ td_of (db bc) (currentBlock bc) = Some tdh ∧ tdh <= Difficulty b + ptd.

(** A block that is lighter than the head. *)
Definition lighter (bc : BlockChain) (b : Block) : Prop :=
  ∃ td tdh, td_of (db bc) b = Some td ∧ td_of (db bc) (currentBlock bc) = Some tdh ∧ td < tdh.

(** A chain with a genesis block only. *)
Definition new_chain (g : Block) (tdb : TrieDb.Database) (cm : CMdb.database) : BlockChain :=
  let d := mk_chaindb ∅ ∅ ∅ ∅ ∅ ∅ ∅ ∅ zeroHash zeroHash zeroHash in
  let d := WriteHeadFastBlockHash (Hash g) (WriteHeadHeaderHash (Hash g) (WriteHeadBlockHash (Hash g) (WriteCanonicalHash (Hash g) 0 (WriteBlock g (WriteTd (Hash g) 0 (Difficulty g) d))))) in
  mk_bc d cm tdb [] 0 g (b_header g) (Hash g) g g [] [] [].

(** What happens to a chain: blocks are written with their states, where [keep]
    allows it (an error of the node database may end that), or without, and stored
    blocks become the head, where [known] allows it, heavier than the head or not.
    [W] are the blocks written with their states. *)
Inductive reachable (keep known : BlockChain → Block → Prop) (g : Block) : BlockChain → list Block → Prop :=
  | reach_new tdb cm : reachable keep known g (new_chain g tdb cm) []
  | reach_write bc W b rs logs ps commit emit coin bc' st : reachable keep known g bc W → valid (db bc) b → keep bc b →
      writeBlockWithState keccak config shouldPreserve b rs logs ps commit emit coin bc = Ok bc' st → reachable keep known g bc' (b :: W)
  | reach_error bc W b rs logs ps commit emit coin bc' e : reachable keep known g bc W → valid (db bc) b → keep bc b →
      writeBlockWithState keccak config shouldPreserve b rs logs ps commit emit coin bc = Fail bc' e → reachable keep known g bc' W
  | reach_side bc W b ptd bc' : reachable keep known g bc W → valid (db bc) b → GetTd (db bc) (ParentHash b) (NumberU64 b - 1) = Some ptd →
      writeBlockWithoutState b (Difficulty b + ptd) bc = Ok bc' tt → reachable keep known g bc' W
  | reach_known bc W b bc' : reachable keep known g bc W → stored (db bc) b → 0 < NumberU64 b → known bc b →
      writeKnownBlock b bc = Ok bc' tt → reachable keep known g bc' W.

(** ** The invariant *)

Record chain_ok (g : Block) (bc : BlockChain) : Prop := {
  co_tree : tree g (db bc);
  co_head : stored (db bc) (currentBlock bc) ∧ headBlock (db bc) = Hash (currentBlock bc);
  co_range : in_range (db bc);
  co_follows : follows (db bc) (currentBlock bc);
  co_indexed : indexed (db bc) (currentBlock bc);
  co_unique : unique (db bc);
  co_numbers : ∀ b, stored (db bc) b → GetBlockNumber (db bc) (Hash b) = Some (NumberU64 b);
  co_td : ∀ b, stored (db bc) b → ∃ td, td_of (db bc) b = Some td ∧ ∀ p, parent (db bc) b p → ∃ ptd, td_of (db bc) p = Some ptd ∧ td = Difficulty b + ptd;
}.

(** The head is as heavy as the blocks [W]. *)
Definition heavy (bc : BlockChain) (W : list Block) : Prop :=
  ∀ b, b ∈ W → stored (db bc) b ∧ ∃ td tdh, td_of (db bc) b = Some td ∧ td_of (db bc) (currentBlock bc) = Some tdh ∧ td <= tdh.

Section Store.
Context (g : Block) (bc bc' : BlockChain) (b : Block) (ptd : Z).
Context (OK : chain_ok g bc) (V : valid (db bc) b) (Eptd : GetTd (db bc) (ParentHash b) (NumberU64 b - 1) = Some ptd).
Context (G : grows (db bc) (db bc') b (Difficulty b + ptd)) (EC : currentBlock bc' = currentBlock bc).

Lemma parent_td p : parent (db bc) b p → td_of (db bc) p = Some ptd.
Proof. intros (_ & Eh & En & _). unfold td_of. by rewrite Eh, En. Qed.

Lemma td_new : td_of (db bc') b = Some (Difficulty b + ptd).
Proof. unfold td_of, GetTd, ReadTd. rewrite (gr_td _ _ _ _ G). apply lookup_insert_eq. Qed.

Lemma td_grow x : stored (db bc) x → td_of (db bc') x = td_of (db bc) x.
Proof.
  intros Hx. unfold td_of, GetTd, ReadTd. rewrite (gr_td _ _ _ _ G). destruct (decide (Hash x = Hash b)) as [E|E]; [|rewrite lookup_insert_ne by congruence; done].
  assert (x = b) as -> by (by apply (va_hash _ _ V)). rewrite lookup_insert_eq. destruct (co_td _ _ OK b Hx) as (td & Etd & Hp). destruct (va_parent _ _ V) as (p & Hpar & _). destruct (Hp p Hpar) as (q & Eq & ->).
  rewrite (parent_td p Hpar) in Eq. injection Eq as <-. symmetry. exact Etd.
Qed.

Lemma store_block : chain_ok g bc'.
Proof.
  destruct OK as [T [Hh Hm] HR HF HX HU HN HT]. destruct (gr_rest _ _ _ _ G) as (R1 & R2 & R3). pose proof (tree_grow g _ _ _ _ T V G) as T'. split; rewrite ?EC.
  - done.
  - split; [apply (stored_grow _ _ _ _ V G); by right|by rewrite R3].
  - intros k h. rewrite R1. apply HR.
  - exact (follows_grow g _ _ _ _ T V G _ Hh HF).
  - exact (indexed_grow g _ _ _ _ T V G _ Hh HX).
  - exact (unique_grow g _ _ _ _ T V G HU).
  - intros x Hx%(stored_grow _ _ _ _ V G). unfold GetBlockNumber, ReadHeaderNumber. rewrite (gr_numbers _ _ _ _ G). destruct (decide (Hash x = Hash b)) as [E|E].
    + rewrite E, lookup_insert_eq. by assert (x = b) as -> by (destruct Hx as [?|Hx]; [done|by apply (va_hash _ _ V)]).
    + rewrite lookup_insert_ne by done. destruct Hx as [->|Hx]; [done|by apply HN].
  - intros x Hx%(stored_grow _ _ _ _ V G). destruct (decide (Hash x = Hash b)) as [E|E].
    + assert (x = b) as -> by (destruct Hx as [?|Hx]; [done|by apply (va_hash _ _ V)]). exists (Difficulty b + ptd). split; [apply td_new|]. intros p Hp. exists ptd. split; [|done].
      destruct (va_parent _ _ V) as (q & Hq & _). rewrite (parent_fun (db bc') b p q Hp (parent_new _ _ _ _ V G q Hq)). rewrite td_grow by (by eapply parent_stored). by apply parent_td.
    + destruct Hx as [->|Hx]; [done|]. destruct (HT x Hx) as (td & Etd & Hp). exists td. rewrite td_grow by done. split; [done|]. intros p Hpar%(parent_grow g _ _ _ _ T V G); [|done].
      destruct (Hp p Hpar) as (q & Eq & ->). exists q. by rewrite td_grow by (by eapply parent_stored).
Qed.

Lemma store_heavy W : heavy bc W → heavy bc' W.
Proof.
  intros HH x Hx. destruct (HH x Hx) as (Hs & td & tdh & E1 & E2 & Hle). split; [apply (stored_grow _ _ _ _ V G); by right|]. exists td, tdh. rewrite EC, !td_grow; [done|by apply (co_head _ _ OK)|done].
Qed.

Lemma store_top : top (db bc) (currentBlock bc) → top (db bc') (currentBlock bc').
Proof. intros HT k. rewrite EC. destruct (gr_rest _ _ _ _ G) as (-> & _). apply HT. Qed.

End Store.

(** A stored block becomes the head. *)
Lemma head_block g bc b : chain_ok g bc → stored (db bc) b → 0 < NumberU64 b →
  ∃ bc', writeKnownBlock b bc = Ok bc' tt ∧ chain_ok g bc' ∧ currentBlock bc' = b ∧ frame bc bc' ∧ (top (db bc) (currentBlock bc) → ¬ below bc b → top (db bc') b).
Proof.
  intros [T [Hh Hm] HR HF HX HU HN HT] Hb Hpos. destruct (writeKnownBlock_ok g bc b T Hh Hb Hpos HR) as (bc' & E & C & F & R' & B & W1 & W2 & W3). exists bc'. pose proof F as (S & _). split_and!; [done| |done|done|].
  - split; rewrite ?C; auto.
    + by eapply same_tree.
    + split; [by apply (same_stored _ _ _ S)|done].
    + intros x a h Hx%(same_stored _ _ _ S) Ha%(same_anc _ _ _ _ S). by apply HU.
    + intros x Hx%(same_stored _ _ _ S). unfold GetBlockNumber, ReadHeaderNumber. destruct S as (_ & _ & _ & ->). by apply HN.
    + intros x Hx%(same_stored _ _ _ S). unfold td_of, GetTd, ReadTd in *. pose proof S as (S1 & S2 & S3 & S4). rewrite S3. destruct (HT x Hx) as (td & ? & Hp). exists td. split; [done|]. intros p Hpar. apply Hp.
      by apply (same_parent (db bc) (db bc')).
  - intros Ht Hl. apply W3; [done|done|]. destruct (Z.le_gt_cases (NumberU64 (currentBlock bc)) (NumberU64 b)) as [?|Hlt]; [by left|right]. intros Ec. apply Hl. split; [lia|done].
Qed.

Lemma head_heavy g bc b bc' W td tdh : chain_ok g bc → frame bc bc' → currentBlock bc' = b → stored (db bc) b → td_of (db bc) b = Some td → td_of (db bc) (currentBlock bc) = Some tdh → tdh <= td →
  heavy bc W → heavy bc' W.
Proof.
  intros OK (S & _) C Hb Etd Etdh Hle HH x Hx. destruct (HH x Hx) as (Hs & t & th & E1 & E2 & Hl). split; [by apply (same_stored _ _ _ S)|]. exists t, td. unfold td_of, GetTd, ReadTd in *. destruct S as (_ & _ & -> & _).
  rewrite C. split_and!; [done|done|]. rewrite Etdh in E2. injection E2 as <-. lia.
Qed.

(** ** Writing the state *)

(** The chain is left as it was, but for its tries. *)
Definition only_tries (bc bc' : BlockChain) : Prop := db bc' = db bc ∧ currentBlock bc' = currentBlock bc.

Definition quiet {A} (m : M A) : Prop := ∀ bc, match m bc with Ok bc' _ | Fail bc' _ => only_tries bc bc' | _ => True end.

Lemma quiet_bind {A B} (m : M A) (k : A → M B) : quiet m → (∀ a, quiet (k a)) → quiet (bind m k).
Proof.
  intros Hm Hk bc. unfold bind. specialize (Hm bc). destruct (m bc) as [bc1 a|bc1 e| |]; [|done|done|done]. specialize (Hk a bc1). destruct (k a bc1); try done; destruct Hm, Hk; split; congruence.
Qed.

Lemma quiet_get {B} (k : BlockChain → M B) : (∀ bc, quiet (k bc)) → quiet (bind get k).
Proof. intros Hk bc. apply Hk. Qed.

Lemma quiet_ret {A} (a : A) : quiet (ret a).
Proof. done. Qed.

Lemma quiet_throw {A} e : quiet (throw (A := A) e).
Proof. done. Qed.

Lemma quiet_some {A} (x : option A) : quiet (some x).
Proof. intros bc. by destruct x. Qed.

Lemma quiet_tries {A} (m : TrieDb.M A) : quiet (tries m).
Proof. intros bc. unfold tries. by destruct (m (triedb bc)). Qed.

Lemma quiet_or_throw {A} (m : M (option A)) e : quiet m → quiet (or_throw m e).
Proof. intros Hm. apply quiet_bind; [done|]. intros [a|]; [apply quiet_ret|apply quiet_throw]. Qed.

Lemma quiet_collect fuel chosen : quiet (collect_tries fuel chosen).
Proof.
  induction fuel as [|fuel IH]; [done|]. cbn [collect_tries]. apply quiet_get. intros bc. destruct (pop_lowest _) as [[[root n] rest]|]; [|done]. destruct (_ <? _); [done|].
  apply quiet_bind; [done|]. intros _. apply quiet_bind; [apply quiet_tries|done].
Qed.

Lemma quiet_commit commit b : quiet (commit_state config commit b).
Proof.
  apply quiet_bind; [apply quiet_or_throw, quiet_tries|]. intros root. destruct (TrieDirtyDisabled config); [apply quiet_or_throw, quiet_tries|].
  apply quiet_bind; [apply quiet_tries|]. intros _. apply quiet_bind; [done|]. intros _. destruct (_ <? _); [|done]. apply quiet_get. intros bc. apply quiet_bind; [apply quiet_some|]. intros sz.
  apply quiet_bind; [destruct (_ || _); [|done]; by apply quiet_bind; [apply quiet_tries|]|]. intros _. apply quiet_get. intros bc1.
  apply quiet_bind; [|intros _; apply quiet_get; intros; apply quiet_collect]. destruct (_ <? _); [|done]. destruct (GetHeaderByNumber _ _); [|done]. by apply quiet_bind; [apply quiet_tries|].
Qed.

(** ** One write *)

(** Where [writeBlockWithState] ends. *)
Inductive wrote (bc : BlockChain) (b : Block) (ptd tdh : Z) : res WriteStatus → Prop :=
  | wrote_crash : wrote bc b ptd tdh Crash
  | wrote_fuel : wrote bc b ptd tdh Unfinished
  | wrote_error bc1 e : grows (db bc) (db bc1) b (Difficulty b + ptd) → currentBlock bc1 = currentBlock bc → wrote bc b ptd tdh (Fail bc1 e)
  | wrote_side bc1 : grows (db bc) (db bc1) b (Difficulty b + ptd) → currentBlock bc1 = currentBlock bc → Difficulty b + ptd <= tdh → wrote bc b ptd tdh (Ok bc1 SideStatTy)
  | wrote_head bc1 bc2 bc3 : grows (db bc) (db bc1) b (Difficulty b + ptd) → currentBlock bc1 = currentBlock bc → tdh <= Difficulty b + ptd →
      writeKnownBlock b bc1 = Ok bc2 tt → db bc3 = db bc2 → currentBlock bc3 = currentBlock bc2 → wrote bc b ptd tdh (Ok bc3 CanonStatTy).

Lemma better_td coin x y b c : better shouldPreserve coin x y b c = true → y <= x.
Proof. unfold better. destruct (Z.ltb_spec y x); [lia|]. destruct (Z.eqb_spec x y); [lia|done]. Qed.

Lemma better_not coin x y b c : better shouldPreserve coin x y b c = false → x <= y.
Proof. unfold better. destruct (Z.ltb_spec y x); [done|lia]. Qed.

Lemma write_cases g bc b rs logs ps commit emit coin : chain_ok g bc → valid (db bc) b →
  ∃ ptd tdh, GetTd (db bc) (ParentHash b) (NumberU64 b - 1) = Some ptd ∧ td_of (db bc) (currentBlock bc) = Some tdh ∧
    wrote bc b ptd tdh (writeBlockWithState keccak config shouldPreserve b rs logs ps commit emit coin bc).
Proof.
  intros OK V. destruct (va_parent _ _ V) as (p & Hp & _). pose proof Hp as (Hpos & Eh & En & Hs). destruct (co_td _ _ OK p Hs) as (ptd & Eptd & _). destruct (co_td _ _ OK _ (proj1 (co_head _ _ OK))) as (tdh & Etdh & _).
  assert (Ep : GetTd (db bc) (ParentHash b) (NumberU64 b - 1) = Some ptd) by (unfold td_of in Eptd; by rewrite Eh, En in Eptd).
  exists ptd, tdh. split_and!; [done|done|]. unfold writeBlockWithState, bind at 1, get at 1. pose proof (va_range _ _ V) as [Hr _]. rewrite u64_small by (unfold is_u64, two64; lia). rewrite Ep.
  unfold td_of in Etdh. rewrite Etdh. unfold bind at 1. unfold WriteAllCM at 1. destruct (CMdb.WriteAllCM _ _ _) as [cm|e|]; [|constructor|constructor]. unfold bind at 1, write, modify at 1.
  set (d1 := WritePreimages _ _). assert (G : grows (db bc) d1 b (Difficulty b + ptd)) by apply write_grows. cbn [db set_CMdb]. fold d1. set (bc1 := set_db (set_CMdb bc cm) d1).
  unfold bind at 1. pose proof (quiet_commit commit b bc1) as HQ. destruct (commit_state config commit b bc1) as [bc2 []|bc2 e| |]; [| |constructor|constructor].
  2: { destruct HQ as [Q1 Q2]. apply wrote_error; [by rewrite Q1|by rewrite Q2]. }
  destruct HQ as [Q1 Q2]. unfold bind at 1, some. unfold bind at 1, get at 1. assert (G2 : grows (db bc) (db bc2) b (Difficulty b + ptd)) by (by rewrite Q1). assert (C2 : currentBlock bc2 = currentBlock bc) by (by rewrite Q2).
  destruct (better _ _ _ _ _ _) eqn:Eb.
  - assert (HE : ∀ k : unit → M WriteStatus, bind (if decide (ParentHash b = Hash (currentBlock bc2)) then ret () else reorg (currentBlock bc2) b) (λ _, bind (writeHeadBlock b) k) bc2 = bind (writeKnownBlock b) k bc2).
    { intros k. unfold writeKnownBlock, bind, get. by destruct (_ bc2) as [? []| | |]. }
    rewrite HE. destruct (head_block g bc2 b) as (bc3 & E3 & _ & C3 & _).
    { eapply store_block; [exact OK|exact V|exact Ep|done|done]. }
    { apply (stored_grow _ _ _ _ V G2). by left. }
    { done. }
    unfold bind at 1. rewrite E3. eapply wrote_head; [exact G2|done|by eapply better_td|exact E3|done|done].
  - apply wrote_side; [done|done|by eapply better_not].
Qed.

(** ** All histories *)

(** A genesis block that can start a chain. *)
Definition genesis_ok (g : Block) : Prop := NumberU64 g = 0 ∧ Hash g ≠ zeroHash ∧ Transactions g = [].

Lemma new_read g tdb cm h n : NumberU64 g = 0 → ReadBlock (db (new_chain g tdb cm)) h n = if decide (n = 0 ∧ h = Hash g) then Some g else None.
Proof.
  intros Hn. unfold ReadBlock, ReadHeader, ReadBody, new_chain. cbn [db headers bodies WriteHeadFastBlockHash WriteHeadHeaderHash WriteHeadBlockHash WriteCanonicalHash WriteBlock rawdb_WriteHeader WriteBody WriteTd].
  fold (NumberU64 g) (Hash g). rewrite Hn. case_decide as Hk; [destruct Hk as [-> ->]; rewrite !lookup_insert_eq; by destruct g|].
  rewrite lookup_insert_ne, lookup_empty; [by destruct (_ !! _)|]. intros [= E1 E2]. by apply Hk.
Qed.

Lemma new_stored g tdb cm b : NumberU64 g = 0 → stored (db (new_chain g tdb cm)) b ↔ b = g.
Proof. intros Hn. unfold stored. rewrite new_read by done. case_decide as Hk; [|split; [done|intros ->; by destruct Hk]]. split; [by intros [= <-]|by intros ->]. Qed.

Lemma new_ok g tdb cm : genesis_ok g → chain_ok g (new_chain g tdb cm) ∧ top (db (new_chain g tdb cm)) g.
Proof.
  intros (Hn & Hz & Ht). assert (Hanc : ∀ a, anc (db (new_chain g tdb cm)) g a → a = g). { intros a Ha. inversion Ha as [|? p ? (Hp & _) _]; subst; [done|]. lia. }
  assert (Hno : ∀ b p, stored (db (new_chain g tdb cm)) b → ¬ parent (db (new_chain g tdb cm)) b p) by (intros b p ->%(new_stored g tdb cm b Hn) (Hp & _); lia).
  split; [split|].
  - split.
    + intros n h b. rewrite new_read by done. case_decide as Hk; [|done]. destruct Hk as [-> ->]. intros [= <-]. split_and!; done.
    + intros b ->%(new_stored g tdb cm b Hn). by left.
    + split; [by apply new_stored|done].
    + by intros b b' ->%(new_stored g tdb cm b Hn) ->%(new_stored g tdb cm b' Hn).
  - split; [by apply new_stored|done].
  - intros k h. cbn. rewrite lookup_insert_Some, lookup_empty. intros [[<- _]|[_ ?]]; [lia|done].
  - intros a ->%Hanc. cbn [new_chain db canonical]. rewrite Hn. done.
  - intros h n. split; [done|]. intros (a & ->%Hanc & _ & Hh). unfold hashes in Hh. rewrite Ht in Hh. by apply not_elem_of_nil in Hh.
  - intros b a h ->%(new_stored g tdb cm b Hn) ->%Hanc. done.
  - intros b ->%(new_stored g tdb cm b Hn). unfold GetBlockNumber, ReadHeaderNumber. cbn. apply lookup_insert_eq.
  - intros b Hb. pose proof Hb as ->%(new_stored g tdb cm b Hn). exists (Difficulty g). split; [|intros p Hp; by destruct (Hno g p)]. unfold td_of, GetTd, ReadTd. rewrite Hn. cbn. by rewrite lookup_insert_eq.
  - intros k Hk. cbn. rewrite lookup_insert_ne by lia. done.
Qed.

(** A block that [writeBlockWithState] has made the head. *)
Lemma written_head g bc b ptd tdh W bc1 bc2 : chain_ok g bc → valid (db bc) b → GetTd (db bc) (ParentHash b) (NumberU64 b - 1) = Some ptd → td_of (db bc) (currentBlock bc) = Some tdh →
  grows (db bc) (db bc1) b (Difficulty b + ptd) → currentBlock bc1 = currentBlock bc → tdh <= Difficulty b + ptd → writeKnownBlock b bc1 = Ok bc2 tt →
  chain_ok g bc2 ∧ (heavy bc W → heavy bc2 (b :: W)) ∧ (top (db bc) (currentBlock bc) → ¬ lowers bc b → top (db bc2) (currentBlock bc2)).
Proof.
  intros OK V Ep Eh G C Hle Ek. pose proof (store_block g bc bc1 b ptd OK V Ep G C) as OK1. assert (Hb : stored (db bc1) b) by (apply (stored_grow _ _ _ _ V G); by left). destruct (va_parent _ _ V) as (p & (Hpos & _) & _).
  destruct (head_block g bc1 b OK1 Hb Hpos) as (bc2' & Ek' & OK2 & C2 & F2 & T2). rewrite Ek in Ek'. injection Ek' as <-.
  assert (Eb : td_of (db bc1) b = Some (Difficulty b + ptd)) by (by eapply td_new). assert (Ec : td_of (db bc1) (currentBlock bc1) = Some tdh) by (rewrite C, (td_grow g bc bc1 b ptd OK V Ep G); [done|by apply (co_head _ _ OK)]).
  split_and!; [done| |].
  - intros HH x [->|Hx]%elem_of_cons.
    + split; [by apply (same_stored _ _ _ (proj1 F2))|]. exists (Difficulty b + ptd), (Difficulty b + ptd). rewrite C2. unfold td_of, GetTd, ReadTd in *. destruct F2 as ((_ & _ & -> & _) & _). split_and!; [done|done|lia].
    + exact (head_heavy g bc1 b bc2 W _ tdh OK1 F2 C2 Hb Eb Ec Hle (store_heavy g bc bc1 b ptd OK V Ep G C W HH) x Hx).
  - intros Ht Hl. rewrite C2. apply T2; [eapply store_top; [exact G|done|exact Ht]|]. intros [L1 L2]. apply Hl. rewrite C in L1. destruct (gr_rest _ _ _ _ G) as (R1 & _). rewrite R1 in L2. split; [done|by exists ptd, tdh].
Qed.

(** A block that has been written without becoming the head. *)
Lemma written_side g bc b ptd tdh W bc1 : chain_ok g bc → valid (db bc) b → GetTd (db bc) (ParentHash b) (NumberU64 b - 1) = Some ptd → td_of (db bc) (currentBlock bc) = Some tdh → heavy bc W →
  grows (db bc) (db bc1) b (Difficulty b + ptd) → currentBlock bc1 = currentBlock bc → Difficulty b + ptd <= tdh → heavy bc1 (b :: W).
Proof.
  intros OK V Ep Eh HH G C Hle x [->|Hx]%elem_of_cons; [|by apply (store_heavy g bc bc1 b ptd OK V Ep G C W HH)]. split; [apply (stored_grow _ _ _ _ V G); by left|]. exists (Difficulty b + ptd), tdh.
  split_and!; [by eapply td_new| |done]. rewrite C, (td_grow g bc bc1 b ptd OK V Ep G); [done|by apply (co_head _ _ OK)].
Qed.

(** What a history may be kept from doing. *)
Definition never (what keep : BlockChain → Block → Prop) : Prop := ∀ bc b, keep bc b → ¬ what bc b.

Lemma reachable_ok keep known g bc W : genesis_ok g → reachable keep known g bc W → chain_ok g bc ∧ (never lighter known → heavy bc W) ∧ (never lowers keep → never below known → top (db bc) (currentBlock bc)).
Proof.
  intros Hg. induction 1 as [tdb cm|bc W b rs logs ps commit emit coin bc' st _ IH V K E|bc W b rs logs ps commit emit coin bc' e _ IH V K E|bc W b ptd bc' _ IH V Ep E|bc W b bc' _ IH Hb Hpos K E].
  - destruct (new_ok g tdb cm Hg) as [? ?]. split_and!; [done|by intros _ b ?%not_elem_of_nil|done].
  - destruct IH as (OK & HH & HT). destruct (write_cases g bc b rs logs ps commit emit coin OK V) as (ptd & tdh & Ep & Eh & HW). rewrite E in HW. inversion HW as [| | |bc1 G C Hle|bc1 bc2 bc3 G C Hle Ek D3 C3]; subst.
    + split_and!; [exact (store_block g bc bc' b ptd OK V Ep G C)|intros Hn; specialize (HH Hn); by eapply written_side|intros Hk Hk'; eapply store_top; [exact G|done|by apply HT]].
    + destruct (written_head g bc b ptd tdh W bc1 bc2 OK V Ep Eh G C Hle Ek) as (OK2 & H2 & T2). split_and!.
      * destruct OK2. by split; rewrite ?D3, ?C3.
      * intros Hn x Hx. rewrite D3, C3. by apply H2; [apply HH|].
      * intros Hk Hk'. rewrite D3, C3. apply T2; [by apply HT|by apply Hk].
  - destruct IH as (OK & HH & HT). destruct (write_cases g bc b rs logs ps commit emit coin OK V) as (ptd & tdh & Ep & Eh & HW). rewrite E in HW. inversion HW as [| |bc1 e1 G C| |]; subst.
    split_and!; [by eapply store_block|intros Hn; specialize (HH Hn); by eapply store_heavy|intros Hk Hk'; eapply store_top; [exact G|done|by apply HT]].
  - destruct IH as (OK & HH & HT). injection E as <-. pose proof (side_grows b (Difficulty b + ptd) (db bc)) as G.
    split_and!; [by eapply store_block|intros Hn; specialize (HH Hn); by eapply store_heavy|intros Hk Hk'; eapply store_top; [exact G|done|by apply HT]].
  - destruct IH as (OK & HH & HT). destruct (head_block g bc b OK Hb Hpos) as (bc2 & Ek & OK2 & C2 & F2 & T2). rewrite E in Ek. injection Ek as <-. split_and!; [done| |].
    + intros Hn. destruct (co_td _ _ OK b Hb) as (td & Etd & _), (co_td _ _ OK _ (proj1 (co_head _ _ OK))) as (tdh & Etdh & _).
      eapply (head_heavy g bc b bc' W td tdh OK F2 C2 Hb Etd Etdh); [|by apply HH]. destruct (Z.le_gt_cases tdh td); [done|]. exfalso. apply (Hn bc b K). by exists td, tdh.
    + intros Hk Hk'. rewrite C2. apply T2; [by apply HT|]. by apply Hk'.
Qed.

(** *** The canonical chain *)

Lemma marked_block d b a g : tree g d → stored d b → follows d b → anc d b a → GetBlockByNumber d (NumberU64 a) = Some a.
Proof.
  intros T Hb HF Ha. pose proof (anc_stored d b a Ha Hb) as Hs. unfold GetBlockByNumber, ReadCanonicalHash. rewrite (HF a Ha). cbn [default]. rewrite decide_False by (by eapply stored_range). exact Hs.
Qed.

Lemma lookup_entry g d b h n : tree g d → stored d b → indexed d b → Transactions g = [] →
  ReadTxLookupEntry d h = Some n ↔ ∃ a, anc d b a ∧ NumberU64 a = n ∧ h ∈ hashes a.
Proof.
  intros T Hb HX Hg. rewrite <- (HX h n). unfold ReadTxLookupEntry. destruct (lookups d !! h) as [m|] eqn:E; [|done]. destruct (Z.eqb_spec m 0) as [->|?]; [|done]. exfalso.
  apply HX in E as (a & Ha & E0 & Hh). pose proof (root_genesis g d T a (anc_stored _ _ _ Ha Hb) E0) as ->. unfold hashes in Hh. rewrite Hg in Hh. by apply not_elem_of_nil in Hh.
Qed.

(** C19: After any history that starts from a genesis block, in which blocks are
    written (with states or without, some ended by an error of the node
    database, with reorganisations where the heavier block is on another branch)
    and stored blocks are made the head: [GetBlockByNumber] gives at every
    number up to the head's the head's ancestor there, and no other block; a
    transaction hash is found in the index exactly when a block of that chain
    has the transaction, under that block's number; and every stored block can
    become the head, without an error. As long as no stored block was made the
    head that was lighter than it (an import can do that), no block that was
    written with its state is heavier than the head. As long as no block that is
    lower than the head and whose parent is on the head's branch was written, at
    least as heavy as the head, or made the head, nothing is found above the
    head. Blocks have a stored parent, hashes stand for them, and no branch
    repeats a transaction. *)
Theorem canonical_chain_follows_head (keep known : BlockChain → Block → Prop) (g : Block) (bc : BlockChain) (W : list Block) (Hg : genesis_ok g) (H : reachable keep known g bc W) :
  let d := db bc in let head := currentBlock bc in
  (∀ k, 0 <= k <= NumberU64 head → ∃ a, anc d head a ∧ NumberU64 a = k ∧ GetBlockByNumber d k = Some a) ∧
  (∀ h n, ReadTxLookupEntry d h = Some n ↔ ∃ a, anc d head a ∧ NumberU64 a = n ∧ h ∈ hashes a) ∧
  (never lighter known → ∀ b, b ∈ W → ∃ td tdh, GetTd d (Hash b) (NumberU64 b) = Some td ∧ GetTd d (Hash head) (NumberU64 head) = Some tdh ∧ td <= tdh) ∧
  (∀ b, GetBlock d (Hash b) (NumberU64 b) = Some b → 0 < NumberU64 b → ∃ bc', writeKnownBlock b bc = Ok bc' tt ∧ currentBlock bc' = b) ∧
  (never lowers keep → never below known → ∀ k, NumberU64 head < k → GetBlockByNumber d k = None).
Proof.
  destruct (reachable_ok keep known g bc W Hg H) as (OK & HH & HT). destruct (co_head _ _ OK) as [Hs _]. pose proof (co_tree _ _ OK) as T. cbn zeta. split_and!.
  - intros k Hk. destruct (anc_exists g _ T _ k Hs Hk) as (a & Ha & <-). exists a. split_and!; [done|done|]. exact (marked_block _ _ _ _ T Hs (co_follows _ _ OK) Ha).
  - intros h n. exact (lookup_entry g _ _ h n T Hs (co_indexed _ _ OK) (proj2 (proj2 Hg))).
  - intros Hn b Hb. by destruct (HH Hn b Hb) as (_ & ?).
  - intros b Hb Hpos. destruct (head_block g bc b OK Hb Hpos) as (bc' & E & _ & C & _). by exists bc'.
  - intros Hk Hk' k Hlt. unfold GetBlockByNumber, ReadCanonicalHash. rewrite (HT Hk Hk' k Hlt). by rewrite decide_True.
Qed.

(** ** Histories that run *)

(** [valid] as a check. *)
Definition validb (d : chaindb) (b : Block) : bool :=
  (NumberU64 b <? 2 ^ 63) && (0 <? NumberU64 b) && bool_decide (Hash b ≠ zeroHash) && bool_decide (map_Forall (λ _ hd, h_Hash hd ≠ Hash b) (headers d)) &&
  match ReadBlock d (ParentHash b) (NumberU64 b - 1) with
  | None => false
  | Some p => bool_decide (Hash p = ParentHash b) && (NumberU64 p =? NumberU64 b - 1) &&
      forallb (λ a, bool_decide (Forall (λ h, h ∉ hashes a) (hashes b))) (blocks_from d (S (Z.to_nat (NumberU64 p))) (Hash p) (NumberU64 p))
  end.

Lemma blocks_from_anc d p a : anc d p a → stored d p → 0 <= NumberU64 a → NumberU64 p < 2 ^ 63 → ∀ n, (Z.to_nat (NumberU64 p) < n)%nat → a ∈ blocks_from d n (Hash p) (NumberU64 p).
Proof.
  induction 1 as [p|p q a Hq Ha IH]; intros Hp H0 Hr [|n] Hn; try lia; cbn [blocks_from]; unfold GetBlock; rewrite Hp; [left|right]. pose proof Hq as (Hpos & Eh & En & Hs).
  rewrite <- Eh, u64_small by (unfold is_u64, two64; lia). rewrite <- En. apply IH; [done|done|lia|]. rewrite En. lia.
Qed.

Lemma validb_ok d b : (∀ a, stored d a → 0 <= NumberU64 a) → validb d b = true → valid d b.
Proof.
  intros Hn. unfold validb. destruct (ReadBlock d (ParentHash b) (NumberU64 b - 1)) as [p|] eqn:Ep; [|by rewrite andb_false_r]. rewrite !andb_true_iff, !bool_decide_eq_true, !Z.ltb_lt, Z.eqb_eq. intros ((((H1 & H2) & H3) & H4) & (H5 & H6) & H7).
  assert (Hp : stored d p) by (unfold stored; by rewrite H5, H6). split; [done| |].
  - exists p. split; [done|]. intros a h Ha Hh. rewrite forallb_forall in H7. pose proof (blocks_from_anc d p a Ha Hp (Hn a (anc_stored d p a Ha Hp)) ltac:(lia) (S (Z.to_nat (NumberU64 p))) ltac:(lia)) as Hin.
    apply list_elem_of_In in Hin. specialize (H7 a Hin). rewrite bool_decide_eq_true, Forall_forall in H7. by apply H7.
  - intros x Hx E. exfalso. unfold stored, ReadBlock, ReadHeader in Hx. destruct (headers d !! _) as [hd|] eqn:Eh; [|done]. cbn in Hx. destruct (ReadBody d _ _) as [body|]; [|done]. injection Hx as <-.
    by apply (H4 _ _ Eh).
Qed.

(** Blocks are written one after the other, with empty states. *)
Fixpoint run (keep : BlockChain → Block → bool) (l : list Block) (bc : BlockChain) : option BlockChain :=
  match l with
  | [] => Some bc
  | b :: l =>
      if validb (db bc) b && keep bc b then
        match writeBlockWithState keccak config shouldPreserve b [] [] [] (TrieDb.ret (Root b)) false false bc with
        | Ok bc' _ => run keep l bc'
        | _ => None
        end
      else None
  end.

Lemma run_reachable keep known g l : genesis_ok g → ∀ bc W bc', reachable (λ bc b, keep bc b = true) known g bc W → run keep l bc = Some bc' → reachable (λ bc b, keep bc b = true) known g bc' (reverse l ++ W).
Proof.
  intros Hg. induction l as [|b l IH]; intros bc W bc' HR E; cbn [run] in E; [by injection E as <-|]. destruct (validb _ _ && _) eqn:Ev; [|done]. apply andb_true_iff in Ev as [Ev Ek].
  destruct (writeBlockWithState _ _ _ _ _ _ _ _ _ _ bc) as [bc1 st| | |] eqn:Ew; [|done|done|done]. rewrite reverse_cons, <- (assoc_L (++)). apply (IH bc1 (b :: W)); [|done].
  eapply reach_write; [exact HR| |exact Ek|exact Ew]. apply validb_ok; [|done]. intros a Ha. destruct (reachable_ok _ known g bc W Hg HR) as (OK & _). destruct (stored_range g _ (co_tree _ _ OK) a Ha) as [? _]. lia.
Qed.

End Claims.

(** ** A concrete chain *)

#[local] Existing Instance TrieDbClaims.demo_env.

Definition demo_id (x : Z) : bytes := repeat (z2b x) 32.

Definition demo_block (x parent number difficulty : Z) (txs : list Transaction) : Block := mk_Block (mk_Header (demo_id x) (demo_id parent) number difficulty (demo_id (x + 100)) number) txs.

(** Two branches: a1 and a2, and b1, b2 with b2 the heaviest; one transaction is on both. *)
Definition tx1 : Transaction := mk_tx (demo_id 201) PoolClaims.txA.
Definition tx2 : Transaction := mk_tx (demo_id 202) PoolClaims.txB.
Definition tx3 : Transaction := mk_tx (demo_id 203) PoolClaims.purchase.
Definition blk_g : Block := demo_block 1 0 0 1 [].
Definition blk_a1 : Block := demo_block 2 1 1 1 [tx1].
Definition blk_a2 : Block := demo_block 3 2 2 1 [tx2].
Definition blk_b1 : Block := demo_block 4 1 1 1 [tx2].
Definition blk_b2 : Block := demo_block 5 4 2 3 [tx3].

(** A block that is as heavy as a1 and a2. *)
Definition blk_c1 : Block := demo_block 6 1 1 2 [tx3].

Definition demo_config : CacheConfig := mk_config 256 false 300.

(** The coin both transfers spend, and a database that has it. *)
Definition coin_hash : bytes := CMdb.CM_Hash Sha256.sha256 (Types.NewDefaultCM (Types.CmO PoolClaims.txA)).
Definition demo_coins : CMdb.database := match CMdb.WriteCM ∅ coin_hash (Types.NewDefaultCM (Types.CmO PoolClaims.txA)) with Ret d => d | _ => ∅ end.

Definition demo_start : BlockChain := new_chain blk_g (TrieDb.NewDatabase ∅) demo_coins.
Definition demo_run (keep : BlockChain → Block → bool) (l : list Block) : option BlockChain := run Sha256.sha256 demo_config None keep l demo_start.

(** [lowers] as a check. *)
Definition not_lower (bc : BlockChain) (b : Block) : bool :=
  negb ((NumberU64 b <? NumberU64 (currentBlock bc)) &&
    match GetTd (db bc) (ParentHash b) (NumberU64 b - 1), td_of (db bc) (currentBlock bc) with Some ptd, Some tdh => tdh <=? Difficulty b + ptd | _, _ => false end).

Lemma not_lower_ok : never lowers (λ bc b, not_lower bc b = true).
Proof.
  intros bc b. unfold not_lower. rewrite negb_true_iff, andb_false_iff, Z.ltb_ge. intros H [[H1 _] (ptd & tdh & E1 & E2 & H2)]. rewrite E1, E2, Z.leb_gt in H. lia.
Qed.

(** A history that makes no stored block the head. *)
Definition nothing (_ : BlockChain) (_ : Block) : Prop := False.

Lemma never_nothing what : never what nothing.
Proof. by intros bc b. Qed.

Lemma blk_g_ok : genesis_ok blk_g.
Proof. split_and!; [done| |done]. by apply (bool_decide_unpack _). Qed.

Lemma demo_run_reachable keep l bc : demo_run keep l = Some bc → reachable Sha256.sha256 demo_config None (λ bc b, keep bc b = true) nothing blk_g bc (reverse l).
Proof. intros E. rewrite <- (app_nil_r (reverse l)). eapply run_reachable; [exact blk_g_ok|apply reach_new|exact E]. Qed.

(** What the examples look at: the head, its number, the block found at a
    number, where a transaction is found, and whether the coin is spent. *)
Definition view (k : Z) (h : bytes) (bc : BlockChain) : bytes * Z * option bytes * option Z * option bool :=
  (Hash (currentBlock bc), NumberU64 (currentBlock bc), Hash <$> GetBlockByNumber (db bc) k, ReadTxLookupEntry (db bc) h, Types.Spent <$> CMdb.ReadCM (CMdb bc) coin_hash).

Lemma demo_view keep l k h v : view k h <$> demo_run keep l = Some v →
  ∃ bc, reachable Sha256.sha256 demo_config None (λ bc b, keep bc b = true) nothing blk_g bc (reverse l) ∧ view k h bc = v.
Proof. intros E. destruct (demo_run keep l) as [bc|] eqn:Er; [|done]. injection E as <-. exists bc. split; [by apply demo_run_reachable|done]. Qed.

Definition viewb (x y : option (bytes * Z * option bytes * option Z * option bool)) : bool := bool_decide (x = y).

Lemma viewb_eq x y : viewb x y = true → x = y.
Proof. by intros ?%bool_decide_eq_true. Qed.

(** [canonical_chain_follows_head] on a history that ends on another branch:
    b2 is the head, b1 is found at 1, and the transaction both branches have
    is found there; nothing is found above. *)
Lemma canonical_chain_follows_head_witness : ∃ bc, genesis_ok blk_g ∧ reachable Sha256.sha256 demo_config None (λ bc b, not_lower bc b = true) nothing blk_g bc [blk_b2; blk_b1; blk_a2; blk_a1] ∧
  view 1 (tx_Hash tx2) bc = (Hash blk_b2, 2, Some (Hash blk_b1), Some 1, Some true) ∧ (∀ k, 2 < k → GetBlockByNumber (db bc) k = None).
Proof.
  destruct (demo_view not_lower [blk_a1; blk_a2; blk_b1; blk_b2] 1 (tx_Hash tx2) (Hash blk_b2, 2, Some (Hash blk_b1), Some 1, Some true)) as (bc & HR & E).
  - apply viewb_eq. vm_compute. reflexivity.
  - exists bc. split; [exact blk_g_ok|]. split; [exact HR|]. split; [exact E|].
    destruct (canonical_chain_follows_head _ _ _ _ _ blk_g bc _ blk_g_ok HR) as (_ & _ & _ & _ & H). intros k Hk. apply H; [exact not_lower_ok|exact (never_nothing below)|]. assert (En : NumberU64 (currentBlock bc) = 2) by (injection E; auto). rewrite En. exact Hk.
Defined.

(** Where the new head is lower and its parent is on the old branch, the
    markers above it stay: they lead to a block that was abandoned. *)
Lemma stale_marker_above_head : ∃ bc, reachable Sha256.sha256 demo_config None (λ _ _, true = true) nothing blk_g bc [blk_c1; blk_a2; blk_a1] ∧
  view 2 (tx_Hash tx3) bc = (Hash blk_c1, 1, Some (Hash blk_a2), Some 1, Some true).
Proof. apply (demo_view (λ _ _, true) [blk_a1; blk_a2; blk_c1]), viewb_eq. vm_compute. reflexivity. Qed.

(** A block that does not become the head marks the coins of its transfers
    spent, though no block of the chain spends them. *)
Lemma side_block_spends :
  (∃ bc, reachable Sha256.sha256 demo_config None (λ _ _, true = true) nothing blk_g bc [blk_c1] ∧ view 1 (tx_Hash tx1) bc = (Hash blk_c1, 1, Some (Hash blk_c1), None, Some false)) ∧
  (∃ bc, reachable Sha256.sha256 demo_config None (λ _ _, true = true) nothing blk_g bc [blk_a1; blk_c1] ∧ view 1 (tx_Hash tx1) bc = (Hash blk_c1, 1, Some (Hash blk_c1), None, Some true)).
Proof.
  split.
  - apply (demo_view (λ _ _, true) [blk_c1]), viewb_eq. vm_compute. reflexivity.
  - apply (demo_view (λ _ _, true) [blk_c1; blk_a1]), viewb_eq. vm_compute. reflexivity.
Qed.

End ChainClaims.
