(* ===== verification/ChainInsert.v ===== *)
(** * ChainInsert: importing blocks

    InsertChain, insertChain and insertSideChain of core/blockchain.go, the
    iterator of core/blockchain_insert.go, ValidateBody of
    core/block_validator.go, and the shutdown of the chain.

    - The consensus engine, the processor and the state validator are
      interfaces of the program; here they are the class [Processing], with
      the clock and the random choice between equally heavy heads.
    - A returned pair of an index and an error is a value; an operation that
      returns an error goes on from the chain it left ([try]).
    - Nothing asks the import to stop; prefetching and statistics are left out. *)

From stdpp Require Import base gmap list.
From Stdlib Require Import ZArith Lia.
From S2P Require Import Prelude Types CMdb Trie TrieHash TrieDb TrieCommit Chain.

Local Open Scope Z_scope.

Module ChainInsert.
Import Chain.

(** ** Constants *)

Definition maxFutureBlocks : nat := 256.
Definition maxTimeFutureBlocks : Z := 30.
Definition badBlockLimit : nat := 10.

Definition BadHashes : list bytes := fixed_be 32 <$>
  [0x05bef30ef572270f654746da22639a7a0c97dd97a7050b9e252391996aaeb689; 0x7d05d08cbc596a2e5e4f13b80a743e53e09221b5323c3a61946b20873e58583f].

(** The iterator: the index, the block at it and the one before it, and the
    blocks that follow with the results of the header verification. *)
Record insertIterator := mk_it { it_len : Z; it_index : Z; it_prev : option Block; it_cur : option Block; it_rest : list (Block * option chain_error) }.

Definition newInsertIterator (chain : list Block) (results : list (option chain_error)) : insertIterator :=
  mk_it (Z.of_nat (length chain)) (-1) None None (zip chain results).

(** Where an import is: the block and the error [next] returned. *)
Record cursor := mk_cursor { c_block : option Block; c_err : option chain_error; c_it : insertIterator }.

(** What an import returns. *)
Abbreviation result := (Z * option chain_error)%type.

Section WithEnvironment.
Context `{ENV : TrieDb.Environment}.

(** [VerifyHeaders] gives a result per header; [body_error] is VerifyUncles and
    the comparison of the roots of uncles and transactions; [execute] is
    Process and then ValidateState on the state with the given root: receipts,
    logs, preimages and the commit of the resulting state. *)
Class Processing := {
  VerifyHeaders : chaindb → list Header → list bool → list (option chain_error);
  body_error : chaindb → Block → option chain_error;
  execute : TrieDb.Database → bytes → Block → outcome chain_error (list Receipt * list Log * list (bytes * bytes) * TrieDb.M bytes);
  block_size : Block → Z;
  now : BlockChain → Z;
  proctime : BlockChain → Block → Z;
  coin : BlockChain → Block → bool;
}.

Context `{PROC : Processing}.
Context (keccak : bytes → bytes) (config : CacheConfig) (shouldPreserve : option (Block → bool)).

Local Notation "x <- m ;; k" := (bind m (λ x, k)) (at level 100, m at next level, right associativity).
Local Notation "m ;;; k" := (bind m (λ _, k)) (at level 100, right associativity).

Definition crash {A} : M A := λ _, Crash.
Definition unfinished {A} : M A := λ _, Unfinished.

Definition try {A} (m : M A) : M (chain_error + A) := λ bc,
  match m bc with
  | Ok bc a => Ok bc (inr a)
  | Fail bc e => Ok bc (inl e)
  | Crash => Crash
  | Unfinished => Unfinished
  end.

(** ** States *)

Definition HasState (bc : BlockChain) (root : bytes) : bool :=
  match TrieCommit.NewSecure (triedb bc) root with Ret _ => true | _ => false end.

Definition HasBlockAndState (bc : BlockChain) (h : bytes) (number : Z) : bool :=
  match GetBlock (db bc) h number with
  | None => false
  | Some b => HasState bc (Root b)
  end.

(** ** Validation (block_validator.go) *)

Definition ValidateBody (bc : BlockChain) (b : Block) : option chain_error :=
  if HasBlockAndState bc (Hash b) (NumberU64 b) then Some ErrKnownBlock
  else
    match body_error (db bc) b with
    | Some e => Some e
    | None =>
        if negb (HasBlockAndState bc (ParentHash b) (u64 (NumberU64 b - 1))) then
          if negb (HasBlock (db bc) (ParentHash b) (u64 (NumberU64 b - 1))) then Some ErrUnknownAncestor else Some ErrPrunedAncestor
        else None
    end.

(** ** The iterator (blockchain_insert.go) *)

Definition next (it : insertIterator) : M cursor :=
  bc <- get;;
  match it_rest it with
  | [] => ret (mk_cursor None None (mk_it (it_len it) (it_len it) (match it_cur it with Some b => Some b | None => it_prev it end) None []))
  | (b, e) :: rest =>
      ret (mk_cursor (Some b) (match e with Some e => Some e | None => ValidateBody bc b end) (mk_it (it_len it) (it_index it + 1) (it_cur it) (Some b) rest))
  end.

Definition advance (c : cursor) : M cursor := next (c_it c).

(** Rounds enough for a loop that advances. *)
Definition rounds (c : cursor) : nat := S (S (length (it_rest (c_it c)))).

(** ** Future and bad blocks *)

Definition addFutureBlock (b : Block) : M unit :=
  bc <- get;;
  if u64 (now bc + maxTimeFutureBlocks) <? h_Time (b_header b) then throw ErrFutureTime
  else modify (λ bc, set_future bc (lru_add maxFutureBlocks b (futureBlocks bc))).

Definition addBadBlock (b : Block) : M unit := modify (λ bc, set_bad bc (lru_add badBlockLimit b (badBlocks bc))).

Definition reportBlock (b : Block) : M unit := addBadBlock b.

(** Blocks are queued while [go] holds. *)
Fixpoint queue_blocks (fuel : nat) (go : cursor → bool) (c : cursor) : M result :=
  match fuel with
  | O => unfinished
  | S fuel =>
      match c_block c with
      | Some b =>
          if go c then
            r <- try (addFutureBlock b);;
            match r with
            | inl e => ret (it_index (c_it c), Some e)
            | inr _ => c <- advance c;; queue_blocks fuel go c
            end
          else ret (it_index (c_it c), c_err c)
      | None => ret (it_index (c_it c), c_err c)
      end
  end.

Definition unknown_ancestor (c : cursor) : bool := match c_err c with Some ErrUnknownAncestor => true | _ => false end.

(** ** Known blocks *)

Definition known (c : cursor) : option Block :=
  match c_block c, c_err c with
  | Some b, Some ErrKnownBlock => Some b
  | _, _ => None
  end.

(** Known blocks that are not heavier than the head are passed over. *)
Fixpoint skip_known (fuel : nat) (localTd externTd : option Z) (c : cursor) : M cursor :=
  match fuel with
  | O => unfinished
  | S fuel =>
      match known c with
      | None => ret c
      | Some b =>
          e <- some externTd;;
          l <- some localTd;;
          let e := e + Difficulty b in
          if l <? e then ret c else c <- advance c;; skip_known fuel localTd (Some e) c
      end
  end.

(** The others become the head one after the other. *)
Fixpoint write_known (fuel : nat) (c : cursor) (lastCanon : option Block) : M ((result + cursor) * option Block) :=
  match fuel with
  | O => unfinished
  | S fuel =>
      match known c with
      | None => ret (inr c, lastCanon)
      | Some b =>
          r <- try (writeKnownBlock b);;
          match r with
          | inl e => ret (inl (it_index (c_it c), Some e), lastCanon)
          | inr _ => c <- advance c;; write_known fuel c (Some b)
          end
      end
  end.

(** ** New blocks *)

(** One block is executed on the state of its parent and written. *)
Definition import_block (b : Block) (it : insertIterator) : M (chain_error + WriteStatus) :=
  bc <- get;;
  root <- some (match it_prev it with
                | Some p => Some (Root p)
                | None => h_Root <$> GetHeader (db bc) (ParentHash b) (u64 (NumberU64 b - 1))
                end);;
  if negb (HasState bc root) then ret (inl ErrState)
  else
    match execute (triedb bc) root b with
    | Err e => reportBlock b;;; ret (inl e)
    | Panic => crash
    | Ret (rs, logs, ps, commit) => try (writeBlockWithState keccak config shouldPreserve b rs logs ps commit false (coin bc b))
    end.

Fixpoint import_blocks (fuel : nat) (c : cursor) (lastCanon : option Block) : M ((result + cursor) * option Block) :=
  match fuel with
  | O => unfinished
  | S fuel =>
      let index := it_index (c_it c) in
      match c_block c, c_err c with
      | None, Some ErrKnownBlock => crash
      | Some b, Some ErrKnownBlock =>
          if bool_decide (Hash b ∈ BadHashes) then reportBlock b;;; ret (inl (index, Some ErrBlacklistedHash), lastCanon)
          else
            r <- try (writeKnownBlock b);;
            match r with
            | inl e => ret (inl (index, Some e), lastCanon)
            | inr _ => c <- advance c;; import_blocks fuel c (Some b)
            end
      | Some b, None =>
          if bool_decide (Hash b ∈ BadHashes) then reportBlock b;;; ret (inl (index, Some ErrBlacklistedHash), lastCanon)
          else
            r <- import_block b (c_it c);;
            match r with
            | inl e => ret (inl (index, Some e), lastCanon)
            | inr CanonStatTy =>
                modify (λ bc, set_gcproc bc (gcproc bc + proctime bc b));;;
                c <- advance c;; import_blocks fuel c (Some b)
            | inr _ => c <- advance c;; import_blocks fuel c lastCanon
            end
      | _, _ => ret (inr c, lastCanon)
      end
  end.

(** ** Blocks on pruned states *)

(** Blocks whose ancestors have no states are stored without theirs; the total
    difficulty of the last one is kept. *)
Fixpoint side_blocks (fuel : nat) (current : Block) (externTd : option Z) (c : cursor) : M (result + (cursor * option Z)) :=
  match fuel with
  | O => unfinished
  | S fuel =>
      match c_block c, c_err c with
      | Some b, Some ErrPrunedAncestor =>
          bc <- get;;
          let canonical := if NumberU64 b <=? NumberU64 current then GetBlockByNumber (db bc) (NumberU64 b) else None in
          if match canonical with Some x => bool_decide (Hash x = Hash b) | None => false end then
            c <- advance c;; side_blocks fuel current (GetTd (db bc) (Hash b) (NumberU64 b)) c
          else if match canonical with Some x => bool_decide (Root x = Root b) | None => false end then
            ret (inl (it_index (c_it c), Some ErrGhostState))
          else
            e <- some (match externTd with Some e => Some e | None => GetTd (db bc) (ParentHash b) (u64 (NumberU64 b - 1)) end);;
            let e := e + Difficulty b in
            (if negb (HasBlock (db bc) (Hash b) (NumberU64 b)) then writeBlockWithoutState b e else ret tt);;;
            c <- advance c;; side_blocks fuel current (Some e) c
      | _, _ => ret (inr (c, externTd))
      end
  end.

(** Headers back to one with a state; newest first. Block numbers are fuel enough. *)
Fixpoint gather_pruned (fuel : nat) (bc : BlockChain) (parent : option Header) : option (list (bytes * Z) * option Header) :=
  match parent with
  | None => Some ([], None)
  | Some hd =>
      if HasState bc (h_Root hd) then Some ([], parent)
      else
        match fuel with
        | O => None
        | S fuel => '(l, r) ← gather_pruned fuel bc (GetHeader (db bc) (h_ParentHash hd) (u64 (h_Number hd - 1))); Some ((h_Hash hd, h_Number hd) :: l, r)
        end
  end.

(** They are imported again, oldest first and in batches. *)
Fixpoint reimport (insert : list Block → M result) (l : list (bytes * Z)) (blocks : list Block) (memory : Z) : M result :=
  match l with
  | [] => if decide (blocks = []) then ret (0, None) else insert blocks
  | (h, n) :: l =>
      bc <- get;;
      b <- some (GetBlock (db bc) h n);;
      let blocks := blocks ++ [b] in
      let memory := memory + block_size b in
      if (2048 <=? Z.of_nat (length blocks)) || (64 * 1024 * 1024 <? memory) then
        r <- insert blocks;;
        match r with
        | (_, Some e) => ret (0, Some e)
        | (_, None) => reimport insert l [] 0
        end
      else reimport insert l blocks memory
  end.

Definition insertSideChain (insert : list Block → M result) (c : cursor) : M result :=
  bc <- get;;
  let current := currentBlock bc in
  r <- side_blocks (rounds c) current None c;;
  match r with
  | inl r => ret r
  | inr (c, externTd) =>
      bc <- get;;
      localTd <- some (GetTd (db bc) (Hash current) (NumberU64 current));;
      externTd <- some externTd;;
      if externTd <? localTd then ret (it_index (c_it c), c_err c)
      else
        match gather_pruned (match it_prev (c_it c) with Some p => S (Z.to_nat (NumberU64 p)) | None => O end) bc (b_header <$> it_prev (c_it c)) with
        | None => unfinished
        | Some (_, None) => ret (it_index (c_it c), Some ErrMissingParent)
        | Some (l, Some _) => reimport insert (reverse l) [] 0
        end
  end.

(** ** The import *)

(** The blocks that are left after the import of a prefix. *)
Definition insert_tail (c : cursor) : M result :=
  match c_block c, c_err c with
  | Some b, Some ErrFutureBlock =>
      r <- try (addFutureBlock b);;
      match r with
      | inl e => ret (it_index (c_it c), Some e)
      | inr _ => c <- advance c;; queue_blocks (rounds c) unknown_ancestor c
      end
  | _, _ => ret (it_index (c_it c), c_err c)
  end.

(** Known blocks at the start of the chain. *)
Definition insert_known (c : cursor) : M ((result + cursor) * option Block) :=
  match known c with
  | None => ret (inr c, None)
  | Some b =>
      bc <- get;;
      let current := currentBlock bc in
      c <- skip_known (rounds c) (GetTd (db bc) (Hash current) (NumberU64 current)) (GetTd (db bc) (ParentHash b) (u64 (NumberU64 b - 1))) c;;
      write_known (rounds c) c None
  end.

(** The first block that is not known directs the import. *)
Definition insert_rest (insert : list Block → M result) (first : Block) (c : cursor) (lastCanon : option Block) : M (result * option Block) :=
  bc <- get;;
  match c_block c, c_err c with
  | Some b, Some ErrPrunedAncestor => r <- insertSideChain insert c;; ret (r, lastCanon)
  | Some b, Some e =>
      if match e with ErrFutureBlock => true | ErrUnknownAncestor => lru_contains (ParentHash first) (futureBlocks bc) | _ => false end then
        r <- queue_blocks (rounds c) (λ c, (it_index (c_it c) =? 0) || unknown_ancestor c) c;; ret (r, lastCanon)
      else
        modify (λ bc, set_future bc (lru_remove (Hash b) (futureBlocks bc)));;;
        reportBlock b;;;
        ret ((it_index (c_it c), Some e), lastCanon)
  | _, _ =>
      r <- import_blocks (rounds c) c lastCanon;;
      match r with
      | (inl r, lastCanon) => ret (r, lastCanon)
      | (inr c, lastCanon) => r <- insert_tail c;; ret (r, lastCanon)
      end
  end.

(** [fuel] bounds the imports inside an import. *)
Fixpoint insertChain (fuel : nat) (verifySeals : bool) (chain : list Block) : M result :=
  match fuel, chain with
  | O, _ => unfinished
  | _, [] => crash
  | S fuel, first :: _ =>
      bc <- get;;
      let results := VerifyHeaders (db bc) (b_header <$> chain) (replicate (length chain) verifySeals) in
      c <- next (newInsertIterator chain results);;
      k <- insert_known c;;
      r <- match k with
           | (inl r, lastCanon) => ret (r, lastCanon)
           | (inr c, lastCanon) => insert_rest (insertChain fuel false) first c lastCanon
           end;;
      let '(r, lastCanon) := r in
      modify (λ bc, match lastCanon with
                    | Some b => if decide (Hash (currentBlock bc) = Hash b) then send bc [ChainHeadEvent b] else bc
                    | None => bc
                    end);;;
      ret r
  end.

(** Ordered and linked. *)
Fixpoint linked (chain : list Block) : bool :=
  match chain with
  | prev :: (b :: _) as rest => (NumberU64 b =? u64 (NumberU64 prev + 1)) && bool_decide (ParentHash b = Hash prev) && linked rest
  | _ => true
  end.

Definition InsertChain (fuel : nat) (chain : list Block) : M result :=
  match chain with
  | [] => ret (0, None)
  | _ => if linked chain then insertChain fuel true chain else ret (0, Some ErrNonContiguous)
  end.

(** ** Shutting down *)

Definition stop_write (offset : Z) : M unit :=
  bc <- get;;
  let number := NumberU64 (currentBlock bc) in
  if offset <? number then
    recent <- some (GetBlockByNumber (db bc) (u64 (number - offset)));;
    tries (TrieDb.Commit (Root recent));;; ret tt
  else ret tt.

Fixpoint drop_tries (fuel : nat) : M unit :=
  match fuel with
  | O => ret tt
  | S fuel =>
      bc <- get;;
      match pop_lowest (triegc bc) with
      | None => ret tt
      | Some ((root, _), rest) => modify (λ bc, set_triegc bc rest);;; tries (TrieDb.Dereference root);;; drop_tries fuel
      end
  end.

(** The states of three recent blocks are persisted, all others given up. *)
Definition Stop : M unit :=
  if TrieDirtyDisabled config then ret tt
  else
    each stop_write [0; 1; TriesInMemory - 1];;;
    bc <- get;;
    drop_tries (length (triegc bc)).

End WithEnvironment.
End ChainInsert.
