(* ===== verification/ChainInsertProofs.v ===== *)
(** * ChainInsertProofs: every import leaves a chain in order

    What one step of an import needs of the chain and leaves of it, and the
    loops of the import. *)

From stdpp Require Import base gmap list.
From Stdlib Require Import ZArith Lia.
From S2P Require Import Prelude Types CMdb TrieHash TrieDb TrieCommit Chain ChainProofs ChainClaims ChainInsert.

Local Open Scope Z_scope.

Module ChainInsertProofs.
Import Chain ChainProofs ChainClaims ChainInsert.

(** ** The blocks that may be met *)

(** [a] is reached from [b] through the parents in [U]. *)
Inductive line (U : Block → Prop) : Block → Block → Prop :=
  | line_parent b p : U p → Hash p = ParentHash b → NumberU64 p = NumberU64 b - 1 → line U b p
  | line_step b p a : U p → Hash p = ParentHash b → NumberU64 p = NumberU64 b - 1 → line U p a → line U b a.

(** Hashes stand for blocks, and no block repeats a transaction of an
    ancestor (its sender's nonce has gone on). *)
Record universe (U : Block → Prop) : Prop := {
  un_range : ∀ b, U b → 0 <= NumberU64 b < 2 ^ 63 ∧ Hash b ≠ zeroHash;
  un_hash : ∀ b b', U b → U b' → Hash b = Hash b' → b = b';
  un_txs : ∀ b a h, U b → line U b a → h ∈ hashes b → h ∉ hashes a;
}.

Section Import.
Context {ENV : TrieDb.Environment} {PROC : Processing}.
Context (keccak : bytes → bytes) (config : CacheConfig) (shouldPreserve : option (Block → bool)).
Context (g : Block) (U S : Block → Prop) (UN : universe U).

(** ** The invariant *)

(** [S]: blocks that are stored and stay so. *)
Record import_ok (bc : BlockChain) : Prop := {
  io_chain : chain_ok g bc;
  io_paired : ∀ k, is_Some (headers (db bc) !! k) ↔ is_Some (bodies (db bc) !! k);
  io_tds : ∀ n h td, tds (db bc) !! (n, h) = Some td → n < 2 ^ 63;
  io_in : ∀ b, stored (db bc) b → U b;
  io_kept : ∀ b, S b → stored (db bc) b;
}.

Section Facts.
Context (bc : BlockChain) (OK : import_ok bc).

Lemma got_block h n b : GetBlock (db bc) h n = Some b → stored (db bc) b ∧ U b ∧ Hash b = h ∧ NumberU64 b = n.
Proof.
  intros E. destruct (tr_key _ _ (co_tree _ _ (io_chain _ OK)) n h b E) as (En & Eh & _). assert (stored (db bc) b) by (unfold stored; by rewrite Eh, En). split_and!; [done|by apply (io_in _ OK)|done|done].
Qed.

Lemma got_header h n hd : GetHeader (db bc) h n = Some hd → ∃ b, GetBlock (db bc) h n = Some b ∧ b_header b = hd.
Proof.
  intros E. unfold GetHeader, ReadHeader in E. destruct (proj1 (io_paired _ OK (n, h)) (mk_is_Some _ _ E)) as [body Eb]. exists (mk_Block hd body). split; [|done]. unfold GetBlock, ReadBlock, ReadHeader, ReadBody. by rewrite E, Eb.
Qed.

Lemma has_block h n : HasBlock (db bc) h n = true → ∃ b, GetBlock (db bc) h n = Some b.
Proof.
  intros H%bool_decide_eq_true. destruct (proj2 (io_paired _ OK (n, h)) H) as [hd E]. destruct (got_header h n hd E) as (b & ? & _). by exists b.
Qed.

Lemma is_stored b b' : U b → GetBlock (db bc) (Hash b) (NumberU64 b) = Some b' → stored (db bc) b.
Proof. intros Hb E. destruct (got_block _ _ _ E) as (Hs & Hu & Eh & _). by rewrite <- (un_hash _ UN b' b Hu Hb Eh). Qed.

Lemma anc_line p a b : anc (db bc) p a → stored (db bc) p → Hash p = ParentHash b → NumberU64 p = NumberU64 b - 1 → line U b a.
Proof.
  intros Ha. revert b. induction Ha as [p|p q a Hq Ha IH]; intros b Hs E1 E2; [apply line_parent; [by apply (io_in _ OK)|done|done]|].
  destruct Hq as (Hpos & Eh & En & Hsq). eapply line_step; [by apply (io_in _ OK)|exact E1|exact E2|]. by apply IH.
Qed.

(** A block whose parent is found is fit to be stored. *)
Lemma fit b p : U b → GetBlock (db bc) (ParentHash b) (u64 (NumberU64 b - 1)) = Some p → valid (db bc) b ∧ parent (db bc) b p ∧ u64 (NumberU64 b - 1) = NumberU64 b - 1.
Proof.
  intros Hb Ep. destruct (got_block _ _ _ Ep) as (Hs & Hu & Eh & En). destruct (un_range _ UN b Hb) as [Hr Hz]. destruct (un_range _ UN p Hu) as [Hrp _].
  assert (Hpos : 0 < NumberU64 b). { destruct (decide (NumberU64 b = 0)) as [E0|?]; [|lia]. exfalso. rewrite E0 in En. change (u64 (0 - 1)) with (two64 - 1) in En. unfold two64 in En. lia. }
  assert (E1 : u64 (NumberU64 b - 1) = NumberU64 b - 1) by (rewrite u64_small; [done|unfold is_u64, two64; lia]). rewrite E1 in En.
  assert (Hp : parent (db bc) b p) by (split_and!; done). split_and!; [|done|done]. split; [split; [lia|done]| |].
  - exists p. split; [done|]. intros a h Ha Hh. apply (un_txs _ UN b a h Hb); [|done]. by eapply anc_line.
  - intros b' Hb' E. apply (un_hash _ UN); [by apply (io_in _ OK)|done|done].
Qed.

Lemma parent_known b p : parent (db bc) b p → ∃ ptd, GetTd (db bc) (ParentHash b) (NumberU64 b - 1) = Some ptd ∧ td_of (db bc) p = Some ptd.
Proof.
  intros (_ & Eh & En & Hs). destruct (co_td _ _ (io_chain _ OK) p Hs) as (ptd & E & _). exists ptd. split; [|done]. unfold td_of in E. by rewrite Eh, En in E.
Qed.

End Facts.

(** ** What the writes leave *)

Lemma only_tries_ok bc bc' : import_ok bc → db bc' = db bc → currentBlock bc' = currentBlock bc → import_ok bc'.
Proof. intros [[] H2 H3 H4 H5] E1 E2. split; [split|..]; rewrite ?E1, ?E2; done. Qed.

Lemma store_block_ok bc bc' b ptd : import_ok bc → U b → valid (db bc) b → GetTd (db bc) (ParentHash b) (NumberU64 b - 1) = Some ptd → grows (db bc) (db bc') b (Difficulty b + ptd) → currentBlock bc' = currentBlock bc → import_ok bc'.
Proof.
  intros OK Hb V Ep G C. destruct (gr_maps _ _ _ _ G) as [G1 G2]. split.
  - exact (store_block g bc bc' b ptd (io_chain _ OK) V Ep G C).
  - intros k. rewrite G1, G2, !lookup_insert_is_Some. pose proof (io_paired _ OK k). naive_solver.
  - intros n h td. rewrite (gr_td _ _ _ _ G). intros [[[= <- <-] _]|[_ E]]%lookup_insert_Some; [apply (va_range _ _ V)|by apply (io_tds _ OK n h td)].
  - intros x [->|Hx]%(stored_grow _ _ _ _ V G); [done|by apply (io_in _ OK)].
  - intros x Hx. apply (stored_grow _ _ _ _ V G). right. by apply (io_kept _ OK).
Qed.

Lemma head_ok bc b : import_ok bc → stored (db bc) b → 0 < NumberU64 b → ∃ bc', writeKnownBlock b bc = Ok bc' tt ∧ import_ok bc'.
Proof.
  intros OK Hb Hpos. destruct (head_block g bc b (io_chain _ OK) Hb Hpos) as (bc' & E & OK' & _ & (S' & _) & _). exists bc'. split; [done|]. pose proof S' as (S1 & S2 & S3 & _). split; [done|..].
  - intros k. rewrite S1, S2. apply (io_paired _ OK).
  - rewrite S3. apply (io_tds _ OK).
  - intros x Hx%(same_stored _ _ _ S'). by apply (io_in _ OK).
  - intros x Hx. apply (same_stored _ _ _ S'). by apply (io_kept _ OK).
Qed.

(** [m] ends, if it ends, where [Q] holds; an error leaves a chain in order. *)
Definition wp {A} (m : M A) (Q : BlockChain → A → Prop) (bc : BlockChain) : Prop :=
  match m bc with
  | Ok bc' a => Q bc' a
  | Fail bc' _ => import_ok bc'
  | _ => True
  end.

Lemma wp_bind {A B} (m : M A) (k : A → M B) Q bc : wp m (λ bc' a, wp (k a) Q bc') bc → wp (bind m k) Q bc.
Proof. unfold wp, bind. by destruct (m bc). Qed.

Lemma wp_ret {A} (a : A) (Q : BlockChain → A → Prop) bc : Q bc a → wp (ret a) Q bc.
Proof. done. Qed.

Lemma wp_get Q bc : Q bc bc → wp get Q bc.
Proof. done. Qed.

Lemma wp_modify f (Q : BlockChain → unit → Prop) bc : Q (f bc) tt → wp (modify f) Q bc.
Proof. done. Qed.

Lemma wp_some {A} (x : option A) (Q : BlockChain → A → Prop) bc : (∀ a, x = Some a → Q bc a) → wp (some x) Q bc.
Proof. unfold wp, some. destruct x; [|done]. auto. Qed.

Lemma wp_try {A} (m : M A) (Q : BlockChain → chain_error + A → Prop) bc : wp m (λ bc' a, Q bc' (inr a)) bc → (∀ bc' e, import_ok bc' → Q bc' (inl e)) → wp (try m) Q bc.
Proof. unfold wp, try. destruct (m bc); auto. Qed.

Lemma wp_mono {A} (m : M A) (Q Q' : BlockChain → A → Prop) bc : wp m Q bc → (∀ bc' a, Q bc' a → Q' bc' a) → wp m Q' bc.
Proof. unfold wp. destruct (m bc); auto. Qed.

(** A block is written with its state. *)
Lemma write_ok bc b p rs logs ps commit emit coin : import_ok bc → U b → GetBlock (db bc) (ParentHash b) (u64 (NumberU64 b - 1)) = Some p →
  wp (writeBlockWithState keccak config shouldPreserve b rs logs ps commit emit coin) (λ bc' _, import_ok bc') bc.
Proof.
  intros OK Hb Ep. destruct (fit bc OK b p Hb Ep) as (V & Hp & _). destruct (write_cases keccak config shouldPreserve g bc b rs logs ps commit emit coin (io_chain _ OK) V) as (ptd & tdh & Eptd & _ & HW).
  unfold wp. inversion HW as [| |bc1 e G C E|bc1 G C _ E|bc1 bc2 bc3 G C _ Ek D3 C3 E]; try done; pose proof (store_block_ok bc bc1 b ptd OK Hb V Eptd G C) as OK1; try done.
  destruct (head_ok bc1 b OK1) as (bc2' & Ek' & OK2); [apply (stored_grow _ _ _ _ V G); by left|by destruct Hp|]. rewrite Ek in Ek'. injection Ek' as <-. by eapply only_tries_ok.
Qed.

(** Or without it, with the total difficulty of its branch. *)
Lemma side_ok bc b p e : import_ok bc → U b → GetBlock (db bc) (ParentHash b) (u64 (NumberU64 b - 1)) = Some p → td_of (db bc) p = Some e →
  wp (writeBlockWithoutState b (e + Difficulty b)) (λ bc' _, import_ok bc' ∧ stored (db bc') b ∧ td_of (db bc') b = Some (e + Difficulty b)) bc.
Proof.
  intros OK Hb Ep Etd. destruct (fit bc OK b p Hb Ep) as (V & Hp & _). destruct (parent_known bc OK b p Hp) as (ptd & Eptd & E). rewrite Etd in E. injection E as <-. rewrite Z.add_comm.
  pose proof (side_grows b (Difficulty b + e) (db bc)) as G. change (db bc) with (db bc) in G. unfold wp, writeBlockWithoutState, write, modify. set (bc' := set_db bc _). split_and!.
  - exact (store_block_ok bc bc' b e OK Hb V Eptd G eq_refl).
  - apply (stored_grow _ _ _ _ V G). by left.
  - exact (td_new bc bc' b e G).
Qed.

(** ** The iterator *)

(** The engine and the body checks never call a block known or pruned: only
    [ValidateBody] does. *)
Definition foreign (e : option chain_error) : Prop := e ≠ Some ErrKnownBlock ∧ e ≠ Some ErrPrunedAncestor.

Record processing_ok : Prop := {
  po_length : ∀ d hs ss, length (VerifyHeaders d hs ss) = length hs;
  po_headers : ∀ d hs ss, Forall foreign (VerifyHeaders d hs ss);
  po_bodies : ∀ d b, foreign (body_error d b);
}.

Context (PO : processing_ok).

(** The block before the current one, the current one, and the rest. *)
Definition items (it : insertIterator) : list Block := option_list (it_prev it) ++ option_list (it_cur it) ++ (it_rest it).*1.

Record it_ok (it : insertIterator) : Prop := {
  ik_in : Forall U (items it);
  ik_linked : linked (items it) = true;
  ik_rest : Forall (λ x, foreign x.2) (it_rest it);
}.

(** What the error of a block says of the chain. *)
Record cursor_ok (bc : BlockChain) (c : cursor) : Prop := {
  ck_it : it_ok (c_it c);
  ck_cur : it_cur (c_it c) = c_block c;
  ck_known : c_err c = Some ErrKnownBlock → ∃ b, c_block c = Some b ∧ stored (db bc) b;
  ck_pruned : c_err c = Some ErrPrunedAncestor → ∃ b p, c_block c = Some b ∧ GetBlock (db bc) (ParentHash b) (u64 (NumberU64 b - 1)) = Some p;
  ck_new : c_err c = None → ∀ b, c_block c = Some b → ∃ p, GetBlock (db bc) (ParentHash b) (u64 (NumberU64 b - 1)) = Some p;
}.

Lemma linked_tail x l : linked (x :: l) = true → linked l = true.
Proof. destruct l as [|y l]; [done|]. cbn. by intros [_ ?]%andb_true_iff. Qed.

Lemma linked_two x y l : U x → U y → linked (x :: y :: l) = true → ParentHash y = Hash x ∧ NumberU64 y = NumberU64 x + 1.
Proof.
  intros Hx Hy. cbn. rewrite !andb_true_iff, bool_decide_eq_true, Z.eqb_eq. intros [[E1 E2] _]. destruct (un_range _ UN x Hx) as [? _]. rewrite u64_small in E1 by (unfold is_u64, two64; lia). done.
Qed.

Lemma has_block_state bc h n : HasBlockAndState bc h n = true → ∃ b, GetBlock (db bc) h n = Some b.
Proof. unfold HasBlockAndState. destruct (GetBlock (db bc) h n) as [b|]; [|done]. by exists b. Qed.

Lemma ValidateBody_cases bc b : import_ok bc → U b →
  (ValidateBody bc b = Some ErrKnownBlock → stored (db bc) b) ∧
  (ValidateBody bc b = Some ErrPrunedAncestor ∨ ValidateBody bc b = None → ∃ p, GetBlock (db bc) (ParentHash b) (u64 (NumberU64 b - 1)) = Some p).
Proof.
  intros OK Hb. unfold ValidateBody. destruct (HasBlockAndState bc (Hash b) _) eqn:E1; [split; [intros _; apply has_block_state in E1 as (b' & E1); by eapply is_stored|by intros [?|?]]|].
  pose proof (po_bodies PO (db bc) b) as [F1 F2]. destruct (body_error (db bc) b) as [e|]; [split; [done|by intros [?|?]]|]. destruct (HasBlockAndState bc (ParentHash b) _) eqn:E2; cbn [negb].
  - split; [done|]. intros _. by apply has_block_state in E2.
  - destruct (HasBlock _ _ _) eqn:E3; cbn [negb]; (split; [done|]); [intros _; by apply has_block|by intros [?|?]].
Qed.

(** [next] keeps the order and tells the truth; the block after another is not
    the first of the chain. *)
Lemma next_ok it bc : import_ok bc → it_ok it → wp (next it) (λ bc' c, bc' = bc ∧ cursor_ok bc c ∧
  (∀ b b', it_cur it = Some b → c_block c = Some b' → it_prev (c_it c) = Some b ∧ ParentHash b' = Hash b ∧ NumberU64 b' = NumberU64 b + 1)) bc.
Proof.
  intros OK [I1 I2 I3]. unfold wp, next, bind, get, ret. unfold items in *. destruct (it_rest it) as [|[b e] rest] eqn:Er.
  - split_and!; [done| |done]. split; cbn; try done. split; unfold items; cbn.
    + rewrite !app_nil_r in *. apply Forall_app in I1 as [I1 I1']. by destruct (it_cur it).
    + rewrite !app_nil_r in *. destruct (it_prev it), (it_cur it); cbn in *; done.
    + done.
  - cbn [c_block c_err c_it it_prev it_cur fmap list_fmap fst] in *. apply Forall_cons in I3 as [F I3]. cbn [snd] in F.
    assert (Hb : U b) by (rewrite !Forall_app in I1; destruct I1 as (_ & _ & I1); by apply Forall_cons in I1 as [? _]). pose proof (ValidateBody_cases bc b OK Hb) as [V1 V2]. split_and!; [done| |].
    + split; cbn; [|done|..].
      * split; unfold items; cbn; [|destruct (it_prev it); [exact (linked_tail _ _ I2)|exact I2]|done]. apply Forall_app in I1. tauto.
      * destruct e as [e|]; [destruct F as [F _]; intros E; by rewrite E in F|]. intros E. exists b. auto.
      * destruct e as [e|]; [destruct F as [_ F]; intros E; by rewrite E in F|]. intros E. destruct V2 as (p & ?); [auto|]. by exists b, p.
      * destruct e as [e|]; [done|]. intros E b' [= <-]. auto.
    + intros x y Ec [= <-]. rewrite Ec in *. split; [done|]. cbn [option_list app] in *. assert (Hl : linked (x :: b :: rest.*1) = true) by (destruct (it_prev it); cbn [option_list app] in I2; [exact (linked_tail _ _ I2)|exact I2]).
      apply (linked_two x b rest.*1); [|done|done]. rewrite !Forall_app in I1. destruct I1 as (_ & I1 & _). by apply Forall_cons in I1 as [? _].
Qed.

Lemma advance_ok c bc : import_ok bc → it_ok (c_it c) → wp (advance c) (λ bc' c', bc' = bc ∧ cursor_ok bc c' ∧
  (∀ b b', it_cur (c_it c) = Some b → c_block c' = Some b' → it_prev (c_it c') = Some b ∧ ParentHash b' = Hash b ∧ NumberU64 b' = NumberU64 b + 1)) bc.
Proof. apply next_ok. Qed.

Lemma current_in bc c b : cursor_ok bc c → c_block c = Some b → U b.
Proof.
  intros CK E. pose proof (ik_in _ (ck_it _ _ CK)) as HF. unfold items in HF. rewrite (ck_cur _ _ CK), E, !Forall_app in HF. destruct HF as (_ & HF & _). by apply Forall_cons in HF as [? _].
Qed.

(** ** The loops *)

Lemma future_ok b bc : import_ok bc → wp (addFutureBlock b) (λ bc' _, import_ok bc') bc.
Proof. intros OK. unfold addFutureBlock. apply wp_bind, wp_get. destruct (_ <? _); [exact OK|]. apply wp_modify. by eapply only_tries_ok. Qed.

Lemma report_ok b bc : import_ok bc → wp (reportBlock b) (λ bc' _, import_ok bc') bc.
Proof. intros OK. apply wp_modify. by eapply only_tries_ok. Qed.

Lemma queue_ok fuel go : ∀ c bc, import_ok bc → it_ok (c_it c) → wp (queue_blocks fuel go c) (λ bc' _, import_ok bc') bc.
Proof.
  induction fuel as [|fuel IH]; intros c bc OK IK; [done|]. cbn [queue_blocks]. destruct (c_block c) as [b|]; [|done]. destruct (go c); [|done]. apply wp_bind, wp_try; [|intros bc' e OK'; exact OK'].
  eapply wp_mono; [by apply future_ok|]. intros bc1 u OK1. apply wp_bind. eapply wp_mono; [by apply advance_ok|]. intros bc2 c2 (Hbc & CK & _); subst bc2. apply IH; [done|by apply (ck_it _ _ CK)].
Qed.

(** A known block that is not the genesis block. *)
Definition past (c : cursor) : Prop := ∀ b, known c = Some b → 0 < NumberU64 b.

Lemma known_block c b : known c = Some b → c_block c = Some b ∧ c_err c = Some ErrKnownBlock.
Proof. unfold known. destruct (c_block c) as [x|], (c_err c) as [[]|]; naive_solver. Qed.

Lemma known_stored bc c b : cursor_ok bc c → known c = Some b → stored (db bc) b.
Proof. intros CK [E1 E2]%known_block. destruct (ck_known _ _ CK E2) as (x & Ex & Hx). rewrite E1 in Ex. by injection Ex as ->. Qed.

(** After a block there is no genesis block. *)
Lemma after_past c c' b bc : cursor_ok bc c → c_block c = Some b →
  (∀ b0 b', it_cur (c_it c) = Some b0 → c_block c' = Some b' → it_prev (c_it c') = Some b0 ∧ ParentHash b' = Hash b0 ∧ NumberU64 b' = NumberU64 b0 + 1) → past c'.
Proof.
  intros CK Eb H x [Ex _]%known_block. destruct (H b x) as (_ & _ & ->); [by rewrite (ck_cur _ _ CK)|done|]. destruct (un_range _ UN b) as [? _]; [by eapply current_in|]. lia.
Qed.

Lemma skip_ok fuel localTd : ∀ externTd c bc, import_ok bc → cursor_ok bc c → (∀ b, known c = Some b → externTd ≠ None → 0 < NumberU64 b) →
  wp (skip_known fuel localTd externTd c) (λ bc' c', bc' = bc ∧ cursor_ok bc c' ∧ past c') bc.
Proof.
  induction fuel as [|fuel IH]; intros externTd c bc OK CK Hpos; [done|]. cbn [skip_known]. destruct (known c) as [b|] eqn:Ek; [|apply wp_ret; split_and!; [done|done|intros b E; by rewrite Ek in E]].
  apply wp_bind, wp_some. intros e Ee. apply wp_bind, wp_some. intros l _. assert (Hb : 0 < NumberU64 b) by (apply Hpos; [done|by rewrite Ee]). destruct (_ <? _).
  - apply wp_ret. split_and!; [done|done|]. intros x Ex. rewrite Ek in Ex. by injection Ex as <-.
  - apply wp_bind. eapply wp_mono; [by apply advance_ok, (ck_it _ _ CK)|]. intros bc1 c1 (Hbc & CK1 & H); subst bc1. apply IH; [done|done|]. intros x Ex _.
    eapply after_past; [exact CK|by apply known_block in Ek as [? _]|exact H|exact Ex].
Qed.

Lemma write_known_ok fuel : ∀ c last bc, import_ok bc → cursor_ok bc c → past c →
  wp (write_known fuel c last) (λ bc' r, import_ok bc' ∧ match r.1 with inr c' => cursor_ok bc' c' ∧ known c' = None | inl _ => True end) bc.
Proof.
  induction fuel as [|fuel IH]; intros c last bc OK CK HP; [done|]. cbn [write_known]. destruct (known c) as [b|] eqn:Ek; [|by apply wp_ret].
  destruct (head_ok bc b OK (known_stored bc c b CK Ek) (HP b Ek)) as (bc1 & E1 & OK1). apply wp_bind. unfold wp at 1, try. rewrite E1. apply wp_bind.
  eapply wp_mono; [apply advance_ok; [done|by apply (ck_it _ _ CK)]|]. intros bc2 c2 (Hbc & CK2 & H); subst bc2. apply IH; [done|done|]. eapply after_past; [exact CK|by apply known_block in Ek as [? _]|exact H].
Qed.

Lemma import_block_ok c b bc : import_ok bc → cursor_ok bc c → c_block c = Some b → c_err c = None →
  wp (import_block keccak config shouldPreserve b (c_it c)) (λ bc' _, import_ok bc') bc.
Proof.
  intros OK CK Eb Ee. destruct (ck_new _ _ CK Ee b Eb) as (p & Ep). unfold import_block. apply wp_bind, wp_get. apply wp_bind, wp_some. intros root _. destruct (HasState bc root); cbn [negb]; [|done].
  destruct (execute _ _ _) as [[[[rs logs] ps] commit]|e|]; [|apply wp_bind; eapply wp_mono; [by apply report_ok|done]|done].
  apply wp_try; [|done]. eapply write_ok; [done|by eapply current_in|exact Ep].
Qed.

Lemma import_blocks_ok fuel : ∀ c last bc, import_ok bc → cursor_ok bc c → past c →
  wp (import_blocks keccak config shouldPreserve fuel c last) (λ bc' r, import_ok bc' ∧ match r.1 with inr c' => it_ok (c_it c') | inl _ => True end) bc.
Proof.
  induction fuel as [|fuel IH]; intros c last bc OK CK HP; [done|]. cbn [import_blocks].
  assert (Hgo : ∀ b bc1 last1, c_block c = Some b → import_ok bc1 → wp (bind (advance c) (λ c, import_blocks keccak config shouldPreserve fuel c last1)) (λ bc' r, import_ok bc' ∧ match r.1 with inr c' => it_ok (c_it c') | inl _ => True end) bc1).
  { intros b bc1 last1 Eb OK1. apply wp_bind. eapply wp_mono; [apply advance_ok; [done|by apply (ck_it _ _ CK)]|]. intros bc2 c2 (Hbc & CK2 & H); subst bc2. apply IH; [done|done|exact (after_past c c2 b bc CK Eb H)]. }
  assert (Hbad : ∀ b r, wp (bind (reportBlock b) (λ _, ret (inl r, last))) (λ bc' (r : (result + cursor) * option Block), import_ok bc' ∧ match r.1 with inr c' => it_ok (c_it c') | inl _ => True end) bc).
  { intros b r. apply wp_bind. eapply wp_mono; [by apply report_ok|done]. }
  pose proof (ck_it _ _ CK) as IK. destruct (c_block c) as [b|] eqn:Eb; [|by destruct (c_err c) as [[]|]]. destruct (c_err c) as [e|] eqn:Ee.
  - assert (He : e = ErrKnownBlock ∨ e ≠ ErrKnownBlock) by (destruct e; auto). destruct He as [->|He]; [|by destruct e]. case_bool_decide; [apply Hbad|].
    assert (Ek : known c = Some b) by (unfold known; by rewrite Eb, Ee). destruct (head_ok bc b OK (known_stored bc c b CK Ek) (HP b Ek)) as (bc1 & E1 & OK1). apply wp_bind. unfold wp at 1, try. rewrite E1. by eapply Hgo.
  - case_bool_decide; [apply Hbad|]. apply wp_bind. eapply wp_mono; [by apply import_block_ok|]. intros bc1 r OK1. destruct r as [e|[]]; [done|by eapply Hgo| |by eapply Hgo].
    apply wp_bind, wp_modify. eapply Hgo; [done|]. by eapply only_tries_ok.
Qed.

(** ** Blocks on pruned states *)

(** The total difficulty that is carried is that of the block before. *)
Definition side_td (bc : BlockChain) (c : cursor) (externTd : option Z) : Prop :=
  ∀ e b, externTd = Some e → c_block c = Some b → ∃ p, it_prev (c_it c) = Some p ∧ stored (db bc) p ∧ td_of (db bc) p = Some e.

Lemma carried_td bc c externTd b p e : import_ok bc → cursor_ok bc c → side_td bc c externTd → c_block c = Some b → GetBlock (db bc) (ParentHash b) (u64 (NumberU64 b - 1)) = Some p →
  match externTd with Some e => Some e | None => GetTd (db bc) (ParentHash b) (u64 (NumberU64 b - 1)) end = Some e → td_of (db bc) p = Some e.
Proof.
  intros OK CK HS Eb Ep Ee. pose proof (current_in bc c b CK Eb) as Hb. destruct (fit bc OK b p Hb Ep) as (_ & Hp & E1). destruct externTd as [e'|].
  - injection Ee as ->. destruct (HS e b eq_refl Eb) as (q & Eq & Hq & Etd). assert (q = p) as ->; [|done].
    pose proof (ck_it _ _ CK) as [I1 I2 _]. unfold items in I1, I2. rewrite Eq, (ck_cur _ _ CK), Eb in I1, I2. cbn [option_list app] in I1, I2. destruct (linked_two q b _ (io_in _ OK q Hq) Hb I2) as [E2 E3].
    rewrite E1, E2, E3 in Ep. replace (NumberU64 q + 1 - 1) with (NumberU64 q) in Ep by lia. unfold stored, GetBlock in *. congruence.
  - destruct (parent_known bc OK b p Hp) as (ptd & E2 & E3). rewrite E1, E2 in Ee. by rewrite E3.
Qed.

Lemma side_blocks_ok fuel current : ∀ externTd c bc, import_ok bc → cursor_ok bc c → side_td bc c externTd →
  wp (side_blocks fuel current externTd c) (λ bc' r, import_ok bc' ∧ match r with inr (c', _) => it_ok (c_it c') | inl _ => True end) bc.
Proof.
  induction fuel as [|fuel IH]; intros externTd c bc OK CK HS; [done|]. cbn [side_blocks]. pose proof (ck_it _ _ CK) as IK. destruct (c_block c) as [b|] eqn:Eb; [|done]. pose proof (current_in bc c b CK Eb) as Hb.
  assert (Hgo : ∀ bc1 e1, import_ok bc1 → (∀ e, e1 = Some e → stored (db bc1) b ∧ td_of (db bc1) b = Some e) → wp (bind (advance c) (λ c, side_blocks fuel current e1 c)) (λ bc' r, import_ok bc' ∧ match r with inr (c', _) => it_ok (c_it c') | inl _ => True end) bc1).
  { intros bc1 e1 OK1 H1. apply wp_bind. eapply wp_mono; [by apply advance_ok|]. intros bc2 c2 (Hbc & CK2 & H); subst bc2. apply IH; [done|done|]. intros e x -> Ex. destruct (H b x) as (? & _); [by rewrite (ck_cur _ _ CK)|done|]. destruct (H1 e eq_refl). by exists b. }
  assert (He : c_err c = Some ErrPrunedAncestor ∨ ∀ (A : Type) (x y : A), match c_err c with Some ErrPrunedAncestor => x | _ => y end = y) by (destruct (c_err c) as [[]|]; auto). destruct He as [Ee|He]; [|by rewrite He].
  rewrite Ee. destruct (ck_pruned _ _ CK Ee) as (b' & p & Eb' & Ep). rewrite Eb in Eb'. injection Eb' as <-. apply wp_bind, wp_get. set (can := if _ <=? _ then _ else _).
  destruct (match can with Some x => bool_decide (Hash x = Hash b) | None => false end) eqn:E1.
  { apply Hgo; [done|]. intros e Etd. split; [|exact Etd]. subst can. destruct (_ <=? _); [|done]. unfold GetBlockByNumber in E1. destruct (decide _); [done|]. destruct (GetBlock (db bc) (ReadCanonicalHash (db bc) (NumberU64 b)) (NumberU64 b)) as [x|] eqn:Ex; [|done].
    apply bool_decide_eq_true in E1. destruct (got_block bc OK _ _ _ Ex) as (Hs & Hu & _). by rewrite <- (un_hash _ UN x b Hu Hb E1). }
  destruct (match can with Some x => bool_decide (Root x = Root b) | None => false end); [done|]. apply wp_bind, wp_some. intros e Et. pose proof (carried_td bc c externTd b p e OK CK HS Eb Ep Et) as Etd.
  destruct (HasBlock (db bc) (Hash b) _) eqn:EH; cbn [negb]; apply wp_bind.
  - apply wp_ret. apply Hgo; [done|]. intros e' [= <-]. apply has_block in EH as (x & Ex); [|done]. pose proof (is_stored bc OK b x Hb Ex) as Hs. split; [done|]. destruct (fit bc OK b p Hb Ep) as (_ & Hp & _).
    destruct (co_td _ _ (io_chain _ OK) b Hs) as (td & E2 & Hq). destruct (Hq p Hp) as (q & E3 & ->). rewrite Etd in E3. injection E3 as <-. by rewrite E2, Z.add_comm.
  - eapply wp_mono; [by eapply side_ok|]. intros bc1 u (OK1 & Hs & E2). apply Hgo; [done|]. by intros e' [= <-].
Qed.

(** ** Importing again *)

Definition key (b : Block) : bytes * Z := (Hash b, NumberU64 b).

Lemma linked_app l1 l2 : linked (l1 ++ l2) = true → linked l1 = true ∧ linked l2 = true.
Proof.
  induction l1 as [|x l1 IH]; [done|]. intros H. pose proof (linked_tail x _ H) as H'. destruct (IH H') as [H1 H2]. split; [|done]. destruct l1 as [|y l1]; [done|]. cbn in *. apply andb_true_iff in H as [-> _]. done.
Qed.

Lemma linked_snoc l x y : linked (l ++ [x]) = true → NumberU64 y = u64 (NumberU64 x + 1) → ParentHash y = Hash x → linked ((l ++ [x]) ++ [y]) = true.
Proof.
  intros H E1 E2. induction l as [|z l IH]; [cbn; by rewrite E1, E2, Z.eqb_refl, bool_decide_true|]. cbn [app] in *. pose proof (linked_tail z _ H) as H'. specialize (IH H').
  destruct ((l ++ [x]) ++ [y]) as [|u l'] eqn:El; [done|]. assert (Hu : ∃ l'', l ++ [x] = u :: l'') by (destruct l; cbn in El; injection El as <- _; eauto). destruct Hu as [l'' Hu]. rewrite Hu in H. cbn in *. apply andb_true_iff in H as [-> _]. done.
Qed.

Lemma gather_ok fuel bc : import_ok bc → ∀ x l r, U x → gather_pruned fuel bc (Some (b_header x)) = Some (l, r) → l = [] ∨ ∃ bs, reverse l = key <$> (bs ++ [x]) ∧ Forall U (bs ++ [x]) ∧ linked (bs ++ [x]) = true.
Proof.
  intros OK. induction fuel as [|fuel IH]; intros x l r Hx; cbn [gather_pruned]; destruct (HasState bc _); [intros [= <- _]; by left|done|intros [= <- _]; by left|]. intros E. right.
  destruct (GetHeader (db bc) _ _) as [hd|] eqn:Eh.
  - apply got_header in Eh as (y & Ey & <-); [|done]. destruct (fit bc OK x y Hx Ey) as (_ & (Hpos & E1 & E2 & Hs) & _). destruct (got_block bc OK _ _ _ Ey) as (_ & Hy & _).
    destruct (gather_pruned fuel bc _) as [[l' r']|] eqn:Eg; [|done]. injection E as <- <-. destruct (IH y l' r' Hy Eg) as [->|(bs & E3 & HF & HL)].
    + exists []. split_and!; [done|by repeat constructor|done].
    + exists (bs ++ [y]). rewrite reverse_cons, E3, !fmap_app. split_and!; [done|apply Forall_app; split; [done|by constructor]|]. apply linked_snoc; [done| |done]. destruct (un_range _ UN y Hy). rewrite u64_small by (unfold is_u64, two64; lia). lia.
  - exists []. destruct fuel; injection E as <- _; (split_and!; [done|by repeat constructor|done]).
Qed.

Lemma reimport_ok insert : (∀ blocks bc, import_ok bc → Forall U blocks → linked blocks = true → wp (insert blocks) (λ bc' _, import_ok bc') bc) →
  ∀ bs blocks memory bc, import_ok bc → Forall U (blocks ++ bs) → linked (blocks ++ bs) = true → wp (reimport insert (key <$> bs) blocks memory) (λ bc' _, import_ok bc') bc.
Proof.
  intros Hins. induction bs as [|b bs IH]; intros blocks memory bc OK HF HL; cbn [fmap list_fmap reimport].
  - rewrite app_nil_r in *. destruct (decide (blocks = [])); [done|by apply Hins].
  - unfold key at 1. apply wp_bind, wp_get. apply wp_bind, wp_some. intros b' Eb. destruct (got_block bc OK _ _ _ Eb) as (_ & Hu & Eh & _).
    assert (b' = b) as ->. { apply (un_hash _ UN); [done| |done]. apply Forall_app in HF as [_ HF]. by apply Forall_cons in HF as [? _]. }
    rewrite cons_middle, (assoc_L (++)) in HF, HL. destruct (_ || _); [|by apply IH]. pose proof (linked_app _ _ HL) as [L1 L2]. apply Forall_app in HF as [F1 F2]. apply wp_bind. eapply wp_mono; [by apply Hins|].
    intros bc1 [n [e|]] OK1; [done|]. by apply IH.
Qed.

Lemma insertSideChain_ok insert c bc : (∀ blocks bc, import_ok bc → Forall U blocks → linked blocks = true → wp (insert blocks) (λ bc' _, import_ok bc') bc) →
  import_ok bc → cursor_ok bc c → wp (insertSideChain insert c) (λ bc' _, import_ok bc') bc.
Proof.
  intros Hins OK CK. unfold insertSideChain. apply wp_bind, wp_get. apply wp_bind. eapply wp_mono; [by apply side_blocks_ok|]. intros bc1 [r|[c1 externTd]] (OK1 & IK1); [done|]. apply wp_bind, wp_get.
  apply wp_bind, wp_some. intros lt _. apply wp_bind, wp_some. intros et _. destruct (_ <? _); [done|]. destruct (it_prev (c_it c1)) as [p|] eqn:Ep; [|done]. cbn [fmap option_fmap option_map].
  destruct (gather_pruned _ _ _) as [[l [hd|]]|] eqn:Eg; [|done|done]. assert (Hp : U p) by (pose proof (ik_in _ IK1) as HF; unfold items in HF; rewrite Ep in HF; by apply Forall_cons in HF as [? _]).
  destruct (gather_ok _ bc1 OK1 p l _ Hp Eg) as [->|(bs & -> & HF & HL)]; [by apply (reimport_ok insert Hins [])|]. by apply reimport_ok.
Qed.

(** ** The import *)

Lemma insert_tail_ok c bc : import_ok bc → it_ok (c_it c) → wp (insert_tail c) (λ bc' _, import_ok bc') bc.
Proof.
  intros OK IK. unfold insert_tail. destruct (c_block c) as [b|]; [|done]. assert (He : c_err c = Some ErrFutureBlock ∨ ∀ (A : Type) (x y : A), match c_err c with Some ErrFutureBlock => x | _ => y end = y) by (destruct (c_err c) as [[]|]; auto).
  destruct He as [->|He]; [|by rewrite He]. apply wp_bind, wp_try; [|done]. eapply wp_mono; [by apply future_ok|]. intros bc1 u OK1. apply wp_bind. eapply wp_mono; [by apply advance_ok|].
  intros bc2 c2 (Hbc & CK & _); subst bc2. apply queue_ok; [done|by apply (ck_it _ _ CK)].
Qed.

Lemma insert_known_ok c bc : import_ok bc → cursor_ok bc c → wp (insert_known c) (λ bc' r, import_ok bc' ∧ match r.1 with inr c' => cursor_ok bc' c' ∧ known c' = None | inl _ => True end) bc.
Proof.
  intros OK CK. unfold insert_known. destruct (known c) as [b|] eqn:Ek; [|by apply wp_ret]. apply wp_bind, wp_get. apply wp_bind. eapply wp_mono.
  - apply skip_ok; [done|done|]. intros x Ex Hn. rewrite Ek in Ex. injection Ex as <-. destruct (GetTd _ _ _) as [td|] eqn:Et; [|done]. pose proof (io_tds _ OK _ _ _ Et) as Hr.
    destruct (un_range _ UN b) as [? _]; [by eapply current_in, known_block|]. destruct (decide (NumberU64 b = 0)) as [E0|?]; [|lia]. rewrite E0 in Hr. change (u64 (0 - 1)) with (two64 - 1) in Hr. unfold two64 in Hr. lia.
  - intros bc1 c1 (Hbc & CK1 & HP); subst bc1. by apply write_known_ok.
Qed.

Lemma unknown_past c : known c = None → past c.
Proof. intros E b Eb. by rewrite E in Eb. Qed.

Lemma insert_rest_ok insert first c last bc : (∀ blocks bc, import_ok bc → Forall U blocks → linked blocks = true → wp (insert blocks) (λ bc' _, import_ok bc') bc) →
  import_ok bc → cursor_ok bc c → known c = None → wp (insert_rest keccak config shouldPreserve insert first c last) (λ bc' _, import_ok bc') bc.
Proof.
  intros Hins OK CK Hk. unfold insert_rest. apply wp_bind, wp_get. pose proof (ck_it _ _ CK) as IK.
  assert (Himp : wp (bind (import_blocks keccak config shouldPreserve (rounds c) c last) (λ r, match r with (inl r, lastCanon) => ret (r, lastCanon) | (inr c, lastCanon) => bind (insert_tail c) (λ r, ret (r, lastCanon)) end)) (λ bc' _, import_ok bc') bc).
  { apply wp_bind. eapply wp_mono; [by apply import_blocks_ok, unknown_past|]. intros bc1 [[r|c1] l1] (OK1 & H1); [done|]. apply wp_bind. eapply wp_mono; [by apply insert_tail_ok|done]. }
  assert (Hq : ∀ go, wp (bind (queue_blocks (rounds c) go c) (λ r, ret (r, last))) (λ bc' _, import_ok bc') bc) by (intros go; apply wp_bind; eapply wp_mono; [by apply queue_ok|done]).
  assert (Hbad : ∀ b (r : result), wp (bind (modify (λ bc, set_future bc (lru_remove (Hash b) (futureBlocks bc)))) (λ _, bind (reportBlock b) (λ _, ret (r, last)))) (λ bc' _, import_ok bc') bc).
  { intros b r. apply wp_bind, wp_modify. apply wp_bind. eapply wp_mono; [by eapply report_ok, only_tries_ok|done]. }
  destruct (c_block c) as [b|] eqn:Eb; [|exact Himp]. destruct (c_err c) as [e|] eqn:Ee; [|exact Himp]. destruct e; try exact (Hbad b _); try exact (Hq _).
  - destruct (lru_contains _ _); [exact (Hq _)|exact (Hbad b _)].
  - apply wp_bind. eapply wp_mono; [by apply insertSideChain_ok|done].
Qed.

Lemma insertChain_ok fuel : ∀ seals chain bc, import_ok bc → Forall U chain → linked chain = true → wp (insertChain keccak config shouldPreserve fuel seals chain) (λ bc' _, import_ok bc') bc.
Proof.
  induction fuel as [|fuel IH]; intros seals chain bc OK HF HL; [done|]. destruct chain as [|first chain]; [done|]. cbn [insertChain]. set (l := first :: chain) in *. apply wp_bind, wp_get.
  set (results := VerifyHeaders _ _ _). assert (Elen : length results = length l) by (subst results; rewrite (po_length PO), length_fmap; done).
  assert (IK : it_ok (newInsertIterator l results)).
  { assert (Ez : (zip l results).*1 = l) by (apply fst_zip; lia). split; unfold items; cbn [newInsertIterator it_prev it_cur it_rest option_list app]; [by rewrite Ez|by rewrite Ez|].
    apply Forall_forall. intros [x e] Hx%list_elem_of_In. apply in_combine_r, list_elem_of_In in Hx. cbn. pose proof (po_headers PO (db bc) (b_header <$> l) (replicate (length l) seals)) as HV. rewrite Forall_forall in HV. by apply HV. }
  apply wp_bind. eapply wp_mono; [by apply next_ok|]. intros bc1 c (Hbc & CK & _); subst bc1. apply wp_bind. eapply wp_mono; [by apply insert_known_ok|]. intros bc1 [[r|c1] last] (OK1 & H1).
  - apply wp_bind, wp_ret. apply wp_bind, wp_modify, wp_ret. destruct last as [b|]; [|done]. destruct (decide _); [by eapply only_tries_ok|done].
  - destruct H1 as [CK1 Hk]. apply wp_bind. eapply wp_mono; [apply insert_rest_ok; [intros blocks bc2 OK2 F2 L2; by apply IH|done|done|done]|]. intros bc2 [r last2] OK2. apply wp_bind, wp_modify, wp_ret.
    destruct last2 as [b|]; [|done]. destruct (decide _); [by eapply only_tries_ok|done].
Qed.

End Import.
End ChainInsertProofs.
