(* ===== verification/ChainInsertClaims.v ===== *)
(** * ChainInsertClaims: imports keep the chain

    After any history of imports and mined blocks the indexes follow the head,
    whatever blocks are offered; a run in which an import moves the head to a
    lighter block. *)

From stdpp Require Import base gmap list.
From Stdlib Require Import ZArith Lia.
From S2P Require Import Prelude Types CMdb TrieHash TrieDb TrieDbClaims Sha256 TrieCommit Chain ChainProofs ChainClaims ChainInsert ChainInsertProofs.

Local Open Scope Z_scope.

Module ChainInsertClaims.
Import Chain ChainProofs ChainClaims ChainInsert ChainInsertProofs.

Section Claims.
Context {ENV : TrieDb.Environment} {PROC : Processing}.
Context (keccak : bytes → bytes) (config : CacheConfig) (shouldPreserve : option (Block → bool)).

(** A chain that starts with a genesis block and goes on with imports, whether
    they succeed or not, and with blocks the node mined on stored ones. *)
Inductive imported (g : Block) (U : Block → Prop) : BlockChain → Prop :=
  | imported_new tdb cm : imported g U (new_chain g tdb cm)
  | imported_insert bc fuel chain bc' r : imported g U bc → Forall U chain → InsertChain keccak config shouldPreserve fuel chain bc = Ok bc' r → imported g U bc'
  | imported_mined bc b p rs logs ps commit emit coin bc' r : imported g U bc → U b → GetBlock (db bc) (ParentHash b) (u64 (NumberU64 b - 1)) = Some p →
      try (writeBlockWithState keccak config shouldPreserve b rs logs ps commit emit coin) bc = Ok bc' r → imported g U bc'.

Section Universe.
Context (g : Block) (U : Block → Prop) (UN : universe U) (PO : processing_ok) (Hg : genesis_ok g) (Ug : U g).

Lemma InsertChain_ok S fuel chain bc bc' r : import_ok g U S bc → Forall U chain → InsertChain keccak config shouldPreserve fuel chain bc = Ok bc' r → import_ok g U S bc'.
Proof.
  intros OK HF. unfold InsertChain. destruct chain as [|b l]; [by intros [= <- _]|]. destruct (linked (b :: l)) eqn:HL; [|by intros [= <- _]]. intros E.
  pose proof (insertChain_ok keccak config shouldPreserve g U S UN PO fuel true (b :: l) bc OK HF HL) as H. unfold wp in H. by rewrite E in H.
Qed.

Lemma new_import_ok tdb cm : import_ok g U (λ _, False) (new_chain g tdb cm).
Proof.
  destruct (new_ok g tdb cm Hg) as [OK _]. destruct Hg as (Hn & Hz & _). split; [done|..|done].
  - intros k. unfold new_chain. cbn [db headers bodies WriteHeadFastBlockHash WriteHeadHeaderHash WriteHeadBlockHash WriteCanonicalHash WriteBlock rawdb_WriteHeader WriteBody WriteTd]. fold (NumberU64 g) (Hash g).
    rewrite !lookup_insert_is_Some, !lookup_empty. split; (intros [?|[_ [? ?]]]; [by left|done]).
  - intros n h td. unfold new_chain. cbn [db tds WriteHeadFastBlockHash WriteHeadHeaderHash WriteHeadBlockHash WriteCanonicalHash WriteBlock rawdb_WriteHeader WriteBody WriteTd]. intros [[[= <- _] _]|[_ E]]%lookup_insert_Some; [lia|by rewrite lookup_empty in E].
  - intros b ->%new_stored; done.
Qed.

Lemma imported_ok bc : imported g U bc → import_ok g U (λ _, False) bc.
Proof.
  induction 1 as [tdb cm|bc fuel chain bc' r _ IH HF E|bc b p rs logs ps commit emit coin bc' r _ IH Hb Ep E]; [apply new_import_ok|by eapply InsertChain_ok|].
  pose proof (write_ok keccak config shouldPreserve g U (λ _, False) UN bc b p rs logs ps commit emit coin IH Hb Ep) as H. unfold wp in H. unfold try in E. destruct (writeBlockWithState _ _ _ _ _ _ _ _ _ _ bc); try done; by injection E as <- _.
Qed.

Lemma keeping bc : import_ok g U (λ _, False) bc → import_ok g U (stored (db bc)) bc.
Proof. intros []. by split. Qed.

End Universe.

(** C20: Whatever is imported and mined, in whatever order and with whatever
    errors (known, future, pruned or invalid blocks, side chains whose states
    are rebuilt), [GetBlockByNumber] gives at every number up to the head's the
    head's ancestor there, and the transaction index lists exactly the
    transactions of the head's branch. An import loses no stored block, and
    refuses blocks that are not linked without touching the chain. Assumed of
    the blocks are that their hashes identify them and that no branch repeats
    a transaction; of the engine, that its verdicts are not those of
    [ValidateBody]. *)
Theorem import_keeps_chain (g : Block) (U : Block → Prop) (bc : BlockChain) (UN : universe U) (PO : processing_ok) (Hg : genesis_ok g) (Ug : U g) (H : imported g U bc) :
  let d := db bc in let head := currentBlock bc in
  (∀ k, 0 <= k <= NumberU64 head → ∃ a, anc d head a ∧ NumberU64 a = k ∧ GetBlockByNumber d k = Some a) ∧
  (∀ h n, ReadTxLookupEntry d h = Some n ↔ ∃ a, anc d head a ∧ NumberU64 a = n ∧ h ∈ hashes a) ∧
  (∀ fuel chain bc' r, Forall U chain → InsertChain keccak config shouldPreserve fuel chain bc = Ok bc' r →
    (∀ b h n, GetBlock d h n = Some b → GetBlock (db bc') h n = Some b) ∧ (linked chain = false → bc' = bc ∧ r = (0, Some ErrNonContiguous))).
Proof.
  pose proof (imported_ok g U UN PO Hg Ug bc H) as OK. pose proof (io_chain _ _ _ _ OK) as CO. destruct (co_head _ _ CO) as [Hs _]. pose proof (co_tree _ _ CO) as T. cbn zeta. split_and!.
  - intros k Hk. destruct (anc_exists g _ T _ k Hs Hk) as (a & Ha & <-). exists a. split_and!; [done|done|]. exact (marked_block _ _ _ _ T Hs (co_follows _ _ CO) Ha).
  - intros h n. exact (lookup_entry g _ _ h n T Hs (co_indexed _ _ CO) (proj2 (proj2 Hg))).
  - intros fuel chain bc' r HF E. split.
    + intros b h n Eb. destruct (got_block g U _ bc OK h n b Eb) as (Hb & _ & <- & <-). exact (io_kept _ _ _ _ (InsertChain_ok g U UN PO _ fuel chain bc bc' r (keeping g U bc OK) HF E) b Hb).
    + intros HL. unfold InsertChain in E. destruct chain as [|b l]; [done|]. rewrite HL in E. by injection E as <- <-.
Qed.

(** ** Histories that run *)

Fixpoint imports (l : list (list Block)) (bc : BlockChain) : option BlockChain :=
  match l with
  | [] => Some bc
  | chain :: l => match InsertChain keccak config shouldPreserve 2 chain bc with Ok bc' _ => imports l bc' | _ => None end
  end.

Lemma imports_imported g U l : Forall (Forall U) l → ∀ bc bc', imported g U bc → imports l bc = Some bc' → imported g U bc'.
Proof.
  induction 1 as [|chain l HF _ IH]; intros bc bc' HI E; cbn [imports] in E; [by injection E as <-|]. destruct (InsertChain _ _ _ _ _ bc) as [bc1 r| | |] eqn:E1; [|done|done|done]. apply (IH bc1); [|done]. by eapply imported_insert.
Qed.

End Claims.

(** ** Finite universes *)

Definition universeb (l : list Block) : bool :=
  forallb (λ b, (0 <=? NumberU64 b) && (NumberU64 b <? 2 ^ 63) && bool_decide (Hash b ≠ zeroHash)) l && bool_decide (NoDup (Hash <$> l)) &&
  forallb (λ b, forallb (λ a, bool_decide (Hash a = Hash b) || bool_decide (Forall (λ h, h ∉ hashes a) (hashes b))) l) l.

Lemma NoDup_same {A B} (f : A → B) l x y : NoDup (f <$> l) → x ∈ l → y ∈ l → f x = f y → x = y.
Proof.
  induction l as [|z l IH]; [by intros _ ?%not_elem_of_nil|]. cbn. intros [Hz Hl]%NoDup_cons. assert (Hf : ∀ u, u ∈ l → f u ≠ f z) by (intros u Hu E; apply Hz; rewrite <- E; by apply list_elem_of_fmap_2).
  intros [->|Hx]%elem_of_cons [->|Hy]%elem_of_cons E; [done|by destruct (Hf y Hy)|by destruct (Hf x Hx)|by apply IH].
Qed.

Lemma line_lower U b a : line U b a → U a ∧ NumberU64 a < NumberU64 b.
Proof. induction 1 as [b p ? _ ?|b p a _ _ ? _ [? IH]]; (split; [done|lia]). Qed.

Lemma universeb_ok l : universeb l = true → universe (λ b, b ∈ l).
Proof.
  unfold universeb. rewrite !andb_true_iff, bool_decide_eq_true, !forallb_forall. intros [[H1 H2] H3]. split.
  - intros b Hb%list_elem_of_In. specialize (H1 b Hb). rewrite !andb_true_iff, bool_decide_eq_true, Z.leb_le, Z.ltb_lt in H1. tauto.
  - intros b b'. by apply NoDup_same.
  - intros b a h Hb [Ha Hlt]%line_lower Hh. specialize (H3 b (proj1 (list_elem_of_In l b) Hb)). rewrite forallb_forall in H3. specialize (H3 a (proj1 (list_elem_of_In l a) Ha)). rewrite orb_true_iff, !bool_decide_eq_true in H3.
    destruct H3 as [E|HF]; [|rewrite Forall_forall in HF; by apply HF]. pose proof (NoDup_same Hash l a b H2 Ha Hb E) as ->. lia.
Qed.

(** ** A concrete import *)

#[local] Existing Instance TrieDbClaims.demo_env.

(** Every header and body is accepted, and a block leads to the root it names. *)
#[local] Instance demo_processing : Processing := {
  VerifyHeaders _ hs _ := replicate (length hs) None; body_error _ _ := None; execute _ _ b := Ret ([], [], [], TrieDb.ret (Root b));
  block_size _ := 1; now _ := 0; proctime _ _ := 1; coin _ _ := false }.

Lemma demo_processing_ok : processing_ok.
Proof. split; [intros; apply length_replicate|intros; by apply Forall_replicate|done]. Qed.

(** A chain of one heavy block, and a branch of two light ones; all states but
    that of the first light block are there. *)
Definition imp_block (x parent number difficulty : Z) (root : bytes) (txs : list Transaction) : Block := mk_Block (mk_Header (demo_id x) (demo_id parent) number difficulty root number) txs.
Definition imp_g : Block := imp_block 1 0 0 1 zeroHash [].
Definition imp_h : Block := imp_block 2 1 1 10 zeroHash [tx1].
Definition imp_s1 : Block := imp_block 3 1 1 1 (demo_id 99) [tx2].
Definition imp_s2 : Block := imp_block 4 3 2 1 zeroHash [].
Definition imp_all : list Block := [imp_g; imp_h; imp_s1; imp_s2].

Definition imp_run (l : list (list Block)) : option BlockChain := imports Sha256.sha256 demo_config None l (new_chain imp_g (TrieDb.NewDatabase ∅) ∅).

Lemma imp_universe : universe (λ b, b ∈ imp_all).
Proof. apply universeb_ok. vm_compute. reflexivity. Qed.

Lemma imp_genesis : genesis_ok imp_g ∧ imp_g ∈ imp_all.
Proof. split; [split_and!; [done| |done]; by apply (bool_decide_unpack _)|by left]. Qed.

(** The head, its total difficulty, and the block found at a number. *)
Definition imp_view (k : Z) (bc : BlockChain) : bytes * Z * option Z * option bytes :=
  (Hash (currentBlock bc), NumberU64 (currentBlock bc), GetTd (db bc) (Hash (currentBlock bc)) (NumberU64 (currentBlock bc)), Hash <$> GetBlockByNumber (db bc) k).

Definition imp_viewb (x y : option (bytes * Z * option Z * option bytes)) : bool := bool_decide (x = y).

Lemma imp_imported l k v : Forall (Forall (λ b, b ∈ imp_all)) l → imp_viewb (imp_view k <$> imp_run l) (Some v) = true → ∃ bc, imported Sha256.sha256 demo_config None imp_g (λ b, b ∈ imp_all) bc ∧ imp_view k bc = v.
Proof.
  intros HF E%bool_decide_eq_true. destruct (imp_run l) as [bc|] eqn:Er; [|done]. injection E as <-. exists bc. split; [|done]. eapply imports_imported; [exact HF|apply imported_new|exact Er].
Qed.

Definition imp_history : list (list Block) := [[imp_h]; [imp_s1]; [imp_s2]; [imp_s1; imp_s2]].

Lemma imp_history_in : Forall (Forall (λ b, b ∈ imp_all)) imp_history.
Proof. repeat constructor. Qed.

(** [import_keeps_chain] after this history: the ancestor of s2 is found at 1,
    and an import that is not linked is refused. *)
Lemma import_keeps_chain_witness : ∃ bc, imported Sha256.sha256 demo_config None imp_g (λ b, b ∈ imp_all) bc ∧ imp_view 1 bc = (Hash imp_s2, 2, Some 3, Some (Hash imp_s1)) ∧
  (∃ a, anc (db bc) (currentBlock bc) a ∧ NumberU64 a = 1 ∧ GetBlockByNumber (db bc) 1 = Some a) ∧
  (∀ bc' r, InsertChain Sha256.sha256 demo_config None 2 [imp_s2; imp_s1] bc = Ok bc' r → bc' = bc ∧ r = (0, Some ErrNonContiguous)).
Proof.
  destruct (imp_imported imp_history 1 (Hash imp_s2, 2, Some 3, Some (Hash imp_s1)) imp_history_in) as (bc & HI & E); [vm_compute; reflexivity|]. exists bc. split; [exact HI|]. split; [exact E|].
  destruct (import_keeps_chain Sha256.sha256 demo_config None imp_g (λ b, b ∈ imp_all) bc imp_universe demo_processing_ok (proj1 imp_genesis) (proj2 imp_genesis) HI) as (H1 & _ & H3). split.
  - apply H1. assert (En : NumberU64 (currentBlock bc) = 2) by (injection E; auto). rewrite En. lia.
  - intros bc' r Er. destruct (H3 2%nat [imp_s2; imp_s1] bc' r) as [_ H4]; [repeat constructor|exact Er|]. apply H4. vm_compute. reflexivity.
Defined.

(** In the middle of an import a known block becomes the head, whatever its
    total difficulty: the head of total difficulty 11 gives way to one of 3. *)
Lemma lighter_block_becomes_head :
  (∃ bc, imported Sha256.sha256 demo_config None imp_g (λ b, b ∈ imp_all) bc ∧ imp_view 1 bc = (Hash imp_h, 1, Some 11, Some (Hash imp_h))) ∧
  (∃ bc, imported Sha256.sha256 demo_config None imp_g (λ b, b ∈ imp_all) bc ∧ imp_view 1 bc = (Hash imp_s2, 2, Some 3, Some (Hash imp_s1))).
Proof.
  split; [apply (imp_imported (take 3 imp_history))|apply (imp_imported imp_history)]; try apply imp_history_in; try (vm_compute; reflexivity). apply Forall_take, imp_history_in.
Qed.

End ChainInsertClaims.
