(* ===== verification/ChainHead.v ===== *)
(** * ChainHead: header chains and rewinding

    WriteHeader, the validation and insertion of header chains and SetHead of
    core/headerchain.go; SetHead, loadLastState, Reset, repair, Rollback and
    FastSyncCommitHead of core/blockchain.go.

    - The mutex of the chain is not recursive: what takes it while it is held
      never returns ([blocked]).
    - The draws of the sampled seal checks and the coin are arguments. *)

From stdpp Require Import base gmap list.
From Stdlib Require Import ZArith Lia.
From S2P Require Import Prelude Types CMdb TrieHash TrieDb TrieCommit Chain ChainInsert.

Local Open Scope Z_scope.

Module ChainHead.
Import Chain ChainInsert.

Section WithEnvironment.
Context {ENV : TrieDb.Environment} {PROC : Processing}.
Context (header_coin : BlockChain → Header → bool).

Local Notation "x <- m ;; k" := (bind m (λ x, k)) (at level 100, m at next level, right associativity).
Local Notation "m ;;; k" := (bind m (λ _, k)) (at level 100, right associativity).

Definition SetCurrentHeader (hd : Header) : M unit := modify (λ bc, set_header bc hd (h_Hash hd)).

(** ** Header chains *)

(** Markers of another branch are overwritten down to the first right one. *)
Fixpoint overwrite_stale (fuel : nat) (headHash : bytes) (headNumber : Z) (headHeader : option Header) (batch : chaindb → chaindb) : M (chaindb → chaindb) :=
  bc <- get;;
  if decide (ReadCanonicalHash (db bc) headNumber = headHash) then ret batch
  else
    match fuel with
    | O => unfinished
    | S fuel =>
        hd <- some headHeader;;
        let n := u64 (h_Number hd - 1) in
        overwrite_stale fuel (h_ParentHash hd) n (GetHeader (db bc) (h_ParentHash hd) n) (λ d, WriteCanonicalHash headHash headNumber (batch d))
    end.

Definition WriteHeader (hd : Header) : M WriteStatus :=
  bc <- get;;
  match GetTd (db bc) (h_ParentHash hd) (u64 (h_Number hd - 1)) with
  | None => throw ErrUnknownAncestor
  | Some ptd =>
      let localTd := GetTd (db bc) (currentHeaderHash bc) (h_Number (currentHeader bc)) in
      let externTd := h_Difficulty hd + ptd in
      write (λ d, rawdb_WriteHeader hd (WriteTd (h_Hash hd) (h_Number hd) externTd d));;;
      localTd <- some localTd;;
      bc <- get;;
      if (localTd <? externTd) || ((externTd =? localTd) && header_coin bc hd) then
        let n := u64 (h_Number hd - 1) in
        batch <- overwrite_stale (S (Z.to_nat (h_Number hd))) (h_ParentHash hd) n (GetHeader (db bc) (h_ParentHash hd) n) (delete_above (db bc) (h_Number hd) id);;
        write (λ d, WriteHeadHeaderHash (h_Hash hd) (WriteCanonicalHash (h_Hash hd) (h_Number hd) (batch d)));;;
        modify (λ bc, set_header bc hd (h_Hash hd));;;
        ret CanonStatTy
      else ret SideStatTy
  end.

Fixpoint linked_headers (chain : list Header) : bool :=
  match chain with
  | prev :: (hd :: _) as rest => (h_Number hd =? u64 (h_Number prev + 1)) && bool_decide (h_ParentHash hd = h_Hash prev) && linked_headers rest
  | _ => true
  end.

(** One seal in every [checkFreq] is checked, and the last one. *)
Definition seal_marks (checkFreq : Z) (draws : list Z) (n : nat) : option (list bool) :=
  let seals := replicate n false in
  if checkFreq =? 0 then Some seals
  else
    let seals := foldl (λ s x, <[Z.to_nat (Z.min (x.1 * checkFreq + x.2) (Z.of_nat n - 1)) := true]> s) seals (zip (seqZ 0 (Z.quot (Z.of_nat n) checkFreq)) draws) in
    match n with
    | O => None
    | S m => Some (<[m := true]> seals)
    end.

Fixpoint first_error (i : Z) (l : list (Header * option chain_error)) : result :=
  match l with
  | [] => (0, None)
  | (hd, e) :: l =>
      if bool_decide (h_Hash hd ∈ BadHashes) then (i, Some ErrBlacklistedHash)
      else match e with Some e => (i, Some e) | None => first_error (i + 1) l end
  end.

Definition ValidateHeaderChain (chain : list Header) (checkFreq : Z) (draws : list Z) : M result :=
  if negb (linked_headers chain) then ret (0, Some ErrNonContiguous)
  else
    bc <- get;;
    seals <- some (seal_marks checkFreq draws (length chain));;
    ret (first_error 0 (zip chain (VerifyHeaders (db bc) chain seals))).

(** Known headers that are not heavier than the head are passed over. *)
Fixpoint insert_headers (i : Z) (chain : list Header) : M result :=
  match chain with
  | [] => ret (0, None)
  | hd :: chain =>
      bc <- get;;
      let externTd := GetTd (db bc) (h_Hash hd) (h_Number hd) in
      let localTd := GetTd (db bc) (currentHeaderHash bc) (h_Number (currentHeader bc)) in
      ignore <- (if HasHeader (db bc) (h_Hash hd) (h_Number hd) then
                   match externTd with None => ret true | Some e => l <- some localTd;; ret (e <=? l) end
                 else ret false);;
      if ignore then insert_headers (i + 1) chain
      else
        r <- try (WriteHeader hd);;
        match r with
        | inl e => ret (i, Some e)
        | inr _ => insert_headers (i + 1) chain
        end
  end.

Definition InsertHeaderChain (chain : list Header) (checkFreq : Z) (draws : list Z) : M result :=
  r <- ValidateHeaderChain chain checkFreq draws;;
  match r with
  | (i, Some e) => ret (i, Some e)
  | (_, None) => match chain with [] => crash | _ => insert_headers 0 chain end
  end.

(** ** Rewinding *)

(** The loop of [SetHead] of the header chain: heads go down at once, what is
    above them is deleted at the end. Block numbers are fuel enough. *)
Fixpoint rewind (fuel : nat) (head : Z) (updateFn : Header → M (chaindb → chaindb)) (delFn : bytes → Z → chaindb → chaindb) (batch : chaindb → chaindb) : M (chaindb → chaindb) :=
  bc <- get;;
  let hdr := currentHeader bc in
  if h_Number hdr <=? head then ret batch
  else
    match fuel with
    | O => unfinished
    | S fuel =>
        let parent := default (b_header (genesisBlock bc)) (GetHeader (db bc) (h_ParentHash hdr) (u64 (h_Number hdr - 1))) in
        marker <- updateFn parent;;
        write (λ d, WriteHeadHeaderHash (h_ParentHash hdr) (marker d));;;
        modify (λ bc, set_header bc parent (h_ParentHash hdr));;;
        rewind fuel head updateFn delFn (λ d,
          DeleteCanonicalHash (h_Number hdr) (DeleteTd (h_Hash hdr) (h_Number hdr) (DeleteHeader (h_Hash hdr) (h_Number hdr) (delFn (h_Hash hdr) (h_Number hdr) (batch d)))))
    end.

Definition header_SetHead (head : Z) (updateFn : Header → M (chaindb → chaindb)) (delFn : bytes → Z → chaindb → chaindb) : M unit :=
  bc <- get;;
  batch <- rewind (Z.to_nat (h_Number (currentHeader bc))) head updateFn delFn id;;
  write batch.

(** The block to rewind to, or the genesis block where its state is missing. *)
Definition update_heads (hd : Header) : M (chaindb → chaindb) :=
  bc <- get;;
  let found := GetBlock (db bc) (h_Hash hd) (h_Number hd) in
  m1 <- (if h_Number hd <? NumberU64 (currentBlock bc) then
           let b := match found with Some b => if HasState bc (Root b) then b else genesisBlock bc | None => genesisBlock bc end in
           modify (λ bc, set_block bc b);;; ret (WriteHeadBlockHash (Hash b))
         else ret id);;
  m2 <- (if h_Number hd <? NumberU64 (currentFastBlock bc) then
           let b := default (genesisBlock bc) found in
           modify (λ bc, set_fast bc b);;; ret (WriteHeadFastBlockHash (Hash b))
         else ret id);;
  ret (λ d, m2 (m1 d)).

Definition delete_block (h : bytes) (n : Z) (d : chaindb) : chaindb := DeleteReceipts h n (DeleteBody h n d).

(** Taking the mutex again. *)
Definition blocked {A} : M A := λ _, Unfinished.

(** Back to a block with a state. Block numbers are fuel enough. *)
Fixpoint repair (fuel : nat) (head : Block) : M Block :=
  bc <- get;;
  if HasState bc (Root head) then ret head
  else
    match GetBlock (db bc) (ParentHash head) (u64 (NumberU64 head - 1)) with
    | None => throw ErrMissingBlock
    | Some b => match fuel with O => unfinished | S fuel => repair fuel b end
    end.

(** [reset] is what a missing head block leads to. *)
Definition load_state (reset : M unit) : M unit :=
  bc <- get;;
  if decide (headBlock (db bc) = zeroHash) then reset
  else
    match GetBlockByHash (db bc) (headBlock (db bc)) with
    | None => reset
    | Some b =>
        b <- (if HasState bc (Root b) then ret b
              else b <- repair (S (Z.to_nat (NumberU64 b))) b;; write (WriteHeadBlockHash (Hash b));;; ret b);;
        modify (λ bc, set_block bc b);;;
        bc <- get;;
        SetCurrentHeader (default (b_header b) (if decide (headHeader (db bc) = zeroHash) then None else GetHeaderByHash (db bc) (headHeader (db bc))));;;
        modify (λ bc, set_fast bc (default b (if decide (headFastBlock (db bc) = zeroHash) then None else GetBlockByHash (db bc) (headFastBlock (db bc)))))
    end.

(** The mutex is held from the first line on: a reset waits for it. *)
Definition SetHead (head : Z) : M unit :=
  header_SetHead head update_heads delete_block;;;
  modify (λ bc, set_future bc []);;;
  load_state blocked.

Definition ResetWithGenesisBlock (genesis : Block) : M unit :=
  SetHead 0;;;
  write (λ d, WriteBlock genesis (WriteTd (Hash genesis) (NumberU64 genesis) (Difficulty genesis) d));;;
  writeHeadBlock genesis;;;
  modify (λ bc, set_block (set_genesis bc genesis) genesis);;;
  SetCurrentHeader (b_header genesis);;;
  modify (λ bc, set_fast bc genesis).

Definition Reset : M unit := bc <- get;; ResetWithGenesisBlock (genesisBlock bc).

(** As a new node calls it, without the mutex. *)
Definition loadLastState : M unit := load_state Reset.

(** The head leaves the links from the last to the first. *)
Definition rollback_link (h : bytes) (batch : chaindb → chaindb) : M (chaindb → chaindb) :=
  bc <- get;;
  let hd := currentHeader bc in
  b1 <- (if decide (h_Hash hd = h) then
           p <- some (GetHeader (db bc) (h_ParentHash hd) (u64 (h_Number hd - 1)));;
           SetCurrentHeader p;;; ret (WriteHeadHeaderHash (h_ParentHash hd))
         else ret id);;
  let fast := currentFastBlock bc in
  b2 <- (if decide (Hash fast = h) then
           p <- some (GetBlock (db bc) (ParentHash fast) (u64 (NumberU64 fast - 1)));;
           modify (λ bc, set_fast bc p);;; ret (WriteHeadFastBlockHash (ParentHash fast))
         else ret id);;
  let cur := currentBlock bc in
  b3 <- (if decide (Hash cur = h) then
           p <- some (GetBlock (db bc) (ParentHash cur) (u64 (NumberU64 cur - 1)));;
           modify (λ bc, set_block bc p);;; ret (WriteHeadBlockHash (ParentHash cur))
         else ret id);;
  ret (λ d, b3 (b2 (b1 (batch d)))).

Fixpoint rollback_links (l : list bytes) (batch : chaindb → chaindb) : M (chaindb → chaindb) :=
  match l with
  | [] => ret batch
  | h :: l => batch <- rollback_link h batch;; rollback_links l batch
  end.

Definition Rollback (chain : list bytes) : M unit := batch <- rollback_links (reverse chain) id;; write batch.

Definition FastSyncCommitHead (h : bytes) : M unit :=
  bc <- get;;
  match GetBlockByHash (db bc) h with
  | None => throw ErrNonExistent
  | Some b => if HasState bc (Root b) then modify (λ bc, set_block bc b) else throw ErrState
  end.

End WithEnvironment.
End ChainHead.
