(* ===== verification/ChainHeadClaims.v ===== *)
(** * ChainHeadClaims: what rewinding leaves

    SetHead brings the head to the ancestor at the number, or to the genesis
    block where a state on the way is missing, and deletes exactly the blocks
    of the branch above it; a missing head block is never recovered from. *)

From stdpp Require Import base gmap list.
From Stdlib Require Import ZArith Lia.
From S2P Require Import Prelude Types CMdb TrieHash TrieDb TrieDbClaims Sha256 TrieCommit Chain ChainProofs ChainClaims ChainInsert ChainHead.

Local Open Scope Z_scope.

Module ChainHeadClaims.
Import Chain ChainProofs ChainClaims ChainInsert ChainHead.

(** ** Deletions *)

(** What [SetHead] deletes of a block. *)
Definition del (x : Block) (d : chaindb) : chaindb :=
  DeleteCanonicalHash (NumberU64 x) (DeleteTd (Hash x) (NumberU64 x) (DeleteHeader (Hash x) (NumberU64 x) (delete_block (Hash x) (NumberU64 x) d))).

Definition dels (l : list Block) (d : chaindb) : chaindb := foldl (λ d x, del x d) d l.

Definition at_key (x : Block) : Z * bytes := (NumberU64 x, Hash x).

Lemma dels_lookups l : ∀ d, (∀ k, headers (dels l d) !! k = if decide (k ∈ at_key <$> l) then None else headers d !! k) ∧ (∀ k, bodies (dels l d) !! k = if decide (k ∈ at_key <$> l) then None else bodies d !! k) ∧
  (∀ h, numbers (dels l d) !! h = if decide (h ∈ Hash <$> l) then None else numbers d !! h) ∧ (∀ n, canonical (dels l d) !! n = if decide (n ∈ NumberU64 <$> l) then None else canonical d !! n) ∧
  headBlock (dels l d) = headBlock d ∧ headHeader (dels l d) = headHeader d ∧ headFastBlock (dels l d) = headFastBlock d.
Proof.
  assert (Hd : ∀ {K A : Type} `{Countable K} (m : gmap K A) (k k' : K) (ks : list K), (if decide (k ∈ ks) then None else delete k' m !! k) = if decide (k ∈ k' :: ks) then None else m !! k).
  { intros K A ?? m k k' ks. destruct (decide (k ∈ ks)); [rewrite decide_True by (by right); done|]. destruct (decide (k = k')) as [->|Hn]; [rewrite lookup_delete_eq, decide_True by (by left); done|].
    rewrite lookup_delete_ne by done. rewrite decide_False; [done|]. by intros [?|?]%elem_of_cons. }
  induction l as [|x l IH]; intros d; cbn [dels foldl fmap list_fmap].
  - split_and!; try done; intros k; rewrite decide_False; try done; apply not_elem_of_nil.
  - destruct (IH (del x d)) as (H1 & H2 & H3 & H4 & H5). fold (dels l (del x d)). split_and!; try apply H5; intros k; [rewrite H1|rewrite H2|rewrite H3|rewrite H4]; apply Hd.
Qed.

Section Claims.
Context {ENV : TrieDb.Environment}.

Section Rewind.
Context (g a : Block) (bc : BlockChain) (OK : chain_ok g bc) (n : Z) (Ha : NumberU64 a = n) (Hn : 0 <= n).

(** The rewinding has come to [x]; [live] while the states were there. *)
Record rewound (x : Block) (live : bool) (b : BlockChain) : Prop := {
  re_same : same_blocks (db bc) (db b) ∧ canonical (db b) = canonical (db bc);
  re_rest : triedb b = triedb bc ∧ genesisBlock b = g;
  re_header : currentHeader b = b_header x ∧ headHeader (db b) = Hash x;
  re_fast : currentFastBlock b = x ∧ headFastBlock (db b) = Hash x;
  re_block : currentBlock b = (if live then x else g) ∧ headBlock (db b) = Hash (if live then x else g);
}.

Lemma has_state_same b : triedb b = triedb bc → ∀ r, HasState b r = HasState bc r.
Proof. intros E r. unfold HasState. by rewrite E. Qed.

(** One step down. *)
Lemma step_down x p live b : rewound x live b → stored (db bc) x → parent (db bc) x p →
  ∃ marker b', update_heads (b_header p) b = Ok b' marker ∧ currentHeader b' = currentHeader b ∧ db b' = db b ∧
    rewound p (live && HasState bc (Root p)) (set_header (set_db b' (WriteHeadHeaderHash (Hash p) (marker (db b')))) (b_header p) (Hash p)).
Proof.
  intros [[W1 W2] [W3 W4] [W5 W6] [W7 W8] [W9 W10]] Hx (Hpos & Eh & En & Hp). pose proof (co_tree _ _ OK) as T. pose proof (proj2 (tr_genesis _ _ T)) as G0. pose proof (stored_range g _ T p Hp) as [Hr _].
  assert (Eg : GetBlock (db b) (h_Hash (b_header p)) (h_Number (b_header p)) = Some p) by (unfold GetBlock; rewrite (same_blocks_read _ _ _ _ W1); exact Hp).
  assert (Ef : (h_Number (b_header p) <? NumberU64 (currentFastBlock b)) = true) by (rewrite W7; change (h_Number (b_header p)) with (NumberU64 p); apply Z.ltb_lt; lia).
  unfold update_heads. unfold bind at 1, get at 1. rewrite Eg, Ef, W4, (has_state_same b W3). destruct live; cbn [andb].
  - assert (El : (h_Number (b_header p) <? NumberU64 (currentBlock b)) = true) by (rewrite W9; change (h_Number (b_header p)) with (NumberU64 p); apply Z.ltb_lt; lia). rewrite El.
    eexists _, _. split_and!; [reflexivity|done|done|]. destruct (HasState bc (Root p)); by split.
  - assert (El : (h_Number (b_header p) <? NumberU64 (currentBlock b)) = false) by (rewrite W9; change (h_Number (b_header p)) with (NumberU64 p); apply Z.ltb_ge; lia). rewrite El.
    eexists _, _. split_and!; [reflexivity|done|done|]. by split.
Qed.

(** The states of the blocks the heads pass on the way down [l] to [a]. *)
Fixpoint passes (l : list Block) : bool :=
  match l with
  | [] => true
  | _ :: l => HasState bc (Root (match l with y :: _ => y | [] => a end)) && passes l
  end.

Lemma path_head x l : path (db bc) x l a → match l with y :: _ => y | [] => a end = x.
Proof. by inversion 1. Qed.

Lemma rewind_run l : ∀ x live b batch fuel, path (db bc) x l a → stored (db bc) x → rewound x live b → (length l <= fuel)%nat →
  ∃ b' batch', rewind fuel n update_heads delete_block batch b = Ok b' batch' ∧ (∀ d, batch' d = dels l (batch d)) ∧ rewound a (live && passes l) b'.
Proof.
  induction l as [|y l IH]; intros x live b batch fuel HP Hx HW Hf; pose proof (re_header _ _ _ HW) as [W5 W6].
  - inversion HP; subst. exists b, batch. split_and!; [|done|by rewrite andb_true_r]. destruct fuel; cbn [rewind]; unfold bind, get; rewrite W5; change (h_Number (b_header a)) with (NumberU64 a); rewrite Z.leb_refl; done.
  - inversion HP as [|? p ? ? Hs Hp HP']; subst y. destruct fuel as [|fuel]; [cbn in Hf; lia|]. cbn [rewind]. unfold bind at 1, get at 1. rewrite W5.
    change (h_Number (b_header x)) with (NumberU64 x). change (h_ParentHash (b_header x)) with (ParentHash x). change (h_Hash (b_header x)) with (Hash x).
    pose proof (path_number _ _ _ _ HP) as En. rewrite Ha in En. cbn [length] in En. rewrite (proj2 (Z.leb_gt (NumberU64 x) n)) by lia.
    assert (Eg : GetHeader (db b) (ParentHash x) (u64 (NumberU64 x - 1)) = Some (b_header p)).
    { pose proof (get_parent g _ (co_tree _ _ OK) x p Hs Hp) as E. unfold GetBlock in E. rewrite <- (same_blocks_read _ (db b)) in E by apply (re_same _ _ _ HW). unfold ReadBlock in E. unfold GetHeader.
      destruct (ReadHeader (db b) _ _) as [hd|]; [|done]. cbn in E. destruct (ReadBody _ _ _); [|done]. by injection E as <-. }
    rewrite Eg. unfold default, id. destruct (step_down x p live b HW Hs Hp) as (marker & b1 & E1 & E2 & E3 & HW1). unfold bind at 1. rewrite E1. unfold bind at 1, write, modify at 1. unfold bind at 1, modify at 1.
    pose proof Hp as (_ & Eh & _ & Hsp). rewrite <- Eh.
    destruct (IH p (live && HasState bc (Root p)) _ (λ d, DeleteCanonicalHash (NumberU64 x) (DeleteTd (Hash x) (NumberU64 x) (DeleteHeader (Hash x) (NumberU64 x) (delete_block (Hash x) (NumberU64 x) (batch d))))) fuel HP' Hsp HW1) as (b' & batch' & E4 & E5 & HW'); [cbn in Hf; lia|].
    exists b', batch'. split_and!; [exact E4|intros d; by rewrite E5|]. cbn [passes]. rewrite (path_head p l HP'). by rewrite andb_assoc.
Qed.

(** *** After the deletions *)

Context (l : list Block) (HP : path (db bc) (currentBlock bc) l a).

Let Hs : stored (db bc) (currentBlock bc) := proj1 (co_head _ _ OK).

Lemma rewound_in x : x ∈ l ↔ anc (db bc) (currentBlock bc) x ∧ n < NumberU64 x.
Proof.
  split.
  - intros Hx. split; [apply (path_anc _ _ _ _ HP); by left|]. pose proof (path_in _ _ _ _ x HP Hx) as [_ ?]. lia.
  - intros [Hx Hlt]. apply (path_anc _ _ _ _ HP) in Hx as [?|Hx]; [done|]. pose proof (anc_number _ _ _ Hx). lia.
Qed.

Lemma deleted_key b : stored (db bc) b → at_key b ∈ at_key <$> l ↔ b ∈ l.
Proof.
  intros Hb. split; [|by intros ?; apply list_elem_of_fmap_2]. intros (x & E & Hx)%list_elem_of_fmap. assert (Hsx : stored (db bc) x) by (by apply (path_in _ _ _ _ x HP)). injection E as _ E. by rewrite (tr_hash _ _ (co_tree _ _ OK) b x Hb Hsx E).
Qed.

Lemma kept_read d h k : same_blocks (db bc) d → k <= n → ReadBlock (dels l d) h k = ReadBlock (db bc) h k.
Proof.
  intros (S1 & S2 & _) Hk. destruct (dels_lookups l d) as (H1 & H2 & _). unfold ReadBlock, ReadHeader, ReadBody. rewrite H1, H2, S1, S2.
  rewrite !decide_False; [done|..]; (intros (x & E & Hx)%list_elem_of_fmap; injection E as E _; apply rewound_in in Hx as [_ ?]; lia).
Qed.

Lemma kept_block d y : same_blocks (db bc) d → stored (db bc) y → NumberU64 y <= n → GetBlockByHash (dels l d) (Hash y) = Some y ∧ GetHeaderByHash (dels l d) (Hash y) = Some (b_header y).
Proof.
  intros S Hy Hk. pose proof S as (_ & _ & _ & S4). destruct (dels_lookups l d) as (_ & _ & H3 & _). unfold GetBlockByHash, GetHeaderByHash, GetBlockNumber, ReadHeaderNumber. rewrite H3, S4. rewrite decide_False.
  - pose proof (co_numbers _ _ OK y Hy) as E. unfold GetBlockNumber, ReadHeaderNumber in E. rewrite E. cbn [mbind option_bind]. unfold GetBlock, GetHeader. pose proof (kept_read d (Hash y) (NumberU64 y) S Hk) as Er. rewrite Hy in Er.
    split; [exact Er|]. unfold ReadBlock in Er. destruct (ReadHeader (dels l d) _ _) as [hd|]; [|done]. cbn in Er. destruct (ReadBody _ _ _); [|done]. by injection Er as <-.
  - intros (x & E & Hx)%list_elem_of_fmap. assert (Hsx : stored (db bc) x) by (by apply (path_in _ _ _ _ x HP)). rewrite (tr_hash _ _ (co_tree _ _ OK) y x Hy Hsx E) in Hk. apply rewound_in in Hx as [_ ?]. lia.
Qed.

Lemma kept_stored d b : same_blocks (db bc) d → stored (dels l d) b ↔ stored (db bc) b ∧ ¬ (anc (db bc) (currentBlock bc) b ∧ n < NumberU64 b).
Proof.
  intros (S1 & S2 & _). destruct (dels_lookups l d) as (H1 & H2 & _). unfold stored at 1, ReadBlock, ReadHeader, ReadBody. rewrite H1, H2, S1, S2. fold (at_key b). rewrite <- rewound_in. destruct (decide (at_key b ∈ at_key <$> l)) as [Hd|Hd].
  - split; [done|]. intros [Hb Hn']. destruct Hn'. by apply deleted_key.
  - split; [|by intros [? _]]. intros Hb. split; [exact Hb|]. intros Hl. by apply Hd, list_elem_of_fmap_2.
Qed.

Lemma kept_read_above d h k : same_blocks (db bc) d → NumberU64 (currentBlock bc) < k → ReadBlock (dels l d) h k = ReadBlock (db bc) h k.
Proof.
  intros (S1 & S2 & _) Hk. destruct (dels_lookups l d) as (H1 & H2 & _). unfold ReadBlock, ReadHeader, ReadBody. rewrite H1, H2, S1, S2.
  rewrite !decide_False; [done|..]; (intros (x & E & Hx)%list_elem_of_fmap; injection E as E _; apply rewound_in in Hx as [Hx _]; apply anc_number in Hx; lia).
Qed.

Lemma kept_numbers d k : same_blocks (db bc) d → canonical d = canonical (db bc) →
  GetBlockByNumber (dels l d) k = if (n <? k) && (k <=? NumberU64 (currentBlock bc)) then None else GetBlockByNumber (db bc) k.
Proof.
  intros S Ec. destruct (dels_lookups l d) as (_ & _ & _ & H4 & _). unfold GetBlockByNumber, ReadCanonicalHash. rewrite H4, Ec. destruct (Z.ltb_spec n k) as [Hk|Hk]; [destruct (Z.leb_spec k (NumberU64 (currentBlock bc))) as [Hk'|Hk']|]; cbn [andb].
  - assert (E : k ∈ NumberU64 <$> l); [|rewrite (decide_True _ _ E); cbn [default]; by rewrite decide_True]. destruct (anc_exists g _ (co_tree _ _ OK) _ k Hs) as (x & Hx & E); [lia|]. rewrite <- E. apply list_elem_of_fmap_2, rewound_in. split; [done|lia].
  - assert (Hd : k ∉ NumberU64 <$> l) by (intros (x & E & Hx)%list_elem_of_fmap; apply rewound_in in Hx as [Hx _]; apply anc_number in Hx; lia). rewrite (decide_False _ _ Hd). destruct (decide _); [done|by apply kept_read_above].
  - assert (Hd : k ∉ NumberU64 <$> l) by (intros (x & E & Hx)%list_elem_of_fmap; apply rewound_in in Hx as [_ ?]; lia). rewrite (decide_False _ _ Hd). destruct (decide _); [done|by apply kept_read].
Qed.

(** The states that count are those of the ancestors from [n] up to the head. *)
Lemma passes_iff m x : path (db bc) x m a → stored (db bc) x → passes m = true ↔ ∀ y, anc (db bc) x y → n <= NumberU64 y < NumberU64 x → HasState bc (Root y) = true.
Proof.
  revert x. induction m as [|z m IH]; intros x Hm Hx; inversion Hm as [|? p ? ? Hz Hp Hm']; subst; [split; [intros _ y _ ?; lia|done]|]. cbn [passes]. rewrite (path_head p m Hm'), andb_true_iff. pose proof Hp as (_ & _ & En & Hsp). rewrite (IH p Hm' Hsp).
  pose proof (path_number _ _ _ _ Hm') as Ep. split.
  - intros [H1 H2] y Hy Hr. inversion Hy as [|? q ? Hq Hy']; subst; [lia|]. rewrite (parent_fun _ _ _ _ Hq Hp) in Hy'. pose proof (anc_number _ _ _ Hy'). destruct (decide (NumberU64 y = NumberU64 p)) as [E|?]; [by rewrite (anc_same _ _ _ Hy' E)|]. apply H2; [done|lia].
  - intros H. split; [apply H; [eapply anc_step; [exact Hp|constructor]|lia]|]. intros y Hy Hr. apply H; [by eapply anc_step|lia].
Qed.

(** *** Loading what is left *)

Lemma load_run live b : rewound a live b → stored (db bc) a → HasState bc (Root (if live then a else g)) = true → ∀ reset,
  ∃ b', load_state reset (set_future (set_db b (dels l (db b))) []) = Ok b' tt ∧ db b' = dels l (db b) ∧ currentHeader b' = b_header a ∧ currentFastBlock b' = a ∧ currentBlock b' = (if live then a else g).
Proof.
  intros [[W1 W2] [W3 W4] [W5 W6] [W7 W8] [W9 W10]] Hsa HS reset. set (y := if live then a else g) in *. pose proof (co_tree _ _ OK) as T. destruct (tr_genesis _ _ T) as [Hsg G0].
  assert (Hy : stored (db bc) y ∧ NumberU64 y <= n) by (subst y; destruct live; (split; [done|lia])). destruct Hy as [Hy Hyn]. pose proof (stored_range g _ T y Hy) as [_ Hz]. pose proof (stored_range g _ T a Hsa) as [_ Hza].
  destruct (dels_lookups l (db b)) as (_ & _ & _ & _ & D1 & D2 & D3). unfold load_state. unfold bind at 1, get at 1. cbn [db set_future set_db]. rewrite D1, W10, decide_False by done.
  rewrite (proj1 (kept_block (db b) y W1 Hy Hyn)). rewrite (has_state_same _ (W3 : triedb (set_future (set_db b (dels l (db b))) []) = _)), HS. unfold bind at 1, ret at 1. unfold bind at 1, modify at 1. unfold bind at 1, get at 1.
  unfold SetCurrentHeader. unfold bind at 1, modify at 1. unfold modify. cbn [db set_block set_future set_db set_header]. rewrite D2, D3, W6, W8. rewrite !(decide_False _ _ Hza).
  assert (Han : NumberU64 a <= n) by lia. rewrite (proj2 (kept_block (db b) a W1 Hsa Han)), (proj1 (kept_block (db b) a W1 Hsa Han)). eexists. split_and!; reflexivity.
Qed.

End Rewind.

Lemma anc_path d b a : anc d b a → stored d b → ∃ l, path d b l a.
Proof. induction 1 as [b|b p a Hp Ha IH]; intros Hb; [exists []; constructor|]. destruct IH as [l Hl]; [by eapply parent_stored|]. exists (b :: l). by econstructor. Qed.

(** All heads are the same block. *)
Definition settled (bc : BlockChain) : Prop :=
  currentHeader bc = b_header (currentBlock bc) ∧ headHeader (db bc) = Hash (currentBlock bc) ∧ currentFastBlock bc = currentBlock bc ∧ headFastBlock (db bc) = Hash (currentBlock bc).

(** C21: Rewinding a chain whose three heads agree to a lower number [n] ends,
    with the header head and the fast head at the ancestor there. The block
    head is there too if the states of all ancestors from [n] on below the old
    head are present; if one of them is missing it is the genesis block (whose
    state is taken to be present), even where the state at [n] is present. No
    block is found by number above [n] up to the old head any more; at every
    other number the same is found as before, also above the old head, where a
    reorganisation can have left markers. The blocks that are gone are exactly
    those of the old branch above [n]: other branches keep theirs. *)
Theorem SetHead_rewinds (g : Block) (bc : BlockChain) (n : Z) (OK : chain_ok g bc) (Hg : genesisBlock bc = g) (HS : settled bc) (Hn : 0 <= n < NumberU64 (currentBlock bc)) (Hgs : HasState bc (Root g) = true) :
  let d := db bc in let head := currentBlock bc in
  ∃ bc' a, SetHead n bc = Ok bc' tt ∧ anc d head a ∧ NumberU64 a = n ∧ currentHeader bc' = b_header a ∧ currentFastBlock bc' = a ∧
    ((∀ x, anc d head x → n <= NumberU64 x < NumberU64 head → HasState bc (Root x) = true) → currentBlock bc' = a) ∧
    ((∃ x, anc d head x ∧ n <= NumberU64 x < NumberU64 head ∧ HasState bc (Root x) = false) → currentBlock bc' = g) ∧
    (∀ k, GetBlockByNumber (db bc') k = if (n <? k) && (k <=? NumberU64 head) then None else GetBlockByNumber d k) ∧
    (∀ b, GetBlock (db bc') (Hash b) (NumberU64 b) = Some b ↔ GetBlock d (Hash b) (NumberU64 b) = Some b ∧ ¬ (anc d head b ∧ n < NumberU64 b)).
Proof.
  cbn zeta. pose proof (co_tree _ _ OK) as T. destruct (co_head _ _ OK) as [Hs Hh]. destruct (anc_exists g _ T _ n Hs) as (a & Ha & En); [lia|]. destruct (anc_path _ _ _ Ha Hs) as [l HP]. pose proof (anc_stored _ _ _ Ha Hs) as Hsa.
  destruct HS as (S1 & S2 & S3 & S4). assert (HW : rewound g bc (currentBlock bc) true bc) by (split; split_and!; done). pose proof (path_number _ _ _ _ HP) as El. rewrite En in El.
  destruct (rewind_run g a bc OK n En (proj1 Hn) l _ true bc id (Z.to_nat (h_Number (currentHeader bc))) HP Hs HW) as (b1 & batch & E1 & E2 & HW1).
  { rewrite S1. change (h_Number (b_header (currentBlock bc))) with (NumberU64 (currentBlock bc)). lia. }
  cbn [andb] in HW1. pose proof (passes_iff a bc n En (proj1 Hn) l _ HP Hs) as HPS. pose proof (re_same _ _ _ _ _ HW1) as [W1 W2].
  assert (HS' : HasState bc (Root (if passes a bc l then a else g)) = true).
  { destruct (passes a bc l) eqn:Ep; [|done]. apply (proj1 HPS eq_refl); [done|lia]. }
  destruct (load_run g a bc OK n En (proj1 Hn) l HP (passes a bc l) b1 HW1 Hsa HS' blocked) as (bc' & E3 & D & C1 & C2 & C3).
  exists bc', a. split_and!; try done.
  - unfold SetHead, header_SetHead. unfold bind at 1, bind at 1, get at 1. unfold bind at 1. rewrite E1. unfold write, modify at 1. unfold bind at 1, modify at 1. rewrite E2. exact E3.
  - intros H. apply HPS in H. by rewrite H in C3.
  - intros (x & Hx & Hr & Hf). destruct (passes a bc l) eqn:Ep; [|done]. by rewrite (proj1 HPS eq_refl x Hx Hr) in Hf.
  - intros k. rewrite D. exact (kept_numbers g a bc OK n En (proj1 Hn) l HP (db b1) k W1 W2).
  - intros b. rewrite D. exact (kept_stored g a bc OK n En l HP (db b1) b W1).
Qed.

(** ** A missing head block *)

Definition missing (d : chaindb) : Prop := headBlock d = zeroHash ∨ GetBlockByHash d (headBlock d) = None.

Lemma missing_del x d : missing d → missing (del x d).
Proof.
  intros [H|H]; [by left|right]. change (headBlock (del x d)) with (headBlock d). destruct (dels_lookups [x] d) as (H1 & H2 & H3 & _). cbn [dels foldl fmap list_fmap] in *. unfold GetBlockByHash, GetBlockNumber, ReadHeaderNumber, GetBlock, ReadBlock, ReadHeader, ReadBody in *.
  rewrite H3. destruct (decide _) as [|Hd]; [done|]. destruct (numbers d !! headBlock d) as [m|]; [|done]. cbn in *. rewrite H1, H2. destruct (decide _); [done|exact H].
Qed.

(** No current block yet, or the genesis block. *)
Definition at_genesis (b : BlockChain) : Prop := NumberU64 (currentBlock b) = 0 ∧ 0 <= NumberU64 (genesisBlock b) ∧ ∀ k hd, headers (db b) !! k = Some hd → 0 <= h_Number hd.

Lemma rewind_missing fuel head : ∀ batch b, missing (db b) → at_genesis b → (∀ d, missing d → missing (batch d)) →
  match rewind fuel head update_heads delete_block batch b with Ok b' batch' => missing (db b') ∧ ∀ d, missing d → missing (batch' d) | Unfinished => True | _ => False end.
Proof.
  induction fuel as [|fuel IH]; intros batch b Hm Hg Hb; cbn [rewind]; unfold bind at 1, get at 1; (destruct (_ <=? _); [done|]); [done|].
  set (parent := default _ _). destruct Hg as (G1 & G2 & G3). assert (Hp : 0 <= h_Number parent).
  { subst parent. destruct (GetHeader _ _ _) as [hd|] eqn:E; [|exact G2]. exact (G3 _ _ E). }
  assert (Hu : ∃ b1 f, update_heads parent b = Ok b1 f ∧ headBlock (f (db b1)) = headBlock (db b) ∧ (∀ h, GetBlockByHash (f (db b1)) h = GetBlockByHash (db b) h) ∧ at_genesis b1 ∧ headers (f (db b1)) = headers (db b) ∧ db b1 = db b).
  { unfold update_heads. unfold bind at 1, get at 1. rewrite G1, (proj2 (Z.ltb_ge (h_Number parent) 0)) by lia. unfold bind at 1, ret at 1. destruct (_ <? _); eexists _, _; (split_and!; [reflexivity|done|done|done|done|done]). }
  destruct Hu as (b1 & f & Eu & U1 & U2 & (U3 & U4 & _) & U5 & U6). unfold bind at 1. rewrite Eu. unfold bind at 1, write, modify at 1. unfold bind at 1, modify at 1. apply IH.
  - destruct Hm as [Hm|Hm]; [left; cbn; by rewrite U1|right]. cbn. rewrite U1. change (GetBlockByHash (f (db b1)) (headBlock (db b)) = None). by rewrite U2.
  - split_and!; [done|done|]. intros k hd. cbn. rewrite U5. apply G3.
  - intros d Hd. apply (missing_del (mk_Block (currentHeader b) [])). by apply Hb.
Qed.

(** Where the head block is missing, a node that starts takes the mutex to
    reset its chain, loads the head that is still missing and waits for the
    mutex it holds. *)
Lemma missing_head_never_loads b : missing (db b) → at_genesis b → loadLastState b = Unfinished.
Proof.
  assert (Hblock : ∀ reset b, missing (db b) → load_state reset b = reset b).
  { intros reset x Hm. unfold load_state. unfold bind at 1, get at 1. destruct (decide _); [done|]. destruct Hm as [?|Hm]; [done|by rewrite Hm]. }
  intros Hm Hg. unfold loadLastState. rewrite Hblock by done. unfold Reset. unfold bind at 1, get at 1. unfold ResetWithGenesisBlock. unfold bind at 1. assert (E : SetHead 0 b = Unfinished); [|by rewrite E].
  unfold SetHead. unfold bind at 1, header_SetHead, bind at 1, get at 1. unfold bind at 1. pose proof (rewind_missing (Z.to_nat (h_Number (currentHeader b))) 0 id b Hm Hg) as HR. destruct (rewind _ _ _ _ _ b) as [b' batch| | |]; [|by destruct HR|by destruct HR|done].
  destruct HR as [H1 H2]; [done|]. unfold write, modify at 1. unfold bind at 1, modify at 1. rewrite Hblock; [done|]. by apply H2.
Qed.

End Claims.
(** ** A concrete chain *)

#[local] Existing Instance TrieDbClaims.demo_env.

Definition rew_block (x parent number : Z) (root : bytes) : Block := mk_Block (mk_Header (demo_id x) (demo_id parent) number 1 root number) [].
Definition rew_g : Block := rew_block 1 0 0 zeroHash.
Definition rew_1 : Block := rew_block 2 1 1 zeroHash.
Definition rew_2 : Block := rew_block 3 2 2 zeroHash.
Definition rew_3 : Block := rew_block 4 3 3 zeroHash.

Definition rew_run : option BlockChain := run Sha256.sha256 demo_config None not_lower [rew_1; rew_2; rew_3] (new_chain rew_g (TrieDb.NewDatabase ∅) ∅).

(** The heads and the genesis block of the chain. *)
Definition heads (bc : BlockChain) : Header * bytes * Block * bytes * Block * Block := (currentHeader bc, headHeader (db bc), currentFastBlock bc, headFastBlock (db bc), currentBlock bc, genesisBlock bc).

Lemma rew_ok : ∃ bc, chain_ok rew_g bc ∧ top (db bc) (currentBlock bc) ∧ heads bc = (b_header rew_3, Hash rew_3, rew_3, Hash rew_3, rew_3, rew_g).
Proof.
  assert (E : heads <$> rew_run = Some (b_header rew_3, Hash rew_3, rew_3, Hash rew_3, rew_3, rew_g)) by (vm_compute; reflexivity). destruct rew_run as [bc|] eqn:Er; [|done]. injection E as E1 E2 E3 E4 E5 E6. exists bc.
  assert (Hg : genesis_ok rew_g) by (split_and!; [done|by apply (bool_decide_unpack _)|done]).
  assert (HR : reachable Sha256.sha256 demo_config None (λ bc b, not_lower bc b = true) nothing rew_g bc (reverse [rew_1; rew_2; rew_3] ++ [])) by (eapply run_reachable; [exact Hg|apply reach_new|exact Er]).
  destruct (reachable_ok _ _ _ _ _ rew_g bc _ Hg HR) as (OK & _ & HT). split_and!; [done|apply HT; [exact not_lower_ok|exact (never_nothing below)]|]. unfold heads. by rewrite E1, E2, E3, E4, E5, E6.
Qed.

(** [SetHead_rewinds] on it: from 3 to 1. *)
Lemma SetHead_rewinds_witness : ∃ bc bc' a, SetHead 1 bc = Ok bc' tt ∧ NumberU64 a = 1 ∧ currentBlock bc = rew_3 ∧ currentHeader bc' = b_header a ∧ GetBlockByNumber (db bc') 2 = None ∧ GetBlockByNumber (db bc') 1 = GetBlockByNumber (db bc) 1.
Proof.
  destruct rew_ok as (bc & OK & HT & E). injection E as E1 E2 E3 E4 E5 E6. exists bc.
  assert (HS : settled bc) by (unfold settled; rewrite E1, E2, E3, E4, E5; auto). assert (Hn : 0 <= 1 < NumberU64 (currentBlock bc)) by (rewrite E5; vm_compute; split; [discriminate|reflexivity]).
  assert (Hgs : HasState bc (Root rew_g) = true) by reflexivity.
  destruct (SetHead_rewinds rew_g bc 1 OK E6 HS Hn Hgs) as (bc' & a & R1 & _ & R2 & R3 & _ & _ & _ & R4 & _). exists bc', a. split; [exact R1|]. split; [exact R2|]. split; [exact E5|]. split; [exact R3|]. rewrite E5 in R4. split; [exact (R4 2)|exact (R4 1)].
Defined.

End ChainHeadClaims.
