(* ===== verification/PoolOps.v ===== *)
(** * PoolOps: batches, limits and resets of the pool (core/tx_pool.go)

    Adding batches, the limits on pending and queued transactions, the gas
    price threshold, the eviction of idle accounts, and what happens when the
    head of the chain moves.

    - A map is ranged over in the order of [map_to_list]; the order of the
      heartbeats is an argument, and so is which accounts are idle.
    - [None] is a panic, or a loop that ran out of rounds.
    - In [reset] the account state of [PoolEnv] is that of the new head; the
      branches between the heads are read from the chain database. *)

From stdpp Require Import base gmap list.
From Stdlib Require Import ZArith Lia.
From S2P Require Import Prelude Types CMdb GoHeap TxList TxPool Chain.

Local Open Scope Z_scope.

Module PoolOps.
Import Types TxList TxPool.

Inductive TxStatus := TxStatusUnknown | TxStatusQueued | TxStatusPending.

Section WithEnv.
Context `{PoolEnv}.

(** ** Reading the pool *)

Definition list_len (l : txList) : Z := Z.of_nat (list_Len l).

Definition count (m : gmap Z txList) : Z := foldr (λ x n, list_len x.2 + n) 0 (map_to_list m).

Definition stats (p : TxPool) : Z * Z := (count (pending p), count (queue p)).

Definition Status (p : TxPool) (hashes : list Z) : list TxStatus :=
  (λ hash,
    match lk_all (all p) !! hash with
    | None => TxStatusUnknown
    | Some tx =>
        let from := default 0 (Sender tx) in
        let has m := match m !! from with Some l => bool_decide (is_Some (items (txs l) !! AccountNonce tx)) | None => false end in
        if has (pending p) then TxStatusPending else if has (queue p) then TxStatusQueued else TxStatusUnknown
    end) <$> hashes.

(** The pending transactions by account; the lists keep their sorted copies. *)
Definition Pending : PM (gmap Z (list txdata)) :=
  p ← get;
  modify (λ p, set_pending p ((λ l, (list_Flatten l).2) <$> pending p));;
  mret ((λ l, (list_Flatten l).1) <$> pending p).

(** ** Batches *)

(** The errors of the new transactions are put into the free slots: the slot
    moves on only past an error. *)
Fixpoint free_slot (fuel : nat) (errs : list (option pool_error)) (slot : nat) : option nat :=
  match errs !! slot with
  | None => None
  | Some None => Some slot
  | Some (Some _) => match fuel with O => None | S fuel => free_slot fuel errs (S slot) end
  end.

Fixpoint merge_errors (errs : list (option pool_error)) (slot : nat) (news : list (option pool_error)) : option (list (option pool_error)) :=
  match news with
  | [] => Some errs
  | e :: news => slot ← free_slot (length errs) errs slot; merge_errors (<[slot := e]> errs) slot news
  end.

(** The errors, and the accounts whose transactions are to be promoted. *)
Definition addTxs (batch : list txdata) (local : bool) : PM (list (option pool_error) * gset Z) :=
  p ← get;
  let known tx := bool_decide (is_Some (lk_all (all p) !! tx_Hash tx)) in
  let errs := (λ tx, if known tx then Some ErrAlreadyKnown else None) <$> batch in
  match filter (λ tx, known tx = false) batch with
  | [] => mret (errs, ∅)
  | news =>
      '(newErrs, dirty) ← addTxsLocked news local;
      errs ← lift (merge_errors errs 0 newErrs);
      mret (errs, dirty)
  end.

(** ** The price threshold *)

(** The loop of [Cap] of the priced list: what to drop, and what to put back. *)
Fixpoint cap_prices (fuel : nat) (p : TxPool) (threshold : Z) (its : list txdata) (st : Z) (drop save : list txdata) : option (list txdata * Z * list txdata * list txdata) :=
  match fuel, its with
  | S fuel, _ :: _ =>
      '(tx, its) ← GoHeap.Pop price_less its;
      match lk_all (all p) !! tx_Hash tx with
      | None => cap_prices fuel p threshold its (st - 1) drop save
      | Some _ =>
          if threshold <=? Price tx then Some (its, st, drop, save ++ [tx])
          else if containsTx p tx then cap_prices fuel p threshold its st drop (save ++ [tx])
          else cap_prices fuel p threshold its st (drop ++ [tx]) save
      end
  | _, _ => Some (its, st, drop, save)
  end.

Definition priced_Cap (threshold : Z) : PM (list txdata) :=
  p ← get;
  '(its, st, drop, save) ← lift (cap_prices (length (pr_items (priced p))) p threshold (pr_items (priced p)) (stales (priced p)) [] []);
  modify (λ p, set_priced p (mk_priced (foldl (λ h tx, GoHeap.Push price_less h tx) its save) st));;
  mret drop.

(** The stored price is read by nothing else here. *)
Definition SetGasPrice (price : Z) : PM unit :=
  drop ← priced_Cap price;
  forM drop (λ tx, removeTx (tx_Hash tx) false).

(** ** The limit of pending transactions *)

Definition pending_len (addr : Z) : PM Z :=
  p ← get;
  match pending p !! addr with
  | Some l => mret (list_len l)
  | None => panic
  end.

(** The last transaction of an account is dropped. *)
Definition cap_one (addr : Z) : PM unit :=
  p ← get;
  match pending p !! addr with
  | None => panic
  | Some l =>
      '(caps, l) ← lift (list_Cap l (list_Len l - 1));
      modify (λ p, set_pending p (<[addr := l]> (pending p)));;
      forM caps (λ tx, reorgCM tx;; all_Remove (tx_Hash tx);; noncer_setIfLower addr (AccountNonce tx));;
      priced_Removed (Z.of_nat (length caps))
  end.

Fixpoint cap_each (addrs : list Z) (n : Z) : PM Z :=
  match addrs with
  | [] => mret n
  | addr :: addrs => cap_one addr;; cap_each addrs (u64 (n - 1))
  end.

(** All of [addrs] lose transactions until there are few enough, or until
    [watched] is down to the threshold. *)
Fixpoint reduce_to (fuel : nat) (addrs : list Z) (watched threshold n : Z) : PM Z :=
  match fuel with
  | O => panic
  | S fuel =>
      p ← get;
      len ← pending_len watched;
      if (GlobalSlots (config p) <? n) && (threshold <? len) then
        n ← cap_each addrs n;
        reduce_to fuel addrs watched threshold n
      else mret n
  end.

(** The queue of accounts by their numbers of transactions, most first: the
    difference of two lengths does not overflow. *)
Definition more_txs (x y : Z * Z) : bool := y.2 <? x.2.

Definition spammers (p : TxPool) : list (Z * Z) :=
  foldl (λ h x, GoHeap.Push more_txs h (x.1, list_len x.2)) []
    (filter (λ x, x.1 ∉ locals p ∧ AccountSlots (config p) < list_len x.2) (map_to_list (pending p))).

(** Accounts join the offenders one by one, those before them are brought
    down to their size. *)
Fixpoint penalise (fuel : nat) (heap : list (Z * Z)) (offenders : list Z) (n : Z) : PM (list Z * Z) :=
  match fuel with
  | O => mret (offenders, n)
  | S fuel =>
      p ← get;
      match heap with
      | [] => mret (offenders, n)
      | _ =>
          if GlobalSlots (config p) <? n then
            '(x, heap) ← lift (GoHeap.Pop more_txs heap);
            n ← (match last offenders with
                 | None => mret n
                 | Some watched => threshold ← pending_len x.1; reduce_to (S (Z.to_nat n)) offenders watched threshold n
                 end);
            penalise fuel heap (offenders ++ [x.1]) n
          else mret (offenders, n)
      end
  end.

Definition truncatePending : PM unit :=
  p ← get;
  let n := u64 (count (pending p)) in
  if n <=? GlobalSlots (config p) then mret tt
  else
    '(offenders, n) ← penalise (length (spammers p)) (spammers p) [] n;
    match last offenders with
    | None => mret tt
    | Some watched =>
        if GlobalSlots (config p) <? n then reduce_to (S (Z.to_nat n)) offenders watched (AccountSlots (config p)) n;; mret tt
        else mret tt
    end.

(** ** The limit of queued transactions *)

(** Transactions are removed until [drop] of them are. *)
Fixpoint drop_queued (l : list txdata) (drop : Z) : PM Z :=
  match l with
  | [] => mret drop
  | tx :: l => if 0 <? drop then removeTx (tx_Hash tx) true;; drop_queued l (drop - 1) else mret drop
  end.

(** [addresses]: the latest heartbeat first. *)
Fixpoint truncate_queue (addresses : list Z) (drop : Z) : PM unit :=
  match addresses with
  | [] => mret tt
  | addr :: addresses =>
      if drop <=? 0 then mret tt
      else
        p ← get;
        match queue p !! addr with
        | None => panic
        | Some l =>
            if list_len l <=? drop then
              forM (list_Flatten l).1 (λ tx, removeTx (tx_Hash tx) true);;
              truncate_queue addresses (drop - list_len l)
            else
              drop ← drop_queued (reverse (list_Flatten l).1) drop;
              truncate_queue addresses drop
        end
  end.

Definition truncateQueue (by_heartbeat : list Z → list Z) : PM unit :=
  p ← get;
  let queued := u64 (count (queue p)) in
  if queued <=? GlobalQueue (config p) then mret tt
  else truncate_queue (by_heartbeat (filter (λ a, a ∉ locals p) (map_to_list (queue p)).*1)) (queued - GlobalQueue (config p)).

(** ** Idle accounts *)

Definition evict (idle : Z → bool) : PM unit :=
  p ← get;
  forM (map_to_list (queue p)).*1 (λ addr,
    p ← get;
    if bool_decide (addr ∈ locals p) then mret tt
    else if idle addr then
      match queue p !! addr with
      | Some l => forM (list_Flatten l).1 (λ tx, removeTx (tx_Hash tx) true)
      | None => mret tt
      end
    else mret tt).

(** ** A new head *)

(** What the move of the head gives back to the pool; [None]: the pool stays as
    it is. The source compares the depth as a [float64], which is exact for
    numbers of blocks below 2^53. *)
Definition reinjected (d : Chain.chaindb) (oldHead : option Chain.Header) (newHead : Chain.Header) : outcome unit (option (list Chain.Transaction)) :=
  match oldHead with
  | None => Ret (Some [])
  | Some old =>
      if decide (Chain.h_Hash old = Chain.h_ParentHash newHead) then Ret (Some [])
      else if 64 <? Z.abs (Chain.h_Number old - Chain.h_Number newHead) then Ret (Some [])
      else
        match Chain.GetBlock d (Chain.h_Hash old) (Chain.h_Number old) with
        | None => Ret None
        | Some rem =>
            match Chain.GetBlock d (Chain.h_Hash newHead) (Chain.h_Number newHead) with
            | None => Panic
            | Some add =>
                match Chain.find_fork (S (Z.to_nat (Z.max (Chain.NumberU64 rem) (Chain.NumberU64 add)))) d rem add with
                | None => Err tt
                | Some (Ret (discarded, included, _)) =>
                    Ret (Some (Chain.TxDifference (concat (map Chain.Transactions discarded)) (concat (map Chain.Transactions included))))
                | Some _ => Ret None
                end
            end
        end
  end.

Definition set_maxGas (p : TxPool) x :=
  mk_pool (config p) (istanbul p) (pendingNonces p) x (locals p) (pending p) (queue p) (beats p) (all p) (priced p) (CMdb_ p).
Definition set_istanbul (p : TxPool) x :=
  mk_pool (config p) x (pendingNonces p) (currentMaxGas p) (locals p) (pending p) (queue p) (beats p) (all p) (priced p) (CMdb_ p).

(** [hasState]: the state of the new head can be opened. *)
Definition reset (d : Chain.chaindb) (oldHead : option Chain.Header) (newHead : Chain.Header) (hasState : bool) (maxGas : Z) (isIstanbul : bool) : PM unit :=
  match reinjected d oldHead newHead with
  | Ret None => mret tt
  | Ret (Some reinject) =>
      if hasState then
        modify (λ p, set_maxGas (set_pendingNonces p ∅) maxGas);;
        addTxsLocked (map Chain.tx_data reinject) false;;
        modify (λ p, set_istanbul p isIstanbul)
      else mret tt
  | _ => panic
  end.

(** All accounts go on after their last pending transaction. *)
Definition update_nonces : PM unit :=
  p ← get;
  forM (map_to_list (pending p)) (λ x,
    let '(txs, l) := list_Flatten x.2 in
    modify (λ p, set_pending p (<[x.1 := l]> (pending p)));;
    match last txs with
    | Some tx => noncer_set x.1 (u64 (AccountNonce tx + 1))
    | None => panic
    end).

(** The promoted transactions; [resetting] is the reset, where there is one. *)
Definition runReorg (resetting : option (PM unit)) (dirty : gset Z) (by_heartbeat : list Z → list Z) : PM (list txdata) :=
  (match resetting with Some m => m | None => mret tt end);;
  p ← get;
  promoted ← promoteExecutables (match resetting with Some _ => (map_to_list (queue p)).*1 | None => elements dirty end);
  (match resetting with Some _ => demoteUnexecutables | None => mret tt end);;
  truncatePending;;
  truncateQueue by_heartbeat;;
  update_nonces;;
  mret promoted.

End WithEnv.
End PoolOps.
