(* ===== verification/PoolOpsClaims.v ===== *)
(** * PoolOpsClaims: limits, batches and resets

    The limit of pending transactions is kept as far as it may be, the errors
    of a batch can be those of other transactions, and a new head gives back
    the transactions of the abandoned branch. *)

From stdpp Require Import base gmap list sorting.
From Stdlib Require Import ZArith Lia.
From S2P Require Import Prelude ZkpClaims Types GoHeap TxList TxListProofs CMdb TxPool TxPoolProofs Transfer PoolClaims TrieDb TrieDbClaims Chain ChainProofs ChainClaims PoolOps.

Local Open Scope Z_scope.

(** ** PoolOpsProofs: the limit of pending transactions

    What dropping the last transaction of an account does, and the loops of
    [truncatePending] that drop them. *)

Module PoolOpsProofs.
Import Types TxList TxListProofs TxPool TxPoolProofs PoolOps.

(** ** Cutting lists *)

Lemma first_nonces_all k its : (size its <= k)%nat → first_nonces k its = its.
Proof. intros Hk. apply map_filter_id. intros n tx Hn. cbn. rewrite take_ge by (rewrite length_nonces; lia). apply elem_of_nonces. eauto. Qed.

Lemma first_nonces_first j k its : (j <= k)%nat → first_nonces j (first_nonces k its) = first_nonces j its.
Proof.
  intros Hjk. unfold first_nonces at 1. rewrite nonces_first, take_take, Nat.min_l by lia. unfold first_nonces. apply map_eq. intros n. apply option_eq. intros tx. rewrite !map_lookup_filter_Some. cbn. split; [tauto|].
  intros [H1 H2]. split_and!; try done. rewrite <- (take_drop j (take k (nonces its))), take_take, Nat.min_l by lia. apply elem_of_app. by left.
Qed.

Lemma size_first k its : keyed its → size (first_nonces k its) = Nat.min k (size its).
Proof. intros Hk. rewrite <- !length_nonces, nonces_first, length_take. done. Qed.

(** ** Sums over maps *)

Lemma count_perm (l l' : list (Z * txList)) : l ≡ₚ l' → foldr (λ x n, list_len x.2 + n) 0 l = foldr (λ x n, list_len x.2 + n) 0 l'.
Proof. induction 1; cbn; lia. Qed.

Lemma count_delete (m : gmap Z txList) a l : m !! a = Some l → count m = list_len l + count (delete a m).
Proof. intros E. unfold count. rewrite (count_perm _ _ (symmetry (map_to_list_delete m a l E))). done. Qed.

Lemma count_insert (m : gmap Z txList) a l l' : m !! a = Some l → count (<[a := l']> m) = count m - list_len l + list_len l'.
Proof. intros E. rewrite (count_delete m a l E), (count_delete (<[a := l']> m) a l') by apply lookup_insert_eq. rewrite delete_insert_eq. lia. Qed.

Lemma pending_count_nonneg (m : gmap Z txList) : 0 <= count m.
Proof. unfold count. induction (map_to_list m) as [|x l IH]; cbn; [lia|]. unfold list_len at 1. lia. Qed.

Section WithEnv.
Context `{PoolEnv}.

(** ** The invariant *)

(** Every pending transaction is known under its hash, and is its sender's. *)
Record pool_ok (p : TxPool) : Prop := {
  pk_list : ∀ a l, pending p !! a = Some l → list_wf l;
  pk_tx : ∀ a l n tx, pending p !! a = Some l → items (txs l) !! n = Some tx → Sender tx = Some a ∧ lk_all (all p) !! tx_Hash tx = Some tx ∧ tx_small tx;
}.

Definition plen (p : TxPool) (a : Z) : Z := match pending p !! a with Some l => list_len l | None => 0 end.

(** Accounts keep their first transactions, and nothing else is touched. *)
Record shrinks (p p' : TxPool) : Prop := {
  sh_ok : pool_ok p';
  sh_rest : config p' = config p ∧ locals p' = locals p ∧ queue p' = queue p;
  sh_none : ∀ a, pending p !! a = None → pending p' !! a = None;
  sh_some : ∀ a l, pending p !! a = Some l → ∃ l', pending p' !! a = Some l' ∧ items (txs l') = first_nonces (list_Len l') (items (txs l)) ∧ (list_Len l' <= list_Len l)%nat;
}.

Lemma shrinks_refl p : pool_ok p → shrinks p p.
Proof. intros OK. split; [done|done|done|]. intros a l E. exists l. split_and!; [done| |done]. symmetry. by apply first_nonces_all. Qed.

Lemma shrinks_trans p1 p2 p3 : shrinks p1 p2 → shrinks p2 p3 → shrinks p1 p3.
Proof.
  intros [_ (A1 & A2 & A3) A4 A5] [B0 (B1 & B2 & B3) B4 B5]. split; [done|split_and!; congruence|auto|]. intros a l E. destruct (A5 a l E) as (l2 & E2 & I2 & L2). destruct (B5 a l2 E2) as (l3 & E3 & I3 & L3).
  exists l3. split_and!; [done| |lia]. by rewrite I3, I2, first_nonces_first.
Qed.

Lemma plen_range p a : 0 <= plen p a <= count (pending p).
Proof.
  unfold plen. destruct (pending p !! a) as [l|] eqn:E; [|split; [lia|apply pending_count_nonneg]]. rewrite (count_delete _ a l E). pose proof (pending_count_nonneg (delete a (pending p))). unfold list_len in *. lia.
Qed.

(** ** Dropping the last transaction of an account *)

Lemma PM_run {A B} (m : PM A) (k : A → PM B) p a p1 : m p = Some (a, p1) → (m ≫= k) p = k a p1.
Proof. intros E. unfold mbind, PM_bind. by rewrite E. Qed.

Lemma reorgCM_run p tx : tx_small tx → ∃ db, reorgCM tx p = Some (tt, set_CMdb p db).
Proof.
  intros (HO & _ & _ & HV). unfold reorgCM. destruct (Z.eqb_spec (ID tx) 1) as [E|E].
  - destruct (write_CM_run p (NewDefaultCM (CmV tx)) HV) as (db & _ & Ew). exists db. rewrite (PM_run _ _ _ _ _ Ew). by rewrite E.
  - rewrite (PM_run (mret tt) _ p tt p eq_refl). destruct (Z.eqb_spec (ID tx) 0); [|exists (CMdb_ p); by destruct p]. destruct (write_CM_run p (NewDefaultCM (CmO tx)) HO) as (db & _ & Ew). by exists db.
Qed.

(** What a run that drops transactions leaves alone. *)
Definition same_lists (p p' : TxPool) : Prop := pending p' = pending p ∧ config p' = config p ∧ locals p' = locals p ∧ queue p' = queue p.

Lemma noncer_run a n p : ∃ p', noncer_setIfLower a n p = Some (tt, p') ∧ same_lists p p' ∧ all p' = all p.
Proof.
  unfold noncer_setIfLower, noncer_get. unfold mbind, PM_bind, get. destruct (pendingNonces p !! a) as [m|]; cbn; (destruct (_ <=? _); eexists; (split_and!; [reflexivity|..]; done)).
Qed.

Lemma priced_run n p : ∃ p', priced_Removed n p = Some (tt, p') ∧ same_lists p p' ∧ all p' = all p.
Proof. unfold priced_Removed, modify. eexists. split; [reflexivity|]. destruct (_ <=? _); by split_and!. Qed.

Lemma drop_run a tx p : tx_small tx → lk_all (all p) !! tx_Hash tx = Some tx →
  ∃ p', (reorgCM tx;; all_Remove (tx_Hash tx);; noncer_setIfLower a (AccountNonce tx)) p = Some (tt, p') ∧ same_lists p p' ∧ lk_all (all p') = delete (tx_Hash tx) (lk_all (all p)).
Proof.
  intros Hs Ha. destruct (reorgCM_run p tx Hs) as [db E1]. rewrite (PM_run _ _ _ _ _ E1). set (p1 := set_CMdb p db).
  assert (E2 : all_Remove (tx_Hash tx) p1 = Some (tt, set_all p1 (mk_lookup (delete (tx_Hash tx) (lk_all (all p1))) (lk_slots (all p1) - numSlots tx)))).
  { unfold all_Remove, mbind, PM_bind, get. cbn. by rewrite Ha. }
  rewrite (PM_run _ _ _ _ _ E2). destruct (noncer_run a (AccountNonce tx) (set_all p1 (mk_lookup (delete (tx_Hash tx) (lk_all (all p1))) (lk_slots (all p1) - numSlots tx)))) as (p' & E3 & (S1 & S2 & S3 & S4) & A). exists p'.
  split; [exact E3|]. split; [split_and!; done|]. by rewrite A.
Qed.

Lemma cap_one_run a l p : pool_ok p → pending p !! a = Some l → 0 < list_len l →
  ∃ p' l', cap_one a p = Some (tt, p') ∧ shrinks p p' ∧ pending p' = <[a := l']> (pending p) ∧ list_len l' = list_len l - 1.
Proof.
  intros OK E Hpos. unfold list_len in Hpos. pose proof (pk_list _ OK a l E) as HW. pose proof (lw_map _ HW) as Hwf. set (k := (list_Len l - 1)%nat).
  destruct (Cap_wf (txs l) k Hwf) as (m' & EC & Em & Hwf'). assert (Hk : keyed (items (txs l))) by apply Hwf. pose proof (length_sorted_txs _ Hk) as Hlen. change (size (items (txs l))) with (list_Len l) in Hlen.
  assert (Hone : ∃ tx, drop k (sorted_txs (items (txs l))) = [tx]).
  { destruct (drop k (sorted_txs (items (txs l)))) as [|tx [|tx2 r]] eqn:Ed; [|by exists tx|]; pose proof (f_equal length Ed) as El; rewrite length_drop in El; cbn in El; lia. }
  destruct Hone as [tx Hone]. rewrite Hone in EC. change (reverse [tx]) with [tx] in EC. assert (Htx : tx ∈ sorted_txs (items (txs l))) by (rewrite <- (take_drop k (sorted_txs _)), Hone; apply elem_of_app; right; by left).
  apply elem_of_sorted_txs in Htx as [n Hn]. destruct (pk_tx _ OK a l n tx E Hn) as (Hs & Ha & Hsm).
  set (l' := set_txs l m'). set (p1 := set_pending p (<[a := l']> (pending p))). destruct (drop_run a tx p1 Hsm Ha) as (p2 & E2 & (P2 & C2 & L2 & Q2) & A2). destruct (priced_run 1 p2) as (p3 & E3 & (P3 & C3 & L3 & Q3) & A3).
  assert (Hl' : list_Len l' = k). { unfold list_Len, Len. subst l'. cbn [set_txs txs]. rewrite Em, (size_first k _ Hk). change (size (items (txs l))) with (list_Len l). lia. }
  exists p3, l'. assert (EP : pending p3 = <[a := l']> (pending p)) by (by rewrite P3, P2). split_and!.
  - unfold cap_one. rewrite (PM_run get _ p p p eq_refl), E. unfold list_Cap. fold k. rewrite EC. cbn [mbind option_bind]. rewrite (PM_run (lift (Some ([tx], l'))) _ p ([tx], l') p eq_refl). rewrite (PM_run (modify (λ p, set_pending p (<[a := l']> (pending p)))) _ p tt p1 eq_refl).
    cbn [forM length]. erewrite PM_run; [exact E3|]. erewrite PM_run; [reflexivity|exact E2].
  - split; [split|split_and!; [by rewrite C3, C2|by rewrite L3, L2|by rewrite Q3, Q2]|..].
    + intros a2 l2. rewrite EP. intros [[<- <-]|[_ E4]]%lookup_insert_Some; [|by eapply (pk_list _ OK)]. apply list_wf_sub; [done|done|]. rewrite Em. apply map_filter_subseteq.
    + intros a2 l2 n2 tx2. rewrite EP. intros E4 En2.
      assert (Hin : ∃ l0, pending p !! a2 = Some l0 ∧ items (txs l0) !! n2 = Some tx2 ∧ (a2 = a → n2 ≠ n)).
      { apply lookup_insert_Some in E4 as [[<- <-]|[Hne E4]]; [|exists l2; split_and!; [done|done|congruence]]. exists l. subst l'. cbn [set_txs txs] in En2. rewrite Em in En2. apply map_lookup_filter_Some in En2 as [En2 Hf]. cbn in Hf. split_and!; [done|done|].
        intros _ ->. assert (Hd : n ∈ drop k (nonces (items (txs l)))); [|apply nonces_cut in Hf; [done|apply elem_of_nonces; eauto]].
        rewrite <- (sorted_txs_keyed _ Hk), <- fmap_drop, Hone. cbn. apply list_elem_of_singleton. by destruct (Hk n tx Hn). }
      destruct Hin as (l0 & E0 & Hn0 & Hne). destruct (pk_tx _ OK a2 l0 n2 tx2 E0 Hn0) as (S2 & A4 & Hsm2). split_and!; [done| |done]. rewrite A3, A2. cbn [all p1 set_pending]. rewrite lookup_delete_ne; [done|].
      intros Eh. rewrite Eh, A4 in Ha. injection Ha as ->. rewrite S2 in Hs. injection Hs as ->. apply (Hne eq_refl). destruct (Hk n tx Hn) as [H1 _]. pose proof (lw_map _ (pk_list _ OK a l0 E0)) as Hw0. destruct Hw0 as [_ Hk0 _]. destruct (Hk0 n2 tx Hn0) as [H2 _]. congruence.
    + intros a2 E4. rewrite EP, lookup_insert_ne; [done|]. by intros ->; rewrite E in E4.
    + intros a2 l2 E4. rewrite EP. destruct (decide (a = a2)) as [<-|Hne].
      * rewrite lookup_insert_eq. rewrite E in E4. injection E4 as <-. exists l'. split_and!; [done| |lia]. rewrite Hl'. exact Em.
      * rewrite lookup_insert_ne by done. exists l2. split_and!; [done| |done]. symmetry. by apply first_nonces_all.
  - exact EP.
  - unfold list_len. rewrite Hl'. lia.
Qed.

(** ** The loops *)

Lemma plen_insert p p' a l l' : pending p !! a = Some l → pending p' = <[a := l']> (pending p) → list_len l' = list_len l - 1 → ∀ b, plen p' b = plen p b - (if decide (b = a) then 1 else 0).
Proof.
  intros E EP El b. unfold plen. rewrite EP. destruct (decide (b = a)) as [->|Hne]; [rewrite lookup_insert_eq, E; lia|]. rewrite lookup_insert_ne by done. destruct (pending p !! b); lia.
Qed.

Lemma plen_some p a : 0 < plen p a → ∃ l, pending p !! a = Some l ∧ plen p a = list_len l.
Proof. unfold plen. destruct (pending p !! a) as [l|]; [eauto|lia]. Qed.

Lemma cap_each_run addrs : ∀ p, pool_ok p → NoDup addrs → (∀ a, a ∈ addrs → 0 < plen p a) → count (pending p) < two64 →
  ∃ p', cap_each addrs (count (pending p)) p = Some (count (pending p'), p') ∧ shrinks p p' ∧ (∀ a, plen p' a = plen p a - (if decide (a ∈ addrs) then 1 else 0)) ∧ (addrs ≠ [] → count (pending p') < count (pending p)).
Proof.
  induction addrs as [|a addrs IH]; intros p OK Hnd Hpos Hlt; cbn [cap_each].
  - exists p. split_and!; [done|by apply shrinks_refl| |done]. intros a. rewrite decide_False by apply not_elem_of_nil. lia.
  - apply NoDup_cons in Hnd as [Ha Hnd]. destruct (plen_some p a) as (l & E & El); [apply Hpos; by left|]. destruct (cap_one_run a l p OK E) as (p1 & l1 & E1 & S1 & EP & El1); [rewrite <- El; apply Hpos; by left|].
    pose proof (plen_insert p p1 a l l1 E EP El1) as HL. assert (EC : count (pending p1) = count (pending p) - 1) by (rewrite EP, (count_insert _ a l l1 E); lia). pose proof (pending_count_nonneg (pending p1)).
    destruct (IH p1 (sh_ok _ _ S1) Hnd) as (p2 & E2 & S2 & L2 & C2); [|lia|].
    { intros b Hb. rewrite HL, decide_False by congruence. rewrite Z.sub_0_r. apply Hpos. by right. }
    exists p2. rewrite (PM_run _ _ _ _ _ E1). rewrite u64_small by (unfold is_u64; lia). rewrite <- EC. split_and!; [done|by eapply shrinks_trans| |].
    + intros b. rewrite L2, HL. destruct (decide (b = a)) as [->|Hne]; [rewrite decide_False, decide_True by (done || by left); lia|]. destruct (decide (b ∈ addrs)) as [Hb|Hb]; [rewrite decide_True by (by right); lia|]. rewrite decide_False; [lia|]. by intros [?|?]%elem_of_cons.
    + intros _. destruct addrs as [|x r]; [|pose proof (C2 ltac:(done)); lia]. cbn [cap_each] in E2. injection E2 as E2 _. lia.
Qed.

(** Offenders of one size [c] come down together. *)
Lemma reduce_run fuel addrs w t : ∀ c p, pool_ok p → NoDup addrs → w ∈ addrs → is_Some (pending p !! w) → 0 <= t <= c → (∀ a, a ∈ addrs → plen p a = c) → count (pending p) < two64 → (Z.to_nat (c - t) < fuel)%nat →
  ∃ p' c', reduce_to fuel addrs w t (count (pending p)) p = Some (count (pending p'), p') ∧ shrinks p p' ∧ t <= c' <= c ∧ (∀ a, plen p' a = if decide (a ∈ addrs) then c' else plen p a) ∧
    (count (pending p') <= GlobalSlots (config p) ∨ c' = t) ∧ count (pending p') <= count (pending p).
Proof.
  induction fuel as [|fuel IH]; intros c p OK Hnd Hw [l El] Hc Heq Hlt Hf; [lia|]. cbn [reduce_to]. rewrite (PM_run get _ p p p eq_refl).
  assert (Hsame : ∀ a, plen p a = if decide (a ∈ addrs) then c else plen p a) by (intros a; destruct (decide _); [by apply Heq|done]).
  assert (El' : plen p w = list_len l) by (unfold plen; by rewrite El). assert (EL : pending_len w p = Some (list_len l, p)) by (unfold pending_len; rewrite (PM_run get _ p p p eq_refl), El; done). rewrite (PM_run _ _ _ _ _ EL). rewrite <- El', (Heq w Hw).
  destruct (Z.ltb_spec (GlobalSlots (config p)) (count (pending p))) as [Hgs|Hgs]; cbn [andb]; [|exists p, c; split_and!; [done|by apply shrinks_refl|lia|lia|done|by left|lia]].
  destruct (Z.ltb_spec t c) as [Htc|Htc]; [|exists p, c; split_and!; [done|by apply shrinks_refl|lia|lia|done|right; lia|lia]].
  destruct (cap_each_run addrs p OK Hnd) as (p1 & E1 & S1 & L1 & C1); [intros a Ha; rewrite (Heq a Ha); lia|done|]. rewrite (PM_run _ _ _ _ _ E1). assert (Hne : addrs ≠ []) by (intros ->; by apply not_elem_of_nil in Hw). specialize (C1 Hne).
  destruct (IH (c - 1) p1 (sh_ok _ _ S1) Hnd Hw) as (p2 & c2 & E2 & S2 & R2 & L2 & D2 & B2); [destruct (sh_some _ _ S1 w l El) as (? & -> & _); eauto|lia| |lia|lia|].
  { intros a Ha. rewrite L1, (Heq a Ha), decide_True by done. done. }
  exists p2, c2. rewrite (proj1 (sh_rest _ _ S1)) in D2. split_and!; [exact E2|by eapply shrinks_trans|lia|lia| |done|lia]. intros a. rewrite L2, L1. destruct (decide _); [done|lia].
Qed.

#[local] Instance more_txs_order : GoHeap.LessOrder more_txs.
Proof. split; unfold more_txs; intros *; rewrite ?Z.ltb_lt, ?Z.ltb_ge; lia. Qed.

Lemma penalise_stop fuel heap os p : count (pending p) <= GlobalSlots (config p) → penalise fuel heap os (count (pending p)) p = Some ((os, count (pending p)), p).
Proof. intros Hle. destruct fuel as [|fuel]; [done|]. cbn [penalise]. rewrite (PM_run get _ p p p eq_refl). destruct heap; [done|]. by rewrite (proj2 (Z.ltb_ge _ _) Hle). Qed.

Section Penalise.
Context (s : Z) (Hs : 0 <= s).

(** Offenders of one size, none of the accounts in the heap larger. *)
Record ranked (p : TxPool) (heap : list (Z * Z)) (os : list Z) (c : Z) : Prop := {
  rk_ok : pool_ok p;
  rk_nodup : NoDup (os ++ heap.*1);
  rk_heap : GoHeap.is_heap more_txs heap;
  rk_in : ∀ x, x ∈ heap → plen p x.1 = x.2 ∧ s < x.2 ∧ (os ≠ [] → x.2 <= c);
  rk_os : ∀ a, a ∈ os → plen p a = c ∧ s < c;
  rk_count : count (pending p) < two64;
}.

(** One account joins the offenders. *)
Lemma join_run p heap os c x heap' : ranked p heap os c → GoHeap.is_heap more_txs heap' → x :: heap' ≡ₚ heap → (∀ y, y ∈ heap → more_txs y x = false) →
  ∃ p1, (match last os with None => mret (count (pending p)) | Some watched => threshold ← pending_len x.1; reduce_to (S (Z.to_nat (count (pending p)))) os watched threshold (count (pending p)) end) p = Some (count (pending p1), p1) ∧
    shrinks p p1 ∧ (∀ a, a ∉ os → plen p1 a = plen p a) ∧ (∀ a, Z.min (plen p a) s <= plen p1 a) ∧ count (pending p1) <= count (pending p) ∧ (count (pending p1) <= GlobalSlots (config p) ∨ ranked p1 heap' (os ++ [x.1]) x.2).
Proof.
  intros [OK Hnd Hh Hin Hos Hlt] Hh' HP Hmax. assert (Hx : x ∈ heap) by (rewrite <- HP; by left). destruct (Hin x Hx) as (Ex & Sx & Cx). rewrite <- HP in Hnd. cbn in Hnd.
  assert (Hnd' : NoDup ((os ++ [x.1]) ++ heap'.*1)) by (by rewrite <- (assoc_L (++))). assert (Hxo : x.1 ∉ os) by (apply NoDup_app in Hnd as (_ & Hd & _); intros Ho; apply (Hd _ Ho); by left).
  assert (Hh'o : ∀ y, y ∈ heap' → y.1 ∉ os ∧ y ∈ heap ∧ y.2 <= x.2).
  { intros y Hy. assert (Hyh : y ∈ heap) by (rewrite <- HP; by right). split_and!; [|done|by apply Hmax, Z.ltb_ge in Hyh]. apply NoDup_app in Hnd as (_ & Hd & _). intros Ho. apply (Hd _ Ho). right. by apply list_elem_of_fmap_2. }
  destruct (last os) as [w|] eqn:Ew.
  - assert (Hw : w ∈ os) by (by apply last_Some_elem_of). assert (Hne : os ≠ []) by (intros ->; by apply not_elem_of_nil in Hw). destruct (Hos w Hw) as [Hwc Hsc]. destruct (plen_some p x.1) as (lx & Elx & Ellx); [lia|]. destruct (plen_some p w) as (lw & Elw & _); [lia|].
    assert (EL : pending_len x.1 p = Some (x.2, p)) by (unfold pending_len; rewrite (PM_run get _ p p p eq_refl), Elx, <- Ellx, Ex; done).
    pose proof (plen_range p w) as Hwr. destruct (reduce_run (S (Z.to_nat (count (pending p)))) os w x.2 c p OK) as (p1 & c1 & E1 & S1 & R1 & L1 & D1 & B1); [by apply NoDup_app in Hnd as (? & _)|done|by eexists|split; [lia|by apply Cx]|intros a Ha; by apply Hos|done|lia|].
    exists p1. rewrite (PM_run _ _ _ _ _ EL). split_and!; [exact E1|done|intros a Ha; by rewrite L1, decide_False| |done|].
    + intros a. rewrite L1. destruct (decide (a ∈ os)) as [Ha|Ha]; [destruct (Hos a Ha); lia|lia].
    + destruct D1 as [?| ->]; [by left|right]. split; [by apply (sh_ok _ _ S1)|done|done| | |lia].
      * intros y Hy. destruct (Hh'o y Hy) as (Hyo & Hyh & Hyx). destruct (Hin y Hyh) as (Ey & Sy & _). rewrite L1, decide_False by done. split_and!; [done|done|lia].
      * intros a [Ha|Ha]%elem_of_app; [rewrite L1, decide_True by done; done|]. apply list_elem_of_singleton in Ha as ->. rewrite L1, decide_False by done. done.
  - exists p. apply last_None in Ew as ->. split_and!; [done|by apply shrinks_refl|done|intros a; lia|lia|right]. split; [done|done|done| | |done].
    + intros y Hy. destruct (Hh'o y Hy) as (_ & Hyh & Hyx). destruct (Hin y Hyh) as (Ey & Sy & _). split_and!; [done|done|lia].
    + intros a Ha. cbn in Ha. apply list_elem_of_singleton in Ha as ->. done.
Qed.

Lemma penalise_run fuel : ∀ heap os c p, ranked p heap os c → (length heap <= fuel)%nat →
  ∃ os' p', penalise fuel heap os (count (pending p)) p = Some ((os', count (pending p')), p') ∧ shrinks p p' ∧ (∀ a, a ∉ os ++ heap.*1 → plen p' a = plen p a) ∧ (∀ a, Z.min (plen p a) s <= plen p' a) ∧ count (pending p') <= count (pending p) ∧
    (count (pending p') <= GlobalSlots (config p) ∨ (os' ≡ₚ os ++ heap.*1 ∧ ∃ c', ranked p' [] os' c')).
Proof.
  induction fuel as [|fuel IH]; intros heap os c p RK Hf.
  - destruct heap as [|? ?]; [|cbn in Hf; lia]. exists os, p. split_and!; [done|apply shrinks_refl, RK|done|intros; lia|lia|right]. split; [cbn; by rewrite app_nil_r|by exists c].
  - destruct (Z.le_gt_cases (count (pending p)) (GlobalSlots (config p))) as [Hle|Hgt].
    { exists os, p. rewrite penalise_stop by done. split_and!; [done|apply shrinks_refl, RK|done|intros; lia|lia|by left]. }
    cbn [penalise]. rewrite (PM_run get _ p p p eq_refl). destruct heap as [|y heap0] eqn:Eh.
    { exists os, p. split_and!; [done|apply shrinks_refl, RK|done|intros; lia|lia|right]. split; [cbn; by rewrite app_nil_r|by exists c]. }
    rewrite <- Eh in *. rewrite (proj2 (Z.ltb_lt _ _) Hgt). destruct (GoHeap.Pop_spec more_txs heap (rk_heap _ _ _ _ RK)) as (x & heap' & Epop & _ & Hh' & HP & Hmax); [by rewrite Eh|]. rewrite Epop.
    rewrite (PM_run (lift (Some (x, heap'))) _ p (x, heap') p eq_refl). destruct (join_run p heap os c x heap' RK Hh' HP Hmax) as (p1 & E1 & S1 & L1 & M1 & B1 & D1). rewrite (PM_run _ _ _ _ _ E1).
    assert (Hsub : ∀ a, a ∉ os ++ heap.*1 → a ∉ (os ++ [x.1]) ++ heap'.*1) by (intros a Ha; rewrite <- HP in Ha; by rewrite <- (assoc_L (++))).
    destruct D1 as [Hle|RK1].
    + rewrite <- (proj1 (sh_rest _ _ S1)) in Hle. rewrite penalise_stop by done. exists (os ++ [x.1]), p1. rewrite <- (proj1 (sh_rest _ _ S1)). split_and!; [done|done| |done|done|by left]. intros a Ha. apply L1. intros Ho. apply Ha, elem_of_app. by left.
    + destruct (IH heap' (os ++ [x.1]) x.2 p1 RK1) as (os' & p2 & E2 & S2 & L2 & M2 & B2 & D2); [apply Permutation_length in HP; cbn in HP; lia|]. exists os', p2. rewrite (proj1 (sh_rest _ _ S1)) in D2.
      split_and!; [exact E2|by eapply shrinks_trans| | |lia|].
      * intros a Ha. rewrite (L2 a (Hsub a Ha)). apply L1. intros Ho. apply Ha, elem_of_app. by left.
      * intros a. pose proof (M1 a). pose proof (M2 a). lia.
      * destruct D2 as [?|[HPo HR]]; [by left|right]. split; [|done]. by rewrite HPo, <- (assoc_L (++)), <- HP.
Qed.

End Penalise.

End WithEnv.
End PoolOpsProofs.

Module PoolOpsClaims.
Import Types TxList TxListProofs TxPool TxPoolProofs PoolOps PoolOpsProofs.

Section WithEnv.
Context `{PoolEnv}.

(** ** The limit of pending transactions *)

#[local] Existing Instance more_txs_order.

Lemma pushes_spec (l : list (Z * txList)) : ∀ h, GoHeap.is_heap more_txs h →
  GoHeap.is_heap more_txs (foldl (λ h x, GoHeap.Push more_txs h (x.1, list_len x.2)) h l) ∧ foldl (λ h x, GoHeap.Push more_txs h (x.1, list_len x.2)) h l ≡ₚ h ++ ((λ x, (x.1, list_len x.2)) <$> l).
Proof.
  induction l as [|x l IH]; intros h Hh; cbn [foldl fmap list_fmap]; [by rewrite app_nil_r|]. destruct (IH (GoHeap.Push more_txs h (x.1, list_len x.2))) as [H1 H2]; [apply (GoHeap.Push_heap more_txs); exact Hh|]. split; [done|]. rewrite H2, GoHeap.Push_Permutation. cbn. by rewrite Permutation_middle.
Qed.

Lemma spammers_ranked p : pool_ok p → count (pending p) < two64 → ranked (AccountSlots (config p)) p (spammers p) [] 0 ∧ (∀ a, a ∉ locals p → a ∉ (spammers p).*1 → 0 <= AccountSlots (config p) → plen p a <= AccountSlots (config p)) ∧ (∀ a, a ∈ (spammers p).*1 → a ∉ locals p).
Proof.
  intros OK Hlt. unfold spammers. set (fl := filter _ _). destruct (pushes_spec fl []) as [Hh HP]; [intros k Hk; cbn in Hk; lia|]. set (h := foldl _ _ _) in *. cbn [app] in HP.
  assert (Hin : ∀ x, x ∈ h ↔ ∃ l, pending p !! x.1 = Some l ∧ x.2 = list_len l ∧ x.1 ∉ locals p ∧ AccountSlots (config p) < list_len l).
  { intros x. rewrite HP, list_elem_of_fmap. split.
    - intros ([a l] & -> & Hy). apply list_elem_of_filter in Hy as ((Hl & Hs) & Hm). cbn in *. apply elem_of_map_to_list in Hm. by exists l.
    - intros (l & E & Ex & Hl & Hs). exists (x.1, l). split; [destruct x; cbn in *; by rewrite Ex|]. apply list_elem_of_filter. split; [done|]. by apply elem_of_map_to_list. }
  assert (Hkeys : h.*1 ≡ₚ fl.*1) by (rewrite HP; unfold fl; by rewrite <- list_fmap_compose).
  split_and!.
  - split; [done| |done| |by intros a ?%not_elem_of_nil|done].
    + cbn. rewrite Hkeys. assert (Hsub : fl.*1 `sublist_of` (map_to_list (pending p)).*1) by (apply fmap_sublist, sublist_filter). apply (sublist_NoDup _ _ (NoDup_fst_map_to_list (pending p)) Hsub).
    + intros x Hx. apply Hin in Hx as (l & E & Ex & _ & Hs). unfold plen. rewrite E, Ex. done.
  - intros a Ha Hn H0. unfold plen. destruct (pending p !! a) as [l|] eqn:E; [|done]. destruct (Z.le_gt_cases (list_len l) (AccountSlots (config p))) as [?|Hgt]; [done|]. exfalso. apply Hn. apply (list_elem_of_fmap_2 fst h (a, list_len l)). apply Hin. exists l. split_and!; [done|done|done|lia].
  - intros a (x & -> & Hx)%list_elem_of_fmap. by apply Hin in Hx as (? & _ & _ & ? & _).
Qed.

Lemma truncatePending_run p : pool_ok p → 0 <= AccountSlots (config p) → count (pending p) < two64 →
  ∃ p', truncatePending p = Some (tt, p') ∧ shrinks p p' ∧ (count (pending p') <= GlobalSlots (config p) ∨ ∀ a, a ∉ locals p → plen p' a <= AccountSlots (config p)) ∧
    (∀ a, Z.min (plen p a) (AccountSlots (config p)) <= plen p' a) ∧ (∀ a, a ∈ locals p → plen p' a = plen p a).
Proof.
  intros OK Hs Hlt. unfold truncatePending. rewrite (PM_run get _ p p p eq_refl). pose proof (pending_count_nonneg (pending p)). rewrite u64_small by (unfold is_u64; lia). cbv zeta.
  destruct (Z.leb_spec (count (pending p)) (GlobalSlots (config p))) as [Hle|Hgt]; [exists p; split_and!; [done|by apply shrinks_refl|by left|intros; lia|done]|].
  destruct (spammers_ranked p OK Hlt) as (RK & Hsmall & Hnl). destruct (penalise_run _ Hs (length (spammers p)) (spammers p) [] 0 p RK) as (os & p1 & E1 & S1 & L1 & M1 & B1 & D1); [done|]. rewrite (PM_run _ _ _ _ _ E1). cbn [app] in L1, D1.
  assert (Hloc1 : ∀ a, a ∈ locals p → plen p1 a = plen p a) by (intros a Ha; apply L1; intros Hh; by apply (Hnl a Hh)).
  assert (Hdone : count (pending p1) <= GlobalSlots (config p) → ∃ p', (match last os with None => mret tt | Some watched => if GlobalSlots (config p) <? count (pending p1) then reduce_to (S (Z.to_nat (count (pending p1)))) os watched (AccountSlots (config p)) (count (pending p1));; mret tt else mret tt end : PM unit) p1 = Some (tt, p') ∧ p' = p1).
  { intros Hle. exists p1. rewrite (proj2 (Z.ltb_ge _ _) Hle). by destruct (last os). }
  destruct D1 as [Hle|(HPo & c & RK1)]; [destruct (Hdone Hle) as (p' & E' & ->); exists p1; split_and!; [exact E'|done|by left|done|done]|].
  destruct (Z.le_gt_cases (count (pending p1)) (GlobalSlots (config p))) as [Hle|Hgt1]; [destruct (Hdone Hle) as (p' & E' & ->); exists p1; split_and!; [exact E'|done|by left|done|done]|]. clear Hdone.
  assert (Hrest : ∀ a, a ∉ locals p → a ∉ os → plen p1 a <= AccountSlots (config p)) by (intros a Ha Ho; rewrite HPo in Ho; rewrite (L1 a Ho); by apply Hsmall).
  destruct (last os) as [w|] eqn:Ew.
  - assert (Hw : w ∈ os) by (by apply last_Some_elem_of). destruct RK1 as [OK1 Hnd _ _ Hos Hlt1]. destruct (Hos w Hw) as [Hwc Hsc]. destruct (plen_some p1 w) as (lw & Elw & _); [lia|]. pose proof (plen_range p1 w). rewrite (proj2 (Z.ltb_lt _ _) Hgt1).
    destruct (reduce_run (S (Z.to_nat (count (pending p1)))) os w (AccountSlots (config p)) c p1 OK1) as (p2 & c2 & E2 & S2 & R2 & L2 & D2 & B2); [by cbn in Hnd; rewrite app_nil_r in Hnd|done|by eexists|lia|intros a Ha; by apply Hos|done|lia|].
    rewrite (PM_run _ _ _ _ _ E2). exists p2. rewrite (proj1 (sh_rest _ _ S1)) in D2. split_and!; [done|by eapply shrinks_trans| | |].
    + destruct D2 as [?| ->]; [by left|right]. intros a Ha. rewrite L2. destruct (decide (a ∈ os)); [lia|by apply Hrest].
    + intros a. pose proof (M1 a). rewrite L2. destruct (decide (a ∈ os)); lia.
    + intros a Ha. rewrite L2, decide_False; [by apply Hloc1|]. rewrite HPo. intros Hh. by apply (Hnl a Hh).
  - apply last_None in Ew as ->. exists p1. split_and!; [done|done| |done|done]. right. intros a Ha. apply Hrest; [done|apply not_elem_of_nil].
Qed.

(** C23: The limit of pending transactions always stops, never panics, and is kept
    as far as it may be: afterwards the pool has no more pending transactions
    than [GlobalSlots], or no account that is not local has more than
    [AccountSlots]. Accounts lose only their last transactions: what is left of
    an account is a run of its first nonces, never fewer than [AccountSlots] of
    them (or all it had), and local accounts lose nothing. *)
Theorem truncatePending_limits p : pool_ok p → 0 <= AccountSlots (config p) → count (pending p) < two64 →
  ∃ p', truncatePending p = Some (tt, p') ∧ pool_ok p' ∧ queue p' = queue p ∧
    (count (pending p') <= GlobalSlots (config p) ∨ ∀ a, a ∉ locals p → plen p' a <= AccountSlots (config p)) ∧
    (∀ a, pending p !! a = None → pending p' !! a = None) ∧
    (∀ a l, pending p !! a = Some l → ∃ l', pending p' !! a = Some l' ∧ items (txs l') = first_nonces (list_Len l') (items (txs l)) ∧
      Z.min (list_len l) (AccountSlots (config p)) <= list_len l' <= list_len l ∧ (a ∈ locals p → list_len l' = list_len l)).
Proof.
  intros OK Hs Hlt. destruct (truncatePending_run p OK Hs Hlt) as (p' & E & Sh & Hlim & Hmin & Hloc). exists p'. split_and!; [done|apply Sh|apply Sh|done|apply Sh|].
  intros a l El. destruct (sh_some _ _ Sh a l El) as (l' & El' & I' & L'). exists l'. pose proof (Hmin a) as Hm. pose proof (Hloc a) as Hl. unfold plen in Hm, Hl. rewrite El, El' in Hm, Hl. unfold list_len in *. split_and!; [done|done|lia|lia|exact Hl].
Qed.

End WithEnv.

(** ** A new head *)

Section Reset.
Context {ENV : TrieDb.Environment}.
Import Chain ChainProofs ChainClaims.



End Reset.

(** ** Concrete pools *)

Import Transfer PoolClaims.

(** An account with three pending transactions, where the pool takes two and
    an account has one slot. *)
Definition crowded (env : PoolEnv) : TxPool :=
  mk_pool (mk_config 10 1 2 64 1024 ZkpClaims.key23 ZkpClaims.key23) true ∅ 8000000 ∅ {[7 := demo_list]} ∅ ∅
    (mk_lookup (list_to_map ((λ tx, (tx_Hash tx, tx)) <$> [tx_at 4 1; tx_at 5 9; tx_at 6 1])) 3) (mk_priced [] 0) ∅.

Lemma crowded_ok : @pool_ok (demo_env 5) (crowded (demo_env 5)).
Proof.
  split.
  - intros a l E. unfold crowded in E. cbn [pending] in E. apply lookup_singleton_Some in E as [<- <-]. unfold demo_list. repeat (apply Add_wf; [|done]). apply newTxList_wf.
  - intros a l n tx El. unfold crowded in El. cbn [pending] in El. apply lookup_singleton_Some in El as [<- <-]. assert (E : items (txs demo_list) = <[6 := tx_at 6 1]> (<[5 := tx_at 5 9]> (<[4 := tx_at 4 1]> ∅))) by reflexivity. rewrite E.
    rewrite !lookup_insert_Some. intros [[_ <-]|[_ [[_ <-]|[_ [[_ <-]|[_ ?%lookup_empty_Some]]]]]]; [..|done]; repeat split; vm_compute; reflexivity.
Qed.

Lemma truncatePending_limits_witness : let _ := demo_env 5 in let p := crowded (demo_env 5) in
  ∃ p', truncatePending p = Some (tt, p') ∧ pool_ok p' ∧ queue p' = queue p ∧
    (count (pending p') <= GlobalSlots (config p) ∨ ∀ a, a ∉ locals p → plen p' a <= AccountSlots (config p)) ∧
    (∀ a, pending p !! a = None → pending p' !! a = None) ∧
    (∀ a l, pending p !! a = Some l → ∃ l', pending p' !! a = Some l' ∧ items (txs l') = first_nonces (list_Len l') (items (txs l)) ∧
      Z.min (list_len l) (AccountSlots (config p)) <= list_len l' <= list_len l ∧ (a ∈ locals p → list_len l' = list_len l)).
Proof. apply (@truncatePending_limits (demo_env 5) (crowded (demo_env 5)) crowded_ok); [by vm_compute|by vm_compute]. Defined.

(** What the limit leaves of it: the nonces 4 and 5. *)
Lemma crowded_truncated : (λ x, (nonces ∘ items ∘ txs) <$> pending x.2 !! 7) <$> @truncatePending (demo_env 5) (crowded (demo_env 5)) = Some (Some [4; 5]).
Proof. vm_compute. reflexivity. Qed.

(** The errors of a batch are those of other transactions: the first transfer
    is accepted and the second refused, but the caller is told that the first
    one failed. *)
Lemma batch_errors_misplaced :
  (λ x, x.1.1) <$> @addTxsLocked (demo_env 5) [txA; txB] false (demo_pool demo_db) = Some [None; Some ErrInvalidCM] ∧
  (λ x, x.1.1) <$> @addTxs (demo_env 5) [txA; txB] false (demo_pool demo_db) = Some [Some ErrInvalidCM; None].
Proof. split; vm_compute; reflexivity. Qed.

#[local] Existing Instance TrieDbClaims.demo_env.

(** Chains that moved from one branch to the other. *)
Definition moved (l : list Chain.Block) : Chain.BlockChain := default ChainClaims.demo_start (ChainClaims.demo_run ChainClaims.not_lower l).




(** The transfer of the abandoned block a1 is given back when the head moves to
    c1, and refused: its coin stays spent, although no block of the chain
    spends it. With the coins as they were it would be accepted. *)
Definition abandoned : Chain.BlockChain := moved [ChainClaims.blk_a1; ChainClaims.blk_c1].

Lemma reinjected_transfer_refused :
  map Chain.tx_Hash <$> match reinjected (Chain.db abandoned) (Some (Chain.b_header ChainClaims.blk_a1)) (Chain.b_header ChainClaims.blk_c1) with Ret x => x | _ => None end = Some [Chain.tx_Hash ChainClaims.tx1] ∧
  (λ x, size (lk_all (all x.2))) <$> @reset (demo_env 5) (Chain.db abandoned) (Some (Chain.b_header ChainClaims.blk_a1)) (Chain.b_header ChainClaims.blk_c1) true 8000000 true (demo_pool (Chain.CMdb abandoned)) = Some 0%nat ∧
  (λ x, size (lk_all (all x.2))) <$> @reset (demo_env 5) (Chain.db abandoned) (Some (Chain.b_header ChainClaims.blk_a1)) (Chain.b_header ChainClaims.blk_c1) true 8000000 true (demo_pool ChainClaims.demo_coins) = Some 1%nat.
Proof. split_and!; vm_compute; reflexivity. Qed.

End PoolOpsClaims.
