(* ===== verification/Regulator.v ===== *)
(** * Regulator: the registry of keys (src/Regulator)

    The regulator's server keeps the identities of users under the hashes of
    their keys in a Redis database, answers the exchange whether a key is
    registered, and gives out its own public key.

    - A handler is a program of single database commands. The server runs many
      handlers at once, each in a goroutine of its own, so the commands of
      requests that are in flight interleave in any order. Initialising and
      starting the server are command line calls, made one at a time.
    - [faults] says which of the coming commands fail; one that fails may have
      been carried out. It ends the process, with every request in flight; the
      database outlives it, and the server can be started again.
    - The text of JSON values is the class [Json]: what is written is read back,
      for text in ASCII.
    - What [Bind] makes of a request is an argument, [None] where it fails; the
      random number generator and the clock are arguments of [InitDB]. *)

From Stdlib Require Import String ZArith Lia.
From stdpp Require Import base gmap list.
From S2P Require Import Prelude BigInt Sha256 Hexutil Zkp Api Exchange.

Local Open Scope Z_scope.

Module Regulator.
Import Zkp.

Definition text (s : string) : bytes := list_byte_of_string s.

Record Identity := mk_Identity { Name : bytes; ID : bytes; Hashky : bytes; ExtInfo : bytes }.

(** ** Keys *)

Definition primeNumberList : list string := (
  ["39061f1c854fae629b599d29cefe1f12bc4809aa681809bfaaeb1b7087be6fed";
   "31a913915070a5c47bd39ea10d384070a9bd38d313cdb4da14e543ef7d42651d";
   "3d6ec8dd6b52f4536f2286f0d607fdef6e8228a6c7641cab8b9040a982aeffe3";
   "395dc3e5187baf19ada68f2027a3fdf229242f0e7766e32609634cc727f0d1e5";
   "2d36cccb05b2a9641818fadde3ed5ba5b65837a7170e105ac8fb454cc0bfde69";
   "352f4bd674c2ff05ec807a74e07ad2f2e988470463fe95ed6b101c5a84a3fca3";
   "2ca5931dce4eafe4a3de6f407a0ab2c969ee73d254cf9e73a1353864dd9f0ddf";
   "35631e389da36d4907bd2d0a581596873cda7e0dc4ae8e13114ce524c9190c73";
   "24d0f560fe274e5eb1347e75617af6c2d07d5fe9bb00d99fb4e762a5be354049";
   "32dc3a13e86eded11e481da6c95feea5f510f9eb5a6c997c74549fccd15f74a7";
   "2691cfb23b0f891599e7c1f5059068b89b741d609216387fef82a39e50f8b991";
   "236c374b9eb44dc2f3ba5c7e80189d7323aae57e26b5b17015a1039bbb2899c1";
   "2afdff0594b58873487366464edcc58fed1998f270f99a6c05e251a16c7ed11b";
   "3f718a2820c1b6159af16c985328d09761ef3d8e5f4170ea3b8ef92c64f71309";
   "39f572b5715cf43f0099f37ef18eee33eae22602c584d69462e76a32ec38bc63";
   "2af40d948226fee44a367149d315c196bb8f83184643c6f88d0ceb2472f13459";
   "328c3da1f822959a0d04a411b3494a2262ff0aacbbc30e3754d0a64d42fb1a05";
   "3cb4fc0a722ff740741e69027a7836c319a0613ea00818129ca31c37e20a9c61";
   "32a8ebe1fd65778d4e9972dbcd61aedf6bb51b73b8c0d3eae90a6ce39010a505";
   "22a2c7dd0be56986e0dda1c43b24f745e9c82dd5b1d260526b10eb0d925da55d";
   "23679e3afb5bf075c11fb83a66a1bab5cd88b56ca0de6699f48db812bf07d519";
   "3e5f093edd9ca9014b69c8da782bf8a58a6842ad3e74aa0f4249cfad7059fa33";
   "23d5ef98bb6c5eef987ed5857505f64d15bd33b722fd1702efcfeab8e8b9afb3";
   "342d5711728783882114b4b0ebd4027385ca4c5137a68a719a5e5e699608a611";
   "3ea83f8d7bca3cd72432328f9506a6935ca6812809d3a2ca8e74fdf67a5ffda5";
   "2222550bc74e7116a2ec6c245039c99081df069e9e235a4157fd0f1656ded827";
   "222293d1bad8e56c2557deab0428323eea2363cb026d66eab87333c3043d7aff";
   "22228ef3f266753f3a80e0e8ce5a7eaddf3fa5de4b388e631aebfdc85a062fd7";
   "2222f8b2105fbac9983166516eaf4605cd0595fd24d1bfbb95aa1842652677ad";
   "222236512fc2f4b0c032ccb27ac97045da706f05e5cb16e1ab3e18607f239297";
   "3333d0c7ea9f35dd30b476740c2660b8fb6c2a659f4cf85abaa71ea797f5848f";
   "3333e7b86c24aca13630203bf8078e58eb5f8a8038baf7bd4d46d34f818cbc3b";
   "222202ba2b9bba45079b5eb2cb8d7c5032b665986f18de2de700933162e8c389";
   "22229e965a115cc2acb435ac947b9d62f36460b02fba1dc0369244db6e7110cd";
   "2222fe9ff8eac6b54539f2d42290fd242f4dd855f02607754dff15a16d3ec445";
   "3333b0a41ccbfe6b242c2507a83f3df5dff875d5500e4f3b9532475c1310cc2d";
   "333338d52b05df563667c6c87821f1fb54571e83925617a23f2541254e512c43";
   "33333c92c974ab23cd8f63c5691c1f6e3337299e7e322e1a18920d7c757bc401";
   "33333f914834ced561c145797d9b5782719dbd1b43a668d4b01151f9c0e67d9f"])%string.

(** [r] is what [Intn] returned. *)
Definition select_prime (r : nat) : bytes := text (nth (r mod length primeNumberList) primeNumberList EmptyString).

(** [GenerateKeys] is the function of the exchange. *)
Definition GenElgKeys (r : nat) (passphrase now : bytes) (x : Z) (fuel : nat) : outcome Exchange.key_error (PublicKey * PrivateKey) :=
  Exchange.GenerateKeys Sha256.sha256 (select_prime r) passphrase now x fuel.

Definition Hash (str : bytes) : bytes := Hexutil.hex_Encode (Sha256.sha256 str).

(** ** The database *)

(** The entries that are not identities of users. *)
Definition key_name : bytes := text "key".
Definition config_name : bytes := text "chainConfig".

Definition ascii (s : bytes) : Prop := Forall (λ b, b2z b < 128) s.

Class Json := {
  json_Identity : Identity → bytes;
  json_Key : PrivateKey → bytes;
  parse_Identity : bytes → option Identity;
  parse_Key : bytes → option PrivateKey;
}.

Class JsonLaws (J : Json) : Prop := {
  parse_json_Identity i : ascii (Name i) → ascii (ID i) → ascii (Hashky i) → ascii (ExtInfo i) → parse_Identity (json_Identity i) = Some i;
  parse_json_Key k : parse_Key (json_Key k) = Some k;
}.

Abbreviation database := (gmap bytes bytes).

(** A program: it returns, ends the process, or issues a command and goes on. *)
Inductive M (A : Type) : Type :=
  | ret (a : A)
  | Fatalf
  | command (X : Type) (f : database → database * X) (k : X → M A).
Arguments ret {A} a.
Arguments Fatalf {A}.
Arguments command {A X} f k.

Fixpoint bind {A B} (x : M A) (k : A → M B) : M B :=
  match x with
  | ret a => k a
  | Fatalf => Fatalf
  | command f c => command f (λ y, bind (c y) k)
  end.

Local Notation "x <- m ;; k" := (bind m (λ x, k)) (at level 100, m at next level, right associativity).
Local Notation "m ;;; k" := (bind m (λ _, k)) (at level 100, right associativity).

Definition issue {A} (f : database → database * A) : M A := command f ret.

(** A command that fails, without an effect or after it. *)
Inductive fault := NotApplied | Applied.

Definition perform {X} (f : database → database * X) (fs : list (option fault)) (d : database) : option X * database * list (option fault) :=
  match fs with
  | Some NotApplied :: fs => (None, d, fs)
  | Some Applied :: fs => (None, (f d).1, fs)
  | None :: fs => (Some (f d).2, (f d).1, fs)
  | [] => (Some (f d).2, (f d).1, [])
  end.

(** A program that runs alone. *)
Fixpoint exec {A} (x : M A) (fs : list (option fault)) (d : database) : option A * database * list (option fault) :=
  match x with
  | ret a => (Some a, d, fs)
  | Fatalf => (None, d, fs)
  | command f k =>
      match perform f fs d with
      | (Some y, d, fs) => exec (k y) fs d
      | (None, d, fs) => (None, d, fs)
      end
  end.

Definition Set_ (key value : bytes) : M unit := issue (λ d, (<[key := value]> d, tt)).
Definition Exists (key : bytes) : M bool := issue (λ d, (d, bool_decide (is_Some (d !! key)))).
Definition Del (key : bytes) : M unit := issue (λ d, (delete key d, tt)).

(** A missing key is an error of the client. *)
Definition Get_text (key : bytes) : M bytes :=
  r <- issue (λ d, (d, d !! key));;
  match r with Some v => ret v | None => Fatalf end.

Definition or_fatal {A} (x : option A) : M A := match x with Some a => ret a | None => Fatalf end.

Section WithJson.
Context {J : Json}.

(** [Get] by the type its key stands for. *)
Definition Get_Identity (key : bytes) : M Identity := v <- Get_text key;; or_fatal (parse_Identity v).
Definition Get_Key : M PrivateKey := v <- Get_text key_name;; or_fatal (parse_Key v).

(** An integer flag as text. *)
Definition flag_text (n : Z) : bytes := if n <? 0 then z2b 45 :: Exchange.FormatUint (- n) else Exchange.FormatUint n.

(** [regulator init]: the key is generated once. A key that cannot be found
    (the search never ends) counts as the end of the process. *)
Definition InitDB (chainID : Z) (passphrase : bytes) (r : nat) (now : bytes) (x : Z) (fuel : nat) : M unit :=
  known <- Exists config_name;;
  (if known then
     chainConfig <- Get_Identity config_name;;
     if decide (ID chainConfig = flag_text chainID) then ret tt else Fatalf
   else Set_ config_name (json_Identity (mk_Identity [] (flag_text chainID) [] [])));;;
  known <- Exists key_name;;
  if known then ret tt
  else if decide (passphrase = []) then Fatalf
  else
    match GenElgKeys r passphrase now x fuel with
    | Ret (_, priv) => Set_ key_name (json_Key priv)
    | _ => Fatalf
    end.

(** ** The server *)

Inductive response :=
  | BindError | Fail | AccountRegistered | Successful | False_ | True_
  | NoChainID | WrongChainID | RegKey (key : PublicKey) | Refused.

(** Up to the start of the network. *)
Definition prepare : M Identity :=
  known <- Exists config_name;;
  if known then
    known <- Exists key_name;;
    if known then Get_Identity config_name else Fatalf
  else Fatalf.

Definition register (u : option Identity) : M response :=
  match u with
  | None => ret BindError
  | Some u =>
      if decide (Hashky u = [] ∨ Name u = [] ∨ ID u = []) then ret Fail
      else
        let hash := Hash (Hashky u) in
        known <- Exists hash;;
        if known then ret AccountRegistered else Set_ hash (json_Identity u);;; ret Successful
  end.

Definition verify (u : option Identity) : M response :=
  match u with
  | None => ret BindError
  | Some u =>
      if decide (Hashky u = []) then ret False_
      else known <- Exists (Hash (Hashky u));; ret (if known then True_ else False_)
  end.

Definition regkey (chainID : bytes) : M response :=
  if decide (chainID = []) then ret NoChainID
  else
    chainConfig <- Get_Identity config_name;;
    if decide (ID chainConfig = chainID) then key <- Get_Key;; ret (RegKey (priv_pub key)) else ret WrongChainID.

(** ** Histories *)

Inductive request := RRegister (u : option Identity) | RVerify (u : option Identity) | RRegkey (chainID : bytes).

Definition handler (r : request) : M response :=
  match r with
  | RRegister u => register u
  | RVerify u => verify u
  | RRegkey chainID => regkey chainID
  end.

(** Requests are numbered as they arrive; those that are answered are in
    [answers]. *)
Record machine := mk_machine {
  redis : database; running : bool; faults : list (option fault);
  next : nat; inflight : gmap nat (request * M response); answers : list (nat * request * response) }.

Inductive event :=
  | EInit (chainID : Z) (passphrase : bytes) (r : nat) (now : bytes) (x : Z) (fuel : nat)
  | EStart
  | EArrive (r : request)
  | EStep (id : nat).

Definition ended (m : machine) (d : database) (fs : list (option fault)) : machine := mk_machine d false fs (next m) ∅ (answers m).

(** A request that arrives is in flight until its handler returns; a step of it
    is its next command. *)
Definition serve (m : machine) (e : event) : machine :=
  match e with
  | EInit chainID passphrase r now x fuel =>
      let '(_, d, fs) := exec (InitDB chainID passphrase r now x fuel) (faults m) (redis m) in
      mk_machine d (running m) fs (next m) (inflight m) (answers m)
  | EStart =>
      if running m then m
      else
        let '(started, d, fs) := exec prepare (faults m) (redis m) in
        mk_machine d (bool_decide (is_Some started)) fs (next m) (inflight m) (answers m)
  | EArrive r =>
      if running m then mk_machine (redis m) true (faults m) (S (next m)) (<[next m := (r, handler r)]> (inflight m)) (answers m)
      else mk_machine (redis m) false (faults m) (S (next m)) (inflight m) ((next m, r, Refused) :: answers m)
  | EStep id =>
      match inflight m !! id with
      | None => m
      | Some (r, ret a) => mk_machine (redis m) (running m) (faults m) (next m) (delete id (inflight m)) ((id, r, a) :: answers m)
      | Some (r, Fatalf) => ended m (redis m) (faults m)
      | Some (r, command f k) =>
          match perform f (faults m) (redis m) with
          | (Some y, d, fs) => mk_machine d (running m) fs (next m) (<[id := (r, k y)]> (inflight m)) (answers m)
          | (None, d, fs) => ended m d fs
          end
      end
  end.

Definition run (es : list event) (m : machine) : machine := foldl serve m es.

Definition fresh (fs : list (option fault)) : machine := mk_machine ∅ false fs 0 ∅ [].

(** What the exchange learns about a key from a server in this state, its request
    being served at once: the request has no other fields. *)
Definition Verify (m : machine) (publickey : bytes) : bool :=
  running m && match (exec (verify (Some (mk_Identity [] [] publickey []))) (faults m) (redis m)).1.1 with Some True_ => true | _ => false end.

End WithJson.
End Regulator.
