(* ===== verification/RegulatorClaims.v ===== *)
(** * RegulatorClaims: what the registry promises

    Over all histories of initialisations, starts, failures of the database and
    interleavings of the requests in flight: registrations are permanent, a key
    that is registered is not registered again by a later request, the regulator
    has one key, and the exchange sells to keys only whose registration was asked
    for. Requests that overlap can register one key twice ([registrations_race]). *)

From Stdlib Require Import String ZArith Lia.
From stdpp Require Import base gmap list.
From S2P Require Import Prelude Sha256 Hexutil HexutilProofs Zkp Api Exchange ExchangeProofs Regulator.

Local Open Scope Z_scope.

Module RegulatorClaims.
Import Zkp Regulator.

(** ** Keys of the database *)

Lemma nibble_decodes x : 0 <= x < 16 → is_Some (Hexutil.decodeNibble (Hexutil.nibble x)).
Proof. intros Hx. exists x. apply HexutilProofs.decodeNibble_nibble. exact Hx. Qed.

Lemma hex_digits_only s : Forall (λ c, is_Some (Hexutil.decodeNibble c)) (Hexutil.hex_Encode s).
Proof.
  induction s as [|b s IH]; cbn [Hexutil.hex_Encode]; [constructor|]. pose proof (b2z_range b). repeat constructor; [apply nibble_decodes; split; [apply Z.div_pos; lia|apply Z.div_lt_upper_bound; lia]|apply nibble_decodes, Z.mod_pos_bound; lia|done].
Qed.

(** The hashes are not the names of the other two entries. *)
Lemma Hash_reserved s : Hash s ≠ key_name ∧ Hash s ≠ config_name.
Proof.
  split; intros E; pose proof (hex_digits_only (Sha256.sha256 s)) as Hd; fold (Hash s) in Hd; rewrite E in Hd.
  - apply Forall_cons in Hd as [[? Hd] _]. done.
  - apply Forall_cons in Hd as [_ Hd]. apply Forall_cons in Hd as [[? Hd] _]. done.
Qed.

Lemma ascii_dec fuel : ∀ n acc, ascii acc → ascii (Exchange.format_dec fuel n acc).
Proof.
  induction fuel as [|fuel IH]; intros n acc Ha; cbn [Exchange.format_dec]; [done|]. pose proof (Z.mod_pos_bound n 10 ltac:(lia)).
  assert (Hc : ascii (z2b (48 + n mod 10) :: acc)) by (constructor; [rewrite b2z_z2b, Z.mod_small by lia; lia|done]). destruct (n <? 10); [done|by apply IH].
Qed.

Lemma ascii_flag n : ascii (flag_text n).
Proof. unfold flag_text, Exchange.FormatUint. destruct (n <? 0); [constructor; [done|]|]; apply ascii_dec; constructor. Qed.

(** Every entry of the table is a number, so [GenerateKeys] never returns early
    with an empty key. *)
Lemma table_parses r : is_Some (Api.set_string16 (select_prime r)).
Proof.
  assert (HT : forallb (λ s, match Api.set_string16 (text s) with Some _ => true | None => false end) primeNumberList = true) by (vm_compute; reflexivity).
  rewrite forallb_forall in HT. unfold select_prime. specialize (HT (nth (r mod length primeNumberList) primeNumberList EmptyString)). destruct (Api.set_string16 _) as [z|]; [eauto|]. discriminate HT. apply nth_In. apply Nat.mod_upper_bound. discriminate.
Qed.

Section WithJson.
Context {J : Json} {JL : JsonLaws J}.

Definition user_hash (u : Identity) : bytes := Hash (Hashky u).

(** ** What stays *)

(** Entries are kept, and the regulator's key is not replaced. *)
Record keeps (d d' : database) : Prop := {
  kp_some : ∀ h, is_Some (d !! h) → is_Some (d' !! h);
  kp_key : ∀ v, d !! key_name = Some v → d' !! key_name = Some v;
}.

#[local] Instance keeps_preorder : PreOrder keeps.
Proof. split; [done|]. intros d1 d2 d3 [H1 H2] [H3 H4]. split; auto. Qed.

Lemma keeps_insert d h v : h ≠ key_name ∨ d !! key_name = None → keeps d (<[h := v]> d).
Proof.
  intros Hh. split; [intros h' Hs; apply lookup_insert_is_Some'; by right|]. intros w Hw. destruct Hh as [Hh|Hh]; [by rewrite lookup_insert_ne|congruence].
Qed.

(** What is in the database: the name of the chain, the regulator's key, and
    identities that were asked to be registered, under their hashes. *)
Definition entry (made : Identity → Prop) (h v : bytes) : Prop :=
  (h = config_name ∧ ∃ n, v = json_Identity (mk_Identity [] (flag_text n) [] [])) ∨ (h = key_name ∧ ∃ k, v = json_Key k) ∨ ∃ u, made u ∧ h = user_hash u ∧ v = json_Identity u.

Definition entries (made : Identity → Prop) (d : database) : Prop := map_Forall (entry made) d.

Lemma entries_insert made d h v : entries made d → entry made h v → entries made (<[h := v]> d).
Proof. intros H1 H2. by apply map_Forall_insert_2. Qed.

Lemma reserved_differ : key_name ≠ config_name.
Proof. done. Qed.

Lemma entry_config made d v : entries made d → d !! config_name = Some v → ∃ n, v = json_Identity (mk_Identity [] (flag_text n) [] []).
Proof.
  intros HE Hv. destruct (HE _ _ Hv) as [[_ ?]|[[? _]|(u & _ & E & _)]]; [done|done|]. by destruct (Hash_reserved (Hashky u)) as [_ []].
Qed.

Lemma entry_key made d v : entries made d → d !! key_name = Some v → ∃ k, v = json_Key k.
Proof.
  intros HE Hv. destruct (HE _ _ Hv) as [[? _]|[[_ ?]|(u & _ & E & _)]]; [done|done|]. by destruct (Hash_reserved (Hashky u)) as [[] _].
Qed.

Lemma entry_user made d s : entries made d → is_Some (d !! Hash s) → ∃ u, made u ∧ user_hash u = Hash s ∧ d !! Hash s = Some (json_Identity u).
Proof.
  intros HE [v Hv]. destruct (Hash_reserved s) as [Hk Hc]. destruct (HE _ _ Hv) as [[? _]|[[? _]|(u & Hu & E & Ev)]]; [done|done|]. exists u. rewrite Hv, Ev. auto.
Qed.

Lemma config_parses made d v : entries made d → d !! config_name = Some v → ∃ i, parse_Identity v = Some i.
Proof.
  intros HE Hv. destruct (entry_config _ _ _ HE Hv) as [n ->]. eexists. apply parse_json_Identity; cbn; try constructor. apply ascii_flag.
Qed.

(** ** Programs that run alone *)

(** What holds when the program ends, wherever a command fails. *)
Fixpoint wp {A} (x : M A) (Q : database → option A → Prop) (d : database) : Prop :=
  match x with
  | ret a => Q d (Some a)
  | Fatalf => Q d None
  | command f k => Q d None ∧ Q (f d).1 None ∧ wp (k (f d).2) Q (f d).1
  end.

Lemma exec_wp {A} (x : M A) (Q : database → option A → Prop) : ∀ fs d, wp x Q d → let '(r, d', _) := exec x fs d in Q d' r.
Proof.
  induction x as [a| |X f k IH]; intros fs d; cbn [wp exec]; [done|done|]. intros (H1 & H2 & H3). destruct fs as [|[[|]|] fs]; cbn [perform]; try done; by apply IH.
Qed.

Lemma wp_seq {A B} (x : M A) (k : A → M B) Q : ∀ d, wp x (λ d' r, match r with Some a => wp (k a) Q d' | None => Q d' None end) d → wp (bind x k) Q d.
Proof. induction x as [a| |X f c IH]; intros d; cbn [wp bind]; [done|done|]. intros (H1 & H2 & H3). split_and!; [done|done|]. by apply IH. Qed.

Lemma wp_Exists {B} key (k : bool → M B) Q d : Q d None → wp (k (bool_decide (is_Some (d !! key)))) Q d → wp (bind (Exists key) k) Q d.
Proof. intros H1 H2. cbn. by split_and!. Qed.

Lemma wp_Set {B} key v (k : unit → M B) Q d : Q d None → Q (<[key := v]> d) None → wp (k tt) Q (<[key := v]> d) → wp (bind (Set_ key v) k) Q d.
Proof. intros H1 H2 H3. by split. Qed.

Lemma wp_Get_Identity {B} key v i (k : Identity → M B) Q d : d !! key = Some v → parse_Identity v = Some i → Q d None → wp (k i) Q d → wp (bind (Get_Identity key) k) Q d.
Proof. intros E1 E2 H1 H2. cbn. rewrite E1. cbn. by rewrite E2. Qed.

Section Made.
Context (made : Identity → Prop).

Lemma init_entries chainID passphrase r now x fuel d : entries made d → wp (InitDB chainID passphrase r now x fuel) (λ d' _, entries made d' ∧ keeps d d') d.
Proof.
  intros HE. unfold InitDB. apply wp_Exists; [done|]. apply wp_seq.
  assert (Hrest : ∀ d', entries made d' → keeps d d' → wp (bind (Exists key_name) (λ known, if known then ret tt else if decide (passphrase = []) then Fatalf else match GenElgKeys r passphrase now x fuel with Ret (_, priv) => Set_ key_name (json_Key priv) | _ => Fatalf end)) (λ d' _, entries made d' ∧ keeps d d') d').
  { intros d' HE' HK. apply wp_Exists; [done|]. case_bool_decide as Hk; [done|]. destruct (decide _); [done|]. destruct (GenElgKeys _ _ _ _ _) as [[pub priv]| |]; [|done|done].
    cbn. assert (entries made (<[key_name := json_Key priv]> d')) by (apply entries_insert; [done|]; right; left; eauto).
    assert (keeps d (<[key_name := json_Key priv]> d')) by (etrans; [exact HK|]; apply keeps_insert; right; by apply eq_None_not_Some). by split_and!. }
  case_bool_decide as Hc.
  - destruct Hc as [v Ev]. destruct (config_parses _ _ _ HE Ev) as [i Ei]. apply (wp_Get_Identity _ v i); [done|done|done|]. destruct (decide (ID i = flag_text chainID)); cbn [wp]; [by apply Hrest|done].
  - assert (H1 : entries made (<[config_name := json_Identity (mk_Identity [] (flag_text chainID) [] [])]> d)) by (apply entries_insert; [done|]; left; eauto).
    assert (H2 : keeps d (<[config_name := json_Identity (mk_Identity [] (flag_text chainID) [] [])]> d)) by (apply keeps_insert; by left). unfold Set_, issue. cbn [wp fst snd]. split_and!; try done. by apply Hrest.
Qed.

Lemma prepare_entries d : entries made d → wp prepare (λ d' r, d' = d ∧ (is_Some r → is_Some (d !! config_name) ∧ is_Some (d !! key_name))) d.
Proof.
  intros HE. unfold prepare. apply wp_Exists; [split; [done|by intros []]|]. case_bool_decide as Hc; [|cbn; split; [done|by intros []]]. apply wp_Exists; [split; [done|by intros []]|]. case_bool_decide as Hk; [|cbn; split; [done|by intros []]].
  destruct Hc as [v Ev]. destruct (config_parses _ _ _ HE Ev) as [i Ei]. unfold Get_Identity, Get_text, issue. cbn [bind wp fst snd]. rewrite Ev. cbn [bind]. rewrite Ei. cbn [or_fatal wp]. split_and!; try done; by intros [].
Qed.

(** ** Requests in flight *)

(** What an answer promises. *)
Record promised (d : database) (r : request) (a : response) : Prop := {
  pr_registered : a = Successful → ∃ u, r = RRegister (Some u) ∧ Hashky u ≠ [] ∧ is_Some (d !! user_hash u);
  pr_verified : a = True_ → ∃ u, r = RVerify (Some u) ∧ is_Some (d !! user_hash u);
  pr_key : ∀ p, a = RegKey p → ∃ k, d !! key_name = Some (json_Key k) ∧ p = priv_pub k;
}.

Lemma promised_keeps d d' r a : keeps d d' → promised d r a → promised d' r a.
Proof.
  intros [K1 K2] [P1 P2 P3]. split.
  - intros E. destruct (P1 E) as (u & -> & Hn & Hu). eauto.
  - intros E. destruct (P2 E) as (u & -> & Hu). eauto.
  - intros p E. destruct (P3 p E) as (k & Hk & ->). eauto.
Qed.

Lemma promised_plain d r a : a ≠ Successful → a ≠ True_ → (∀ p, a ≠ RegKey p) → promised d r a.
Proof. intros H1 H2 H3. split; [done|done|]. intros p E. by destruct (H3 p). Qed.

(** Where a handler can be. *)
Inductive during (d : database) : request → M response → Prop :=
  | du_start r : during d r (handler r)
  | du_answer r a : promised d r a → during d r (ret a)
  | du_write u : Hashky u ≠ [] → during d (RRegister (Some u)) (bind (Set_ (user_hash u) (json_Identity u)) (λ _, ret Successful))
  | du_key c : during d (RRegkey c) (bind Get_Key (λ key, ret (RegKey (priv_pub key)))).

Lemma during_keeps d d' r t : keeps d d' → during d r t → during d' r t.
Proof. intros HK [r'|r' a Ha|u Hu|c]; constructor; try done. by eapply promised_keeps. Qed.

(** One command of a handler: what it makes of the database, and where the
    handler is after it. *)
Lemma during_step d (r : request) (t : M response) : entries made d → is_Some (d !! config_name) → is_Some (d !! key_name) → (∀ u, r = RRegister (Some u) → made u) → during d r t →
  match t with
  | ret a => promised d r a
  | Fatalf => True
  | command f k => entries made (f d).1 ∧ keeps d (f d).1 ∧ during (f d).1 r (k (f d).2)
  end.
Proof.
  intros HE [v Ev] [w Ew] Hm HD. revert Hm. destruct HD as [r'|r' a Ha|u Hu|c]; intros Hm.
  - destruct r' as [[u|]|[u|]|c]; cbn [handler]; unfold register, verify, regkey; try (by apply promised_plain).
    + destruct (decide _) as [|Hd]; [by apply promised_plain|]. unfold Exists, issue. cbn [bind fst snd]. split_and!; [done|done|]. case_bool_decide as Hs; [constructor; by apply promised_plain|]. apply du_write. intuition.
    + destruct (decide _) as [|Hd]; [by apply promised_plain|]. unfold Exists, issue. cbn [bind fst snd]. split_and!; [done|done|]. constructor. case_bool_decide as Hs; [|by apply promised_plain]. split; [done|eauto|done].
    + destruct (decide _) as [|Hd]; [by apply promised_plain|]. unfold Get_Identity, Get_text, issue. cbn [bind fst snd]. split_and!; [done|done|].
      rewrite Ev. cbn [bind]. destruct (config_parses _ _ _ HE Ev) as [i ->]. cbn [or_fatal bind]. destruct (decide _); [apply du_key|constructor; by apply promised_plain].
  - done.
  - unfold Set_, issue. cbn [bind fst snd]. split_and!.
    + apply entries_insert; [done|]. right. right. exists u. auto.
    + apply keeps_insert. left. apply Hash_reserved.
    + constructor. split; [|done|done]. intros _. exists u. split; [done|]. split; [done|]. rewrite lookup_insert_eq. eauto.
  - unfold Get_Key, Get_text, issue. cbn [bind fst snd]. split_and!; [done|done|].
    rewrite Ew. cbn [bind]. destruct (entry_key _ _ _ HE Ew) as [key ->]. rewrite parse_json_Key. cbn [or_fatal bind]. constructor. split; [done|done|]. intros p [= <-]. eauto.
Qed.

(** ** The invariant *)

Record sound (m : machine) : Prop := {
  so_entries : entries made (redis m);
  so_running : running m = true → is_Some (redis m !! config_name) ∧ is_Some (redis m !! key_name);
  so_ended : running m = false → inflight m = ∅;
  so_threads : ∀ id r t, inflight m !! id = Some (r, t) → during (redis m) r t ∧ ∀ u, r = RRegister (Some u) → made u;
  so_answers : ∀ id r a, (id, r, a) ∈ answers m → promised (redis m) r a;
  so_ids : (∀ id x, inflight m !! id = Some x → (id < next m)%nat) ∧ ∀ id r a, (id, r, a) ∈ answers m → (id < next m)%nat;
}.

Lemma sound_fresh fs : sound (fresh fs).
Proof.
  split; cbn; [apply map_Forall_empty|done|done|intros id r t; by rewrite lookup_empty|by intros ? ? ? ?%not_elem_of_nil|].
  split; [intros id x; by rewrite lookup_empty|by intros ? ? ? ?%not_elem_of_nil].
Qed.

(** The database grows, and nothing else changes but the end of the process. *)
Lemma sound_database m d b fs : sound m → entries made d → keeps (redis m) d → (b = true → is_Some (d !! config_name) ∧ is_Some (d !! key_name)) → b = running m ∨ inflight m = ∅ → sound (mk_machine d b fs (next m) (inflight m) (answers m)).
Proof.
  intros [S1 S2 S3 S4 S5 S6] HE HK Hb Hi. split; cbn; try done.
  - intros ->. destruct Hi as [Hi|Hi]; [by apply S3|done].
  - intros id r t Ht. destruct (S4 id r t Ht) as [HD Hm]. split; [by eapply during_keeps|done].
  - intros id r a Ha. eapply promised_keeps; [exact HK|by eapply S5].
Qed.

Lemma sound_ended m d fs : sound m → entries made d → keeps (redis m) d → sound (ended m d fs).
Proof.
  intros [S1 S2 S3 S4 S5 [S6 S7]] HE HK. split; cbn; [done|done|done|intros id r t; by rewrite lookup_empty|intros id r a Ha; eapply promised_keeps; [exact HK|by eapply S5]|]. split; [intros id x; by rewrite lookup_empty|done].
Qed.

Lemma performed {X} (f : database → database * X) fs d : let '(r, d', _) := perform f fs d in (d' = d ∨ d' = (f d).1) ∧ (∀ y, r = Some y → d' = (f d).1 ∧ y = (f d).2).
Proof. destruct fs as [|[[|]|] fs]; cbn; (split; [auto|]); try done; by intros y [= <-]. Qed.

Lemma sound_serve m e : sound m → (∀ u, e = EArrive (RRegister (Some u)) → made u) → sound (serve m e).
Proof.
  intros S Hm. pose proof S as [S1 S2 S3 S4 S5 [S6 S7]]. destruct e as [chainID passphrase r now x fuel| |r|id]; cbn [serve].
  - pose proof (exec_wp _ _ (faults m) _ (init_entries chainID passphrase r now x fuel _ S1)) as HW. destruct (exec _ _ _) as [[res d] fs]. destruct HW as [HE HK]. apply sound_database; [done|done|done| |by left].
    intros Hr. destruct (S2 Hr) as [H1 H2]. split; by apply (kp_some _ _ HK).
  - destruct (running m) eqn:Er; [done|]. pose proof (exec_wp _ _ (faults m) _ (prepare_entries _ S1)) as HW. destruct (exec _ _ _) as [[res d] fs]. destruct HW as [-> HP]. apply sound_database; [done|done|done| |right; by apply S3].
    by intros Hs%bool_decide_eq_true%HP.
  - destruct (running m) eqn:Er.
    + split; cbn; try done.
      * intros id r' t. destruct (decide (id = next m)) as [->|]; [|rewrite lookup_insert_ne by done; apply S4]. rewrite lookup_insert_eq. intros [= <- <-]. split; [constructor|]. intros u ->. by apply Hm.
      * split; [|intros id r' a Ha%S7; lia]. intros id x. destruct (decide (id = next m)) as [->|]; [lia|]. rewrite lookup_insert_ne by done. intros ?%S6. lia.
    + split; cbn; try done.
      * intros id r' a [[= -> -> ->]|Ha]%elem_of_cons; [by apply promised_plain|by eapply S5].
      * split; [intros id x ?%S6; lia|]. intros id r' a [[= -> -> ->]|Ha%S7]%elem_of_cons; lia.
  - destruct (inflight m !! id) as [[r t]|] eqn:Ei; [|done]. destruct (S4 _ _ _ Ei) as [HD Hu]. assert (Hr : running m = true) by (destruct (running m) eqn:Er; [done|]; rewrite (S3 eq_refl), lookup_empty in Ei; done).
    destruct (S2 Hr) as [Hc Hk]. pose proof (during_step _ r t S1 Hc Hk Hu HD) as HS. destruct t as [a| |X f k].
    + split; cbn; try done.
      * by intros Er; rewrite Er in Hr.
      * intros id' r' t' Ht. apply lookup_delete_Some in Ht as [_ Ht]. by apply (S4 id').
      * intros id' r' a' [[= -> -> ->]|Ha]%elem_of_cons; [done|by eapply S5].
      * split; [intros id' x [_ ?%S6]%lookup_delete_Some; lia|]. intros id' r' a' [[= -> -> ->]|Ha%S7]%elem_of_cons; [by eapply S6|done].
    + apply sound_ended; done.
    + destruct HS as (HE & HK & HD'). pose proof (performed f (faults m) (redis m)) as HP. destruct (perform f (faults m) (redis m)) as [[[y|] d] fs]; destruct HP as [Hd Hy].
      * destruct (Hy y eq_refl) as [-> ->]. assert (S' : sound (mk_machine (f (redis m)).1 (running m) fs (next m) (inflight m) (answers m))).
        { apply sound_database; [done|done|done| |by left]. intros _. split; by apply (kp_some _ _ HK). }
        destruct S' as [T1 T2 T3 T4 T5 T6]. split; cbn in *; try done.
        -- by intros Er; rewrite Er in Hr.
        -- intros id' r' t'. destruct (decide (id' = id)) as [->|]; [|rewrite lookup_insert_ne by done; apply T4]. rewrite lookup_insert_eq. by intros [= <- <-].
        -- split; [|done]. intros id' x'. destruct (decide (id' = id)) as [->|]; [intros _; by eapply S6|]. rewrite lookup_insert_ne by done. apply S6.
      * apply sound_ended; [done|destruct Hd as [->| ->]; done..].
Qed.

Lemma serve_keeps m e : sound m → (∀ u, e = EArrive (RRegister (Some u)) → made u) → keeps (redis m) (redis (serve m e)).
Proof.
  intros [S1 S2 S3 S4 S5 _] Hm. destruct e as [chainID passphrase r now x fuel| |r|id]; cbn [serve].
  - pose proof (exec_wp _ _ (faults m) _ (init_entries chainID passphrase r now x fuel _ S1)) as HW. destruct (exec _ _ _) as [[res d] fs]. apply HW.
  - destruct (running m); [done|]. pose proof (exec_wp _ _ (faults m) _ (prepare_entries _ S1)) as HW. destruct (exec _ _ _) as [[res d] fs]. destruct HW as [-> _]. done.
  - by destruct (running m).
  - destruct (inflight m !! id) as [[r t]|] eqn:Ei; [|done]. destruct (S4 _ _ _ Ei) as [HD Hu]. assert (Hr : running m = true) by (destruct (running m) eqn:Er; [done|]; rewrite (S3 eq_refl), lookup_empty in Ei; done).
    destruct (S2 Hr) as [Hc Hk]. pose proof (during_step _ r t S1 Hc Hk Hu HD) as HS. destruct t as [a| |X f k]; [done|done|]. destruct HS as (_ & HK & _).
    pose proof (performed f (faults m) (redis m)) as HP. destruct (perform f (faults m) (redis m)) as [[[y|] d] fs]; destruct HP as [[->| ->] _]; done.
Qed.

Lemma run_sound es : ∀ m, sound m → (∀ u, EArrive (RRegister (Some u)) ∈ es → made u) → sound (run es m) ∧ keeps (redis m) (redis (run es m)).
Proof.
  induction es as [|e es IH]; intros m S Hm; [done|]. assert (He : ∀ u, e = EArrive (RRegister (Some u)) → made u) by (intros u ->; apply Hm; by left).
  destruct (IH (serve m e)) as [H1 H2]; [by apply sound_serve|intros u Hu; apply Hm; by right|]. split; [done|]. etrans; [by apply serve_keeps|done].
Qed.

(** ** Requests that come later *)

(** The hash [h] is registered, and no request from number [n] on is about to
    register it again. *)
Record taken (n : nat) (h : bytes) (m : machine) : Prop := {
  tk_some : is_Some (redis m !! h);
  tk_threads : ∀ id u t, (n <= id)%nat → inflight m !! id = Some (RRegister (Some u), t) → user_hash u = h → t = handler (RRegister (Some u)) ∨ ∃ a, t = ret a ∧ a ≠ Successful;
  tk_answers : ∀ id u, (n <= id)%nat → (id, RRegister (Some u), Successful) ∈ answers m → user_hash u ≠ h;
}.

(** The first command of a registration of a hash that is taken is its last. *)
Lemma taken_register u d : is_Some (d !! user_hash u) → match register (Some u) with ret a => a ≠ Successful | Fatalf => True | command f k => k (f d).2 = ret AccountRegistered end.
Proof. intros Hs. unfold register. destruct (decide _); [done|]. unfold Exists, issue. cbn [bind fst snd]. by rewrite bool_decide_true. Qed.

Lemma taken_step n h m id : taken n h m → sound m → taken n h (serve m (EStep id)).
Proof.
  intros [T1 T2 T3] S. pose proof (kp_some _ _ (serve_keeps m (EStep id) S ltac:(done)) _ T1) as T1'. cbn [serve] in *. destruct (inflight m !! id) as [[r t]|] eqn:Ei; [|by split].
  assert (HT : ∀ u, r = RRegister (Some u) → (n <= id)%nat → user_hash u = h → match t with ret a => a ≠ Successful | Fatalf => True | command f k => k (f (redis m)).2 = ret AccountRegistered end).
  { intros u -> Hn Hu. destruct (T2 id u t Hn Ei Hu) as [->|(a & -> & Ha)]; [|done]. apply taken_register. by rewrite Hu. }
  destruct t as [a| |X f k].
  - split; cbn [redis inflight answers ended] in *; [done| |].
    + intros id' u t Hn [_ Ht]%lookup_delete_Some. by eapply T2.
    + intros id' u Hn [[= -> <- <-]|Ha]%elem_of_cons; [|by eapply T3]. intros Hu. by apply (HT u).
  - split; cbn [redis inflight answers ended] in *; [done|intros id' u t _; by rewrite lookup_empty|done].
  - pose proof (performed f (faults m) (redis m)) as HP. destruct (perform f (faults m) (redis m)) as [[[y|] d] fs]; destruct HP as [_ Hy]; (split; cbn [redis inflight answers ended] in *; [done| |done]).
    + intros id' u t Hn. destruct (decide (id' = id)) as [->|]; [|rewrite lookup_insert_ne by done; by apply T2]. rewrite lookup_insert_eq. intros [= -> <-] Hu. right. exists AccountRegistered. split; [|done].
      destruct (Hy y eq_refl) as [_ ->]. by apply (HT u).
    + intros id' u t _. by rewrite lookup_empty.
Qed.

Lemma taken_serve n h m e : taken n h m → sound m → (∀ u, e = EArrive (RRegister (Some u)) → made u) → taken n h (serve m e).
Proof.
  intros T S Hm. pose proof (kp_some _ _ (serve_keeps m e S Hm) _ (tk_some _ _ _ T)) as T1'. destruct e as [chainID passphrase r now x fuel| |r|id]; [| | |by apply taken_step]; destruct T as [T1 T2 T3]; cbn [serve] in *.
  - destruct (exec _ _ _) as [[res d] fs]. by split.
  - destruct (running m); [by split|]. destruct (exec _ _ _) as [[res d] fs]. by split.
  - destruct (running m); split; cbn [redis inflight answers]; try done.
    + intros id u t Hn. destruct (decide (id = next m)) as [->|]; [|rewrite lookup_insert_ne by done; by apply T2]. rewrite lookup_insert_eq. intros [= -> <-] _. by left.
    + intros id u Hn [[=]|Ha]%elem_of_cons. by eapply T3.
Qed.

Lemma taken_run n h es : ∀ m, taken n h m → sound m → (∀ u, EArrive (RRegister (Some u)) ∈ es → made u) → taken n h (run es m).
Proof.
  induction es as [|e es IH]; intros m T S Hm; [done|]. assert (He : ∀ u, e = EArrive (RRegister (Some u)) → made u) by (intros u ->; apply Hm; by left).
  apply (IH (serve m e)); [by apply taken_serve|by apply sound_serve|]. intros u Hu. apply Hm. by right.
Qed.

(** ** Answers *)

(** The commands a program still needs when it runs alone. *)
Fixpoint quick (n : nat) (d : database) (t : M response) : Prop :=
  match t, n with
  | ret _, _ => True
  | command f k, S n => quick n (f d).1 (k (f d).2)
  | _, _ => False
  end.

Lemma during_quick d r t : entries made d → is_Some (d !! config_name) → is_Some (d !! key_name) → during d r t → quick 2 d t.
Proof.
  intros HE [v Ev] [w Ew] [r'|r' a Ha|u Hu|c]; try done.
  - destruct r' as [[u|]|[u|]|c]; cbn [handler]; unfold register, verify, regkey; try done; destruct (decide _); try done; unfold Exists, Get_Identity, Get_text, issue; cbn [bind quick fst snd].
    + by case_bool_decide.
    + rewrite Ev. cbn [bind]. destruct (config_parses _ _ _ HE Ev) as [i ->]. cbn [or_fatal bind]. destruct (decide _); [|done]. unfold Get_Key, Get_text, issue. cbn [bind quick fst snd].
      rewrite Ew. cbn [bind]. destruct (entry_key _ _ _ HE Ew) as [key ->]. by rewrite parse_json_Key.
  - unfold Get_Key, Get_text, issue. cbn [bind quick fst snd]. rewrite Ew. cbn [bind]. destruct (entry_key _ _ _ HE Ew) as [key ->]. by rewrite parse_json_Key.
Qed.

Lemma idle_run k : ∀ m id, inflight m !! id = None → run (replicate k (EStep id)) m = m.
Proof.
  induction k as [|k IH]; intros m id E; [done|]. change (run (replicate k (EStep id)) (serve m (EStep id)) = m). assert (Es : serve m (EStep id) = m) by (cbn [serve]; by rewrite E). rewrite Es. by apply IH.
Qed.

Lemma quick_answered n : ∀ m id r t, faults m = [] → inflight m !! id = Some (r, t) → quick n (redis m) t → ∃ a, (id, r, a) ∈ answers (run (replicate (S n) (EStep id)) m).
Proof.
  induction n as [|n IH]; intros m id r t Hf Ei Hq; (destruct t as [a| |X f k]; [|done|]); try done.
  all: change (run (replicate (S ?n) (EStep id)) m) with (run (replicate n (EStep id)) (serve m (EStep id))).
  1, 2: exists a; rewrite idle_run; cbn [serve]; rewrite Ei; [by left|apply lookup_delete_eq].
  assert (Es : serve m (EStep id) = mk_machine (f (redis m)).1 (running m) [] (next m) (<[id := (r, k (f (redis m)).2)]> (inflight m)) (answers m)) by (cbn [serve]; rewrite Ei, Hf; done).
  rewrite Es. apply (IH _ id r (k (f (redis m)).2)); [done|apply lookup_insert_eq|exact Hq].
Qed.

Lemma Verify_true m k : Verify m k = true → is_Some (redis m !! Hash k).
Proof.
  unfold Verify. destruct (running m); [|done]. cbn [andb]. unfold verify. cbn [Hashky]. destruct (decide _); [done|]. unfold Exists, issue. cbn [bind exec].
  destruct (faults m) as [|[[|]|] fs]; cbn [perform fst snd exec]; try done; by case_bool_decide.
Qed.

Lemma Verify_complete m k : running m = true → faults m = [] → k ≠ [] → is_Some (redis m !! Hash k) → Verify m k = true.
Proof.
  intros Hr Hf Hk Hs. unfold Verify. rewrite Hr. cbn [andb]. unfold verify. cbn [Hashky]. rewrite decide_False by done. unfold Exists, issue. cbn [bind exec]. rewrite Hf. cbn [perform fst snd exec]. by rewrite bool_decide_true.
Qed.

End Made.

(** The identities whose registration was asked for. *)
Definition asked (es : list event) (u : Identity) : Prop := EArrive (RRegister (Some u)) ∈ es.

Lemma run_asked es fs : sound (asked es) (run es (fresh fs)).
Proof. apply run_sound; [apply sound_fresh|done]. Qed.

Lemma run_app es1 es2 m : run (es1 ++ es2) m = run es2 (run es1 m).
Proof. apply foldl_app. Qed.

(** A request that arrives at a server that runs is answered by three of its
    steps. *)
Lemma arrival_answered es fs r : running (run es (fresh fs)) = true → faults (run es (fresh fs)) = [] →
  ∃ a, (next (run es (fresh fs)), r, a) ∈ answers (run (EArrive r :: replicate 3 (EStep (next (run es (fresh fs))))) (run es (fresh fs))).
Proof.
  intros Hr Hf. set (m := run es (fresh fs)) in *. destruct (run_sound (λ _, True) es (fresh fs) (sound_fresh _ fs) ltac:(done)) as [S _]. fold m in S.
  change (run (EArrive r :: ?l) m) with (run l (serve m (EArrive r))). cbn [serve]. rewrite Hr. eapply (quick_answered 2); [done|apply lookup_insert_eq|].
  cbn [redis]. destruct (so_running _ _ S Hr) as [Hc Hk]. eapply (during_quick (λ _, True)); [apply S|done|done|constructor].
Qed.

(** C38: the regulator's registry, over every history of initialisations, starts
    and failures of the database (a failed command may have been carried out or
    not, and ends the process) and over every interleaving of the database
    commands of the requests in flight:
    - a registration that was answered Successful is permanent: an identity that
      was asked to be registered, with the same hash of its key, is stored under
      this hash (two requests that overlap can both be accepted, and then the
      later write remains);
    - a registration that arrives after another of the same hash was accepted is
      not accepted;
    - the public key the regulator gives out is always the same;
    - only keys with the hash of an identity that was asked to be registered are
      confirmed, so the exchange sells to no others;
    - while the server runs and the database does not fail, a key whose
      registration was accepted is confirmed, and every request that is in flight
      or arrives is answered within three steps of its own. *)
Theorem registry_keeps_promises es fs m : run es (fresh fs) = m →
  (∀ n u, (n, RRegister (Some u), Successful) ∈ answers m → ∃ u', asked es u' ∧ Hash (Hashky u') = Hash (Hashky u) ∧ redis m !! Hash (Hashky u) = Some (json_Identity u')) ∧
  (∀ es1 es2 n u n' u', es = es1 ++ es2 → (n, RRegister (Some u), Successful) ∈ answers (run es1 (fresh fs)) → (next (run es1 (fresh fs)) <= n')%nat →
    (n', RRegister (Some u'), Successful) ∈ answers m → Hash (Hashky u') ≠ Hash (Hashky u)) ∧
  (∀ n r p n' r' p', (n, r, RegKey p) ∈ answers m → (n', r', RegKey p') ∈ answers m → p = p') ∧
  (∀ n r, (n, r, True_) ∈ answers m → ∃ k u, r = RVerify (Some k) ∧ asked es u ∧ Hash (Hashky u) = Hash (Hashky k)) ∧
  (∀ post st d fuel b g res req, Exchange.buy Sha256.sha256 (Verify m) post st d fuel b g = Ret (res, Some req) → ∃ u, asked es u ∧ Hash (Hashky u) = Hash (Exchange.u_H b)) ∧
  (running m = true → faults m = [] →
    (∀ n u, (n, RRegister (Some u), Successful) ∈ answers m → Verify m (Hashky u) = true) ∧
    (∀ id r t, inflight m !! id = Some (r, t) → ∃ a, (id, r, a) ∈ answers (run (replicate 3 (EStep id)) m)) ∧
    (∀ r, ∃ a, (next m, r, a) ∈ answers (run (EArrive r :: replicate 3 (EStep (next m))) m))).
Proof.
  intros <-. pose proof (run_asked es fs) as S. assert (HR : ∀ n u, (n, RRegister (Some u), Successful) ∈ answers (run es (fresh fs)) → Hashky u ≠ [] ∧ is_Some (redis (run es (fresh fs)) !! user_hash u)).
  { intros n u Ha. destruct (pr_registered _ _ _ (so_answers _ _ S _ _ _ Ha) eq_refl) as (u' & [= <-] & Hs). exact Hs. }
  split_and!.
  - intros n u Ha. destruct (entry_user _ _ _ (so_entries _ _ S) (proj2 (HR n u Ha))) as (u' & Hu & Eu & Ed). eauto.
  - intros es1 es2 n u n' u' -> H1 Hn H2. rewrite run_app in H2. assert (S1 : sound (asked (es1 ++ es2)) (run es1 (fresh fs))) by (apply run_sound; [apply sound_fresh|]; intros v Hv; apply elem_of_app; by left).
    refine (tk_answers _ _ _ (taken_run (asked (es1 ++ es2)) (next (run es1 (fresh fs))) (user_hash u) es2 _ _ S1 _) n' u' Hn H2); [|intros v Hv; apply elem_of_app; by right].
    destruct (so_ids _ _ S1) as [I1 I2]. split; [|intros id v t Hid Hi%I1; lia|intros id v Hid Hi%I2; lia]. destruct (pr_registered _ _ _ (so_answers _ _ S1 _ _ _ H1) eq_refl) as (v & [= <-] & _ & Hs). done.
  - intros n r p n' r' p' H1 H2. destruct (pr_key _ _ _ (so_answers _ _ S _ _ _ H1) p eq_refl) as (k & E1 & ->), (pr_key _ _ _ (so_answers _ _ S _ _ _ H2) p' eq_refl) as (k' & E2 & ->).
    rewrite E1 in E2. injection E2 as E2. apply (f_equal parse_Key) in E2. rewrite !parse_json_Key in E2. congruence.
  - intros n r Ha. destruct (pr_verified _ _ _ (so_answers _ _ S _ _ _ Ha) eq_refl) as (k & -> & Hs). destruct (entry_user _ _ _ (so_entries _ _ S) Hs) as (u & Hu & Eu & _). eauto.
  - intros post st d fuel b g res req Hb. unfold Exchange.buy in Hb. destruct (Exchange.lacking b); [done|]. destruct (Verify _ (Exchange.u_H b)) eqn:EV; [|done]. apply Verify_true in EV.
    destruct (entry_user _ _ _ (so_entries _ _ S) EV) as (u & Hu & Eu & _). eauto.
  - intros Hr Hf. split_and!.
    + intros n u Ha. destruct (HR n u Ha) as [Hk Hs]. by apply Verify_complete.
    + intros id r t Hi. destruct (so_running _ _ S Hr) as [Hc Hk]. eapply (quick_answered 2); [done|exact Hi|]. eapply during_quick; [apply S|done|done|]. by apply (so_threads _ _ S id).
    + intros r. by apply arrival_answered.
Qed.

End WithJson.

(** ** A concrete history *)

(** Texts one after the other, each byte marked and each text ended. *)
Fixpoint put (s rest : bytes) : bytes := match s with [] => Byte.x00 :: rest | b :: s => Byte.x01 :: b :: put s rest end.
Fixpoint take_text (s : bytes) : option (bytes * bytes) :=
  match s with
  | Byte.x00 :: rest => Some ([], rest)
  | Byte.x01 :: b :: s => '(t, rest) ← take_text s; Some (b :: t, rest)
  | _ => None
  end.

Lemma take_put s rest : take_text (put s rest) = Some (s, rest).
Proof. induction s as [|b s IH]; cbn; [done|]. by rewrite IH. Qed.

Definition put_number (z : Z) : bytes → bytes := put ((if z <? 0 then Byte.x01 else Byte.x00) :: be_encode z).
Definition take_number (s : bytes) : option (Z * bytes) :=
  '(t, rest) ← take_text s;
  match t with
  | Byte.x01 :: t => Some (- be_decode t, rest)
  | _ :: t => Some (be_decode t, rest)
  | [] => None
  end.

Lemma take_put_number z rest : take_number (put_number z rest) = Some (z, rest).
Proof.
  unfold take_number, put_number. rewrite take_put. cbn [mbind option_bind]. assert (E : be_encode z = be_encode (Z.abs z)) by (unfold be_encode; by rewrite Z.abs_involutive). rewrite E. destruct (Z.ltb_spec z 0); rewrite be_decode_encode by lia; do 2 f_equal; lia.
Qed.

#[local] Instance demo_json : Json := {|
  json_Identity i := put (Name i) (put (ID i) (put (Hashky i) (put (ExtInfo i) [])));
  json_Key k := put_number (G1 (priv_pub k)) (put_number (G2 (priv_pub k)) (put_number (P (priv_pub k)) (put_number (H (priv_pub k)) (put_number (X k) []))));
  parse_Identity s := '(a, s) ← take_text s; '(b, s) ← take_text s; '(c, s) ← take_text s; '(d, _) ← take_text s; Some (mk_Identity a b c d);
  parse_Key s := '(a, s) ← take_number s; '(b, s) ← take_number s; '(c, s) ← take_number s; '(d, s) ← take_number s; '(e, _) ← take_number s; Some (mkPrivateKey (mkPublicKey a b c d) e);
|}.

#[local] Instance demo_json_laws : JsonLaws demo_json.
Proof.
  split; [intros [a b c d] _ _ _ _|intros [[a b c d] e]]; cbn [parse_Identity json_Identity parse_Key json_Key demo_json Name ID Hashky ExtInfo priv_pub G1 G2 P H X].
  - by do 4 (rewrite take_put; cbn [mbind option_bind]).
  - by do 5 (rewrite take_put_number; cbn [mbind option_bind]).
Qed.

(** A user registers; a second request for the same key is refused; a failure
    ends the server, and after it is started again the key is given out. *)
Definition demo_user : Identity := mk_Identity [Byte.x41] [Byte.x42] [Byte.x43] [].
Definition demo_start : list event := [EInit 1 [Byte.x70] 0 [Byte.x31] 5 3; EStart].
Definition demo_history : list event :=
  demo_start ++ [EArrive (RRegister (Some demo_user)); EStep 0; EStep 0; EStep 0; EArrive (RRegister (Some demo_user)); EStep 1; EStep 1;
   EArrive (RVerify (Some demo_user)); EStep 2; EStart; EArrive (RRegkey (flag_text 1)); EStep 3; EStep 3; EStep 3].
Definition demo_faults : list (option fault) := replicate 10 None ++ [Some Applied].

Definition demo_end : machine := run demo_history (fresh demo_faults).

Definition demo_regkey : PublicKey := match Regulator.GenElgKeys 0 [Byte.x70] [Byte.x31] 5 3 with Ret (pub, _) => pub | _ => mkPublicKey 0 0 0 0 end.

Lemma demo_answers : answers demo_end = [(3%nat, RRegkey (flag_text 1), RegKey demo_regkey); (1%nat, RRegister (Some demo_user), AccountRegistered); (0%nat, RRegister (Some demo_user), Successful)].
Proof. vm_compute. reflexivity. Qed.

Lemma registry_keeps_promises_witness : ∃ u', asked demo_history u' ∧ Hash (Hashky u') = Hash (Hashky demo_user) ∧ redis demo_end !! Hash (Hashky demo_user) = Some (json_Identity u').
Proof.
  destruct (registry_keeps_promises demo_history demo_faults demo_end eq_refl) as [H _]. apply (H 0%nat). rewrite demo_answers. right. right. by left.
Defined.

(** Two requests for one key that overlap: both find it free, both are answered
    Successful, and the first identity is lost. *)
Definition other_user : Identity := mk_Identity [Byte.x44] [Byte.x45] [Byte.x43] [].
Definition race : machine :=
  run (demo_start ++ [EArrive (RRegister (Some demo_user)); EArrive (RRegister (Some other_user)); EStep 0; EStep 1; EStep 0; EStep 0; EStep 1; EStep 1]) (fresh []).

Lemma registrations_race : answers race = [(1%nat, RRegister (Some other_user), Successful); (0%nat, RRegister (Some demo_user), Successful)] ∧
  redis race !! Hash (Hashky demo_user) = Some (json_Identity other_user).
Proof. split; vm_compute; reflexivity. Qed.

End RegulatorClaims.
