(* ===== verification/Pow.v ===== *)
(** * Pow: the proof of work (consensus/ethash/algorithm.go, sealer.go)

    The verification cache, the mining dataset, the hash over them, and the
    search for a nonce.

    - Words are [uint32]; a slice of words stands for the bytes of a
      little-endian machine, on which nothing is swapped.
    - The dataset is generated by many goroutines: [order] is the order in which
      the items of all of them happen to be stored.
    - Keccak is a parameter; [None] is a panic. *)

From stdpp Require Import base list.
From Stdlib Require Import ZArith Lia.
From S2P Require Import Prelude.

Local Open Scope Z_scope.

Module Pow.

Definition u32 (x : Z) : Z := x mod 2 ^ 32.

Definition epochLength : Z := 30000.
Definition mixBytes : Z := 128.
Definition hashBytes : Z := 64.
Definition hashWords : Z := 16.
Definition datasetParents : nat := 256.
Definition cacheRounds : nat := 3.
Definition loopAccesses : nat := 64.

(** ** Words (encoding/binary) *)

Definition PutUint32 (v : Z) : bytes := [z2b v; z2b (v / 2 ^ 8); z2b (v / 2 ^ 16); z2b (v / 2 ^ 24)].

Definition PutUint64 (v : Z) : bytes := PutUint32 v ++ PutUint32 (v / 2 ^ 32).

(** Whole words from the left. *)
Fixpoint words (b : bytes) : list Z :=
  match b with
  | b0 :: b1 :: b2 :: b3 :: b => (b2z b0 + 2 ^ 8 * b2z b1 + 2 ^ 16 * b2z b2 + 2 ^ 24 * b2z b3) :: words b
  | _ => []
  end.

Definition unwords (l : list Z) : bytes := concat (map PutUint32 l).

(** The first word; too few bytes panic. *)
Definition Uint32 (b : bytes) : option Z := head (words b).

(** ** Slices *)

Abbreviation zlen l := (Z.of_nat (length l)).

(** [copy(buf[off:], src)] *)
Definition copy_at {A} (buf : list A) (off : Z) (src : list A) : option (list A) :=
  if off <=? zlen buf then
    let off := Z.to_nat off in
    Some (take off buf ++ take (length buf - off) src ++ drop (off + length src) buf)
  else None.

(** [buf[lo:hi]] *)
Definition slice {A} (buf : list A) (lo hi : Z) : option (list A) :=
  if (lo <=? hi) && (hi <=? zlen buf) then Some (take (Z.to_nat (hi - lo)) (drop (Z.to_nat lo) buf)) else None.

Definition index_at (l : list Z) (i : Z) : option Z := if 0 <=? i then l !! Z.to_nat i else None.

(** ** Mixing *)

Definition fnvPrime : Z := 16777619.

Definition fnv (a b : Z) : Z := Z.lxor (u32 (a * fnvPrime)) b.

(** Fewer data than mix panics. *)
Definition fnvHash (mix data : list Z) : option (list Z) :=
  if (length mix <=? length data)%nat then Some (zip_with fnv mix data) else None.

Section WithKeccak.
Context (keccak512 keccak256 : bytes → bytes).

(** ** The verification cache *)

(** The hash that [makeHasher] writes at an offset. *)
Definition hash_into (cache : bytes) (off : Z) (data : bytes) : option bytes :=
  if off + hashBytes <=? zlen cache then copy_at cache off (keccak512 data) else None.

Fixpoint fill_cache (n : nat) (offset : Z) (cache : bytes) : option bytes :=
  match n with
  | O => Some cache
  | S n =>
      if offset <? zlen cache then
        prev ← slice cache (offset - hashBytes) offset;
        cache ← hash_into cache offset prev;
        fill_cache n (offset + hashBytes) cache
      else Some cache
  end.

(** One round of randmemohash from row [j]. The offsets and their sums are
    [uint32] in the source: caches are taken to be smaller than 4 GB, where no sum
    wraps (the largest of [cacheSizes] is 285 MB). *)
Fixpoint memo_hash (n : nat) (rows j : Z) (cache : bytes) : option bytes :=
  match n with
  | O => Some cache
  | S n =>
      let srcOff := ((j - 1 + rows) mod rows) * hashBytes in
      let dstOff := j * hashBytes in
      w ← Uint32 (drop (Z.to_nat dstOff) cache);
      let xorOff := u32 ((w mod u32 rows) * hashBytes) in
      a ← slice cache srcOff (srcOff + hashBytes);
      b ← slice cache xorOff (xorOff + hashBytes);
      cache ← hash_into cache dstOff (zip_with (λ x y, z2b (Z.lxor (b2z x) (b2z y))) a b);
      memo_hash n rows (j + 1) cache
  end.

Fixpoint memo_rounds (n : nat) (rows : Z) (cache : bytes) : option bytes :=
  match n with
  | O => Some cache
  | S n => cache ← memo_hash (Z.to_nat rows) rows 0 cache; memo_rounds n rows cache
  end.

(** For a destination of [n] words. *)
Definition generateCache (n : nat) (seed : bytes) : option (list Z) :=
  let cache := replicate (4 * n) Byte.x00 in
  let rows := zlen cache / hashBytes in
  cache ← hash_into cache 0 seed;
  cache ← fill_cache n hashBytes cache;
  cache ← memo_rounds cacheRounds rows cache;
  Some (words cache).

(** ** The dataset *)

(** Word [i] of a row of the cache. *)
Definition cache_word (cache : list Z) (row i : Z) : option Z := index_at cache (u32 (u32 (row * hashWords) + i)).

Fixpoint cache_row (n : nat) (cache : list Z) (row i : Z) : option (list Z) :=
  match n with
  | O => Some []
  | S n => w ← cache_word cache row i; l ← cache_row n cache row (i + 1); Some (w :: l)
  end.

Fixpoint mix_parents (n : nat) (cache : list Z) (rows index i : Z) (mix : list Z) : option (list Z) :=
  match n with
  | O => Some mix
  | S n =>
      m ← index_at mix (i mod 16);
      let parent := fnv (Z.lxor index i) m mod rows in
      data ← slice cache (u32 (parent * hashWords)) (zlen cache);
      mix ← fnvHash mix data;
      mix_parents n cache rows index (i + 1) mix
  end.

Definition generateDatasetItem (cache : list Z) (index : Z) : option bytes :=
  let rows := u32 (zlen cache / hashWords) in
  if rows =? 0 then None
  else
    w ← cache_word cache (index mod rows) 0;
    l ← cache_row 15 cache (index mod rows) 1;
    let mix := keccak512 (unwords (Z.lxor w index :: l)) in
    mix ← mix_parents datasetParents cache rows index 0 (words mix);
    Some (keccak512 (unwords mix)).

(** The items a goroutine stores. *)
Definition segment (size threads id : Z) : list Z :=
  let batch := u32 ((size + hashBytes * threads - 1) / (hashBytes * threads)) in
  let first := u32 (id * batch) in
  let limit := Z.min (u32 (first + batch)) (u32 (size / hashBytes)) in
  map (λ k, first + Z.of_nat k) (seq 0 (Z.to_nat (limit - first))).

Definition segments (size threads : Z) : list Z := concat (map (λ id, segment size threads (Z.of_nat id)) (seq 0 (Z.to_nat threads))).

(** One item; the division by [percent] for the report may panic. *)
Definition store_item (cache : list Z) (size : Z) (index : Z) (dest : list Z) : option (list Z) :=
  item ← generateDatasetItem cache index;
  dest ← copy_at dest (u32 (index * hashBytes) / 4) (words item);
  if u32 (size / hashBytes / 100) =? 0 then None else Some dest.

Fixpoint store_items (cache : list Z) (size : Z) (order : list Z) (dest : list Z) : option (list Z) :=
  match order with
  | [] => Some dest
  | index :: order => dest ← store_item cache size index dest; store_items cache size order dest
  end.

(** For a destination of [n] words; [order] is an interleaving of the segments. *)
Definition generateDataset (n : nat) (cache : list Z) (order : list Z) : option (list Z) :=
  store_items cache (4 * Z.of_nat n) order (replicate n 0).

(** ** Hashimoto *)

Fixpoint mix_dataset (n : nat) (rows seedHead i : Z) (lookup : Z → option (list Z)) (mix temp : list Z) : option (list Z) :=
  match n with
  | O => Some mix
  | S n =>
      if rows =? 0 then None
      else
        m ← index_at mix (i mod zlen mix);
        let parent := fnv (Z.lxor i seedHead) m mod rows in
        l0 ← lookup (u32 (2 * parent));
        temp ← copy_at temp 0 l0;
        l1 ← lookup (u32 (2 * parent + 1));
        temp ← copy_at temp hashWords l1;
        mix ← fnvHash mix temp;
        mix_dataset n rows seedHead (i + 1) lookup mix temp
  end.

(** Four words become one: the word written is never read later. *)
Fixpoint compress (mix : list Z) : list Z :=
  match mix with
  | a :: b :: c :: d :: mix => fnv (fnv (fnv a b) c) d :: compress mix
  | _ => []
  end.

Definition hashimoto (hash : bytes) (nonce size : Z) (lookup : Z → option (list Z)) : option (bytes * bytes) :=
  let rows := u32 (size / mixBytes) in
  let seed := take 32 (hash ++ replicate 32 Byte.x00) ++ PutUint64 nonce in
  let seed := keccak512 seed in
  seedHead ← Uint32 seed;
  let mix := words seed ++ words seed in
  mix ← mix_dataset loopAccesses rows seedHead 0 lookup mix (replicate (length mix) 0);
  let digest := unwords (compress mix) in
  Some (digest, keccak256 (seed ++ digest)).

Definition hashimotoLight (size : Z) (cache : list Z) (hash : bytes) (nonce : Z) : option (bytes * bytes) :=
  hashimoto hash nonce size (λ index, words <$> generateDatasetItem cache index).

Definition hashimotoFull (dataset : list Z) (hash : bytes) (nonce : Z) : option (bytes * bytes) :=
  hashimoto hash nonce (zlen dataset * 4)
    (λ index, let offset := u32 (index * hashWords) in slice dataset offset (u32 (offset + hashWords))).

(** ** Sizes and seeds *)

(** [n] is the number of epochs before the block. *)
Fixpoint seed_after (n : nat) : bytes :=
  match n with O => replicate 32 Byte.x00 | S n => keccak256 (seed_after n) end.

Definition seedHash (block : Z) : bytes := seed_after (Z.to_nat (block / epochLength)).

(** ** The search for a nonce (sealer.go) *)

Definition two256 : Z := 2 ^ 256.

(** [None]: aborted after [fuel] attempts. *)
Fixpoint search (fuel : nat) (dataset : list Z) (hash : bytes) (target nonce : Z) : option (option (Z * bytes)) :=
  match fuel with
  | O => Some None
  | S fuel =>
      '(digest, result) ← hashimotoFull dataset hash nonce;
      if be_decode result <=? target then Some (Some (nonce, digest)) else search fuel dataset hash target (u64 (nonce + 1))
  end.

End WithKeccak.
End Pow.
