(* ===== verification/PowClaims.v ===== *)
(** * PowClaims: verifying with the cache is verifying with the dataset

    The dataset holds the items the cache gives, in whatever order it was
    stored, up to 4 GB: both ways to compute the proof of work agree, and what a
    miner finds is accepted. Above 4 GB the rest of the dataset stays empty. *)

From stdpp Require Import base list.
From Stdlib Require Import ZArith Lia.
From S2P Require Import Prelude Pow.

Local Open Scope Z_scope.

Module PowClaims.
Import Pow.

(** ** Words *)

Lemma u32_range x : 0 <= u32 x < 2 ^ 32.
Proof. apply Z.mod_pos_bound. lia. Qed.

Lemma u32_small x : 0 <= x < 2 ^ 32 → u32 x = x.
Proof. apply Z.mod_small. Qed.

Lemma length_words n : ∀ b, length b = (4 * n)%nat → length (words b) = n.
Proof.
  induction n as [|n IH]; intros b Hb; [by destruct b|]. destruct b as [|b0 [|b1 [|b2 [|b3 b]]]]; cbn in Hb; try lia. cbn. rewrite IH; lia.
Qed.

Lemma length_unwords l : length (unwords l) = (4 * length l)%nat.
Proof. unfold unwords. induction l as [|x l IH]; cbn [map concat]; [done|]. rewrite length_app, IH. cbn. lia. Qed.

(** ** Slices *)

(** The [i]-th item of a dataset. *)
Definition item_at (ds : list Z) (i : Z) : list Z := take 16 (drop (Z.to_nat (16 * i)) ds).

Lemma copy_at_spec {A} (buf src : list A) off : 0 <= off → off + zlen src <= zlen buf → copy_at buf off src = Some (take (Z.to_nat off) buf ++ src ++ drop (Z.to_nat off + length src) buf).
Proof. intros H0 Hlen. unfold copy_at. rewrite (proj2 (Z.leb_le _ _)) by lia. rewrite (take_ge src) by lia. done. Qed.

Lemma copy_length {A} (buf src buf' : list A) off : 0 <= off → copy_at buf off src = Some buf' → length buf' = length buf.
Proof.
  intros H0. unfold copy_at. destruct (Z.leb_spec off (zlen buf)); [|done]. intros [= <-]. rewrite !length_app, !length_take, length_drop. lia.
Qed.

(** What a copy leaves as it is. *)
Lemma copy_outside {A} (buf src buf' : list A) off k : 0 <= off → copy_at buf off src = Some buf' → (k < Z.to_nat off ∨ Z.to_nat off + length src <= k)%nat → buf' !! k = buf !! k.
Proof.
  intros H0. unfold copy_at. destruct (Z.leb_spec off (zlen buf)) as [Hle|]; [|done]. intros [= <-] Hk. destruct (decide (k < Z.to_nat off)%nat) as [Hlt|Hge].
  - rewrite lookup_app_l by (rewrite length_take; lia). by rewrite lookup_take_lt.
  - destruct Hk as [?|Hk]; [lia|]. rewrite lookup_app_r by (rewrite length_take; lia). rewrite length_take, Nat.min_l by lia. destruct (decide (k < length buf)%nat) as [Hin|Hout].
    + rewrite lookup_app_r by (rewrite length_take; lia). rewrite length_take, Nat.min_r, lookup_drop by lia. f_equal. lia.
    + rewrite (lookup_ge_None_2 buf) by lia. apply lookup_ge_None_2. rewrite length_app, length_take, length_drop. lia.
Qed.

Lemma item_copied ds i l : 0 <= i → 16 * i + 16 <= zlen ds → length l = 16%nat → ∃ ds', copy_at ds (16 * i) l = Some ds' ∧ item_at ds' i = l ∧ length ds' = length ds ∧ (∀ j, 0 <= j → j ≠ i → item_at ds' j = item_at ds j).
Proof.
  intros Hi Hlen Hl. pose proof (copy_at_spec ds l (16 * i) ltac:(lia) ltac:(lia)) as E. eexists. split; [exact E|]. split_and!.
  - unfold item_at. rewrite drop_app_length' by (rewrite length_take; lia). by rewrite take_app_length'.
  - by eapply copy_length; [|exact E]; lia.
  - intros j Hj Hne. unfold item_at. apply list_eq. intros k. destruct (decide (k < 16)%nat) as [Hk|Hk]; [|by rewrite !lookup_take_ge by lia]. rewrite !lookup_take_lt, !lookup_drop by lia. eapply copy_outside; [|exact E|]; [lia|]. lia.
Qed.

Lemma item_slice ds i : 0 <= i → 16 * i + 16 <= zlen ds → slice ds (16 * i) (16 * i + 16) = Some (item_at ds i).
Proof. intros Hi Hlen. unfold slice. rewrite !(proj2 (Z.leb_le _ _)) by lia. cbn [andb]. unfold item_at. do 2 f_equal. lia. Qed.

Section WithKeccak.
Context (keccak512 keccak256 : bytes → bytes) (H512 : ∀ s, length (keccak512 s) = 64%nat).

(** ** The cache *)

Lemma hash_into_total (cache data : bytes) off : 0 <= off → off + 64 <= zlen cache → ∃ cache', hash_into keccak512 cache off data = Some cache' ∧ length cache' = length cache.
Proof.
  intros H0 Hl. unfold hash_into, hashBytes. rewrite (proj2 (Z.leb_le _ _)) by lia. pose proof (copy_at_spec cache (keccak512 data) off H0) as E. rewrite H512 in E. rewrite E by lia. eexists. split; [done|]. rewrite !length_app, length_take, length_drop, H512. lia.
Qed.

Lemma slice_total {A} (buf : list A) lo hi : 0 <= lo <= hi → hi <= zlen buf → ∃ l, slice buf lo hi = Some l ∧ length l = Z.to_nat (hi - lo).
Proof. intros H1 H2. unfold slice. rewrite !(proj2 (Z.leb_le _ _)) by lia. cbn. eexists. split; [done|]. rewrite length_take, length_drop. lia. Qed.

Lemma fill_cache_total k : ∀ q R (cache : bytes), 0 < q → zlen cache = 64 * R → ∃ cache', fill_cache keccak512 k (64 * q) cache = Some cache' ∧ length cache' = length cache.
Proof.
  induction k as [|k IH]; intros q R cache Hq Hl; cbn [fill_cache]; [by exists cache|]. destruct (Z.ltb_spec (64 * q) (zlen cache)); [|by exists cache]. unfold hashBytes.
  destruct (slice_total cache (64 * q - 64) (64 * q)) as (prev & -> & _); [lia|lia|]. cbn [mbind option_bind]. destruct (hash_into_total cache prev (64 * q)) as (c1 & -> & L1); [lia|lia|]. cbn [mbind option_bind]. replace (64 * q + 64) with (64 * (q + 1)) by lia. destruct (IH (q + 1) R c1) as (c2 & -> & L2); [lia|lia|]. exists c2. split; [done|lia].
Qed.

Lemma memo_hash_total k : ∀ R j (cache : bytes), 0 < R < 2 ^ 32 → 0 <= j → j + Z.of_nat k <= R → zlen cache = 64 * R → ∃ cache', memo_hash keccak512 k R j cache = Some cache' ∧ length cache' = length cache.
Proof.
  induction k as [|k IH]; intros R j cache HR Hj Hk Hl; cbn [memo_hash]; [by exists cache|]. unfold hashBytes. pose proof (Z.mod_pos_bound (j - 1 + R) R ltac:(lia)). set (src := (j - 1 + R) mod R) in *.
  assert (Hw : ∃ w, Uint32 (drop (Z.to_nat (j * 64)) cache) = Some w).
  { assert (Ld : (4 <= length (drop (Z.to_nat (j * 64)) cache))%nat) by (rewrite length_drop; lia). destruct (drop _ cache) as [|b0 [|b1 [|b2 [|b3 l]]]]; cbn in Ld; try lia. by eexists. }
  destruct Hw as [w ->]. cbn [mbind option_bind]. rewrite (u32_small R) by lia. pose proof (Z.mod_pos_bound w R ltac:(lia)). set (x := w mod R * 64). pose proof (u32_range x). assert (u32 x <= x) by (apply Z.mod_le; lia).
  destruct (slice_total cache (src * 64) (src * 64 + 64)) as (a & -> & _); [lia|lia|]. cbn [mbind option_bind]. destruct (slice_total cache (u32 x) (u32 x + 64)) as (b & -> & _); [lia|lia|]. cbn [mbind option_bind].
  destruct (hash_into_total cache (zip_with (λ x y, z2b (Z.lxor (b2z x) (b2z y))) a b) (j * 64)) as (c1 & -> & L1); [lia|lia|]. cbn [mbind option_bind]. destruct (IH R (j + 1) c1) as (c2 & -> & L2); [lia|lia|lia|lia|]. exists c2. split; [done|lia].
Qed.

Lemma memo_rounds_total k : ∀ R (cache : bytes), 0 < R < 2 ^ 32 → zlen cache = 64 * R → ∃ cache', memo_rounds keccak512 k R cache = Some cache' ∧ length cache' = length cache.
Proof.
  induction k as [|k IH]; intros R cache HR Hl; cbn [memo_rounds]; [by exists cache|]. destruct (memo_hash_total (Z.to_nat R) R 0 cache) as (c1 & -> & L1); [lia|lia|lia|lia|]. cbn [mbind option_bind]. destruct (IH R c1) as (c2 & -> & L2); [lia|lia|]. exists c2. split; [done|lia].
Qed.

(** ** Items *)

(** A cache of [R] rows. *)
Definition cache_ok (cache : list Z) (R : Z) : Prop := zlen cache = 16 * R ∧ 0 < R ∧ 16 * R < 2 ^ 32.

Lemma generateCache_ok R seed : 0 < R → 16 * R < 2 ^ 32 → ∃ cache, generateCache keccak512 (Z.to_nat (16 * R)) seed = Some cache ∧ cache_ok cache R.
Proof.
  intros H0 H1. unfold generateCache. set (n := Z.to_nat (16 * R)). set (c0 := replicate (4 * n) Byte.x00). assert (L0 : zlen c0 = 64 * R) by (unfold c0, n; rewrite length_replicate; lia). rewrite L0. unfold hashBytes. rewrite Z.mul_comm, Z.div_mul by lia.
  destruct (hash_into_total c0 seed 0) as (c1 & -> & L1); [lia|lia|]. cbn [mbind option_bind]. destruct (fill_cache_total n 1 R c1) as (c2 & E2 & L2); [lia|lia|]. rewrite Z.mul_1_r in E2. rewrite E2. cbn [mbind option_bind].
  destruct (memo_rounds_total cacheRounds R c2) as (c3 & -> & L3); [lia|lia|]. cbn [mbind option_bind]. eexists. split; [reflexivity|]. split_and!; [|done|done]. rewrite (length_words n) by (unfold n; lia). unfold n. lia.
Qed.

Section Items.
Context (cache : list Z) (R : Z) (Hc : cache_ok cache R).

Lemma cache_rows : u32 (zlen cache / hashWords) = R.
Proof. destruct Hc as (E & H0 & H1). unfold hashWords. rewrite E, Z.mul_comm, Z.div_mul by lia. apply u32_small. lia. Qed.

Lemma cache_word_total row i : 0 <= row < R → 0 <= i < 16 → ∃ w, cache_word cache row i = Some w.
Proof.
  destruct Hc as (E & H0 & H1). intros Hr Hi. unfold cache_word, index_at, hashWords. rewrite (u32_small (row * 16)) by lia. rewrite u32_small by lia. rewrite (proj2 (Z.leb_le _ _)) by lia. apply lookup_lt_is_Some_2. lia.
Qed.

Lemma cache_row_total n : ∀ row i, 0 <= row < R → 0 <= i → i + Z.of_nat n <= 16 → ∃ l, cache_row n cache row i = Some l ∧ length l = n.
Proof.
  induction n as [|n IH]; intros row i Hr Hi Hn; cbn [cache_row]; [by exists []|]. destruct (cache_word_total row i Hr ltac:(lia)) as [w ->]. destruct (IH row (i + 1) Hr ltac:(lia) ltac:(lia)) as (l & -> & El). cbn. eexists. split; [done|]. cbn. lia.
Qed.

Lemma mix_parents_total n : ∀ index i mix, 0 <= i → length mix = 16%nat → ∃ mix', mix_parents n cache R index i mix = Some mix' ∧ length mix' = 16%nat.
Proof.
  destruct Hc as (E & H0 & H1). induction n as [|n IH]; intros index i mix Hi Hm; cbn [mix_parents]; [by exists mix|]. unfold index_at at 1. pose proof (Z.mod_pos_bound i 16 ltac:(lia)). rewrite (proj2 (Z.leb_le _ _)) by lia.
  destruct (lookup_lt_is_Some_2 mix (Z.to_nat (i mod 16))) as [m ->]; [lia|]. cbn [mbind option_bind]. set (parent := fnv _ _ mod R). pose proof (Z.mod_pos_bound (fnv (Z.lxor index i) m) R H0) as Hp. fold parent in Hp.
  unfold hashWords. rewrite u32_small by lia. unfold slice. rewrite !(proj2 (Z.leb_le _ _)) by lia. cbn [andb mbind option_bind]. set (data := take _ _). assert (Hd : (16 <= length data)%nat) by (unfold data; rewrite length_take, length_drop; lia).
  unfold fnvHash. rewrite (proj2 (Nat.leb_le _ _)) by lia. cbn [mbind option_bind]. apply IH; [lia|]. rewrite length_zip_with. lia.
Qed.

Lemma item_total index : 0 <= index → ∃ b, generateDatasetItem keccak512 cache index = Some b ∧ length b = 64%nat.
Proof.
  intros Hi. unfold generateDatasetItem. rewrite cache_rows. pose proof Hc as (E & H0 & H1). rewrite (proj2 (Z.eqb_neq R 0)) by lia. pose proof (Z.mod_pos_bound index R H0).
  destruct (cache_word_total (index mod R) 0 ltac:(lia) ltac:(lia)) as [w ->]. destruct (cache_row_total 15 (index mod R) 1 ltac:(lia) ltac:(lia) ltac:(lia)) as (l & -> & _). cbn [mbind option_bind].
  destruct (mix_parents_total datasetParents index 0 (words (keccak512 (unwords (Z.lxor w index :: l))))) as (mix & -> & _); [lia|by apply length_words|]. cbn [mbind option_bind]. eauto.
Qed.

(** ** The dataset *)

Context (n : nat) (Hsize : 6400 <= 4 * Z.of_nat n <= 2 ^ 32).

(** The items of [order] are in place. *)
Lemma store_items_spec order : ∀ ds, length ds = n → (∀ i, i ∈ order → 0 <= i ∧ 64 * (i + 1) <= 4 * Z.of_nat n) →
  ∃ ds', store_items keccak512 cache (4 * Z.of_nat n) order ds = Some ds' ∧ length ds' = n ∧
    (∀ i, i ∈ order → words <$> generateDatasetItem keccak512 cache i = Some (item_at ds' i)) ∧ (∀ i, 0 <= i → i ∉ order → item_at ds' i = item_at ds i).
Proof.
  induction order as [|x order IH]; intros ds Hl Hin; cbn [store_items]; [exists ds; split_and!; [done|done|by intros i ?%not_elem_of_nil|done]|]. destruct (Hin x ltac:(by left)) as [Hx Hxn].
  destruct (item_total x Hx) as (b & Eb & Lb). unfold store_item. rewrite Eb. cbn [mbind option_bind]. unfold hashBytes. rewrite (u32_small (x * 64)) by lia. replace (x * 64 / 4) with (16 * x) by (replace (x * 64) with (16 * x * 4) by lia; by rewrite Z.div_mul by lia).
  destruct (item_copied ds x (words b)) as (ds1 & E1 & I1 & L1 & O1); [lia|lia|by apply length_words|]. rewrite E1. cbn [mbind option_bind].
  assert (Hp : 1 <= 4 * Z.of_nat n / 64 / 100 < 2 ^ 32) by (split; [apply Z.div_le_lower_bound; [lia|]; apply Z.div_le_lower_bound; lia|]; rewrite Z.div_div by lia; apply Z.div_lt_upper_bound; lia). rewrite u32_small, (proj2 (Z.eqb_neq _ 0)) by lia.
  destruct (IH ds1) as (ds2 & E2 & L2 & I2 & O2); [lia|intros i Hi; apply Hin; by right|]. exists ds2. split_and!; [done|done| |].
  - intros i [->|Hi]%elem_of_cons; [|by apply I2]. destruct (decide (x ∈ order)) as [Hd|Hd]; [by apply I2|]. rewrite O2, I1, Eb by done. done.
  - intros i Hi Hni. apply not_elem_of_cons in Hni as [Hne Hni]. rewrite O2, O1 by done. done.
Qed.

(** The segments of the goroutines are all items. *)
Lemma segments_cover size threads i : 64 <= size <= 2 ^ 32 → 0 < threads <= 2 ^ 16 → i ∈ segments size threads ↔ 0 <= i < size / 64.
Proof.
  intros Hs Ht. set (batch := (size + 64 * threads - 1) / (64 * threads)).
  pose proof (Z.div_mod (size + 64 * threads - 1) (64 * threads) ltac:(lia)) as HD. pose proof (Z.mod_pos_bound (size + 64 * threads - 1) (64 * threads) ltac:(lia)) as HM. fold batch in HD.
  pose proof (Z.div_mod size 64 ltac:(lia)) as HQ. pose proof (Z.mod_pos_bound size 64 ltac:(lia)). set (Q := size / 64) in *. assert (Hb : 0 < batch) by nia. assert (Hcov : Q <= threads * batch) by nia. assert (Hfit : threads * batch <= Q + threads) by nia.
  assert (Hseg : ∀ id, 0 <= id < threads → ∀ i, i ∈ segment size threads id ↔ id * batch <= i < Z.min (id * batch + batch) Q).
  { intros id Hid j. unfold segment, hashBytes. fold batch Q. assert (id * batch + batch <= Q + threads) by nia. assert (0 <= id * batch) by nia. rewrite (u32_small batch), !u32_small by nia.
    change (map ?f ?l) with (f <$> l). rewrite list_elem_of_fmap. split; [intros (k & -> & Hk%elem_of_seq); lia|]. intros Hj. exists (Z.to_nat (j - id * batch)). split; [lia|]. apply elem_of_seq. lia. }
  unfold segments. rewrite list_elem_of_In, in_concat. split.
  - intros (l & Hl & Hi). apply in_map_iff in Hl as (k & <- & Hk%in_seq). apply list_elem_of_In, Hseg in Hi; [nia|lia].
  - intros Hi. pose proof (Z.div_mod i batch ltac:(lia)). pose proof (Z.mod_pos_bound i batch Hb). exists (segment size threads (i / batch)). split.
    + apply in_map_iff. exists (Z.to_nat (i / batch)). assert (0 <= i / batch < threads) by nia. split; [f_equal; lia|]. apply in_seq. lia.
    + apply list_elem_of_In, Hseg; nia.
Qed.

(** Whatever the order in which it was stored, the dataset holds the items. *)
Lemma dataset_holds_items threads order : 0 < threads <= 2 ^ 16 → order ≡ₚ segments (4 * Z.of_nat n) threads →
  ∃ ds, generateDataset keccak512 n cache order = Some ds ∧ length ds = n ∧ ∀ i, 0 <= i < 4 * Z.of_nat n / 64 → words <$> generateDatasetItem keccak512 cache i = Some (item_at ds i).
Proof.
  intros Ht HP. assert (Hin : ∀ i, i ∈ order ↔ 0 <= i < 4 * Z.of_nat n / 64) by (intros i; rewrite HP; apply segments_cover; lia). pose proof (Z.div_mod (4 * Z.of_nat n) 64 ltac:(lia)). pose proof (Z.mod_pos_bound (4 * Z.of_nat n) 64 ltac:(lia)).
  destruct (store_items_spec order (replicate n 0)) as (ds & E & L & I & _); [apply length_replicate|intros i Hi%Hin; lia|]. exists ds. split_and!; [exact E|done|]. intros i Hi. by apply I, Hin.
Qed.

End Items.

(** ** Hashimoto *)

Lemma mix_dataset_ext k : ∀ rows seedHead i f g mix temp, (∀ j, 0 <= j < 2 * rows → f j = g j) → 0 <= rows → 2 * rows <= 2 ^ 32 → mix_dataset k rows seedHead i f mix temp = mix_dataset k rows seedHead i g mix temp.
Proof.
  induction k as [|k IH]; intros rows seedHead i f g mix temp Hfg H0 H1; cbn [mix_dataset]; [done|]. destruct (Z.eqb_spec rows 0); [done|]. destruct (index_at mix _) as [m|]; [|done]. cbn [mbind option_bind].
  set (parent := fnv _ _ mod rows). pose proof (Z.mod_pos_bound (fnv (Z.lxor i seedHead) m) rows ltac:(lia)) as Hp. fold parent in Hp. rewrite (u32_small (2 * parent)), (u32_small (2 * parent + 1)) by lia. rewrite (Hfg (2 * parent)), (Hfg (2 * parent + 1)) by lia.
  destruct (g (2 * parent)) as [l0|]; [|done]. cbn [mbind option_bind]. destruct (copy_at temp 0 l0) as [t0|]; [|done]. cbn [mbind option_bind]. destruct (g (2 * parent + 1)) as [l1|]; [|done]. cbn [mbind option_bind]. destruct (copy_at t0 _ l1) as [t1|]; [|done]. cbn [mbind option_bind]. destruct (fnvHash mix t1) as [mix1|]; [|done]. cbn [mbind option_bind]. by apply IH.
Qed.

Lemma mix_dataset_total k : ∀ rows seedHead i f mix temp, (∀ j, 0 <= j → ∃ l, f j = Some l ∧ length l = 16%nat) → 0 < rows → 0 <= i → length mix = 32%nat → length temp = 32%nat → ∃ mix', mix_dataset k rows seedHead i f mix temp = Some mix' ∧ length mix' = 32%nat.
Proof.
  induction k as [|k IH]; intros rows seedHead i f mix temp Hf H0 Hi Hm Ht; cbn [mix_dataset]; [by exists mix|]. rewrite (proj2 (Z.eqb_neq rows 0)) by lia. unfold index_at. rewrite Hm. pose proof (Z.mod_pos_bound i (Z.of_nat 32) ltac:(lia)). rewrite (proj2 (Z.leb_le _ _)) by lia.
  destruct (lookup_lt_is_Some_2 mix (Z.to_nat (i mod Z.of_nat 32))) as [m ->]; [lia|]. cbn [mbind option_bind]. set (parent := fnv _ _ mod rows). destruct (Hf (u32 (2 * parent))) as (l0 & -> & L0); [apply u32_range|]. cbn [mbind option_bind]. rewrite (copy_at_spec temp l0 0) by lia. cbn [mbind option_bind].
  destruct (Hf (u32 (2 * parent + 1))) as (l1 & -> & L1); [apply u32_range|]. cbn [mbind option_bind]. set (t0 := take _ temp ++ _). assert (Lt : length t0 = 32%nat) by (unfold t0; rewrite !length_app, length_take, length_drop; lia). unfold hashWords. rewrite (copy_at_spec t0 l1 16) by lia. cbn [mbind option_bind].
  set (t1 := take _ t0 ++ _). assert (Lt1 : length t1 = 32%nat) by (unfold t1; rewrite !length_app, length_take, length_drop; lia). unfold fnvHash. rewrite Hm, Lt1. cbn [Nat.leb mbind option_bind]. apply IH; [done|done|lia|rewrite length_zip_with; lia|done].
Qed.

Lemma hashimoto_total hash nonce size f : (∀ j, 0 <= j → ∃ l, f j = Some l ∧ length l = 16%nat) → 0 < u32 (size / mixBytes) → ∃ digest result, hashimoto keccak512 keccak256 hash nonce size f = Some (digest, result) ∧ length digest = 32%nat.
Proof.
  intros Hf Hr. unfold hashimoto. set (seed := keccak512 _). assert (Lw : length (words seed) = 16%nat) by (apply length_words, H512). unfold Uint32. destruct (words seed) as [|w ws] eqn:Ew; [done|]. cbn [head mbind option_bind]. rewrite <- Ew in *.
  destruct (mix_dataset_total loopAccesses (u32 (size / mixBytes)) w 0 f (words seed ++ words seed) (replicate (length (words seed ++ words seed)) 0)) as (mix & -> & Lm); [done|done|lia|rewrite length_app; lia|rewrite length_replicate, length_app; lia|].
  cbn [mbind option_bind]. do 2 eexists. split; [reflexivity|]. rewrite length_unwords. do 32 (destruct mix as [|? mix]; [cbn in Lm; lia|]). destruct mix; [reflexivity|cbn in Lm; lia].
Qed.

Lemma light_full_run n cache R ds : cache_ok cache R → 6400 <= 4 * Z.of_nat n <= 2 ^ 32 → length ds = n → (∀ i, 0 <= i < 4 * Z.of_nat n / 64 → words <$> generateDatasetItem keccak512 cache i = Some (item_at ds i)) →
  ∀ hash nonce, ∃ digest result, hashimotoFull keccak512 keccak256 ds hash nonce = Some (digest, result) ∧ hashimotoLight keccak512 keccak256 (4 * Z.of_nat n) cache hash nonce = Some (digest, result) ∧ length digest = 32%nat.
Proof.
  intros Hc Hs L HI hash nonce. set (size := 4 * Z.of_nat n) in *. pose proof (Z.div_mod size 64 ltac:(lia)). pose proof (Z.mod_pos_bound size 64 ltac:(lia)). pose proof (Z.div_mod size 128 ltac:(lia)). pose proof (Z.mod_pos_bound size 128 ltac:(lia)).
  assert (Hrows : u32 (size / mixBytes) = size / 128) by (unfold mixBytes; apply u32_small; lia).
  destruct (hashimoto_total hash nonce size (λ index, words <$> generateDatasetItem keccak512 cache index)) as (digest & result & E & Ld).
  { intros j Hj. destruct (item_total cache R Hc j Hj) as (b & -> & Lb). exists (words b). split; [done|]. by apply length_words. }
  { rewrite Hrows. lia. }
  exists digest, result. split_and!; [|exact E|done]. rewrite <- E. unfold hashimotoFull, hashimoto. rewrite L. replace (Z.of_nat n * 4) with size by (unfold size; lia). destruct (Uint32 _) as [seedHead|]; [|done]. cbn [mbind option_bind].
  erewrite mix_dataset_ext; [reflexivity| |rewrite Hrows; lia|rewrite Hrows; lia]. rewrite Hrows. intros j Hj. cbv zeta. unfold hashWords. rewrite (u32_small (j * 16)), (u32_small (j * 16 + 16)) by lia. rewrite (Z.mul_comm j 16), item_slice by lia. symmetry. apply HI. lia.
Qed.

(** C24: Verifying with the small cache is verifying with the dataset: for a cache of
    any size, and a dataset of up to 4 GB that any number of goroutines
    generated from it, in whatever order they stored their items, generating
    both ends without a panic, and both computations return the same digest and
    result, for every header and nonce. *)
Theorem hashimoto_light_full R seed n threads order : 0 < R → 16 * R < 2 ^ 32 → 6400 <= 4 * Z.of_nat n <= 2 ^ 32 → 0 < threads <= 2 ^ 16 → order ≡ₚ segments (4 * Z.of_nat n) threads →
  ∃ cache dataset, generateCache keccak512 (Z.to_nat (16 * R)) seed = Some cache ∧ generateDataset keccak512 n cache order = Some dataset ∧ length dataset = n ∧
    ∀ hash nonce, ∃ digest result, hashimotoFull keccak512 keccak256 dataset hash nonce = Some (digest, result) ∧
      hashimotoLight keccak512 keccak256 (4 * Z.of_nat n) cache hash nonce = Some (digest, result) ∧ length digest = 32%nat.
Proof.
  intros H0 H1 Hs Ht HP. destruct (generateCache_ok R seed H0 H1) as (cache & Ec & Hc). destruct (dataset_holds_items cache R Hc n Hs threads order Ht HP) as (ds & E & L & HI). exists cache, ds. split_and!; [done|done|done|]. exact (light_full_run n cache R ds Hc Hs L HI).
Qed.

(** ** Beyond 4 GB *)

(** Nothing is ever stored beyond the first 4 GB: the offset of an item wraps. *)
Lemma store_items_low order : ∀ cache size ds ds', store_items keccak512 cache size order ds = Some ds' → ∀ k, (2 ^ 30 <= Z.of_nat k) → ds' !! k = ds !! k.
Proof.
  induction order as [|x order IH]; intros cache size ds ds'; cbn [store_items]; [by intros [= <-]|]. unfold store_item. destruct (generateDatasetItem keccak512 cache x) as [b|] eqn:Eb; [|done]. cbn [mbind option_bind].
  destruct (copy_at ds _ _) as [ds1|] eqn:E1; [|done]. cbn [mbind option_bind]. destruct (_ =? 0); [done|]. cbn [mbind option_bind]. intros E k Hk. rewrite (IH _ _ _ _ E k Hk). eapply copy_outside; [|exact E1|].
  - apply Z.div_pos; [apply u32_range|lia].
  - right. assert (Hb : length b = 64%nat). { unfold generateDatasetItem in Eb. destruct (_ =? 0); [done|]. destruct (cache_word _ _ _); [|done]. cbn [mbind option_bind] in Eb. destruct (cache_row _ _ _ _); [|done]. cbn [mbind option_bind] in Eb. destruct (mix_parents _ _ _ _ _ _); [|done]. injection Eb as <-. apply H512. }
    rewrite (length_words 16 b) by done. unfold hashBytes, u32. assert (HU : ∃ q, 0 <= q < 2 ^ 26 ∧ (x * 64) mod 2 ^ 32 = q * 64). { exists (x mod 2 ^ 26). split; [apply Z.mod_pos_bound; lia|]. change (2 ^ 32) with (2 ^ 26 * 64). rewrite Z.mul_mod_distr_r by lia. done. }
    destruct HU as (q & Hq & ->). replace (q * 64 / 4) with (16 * q) by (replace (q * 64) with (16 * q * 4) by lia; by rewrite Z.div_mul by lia). lia.
Qed.

(** A dataset of more than 4 GB, however it is generated, has zeros where the
    items from number 2^26 on should be. *)
Lemma dataset_beyond_4GB_empty n cache order ds i : generateDataset keccak512 n cache order = Some ds → 2 ^ 26 <= i → 16 * i + 16 <= Z.of_nat n → item_at ds i = replicate 16 0.
Proof.
  intros E Hi Hn. apply list_eq. intros k. unfold item_at. destruct (decide (k < 16)%nat) as [Hk|Hk]; [|rewrite lookup_take_ge by lia; symmetry; apply lookup_ge_None_2; rewrite length_replicate; lia].
  rewrite lookup_take_lt, lookup_drop by done. rewrite (store_items_low order _ _ _ _ E) by lia. rewrite !lookup_replicate_2 by lia. done.
Qed.

End WithKeccak.

(** ** A small instance *)

(** Stand-ins of the hashes, of the right lengths. *)
Definition demo_512 (s : bytes) : bytes := take 64 (s ++ replicate 64 Byte.x00).
Definition demo_256 (s : bytes) : bytes := replicate 32 Byte.x00.

Lemma demo_512_length s : length (demo_512 s) = 64%nat.
Proof. unfold demo_512. rewrite length_take, length_app, length_replicate. lia. Qed.

(** Two goroutines, whose items are stored backwards. *)
Lemma hashimoto_light_full_witness : ∃ cache dataset, generateCache demo_512 16 [] = Some cache ∧ generateDataset demo_512 1600 cache (reverse (segments 6400 2)) = Some dataset ∧ length dataset = 1600%nat ∧
  ∀ hash nonce, ∃ digest result, hashimotoFull demo_512 demo_256 dataset hash nonce = Some (digest, result) ∧ hashimotoLight demo_512 demo_256 6400 cache hash nonce = Some (digest, result) ∧ length digest = 32%nat.
Proof.
  apply (hashimoto_light_full demo_512 demo_256 demo_512_length 1 [] 1600 2 (reverse (segments 6400 2))); [lia|lia|lia|lia|apply reverse_Permutation].
Defined.

(** The segments of two goroutines are the 100 items. *)
Lemma demo_segments : segments 6400 2 = map Z.of_nat (seq 0 100).
Proof. vm_compute. reflexivity. Qed.

End PowClaims.
