(* ===== verification/Ethash.v ===== *)
(** * Ethash: the rules of proof-of-work chains (consensus/ethash, consensus/misc)

    Headers and their hashes, the difficulty, the checks of headers, seals and
    uncles, the preparation of headers and the rewards.

    - The chain is a record of lookups; the clock is an argument.
    - The cache and the dataset of a block number are those of the engine; a
      dataset that is still being generated is [None].
    - Messages of errors are left out. *)

From stdpp Require Import base gmap list.
From Stdlib Require Import ZArith Lia.
From S2P Require Import Prelude Rlp StateDB Pow PowTables.

Local Open Scope Z_scope.

Module Ethash.
Import Pow PowTables.

(** ** Data *)

(** core/types/block.go *)
Record Header := mk_Header {
  ParentHash : bytes; UncleHash : bytes; Coinbase : bytes; Root : bytes; TxHash : bytes; ReceiptHash : bytes; Bloom : bytes;
  Difficulty : Z; Number : Z; GasLimit : Z; GasUsed : Z; Time : Z; Extra : bytes; MixDigest : bytes; Nonce : bytes }.

Record Block := mk_Block { header : Header; Uncles : list Header }.

(** The fork blocks of params.ChainConfig the engine asks for. *)
Record ChainConfig := mk_ChainConfig {
  HomesteadBlock : option Z; DAOForkBlock : option Z; DAOForkSupport : bool; EIP150Block : option Z; EIP150Hash : bytes;
  ByzantiumBlock : option Z; ConstantinopleBlock : option Z; MuirGlacierBlock : option Z }.

Definition isForked (s : option Z) (head : Z) : bool := match s with None => false | Some s => s <=? head end.

Record ChainReader := mk_ChainReader {
  Config : ChainConfig; GetHeader : bytes → Z → option Header; GetBlock : bytes → Z → option Block }.

Inductive Mode := ModeNormal | ModeShared | ModeTest | ModeFake | ModeFullFake.

Inductive Engine := mk_Engine {
  PowMode : Mode; fakeFail : Z; cache_of : Z → list Z; dataset_of : Z → option (list Z); shared : option Engine }.

Inductive ethash_error :=
  | errOlderBlockTime | errTooManyUncles | errDuplicateUncle | errUncleIsAncestor | errDanglingUncle | errInvalidDifficulty
  | errInvalidMixDigest | errInvalidPoW | ErrUnknownAncestor | ErrFutureBlock | errExtraTooLong | errWrongDifficulty
  | ErrBadProDAOExtra | ErrBadNoDAOExtra | errForkHash.

Abbreviation ER := (outcome ethash_error).

(** ** The difficulty *)

Definition DifficultyBoundDivisor : Z := 2048.
Definition MinimumDifficulty : Z := 131072.
Definition DurationLimit : Z := 13.
Definition expDiffPeriod : Z := 100000.

(** The exponential factor. *)
Definition add_bomb (x periodCount : Z) : Z := if 1 <? periodCount then x + 2 ^ (periodCount - 2) else x.

Section WithKeccak.
Context (keccak512 keccak256 : bytes → bytes).

Definition EmptyUncleHash : bytes := keccak256 (match Rlp.EncodeToBytes (Rlp.VList []) with Ret b => b | _ => [] end).

Definition makeDifficultyCalculator (bombDelay : Z) (time : Z) (parent : Header) : Z :=
  let bombDelayFromParent := bombDelay - 1 in
  let x := (time - Time parent) / 9 in
  let x := if decide (UncleHash parent = EmptyUncleHash) then 1 - x else 2 - x in
  let x := if x <? -99 then -99 else x in
  let y := Difficulty parent / DifficultyBoundDivisor in
  let x := Difficulty parent + y * x in
  let x := if x <? MinimumDifficulty then MinimumDifficulty else x in
  let fakeBlockNumber := if bombDelayFromParent <=? Number parent then Number parent - bombDelayFromParent else 0 in
  add_bomb x (fakeBlockNumber / expDiffPeriod).

Definition calcDifficultyEip2384 := makeDifficultyCalculator 9000000.
Definition calcDifficultyConstantinople := makeDifficultyCalculator 5000000.
Definition calcDifficultyByzantium := makeDifficultyCalculator 3000000.

Definition calcDifficultyHomestead (time : Z) (parent : Header) : Z :=
  let x := (time - Time parent) / 10 in
  let x := 1 - x in
  let x := if x <? -99 then -99 else x in
  let y := Difficulty parent / DifficultyBoundDivisor in
  let x := Difficulty parent + y * x in
  let x := if x <? MinimumDifficulty then MinimumDifficulty else x in
  add_bomb x ((Number parent + 1) / expDiffPeriod).

Definition calcDifficultyFrontier (time : Z) (parent : Header) : Z :=
  let adjust := Difficulty parent / DifficultyBoundDivisor in
  let diff := if time - Time parent <? DurationLimit then Difficulty parent + adjust else Difficulty parent - adjust in
  let diff := if diff <? MinimumDifficulty then MinimumDifficulty else diff in
  let periodCount := (Number parent + 1) / expDiffPeriod in
  if 1 <? periodCount then Z.max (diff + 2 ^ (periodCount - 2)) MinimumDifficulty else diff.

Definition CalcDifficulty (config : ChainConfig) (time : Z) (parent : Header) : Z :=
  let next := Number parent + 1 in
  if isForked (MuirGlacierBlock config) next then calcDifficultyEip2384 time parent
  else if isForked (ConstantinopleBlock config) next then calcDifficultyConstantinople time parent
  else if isForked (ByzantiumBlock config) next then calcDifficultyByzantium time parent
  else if isForked (HomesteadBlock config) next then calcDifficultyHomestead time parent
  else calcDifficultyFrontier time parent.

(** ** Hashes *)

Definition rlpHash (v : Rlp.Value) : bytes := keccak256 (match Rlp.EncodeToBytes v with Ret b => b | _ => [] end).

(** The fields of a header up to [Extra]. *)
Definition sealed_fields (h : Header) : list Rlp.Value :=
  [Rlp.VBytes (ParentHash h); Rlp.VBytes (UncleHash h); Rlp.VBytes (Coinbase h); Rlp.VBytes (Root h); Rlp.VBytes (TxHash h); Rlp.VBytes (ReceiptHash h); Rlp.VBytes (Bloom h);
   Rlp.VBigInt (Difficulty h); Rlp.VBigInt (Number h); Rlp.VUint (GasLimit h); Rlp.VUint (GasUsed h); Rlp.VUint (Time h); Rlp.VBytes (Extra h)].

Definition Hash (h : Header) : bytes := rlpHash (Rlp.VList (sealed_fields h ++ [Rlp.VBytes (MixDigest h); Rlp.VBytes (Nonce h)])).

Definition SealHash (h : Header) : bytes := rlpHash (Rlp.VList (sealed_fields h)).

(** ** Seals *)

Definition EncodeNonce (i : Z) : bytes := fixed_be 8 i.
Definition nonce_Uint64 (n : bytes) : Z := be_decode n.

(** [hashimoto] for a header: the full dataset where it is asked for and there. *)
Definition pow_of (e : Engine) (h : Header) (fulldag : bool) : option (bytes * bytes) :=
  let number := u64 (Number h) in
  let hash := SealHash h in
  let nonce := nonce_Uint64 (Nonce h) in
  match (if fulldag then dataset_of e number else None) with
  | Some dataset => hashimotoFull keccak512 keccak256 dataset hash nonce
  | None =>
      let size := match PowMode e with ModeTest => 32 * 1024 | _ => datasetSize number end in
      hashimotoLight keccak512 keccak256 size (cache_of e number) hash nonce
  end.

Fixpoint verifySeal (e : Engine) (h : Header) (fulldag : bool) : ER unit :=
  match PowMode e with
  | ModeFake | ModeFullFake => if fakeFail e =? u64 (Number h) then Err errInvalidPoW else Ret tt
  | _ =>
      match shared e with
      | Some e => verifySeal e h fulldag
      | None =>
          if Difficulty h <=? 0 then Err errInvalidDifficulty
          else
            match pow_of e h fulldag with
            | None => Panic
            | Some (digest, result) =>
                if decide (MixDigest h = digest) then
                  if two256 / Difficulty h <? be_decode result then Err errInvalidPoW else Ret tt
                else Err errInvalidMixDigest
            end
      end
  end.

Definition VerifySeal (e : Engine) (h : Header) : ER unit := verifySeal e h false.

(** The miner: [None] when it is aborted after [fuel] attempts. *)
Definition mine (fuel : nat) (dataset : list Z) (h : Header) (seed : Z) : option (option Header) :=
  r ← search keccak512 keccak256 fuel dataset (SealHash h) (two256 / Difficulty h) seed;
  Some ('(nonce, digest) ← r;
    Some (mk_Header (ParentHash h) (UncleHash h) (Coinbase h) (Root h) (TxHash h) (ReceiptHash h) (Bloom h) (Difficulty h) (Number h) (GasLimit h) (GasUsed h) (Time h) (Extra h)
      digest (EncodeNonce nonce))).

(** ** Forks (consensus/misc) *)

Definition MaximumExtraDataSize : Z := 32.
Definition DAOForkExtraRange : Z := 10.

(** The text dao-hard-fork. *)
Definition DAOForkBlockExtra : bytes := map z2b [100; 97; 111; 45; 104; 97; 114; 100; 45; 102; 111; 114; 107].

Definition VerifyDAOHeaderExtraData (config : ChainConfig) (h : Header) : ER unit :=
  match DAOForkBlock config with
  | None => Ret tt
  | Some fork =>
      let limit := fork + DAOForkExtraRange in
      if (Number h <? fork) || (limit <=? Number h) then Ret tt
      else if DAOForkSupport config then (if decide (Extra h = DAOForkBlockExtra) then Ret tt else Err ErrBadProDAOExtra)
      else (if decide (Extra h = DAOForkBlockExtra) then Err ErrBadNoDAOExtra else Ret tt)
  end.

Definition VerifyForkHashes (config : ChainConfig) (h : Header) (uncle : bool) : ER unit :=
  if uncle then Ret tt
  else
    match EIP150Block config with
    | Some n =>
        if n =? Number h then
          if decide (EIP150Hash config ≠ replicate 32 Byte.x00 ∧ EIP150Hash config ≠ Hash h) then Err errForkHash else Ret tt
        else Ret tt
    | None => Ret tt
    end.

(** ** Headers *)

Definition allowedFutureBlockTime : Z := 15.

(** The checks of the gas limit, the gas used and the number are commented
    out. *)
Definition verifyHeader (e : Engine) (chain : ChainReader) (now : Z) (h parent : Header) (uncle seal : bool) : ER unit :=
  if MaximumExtraDataSize <? Z.of_nat (length (Extra h)) then Err errExtraTooLong
  else if negb uncle && (u64 (now + allowedFutureBlockTime) <? Time h) then Err ErrFutureBlock
  else if Time h <=? Time parent then Err errOlderBlockTime
  else if negb (CalcDifficulty (Config chain) (Time h) parent =? Difficulty h) then Err errWrongDifficulty
  else
    _ ← (if seal then VerifySeal e h else Ret tt);
    _ ← VerifyDAOHeaderExtraData (Config chain) h;
    VerifyForkHashes (Config chain) h uncle.

Definition VerifyHeader (e : Engine) (chain : ChainReader) (now : Z) (h : Header) (seal : bool) : ER unit :=
  match PowMode e with
  | ModeFullFake => Ret tt
  | _ =>
      let number := u64 (Number h) in
      match GetHeader chain (Hash h) number with
      | Some _ => Ret tt
      | None =>
          match GetHeader chain (ParentHash h) (u64 (number - 1)) with
          | None => Err ErrUnknownAncestor
          | Some parent => verifyHeader e chain now h parent false seal
          end
      end
  end.

(** One header of a batch. *)
Definition verifyHeaderWorker (e : Engine) (chain : ChainReader) (now : Z) (headers : list Header) (seals : list bool) (index : nat) : ER unit :=
  match headers !! index, seals !! index with
  | Some h, Some seal =>
      let parent :=
        match index with
        | O => GetHeader chain (ParentHash h) (u64 (u64 (Number h) - 1))
        | S i => match headers !! i with Some p => if decide (Hash p = ParentHash h) then Some p else None | None => None end
        end in
      match parent with
      | None => Err ErrUnknownAncestor
      | Some parent =>
          match GetHeader chain (Hash h) (u64 (Number h)) with
          | Some _ => Ret tt
          | None => verifyHeader e chain now h parent false seal
          end
      end
  | _, _ => Panic
  end.

(** The results are sent in the order of the headers. *)
Definition VerifyHeaders (e : Engine) (chain : ChainReader) (now : Z) (headers : list Header) (seals : list bool) : list (ER unit) :=
  match PowMode e with
  | ModeFullFake => (λ _, Ret tt) <$> headers
  | _ => (λ i, verifyHeaderWorker e chain now headers seals i) <$> seq 0 (length headers)
  end.

(** ** Uncles *)

Definition maxUncles : nat := 2.

(** The headers of the last generations, and the uncles they included. *)
Fixpoint gather (n : nat) (chain : ChainReader) (parent : bytes) (number : Z) (ancestors : gmap bytes Header) (uncles : gset bytes) : gmap bytes Header * gset bytes :=
  match n with
  | O => (ancestors, uncles)
  | S n =>
      match GetBlock chain parent number with
      | None => (ancestors, uncles)
      | Some ancestor =>
          gather n chain (ParentHash (header ancestor)) (u64 (number - 1)) (<[Hash (header ancestor) := header ancestor]> ancestors)
            (list_to_set (Hash <$> Uncles ancestor) ∪ uncles)
      end
  end.

Fixpoint verify_each (e : Engine) (chain : ChainReader) (now : Z) (block : Block) (ancestors : gmap bytes Header) (us : list Header) (uncles : gset bytes) : ER unit :=
  match us with
  | [] => Ret tt
  | uncle :: us =>
      let hash := Hash uncle in
      if decide (hash ∈ uncles) then Err errDuplicateUncle
      else if decide (is_Some (ancestors !! hash)) then Err errUncleIsAncestor
      else
        match ancestors !! ParentHash uncle with
        | None => Err errDanglingUncle
        | Some parent =>
            if decide (ParentHash uncle = ParentHash (header block)) then Err errDanglingUncle
            else
              _ ← verifyHeader e chain now uncle parent true true;
              verify_each e chain now block ancestors us ({[hash]} ∪ uncles)
        end
  end.

Definition VerifyUncles (e : Engine) (chain : ChainReader) (now : Z) (block : Block) : ER unit :=
  match PowMode e with
  | ModeFullFake => Ret tt
  | _ =>
      if (maxUncles <? length (Uncles block))%nat then Err errTooManyUncles
      else
        match Uncles block with
        | [] => Ret tt
        | us =>
            let '(ancestors, uncles) := gather 7 chain (ParentHash (header block)) (u64 (u64 (Number (header block)) - 1)) ∅ ∅ in
            let self := Hash (header block) in
            verify_each e chain now block (<[self := header block]> ancestors) us ({[self]} ∪ uncles)
        end
  end.

(** ** New blocks *)

Definition set_Difficulty (h : Header) (d : Z) : Header :=
  mk_Header (ParentHash h) (UncleHash h) (Coinbase h) (Root h) (TxHash h) (ReceiptHash h) (Bloom h) d (Number h) (GasLimit h) (GasUsed h) (Time h) (Extra h) (MixDigest h) (Nonce h).

Definition Prepare (chain : ChainReader) (h : Header) : ER Header :=
  match GetHeader chain (ParentHash h) (u64 (u64 (Number h) - 1)) with
  | None => Err ErrUnknownAncestor
  | Some parent => Ret (set_Difficulty h (CalcDifficulty (Config chain) (Time h) parent))
  end.

Definition FrontierBlockReward : Z := 5 * 10 ^ 18.
Definition ByzantiumBlockReward : Z := 3 * 10 ^ 18.
Definition ConstantinopleBlockReward : Z := 2 * 10 ^ 18.

Definition block_reward (config : ChainConfig) (number : Z) : Z :=
  if isForked (ConstantinopleBlock config) number then ConstantinopleBlockReward
  else if isForked (ByzantiumBlock config) number then ByzantiumBlockReward
  else FrontierBlockReward.

Definition uncle_reward (blockReward number : Z) (uncle : Header) : Z := (Number uncle + 8 - number) * blockReward / 8.

Definition address (b : bytes) : Z := be_decode b.

Section WithState.
Import StateDB.
Context `{StateDB.Backend}.

Fixpoint reward_uncles (blockReward number : Z) (uncles : list Header) (reward : Z) : StateDB.SM Z :=
  match uncles with
  | [] => mret reward
  | uncle :: uncles =>
      StateDB.AddBalance (address (Coinbase uncle)) (uncle_reward blockReward number uncle);;
      reward_uncles blockReward number uncles (reward + blockReward / 32)
  end.

Definition accumulateRewards (config : ChainConfig) (h : Header) (uncles : list Header) : StateDB.SM unit :=
  let blockReward := block_reward config (Number h) in
  reward ← reward_uncles blockReward (Number h) uncles blockReward;
  StateDB.AddBalance (address (Coinbase h)) reward.

End WithState.
End WithKeccak.
End Ethash.
