(* ===== verification/EthashClaims.v ===== *)
(** * EthashClaims: difficulty, uncles and mined blocks

    Bounds of the difficulty, what accepted uncles are (and what they need not
    be), and that the header a miner prepares and seals is accepted. *)

From stdpp Require Import base gmap list.
From Stdlib Require Import ZArith Lia.
From S2P Require Import Prelude Rlp Pow PowTables PowClaims Ethash.

Local Open Scope Z_scope.

Module EthashClaims.
Import Pow PowTables PowClaims Ethash.

Section WithKeccak.
Context (keccak512 keccak256 : bytes → bytes).

(** ** The difficulty *)

(** The value before the exponential factor: the parent's, changed by a
    multiple [k] of a 2048th, and at least the minimum. *)
Definition adjusted (D k : Z) : Z := Z.max MinimumDifficulty (D + D / 2048 * k).

Lemma adjusted_mono D k k' : 0 <= D → k <= k' → adjusted D k <= adjusted D k'.
Proof. intros HD Hk. unfold adjusted. pose proof (Z.div_pos D 2048 HD ltac:(lia)). nia. Qed.

Lemma if_max x y : (if x <? y then y else x) = Z.max y x.
Proof. destruct (Z.ltb_spec x y); lia. Qed.

(** The bomb is positive, and at most that of the block number. *)
Lemma bomb_range (x p N : Z) : 0 <= N → p <= (N + 1) / 100000 → x <= add_bomb x p <= x + 2 ^ ((N + 1) / 100000).
Proof.
  intros HN Hp. unfold add_bomb. assert (0 <= (N + 1) / 100000) by (apply Z.div_pos; lia). destruct (Z.ltb_spec 1 p); [|pose proof (Z.pow_nonneg 2 ((N + 1) / 100000)); lia].
  pose proof (Z.pow_nonneg 2 (p - 2)). pose proof (Z.pow_le_mono_r 2 (p - 2) ((N + 1) / 100000) ltac:(lia) ltac:(lia)). lia.
Qed.

(** All calculators: a multiple that depends on the time, and a bomb that does
    not. *)
Record calculator (f : Z → Z) (parent : Header) : Prop := {
  ca_form : ∃ k p, (∀ t, f t = add_bomb (adjusted (Difficulty parent) (k t)) p) ∧ p <= (Number parent + 1) / 100000 ∧
    (∀ t t', t <= t' → k t' <= k t) ∧ (∀ t, Time parent <= t → -99 <= k t <= 2);
}.

Lemma byzantium_calculator d parent : 1 <= d → 0 <= Number parent → calculator (λ t, makeDifficultyCalculator keccak256 d t parent) parent.
Proof.
  intros Hd HN. split. set (b := if decide (UncleHash parent = EmptyUncleHash keccak256) then 1 else 2). exists (λ t, Z.max (-99) (b - (t - Time parent) / 9)), ((if d - 1 <=? Number parent then Number parent - (d - 1) else 0) / 100000). split_and!.
  - intros t. unfold makeDifficultyCalculator, adjusted, expDiffPeriod, DifficultyBoundDivisor, b. rewrite !if_max. by case_decide.
  - apply Z.div_le_mono; [lia|]. destruct (Z.leb_spec (d - 1) (Number parent)); lia.
  - intros t t' Ht. pose proof (Z.div_le_mono (t - Time parent) (t' - Time parent) 9 ltac:(lia) ltac:(lia)). lia.
  - intros t Ht. pose proof (Z.div_pos (t - Time parent) 9 ltac:(lia) ltac:(lia)). assert (b <= 2) by (unfold b; case_decide; lia). lia.
Qed.

Lemma homestead_calculator parent : 0 <= Number parent → calculator (λ t, calcDifficultyHomestead t parent) parent.
Proof.
  intros HN. split. exists (λ t, Z.max (-99) (1 - (t - Time parent) / 10)), ((Number parent + 1) / 100000). split_and!.
  - intros t. unfold calcDifficultyHomestead, adjusted, expDiffPeriod, DifficultyBoundDivisor. by rewrite !if_max.
  - lia.
  - intros t t' Ht. pose proof (Z.div_le_mono (t - Time parent) (t' - Time parent) 10 ltac:(lia) ltac:(lia)). lia.
  - intros t Ht. pose proof (Z.div_pos (t - Time parent) 10 ltac:(lia) ltac:(lia)). lia.
Qed.

Lemma frontier_calculator parent : 0 <= Number parent → calculator (λ t, calcDifficultyFrontier t parent) parent.
Proof.
  intros HN. split. exists (λ t, if t - Time parent <? 13 then 1 else -1), ((Number parent + 1) / 100000). split_and!.
  - intros t. unfold calcDifficultyFrontier, adjusted, add_bomb, expDiffPeriod, DifficultyBoundDivisor, DurationLimit. rewrite if_max. set (x := if t - Time parent <? 13 then Difficulty parent + _ else _). assert (Ex : x = Difficulty parent + Difficulty parent / 2048 * (if t - Time parent <? 13 then 1 else -1)) by (unfold x; destruct (_ <? 13); lia). rewrite <- Ex.
    destruct (Z.ltb_spec 1 ((Number parent + 1) / 100000)); [|done]. pose proof (Z.pow_nonneg 2 ((Number parent + 1) / 100000 - 2)). lia.
  - lia.
  - intros t t' Ht. destruct (Z.ltb_spec (t' - Time parent) 13), (Z.ltb_spec (t - Time parent) 13); lia.
  - intros t Ht. destruct (_ <? 13); lia.
Qed.

Lemma CalcDifficulty_calculator config parent : 0 <= Number parent → calculator (λ t, CalcDifficulty keccak256 config t parent) parent.
Proof.
  intros HN. unfold CalcDifficulty. destruct (isForked (MuirGlacierBlock config) _); [by apply byzantium_calculator|]. destruct (isForked (ConstantinopleBlock config) _); [by apply byzantium_calculator|].
  destruct (isForked (ByzantiumBlock config) _); [by apply byzantium_calculator|]. destruct (isForked (HomesteadBlock config) _); [by apply homestead_calculator|by apply frontier_calculator].
Qed.

Lemma difficulty_min config t parent : 0 <= Number parent → MinimumDifficulty <= CalcDifficulty keccak256 config t parent.
Proof.
  intros HN. destruct (CalcDifficulty_calculator config parent HN) as [(k & p & Hf & Hp & _)]. rewrite Hf. pose proof (bomb_range (adjusted (Difficulty parent) (k t)) p _ HN Hp). unfold adjusted in *. lia.
Qed.

(** C27: Under the rules of every fork the difficulty of a block is at least the
    minimum; it falls by at most 99 2048ths of its parent's and rises by at
    most two, but for the exponential factor; and it is the lower the later
    the block. *)
Theorem difficulty_bounds config t parent : 0 <= Difficulty parent → 0 <= Number parent → Time parent <= t →
  let D := Difficulty parent in let d := CalcDifficulty keccak256 config t parent in
  MinimumDifficulty <= d ∧ D - 99 * (D / 2048) <= d <= Z.max MinimumDifficulty (D + 2 * (D / 2048)) + 2 ^ ((Number parent + 1) / 100000) ∧
  ∀ t', t <= t' → CalcDifficulty keccak256 config t' parent <= d.
Proof.
  intros HD HN Ht D d. destruct (CalcDifficulty_calculator config parent HN) as [(k & p & Hf & Hp & Hm & Hk)]. unfold d. split; [by apply difficulty_min|]. rewrite Hf. pose proof (bomb_range (adjusted D (k t)) p _ HN Hp) as HB. pose proof (Hk t Ht). split.
  - pose proof (adjusted_mono D (-99) (k t) HD ltac:(lia)). pose proof (adjusted_mono D (k t) 2 HD ltac:(lia)). unfold adjusted, D in *. lia.
  - intros t' Ht'. rewrite Hf. pose proof (adjusted_mono D (k t') (k t) HD (Hm t t' Ht')). fold D. unfold add_bomb. destruct (1 <? p); lia.
Qed.

(** ** Uncles *)

Abbreviation HashOf := (Ethash.Hash keccak256).

(** The [k]-th ancestor of a block: the parent is the first. *)
Fixpoint generation (chain : ChainReader) (parent : bytes) (number : Z) (k : nat) : option Block :=
  match k with
  | O => None
  | S O => GetBlock chain parent number
  | S k => a ← GetBlock chain parent number; generation chain (ParentHash (header a)) (u64 (number - 1)) k
  end.

Lemma gather_sound n : ∀ chain parent number A U A' U', gather keccak256 n chain parent number A U = (A', U') →
  (∀ h x, A' !! h = Some x → A !! h = Some x ∨ ∃ k a, (1 <= k <= n)%nat ∧ generation chain parent number k = Some a ∧ x = header a ∧ h = HashOf x) ∧
  (∀ k a, (1 <= k <= n)%nat → generation chain parent number k = Some a → is_Some (A' !! HashOf (header a)) ∧ ∀ u, u ∈ Uncles a → HashOf u ∈ U') ∧ (∀ h, is_Some (A !! h) → is_Some (A' !! h)) ∧ U ⊆ U'.
Proof.
  induction n as [|n IH]; intros chain parent number A U A' U'; cbn [gather].
  - intros [= <- <-]. split_and!; [auto|lia|done|done].
  - destruct (GetBlock chain parent number) as [a|] eqn:Ea; [|intros [= <- <-]; split_and!; [auto| |done|done]; intros [|[|k]] b Hk; [lia|cbn; by rewrite Ea|cbn; by rewrite Ea]].
    intros E. destruct (IH _ _ _ _ _ _ _ E) as (I1 & I2 & I3 & I4). split_and!.
    + intros h x Hx. destruct (I1 h x Hx) as [Hin|(k & b & Hk & Hb & -> & ->)].
      * apply lookup_insert_Some in Hin as [[<- <-]|[_ Hin]]; [|by left]. right. exists 1%nat, a. split_and!; [lia|lia|exact Ea|done|done].
      * right. exists (S k), b. split_and!; [lia|lia| |done|done]. cbn. rewrite Ea. destruct k; [lia|]. exact Hb.
    + intros [|[|k]] b Hk; [lia|cbn; rewrite Ea; intros [= <-]|intros Hb; cbn in Hb; rewrite Ea in Hb; apply (I2 (S k)); [lia|exact Hb]].
      split; [apply I3; rewrite lookup_insert_eq; eauto|]. intros u Hu. apply I4, elem_of_union. left. apply elem_of_list_to_set. by apply list_elem_of_fmap_2.
    + intros h Hh. apply I3. destruct (decide (HashOf (header a) = h)) as [<-|Hne]; [rewrite lookup_insert_eq; eauto|by rewrite lookup_insert_ne].
    + etrans; [|exact I4]. apply union_subseteq_r.
Qed.

(** What the loop over the uncles has checked. *)
Lemma verify_each_sound e chain now block A us : ∀ U, verify_each keccak512 keccak256 e chain now block A us U = Ret tt →
  NoDup (HashOf <$> us) ∧ ∀ u, u ∈ us → HashOf u ∉ U ∧ A !! HashOf u = None ∧ ParentHash u ≠ ParentHash (header block) ∧ ∃ parent, A !! ParentHash u = Some parent ∧ verifyHeader keccak512 keccak256 e chain now u parent true true = Ret tt.
Proof.
  induction us as [|u us IH]; intros U; cbn [verify_each]; [intros _; split; [constructor|by intros u ?%not_elem_of_nil]|]. case_decide as HU; [done|]. case_decide as HA; [done|]. destruct (A !! ParentHash u) as [parent|] eqn:Ep; [|done]. case_decide as HP; [done|].
  destruct (verifyHeader _ _ _ _ _ _ _ _ _) as [[]| |] eqn:EV; [|done|done]. cbn. intros HR. destruct (IH _ HR) as [Hnd Hall]. split.
  - cbn. constructor; [|done]. intros (v & E & Hv)%list_elem_of_fmap. destruct (Hall v Hv) as [Hn _]. apply Hn. rewrite <- E. set_solver.
  - intros v [->|Hv]%elem_of_cons; [split_and!; [done|by apply eq_None_not_Some|done|eauto]|]. destruct (Hall v Hv) as (Hn & H2 & H3 & H4). split_and!; [set_solver|done|done|done].
Qed.

(** The checks of a header that passed. *)
Lemma verifyHeader_sound e chain now h parent uncle seal : verifyHeader keccak512 keccak256 e chain now h parent uncle seal = Ret tt →
  Z.of_nat (length (Extra h)) <= 32 ∧ Time parent < Time h ∧ Difficulty h = CalcDifficulty keccak256 (Config chain) (Time h) parent ∧ (seal = true → VerifySeal keccak512 keccak256 e h = Ret tt).
Proof.
  unfold verifyHeader, MaximumExtraDataSize. destruct (Z.ltb_spec 32 (Z.of_nat (length (Extra h)))); [done|]. destruct (_ && _); [done|]. destruct (Z.leb_spec (Time h) (Time parent)); [done|]. destruct (Z.eqb_spec (CalcDifficulty keccak256 (Config chain) (Time h) parent) (Difficulty h)) as [E|]; [|done]. cbn [negb].
  destruct seal; [destruct (VerifySeal keccak512 keccak256 e h) as [[]| |]; done|done].
Qed.

(** C26: Unless the engine accepts everything (full fake mode), uncles that are
    accepted are at most two and different; none of them is the block itself, an
    ancestor of the last seven generations or an uncle one of these included;
    none has the parent of the block as its parent. The parent of each is one
    of these ancestors or the block itself (the code admits that too, though no
    block can contain the hash of its own child), and it is later than its
    parent, with the difficulty that follows from it and a seal that verifies.
    Nothing is said about its number. *)
Theorem accepted_uncles e chain now block : PowMode e ≠ ModeFullFake → VerifyUncles keccak512 keccak256 e chain now block = Ret tt →
  (length (Uncles block) <= 2)%nat ∧ NoDup (HashOf <$> Uncles block) ∧ ∀ u, u ∈ Uncles block →
    let older k := generation chain (ParentHash (header block)) (u64 (u64 (Number (header block)) - 1)) k in
    HashOf u ≠ HashOf (header block) ∧ (∀ k a, (1 <= k <= 7)%nat → older k = Some a → HashOf u ≠ HashOf (header a) ∧ HashOf u ∉ HashOf <$> Uncles a) ∧
    ParentHash u ≠ ParentHash (header block) ∧
    ∃ parent, ParentHash u = HashOf parent ∧ (parent = header block ∨ ∃ k a, (1 <= k <= 7)%nat ∧ older k = Some a ∧ parent = header a) ∧
      Time parent < Time u ∧ Difficulty u = CalcDifficulty keccak256 (Config chain) (Time u) parent ∧ VerifySeal keccak512 keccak256 e u = Ret tt.
Proof.
  intros Hmode HV. assert (HV' : (length (Uncles block) <= 2)%nat ∧ (Uncles block = [] ∨ ∃ A U, gather keccak256 7 chain (ParentHash (header block)) (u64 (u64 (Number (header block)) - 1)) ∅ ∅ = (A, U) ∧
    verify_each keccak512 keccak256 e chain now block (<[HashOf (header block) := header block]> A) (Uncles block) ({[HashOf (header block)]} ∪ U) = Ret tt)).
  { unfold VerifyUncles, maxUncles in HV. destruct (PowMode e); try done; (destruct (Nat.ltb_spec 2 (length (Uncles block))); [done|]; split; [lia|]; destruct (Uncles block) as [|u us]; [by left|right]; destruct (gather keccak256 7 chain _ _ ∅ ∅) as [A U]; by exists A, U). }
  clear HV. destruct HV' as [Hl [E0|(A & U & EG & HV)]]; [rewrite E0; split_and!; [cbn; lia|constructor|by intros u ?%not_elem_of_nil]|]. destruct (gather_sound 7 _ _ _ _ _ _ _ EG) as (G1 & G2 & _ & _). destruct (verify_each_sound _ _ _ _ _ _ _ HV) as [Hnd Hall]. split_and!; [done|done|].
  intros u Hu older. destruct (Hall u Hu) as (HU & HA & HP & parent & Hp & HH). apply lookup_insert_None in HA as [HA HA']. split_and!; [set_solver| |done|].
  - intros k a Hk Ha. destruct (G2 k a Hk Ha) as [[x Hx] Hun]. split; [intros E; rewrite E, Hx in HA; done|]. intros (v & E & Hv)%list_elem_of_fmap. apply HU. rewrite E. apply elem_of_union. right. by apply Hun.
  - destruct (verifyHeader_sound _ _ _ _ _ _ _ HH) as (_ & HT & HDf & HS). exists parent. apply lookup_insert_Some in Hp as [[E <-]|[_ Hp]]; [split_and!; [done|by left|done|done|by apply HS]|].
    destruct (G1 _ _ Hp) as [?%lookup_empty_Some|(k & a & Hk & Ha & -> & E)]; [done|]. split_and!; [done|right; by exists k, a|done|done|by apply HS].
Qed.

(** ** Mined blocks *)

Context (H512 : ∀ s, length (keccak512 s) = 64%nat).

Lemma nonce_found fuel : ∀ ds hash target nonce n digest, is_u64 nonce → search keccak512 keccak256 fuel ds hash target nonce = Some (Some (n, digest)) →
  is_u64 n ∧ ∃ result, hashimotoFull keccak512 keccak256 ds hash n = Some (digest, result) ∧ be_decode result <= target.
Proof.
  induction fuel as [|fuel IH]; intros ds hash target nonce n digest Hn; cbn [search]; [done|]. destruct (hashimotoFull keccak512 keccak256 ds hash nonce) as [[dg res]|] eqn:E; [|done]. cbn [mbind option_bind]. destruct (Z.leb_spec (be_decode res) target); [|apply IH, u64_range].
  intros [= <- <-]. eauto.
Qed.

Lemma nonce_roundtrip n : is_u64 n → nonce_Uint64 (EncodeNonce n) = n.
Proof. intros Hn. unfold nonce_Uint64, EncodeNonce. rewrite be_decode_fixed. apply Z.mod_small. exact Hn. Qed.

(** The size of the dataset of an engine. *)
Definition pow_size (e : Engine) (number : Z) : Z := match PowMode e with ModeTest => 32 * 1024 | _ => datasetSize number end.

(** An engine whose cache and dataset for a block number were generated, as the
    functions of the proof of work do it, in some order. *)
Record generated (e : Engine) (number : Z) (ds : list Z) : Prop := {
  ge_mode : PowMode e = ModeNormal ∨ PowMode e = ModeTest;
  ge_own : shared e = None;
  ge_full : dataset_of e number = Some ds ∨ dataset_of e number = None;
  ge_cache : ∃ R seed, 0 < R ∧ 16 * R < 2 ^ 32 ∧ generateCache keccak512 (Z.to_nat (16 * R)) seed = Some (cache_of e number);
  ge_dataset : ∃ threads order, 0 < threads <= 2 ^ 16 ∧ order ≡ₚ segments (pow_size e number) threads ∧ generateDataset keccak512 (Z.to_nat (pow_size e number / 4)) (cache_of e number) order = Some ds;
  ge_size : 6400 <= pow_size e number <= 2 ^ 32 ∧ pow_size e number mod 4 = 0;
}.

Lemma generated_agrees e number ds hash nonce : generated e number ds → ∃ digest result, hashimotoFull keccak512 keccak256 ds hash nonce = Some (digest, result) ∧ hashimotoLight keccak512 keccak256 (pow_size e number) (cache_of e number) hash nonce = Some (digest, result).
Proof.
  intros [_ _ _ (R & seed & H0 & H1 & Ec) (threads & order & Ht & HP & Ed) (Hs & Hm)]. destruct (generateCache_ok keccak512 H512 R seed H0 H1) as (cache & Ec' & Hc). rewrite Ec in Ec'. injection Ec' as <-. set (n := Z.to_nat (pow_size e number / 4)) in *.
  assert (En : 4 * Z.of_nat n = pow_size e number) by (pose proof (Z.div_mod (pow_size e number) 4 ltac:(lia)); pose proof (Z.div_pos (pow_size e number) 4 ltac:(lia) ltac:(lia)); unfold n; lia).
  destruct (dataset_holds_items keccak512 H512 (cache_of e number) R Hc n ltac:(lia) threads order Ht) as (ds' & Ed' & L & HI); [by rewrite En|]. rewrite Ed in Ed'. injection Ed' as <-.
  destruct (light_full_run keccak512 keccak256 H512 n (cache_of e number) R ds Hc ltac:(lia) L HI hash nonce) as (dg & r & E1 & E2 & _). rewrite En in E2. eauto.
Qed.

(** A header that is mined verifies, with the cache and with the dataset. *)
Lemma mined_seal e h ds fuel seed h' fulldag : generated e (u64 (Number h)) ds → 0 < Difficulty h → is_u64 seed → mine keccak512 keccak256 fuel ds h seed = Some (Some h') → verifySeal keccak512 keccak256 e h' fulldag = Ret tt.
Proof.
  intros HG HD Hs Hm. unfold mine in Hm. destruct (search _ _ _ _ _ _ _) as [[[n digest]|]|] eqn:ES; [|done|done]. cbn in Hm. injection Hm as <-. destruct (nonce_found _ _ _ _ _ _ _ Hs ES) as (Hn & result & E & Hle).
  set (h' := mk_Header _ _ _ _ _ _ _ _ _ _ _ _ _ _ _). assert (EP : pow_of keccak512 keccak256 e h' fulldag = Some (digest, result)).
  { unfold pow_of. change (Number h') with (Number h). change (SealHash keccak256 h') with (SealHash keccak256 h). change (Nonce h') with (EncodeNonce n). rewrite (nonce_roundtrip n Hn). destruct (generated_agrees e (u64 (Number h)) ds (SealHash keccak256 h) n HG) as (dg & r & E1 & E2). rewrite E in E1. injection E1 as <- <-.
    destruct (ge_full _ _ _ HG) as [-> | ->]; destruct fulldag; try done; fold (pow_size e (u64 (Number h))); exact E2. }
  destruct e as [mode ff co dof sh]. destruct HG as [Hmode Hown _ _ _ _]. cbn in Hmode, Hown. subst sh. cbn [verifySeal shared PowMode]. change (Difficulty h') with (Difficulty h). change (MixDigest h') with digest. rewrite (proj2 (Z.leb_gt _ _) HD). rewrite EP. rewrite decide_True by done. rewrite (proj2 (Z.ltb_ge _ _) Hle). by destruct Hmode as [-> | ->].
Qed.

(** C25: The header a miner prepares and seals is accepted, in normal and in test
    mode, by an engine whose cache and dataset were generated and have at most
    4 GB: with the difficulty [Prepare] gives it and the nonce that the search
    over the dataset finds, it verifies with the cache and with the dataset, and
    [VerifyHeader] accepts it, given that it is later than its parent, not too
    far in the future, has at most 32 bytes of extra data and keeps the rules of
    the forks. *)
Theorem mined_header_verifies e chain now h0 h ds fuel seed h' parent : Prepare keccak256 chain h0 = Ret h → GetHeader chain (ParentHash h0) (u64 (u64 (Number h0) - 1)) = Some parent → 0 <= Number parent →
  generated e (u64 (Number h0)) ds → is_u64 seed → mine keccak512 keccak256 fuel ds h seed = Some (Some h') →
  Z.of_nat (length (Extra h0)) <= 32 → Time parent < Time h0 <= u64 (now + 15) → VerifyDAOHeaderExtraData (Config chain) h' = Ret tt → VerifyForkHashes keccak256 (Config chain) h' false = Ret tt →
  (∀ fulldag, verifySeal keccak512 keccak256 e h' fulldag = Ret tt) ∧ VerifyHeader keccak512 keccak256 e chain now h' true = Ret tt.
Proof.
  intros HPr HPa HN HG Hs Hm HE HT HDAO HF. unfold Prepare in HPr. rewrite HPa in HPr. injection HPr as <-. set (h := set_Difficulty h0 _) in *. pose proof (difficulty_min (Config chain) (Time h0) parent HN) as Hmin. unfold MinimumDifficulty in Hmin.
  assert (HS : ∀ fulldag, verifySeal keccak512 keccak256 e h' fulldag = Ret tt) by (intros fulldag; eapply (mined_seal e h ds fuel seed h' fulldag); [exact HG|cbn; lia|done|done]). split; [done|].
  assert (Hf : ParentHash h' = ParentHash h0 ∧ Number h' = Number h0 ∧ Extra h' = Extra h0 ∧ Time h' = Time h0 ∧ Difficulty h' = CalcDifficulty keccak256 (Config chain) (Time h0) parent) by (unfold mine in Hm; destruct (search _ _ _ _ _ _ _) as [[[n digest]|]|]; [|done|done]; cbn in Hm; injection Hm as <-; done).
  destruct Hf as (F1 & F2 & F3 & F4 & F5).
  assert (HV : verifyHeader keccak512 keccak256 e chain now h' parent false true = Ret tt).
  { unfold verifyHeader, MaximumExtraDataSize, allowedFutureBlockTime. rewrite F3, F4, F5. rewrite (proj2 (Z.ltb_ge _ _) HE). cbn [negb andb]. rewrite (proj2 (Z.ltb_ge _ _)) by lia. rewrite (proj2 (Z.leb_gt _ _)) by lia. rewrite Z.eqb_refl. cbn [negb]. unfold VerifySeal. rewrite HS. cbn [mbind outcome_bind]. rewrite HDAO. exact HF. }
  unfold VerifyHeader. cbv zeta. rewrite F1, F2, HPa.
  destruct (GetHeader chain (Ethash.Hash keccak256 h') (u64 (Number h0))); destruct (PowMode e); done.
Qed.

End WithKeccak.
(** ** Concrete chains *)

(** A stand-in of Keccak-256 that tells the headers below apart. *)
Definition demo_hash (s : bytes) : bytes := fixed_be 32 (foldl (λ a b, (a * 257 + b2z b + 1) mod 4294967291) 0 s).

Definition demo_header (parent : bytes) (number time difficulty : Z) : Header :=
  mk_Header parent (replicate 32 Byte.x00) (replicate 20 Byte.x01) (replicate 32 Byte.x00) (replicate 32 Byte.x00) (replicate 32 Byte.x00) (replicate 256 Byte.x00)
    difficulty number 8000000 0 time [] (replicate 32 Byte.x00) (replicate 8 Byte.x00).

Definition demo_config : ChainConfig := mk_ChainConfig None None false None [] None None None.

Definition hd_g : Header := demo_header (replicate 32 Byte.x00) 0 0 131072.

Lemma difficulty_bounds_witness : MinimumDifficulty <= CalcDifficulty demo_hash demo_config 20 hd_g ∧ Difficulty hd_g - 99 * (Difficulty hd_g / 2048) <= CalcDifficulty demo_hash demo_config 20 hd_g.
Proof. destruct (difficulty_bounds demo_hash demo_config 20 hd_g) as (H1 & [H2 _] & _); [cbn; lia|cbn; lia|cbn; lia|]. split; [exact H1|exact H2]. Defined.

(** Two blocks, and a third one with an uncle of number [n]. *)
Definition demo_fake : Engine := mk_Engine ModeFake 12345 (λ _, []) (λ _, None) None.
Definition hd_a : Header := demo_header (Ethash.Hash demo_hash hd_g) 1 5 131136.
Definition hd_u (n : Z) : Header := demo_header (Ethash.Hash demo_hash hd_g) n 10 131136.
Definition demo_block (n : Z) : Block := mk_Block (demo_header (Ethash.Hash demo_hash hd_a) 2 12 131200) [hd_u n].
Definition demo_chain : ChainReader := mk_ChainReader demo_config (λ _ _, None)
  (λ h n, if decide (n = 1 ∧ h = Ethash.Hash demo_hash hd_a) then Some (mk_Block hd_a []) else if decide (n = 0 ∧ h = Ethash.Hash demo_hash hd_g) then Some (mk_Block hd_g []) else None).

Definition accepted (r : ER unit) : bool := match r with Ret _ => true | _ => false end.

Lemma accepted_Ret r : accepted r = true → r = Ret tt.
Proof. by destruct r as [[]| |]. Qed.

Lemma accepted_uncles_witness : PowMode demo_fake ≠ ModeFullFake ∧ VerifyUncles demo_512 demo_hash demo_fake demo_chain 100 (demo_block 1) = Ret tt ∧ NoDup (Ethash.Hash demo_hash <$> Uncles (demo_block 1)).
Proof.
  assert (HV : VerifyUncles demo_512 demo_hash demo_fake demo_chain 100 (demo_block 1) = Ret tt) by (apply accepted_Ret; vm_compute; reflexivity).
  split; [discriminate|]. split; [exact HV|]. destruct (accepted_uncles demo_512 demo_hash demo_fake demo_chain 100 (demo_block 1)) as (_ & H & _); [discriminate|exact HV|exact H].
Defined.

(** An uncle with the number 10^18 is accepted: no check compares it with the
    number of its parent. Its miner gets more than 10^17 rewards, where the
    uncle of the right number gets seven eighths of one. *)
Lemma uncle_number_mints :
  VerifyUncles demo_512 demo_hash demo_fake demo_chain 100 (demo_block (10 ^ 18)) = Ret tt ∧
  uncle_reward FrontierBlockReward 2 (hd_u 1) = 7 * FrontierBlockReward / 8 ∧ 10 ^ 17 * FrontierBlockReward <= uncle_reward FrontierBlockReward 2 (hd_u (10 ^ 18)).
Proof. split; [apply accepted_Ret; vm_compute; reflexivity|]. split; [vm_compute; reflexivity|]. vm_compute. discriminate. Qed.

(** A test engine over a generated dataset, and a header that is mined at the
    first attempt. *)
Definition test_chain : ChainReader := mk_ChainReader demo_config (λ _ n, if n =? 0 then Some hd_g else None) (λ _ _, None).
Definition test_header : Header := demo_header (replicate 32 Byte.x00) 1 10 0.

Lemma hashimoto_result (k512 k256 : bytes → bytes) hash nonce size f digest result : hashimoto k512 k256 hash nonce size f = Some (digest, result) → ∃ x, result = k256 x.
Proof.
  unfold hashimoto. destruct (Uint32 _) as [w|]; [|done]. cbn [mbind option_bind]. destruct (mix_dataset _ _ _ _ _ _ _) as [mix|]; [|done]. cbn [mbind option_bind]. intros [= _ <-]. eauto.
Qed.

Definition test_size : Z := 32 * 1024.

Lemma test_engine : ∃ cache ds order, generateCache demo_512 (Z.to_nat 16) [] = Some cache ∧ order ≡ₚ segments test_size 4 ∧ generateDataset demo_512 (Z.to_nat (test_size / 4)) cache order = Some ds ∧
  ∀ hash nonce, ∃ digest, hashimotoFull demo_512 demo_256 ds hash nonce = Some (digest, replicate 32 Byte.x00).
Proof.
  destruct (generateCache_ok demo_512 demo_512_length 1 []) as (cache & Ec & Hc); [lia|lia|]. set (n := Z.to_nat (test_size / 4)). assert (En : 4 * Z.of_nat n = test_size) by reflexivity.
  destruct (dataset_holds_items demo_512 demo_512_length cache 1 Hc n ltac:(rewrite En; unfold test_size; lia) 4 (segments test_size 4)) as (ds & Ed & L & HI); [lia|by rewrite En|].
  exists cache, ds, (segments test_size 4). split_and!; [exact Ec|done|exact Ed|]. intros hash nonce. destruct (light_full_run demo_512 demo_256 demo_512_length n cache 1 ds Hc ltac:(rewrite En; unfold test_size; lia) L HI hash nonce) as (dg & r & E & _ & _). exists dg. rewrite E. destruct (hashimoto_result _ _ _ _ _ _ _ _ E) as [x ->]. done.
Qed.

Lemma mined_header_verifies_witness : ∃ e h' ds, generated demo_512 e 1 ds ∧ mine demo_512 demo_256 1 ds (set_Difficulty test_header 131136) 0 = Some (Some h') ∧ VerifyHeader demo_512 demo_256 e test_chain 100 h' true = Ret tt.
Proof.
  destruct test_engine as (cache & ds & order & Ec & HP & Ed & HF). set (e := mk_Engine ModeTest 0 (λ _, cache) (λ _, Some ds) None). assert (HG : generated demo_512 e 1 ds).
  { split; [by right|done|by left|exists 1, []; split_and!; [lia|lia|exact Ec]|exists 4, order; split_and!; [lia|lia|exact HP|exact Ed]|split; [vm_compute; split; discriminate|reflexivity]]. }
  set (h := set_Difficulty test_header 131136). destruct (HF (SealHash demo_256 h) 0) as (dg & E).
  assert (Hm : ∃ h', mine demo_512 demo_256 1 ds h 0 = Some (Some h') ∧ Number h' = 1).
  { unfold mine. cbn [search]. rewrite E. cbn [mbind option_bind]. rewrite (proj2 (Z.leb_le _ _)) by (vm_compute; discriminate). eexists. split; reflexivity. }
  destruct Hm as (h' & Hm & Hn). exists e, h', ds. split; [exact HG|]. split; [exact Hm|].
  refine (proj2 (mined_header_verifies demo_512 demo_256 demo_512_length e test_chain 100 test_header h ds 1 0 h' hd_g _ _ _ _ _ _ _ _ _ _)); [vm_compute; reflexivity|reflexivity|cbn; lia|exact HG|by split|exact Hm|cbn; lia|vm_compute; split; [reflexivity|discriminate]|reflexivity|reflexivity].
Defined.

End EthashClaims.
